(* ===== verification/_CoqProject ===== *)
-Q . S2P
Prelude.v
Memory.v
Numbers.v
Cstrings.v
Stringbuf.v
StringbufCorrect.v
StringLists.v
Keys.v
Checksum.v
Time.v
Words.v
Utf8.v
Utf8Correct.v
Skel.v
SkelCorrect.v
FsSkels.v
FsSkelsCorrect.v
MergeRange.v
RangelistMerge.v
RangelistUnion.v
Rangelist.v
RangelistLoop.v
RangelistAlgebra.v
Paths.v
Relpaths.v
Uri.v
Subst.v
SubstCorrect.v
SubstStreams.v
Keywords.v
Sorts.v
PathDriver.v
PathDriverCorrect.v
MergeinfoText.v
MergeinfoParse.v
Mergeinfo.v
MergeinfoAlgebra.v
TextDelta.v
Svndiff.v
SvndiffCodec.v
Xdelta.v
XdeltaMatch.v
XdeltaCorrect.v
DeltaStream.v
DeltaStreamCorrect.v
RangeIndex.v
RangeIndexCorrect.v
ComposeDelta.v
ComposeTheorems.v
DiffLcs.v
DiffLcsRounds.v
DiffLcsCorrect.v
DiffTokens.v
DiffTokensCorrect.v
Diff.v
DiffCorrect.v
Diff3.v
Diff3Chain.v
Diff3Conflict.v
Diff3Correct.v
Diff3Theorems.v
DiffNormalize.v
DiffNormalizeCorrect.v
DiffMemory.v
DiffMemoryCorrect.v
DiffMerge.v
DiffMergeCorrect.v
DiffUnified.v
DiffUnifiedCorrect.v
Marshal.v
MarshalBuffers.v
MarshalItems.v
MarshalDelivery.v
MarshalFormats.v
MarshalCommands.v
UriCanonical.v
Editorp.v
EditorCalls.v
EditorCorrect.v
