(* ===== verification/Prelude.v ===== *)
(** * Subversion: merge tracking, deltas, diffs and stored records

    A verification development of pieces of the core of Subversion: the
    merge-tracking data, paths, skeletons, checksums and text scanners of
    libsvn_subr, the text deltas of libsvn_delta (computing, sending, composing
    and applying them) and its path driver, the comparison of files of
    libsvn_diff, the stored records of libsvn_fs_base, and the protocol of
    libsvn_ra_svn.

    ** The program

    Merge tracking.  The [svn:mergeinfo] property of a directory maps source
    paths to rangelists, sorted arrays of revision ranges that are marked
    inheritable or not.  [libsvn_subr/mergeinfo.c] parses and prints it and
    computes with it; it uses the comparators and array operations of
    [sorts.c], [svn_hash_diff] of [hash.c], [svn_revnum_parse] of [types.c] and
    the canonical paths of [dirent_uri.c] and [path.c].

    Text deltas.  A delta is a stream of windows, each a list of copy and
    insert instructions that turn a view of the source text into the next
    piece of the target.  [text_delta.c] cuts the two texts into windows and
    applies windows to a source; [xdelta.c] computes the instructions of one
    window from a table of the checksums of the source's blocks; [svndiff.c]
    is the byte format of a stream, with its incremental parser;
    [compose_delta.c] composes two windows into one.  The parts
    are connected by window handlers (a function and a baton), as in the C.

    Diffs.  [libsvn_diff] compares sequences of tokens that a datasource
    produces: [token.c] numbers them, [lcs.c] finds a longest common
    subsequence, [diff.c] and [diff3.c] make two-way and three-way diffs of it,
    [util.c] normalises lines and drives output callbacks, and [diff_memory.c]
    does all of it for texts in memory, with unified and merge output.

    Tree deltas.  A commit or a replay visits a list of paths:
    [path_driver.c] opens and closes the directories around them, with the
    path functions of [dirent_uri.c].

    Stored records.  The Berkeley DB filesystem keeps its revisions,
    transactions, node revisions and representations as skels, Lisp-like byte
    strings ([skel.c]); [util/fs_skels.c] converts the records of [fs.h] to
    skels and back, with ids ([id.c]), base-36 keys ([key-gen.c]), checksums
    ([checksum.c]), timestamps ([time.c]) and the numbers of [string.c].

    Text scanners.  [eol.c] and [utf_validate.c] search texts a machine word
    at a time.

    Strings and translation.  [string.c] has counted strings, which grow in
    blocks of memory, and functions on C strings; [path.c] and [dirent_uri.c]
    escape and split URIs.  [subst.c] translates the line ends and the keywords
    of a text between its repository and its working form, chunk by chunk, with
    streams that translate what is read or written; the keyword's values are
    made from URLs, revisions and dates ([time.c]).

    The protocol.  A client and a server of svn:// URLs exchange commands and
    responses over a connection.  [libsvn_ra_svn/marshal.c] has the connection
    with its buffers and its handler for blocked writes, the items (numbers,
    strings, words and lists) and their text, the tuples that format strings
    describe, the loop that serves commands, and the error chains of failures.
    [editorp.c] sends the calls of an editor as commands, and drives an editor
    with the commands it reads: commits and updates go over a connection so.

    ** The files

    - [Prelude]: error codes, outcomes, bytes, machine integers, qsort,
      array operations, tactics.
    - [Memory]: blocks of memory.
    - [Numbers]: [svn__ui64toa], [strtol] and their lemmas; [Cstrings]: C
      strings, tokenizing and the number parsers of [string.c].
    - [Stringbuf]: counted strings; [StringbufCorrect]: their theorems.
    - [StringLists]: splitting, joining and comparing C strings.
    - [Keys]: the base-36 keys of both filesystems, and node-revision ids.
    - [Checksum]: checksums; [Time]: timestamps.
    - [Words], [Utf8]: the search for line ends and the validation of UTF-8;
      [Utf8Correct]: its theorem.
    - [Skel]: skels; [SkelCorrect]: their theorems.
    - [FsSkels]: the records of libsvn_fs_base and their skels;
      [FsSkelsCorrect]: their theorems.
    - [MergeRange]: [svn_merge_range_t], the meaning of a rangelist (the set
      of its revisions, [covers] and [covers_as]) and its well-formedness.
    - [RangelistMerge], [RangelistUnion]: [svn_rangelist_merge2].
    - [Rangelist]: the other operations on rangelists; [RangelistLoop],
      [RangelistAlgebra]: their theorems.
    - [Paths]: [canonicalize] and its variants, [svn_path_compare_paths].
    - [Relpaths]: joining, splitting and comparing paths, on their segments.
    - [Uri]: escaping, decoding and splitting URIs; [UriCanonical]:
      canonical URIs.
    - [Subst]: the translation of chunks, and translated streams;
      [SubstCorrect]: the invariant of the translation; [SubstStreams]: the
      streams.
    - [Keywords]: keyword hashes, and the expansion of one keyword.
    - [Sorts]: [svn_sort__hash], the lower-bound search.
    - [PathDriver]: [svn_delta_path_driver]; [PathDriverCorrect]: the
      monitor of an editor's rules, and the theorem.
    - [MergeinfoText]: the printer and the parser of [svn:mergeinfo];
      [MergeinfoParse]: their theorems.
    - [Mergeinfo]: mergeinfo hashes and catalogs; [MergeinfoAlgebra]: their
      theorems.
    - [TextDelta]: windows, the builder and the interpreter of instructions.
    - [Svndiff]: the svndiff encoder and decoder; [SvndiffCodec]: their
      theorems.
    - [Xdelta]: the delta computation; [XdeltaMatch], [XdeltaCorrect]: its
      theorems.
    - [DeltaStream]: delta streams, pushed and pulled, the applier and the
      full-text senders; [DeltaStreamCorrect]: their theorems, and the
      composition of the three text-delta parts.
    - [RangeIndex], [ComposeDelta]: window composition; [RangeIndexCorrect],
      [ComposeTheorems]: its theorems.
    - [DiffLcs]: [svn_diff__lcs] and the counting of tokens;
      [DiffLcsRounds], [DiffLcsCorrect]: its theorems.
    - [DiffTokens]: the token tree and the interface between the diff
      algorithms and the datasources; [DiffTokensCorrect]: its theorems.
    - [Diff]: two-way diffs and the output driver; [DiffCorrect]: theorems.
    - [DiffNormalize]: the normalisation of lines; [DiffNormalizeCorrect]:
      its theorem.
    - [DiffMemory]: diffs of in-memory texts; [DiffMemoryCorrect]: theorems.
    - [Diff3]: three-way diffs; [Diff3Chain], [Diff3Conflict],
      [Diff3Correct], [Diff3Theorems]: theorems.
    - [DiffMerge]: the merge output; [DiffMergeCorrect]: its theorems.
    - [DiffUnified]: the unified output; [DiffUnifiedCorrect]: its theorems.
    - [Marshal]: connections, items, tuples, commands and responses;
      [MarshalBuffers]: the buffers; [MarshalItems]: the grammar of items;
      [MarshalDelivery]: independence of the delivery; [MarshalFormats]:
      tuples and their formats; [MarshalCommands]: commands, responses and
      property lists.
    - [Editorp]: the two sides of an editor across a connection;
      [EditorCalls]: sequences of calls, the rules they keep, and their text;
      [EditorCorrect]: the theorems.

    ** How the model reads

    A C function is a Rocq function of the same name.  An [svn_error_t *]
    result is a [result]: [Ok], [Error] with the error's code (message texts
    are not modelled), [Aborted] for a failed assertion, [Undefined] for an
    access outside of a buffer or to an object that was freed.  Output parameters are components of the
    result; arrays that are modified in place are returned.  Allocation
    always succeeds.  Revision numbers, sizes and offsets
    are [Z]; arithmetic that can wrap is written with [u32], [u64] or [s64]
    where it can.  Bytes are [Byte.byte], C strings and buffers lists of
    bytes, an [apr_hash_t] a [gmap].  Where a hash is iterated and the order
    shows, the order is the [gmap]'s and the theorems show that the outcome
    does not depend on it.

    Loops are structural where they walk a list; the others take fuel,
    computed at the call from the loop's measure ([merge2_loop],
    [lower_bound_loop], [compute_delta_loop], ...).  [OutOfFuel] is an outcome
    of its own, so every theorem that gives the outcome of a call also shows
    that its fuel is enough.

    Code that is not part of the repository is a parameter with its
    documented laws: [qsort] of the C library (class [Qsort]: a sorted
    permutation), zlib (class [Zlib]: [uncompress] inverts [compress2], and
    the outcomes they can have), APR's checksum functions (class [Apr]),
    digests (class [AprDigests]), calendar (class [AprTime]), local time
    (class [LocalTime]), error texts (class [ErrorText]), handlers of blocked
    writes (class [BlockHandlerOk]), the polling of a transport (class
    [InputWaitingOk]), pools (class [AprPool]), [apr_strtok] (class
    [AprStrtok]) and [apr_strtoi64] (class [AprStrtoi64]).  Each
    class has an instance, with which the theorems are evaluated.

    ** What the theorems show

    Each property has its number, [C1] to [C40], in the comment before it,
    which states the conditions under which it holds; this is an overview.

    - Text deltas: a delta computed from any two texts, sent through svndiff
      and applied to the source gives the target (C1, C32), because the
      window computation (C9), the codec (C10), the interpreter (C36) and
      the applier (C37) each meet their contract; the svndiff parser is safe
      on any input (C27) and does not depend on how the input is cut (C33);
      composing two windows is applying the one after the other (C3).
    - Diffs: the chain of [svn_diff__lcs] is a longest common subsequence
      (C8), and the diffs of texts are diffs of their lines (C4, C6), up to
      the normalisation asked for (C34); the merged text and the unified
      diff are what the diff says (C5, C7).
    - Rangelists are sets of revisions: union (C2), intersection (C28),
      difference (C29); mergeinfos are sets of path and revision pairs,
      where their rangelists can be merged and compared (C30, C31).
    - Mergeinfo text: printing and parsing are inverse (C11).
    - Paths: canonicalizing gives canonical paths (C40), and a drive over a
      list of paths obeys the rules of an editor (C12).
    - Stored records: skels are parsed to what was written and any bytes are
      parsed safely (C22, C38), so that the records of the filesystem are
      read as they were stored (C26), with their checksums, times and keys
      (C39).
    - Strings: counted strings stay well formed and act as lists of bytes,
      for sizes that do not wrap (C25).
    - Translation: a text is divided into plain bytes, line ends and
      keywords, safely (C20); line ends are those of the whole text, however
      it is cut (C23), reading gives what writing gives (C24), and keywords
      are expanded and contracted (C35).
    - Protocol: items are read by a grammar that has all of the documented
      one (C15), whatever way the bytes arrive (C17); tuples are read as
      they were written (C16), a server answers every input and ends (C18,
      C19), and an editor across a connection does what it does without one,
      errors included (C13, C14).
    - Scanners: the validation of UTF-8 accepts the encodings of scalar
      values, for texts that the build can read by words (C21).

    Some theorems without a number are of less general interest; others show inputs on which the code departs from
    its documentation ([svn_rangelist_merge2_corrupts],
    [svn_rangelist_intersect_mixed], [apply_window_gap],
    [translate_keyword_subst_overflow], [merge_only_conflicts_close],
    [svn_ra_svn_read_item_undocumented], [close_dir_freed] and others).

    ** Not modelled

    Error messages, pools, cancellation and character-set conversion.  DOS
    paths of dirent_uri.c.  Special files.  The tree delta editors
    of libsvn_delta.  The rest of libsvn_subr, and
    the other libraries (the storage of the filesystems, repositories, working
    copy, client, the rest of repository access, servers): their behaviour is in I/O, SQL
    and network protocols. *)

From Stdlib Require Export Sorting.Sorted.
From stdpp Require Export base tactics numbers list strings countable gmap sorting.
From Stdlib Require Export ZArith Lia ZifyBool Strings.Byte.
From Stdlib Require Strings.String Strings.Ascii.

#[global] Open Scope Z_scope.

(** ** Error values *)

(** The error codes (the [apr_err] field of an [svn_error_t]) that the
    modelled functions create. *)
Inductive svn_errno :=
  | SVN_ERR_REVNUM_PARSE_FAILURE
  | SVN_ERR_MERGEINFO_PARSE_ERROR
  | SVN_ERR_SVNDIFF_INVALID_HEADER
  | SVN_ERR_SVNDIFF_CORRUPT_WINDOW
  | SVN_ERR_SVNDIFF_BACKWARD_VIEW
  | SVN_ERR_SVNDIFF_INVALID_OPS
  | SVN_ERR_SVNDIFF_UNEXPECTED_END
  | SVN_ERR_SVNDIFF_INVALID_COMPRESSED_DATA
  | SVN_ERR_STREAM_MALFORMED_DATA
  | SVN_ERR_STREAM_UNRECOGNIZED_DATA
  | SVN_ERR_INCOMPLETE_DATA
  | SVN_ERR_FS_MALFORMED_SKEL
  | SVN_ERR_INCORRECT_PARAMS
  | SVN_ERR_BAD_DATE
  | SVN_ERR_BAD_CHECKSUM_KIND
  | SVN_ERR_BAD_CHECKSUM_PARSE
  | SVN_ERR_IO_INCONSISTENT_EOL
  | SVN_ERR_RA_SVN_MALFORMED_DATA
  | SVN_ERR_RA_SVN_CONNECTION_CLOSED
  | SVN_ERR_CANCELLED
  | APR_ENOMEM.

#[global] Instance svn_errno_eq_dec : EqDecision svn_errno.
Proof. solve_decision. Defined.

(** The outcome of a C call.  [Aborted] is a failed [assert] or
    [SVN_ERR_ASSERT]; [Undefined] is an access outside of a buffer; [OutOfFuel]
    is never an outcome of the code: it marks a loop whose fuel was too small,
    and the termination theorems exclude it. *)
Inductive result (A : Type) :=
  | Ok (a : A)
  | Error (e : svn_errno)
  | Aborted
  | Undefined
  | OutOfFuel.
Arguments Ok {A} a.
Arguments Error {A} e.
Arguments Aborted {A}.
Arguments Undefined {A}.
Arguments OutOfFuel {A}.

Definition rbind {A B} (m : result A) (k : A → result B) : result B :=
  match m with
  | Ok a => k a
  | Error e => Error e
  | Aborted => Aborted
  | Undefined => Undefined
  | OutOfFuel => OutOfFuel
  end.

(** [SVN_ERR_ASSERT (cond)] and [assert (cond)], followed by the rest. *)
Definition guarded {A} (cond : bool) (k : result A) : result A :=
  if cond then k else Aborted.

Declare Scope svn_scope.
Delimit Scope svn_scope with svn.
Notation "'let!' x := m 'in' k" := (rbind m (λ x, k))
  (at level 10, x pattern, m at level 100, k at level 200)
   : svn_scope.
Notation "'assert!' c 'in' k" := (guarded c k)
  (at level 10, c at level 100, k at level 200)
   : svn_scope.
#[global] Open Scope svn_scope.

(** ** Bytes and machine integers *)

#[global] Instance byte_eq_dec : EqDecision byte := Byte.byte_eq_dec.

#[global] Instance byte_countable : Countable byte.
Proof.
  refine (inj_countable Byte.to_N Byte.of_N _). apply Byte.of_to_N.
Defined.

Definition NUL : byte := x00.
Definition NEWLINE : byte := x0a.

(** [*s] of a C string, whose terminator is not in the list. *)
Definition deref (s : list byte) : byte := match s with c :: _ => c | [] => NUL end.

(** [(unsigned char) c]. *)
Definition byte_val (c : byte) : Z := Z.of_N (Byte.to_N c).

(** The conversion of an integer to [unsigned char]. *)
Definition byte_of (z : Z) : byte := default x00 (Byte.of_N (Z.to_N (z mod 256))).

Definition byte_eqb (a b : byte) : bool := bool_decide (a = b).

Notation "a =b? b" := (byte_eqb a b) (at level 65, no associativity) : svn_scope.

Lemma byte_eqb_eq a b : a =b? b = true ↔ a = b.
Proof. apply bool_decide_eq_true. Qed.
Lemma byte_eqb_ne a b : a =b? b = false ↔ a ≠ b.
Proof. apply bool_decide_eq_false. Qed.
Lemma byte_eqb_refl a : a =b? a = true.
Proof. by apply byte_eqb_eq. Qed.
Lemma byte_eqb_spec a b : reflect (a = b) (a =b? b).
Proof. apply bool_decide_reflect. Qed.

Lemma byte_val_inj a b : byte_val a = byte_val b → a = b.
Proof.
  intros H. assert (Byte.to_N a = Byte.to_N b) as Hn by (unfold byte_val in H; lia).
  assert (Byte.of_N (Byte.to_N a) = Byte.of_N (Byte.to_N b)) as Ho by by rewrite Hn.
  rewrite !Byte.of_to_N in Ho. by injection Ho.
Qed.

Lemma byte_val_range c : 0 <= byte_val c < 256.
Proof. unfold byte_val. pose proof (Byte.to_N_bounded c). lia. Qed.

Lemma byte_val_of z : byte_val (byte_of z) = z mod 256.
Proof.
  unfold byte_of, byte_val. pose proof (Z.mod_pos_bound z 256 ltac:(lia)).
  destruct (Byte.of_N (Z.to_N (z mod 256))) as [c|] eqn:Hc; simpl.
  - apply Byte.to_of_N in Hc. lia.
  - apply Byte.of_N_None_iff in Hc. lia.
Qed.

Lemma byte_of_val c : byte_of (byte_val c) = c.
Proof. apply byte_val_inj. rewrite byte_val_of, Z.mod_small; [done|apply byte_val_range]. Qed.

(** The conversion of a wider integer to a 32-bit signed one. *)
Definition s32 (z : Z) : Z := (z + 0x80000000) mod 0x100000000 - 0x80000000.

(** ** Revision numbers *)

Definition SVN_INVALID_REVNUM : Z := -1.
Definition SVN_IS_VALID_REVNUM (n : Z) : bool := 0 <=? n.

(** The decimal digits of a non-negative number. *)
Definition digit (d : Z) : byte := default x00 (Byte.of_N (Z.to_N (48 + d))).

Fixpoint decimal (fuel : nat) (n : Z) : list byte :=
  match fuel with
  | O => []
  | S fuel => (if n <? 10 then [] else decimal fuel (n / 10)) ++ [digit (n mod 10)]
  end.

(** [printf ("%ld")]; 20 digits are enough for 64 bits. *)
Definition printf_ld (n : Z) : list byte :=
  if n <? 0 then "-"%byte :: decimal 20 (- n) else decimal 20 n.

(** Conversions to [apr_uint32_t], to [apr_size_t] (64 bits) and to
    [svn_filesize_t] (64 bits, signed; two's complement). *)
Definition u32 (z : Z) : Z := z mod 0x100000000.
Definition u64 (z : Z) : Z := z mod 0x10000000000000000.
Definition s64 (z : Z) : Z := (z + 0x8000000000000000) mod 0x10000000000000000
                              - 0x8000000000000000.

Lemma u64_small z : 0 <= z < 0x10000000000000000 → u64 z = z.
Proof. apply Z.mod_small. Qed.

Lemma u32_small z : 0 <= z < 0x100000000 → u32 z = z.
Proof. apply Z.mod_small. Qed.

Lemma s64_small z : - 0x8000000000000000 <= z < 0x8000000000000000 → s64 z = z.
Proof. intros. unfold s64. rewrite Z.mod_small; lia. Qed.

(** The high and the low bits of a number, put together again. *)
Lemma lor_split w n : 0 <= n → Z.lor (Z.shiftl (Z.shiftr w n) n) (w mod 2 ^ n) = w.
Proof.
  intros Hn. apply Z.bits_inj'. intros i Hi. rewrite Z.lor_spec.
  destruct (Z.lt_ge_cases i n).
  - rewrite Z.shiftl_spec_low, Z.mod_pow2_bits_low by lia. done.
  - rewrite Z.shiftl_spec, Z.shiftr_spec, Z.mod_pow2_bits_high by lia.
    rewrite orb_false_r. f_equal. lia.
Qed.

Lemma lor_add high low n :
  0 <= n → 0 <= low < 2 ^ n → Z.lor (Z.shiftl high n) low = high * 2 ^ n + low.
Proof.
  intros Hn Hlow. rewrite <- (lor_split (high * 2 ^ n + low) n) by done.
  rewrite Z.shiftr_div_pow2 by done. pose proof (Z.pow_pos_nonneg 2 n).
  replace ((high * 2 ^ n + low) / 2 ^ n) with high
    by (rewrite Z.add_comm, Z.div_add, Z.div_small by lia; lia).
  rewrite Z.add_comm, Z.mod_add, Z.mod_small by lia. done.
Qed.

(** ** Sorting

    The C library's [qsort]: any function that permutes the array and leaves
    it ordered by the comparison function, when that is a total preorder.  The
    order of elements that compare equal is unspecified by the C standard, so
    the theorems are proved for every instance. *)
Class Qsort := {
  qsort : ∀ {A : Type}, (A → A → Z) → list A → list A;
  qsort_perm : ∀ {A} (cmp : A → A → Z) l, qsort cmp l ≡ₚ l;
  qsort_sorted : ∀ {A} (cmp : A → A → Z) l,
    (∀ x y, x ∈ l → y ∈ l → cmp x y ≤ 0 ∨ cmp y x ≤ 0) →
    (∀ x y z, x ∈ l → y ∈ l → z ∈ l → cmp x y ≤ 0 → cmp y z ≤ 0 → cmp x z ≤ 0) →
    StronglySorted (λ x y, cmp x y ≤ 0) (qsort cmp l);
}.

(** The laws can be met: insertion sort. *)
Section InsertionSort.
Context {A : Type} (cmp : A → A → Z).

Fixpoint sort_insert (x : A) (l : list A) : list A :=
  match l with
  | [] => [x]
  | y :: l' => if cmp x y <=? 0 then x :: l else y :: sort_insert x l'
  end.

Fixpoint insertion_sort (l : list A) : list A :=
  match l with [] => [] | x :: l => sort_insert x (insertion_sort l) end.

Lemma sort_insert_perm x l : sort_insert x l ≡ₚ x :: l.
Proof.
  induction l as [|y l IH]; simpl; [done|]. destruct (cmp x y <=? 0); [done|].
  rewrite IH. apply Permutation_swap.
Qed.

Lemma insertion_sort_perm l : insertion_sort l ≡ₚ l.
Proof. induction l as [|x l IH]; simpl; [done|]. by rewrite sort_insert_perm, IH. Qed.

Lemma insertion_sort_sorted l :
  (∀ x y, x ∈ l → y ∈ l → cmp x y ≤ 0 ∨ cmp y x ≤ 0) →
  (∀ x y z, x ∈ l → y ∈ l → z ∈ l → cmp x y ≤ 0 → cmp y z ≤ 0 → cmp x z ≤ 0) →
  StronglySorted (λ x y, cmp x y ≤ 0) (insertion_sort l).
Proof.
  induction l as [|x l IH]; simpl; [constructor|]. intros Htot Htrans.
  assert (Hs : StronglySorted (λ x y, cmp x y ≤ 0) (insertion_sort l)).
  { apply IH; [intros; apply Htot|intros ??? ???; apply Htrans]; by right. }
  assert (Hin : ∀ y, y ∈ insertion_sort l → y ∈ l)
    by (intros y; by rewrite insertion_sort_perm).
  clear IH. induction Hs as [|y l' Hs IH Hall]; simpl; [repeat constructor|].
  assert (∀ z, z ∈ l' → cmp y z ≤ 0) as Hy by by apply Forall_forall.
  assert (y ∈ l) by (apply Hin; by left).
  destruct (Z.leb_spec (cmp x y) 0) as [Hxy|Hxy]; constructor.
  - by constructor.
  - constructor; [done|]. apply Forall_forall. intros z Hz.
    apply (Htrans x y z); [by left|by right| |done|by apply Hy].
    right. apply Hin. by right.
  - apply IH. intros z Hz. apply Hin. by right.
  - apply Forall_forall. intros z. rewrite sort_insert_perm, elem_of_cons.
    intros [->|Hz]; [|by apply Hy].
    destruct (Htot x y); [by left|by right|lia|done].
Qed.
End InsertionSort.

#[global] Instance insertion_Qsort : Qsort := {|
  qsort := @insertion_sort;
  qsort_perm := @insertion_sort_perm;
  qsort_sorted := @insertion_sort_sorted;
|}.

(** ** Arrays ([apr_array_header_t]) *)

(** [svn_sort__array_insert]: aborts when the index is out of range. *)
Definition svn_sort__array_insert {A} (new_element : A) (array : list A)
    (insert_index : nat) : result (list A) :=
  assert! (insert_index <=? length array)%nat in
  Ok (take insert_index array ++ new_element :: drop insert_index array).

Definition svn_sort__array_delete {A} (arr : list A)
    (delete_index elements_to_delete : nat) : list A :=
  if (delete_index <? length arr)%nat && (0 <? elements_to_delete)%nat
     && (elements_to_delete + delete_index <=? length arr)%nat
  then take delete_index arr ++ drop (delete_index + elements_to_delete) arr
  else arr.

(** ** Tactics *)

(** Resolve the first conditional of the goal whose condition the tactic [tac]
    proves (or refutes). *)
Ltac if_true_by tac :=
  match goal with
  | |- context [if ?b then _ else _] => replace b with true by tac
  end.
Ltac if_false_by tac :=
  match goal with
  | |- context [if ?b then _ else _] => replace b with false by tac
  end.
Tactic Notation "if_true" "by" tactic3(tac) := if_true_by tac.
Tactic Notation "if_false" "by" tactic3(tac) := if_false_by tac.

(** Split on the outermost conditional of the goal. *)
Ltac case_if :=
  match goal with
  | |- context [if ?b then _ else _] => let H := fresh "Hif" in destruct b eqn:H
  end.

(** ** Lists split at an index

    The modelled loops work on arrays by index; the proofs split the array at
    that index. *)
Section Split.
Context {A : Type}.
Implicit Types (l : list A) (x y : A).

Lemma insert_middle l1 l2 x y i :
  i = length l1 → <[i := y]> (l1 ++ x :: l2) = l1 ++ y :: l2.
Proof.
  intros ->. rewrite insert_app_r_alt by lia. by rewrite Nat.sub_diag.
Qed.

Lemma lookup_end l i : i = length l → l !! i = None.
Proof. intros ->. apply lookup_ge_None. lia. Qed.

Lemma array_insert_middle l1 l2 y i :
  i = length l1 → svn_sort__array_insert y (l1 ++ l2) i = Ok (l1 ++ y :: l2).
Proof.
  intros ->. unfold svn_sort__array_insert, guarded.
  if_true by (rewrite length_app; lia).
  by rewrite take_app_length, drop_app_length.
Qed.

Lemma array_insert_after l1 l2 x y i :
  i = length l1 →
  svn_sort__array_insert y (l1 ++ x :: l2) (S i) = Ok (l1 ++ x :: y :: l2).
Proof.
  intros ->. replace (l1 ++ x :: l2) with ((l1 ++ [x]) ++ l2) by by rewrite <- app_assoc.
  rewrite array_insert_middle by (rewrite length_app; simpl; lia).
  by rewrite <- app_assoc.
Qed.

Lemma array_delete_middle l1 l2 l i n :
  i = length l1 → n = length l →
  svn_sort__array_delete (l1 ++ l ++ l2) i n = l1 ++ l2.
Proof.
  intros -> ->. unfold svn_sort__array_delete.
  destruct l as [|x l].
  { rewrite andb_false_r. by simpl. }
  if_true by (rewrite !length_app; cbn [length]; lia).
  rewrite take_app_length.
  rewrite (app_assoc l1), drop_app_length'; [done|].
  rewrite length_app. simpl. lia.
Qed.

Lemma drop_middle l1 l2 i : i = length l1 → drop i (l1 ++ l2) = l2.
Proof. intros ->. apply drop_app_length. Qed.

Lemma drop_middle_S l1 l2 x i : i = length l1 → drop (S i) (l1 ++ x :: l2) = l2.
Proof.
  intros ->. replace (l1 ++ x :: l2) with ((l1 ++ [x]) ++ l2) by by rewrite <- app_assoc.
  apply drop_middle. rewrite length_app; simpl; lia.
Qed.
End Split.

(** Evaluate reads and writes at the border of a split array. *)
Ltac split_arrays :=
  repeat first
    [ rewrite insert_middle by done
    | rewrite array_insert_middle by done
    | rewrite array_insert_after by done
    | rewrite drop_middle by done
    | rewrite drop_middle_S by done ].
