(* ===== verification/Memory.v ===== *)
(** * Memory

    A block of memory is a list of bytes, addressed from 0.  An access outside of
    it is undefined. *)
From S2P Require Import Prelude.

Definition read_bytes (mem : list byte) (p n : nat) : result (list byte) :=
  if (p + n <=? length mem)%nat then Ok (take n (drop p mem)) else Undefined.

Definition write_bytes (mem : list byte) (p : nat) (bytes : list byte) : result (list byte) :=
  if (p + length bytes <=? length mem)%nat
  then Ok (take p mem ++ bytes ++ drop (p + length bytes) mem) else Undefined.

Definition read_byte (mem : list byte) (p : nat) : result byte :=
  from_option Ok Undefined (mem !! p).

(** ** Reading and writing memory *)

Lemma write_bytes_ok mem p bytes :
  (p + length bytes <= length mem)%nat →
  ∃ mem', write_bytes mem p bytes = Ok mem' ∧ length mem' = length mem
    ∧ (∀ q, (q < p ∨ p + length bytes <= q)%nat → mem' !! q = mem !! q)
    ∧ ∀ t, (t <= p)%nat →
        take (p + length bytes - t) (drop t mem') = take (p - t) (drop t mem) ++ bytes.
Proof.
  intros Hp. unfold write_bytes. if_true by lia. eexists. split; [done|].
  split; [rewrite !length_app, length_take, length_drop; lia|]. split.
  - intros q [Hq|Hq].
    + rewrite lookup_app_l by (rewrite length_take; lia). by rewrite lookup_take_lt by lia.
    + rewrite app_assoc, lookup_app_r by (rewrite length_app, length_take; lia).
      rewrite lookup_drop, length_app, length_take. f_equal. lia.
  - intros t Ht. rewrite drop_app_le by (rewrite length_take; lia).
    rewrite app_assoc, take_app_le
      by (rewrite length_app, length_drop, length_take; lia).
    rewrite skipn_firstn_comm. apply take_ge.
    rewrite length_app, length_take, length_drop. lia.
Qed.

Lemma read_bytes_ok mem p n :
  (p + n <= length mem)%nat → read_bytes mem p n = Ok (take n (drop p mem)).
Proof. intros. unfold read_bytes. by if_true by lia. Qed.
