(* ===== verification/Numbers.v ===== *)
(** * Numbers as text

    Decimal numbers: the C library's [strtol], and the printing functions at the
    end of [src/subversion/libsvn_subr/string.c]. *)
From S2P Require Import Prelude.

(** Arithmetic with division. *)
Ltac div_lia := Z.div_mod_to_equations; lia.

(** ** Reading *)

Definition LONG_MAX : Z := 2 ^ 63 - 1.
Definition LONG_MIN : Z := - 2 ^ 63.

(** [isspace] in the C locale. *)
Definition isspace (c : byte) : bool :=
  (c =b? " "%byte) || ((9 <=? byte_val c) && (byte_val c <=? 13)).

Definition isdigit (c : byte) : bool := (48 <=? byte_val c) && (byte_val c <=? 57).

Fixpoint skip_while (p : byte → bool) (s : list byte) : list byte :=
  match s with
  | c :: s' => if p c then skip_while p s' else s
  | [] => []
  end.

(** The value of the leading digits, and what follows them. *)
Fixpoint scan_digits (acc : Z) (s : list byte) : Z * list byte :=
  match s with
  | c :: s' => if isdigit c then scan_digits (10 * acc + (byte_val c - 48)) s'
               else (acc, s)
  | [] => (acc, [])
  end.

(** [strtol (str, &end, 10)]: saturates; [end] is [str] when there are no digits. *)
Definition strtol (str : list byte) : Z * list byte :=
  let s := skip_while isspace str in
  let '(negative, s) :=
    if deref s =b? "-"%byte then (true, drop 1 s)
    else if deref s =b? "+"%byte then (false, drop 1 s) else (false, s) in
  if isdigit (deref s) then
    let '(value, rest) := scan_digits 0 s in
    (Z.max LONG_MIN (Z.min LONG_MAX (if negative then - value else value)), rest)
  else (0, str).

(** ** Printing *)

Definition SVN_INT64_BUFFER_SIZE : nat := 21.

(** [decimal_table[n]] without its padding. *)
Definition decimal_table (n : Z) : list byte := [digit (n / 10); digit (n mod 10)].

(** [COPY_TWO_BYTES (target, decimal_table[n])]: [buffer] is what has been
    written, from the end of the buffer backwards; a pair that does not fit before
    it, the last byte being the terminator, would be outside of the buffer. *)
Definition COPY_TWO_BYTES (buffer : list byte) (n : Z) : result (list byte) :=
  if (length buffer + 2 <=? SVN_INT64_BUFFER_SIZE - 1)%nat then Ok (decimal_table n ++ buffer)
  else Undefined.

(** Four pairs a round; 64 bits are at most two rounds. *)
Fixpoint ui64toa_wide (fuel : nat) (number : Z) (buffer : list byte) : result (Z * list byte) :=
  if 100000000 <=? number then
    match fuel with
    | O => OutOfFuel
    | S fuel =>
        let reduced := u32 (number mod 100000000) in
        let number := number / 100000000 in
        let! buffer := COPY_TWO_BYTES buffer (reduced mod 100) in
        let reduced := reduced / 100 in
        let! buffer := COPY_TWO_BYTES buffer (reduced mod 100) in
        let reduced := reduced / 100 in
        let! buffer := COPY_TWO_BYTES buffer (reduced mod 100) in
        let reduced := reduced / 100 in
        let! buffer := COPY_TWO_BYTES buffer (reduced mod 100) in
        ui64toa_wide fuel number buffer
    end
  else Ok (number, buffer).

(** A pair a round; 32 bits are at most four rounds. *)
Fixpoint ui64toa_narrow (fuel : nat) (reduced : Z) (buffer : list byte) : result (Z * list byte) :=
  if 100 <=? reduced then
    match fuel with
    | O => OutOfFuel
    | S fuel =>
        let! buffer := COPY_TWO_BYTES buffer (reduced mod 100) in
        ui64toa_narrow fuel (reduced / 100) buffer
    end
  else Ok (reduced, buffer).

(** The bytes before the terminator; their number is what is returned. *)
Definition svn__ui64toa (number : Z) : result (list byte) :=
  if number <? 100 then
    if number <? 10 then Ok [digit number] else Ok (decimal_table number)
  else
    let! (number, buffer) := ui64toa_wide 3 number [] in
    let reduced := u32 number in
    let! (reduced, buffer) := ui64toa_narrow 5 reduced buffer in
    let! buffer := COPY_TWO_BYTES buffer reduced in
    Ok (if reduced <? 10 then drop 1 buffer else buffer).

(** [0-number] is computed in unsigned arithmetic. *)
Definition svn__i64toa (number : Z) : result (list byte) :=
  if 0 <=? number then svn__ui64toa (u64 number)
  else let! digits := svn__ui64toa (u64 (0 - number)) in Ok ("-"%byte :: digits).

(** ** Decimal digits *)

Lemma skip_while_length p s : (length (skip_while p s) <= length s)%nat.
Proof. induction s as [|c s IH]; simpl; [done|]. destruct (p c); simpl; lia. Qed.

Lemma digit_spec d : 0 <= d < 10 → isdigit (digit d) = true ∧ byte_val (digit d) - 48 = d.
Proof.
  intros Hd. assert (d = 0 ∨ d = 1 ∨ d = 2 ∨ d = 3 ∨ d = 4 ∨ d = 5 ∨ d = 6 ∨ d = 7
    ∨ d = 8 ∨ d = 9) as H by lia.
  by repeat destruct H as [->|H]; [..|subst].
Qed.

Lemma decimal_digits fuel n : 0 <= n → forallb isdigit (decimal fuel n) = true.
Proof.
  revert n; induction fuel as [|fuel IH]; intros n Hn; [done|]. cbn [decimal].
  rewrite forallb_app. simpl. rewrite (proj1 (digit_spec (n mod 10) ltac:(div_lia))).
  rewrite !andb_true_r. case_if; [done|]. apply IH. div_lia.
Qed.

Lemma scan_decimal fuel n rest :
  0 <= n < 10 ^ Z.of_nat fuel → isdigit (deref rest) = false →
  scan_digits 0 (decimal fuel n ++ rest) = (n, rest).
Proof.
  intros Hn Hrest.
  assert (Hscan : scan_digits 0 (decimal fuel n ++ rest) = scan_digits n rest).
  { clear Hrest. revert n rest Hn; induction fuel as [|fuel IH]; intros n rest Hn.
    - replace n with 0 by lia. done.
    - rewrite Nat2Z.inj_succ, Z.pow_succ_r in Hn by lia. cbn [decimal].
      rewrite <- app_assoc. simpl app at 2.
      destruct (digit_spec (n mod 10) ltac:(div_lia)) as [Hd Hv].
      destruct (Z.ltb_spec n 10).
      + cbn [app scan_digits]. rewrite Hd, Hv. f_equal. div_lia.
      + rewrite IH by div_lia. cbn [scan_digits]. rewrite Hd, Hv. f_equal. div_lia. }
  rewrite Hscan. destruct rest as [|c rest]; [done|]. simpl in *. by rewrite Hrest.
Qed.

(** More fuel does not change the digits. *)
Lemma decimal_fuel fuel n : 0 <= n < 10 ^ Z.of_nat fuel → decimal (S fuel) n = decimal fuel n ∨ n = 0.
Proof.
  revert n; induction fuel as [|fuel IH]; intros n Hn; [right; simpl in Hn; lia|].
  rewrite Nat2Z.inj_succ, Z.pow_succ_r in Hn by lia. left.
  cbn [decimal]. destruct (Z.ltb_spec n 10); [done|].
  destruct (IH (n / 10)) as [Heq|Hz]; [div_lia| |div_lia]. cbn [decimal] in Heq. by rewrite Heq.
Qed.

Lemma decimal_step fuel n :
  10 <= n < 10 ^ Z.of_nat fuel → decimal fuel n = decimal fuel (n / 10) ++ [digit (n mod 10)].
Proof.
  destruct fuel as [|fuel]; intros Hn; [simpl in Hn; lia|].
  rewrite Nat2Z.inj_succ, Z.pow_succ_r in Hn by lia.
  assert (decimal (S fuel) n = decimal fuel (n / 10) ++ [digit (n mod 10)]) as ->.
  { cbn [decimal]. by if_false by lia. }
  f_equal. destruct (decimal_fuel fuel (n / 10)) as [->|]; [div_lia|done|div_lia].
Qed.

Lemma decimal_pair fuel n :
  100 <= n < 10 ^ Z.of_nat fuel → decimal fuel n = decimal fuel (n / 100) ++ decimal_table (n mod 100).
Proof.
  intros Hn. rewrite decimal_step, decimal_step by div_lia. rewrite <- app_assoc. f_equal; [f_equal; div_lia|].
  unfold decimal_table. cbn [app]. do 2 f_equal; [|f_equal]; div_lia.
Qed.

(** ** The printed number *)

(** How many bytes of the buffer are left: [k] pairs. *)
Lemma copy_pairs buffer n (k : nat) :
  (length buffer + 2 * S k <= 20)%nat →
  COPY_TWO_BYTES buffer n = Ok (decimal_table n ++ buffer)
  ∧ (length (decimal_table n ++ buffer) + 2 * k <= 20)%nat.
Proof.
  intros Hk. unfold COPY_TWO_BYTES. cbn [length app decimal_table Nat.sub SVN_INT64_BUFFER_SIZE].
  rewrite (proj2 (Nat.leb_le _ _)) by lia. split; [done|lia].
Qed.

Lemma ui64toa_narrow_ok fuel (j : nat) n buffer :
  (j <= fuel)%nat → 0 < n < 100 ^ Z.of_nat (S j) → (length buffer + 2 * S j <= 20)%nat →
  ∃ n' buffer', ui64toa_narrow fuel n buffer = Ok (n', buffer')
    ∧ 0 < n' < 100 ∧ (length buffer' + 2 <= 20)%nat ∧ decimal 20 n' ++ buffer' = decimal 20 n ++ buffer.
Proof.
  revert fuel n buffer; induction j as [|j IH]; intros fuel n buffer Hfuel Hn Hb.
  { exists n, buffer. destruct fuel; cbn [ui64toa_narrow]; (if_false by (simpl in Hn; lia));
      (split; [done|]); (split; [simpl in Hn; lia|]); (split; [lia|done]). }
  destruct fuel as [|fuel]; [lia|]. cbn [ui64toa_narrow].
  rewrite Nat2Z.inj_succ, Z.pow_succ_r in Hn by lia.
  destruct (Z.leb_spec 100 n) as [Hbig|Hsmall].
  2: { exists n, buffer. split; [done|]. split; [lia|]. split; [lia|done]. }
  destruct (copy_pairs buffer (n mod 100) (S j)) as [-> Hb']; [lia|]. cbn [rbind].
  destruct (IH fuel (n / 100) (decimal_table (n mod 100) ++ buffer)) as (n' & buffer' & -> & Hn' & Hl & Heq);
    [lia|div_lia|lia|].
  exists n', buffer'. split; [done|]. split; [done|]. split; [done|].
  rewrite Heq, app_assoc. f_equal. symmetry. apply decimal_pair. split; [done|].
  assert (100 ^ Z.of_nat (S j) <= 10 ^ 18) by
    (change 100 with (10 ^ 2); rewrite <- Z.pow_mul_r by lia; apply Z.pow_le_mono_r; lia).
  change (10 ^ Z.of_nat 20) with 100000000000000000000. lia.
Qed.

Lemma mod_pair n k :
  0 < k → n mod (100 * k) mod 100 = n mod 100 ∧ n mod (100 * k) / 100 = (n / 100) mod k.
Proof.
  intros Hk. rewrite Z.rem_mul_r, Z.mul_comm by lia. split.
  - by rewrite Z.mod_add, Z.mod_mod by lia.
  - by rewrite Z.div_add, Z.div_small by (try apply Z.mod_pos_bound; lia).
Qed.

(** A round of four pairs. *)
Lemma ui64toa_round n buffer :
  100000000 <= n < 0x10000000000000000 → (length buffer + 8 <= 20)%nat →
  ∃ buffer',
    (let reduced := u32 (n mod 100000000) in
     let! buffer := COPY_TWO_BYTES buffer (reduced mod 100) in
     let reduced := reduced / 100 in
     let! buffer := COPY_TWO_BYTES buffer (reduced mod 100) in
     let reduced := reduced / 100 in
     let! buffer := COPY_TWO_BYTES buffer (reduced mod 100) in
     let reduced := reduced / 100 in
     COPY_TWO_BYTES buffer (reduced mod 100)) = Ok buffer'
    ∧ length buffer' = (length buffer + 8)%nat
    ∧ decimal 20 (n / 100000000) ++ buffer' = decimal 20 n ++ buffer.
Proof.
  intros Hn Hb. cbn zeta. rewrite u32_small by div_lia.
  destruct (copy_pairs buffer (n mod 100000000 mod 100) 3) as [-> H1]; [lia|]. cbn [rbind].
  destruct (copy_pairs _ (n mod 100000000 / 100 mod 100) 2 H1) as [-> H2]. cbn [rbind].
  destruct (copy_pairs _ (n mod 100000000 / 100 / 100 mod 100) 1 H2) as [-> H3]. cbn [rbind].
  destruct (copy_pairs _ (n mod 100000000 / 100 / 100 / 100 mod 100) 0 H3) as [-> _].
  eexists. split; [done|]. split; [rewrite !length_app; simpl; lia|].
  change 100000000 with (100 * 1000000). destruct (mod_pair n 1000000) as [-> ->]; [done|].
  change 1000000 with (100 * 10000). destruct (mod_pair (n / 100) 10000) as [-> ->]; [done|].
  change 10000 with (100 * 100). destruct (mod_pair (n / 100 / 100) 100) as [-> ->]; [done|].
  rewrite Z.mod_mod by done. rewrite <- !Z.div_div by done.
  assert (∀ m k, 100 * k <= m → k <= m / 100) as Hlow by (intros m k Hm; apply Z.div_le_lower_bound; lia).
  assert (∀ m, 100 <= m <= n → decimal 20 m = decimal 20 (m / 100) ++ decimal_table (m mod 100)) as Hpair.
  { intros m Hm. apply decimal_pair. change (10 ^ Z.of_nat 20) with 100000000000000000000. lia. }
  assert (∀ m, 0 <= m → m / 100 <= m) as Hle by (intros m Hm; apply Z.div_le_upper_bound; lia).
  pose proof (Hlow n 1000000 ltac:(lia)) as Hm1. pose proof (Hlow _ 10000 Hm1) as Hm2.
  pose proof (Hlow _ 100 Hm2) as Hm3. pose proof (Hle n ltac:(lia)). pose proof (Hle (n / 100) ltac:(lia)).
  pose proof (Hle (n / 100 / 100) ltac:(lia)).
  clear Hlow Hle. set (a := n / 100) in *. set (b := a / 100) in *. set (c := b / 100) in *.
  rewrite (Hpair n) by lia. fold a. clearbody a. rewrite (Hpair a) by lia. fold b. clearbody b.
  rewrite (Hpair b) by lia. fold c. clearbody c. rewrite (Hpair c) by lia. by rewrite <- !app_assoc.
Qed.

Lemma ui64toa_wide_ok n :
  0 < n < 0x10000000000000000 →
  ∃ n' buffer (j : nat), ui64toa_wide 3 n [] = Ok (n', buffer)
    ∧ (j < 5)%nat ∧ 0 < n' < 100 ^ Z.of_nat (S j) ∧ n' < 0x100000000
    ∧ (length buffer + 2 * S j <= 20)%nat ∧ decimal 20 n' ++ buffer = decimal 20 n.
Proof.
  intros Hn. assert (∀ fuel m buffer, m < 100000000 → ui64toa_wide fuel m buffer = Ok (m, buffer)) as Hstop.
  { intros fuel m buffer Hm. destruct fuel; cbn [ui64toa_wide]; by if_false by lia. }
  assert (∀ fuel m buffer, 100000000 <= m < 0x10000000000000000 → (length buffer + 8 <= 20)%nat →
    ∃ buffer', ui64toa_wide (S fuel) m buffer = ui64toa_wide fuel (m / 100000000) buffer'
      ∧ length buffer' = (length buffer + 8)%nat
      ∧ decimal 20 (m / 100000000) ++ buffer' = decimal 20 m ++ buffer) as Hround.
  { intros fuel m buffer Hm Hb. destruct (ui64toa_round m buffer Hm Hb) as (buffer' & Heq & Hl & Hd).
    exists buffer'. split; [|done]. cbn [ui64toa_wide]. if_true by lia. cbn zeta in Heq.
    destruct (COPY_TWO_BYTES buffer _) as [b1| | | |]; try done. cbn [rbind] in *.
    destruct (COPY_TWO_BYTES b1 _) as [b2| | | |]; try done. cbn [rbind] in *.
    destruct (COPY_TWO_BYTES b2 _) as [b3| | | |]; try done. cbn [rbind] in *. by rewrite Heq. }
  destruct (Z.lt_ge_cases n 100000000) as [H1|H1].
  { exists n, [], 3%nat. rewrite Hstop by done. split; [done|]. split; [lia|].
    split; [change (100 ^ Z.of_nat 4) with 100000000; lia|]. split; [lia|].
    split; [cbn [length]; lia|]. by rewrite app_nil_r. }
  destruct (Hround 2%nat n []) as (b1 & -> & Hl1 & Hd1); [lia|cbn [length]; lia|].
  rewrite app_nil_r in Hd1. cbn [length] in Hl1.
  destruct (Z.lt_ge_cases (n / 100000000) 100000000) as [H2|H2].
  { exists (n / 100000000), b1, 3%nat. rewrite Hstop by done. split; [done|]. split; [lia|].
    split; [split; [div_lia|change (100 ^ Z.of_nat 4) with 100000000; lia]|]. split; [lia|].
    split; [lia|done]. }
  destruct (Hround 1%nat (n / 100000000) b1) as (b2 & -> & Hl2 & Hd2); [div_lia|lia|].
  exists (n / 100000000 / 100000000), b2, 1%nat. rewrite Hstop by div_lia. split; [done|]. split; [lia|].
  split; [split; [div_lia|change (100 ^ Z.of_nat 2) with 10000; div_lia]|]. split; [div_lia|].
  split; [lia|]. by rewrite Hd2.
Qed.

Lemma decimal_small n : 0 <= n < 100 →
  decimal 20 n = if n <? 10 then [digit n] else decimal_table n.
Proof.
  intros Hn. change (decimal 20 n) with ((if n <? 10 then [] else decimal 19 (n / 10)) ++ [digit (n mod 10)]).
  destruct (Z.ltb_spec n 10); [by rewrite Z.mod_small by lia|].
  change (decimal 19 (n / 10))
    with ((if n / 10 <? 10 then [] else decimal 18 (n / 10 / 10)) ++ [digit (n / 10 mod 10)]).
  if_true by div_lia. unfold decimal_table. by rewrite (Z.mod_small (n / 10)) by div_lia.
Qed.

(** [svn__ui64toa] prints the decimal digits. *)
Lemma svn__ui64toa_ok n : 0 <= n < 0x10000000000000000 → svn__ui64toa n = Ok (decimal 20 n).
Proof.
  intros Hn. unfold svn__ui64toa. destruct (Z.ltb_spec n 100) as [Hs|Hb].
  { rewrite decimal_small by lia. by case_if. }
  destruct (ui64toa_wide_ok n) as (n1 & b1 & j & -> & Hj & Hn1 & Hn32 & Hl & Hd); [lia|]. cbn [rbind].
  rewrite u32_small by lia.
  destruct (ui64toa_narrow_ok 5 j n1 b1) as (n2 & b2 & -> & Hn2 & Hl2 & Hd2); [lia|done|done|]. cbn [rbind].
  destruct (copy_pairs b2 n2 0) as [-> _]; [lia|]. cbn [rbind].
  rewrite <- Hd, <- Hd2, decimal_small by lia.
  destruct (Z.ltb_spec n2 10); [|done]. unfold decimal_table. cbn [drop app].
  by rewrite Z.mod_small by lia.
Qed.

Lemma svn__i64toa_ok n :
  - 0x8000000000000000 <= n < 0x8000000000000000 →
  svn__i64toa n = Ok (if n <? 0 then "-"%byte :: decimal 20 (- n) else decimal 20 n).
Proof.
  intros Hn. unfold svn__i64toa. destruct (Z.leb_spec 0 n).
  - rewrite u64_small by lia. rewrite svn__ui64toa_ok by lia. by if_false by lia.
  - rewrite u64_small by lia. rewrite svn__ui64toa_ok by lia. if_true by lia. cbn [rbind]. do 2 f_equal.
Qed.

(** ** Reading a printed number *)

Lemma scan_digits_length acc s : (length (scan_digits acc s).2 <= length s)%nat.
Proof.
  revert acc; induction s as [|c s IH]; intros acc; simpl; [done|].
  destruct (isdigit c); simpl; [|done]. specialize (IH (10 * acc + (byte_val c - 48))). lia.
Qed.

Lemma strtol_bounds s :
  let '(v, rest) := strtol s in
  LONG_MIN <= v <= LONG_MAX ∧ (rest = s ∨ (length rest < length s)%nat).
Proof.
  unfold strtol. pose proof (skip_while_length isspace s) as Hsk.
  set (s1 := skip_while isspace s) in *.
  destruct (if deref s1 =b? "-"%byte then (true, drop 1 s1)
            else if deref s1 =b? "+"%byte then (false, drop 1 s1)
            else (false, s1)) as [neg s2] eqn:Hs2.
  assert (length s2 <= length s)%nat as Hl.
  { repeat case_match; injection Hs2 as <- <-; rewrite ?length_drop; lia. }
  destruct (isdigit (deref s2)) eqn:Hd.
  2: { split; [|by left]. unfold LONG_MIN, LONG_MAX. lia. }
  destruct s2 as [|c s2]; [done|]. simpl in Hd. cbn [scan_digits]. rewrite Hd.
  pose proof (scan_digits_length (10 * 0 + (byte_val c - 48)) s2).
  destruct (scan_digits _ s2) as [v rest]. simpl in *.
  change LONG_MAX with 9223372036854775807. change LONG_MIN with (-9223372036854775808).
  split; [lia|right; lia].
Qed.

Lemma decimal_head n : 0 <= n → ∃ c s, decimal 20 n = c :: s ∧ isdigit c = true.
Proof.
  intros Hn. pose proof (decimal_digits 20 n Hn) as Hd.
  destruct (decimal 20 n) as [|c s] eqn:Hdec.
  - assert (decimal 20 n = (if n <? 10 then [] else decimal 19 (n / 10)) ++ [digit (n mod 10)]) as Heq by done.
    rewrite Heq in Hdec. by apply app_eq_nil in Hdec as [_ ?].
  - exists c, s. split; [done|]. by apply andb_true_iff in Hd as [? _].
Qed.

Lemma isdigit_facts c :
  isdigit c = true →
  isspace c = false ∧ c ≠ "-"%byte ∧ c ≠ "+"%byte ∧ c ≠ NEWLINE ∧ c ≠ NUL ∧ c ≠ ":"%byte.
Proof. intros Hc. destruct c; try discriminate; done. Qed.

Lemma printf_ld_head n :
  0 <= n → ∃ c s, printf_ld n = c :: s ∧ isdigit c = true.
Proof. intros Hn. unfold printf_ld. if_false by lia. by apply decimal_head. Qed.

Lemma strtol_printf n rest :
  LONG_MIN <= n <= LONG_MAX → isdigit (deref rest) = false →
  strtol (printf_ld n ++ rest) = (n, rest).
Proof.
  change LONG_MAX with 9223372036854775807. change LONG_MIN with (-9223372036854775808).
  intros Hn Hrest. assert (∀ m, 0 <= m <= 9223372036854775808 → scan_digits 0 (decimal 20 m ++ rest) = (m, rest)) as Hscan.
  { intros m Hm. apply scan_decimal; [|done]. change (10 ^ Z.of_nat 20) with 100000000000000000000. lia. }
  unfold strtol, printf_ld.
  change LONG_MAX with 9223372036854775807. change LONG_MIN with (-9223372036854775808).
  destruct (Z.ltb_spec n 0).
  - destruct (decimal_head (- n)) as (c & s & Hp & Hc); [lia|]. pose proof (Hscan (- n) ltac:(lia)) as Hs.
    rewrite Hp in *. cbn [app skip_while isspace deref drop] in *. change (isspace "-"%byte) with false.
    cbn [deref drop byte_eqb]. change ("-"%byte =b? "-"%byte) with true. cbn iota. cbn [deref drop]. rewrite Hc, Hs.
    f_equal. lia.
  - destruct (decimal_head n) as (c & s & Hp & Hc); [lia|]. pose proof (Hscan n ltac:(lia)) as Hs.
    rewrite Hp in *. cbn [app skip_while] in *.
    destruct (isdigit_facts c Hc) as (-> & Hm & Hpl & _).
    cbn [deref]. rewrite (proj2 (byte_eqb_ne _ _) Hm), (proj2 (byte_eqb_ne _ _) Hpl).
    cbn [deref]. rewrite Hc, Hs. f_equal. lia.
Qed.

Lemma printf_no_nul n : NUL ∉ printf_ld n.
Proof.
  assert (∀ m, 0 <= m → NUL ∉ decimal 20 m) as Hd.
  { intros m Hm Hin. pose proof (decimal_digits 20 m Hm) as Hf. apply list_elem_of_In in Hin.
    by apply (proj1 (forallb_forall _ _) Hf) in Hin. }
  unfold printf_ld. destruct (Z.ltb_spec n 0); [apply not_elem_of_cons; split; [done|]|]; apply Hd; lia.
Qed.
