(* ===== verification/Cstrings.v ===== *)
(** * C strings

    The string helpers of [src/subversion/libsvn_subr/string.c] that the parsers of
    stored data use, with the functions of the C library and of APR that they
    call. *)
From S2P Require Import Prelude Numbers.

(** The C string in a buffer: [apr_pstrmemdup (pool, data, len)] as a string is
    the bytes before the first NUL. *)
Fixpoint cstring (data : list byte) : list byte :=
  match data with
  | [] => []
  | c :: data => if c =b? NUL then [] else c :: cstring data
  end.

(** [strcmp] of the C library compares bytes as [unsigned char]. *)
Fixpoint strcmp (a b : list byte) : Z :=
  match a, b with
  | [], [] => 0
  | [], c :: _ => 0 - byte_val c
  | c :: _, [] => byte_val c
  | c :: a, d :: b => if c =b? d then strcmp a b else byte_val c - byte_val d
  end.

(** [strchr (s, c)]: what is before [c] and what follows it. *)
Fixpoint strchr (s : list byte) (c : byte) : option (list byte * list byte) :=
  match s with
  | [] => None
  | d :: s =>
      if d =b? c then Some ([], s)
      else match strchr s c with Some (before, after) => Some (d :: before, after) | None => None end
  end.

(** A string literal as bytes. *)
Definition bytes_of (s : String.string) : list byte := String.list_byte_of_string s.

Definition svn_ctype_isspace (c : byte) : bool :=
  (c =b? x09) || (c =b? x0a) || (c =b? x0b) || (c =b? x0c) || (c =b? x0d) || (c =b? x20).

(** [svn_cstring_tokenize (sep, &str)] for a [sep] of one character, the case that
    does not go to APR: the token, if there is one, and the new [str]. *)
Definition svn_cstring_tokenize (csep : byte) (str : list byte) : option (list byte) * list byte :=
  let token := skip_while (λ c, c =b? csep) str in
  match token with
  | [] => (None, str)
  | _ =>
      match strchr token csep with
      | None => (Some token, [])
      | Some (token, str) => (Some token, str)
      end
  end.

(** ** Numbers

    [apr_strtoi64 (str, &end, 10)] of APR: the value, what follows it in [str] and
    [errno]. *)
Inductive errno_t := no_errno | EINVAL | ERANGE.

#[global] Instance errno_eq_dec : EqDecision errno_t.
Proof. solve_decision. Defined.

Class AprStrtoi64 := {
  apr_strtoi64 : list byte → Z * list byte * errno_t;
  apr_strtoi64_printf : ∀ n rest,
    LONG_MIN <= n <= LONG_MAX → isdigit (deref rest) = false →
    apr_strtoi64 (printf_ld n ++ rest) = (n, rest, no_errno);
}.

(** The laws can be met: [strtol] reads what was printed. *)
Definition strtol_apr : AprStrtoi64.
Proof.
  refine {| apr_strtoi64 str := (strtol str, no_errno) |}.
  intros n rest Hn Hrest. by rewrite strtol_printf.
Defined.

Section Numbers.
Context `{AprStrtoi64}.

(** The value as an [apr_uint64_t]: only that of a non-negative number is used. *)
Definition svn_cstring_strtoui64 (str : list byte) (minval maxval : Z) : result Z :=
  let '(val, endptr, errno) := apr_strtoi64 str in
  if bool_decide (errno = EINVAL) || bool_decide (endptr = str) || bool_decide (str = [])
     || negb (bool_decide (endptr = []))
  then Error SVN_ERR_INCORRECT_PARAMS
  else if (bool_decide (errno = ERANGE) && ((val =? LONG_MIN) || (val =? LONG_MAX)))
     || (val <? 0) || (val <? minval) || (maxval <? val)
  then Error SVN_ERR_INCORRECT_PARAMS
  else Ok val.

Definition APR_UINT32_MAX : Z := 0xFFFFFFFF.
Definition APR_UINT64_MAX : Z := 0xFFFFFFFFFFFFFFFF.
Definition APR_INT32_MIN : Z := -0x80000000.
Definition APR_INT32_MAX : Z := 0x7FFFFFFF.
Definition APR_INT64_MIN : Z := LONG_MIN.
Definition APR_INT64_MAX : Z := LONG_MAX.

Definition svn_cstring_atoui64 (str : list byte) : result Z :=
  svn_cstring_strtoui64 str 0 APR_UINT64_MAX.

Definition svn_cstring_atoui (str : list byte) : result Z :=
  let! val := svn_cstring_strtoui64 str 0 APR_UINT32_MAX in Ok (u32 val).

Definition svn_cstring_strtoi64 (str : list byte) (minval maxval : Z) : result Z :=
  let '(val, endptr, errno) := apr_strtoi64 str in
  if bool_decide (errno = EINVAL) || bool_decide (endptr = str) || bool_decide (str = [])
     || negb (bool_decide (endptr = []))
  then Error SVN_ERR_INCORRECT_PARAMS
  else if (bool_decide (errno = ERANGE) && ((val =? LONG_MIN) || (val =? LONG_MAX)))
     || (val <? minval) || (maxval <? val)
  then Error SVN_ERR_INCORRECT_PARAMS
  else Ok val.

Definition svn_cstring_atoi64 (str : list byte) : result Z :=
  svn_cstring_strtoi64 str APR_INT64_MIN APR_INT64_MAX.

Definition svn_cstring_atoi (str : list byte) : result Z :=
  svn_cstring_strtoi64 str APR_INT32_MIN APR_INT32_MAX.

(** A printed number is read back, or rejected when it is out of the range. *)
Lemma printf_ld_nonempty n : printf_ld n ≠ [].
Proof.
  unfold printf_ld. destruct (Z.ltb_spec n 0); [done|].
  destruct (decimal_head n) as (c & s & -> & _); [lia|done].
Qed.

Lemma svn_cstring_strtoi64_printf n minval maxval :
  LONG_MIN <= n <= LONG_MAX →
  svn_cstring_strtoi64 (printf_ld n) minval maxval
  = if (minval <=? n) && (n <=? maxval) then Ok n else Error SVN_ERR_INCORRECT_PARAMS.
Proof.
  intros Hn. unfold svn_cstring_strtoi64. pose proof (apr_strtoi64_printf n [] Hn eq_refl) as Heq.
  rewrite app_nil_r in Heq. rewrite Heq. pose proof (printf_ld_nonempty n) as Hne.
  rewrite !bool_decide_eq_false_2 by (done || by apply not_eq_sym). rewrite bool_decide_eq_true_2 by done.
  cbn [orb andb negb]. destruct (Z.ltb_spec n minval), (Z.ltb_spec maxval n), (Z.leb_spec minval n),
    (Z.leb_spec n maxval); done || lia.
Qed.

Lemma svn_cstring_strtoui64_printf n minval maxval :
  LONG_MIN <= n <= LONG_MAX →
  svn_cstring_strtoui64 (printf_ld n) minval maxval
  = if (0 <=? n) && (minval <=? n) && (n <=? maxval) then Ok n else Error SVN_ERR_INCORRECT_PARAMS.
Proof.
  intros Hn. unfold svn_cstring_strtoui64. pose proof (apr_strtoi64_printf n [] Hn eq_refl) as Heq.
  rewrite app_nil_r in Heq. rewrite Heq. pose proof (printf_ld_nonempty n) as Hne.
  rewrite !bool_decide_eq_false_2 by (done || by apply not_eq_sym). rewrite bool_decide_eq_true_2 by done.
  cbn [orb andb negb]. destruct (Z.ltb_spec n 0), (Z.leb_spec 0 n), (Z.ltb_spec n minval), (Z.ltb_spec maxval n),
    (Z.leb_spec minval n), (Z.leb_spec n maxval); done || lia.
Qed.
End Numbers.

(** ** Strings and tokens *)

Lemma cstring_no_nul data : NUL ∉ data → cstring data = data.
Proof.
  induction data as [|c data IH]; [done|]. intros [Hc Hd]%not_elem_of_cons. cbn [cstring].
  rewrite (proj2 (byte_eqb_ne c NUL)) by done. by rewrite IH.
Qed.

Lemma cstring_idem data : NUL ∉ cstring data.
Proof.
  induction data as [|c data IH]; cbn [cstring]; [apply not_elem_of_nil|].
  destruct (byte_eqb_spec c NUL); [apply not_elem_of_nil|]. by apply not_elem_of_cons.
Qed.

Lemma strcmp_zero a b : NUL ∉ a → NUL ∉ b → (strcmp a b =? 0) = bool_decide (a = b).
Proof.
  assert (∀ c, c ≠ NUL → byte_val c ≠ 0) as Hval by (intros c Hc Hz; apply Hc, byte_val_inj; done).
  revert b; induction a as [|c a IH]; intros [|d b]; cbn [strcmp]; [done|..].
  - intros _ [Hd _]%not_elem_of_cons. rewrite bool_decide_eq_false_2 by done.
    apply Z.eqb_neq. specialize (Hval d). naive_solver lia.
  - intros [Hc _]%not_elem_of_cons _. rewrite bool_decide_eq_false_2 by done.
    apply Z.eqb_neq. specialize (Hval c). naive_solver.
  - intros [Hc Ha]%not_elem_of_cons [Hd Hb]%not_elem_of_cons. destruct (byte_eqb_spec c d) as [->|Hne].
    + rewrite IH by done. apply bool_decide_ext. naive_solver.
    + rewrite bool_decide_eq_false_2 by congruence. apply Z.eqb_neq. intros Heq. apply Hne, byte_val_inj. lia.
Qed.

Lemma strchr_app token c rest : c ∉ token → strchr (token ++ c :: rest) c = Some (token, rest).
Proof.
  induction token as [|d token IH]; cbn [app strchr]; [by rewrite byte_eqb_refl|].
  intros [Hd Ht]%not_elem_of_cons. rewrite (proj2 (byte_eqb_ne d c)) by done. by rewrite IH.
Qed.

Lemma strchr_none token c : c ∉ token → strchr token c = None.
Proof.
  induction token as [|d token IH]; cbn [strchr]; [done|].
  intros [Hd Ht]%not_elem_of_cons. rewrite (proj2 (byte_eqb_ne d c)) by done. by rewrite IH.
Qed.

(** The next token, when it is not empty. *)
Lemma svn_cstring_tokenize_app token c rest :
  token ≠ [] → c ∉ token → svn_cstring_tokenize c (token ++ c :: rest) = (Some token, rest).
Proof.
  intros Hne Hc. unfold svn_cstring_tokenize. destruct token as [|d token]; [done|].
  apply not_elem_of_cons in Hc as Hd. destruct Hd as [Hd _]. cbn [app skip_while].
  rewrite (proj2 (byte_eqb_ne d c)) by done. by rewrite app_comm_cons, strchr_app.
Qed.

Lemma svn_cstring_tokenize_last token c :
  token ≠ [] → c ∉ token → svn_cstring_tokenize c token = (Some token, []).
Proof.
  intros Hne Hc. unfold svn_cstring_tokenize. destruct token as [|d token]; [done|].
  apply not_elem_of_cons in Hc as Hd. destruct Hd as [Hd _]. cbn [skip_while].
  rewrite (proj2 (byte_eqb_ne d c)) by done. by rewrite strchr_none.
Qed.
