(* ===== verification/Stringbuf.v ===== *)
(** * Counted strings

    [svn_stringbuf_t] of [src/subversion/libsvn_subr/string.c]: a growing block of
    memory, the length of the string in it, and a NUL after the string.  Sizes are
    [apr_size_t] of 64 bits.  The memory of a block, its growth and the moves
    inside it are those of the code; pools are not modelled, a block is never
    reused. *)
From S2P Require Import Prelude Memory Cstrings.

(** APR's pools: the content of new memory is not known. *)
Class AprPool := {
  apr_palloc : Z → list byte;
  apr_align_default : Z → Z;
  apr_pstrndup : list byte → nat → list byte;
  apr_palloc_length : ∀ n, length (apr_palloc n) = Z.to_nat n;
  apr_align_default_bound : ∀ n, 0 <= n < 2 ^ 63 - 8 → n <= apr_align_default n < n + 8;
  apr_pstrndup_string : ∀ s n, apr_pstrndup s n = take n (cstring s) ++ [NUL];
}.

(** A pool whose memory is cleared. *)
Definition cleared_pool : AprPool.
Proof.
  refine {| apr_palloc n := replicate (Z.to_nat n) NUL;
            apr_align_default n := (n + 7) / 8 * 8;
            apr_pstrndup s n := take n (cstring s) ++ [NUL] |}.
  - intros n. apply length_replicate.
  - intros n Hn. pose proof (Z.div_mod (n + 7) 8). pose proof (Z.mod_pos_bound (n + 7) 8). lia.
  - done.
Defined.

Record svn_stringbuf_t := MkBuf { sb_data : list byte; sb_len : Z; sb_blocksize : Z }.

(** The string. *)
Definition contents (str : svn_stringbuf_t) : list byte := take (Z.to_nat (sb_len str)) (sb_data str).

Definition set_data (str : svn_stringbuf_t) data : svn_stringbuf_t :=
  MkBuf data (sb_len str) (sb_blocksize str).

Definition set_len (str : svn_stringbuf_t) len : svn_stringbuf_t :=
  MkBuf (sb_data str) len (sb_blocksize str).

(** What the C library writes to and reads from the block, at byte [p]. *)
Definition put (str : svn_stringbuf_t) (p : Z) (bytes : list byte) : result svn_stringbuf_t :=
  if p <? 0 then Undefined
  else let! data := write_bytes (sb_data str) (Z.to_nat p) bytes in Ok (set_data str data).

Definition get (str : svn_stringbuf_t) (p n : Z) : result (list byte) :=
  if (p <? 0) || (n <? 0) then Undefined else read_bytes (sb_data str) (Z.to_nat p) (Z.to_nat n).

Definition memmove (str : svn_stringbuf_t) (dest src n : Z) : result svn_stringbuf_t :=
  let! bytes := get str src n in put str dest bytes.

(** Bytes that are not in the block, or that start at an offset of the block. *)
Inductive bytes_arg := Outside (bytes : list byte) | Inside (offset : Z).

(** [memcpy] of [count] bytes from outside. *)
Definition bytes_of_arg (bytes : list byte) (count : Z) : result (list byte) :=
  read_bytes bytes 0 (Z.to_nat count).

(** ** Strings as bytes *)

Definition string_compare (str1 str2 : list byte) : bool :=
  if negb (length str1 =? length str2)%nat then false else bool_decide (str1 = str2).

Fixpoint string_first_non_whitespace (str : list byte) (i : nat) : nat :=
  match str with
  | [] => i
  | c :: str => if negb (svn_ctype_isspace c) then i else string_first_non_whitespace str (S i)
  end.

(** From index [i - 1] down. *)
Fixpoint find_char_backward (str : list byte) (i : nat) (ch : byte) : nat :=
  match i with
  | O => length str
  | S i => if deref (drop i str) =b? ch then i else find_char_backward str i ch
  end.

(** ** The block *)

Section Stringbuf.
Context `{AprPool}.

Definition my__realloc (data : list byte) (oldsize request : Z) : result (list byte) :=
  let! bytes := read_bytes data 0 (Z.to_nat oldsize) in
  write_bytes (apr_palloc request) 0 bytes.

Definition create_stringbuf (data : list byte) (size blocksize : Z) : result svn_stringbuf_t :=
  assert! (size <? blocksize) in
  let! c := read_byte data (Z.to_nat size) in
  assert! (c =b? NUL) in
  Ok (MkBuf data size blocksize).

Definition svn_stringbuf_create_ensure (blocksize : Z) : result svn_stringbuf_t :=
  let blocksize := apr_align_default (u64 (blocksize + 1)) in
  put (MkBuf (apr_palloc blocksize) 0 blocksize) 0 [NUL].

Definition svn_stringbuf_create_empty : result svn_stringbuf_t := svn_stringbuf_create_ensure 0.

Definition svn_stringbuf_ncreate (bytes : list byte) (size : Z) : result svn_stringbuf_t :=
  let! strbuf := svn_stringbuf_create_ensure size in
  let! bytes := bytes_of_arg bytes size in
  let! strbuf := put strbuf 0 bytes in
  let! strbuf := put strbuf size [NUL] in
  Ok (set_len strbuf size).

Definition svn_stringbuf_create (s : list byte) : result svn_stringbuf_t :=
  svn_stringbuf_ncreate (cstring s) (Z.of_nat (length (cstring s))).

Definition svn_stringbuf_create_from_string (str : list byte) : result svn_stringbuf_t :=
  svn_stringbuf_ncreate str (Z.of_nat (length str)).

(** Doubles [blocksize] until it is enough, or overflows. *)
Fixpoint ensure_loop (fuel : nat) (blocksize minimum_size : Z) : result Z :=
  if blocksize <? minimum_size then
    match fuel with
    | O => OutOfFuel
    | S fuel =>
        let prev_size := blocksize in
        let blocksize := u64 (blocksize * 2) in
        if blocksize <? prev_size then Ok minimum_size else ensure_loop fuel blocksize minimum_size
    end
  else Ok blocksize.

Definition svn_stringbuf_ensure (str : svn_stringbuf_t) (minimum_size : Z) : result svn_stringbuf_t :=
  let minimum_size := u64 (minimum_size + 1) in
  if sb_blocksize str <? minimum_size then
    let! blocksize :=
      if sb_blocksize str =? 0 then Ok (apr_align_default minimum_size)
      else ensure_loop 64 (sb_blocksize str) minimum_size in
    let! data := my__realloc (sb_data str) (u64 (sb_len str + 1)) blocksize in
    Ok (MkBuf data (sb_len str) blocksize)
  else Ok str.

Definition svn_stringbuf_fillchar (str : svn_stringbuf_t) (c : byte) : result svn_stringbuf_t :=
  put str 0 (replicate (Z.to_nat (sb_len str)) c).

(** [value] is a C string: its bytes before the NUL. *)
Definition svn_stringbuf_set (str : svn_stringbuf_t) (value : list byte) : result svn_stringbuf_t :=
  let amt := Z.of_nat (length value) in
  let! str := svn_stringbuf_ensure str amt in
  let! str := put str 0 (value ++ [NUL]) in
  Ok (set_len str amt).

Definition svn_stringbuf_setempty (str : svn_stringbuf_t) : result svn_stringbuf_t :=
  let! str := if 0 <? sb_len str then put str 0 [NUL] else Ok str in
  Ok (set_len str 0).

Definition svn_stringbuf_chop (str : svn_stringbuf_t) (nbytes : Z) : result svn_stringbuf_t :=
  let str := if sb_len str <? nbytes then set_len str 0 else set_len str (sb_len str - nbytes) in
  put str (sb_len str) [NUL].

Definition svn_stringbuf_isempty (str : svn_stringbuf_t) : bool := sb_len str =? 0.

Definition svn_stringbuf_appendbytes (str : svn_stringbuf_t) (bytes : list byte) (count : Z)
    : result svn_stringbuf_t :=
  let total_len := u64 (sb_len str + count) in
  let! str := svn_stringbuf_ensure str total_len in
  let! bytes := bytes_of_arg bytes count in
  let! str := put str (sb_len str) bytes in
  put (set_len str total_len) total_len [NUL].

Definition svn_stringbuf_appendbyte (str : svn_stringbuf_t) (c : byte) : result svn_stringbuf_t :=
  let old_len := sb_len str in
  if old_len + 1 <? sb_blocksize str then
    let str := set_len str (old_len + 1) in
    let! str := put str old_len [c] in
    put str (old_len + 1) [NUL]
  else svn_stringbuf_appendbytes str [c] 1.

Definition svn_stringbuf_appendstr (targetstr appendstr : svn_stringbuf_t) : result svn_stringbuf_t :=
  svn_stringbuf_appendbytes targetstr (sb_data appendstr) (sb_len appendstr).

Definition svn_stringbuf_appendcstr (targetstr : svn_stringbuf_t) (s : list byte)
    : result svn_stringbuf_t :=
  svn_stringbuf_appendbytes targetstr (cstring s) (Z.of_nat (length (cstring s))).

(** Of bytes outside. *)
Definition insert_outside (str : svn_stringbuf_t) (pos : Z) (bytes : list byte) (count : Z)
    : result svn_stringbuf_t :=
  let pos := if sb_len str <? pos then sb_len str else pos in
  let! str := svn_stringbuf_ensure str (u64 (sb_len str + count)) in
  let! str := memmove str (pos + count) pos (sb_len str - pos + 1) in
  let! bytes := bytes_of_arg bytes count in
  let! str := put str pos bytes in
  Ok (set_len str (u64 (sb_len str + count))).

(** Of a block with bytes of its own: the copy ends at a NUL. *)
Definition copied_arg (str : svn_stringbuf_t) (offset count : Z) : list byte :=
  apr_pstrndup (drop (Z.to_nat offset) (sb_data str)) (Z.to_nat count).

(** An offset that is not special has no bytes, or is the block's end. *)
Definition svn_stringbuf_insert (str : svn_stringbuf_t) (pos : Z) (bytes : bytes_arg) (count : Z)
    : result svn_stringbuf_t :=
  match bytes with
  | Outside bytes => insert_outside str pos bytes count
  | Inside offset =>
      if (0 <? offset + count) && (offset <? sb_blocksize str)
      then insert_outside str pos (copied_arg str offset count) count
      else insert_outside str pos (drop (Z.to_nat offset) (sb_data str)) count
  end.

(** The test can wrap; the pointers and the sizes cannot. *)
Definition svn_stringbuf_remove (str : svn_stringbuf_t) (pos count : Z) : result svn_stringbuf_t :=
  let pos := if sb_len str <? pos then sb_len str else pos in
  let count := if sb_len str <? u64 (pos + count) then sb_len str - pos else count in
  let! str := memmove str pos (pos + count) (sb_len str - pos - count + 1) in
  Ok (set_len str (sb_len str - count)).

Definition replace_outside (str : svn_stringbuf_t) (pos old_count : Z) (bytes : list byte)
    (new_count : Z) : result svn_stringbuf_t :=
  let pos := if sb_len str <? pos then sb_len str else pos in
  let old_count := if sb_len str <? u64 (pos + old_count) then sb_len str - pos else old_count in
  let! str :=
    if old_count <? new_count
    then svn_stringbuf_ensure str (u64 (sb_len str + (new_count - old_count))) else Ok str in
  let! str :=
    if negb (old_count =? new_count)
    then memmove str (pos + new_count) (pos + old_count) (sb_len str - pos - old_count + 1)
    else Ok str in
  let! bytes := bytes_of_arg bytes new_count in
  let! str := put str pos bytes in
  Ok (set_len str (u64 (sb_len str + (new_count - old_count)))).

Definition svn_stringbuf_replace (str : svn_stringbuf_t) (pos old_count : Z) (bytes : bytes_arg)
    (new_count : Z) : result svn_stringbuf_t :=
  match bytes with
  | Outside bytes => replace_outside str pos old_count bytes new_count
  | Inside offset =>
      if (0 <? offset + new_count) && (offset <? sb_blocksize str)
      then replace_outside str pos old_count (copied_arg str offset new_count) new_count
      else replace_outside str pos old_count (drop (Z.to_nat offset) (sb_data str)) new_count
  end.

Definition svn_stringbuf_dup (original_string : svn_stringbuf_t) : result svn_stringbuf_t :=
  svn_stringbuf_ncreate (sb_data original_string) (sb_len original_string).

Definition svn_stringbuf_compare (str1 str2 : svn_stringbuf_t) : bool :=
  string_compare (contents str1) (contents str2).

Definition svn_string_compare_stringbuf (str1 : list byte) (str2 : svn_stringbuf_t) : bool :=
  string_compare str1 (contents str2).

Definition svn_stringbuf_first_non_whitespace (str : svn_stringbuf_t) : nat :=
  string_first_non_whitespace (contents str) 0.

Definition svn_stringbuf_find_char_backward (str : svn_stringbuf_t) (ch : byte) : nat :=
  find_char_backward (contents str) (length (contents str)) ch.

(** The length without white space at the end. *)
Fixpoint trimmed_len (data : list byte) (len : nat) : nat :=
  match len with
  | O => O
  | S n => if svn_ctype_isspace (deref (drop n data)) then trimmed_len data n else len
  end.

(** The block now starts at the first byte that is not white space. *)
Definition svn_stringbuf_strip_whitespace (str : svn_stringbuf_t) : result svn_stringbuf_t :=
  let offset := svn_stringbuf_first_non_whitespace str in
  let data := drop offset (sb_data str) in
  let len := trimmed_len data (Z.to_nat (sb_len str) - offset) in
  put (MkBuf data (Z.of_nat len) (sb_blocksize str - Z.of_nat offset)) (Z.of_nat len) [NUL].

End Stringbuf.
