(* ===== verification/StringbufCorrect.v ===== *)
(** * Counted strings do what the strings in them say

    Every operation keeps the block well formed, never leaves it, and acts on the
    string in it as a function on lists of bytes does. *)
From S2P Require Import Prelude Memory Cstrings Stringbuf.

Implicit Types (s bytes data a o b junk : list byte) (str : svn_stringbuf_t) (c : byte).

(** The block holds the string [s], then a NUL, then anything. *)
Record holds str s : Prop := {
  holds_data : ∃ junk, sb_data str = s ++ NUL :: junk;
  holds_len : sb_len str = Z.of_nat (length s);
  holds_block : sb_blocksize str = Z.of_nat (length (sb_data str));
  holds_small : sb_blocksize str < 2 ^ 63;
}.

Lemma holds_contents str s : holds str s → contents str = s.
Proof.
  intros [[junk Hd] Hl _ _]. unfold contents. rewrite Hd, Hl, Nat2Z.id. apply take_app_length.
Qed.

(** ** Inside a block *)

Lemma put_ok str p bytes :
  0 <= p → sb_blocksize str = Z.of_nat (length (sb_data str)) →
  p + Z.of_nat (length bytes) <= sb_blocksize str →
  put str p bytes = Ok (set_data str (take (Z.to_nat p) (sb_data str) ++ bytes
    ++ drop (Z.to_nat p + length bytes) (sb_data str))).
Proof.
  intros Hp Hb Hl. unfold put, write_bytes. if_false by lia. by if_true by lia.
Qed.

Lemma get_ok str p n :
  0 <= p → 0 <= n → sb_blocksize str = Z.of_nat (length (sb_data str)) → p + n <= sb_blocksize str →
  get str p n = Ok (take (Z.to_nat n) (drop (Z.to_nat p) (sb_data str))).
Proof.
  intros Hp Hn Hb Hl. unfold get, read_bytes. rewrite (proj2 (Z.ltb_ge p 0)), (proj2 (Z.ltb_ge n 0)) by lia.
  cbn [orb]. by if_true by lia.
Qed.

(** Bytes are put where others were. *)
Lemma put_middle str a o b bytes :
  sb_data str = a ++ o ++ b → sb_blocksize str = Z.of_nat (length (sb_data str)) → length o = length bytes →
  put str (Z.of_nat (length a)) bytes = Ok (set_data str (a ++ bytes ++ b)).
Proof.
  intros Hd Hb Hl. rewrite put_ok; [|lia|done|rewrite Hb, Hd, !length_app; lia].
  rewrite Nat2Z.id, Hd, take_app_length. do 3 f_equal. rewrite drop_app_add, <- Hl. by rewrite drop_app_length.
Qed.

(** The tail [b] is moved from behind [o] to behind [bytes], which are then put. *)
Lemma splice_ok str a o b bytes junk :
  sb_data str = a ++ o ++ b ++ NUL :: junk → sb_blocksize str = Z.of_nat (length (sb_data str)) →
  Z.of_nat (length a + length bytes + length b) < sb_blocksize str →
  ∃ str1 junk', memmove str (Z.of_nat (length a + length bytes)) (Z.of_nat (length a + length o))
      (Z.of_nat (length b) + 1) = Ok str1
    ∧ (bytes = [] → sb_data str1 = a ++ b ++ NUL :: junk')
    ∧ put str1 (Z.of_nat (length a)) bytes = Ok (set_data str1 (a ++ bytes ++ b ++ NUL :: junk'))
    ∧ length (a ++ bytes ++ b ++ NUL :: junk') = length (sb_data str)
    ∧ length (sb_data str1) = length (sb_data str)
    ∧ sb_len str1 = sb_len str ∧ sb_blocksize str1 = sb_blocksize str.
Proof.
  intros Hd Hb Hl. pose proof (f_equal length Hd) as Hlen. rewrite !length_app in Hlen. cbn [length] in Hlen.
  unfold memmove. rewrite get_ok by lia. cbn [rbind].
  replace (Z.to_nat (Z.of_nat (length b) + 1)) with (length b + 1)%nat by lia. rewrite Nat2Z.id.
  assert (take (length b + 1) (drop (length a + length o) (sb_data str)) = b ++ [NUL]) as ->.
  { rewrite Hd, <- drop_drop, drop_app_length, drop_app_length, take_app_add. done. }
  rewrite put_ok; [|lia|done|rewrite length_app; cbn [length]; lia]. rewrite Nat2Z.id.
  set (p := (length a + length bytes)%nat) in *.
  set (junk' := drop (p + length (b ++ [NUL])) (sb_data str)).
  assert (length (take p (sb_data str)) = p) as Hp by (rewrite length_take; lia).
  assert (take (length a) (take p (sb_data str)) = a) as Ha.
  { rewrite take_take, Nat.min_l, Hd by lia. apply take_app_length. }
  assert (length junk' = length (sb_data str) - (p + length b + 1))%nat as Hj.
  { subst junk'. rewrite length_drop, length_app. cbn [length]. lia. }
  eexists _, junk'. split; [done|]. cbn [sb_data set_data sb_len sb_blocksize].
  split_and!; try done.
  - intros ->. subst p. cbn [length] in *. rewrite Nat.add_0_r in *.
    rewrite take_take, Nat.min_id in Ha. by rewrite Ha, <- app_assoc.
  - rewrite put_ok; cbn [sb_data set_data sb_blocksize]; [|lia| |lia].
    2:{ rewrite !length_app, Hp, Hj. cbn [length]. lia. }
    rewrite Nat2Z.id. fold p. rewrite take_app_le, Ha by lia. rewrite drop_app_length' by done.
    by rewrite <- app_assoc.
  - rewrite !length_app. cbn [length]. rewrite Hj. lia.
  - rewrite !length_app, Hp, Hj. cbn [length]. lia.
Qed.

Section Blocks.
Context `{AprPool}.

(** ** Growing *)

Lemma ensure_loop_ok fuel blocksize minimum_size :
  0 < blocksize → minimum_size < 2 ^ 62 → minimum_size <= blocksize * 2 ^ Z.of_nat fuel →
  blocksize < 2 ^ 63 →
  ∃ size, ensure_loop fuel blocksize minimum_size = Ok size
    ∧ blocksize <= size ∧ minimum_size <= size ∧ size < 2 ^ 63.
Proof.
  revert blocksize; induction fuel as [|fuel IH]; intros blocksize Hb Hm Hf Hs; cbn [ensure_loop];
    destruct (Z.ltb_spec blocksize minimum_size) as [Hlt|Hge]; try by (exists blocksize; repeat split; lia).
  rewrite u64_small by lia. if_false by lia.
  destruct (IH (blocksize * 2)) as (size & Hr & H1 & H2 & H3); [lia|done| |lia|].
  - rewrite Nat2Z.inj_succ, Z.pow_succ_r in Hf by lia. lia.
  - exists size. repeat split; try done; lia.
Qed.

Lemma svn_stringbuf_ensure_ok str s n :
  holds str s → 0 <= n < 2 ^ 62 - 1 →
  ∃ str', svn_stringbuf_ensure str n = Ok str' ∧ holds str' s ∧ n < sb_blocksize str'.
Proof.
  intros Hh Hn. pose proof Hh as [[junk Hd] Hl Hb Hs]. unfold svn_stringbuf_ensure.
  rewrite u64_small by lia. destruct (Z.ltb_spec (sb_blocksize str) (n + 1)) as [Hlt|Hge].
  2:{ exists str. split; [done|]. split; [done|lia]. }
  pose proof (f_equal length Hd) as Hlen. rewrite length_app in Hlen. cbn [length] in Hlen.
  if_false by lia.
  destruct (ensure_loop_ok 64 (sb_blocksize str) (n + 1)) as (size & -> & H1 & H2 & H3); [lia|lia| |lia|].
  { change (2 ^ Z.of_nat 64) with 18446744073709551616. lia. }
  cbn [rbind]. unfold my__realloc, read_bytes, write_bytes. rewrite u64_small by lia.
  if_true by lia. cbn [rbind]. rewrite drop_0.
  assert (take (Z.to_nat (sb_len str + 1)) (sb_data str) = s ++ [NUL]) as ->.
  { rewrite Hl, Hd. replace (Z.to_nat _) with (length s + 1)%nat by lia. by rewrite take_app_add. }
  rewrite apr_palloc_length, length_app. cbn [length]. if_true by lia. cbn [rbind].
  eexists. split; [done|]. split; [|cbn; lia]. split; cbn [sb_data sb_len sb_blocksize]; try done.
  - rewrite take_0. cbn [app]. rewrite <- app_assoc. by eexists.
  - rewrite take_0. cbn [app]. rewrite !length_app, length_drop, apr_palloc_length. cbn [length]. lia.
Qed.

(** ** Operations *)

Lemma bytes_of_arg_ok bytes count :
  0 <= count <= Z.of_nat (length bytes) → bytes_of_arg bytes count = Ok (take (Z.to_nat count) bytes).
Proof. intros Hc. unfold bytes_of_arg, read_bytes. if_true by lia. by rewrite drop_0. Qed.

Lemma create_ensure_ok n :
  0 <= n < 2 ^ 62 → ∃ str, svn_stringbuf_create_ensure n = Ok str ∧ holds str [] ∧ n < sb_blocksize str.
Proof.
  intros Hn. unfold svn_stringbuf_create_ensure. rewrite u64_small by lia.
  pose proof (apr_align_default_bound (n + 1) ltac:(lia)) as Ha.
  rewrite put_ok; cbn [sb_data sb_blocksize length]; rewrite ?apr_palloc_length; [|lia..].
  cbn [Z.to_nat]. rewrite take_0. eexists. split; [done|]. split; [|cbn; lia].
  split; cbn [sb_data sb_len sb_blocksize set_data]; [by eexists|done| |lia].
  rewrite !length_app, length_drop, apr_palloc_length. cbn [length]. lia.
Qed.

Lemma svn_stringbuf_ncreate_ok bytes size :
  0 <= size <= Z.of_nat (length bytes) → size < 2 ^ 62 →
  ∃ str, svn_stringbuf_ncreate bytes size = Ok str ∧ holds str (take (Z.to_nat size) bytes).
Proof.
  intros Hs Hm. unfold svn_stringbuf_ncreate.
  destruct (create_ensure_ok size ltac:(lia)) as (str & -> & [[junk Hd] Hl Hb Hsm] & Hbig). cbn [rbind].
  rewrite bytes_of_arg_ok by lia. cbn [rbind]. set (s := take (Z.to_nat size) bytes).
  assert (length s = Z.to_nat size) as Hls by (subst s; rewrite length_take; lia).
  rewrite put_ok by lia. cbn [rbind Z.to_nat]. rewrite take_0, Nat.add_0_l. cbn [app].
  assert (∃ x y, drop (length s) (sb_data str) = x :: y) as (x & y & Hxy).
  { destruct (drop (length s) (sb_data str)) eqn:He; [|by eexists _, _]. apply (f_equal length) in He.
    rewrite length_drop in He. cbn in He. lia. }
  pose proof (f_equal length Hxy) as Hlxy. rewrite length_drop in Hlxy. cbn [length] in Hlxy.
  rewrite Hxy. assert (size = Z.of_nat (length s)) as Hsize by lia. clearbody s. rewrite Hsize.
  rewrite (put_middle _ s [x] y [NUL]); cbn [sb_data set_data sb_blocksize]; [|done| |done].
  2:{ rewrite length_app. cbn [length]. lia. }
  cbn [rbind app]. eexists. split; [done|]. split; cbn [sb_data set_data sb_len set_len sb_blocksize]; try lia.
  - by exists y.
  - rewrite length_app. cbn [length]. lia.
Qed.

(** A string after the one in the block. *)
Lemma append_ok str s bytes :
  holds str s → Z.of_nat (length s + length bytes) < sb_blocksize str →
  ∃ str', (let! str1 := put str (sb_len str) bytes in
           put (set_len str1 (sb_len str + Z.of_nat (length bytes))) (sb_len str + Z.of_nat (length bytes)) [NUL]) = Ok str'
    ∧ holds str' (s ++ bytes) ∧ sb_blocksize str' = sb_blocksize str.
Proof.
  intros [[junk Hd] Hl Hb Hs] Hbig. pose proof (f_equal length Hd) as Hlen. rewrite length_app in Hlen.
  cbn [length] in Hlen. rewrite <- (take_drop (length bytes) (NUL :: junk)) in Hd.
  assert (length (take (length bytes) (NUL :: junk)) = length bytes) as Ht by (rewrite length_take; cbn [length]; lia).
  destruct (drop (length bytes) (NUL :: junk)) as [|x y] eqn:Hdrop.
  { apply (f_equal length) in Hdrop. rewrite length_drop in Hdrop. cbn [length] in Hdrop. lia. }
  rewrite Hl, (put_middle str s _ (x :: y) bytes Hd Hb Ht). cbn [rbind].
  cbn [set_data sb_len sb_data set_len].
  assert (length (s ++ bytes ++ x :: y) = length (sb_data str)) as Hsame by (rewrite Hd, !length_app, Ht; done).
  replace (Z.of_nat (length s) + Z.of_nat (length bytes)) with (Z.of_nat (length (s ++ bytes))) by (rewrite length_app; lia).
  rewrite (put_middle _ (s ++ bytes) [x] y [NUL]); cbn [sb_data set_data set_len sb_blocksize]; [|by rewrite <- app_assoc|lia|done].
  eexists. split; [done|]. split; [|done].
  split; cbn [sb_data set_data set_len sb_len sb_blocksize app]; try done; [by eexists|].
  rewrite Hb, <- Hsame, !length_app. cbn [length]. lia.
Qed.

Lemma svn_stringbuf_appendbytes_ok str s bytes count :
  holds str s → 0 <= count <= Z.of_nat (length bytes) → Z.of_nat (length s) + count < 2 ^ 62 - 1 →
  ∃ str', svn_stringbuf_appendbytes str bytes count = Ok str' ∧ holds str' (s ++ take (Z.to_nat count) bytes).
Proof.
  intros Hh Hc Hsmall. unfold svn_stringbuf_appendbytes. rewrite (holds_len str s Hh), u64_small by lia.
  destruct (svn_stringbuf_ensure_ok str s (Z.of_nat (length s) + count) Hh ltac:(lia)) as (str1 & -> & Hh1 & Hbig).
  cbn [rbind]. rewrite bytes_of_arg_ok by lia. cbn [rbind].
  assert (length (take (Z.to_nat count) bytes) = Z.to_nat count) as Hlt by (rewrite length_take; lia).
  destruct (append_ok str1 s (take (Z.to_nat count) bytes) Hh1 ltac:(lia)) as (str2 & H2 & Hh2 & _).
  exists str2. split; [|done]. rewrite <- H2.
  by rewrite (holds_len str1 s Hh1), Hlt, Z2Nat.id by lia.
Qed.

Lemma put_set_len str n p bytes :
  put (set_len str n) p bytes = (let! str := put str p bytes in Ok (set_len str n)).
Proof. unfold put. destruct (p <? 0); [done|]. cbn [set_len sb_data]. by destruct (write_bytes _ _ _). Qed.

Lemma svn_stringbuf_appendbyte_ok str s c :
  holds str s → Z.of_nat (length s) + 1 < 2 ^ 62 - 1 →
  ∃ str', svn_stringbuf_appendbyte str c = Ok str' ∧ holds str' (s ++ [c]).
Proof.
  intros Hh Hsmall. unfold svn_stringbuf_appendbyte.
  destruct (Z.ltb_spec (sb_len str + 1) (sb_blocksize str)) as [Hlt|Hge].
  - destruct (append_ok str s [c] Hh) as (str' & Hr & Hh' & _).
    { rewrite (holds_len str s Hh) in Hlt. cbn [length]. lia. }
    exists str'. split; [|done]. rewrite <- Hr, put_set_len.
    destruct (put str (sb_len str) [c]); done.
  - by apply (svn_stringbuf_appendbytes_ok str s [c] 1).
Qed.

(** The string between [a] and [b] is replaced. *)
Lemma splice_holds str a o b bytes junk :
  sb_data str = a ++ o ++ b ++ NUL :: junk → sb_blocksize str = Z.of_nat (length (sb_data str)) →
  sb_blocksize str < 2 ^ 63 → Z.of_nat (length a + length bytes + length b) < sb_blocksize str →
  ∃ str1 str2, memmove str (Z.of_nat (length a + length bytes)) (Z.of_nat (length a + length o))
      (Z.of_nat (length b) + 1) = Ok str1
    ∧ put str1 (Z.of_nat (length a)) bytes = Ok str2
    ∧ sb_len str1 = sb_len str ∧ sb_len str2 = sb_len str
    ∧ (bytes = [] → holds (set_len str1 (Z.of_nat (length (a ++ b)))) (a ++ b))
    ∧ holds (set_len str2 (Z.of_nat (length (a ++ bytes ++ b)))) (a ++ bytes ++ b).
Proof.
  intros Hd Hb Hs Hl. destruct (splice_ok str a o b bytes junk Hd Hb Hl)
    as (str1 & junk' & H1 & Hnil & H2 & H3 & H4 & H5 & H6).
  eexists str1, _. split_and!; [done|done|done|done|..].
  - intros Hbytes. split; cbn [sb_data set_data set_len sb_len sb_blocksize]; try lia.
    exists junk'. by rewrite (Hnil Hbytes), <- app_assoc.
  - split; cbn [sb_data set_data set_len sb_len sb_blocksize]; try lia.
    exists junk'. by rewrite <- !app_assoc.
Qed.

(** Positions behind the string are at its end. *)
Definition clip (n : nat) s : nat := Nat.min n (length s).

Lemma split_clip s n : s = take (clip n s) s ++ drop (clip n s) s ∧ length (take (clip n s) s) = clip n s.
Proof. rewrite take_drop, length_take. unfold clip. split; [done|lia]. Qed.

Lemma take_clip s n : take (clip n s) s = take n s.
Proof. unfold clip. destruct (Nat.min_spec n (length s)) as [[? ->]|[? ->]]; [done|]. by rewrite !take_ge by lia. Qed.

Lemma drop_clip s n : drop (clip n s) s = drop n s.
Proof. unfold clip. destruct (Nat.min_spec n (length s)) as [[? ->]|[? ->]]; [done|]. by rewrite !drop_ge by lia. Qed.

(** As the code clips them. *)
Lemma clip_Z s n :
  (if Z.of_nat (length s) <? Z.of_nat n then Z.of_nat (length s) else Z.of_nat n) = Z.of_nat (clip n s).
Proof. unfold clip. destruct (Z.ltb_spec (Z.of_nat (length s)) (Z.of_nat n)); lia. Qed.

Lemma insert_outside_ok str s (pos : nat) bytes :
  holds str s → Z.of_nat (length s + length bytes) < 2 ^ 62 - 1 →
  ∃ str', insert_outside str (Z.of_nat pos) bytes (Z.of_nat (length bytes)) = Ok str'
    ∧ holds str' (take pos s ++ bytes ++ drop pos s).
Proof.
  intros Hh Hsmall. unfold insert_outside. pose proof Hh as [_ Hl _ _]. rewrite Hl.
  rewrite clip_Z, u64_small by lia.
  destruct (svn_stringbuf_ensure_ok str s (Z.of_nat (length s) + Z.of_nat (length bytes)) Hh ltac:(lia))
    as (str1 & -> & [[junk Hd] Hl1 Hb1 Hs1] & Hbig). cbn [rbind].
  rewrite bytes_of_arg_ok by lia. rewrite Nat2Z.id, (take_ge bytes) by lia.
  destruct (split_clip s pos) as [Hsplit Hla]. set (a := take (clip pos s) s) in *. set (b := drop (clip pos s) s) in *.
  assert (length s = length a + length b)%nat as Hls by (rewrite Hsplit at 1; apply length_app).
  destruct (splice_holds str1 a [] b bytes junk) as (str2 & str3 & H1 & H2 & L1 & L2 & _ & H3); [|done|done|lia|].
  { rewrite Hd, Hsplit at 1. by rewrite <- app_assoc. }
  rewrite Hl1. replace (Z.of_nat (length s) - Z.of_nat (clip pos s) + 1) with (Z.of_nat (length b) + 1) by lia.
  rewrite <- Hla, <- Nat2Z.inj_add. cbn [length] in H1. rewrite Nat.add_0_r in H1. rewrite H1. cbn [rbind].
  rewrite H2. cbn [rbind]. eexists. split; [done|]. rewrite L2, Hl1.
  replace (u64 _) with (Z.of_nat (length (a ++ bytes ++ b))) by (rewrite !length_app, u64_small; lia).
  subst a b. by rewrite take_clip, drop_clip in *.
Qed.

(** A range that does not wrap is cut at the end of the string. *)
Lemma clip_range s (pos count : nat) :
  Z.of_nat pos + Z.of_nat count < 2 ^ 64 → Z.of_nat (length s) < 2 ^ 62 →
  (if Z.of_nat (length s) <? u64 (Z.of_nat (clip pos s) + Z.of_nat count)
   then Z.of_nat (length s) - Z.of_nat (clip pos s) else Z.of_nat count)
  = Z.of_nat (clip count (drop pos s)).
Proof.
  intros Hw Hs. unfold clip. rewrite length_drop, u64_small by lia.
  destruct (Z.ltb_spec (Z.of_nat (length s)) (Z.of_nat (Nat.min pos (length s)) + Z.of_nat count)); lia.
Qed.

Lemma split_range s (pos count : nat) :
  ∃ a o b, s = a ++ o ++ b ∧ a = take pos s ∧ b = drop (pos + count) s
    ∧ length a = clip pos s ∧ length o = clip count (drop pos s).
Proof.
  exists (take pos s), (take (clip count (drop pos s)) (drop pos s)), (drop (pos + count) s).
  rewrite <- drop_drop, <- (drop_clip (drop pos s) count), !take_drop, !length_take.
  split_and!; try done; unfold clip; rewrite ?length_drop; lia.
Qed.

Lemma svn_stringbuf_remove_ok str s (pos count : nat) :
  holds str s → Z.of_nat pos + Z.of_nat count < 2 ^ 64 → Z.of_nat (length s) < 2 ^ 62 →
  ∃ str', svn_stringbuf_remove str (Z.of_nat pos) (Z.of_nat count) = Ok str'
    ∧ holds str' (take pos s ++ drop (pos + count) s).
Proof.
  intros Hh Hw Hs. pose proof Hh as [[junk Hd] Hl Hb Hsm]. unfold svn_stringbuf_remove.
  rewrite Hl, clip_Z, clip_range by done.
  destruct (split_range s pos count) as (a & o & b & Hsplit & Ha & Hb' & Hla & Hlo).
  assert (length s = length a + length o + length b)%nat as Hls by (rewrite Hsplit at 1; rewrite !length_app; lia).
  destruct (splice_holds str a o b [] junk) as (str1 & str2 & H1 & _ & L1 & _ & H3 & _); [|done|done| |].
  { rewrite Hd, Hsplit at 1. by rewrite <- !app_assoc. }
  { pose proof (f_equal length Hd) as Hlen. rewrite length_app in Hlen. cbn [length] in *. lia. }
  rewrite <- Hla, <- Hlo, <- Nat2Z.inj_add.
  replace (Z.of_nat (length s) - Z.of_nat (length a) - Z.of_nat (length o) + 1) with (Z.of_nat (length b) + 1) by lia.
  cbn [length] in H1. rewrite Nat.add_0_r in H1. rewrite H1. cbn [rbind]. eexists. split; [done|].
  rewrite L1, Hl, <- Ha, <- Hb'.
  replace (Z.of_nat (length s) - Z.of_nat (length o)) with (Z.of_nat (length (a ++ b))) by (rewrite length_app; lia).
  by apply H3.
Qed.

Lemma replace_outside_ok str s (pos old_count : nat) bytes :
  holds str s → Z.of_nat pos + Z.of_nat old_count < 2 ^ 64 →
  Z.of_nat (length s + length bytes) < 2 ^ 62 - 1 →
  ∃ str', replace_outside str (Z.of_nat pos) (Z.of_nat old_count) bytes (Z.of_nat (length bytes)) = Ok str'
    ∧ holds str' (take pos s ++ bytes ++ drop (pos + old_count) s).
Proof.
  intros Hh Hw Hs. unfold replace_outside. rewrite (holds_len str s Hh), clip_Z, clip_range by (try done; lia).
  destruct (split_range s pos old_count) as (a & o & b & Hsplit & Ha & Hb' & Hla & Hlo).
  assert (length s = length a + length o + length b)%nat as Hls by (rewrite Hsplit at 1; rewrite !length_app; lia).
  rewrite <- Hla, <- Hlo, <- Ha, <- Hb'.
  assert (∃ str1, (if Z.of_nat (length o) <? Z.of_nat (length bytes)
      then svn_stringbuf_ensure str (u64 (Z.of_nat (length s) + (Z.of_nat (length bytes) - Z.of_nat (length o))))
      else Ok str) = Ok str1 ∧ holds str1 s ∧ Z.of_nat (length a + length bytes + length b) < sb_blocksize str1)
    as (str1 & -> & [[junk Hd] Hl1 Hb1 Hs1] & Hbig).
  { destruct (Z.ltb_spec (Z.of_nat (length o)) (Z.of_nat (length bytes))) as [Hlt|Hge].
    - rewrite u64_small by lia.
      destruct (svn_stringbuf_ensure_ok str s _ Hh ltac:(instantiate (1 := (Z.of_nat (length s) + (Z.of_nat (length bytes) - Z.of_nat (length o)))); lia))
        as (str1 & H1 & H2 & H3). exists str1. split; [done|]. split; [done|lia].
    - exists str. split; [done|]. split; [done|]. destruct Hh as [[junk Hd] _ Hb _].
      rewrite Hb, Hd, length_app. cbn [length]. lia. }
  cbn [rbind]. rewrite bytes_of_arg_ok by lia. rewrite Nat2Z.id, (take_ge bytes) by lia.
  destruct (splice_holds str1 a o b bytes junk) as (str2 & str3 & H1 & H2 & L1 & L2 & _ & H3); [|done|done|done|].
  { rewrite Hd, Hsplit at 1. by rewrite <- !app_assoc. }
  rewrite Hl1, <- !Nat2Z.inj_add.
  replace (Z.of_nat (length s) - Z.of_nat (length a) - Z.of_nat (length o) + 1) with (Z.of_nat (length b) + 1) by lia.
  assert (u64 (Z.of_nat (length s) + (Z.of_nat (length bytes) - Z.of_nat (length o)))
    = Z.of_nat (length (a ++ bytes ++ b))) as Hlen by (rewrite !length_app, u64_small; lia).
  destruct (Z.eqb_spec (Z.of_nat (length o)) (Z.of_nat (length bytes))) as [Heq|Hne]; cbn [negb].
  - cbn [rbind]. rewrite (put_middle str1 a o (b ++ NUL :: junk) bytes);
      [|by rewrite Hd, Hsplit at 1; rewrite <- !app_assoc|done|lia].
    cbn [rbind sb_len set_data]. rewrite Hl1, Hlen. eexists. split; [done|].
    assert (length (sb_data str1) = length (a ++ bytes ++ b ++ NUL :: junk)) as Hsame.
    { rewrite Hd, Hsplit. rewrite !length_app. cbn [length]. lia. }
    split; cbn [sb_data set_data set_len sb_len sb_blocksize]; [|done|lia|done].
    exists junk. by rewrite <- !app_assoc.
  - rewrite H1. cbn [rbind]. rewrite H2. cbn [rbind]. rewrite L2, Hl1, Hlen. by eexists.
Qed.

(** Bytes of the string itself, without a NUL. *)
Lemma bytes_of_arg_more bytes more : bytes_of_arg (bytes ++ more) (Z.of_nat (length bytes)) = Ok bytes.
Proof. rewrite bytes_of_arg_ok by (rewrite length_app; lia). by rewrite Nat2Z.id, take_app_length. Qed.

Lemma bytes_of_arg_all bytes : bytes_of_arg bytes (Z.of_nat (length bytes)) = Ok bytes.
Proof. rewrite <- (app_nil_r bytes) at 1. apply bytes_of_arg_more. Qed.

Lemma cstring_app_no_nul s data : NUL ∉ s → cstring (s ++ data) = s ++ cstring data.
Proof.
  induction s as [|c s IH]; [done|]. intros [Hc Hs]%not_elem_of_cons. cbn.
  rewrite (proj2 (byte_eqb_ne c NUL)) by done. by rewrite IH.
Qed.

(** What an argument inside the block stands for. *)
Definition sub_string s (offset count : nat) : list byte := take count (drop offset s).

Lemma sub_string_length s offset count :
  (offset + count <= length s)%nat → length (sub_string s offset count) = count.
Proof. intros. unfold sub_string. rewrite length_take, length_drop. lia. Qed.

Lemma inside_arg str s (offset count : nat) :
  holds str s → (offset + count <= length s)%nat → NUL ∉ sub_string s offset count →
  ∃ more, (if (0 <? Z.of_nat offset + Z.of_nat count) && (Z.of_nat offset <? sb_blocksize str)
    then copied_arg str (Z.of_nat offset) (Z.of_nat count)
    else drop (Z.to_nat (Z.of_nat offset)) (sb_data str)) = sub_string s offset count ++ more.
Proof.
  intros [[junk Hd] Hl Hb Hs] Hrange Hnul. unfold copied_arg. rewrite !Nat2Z.id, Hd, drop_app_le by lia.
  pose proof (sub_string_length s offset count Hrange) as Hlen.
  assert (drop offset s = sub_string s offset count ++ drop count (drop offset s)) as ->.
  { unfold sub_string. by rewrite take_drop. }
  rewrite <- app_assoc. destruct (_ && _); [|by eexists].
  rewrite apr_pstrndup_string, cstring_app_no_nul, take_app_length' by done. by eexists.
Qed.

Lemma svn_stringbuf_insert_inside_ok str s (pos offset count : nat) :
  holds str s → (offset + count <= length s)%nat → NUL ∉ sub_string s offset count →
  Z.of_nat (length s + count) < 2 ^ 62 - 1 →
  ∃ str', svn_stringbuf_insert str (Z.of_nat pos) (Inside (Z.of_nat offset)) (Z.of_nat count) = Ok str'
    ∧ holds str' (take pos s ++ sub_string s offset count ++ drop pos s).
Proof.
  intros Hh Hr Hnul Hs. destruct (inside_arg str s offset count Hh Hr Hnul) as [more Hmore].
  pose proof (sub_string_length s offset count Hr) as Hlen.
  destruct (insert_outside_ok str s pos (sub_string s offset count) Hh) as (str' & Hi & Hh'); [lia|].
  exists str'. split; [|done]. rewrite Hlen in Hi. rewrite <- Hi.
  assert (∀ sub b', length sub = count → b' = sub ++ more →
    insert_outside str (Z.of_nat pos) b' (Z.of_nat count) = insert_outside str (Z.of_nat pos) sub (Z.of_nat count)) as Heq.
  { intros sub b' <- ->. unfold insert_outside. by rewrite bytes_of_arg_more, bytes_of_arg_all. }
  unfold svn_stringbuf_insert. destruct (_ && _); by apply Heq.
Qed.

Lemma svn_stringbuf_replace_inside_ok str s (pos old_count offset count : nat) :
  holds str s → (offset + count <= length s)%nat → NUL ∉ sub_string s offset count →
  Z.of_nat pos + Z.of_nat old_count < 2 ^ 64 → Z.of_nat (length s + count) < 2 ^ 62 - 1 →
  ∃ str', svn_stringbuf_replace str (Z.of_nat pos) (Z.of_nat old_count) (Inside (Z.of_nat offset)) (Z.of_nat count) = Ok str'
    ∧ holds str' (take pos s ++ sub_string s offset count ++ drop (pos + old_count) s).
Proof.
  intros Hh Hr Hnul Hw Hs. destruct (inside_arg str s offset count Hh Hr Hnul) as [more Hmore].
  pose proof (sub_string_length s offset count Hr) as Hlen.
  destruct (replace_outside_ok str s pos old_count (sub_string s offset count) Hh Hw) as (str' & Hi & Hh'); [lia|].
  exists str'. split; [|done]. rewrite Hlen in Hi. rewrite <- Hi.
  assert (∀ sub b', length sub = count → b' = sub ++ more →
    replace_outside str (Z.of_nat pos) (Z.of_nat old_count) b' (Z.of_nat count) = replace_outside str (Z.of_nat pos) (Z.of_nat old_count) sub (Z.of_nat count)) as Heq.
  { intros sub b' <- ->. unfold replace_outside. by rewrite bytes_of_arg_more, bytes_of_arg_all. }
  unfold svn_stringbuf_replace. destruct (_ && _); by apply Heq.
Qed.

(** A string in place of the block's. *)
Lemma put_string str s a x o :
  holds str s → sb_data str = x ++ o → length x = S (length a) →
  ∃ str', put str 0 (a ++ [NUL]) = Ok str' ∧ holds (set_len str' (Z.of_nat (length a))) a.
Proof.
  intros [_ Hl Hb Hs] Hd Hx. change 0 with (Z.of_nat (length (@nil byte))).
  rewrite (put_middle str [] x o); [|done|done|rewrite length_app; cbn [length]; lia].
  eexists. split; [done|]. split; cbn [sb_data set_data set_len sb_len sb_blocksize app]; try done.
  - rewrite <- app_assoc. by eexists.
  - rewrite Hb, Hd, !length_app. cbn [length]. lia.
Qed.

Lemma svn_stringbuf_set_ok str s a :
  holds str s → Z.of_nat (length a) < 2 ^ 62 - 1 →
  ∃ str', svn_stringbuf_set str a = Ok str' ∧ holds str' a.
Proof.
  intros Hh Hs. unfold svn_stringbuf_set.
  destruct (svn_stringbuf_ensure_ok str s (Z.of_nat (length a)) Hh ltac:(lia)) as (str1 & -> & Hh1 & Hbig). cbn [rbind].
  pose proof Hh1 as [_ _ Hb1 _].
  destruct (put_string str1 s a (take (S (length a)) (sb_data str1)) (drop (S (length a)) (sb_data str1)) Hh1)
    as (str2 & -> & H2); [by rewrite take_drop|rewrite length_take; lia|].
  cbn [rbind]. by eexists.
Qed.

Lemma svn_stringbuf_setempty_ok str s :
  holds str s → ∃ str', svn_stringbuf_setempty str = Ok str' ∧ holds str' [].
Proof.
  intros Hh. pose proof Hh as [[junk Hd] Hl Hb Hs]. unfold svn_stringbuf_setempty.
  destruct (Z.ltb_spec 0 (sb_len str)) as [Hlt|Hge].
  - destruct (put_string str s [] (take 1 (sb_data str)) (drop 1 (sb_data str)) Hh) as (str' & H1 & H2).
    { by rewrite take_drop. } { rewrite Hd. by destruct s. }
    cbn [app] in H1. rewrite H1. cbn [rbind]. by eexists.
  - destruct s as [|c s]; [|cbn [length] in Hl; lia]. cbn [rbind]. eexists. split; [done|].
    split; try done. by exists junk.
Qed.

(** The string is cut. *)
Lemma cut_ok str s (n : nat) :
  holds str s → (n <= length s)%nat →
  ∃ str', put (set_len str (Z.of_nat n)) (Z.of_nat n) [NUL] = Ok str' ∧ holds str' (take n s).
Proof.
  intros [[junk Hd] Hl Hb Hs] Hn.
  assert (∃ x y, drop n s ++ NUL :: junk = x :: y) as (x & y & Hxy) by (destruct (drop n s); by eexists _, _).
  assert (sb_data str = take n s ++ [x] ++ y) as Hd' by (rewrite Hd; cbn [app]; by rewrite <- Hxy, app_assoc, take_drop).
  assert (length (take n s) = n) as Ht by (rewrite length_take; lia).
  pose proof (put_middle (set_len str (Z.of_nat n)) (take n s) [x] y [NUL] Hd' Hb eq_refl) as Hput.
  rewrite Ht in Hput. rewrite Hput.
  eexists. split; [done|]. split; cbn [sb_data set_data set_len sb_len sb_blocksize app]; try done; [by eexists|lia|].
  rewrite Hb, Hd', !length_app. cbn [length]. lia.
Qed.

Lemma svn_stringbuf_chop_ok str s (n : nat) :
  holds str s → ∃ str', svn_stringbuf_chop str (Z.of_nat n) = Ok str' ∧ holds str' (take (length s - n) s).
Proof.
  intros Hh. unfold svn_stringbuf_chop. rewrite (holds_len str s Hh).
  destruct (cut_ok str s (length s - n) Hh ltac:(lia)) as (str' & Hr & Hh').
  exists str'. split; [|done]. rewrite <- Hr.
  destruct (Z.ltb_spec (Z.of_nat (length s)) (Z.of_nat n)); cbn [sb_len set_len].
  - by replace (length s - n)%nat with 0%nat by lia.
  - by replace (Z.of_nat (length s) - Z.of_nat n) with (Z.of_nat (length s - n)) by lia.
Qed.

Lemma svn_stringbuf_fillchar_ok str s c :
  holds str s → ∃ str', svn_stringbuf_fillchar str c = Ok str' ∧ holds str' (replicate (length s) c).
Proof.
  intros [[junk Hd] Hl Hb Hs]. unfold svn_stringbuf_fillchar. rewrite Hl, Nat2Z.id.
  change 0 with (Z.of_nat (length (@nil byte))).
  rewrite (put_middle str [] s (NUL :: junk)); [|done|done|by rewrite length_replicate].
  eexists. split; [done|]. split; cbn [sb_data set_data sb_len sb_blocksize app]; try done.
  - by eexists.
  - by rewrite length_replicate.
  - rewrite Hb, Hd, !length_app, length_replicate. done.
Qed.

(** ** White space *)

Fixpoint trim_front s : list byte :=
  match s with [] => [] | c :: s' => if svn_ctype_isspace c then trim_front s' else s end.

Definition trim s : list byte := reverse (trim_front (reverse (trim_front s))).

Lemma first_non_whitespace_ok s i :
  string_first_non_whitespace s i = (i + (length s - length (trim_front s)))%nat
  ∧ ∃ w, s = w ++ trim_front s.
Proof.
  revert i; induction s as [|c s IH]; intros i; cbn [string_first_non_whitespace trim_front].
  { split; [cbn; lia|by exists []]. }
  destruct (svn_ctype_isspace c) eqn:Hc; cbn [negb].
  - destruct (IH (S i)) as [-> [w Hw]]. pose proof (f_equal length Hw) as Hlen. rewrite length_app in Hlen.
    split; [cbn [length]; lia|]. exists (c :: w). cbn. by rewrite <- Hw.
  - split; [cbn [length]; lia|by exists []].
Qed.

Lemma trim_front_reverse_snoc s c :
  trim_front (reverse (s ++ [c])) = if svn_ctype_isspace c then trim_front (reverse s) else c :: reverse s.
Proof. by rewrite reverse_app. Qed.

Lemma trimmed_len_ok s t :
  trimmed_len (s ++ t) (length s) = length (trim_front (reverse s))
  ∧ take (trimmed_len (s ++ t) (length s)) s = reverse (trim_front (reverse s)).
Proof.
  revert t; induction s as [|c s IH] using rev_ind; intros t; [done|].
  rewrite length_app, Nat.add_1_r. cbn [trimmed_len]. rewrite trim_front_reverse_snoc, <- app_assoc.
  rewrite drop_app_length. cbn [app deref].
  destruct (svn_ctype_isspace c) eqn:Hc.
  - destruct (IH (c :: t)) as [H1 H2]. split; [done|]. rewrite H1 in H2 |- *. rewrite take_app_le; [done|].
    rewrite <- (length_reverse s). destruct (first_non_whitespace_ok (reverse s) 0) as [_ [w Hw]].
    rewrite Hw at 2. rewrite length_app. lia.
  - split; [cbn [length]; by rewrite length_reverse|]. rewrite take_ge by (rewrite length_app; cbn [length]; lia).
    by rewrite reverse_cons, reverse_involutive.
Qed.

Lemma svn_stringbuf_strip_whitespace_ok str s :
  holds str s → ∃ str', svn_stringbuf_strip_whitespace str = Ok str' ∧ holds str' (trim s).
Proof.
  intros Hh. unfold svn_stringbuf_strip_whitespace, svn_stringbuf_first_non_whitespace.
  rewrite (holds_contents str s Hh). destruct Hh as [[junk Hd] Hl Hb Hs].
  destruct (first_non_whitespace_ok s 0) as [-> [w Hw]]. cbn [Nat.add].
  set (f := trim_front s) in *. pose proof (f_equal length Hw) as Hlen. rewrite length_app in Hlen.
  rewrite Hl, Nat2Z.id. replace (length s - length f)%nat with (length w) by lia.
  replace (length s - length w)%nat with (length f) by lia.
  assert (drop (length w) (sb_data str) = f ++ NUL :: junk) as Hdrop.
  { rewrite Hd, Hw, <- app_assoc. apply drop_app_length. }
  rewrite Hdrop. destruct (trimmed_len_ok f (NUL :: junk)) as [H1 H2]. rewrite H1 in H2.
  assert (length (trim_front (reverse f)) <= length f)%nat as Hle.
  { rewrite <- (length_reverse f). destruct (first_non_whitespace_ok (reverse f) 0) as [_ [w' Hw']].
    rewrite Hw' at 2. rewrite length_app. lia. }
  destruct (cut_ok (MkBuf (f ++ NUL :: junk) (Z.of_nat (length f)) (sb_blocksize str - Z.of_nat (length w)))
    f (length (trim_front (reverse f)))) as (str' & Hr & Hh').
  { split; cbn [sb_data sb_len sb_blocksize]; [by eexists|done| |lia].
    rewrite Hb, Hd, Hw, !length_app. lia. }
  { done. }
  exists str'. rewrite H1. split; [done|]. by rewrite H2 in Hh'.
Qed.

End Blocks.

(** ** Sequences of operations *)

Inductive stringbuf_op :=
  | AppendByte (c : byte) | AppendBytes (bytes : list byte)
  | Insert (pos : nat) (bytes : list byte) | InsertInside (pos offset count : nat)
  | Remove (pos count : nat)
  | Replace (pos old_count : nat) (bytes : list byte)
  | ReplaceInside (pos old_count offset count : nat)
  | Chop (n : nat) | StripWhitespace | Set_ (value : list byte) | SetEmpty | FillChar (c : byte)
  | Ensure (n : nat).

(** The string after an operation. *)
Definition spec_op s (op : stringbuf_op) : list byte :=
  match op with
  | AppendByte c => s ++ [c]
  | AppendBytes bytes => s ++ bytes
  | Insert pos bytes => take pos s ++ bytes ++ drop pos s
  | InsertInside pos offset count => take pos s ++ sub_string s offset count ++ drop pos s
  | Remove pos count => take pos s ++ drop (pos + count) s
  | Replace pos old_count bytes => take pos s ++ bytes ++ drop (pos + old_count) s
  | ReplaceInside pos old_count offset count =>
      take pos s ++ sub_string s offset count ++ drop (pos + old_count) s
  | Chop n => take (length s - n) s
  | StripWhitespace => trim s
  | Set_ value => value
  | SetEmpty => []
  | FillChar c => replicate (length s) c
  | Ensure _ => s
  end.

(** Sizes stay far below the address space, and ranges inside the string are
    ranges of the string. *)
Definition inside_ok s (offset count : nat) : Prop :=
  (offset + count <= length s)%nat ∧ NUL ∉ sub_string s offset count.

Definition op_ok s (op : stringbuf_op) : Prop :=
  match op with
  | AppendByte _ => Z.of_nat (length s) + 1 < 2 ^ 62 - 1
  | AppendBytes bytes | Insert _ bytes => Z.of_nat (length s + length bytes) < 2 ^ 62 - 1
  | InsertInside _ offset count => inside_ok s offset count ∧ Z.of_nat (length s + count) < 2 ^ 62 - 1
  | Remove pos count => Z.of_nat pos + Z.of_nat count < 2 ^ 64 ∧ Z.of_nat (length s) < 2 ^ 62
  | Replace pos old_count bytes =>
      Z.of_nat pos + Z.of_nat old_count < 2 ^ 64 ∧ Z.of_nat (length s + length bytes) < 2 ^ 62 - 1
  | ReplaceInside pos old_count offset count =>
      inside_ok s offset count ∧ Z.of_nat pos + Z.of_nat old_count < 2 ^ 64
      ∧ Z.of_nat (length s + count) < 2 ^ 62 - 1
  | Set_ value => Z.of_nat (length value) < 2 ^ 62 - 1
  | Ensure n => Z.of_nat n < 2 ^ 62 - 1
  | _ => True
  end.

Fixpoint ops_ok s (ops : list stringbuf_op) : Prop :=
  match ops with [] => True | op :: ops => op_ok s op ∧ ops_ok (spec_op s op) ops end.

Section Operations.
Context `{AprPool}.

Definition run_op str (op : stringbuf_op) : result svn_stringbuf_t :=
  match op with
  | AppendByte c => svn_stringbuf_appendbyte str c
  | AppendBytes bytes => svn_stringbuf_appendbytes str bytes (Z.of_nat (length bytes))
  | Insert pos bytes => svn_stringbuf_insert str (Z.of_nat pos) (Outside bytes) (Z.of_nat (length bytes))
  | InsertInside pos offset count =>
      svn_stringbuf_insert str (Z.of_nat pos) (Inside (Z.of_nat offset)) (Z.of_nat count)
  | Remove pos count => svn_stringbuf_remove str (Z.of_nat pos) (Z.of_nat count)
  | Replace pos old_count bytes =>
      svn_stringbuf_replace str (Z.of_nat pos) (Z.of_nat old_count) (Outside bytes) (Z.of_nat (length bytes))
  | ReplaceInside pos old_count offset count =>
      svn_stringbuf_replace str (Z.of_nat pos) (Z.of_nat old_count) (Inside (Z.of_nat offset)) (Z.of_nat count)
  | Chop n => svn_stringbuf_chop str (Z.of_nat n)
  | StripWhitespace => svn_stringbuf_strip_whitespace str
  | Set_ value => svn_stringbuf_set str value
  | SetEmpty => svn_stringbuf_setempty str
  | FillChar c => svn_stringbuf_fillchar str c
  | Ensure n => svn_stringbuf_ensure str (Z.of_nat n)
  end.

Fixpoint run_ops str (ops : list stringbuf_op) : result svn_stringbuf_t :=
  match ops with [] => Ok str | op :: ops => let! str := run_op str op in run_ops str ops end.

Lemma run_op_ok str s op :
  holds str s → op_ok s op → ∃ str', run_op str op = Ok str' ∧ holds str' (spec_op s op).
Proof.
  intros Hh Hop. destruct op; cbn [run_op spec_op op_ok] in *.
  - by apply svn_stringbuf_appendbyte_ok.
  - destruct (svn_stringbuf_appendbytes_ok str s bytes (Z.of_nat (length bytes)) Hh) as (str' & Hr & Hh'); [lia..|].
    rewrite Nat2Z.id, take_ge in Hh' by lia. by exists str'.
  - by apply insert_outside_ok.
  - destruct Hop as [[H1 H2] H3]. by apply svn_stringbuf_insert_inside_ok.
  - destruct Hop. by apply svn_stringbuf_remove_ok.
  - destruct Hop. by apply replace_outside_ok.
  - destruct Hop as [[H1 H2] [H3 H4]]. by apply svn_stringbuf_replace_inside_ok.
  - by apply svn_stringbuf_chop_ok.
  - by apply svn_stringbuf_strip_whitespace_ok.
  - by apply (svn_stringbuf_set_ok str s).
  - by apply (svn_stringbuf_setempty_ok str s).
  - by apply svn_stringbuf_fillchar_ok.
  - destruct (svn_stringbuf_ensure_ok str s (Z.of_nat n) Hh ltac:(lia)) as (str' & Hr & Hh' & _). by exists str'.
Qed.

Lemma run_ops_ok ops str s :
  holds str s → ops_ok s ops → ∃ str', run_ops str ops = Ok str' ∧ holds str' (foldl spec_op s ops).
Proof.
  revert str s; induction ops as [|op ops IH]; intros str s Hh Hops; cbn [run_ops foldl]; [by exists str|].
  destruct Hops as [Hop Hops]. destruct (run_op_ok str s op Hh Hop) as (str1 & -> & Hh1). cbn [rbind].
  by apply IH.
Qed.

(** C25: Counted strings stay well formed under every sequence of operations
    in which no position plus count wraps around 64 bits, sizes stay below
    2^62, and a range that is inserted from the string itself lies in it and
    holds no NUL: the block has the announced size, the length is below it
    and a NUL follows the string; no operation reads or writes outside of
    the block, and the string in it is the one that the same operations give
    on lists of bytes. (Outside of these conditions:
    svn_stringbuf_remove_wraps, svn_stringbuf_insert_inside_nul.) *)
Theorem svn_stringbuf_operations ops :
  ops_ok [] ops →
  ∃ str0 str, svn_stringbuf_create_empty = Ok str0 ∧ run_ops str0 ops = Ok str
    ∧ holds str (foldl spec_op [] ops) ∧ contents str = foldl spec_op [] ops.
Proof.
  intros Hops. destruct (create_ensure_ok 0 ltac:(lia)) as (str0 & H0 & Hh0 & _).
  destruct (run_ops_ok ops str0 [] Hh0 Hops) as (str & Hr & Hh).
  exists str0, str. split_and!; try done. by apply holds_contents.
Qed.

(** svn_stringbuf_replace, which moves the tail of the string once, has the
    result that svn_string.h promises: that of removing the old bytes and
    inserting the new ones. *)
Theorem svn_stringbuf_replace_remove_insert str s (pos old_count : nat) bytes :
  holds str s → Z.of_nat pos + Z.of_nat old_count < 2 ^ 64 →
  Z.of_nat (length s + length bytes) < 2 ^ 62 - 1 →
  ∃ str1 str2,
    svn_stringbuf_replace str (Z.of_nat pos) (Z.of_nat old_count) (Outside bytes) (Z.of_nat (length bytes)) = Ok str1
    ∧ (let! str := svn_stringbuf_remove str (Z.of_nat pos) (Z.of_nat old_count) in
       svn_stringbuf_insert str (Z.of_nat pos) (Outside bytes) (Z.of_nat (length bytes))) = Ok str2
    ∧ contents str1 = contents str2
    ∧ contents str1 = take pos s ++ bytes ++ drop (pos + old_count) s.
Proof.
  intros Hh Hw Hs. destruct (replace_outside_ok str s pos old_count bytes Hh Hw Hs) as (str1 & Hr & Hh1).
  destruct (svn_stringbuf_remove_ok str s pos old_count Hh Hw ltac:(lia)) as (str' & Hrm & Hh').
  assert (length (take pos s ++ drop (pos + old_count) s) <= length s)%nat as Hle
    by (rewrite length_app, length_take, length_drop; lia).
  destruct (insert_outside_ok str' _ pos bytes Hh') as (str2 & Hi & Hh2); [lia|].
  exists str1, str2. split; [done|]. rewrite Hrm. cbn [rbind]. split; [done|].
  rewrite (holds_contents _ _ Hh1), (holds_contents _ _ Hh2). split; [|done].
  destruct (decide (pos <= length s)%nat) as [Hp|Hp].
  - rewrite take_app_length', drop_app_length' by (rewrite length_take; lia). done.
  - rewrite (drop_ge s (pos + old_count)) by lia. rewrite !app_nil_r, take_take, Nat.min_id.
    rewrite (drop_ge (take pos s)) by (rewrite length_take; lia). by rewrite app_nil_r.
Qed.

(** A range whose end wraps, which the documentation cuts at the end of the
    string, is not cut. *)
Lemma svn_stringbuf_remove_wraps str s :
  holds str s → (0 < length s)%nat → svn_stringbuf_remove str 1 (2 ^ 64 - 1) = Undefined.
Proof.
  intros [[junk Hd] Hl Hb Hs] Hpos. pose proof (f_equal length Hd) as Hlen. rewrite length_app in Hlen.
  unfold svn_stringbuf_remove. rewrite Hl. if_false by lia.
  replace (u64 (1 + (2 ^ 64 - 1))) with 0 by done. if_false by lia.
  unfold memmove, get. destruct (_ || _) eqn:Hneg; [done|]. apply orb_false_iff in Hneg as [_ Hneg%Z.ltb_ge]. lia.
Qed.

(** A string inside the block with a NUL before its end is copied only up to it,
    and read to its end. *)
Lemma svn_stringbuf_insert_inside_nul str s (pos offset count : nat) :
  holds str s → (offset + count <= length s)%nat → (0 < count)%nat →
  Z.of_nat (length s + count) < 2 ^ 62 - 1 →
  (length (cstring (drop offset s)) + 1 < count)%nat →
  svn_stringbuf_insert str (Z.of_nat pos) (Inside (Z.of_nat offset)) (Z.of_nat count) = Undefined.
Proof.
  intros Hh Hr Hc Hs Hnul. pose proof Hh as [[junk Hd] Hl Hb _]. unfold svn_stringbuf_insert.
  pose proof (f_equal length Hd) as Hlen. rewrite length_app in Hlen. cbn [length] in Hlen.
  if_true by lia.
  assert (length (copied_arg str (Z.of_nat offset) (Z.of_nat count)) < count)%nat as Hshort.
  { unfold copied_arg. rewrite apr_pstrndup_string, length_app, length_take, !Nat2Z.id, Hd, drop_app_le by lia.
    cbn [length]. assert (∀ t, (length (cstring (t ++ NUL :: junk)) <= length (cstring t))%nat) as Hcs.
    { intros t. induction t as [|c t IH]; cbn [app cstring]; [by rewrite byte_eqb_refl|]. destruct (c =b? NUL); cbn; lia. }
    specialize (Hcs (drop offset s)). lia. }
  unfold insert_outside. rewrite Hl, clip_Z, u64_small by lia.
  destruct (svn_stringbuf_ensure_ok str s (Z.of_nat (length s) + Z.of_nat count) Hh ltac:(lia)) as (str1 & -> & Hh1 & Hbig).
  cbn [rbind]. pose proof Hh1 as [[junk1 Hd1] Hl1 Hb1 _]. unfold clip, memmove. rewrite get_ok by lia. cbn [rbind].
  rewrite put_ok; [|lia|done|].
  2:{ rewrite length_take, length_drop. rewrite Hl1. lia. }
  cbn [rbind]. unfold bytes_of_arg, read_bytes. by if_false by lia.
Qed.

End Operations.

Lemma svn_stringbuf_operations_witness :
  let ops := [AppendBytes [x20; x61; x62]; Insert 1 [x63]; Remove 2 1; AppendByte x20; StripWhitespace] in
  ops_ok [] ops
  ∧ ∃ str0 str, @svn_stringbuf_create_empty cleared_pool = Ok str0 ∧ @run_ops cleared_pool str0 ops = Ok str
    ∧ holds str (foldl spec_op [] ops) ∧ contents str = foldl spec_op [] ops.
Proof.
  intros ops. assert (ops_ok [] ops) as Hops by (cbn; repeat split; lia).
  split; [exact Hops|]. apply (@svn_stringbuf_operations cleared_pool ops Hops).
Defined.

Lemma svn_stringbuf_replace_remove_insert_witness :
  ∃ str1 str2,
    @svn_stringbuf_replace cleared_pool (MkBuf [x61; x62; NUL] 2 3) 1 1 (Outside [x63; x64]) 2 = Ok str1
    ∧ (let! str := svn_stringbuf_remove (MkBuf [x61; x62; NUL] 2 3) 1 1 in
       @svn_stringbuf_insert cleared_pool str 1 (Outside [x63; x64]) 2) = Ok str2
    ∧ contents str1 = contents str2 ∧ contents str1 = take 1 [x61; x62] ++ [x63; x64] ++ drop (1 + 1) [x61; x62].
Proof.
  apply (@svn_stringbuf_replace_remove_insert cleared_pool (MkBuf [x61; x62; NUL] 2 3) [x61; x62] 1 1 [x63; x64]).
  - split; [by exists []|done..].
  - done.
  - done.
Defined.
