(* ===== verification/StringLists.v ===== *)
(** * Lists of C strings

    Splitting and joining strings, and comparing them without case, from
    [src/subversion/libsvn_subr/string.c] and [ctype.c].  Strings are given
    without their NUL. *)
From S2P Require Import Prelude Numbers Cstrings.

Implicit Types (s sep str word input : list byte) (words : list (list byte)).

(** ** Tokens

    [apr_strtok (NULL, sep, &str)] of APR: the token, and the new [str]. *)
Definition separator sep (c : byte) : bool := existsb (λ d, c =b? d) sep.

Fixpoint token_of sep str : list byte :=
  match str with
  | [] => []
  | c :: str => if separator sep c then [] else c :: token_of sep str
  end.

Class AprStrtok := {
  apr_strtok : list byte → list byte → option (list byte) * list byte;
  apr_strtok_none : ∀ sep str, skip_while (separator sep) str = [] → (apr_strtok sep str).1 = None;
  apr_strtok_some : ∀ sep str, skip_while (separator sep) str ≠ [] →
    apr_strtok sep str
    = (Some (token_of sep (skip_while (separator sep) str)),
       drop (S (length (token_of sep (skip_while (separator sep) str)))) (skip_while (separator sep) str));
}.

(** Like [strtok_r] of the C library. *)
Definition strtok_apr : AprStrtok.
Proof.
  refine {| apr_strtok sep str :=
    let t := skip_while (separator sep) str in
    match t with
    | [] => (None, [])
    | _ => (Some (token_of sep t), drop (S (length (token_of sep t))) t)
    end |}.
  - intros sep str. cbv zeta. by intros ->.
  - intros sep str Hne. cbv zeta. by destruct (skip_while _ _).
Defined.

(** White space at both ends of a token is overwritten or skipped. *)
Fixpoint chop_end s : list byte :=
  match s with
  | [] => []
  | c :: s' => match chop_end s' with [] => if svn_ctype_isspace c then [] else [c] | t => c :: t end
  end.

Definition chop_whitespace_of s : list byte := chop_end (skip_while svn_ctype_isspace s).

Section Lists.
Context `{AprStrtok}.

(** A separator of one character is handled without APR. *)
Definition cstring_tokenize sep str : option (list byte) * list byte :=
  match sep with
  | [csep] => svn_cstring_tokenize csep str
  | _ => apr_strtok sep str
  end.

(** Every token takes a byte of [pats]. *)
Fixpoint split_loop (fuel : nat) (array : list (list byte)) (pats sep_chars : list byte)
    (chop_whitespace : bool) : result (list (list byte)) :=
  match cstring_tokenize sep_chars pats with
  | (None, _) => Ok array
  | (Some p, pats) =>
      match fuel with
      | O => OutOfFuel
      | S fuel =>
          let p := if chop_whitespace then chop_whitespace_of p else p in
          let array := match p with [] => array | _ => array ++ [p] end in
          split_loop fuel array pats sep_chars chop_whitespace
      end
  end.

Definition svn_cstring_split_append (array : list (list byte)) input (sep_chars : list byte)
    (chop_whitespace : bool) : result (list (list byte)) :=
  split_loop (length input) array input sep_chars chop_whitespace.

Definition svn_cstring_split input (sep_chars : list byte) (chop_whitespace : bool)
    : result (list (list byte)) :=
  svn_cstring_split_append [] input sep_chars chop_whitespace.

Definition svn_cstring_match_list str (list : list (list byte)) : bool :=
  existsb (λ this_str, strcmp this_str str =? 0) list.

Fixpoint svn_cstring_join (strings : list (list byte)) (separator : list byte) : list byte :=
  match strings with
  | [] => []
  | string :: strings => string ++ separator ++ svn_cstring_join strings separator
  end.

(** A carriage return and a line feed, in either order, are one line end. *)
Fixpoint svn_cstring_count_newlines (msg : list byte) : Z :=
  match msg with
  | [] => 0
  | c :: msg' =>
      if c =b? x0a then
        1 + match msg' with
            | d :: msg'' => if d =b? x0d then svn_cstring_count_newlines msg'' else svn_cstring_count_newlines msg'
            | [] => 0
            end
      else if c =b? x0d then
        1 + match msg' with
            | d :: msg'' => if d =b? x0a then svn_cstring_count_newlines msg'' else svn_cstring_count_newlines msg'
            | [] => 0
            end
      else svn_cstring_count_newlines msg'
  end.

(** [casefold_table]: lower case letters of ASCII to upper case. *)
Definition casefold (c : byte) : Z :=
  let n := byte_val c in if (97 <=? n) && (n <=? 122) then n - 32 else n.

Definition svn_ctype_casecmp (a b : byte) : Z := casefold a - casefold b.

(** The strings end in NUL, which is folded to 0. *)
Fixpoint svn_cstring_casecmp (str1 str2 : list byte) : Z :=
  match str1, str2 with
  | [], [] => 0
  | [], b :: _ => svn_ctype_casecmp NUL b
  | a :: _, [] => svn_ctype_casecmp a NUL
  | a :: str1, b :: str2 =>
      let cmp := svn_ctype_casecmp a b in
      if negb (cmp =? 0) then cmp else svn_cstring_casecmp str1 str2
  end.

(** ** Splitting what was joined *)

Lemma token_of_length sep str : (length (token_of sep str) <= length str)%nat.
Proof. induction str as [|c str IH]; cbn; [done|]. destruct (separator sep c); cbn; lia. Qed.

Lemma skip_while_head p s c s' : skip_while p s = c :: s' → p c = false.
Proof.
  induction s as [|d s IH]; cbn; [done|]. destruct (p d) eqn:Hd; [done|]. by intros [= <- _].
Qed.

Lemma svn_cstring_tokenize_shorter csep str token str' :
  svn_cstring_tokenize csep str = (Some token, str') → (length str' < length str)%nat.
Proof.
  unfold svn_cstring_tokenize. pose proof (skip_while_length (λ c, c =b? csep) str) as Hl.
  destruct (skip_while _ str) as [|c t] eqn:Ht; [done|]. apply skip_while_head in Ht.
  destruct (strchr (c :: t) csep) as [[before rest]|] eqn:Hs; [|intros [= <- <-]; cbn [length] in *; lia].
  intros [= <- <-]. cbn [strchr] in Hs. rewrite Ht in Hs.
  destruct (strchr t csep) as [[before' rest']|] eqn:Hs'; [|done]. injection Hs as _ <-.
  assert (∀ s b r, strchr s csep = Some (b, r) → (length r < length s)%nat) as Hlt.
  { clear. induction s as [|d s IH]; [done|]. intros b r. cbn [strchr]. destruct (d =b? csep).
    - intros [= _ <-]. cbn [length]. lia.
    - destruct (strchr s csep) as [[b' r']|] eqn:He; [|done]. intros [= _ <-].
      specialize (IH _ _ eq_refl). cbn [length]. lia. }
  apply Hlt in Hs'. cbn [length] in *. lia.
Qed.

Lemma cstring_tokenize_shorter sep str token str' :
  cstring_tokenize sep str = (Some token, str') → (length str' < length str)%nat.
Proof.
  assert (apr_strtok sep str = (Some token, str') → (length str' < length str)%nat) as Hapr.
  { pose proof (skip_while_length (separator sep) str) as Hl.
    destruct (skip_while (separator sep) str) as [|c t] eqn:Ht.
    - intros Heq. pose proof (apr_strtok_none sep str Ht) as Hn. by rewrite Heq in Hn.
    - rewrite apr_strtok_some by by rewrite Ht. intros [= _ <-]. rewrite Ht, length_drop. cbn [length] in *. lia. }
  unfold cstring_tokenize. destruct sep as [|c [|d sep]]; [done|apply svn_cstring_tokenize_shorter|done].
Qed.

(** Splitting ends, and only adds to the array. *)
Lemma split_loop_total fuel pats sep chop :
  (length pats <= fuel)%nat →
  ∃ tokens, ∀ array', split_loop fuel array' pats sep chop = Ok (array' ++ tokens).
Proof.
  revert pats; induction fuel as [|fuel IH]; intros pats Hf; cbn [split_loop].
  - destruct (cstring_tokenize sep pats) as [[p|] rest] eqn:Ht.
    + apply cstring_tokenize_shorter in Ht. lia.
    + exists []. intros array'. by rewrite app_nil_r.
  - destruct (cstring_tokenize sep pats) as [[p|] rest] eqn:Ht.
    + apply cstring_tokenize_shorter in Ht. destruct (IH rest) as [tokens Htok]; [lia|].
      cbv zeta. destruct (if chop then chop_whitespace_of p else p) as [|c q].
      * by exists tokens.
      * exists ((c :: q) :: tokens). intros array'. by rewrite Htok, <- app_assoc.
    + exists []. intros array'. by rewrite app_nil_r.
Qed.

(** A word that is neither cut nor chopped. *)
Definition plain_word sep (chop : bool) word : Prop :=
  word ≠ [] ∧ Forall (λ c, separator sep c = false) word
  ∧ (chop = true → svn_ctype_isspace (deref word) = false
     ∧ ∀ c, last word = Some c → svn_ctype_isspace c = false).

Lemma chop_end_plain s : (∀ c, last s = Some c → svn_ctype_isspace c = false) → chop_end s = s.
Proof.
  induction s as [|c s IH]; [done|]. intros Hl. cbn [chop_end]. destruct s as [|d s].
  - cbn. by rewrite (Hl c eq_refl).
  - by rewrite (IH Hl).
Qed.

Lemma chop_plain sep word : plain_word sep true word → chop_whitespace_of word = word.
Proof.
  intros (Hne & _ & Hc). destruct (Hc eq_refl) as [H1 H2]. unfold chop_whitespace_of.
  destruct word as [|c word]; [done|]. cbn [skip_while]. cbn [deref] in H1. rewrite H1. by apply chop_end_plain.
Qed.

Lemma token_of_word sep word c rest :
  Forall (λ d, separator sep d = false) word → separator sep c = true →
  token_of sep (word ++ c :: rest) = word.
Proof. induction 1 as [|d word Hd _ IH]; intros Hc; cbn; [by rewrite Hc|]. by rewrite Hd, IH. Qed.

(** Joined with a separator character, words are found again. *)
Lemma cstring_tokenize_word sep word c rest :
  word ≠ [] → Forall (λ d, separator sep d = false) word → separator sep c = true →
  cstring_tokenize sep (word ++ c :: rest) = (Some word, rest).
Proof.
  intros Hne Hw Hc.
  assert (apr_strtok sep (word ++ c :: rest) = (Some word, rest)) as Hapr.
  { assert (skip_while (separator sep) (word ++ c :: rest) = word ++ c :: rest) as Hskip.
    { destruct word as [|d word]; [done|]. apply Forall_cons in Hw as [Hd _]. cbn. by rewrite Hd. }
    rewrite apr_strtok_some; rewrite Hskip; [|by destruct word].
    rewrite token_of_word by done. by rewrite <- Nat.add_1_r, drop_app_add. }
  unfold cstring_tokenize. destruct sep as [|csep [|d sep]]; [done| |done].
  cbn in Hc. rewrite orb_false_r in Hc. apply byte_eqb_eq in Hc as ->.
  apply svn_cstring_tokenize_app; [done|]. intros Hin. rewrite Forall_forall in Hw. specialize (Hw _ Hin).
  cbn in Hw. by rewrite byte_eqb_refl in Hw.
Qed.

Lemma cstring_tokenize_end sep : (cstring_tokenize sep []).1 = None.
Proof. unfold cstring_tokenize. destruct sep as [|c [|d sep]]; [by apply apr_strtok_none|done|by apply apr_strtok_none]. Qed.

Lemma split_join_ok words sep c chop array fuel :
  Forall (plain_word sep chop) words → separator sep c = true →
  (length (svn_cstring_join words [c]) <= fuel)%nat →
  split_loop fuel array (svn_cstring_join words [c]) sep chop = Ok (array ++ words).
Proof.
  intros Hw Hc. revert array fuel. induction Hw as [|word words (Hne & Hsep & Hchop) _ IH]; intros array fuel Hf.
  - cbn [svn_cstring_join]. pose proof (cstring_tokenize_end sep) as Hn. rewrite app_nil_r.
    destruct fuel; cbn [split_loop]; destruct (cstring_tokenize sep []) as [[p|] rest]; by cbn in Hn.
  - cbn [svn_cstring_join app] in *. rewrite length_app in Hf. cbn [length] in Hf.
    destruct fuel as [|fuel]; [lia|]. cbn [split_loop]. rewrite cstring_tokenize_word by done. cbv zeta.
    assert ((if chop then chop_whitespace_of word else word) = word) as ->.
    { destruct chop; [by apply (chop_plain sep)|done]. }
    destruct word as [|d word]; [done|]. rewrite IH by lia. by rewrite <- app_assoc.
Qed.

(** Words joined with a separator are found again by splitting, with and
    without chopping, for separators that APR handles as well. *)
Theorem svn_cstring_split_join words sep c chop :
  Forall (plain_word sep chop) words → separator sep c = true →
  svn_cstring_split (svn_cstring_join words [c]) sep chop = Ok words.
Proof. intros Hw Hc. by apply (split_join_ok words sep c chop []). Qed.

End Lists.

Lemma svn_cstring_split_join_witness :
  Forall (plain_word [x2c; x3b] true) [[x61; x20; x62]; [x63]] ∧ separator [x2c; x3b] x2c = true
  ∧ @svn_cstring_split strtok_apr (svn_cstring_join [[x61; x20; x62]; [x63]] [x2c]) [x2c; x3b] true
    = Ok [[x61; x20; x62]; [x63]].
Proof.
  assert (Forall (plain_word [x2c; x3b] true) [[x61; x20; x62]; [x63]]) as Hw.
  { repeat constructor; intros; by simplify_eq/=. }
  split; [exact Hw|]. split; [reflexivity|].
  apply (@svn_cstring_split_join strtok_apr [[x61; x20; x62]; [x63]] [x2c; x3b] x2c true Hw eq_refl).
Defined.
