(* ===== verification/Keys.v ===== *)
(** * Base-36 keys and node-revision ids

    Numbers in base 36 as names of node revisions, copies and transactions:
    [src/subversion/libsvn_fs_fs/key-gen.c] and its older copy
    [src/subversion/libsvn_fs_base/key-gen.c].  A key is the bytes before its
    terminator.

    [src/subversion/libsvn_fs_base/id.c]: the three parts of an id, their text and
    their comparison.  Ids are values: the shortcuts for equal pointers give what
    the comparison of the parts gives. *)
From S2P Require Import Prelude Numbers Cstrings.

Definition MAX_KEY_SIZE : nat := 200.

(** ** The operations *)

(** A [char] is signed. *)
Definition char_val (c : byte) : Z := if byte_val c <? 128 then byte_val c else byte_val c - 256.

Definition valid_char (c : byte) : bool :=
  ((48 <=? char_val c) && (char_val c <=? 57)) || ((97 <=? char_val c) && (char_val c <=? 122)).

Definition char_of (z : Z) : byte := byte_of z.

Definition key_digit (c : byte) : Z :=
  if char_val c <=? 57 then char_val c - 48 else char_val c - 97 + 10.

(** The keys from their last character on; [result] is the reversed [buf]. *)
Fixpoint add_keys_loop (fuel : nat) (key1 key2 : list byte) (carry : Z) (result : list byte)
    : Prelude.result (list byte) :=
  match key1, key2, 0 <? carry with
  | [], [], false => Ok result
  | _, _, _ =>
      match fuel with
      | O => OutOfFuel
      | S fuel =>
          let val := carry in
          let val := match key1 with c :: _ => val + key_digit c | [] => val end in
          let val := match key2 with c :: _ => val + key_digit c | [] => val end in
          let carry := Z.quot val 36 in
          let val := Z.rem val 36 in
          if (length result <? MAX_KEY_SIZE + 2)%nat then
            add_keys_loop fuel (tail key1) (tail key2) carry
              (char_of (if val <=? 9 then val + 48 else val - 10 + 97) :: result)
          else Undefined
      end
  end.

Definition svn_fs_fs__add_keys (key1 key2 : list byte) : result (list byte) :=
  add_keys_loop (S (length key1 + length key2)) (reverse key1) (reverse key2) 0 [].

(** The loop from the last character on; [next] is what it has written.  [None]:
    [*len] is set to 0. *)
Fixpoint next_key_loop (this : list byte) (carry : bool) (next : list byte)
    : option (list byte * bool) :=
  match this with
  | [] => Some (next, carry)
  | c :: this =>
      if valid_char c then
        if carry then
          if c =b? "z"%byte then next_key_loop this true ("0"%byte :: next)
          else next_key_loop this false
                 ((if c =b? "9"%byte then "a"%byte else char_of (char_val c + 1)) :: next)
        else next_key_loop this false (c :: next)
      else None
  end.

Definition next_key (this : list byte) : result (option (list byte)) :=
  if (1 <? length this)%nat && (deref this =b? "0"%byte) then Ok None
  else
    match next_key_loop (reverse this) true [] with
    | None => Ok None
    | Some (next, carry) =>
        assert! (length this + (if carry then 1 else 0) <? MAX_KEY_SIZE)%nat in
        Ok (Some (if carry then "1"%byte :: next else next))
    end.

(** [None]: there is no next key, [*len] is 0. *)
Definition svn_fs_fs__next_key (this : list byte) : result (option (list byte)) := next_key this.
Definition svn_fs_base__next_key (this : list byte) : result (option (list byte)) := next_key this.

Definition key_compare (a b : list byte) : Z :=
  let a_len := length a in
  let b_len := length b in
  if (b_len <? a_len)%nat then 1
  else if (a_len <? b_len)%nat then -1
  else
    let cmp := strcmp a b in
    if cmp =? 0 then 0 else Z.quot cmp (Z.abs cmp).

Definition svn_fs_fs__key_compare (a b : list byte) : Z := key_compare a b.
Definition svn_fs_base__key_compare (a b : list byte) : Z := key_compare a b.

(** A null key is [None]. *)
Definition svn_fs_base__same_keys (a b : option (list byte)) : bool :=
  match a, b with
  | None, None => true
  | Some _, None | None, Some _ => false
  | Some a, Some b => strcmp a b =? 0
  end.

Example next_key_examples :
  map svn_fs_fs__next_key (map String.list_byte_of_string ["0"; "9"; "z"; "1az"; "zz"; "01"; "A"; ""]%string)
  = map Ok [Some (String.list_byte_of_string "1"); Some (String.list_byte_of_string "a");
            Some (String.list_byte_of_string "10"); Some (String.list_byte_of_string "1b0");
            Some (String.list_byte_of_string "100"); None; None;
            Some (String.list_byte_of_string "1")].
Proof. vm_compute. reflexivity. Qed.

(** ** Keys as numbers *)

Definition key_value (key : list byte) : Z := fold_left (λ v c, 36 * v + key_digit c) key 0.

(** A key in its normal form; the empty key counts as 0. *)
Definition is_key (key : list byte) : Prop :=
  Forall (λ c, valid_char c = true) key ∧ ((length key <= 1)%nat ∨ deref key ≠ "0"%byte).

Lemma key_value_snoc key c : key_value (key ++ [c]) = 36 * key_value key + key_digit c.
Proof. unfold key_value. by rewrite fold_left_app. Qed.

(** The value of the characters from the last one on. *)
Fixpoint reversed_value (key : list byte) : Z :=
  match key with [] => 0 | c :: key => key_digit c + 36 * reversed_value key end.

Lemma key_value_reverse key : key_value (reverse key) = reversed_value key.
Proof.
  induction key as [|c key IH]; [done|]. rewrite reverse_cons, key_value_snoc, IH. simpl. lia.
Qed.

Lemma key_digit_range c : valid_char c = true → 0 <= key_digit c < 36.
Proof. intros Hc. destruct c; try discriminate; vm_compute; split; congruence. Qed.

Lemma key_value_app a b : key_value (a ++ b) = key_value a * 36 ^ Z.of_nat (length b) + key_value b.
Proof.
  induction b as [|c b IH] using rev_ind.
  { rewrite app_nil_r. change (key_value []) with 0. rewrite Z.pow_0_r. lia. }
  rewrite app_assoc, !key_value_snoc, IH, length_app. cbn [length].
  rewrite Nat.add_1_r, Nat2Z.inj_succ, Z.pow_succ_r by lia. ring.
Qed.

Lemma key_value_bound key :
  Forall (λ c, valid_char c = true) key → 0 <= key_value key < 36 ^ Z.of_nat (length key).
Proof.
  induction key as [|c key IH] using rev_ind; [done|]. intros [Hkey Hc]%Forall_app.
  specialize (IH Hkey). apply Forall_singleton, key_digit_range in Hc. rewrite key_value_snoc, length_app.
  cbn [length]. rewrite Nat.add_1_r, Nat2Z.inj_succ, Z.pow_succ_r by lia. lia.
Qed.

(** A key without a leading zero has the value that its length says. *)
Lemma key_value_low key :
  Forall (λ c, valid_char c = true) key → key ≠ [] → deref key ≠ "0"%byte →
  36 ^ (Z.of_nat (length key) - 1) <= key_value key.
Proof.
  destruct key as [|c key]; [done|]. intros [Hc Hkey]%Forall_cons _ Hne. cbn [deref] in Hne.
  change (c :: key) with ([c] ++ key). rewrite key_value_app. apply key_value_bound in Hkey.
  assert (1 <= key_digit c) as Hd by (destruct c; try discriminate; [done|vm_compute; congruence..]).
  change (key_value [c]) with (36 * 0 + key_digit c). rewrite length_app. cbn [length].
  replace (Z.of_nat (1 + length key) - 1) with (Z.of_nat (length key)) by lia.
  assert (0 < 36 ^ Z.of_nat (length key)) by (apply Z.pow_pos_nonneg; lia). nia.
Qed.

(** ** The next key *)

Definition next_char (c : byte) : byte := if c =b? "9"%byte then "a"%byte else char_of (char_val c + 1).

Lemma next_char_ok c :
  valid_char c = true → c ≠ "z"%byte →
  valid_char (next_char c) = true ∧ key_digit (next_char c) = key_digit c + 1.
Proof. intros Hc Hz. destruct c; try discriminate; done. Qed.

Lemma next_key_loop_ok this carry next :
  Forall (λ c, valid_char c = true) this →
  ∃ out carry', next_key_loop this carry next = Some (out ++ next, carry')
    ∧ length out = length this ∧ Forall (λ c, valid_char c = true) out
    ∧ key_value out + (if carry' then 36 ^ Z.of_nat (length this) else 0)
      = reversed_value this + (if carry then 1 else 0).
Proof.
  intros Hthis. revert carry next; induction Hthis as [|c this Hc _ IH]; intros carry next.
  { exists [], carry. split; [done|]. split; [done|]. split; [done|]. by destruct carry. }
  assert (∀ d carry1, next_key_loop (c :: this) carry next = next_key_loop this carry1 (d :: next) →
    valid_char d = true →
    key_digit d + (if carry1 then 36 else 0) = key_digit c + (if carry then 1 else 0) →
    ∃ out carry', next_key_loop (c :: this) carry next = Some (out ++ next, carry')
      ∧ length out = length (c :: this) ∧ Forall (λ c, valid_char c = true) out
      ∧ key_value out + (if carry' then 36 ^ Z.of_nat (length (c :: this)) else 0)
        = reversed_value (c :: this) + (if carry then 1 else 0)) as Hstep.
  { intros d carry1 -> Hd Heq. destruct (IH carry1 (d :: next)) as (out & carry' & -> & Hl & Hout & Hv).
    exists (out ++ [d]), carry'. rewrite <- app_assoc. split; [done|].
    split; [rewrite length_app; simpl; lia|]. split; [apply Forall_app; by repeat constructor|].
    rewrite key_value_snoc. cbn [reversed_value length]. rewrite Nat2Z.inj_succ, Z.pow_succ_r by lia.
    destruct carry, carry1, carry'; lia. }
  cbn [next_key_loop] in *. rewrite Hc in *. destruct carry.
  - destruct (c =b? "z"%byte) eqn:Hz.
    + apply byte_eqb_eq in Hz as ->. by apply (Hstep "0"%byte true).
    + apply byte_eqb_ne in Hz. destruct (next_char_ok c Hc Hz) as [Hn Hd].
      apply (Hstep (next_char c) false); [done|done|lia].
  - by apply (Hstep c false).
Qed.

Lemma next_key_loop_invalid this carry next :
  ¬ Forall (λ c, valid_char c = true) this → next_key_loop this carry next = None.
Proof.
  revert carry next; induction this as [|c this IH]; intros carry next Hthis; [by destruct Hthis|].
  cbn [next_key_loop]. destruct (valid_char c) eqn:Hc; [|done].
  assert (¬ Forall (λ c, valid_char c = true) this) as Hrest by (intros H; apply Hthis; by constructor).
  destruct carry; [destruct (c =b? _)|]; by apply IH.
Qed.

(** A key is as long as its value says. *)
Lemma is_key_length key (n : nat) :
  is_key key → 0 < key_value key → (length key <= n)%nat ↔ key_value key < 36 ^ Z.of_nat n.
Proof.
  intros [Hvalid Hhead] Hpos. pose proof (key_value_bound key Hvalid) as [_ Hhigh].
  assert (36 ^ (Z.of_nat (length key) - 1) <= key_value key) as Hlow.
  { destruct Hhead as [Hl|Hne].
    - assert (36 ^ (Z.of_nat (length key) - 1) <= 36 ^ 0) by (apply Z.pow_le_mono_r; lia).
      rewrite Z.pow_0_r in *. lia.
    - apply key_value_low; [done| |done]. intros ->. done. }
  split; intros H.
  - assert (36 ^ Z.of_nat (length key) <= 36 ^ Z.of_nat n) by (apply Z.pow_le_mono_r; lia). lia.
  - destruct (Nat.le_gt_cases (length key) n); [done|].
    assert (36 ^ Z.of_nat n <= 36 ^ (Z.of_nat (length key) - 1)) by (apply Z.pow_le_mono_r; lia). lia.
Qed.

(** A key with digits whose value is large enough has no leading zero. *)
Lemma no_leading_zero key :
  Forall (λ c, valid_char c = true) key → 36 ^ (Z.of_nat (length key) - 1) <= key_value key → is_key key.
Proof.
  intros Hvalid Hlow. split; [done|]. destruct key as [|c [|d key]]; [left; simpl; lia..|].
  right. intros Hz. cbn [deref] in Hz. subst c. apply Forall_cons in Hvalid as [_ Hvalid].
  change ("0"%byte :: d :: key) with (["0"%byte] ++ (d :: key)) in Hlow.
  rewrite key_value_app in Hlow. apply key_value_bound in Hvalid.
  change (key_value ["0"%byte]) with 0 in Hlow. rewrite length_app in Hlow. cbn [length] in *.
  replace (Z.of_nat (1 + S (length key)) - 1) with (Z.of_nat (S (length key))) in Hlow by lia. lia.
Qed.

Lemma next_key_ok this :
  is_key this →
  if key_value this + 1 <? 36 ^ 199 then
    ∃ next, next_key this = Ok (Some next) ∧ is_key next ∧ key_value next = key_value this + 1
      ∧ (length next < MAX_KEY_SIZE)%nat
  else next_key this = Aborted.
Proof.
  intros Hkey. assert (Hkey' := Hkey). destruct Hkey' as [Hvalid Hhead]. unfold next_key.
  pose proof (key_value_bound this Hvalid) as [Hnonneg Hhigh].
  assert ((1 <? length this)%nat && (deref this =b? "0"%byte) = false) as ->.
  { destruct Hhead as [Hl|Hne]; [by rewrite (proj2 (Nat.ltb_ge 1 _)) by lia|].
    rewrite (proj2 (byte_eqb_ne _ _) Hne). apply andb_false_r. }
  destruct (next_key_loop_ok (reverse this) true []) as (out & carry & -> & Hl & Hout & Hv).
  { by rewrite reverse_Permutation. }
  rewrite app_nil_r in *. rewrite length_reverse in *. rewrite <- key_value_reverse, reverse_involutive in Hv.
  set (next := if carry then "1"%byte :: out else out).
  assert (length next = (length this + (if carry then 1 else 0))%nat) as Hlen
    by (unfold next; destruct carry; simpl; lia).
  assert (key_value next = key_value this + 1) as Hvalue.
  { unfold next. destruct carry; [|lia]. change ("1"%byte :: out) with (["1"%byte] ++ out).
    rewrite key_value_app. change (key_value ["1"%byte]) with 1. rewrite Hl. lia. }
  assert (is_key next) as Hnext.
  { apply no_leading_zero; [unfold next; destruct carry; [by constructor|done]|].
    rewrite Hlen, Hvalue. destruct carry.
    - replace (Z.of_nat (length this + 1) - 1) with (Z.of_nat (length this)) by lia.
      apply key_value_bound in Hout. rewrite Hl in Hout. lia.
    - rewrite Nat.add_0_r. destruct Hhead as [Hl1|Hne].
      + assert (36 ^ (Z.of_nat (length this) - 1) <= 36 ^ 0) by (apply Z.pow_le_mono_r; lia).
        rewrite Z.pow_0_r in *. lia.
      + destruct this as [|c this]; [simpl; lia|].
        pose proof (key_value_low (c :: this) Hvalid ltac:(done) Hne). lia. }
  pose proof (is_key_length next 199 Hnext ltac:(lia)) as Hbound.
  rewrite Hvalue, Hlen in Hbound. change (Z.of_nat 199) with 199 in Hbound.
  destruct (Z.ltb_spec (key_value this + 1) (36 ^ 199)) as [Hlt|Hge].
  - apply Hbound in Hlt. rewrite (proj2 (Nat.ltb_lt _ MAX_KEY_SIZE)) by (unfold MAX_KEY_SIZE; lia).
    exists next. split; [done|]. split; [done|]. split; [done|]. unfold MAX_KEY_SIZE. lia.
  - rewrite (proj2 (Nat.ltb_ge _ MAX_KEY_SIZE)); [done|]. unfold MAX_KEY_SIZE.
    destruct (Nat.le_gt_cases (length this + (if carry then 1 else 0)) 199) as [Hle|]; [|lia].
    apply Hbound in Hle. lia.
Qed.

Lemma next_key_invalid this : ¬ is_key this → next_key this = Ok None.
Proof.
  intros Hkey. unfold next_key. destruct (_ && _) eqn:Hzero; [done|].
  rewrite next_key_loop_invalid; [done|]. rewrite reverse_Permutation. intros Hvalid. apply Hkey.
  split; [done|]. apply andb_false_iff in Hzero as [Hl%Nat.ltb_ge|Hne%byte_eqb_ne]; [by left|by right].
Qed.

(** ** Comparing keys *)

Lemma digit_order c d :
  valid_char c = true → valid_char d = true →
  Z.sgn (byte_val c - byte_val d) = Z.sgn (key_digit c - key_digit d).
Proof.
  unfold valid_char, key_digit, char_val. intros Hc Hd. pose proof (byte_val_range c).
  pose proof (byte_val_range d). repeat case_if; lia.
Qed.

Lemma strcmp_order a b :
  length a = length b → Forall (λ c, valid_char c = true) a → Forall (λ c, valid_char c = true) b →
  Z.sgn (strcmp a b) = Z.sgn (key_value a - key_value b).
Proof.
  revert b; induction a as [|c a IH]; intros [|d b] Hl Ha Hb; try done. injection Hl as Hl.
  apply Forall_cons in Ha as [Hc Ha]. apply Forall_cons in Hb as [Hd Hb]. cbn [strcmp].
  change (c :: a) with ([c] ++ a). change (d :: b) with ([d] ++ b). rewrite !key_value_app, <- Hl.
  change (key_value [c]) with (36 * 0 + key_digit c). change (key_value [d]) with (36 * 0 + key_digit d).
  pose proof (key_value_bound a Ha). pose proof (key_value_bound b Hb). rewrite <- Hl in *.
  destruct (c =b? d) eqn:Hcd.
  - apply byte_eqb_eq in Hcd as ->. rewrite IH by done. f_equal. lia.
  - rewrite digit_order by done. apply byte_eqb_ne in Hcd.
    assert (key_digit c ≠ key_digit d) as Hne.
    { intros Heq. apply Hcd, byte_val_inj. pose proof (digit_order c d Hc Hd). lia. }
    assert (0 < 36 ^ Z.of_nat (length a)) by (apply Z.pow_pos_nonneg; lia).
    destruct (Z.lt_trichotomy (key_digit c) (key_digit d)) as [Hlt|[Heq|Hgt]]; [|done|].
    + rewrite Z.sgn_neg by lia. symmetry. apply Z.sgn_neg. nia.
    + rewrite Z.sgn_pos by lia. symmetry. apply Z.sgn_pos. nia.
Qed.

Lemma key_compare_ok a b :
  is_key a → is_key b → a ≠ [] → b ≠ [] → key_compare a b = Z.sgn (key_value a - key_value b).
Proof.
  assert (∀ a b, is_key a → is_key b → b ≠ [] → (length b < length a)%nat →
    key_value b < key_value a) as Hlonger.
  { intros x y [Hx Hx'] [Hy _] Hne Hl. pose proof (key_value_bound y Hy).
    destruct Hx' as [Hx'|Hx']; [destruct y; simpl in *; [done|lia]|].
    assert (x ≠ []) as Hxne by (by destruct x; [simpl in Hl; lia|]).
    pose proof (key_value_low x Hx Hxne Hx').
    assert (36 ^ Z.of_nat (length y) <= 36 ^ (Z.of_nat (length x) - 1)) by (apply Z.pow_le_mono_r; lia). lia. }
  intros Ha Hb Hna Hnb. unfold key_compare.
  destruct (Nat.ltb_spec (length b) (length a)) as [Hl|Hl].
  { pose proof (Hlonger a b Ha Hb Hnb Hl). symmetry. apply Z.sgn_pos. lia. }
  destruct (Nat.ltb_spec (length a) (length b)) as [Hl'|Hl'].
  { pose proof (Hlonger b a Hb Ha Hna Hl'). symmetry. apply Z.sgn_neg. lia. }
  rewrite <- strcmp_order by (lia || apply Ha || apply Hb).
  destruct (Z.eqb_spec (strcmp a b) 0) as [->|Hne]; [done|].
  destruct (Z.lt_trichotomy (strcmp a b) 0) as [H|[H|H]]; [|done|].
  - rewrite Z.abs_neq, Z.sgn_neg by lia. rewrite Z.quot_opp_r, Z.quot_same by lia. done.
  - rewrite Z.abs_eq, Z.sgn_pos by lia. by rewrite Z.quot_same.
Qed.

(** ** Adding keys *)

Lemma digit_char v :
  0 <= v < 36 →
  let c := char_of (if v <=? 9 then v + 48 else v - 10 + 97) in
  valid_char c = true ∧ key_digit c = v.
Proof.
  intros Hv c. assert (byte_val c = if v <=? 9 then v + 48 else v - 10 + 97) as Hc.
  { unfold c, char_of. rewrite byte_val_of, Z.mod_small; [done|]. case_if; lia. }
  unfold valid_char, key_digit, char_val. rewrite Hc. repeat case_if; lia.
Qed.

Lemma add_loop_ok fuel key1 key2 carry result :
  Forall (λ c, valid_char c = true) key1 → Forall (λ c, valid_char c = true) key2 →
  0 <= carry <= 1 →
  let n := Nat.max (length key1) (length key2) in
  (n < fuel)%nat → (n + length result < MAX_KEY_SIZE + 2)%nat →
  ∃ out, add_keys_loop fuel key1 key2 carry result = Ok (out ++ result)
    ∧ Forall (λ c, valid_char c = true) out
    ∧ key_value out = reversed_value key1 + reversed_value key2 + carry
    ∧ (length out = n ∨ length out = S n ∧ 36 ^ Z.of_nat n <= key_value out).
Proof.
  revert key1 key2 carry result; induction fuel as [|fuel IH];
    intros key1 key2 carry result H1 H2 Hcarry n Hfuel Hsize; [lia|].
  assert (add_keys_loop (S fuel) key1 key2 carry result
    = match key1, key2, 0 <? carry with
      | [], [], false => Ok result
      | _, _, _ =>
          let val := carry + match key1 with c :: _ => key_digit c | [] => 0 end
                     + match key2 with c :: _ => key_digit c | [] => 0 end in
          if (length result <? MAX_KEY_SIZE + 2)%nat then
            add_keys_loop fuel (tail key1) (tail key2) (Z.quot val 36)
              (char_of (if Z.rem val 36 <=? 9 then Z.rem val 36 + 48 else Z.rem val 36 - 10 + 97) :: result)
          else Undefined
      end) as ->.
  { destruct key1, key2, carry; cbn [add_keys_loop]; by rewrite ?Z.add_0_r. }
  cbv zeta. set (val := carry + _ + _).
  assert (0 <= val < 72) as Hval.
  { unfold val. destruct key1 as [|c key1], key2 as [|d key2];
      try (apply Forall_cons in H1 as [Hc%key_digit_range _]);
      try (apply Forall_cons in H2 as [Hd%key_digit_range _]); lia. }
  rewrite (proj2 (Nat.ltb_lt _ _)) by lia. rewrite Z.quot_div_nonneg, Z.rem_mod_nonneg by lia.
  destruct (digit_char (val mod 36)) as [Hchar Hdigit]; [by apply Z.mod_pos_bound|].
  set (c := char_of _) in *.
  assert (0 <= val / 36 <= 1) as Hcarry' by (Z.div_mod_to_equations; lia).
  destruct (decide (key1 = [] ∧ key2 = [] ∧ carry = 0)) as [(-> & -> & ->)|Hmore].
  { exists []. split; [done|]. split; [done|]. split; [done|]. by left. }
  assert (reversed_value key1 + reversed_value key2 + carry
    = val + 36 * (reversed_value (tail key1) + reversed_value (tail key2))) as Hvalue.
  { unfold val. destruct key1, key2; cbn [reversed_value tail]; lia. }
  destruct (decide (key1 = [] ∧ key2 = [])) as [[-> ->]|Hkeys].
  { (* the last carry *)
    assert (carry ≠ 0) as Hne by (intros ->; tauto). assert (carry = 1) as -> by lia.
    exists ["1"%byte]. split; [|split; [by constructor|split; [done|right; split; [done|vm_compute; congruence]]]].
    change (val / 36) with 0. change c with "1"%byte. cbn [tail Z.ltb Z.compare]. by destruct fuel. }
  destruct (IH (tail key1) (tail key2) (val / 36) (c :: result)) as (out & Hloop & Hout & Hv & Hl).
  - by destruct key1; [|apply Forall_cons in H1 as [_ H1]].
  - by destruct key2; [|apply Forall_cons in H2 as [_ H2]].
  - done.
  - destruct key1, key2; simpl in *; lia || tauto.
  - cbn [length]. destruct key1, key2; simpl in *; lia || tauto.
  - exists (out ++ [c]). rewrite <- app_assoc. split.
    { destruct key1, key2; [tauto|exact Hloop..]. }
    split; [apply Forall_app; by repeat constructor|].
    rewrite key_value_snoc, Hdigit, Hv, length_app. cbn [length].
    split; [Z.div_mod_to_equations; lia|].
    assert (n = S (Nat.max (length (tail key1)) (length (tail key2)))) as ->
      by (unfold n; destruct key1, key2; simpl in *; lia || tauto).
    rewrite Nat2Z.inj_succ, Z.pow_succ_r by lia.
    destruct Hl as [Hl|[Hl Hbig]]; [left; lia|right]. split; [lia|]. rewrite <- Hv.
    pose proof (Z.mod_pos_bound val 36). lia.
Qed.

Lemma add_keys_ok key1 key2 :
  Forall (λ c, valid_char c = true) key1 → Forall (λ c, valid_char c = true) key2 →
  (length key1 <= MAX_KEY_SIZE)%nat → (length key2 <= MAX_KEY_SIZE)%nat →
  ∃ key, svn_fs_fs__add_keys key1 key2 = Ok key
    ∧ key_value key = key_value key1 + key_value key2
    ∧ (is_key key1 → is_key key2 → is_key key).
Proof.
  intros H1 H2 Hl1 Hl2. unfold svn_fs_fs__add_keys.
  destruct (add_loop_ok (S (length key1 + length key2)) (reverse key1) (reverse key2) 0 [])
    as (out & -> & Hout & Hv & Hl).
  { by rewrite reverse_Permutation. }
  { by rewrite reverse_Permutation. }
  { lia. }
  { rewrite !length_reverse. lia. }
  { rewrite !length_reverse. unfold MAX_KEY_SIZE in *. simpl. lia. }
  rewrite !length_reverse in Hl. rewrite <- !key_value_reverse, !reverse_involutive in Hv.
  rewrite app_nil_r. exists out. split; [done|]. split; [lia|]. intros Hk1 Hk2.
  pose proof (key_value_bound key1 H1). pose proof (key_value_bound key2 H2).
  destruct (Nat.le_gt_cases (length out) 1) as [Hshort|Hlong]; [by split; [|left]|].
  apply no_leading_zero; [done|]. destruct Hl as [Hl|[Hl Hbig]].
  - assert (∀ key, is_key key → length key = length out →
      36 ^ (Z.of_nat (length out) - 1) <= key_value key) as Hlow.
    { intros key [Hkey [Hs|Hne]] Heq; [lia|]. rewrite <- Heq. apply key_value_low; [done| |done].
      intros ->. simpl in Heq. lia. }
    destruct (Nat.max_spec (length key1) (length key2)) as [[_ Hmax]|[_ Hmax]]; rewrite Hmax in Hl.
    + specialize (Hlow key2 Hk2 (eq_sym Hl)). lia.
    + specialize (Hlow key1 Hk1 (eq_sym Hl)). lia.
  - rewrite Hl. by replace (Z.of_nat (S (Nat.max (length key1) (length key2))) - 1)
      with (Z.of_nat (Nat.max (length key1) (length key2))) by lia.
Qed.

(** ** The properties *)

(** C39: svn_fs_fs__next_key of a valid key is the key whose base-36 value
    is one more, which compares as later, as long as it is shorter than the
    buffer of MAX_KEY_SIZE bytes, and the assertion stops the code at the
    first key that is not; every other string has no next key. *)
Theorem svn_fs_fs__next_key_spec (this : list byte) :
  (is_key this →
   if key_value this + 1 <? 36 ^ (Z.of_nat MAX_KEY_SIZE - 1) then
     ∃ next, svn_fs_fs__next_key this = Ok (Some next) ∧ is_key next
       ∧ key_value next = key_value this + 1 ∧ (length next < MAX_KEY_SIZE)%nat
       ∧ (this ≠ [] → svn_fs_fs__key_compare this next = -1)
   else svn_fs_fs__next_key this = Aborted)
  ∧ (¬ is_key this → svn_fs_fs__next_key this = Ok None).
Proof.
  split; [|apply next_key_invalid]. intros Hkey. pose proof (next_key_ok this Hkey) as Hnext.
  change (Z.of_nat MAX_KEY_SIZE - 1) with 199. destruct (_ <? _); [|done].
  destruct Hnext as (next & Heq & Hn & Hv & Hl). exists next. do 4 (split; [done|]). intros Hne.
  unfold svn_fs_fs__key_compare. destruct Hkey as [Hvalid Hhead]. pose proof (key_value_bound this Hvalid).
  rewrite key_compare_ok; [|done|done|done|].
  - by replace (key_value this - key_value next) with (-1) by lia.
  - intros ->. change (key_value []) with 0 in Hv. lia.
Qed.

Lemma svn_fs_fs__next_key_spec_witness :
  is_key (String.list_byte_of_string "1zz")
  ∧ ∃ next, svn_fs_fs__next_key (String.list_byte_of_string "1zz") = Ok (Some next)
      ∧ key_value next = 36 * 36 * 2.
Proof.
  split; [split; [repeat constructor|right; done]|].
  destruct (proj1 (svn_fs_fs__next_key_spec (String.list_byte_of_string "1zz"))) as (next & H & _ & Hv & _).
  - split; [repeat constructor|right; done].
  - exists next. split; [exact H|]. rewrite Hv. reflexivity.
Defined.

(** ** Node-revision ids *)

Record svn_fs_id_t := { node_id : list byte; copy_id : list byte; txn_id : list byte }.

#[global] Instance svn_fs_id_eq_dec : EqDecision svn_fs_id_t.
Proof. solve_decision. Defined.

Definition svn_fs_base__id_node_id (id : svn_fs_id_t) : list byte := node_id id.
Definition svn_fs_base__id_copy_id (id : svn_fs_id_t) : list byte := copy_id id.
Definition svn_fs_base__id_txn_id (id : svn_fs_id_t) : list byte := txn_id id.

Definition svn_fs_base__id_unparse (id : svn_fs_id_t) : list byte :=
  node_id id ++ "."%byte :: copy_id id ++ "."%byte :: txn_id id.

Definition svn_fs_base__id_eq (a b : svn_fs_id_t) : bool :=
  if negb (strcmp (node_id a) (node_id b) =? 0) then false
  else if negb (strcmp (copy_id a) (copy_id b) =? 0) then false
  else if negb (strcmp (txn_id a) (txn_id b) =? 0) then false
  else true.

Definition svn_fs_base__id_check_related (a b : svn_fs_id_t) : bool :=
  strcmp (node_id a) (node_id b) =? 0.

Definition svn_fs_base__id_compare (a b : svn_fs_id_t) : Z :=
  if svn_fs_base__id_eq a b then 0
  else if svn_fs_base__id_check_related a b then 1 else -1.

Definition svn_fs_base__id_create (node_id copy_id txn_id : list byte) : svn_fs_id_t :=
  Build_svn_fs_id_t node_id copy_id txn_id.

Definition svn_fs_base__id_copy (id : svn_fs_id_t) : svn_fs_id_t :=
  Build_svn_fs_id_t (node_id id) (copy_id id) (txn_id id).

(** [None] is a null id. *)
Definition svn_fs_base__id_parse (data : list byte) : option svn_fs_id_t :=
  let data_copy := cstring data in
  let '(str, data_copy) := svn_cstring_tokenize "."%byte data_copy in
  match str with
  | None => None
  | Some node_id =>
      let '(str, data_copy) := svn_cstring_tokenize "."%byte data_copy in
      match str with
      | None => None
      | Some copy_id =>
          let '(str, data_copy) := svn_cstring_tokenize "."%byte data_copy in
          match str with
          | None => None
          | Some txn_id => Some (Build_svn_fs_id_t node_id copy_id txn_id)
          end
      end
  end.

(** ** Well-formed ids *)

Definition id_part (part : list byte) : Prop := part ≠ [] ∧ ("."%byte ∉ part) ∧ NUL ∉ part.

Definition id_ok (id : svn_fs_id_t) : Prop :=
  id_part (node_id id) ∧ id_part (copy_id id) ∧ id_part (txn_id id).

#[global] Instance id_part_dec part : Decision (id_part part).
Proof. unfold id_part. solve_decision. Defined.
#[global] Instance id_ok_dec id : Decision (id_ok id).
Proof. unfold id_ok. solve_decision. Defined.

Lemma id_unparse_no_nul id : id_ok id → NUL ∉ svn_fs_base__id_unparse id.
Proof.
  intros [(_ & _ & Hn) [(_ & _ & Hc) (_ & _ & Ht)]]. unfold svn_fs_base__id_unparse.
  rewrite !elem_of_app, elem_of_cons, elem_of_app, elem_of_cons. naive_solver.
Qed.

Lemma id_parse_unparse id : id_ok id → svn_fs_base__id_parse (svn_fs_base__id_unparse id) = Some id.
Proof.
  intros Hid. unfold svn_fs_base__id_parse. rewrite cstring_no_nul by by apply id_unparse_no_nul.
  destruct Hid as [(Hn & Hnd & _) [(Hc & Hcd & _) (Ht & Htd & _)]]. unfold svn_fs_base__id_unparse.
  rewrite svn_cstring_tokenize_app, svn_cstring_tokenize_app, svn_cstring_tokenize_last by done.
  by destruct id.
Qed.

(** Every token is a part of an id. *)
Lemma tokenize_part str token rest :
  NUL ∉ str → svn_cstring_tokenize "."%byte str = (Some token, rest) → id_part token ∧ NUL ∉ rest.
Proof.
  intros Hnul. unfold svn_cstring_tokenize.
  assert (∀ p s, NUL ∉ s → NUL ∉ skip_while p s) as Hskip.
  { intros p s. induction s as [|c s IH]; cbn [skip_while]; [done|]. intros Hs. case_match; [|done].
    apply IH. by apply not_elem_of_cons in Hs as [_ ?]. }
  assert (∀ p s c s', skip_while p s = c :: s' → p c = false) as Hhead.
  { intros p s. induction s as [|d s IH]; cbn [skip_while]; [done|]. intros c s'. case_match eqn:Hp; [apply IH|].
    by intros [= <- _]. }
  destruct (skip_while _ str) as [|c s] eqn:Hs; [done|]. pose proof (Hhead _ _ _ _ Hs) as Hc.
  specialize (Hskip (λ c, c =b? "."%byte) str Hnul). rewrite Hs in Hskip.
  assert (∀ s before after, strchr s "."%byte = Some (before, after) → s = before ++ "."%byte :: after
    ∧ "."%byte ∉ before) as Hsome.
  { clear. induction s as [|d s IH]; cbn [strchr]; [done|]. intros before after.
    destruct (byte_eqb_spec d "."%byte) as [->|Hd]; [intros [= <- <-]; split; [done|apply not_elem_of_nil]|].
    destruct (strchr s "."%byte) as [[b a]|]; [|done]. intros [= <- <-]. destruct (IH b a eq_refl) as [-> ?].
    split; [done|]. by apply not_elem_of_cons. }
  assert (∀ s, strchr s "."%byte = None → "."%byte ∉ s) as Hnone.
  { clear. induction s as [|d s IH]; cbn [strchr]; [intros; apply not_elem_of_nil|].
    destruct (byte_eqb_spec d "."%byte) as [|Hd]; [done|]. destruct (strchr s "."%byte) as [[b a]|]; [done|].
    intros _. apply not_elem_of_cons. auto. }
  destruct (strchr (c :: s) "."%byte) as [[before after]|] eqn:Hchr; intros [= <- <-].
  - apply Hsome in Hchr as [Heq Hb]. rewrite Heq in Hskip.
    apply not_elem_of_app in Hskip as [Hk1 [_ Hk2]%not_elem_of_cons]. split; [|done].
    split; [|done]. intros ->. injection Heq as -> _. cbn in Hc. done.
  - split; [|apply not_elem_of_nil]. split; [done|]. split; [by apply Hnone|done].
Qed.

Lemma id_parse_ok data id : svn_fs_base__id_parse data = Some id → id_ok id.
Proof.
  unfold svn_fs_base__id_parse.
  destruct (svn_cstring_tokenize _ (cstring data)) as [[n|] s1] eqn:H1; [|done].
  apply tokenize_part in H1 as [Hn H1]; [|apply cstring_idem].
  destruct (svn_cstring_tokenize _ s1) as [[c|] s2] eqn:H2; [|done]. apply tokenize_part in H2 as [Hc H2]; [|done].
  destruct (svn_cstring_tokenize _ s2) as [[t|] s3] eqn:H3; [|done]. apply tokenize_part in H3 as [Ht _]; [|done].
  by intros [= <-].
Qed.

Lemma id_eq_ok a b : id_ok a → id_ok b → svn_fs_base__id_eq a b = bool_decide (a = b).
Proof.
  intros [(_ & _ & Hna) [(_ & _ & Hca) (_ & _ & Hta)]] [(_ & _ & Hnb) [(_ & _ & Hcb) (_ & _ & Htb)]].
  unfold svn_fs_base__id_eq. rewrite !strcmp_zero by done.
  destruct a as [n c t], b as [n' c' t']; cbn [node_id copy_id txn_id].
  repeat case_bool_decide; simplify_eq/=; done.
Qed.

(** ** The properties *)

(** The identifiers of node revisions: parsing the text of an id gives the
    id back, distinct ids have distinct texts, the comparisons decide
    equality and relatedness, and whatever svn_fs_base__id_parse accepts is
    an id of three parts. *)
Theorem svn_fs_base__id_spec (a b : svn_fs_id_t) (data : list byte) :
  id_ok a → id_ok b →
  svn_fs_base__id_parse (svn_fs_base__id_unparse a) = Some a
  ∧ (svn_fs_base__id_unparse a = svn_fs_base__id_unparse b ↔ a = b)
  ∧ svn_fs_base__id_eq a b = bool_decide (a = b)
  ∧ svn_fs_base__id_compare a b
    = (if decide (a = b) then 0 else if decide (node_id a = node_id b) then 1 else -1)
  ∧ match svn_fs_base__id_parse data with
    | None => True
    | Some id => id_ok id
    end.
Proof.
  intros Ha Hb. split; [by apply id_parse_unparse|]. split.
  { split; [|by intros ->]. intros Heq. apply (f_equal svn_fs_base__id_parse) in Heq.
    rewrite !id_parse_unparse in Heq by done. by injection Heq. }
  split; [by apply id_eq_ok|]. split.
  - unfold svn_fs_base__id_compare, svn_fs_base__id_check_related. rewrite id_eq_ok by done.
    rewrite strcmp_zero by (apply Ha || apply Hb). repeat case_decide; simplify_eq/=; repeat case_bool_decide; done.
  - destruct (svn_fs_base__id_parse data) eqn:Hd; [|done]. by apply id_parse_ok in Hd.
Qed.

Lemma svn_fs_base__id_spec_witness :
  let bytes := String.list_byte_of_string in
  let a := Build_svn_fs_id_t (bytes "0") (bytes "0") (bytes "1") in
  let b := Build_svn_fs_id_t (bytes "0") (bytes "0") (bytes "2a") in
  id_ok a ∧ id_ok b ∧ svn_fs_base__id_parse (svn_fs_base__id_unparse a) = Some a.
Proof.
  intros bytes a b.
  assert (id_ok a) as Ha by (apply (bool_decide_unpack _); vm_compute; reflexivity).
  assert (id_ok b) as Hb by (apply (bool_decide_unpack _); vm_compute; reflexivity).
  split; [exact Ha|]. split; [exact Hb|]. exact (proj1 (svn_fs_base__id_spec a b [] Ha Hb)).
Defined.
