(* ===== verification/Checksum.v ===== *)
(** * Checksums

    [src/subversion/libsvn_subr/checksum.c], [md5.c] and [sha1.c]: digests, their
    text and their comparison.  The digest functions themselves are APR's. *)
From S2P Require Import Prelude Numbers Cstrings.

(** The two values of the enum; any other value of its integer type is
    [other_checksum]. *)
Inductive svn_checksum_kind_t := svn_checksum_md5 | svn_checksum_sha1 | other_checksum (value : Z).

#[global] Instance svn_checksum_kind_eq_dec : EqDecision svn_checksum_kind_t.
Proof. solve_decision. Defined.

Record svn_checksum_t := { digest : list byte; kind : svn_checksum_kind_t }.

#[global] Instance svn_checksum_eq_dec : EqDecision svn_checksum_t.
Proof. solve_decision. Defined.

Definition APR_MD5_DIGESTSIZE : nat := 16.
Definition APR_SHA1_DIGESTSIZE : nat := 20.

Definition DIGESTSIZE (k : svn_checksum_kind_t) : nat :=
  match k with
  | svn_checksum_md5 => APR_MD5_DIGESTSIZE
  | svn_checksum_sha1 => APR_SHA1_DIGESTSIZE
  | other_checksum _ => 0
  end.

(** APR's incremental digests. *)
Class AprDigests := {
  apr_ctx_t : Type;
  apr_md5_init : apr_ctx_t;
  apr_md5_update : apr_ctx_t → list byte → apr_ctx_t;
  apr_md5_final : apr_ctx_t → list byte;
  apr_md5 : list byte → list byte;
  apr_sha1_init : apr_ctx_t;
  apr_sha1_update : apr_ctx_t → list byte → apr_ctx_t;
  apr_sha1_final : apr_ctx_t → list byte;
  apr_md5_length : ∀ k, length (apr_md5_final k) = APR_MD5_DIGESTSIZE;
  apr_sha1_length : ∀ k, length (apr_sha1_final k) = APR_SHA1_DIGESTSIZE;
  apr_md5_whole : ∀ chunks,
    apr_md5_final (fold_left apr_md5_update chunks apr_md5_init) = apr_md5 (concat chunks);
  apr_sha1_whole : ∀ chunks,
    apr_sha1_final (fold_left apr_sha1_update chunks apr_sha1_init)
    = apr_sha1_final (apr_sha1_update apr_sha1_init (concat chunks));
}.

(** ** Digests: md5.c and sha1.c *)

Definition hex : list byte := String.list_byte_of_string "0123456789abcdef".

Definition hex_digit (d : Z) : byte := default NUL (hex !! Z.to_nat d).

(** The loops run over a digest of the size of its kind. *)
Definition digest_to_cstring_display (digest : list byte) : list byte :=
  concat (map (λ c, [hex_digit (Z.shiftr (byte_val c) 4); hex_digit (Z.land (byte_val c) 0x0f)]) digest).

Definition zeros_digest (size : nat) : list byte := replicate size NUL.

(** [None] is the null pointer. *)
Definition digest_to_cstring (digest : list byte) : option (list byte) :=
  if bool_decide (digest = zeros_digest (length digest)) then None
  else Some (digest_to_cstring_display digest).

Definition digests_match (d1 d2 : list byte) : bool :=
  bool_decide (d1 = zeros_digest (length d1)) || bool_decide (d2 = zeros_digest (length d2))
  || bool_decide (d1 = d2).

Definition svn_md5__empty_string_digest : list byte :=
  map byte_of [0xd4; 0x1d; 0x8c; 0xd9; 0x8f; 0x00; 0xb2; 0x04;
               0xe9; 0x80; 0x09; 0x98; 0xec; 0xf8; 0x42; 0x7e].
Definition svn_sha1__empty_string_digest : list byte :=
  map byte_of [0xda; 0x39; 0xa3; 0xee; 0x5e; 0x6b; 0x4b; 0x0d; 0x32; 0x55;
               0xbf; 0xef; 0x95; 0x60; 0x18; 0x90; 0xaf; 0xd8; 0x07; 0x09].

Definition svn_md5__digest_to_cstring_display := digest_to_cstring_display.
Definition svn_sha1__digest_to_cstring_display := digest_to_cstring_display.
Definition svn_md5__digest_to_cstring := digest_to_cstring.
Definition svn_sha1__digest_to_cstring := digest_to_cstring.
Definition svn_md5__digests_match := digests_match.
Definition svn_sha1__digests_match := digests_match.

(** ** Checksums: checksum.c *)

Definition validate_kind (kind : svn_checksum_kind_t) : result unit :=
  match kind with
  | svn_checksum_md5 | svn_checksum_sha1 => Ok tt
  | other_checksum _ => Error SVN_ERR_BAD_CHECKSUM_KIND
  end.

(** [memcpy] of [digest_size] bytes. *)
Definition checksum_create (kind : svn_checksum_kind_t) (digest_size : nat) (digest : list byte)
    : result svn_checksum_t :=
  if (digest_size <=? length digest)%nat then
    Ok {| digest := take digest_size digest; kind := kind |}
  else Undefined.

(** [None] is the null pointer. *)
Definition svn_checksum_create (kind : svn_checksum_kind_t) : option svn_checksum_t :=
  match kind with
  | svn_checksum_md5 => Some {| digest := zeros_digest APR_MD5_DIGESTSIZE; kind := kind |}
  | svn_checksum_sha1 => Some {| digest := zeros_digest APR_SHA1_DIGESTSIZE; kind := kind |}
  | other_checksum _ => None
  end.

Definition svn_checksum__from_digest_md5 (digest : list byte) : result svn_checksum_t :=
  checksum_create svn_checksum_md5 APR_MD5_DIGESTSIZE digest.

Definition svn_checksum__from_digest_sha1 (digest : list byte) : result svn_checksum_t :=
  checksum_create svn_checksum_sha1 APR_SHA1_DIGESTSIZE digest.

Definition svn_checksum_clear (checksum : svn_checksum_t) : result svn_checksum_t :=
  let! _ := validate_kind (kind checksum) in
  Ok {| digest := zeros_digest (DIGESTSIZE (kind checksum)); kind := kind checksum |}.

Definition svn_checksum_match (checksum1 checksum2 : option svn_checksum_t) : bool :=
  match checksum1, checksum2 with
  | Some checksum1, Some checksum2 =>
      if negb (bool_decide (kind checksum1 = kind checksum2)) then false
      else
        match kind checksum1 with
        | svn_checksum_md5 => svn_md5__digests_match (digest checksum1) (digest checksum2)
        | svn_checksum_sha1 => svn_sha1__digests_match (digest checksum1) (digest checksum2)
        | other_checksum _ => false
        end
  | _, _ => true
  end.

Definition svn_checksum_to_cstring_display (checksum : svn_checksum_t) : option (list byte) :=
  match kind checksum with
  | svn_checksum_md5 => Some (svn_md5__digest_to_cstring_display (digest checksum))
  | svn_checksum_sha1 => Some (svn_sha1__digest_to_cstring_display (digest checksum))
  | other_checksum _ => None
  end.

Definition svn_checksum_to_cstring (checksum : option svn_checksum_t) : option (list byte) :=
  match checksum with
  | None => None
  | Some checksum =>
      match kind checksum with
      | svn_checksum_md5 => svn_md5__digest_to_cstring (digest checksum)
      | svn_checksum_sha1 => svn_sha1__digest_to_cstring (digest checksum)
      | other_checksum _ => None
      end
  end.

(** [apr_pstrcat] stops at a null argument. *)
Definition svn_checksum_serialize (checksum : svn_checksum_t) : result (list byte) :=
  assert! bool_decide (kind checksum = svn_checksum_md5) || bool_decide (kind checksum = svn_checksum_sha1) in
  let ckind_str :=
    String.list_byte_of_string
      (if bool_decide (kind checksum = svn_checksum_md5) then "$md5 $" else "$sha1$") in
  Ok (ckind_str ++ default [] (svn_checksum_to_cstring (Some checksum))).

(** The table [xdigitval]. *)
Definition xdigitval (c : byte) : Z :=
  let v := byte_val c in
  if (48 <=? v) && (v <=? 57) then v - 48
  else if (65 <=? v) && (v <=? 70) then v - 65 + 10
  else if (97 <=? v) && (v <=? 102) then v - 97 + 10
  else -1.

(** [hex[i]] of a C string: its terminator can be read, what follows it cannot. *)
Definition char_at (s : list byte) (i : nat) : result byte :=
  match s !! i with
  | Some c => Ok c
  | None => if (i =? length s)%nat then Ok NUL else Undefined
  end.

(** [len] more bytes from [hex + i * 2] on; [digest] is what is written. *)
Fixpoint parse_hex_loop (len i : nat) (hex digest : list byte) (is_nonzero : bool)
    : result (list byte * bool) :=
  match len with
  | O => Ok (digest, is_nonzero)
  | S len =>
      let! c1 := char_at hex (i * 2) in
      let! c2 := char_at hex (i * 2 + 1) in
      let x1 := xdigitval c1 in
      let x2 := xdigitval c2 in
      if (x1 =? -1) || (x2 =? -1) then Error SVN_ERR_BAD_CHECKSUM_PARSE
      else
        let v := Z.lor (Z.shiftl x1 4) x2 in
        parse_hex_loop len (S i) hex (digest ++ [byte_of v]) (is_nonzero || negb (v =? 0))
  end.

Definition svn_checksum_parse_hex (kind : svn_checksum_kind_t) (hex : option (list byte))
    : result (option svn_checksum_t) :=
  match hex with
  | None => Ok None
  | Some hex =>
      let! _ := validate_kind kind in
      let! (digest, is_nonzero) := parse_hex_loop (DIGESTSIZE kind) 0 hex [] false in
      Ok (if is_nonzero then Some {| digest := digest; kind := kind |} else None)
  end.

Definition svn_checksum_deserialize (data : list byte) : result (option svn_checksum_t) :=
  assert! (6 <? length data)%nat in
  let ckind :=
    if default NUL (data !! 1%nat) =b? "m"%byte then svn_checksum_md5 else svn_checksum_sha1 in
  svn_checksum_parse_hex ckind (Some (drop 6 data)).

Definition svn_checksum_dup (checksum : option svn_checksum_t) : result (option svn_checksum_t) :=
  match checksum with
  | None => Ok None
  | Some checksum =>
      match kind checksum with
      | svn_checksum_md5 => let! dup := svn_checksum__from_digest_md5 (digest checksum) in Ok (Some dup)
      | svn_checksum_sha1 => let! dup := svn_checksum__from_digest_sha1 (digest checksum) in Ok (Some dup)
      | other_checksum _ => Aborted
      end
  end.

Definition svn_checksum_size (checksum : svn_checksum_t) : nat := DIGESTSIZE (kind checksum).

Definition svn_checksum_empty_checksum (kind : svn_checksum_kind_t) : result svn_checksum_t :=
  match kind with
  | svn_checksum_md5 => svn_checksum__from_digest_md5 svn_md5__empty_string_digest
  | svn_checksum_sha1 => svn_checksum__from_digest_sha1 svn_sha1__empty_string_digest
  | other_checksum _ => Aborted
  end.

Definition svn_checksum_is_empty_checksum (checksum : option svn_checksum_t) : result bool :=
  match checksum with
  | None => Ok true
  | Some checksum =>
      match kind checksum with
      | svn_checksum_md5 => Ok (svn_md5__digests_match (digest checksum) svn_md5__empty_string_digest)
      | svn_checksum_sha1 => Ok (svn_sha1__digests_match (digest checksum) svn_sha1__empty_string_digest)
      | other_checksum _ => Aborted
      end
  end.

Section Digests.
Context `{AprDigests}.

(** [apr_sha1_update] gets the length as an [unsigned int]. *)
Definition sha1_data (data : list byte) : list byte := take (Z.to_nat (u32 (Z.of_nat (length data)))) data.

Definition svn_checksum (kind : svn_checksum_kind_t) (data : list byte) : result svn_checksum_t :=
  let! _ := validate_kind kind in
  match kind with
  | svn_checksum_md5 => Ok {| digest := apr_md5 data; kind := kind |}
  | svn_checksum_sha1 =>
      Ok {| digest := apr_sha1_final (apr_sha1_update apr_sha1_init (sha1_data data)); kind := kind |}
  | other_checksum _ => Error SVN_ERR_BAD_CHECKSUM_KIND
  end.

Record svn_checksum_ctx_t := { apr_ctx : apr_ctx_t; ctx_kind : svn_checksum_kind_t }.

Definition svn_checksum_ctx_create (kind : svn_checksum_kind_t) : result svn_checksum_ctx_t :=
  match kind with
  | svn_checksum_md5 => Ok {| apr_ctx := apr_md5_init; ctx_kind := kind |}
  | svn_checksum_sha1 => Ok {| apr_ctx := apr_sha1_init; ctx_kind := kind |}
  | other_checksum _ => Aborted
  end.

Definition svn_checksum_update (ctx : svn_checksum_ctx_t) (data : list byte) : result svn_checksum_ctx_t :=
  match ctx_kind ctx with
  | svn_checksum_md5 =>
      Ok {| apr_ctx := apr_md5_update (apr_ctx ctx) data; ctx_kind := ctx_kind ctx |}
  | svn_checksum_sha1 =>
      Ok {| apr_ctx := apr_sha1_update (apr_ctx ctx) (sha1_data data); ctx_kind := ctx_kind ctx |}
  | other_checksum _ => Error SVN_ERR_BAD_CHECKSUM_KIND
  end.

Definition svn_checksum_final (ctx : svn_checksum_ctx_t) : result svn_checksum_t :=
  match ctx_kind ctx with
  | svn_checksum_md5 => Ok {| digest := apr_md5_final (apr_ctx ctx); kind := ctx_kind ctx |}
  | svn_checksum_sha1 => Ok {| digest := apr_sha1_final (apr_ctx ctx); kind := ctx_kind ctx |}
  | other_checksum _ => Error SVN_ERR_BAD_CHECKSUM_KIND
  end.
End Digests.

(** ** The text of a digest *)

Definition checksum_ok (checksum : svn_checksum_t) : Prop :=
  (kind checksum = svn_checksum_md5 ∨ kind checksum = svn_checksum_sha1)
  ∧ length (digest checksum) = DIGESTSIZE (kind checksum).

(** A digest of zeros stands for an unknown checksum. *)
Definition is_zero (checksum : svn_checksum_t) : Prop :=
  digest checksum = zeros_digest (length (digest checksum)).

Lemma hex_digits c :
  xdigitval (hex_digit (Z.shiftr (byte_val c) 4)) = Z.shiftr (byte_val c) 4
  ∧ xdigitval (hex_digit (Z.land (byte_val c) 0x0f)) = Z.land (byte_val c) 0x0f
  ∧ 0 <= Z.shiftr (byte_val c) 4 ∧ 0 <= Z.land (byte_val c) 0x0f
  ∧ Z.lor (Z.shiftl (Z.shiftr (byte_val c) 4) 4) (Z.land (byte_val c) 0x0f) = byte_val c.
Proof. by destruct c. Qed.

Lemma hex_digit_facts c :
  hex_digit (Z.shiftr (byte_val c) 4) ≠ NUL ∧ hex_digit (Z.land (byte_val c) 0x0f) ≠ NUL.
Proof. by destruct c. Qed.

Lemma byte_val_zero c : (byte_val c =? 0) = bool_decide (c = NUL).
Proof. by destruct c. Qed.

Lemma display_length digest : length (digest_to_cstring_display digest) = (2 * length digest)%nat.
Proof.
  unfold digest_to_cstring_display. induction digest as [|c digest IH]; [done|].
  cbn [map concat length app]. rewrite IH. lia.
Qed.

Lemma display_app a b :
  digest_to_cstring_display (a ++ b) = digest_to_cstring_display a ++ digest_to_cstring_display b.
Proof. unfold digest_to_cstring_display. by rewrite map_app, concat_app. Qed.

(** The loop reads the digits of the rest of the digest. *)
Lemma parse_hex_loop_ok rest done_ tail is_nonzero :
  parse_hex_loop (length rest) (length done_) (digest_to_cstring_display (done_ ++ rest) ++ tail) done_ is_nonzero
  = Ok (done_ ++ rest, is_nonzero || negb (bool_decide (rest = zeros_digest (length rest)))).
Proof.
  revert done_ is_nonzero; induction rest as [|c rest IH]; intros d nz.
  { cbn [length parse_hex_loop]. by rewrite app_nil_r, orb_false_r. }
  set (text := _ ++ tail).
  assert (text = digest_to_cstring_display d
    ++ hex_digit (Z.shiftr (byte_val c) 4) :: hex_digit (Z.land (byte_val c) 0x0f)
    :: digest_to_cstring_display rest ++ tail) as Htext.
  { unfold text. rewrite display_app, <- app_assoc. done. }
  assert (text = digest_to_cstring_display ((d ++ [c]) ++ rest) ++ tail) as Hnext
    by (unfold text; by rewrite <- app_assoc).
  cbn [length parse_hex_loop].
  assert (char_at text (length d * 2) = Ok (hex_digit (Z.shiftr (byte_val c) 4))) as ->.
  { unfold char_at. rewrite Htext. rewrite lookup_app_r by (rewrite display_length; lia).
    by replace (_ - _)%nat with 0%nat by (rewrite display_length; lia). }
  assert (char_at text (length d * 2 + 1) = Ok (hex_digit (Z.land (byte_val c) 0x0f))) as ->.
  { unfold char_at. rewrite Htext. rewrite lookup_app_r by (rewrite display_length; lia).
    by replace (_ - _)%nat with 1%nat by (rewrite display_length; lia). }
  cbn [rbind]. destruct (hex_digits c) as (-> & -> & H1 & H2 & ->).
  rewrite (proj2 (Z.eqb_neq _ (-1))), (proj2 (Z.eqb_neq _ (-1))) by lia. cbn [orb].
  rewrite byte_of_val, Hnext. replace (S (length d)) with (length (d ++ [c])) by (rewrite length_app; simpl; lia).
  rewrite IH, <- app_assoc. do 2 f_equal. rewrite byte_val_zero. cbn [length zeros_digest replicate].
  rewrite <- orb_assoc. f_equal. destruct (decide (c = NUL)) as [->|Hc].
  - rewrite bool_decide_eq_true_2 by done. cbn [negb orb]. f_equal. apply bool_decide_ext.
    split; [intros Heq; by rewrite Heq at 1|]. by intros [= ?].
  - rewrite !(bool_decide_eq_false_2 (_ = NUL)), (bool_decide_eq_false_2 (_ :: _ = _)); [done| |done].
    by intros [= ? _].
Qed.

Lemma parse_hex_display checksum tail :
  checksum_ok checksum →
  svn_checksum_parse_hex (kind checksum) (Some (digest_to_cstring_display (digest checksum) ++ tail))
  = Ok (if bool_decide (is_zero checksum) then None else Some checksum).
Proof.
  intros [Hkind Hlen]. unfold svn_checksum_parse_hex.
  assert (validate_kind (kind checksum) = Ok tt) as -> by (by destruct Hkind as [-> | ->]). cbn [rbind].
  rewrite <- Hlen. pose proof (parse_hex_loop_ok (digest checksum) [] tail false) as Hloop.
  cbn [length app] in Hloop. rewrite Hloop. cbn [rbind orb]. unfold is_zero.
  case_bool_decide; [done|]. by destruct checksum.
Qed.

#[global] Instance is_zero_dec checksum : Decision (is_zero checksum).
Proof. unfold is_zero. apply _. Defined.

Lemma serialize_ok checksum :
  checksum_ok checksum → ¬ is_zero checksum →
  svn_checksum_serialize checksum
  = Ok (String.list_byte_of_string (if bool_decide (kind checksum = svn_checksum_md5) then "$md5 $" else "$sha1$")
        ++ digest_to_cstring_display (digest checksum)).
Proof.
  intros [Hkind _] Hz. unfold svn_checksum_serialize, svn_checksum_to_cstring.
  assert (digest_to_cstring (digest checksum) = Some (digest_to_cstring_display (digest checksum))) as Hs
    by (unfold digest_to_cstring; by rewrite bool_decide_eq_false_2).
  destruct Hkind as [Hk|Hk]; rewrite Hk; cbn -[digest_to_cstring];
    [unfold svn_md5__digest_to_cstring|unfold svn_sha1__digest_to_cstring]; by rewrite Hs.
Qed.

Lemma deserialize_ok checksum :
  checksum_ok checksum → ¬ is_zero checksum →
  (let! data := svn_checksum_serialize checksum in svn_checksum_deserialize data) = Ok (Some checksum).
Proof.
  intros Hok Hz. rewrite serialize_ok by done. cbn [rbind]. unfold svn_checksum_deserialize.
  pose proof (parse_hex_display checksum [] Hok) as Hp. rewrite bool_decide_eq_false_2, app_nil_r in Hp by done.
  pose proof (display_length (digest checksum)) as Hl. destruct Hok as [Hkind Hlen].
  rewrite length_app, Hl, Hlen. destruct Hkind as [Hk|Hk]; rewrite Hk in *; cbn in *; exact Hp.
Qed.

(** ** Digests in pieces *)

Section Pieces.
Context `{AprDigests}.

Lemma sha1_data_small data : Z.of_nat (length data) < 0x100000000 → sha1_data data = data.
Proof. intros Hl. unfold sha1_data. rewrite u32_small by lia. by rewrite Nat2Z.id, firstn_all. Qed.

Fixpoint update_all (ctx : svn_checksum_ctx_t) (chunks : list (list byte)) : result svn_checksum_ctx_t :=
  match chunks with
  | [] => Ok ctx
  | chunk :: chunks => let! ctx := svn_checksum_update ctx chunk in update_all ctx chunks
  end.

Lemma update_all_ok kind k chunks :
  (kind = svn_checksum_md5 ∨ kind = svn_checksum_sha1) →
  Forall (λ chunk, Z.of_nat (length chunk) < 0x100000000) chunks →
  update_all {| apr_ctx := k; ctx_kind := kind |} chunks
  = Ok {| apr_ctx := fold_left (if bool_decide (kind = svn_checksum_md5) then apr_md5_update else apr_sha1_update) chunks k;
          ctx_kind := kind |}.
Proof.
  intros Hkind Hchunks. revert k; induction Hchunks as [|chunk chunks Hc _ IH]; intros k; [done|].
  cbn [update_all fold_left]. destruct Hkind as [-> | ->]; cbn [svn_checksum_update ctx_kind apr_ctx rbind];
    rewrite ?sha1_data_small by done; by rewrite IH.
Qed.

(** The digest of chunks is the digest of the whole. *)
Lemma checksum_pieces kind chunks :
  (kind = svn_checksum_md5 ∨ kind = svn_checksum_sha1) →
  Z.of_nat (length (concat chunks)) < 0x100000000 →
  (let! ctx := svn_checksum_ctx_create kind in
   let! ctx := update_all ctx chunks in
   svn_checksum_final ctx) = svn_checksum kind (concat chunks).
Proof.
  intros Hkind Hl.
  assert (Forall (λ chunk, Z.of_nat (length chunk) < 0x100000000) chunks) as Hchunks.
  { apply Forall_forall. intros chunk Hin. apply list_elem_of_In, in_split in Hin as (l1 & l2 & ->).
    rewrite concat_app in Hl. cbn [concat] in Hl. rewrite !length_app in Hl. lia. }
  destruct Hkind as [-> | ->]; cbn [svn_checksum_ctx_create rbind]; rewrite update_all_ok by auto;
    cbn [rbind svn_checksum_final ctx_kind apr_ctx svn_checksum validate_kind].
  - rewrite bool_decide_eq_true_2 by done. by rewrite apr_md5_whole.
  - rewrite bool_decide_eq_false_2 by done. by rewrite apr_sha1_whole, sha1_data_small.
Qed.
End Pieces.

(** The laws can be met: the sum of the bytes, in every byte of the digest. *)
Definition sum_digest (size : nat) (sum : Z) : list byte := replicate size (byte_of sum).
Definition sum_update (sum : Z) (data : list byte) : Z := fold_left (λ s c, s + byte_val c) data sum.

Lemma sum_whole chunks k : fold_left sum_update chunks k = sum_update k (concat chunks).
Proof.
  revert k; induction chunks as [|c chunks IH]; intros k; [done|]. cbn [fold_left concat].
  rewrite IH. unfold sum_update. by rewrite fold_left_app.
Qed.

Definition sum_digests : AprDigests.
Proof.
  refine {| apr_ctx_t := Z; apr_md5_init := 0; apr_md5_update := sum_update; apr_md5_final := sum_digest 16;
    apr_md5 data := sum_digest 16 (sum_update 0 data);
    apr_sha1_init := 0; apr_sha1_update := sum_update; apr_sha1_final := sum_digest 20 |};
    intros; unfold sum_digest; rewrite ?length_replicate; try done; by rewrite sum_whole.
Defined.

(** ** The properties *)

(** A checksum that is not all zeros survives serializing and deserializing,
    and its display form parses to it; the checksum of a text computed in
    pieces is that of the whole text. *)
Theorem svn_checksum_round_trip `{AprDigests} (checksum : svn_checksum_t) (k : svn_checksum_kind_t)
    (chunks : list (list byte)) :
  checksum_ok checksum → ¬ is_zero checksum →
  (k = svn_checksum_md5 ∨ k = svn_checksum_sha1) → Z.of_nat (length (concat chunks)) < 0x100000000 →
  (let! data := svn_checksum_serialize checksum in svn_checksum_deserialize data) = Ok (Some checksum)
  ∧ svn_checksum_parse_hex (kind checksum) (svn_checksum_to_cstring_display checksum) = Ok (Some checksum)
  ∧ (let! ctx := svn_checksum_ctx_create k in
     let! ctx := update_all ctx chunks in
     svn_checksum_final ctx) = svn_checksum k (concat chunks).
Proof.
  intros Hok Hz Hk Hl. split; [by apply deserialize_ok|]. split; [|by apply checksum_pieces].
  pose proof (parse_hex_display checksum [] Hok) as Hp. rewrite bool_decide_eq_false_2, app_nil_r in Hp by done.
  unfold svn_checksum_to_cstring_display. destruct (proj1 Hok) as [Hkind|Hkind]; rewrite Hkind in *; exact Hp.
Qed.

Lemma svn_checksum_round_trip_witness :
  let c := {| digest := svn_md5__empty_string_digest; kind := svn_checksum_md5 |} in
  (let! data := svn_checksum_serialize c in svn_checksum_deserialize data) = Ok (Some c).
Proof.
  intros c.
  assert (checksum_ok c) as Hc by (split; [left; reflexivity|reflexivity]).
  assert (¬ is_zero c) as Hz by (unfold is_zero; vm_compute; discriminate).
  assert (Z.of_nat (length (concat [String.list_byte_of_string "ab"; String.list_byte_of_string "c"])) < 0x100000000)
    as Hl by (vm_compute; reflexivity).
  exact (proj1 (@svn_checksum_round_trip sum_digests c svn_checksum_sha1 _ Hc Hz (or_intror eq_refl) Hl)).
Defined.

(** The serialised form of an unknown checksum is one that deserialising refuses. *)
Lemma serialize_zero_aborts :
  svn_checksum_serialize {| digest := zeros_digest 16; kind := svn_checksum_md5 |}
  = Ok (String.list_byte_of_string "$md5 $")
  ∧ svn_checksum_deserialize (String.list_byte_of_string "$md5 $") = Aborted.
Proof. by split. Qed.

(** Digits that end at an even place before the size of the digest: the loop reads
    the byte after the terminator. *)
Lemma parse_hex_reads_past_end :
  svn_checksum_parse_hex svn_checksum_md5 (Some (String.list_byte_of_string "d41d")) = Undefined
  ∧ svn_checksum_parse_hex svn_checksum_md5 (Some (String.list_byte_of_string "d41")) = Error SVN_ERR_BAD_CHECKSUM_PARSE.
Proof. by split. Qed.
