(* ===== verification/Time.v ===== *)
(** * Timestamps

    [src/subversion/libsvn_subr/time.c]: the text of a time and its parser, with the
    format that is still read for compatibility. *)
From S2P Require Import Prelude Numbers Cstrings.

(** [apr_time_exp_t] of APR. *)
Record apr_time_exp_t := {
  tm_usec : Z; tm_sec : Z; tm_min : Z; tm_hour : Z; tm_mday : Z; tm_mon : Z; tm_year : Z;
  tm_wday : Z; tm_yday : Z; tm_isdst : Z; tm_gmtoff : Z;
}.

(** The fields that a timestamp does not have are 0. *)
Definition timestamp_fields (t : apr_time_exp_t) : apr_time_exp_t :=
  {| tm_usec := tm_usec t; tm_sec := tm_sec t; tm_min := tm_min t; tm_hour := tm_hour t;
     tm_mday := tm_mday t; tm_mon := tm_mon t; tm_year := tm_year t;
     tm_wday := 0; tm_yday := 0; tm_isdst := 0; tm_gmtoff := 0 |}.

(** The microseconds since 1970 of the times before the year 10000. *)
Definition time_ok (when : Z) : Prop := 0 <= when < 253402300800000000.

(** APR's calendar, in GMT, and its names of days and months. *)
Class AprTime := {
  apr_time_exp_gmt : Z → apr_time_exp_t;
  apr_time_exp_gmt_get : apr_time_exp_t → option Z;
  apr_day_snames : list (list byte);
  apr_month_snames : list (list byte);
  apr_time_exp_gmt_ranges : ∀ when, time_ok when →
    let t := apr_time_exp_gmt when in
    0 <= tm_usec t < 1000000 ∧ 0 <= tm_sec t < 60 ∧ 0 <= tm_min t < 60 ∧ 0 <= tm_hour t < 24
    ∧ 1 <= tm_mday t <= 31 ∧ 0 <= tm_mon t < 12 ∧ 0 <= tm_year t + 1900 < 10000;
  apr_time_exp_gmt_inverse : ∀ when, time_ok when →
    apr_time_exp_gmt_get (timestamp_fields (apr_time_exp_gmt when)) = Some when;
}.

(** [printf] of [%0<width>d]. *)
Definition printf_0d (width : nat) (n : Z) : list byte :=
  let sign := if n <? 0 then ["-"%byte] else [] in
  let digits := decimal 20 (Z.abs n) in
  sign ++ replicate (width - length sign - length digits) "0"%byte ++ digits.

(** ** [sscanf]

    The conversions that the old format uses.  [Int None] is [%d] without a
    width. *)
Inductive directive := Str (width : nat) | Int (width : option nat) | Space | Literal (c : byte).

Inductive scanned := ScannedStr (s : list byte) | ScannedInt (n : Z).

(** At most [width] bytes that meet [p], and the rest. *)
Fixpoint take_chars (width : nat) (p : byte → bool) (s : list byte) : list byte * list byte :=
  match width, s with
  | S width, c :: s' =>
      if p c then let '(l, rest) := take_chars width p s' in (c :: l, rest) else ([], s)
  | _, _ => ([], s)
  end.

(** The conversion of [%<width>d]; the sign counts. *)
Definition scan_int (width : nat) (s : list byte) : option (Z * list byte) :=
  let s := skip_while isspace s in
  let '(negative, signs, s) :=
    if deref s =b? "-"%byte then (true, 1%nat, drop 1 s)
    else if deref s =b? "+"%byte then (false, 1%nat, drop 1 s) else (false, 0%nat, s) in
  let '(digits, rest) := take_chars (width - signs) isdigit s in
  match digits with
  | [] => None
  | _ => let value := fst (scan_digits 0 digits) in Some (if negative then - value else value, rest)
  end.

Definition fits_int (n : Z) : bool := (- 0x80000000 <=? n) && (n <? 0x80000000).

(** The values that are assigned before the first directive that does not match.
    A number that is not an [int] is undefined behaviour. *)
Fixpoint sscanf (format : list directive) (s : list byte) : result (list scanned) :=
  match format with
  | [] => Ok []
  | Space :: format => sscanf format (skip_while isspace s)
  | Literal c :: format =>
      match s with d :: s => if d =b? c then sscanf format s else Ok [] | [] => Ok [] end
  | Str width :: format =>
      let '(l, rest) := take_chars width (λ c, negb (isspace c)) (skip_while isspace s) in
      match l with
      | [] => Ok []
      | _ => let! values := sscanf format rest in Ok (ScannedStr l :: values)
      end
  | Int width :: format =>
      match scan_int (default (length s) width) s with
      | None => Ok []
      | Some (n, rest) =>
          if fits_int n then let! values := sscanf format rest in Ok (ScannedInt n :: values)
          else Undefined
      end
  end.

Definition literals (s : String.string) : list directive :=
  map (λ c, if c =b? " "%byte then Space else Literal c) (String.list_byte_of_string s).

Definition OLD_TIMESTAMP_FORMAT : list directive :=
  [Str 3; Space; Int None; Space; Str 3; Space; Int None; Space; Int (Some 2%nat); Literal ":"%byte;
   Int (Some 2%nat); Literal ":"%byte; Int (Some 2%nat); Literal "."%byte; Int (Some 6%nat)]
  ++ literals " (day " ++ [Int (Some 3%nat)] ++ literals ", dst " ++ [Int None]
  ++ literals ", gmt_off " ++ [Int (Some 6%nat)] ++ literals ")".

(** ** The operations *)

(** The signed arithmetic of [int] fields overflows with undefined behaviour. *)
Definition int_field (n : Z) : result Z := if fits_int n then Ok n else Undefined.

(** [*c++ == expected]. *)
Definition expect (expected : byte) (c : list byte) : option (list byte) :=
  match c with d :: c => if d =b? expected then Some c else None | [] => None end.

(** One field and the separator that ends it. *)
Definition timestamp_field (separator : byte) (c : list byte) : option (Z * list byte) :=
  let '(n, c) := strtol c in
  match expect separator c with Some c => Some (s32 n, c) | None => None end.

Fixpoint timestamp_loop (separators : list byte) (c : list byte) : option (list Z) :=
  match separators with
  | [] => Some []
  | separator :: separators =>
      match timestamp_field separator c with
      | None => None
      | Some (n, c) =>
          match timestamp_loop separators c with Some fields => Some (n :: fields) | None => None end
      end
  end.

Fixpoint find_matching_string (str : list byte) (i : Z) (strings : list (list byte)) : Z :=
  match strings with
  | [] => -1
  | s :: strings => if strcmp str s =? 0 then i else find_matching_string str (i + 1) strings
  end.

Section Time.
Context `{AprTime}.

(** TIMESTAMP_FORMAT. *)
Definition svn_time_to_cstring (when : Z) : list byte :=
  let exploded_time := apr_time_exp_gmt when in
  printf_0d 4 (tm_year exploded_time + 1900) ++ "-"%byte
  :: printf_0d 2 (tm_mon exploded_time + 1) ++ "-"%byte
  :: printf_0d 2 (tm_mday exploded_time) ++ "T"%byte
  :: printf_0d 2 (tm_hour exploded_time) ++ ":"%byte
  :: printf_0d 2 (tm_min exploded_time) ++ ":"%byte
  :: printf_0d 2 (tm_sec exploded_time) ++ "."%byte
  :: printf_0d 6 (tm_usec exploded_time) ++ ["Z"%byte].

Definition time_from_fields (t : apr_time_exp_t) : result Z :=
  match apr_time_exp_gmt_get t with Some when => Ok when | None => Error SVN_ERR_BAD_DATE end.

(** The label [fail]. *)
Definition time_from_old_format (data : list byte) : result Z :=
  let! values := sscanf OLD_TIMESTAMP_FORMAT data in
  match values with
  | [ScannedStr wday; ScannedInt mday; ScannedStr month; ScannedInt year; ScannedInt hour;
     ScannedInt min; ScannedInt sec; ScannedInt usec; ScannedInt yday; ScannedInt isdst;
     ScannedInt gmtoff] =>
      let! year := int_field (year - 1900) in
      let! yday := int_field (yday - 1) in
      time_from_fields
        {| tm_usec := usec; tm_sec := sec; tm_min := min; tm_hour := hour; tm_mday := mday;
           tm_mon := find_matching_string month 0 (take 12 apr_month_snames); tm_year := year;
           tm_wday := find_matching_string wday 0 (take 7 apr_day_snames);
           tm_yday := yday; tm_isdst := isdst; tm_gmtoff := gmtoff |}
  | _ => Error SVN_ERR_BAD_DATE
  end.

Definition svn_time_from_cstring (data : list byte) : result Z :=
  match timestamp_loop (String.list_byte_of_string "--T::.Z") data with
  | Some [year; mon; mday; hour; min; sec; usec] =>
      let! year := int_field (year - 1900) in
      let! mon := int_field (mon - 1) in
      time_from_fields
        {| tm_usec := usec; tm_sec := sec; tm_min := min; tm_hour := hour; tm_mday := mday;
           tm_mon := mon; tm_year := year; tm_wday := 0; tm_yday := 0; tm_isdst := 0; tm_gmtoff := 0 |}
  | _ => time_from_old_format data
  end.
End Time.

Example old_timestamp :
  sscanf OLD_TIMESTAMP_FORMAT
    (String.list_byte_of_string "Tue 3 Oct 2000 04:05:06.007008 (day 277, dst 1, gmt_off -18000)")
  = Ok [ScannedStr (String.list_byte_of_string "Tue"); ScannedInt 3; ScannedStr (String.list_byte_of_string "Oct");
        ScannedInt 2000; ScannedInt 4; ScannedInt 5; ScannedInt 6; ScannedInt 7008; ScannedInt 277; ScannedInt 1;
        ScannedInt (-18000)].
Proof. vm_compute. reflexivity. Qed.

(** ** Reading a printed time *)

Lemma s32_small z : - 0x80000000 <= z < 0x80000000 → s32 z = z.
Proof. intros. unfold s32. rewrite Z.mod_small; lia. Qed.

Lemma scan_zeros k s : scan_digits 0 (replicate k "0"%byte ++ s) = scan_digits 0 s.
Proof. induction k as [|k IH]; [done|]. cbn [replicate app scan_digits]. by rewrite <- IH. Qed.

(** A field of digits that is padded with zeros. *)
Lemma timestamp_field_ok width n separator rest :
  0 <= n < 0x80000000 → isdigit separator = false →
  timestamp_field separator (printf_0d width n ++ separator :: rest) = Some (n, rest).
Proof.
  intros Hn Hsep. unfold timestamp_field, printf_0d. rewrite (proj2 (Z.ltb_ge n 0)) by lia. cbn [app length].
  rewrite Z.abs_eq, <- app_assoc by lia. set (k := (_ - _ - _)%nat). clearbody k.
  set (s := replicate k "0"%byte ++ decimal 20 n ++ separator :: rest).
  assert (scan_digits 0 s = (n, separator :: rest)) as Hscan.
  { unfold s. rewrite scan_zeros. apply scan_decimal; [|done]. change (10 ^ Z.of_nat 20) with 100000000000000000000. lia. }
  assert (∃ c l, s = c :: l ∧ isdigit c = true) as (c & l & Hs & Hc).
  { unfold s. destruct k as [|k]; [|by eexists "0"%byte, _]. destruct (decimal_head n) as (c & l & -> & Hc); [lia|].
    by eexists c, _. }
  destruct (isdigit_facts c Hc) as (Hsp & Hm & Hp & _). unfold strtol. rewrite Hs in *. cbn [skip_while deref].
  rewrite Hsp. cbn [deref]. rewrite (proj2 (byte_eqb_ne _ _) Hm), (proj2 (byte_eqb_ne _ _) Hp). cbn [deref].
  rewrite Hc, Hscan. cbn [expect]. rewrite byte_eqb_refl.
  change LONG_MAX with 9223372036854775807. change LONG_MIN with (-9223372036854775808).
  rewrite Z.min_r, Z.max_r, s32_small by lia. done.
Qed.

Lemma time_round_trip `{AprTime} when : time_ok when → svn_time_from_cstring (svn_time_to_cstring when) = Ok when.
Proof.
  intros Hok. pose proof (apr_time_exp_gmt_ranges when Hok) as Hr. pose proof (apr_time_exp_gmt_inverse when Hok) as Hi.
  unfold svn_time_from_cstring, svn_time_to_cstring. destruct (apr_time_exp_gmt when) as [usec sec min hour mday mon year].
  unfold timestamp_fields in Hi. cbn [tm_usec tm_sec tm_min tm_hour tm_mday tm_mon tm_year] in *.
  change (String.list_byte_of_string "--T::.Z") with ["-"; "-"; "T"; ":"; ":"; "."; "Z"]%byte.
  cbn [timestamp_loop]. do 7 (rewrite timestamp_field_ok by (lia || done)).
  replace (year + 1900 - 1900) with year by lia. replace (mon + 1 - 1) with mon by lia.
  unfold int_field, fits_int. rewrite !(proj2 (Z.leb_le _ _)), !(proj2 (Z.ltb_lt _ _)) by lia.
  cbn [andb rbind]. unfold time_from_fields. by rewrite Hi.
Qed.

(** The laws can be met: a calendar of months of 28 days. *)
Definition calendar_of (when : Z) : apr_time_exp_t :=
  let sec := when / 1000000 in let min := sec / 60 in let hour := min / 60 in let day := hour / 24 in
  let month := day / 28 in
  {| tm_usec := when mod 1000000; tm_sec := sec mod 60; tm_min := min mod 60; tm_hour := hour mod 24;
     tm_mday := day mod 28 + 1; tm_mon := month mod 12; tm_year := month / 12 - 1900;
     tm_wday := 0; tm_yday := 0; tm_isdst := 0; tm_gmtoff := 0 |}.

Definition calendar_get (t : apr_time_exp_t) : Z :=
  ((((((tm_year t + 1900) * 12 + tm_mon t) * 28 + (tm_mday t - 1)) * 24 + tm_hour t) * 60 + tm_min t) * 60
   + tm_sec t) * 1000000 + tm_usec t.

Definition calendar_28 : AprTime.
Proof.
  refine {| apr_time_exp_gmt := calendar_of; apr_time_exp_gmt_get t := Some (calendar_get t);
            apr_day_snames := []; apr_month_snames := [] |}; unfold time_ok.
  - intros when Hok. cbn. set (s := when / 1000000). assert (0 <= s < 253402300800) by (unfold s; div_lia).
    clearbody s. set (m := s / 60). assert (0 <= m < 4223371680) by (unfold m; div_lia).
    assert (0 <= s mod 60 < 60) by div_lia. clearbody m. set (h := m / 60).
    assert (0 <= h < 70389528) by (unfold h; div_lia). assert (0 <= m mod 60 < 60) by div_lia. clearbody h.
    set (d := h / 24). assert (0 <= d < 2932897) by (unfold d; div_lia). assert (0 <= h mod 24 < 24) by div_lia.
    clearbody d. set (mo := d / 28). assert (0 <= mo < 104747) by (unfold mo; div_lia).
    assert (0 <= d mod 28 < 28) by div_lia. clearbody mo. assert (0 <= when mod 1000000 < 1000000) by div_lia.
    repeat split; div_lia.
  - intros when Hok. unfold calendar_get. cbn. f_equal.
    set (s := when / 1000000). set (m := s / 60). set (h := m / 60). set (d := h / 24). set (mo := d / 28).
    assert (when = s * 1000000 + when mod 1000000) by (unfold s; div_lia).
    assert (s = m * 60 + s mod 60) by (unfold m; clearbody s; div_lia).
    assert (m = h * 60 + m mod 60) by (unfold h; clearbody m; div_lia).
    assert (h = d * 24 + h mod 24) by (unfold d; clearbody h; div_lia).
    assert (d = mo * 28 + d mod 28) by (unfold mo; clearbody d; div_lia).
    assert (mo = mo / 12 * 12 + mo mod 12) by (clearbody mo; div_lia).
    clearbody mo. lia.
Defined.

(** ** The properties *)

(** Every time that svn_time_to_cstring can print, from 1970 to the end of
    9999, is read back by svn_time_from_cstring to the microsecond. *)
Theorem svn_time_from_to_cstring `{AprTime} (when : Z) :
  time_ok when → svn_time_from_cstring (svn_time_to_cstring when) = Ok when.
Proof. apply time_round_trip. Qed.

Lemma svn_time_from_to_cstring_witness :
  time_ok 1234567890123456
  ∧ @svn_time_from_cstring calendar_28 (@svn_time_to_cstring calendar_28 1234567890123456) = Ok 1234567890123456.
Proof.
  assert (time_ok 1234567890123456) as Hok by (unfold time_ok; lia).
  split; [exact Hok|]. exact (@svn_time_from_to_cstring calendar_28 _ Hok).
Defined.
