(* ===== verification/Words.v ===== *)
(** * Scanning a machine word at a time

    The masks of [src/subversion/include/private/svn_eol_private.h] and the tests on
    words of eight bytes that use them, with [src/subversion/libsvn_subr/eol.c].  A
    pointer into a buffer is the rest of the buffer; the address of the buffer is a
    parameter, because the code looks at its alignment. *)
From S2P Require Import Prelude Numbers.

(** ** Words *)

(** The number whose bytes are [l], the lowest first. *)
Fixpoint zword (l : list Z) : Z :=
  match l with [] => 0 | b :: l => b + 256 * zword l end.

(** [*(const apr_uintptr_t * )buf]. *)
Definition word_of (l : list byte) : Z := zword (map byte_val l).

Definition sizeof_uintptr : nat := 8.

Definition SVN__LOWER_7BITS_SET : Z := 0x7f7f7f7f7f7f7f7f.
Definition SVN__BIT_7_SET : Z := 0x8080808080808080.
Definition SVN__R_MASK : Z := 0x0a0a0a0a0a0a0a0a.
Definition SVN__N_MASK : Z := 0x0d0d0d0d0d0d0d0d.

(** [addr & (sizeof(apr_uintptr_t)-1)]. *)
Definition misaligned (addr : Z) : Z := Z.land addr 7.

(** Reading a word: outside of the buffer, or through a misaligned pointer on a
    machine that does not allow it, it is undefined. *)
Definition read_word (unaligned : bool) (addr : Z) (buf : list byte) : result Z :=
  if (length buf <? sizeof_uintptr)%nat then Undefined
  else if negb unaligned && negb (misaligned addr =? 0) then Undefined
  else Ok (word_of (take sizeof_uintptr buf)).

(** ** eol.c *)

Definition is_eol (c : byte) : bool := (c =b? x0a) || (c =b? x0d).

(** The bytes before the first aligned one: the line ending that was found, or
    where to go on. *)
Fixpoint eol_align_loop (buf : list byte) (addr : Z) : list byte * Z * bool :=
  match buf with
  | [] => (buf, addr, false)
  | c :: rest =>
      if misaligned addr =? 0 then (buf, addr, false)
      else if is_eol c then (buf, addr, true)
      else eol_align_loop rest (addr + 1)
  end.

(** A word that has a CR or a LF ends the loop. *)
Definition eol_in_word (chunk : Z) : bool :=
  let r_test := Z.lxor chunk SVN__R_MASK in
  let n_test := Z.lxor chunk SVN__N_MASK in
  let r_test := Z.lor r_test (u64 (Z.land r_test SVN__LOWER_7BITS_SET + SVN__LOWER_7BITS_SET)) in
  let n_test := Z.lor n_test (u64 (Z.land n_test SVN__LOWER_7BITS_SET + SVN__LOWER_7BITS_SET)) in
  negb (Z.land (Z.land r_test n_test) SVN__BIT_7_SET =? SVN__BIT_7_SET).

Fixpoint eol_word_loop (fuel : nat) (unaligned : bool) (addr : Z) (buf : list byte)
    : result (list byte) :=
  if (sizeof_uintptr <? length buf)%nat then
    match fuel with
    | O => OutOfFuel
    | S fuel =>
        let! chunk := read_word unaligned addr buf in
        if eol_in_word chunk then Ok buf
        else eol_word_loop fuel unaligned (addr + 8) (drop sizeof_uintptr buf)
    end
  else Ok buf.

Fixpoint find_eol_byte (buf : list byte) : option (list byte) :=
  match buf with
  | [] => None
  | c :: rest => if is_eol c then Some buf else find_eol_byte rest
  end.

(** [unaligned] is [SVN_UNALIGNED_ACCESS_IS_OK]. *)
Definition svn_eol__find_eol_start (unaligned : bool) (addr : Z) (buf : list byte)
    : result (option (list byte)) :=
  let '(buf, addr, found) := if unaligned then (buf, addr, false) else eol_align_loop buf addr in
  if found then Ok (Some buf)
  else
    let! buf := eol_word_loop (length buf) unaligned addr buf in
    Ok (find_eol_byte buf).

(** The marker and where it begins. *)
Definition svn_eol__detect_eol (unaligned : bool) (addr : Z) (buf : list byte)
    : result (option (list byte * list byte)) :=
  let! eol := svn_eol__find_eol_start unaligned addr buf in
  match eol with
  | None => Ok None
  | Some eolp =>
      match eolp with
      | [] => Undefined
      | c :: rest =>
          if c =b? x0a then Ok (Some ([x0a], eolp))
          else
            match rest with
            | d :: _ => if d =b? x0a then Ok (Some ([x0d; x0a], eolp)) else Ok (Some ([x0d], eolp))
            | [] => Ok (Some ([x0d], eolp))
            end
      end
  end.

(** ** Words byte by byte *)

Definition is_byte (b : Z) : Prop := 0 <= b < 256.

Lemma byte_step_bits b w i :
  is_byte b → 0 <= w → 0 <= i →
  Z.testbit (b + 256 * w) i = if i <? 8 then Z.testbit b i else Z.testbit w (i - 8).
Proof.
  intros Hb Hw Hi. replace (b + 256 * w) with (Z.lor (Z.shiftl w 8) b)
    by (rewrite (lor_add w b 8) by (unfold is_byte in Hb; change (2 ^ 8) with 256; lia); change (2 ^ 8) with 256; lia).
  rewrite Z.lor_spec. destruct (Z.ltb_spec i 8).
  - by rewrite Z.shiftl_spec_low by lia.
  - rewrite Z.shiftl_spec by lia. destruct (Z.eq_dec b 0) as [->|Hz]; [by rewrite Z.bits_0, orb_false_r|].
    rewrite (Z.bits_above_log2 b i), orb_false_r; [done|unfold is_byte in Hb; lia|].
    apply Z.lt_le_trans with 8; [|lia]. apply Z.log2_lt_pow2; [unfold is_byte in Hb; lia|].
    unfold is_byte in Hb. change (2 ^ 8) with 256. lia.
Qed.

Lemma zword_range l : Forall is_byte l → 0 <= zword l < 256 ^ Z.of_nat (length l).
Proof.
  induction 1 as [|b l Hb _ IH]; [done|]. cbn [zword length]. rewrite Nat2Z.inj_succ, Z.pow_succ_r by lia.
  unfold is_byte in Hb. lia.
Qed.

(** An operation that works bit by bit works byte by byte. *)
Lemma zword_bitwise (op : Z → Z → Z) (f : bool → bool → bool) :
  f false false = false →
  (∀ a b i, 0 <= i → Z.testbit (op a b) i = f (Z.testbit a i) (Z.testbit b i)) →
  (∀ a b, is_byte a → is_byte b → is_byte (op a b)) →
  ∀ l m, Forall is_byte l → Forall is_byte m → length l = length m →
    op (zword l) (zword m) = zword (zip_with op l m) ∧ Forall is_byte (zip_with op l m).
Proof.
  intros Hff Hop Hrange l m Hl. revert m; induction Hl as [|a l Ha Hl IH]; intros [|b m] Hm Hlen; try done.
  { split; [|constructor]. apply Z.bits_inj'. intros i Hi. cbn [zip_with zword]. by rewrite Hop, !Z.bits_0. }
  apply Forall_cons in Hm as [Hb Hm]. injection Hlen as Hlen. destruct (IH m Hm Hlen) as [IH1 IH2].
  pose proof (Hrange a b Ha Hb) as Hab. cbn [zword zip_with]. split; [|by constructor].
  pose proof (zword_range l Hl). pose proof (zword_range m Hm). pose proof (zword_range _ IH2).
  apply Z.bits_inj'. intros i Hi. rewrite Hop, !byte_step_bits by (done || lia).
  destruct (Z.ltb_spec i 8); [by rewrite Hop|]. rewrite <- IH1, Hop by lia. done.
Qed.

Lemma is_byte_bits z : is_byte z ↔ 0 <= z ∧ ∀ i, 8 <= i → Z.testbit z i = false.
Proof.
  unfold is_byte. split.
  - intros Hz. split; [lia|]. intros i Hi. destruct (Z.eq_dec z 0) as [->|]; [apply Z.bits_0|].
    apply Z.bits_above_log2; [lia|]. apply Z.lt_le_trans with 8; [|lia]. apply Z.log2_lt_pow2; [lia|].
    change (2 ^ 8) with 256. lia.
  - intros [Hz Hbits]. split; [done|]. assert (z = z mod 2 ^ 8) as ->.
    { apply Z.bits_inj'. intros i Hi. destruct (Z.ltb_spec i 8).
      - by rewrite Z.mod_pow2_bits_low by lia.
      - rewrite Z.mod_pow2_bits_high by lia. by apply Hbits. }
    change (2 ^ 8) with 256. apply Z.mod_pos_bound. lia.
Qed.

Lemma zword_land l m :
  Forall is_byte l → Forall is_byte m → length l = length m →
  Z.land (zword l) (zword m) = zword (zip_with Z.land l m) ∧ Forall is_byte (zip_with Z.land l m).
Proof.
  apply (zword_bitwise Z.land andb); [done|intros; apply Z.land_spec|].
  intros a b [Ha Ha']%is_byte_bits [Hb Hb']%is_byte_bits. apply is_byte_bits.
  split; [apply Z.land_nonneg; lia|]. intros i Hi. by rewrite Z.land_spec, Ha'.
Qed.

Lemma zword_lor l m :
  Forall is_byte l → Forall is_byte m → length l = length m →
  Z.lor (zword l) (zword m) = zword (zip_with Z.lor l m) ∧ Forall is_byte (zip_with Z.lor l m).
Proof.
  apply (zword_bitwise Z.lor orb); [done|intros; apply Z.lor_spec|].
  intros a b [Ha Ha']%is_byte_bits [Hb Hb']%is_byte_bits. apply is_byte_bits.
  split; [apply Z.lor_nonneg; lia|]. intros i Hi. by rewrite Z.lor_spec, Ha', Hb'.
Qed.

Lemma zword_lxor l m :
  Forall is_byte l → Forall is_byte m → length l = length m →
  Z.lxor (zword l) (zword m) = zword (zip_with Z.lxor l m) ∧ Forall is_byte (zip_with Z.lxor l m).
Proof.
  apply (zword_bitwise Z.lxor xorb); [done|intros; apply Z.lxor_spec|].
  intros a b [Ha Ha']%is_byte_bits [Hb Hb']%is_byte_bits. apply is_byte_bits.
  split; [apply Z.lxor_nonneg; lia|]. intros i Hi. by rewrite Z.lxor_spec, Ha', Hb'.
Qed.

(** Without carries. *)
Lemma zword_add l m : length l = length m → zword l + zword m = zword (zip_with Z.add l m).
Proof.
  revert m; induction l as [|a l IH]; intros [|b m] Hlen; try done. injection Hlen as Hlen.
  cbn [zword zip_with]. rewrite <- IH by done. lia.
Qed.

Lemma zword_inj l m :
  Forall is_byte l → Forall is_byte m → length l = length m → zword l = zword m → l = m.
Proof.
  intros Hl. revert m; induction Hl as [|a l Ha Hl IH]; intros [|b m] Hm Hlen; try done.
  apply Forall_cons in Hm as [Hb Hm]. injection Hlen as Hlen. cbn [zword]. unfold is_byte in *. intros Heq.
  assert (a = b) as -> by lia. f_equal. apply IH; [done|done|lia].
Qed.

(** ** The tests on a word *)

Lemma all_bytes (P : Z → bool) :
  forallb P (map Z.of_nat (seq 0 256)) = true → ∀ b, is_byte b → P b = true.
Proof.
  intros Hall b Hb. apply (proj1 (forallb_forall _ _) Hall), in_map_iff. exists (Z.to_nat b).
  unfold is_byte in Hb. split; [lia|]. apply in_seq. lia.
Qed.

Lemma bytes_of (l : list byte) : Forall is_byte (map byte_val l).
Proof. induction l; constructor; [apply byte_val_range|done]. Qed.

Lemma zip_repeat {A} (op : Z → Z → A) m l : zip_with op l (repeat m (length l)) = map (λ b, op b m) l.
Proof. induction l as [|a l IH]; [done|]. cbn [length repeat zip_with map]. by rewrite IH. Qed.

Lemma zip_maps {A} (op : Z → Z → A) (f g : Z → Z) l :
  zip_with op (map f l) (map g l) = map (λ b, op (f b) (g b)) l.
Proof. induction l as [|a l IH]; [done|]. cbn [zip_with map]. by rewrite IH. Qed.

Lemma masks :
  SVN__LOWER_7BITS_SET = zword (repeat 0x7f 8) ∧ SVN__BIT_7_SET = zword (repeat 0x80 8)
  ∧ SVN__R_MASK = zword (repeat 0x0a 8) ∧ SVN__N_MASK = zword (repeat 0x0d 8).
Proof. done. Qed.

Lemma repeat_bytes m k : is_byte m → Forall is_byte (repeat m k).
Proof. intros Hm. induction k; by constructor. Qed.

(** The high bit of a byte is set unless the byte is zero. *)
Definition high (b : Z) : Z := Z.lor b (Z.land b 0x7f + 0x7f).

Lemma high_range b : is_byte b → is_byte (high b).
Proof.
  intros Hb. apply (all_bytes (λ b, (0 <=? high b) && (high b <? 256))) in Hb; [|by vm_compute].
  unfold is_byte. lia.
Qed.

(** A mask applied to every byte. *)
Lemma mask_land l m :
  Forall is_byte l → is_byte m → Z.land (zword l) (zword (repeat m (length l))) = zword (map (λ b, Z.land b m) l)
    ∧ Forall is_byte (map (λ b, Z.land b m) l).
Proof.
  intros Hl Hm. rewrite <- zip_repeat. apply zword_land; [done|by apply repeat_bytes|by rewrite repeat_length].
Qed.

Lemma mask_lxor l m :
  Forall is_byte l → is_byte m → Z.lxor (zword l) (zword (repeat m (length l))) = zword (map (λ b, Z.lxor b m) l)
    ∧ Forall is_byte (map (λ b, Z.lxor b m) l).
Proof.
  intros Hl Hm. rewrite <- zip_repeat. apply zword_lxor; [done|by apply repeat_bytes|by rewrite repeat_length].
Qed.

(** The strlen test: the words of the code. *)
Lemma word_high l :
  Forall is_byte l → length l = 8%nat →
  Z.lor (zword l) (u64 (Z.land (zword l) SVN__LOWER_7BITS_SET + SVN__LOWER_7BITS_SET)) = zword (map high l)
  ∧ Forall is_byte (map high l).
Proof.
  intros Hl Hlen. destruct masks as (-> & _ & _ & _). rewrite <- Hlen.
  destruct (mask_land l 0x7f Hl ltac:(done)) as [-> Hland].
  rewrite zword_add by (by rewrite length_map, repeat_length).
  assert (zip_with Z.add (map (λ b, Z.land b 0x7f) l) (repeat 0x7f (length l)) = map (λ b, Z.land b 0x7f + 0x7f) l) as ->.
  { rewrite <- (length_map (λ b, Z.land b 0x7f) l), zip_repeat, map_map. done. }
  assert (Forall is_byte (map (λ b, Z.land b 0x7f + 0x7f) l)) as Hsum.
  { clear -Hl. induction Hl as [|b l Hb Hl IH]; constructor; [|done].
    apply (all_bytes (λ b, (0 <=? Z.land b 0x7f + 0x7f) && (Z.land b 0x7f + 0x7f <? 256))) in Hb; [|by vm_compute].
    unfold is_byte. lia. }
  pose proof (zword_range _ Hsum) as Hr. rewrite length_map, Hlen in Hr.
  change (256 ^ Z.of_nat 8) with 18446744073709551616 in Hr. rewrite u64_small by lia.
  destruct (zword_lor l _ Hl Hsum) as [-> Hlor]; [by rewrite length_map|].
  rewrite <- (map_id l) in Hlor at 1. rewrite <- (map_id l) at 1. rewrite zip_maps in *. done.
Qed.

Lemma high_bit_clear l : Forall is_byte l → length l = 8%nat → Z.land (zword l) SVN__BIT_7_SET = zword (map (λ b, Z.land b 0x80) l).
Proof. intros Hl Hlen. destruct masks as (_ & -> & _ & _). rewrite <- Hlen. by apply mask_land. Qed.

(** All the high bits are set, or none is. *)
Lemma high_bits_all f l :
  (∀ b, is_byte b → f b = 0 ∨ f b = 0x80) → Forall is_byte l → length l = 8%nat →
  (zword (map f l) =? SVN__BIT_7_SET) = forallb (λ b, negb (f b =? 0)) l
  ∧ (zword (map f l) =? 0) = forallb (λ b, f b =? 0) l.
Proof.
  intros Hf Hl Hlen. destruct masks as (_ & -> & _ & _). rewrite <- Hlen. clear Hlen.
  induction Hl as [|b l Hb Hl [IH1 IH2]]; [done|]. cbn [length repeat map zword forallb].
  assert (Forall is_byte (map f l)) as Hfl.
  { clear -Hf Hl. induction Hl as [|b l Hb Hl IH]; constructor; [|done]. unfold is_byte. destruct (Hf b Hb) as [-> | ->]; lia. }
  pose proof (zword_range _ Hfl). rewrite <- IH1, <- IH2. destruct (Hf b Hb) as [-> | ->]; lia.
Qed.

Lemma eol_in_word_spec (l : list byte) :
  length l = 8%nat → eol_in_word (word_of l) = existsb is_eol l.
Proof.
  intros Hlen. unfold eol_in_word, word_of. pose proof (bytes_of l) as Hl.
  assert (length (map byte_val l) = 8%nat) as Hlen' by (by rewrite length_map).
  set (w := map byte_val l) in *. destruct masks as (_ & _ & Hr & Hn). rewrite <- Hlen' in Hr, Hn.
  destruct (mask_lxor w 0x0a Hl ltac:(done)) as [Hxr Hbr]. destruct (mask_lxor w 0x0d Hl ltac:(done)) as [Hxn Hbn].
  rewrite Hr, Hn, Hxr, Hxn. clear Hr Hn Hxr Hxn.
  destruct (word_high _ Hbr) as [-> Hhr]; [by rewrite length_map|].
  destruct (word_high _ Hbn) as [-> Hhn]; [by rewrite length_map|]. rewrite !map_map in *.
  destruct (zword_land _ _ Hhr Hhn) as [-> Hand]; [by rewrite !length_map|]. rewrite zip_maps in *.
  rewrite high_bit_clear by (done || by rewrite length_map). rewrite map_map.
  destruct (high_bits_all (λ b, Z.land (Z.land (high (Z.lxor b 0x0a)) (high (Z.lxor b 0x0d))) 0x80) w) as [-> _]; [|done|done|].
  { intros b Hb. apply (all_bytes (λ b, let v := Z.land (Z.land (high (Z.lxor b 0x0a)) (high (Z.lxor b 0x0d))) 0x80 in
      (v =? 0) || (v =? 0x80))) in Hb; [|by vm_compute]. cbn zeta in Hb. lia. }
  unfold w. clear. induction l as [|c l IH]; [done|]. cbn [map forallb existsb].
  rewrite negb_andb, negb_involutive, IH. f_equal. by destruct c.
Qed.

(** ** Finding a line ending *)

Lemma find_eol_app l rest : existsb is_eol l = false → find_eol_byte (l ++ rest) = find_eol_byte rest.
Proof.
  induction l as [|c l IH]; [done|]. cbn [existsb app find_eol_byte]. intros [-> Hl]%orb_false_iff. by apply IH.
Qed.

Lemma misaligned_mod addr : misaligned addr = addr mod 8.
Proof. unfold misaligned. change 7 with (Z.ones 3). by rewrite Z.land_ones by lia. Qed.

Lemma eol_align_ok buf addr buf' addr' found :
  eol_align_loop buf addr = (buf', addr', found) →
  if found then find_eol_byte buf = Some buf'
  else find_eol_byte buf = find_eol_byte buf' ∧ (length buf' <= length buf)%nat ∧ (buf' = [] ∨ misaligned addr' = 0).
Proof.
  revert addr; induction buf as [|c buf IH]; intros addr; cbn [eol_align_loop].
  - intros [= <- <- <-]. auto.
  - destruct (Z.eqb_spec (misaligned addr) 0); [intros [= <- <- <-]; auto|].
    destruct (is_eol c) eqn:Hc; [intros [= <- <- <-]; cbn [find_eol_byte]; by rewrite Hc|].
    intros H%IH. destruct found; cbn [find_eol_byte length]; rewrite Hc; [done|]. destruct H as (? & ? & ?). auto.
Qed.

Lemma eol_word_loop_ok fuel unaligned addr buf :
  (length buf <= fuel)%nat → unaligned = true ∨ misaligned addr = 0 →
  ∃ buf', eol_word_loop fuel unaligned addr buf = Ok buf' ∧ find_eol_byte buf' = find_eol_byte buf.
Proof.
  revert addr buf; induction fuel as [|fuel IH]; intros addr buf Hfuel Hal; cbn [eol_word_loop]; unfold sizeof_uintptr.
  { destruct (Nat.ltb_spec 8 (length buf)); [lia|]. by eexists. }
  destruct (Nat.ltb_spec 8 (length buf)) as [Hlt|]; [|by eexists]. unfold read_word, sizeof_uintptr.
  rewrite (proj2 (Nat.ltb_ge _ _)) by lia.
  assert (negb unaligned && negb (misaligned addr =? 0) = false) as -> by (destruct Hal as [-> | ->]; [done|by rewrite andb_false_r]).
  cbn [rbind]. assert (length (take 8 buf) = 8%nat) as Hl by (rewrite length_take; lia).
  rewrite eol_in_word_spec by done. destruct (existsb is_eol (take 8 buf)) eqn:He; [by eexists|].
  destruct (IH (addr + 8) (drop 8 buf)) as (buf' & -> & Hb).
  - rewrite length_drop. lia.
  - destruct Hal as [-> | Hal]; [by left|right]. rewrite misaligned_mod in *. div_lia.
  - exists buf'. split; [done|]. rewrite Hb. rewrite <- (take_drop 8 buf) at 2. by rewrite find_eol_app.
Qed.

(** The scan of words finds what a scan of bytes finds, and every word that it
    reads is aligned where that is needed. *)
Lemma find_eol_start_ok unaligned addr buf :
  svn_eol__find_eol_start unaligned addr buf = Ok (find_eol_byte buf).
Proof.
  unfold svn_eol__find_eol_start. destruct unaligned.
  - destruct (eol_word_loop_ok (length buf) true addr buf) as (buf' & -> & Hb); [lia|by left|]. cbn [rbind]. by rewrite Hb.
  - destruct (eol_align_loop buf addr) as [[buf1 addr1] found] eqn:Ha. apply eol_align_ok in Ha.
    destruct found; [by rewrite Ha|]. destruct Ha as (-> & Hl & Hor).
    destruct Hor as [-> | Hal]; [done|].
    destruct (eol_word_loop_ok (length buf1) false addr1 buf1) as (buf' & -> & Hb); [lia|by right|]. cbn [rbind]. by rewrite Hb.
Qed.

(** The word-at-a-time search of svn_eol__find_eol_start finds the same line
    end as the byte-by-byte search, for every buffer, address and build, and
    svn_eol__detect_eol names its kind. *)
Theorem svn_eol__detect_eol_bytes (unaligned : bool) (addr : Z) (buf : list byte) :
  svn_eol__find_eol_start unaligned addr buf = Ok (find_eol_byte buf)
  ∧ svn_eol__detect_eol unaligned addr buf
    = Ok (match find_eol_byte buf with
          | None => None
          | Some eolp =>
              Some (match eolp with
                    | x0d :: x0a :: _ => [x0d; x0a]
                    | x0d :: _ => [x0d]
                    | _ => [x0a]
                    end, eolp)
          end).
Proof.
  split; [apply find_eol_start_ok|]. unfold svn_eol__detect_eol. rewrite find_eol_start_ok. cbn [rbind].
  induction buf as [|c buf IH]; [done|]. cbn [find_eol_byte]. destruct (is_eol c) eqn:Hc; [|apply IH].
  unfold is_eol in Hc. destruct (byte_eqb_spec c x0a) as [->|]; [done|].
  destruct (byte_eqb_spec c x0d) as [->|]; [|done]. destruct buf as [|d buf]; [done|].
  destruct (byte_eqb_spec d x0a) as [->|Hd]; [done|]. by destruct d.
Qed.
