(* ===== verification/Utf8.v ===== *)
(** * Validity of UTF-8

    [src/subversion/libsvn_subr/utf_validate.c]: a table-driven machine that reads a
    byte at a time, after a scan of machine words over the leading ASCII bytes. *)
From S2P Require Import Prelude Numbers Words.

(** ** The machine *)

(** The ranges of the table [octet_category], a row of the table or a part of one
    each. *)
Definition octet_category (octet : byte) : nat :=
  let o := byte_val octet in
  if o <=? 0x7f then 0 else if o <=? 0x8f then 1 else if o <=? 0x9f then 2 else if o <=? 0xbf then 3
  else if o <=? 0xc1 then 4 else if o <=? 0xdf then 5 else if o <=? 0xe0 then 6 else if o <=? 0xec then 7
  else if o <=? 0xed then 8 else if o <=? 0xef then 9 else if o <=? 0xf0 then 10 else if o <=? 0xf3 then 11
  else if o <=? 0xf4 then 12 else 13.

Inductive fsm_state :=
  | FSM_START | FSM_80BF | FSM_A0BF | FSM_80BF80BF | FSM_809F | FSM_90BF | FSM_80BF80BF80BF | FSM_808F
  | FSM_ERROR.

#[global] Instance fsm_state_eq_dec : EqDecision fsm_state.
Proof. solve_decision. Defined.

(** The rows of the table [machine]. *)
Definition machine (state : fsm_state) : list fsm_state :=
  match state with
  | FSM_START =>
      [FSM_START; FSM_ERROR; FSM_ERROR; FSM_ERROR; FSM_ERROR; FSM_80BF; FSM_A0BF; FSM_80BF80BF; FSM_809F;
       FSM_80BF80BF; FSM_90BF; FSM_80BF80BF80BF; FSM_808F; FSM_ERROR]
  | FSM_80BF =>
      [FSM_ERROR; FSM_START; FSM_START; FSM_START; FSM_ERROR; FSM_ERROR; FSM_ERROR; FSM_ERROR; FSM_ERROR;
       FSM_ERROR; FSM_ERROR; FSM_ERROR; FSM_ERROR; FSM_ERROR]
  | FSM_A0BF =>
      [FSM_ERROR; FSM_ERROR; FSM_ERROR; FSM_80BF; FSM_ERROR; FSM_ERROR; FSM_ERROR; FSM_ERROR; FSM_ERROR;
       FSM_ERROR; FSM_ERROR; FSM_ERROR; FSM_ERROR; FSM_ERROR]
  | FSM_80BF80BF =>
      [FSM_ERROR; FSM_80BF; FSM_80BF; FSM_80BF; FSM_ERROR; FSM_ERROR; FSM_ERROR; FSM_ERROR; FSM_ERROR;
       FSM_ERROR; FSM_ERROR; FSM_ERROR; FSM_ERROR; FSM_ERROR]
  | FSM_809F =>
      [FSM_ERROR; FSM_80BF; FSM_80BF; FSM_ERROR; FSM_ERROR; FSM_ERROR; FSM_ERROR; FSM_ERROR; FSM_ERROR;
       FSM_ERROR; FSM_ERROR; FSM_ERROR; FSM_ERROR; FSM_ERROR]
  | FSM_90BF =>
      [FSM_ERROR; FSM_ERROR; FSM_80BF80BF; FSM_80BF80BF; FSM_ERROR; FSM_ERROR; FSM_ERROR; FSM_ERROR; FSM_ERROR;
       FSM_ERROR; FSM_ERROR; FSM_ERROR; FSM_ERROR; FSM_ERROR]
  | FSM_80BF80BF80BF =>
      [FSM_ERROR; FSM_80BF80BF; FSM_80BF80BF; FSM_80BF80BF; FSM_ERROR; FSM_ERROR; FSM_ERROR; FSM_ERROR; FSM_ERROR;
       FSM_ERROR; FSM_ERROR; FSM_ERROR; FSM_ERROR; FSM_ERROR]
  | FSM_808F =>
      [FSM_ERROR; FSM_80BF80BF; FSM_ERROR; FSM_ERROR; FSM_ERROR; FSM_ERROR; FSM_ERROR; FSM_ERROR; FSM_ERROR;
       FSM_ERROR; FSM_ERROR; FSM_ERROR; FSM_ERROR; FSM_ERROR]
  | FSM_ERROR => repeat FSM_ERROR 14
  end.

Definition machine_step (state : fsm_state) (octet : byte) : fsm_state :=
  nth (octet_category octet) (machine state) FSM_ERROR.

(** ** The scan of ASCII bytes *)

(** [*data < 0 || *data >= 0x80] of a signed [char]. *)
Definition non_ascii (c : byte) : bool := 0x80 <=? byte_val c.

(** At most [len] bytes: where to go on, and whether a byte that is not ASCII was
    found. *)
Fixpoint ascii_bytes (len : nat) (data : list byte) : list byte * bool :=
  match len, data with
  | S len, c :: rest => if non_ascii c then (data, true) else ascii_bytes len rest
  | _, _ => (data, false)
  end.

Fixpoint ascii_words (fuel : nat) (unaligned : bool) (addr : Z) (data : list byte) : result (list byte) :=
  if (sizeof_uintptr <? length data)%nat then
    match fuel with
    | O => OutOfFuel
    | S fuel =>
        let! chunk := read_word unaligned addr data in
        if negb (Z.land chunk SVN__BIT_7_SET =? 0) then Ok data
        else ascii_words fuel unaligned (addr + 8) (drop sizeof_uintptr data)
    end
  else Ok data.

(** The bytes of [data] are the [max_len] bytes that are scanned. *)
Definition first_non_fsm_start_char (unaligned : bool) (addr : Z) (data : list byte) : result (list byte) :=
  let '(data, addr, found) :=
    if negb unaligned && negb (misaligned addr =? 0) then
      let len := Nat.min (Z.to_nat (Z.land (Z.lnot addr) 7)) (length data) in
      let '(rest, found) := ascii_bytes len data in
      (rest, addr + Z.of_nat (length data - length rest), found)
    else (data, addr, false) in
  if found then Ok data
  else
    let! data := ascii_words (length data) unaligned addr data in
    Ok (fst (ascii_bytes (length data) data)).

(** [*data <= 0 || *data >= 0x80]. *)
Definition non_ascii_or_nul (c : byte) : bool := (c =b? NUL) || non_ascii c.

(** Reading a byte after the end of the memory is undefined. *)
Fixpoint ascii_align_loop (data : list byte) (addr : Z) : result (list byte * Z * bool) :=
  if misaligned addr =? 0 then Ok (data, addr, false)
  else
    match data with
    | [] => Undefined
    | c :: rest => if non_ascii_or_nul c then Ok (data, addr, true) else ascii_align_loop rest (addr + 1)
    end.

(** The word has a byte that is not ASCII or a NUL. *)
Definition stops_in_word (chunk : Z) : bool :=
  if negb (Z.land chunk SVN__BIT_7_SET =? 0) then true
  else
    let chunk := Z.lor chunk (u64 (Z.land chunk SVN__LOWER_7BITS_SET + SVN__LOWER_7BITS_SET)) in
    negb (Z.land chunk SVN__BIT_7_SET =? SVN__BIT_7_SET).

Fixpoint ascii_words_cstring (fuel : nat) (addr : Z) (data : list byte) : result (list byte) :=
  match fuel with
  | O => OutOfFuel
  | S fuel =>
      let! chunk := read_word false addr data in
      if stops_in_word chunk then Ok data else ascii_words_cstring fuel (addr + 8) (drop sizeof_uintptr data)
  end.

Fixpoint ascii_bytes_cstring (data : list byte) : result (list byte) :=
  match data with
  | [] => Undefined
  | c :: rest => if non_ascii_or_nul c then Ok data else ascii_bytes_cstring rest
  end.

(** [data] is the memory from the string on: its bytes, its terminator and what
    follows. *)
Definition first_non_fsm_start_char_cstring (addr : Z) (data : list byte) : result (list byte) :=
  let! (data, addr, found) := ascii_align_loop data addr in
  if found then Ok data
  else
    let! data := ascii_words_cstring (S (length data)) addr data in
    ascii_bytes_cstring data.

(** ** Validity *)

(** What is left after the last complete character: [start]. *)
Fixpoint last_valid_loop (step : fsm_state → byte → fsm_state) (data start : list byte) (state : fsm_state)
    : list byte :=
  match data with
  | [] => start
  | octet :: data =>
      let state := step state octet in
      last_valid_loop step data (if bool_decide (state = FSM_START) then data else start) state
  end.

Fixpoint machine_run (data : list byte) (state : fsm_state) : fsm_state :=
  match data with
  | [] => state
  | octet :: data => machine_run data (machine_step state octet)
  end.

Fixpoint run_cstring (data : list byte) (state : fsm_state) : result fsm_state :=
  match data with
  | [] => Undefined
  | octet :: data => if octet =b? NUL then Ok state else run_cstring data (machine_step state octet)
  end.

(** The [switch] of [svn_utf__last_valid2]; [FSM_ERROR] returns. *)
Definition switch_step (state : fsm_state) (octet : byte) : fsm_state :=
  let o := byte_val octet in
  match state with
  | FSM_START =>
      if o <=? 0x7F then FSM_START else if o <=? 0xC1 then FSM_ERROR else if o <=? 0xDF then FSM_80BF
      else if o =? 0xE0 then FSM_A0BF else if o <=? 0xEC then FSM_80BF80BF else if o =? 0xED then FSM_809F
      else if o <=? 0xEF then FSM_80BF80BF else if o =? 0xF0 then FSM_90BF
      else if o <=? 0xF3 then FSM_80BF80BF80BF else if o <=? 0xF4 then FSM_808F else FSM_ERROR
  | FSM_80BF => if (0x80 <=? o) && (o <=? 0xBF) then FSM_START else FSM_ERROR
  | FSM_A0BF => if (0xA0 <=? o) && (o <=? 0xBF) then FSM_80BF else FSM_ERROR
  | FSM_80BF80BF => if (0x80 <=? o) && (o <=? 0xBF) then FSM_80BF else FSM_ERROR
  | FSM_809F => if (0x80 <=? o) && (o <=? 0x9F) then FSM_80BF else FSM_ERROR
  | FSM_90BF => if (0x90 <=? o) && (o <=? 0xBF) then FSM_80BF80BF else FSM_ERROR
  | FSM_80BF80BF80BF => if (0x80 <=? o) && (o <=? 0xBF) then FSM_80BF80BF else FSM_ERROR
  | FSM_808F => if (0x80 <=? o) && (o <=? 0x8F) then FSM_80BF80BF else FSM_ERROR
  | FSM_ERROR => FSM_ERROR
  end.

Fixpoint last_valid2_loop (data start : list byte) (state : fsm_state) : list byte :=
  match data with
  | [] => start
  | octet :: data =>
      match state with
      | FSM_ERROR => start
      | _ =>
          let state := switch_step state octet in
          last_valid2_loop data (if bool_decide (state = FSM_START) then data else start) state
      end
  end.

(** A returned pointer is the length of what is before it. *)
Definition svn_utf__last_valid (unaligned : bool) (addr : Z) (data : list byte) : result nat :=
  let! start := first_non_fsm_start_char unaligned addr data in
  Ok (length data - length (last_valid_loop machine_step start start FSM_START))%nat.

Definition svn_utf__last_valid2 (unaligned : bool) (addr : Z) (data : list byte) : result nat :=
  let! start := first_non_fsm_start_char unaligned addr data in
  Ok (length data - length (last_valid2_loop start start FSM_START))%nat.

Definition svn_utf__is_valid (unaligned : bool) (addr : Z) (data : list byte) : result bool :=
  let! data := first_non_fsm_start_char unaligned addr data in
  Ok (bool_decide (machine_run data FSM_START = FSM_START)).

Definition svn_utf__cstring_is_valid (addr : Z) (data : list byte) : result bool :=
  let! data := first_non_fsm_start_char_cstring addr data in
  let! state := run_cstring data FSM_START in
  Ok (bool_decide (state = FSM_START)).
