(* ===== verification/Utf8Correct.v ===== *)
(** * Validity of UTF-8: correctness

    The machine accepts the encodings of the sequences of Unicode scalar values,
    and nothing else. *)
From S2P Require Import Prelude Numbers Words Utf8.

(** ** The encoding *)

(** The code points without the surrogates. *)
Definition scalar (cp : Z) : Prop := 0 <= cp < 0xD800 ∨ 0xE000 <= cp < 0x110000.

Definition utf8_encode (cp : Z) : list byte :=
  map byte_of
    (if cp <? 0x80 then [cp]
     else if cp <? 0x800 then [0xC0 + cp / 64; 0x80 + cp mod 64]
     else if cp <? 0x10000 then [0xE0 + cp / 4096; 0x80 + cp / 64 mod 64; 0x80 + cp mod 64]
     else [0xF0 + cp / 262144; 0x80 + cp / 4096 mod 64; 0x80 + cp / 64 mod 64; 0x80 + cp mod 64]).

Definition utf8_text (cps : list Z) : list byte := concat (map utf8_encode cps).

Definition utf8 (data : list byte) : Prop := ∃ cps, Forall scalar cps ∧ data = utf8_text cps.

(** ** The machine *)

(** The table and the [switch] make the same transitions. *)
Lemma machine_switch state octet : machine_step state octet = switch_step state octet.
Proof. destruct state; by destruct octet. Qed.

Lemma run_app a b state : machine_run (a ++ b) state = machine_run b (machine_run a state).
Proof. revert state; induction a as [|c a IH]; intros state; [done|]. apply IH. Qed.

Lemma run_error data : machine_run data FSM_ERROR = FSM_ERROR.
Proof. induction data as [|c data IH]; [done|]. cbn [machine_run]. by rewrite machine_switch. Qed.

Lemma step_of state z : 0 <= z < 256 → machine_step state (byte_of z)
  = match state with
    | FSM_START =>
        if z <=? 0x7F then FSM_START else if z <=? 0xC1 then FSM_ERROR else if z <=? 0xDF then FSM_80BF
        else if z =? 0xE0 then FSM_A0BF else if z <=? 0xEC then FSM_80BF80BF else if z =? 0xED then FSM_809F
        else if z <=? 0xEF then FSM_80BF80BF else if z =? 0xF0 then FSM_90BF
        else if z <=? 0xF3 then FSM_80BF80BF80BF else if z <=? 0xF4 then FSM_808F else FSM_ERROR
    | FSM_80BF => if (0x80 <=? z) && (z <=? 0xBF) then FSM_START else FSM_ERROR
    | FSM_A0BF => if (0xA0 <=? z) && (z <=? 0xBF) then FSM_80BF else FSM_ERROR
    | FSM_80BF80BF => if (0x80 <=? z) && (z <=? 0xBF) then FSM_80BF else FSM_ERROR
    | FSM_809F => if (0x80 <=? z) && (z <=? 0x9F) then FSM_80BF else FSM_ERROR
    | FSM_90BF => if (0x90 <=? z) && (z <=? 0xBF) then FSM_80BF80BF else FSM_ERROR
    | FSM_80BF80BF80BF => if (0x80 <=? z) && (z <=? 0xBF) then FSM_80BF80BF else FSM_ERROR
    | FSM_808F => if (0x80 <=? z) && (z <=? 0x8F) then FSM_80BF80BF else FSM_ERROR
    | FSM_ERROR => FSM_ERROR
    end.
Proof. intros Hz. rewrite machine_switch. unfold switch_step. rewrite byte_val_of, Z.mod_small by done. done. Qed.

(** Steps whose byte is in a known range. *)
Ltac step :=
  cbn [machine_run]; rewrite step_of by div_lia;
  repeat match goal with
  | |- context [if ?b then _ else _] => first [replace b with true by div_lia | replace b with false by div_lia]; cbn iota
  end.

Lemma run_encode cp rest : scalar cp → machine_run (utf8_encode cp ++ rest) FSM_START = machine_run rest FSM_START.
Proof.
  intros Hcp. unfold scalar in Hcp. rewrite run_app. unfold utf8_encode.
  destruct (Z.ltb_spec cp 0x80); [by cbn [map]; step|].
  destruct (Z.ltb_spec cp 0x800); [by cbn [map]; step; step|].
  destruct (Z.ltb_spec cp 0x10000); cbn [map].
  - destruct (Z.ltb_spec cp 0x1000); [by do 3 step|].
    destruct (Z.ltb_spec cp 0xD000); [by do 3 step|]. destruct (Z.ltb_spec cp 0xE000); by do 3 step.
  - destruct (Z.ltb_spec cp 0x40000); [by do 4 step|]. destruct (Z.ltb_spec cp 0x100000); by do 4 step.
Qed.

Lemma run_next data state :
  machine_run data state = FSM_START → state ≠ FSM_START →
  ∃ z rest, data = byte_of z :: rest ∧ 0 <= z < 256 ∧ machine_run rest (machine_step state (byte_of z)) = FSM_START.
Proof.
  destruct data as [|c rest]; [by intros H Hne; destruct (Hne H)|]. intros Hrun _. exists (byte_val c), rest.
  by rewrite byte_of_val; split; [|split; [apply byte_val_range|]].
Qed.

(** The continuation bytes that a state waits for. *)
Lemma run_80BF data :
  machine_run data FSM_80BF = FSM_START →
  ∃ z rest, data = byte_of (0x80 + z) :: rest ∧ 0 <= z < 64 ∧ machine_run rest FSM_START = FSM_START.
Proof.
  intros (z & rest & -> & Hz & Hrun)%run_next; [|done]. rewrite step_of in Hrun by done.
  case_match; [|by rewrite run_error in Hrun]. exists (z - 0x80), rest.
  replace (0x80 + (z - 0x80)) with z by lia. split; [done|]. split; [lia|done].
Qed.

Lemma run_80BF80BF data :
  machine_run data FSM_80BF80BF = FSM_START →
  ∃ y z rest, data = byte_of (0x80 + y) :: byte_of (0x80 + z) :: rest ∧ 0 <= y < 64 ∧ 0 <= z < 64
    ∧ machine_run rest FSM_START = FSM_START.
Proof.
  intros (y & rest & -> & Hy & Hrun)%run_next; [|done]. rewrite step_of in Hrun by done.
  case_match; [|by rewrite run_error in Hrun]. apply run_80BF in Hrun as (z & rest' & -> & Hz & Hrun).
  exists (y - 0x80), z, rest'. replace (0x80 + (y - 0x80)) with y by lia. split; [done|]. split; [lia|done].
Qed.

(** The same, for a state that restricts the next byte. *)
Lemma run_restricted data state low high next :
  (∀ z, 0 <= z < 256 → machine_step state (byte_of z) = if (low <=? z) && (z <=? high) then next else FSM_ERROR) →
  state ≠ FSM_START → 0x80 <= low → machine_run data state = FSM_START →
  ∃ y rest, data = byte_of (0x80 + y) :: rest ∧ low <= 0x80 + y <= high ∧ machine_run rest next = FSM_START.
Proof.
  intros Hstep Hne Hlow (y & rest & -> & Hy & Hrun)%run_next; [|done]. rewrite Hstep in Hrun by done.
  case_match; [|by rewrite run_error in Hrun]. exists (y - 0x80), rest.
  replace (0x80 + (y - 0x80)) with y by lia. split; [done|]. split; [lia|done].
Qed.

Lemma encode_2 x z : 2 <= x < 32 → 0 <= z < 64 →
  utf8_encode (x * 64 + z) = [byte_of (0xC0 + x); byte_of (0x80 + z)].
Proof.
  intros. unfold utf8_encode. rewrite (proj2 (Z.ltb_ge _ 0x80)), (proj2 (Z.ltb_lt _ 0x800)) by lia.
  cbn [map]. repeat (f_equal; try div_lia).
Qed.

Lemma encode_3 x y z : 0 <= x < 16 → 0 <= y < 64 → 0 <= z < 64 → 0x800 <= (x * 64 + y) * 64 + z →
  utf8_encode ((x * 64 + y) * 64 + z) = [byte_of (0xE0 + x); byte_of (0x80 + y); byte_of (0x80 + z)].
Proof.
  intros. unfold utf8_encode.
  rewrite (proj2 (Z.ltb_ge _ 0x80)), (proj2 (Z.ltb_ge _ 0x800)), (proj2 (Z.ltb_lt _ 0x10000)) by lia.
  cbn [map]. repeat (f_equal; try div_lia).
Qed.

Lemma encode_4 w x y z : 0 <= w < 8 → 0 <= x < 64 → 0 <= y < 64 → 0 <= z < 64 →
  0x10000 <= ((w * 64 + x) * 64 + y) * 64 + z →
  utf8_encode (((w * 64 + x) * 64 + y) * 64 + z)
  = [byte_of (0xF0 + w); byte_of (0x80 + x); byte_of (0x80 + y); byte_of (0x80 + z)].
Proof.
  intros. unfold utf8_encode.
  rewrite (proj2 (Z.ltb_ge _ 0x80)), (proj2 (Z.ltb_ge _ 0x800)), (proj2 (Z.ltb_ge _ 0x10000)) by lia.
  cbn [map]. repeat (f_equal; try div_lia).
Qed.

(** Accepted data begins with a character. *)
Lemma run_char data :
  data ≠ [] → machine_run data FSM_START = FSM_START →
  ∃ cp rest, scalar cp ∧ data = utf8_encode cp ++ rest ∧ machine_run rest FSM_START = FSM_START
    ∧ (length rest < length data)%nat.
Proof.
  destruct data as [|c data]; [done|]. intros _ Hrun. cbn [machine_run] in Hrun.
  assert (∃ z, 0 <= z < 256 ∧ c = byte_of z) as (z & Hz & ->)
    by (exists (byte_val c); split; [apply byte_val_range|by rewrite byte_of_val]).
  rewrite step_of in Hrun by done. unfold scalar.
  assert (∀ cp l rest, scalar cp → utf8_encode cp = l → byte_of z :: data = l ++ rest → l ≠ [] →
    machine_run rest FSM_START = FSM_START →
    ∃ cp rest, (0 <= cp < 0xD800 ∨ 0xE000 <= cp < 0x110000) ∧ byte_of z :: data = utf8_encode cp ++ rest
      ∧ machine_run rest FSM_START = FSM_START ∧ (length rest < length (byte_of z :: data))%nat) as Hdone.
  { intros cp l rest Hcp Henc Hl Hne Hr. exists cp, rest. rewrite Henc, Hl, length_app. split; [done|].
    split; [done|]. split; [done|]. destruct l; [done|simpl; lia]. }
  assert (∀ data, machine_run data FSM_ERROR ≠ FSM_START) as Herr by (intros d; by rewrite run_error).
  destruct (Z.leb_spec z 0x7F).
  { apply (Hdone z [byte_of z] data); [unfold scalar; lia| |done|done|done].
    unfold utf8_encode. by rewrite (proj2 (Z.ltb_lt _ _)) by lia. }
  destruct (Z.leb_spec z 0xC1); [by apply Herr in Hrun|].
  destruct (Z.leb_spec z 0xDF).
  { apply run_80BF in Hrun as (y & rest & -> & Hy & Hrun).
    apply (Hdone ((z - 0xC0) * 64 + y) [byte_of z; byte_of (0x80 + y)] rest); [unfold scalar; lia| |done|done|done].
    rewrite encode_2 by lia. by replace (0xC0 + (z - 0xC0)) with z by lia. }
  assert (∀ x y rest, z = 0xE0 + x → 0 <= x < 16 → data = byte_of (0x80 + y) :: rest → 0 <= y < 64 →
    0x20 <= x * 64 + y → x ≠ 13 ∨ y < 0x20 → machine_run rest FSM_80BF = FSM_START →
    ∃ cp rest, (0 <= cp < 0xD800 ∨ 0xE000 <= cp < 0x110000) ∧ byte_of z :: data = utf8_encode cp ++ rest
      ∧ machine_run rest FSM_START = FSM_START ∧ (length rest < length (byte_of z :: data))%nat) as Hthree.
  { intros x y rest Hx Hx' -> Hy Hlow Hsur (w & rest' & -> & Hw & Hr)%run_80BF.
    apply (Hdone ((x * 64 + y) * 64 + w) [byte_of z; byte_of (0x80 + y); byte_of (0x80 + w)] rest'); [unfold scalar; lia| |done|done|done].
    rewrite encode_3 by lia. by rewrite Hx. }
  assert (∀ w x rest, z = 0xF0 + w → 0 <= w < 8 → data = byte_of (0x80 + x) :: rest → 0 <= x < 64 →
    0x10 <= w * 64 + x < 0x110 → machine_run rest FSM_80BF80BF = FSM_START →
    ∃ cp rest, (0 <= cp < 0xD800 ∨ 0xE000 <= cp < 0x110000) ∧ byte_of z :: data = utf8_encode cp ++ rest
      ∧ machine_run rest FSM_START = FSM_START ∧ (length rest < length (byte_of z :: data))%nat) as Hfour.
  { intros w x rest Hw Hw' -> Hx Hlow (y & u & rest' & -> & Hy & Hu & Hr)%run_80BF80BF.
    apply (Hdone (((w * 64 + x) * 64 + y) * 64 + u) [byte_of z; byte_of (0x80 + x); byte_of (0x80 + y); byte_of (0x80 + u)] rest');
      [unfold scalar; lia| |done|done|done]. rewrite encode_4 by lia. by rewrite Hw. }
  destruct (Z.eqb_spec z 0xE0) as [?|].
  { apply (run_restricted _ _ 0xA0 0xBF FSM_80BF) in Hrun as (y & rest & -> & Hy & Hrun);
      [|intros; by rewrite step_of|done|lia]. by apply (Hthree 0 y rest); try lia. }
  destruct (Z.leb_spec z 0xEC).
  { apply (run_restricted _ _ 0x80 0xBF FSM_80BF) in Hrun as (y & rest & -> & Hy & Hrun);
      [|intros; by rewrite step_of|done|lia]. by apply (Hthree (z - 0xE0) y rest); try lia. }
  destruct (Z.eqb_spec z 0xED) as [?|].
  { apply (run_restricted _ _ 0x80 0x9F FSM_80BF) in Hrun as (y & rest & -> & Hy & Hrun);
      [|intros; by rewrite step_of|done|lia]. by apply (Hthree 13 y rest); try lia. }
  destruct (Z.leb_spec z 0xEF).
  { apply (run_restricted _ _ 0x80 0xBF FSM_80BF) in Hrun as (y & rest & -> & Hy & Hrun);
      [|intros; by rewrite step_of|done|lia]. by apply (Hthree (z - 0xE0) y rest); try lia. }
  destruct (Z.eqb_spec z 0xF0) as [?|].
  { apply (run_restricted _ _ 0x90 0xBF FSM_80BF80BF) in Hrun as (y & rest & -> & Hy & Hrun);
      [|intros; by rewrite step_of|done|lia]. by apply (Hfour 0 y rest); try lia. }
  destruct (Z.leb_spec z 0xF3).
  { apply (run_restricted _ _ 0x80 0xBF FSM_80BF80BF) in Hrun as (y & rest & -> & Hy & Hrun);
      [|intros; by rewrite step_of|done|lia]. by apply (Hfour (z - 0xF0) y rest); try lia. }
  destruct (Z.leb_spec z 0xF4); [|by apply Herr in Hrun].
  apply (run_restricted _ _ 0x80 0x8F FSM_80BF80BF) in Hrun as (y & rest & -> & Hy & Hrun);
    [|intros; by rewrite step_of|done|lia]. by apply (Hfour 4 y rest); try lia.
Qed.

(** The language of the machine. *)
Lemma run_utf8 data : machine_run data FSM_START = FSM_START ↔ utf8 data.
Proof.
  split.
  - remember (length data) as n eqn:Hn. revert data Hn. induction (lt_wf n) as [n _ IH]. intros data -> Hrun.
    destruct (decide (data = [])) as [->|Hne]; [by exists []|].
    destruct (run_char data Hne Hrun) as (cp & rest & Hcp & Hdata & Hrest & Hlt).
    destruct (IH (length rest) Hlt rest eq_refl Hrest) as (cps & Hcps & ->).
    exists (cp :: cps). split; [by constructor|done].
  - intros (cps & Hcps & ->). induction Hcps as [|cp cps Hcp _ IH]; [done|].
    unfold utf8_text. cbn [map concat]. by rewrite run_encode.
Qed.

(** ** The scan of the leading ASCII bytes *)

(** The data from its first byte that is not ASCII on. *)
Definition after_ascii (data : list byte) : list byte := skip_while (λ c, negb (non_ascii c)) data.

Lemma after_ascii_app l rest : existsb non_ascii l = false → after_ascii (l ++ rest) = after_ascii rest.
Proof.
  induction l as [|c l IH]; [done|]. cbn [existsb]. intros [Hc Hl]%orb_false_iff. unfold after_ascii in *.
  cbn [app skip_while]. rewrite Hc. by apply IH.
Qed.

Lemma ascii_bytes_all data : fst (ascii_bytes (length data) data) = after_ascii data.
Proof.
  unfold after_ascii. induction data as [|c data IH]; [done|]. cbn [length ascii_bytes skip_while].
  by destruct (non_ascii c).
Qed.

(** A word has its high bits clear when its bytes are ASCII. *)
Lemma word_ascii (l : list byte) :
  length l = 8%nat → negb (Z.land (word_of l) SVN__BIT_7_SET =? 0) = existsb non_ascii l.
Proof.
  intros Hlen. unfold word_of. pose proof (bytes_of l) as Hl.
  rewrite high_bit_clear by (done || by rewrite length_map).
  destruct (high_bits_all (λ b, Z.land b 0x80) (map byte_val l)) as [_ ->]; [|done|by rewrite length_map|].
  { intros b Hb. apply (all_bytes (λ b, let v := Z.land b 0x80 in (v =? 0) || (v =? 0x80))) in Hb; [|by vm_compute].
    cbn zeta in Hb. lia. }
  clear. induction l as [|c l IH]; [done|]. cbn [map forallb existsb]. rewrite negb_andb, IH. f_equal. by destruct c.
Qed.

Lemma ascii_words_ok fuel unaligned addr data :
  (length data <= fuel)%nat → unaligned = true ∨ misaligned addr = 0 →
  ∃ data', ascii_words fuel unaligned addr data = Ok data' ∧ after_ascii data' = after_ascii data.
Proof.
  revert addr data; induction fuel as [|fuel IH]; intros addr data Hfuel Hal; cbn [ascii_words]; unfold sizeof_uintptr.
  { destruct (Nat.ltb_spec 8 (length data)); [lia|]. by eexists. }
  destruct (Nat.ltb_spec 8 (length data)) as [Hlt|]; [|by eexists]. unfold read_word, sizeof_uintptr.
  rewrite (proj2 (Nat.ltb_ge _ _)) by lia.
  assert (negb unaligned && negb (misaligned addr =? 0) = false) as -> by (destruct Hal as [-> | ->]; [done|by rewrite andb_false_r]).
  cbn [rbind]. assert (length (take 8 data) = 8%nat) as Hl by (rewrite length_take; lia).
  rewrite word_ascii by done. destruct (existsb non_ascii (take 8 data)) eqn:He; [by eexists|].
  destruct (IH (addr + 8) (drop 8 data)) as (data' & -> & Hd).
  - rewrite length_drop. lia.
  - destruct Hal as [-> | Hal]; [by left|right]. rewrite misaligned_mod in *. div_lia.
  - exists data'. split; [done|]. rewrite Hd. rewrite <- (take_drop 8 data) at 2. by rewrite after_ascii_app.
Qed.

Lemma first_non_fsm_start_char_ok unaligned addr data :
  unaligned = true ∨ misaligned addr = 0 →
  first_non_fsm_start_char unaligned addr data = Ok (after_ascii data).
Proof.
  intros Hal. unfold first_non_fsm_start_char.
  assert (negb unaligned && negb (misaligned addr =? 0) = false) as -> by (destruct Hal as [-> | ->]; [done|by rewrite andb_false_r]).
  destruct (ascii_words_ok (length data) unaligned addr data) as (data' & -> & Hd); [lia|done|].
  cbn [rbind]. by rewrite ascii_bytes_all, Hd.
Qed.

(** At any address the scan is right, or reads a word through a misaligned
    pointer where that is not allowed. *)
Lemma ascii_words_any fuel unaligned addr data :
  (length data <= fuel)%nat →
  (∃ data', ascii_words fuel unaligned addr data = Ok data' ∧ after_ascii data' = after_ascii data)
  ∨ ascii_words fuel unaligned addr data = Undefined.
Proof.
  intros Hfuel. destruct (decide (unaligned = true ∨ misaligned addr = 0)) as [Hal|Hal].
  { left. by apply ascii_words_ok. }
  apply Decidable.not_or in Hal as [Hu Ha]. apply not_true_is_false in Hu as ->.
  destruct fuel as [|fuel]; cbn [ascii_words]; unfold sizeof_uintptr.
  { destruct (Nat.ltb_spec 8 (length data)); [lia|]. left. by eexists. }
  destruct (Nat.ltb_spec 8 (length data)) as [Hlt|]; [|left; by eexists]. right.
  unfold read_word, sizeof_uintptr. rewrite (proj2 (Nat.ltb_ge _ _)) by lia.
  by rewrite (proj2 (Z.eqb_neq _ _) Ha).
Qed.

Lemma ascii_bytes_ok len data rest found :
  ascii_bytes len data = (rest, found) →
  after_ascii rest = after_ascii data ∧ (found = true → rest = after_ascii data).
Proof.
  revert data. induction len as [|len IH]; intros data; [by destruct data; intros [= <- <-]|].
  destruct data as [|c data]; [by intros [= <- <-]|]. cbn [ascii_bytes]. unfold after_ascii in *. cbn [skip_while].
  destruct (non_ascii c) eqn:Hc; cbn [negb]; [|apply IH]. intros [= <- <-]. cbn [skip_while]. by rewrite Hc.
Qed.

Lemma first_non_fsm_start_char_any unaligned addr data :
  first_non_fsm_start_char unaligned addr data = Ok (after_ascii data)
  ∨ first_non_fsm_start_char unaligned addr data = Undefined.
Proof.
  unfold first_non_fsm_start_char.
  destruct (negb unaligned && negb (misaligned addr =? 0)).
  - destruct (ascii_bytes _ data) as [rest found] eqn:Hb. apply ascii_bytes_ok in Hb as [Hr Hf].
    destruct found; [left; by rewrite Hf|].
    destruct (ascii_words_any (length rest) unaligned (addr + Z.of_nat (length data - length rest)) rest)
      as [(data' & -> & Hd)| ->]; [lia|left|by right].
    cbn [rbind]. by rewrite ascii_bytes_all, Hd, Hr.
  - destruct (ascii_words_any (length data) unaligned addr data) as [(data' & -> & Hd)| ->]; [lia|left|by right].
    cbn [rbind]. by rewrite ascii_bytes_all, Hd.
Qed.

(** Skipping ASCII bytes does not change what the machine accepts. *)
Lemma run_after_ascii data : machine_run (after_ascii data) FSM_START = machine_run data FSM_START.
Proof.
  unfold after_ascii. induction data as [|c data IH]; [done|]. cbn [skip_while machine_run].
  destruct (non_ascii c) eqn:Hc; [done|]. cbn [negb]. rewrite IH. f_equal.
  rewrite machine_switch. unfold switch_step. unfold non_ascii in Hc. by rewrite (proj2 (Z.leb_le _ _)) by lia.
Qed.

(** ** C strings

    [s] is the string, followed in memory by its terminator and by [after], which
    reaches the end of the last aligned word. *)

Lemma stops_in_word_spec (l : list byte) :
  length l = 8%nat → stops_in_word (word_of l) = existsb non_ascii_or_nul l.
Proof.
  intros Hlen. unfold stops_in_word. rewrite word_ascii by done.
  destruct (existsb non_ascii l) eqn:He.
  - symmetry. apply existsb_exists. apply existsb_exists in He as (c & Hin & Hc). exists c. split; [done|].
    unfold non_ascii_or_nul. by rewrite Hc, orb_true_r.
  - unfold word_of. destruct (word_high (map byte_val l) (bytes_of l)) as [-> Hh]; [by rewrite length_map|].
    rewrite high_bit_clear by (done || by rewrite !length_map). rewrite map_map.
    destruct (high_bits_all (λ b, Z.land (high b) 0x80) (map byte_val l)) as [-> _]; [|apply bytes_of|by rewrite length_map|].
    { intros b Hb. apply (all_bytes (λ b, let v := Z.land (high b) 0x80 in (v =? 0) || (v =? 0x80))) in Hb; [|by vm_compute].
      cbn zeta in Hb. lia. }
    clear -He. induction l as [|c l IH]; [done|]. cbn [existsb map forallb] in *.
    apply orb_false_iff in He as [Hc He]. rewrite negb_andb, negb_involutive, IH by done. f_equal.
    unfold non_ascii_or_nul. rewrite Hc. by destruct c.
Qed.

Definition after_ascii_cstring (data : list byte) : list byte := skip_while (λ c, negb (non_ascii_or_nul c)) data.

Lemma ascii_bytes_cstring_ok data :
  existsb non_ascii_or_nul data = true → ascii_bytes_cstring data = Ok (after_ascii_cstring data).
Proof.
  unfold after_ascii_cstring. induction data as [|c data IH]; [done|]. cbn [existsb ascii_bytes_cstring skip_while].
  destruct (non_ascii_or_nul c); [done|]. by apply IH.
Qed.

Lemma after_ascii_cstring_app l rest :
  existsb non_ascii_or_nul l = false → after_ascii_cstring (l ++ rest) = after_ascii_cstring rest.
Proof.
  induction l as [|c l IH]; [done|]. cbn [existsb]. intros [Hc Hl]%orb_false_iff. unfold after_ascii_cstring in *.
  cbn [app skip_while]. rewrite Hc. by apply IH.
Qed.

(** Memory with a stop that has a whole word after it. *)
Definition has_stop (data : list byte) : Prop :=
  ∃ l c after, data = l ++ c :: after ∧ non_ascii_or_nul c = true ∧ (7 <= length after)%nat.

Lemma has_stop_drop k data : has_stop data → existsb non_ascii_or_nul (take k data) = false → has_stop (drop k data).
Proof.
  intros (l & c & after & -> & Hc & Hafter) He. destruct (Nat.le_gt_cases k (length l)) as [Hk|Hk].
  - exists (drop k l), c, after. by rewrite drop_app_le.
  - exfalso. rewrite take_app_ge in He by lia. rewrite existsb_app in He. apply orb_false_iff in He as [_ He].
    destruct (k - length l)%nat eqn:Hkl; [lia|]. cbn [take existsb] in He. by rewrite Hc in He.
Qed.

Lemma has_stop_existsb data : has_stop data → existsb non_ascii_or_nul data = true.
Proof. intros (l & c & after & -> & Hc & _). rewrite existsb_app. cbn [existsb]. by rewrite Hc, orb_true_r. Qed.

Lemma has_stop_length data : has_stop data → (8 <= length data)%nat.
Proof. intros (l & c & after & -> & _ & Hafter). rewrite length_app. cbn [length]. lia. Qed.

Lemma ascii_words_cstring_ok fuel addr data :
  (length data < fuel)%nat → misaligned addr = 0 → has_stop data →
  ∃ data', ascii_words_cstring fuel addr data = Ok data' ∧ has_stop data'
    ∧ after_ascii_cstring data' = after_ascii_cstring data.
Proof.
  revert addr data; induction fuel as [|fuel IH]; intros addr data Hfuel Hal Hstop; [lia|]. cbn [ascii_words_cstring].
  pose proof (has_stop_length data Hstop). unfold read_word, sizeof_uintptr.
  rewrite (proj2 (Nat.ltb_ge _ _)), Hal by lia. cbn [negb andb Z.eqb rbind].
  assert (length (take 8 data) = 8%nat) as Hl by (rewrite length_take; lia).
  rewrite stops_in_word_spec by done. destruct (existsb non_ascii_or_nul (take 8 data)) eqn:He; [by exists data|].
  destruct (IH (addr + 8) (drop 8 data)) as (data' & -> & Hs & Hd).
  - rewrite length_drop. lia.
  - rewrite misaligned_mod in *. div_lia.
  - by apply has_stop_drop.
  - exists data'. split; [done|]. split; [done|]. rewrite Hd. rewrite <- (take_drop 8 data) at 2.
    by rewrite after_ascii_cstring_app.
Qed.

Lemma ascii_align_ok data addr :
  has_stop data →
  ∃ data' addr' found, ascii_align_loop data addr = Ok (data', addr', found)
    ∧ after_ascii_cstring data' = after_ascii_cstring data
    ∧ (if found then data' = after_ascii_cstring data else misaligned addr' = 0 ∧ has_stop data').
Proof.
  revert addr; induction data as [|c data IH]; intros addr Hstop; [by apply has_stop_length in Hstop; simpl in Hstop; lia|].
  cbn [ascii_align_loop]. destruct (Z.eqb_spec (misaligned addr) 0); [by eexists _, _, false|].
  destruct (non_ascii_or_nul c) eqn:Hc.
  - eexists _, _, true. split; [done|]. unfold after_ascii_cstring. cbn [skip_while]. by rewrite Hc.
  - destruct (IH (addr + 1)) as (data' & addr' & found & -> & Hd & Hf).
    { apply (has_stop_drop 1 (c :: data) Hstop). cbn. by rewrite Hc. }
    exists data', addr', found. split; [done|].
    replace (after_ascii_cstring (c :: data)) with (after_ascii_cstring data); [done|].
    unfold after_ascii_cstring. cbn [skip_while]. by rewrite Hc.
Qed.

Lemma first_non_fsm_start_char_cstring_ok addr data :
  has_stop data → first_non_fsm_start_char_cstring addr data = Ok (after_ascii_cstring data).
Proof.
  intros Hstop. unfold first_non_fsm_start_char_cstring.
  destruct (ascii_align_ok data addr Hstop) as (data' & addr' & found & -> & Hd & Hf). cbn [rbind].
  destruct found; [by rewrite Hf|]. destruct Hf as [Hal Hs].
  destruct (ascii_words_cstring_ok (S (length data')) addr' data') as (data'' & -> & Hs' & Hd'); [lia|done|done|].
  cbn [rbind]. rewrite ascii_bytes_cstring_ok by by apply has_stop_existsb. by rewrite Hd', Hd.
Qed.

Lemma run_cstring_ok s after state : NUL ∉ s → run_cstring (s ++ NUL :: after) state = Ok (machine_run s state).
Proof.
  revert state; induction s as [|c s IH]; intros state; [done|]. intros [Hc Hs]%not_elem_of_cons.
  cbn [app run_cstring machine_run]. rewrite (proj2 (byte_eqb_ne c NUL)) by done. by apply IH.
Qed.

Lemma after_ascii_cstring_string s after :
  NUL ∉ s → after_ascii_cstring (s ++ NUL :: after) = after_ascii s ++ NUL :: after ∧ NUL ∉ after_ascii s.
Proof.
  induction s as [|c s IH]; [done|]. intros [Hc Hs]%not_elem_of_cons. unfold after_ascii_cstring, after_ascii in *.
  cbn [app skip_while]. unfold non_ascii_or_nul at 1. rewrite (proj2 (byte_eqb_ne c NUL)) by done. cbn [orb].
  destruct (non_ascii c); cbn [negb]; [|by apply IH]. split; [done|]. by apply not_elem_of_cons.
Qed.

(** ** The longest valid prefix *)

(** [rest] is what is left of [data] after its longest prefix that leads back to
    the start. *)
Definition after_valid (data : list byte) (state : fsm_state) (start rest : list byte) : Prop :=
  (rest = start ∧ ∀ p q, data = p ++ q → p ≠ [] → machine_run p state ≠ FSM_START)
  ∨ ∃ p, data = p ++ rest ∧ p ≠ [] ∧ machine_run p state = FSM_START
      ∧ ∀ p' q', data = p' ++ q' → (length p < length p')%nat → machine_run p' state ≠ FSM_START.

Lemma last_valid_loop_ok data start state :
  after_valid data state start (last_valid_loop machine_step data start state).
Proof.
  revert start state; induction data as [|c data IH]; intros start state; cbn [last_valid_loop].
  { left. split; [done|]. intros p q Heq Hne. by destruct p. }
  set (state' := machine_step state c).
  assert (∀ p q, c :: data = p ++ q → p ≠ [] → ∃ p', p = c :: p' ∧ data = p' ++ q) as Hsplit.
  { intros [|d p] q Heq Hne; [done|]. injection Heq as <- ->. by exists p. }
  destruct (IH (if bool_decide (state' = FSM_START) then data else start) state')
    as [[-> Hno]|(p & Hdata & Hne & Hrun & Hno)].
  - case_bool_decide as Hs.
    + right. exists [c]. split; [done|]. split; [done|]. split; [done|]. intros p' q' Heq Hlen.
      destruct (Hsplit p' q' Heq) as (p & -> & Hd); [by intros ->; simpl in Hlen; lia|]. cbn [machine_run]. apply (Hno p q' Hd).
      intros ->. simpl in Hlen. lia.
    + left. split; [done|]. intros p q Heq Hne. destruct (Hsplit p q Heq Hne) as (p' & -> & Hd). cbn [machine_run].
      destruct (decide (p' = [])) as [->|Hp]; [done|]. by apply (Hno p' q).
  - right. exists (c :: p). rewrite Hdata at 1. split; [done|]. split; [done|]. split; [done|].
    intros p' q' Heq Hlen. destruct (Hsplit p' q' Heq) as (p'' & -> & Hd); [by intros ->; simpl in Hlen; lia|]. cbn [machine_run].
    apply (Hno p'' q' Hd). simpl in Hlen. lia.
Qed.

Lemma last_valid2_loop_ok data start state :
  last_valid2_loop data start state = last_valid_loop machine_step data start state.
Proof.
  revert start state; induction data as [|c data IH]; intros start state; [done|].
  cbn [last_valid2_loop last_valid_loop]. destruct (decide (state = FSM_ERROR)) as [->|Hne].
  - rewrite machine_switch. cbn [switch_step]. rewrite bool_decide_eq_false_2 by done. clear.
    induction data as [|c data IH]; [done|]. cbn [last_valid_loop]. rewrite machine_switch. cbn [switch_step].
    by rewrite bool_decide_eq_false_2.
  - rewrite IH, machine_switch. by destruct state.
Qed.

(** The longest prefix of [data] that is valid has [n] bytes. *)
Definition longest_valid (data : list byte) (n : nat) : Prop :=
  (n <= length data)%nat ∧ utf8 (take n data)
  ∧ ∀ m, (n < m <= length data)%nat → ¬ utf8 (take m data).

Lemma last_valid_longest data :
  let start := after_ascii data in
  longest_valid data (length data - length (last_valid_loop machine_step start start FSM_START)).
Proof.
  intros start. assert (∃ pre, data = pre ++ start ∧ ∀ q, machine_run (pre ++ q) FSM_START = machine_run q FSM_START) as (pre & Hdata & Hpre).
  { unfold start. clear. induction data as [|c data (pre & Heq & Hpre)]; [by exists []|]. unfold after_ascii in *.
    cbn [skip_while]. destruct (non_ascii c) eqn:Hc; cbn [negb]; [by exists []|]. exists (c :: pre).
    split; [by rewrite Heq at 1|]. intros q. cbn [app machine_run]. rewrite machine_switch. unfold switch_step.
    unfold non_ascii in Hc. by rewrite (proj2 (Z.leb_le _ _)) by lia. }
  clearbody start. subst data. destruct (last_valid_loop_ok start start FSM_START) as [[-> Hno]|(p & Hstart & Hne & Hrun & Hno)].
  - replace (length (pre ++ start) - length start)%nat with (length pre) by (rewrite length_app; lia).
    split; [rewrite length_app; lia|]. split.
    + apply run_utf8. rewrite take_app_length, <- (app_nil_r pre). apply Hpre.
    + intros m Hm Hu. apply run_utf8 in Hu. rewrite take_app_ge, Hpre in Hu by lia.
      apply (Hno (take (m - length pre) start) (drop (m - length pre) start)) in Hu; [done|by rewrite take_drop|].
      intros Hnil. apply (f_equal length) in Hnil. rewrite length_take in Hnil. rewrite length_app in Hm. simpl in Hnil. lia.
  - set (rest := last_valid_loop _ _ _ _) in *. clearbody rest.
    replace (length (pre ++ start) - length rest)%nat with (length pre + length p)%nat
      by (rewrite Hstart, !length_app; lia).
    split; [rewrite Hstart, !length_app; lia|]. split.
    + apply run_utf8. rewrite take_app_ge, Hpre by lia. replace (_ - _)%nat with (length p) by lia.
      by rewrite Hstart, take_app_length.
    + intros m Hm Hu. apply run_utf8 in Hu. rewrite take_app_ge, Hpre in Hu by lia.
      apply (Hno (take (m - length pre) start) (drop (m - length pre) start)) in Hu; [done|by rewrite take_drop|].
      rewrite length_take. rewrite length_app in Hm. lia.
Qed.

(** ** The properties *)

(** C21: svn_utf__is_valid accepts exactly the sequences of UTF-8 encodings
    of Unicode scalar values, and both svn_utf__last_valid and
    svn_utf__last_valid2 return the longest valid prefix, with the word-at-
    a-time scan of the ASCII part, on builds with unaligned access and, on
    the others, for texts at an aligned address; for texts at another
    address either the same holds or all three of them read a word at an
    address that is not aligned (the outcome is Undefined).
    svn_utf__cstring_is_valid accepts exactly such sequences at any address,
    when the seven bytes after the NUL, which its word reads may cover, can
    be read. *)
Theorem svn_utf__is_valid_spec (unaligned : bool) (addr : Z) (data s after : list byte) :
  NUL ∉ s → (7 <= length after)%nat →
  let last_valids := (svn_utf__last_valid unaligned addr data, svn_utf__last_valid2 unaligned addr data) in
  (unaligned = true ∨ misaligned addr = 0 → svn_utf__is_valid unaligned addr data ≠ Undefined)
  ∧ ((svn_utf__is_valid unaligned addr data = Undefined ∧ last_valids = (Undefined, Undefined))
     ∨ ∃ valid n, svn_utf__is_valid unaligned addr data = Ok valid ∧ (valid = true ↔ utf8 data)
         ∧ last_valids = (Ok n, Ok n) ∧ longest_valid data n)
  ∧ (∃ valid, svn_utf__cstring_is_valid addr (s ++ NUL :: after) = Ok valid ∧ (valid = true ↔ utf8 s)).
Proof.
  intros Hs Hafter.
  unfold svn_utf__is_valid, svn_utf__cstring_is_valid, svn_utf__last_valid, svn_utf__last_valid2.
  split; [|split].
  - intros Hal. by rewrite first_non_fsm_start_char_ok.
  - destruct (first_non_fsm_start_char_any unaligned addr data) as [-> | ->]; [right|by left]. cbn [rbind].
    eexists _, _. split; [done|]. rewrite bool_decide_eq_true, run_after_ascii. split; [apply run_utf8|].
    rewrite last_valid2_loop_ok. split; [done|]. apply last_valid_longest.
  - rewrite first_non_fsm_start_char_cstring_ok by (by exists s, NUL, after). cbn [rbind].
    destruct (after_ascii_cstring_string s after Hs) as [-> Hn]. rewrite run_cstring_ok by done. cbn [rbind].
    eexists. split; [done|]. rewrite bool_decide_eq_true, run_after_ascii. apply run_utf8.
Qed.

Lemma svn_utf__is_valid_spec_witness :
  let data := [x61; xe2; x82; xac; xf0; x9f; x98] in
  ∃ n, svn_utf__last_valid true 3 data = Ok n ∧ longest_valid data n.
Proof.
  intros data.
  destruct (svn_utf__is_valid_spec true 3 data [x61; xc3; xa9] (repeat x2a 7))
    as (Hdef & [[Hundef _]|(valid & n & _ & _ & Hn & Hl)] & _).
  - apply (bool_decide_unpack _). vm_compute. reflexivity.
  - vm_compute. lia.
  - destruct (Hdef (or_introl eq_refl) Hundef).
  - exists n. split; [congruence|exact Hl].
Defined.

(** Where words must be aligned, the bytes that are scanned first end one short of
    the aligned address. *)
Lemma first_non_fsm_start_char_misaligned :
  first_non_fsm_start_char false 1 (repeat x61 32) = Undefined
  ∧ first_non_fsm_start_char false 7 (repeat x61 32) = Undefined.
Proof. by split. Qed.
