(* ===== verification/Skel.v ===== *)
(** * Skeletons

    [src/subversion/libsvn_subr/skel.c]: trees of byte strings and their text.  A
    skel is an atom or a list; the pointers [data] and [next] of the code are the
    bytes and the tails of lists.  The [data] of a list is the text it was parsed
    from, and empty when the list was built.  The input is a buffer with a length: a pointer into it is the rest of
    the input. *)
From S2P Require Import Prelude Numbers Cstrings.

Inductive svn_skel_t :=
  | Atom (data : list byte)
  | SkelList (data : list byte) (children : list svn_skel_t).

(** Induction that goes into the lists. *)
Section SkelInduction.
Context (P : svn_skel_t → Prop) (Hatom : ∀ data, P (Atom data))
  (Hlist : ∀ data children, Forall P children → P (SkelList data children)).

Fixpoint skel_ind (skel : svn_skel_t) : P skel :=
  match skel with
  | Atom data => Hatom data
  | SkelList data children =>
      Hlist data children
        ((fix go (l : list svn_skel_t) : Forall P l :=
            match l with
            | [] => Forall_nil_2 P
            | x :: l => Forall_cons_2 P x l (skel_ind x) (go l)
            end) children)
  end.
End SkelInduction.

Definition skel_data (skel : svn_skel_t) : list byte :=
  match skel with Atom data | SkelList data _ => data end.

(** ** Characters *)

Inductive char_type := type_nothing | type_space | type_digit | type_paren | type_name.

#[global] Instance char_type_eq_dec : EqDecision char_type.
Proof. solve_decision. Defined.

(** The table [skel_char_type], a line of it at a time. *)
Definition skel_char_table : list Z :=
  [0; 0; 0; 0; 0; 0; 0; 0;   0; 1; 1; 0; 1; 1; 0; 0;
   0; 0; 0; 0; 0; 0; 0; 0;   0; 0; 0; 0; 0; 0; 0; 0;
   1; 0; 0; 0; 0; 0; 0; 0;   3; 3; 0; 0; 0; 0; 0; 0;
   2; 2; 2; 2; 2; 2; 2; 2;   2; 2; 0; 0; 0; 0; 0; 0;
   0; 4; 4; 4; 4; 4; 4; 4;   4; 4; 4; 4; 4; 4; 4; 4;
   4; 4; 4; 4; 4; 4; 4; 4;   4; 4; 4; 3; 0; 3; 0; 0;
   0; 4; 4; 4; 4; 4; 4; 4;   4; 4; 4; 4; 4; 4; 4; 4;
   4; 4; 4; 4; 4; 4; 4; 4;   4; 4; 4; 0; 0; 0; 0; 0].

(** The other half of the table is zero. *)
Definition skel_char_type (c : byte) : char_type :=
  match default 0 (skel_char_table !! Z.to_nat (byte_val c)) with
  | 1 => type_space
  | 2 => type_digit
  | 3 => type_paren
  | 4 => type_name
  | _ => type_nothing
  end.

Definition is_type (type : char_type) (c : byte) : bool := bool_decide (skel_char_type c = type).

(** ** Parsing *)

(** The number at [data] and what follows it; [i] digits have been read. *)
Fixpoint getsize_loop (data : list byte) (max_prefix max_digit i value : Z) : option (Z * list byte) :=
  match data with
  | c :: rest =>
      if isdigit c then
        let digit := byte_val c - 48 in
        if (max_prefix <? value) || ((value =? max_prefix) && (max_digit <? digit)) then None
        else getsize_loop rest max_prefix max_digit (i + 1) (u64 (value * 10 + digit))
      else if i =? 0 then None else Some (value, data)
  | [] => if i =? 0 then None else Some (value, data)
  end.

Definition getsize (data : list byte) (max : Z) : option (Z * list byte) :=
  getsize_loop data (max / 10) (max mod 10) 0 0.

Definition in_atom (c : byte) : bool := negb (is_type type_space c) && negb (is_type type_paren c).

(** The bytes up to the first that does not meet [p], and the rest. *)
Fixpoint split_while (p : byte → bool) (data : list byte) : list byte * list byte :=
  match data with
  | [] => ([], [])
  | c :: rest =>
      if p c then let '(l, rest) := split_while p rest in (c :: l, rest) else ([], data)
  end.

(** A null skel is [None]. *)
Definition implicit_atom (data : list byte) : option (svn_skel_t * list byte) :=
  match data with
  | c :: rest =>
      if is_type type_name c then
        let '(l, rest) := split_while in_atom rest in Some (Atom (c :: l), rest)
      else None
  | [] => None
  end.

Definition explicit_atom (data : list byte) : option (svn_skel_t * list byte) :=
  match getsize data (Z.of_nat (length data)) with
  | None => None
  | Some (size, data) =>
      match data with
      | c :: data =>
          if is_type type_space c then
            if Z.of_nat (length data) <? size then None
            else Some (Atom (take (Z.to_nat size) data), drop (Z.to_nat size) data)
          else None
      | [] => None
      end
  end.

(** [parse] and the loop of [list], whose text begins at [list_start] and which has
    read [children], the last first.  Each call and each round reads at least a byte. *)
Fixpoint parse (fuel : nat) (data : list byte) : result (option (svn_skel_t * list byte)) :=
  match fuel with
  | O => OutOfFuel
  | S fuel =>
      match data with
      | [] => Ok None
      | c :: rest =>
          if c =b? "("%byte then list_loop fuel data rest []
          else if is_type type_name c then Ok (implicit_atom data)
          else Ok (explicit_atom data)
      end
  end
with list_loop (fuel : nat) (list_start data : list byte) (children : list svn_skel_t)
    : result (option (svn_skel_t * list byte)) :=
  match fuel with
  | O => OutOfFuel
  | S fuel =>
      let data := skip_while (is_type type_space) data in
      match data with
      | [] => Ok None
      | c :: rest =>
          if c =b? ")"%byte then Ok (Some (SkelList (take (length list_start - length rest) list_start) (reverse children), rest))
          else
            let! element := parse fuel data in
            match element with
            | None => Ok None
            | Some (element, data) => list_loop fuel list_start data (element :: children)
            end
      end
  end.

(** The rest of the input is not looked at. *)
Definition svn_skel__parse (data : list byte) : result (option svn_skel_t) :=
  let! parsed := parse (S (2 * length data)) data in Ok (fst <$> parsed).

(** ** Unparsing *)

Definition use_implicit (data : list byte) : bool :=
  match data with
  | [] => false
  | c :: rest =>
      negb (100 <=? Z.of_nat (length data)) && is_type type_name c && forallb in_atom rest
  end.

(** Appends to [str]. *)
Definition unparse_atom (data str : list byte) : result (list byte) :=
  if use_implicit data then Ok (str ++ data)
  else
    let! buf := svn__ui64toa (Z.of_nat (length data)) in
    assert! (0 <? length buf)%nat in
    Ok (str ++ buf ++ " "%byte :: data).

Fixpoint unparse (skel : svn_skel_t) (str : list byte) : result (list byte) :=
  match skel with
  | Atom data => unparse_atom data str
  | SkelList _ children =>
      let! str :=
        (fix go (children : list svn_skel_t) (str : list byte) : result (list byte) :=
           match children with
           | [] => Ok str
           | child :: next =>
               let! str := unparse child str in
               go next (match next with [] => str | _ => str ++ [" "%byte] end)
           end) children (str ++ ["("%byte]) in
      Ok (str ++ [")"%byte])
  end.

Definition svn_skel__unparse (skel : svn_skel_t) : result (list byte) := unparse skel [].

(** ** Building and examining *)

(** A C string has no NUL; [svn_skel__mem_atom] takes any bytes. *)
Definition svn_skel__str_atom (str : list byte) : svn_skel_t := Atom str.
Definition svn_skel__mem_atom (addr : list byte) : svn_skel_t := Atom addr.
Definition svn_skel__make_empty_list : svn_skel_t := SkelList [] [].

(** The copy of a skel and of those after it in its list, which are its tail here.
    When the data is copied, that of a list is not. *)
Fixpoint svn_skel__dup (src_skel : svn_skel_t) (dup_data : bool) : svn_skel_t :=
  match src_skel with
  | Atom data => Atom data
  | SkelList data children =>
      SkelList (if dup_data then [] else data) (map (λ child, svn_skel__dup child dup_data) children)
  end.

Definition svn_skel__prepend (skel list_skel : svn_skel_t) : result svn_skel_t :=
  match list_skel with
  | Atom _ => Aborted
  | SkelList data children => Ok (SkelList data (skel :: children))
  end.

Definition svn_skel__prepend_str (value : list byte) (skel : svn_skel_t) : result svn_skel_t :=
  svn_skel__prepend (svn_skel__str_atom value) skel.

Definition svn_skel__prepend_int (value : Z) (skel : svn_skel_t) : result svn_skel_t :=
  let! val_string := svn__i64toa value in svn_skel__prepend_str val_string skel.

Definition svn_skel__append (list_skel skel : svn_skel_t) : result svn_skel_t :=
  match list_skel with
  | Atom _ => Aborted
  | SkelList data children => Ok (SkelList data (children ++ [skel]))
  end.

(** A null skel is [None]. *)
Definition svn_skel__matches_atom (skel : option svn_skel_t) (str : list byte) : bool :=
  match skel with
  | Some (Atom data) => bool_decide (data = str)
  | _ => false
  end.

Definition svn_skel__list_length (skel : option svn_skel_t) : Z :=
  match skel with
  | Some (SkelList _ children) => Z.of_nat (length children)
  | _ => -1
  end.

Definition svn_skel__parse_int `{AprStrtoi64} (skel : svn_skel_t) : result Z :=
  svn_cstring_atoi64 (cstring (skel_data skel)).

(** ** Property lists *)

Definition is_atom (skel : svn_skel_t) : bool := match skel with Atom _ => true | _ => false end.

Definition is_valid_proplist_skel (skel : svn_skel_t) : bool :=
  let len := svn_skel__list_length (Some skel) in
  (0 <=? len) && (Z.land len 1 =? 0)
  && match skel with SkelList _ children => forallb is_atom children | Atom _ => false end.

(** [elt->next->data] of a last child would be an access through a null
    pointer. *)
Fixpoint parse_proplist_loop (children : list svn_skel_t) (proplist : gmap (list byte) (list byte))
    : result (gmap (list byte) (list byte)) :=
  match children with
  | [] => Ok proplist
  | name :: value :: next =>
      parse_proplist_loop next (<[skel_data name := skel_data value]> proplist)
  | _ => Undefined
  end.

Definition svn_skel__parse_proplist (skel : svn_skel_t) : result (gmap (list byte) (list byte)) :=
  if is_valid_proplist_skel skel then
    match skel with
    | SkelList _ children => parse_proplist_loop children ∅
    | Atom _ => Undefined
    end
  else Error SVN_ERR_FS_MALFORMED_SKEL.

Fixpoint parse_prop_loop (children : list svn_skel_t) (propname : list byte)
    : result (option (list byte)) :=
  match children with
  | [] => Ok None
  | name :: value :: next =>
      if bool_decide (skel_data name = propname) then Ok (Some (skel_data value)) else parse_prop_loop next propname
  | _ => Undefined
  end.

Definition svn_skel__parse_prop (skel : svn_skel_t) (propname : list byte)
    : result (option (list byte)) :=
  if is_valid_proplist_skel skel then
    match skel with
    | SkelList _ children => parse_prop_loop children propname
    | Atom _ => Undefined
    end
  else Error SVN_ERR_FS_MALFORMED_SKEL.

(** The value and then the name of each entry are prepended. *)
Fixpoint unparse_proplist_loop (entries : list (list byte * list byte)) (skel : svn_skel_t)
    : result svn_skel_t :=
  match entries with
  | [] => Ok skel
  | (key, value) :: entries =>
      let! skel := svn_skel__prepend (svn_skel__mem_atom value) skel in
      let! skel := svn_skel__prepend (svn_skel__mem_atom key) skel in
      unparse_proplist_loop entries skel
  end.

(** A null hash is [None]; the order of iteration is that of the map. *)
Definition svn_skel__unparse_proplist (proplist : option (gmap (list byte) (list byte)))
    : result svn_skel_t :=
  let! skel :=
    match proplist with
    | None => Ok svn_skel__make_empty_list
    | Some proplist => unparse_proplist_loop (map_to_list proplist) svn_skel__make_empty_list
    end in
  if is_valid_proplist_skel skel then Ok skel else Error SVN_ERR_FS_MALFORMED_SKEL.

Example skel_example :
  svn_skel__parse (String.list_byte_of_string "( abc 3 (x) () 12 " ++ String.list_byte_of_string "123456789012)tail")
  = Ok (Some (SkelList (String.list_byte_of_string "( abc 3 (x) () 12 123456789012)")
                       [Atom (String.list_byte_of_string "abc"); Atom (String.list_byte_of_string "(x)");
                        SkelList (String.list_byte_of_string "()") []; Atom (String.list_byte_of_string "123456789012")])).
Proof. vm_compute. reflexivity. Qed.
