(* ===== verification/SkelCorrect.v ===== *)
(** * Properties of skeletons

    Parsing inverts unparsing, and what was parsed can be unparsed. *)
From S2P Require Import Prelude Numbers Skel.

(** ** The text of a skel *)

Definition atom_text (data : list byte) : list byte :=
  if use_implicit data then data
  else decimal 20 (Z.of_nat (length data)) ++ " "%byte :: data.

(** Texts with a space between two of them. *)
Fixpoint spaced (texts : list (list byte)) : list byte :=
  match texts with
  | [] => []
  | [text] => text
  | text :: texts => text ++ " "%byte :: spaced texts
  end.

Fixpoint skel_text (skel : svn_skel_t) : list byte :=
  match skel with
  | Atom data => atom_text data
  | SkelList _ children => "("%byte :: spaced (map skel_text children) ++ [")"%byte]
  end.

(** The lengths of the atoms are 64-bit numbers. *)
Fixpoint fits (skel : svn_skel_t) : Prop :=
  match skel with
  | Atom data => Z.of_nat (length data) < 0x10000000000000000
  | SkelList _ children =>
      (fix go (l : list svn_skel_t) : Prop :=
         match l with [] => True | x :: l => fits x ∧ go l end) children
  end.

(** A skel with the text of each of its lists. *)
Fixpoint with_text (skel : svn_skel_t) : svn_skel_t :=
  match skel with
  | Atom data => Atom data
  | SkelList _ children => SkelList (skel_text skel) (map with_text children)
  end.

Lemma fits_list data children : fits (SkelList data children) ↔ Forall fits children.
Proof.
  cbn [fits]. induction children as [|x l IH]; [done|]. rewrite Forall_cons, IH. done.
Qed.

(** ** Unparsing *)

Lemma unparse_text skel str : fits skel → unparse skel str = Ok (str ++ skel_text skel).
Proof.
  revert str; induction skel as [data|data children IH] using skel_ind; intros str Hfits.
  - cbn [unparse skel_text]. unfold unparse_atom, atom_text. destruct (use_implicit data); [done|].
    cbn [fits] in Hfits. rewrite svn__ui64toa_ok by lia. cbn [rbind].
    set (n := Z.of_nat (length data)).
    assert (decimal 20 n = (if n <? 10 then [] else decimal 19 (n / 10)) ++ [digit (n mod 10)]) as -> by done.
    rewrite (proj2 (Nat.ltb_lt 0 _)) by (rewrite length_app; cbn [length]; lia). by rewrite <- !app_assoc.
  - apply fits_list in Hfits. cbn [unparse skel_text]. 
    match goal with |- context [?f children (str ++ _)] => set (go := f) end.
    assert (∀ l str, Forall (λ skel, ∀ str, fits skel → unparse skel str = Ok (str ++ skel_text skel)) l →
      Forall fits l → go l str = Ok (str ++ spaced (map skel_text l))) as Hgo.
    { clear -go. induction l as [|child l IH]; intros str Hl Hfits; [by rewrite app_nil_r|].
      apply Forall_cons in Hl as [Hchild Hl]. apply Forall_cons in Hfits as [Hf Hfits].
      cbn [go]. rewrite Hchild by done. cbn [rbind]. destruct l as [|child' l].
      { rewrite IH by done. cbn [map spaced]. by rewrite app_nil_r. }
      rewrite IH by done. cbn [map spaced]. by rewrite <- !app_assoc. }
    rewrite Hgo by done. cbn [rbind]. by rewrite <- !app_assoc.
Qed.

(** ** Parsing *)

Lemma split_while_app p l rest :
  forallb p l = true → match rest with c :: _ => p c = false | [] => True end →
  split_while p (l ++ rest) = (l, rest).
Proof.
  intros Hl Hrest. induction l as [|c l IH]; cbn [app split_while].
  - destruct rest as [|c rest]; [done|]. cbn [split_while]. by rewrite Hrest.
  - apply andb_prop in Hl as [Hc Hl]. by rewrite Hc, IH.
Qed.

(** Reading the digits of a number that is not too large. *)
Lemma getsize_decimal fuel n max rest i :
  0 <= n < 10 ^ Z.of_nat fuel → n <= max → max < 0x10000000000000000 → 0 <= i →
  ∃ i', getsize_loop (decimal fuel n ++ rest) (max / 10) (max mod 10) i 0
        = getsize_loop rest (max / 10) (max mod 10) i' n
    ∧ i <= i' ∧ (fuel ≠ 0%nat → i < i').
Proof.
  revert n rest; induction fuel as [|fuel IH]; intros n rest Hn Hmax Hbig Hi.
  { exists i. change (10 ^ Z.of_nat 0) with 1 in Hn. replace n with 0 by lia. split; [done|]. split; [lia|done]. }
  rewrite Nat2Z.inj_succ, Z.pow_succ_r in Hn by lia. cbn [decimal]. rewrite <- app_assoc. cbn [app].
  destruct (digit_spec (n mod 10)) as [Hd Hv]; [div_lia|].
  assert (∀ i, 0 <= i → ∃ i', i < i' ∧
    getsize_loop (digit (n mod 10) :: rest) (max / 10) (max mod 10) i (n / 10)
    = getsize_loop rest (max / 10) (max mod 10) i' n) as Hlast.
  { intros j Hj. exists (j + 1). split; [lia|]. cbn [getsize_loop]. rewrite Hd, Hv.
    assert ((max / 10 <? n / 10) || ((n / 10 =? max / 10) && (max mod 10 <? n mod 10)) = false) as ->
      by div_lia.
    f_equal. rewrite u64_small by div_lia. div_lia. }
  destruct (Z.ltb_spec n 10) as [Hs|Hl].
  - destruct (Hlast i Hi) as (i' & Hi' & Heq). exists i'. cbn [app]. replace (n / 10) with 0 in Heq by div_lia.
    split; [done|]. lia.
  - destruct (IH (n / 10) (digit (n mod 10) :: rest)) as (i1 & -> & Hi1 & _); [div_lia|div_lia|done|done|].
    destruct (Hlast i1) as (i' & Hi' & Heq); [lia|]. exists i'. split; [done|]. lia.
Qed.

Lemma getsize_ok n max rest :
  0 <= n <= max → max < 0x10000000000000000 →
  match rest with c :: _ => isdigit c = false | [] => True end →
  getsize (decimal 20 n ++ rest) max = Some (n, rest).
Proof.
  intros Hn Hmax Hrest. unfold getsize.
  destruct (getsize_decimal 20 n max rest 0) as (i & -> & _ & Hi); [|lia|done|lia|].
  { change (10 ^ Z.of_nat 20) with 100000000000000000000. lia. }
  specialize (Hi ltac:(done)). destruct rest as [|c rest]; cbn [getsize_loop]; [|rewrite Hrest]; by if_false by lia.
Qed.

(** What may follow an atom. *)
Definition ends_atom (rest : list byte) : Prop :=
  match rest with c :: _ => in_atom c = false | [] => True end.

Lemma char_facts c :
  (isdigit c = true → is_type type_name c = false ∧ c ≠ "("%byte ∧ is_type type_space c = false ∧ c ≠ ")"%byte)
  ∧ (is_type type_name c = true → c ≠ "("%byte ∧ is_type type_space c = false ∧ c ≠ ")"%byte)
  ∧ (in_atom c = false → isdigit c = false).
Proof. by destruct c. Qed.

(** The first byte of a text. *)
Definition starts (text : list byte) : Prop :=
  ∃ c s, text = c :: s ∧ is_type type_space c = false ∧ c ≠ ")"%byte.

Lemma use_implicit_spec data :
  use_implicit data = true →
  ∃ c rest, data = c :: rest ∧ is_type type_name c = true ∧ forallb in_atom rest = true.
Proof.
  unfold use_implicit. destruct data as [|c rest]; [done|].
  intros [[_ Hc]%andb_prop Hrest]%andb_prop. by exists c, rest.
Qed.

Lemma skel_text_starts skel : starts (skel_text skel).
Proof.
  destruct skel as [data|data children]; [|by eexists _, _]. cbn [skel_text]. unfold atom_text.
  destruct (use_implicit data) eqn:Himp.
  - apply use_implicit_spec in Himp as (c & rest & -> & Hc & _). exists c, rest. split; [done|].
    by apply (char_facts c) in Hc as (_ & ? & ?).
  - destruct (decimal_head (Z.of_nat (length data)) (Nat2Z.is_nonneg _)) as (c & s & -> & Hc).
    eexists c, _. split; [done|]. by apply (char_facts c) in Hc as (_ & _ & ? & ?).
Qed.

Lemma parse_atom fuel data rest :
  Z.of_nat (length (atom_text data ++ rest)) < 0x10000000000000000 → ends_atom rest →
  parse (S fuel) (atom_text data ++ rest) = Ok (Some (Atom data, rest)).
Proof.
  unfold atom_text. intros Hfits Hrest. destruct (use_implicit data) eqn:Himp.
  - apply use_implicit_spec in Himp as (c & l & -> & Hc & Hl). cbn [app parse].
    apply (char_facts c) in Hc as Hfacts. destruct Hfacts as (Hp & _ & _).
    rewrite (proj2 (byte_eqb_ne _ _) Hp), Hc. unfold implicit_atom. rewrite Hc.
    by rewrite split_while_app.
  - destruct (decimal_head (Z.of_nat (length data)) (Nat2Z.is_nonneg _)) as (c & s & Hdec & Hc).
    set (text := (_ ++ _) ++ rest) in *.
    assert (text = decimal 20 (Z.of_nat (length data)) ++ " "%byte :: data ++ rest) as Htext
      by (unfold text; by rewrite <- app_assoc).
    assert (explicit_atom text = Some (Atom data, rest)) as Hexp.
    { unfold explicit_atom. rewrite Htext at 1. rewrite getsize_ok; [| |lia|done].
      - change (is_type type_space " "%byte) with true. cbn iota.
        rewrite (proj2 (Z.ltb_ge _ _)) by (rewrite length_app; lia).
        by rewrite Nat2Z.id, take_app_length, drop_app_length.
      - rewrite Htext, !length_app. cbn [length]. rewrite length_app. lia. }
    clearbody text. rewrite Hdec in Htext. rewrite Htext in *. cbn [app parse].
    apply (char_facts c) in Hc as (Hn & Hp & _). rewrite (proj2 (byte_eqb_ne _ _) Hp), Hn. by f_equal.
Qed.

Lemma skip_nothing text rest :
  starts text → skip_while (is_type type_space) (text ++ rest) = text ++ rest.
Proof. intros (c & s & -> & Hc & _). cbn [app skip_while]. by rewrite Hc. Qed.

(** Parsing the text of a skel reads it and stops. *)
Lemma parse_text skel fuel rest :
  Z.of_nat (length (skel_text skel ++ rest)) < 0x10000000000000000 → ends_atom rest →
  (2 * length (skel_text skel ++ rest) < fuel)%nat →
  parse fuel (skel_text skel ++ rest) = Ok (Some (with_text skel, rest)).
Proof.
  revert fuel rest; induction skel as [data|data children IH] using skel_ind; intros fuel rest Hfits Hrest Hfuel.
  { destruct fuel as [|fuel]; [lia|]. by apply parse_atom. }
  destruct fuel as [|fuel]; [lia|]. cbn [skel_text] in *. rewrite <- app_comm_cons in *.
  set (start := "("%byte :: (_ ++ _) ++ rest).
  change (list_loop fuel start ((spaced (map skel_text children) ++ [")"%byte]) ++ rest) []
    = Ok (Some (SkelList (skel_text (SkelList data children)) (map with_text children), rest))).
  assert (take (length start - length rest) start = skel_text (SkelList data children)) as Hstart.
  { unfold start. rewrite app_comm_cons, length_app, Nat.add_sub. apply take_app_length. }
  clearbody start. cbn [length] in *. rewrite <- app_assoc in *. cbn [app] in *.
  assert (∀ acc, list_loop fuel start (spaced (map skel_text children) ++ ")"%byte :: rest) acc
    = Ok (Some (SkelList (take (length start - length rest) start) (reverse acc ++ map with_text children), rest)))
    as Hloop; [|rewrite <- Hstart; apply (Hloop [])]. clear Hstart.
  clear Hrest. revert fuel Hfuel. induction IH as [|child children Hchild _ IH]; intros fuel Hfuel acc;
    (destruct fuel as [|fuel]; [lia|]).
  { cbn. by rewrite app_nil_r. }
  assert (∃ next, spaced (map skel_text (child :: children)) ++ ")"%byte :: rest = skel_text child ++ next
    ∧ ends_atom next
    ∧ ∀ fuel acc, (2 * length next + 2 <= fuel)%nat →
        list_loop fuel start next acc
        = Ok (Some (SkelList (take (length start - length rest) start) (reverse acc ++ map with_text children), rest)))
    as (next & Hnext & Hends & Hloop).
  { destruct children as [|child' children].
    - exists (")"%byte :: rest). split; [done|]. split; [done|]. intros fuel' acc' Hf.
      destruct fuel' as [|fuel']; [lia|]. cbn. by rewrite app_nil_r.
    - exists (" "%byte :: spaced (map skel_text (child' :: children)) ++ ")"%byte :: rest).
      split; [cbn [map spaced]; by rewrite <- app_assoc|]. split; [done|]. intros fuel' acc' Hf.
      destruct fuel' as [|fuel']; [lia|]. cbn [length] in Hf.
      transitivity (list_loop (S fuel') start (spaced (map skel_text (child' :: children)) ++ ")"%byte :: rest) acc').
      { done. }
      assert (length (spaced (map skel_text (child :: child' :: children)))
        = (length (skel_text child) + S (length (spaced (map skel_text (child' :: children)))))%nat) as Hl
        by (cbn [map spaced]; by rewrite length_app).
      apply IH; rewrite ?length_app in *; cbn [length] in *; lia. }
  rewrite Hnext in *. rewrite length_app in *.
  pose proof (skel_text_starts child) as Hstarts. cbn [list_loop]. rewrite skip_nothing by done.
  assert (skel_text child ++ next ≠ []) as Hne by (by destruct Hstarts as (? & ? & -> & _)).
  destruct (skel_text child ++ next) as [|c l] eqn:Heq; [done|].
  assert (c =b? ")"%byte = false) as ->.
  { destruct Hstarts as (c' & s & Htext & _ & Hc). rewrite Htext in Heq. injection Heq as -> _.
    by apply byte_eqb_ne. }
  rewrite <- Heq. assert (0 < length (skel_text child))%nat by (by destruct Hstarts as (? & ? & -> & _); simpl; lia).
  rewrite Hchild; [|rewrite length_app; lia|done|rewrite length_app; lia]. cbn [rbind].
  rewrite Hloop by lia. by rewrite reverse_cons, <- app_assoc.
Qed.

(** ** What the parser returns *)

(** The end of a call on [n] bytes: it reads at least [least] of them, and the
    atoms are no longer than the input. *)
Definition parsed_ok (n least : nat) (parsed : option (svn_skel_t * list byte)) : Prop :=
  match parsed with
  | None => True
  | Some (skel, rest) =>
      (least + length rest <= n)%nat ∧ (Z.of_nat n < 0x10000000000000000 → fits skel)
  end.

Lemma getsize_loop_rest data mp md i value size rest :
  getsize_loop data mp md i value = Some (size, rest) →
  (length rest <= length data)%nat ∧ (i = 0 → (length rest < length data)%nat).
Proof.
  revert i value; induction data as [|c data IH]; intros i value; cbn [getsize_loop].
  - destruct (Z.eqb_spec i 0); [done|]. intros [= _ <-]. split; [done|lia].
  - destruct (isdigit c).
    + case_if; [done|]. intros [Hl _]%IH. cbn [length]. lia.
    + destruct (Z.eqb_spec i 0); [done|]. intros [= _ <-]. split; [done|lia].
Qed.

Lemma split_while_length p data l rest :
  split_while p data = (l, rest) → length data = (length l + length rest)%nat.
Proof.
  revert l rest; induction data as [|c data IH]; intros l rest; cbn [split_while]; [by intros [= <- <-]|].
  destruct (p c); [|by intros [= <- <-]]. destruct (split_while p data) as [l' rest'] eqn:Hs.
  intros [= <- <-]. cbn [length]. by rewrite (IH _ _ eq_refl).
Qed.

Lemma atoms_ok data : parsed_ok (length data) 1 (implicit_atom data) ∧ parsed_ok (length data) 1 (explicit_atom data).
Proof.
  split.
  - destruct data as [|c data]; [done|]. unfold implicit_atom. case_if; [|done].
    destruct (split_while in_atom data) as [l rest] eqn:Hs. apply split_while_length in Hs.
    unfold parsed_ok. cbn [length fits] in *. lia.
  - unfold explicit_atom. destruct (getsize data _) as [[size rest]|] eqn:Hg; [|done].
    apply getsize_loop_rest in Hg as [_ Hl]. specialize (Hl eq_refl).
    destruct rest as [|c rest]; [done|]. case_if; [|done]. destruct (Z.ltb_spec (Z.of_nat (length rest)) size); [done|].
    unfold parsed_ok. cbn [fits length] in *. rewrite length_take, length_drop. lia.
Qed.

Lemma parse_total fuel :
  (∀ data, (2 * length data < fuel)%nat →
     ∃ parsed, parse fuel data = Ok parsed ∧ parsed_ok (length data) 1 parsed)
  ∧ (∀ start data children, (2 * length data + 1 < fuel)%nat →
     ∃ parsed, list_loop fuel start data children = Ok parsed
       ∧ match parsed with
         | None => True
         | Some (skel, rest) =>
             (1 + length rest <= length data)%nat
             ∧ (Z.of_nat (length data) < 0x10000000000000000 → Forall fits children → fits skel)
         end).
Proof.
  induction fuel as [|fuel [IHparse IHlist]]; [split; intros; lia|]. split.
  - intros data Hfuel. destruct data as [|c data]; [by exists None|]. cbn [parse].
    destruct (c =b? "("%byte).
    + cbn [length] in *. destruct (IHlist (c :: data) data []) as (parsed & -> & Hp); [lia|]. exists parsed. split; [done|].
      destruct parsed as [[skel rest]|]; [|done]. destruct Hp as [Hl Hf]. unfold parsed_ok.
      split; [lia|]. intros. apply Hf; [lia|done].
    + destruct (atoms_ok (c :: data)) as [Himp Hexp].
      case_if; eexists; (split; [done|done]).
  - intros start data children Hfuel. cbn [list_loop].
    pose proof (skip_while_length (is_type type_space) data) as Hskip.
    destruct (skip_while (is_type type_space) data) as [|c rest] eqn:Hs; [by exists None|].
    destruct (c =b? ")"%byte).
    + eexists. split; [done|]. cbn [length] in Hskip. split; [lia|]. intros _ Hf. apply fits_list.
      by rewrite reverse_Permutation.
    + destruct (IHparse (c :: rest)) as (parsed & -> & Hp); [lia|]. cbn [rbind].
      destruct parsed as [[element data']|]; [|by exists None]. destruct Hp as [Hl Hf].
      destruct (IHlist start data' (element :: children)) as (parsed & -> & Hp'); [lia|]. exists parsed.
      split; [done|]. destruct parsed as [[skel rest']|]; [|done]. destruct Hp' as [Hl' Hf'].
      split; [lia|]. intros. apply Hf'; [lia|]. constructor; [apply Hf; lia|done].
Qed.

(** ** Property lists *)

Fixpoint entries_of (entries : list (list byte * list byte)) : list svn_skel_t :=
  match entries with
  | [] => []
  | (key, value) :: entries => Atom key :: Atom value :: entries_of entries
  end.

Lemma entries_of_app a b : entries_of (a ++ b) = entries_of a ++ entries_of b.
Proof. induction a as [|[k v] a IH]; [done|]. cbn [app entries_of]. by rewrite IH. Qed.

Lemma unparse_proplist_loop_ok entries data children :
  unparse_proplist_loop entries (SkelList data children)
  = Ok (SkelList data (entries_of (reverse entries) ++ children)).
Proof.
  revert children; induction entries as [|[k v] entries IH]; intros children; [done|].
  cbn [unparse_proplist_loop svn_skel__prepend rbind svn_skel__mem_atom]. rewrite IH.
  by rewrite reverse_cons, entries_of_app, <- app_assoc.
Qed.

Lemma valid_proplist data entries : is_valid_proplist_skel (SkelList data (entries_of entries)) = true.
Proof.
  unfold is_valid_proplist_skel. cbn [svn_skel__list_length].
  assert (∃ n, length (entries_of entries) = (2 * n)%nat ∧ forallb is_atom (entries_of entries) = true)
    as (n & Hn & ->).
  { induction entries as [|[k v] entries (n & Hn & Hf)]; [by exists 0%nat|]. exists (S n).
    cbn [entries_of length forallb is_atom andb]. split; [lia|done]. }
  rewrite Hn, (proj2 (Z.leb_le 0 _)), andb_true_r by lia. cbn [andb].
  change 1 with (Z.ones 1). rewrite Z.land_ones by lia. change (2 ^ 1) with 2.
  replace (Z.of_nat (2 * n)) with (Z.of_nat n * 2) by lia. by rewrite Z.mod_mul.
Qed.

Lemma parse_proplist_loop_ok entries proplist :
  NoDup entries.*1 → (∀ k v, (k, v) ∈ entries → proplist !! k = None) →
  parse_proplist_loop (entries_of entries) proplist = Ok (list_to_map entries ∪ proplist).
Proof.
  revert proplist; induction entries as [|[k v] entries IH]; intros proplist Hnd Hnew.
  { cbn. f_equal. by rewrite (left_id_L ∅ (∪)). }
  apply NoDup_cons in Hnd as [Hk Hnd]. cbn [entries_of parse_proplist_loop skel_data list_to_map fst snd] in *.
  cbn [list_to_map foldr curry fst snd].
  rewrite IH; [|done|].
  - f_equal. change (list_to_map ((k, v) :: entries)) with (<[k := v]> (list_to_map entries : gmap _ _)).
    rewrite <- insert_union_l, insert_union_r; [done|]. by apply not_elem_of_list_to_map_1.
  - intros k' v' Hin. rewrite lookup_insert_ne; [apply (Hnew k' v'); by right|].
    intros ->. apply Hk. by apply (list_elem_of_fmap_2 fst) in Hin.
Qed.

Lemma parse_prop_loop_ok entries name :
  NoDup entries.*1 →
  parse_prop_loop (entries_of entries) name = Ok ((list_to_map entries : gmap (list byte) (list byte)) !! name).
Proof.
  induction entries as [|[k v] entries IH]; intros Hnd; [done|]. apply NoDup_cons in Hnd as [_ Hnd].
  cbn [entries_of parse_prop_loop skel_data].
  change (list_to_map ((k, v) :: entries)) with (<[k := v]> (list_to_map entries : gmap _ _)).
  case_bool_decide as Heq; [subst; by rewrite lookup_insert_eq|]. rewrite lookup_insert_ne by done. by apply IH.
Qed.

(** The entries of a property list, as they are unparsed. *)
Lemma unparse_proplist_ok (proplist : gmap (list byte) (list byte)) :
  ∃ entries, svn_skel__unparse_proplist (Some proplist) = Ok (SkelList [] (entries_of entries))
    ∧ NoDup entries.*1 ∧ list_to_map entries = proplist.
Proof.
  exists (reverse (map_to_list proplist)).
  assert (NoDup (reverse (map_to_list proplist)).*1) as Hnd
    by (rewrite reverse_Permutation; apply NoDup_fst_map_to_list).
  split; [|split; [done|]].
  - unfold svn_skel__unparse_proplist, svn_skel__make_empty_list. rewrite unparse_proplist_loop_ok, app_nil_r.
    cbn [rbind]. by rewrite valid_proplist.
  - rewrite <- (list_to_map_to_list proplist) at 2. apply list_to_map_proper; [done|]. by rewrite reverse_Permutation.
Qed.

Lemma parse_proplist_ok data entries :
  NoDup entries.*1 →
  svn_skel__parse_proplist (SkelList data (entries_of entries)) = Ok (list_to_map entries)
  ∧ ∀ name, svn_skel__parse_prop (SkelList data (entries_of entries)) name
      = Ok ((list_to_map entries : gmap (list byte) (list byte)) !! name).
Proof.
  intros Hnd. unfold svn_skel__parse_proplist, svn_skel__parse_prop. rewrite !valid_proplist. split.
  - rewrite parse_proplist_loop_ok; [by rewrite (right_id_L ∅ (∪))|done|]. intros k v _. apply lookup_empty.
  - intros name. by rewrite parse_prop_loop_ok.
Qed.

Lemma entries_with_text entries : map with_text (entries_of entries) = entries_of entries.
Proof. induction entries as [|[k v] entries IH]; [done|]. cbn [entries_of map with_text]. by rewrite IH. Qed.

Lemma skel_text_fits skel : Z.of_nat (length (skel_text skel)) < 0x10000000000000000 → fits skel.
Proof.
  induction skel as [data|data children IH] using skel_ind; cbn [skel_text]; intros Hl.
  - cbn [fits]. unfold atom_text in Hl. destruct (use_implicit data); [done|].
    rewrite length_app in Hl. cbn [length] in Hl. lia.
  - apply fits_list. cbn [length] in Hl. rewrite length_app in Hl.
    assert (∀ child, child ∈ children → (length (skel_text child) <= length (spaced (map skel_text children)))%nat) as Hle.
    { clear. induction children as [|x l IH]; intros child; [by rewrite elem_of_nil|].
      rewrite elem_of_cons. intros Hin. destruct l as [|y l].
      - destruct Hin as [->|Hin]; [done|by apply elem_of_nil in Hin].
      - assert (length (spaced (map skel_text (x :: y :: l)))
          = (length (skel_text x) + S (length (spaced (map skel_text (y :: l)))))%nat) as ->
          by (cbn [map spaced]; by rewrite length_app).
        destruct Hin as [->|Hin]; [lia|]. apply IH in Hin. lia. }
    apply Forall_forall. intros child Hin. apply (proj1 (Forall_forall _ _) IH child Hin).
    apply Hle in Hin. lia.
Qed.

Lemma skel_round_trip skel :
  Z.of_nat (length (skel_text skel)) < 0x10000000000000000 →
  svn_skel__unparse skel = Ok (skel_text skel) ∧ svn_skel__parse (skel_text skel) = Ok (Some (with_text skel)).
Proof.
  intros Htext. unfold svn_skel__unparse, svn_skel__parse.
  rewrite unparse_text by (by apply skel_text_fits). split; [done|].
  rewrite <- (app_nil_r (skel_text skel)) at 2.
  rewrite parse_text; [done|by rewrite app_nil_r|done|]. rewrite app_nil_r. lia.
Qed.

(** ** The properties *)

(** C22: svn_skel__unparse writes any skel, whose text fits the address
    space, without an error, and svn_skel__parse of that text gives the skel
    back, whatever bytes its atoms hold. *)
Theorem svn_skel__parse_unparse (skel : svn_skel_t) :
  Z.of_nat (length (skel_text skel)) < 0x10000000000000000 →
  svn_skel__unparse skel = Ok (skel_text skel) ∧ svn_skel__parse (skel_text skel) = Ok (Some (with_text skel)).
Proof. apply skel_round_trip. Qed.

Lemma svn_skel__parse_unparse_witness :
  let skel := SkelList [] [Atom (String.list_byte_of_string "abc"); Atom []; SkelList [] [Atom (String.list_byte_of_string "(x)")]] in
  Z.of_nat (length (skel_text skel)) < 0x10000000000000000
  ∧ svn_skel__parse (skel_text skel) = Ok (Some (with_text skel)).
Proof.
  intros skel. assert (Z.of_nat (length (skel_text skel)) < 0x10000000000000000) as H by (vm_compute; reflexivity).
  split; [exact H|]. exact (proj2 (svn_skel__parse_unparse skel H)).
Defined.

(** C38: svn_skel__parse ends on any bytes, without reading past their end,
    with a skel or with none, and a skel it returns can be written again and
    parses to itself. *)
Theorem svn_skel__parse_ends (data : list byte) :
  Z.of_nat (length data) < 0x10000000000000000 →
  ∃ parsed, svn_skel__parse data = Ok parsed
    ∧ match parsed with
      | None => True
      | Some skel =>
          svn_skel__unparse skel = Ok (skel_text skel)
          ∧ (Z.of_nat (length (skel_text skel)) < 0x10000000000000000 →
             svn_skel__parse (skel_text skel) = Ok (Some (with_text skel)))
      end.
Proof.
  intros Hdata. unfold svn_skel__parse at 1.
  destruct (proj1 (parse_total (S (2 * length data))) data) as (parsed & -> & Hp); [lia|]. cbn [rbind].
  eexists. split; [done|]. destruct parsed as [[skel rest]|]; [|done]. destruct Hp as [_ Hfits].
  cbn. split; [|by apply skel_round_trip]. unfold svn_skel__unparse. rewrite unparse_text; [done|by apply Hfits].
Qed.

Lemma svn_skel__parse_ends_witness :
  Z.of_nat (length (String.list_byte_of_string "(ab (c")) < 0x10000000000000000
  ∧ ∃ parsed, svn_skel__parse (String.list_byte_of_string "(ab (c") = Ok parsed.
Proof.
  split; [vm_compute; reflexivity|].
  destruct (svn_skel__parse_ends (String.list_byte_of_string "(ab (c")) as (parsed & H & _);
    [vm_compute; reflexivity|].
  exists parsed. exact H.
Defined.

(** A property list written as a skel is valid, its text parses back to the
    same list, and svn_skel__parse_prop finds in it exactly the properties
    of the list. *)
Theorem svn_skel__proplist_round_trip (proplist : gmap (list byte) (list byte)) :
  ∃ skel,
    svn_skel__unparse_proplist (Some proplist) = Ok skel
    ∧ svn_skel__parse_proplist skel = Ok proplist
    ∧ (∀ name, svn_skel__parse_prop skel name = Ok (proplist !! name))
    ∧ (Z.of_nat (length (skel_text skel)) < 0x10000000000000000 →
       (let! text := svn_skel__unparse skel in
        let! parsed := svn_skel__parse text in
        match parsed with
        | Some skel => svn_skel__parse_proplist skel
        | None => Error SVN_ERR_FS_MALFORMED_SKEL
        end) = Ok proplist).
Proof.
  destruct (unparse_proplist_ok proplist) as (entries & Hu & Hnd & <-).
  exists (SkelList [] (entries_of entries)). split; [done|]. split; [by apply parse_proplist_ok|].
  split; [by apply parse_proplist_ok|]. intros Hfits. destruct (skel_round_trip _ Hfits) as [-> Hp].
  cbn [rbind]. rewrite Hp. cbn [rbind with_text]. rewrite entries_with_text. by apply parse_proplist_ok.
Qed.
