(* ===== verification/FsSkels.v ===== *)
(** * The records of the Berkeley DB filesystem

    [src/subversion/libsvn_fs_base/util/fs_skels.c]: how revisions, transactions,
    representations, node revisions, copies, directory entries, changes and locks
    are stored as skeletons.  The structures are those of
    [src/subversion/libsvn_fs_base/fs.h]; a pointer that may be null is an
    [option].  An access through a null pointer, or to data that an atom does not
    have, is [Undefined]. *)
From S2P Require Import Prelude Numbers Cstrings Skel Keys Checksum Time.

(** ** The structures *)

Record revision_t := { revision_txn_id : list byte }.

Inductive transaction_kind_t :=
  transaction_kind_normal | transaction_kind_committed | transaction_kind_dead.

#[global] Instance transaction_kind_eq_dec : EqDecision transaction_kind_t.
Proof. solve_decision. Defined.

(** [atol]. *)
Definition SVN_STR_TO_REV (str : list byte) : Z := fst (strtol str).

Record transaction_t := {
  transaction_kind : transaction_kind_t;
  revision : Z;
  proplist : option (gmap (list byte) (list byte));
  root_id : option svn_fs_id_t;
  base_id : option svn_fs_id_t;
  copies : option (list (list byte));
}.

Inductive svn_node_kind_t := svn_node_none | svn_node_file | svn_node_dir | svn_node_unknown.

#[global] Instance svn_node_kind_eq_dec : EqDecision svn_node_kind_t.
Proof. solve_decision. Defined.

Record node_revision_t := {
  node_kind : svn_node_kind_t;
  predecessor_id : option svn_fs_id_t;
  predecessor_count : Z;
  prop_key : option (list byte);
  data_key : option (list byte);
  data_key_uniquifier : option (list byte);
  edit_key : option (list byte);
  created_path : list byte;
  has_mergeinfo : bool;
  mergeinfo_count : Z;
}.

Record rep_delta_chunk_t := {
  version : Z;
  offset : Z;
  string_key : option (list byte);
  size : Z;
  rep_key : option (list byte);
}.

(** The kind of a representation and the union of its contents. *)
Inductive rep_contents :=
  | rep_kind_fulltext (string_key : option (list byte))
  | rep_kind_delta (chunks : list rep_delta_chunk_t).

Record representation_t := {
  rep_txn_id : option (list byte);
  md5_checksum : option svn_checksum_t;
  sha1_checksum : option svn_checksum_t;
  contents : rep_contents;
}.

Inductive copy_kind_t := copy_kind_real | copy_kind_soft.

Record copy_t := {
  copy_kind : copy_kind_t;
  src_path : option (list byte);
  src_txn_id : option (list byte);
  dst_noderev_id : option svn_fs_id_t;
}.

Inductive svn_fs_path_change_kind_t :=
  | svn_fs_path_change_modify | svn_fs_path_change_add | svn_fs_path_change_delete
  | svn_fs_path_change_replace | svn_fs_path_change_reset.

#[global] Instance svn_fs_path_change_kind_eq_dec : EqDecision svn_fs_path_change_kind_t.
Proof. solve_decision. Defined.

Record change_t := {
  change_path : list byte;
  noderev_id : option svn_fs_id_t;
  change_kind : svn_fs_path_change_kind_t;
  text_mod : bool;
  prop_mod : bool;
}.

Record svn_lock_t := {
  lock_path : list byte;
  token : list byte;
  owner : list byte;
  comment : option (list byte);
  is_dav_comment : bool;
  creation_date : Z;
  expiration_date : Z;
}.

(** ** Validity checking *)

Definition bytes (s : String.string) : list byte := String.list_byte_of_string s.

Definition matches (skel : svn_skel_t) (s : String.string) : bool :=
  svn_skel__matches_atom (Some skel) (bytes s).

Definition skel_len (skel : svn_skel_t) : nat := length (skel_data skel).

(** A test of the length of a list and the names of its elements are one
    pattern. *)
Definition is_valid_checksum_skel (skel : svn_skel_t) : bool :=
  match skel with
  | SkelList _ [kind; digest] =>
      if matches kind "md5" && is_atom digest then true
      else if matches kind "sha1" && is_atom digest then true
      else false
  | _ => false
  end.

Definition is_valid_revision_skel (skel : svn_skel_t) : bool :=
  match skel with
  | SkelList _ [kind; txn] => matches kind "revision" && is_atom txn
  | _ => false
  end.

(** The kind, when the skel is valid. *)
Definition is_valid_transaction_skel (skel : svn_skel_t) : option transaction_kind_t :=
  match skel with
  | SkelList _ [kind; root; base; proplist; copies] =>
      let valid := is_atom root && is_atom base && negb (is_atom proplist) && negb (is_atom copies) in
      if matches kind "transaction" then if valid then Some transaction_kind_normal else None
      else if matches kind "committed" then if valid then Some transaction_kind_committed else None
      else if matches kind "dead" then if valid then Some transaction_kind_dead else None
      else None
  | _ => None
  end.

Definition is_valid_diff_skel (diff : svn_skel_t) : bool :=
  match diff with
  | SkelList _ [kind; version; string_key] =>
      matches kind "svndiff" && (matches version "0" || matches version "1") && is_atom string_key
  | _ => false
  end.

Definition is_valid_rep_delta_chunk_skel (skel : svn_skel_t) : bool :=
  match skel with
  | SkelList _ [offset; window] =>
      if negb (is_atom offset) then false
      else
        match window with
        | SkelList _ (diff :: size :: rep_key :: rest) =>
            if (1 <? length rest)%nat then false
            else if negb (negb (is_atom diff) && is_atom size && is_atom rep_key) then false
            else if negb (forallb is_atom rest) then false
            else is_valid_diff_skel diff
        | _ => false
        end
  | _ => false
  end.

Definition is_valid_rep_header_skel (header : svn_skel_t) : bool :=
  match header with
  | SkelList _ [kind; txn] => is_atom kind && is_atom txn
  | SkelList _ [kind; txn; md5] => is_atom kind && is_atom txn && is_valid_checksum_skel md5
  | SkelList _ [kind; txn; md5; sha1] =>
      is_atom kind && is_atom txn && is_valid_checksum_skel md5 && is_valid_checksum_skel sha1
  | _ => false
  end.

(** The first child of a list. *)
Definition head_matches (skel : svn_skel_t) (s : String.string) : bool :=
  match skel with
  | SkelList _ (child :: _) => matches child s
  | _ => false
  end.

Definition is_valid_representation_skel (skel : svn_skel_t) : bool :=
  match skel with
  | SkelList _ (header :: chunk :: chunks) =>
      if negb (is_valid_rep_header_skel header) then false
      else if (length chunks =? 0)%nat && head_matches header "fulltext" then true
      else if head_matches header "delta" then forallb is_valid_rep_delta_chunk_skel (chunk :: chunks)
      else false
  | _ => false
  end.

(** [skel->data[0] == '/']. *)
Definition data_is_absolute (skel : svn_skel_t) : result bool :=
  match skel_data skel with c :: _ => Ok (c =b? "/"%byte) | [] => Undefined end.

(** [kind] is the first child. *)
Definition is_valid_node_revision_header_skel (skel : svn_skel_t) : result bool :=
  match skel with
  | SkelList _ (kind :: path :: rest) =>
      let len := (2 + length rest)%nat in
      if negb ((len =? 2)%nat || (len =? 3)%nat || (len =? 4)%nat || (len =? 6)%nat) then Ok false
      else if negb (forallb is_atom rest) then Ok false
      else if is_atom kind && is_atom path then data_is_absolute path else Ok false
  | _ => Ok false
  end.

(** A pair of a key and its uniquifier. *)
Definition is_valid_data_key_pair (skel : svn_skel_t) : bool :=
  match skel with
  | SkelList _ [key; uniquifier] =>
      is_atom key && negb (skel_len key =? 0)%nat && is_atom uniquifier && negb (skel_len uniquifier =? 0)%nat
  | _ => false
  end.

Definition is_valid_node_revision_skel (skel : svn_skel_t) : result bool :=
  match skel with
  | SkelList _ (header :: rest) =>
      let len := (1 + length rest)%nat in
      let! valid := is_valid_node_revision_header_skel header in
      if negb valid then Ok false
      else if head_matches header "dir" then
        match rest with
        | [prop_key; data_key] => Ok (is_atom prop_key && is_atom data_key)
        | _ => Ok false
        end
      else if head_matches header "file" then
        match rest with
        | prop_key :: data_key :: rest =>
            if negb (is_atom prop_key) then Ok false
            else if negb (is_atom data_key) && negb (is_valid_data_key_pair data_key) then Ok false
            else
              match rest with
              | edit_key :: _ =>
                  if negb (is_atom edit_key) then Ok false
                  else if (4 <? len)%nat then Ok false else Ok true
              | [] => Ok true
              end
        | _ => Ok false
        end
      else Ok true
  | _ => Ok false
  end.

Definition is_valid_copy_skel (skel : svn_skel_t) : bool :=
  match skel with
  | SkelList _ [kind; path; txn; id] =>
      (matches kind "copy" || matches kind "soft-copy") && is_atom path && is_atom txn && is_atom id
  | _ => false
  end.

Definition is_valid_change_skel (skel : svn_skel_t) : option svn_fs_path_change_kind_t :=
  match skel with
  | SkelList _ [tag; path; id; kind_skel; text_mod; prop_mod] =>
      if matches tag "change" && is_atom path && is_atom id && is_atom kind_skel && is_atom text_mod
         && is_atom prop_mod
      then
        if matches kind_skel "reset" then Some svn_fs_path_change_reset
        else if matches kind_skel "add" then Some svn_fs_path_change_add
        else if matches kind_skel "delete" then Some svn_fs_path_change_delete
        else if matches kind_skel "replace" then Some svn_fs_path_change_replace
        else if matches kind_skel "modify" then Some svn_fs_path_change_modify
        else None
      else None
  | _ => None
  end.

Definition is_valid_lock_skel (skel : svn_skel_t) : bool :=
  match skel with
  | SkelList _ (tag :: rest) => (length rest =? 7)%nat && matches tag "lock" && forallb is_atom rest
  | _ => false
  end.

(** ** Parsing *)

(** [apr_pstrmemdup (pool, skel->data, skel->len)] as a C string. *)
Definition skel_string (skel : svn_skel_t) : list byte := cstring (skel_data skel).

(** The same, or a null pointer when the atom is empty. *)
Definition skel_string_opt (skel : svn_skel_t) : option (list byte) :=
  if (skel_len skel =? 0)%nat then None else Some (skel_string skel).

Definition skel_id (skel : svn_skel_t) : option svn_fs_id_t := svn_fs_base__id_parse (skel_data skel).

Definition svn_fs_base__parse_revision_skel (skel : svn_skel_t) : result revision_t :=
  if negb (is_valid_revision_skel skel) then Error SVN_ERR_FS_MALFORMED_SKEL
  else
    match skel with
    | SkelList _ [_; txn] => Ok {| revision_txn_id := skel_string txn |}
    | _ => Undefined
    end.

Definition svn_fs_base__parse_transaction_skel (skel : svn_skel_t) : result transaction_t :=
  match is_valid_transaction_skel skel with
  | None => Error SVN_ERR_FS_MALFORMED_SKEL
  | Some kind =>
      match skel with
      | SkelList _ [_; root_id; base_id_or_rev; proplist; SkelList _ copies] =>
          let! (revision, base_id) :=
            if bool_decide (kind = transaction_kind_committed) then
              let revision := SVN_STR_TO_REV (skel_string base_id_or_rev) in
              if negb (SVN_IS_VALID_REVNUM revision) then Error SVN_ERR_FS_MALFORMED_SKEL
              else Ok (revision, None)
            else Ok (SVN_INVALID_REVNUM, skel_id base_id_or_rev) in
          let! proplist := svn_skel__parse_proplist proplist in
          Ok {| transaction_kind := kind; revision := revision; proplist := Some proplist;
                root_id := skel_id root_id; base_id := base_id;
                copies := match copies with [] => None | _ => Some (map skel_string copies) end |}
      | _ => Undefined
      end
  end.

Section Parsing.
Context `{AprStrtoi64} `{AprTime}.

Definition APR_SIZE_MAX : Z := 0xFFFFFFFFFFFFFFFF.

Definition parse_chunk (chunk_skel : svn_skel_t) : result rep_delta_chunk_t :=
  match chunk_skel with
  | SkelList _ (offset :: SkelList _ (SkelList _ (_ :: version :: string_key :: _) :: size :: rep_key :: _) :: _) =>
      let! uval := svn_cstring_strtoui64 (skel_string version) 0 255 in
      let version := uval mod 256 in
      let! uval := svn_cstring_strtoui64 (skel_string size) 0 APR_SIZE_MAX in
      let size := u64 uval in
      let! val := svn_cstring_strtoi64 (skel_string offset) 0 APR_INT64_MAX in
      Ok {| version := version; offset := val; string_key := Some (skel_string string_key);
            size := size; rep_key := Some (skel_string rep_key) |}
  | _ => Undefined
  end.

Fixpoint parse_chunks (chunk_skels : list svn_skel_t) : result (list rep_delta_chunk_t) :=
  match chunk_skels with
  | [] => Ok []
  | chunk_skel :: chunk_skels =>
      let! chunk := parse_chunk chunk_skel in
      let! chunks := parse_chunks chunk_skels in
      Ok (chunk :: chunks)
  end.

(** [checksum_skel->children->next->data]. *)
Definition checksum_data (checksum_skel : svn_skel_t) : result (list byte) :=
  match checksum_skel with
  | SkelList _ (_ :: digest :: _) => Ok (skel_data digest)
  | _ => Undefined
  end.

(** The checksums after KIND and TXN. *)
Definition parse_checksums (rest : list svn_skel_t)
    : result (option svn_checksum_t * option svn_checksum_t) :=
  match rest with
  | [] => Ok (None, None)
  | md5 :: rest =>
      let! data := checksum_data md5 in
      let! md5_checksum := svn_checksum__from_digest_md5 data in
      match rest with
      | [] => Ok (Some md5_checksum, None)
      | sha1 :: _ =>
          let! data := checksum_data sha1 in
          let! sha1_checksum := svn_checksum__from_digest_sha1 data in
          Ok (Some md5_checksum, Some sha1_checksum)
      end
  end.

Definition svn_fs_base__parse_representation_skel (skel : svn_skel_t) : result representation_t :=
  if negb (is_valid_representation_skel skel) then Error SVN_ERR_FS_MALFORMED_SKEL
  else
    match skel with
    | SkelList _ (SkelList _ (kind :: txn :: checksums) :: chunk_skel :: chunk_skels) =>
        let! (md5_checksum, sha1_checksum) := parse_checksums checksums in
        let! contents :=
          if matches kind "fulltext" then Ok (rep_kind_fulltext (Some (skel_string chunk_skel)))
          else let! chunks := parse_chunks (chunk_skel :: chunk_skels) in Ok (rep_kind_delta chunks) in
        Ok {| rep_txn_id := Some (skel_string txn); md5_checksum := md5_checksum;
              sha1_checksum := sha1_checksum; contents := contents |}
    | _ => Undefined
    end.

(** PREDECESSOR-ID, PREDECESSOR-COUNT, HAS-MERGEINFO and MERGEINFO-COUNT: what
    follows KIND and CREATED-PATH in the header.  The structure is zeroed first. *)
Definition parse_predecessor (rest : list svn_skel_t)
    : result (option svn_fs_id_t * Z * bool * Z) :=
  match rest with
  | [] => Ok (None, 0, false, 0)
  | id :: rest =>
      let predecessor_id := if (skel_len id =? 0)%nat then None else skel_id id in
      match rest with
      | [] => Ok (predecessor_id, -1, false, 0)
      | count :: rest =>
          let! predecessor_count :=
            if (skel_len count =? 0)%nat then Ok (-1) else svn_cstring_atoi (skel_string count) in
          match rest with
          | [] => Ok (predecessor_id, predecessor_count, false, 0)
          | has_mergeinfo :: rest =>
              let! val := svn_cstring_atoi (skel_string has_mergeinfo) in
              match rest with
              | [] => Undefined
              | mergeinfo_count :: _ =>
                  let! mergeinfo_count := svn_cstring_atoi64 (skel_string mergeinfo_count) in
                  Ok (predecessor_id, predecessor_count, negb (val =? 0), mergeinfo_count)
              end
          end
      end
  end.

Definition parse_data_key (data_key : svn_skel_t) : result (option (list byte) * option (list byte)) :=
  match data_key with
  | Atom _ => Ok (skel_string_opt data_key, None)
  | SkelList _ (key :: uniquifier :: _) => Ok (Some (skel_string key), Some (skel_string uniquifier))
  | SkelList _ _ => Undefined
  end.

Definition svn_fs_base__parse_node_revision_skel (skel : svn_skel_t) : result node_revision_t :=
  let! valid := is_valid_node_revision_skel skel in
  if negb valid then Error SVN_ERR_FS_MALFORMED_SKEL
  else
    match skel with
    | SkelList _ (SkelList _ (kind :: created_path :: header) :: rest) =>
        let node_kind := if matches kind "dir" then svn_node_dir else svn_node_file in
        let! (predecessor_id, predecessor_count, has_mergeinfo, mergeinfo_count) := parse_predecessor header in
        match rest with
        | prop_key :: data_key :: rest =>
            let! (data_key, data_key_uniquifier) := parse_data_key data_key in
            Ok {| node_kind := node_kind; predecessor_id := predecessor_id;
                  predecessor_count := predecessor_count;
                  prop_key := skel_string_opt prop_key; data_key := data_key;
                  data_key_uniquifier := data_key_uniquifier;
                  edit_key :=
                    match rest with
                    | edit_key :: _ =>
                        if bool_decide (node_kind = svn_node_file) then skel_string_opt edit_key else None
                    | [] => None
                    end;
                  created_path := skel_string created_path;
                  has_mergeinfo := has_mergeinfo; mergeinfo_count := mergeinfo_count |}
        | _ => Undefined
        end
    | _ => Undefined
    end.

Definition svn_fs_base__parse_copy_skel (skel : svn_skel_t) : result copy_t :=
  if negb (is_valid_copy_skel skel) then Error SVN_ERR_FS_MALFORMED_SKEL
  else
    match skel with
    | SkelList _ [kind; path; txn; id] =>
        Ok {| copy_kind := if matches kind "soft-copy" then copy_kind_soft else copy_kind_real;
              src_path := Some (skel_string path); src_txn_id := Some (skel_string txn);
              dst_noderev_id := skel_id id |}
    | _ => Undefined
    end.

(** Setting the value of a key to a null pointer removes the key. *)
Fixpoint parse_entries_loop (children : list svn_skel_t) (entries : gmap (list byte) svn_fs_id_t)
    : result (gmap (list byte) svn_fs_id_t) :=
  match children with
  | [] => Ok entries
  | SkelList _ [name; id] :: children =>
      parse_entries_loop children
        (match skel_id id with
         | Some id => <[skel_data name := id]> entries
         | None => delete (skel_data name) entries
         end)
  | _ :: _ => Error SVN_ERR_FS_MALFORMED_SKEL
  end.

(** A null hash is [None]. *)
Definition svn_fs_base__parse_entries_skel (skel : svn_skel_t)
    : result (option (gmap (list byte) svn_fs_id_t)) :=
  match skel with
  | Atom _ => Error SVN_ERR_FS_MALFORMED_SKEL
  | SkelList _ [] => Ok None
  | SkelList _ children => let! entries := parse_entries_loop children ∅ in Ok (Some entries)
  end.

Definition svn_fs_base__parse_change_skel (skel : svn_skel_t) : result change_t :=
  match is_valid_change_skel skel with
  | None => Error SVN_ERR_FS_MALFORMED_SKEL
  | Some kind =>
      match skel with
      | SkelList _ [_; path; id; _; text_mod; prop_mod] =>
          Ok {| change_path := skel_string path;
                noderev_id := if (skel_len id =? 0)%nat then None else skel_id id;
                change_kind := kind;
                text_mod := negb (skel_len text_mod =? 0)%nat;
                prop_mod := negb (skel_len prop_mod =? 0)%nat |}
      | _ => Undefined
      end
  end.

Definition svn_fs_base__parse_lock_skel (skel : svn_skel_t) : result svn_lock_t :=
  if negb (is_valid_lock_skel skel) then Error SVN_ERR_FS_MALFORMED_SKEL
  else
    match skel with
    | SkelList _ [_; path; token; owner; comment; xml_p; creation; expiration] =>
        let! creation_date := svn_time_from_cstring (skel_string creation) in
        let! expiration_date :=
          if (skel_len expiration =? 0)%nat then Ok 0
          else svn_time_from_cstring (skel_string expiration) in
        Ok {| lock_path := skel_string path; token := skel_string token; owner := skel_string owner;
              comment := skel_string_opt comment; is_dav_comment := matches xml_p "1";
              creation_date := creation_date; expiration_date := expiration_date |}
    | _ => Undefined
    end.
End Parsing.

(** ** Unparsing *)

Definition empty_list : svn_skel_t := svn_skel__make_empty_list.
Definition str (s : list byte) : svn_skel_t := svn_skel__str_atom s.
Definition literal (s : String.string) : svn_skel_t := svn_skel__str_atom (bytes s).

(** A string that may be null or empty. *)
Definition opt_str (s : option (list byte)) : svn_skel_t :=
  match s with
  | None | Some [] => svn_skel__mem_atom []
  | Some s => svn_skel__str_atom s
  end.

Definition id_atom (id : option svn_fs_id_t) : result svn_skel_t :=
  match id with
  | Some id => Ok (svn_skel__mem_atom (svn_fs_base__id_unparse id))
  | None => Undefined
  end.

Definition svn_fs_base__unparse_revision_skel (revision : revision_t) : result svn_skel_t :=
  let skel := empty_list in
  let! skel := svn_skel__prepend (str (revision_txn_id revision)) skel in
  let! skel := svn_skel__prepend (literal "revision") skel in
  if is_valid_revision_skel skel then Ok skel else Error SVN_ERR_FS_MALFORMED_SKEL.

(** The copies from the last to the first. *)
Fixpoint prepend_copies (copies : list (list byte)) (skel : svn_skel_t) : result svn_skel_t :=
  match copies with
  | [] => Ok skel
  | copy :: copies => let! skel := svn_skel__prepend (str copy) skel in prepend_copies copies skel
  end.

Definition svn_fs_base__unparse_transaction_skel (transaction : transaction_t) : result svn_skel_t :=
  let skel := empty_list in
  let unfinished := bool_decide (base_id transaction = None) || SVN_IS_VALID_REVNUM (revision transaction) in
  let committed :=
    negb (bool_decide (base_id transaction = None)) || negb (SVN_IS_VALID_REVNUM (revision transaction)) in
  let! header_skel :=
    match transaction_kind transaction with
    | transaction_kind_committed =>
        if committed then Error SVN_ERR_FS_MALFORMED_SKEL else Ok (literal "committed")
    | transaction_kind_dead => if unfinished then Error SVN_ERR_FS_MALFORMED_SKEL else Ok (literal "dead")
    | transaction_kind_normal =>
        if unfinished then Error SVN_ERR_FS_MALFORMED_SKEL else Ok (literal "transaction")
    end in
  let! copies_skel := prepend_copies (reverse (default [] (copies transaction))) empty_list in
  let! skel := svn_skel__prepend copies_skel skel in
  let! proplist_skel := svn_skel__unparse_proplist (proplist transaction) in
  let! skel := svn_skel__prepend proplist_skel skel in
  let! skel :=
    if bool_decide (transaction_kind transaction = transaction_kind_committed) then
      svn_skel__prepend (str (printf_ld (revision transaction))) skel
    else let! id := id_atom (base_id transaction) in svn_skel__prepend id skel in
  let! id := id_atom (root_id transaction) in
  let! skel := svn_skel__prepend id skel in
  let! skel := svn_skel__prepend header_skel skel in
  match is_valid_transaction_skel skel with
  | None => Error SVN_ERR_FS_MALFORMED_SKEL
  | Some kind =>
      if bool_decide (kind ≠ transaction_kind transaction) then Error SVN_ERR_FS_MALFORMED_SKEL else Ok skel
  end.

Definition prepend_checksum (skel : svn_skel_t) (checksum : svn_checksum_t) : result svn_skel_t :=
  let checksum_skel := empty_list in
  let digest_atom (size : nat) :=
    if (size <=? length (digest checksum))%nat then Ok (svn_skel__mem_atom (take size (digest checksum)))
    else Undefined in
  let! checksum_skel :=
    match kind checksum with
    | svn_checksum_md5 =>
        let! atom := digest_atom APR_MD5_DIGESTSIZE in
        let! checksum_skel := svn_skel__prepend atom checksum_skel in
        svn_skel__prepend (literal "md5") checksum_skel
    | svn_checksum_sha1 =>
        let! atom := digest_atom APR_SHA1_DIGESTSIZE in
        let! checksum_skel := svn_skel__prepend atom checksum_skel in
        svn_skel__prepend (literal "sha1") checksum_skel
    | other_checksum _ => Error SVN_ERR_FS_MALFORMED_SKEL
    end in
  svn_skel__prepend checksum_skel skel.

Definition SVN_FS_BASE__MIN_REP_SHARING_FORMAT : Z := 4.
Definition SVN_FS_BASE__MIN_MERGEINFO_FORMAT : Z := 3.

Definition unparse_chunk (chunk : rep_delta_chunk_t) : result svn_skel_t :=
  let window_skel := empty_list in
  let chunk_skel := empty_list in
  let diff_skel := empty_list in
  let offset_str := printf_ld (offset chunk) in
  let size_str := printf_ld (size chunk) in
  let version_str := printf_ld (version chunk) in
  let! diff_skel := svn_skel__prepend (opt_str (string_key chunk)) diff_skel in
  let! diff_skel := svn_skel__prepend (str version_str) diff_skel in
  let! diff_skel := svn_skel__prepend (literal "svndiff") diff_skel in
  let! window_skel := svn_skel__prepend (opt_str (rep_key chunk)) window_skel in
  let! window_skel := svn_skel__prepend (str size_str) window_skel in
  let! window_skel := svn_skel__prepend diff_skel window_skel in
  let! chunk_skel := svn_skel__prepend window_skel chunk_skel in
  svn_skel__prepend (str offset_str) chunk_skel.

(** The chunks from the last to the first. *)
Fixpoint prepend_chunks (chunks : list rep_delta_chunk_t) (skel : svn_skel_t) : result svn_skel_t :=
  match chunks with
  | [] => Ok skel
  | chunk :: chunks =>
      let! chunk_skel := unparse_chunk chunk in
      let! skel := svn_skel__prepend chunk_skel skel in
      prepend_chunks chunks skel
  end.

Definition svn_fs_base__unparse_representation_skel (rep : representation_t) (format : Z) : result svn_skel_t :=
  let skel := empty_list in
  let header_skel := empty_list in
  let! header_skel :=
    match sha1_checksum rep with
    | Some checksum =>
        if SVN_FS_BASE__MIN_REP_SHARING_FORMAT <=? format then prepend_checksum header_skel checksum
        else Ok header_skel
    | None => Ok header_skel
    end in
  let! header_skel :=
    match md5_checksum rep with
    | Some checksum => prepend_checksum header_skel checksum
    | None =>
        match svn_checksum_create svn_checksum_md5 with
        | Some checksum => prepend_checksum header_skel checksum
        | None => Undefined
        end
    end in
  let! header_skel := svn_skel__prepend (str (default [] (rep_txn_id rep))) header_skel in
  let! skel :=
    match contents rep with
    | rep_kind_fulltext string_key =>
        let! skel := svn_skel__prepend (opt_str string_key) skel in
        let! header_skel := svn_skel__prepend (literal "fulltext") header_skel in
        svn_skel__prepend header_skel skel
    | rep_kind_delta chunks =>
        let! skel := prepend_chunks (reverse chunks) skel in
        let! header_skel := svn_skel__prepend (literal "delta") header_skel in
        svn_skel__prepend header_skel skel
    end in
  if is_valid_representation_skel skel then Ok skel else Error SVN_ERR_FS_MALFORMED_SKEL.

Definition has_text (s : option (list byte)) : bool := match s with None | Some [] => false | _ => true end.

Definition svn_fs_base__unparse_node_revision_skel (noderev : node_revision_t) (format : Z)
    : result svn_skel_t :=
  let skel := empty_list in
  let header_skel := empty_list in
  let! header_skel :=
    if SVN_FS_BASE__MIN_MERGEINFO_FORMAT <=? format then
      let! header_skel := svn_skel__prepend (str (printf_ld (mergeinfo_count noderev))) header_skel in
      let! header_skel :=
        svn_skel__prepend (svn_skel__mem_atom (bytes (if has_mergeinfo noderev then "1" else "0"))) header_skel in
      if predecessor_count noderev =? -1 then svn_skel__prepend (svn_skel__mem_atom []) header_skel
      else Ok header_skel
    else Ok header_skel in
  let! header_skel :=
    if negb (predecessor_count noderev =? -1) then
      svn_skel__prepend (str (printf_ld (predecessor_count noderev))) header_skel
    else Ok header_skel in
  let! header_skel :=
    match predecessor_id noderev with
    | Some id => svn_skel__prepend (svn_skel__mem_atom (svn_fs_base__id_unparse id)) header_skel
    | None => svn_skel__prepend (svn_skel__mem_atom []) header_skel
    end in
  let! header_skel := svn_skel__prepend (str (created_path noderev)) header_skel in
  let! header_skel :=
    match node_kind noderev with
    | svn_node_file => svn_skel__prepend (literal "file") header_skel
    | svn_node_dir => svn_skel__prepend (literal "dir") header_skel
    | _ => Aborted
    end in
  let! skel := if has_text (edit_key noderev) then svn_skel__prepend (opt_str (edit_key noderev)) skel else Ok skel in
  let! skel :=
    if has_text (data_key_uniquifier noderev) then
      let data_key_skel := empty_list in
      let! data_key_skel := svn_skel__prepend (opt_str (data_key_uniquifier noderev)) data_key_skel in
      let! data_key_skel := svn_skel__prepend (opt_str (data_key noderev)) data_key_skel in
      svn_skel__prepend data_key_skel skel
    else svn_skel__prepend (opt_str (data_key noderev)) skel in
  let! skel := svn_skel__prepend (opt_str (prop_key noderev)) skel in
  let! skel := svn_skel__prepend header_skel skel in
  let! valid := is_valid_node_revision_skel skel in
  if valid then Ok skel else Error SVN_ERR_FS_MALFORMED_SKEL.

Definition svn_fs_base__unparse_copy_skel (copy : copy_t) : result svn_skel_t :=
  let skel := empty_list in
  let! id := id_atom (dst_noderev_id copy) in
  let! skel := svn_skel__prepend id skel in
  let! skel := svn_skel__prepend (opt_str (src_txn_id copy)) skel in
  let! skel := svn_skel__prepend (opt_str (src_path copy)) skel in
  let! skel :=
    match copy_kind copy with
    | copy_kind_real => svn_skel__prepend (literal "copy") skel
    | copy_kind_soft => svn_skel__prepend (literal "soft-copy") skel
    end in
  if is_valid_copy_skel skel then Ok skel else Error SVN_ERR_FS_MALFORMED_SKEL.

Fixpoint unparse_entries_loop (entries : list (list byte * svn_fs_id_t)) (skel : svn_skel_t)
    : result svn_skel_t :=
  match entries with
  | [] => Ok skel
  | (key, value) :: entries =>
      let entry_skel := empty_list in
      let! entry_skel := svn_skel__prepend (svn_skel__mem_atom (svn_fs_base__id_unparse value)) entry_skel in
      let! entry_skel := svn_skel__prepend (svn_skel__mem_atom key) entry_skel in
      let! skel := svn_skel__prepend entry_skel skel in
      unparse_entries_loop entries skel
  end.

(** The order of iteration is that of the map. *)
Definition svn_fs_base__unparse_entries_skel (entries : option (gmap (list byte) svn_fs_id_t))
    : result svn_skel_t :=
  match entries with
  | None => Ok empty_list
  | Some entries => unparse_entries_loop (map_to_list entries) empty_list
  end.

Definition svn_fs_base__unparse_change_skel (change : change_t) : result svn_skel_t :=
  let skel := empty_list in
  let flag (b : bool) := if b then literal "1" else svn_skel__mem_atom [] in
  let! skel := svn_skel__prepend (flag (prop_mod change)) skel in
  let! skel := svn_skel__prepend (flag (text_mod change)) skel in
  let! skel :=
    svn_skel__prepend
      (literal (match change_kind change with
                | svn_fs_path_change_reset => "reset"
                | svn_fs_path_change_add => "add"
                | svn_fs_path_change_delete => "delete"
                | svn_fs_path_change_replace => "replace"
                | svn_fs_path_change_modify => "modify"
                end)) skel in
  let! skel :=
    match noderev_id change with
    | Some id => svn_skel__prepend (svn_skel__mem_atom (svn_fs_base__id_unparse id)) skel
    | None => svn_skel__prepend (svn_skel__mem_atom []) skel
    end in
  let! skel := svn_skel__prepend (str (change_path change)) skel in
  let! skel := svn_skel__prepend (literal "change") skel in
  match is_valid_change_skel skel with
  | None => Error SVN_ERR_FS_MALFORMED_SKEL
  | Some kind =>
      if bool_decide (kind ≠ change_kind change) then Error SVN_ERR_FS_MALFORMED_SKEL else Ok skel
  end.

Definition svn_fs_base__unparse_lock_skel `{AprTime} (lock : svn_lock_t) : result svn_skel_t :=
  let skel := empty_list in
  let! skel :=
    svn_skel__prepend
      (if negb (expiration_date lock =? 0) then str (svn_time_to_cstring (expiration_date lock))
       else svn_skel__mem_atom []) skel in
  let! skel := svn_skel__prepend (str (svn_time_to_cstring (creation_date lock))) skel in
  let! skel := svn_skel__prepend (literal (if is_dav_comment lock then "1" else "0")) skel in
  let! skel :=
    svn_skel__prepend (match comment lock with Some s => str s | None => svn_skel__mem_atom [] end) skel in
  let! skel := svn_skel__prepend (str (owner lock)) skel in
  let! skel := svn_skel__prepend (str (token lock)) skel in
  let! skel := svn_skel__prepend (str (lock_path lock)) skel in
  let! skel := svn_skel__prepend (literal "lock") skel in
  if is_valid_lock_skel skel then Ok skel else Error SVN_ERR_FS_MALFORMED_SKEL.
