(* ===== verification/FsSkelsCorrect.v ===== *)
(** * The records of the Berkeley DB filesystem: correctness

    Every record is read back from the text that it is stored as. *)
From S2P Require Import Prelude Numbers Cstrings Skel SkelCorrect Keys Checksum Time FsSkels.

(** ** Storage

    What the tables do with a skel: it is written as its text, and the text is
    parsed. *)
Definition stored (skel : svn_skel_t) : result svn_skel_t :=
  let! text := svn_skel__unparse skel in
  let! parsed := svn_skel__parse text in
  match parsed with Some skel => Ok skel | None => Error SVN_ERR_FS_MALFORMED_SKEL end.

Definition text_fits (skel : svn_skel_t) : Prop := Z.of_nat (length (skel_text skel)) < 0x10000000000000000.

Lemma stored_ok skel : text_fits skel → stored skel = Ok (with_text skel).
Proof. intros Hfits. destruct (skel_round_trip skel Hfits) as [Hu Hp]. unfold stored. by rewrite Hu; cbn [rbind]; rewrite Hp. Qed.

(** ** Strings, ids and keys *)

Definition string_ok (s : list byte) : Prop := NUL ∉ s.

(** A key that may be null is not empty when it is there. *)
Definition key_ok (s : option (list byte)) : Prop :=
  match s with None => True | Some s => s ≠ [] ∧ string_ok s end.

(** A string that is never null. *)
Definition some_string (s : option (list byte)) : Prop :=
  match s with None => False | Some s => string_ok s end.

Definition opt_id_ok (id : option svn_fs_id_t) : Prop := match id with None => True | Some id => id_ok id end.

Lemma skel_string_atom s : string_ok s → skel_string (Atom s) = s.
Proof. apply cstring_no_nul. Qed.

Lemma opt_str_atom s : opt_str s = Atom (default [] s).
Proof. by destruct s as [[|c s]|]. Qed.

Lemma skel_string_opt_atom s : key_ok s → skel_string_opt (Atom (default [] s)) = s.
Proof.
  destruct s as [s|]; [|done]. intros [Hne Hs]. unfold skel_string_opt, skel_len. cbn [default skel_data].
  rewrite skel_string_atom by done. by destruct s.
Qed.

Lemma some_string_atom s : some_string s → Some (skel_string (Atom (default [] s))) = s.
Proof. destruct s as [s|]; [|done]. intros Hs. cbn [default]. by rewrite skel_string_atom. Qed.

Lemma skel_id_atom id : id_ok id → skel_id (Atom (svn_fs_base__id_unparse id)) = Some id.
Proof. apply id_parse_unparse. Qed.

Lemma id_unparse_length id : (length (svn_fs_base__id_unparse id) =? 0)%nat = false.
Proof. apply Nat.eqb_neq. unfold svn_fs_base__id_unparse. rewrite length_app. simpl. lia. Qed.

Lemma printf_skel n : skel_string (Atom (printf_ld n)) = printf_ld n.
Proof. apply skel_string_atom, printf_no_nul. Qed.

Lemma printf_length n : (length (printf_ld n) =? 0)%nat = false.
Proof. pose proof (printf_ld_nonempty n). by destruct (printf_ld n). Qed.

Lemma str_to_rev_printf n : LONG_MIN <= n <= LONG_MAX → SVN_STR_TO_REV (printf_ld n) = n.
Proof.
  intros Hn. unfold SVN_STR_TO_REV. pose proof (strtol_printf n [] Hn eq_refl) as Heq.
  rewrite app_nil_r in Heq. by rewrite Heq.
Qed.

Ltac unfold_atoms :=
  unfold str, literal, empty_list, svn_skel__str_atom, svn_skel__mem_atom, svn_skel__make_empty_list in *.

(** ** Revisions and transactions *)

Lemma revision_ok (revision : revision_t) :
  string_ok (revision_txn_id revision) →
  ∃ skel, svn_fs_base__unparse_revision_skel revision = Ok skel
    ∧ svn_fs_base__parse_revision_skel (with_text skel) = Ok revision.
Proof.
  intros Hs. eexists. split; [done|]. cbn [with_text map].
  unfold svn_fs_base__parse_revision_skel. cbn -[skel_string]. 
  rewrite skel_string_atom by done. by destruct revision.
Qed.

Definition transaction_ok (transaction : transaction_t) : Prop :=
  match transaction_kind transaction with
  | transaction_kind_committed => 0 <= revision transaction <= LONG_MAX ∧ base_id transaction = None
  | _ => revision transaction = SVN_INVALID_REVNUM ∧ ∃ id, base_id transaction = Some id ∧ id_ok id
  end
  ∧ (∃ id, root_id transaction = Some id ∧ id_ok id)
  ∧ proplist transaction ≠ None
  ∧ match copies transaction with None => True | Some copies => copies ≠ [] ∧ Forall string_ok copies end.

Lemma prepend_copies_ok l data children :
  prepend_copies l (SkelList data children) = Ok (SkelList data (map Atom (reverse l) ++ children)).
Proof.
  revert children; induction l as [|x l IH]; intros children; [done|]. cbn [prepend_copies]. unfold_atoms.
  cbn [svn_skel__prepend rbind]. rewrite IH, reverse_cons, map_app, <- app_assoc. done.
Qed.

Lemma copies_strings l : Forall string_ok l → map skel_string (map with_text (map Atom l)) = l.
Proof. induction 1 as [|s l Hs Hl IH]; [done|]. cbn [map with_text]. by rewrite skel_string_atom, IH. Qed.

Lemma transaction_round_trip (transaction : transaction_t) :
  transaction_ok transaction →
  ∃ skel, svn_fs_base__unparse_transaction_skel transaction = Ok skel
    ∧ svn_fs_base__parse_transaction_skel (with_text skel) = Ok transaction.
Proof.
  destruct transaction as [kind rev props root base cps]. unfold transaction_ok. cbn.
  intros (Hkind & (rid & -> & Hrid) & Hprops & Hcps). destruct props as [props|]; [|done]. clear Hprops.
  destruct (unparse_proplist_ok props) as (entries & Hu & Hnd & <-).
  unfold svn_fs_base__unparse_transaction_skel. cbn [transaction_kind revision base_id root_id proplist copies].
  rewrite Hu. clear Hu. unfold_atoms. rewrite prepend_copies_ok, reverse_involutive, app_nil_r.
  set (cl := default [] cps) in *.
  assert (cps = match map skel_string (map with_text (map Atom cl)) with [] => None | l => Some l end
    ∧ (cl = [] ∨ ∃ x l, cl = x :: l)) as [Hcopies Hcl].
  { destruct cps as [l|]; [|split; [done|by left]]. destruct Hcps as [Hne Hl]. unfold cl. cbn [default].
    rewrite copies_strings by done. destruct l as [|x l]; [done|]. split; [done|right; by eexists _, _]. }
  assert (∀ revision base_id, 
    (let! proplist := svn_skel__parse_proplist (with_text (SkelList [] (entries_of entries))) in
     Ok {| transaction_kind := kind; revision := revision; proplist := Some proplist;
           root_id := skel_id (Atom (svn_fs_base__id_unparse rid)); base_id := base_id;
           copies := match map with_text (map Atom cl) with [] => None | _ => Some (map skel_string (map with_text (map Atom cl))) end |})
    = Ok {| transaction_kind := kind; revision := revision; proplist := Some (list_to_map entries);
            root_id := Some rid; base_id := base_id; copies := cps |}) as Hparse.
  { intros. cbn [with_text]. rewrite entries_with_text. destruct (parse_proplist_ok (skel_text (SkelList [] (entries_of entries))) entries Hnd) as [-> _].
    cbn [rbind]. rewrite skel_id_atom by done. do 2 f_equal. rewrite Hcopies.
    destruct Hcl as [-> |(x & l & ->)]; done. }
  destruct kind.
  2: { destruct Hkind as [Hrev ->].
    rewrite bool_decide_eq_true_2 by done. cbn [rbind negb orb]. unfold SVN_IS_VALID_REVNUM.
    rewrite (proj2 (Z.leb_le 0 rev)) by lia. eexists. split; [reflexivity|].
    cbn [with_text map svn_skel__mem_atom svn_skel__str_atom]. unfold svn_fs_base__parse_transaction_skel.
    change (is_valid_transaction_skel _) with (Some transaction_kind_committed). cbn iota.
    rewrite bool_decide_eq_true_2 by done.
    rewrite printf_skel, str_to_rev_printf by (change LONG_MIN with (-9223372036854775808); lia).
    unfold SVN_IS_VALID_REVNUM. rewrite (proj2 (Z.leb_le 0 rev)) by lia. cbn [rbind negb]. apply Hparse. }
  all: destruct Hkind as [-> (id & -> & Hid)]; eexists; (split; [reflexivity|]);
    cbn [with_text map svn_skel__mem_atom svn_skel__str_atom]; unfold svn_fs_base__parse_transaction_skel;
    first [change (is_valid_transaction_skel _) with (Some transaction_kind_normal)
          |change (is_valid_transaction_skel _) with (Some transaction_kind_dead)]; cbn iota;
    rewrite bool_decide_eq_false_2 by done; cbn [rbind];
    rewrite (skel_id_atom id) by done; apply Hparse.
Qed.

(** ** Representations *)

Definition chunk_ok (chunk : rep_delta_chunk_t) : Prop :=
  (version chunk = 0 ∨ version chunk = 1) ∧ 0 <= offset chunk <= LONG_MAX ∧ 0 <= size chunk <= LONG_MAX
  ∧ some_string (string_key chunk) ∧ some_string (rep_key chunk).

Definition digest_ok (k : svn_checksum_kind_t) (checksum : svn_checksum_t) : Prop :=
  kind checksum = k ∧ length (digest checksum) = DIGESTSIZE k.

Definition representation_ok (format : Z) (rep : representation_t) : Prop :=
  some_string (rep_txn_id rep)
  ∧ match md5_checksum rep with Some md5 => digest_ok svn_checksum_md5 md5 | None => False end
  ∧ match sha1_checksum rep with
    | Some sha1 => SVN_FS_BASE__MIN_REP_SHARING_FORMAT <= format ∧ digest_ok svn_checksum_sha1 sha1
    | None => True
    end
  ∧ match contents rep with
    | rep_kind_fulltext key => some_string key
    | rep_kind_delta chunks => chunks ≠ [] ∧ Forall chunk_ok chunks
    end.

Definition chunk_skel (chunk : rep_delta_chunk_t) : svn_skel_t :=
  SkelList [] [Atom (printf_ld (offset chunk));
    SkelList [] [SkelList [] [Atom (bytes "svndiff"); Atom (printf_ld (version chunk)); Atom (default [] (string_key chunk))];
                 Atom (printf_ld (size chunk)); Atom (default [] (rep_key chunk))]].

Lemma unparse_chunk_ok chunk : unparse_chunk chunk = Ok (chunk_skel chunk).
Proof. unfold unparse_chunk. by rewrite !opt_str_atom. Qed.

Lemma prepend_chunks_ok l data children :
  prepend_chunks l (SkelList data children) = Ok (SkelList data (map chunk_skel (reverse l) ++ children)).
Proof.
  revert children; induction l as [|x l IH]; intros children; [done|]. cbn [prepend_chunks].
  rewrite unparse_chunk_ok. cbn [svn_skel__prepend rbind]. rewrite IH, reverse_cons, map_app, <- app_assoc. done.
Qed.

Section Numbers.
Context `{AprStrtoi64} `{AprTime}.

Lemma parse_chunk_ok chunk :
  chunk_ok chunk →
  parse_chunk (with_text (chunk_skel chunk)) = Ok chunk
  ∧ is_valid_rep_delta_chunk_skel (with_text (chunk_skel chunk)) = true
  ∧ is_valid_rep_delta_chunk_skel (chunk_skel chunk) = true.
Proof.
  intros (Hv & Ho & Hs & Hk & Hr). split.
  - change LONG_MAX with 9223372036854775807 in *. unfold chunk_skel. cbn [with_text map parse_chunk].
    rewrite !printf_skel, !svn_cstring_strtoui64_printf, svn_cstring_strtoi64_printf
      by (change LONG_MAX with 9223372036854775807; change LONG_MIN with (-9223372036854775808); lia).
    unfold APR_SIZE_MAX. change APR_INT64_MAX with 9223372036854775807.
    rewrite !(proj2 (Z.leb_le 0 _)), !(proj2 (Z.leb_le _ _)) by lia. cbn [andb rbind].
    rewrite !some_string_atom, u64_small, Z.mod_small by (done || lia). by destruct chunk.
  - unfold chunk_skel. by destruct Hv as [-> | ->].
Qed.

Lemma chunks_ok chunks :
  Forall chunk_ok chunks →
  parse_chunks (map with_text (map chunk_skel chunks)) = Ok chunks
  ∧ forallb is_valid_rep_delta_chunk_skel (map with_text (map chunk_skel chunks)) = true
  ∧ forallb is_valid_rep_delta_chunk_skel (map chunk_skel chunks) = true.
Proof.
  induction 1 as [|chunk chunks Hc _ (IH1 & IH2 & IH3)]; [done|].
  destruct (parse_chunk_ok chunk Hc) as (H1 & H2 & H3). cbn [map parse_chunks forallb].
  by rewrite H1, H2, H3, IH1, IH2, IH3.
Qed.

(** What the checksums of the header are stored as. *)
Definition checksum_skels (md5 : svn_checksum_t) (sha1 : option svn_checksum_t) : list svn_skel_t :=
  SkelList [] [Atom (bytes "md5"); Atom (digest md5)]
  :: match sha1 with Some sha1 => [SkelList [] [Atom (bytes "sha1"); Atom (digest sha1)]] | None => [] end.

Lemma prepend_checksum_ok k checksum data children :
  (k = svn_checksum_md5 ∨ k = svn_checksum_sha1) → digest_ok k checksum →
  prepend_checksum (SkelList data children) checksum
  = Ok (SkelList data (SkelList [] [Atom (bytes (if bool_decide (k = svn_checksum_md5) then "md5" else "sha1"));
                                    Atom (digest checksum)] :: children)).
Proof.
  intros Hk [Hkind Hlen]. unfold prepend_checksum. rewrite Hkind.
  destruct Hk as [-> | ->]; cbn [DIGESTSIZE] in Hlen; rewrite Hlen, Nat.leb_refl; cbn [rbind];
    unfold_atoms; cbn [svn_skel__prepend rbind]; rewrite <- Hlen, firstn_all; done.
Qed.

Lemma from_digest_ok k checksum :
  digest_ok k checksum → checksum_create k (DIGESTSIZE k) (digest checksum) = Ok checksum.
Proof.
  intros [Hkind Hlen]. unfold checksum_create. rewrite <- Hlen, Nat.leb_refl, firstn_all.
  rewrite <- Hkind. by destruct checksum.
Qed.

Lemma parse_checksums_ok md5 sha1 :
  digest_ok svn_checksum_md5 md5 →
  match sha1 with Some sha1 => digest_ok svn_checksum_sha1 sha1 | None => True end →
  parse_checksums (map with_text (checksum_skels md5 sha1)) = Ok (Some md5, sha1).
Proof.
  intros Hmd5 Hsha1. pose proof (from_digest_ok _ _ Hmd5) as Hm. destruct sha1 as [sha1|].
  - pose proof (from_digest_ok _ _ Hsha1) as Hs. cbn [checksum_skels map with_text parse_checksums checksum_data rbind skel_data].
    unfold svn_checksum__from_digest_md5, svn_checksum__from_digest_sha1.
    cbn [DIGESTSIZE] in *. rewrite Hm. cbn [rbind]. by rewrite Hs.
  - cbn [checksum_skels map with_text parse_checksums checksum_data rbind skel_data].
    unfold svn_checksum__from_digest_md5. cbn [DIGESTSIZE] in *. by rewrite Hm.
Qed.

Lemma representation_round_trip format rep :
  representation_ok format rep →
  ∃ skel, svn_fs_base__unparse_representation_skel rep format = Ok skel
    ∧ svn_fs_base__parse_representation_skel (with_text skel) = Ok rep.
Proof.
  destruct rep as [txn md5 sha1 cont]. unfold representation_ok. cbn.
  intros (Htxn & Hmd5 & Hsha1 & Hcont). destruct md5 as [md5|]; [|done].
  assert (match sha1 with Some sha1 => digest_ok svn_checksum_sha1 sha1 | None => True end) as Hs
    by (destruct sha1; [apply Hsha1|done]).
  pose proof (parse_checksums_ok md5 sha1 Hmd5 Hs) as Hparse.
  unfold svn_fs_base__unparse_representation_skel. cbn [rep_txn_id md5_checksum sha1_checksum contents]. unfold_atoms.
  set (sha1_skels := match sha1 with Some sha1 => [SkelList [] [Atom (bytes "sha1"); Atom (digest sha1)]] | None => [] end).
  assert (match sha1 with
      | Some checksum =>
          if SVN_FS_BASE__MIN_REP_SHARING_FORMAT <=? format then prepend_checksum (SkelList [] []) checksum
          else Ok (SkelList [] [])
      | None => Ok (SkelList [] [])
      end = Ok (SkelList [] sha1_skels)) as ->.
  { unfold sha1_skels. destruct sha1 as [sha1|]; [|done]. rewrite (proj2 (Z.leb_le _ _)) by apply Hsha1.
    by rewrite (prepend_checksum_ok _ _ _ _ (or_intror eq_refl) Hs). }
  cbn [rbind]. rewrite (prepend_checksum_ok _ _ _ _ (or_introl eq_refl) Hmd5). rewrite bool_decide_eq_true_2 by done.
  cbn [rbind svn_skel__prepend].
  change (SkelList [] [Atom (bytes "md5"); Atom (digest md5)] :: sha1_skels) with (checksum_skels md5 sha1).
  assert (∀ (name : String.string), is_valid_rep_header_skel (SkelList [] (Atom (bytes name) :: Atom (default [] txn) :: checksum_skels md5 sha1)) = true
    ∧ is_valid_rep_header_skel (with_text (SkelList [] (Atom (bytes name) :: Atom (default [] txn) :: checksum_skels md5 sha1))) = true)
    as Hvalid by (intros; by destruct sha1).
  destruct cont as [key|chunks].
  - rewrite opt_str_atom. cbn [rbind svn_skel__prepend].
    eexists. split; [cbn [is_valid_representation_skel]; rewrite (proj1 (Hvalid _)); reflexivity|].
    unfold svn_fs_base__parse_representation_skel.
    change (with_text (SkelList [] [?h; ?k])) with (SkelList (skel_text (SkelList [] [h; k])) [with_text h; with_text k]).
    cbn [is_valid_representation_skel]. rewrite (proj2 (Hvalid _)). cbn [with_text map]. cbn [negb andb length Nat.eqb head_matches].
    change (matches (Atom (bytes "fulltext")) "fulltext") with true. cbn iota. rewrite Hparse. cbn [rbind].
    rewrite !some_string_atom by done. done.
  - destruct Hcont as [Hne Hchunks]. rewrite prepend_chunks_ok, reverse_involutive, app_nil_r. cbn [rbind svn_skel__prepend].
    destruct (chunks_ok chunks Hchunks) as (Hp & Hv1 & Hv2). destruct chunks as [|chunk chunks]; [done|]. clear Hne.
    eexists. split; [cbn [is_valid_representation_skel map]; rewrite (proj1 (Hvalid _)); cbn [negb]|].
    { change (head_matches (SkelList [] (Atom (bytes "delta") :: ?l)) "fulltext") with false. rewrite andb_false_r.
      change (head_matches (SkelList [] (Atom (bytes "delta") :: ?l)) "delta") with true. cbn iota.
      cbn [map] in Hv2. rewrite Hv2. reflexivity. }
    unfold svn_fs_base__parse_representation_skel.
    pose proof (proj2 (Hvalid "delta"%string)) as Hv. cbn [with_text map] in *. cbn [is_valid_representation_skel].
    rewrite Hv. cbn [negb]. rewrite andb_comm.
    change (head_matches (SkelList ?t (Atom (bytes "delta") :: ?l)) "fulltext") with false. cbn [andb].
    change (head_matches (SkelList ?t (Atom (bytes "delta") :: ?l)) "delta") with true. cbn iota.
    rewrite Hv1. cbn [negb]. rewrite Hparse. cbn [rbind].
    change (matches (Atom (bytes "delta")) "fulltext") with false. cbn iota. rewrite Hp. cbn [rbind].
    by rewrite some_string_atom.
Qed.

(** ** Node revisions *)

Definition node_revision_ok (noderev : node_revision_t) : Prop :=
  (node_kind noderev = svn_node_dir ∧ edit_key noderev = None ∧ data_key_uniquifier noderev = None
   ∨ node_kind noderev = svn_node_file)
  ∧ opt_id_ok (predecessor_id noderev) ∧ -1 <= predecessor_count noderev <= APR_INT32_MAX
  ∧ key_ok (prop_key noderev) ∧ key_ok (data_key noderev) ∧ key_ok (edit_key noderev)
  ∧ key_ok (data_key_uniquifier noderev)
  ∧ (data_key_uniquifier noderev ≠ None → data_key noderev ≠ None)
  ∧ (∃ path, created_path noderev = "/"%byte :: path) ∧ string_ok (created_path noderev)
  ∧ LONG_MIN <= mergeinfo_count noderev <= LONG_MAX.

(** Old formats do not store the mergeinfo fields. *)
Definition stored_fields (format : Z) (noderev : node_revision_t) : node_revision_t :=
  if SVN_FS_BASE__MIN_MERGEINFO_FORMAT <=? format then noderev
  else
    {| node_kind := node_kind noderev; predecessor_id := predecessor_id noderev;
       predecessor_count := predecessor_count noderev; prop_key := prop_key noderev;
       data_key := data_key noderev; data_key_uniquifier := data_key_uniquifier noderev;
       edit_key := edit_key noderev; created_path := created_path noderev;
       has_mergeinfo := false; mergeinfo_count := 0 |}.

(** The header after KIND and CREATED-PATH. *)
Definition predecessor_skels (format : Z) (noderev : node_revision_t) : list svn_skel_t :=
  Atom (match predecessor_id noderev with Some id => svn_fs_base__id_unparse id | None => [] end)
  :: (if SVN_FS_BASE__MIN_MERGEINFO_FORMAT <=? format then
        [Atom (if predecessor_count noderev =? -1 then [] else printf_ld (predecessor_count noderev));
         Atom (bytes (if has_mergeinfo noderev then "1" else "0")); Atom (printf_ld (mergeinfo_count noderev))]
      else if predecessor_count noderev =? -1 then []
      else [Atom (printf_ld (predecessor_count noderev))]).

Definition data_key_skel (noderev : node_revision_t) : svn_skel_t :=
  match data_key_uniquifier noderev with
  | Some u => SkelList [] [Atom (default [] (data_key noderev)); Atom u]
  | None => Atom (default [] (data_key noderev))
  end.

Definition node_revision_skel (format : Z) (noderev : node_revision_t) : svn_skel_t :=
  SkelList []
    (SkelList [] (Atom (bytes (if bool_decide (node_kind noderev = svn_node_dir) then "dir" else "file"))
                  :: Atom (created_path noderev) :: predecessor_skels format noderev)
     :: Atom (default [] (prop_key noderev)) :: data_key_skel noderev
     :: match edit_key noderev with Some key => [Atom key] | None => [] end).

Lemma has_text_key s : key_ok s → has_text s = negb (bool_decide (s = None)).
Proof. destruct s as [[|c s]|]; [by intros [? _]|done|done]. Qed.

Lemma parse_predecessor_ok format noderev :
  node_revision_ok noderev →
  parse_predecessor (map with_text (predecessor_skels format noderev))
  = Ok (predecessor_id noderev, predecessor_count noderev,
        has_mergeinfo (stored_fields format noderev), mergeinfo_count (stored_fields format noderev)).
Proof.
  intros (_ & Hid & Hcount & _ & _ & _ & _ & _ & _ & _ & Hmi). unfold predecessor_skels, stored_fields.
  change APR_INT32_MAX with 2147483647 in *.
  change LONG_MIN with (-9223372036854775808) in *. change LONG_MAX with 9223372036854775807 in *.
  assert ((if (skel_len (Atom (match predecessor_id noderev with Some id => svn_fs_base__id_unparse id | None => [] end)) =? 0)%nat
     then None else skel_id (Atom (match predecessor_id noderev with Some id => svn_fs_base__id_unparse id | None => [] end)))
    = predecessor_id noderev) as Hpred.
  { unfold skel_len. cbn [skel_data]. destruct (predecessor_id noderev) as [id|]; [|done].
    rewrite id_unparse_length. by apply skel_id_atom. }
  assert (∀ n, -1 <= n <= 2147483647 → svn_cstring_atoi (skel_string (Atom (printf_ld n))) = Ok n) as Hatoi.
  { intros n Hn. rewrite printf_skel. unfold svn_cstring_atoi. rewrite svn_cstring_strtoi64_printf
      by (change LONG_MAX with 9223372036854775807; change LONG_MIN with (-9223372036854775808); lia).
    change APR_INT32_MIN with (-2147483648). change APR_INT32_MAX with 2147483647.
    by rewrite !(proj2 (Z.leb_le _ _)) by lia. }
  assert ((if (skel_len (Atom (if (predecessor_count noderev =? -1)%Z then [] else printf_ld (predecessor_count noderev))) =? 0)%nat
     then Ok (-1) else svn_cstring_atoi (skel_string (Atom (if predecessor_count noderev =? -1 then [] else printf_ld (predecessor_count noderev)))))
    = Ok (predecessor_count noderev)) as Hc.
  { unfold skel_len. cbn [skel_data]. destruct (Z.eqb_spec (predecessor_count noderev) (-1)) as [-> |]; [done|].
    rewrite printf_length. by apply Hatoi. }
  destruct (SVN_FS_BASE__MIN_MERGEINFO_FORMAT <=? format).
  - cbn [map with_text parse_predecessor]. rewrite Hpred, Hc. cbn [rbind].
    assert (svn_cstring_atoi (skel_string (Atom (bytes (if has_mergeinfo noderev then "1" else "0"))))
      = Ok (if has_mergeinfo noderev then 1 else 0)) as ->
      by (destruct (has_mergeinfo noderev); [apply (Hatoi 1)|apply (Hatoi 0)]; lia).
    cbn [rbind]. rewrite printf_skel. unfold svn_cstring_atoi64. rewrite svn_cstring_strtoi64_printf
      by (change LONG_MAX with 9223372036854775807; change LONG_MIN with (-9223372036854775808); lia).
    change APR_INT64_MIN with (-9223372036854775808). change APR_INT64_MAX with 9223372036854775807.
    rewrite !(proj2 (Z.leb_le _ _)) by lia. cbn [andb rbind]. by destruct (has_mergeinfo noderev).
  - destruct (Z.eqb_spec (predecessor_count noderev) (-1)) as [Heq|Hne]; cbn [map with_text parse_predecessor].
    + by rewrite Hpred, Heq.
    + rewrite Hpred. rewrite Hc. done.
Qed.
Lemma unparse_node_revision_ok format noderev :
  node_revision_ok noderev →
  svn_fs_base__unparse_node_revision_skel noderev format
  = (let! valid := is_valid_node_revision_skel (node_revision_skel format noderev) in
     if valid then Ok (node_revision_skel format noderev) else Error SVN_ERR_FS_MALFORMED_SKEL).
Proof.
  intros (Hkind & _ & _ & Hprop & Hdata & Hedit & Huniq & _ & _ & _ & _).
  unfold svn_fs_base__unparse_node_revision_skel, node_revision_skel, predecessor_skels, data_key_skel.
  rewrite !has_text_key by done. rewrite !opt_str_atom. unfold_atoms.
  destruct noderev as [kind pred count prop data uniq edit path has mi]. cbn in *.
  destruct (SVN_FS_BASE__MIN_MERGEINFO_FORMAT <=? format), (count =? -1), pred, uniq, edit,
    Hkind as [(-> & ? & ?)| ->]; done.
Qed.

Lemma key_atom s : key_ok s → s ≠ None → (length (default [] s) =? 0)%nat = false.
Proof. destruct s as [[|c s]|]; [by intros [? _]|done|done]. Qed.

Lemma valid_header format noderev :
  node_revision_ok noderev →
  let header := SkelList [] (Atom (bytes (if bool_decide (node_kind noderev = svn_node_dir) then "dir" else "file"))
                  :: Atom (created_path noderev) :: predecessor_skels format noderev) in
  is_valid_node_revision_header_skel header = Ok true
  ∧ is_valid_node_revision_header_skel (with_text header) = Ok true.
Proof.
  intros (_ & _ & _ & _ & _ & _ & _ & _ & (path & Hpath) & _). rewrite Hpath. unfold predecessor_skels.
  by destruct (SVN_FS_BASE__MIN_MERGEINFO_FORMAT <=? format), (predecessor_count noderev =? -1).
Qed.

Lemma valid_node_revision format noderev :
  node_revision_ok noderev →
  is_valid_node_revision_skel (node_revision_skel format noderev) = Ok true
  ∧ is_valid_node_revision_skel (with_text (node_revision_skel format noderev)) = Ok true.
Proof.
  intros Hok. destruct (valid_header format noderev Hok) as [Hv1 Hv2].
  destruct Hok as (Hkind & _ & _ & _ & Hdata & _ & Huniq & Hpair & _).
  unfold node_revision_skel, is_valid_node_revision_skel. cbn [with_text map] in Hv2 |- *.
  rewrite Hv1, Hv2. cbn [rbind negb]. unfold data_key_skel. clear Hv1 Hv2.
  destruct Hkind as [(-> & -> & ->)| ->]; [by split|].
  destruct (data_key_uniquifier noderev) as [u|]; [|by destruct (edit_key noderev)].
  assert ((length (default [] (data_key noderev)) =? 0)%nat = false) as Hk by (apply key_atom; auto).
  assert ((length u =? 0)%nat = false) as Hu by (by apply (key_atom (Some u))).
  cbn [map with_text]. unfold is_valid_data_key_pair, skel_len. cbn [skel_data is_atom]. rewrite Hk, Hu.
  by destruct (edit_key noderev).
Qed.

Lemma node_revision_round_trip format noderev :
  node_revision_ok noderev →
  svn_fs_base__unparse_node_revision_skel noderev format = Ok (node_revision_skel format noderev)
  ∧ svn_fs_base__parse_node_revision_skel (with_text (node_revision_skel format noderev))
    = Ok (stored_fields format noderev).
Proof.
  intros Hok. rewrite unparse_node_revision_ok by done. destruct (valid_node_revision format noderev Hok) as [-> Hv].
  split; [done|]. unfold svn_fs_base__parse_node_revision_skel. rewrite Hv. cbn [rbind negb].
  pose proof (parse_predecessor_ok format noderev Hok) as Hp.
  destruct Hok as (Hkind & _ & _ & Hprop & Hdata & Hedit & Huniq & Hpair & _ & Hpath & _).
  unfold node_revision_skel. cbn [with_text map]. rewrite Hp. cbn [rbind].
  rewrite skel_string_atom by done. rewrite skel_string_opt_atom by done.
  assert (parse_data_key (with_text (data_key_skel noderev)) = Ok (data_key noderev, data_key_uniquifier noderev)) as ->.
  { unfold data_key_skel. destruct (data_key_uniquifier noderev) as [u|].
    - cbn [with_text map parse_data_key]. destruct (data_key noderev) as [d|]; [|by destruct Hpair].
      cbn [default]. by rewrite !skel_string_atom by (apply Hdata || apply Huniq).
    - cbn [with_text parse_data_key]. by rewrite skel_string_opt_atom. }
  cbn [rbind]. match goal with |- context [{| node_kind := ?k |}] => set (kind := k) end.
  assert (kind = node_kind noderev) as -> by (unfold kind; destruct Hkind as [(-> & _)| ->]; done).
  do 2 f_equal. destruct noderev as [kind pred count prop data uniq edit path has mi].
  cbn [edit_key node_kind] in *. unfold stored_fields. cbn [has_mergeinfo mergeinfo_count].
  assert (match map with_text (match edit with Some key => [Atom key] | None => [] end) with
    | edit_key :: _ => if bool_decide (kind = svn_node_file) then skel_string_opt edit_key else None
    | [] => None
    end = edit) as ->.
  { destruct Hkind as [(-> & -> & _)| ->]; [done|]. destruct edit as [e|]; [|done]. cbn [map with_text].
    rewrite bool_decide_eq_true_2 by done. by apply (skel_string_opt_atom (Some e)). }
  by destruct (SVN_FS_BASE__MIN_MERGEINFO_FORMAT <=? format).
Qed.
End Numbers.

(** ** Copies, entries, changes and locks *)

Definition copy_ok (copy : copy_t) : Prop :=
  some_string (src_path copy) ∧ some_string (src_txn_id copy)
  ∧ ∃ id, dst_noderev_id copy = Some id ∧ id_ok id.

Lemma copy_round_trip copy :
  copy_ok copy →
  ∃ skel, svn_fs_base__unparse_copy_skel copy = Ok skel
    ∧ svn_fs_base__parse_copy_skel (with_text skel) = Ok copy.
Proof.
  destruct copy as [kind path txn dst]. unfold copy_ok. cbn. intros (Hpath & Htxn & id & -> & Hid).
  unfold svn_fs_base__unparse_copy_skel. cbn [dst_noderev_id src_txn_id src_path copy_kind id_atom rbind].
  rewrite !opt_str_atom. unfold_atoms. cbn [svn_skel__prepend rbind].
  exists (SkelList [] [Atom (bytes (match kind with copy_kind_real => "copy" | copy_kind_soft => "soft-copy" end));
    Atom (default [] path); Atom (default [] txn); Atom (svn_fs_base__id_unparse id)]).
  split; [by destruct kind|]. unfold svn_fs_base__parse_copy_skel.
  assert (∀ t, is_valid_copy_skel (SkelList t (map with_text [Atom (bytes (match kind with copy_kind_real => "copy" | copy_kind_soft => "soft-copy" end));
    Atom (default [] path); Atom (default [] txn); Atom (svn_fs_base__id_unparse id)])) = true) as Hv by (by destruct kind).
  cbn [with_text map] in *. rewrite Hv. cbn [negb]. rewrite !some_string_atom, skel_id_atom by done. by destruct kind.
Qed.

Definition change_ok (change : change_t) : Prop :=
  string_ok (change_path change) ∧ opt_id_ok (noderev_id change).

Lemma change_round_trip change :
  change_ok change →
  ∃ skel, svn_fs_base__unparse_change_skel change = Ok skel
    ∧ svn_fs_base__parse_change_skel (with_text skel) = Ok change.
Proof.
  destruct change as [path id kind text prop]. unfold change_ok. cbn. intros [Hpath Hid].
  set (id_data := match id with Some id => svn_fs_base__id_unparse id | None => [] end).
  assert ((if (skel_len (Atom id_data) =? 0)%nat then None else skel_id (Atom id_data)) = id) as Hparse.
  { unfold skel_len. cbn [skel_data]. unfold id_data. destruct id as [id|]; [|done].
    rewrite id_unparse_length. by apply skel_id_atom. }
  set (name := match kind with
    | svn_fs_path_change_reset => "reset" | svn_fs_path_change_add => "add"
    | svn_fs_path_change_delete => "delete" | svn_fs_path_change_replace => "replace"
    | svn_fs_path_change_modify => "modify" end%string).
  set (flag := λ b : bool, Atom (if b then bytes "1" else [])).
  set (children := [Atom (bytes "change"); Atom path; Atom id_data; Atom (bytes name); flag text; flag prop]).
  assert (∀ t, is_valid_change_skel (SkelList t children) = Some kind) as Hv by (by destruct kind).
  exists (SkelList [] children). split.
  - unfold svn_fs_base__unparse_change_skel. cbn [change_kind change_path noderev_id text_mod prop_mod]. unfold_atoms.
    cbn [svn_skel__prepend rbind]. specialize (Hv []). unfold children, flag, id_data, name in *.
    destruct id, text, prop; cbn [svn_skel__prepend rbind] in *; rewrite Hv; by rewrite bool_decide_eq_false_2 by auto.
  - unfold svn_fs_base__parse_change_skel. cbn [with_text].
    replace (map with_text children) with children by done. rewrite Hv. unfold children. rewrite Hparse.
    rewrite skel_string_atom by done. by destruct text, prop.
Qed.

Definition lock_ok (lock : svn_lock_t) : Prop :=
  string_ok (lock_path lock) ∧ string_ok (token lock) ∧ string_ok (owner lock) ∧ key_ok (comment lock)
  ∧ time_ok (creation_date lock) ∧ time_ok (expiration_date lock).

Lemma time_text `{AprTime} when :
  time_ok when → string_ok (svn_time_to_cstring when) ∧ (length (svn_time_to_cstring when) =? 0)%nat = false.
Proof.
  intros _. assert (∀ width n, NUL ∉ printf_0d width n) as Hp.
  { intros width n. unfold printf_0d. rewrite !not_elem_of_app. split; [|split].
    - case_match; [by apply not_elem_of_cons; split; [done|apply not_elem_of_nil]|apply not_elem_of_nil].
    - rewrite elem_of_replicate. by intros [? _].
    - intros Hin. pose proof (decimal_digits 20 (Z.abs n) (Z.abs_nonneg n)) as Hf. apply list_elem_of_In in Hin.
      by apply (proj1 (forallb_forall _ _) Hf) in Hin. }
  unfold string_ok, svn_time_to_cstring. split.
  - repeat (rewrite not_elem_of_app; split; [apply Hp|]; rewrite not_elem_of_cons; split; [done|]). apply not_elem_of_nil.
  - apply Nat.eqb_neq. rewrite length_app. cbn [length]. lia.
Qed.

Lemma lock_round_trip `{AprTime} lock :
  lock_ok lock →
  ∃ skel, svn_fs_base__unparse_lock_skel lock = Ok skel
    ∧ svn_fs_base__parse_lock_skel (with_text skel) = Ok lock.
Proof.
  destruct lock as [path tok own com dav creation expiration]. unfold lock_ok. cbn.
  intros (Hpath & Htok & Hown & Hcom & Hcre & Hexp).
  set (exp_data := if expiration =? 0 then [] else svn_time_to_cstring expiration).
  set (children := [Atom (bytes "lock"); Atom path; Atom tok; Atom own; Atom (default [] com);
    Atom (bytes (if dav then "1" else "0")); Atom (svn_time_to_cstring creation); Atom exp_data]).
  exists (SkelList [] children). split.
  - unfold svn_fs_base__unparse_lock_skel. cbn [expiration_date creation_date is_dav_comment comment owner token lock_path].
    unfold_atoms. cbn [svn_skel__prepend rbind]. unfold children, exp_data. by destruct com, (expiration =? 0).
  - unfold svn_fs_base__parse_lock_skel. cbn [with_text]. replace (map with_text children) with children by done.
    change (is_valid_lock_skel (SkelList ?t children)) with true. cbn [negb]. unfold children.
    destruct (time_text creation Hcre) as [Hc _].
    rewrite (skel_string_atom (svn_time_to_cstring creation)), (skel_string_atom path), (skel_string_atom tok),
      (skel_string_atom own) by done. rewrite skel_string_opt_atom by done.
    rewrite time_round_trip by done. cbn [rbind].
    assert ((if (skel_len (Atom exp_data) =? 0)%nat then Ok 0 else svn_time_from_cstring (skel_string (Atom exp_data)))
      = Ok expiration) as ->.
    { unfold skel_len, exp_data. cbn [skel_data]. destruct (Z.eqb_spec expiration 0) as [-> |]; [done|].
      destruct (time_text expiration Hexp) as [He ->]. rewrite skel_string_atom by done. by apply time_round_trip. }
    cbn [rbind]. by destruct dav.
Qed.

(** Entries: the hash and its skel. *)
Definition entry_skel (entry : list byte * svn_fs_id_t) : svn_skel_t :=
  SkelList [] [Atom (fst entry); Atom (svn_fs_base__id_unparse (snd entry))].

Definition entries_ok (entries : gmap (list byte) svn_fs_id_t) : Prop := map_Forall (λ _ id, id_ok id) entries.

Lemma unparse_entries_loop_ok entries data children :
  unparse_entries_loop entries (SkelList data children)
  = Ok (SkelList data (map entry_skel (reverse entries) ++ children)).
Proof.
  revert children; induction entries as [|[k v] entries IH]; intros children; [done|].
  cbn [unparse_entries_loop]. unfold_atoms. cbn [svn_skel__prepend rbind].
  by rewrite IH, reverse_cons, map_app, <- app_assoc.
Qed.

Lemma parse_entries_loop_ok (entries : list (list byte * svn_fs_id_t)) (acc : gmap (list byte) svn_fs_id_t) :
  NoDup entries.*1 → Forall (λ entry, id_ok (snd entry)) entries →
  (∀ k v, (k, v) ∈ entries → acc !! k = None) →
  parse_entries_loop (map with_text (map entry_skel entries)) acc = Ok (list_to_map entries ∪ acc).
Proof.
  revert acc; induction entries as [|[k v] entries IH]; intros acc Hnd Hid Hnew.
  { cbn. f_equal. by rewrite (left_id_L ∅ (∪)). }
  apply NoDup_cons in Hnd as [Hk Hnd]. apply Forall_cons in Hid as [Hv Hid].
  cbn [map with_text entry_skel parse_entries_loop fst snd skel_data] in *. rewrite skel_id_atom by done.
  rewrite IH; [|done|done|].
  - f_equal. change (list_to_map ((k, v) :: entries)) with (<[k := v]> (list_to_map entries : gmap (list byte) svn_fs_id_t)).
    rewrite <- insert_union_l, insert_union_r; [done|]. by apply not_elem_of_list_to_map_1.
  - intros k' v' Hin. rewrite lookup_insert_ne; [apply (Hnew k' v'); by right|].
    intros ->. apply Hk. by apply (list_elem_of_fmap_2 fst) in Hin.
Qed.

Lemma entries_round_trip (entries : gmap (list byte) svn_fs_id_t) :
  entries_ok entries →
  ∃ skel, svn_fs_base__unparse_entries_skel (Some entries) = Ok skel
    ∧ svn_fs_base__parse_entries_skel (with_text skel)
      = Ok (if decide (entries = ∅) then None else Some entries).
Proof.
  intros Hids. unfold svn_fs_base__unparse_entries_skel, empty_list, svn_skel__make_empty_list.
  rewrite unparse_entries_loop_ok, app_nil_r. eexists. split; [done|]. set (l := reverse (map_to_list entries)).
  assert (l ≡ₚ map_to_list entries) as Hperm by (unfold l; by rewrite reverse_Permutation).
  assert (NoDup l.*1) as Hnd by (rewrite Hperm; apply NoDup_fst_map_to_list).
  assert (list_to_map l = entries) as Hmap.
  { rewrite <- (list_to_map_to_list entries). by apply list_to_map_proper. }
  assert (Forall (λ entry, id_ok (snd entry)) l) as Hl.
  { rewrite Hperm. apply Forall_forall. intros [k v] Hin. apply elem_of_map_to_list in Hin. by apply (Hids k). }
  pose proof (parse_entries_loop_ok l ∅ Hnd Hl) as Hp. rewrite (right_id_L ∅ (∪)), Hmap in Hp.
  specialize (Hp (λ k _ _, lookup_empty k)). clearbody l. cbn [with_text]. unfold svn_fs_base__parse_entries_skel.
  case_decide as He.
  - subst entries. rewrite He, map_to_list_empty in Hperm. by apply Permutation_nil_r in Hperm as ->.
  - destruct l as [|x l]; [by rewrite <- Hmap in He|]. cbn [map] in *. by rewrite Hp.
Qed.

(** ** The properties *)

(** C26: A node revision written as a skel, printed, parsed and read is the
    same node revision, less the fields that the filesystem format does not
    store. *)
Theorem svn_fs_base__node_revision_stored `{AprStrtoi64} (format : Z) (noderev : node_revision_t) :
  node_revision_ok noderev → text_fits (node_revision_skel format noderev) →
  svn_fs_base__unparse_node_revision_skel noderev format = Ok (node_revision_skel format noderev)
  ∧ (let! skel := stored (node_revision_skel format noderev) in
     svn_fs_base__parse_node_revision_skel skel) = Ok (stored_fields format noderev).
Proof.
  intros Hok Hfits. destruct (node_revision_round_trip format noderev Hok) as [Hu Hp]. split; [done|].
  by rewrite stored_ok.
Qed.

Lemma svn_fs_base__node_revision_stored_witness :
  let id := Build_svn_fs_id_t (bytes "1") (bytes "0") (bytes "2a") in
  let noderev :=
    {| node_kind := svn_node_file; predecessor_id := Some id; predecessor_count := 7; prop_key := None;
       data_key := Some (bytes "x1"); data_key_uniquifier := Some (bytes "u"); edit_key := Some (bytes "e");
       created_path := bytes "/trunk/a"; has_mergeinfo := true; mergeinfo_count := 1 |} in
  node_revision_ok noderev
  ∧ (let! skel := stored (node_revision_skel 4 noderev) in
     @svn_fs_base__parse_node_revision_skel strtol_apr skel) = Ok noderev.
Proof.
  intros id noderev.
  assert (∀ s, bool_decide (NUL ∉ s) = true → string_ok s) as Hs by (intros s; apply bool_decide_eq_true).
  assert (node_revision_ok noderev) as Hok.
  { assert (id_ok id) as Hid by (apply (bool_decide_unpack _); vm_compute; reflexivity).
    split; [right; reflexivity|]. split; [exact Hid|]. split; [cbn; unfold APR_INT32_MAX; lia|]. split; [exact I|].
    split; [split; [discriminate|apply Hs; reflexivity]|]. split; [split; [discriminate|apply Hs; reflexivity]|].
    split; [split; [discriminate|apply Hs; reflexivity]|]. split; [discriminate|]. split; [eexists; reflexivity|].
    split; [apply Hs; reflexivity|]. cbn. unfold LONG_MIN, LONG_MAX. lia. }
  split; [exact Hok|].
  exact (proj2 (@svn_fs_base__node_revision_stored strtol_apr 4 noderev Hok ltac:(vm_compute; reflexivity))).
Defined.

(** A representation, fulltext or delta, with the checksums that the format
    stores, survives being written as a skel, printed, parsed and read. *)
Theorem svn_fs_base__representation_stored `{AprStrtoi64} (format : Z) (rep : representation_t) :
  representation_ok format rep →
  ∃ skel, svn_fs_base__unparse_representation_skel rep format = Ok skel
    ∧ (text_fits skel →
       (let! skel := stored skel in svn_fs_base__parse_representation_skel skel) = Ok rep).
Proof.
  intros Hok. destruct (representation_round_trip format rep Hok) as (skel & Hu & Hp).
  exists skel. split; [done|]. intros Hfits. by rewrite stored_ok.
Qed.

Lemma svn_fs_base__representation_stored_witness :
  let rep :=
    {| rep_txn_id := Some (bytes "5"); md5_checksum := Some {| digest := replicate 16 xff; kind := svn_checksum_md5 |};
       sha1_checksum := None;
       contents := rep_kind_delta [{| version := 1; offset := 0; string_key := Some (bytes "k"); size := 100;
                                      rep_key := Some (bytes "r") |}] |} in
  ∃ skel, svn_fs_base__unparse_representation_skel rep 3 = Ok skel.
Proof.
  intros rep.
  assert (∀ s, bool_decide (NUL ∉ s) = true → string_ok s) as Hs by (intros s; apply bool_decide_eq_true).
  assert (representation_ok 3 rep) as Hok.
  { split; [apply Hs; reflexivity|]. split; [split; reflexivity|]. split; [exact I|]. split; [discriminate|].
    apply Forall_cons; split; [|apply Forall_nil_2; exact I].
    split; [right; reflexivity|]. split; [cbn; unfold LONG_MAX; lia|]. split; [cbn; unfold LONG_MAX; lia|].
    split; apply Hs; reflexivity. }
  destruct (@svn_fs_base__representation_stored strtol_apr 3 rep Hok) as (skel & Hu & _).
  exists skel. exact Hu.
Defined.

(** A transaction written as a skel, printed, parsed and read is the same
    transaction. *)
Theorem svn_fs_base__transaction_stored (transaction : transaction_t) :
  transaction_ok transaction →
  ∃ skel, svn_fs_base__unparse_transaction_skel transaction = Ok skel
    ∧ (text_fits skel →
       (let! skel := stored skel in svn_fs_base__parse_transaction_skel skel) = Ok transaction).
Proof.
  intros Hok. destruct (transaction_round_trip transaction Hok) as (skel & Hu & Hp).
  exists skel. split; [done|]. intros Hfits. by rewrite stored_ok.
Qed.

Lemma svn_fs_base__transaction_stored_witness :
  let id := Build_svn_fs_id_t (bytes "0") (bytes "0") (bytes "1") in
  let transaction :=
    {| transaction_kind := transaction_kind_committed; revision := 12; proplist := Some {[ bytes "p" := bytes "v" ]};
       root_id := Some id; base_id := None; copies := Some [bytes "c1"; bytes "c2"] |} in
  transaction_ok transaction ∧ ∃ skel, svn_fs_base__unparse_transaction_skel transaction = Ok skel.
Proof.
  intros id transaction.
  assert (transaction_ok transaction) as Hok.
  { split; [split; [cbn; unfold LONG_MAX; lia|reflexivity]|]. split.
    - exists id. split; [reflexivity|]. apply (bool_decide_unpack _). vm_compute. reflexivity.
    - split; [discriminate|]. split; [discriminate|].
      repeat (apply Forall_cons; split); [| |apply Forall_nil_2; exact I]; apply (bool_decide_unpack _); vm_compute; reflexivity. }
  split; [exact Hok|]. destruct (svn_fs_base__transaction_stored transaction Hok) as (skel & Hu & _).
  exists skel. exact Hu.
Defined.

(** Revisions, copies, directory entries, changes and locks survive being
    written as skels, printed, parsed and read; an empty directory is read
    as no directory. *)
Theorem svn_fs_base__records_stored `{AprTime} (revision : revision_t) (copy : copy_t)
    (entries : gmap (list byte) svn_fs_id_t) (change : change_t) (lock : svn_lock_t) :
  string_ok (revision_txn_id revision) → copy_ok copy → entries_ok entries → change_ok change → lock_ok lock →
  ∃ revision_skel copy_skel entries_skel change_skel lock_skel,
    svn_fs_base__unparse_revision_skel revision = Ok revision_skel
    ∧ (text_fits revision_skel →
       (let! skel := stored revision_skel in svn_fs_base__parse_revision_skel skel) = Ok revision)
    ∧ svn_fs_base__unparse_copy_skel copy = Ok copy_skel
    ∧ (text_fits copy_skel → (let! skel := stored copy_skel in svn_fs_base__parse_copy_skel skel) = Ok copy)
    ∧ svn_fs_base__unparse_entries_skel (Some entries) = Ok entries_skel
    ∧ (text_fits entries_skel →
       (let! skel := stored entries_skel in svn_fs_base__parse_entries_skel skel)
       = Ok (if decide (entries = ∅) then None else Some entries))
    ∧ svn_fs_base__unparse_change_skel change = Ok change_skel
    ∧ (text_fits change_skel →
       (let! skel := stored change_skel in svn_fs_base__parse_change_skel skel) = Ok change)
    ∧ svn_fs_base__unparse_lock_skel lock = Ok lock_skel
    ∧ (text_fits lock_skel → (let! skel := stored lock_skel in svn_fs_base__parse_lock_skel skel) = Ok lock).
Proof.
  intros Hr Hc He Hch Hl. destruct (revision_ok revision Hr) as (s1 & Hu1 & Hp1).
  destruct (copy_round_trip copy Hc) as (s2 & Hu2 & Hp2). destruct (entries_round_trip entries He) as (s3 & Hu3 & Hp3).
  destruct (change_round_trip change Hch) as (s4 & Hu4 & Hp4). destruct (lock_round_trip lock Hl) as (s5 & Hu5 & Hp5).
  exists s1, s2, s3, s4, s5. repeat split; try done; intros; by rewrite stored_ok.
Qed.

Lemma svn_fs_base__records_stored_witness :
  let id := Build_svn_fs_id_t (bytes "0") (bytes "0") (bytes "1") in
  let lock :=
    {| lock_path := bytes "/a"; token := bytes "opaquelocktoken:1"; owner := bytes "me"; comment := None;
       is_dav_comment := false; creation_date := 1234567890000000; expiration_date := 0 |} in
  lock_ok lock ∧ ∃ skel, @svn_fs_base__unparse_lock_skel calendar_28 lock = Ok skel.
Proof.
  intros id lock.
  assert (∀ s, bool_decide (NUL ∉ s) = true → string_ok s) as Hs by (intros s; apply bool_decide_eq_true).
  assert (id_ok id) as Hid by (apply (bool_decide_unpack _); vm_compute; reflexivity).
  assert (lock_ok lock) as Hl.
  { split; [apply Hs; reflexivity|]. split; [apply Hs; reflexivity|]. split; [apply Hs; reflexivity|]. split; [exact I|].
    split; unfold time_ok; cbn; lia. }
  split; [exact Hl|].
  destruct (@svn_fs_base__records_stored calendar_28 {| revision_txn_id := bytes "1" |}
    {| copy_kind := copy_kind_real; src_path := Some (bytes "/a"); src_txn_id := Some (bytes "1"); dst_noderev_id := Some id |}
    {[ bytes "a" := id ]}
    {| change_path := bytes "/a"; noderev_id := Some id; change_kind := svn_fs_path_change_add; text_mod := true; prop_mod := false |}
    lock) as (s1 & s2 & s3 & s4 & s5 & _ & _ & _ & _ & _ & _ & _ & _ & Hu & _).
  - apply Hs. reflexivity.
  - split; [apply Hs; reflexivity|]. split; [apply Hs; reflexivity|]. exists id. split; [reflexivity|exact Hid].
  - apply map_Forall_singleton. exact Hid.
  - split; [apply Hs; reflexivity|exact Hid].
  - exact Hl.
  - exists s5. exact Hu.
Defined.

(** A node revision of an unknown kind is taken for valid whatever follows its
    header, and parsing it goes through a null pointer. *)
Lemma node_revision_unknown_kind `{AprStrtoi64} :
  let skel := SkelList [] [SkelList [] [Atom (bytes "link"); Atom (bytes "/a")]] in
  is_valid_node_revision_skel skel = Ok true ∧ svn_fs_base__parse_node_revision_skel skel = Undefined.
Proof. by split. Qed.

(** The length of a stored checksum is not checked. *)
Lemma representation_short_checksum `{AprStrtoi64} :
  let skel := SkelList [] [SkelList [] [Atom (bytes "fulltext"); Atom (bytes "1");
                                        SkelList [] [Atom (bytes "md5"); Atom (bytes "short")]]; Atom (bytes "k")] in
  is_valid_representation_skel skel = true ∧ svn_fs_base__parse_representation_skel skel = Undefined.
Proof. by split. Qed.
