(* ===== verification/MergeRange.v ===== *)
(** * Merge ranges

    [svn_merge_range_t], its comparison function and the interval predicates of
    [src/subversion/libsvn_subr/mergeinfo.c], with the meaning of a range and of
    a rangelist as sets of revisions.  A rangelist ([svn_rangelist_t], an APR
    array of pointers to ranges of its own) is a list of ranges. *)
From S2P Require Import Prelude.

(** ** Data *)

(** A forward range describes the revisions [start + 1 .. end_]. *)
Record svn_merge_range_t := MkRange {
  start : Z;
  end_ : Z;
  inheritable : bool;
}.

#[global] Instance svn_merge_range_eq_dec : EqDecision svn_merge_range_t.
Proof. solve_decision. Defined.

Abbreviation svn_rangelist_t := (list svn_merge_range_t) (only parsing).

(** Assignments to one field of a range. *)
Definition set_start (r : svn_merge_range_t) (v : Z) : svn_merge_range_t :=
  MkRange v (end_ r) (inheritable r).
Definition set_end (r : svn_merge_range_t) (v : Z) : svn_merge_range_t :=
  MkRange (start r) v (inheritable r).
Definition set_inheritable (r : svn_merge_range_t) (b : bool) : svn_merge_range_t :=
  MkRange (start r) (end_ r) b.

(** [!(a) == !(b)] on [svn_boolean_t] values; also [a == b] (they hold 0 or 1). *)
Definition same_inheritance (a b : svn_merge_range_t) : bool :=
  Bool.eqb (inheritable a) (inheritable b).

(** ** Operations *)

Definition IS_VALID_FORWARD_RANGE (range : svn_merge_range_t) : bool :=
  SVN_IS_VALID_REVNUM (start range) && (start range <? end_ range).

Definition svn_sort_compare_ranges (item1 item2 : svn_merge_range_t) : Z :=
  if (start item1 =? start item2) && (end_ item1 =? end_ item2) then 0
  else if start item1 =? start item2 then
    if end_ item1 <? end_ item2 then -1 else 1
  else if start item1 <? start item2 then -1 else 1.

(** [Some output] is the result [TRUE]. *)
Definition combine_ranges (in1 in2 : svn_merge_range_t)
    (consider_inheritance : bool) : option svn_merge_range_t :=
  if (start in1 <=? end_ in2) && (start in2 <=? end_ in1) then
    if negb consider_inheritance
       || (consider_inheritance && same_inheritance in1 in2)
    then Some (MkRange (Z.min (start in1) (start in2))
                 (Z.max (end_ in1) (end_ in2))
                 (inheritable in1 || inheritable in2))
    else None
  else None.

Inductive intersection_type_t :=
  | svn__no_intersection
  | svn__equal_intersection
  | svn__adjoining_intersection
  | svn__overlapping_intersection
  | svn__proper_subset_intersection.

Definition get_type_of_intersection (r1 r2 : svn_merge_range_t)
    : result intersection_type_t :=
  assert! IS_VALID_FORWARD_RANGE r1 in
  assert! IS_VALID_FORWARD_RANGE r2 in
  Ok (if negb ((start r1 <=? end_ r2) && (start r2 <=? end_ r1))
      then svn__no_intersection
      else if (start r1 =? start r2) && (end_ r1 =? end_ r2)
      then svn__equal_intersection
      else if (end_ r1 =? start r2) || (end_ r2 =? start r1)
      then svn__adjoining_intersection
      else if (start r1 <=? start r2) && (end_ r2 <=? end_ r1)
      then svn__proper_subset_intersection
      else if (start r2 <=? start r1) && (end_ r1 <=? end_ r2)
      then svn__proper_subset_intersection
      else svn__overlapping_intersection).

Definition range_intersect (first second : svn_merge_range_t)
    (consider_inheritance : bool) : result bool :=
  assert! IS_VALID_FORWARD_RANGE first in
  assert! IS_VALID_FORWARD_RANGE second in
  Ok ((start first + 1 <=? end_ second)
      && (start second + 1 <=? end_ first)
      && (negb consider_inheritance || same_inheritance first second)).

Definition range_contains (first second : svn_merge_range_t)
    (consider_inheritance : bool) : result bool :=
  assert! IS_VALID_FORWARD_RANGE first in
  assert! IS_VALID_FORWARD_RANGE second in
  Ok ((start first <=? start second) && (end_ second <=? end_ first)
      && (negb consider_inheritance || same_inheritance first second)).

Definition range_swap_endpoints (range : svn_merge_range_t) : svn_merge_range_t :=
  MkRange (end_ range) (start range) (inheritable range).

Definition svn_merge_range_contains_rev (range : svn_merge_range_t) (rev : Z)
    : result bool :=
  assert! SVN_IS_VALID_REVNUM (start range) in
  assert! SVN_IS_VALID_REVNUM (end_ range) in
  assert! negb (start range =? end_ range) in
  Ok (if start range <? end_ range
      then (start range <? rev) && (rev <=? end_ range)
      else (end_ range <? rev) && (rev <=? start range)).

(** ** What ranges and rangelists mean *)

Definition in_range (r : svn_merge_range_t) (rev : Z) : bool :=
  (start r <? rev) && (rev <=? end_ r).

(** [covers_as b rl rev]: a range of [rl] with inheritability [b] contains
    revision [rev]. *)
Fixpoint covers_as (b : bool) (rl : svn_rangelist_t) (rev : Z) : bool :=
  match rl with
  | [] => false
  | r :: rl => (Bool.eqb (inheritable r) b && in_range r rev) || covers_as b rl rev
  end.

(** [covers rl rev]: some range of [rl] contains revision [rev]. *)
Fixpoint covers (rl : svn_rangelist_t) (rev : Z) : bool :=
  match rl with
  | [] => false
  | r :: rl => in_range r rev || covers rl rev
  end.

(** Forward, non-overlapping ranges in ascending order, from [lo] on: the
    rangelist of [svn_mergeinfo.h]. *)
Fixpoint wf_from (lo : Z) (rl : svn_rangelist_t) : bool :=
  match rl with
  | [] => true
  | r :: rl => (lo <=? start r) && (start r <? end_ r) && wf_from (end_ r) rl
  end.

Abbreviation rangelist_wf := (wf_from 0).

(** Moreover no two neighbours could be written as one range. *)
Fixpoint compact (rl : svn_rangelist_t) : bool :=
  match rl with
  | [] => true
  | r :: rl =>
      match rl with
      | [] => true
      | r' :: _ => negb ((end_ r =? start r') && same_inheritance r r')
      end && compact rl
  end.

(** The end of the last range, [lo] for an empty rangelist. *)
Fixpoint last_end (lo : Z) (rl : svn_rangelist_t) : Z :=
  match rl with
  | [] => lo
  | r :: rl => last_end (end_ r) rl
  end.

Definition all_as (b : bool) (rl : svn_rangelist_t) : bool :=
  forallb (λ r, Bool.eqb (inheritable r) b) rl.

(** ** Lemmas *)

Create Rewrite HintDb rangelist.

Section Semantics.
Implicit Types (r : svn_merge_range_t) (rl : svn_rangelist_t).

Lemma covers_as_app b rl1 rl2 rev :
  covers_as b (rl1 ++ rl2) rev = covers_as b rl1 rev || covers_as b rl2 rev.
Proof. induction rl1 as [|r rl1 IH]; simpl; [done|]. rewrite IH. lia. Qed.

Lemma covers_app rl1 rl2 rev :
  covers (rl1 ++ rl2) rev = covers rl1 rev || covers rl2 rev.
Proof. induction rl1 as [|r rl1 IH]; simpl; [done|]. rewrite IH. lia. Qed.

Lemma covers_split rl rev :
  covers rl rev = covers_as true rl rev || covers_as false rl rev.
Proof.
  induction rl as [|r rl IH]; simpl; [done|]. rewrite IH.
  destruct (inheritable r); simpl; lia.
Qed.

Lemma wf_from_app lo rl1 rl2 :
  wf_from lo (rl1 ++ rl2) = wf_from lo rl1 && wf_from (last_end lo rl1) rl2.
Proof.
  revert lo; induction rl1 as [|r rl1 IH]; intros lo; simpl; [done|].
  rewrite IH. lia.
Qed.

Lemma last_end_app lo rl1 rl2 :
  last_end lo (rl1 ++ rl2) = last_end (last_end lo rl1) rl2.
Proof. revert lo; induction rl1 as [|r rl1 IH]; intros lo; simpl; auto. Qed.

Lemma all_as_app b rl1 rl2 : all_as b (rl1 ++ rl2) = all_as b rl1 && all_as b rl2.
Proof. apply forallb_app. Qed.

Lemma wf_from_weaken lo lo' rl : wf_from lo rl = true → lo' ≤ lo → wf_from lo' rl = true.
Proof. destruct rl as [|r rl]; simpl; lia. Qed.

Lemma last_end_ge lo rl : wf_from lo rl = true → lo ≤ last_end lo rl.
Proof.
  revert lo; induction rl as [|r rl IH]; intros lo; simpl; [lia|].
  intros H. pose proof (IH (end_ r)). lia.
Qed.

(** Every revision of a well-formed rangelist lies within its bounds. *)
Lemma covers_bounds lo rl rev :
  wf_from lo rl = true → covers rl rev = true → lo < rev ≤ last_end lo rl.
Proof.
  revert lo; induction rl as [|r rl IH]; intros lo; simpl; [done|].
  intros Hwf Hc. pose proof (IH (end_ r)). pose proof (last_end_ge (end_ r) rl).
  unfold in_range in Hc. lia.
Qed.

Lemma covers_as_covers b rl rev : covers_as b rl rev = true → covers rl rev = true.
Proof. intros H. rewrite covers_split. destruct b; lia. Qed.

Lemma covers_as_bounds b lo rl rev :
  wf_from lo rl = true → covers_as b rl rev = true → lo < rev ≤ last_end lo rl.
Proof. eauto using covers_bounds, covers_as_covers. Qed.

Lemma all_as_covers_as b rl rev : all_as b rl = true → covers_as (negb b) rl rev = false.
Proof.
  induction rl as [|r rl IH]; simpl; [done|]. intros H.
  rewrite IH by lia. destruct (inheritable r), b; simpl in *; lia.
Qed.

(** Non-overlapping ranges: a revision is covered with one inheritability. *)
Lemma covers_as_unique lo rl rev :
  wf_from lo rl = true → covers_as true rl rev = true → covers_as false rl rev = false.
Proof.
  revert lo; induction rl as [|r rl IH]; intros lo; simpl; [done|]. intros Hwf.
  pose proof (IH (end_ r)). unfold in_range.
  pose proof (covers_as_bounds true (end_ r) rl rev).
  pose proof (covers_as_bounds false (end_ r) rl rev).
  destruct (inheritable r); simpl; lia.
Qed.

Lemma compare_ranges_spec r1 r2 :
  (svn_sort_compare_ranges r1 r2 = 0 ∧ start r1 = start r2 ∧ end_ r1 = end_ r2)
  ∨ (svn_sort_compare_ranges r1 r2 = -1
     ∧ (start r1 < start r2 ∨ (start r1 = start r2 ∧ end_ r1 < end_ r2)))
  ∨ (svn_sort_compare_ranges r1 r2 = 1
     ∧ (start r2 < start r1 ∨ (start r1 = start r2 ∧ end_ r2 < end_ r1))).
Proof. unfold svn_sort_compare_ranges. repeat case_match; lia. Qed.

Lemma valid_forward lo r :
  0 ≤ lo → lo ≤ start r → start r < end_ r → IS_VALID_FORWARD_RANGE r = true.
Proof. unfold IS_VALID_FORWARD_RANGE, SVN_IS_VALID_REVNUM. lia. Qed.
End Semantics.

#[export] Hint Rewrite covers_as_app covers_app wf_from_app last_end_app all_as_app
  : rangelist.

(** Case analysis on the comparison of two ranges. *)
Ltac compare_ranges r1 r2 :=
  let H := fresh "Hcmp" in
  destruct (compare_ranges_spec r1 r2) as [[-> H]|[[-> H]|[-> H]]]; simpl.

(** Unfold the meaning of concrete rangelists and leave arithmetic on the
    endpoints: [lia] treats the coverage of the other parts as atoms. *)
Ltac range_simpl :=
  autorewrite with rangelist in *; simpl in *;
  unfold set_start, set_end, set_inheritable, in_range, same_inheritance in *;
  cbn [start end_ inheritable] in *.

(** Split on the inheritability of every range in sight. *)
Ltac inh_case r :=
  lazymatch r with
  | MkRange _ _ _ => fail
  | _ => let b := fresh "b" in
         set (b := inheritable r) in *; clearbody b; destruct b
  end.
Ltac inh_cases :=
  repeat match goal with
  | H : context [inheritable ?r] |- _ => inh_case r
  | |- context [inheritable ?r] => inh_case r
  end.

(** [wf_from] is monotone in its bound: give [lia] the instances it needs. *)
Ltac wf_weaken :=
  repeat match goal with
  | H : context [wf_from ?a ?l] |- context [wf_from ?b ?l] =>
      assert_fails (constr_eq a b);
      lazymatch goal with
      | _ : wf_from a l = true → b ≤ a → wf_from b l = true |- _ => fail
      | _ => pose proof (wf_from_weaken a b l)
      end
  end.

(** Conjunctions apart, known inheritabilities replaced. *)
Ltac range_hyps :=
  repeat match goal with
  | H : _ && _ = true |- _ => apply andb_true_iff in H as [? ?]
  | H : true = true |- _ => clear H
  | H : Bool.eqb _ _ = true |- _ => apply Bool.eqb_prop in H
  | H : inheritable ?r = true, H' : context [inheritable ?r] |- _ =>
      lazymatch type of H' with inheritable r = true => fail | _ => rewrite H in H' end
  | H : inheritable ?r = false, H' : context [inheritable ?r] |- _ =>
      lazymatch type of H' with inheritable r = false => fail | _ => rewrite H in H' end
  | H : inheritable ?r = ?b |- context [inheritable ?r] => rewrite H
  end.

Ltac range_lia :=
  range_simpl; range_hyps; simpl in *; range_hyps; wf_weaken;
  first [done | congruence | lia
        | inh_cases; simpl in *; first [lia | discriminate | done]].
