(* ===== verification/RangelistMerge.v ===== *)
(** * Merging rangelists

    [svn_rangelist_merge2] and its helper [adjust_remaining_ranges]
    ([src/subversion/libsvn_subr/mergeinfo.c]), which modify a rangelist in
    place while walking it and the list of changes side by side. *)
From S2P Require Import Prelude MergeRange.

Implicit Types (rangelist changes : svn_rangelist_t).

(** ** [adjust_remaining_ranges]

    The body of the [for] loop, at index [i]; [mi] is the index of
    [MODIFIED_RANGE].  A [break] leaves the loop with the rangelist,
    [*range_index] and [elements_to_delete].  [recurse] is the recursive call
    of [adjust_remaining_ranges]; [n] bounds the remaining iterations. *)
Fixpoint adjust_loop
    (recurse : svn_rangelist_t → nat → result (svn_rangelist_t * nat))
    (n : nat) rangelist (range_index mi i elements_to_delete : nat)
    : result (svn_rangelist_t * nat * nat) :=
  match n with
  | O => Ok (rangelist, range_index, elements_to_delete)
  | S n =>
    match rangelist !! mi, rangelist !! i with
    | Some modified_range, Some next_range =>
      if end_ modified_range <? start next_range then
        Ok (rangelist, range_index, elements_to_delete)
      else if end_ modified_range =? start next_range then
        if same_inheritance modified_range next_range then
          Ok (<[mi := set_end modified_range (end_ next_range)]> rangelist,
              range_index, S elements_to_delete)
        else Ok (rangelist, S range_index, elements_to_delete)
      else if end_ next_range <? end_ modified_range then
        if inheritable modified_range
           || same_inheritance modified_range next_range
        then adjust_loop recurse n rangelist range_index mi (S i)
               (S elements_to_delete)
        else
          let new_modified_range :=
            MkRange (end_ next_range) (end_ modified_range) false in
          let rangelist :=
            <[mi := set_end modified_range (start next_range)]> rangelist in
          let range_index := (range_index + 2)%nat in
          let! rangelist :=
            svn_sort__array_insert new_modified_range rangelist range_index in
          let! (rangelist, range_index) := recurse rangelist range_index in
          Ok (rangelist, range_index, elements_to_delete)
      else if end_ modified_range =? end_ next_range then
        if inheritable modified_range
           || same_inheritance modified_range next_range
        then Ok (rangelist, range_index, S elements_to_delete)
        else Ok (<[mi := set_end modified_range (start next_range)]> rangelist,
                 S range_index, elements_to_delete)
      else if same_inheritance modified_range next_range then
        Ok (<[mi := set_end modified_range (end_ next_range)]> rangelist,
            range_index, S elements_to_delete)
      else if inheritable modified_range then
        Ok (<[i := set_start next_range (end_ modified_range)]> rangelist,
            S range_index, elements_to_delete)
      else
        Ok (<[mi := set_end modified_range (start next_range)]> rangelist,
            S range_index, elements_to_delete)
    | _, _ => Ok (rangelist, range_index, elements_to_delete)
    end
  end.

(** Returns the rangelist and [*range_index].  [fuel] bounds the depth of the
    recursion. *)
Fixpoint adjust_remaining_ranges (fuel : nat) rangelist (range_index : nat)
    : result (svn_rangelist_t * nat) :=
  match fuel with
  | O => OutOfFuel
  | S fuel =>
    if (length rangelist <=? range_index)%nat then Ok (rangelist, range_index)
    else
      let starting_index := S range_index in
      let! (rangelist, new_index, elements_to_delete) :=
        adjust_loop (adjust_remaining_ranges fuel) (length rangelist)
          rangelist range_index range_index starting_index 0 in
      Ok (if (0 <? elements_to_delete)%nat
          then svn_sort__array_delete rangelist starting_index elements_to_delete
          else rangelist,
          new_index)
  end.

(** Every recursive call works on a shorter tail of the rangelist. *)
Definition adjust_fuel rangelist : nat := S (length rangelist).

(** ** [svn_rangelist_merge2] *)

Record merge2_state := MkMerge2 {
  m2_rangelist : svn_rangelist_t;
  m2_changes : svn_rangelist_t;
  m2_i : nat;
  m2_j : nat;
}.

(** The case [res < 0]: RANGE is older than CHANGE. *)
Definition merge2_range_older rangelist changes (i j : nat)
    (range change : svn_merge_range_t) : result merge2_state :=
  if end_ range <? start change then
    Ok (MkMerge2 rangelist changes (S i) j)
  else if end_ range =? start change then
    if same_inheritance range change then
      let rangelist := <[i := set_end range (end_ change)]> rangelist in
      let! (rangelist, i) :=
        adjust_remaining_ranges (adjust_fuel rangelist) rangelist i in
      Ok (MkMerge2 rangelist changes i (S j))
    else Ok (MkMerge2 rangelist changes (S i) j)
  else if same_inheritance range change || inheritable range then
    if end_ change <=? end_ range then
      Ok (MkMerge2 rangelist changes i (S j))
    else
      Ok (MkMerge2 rangelist (<[j := set_start change (end_ range)]> changes) i j)
  else if start range <? start change then
    let range_copy := set_end range (start change) in
    let rangelist := <[i := set_start range (start change)]> rangelist in
    let! rangelist := svn_sort__array_insert range_copy rangelist i in
    Ok (MkMerge2 rangelist changes (S i) j)
  else
    Ok (MkMerge2 (<[i := set_inheritable range true]> rangelist)
          (<[j := set_start change (end_ range)]> changes) i j).

(** The overlap of a non-inheritable RANGE with an older, inheritable CHANGE. *)
Definition merge2_change_absorbs rangelist changes (i j : nat)
    (range change : svn_merge_range_t) : result merge2_state :=
  if start change <? start range then
    let widened := MkRange (start change) (end_ range) true in
    if end_ change =? end_ range then
      Ok (MkMerge2 (<[i := widened]> rangelist) changes i (S j))
    else if end_ range <? end_ change then
      Ok (MkMerge2 (<[i := widened]> rangelist)
            (<[j := set_start change (end_ range)]> changes) i j)
    else
      let range_copy := set_start range (end_ change) in
      let rangelist :=
        <[i := MkRange (start change) (end_ change) true]> rangelist in
      let! rangelist := svn_sort__array_insert range_copy rangelist (S i) in
      Ok (MkMerge2 rangelist changes (S i) (S j))
  else
    let range_copy := set_inheritable (set_end range (end_ change)) true in
    let rangelist := <[i := set_start range (end_ change)]> rangelist in
    let! rangelist := svn_sort__array_insert range_copy rangelist i in
    Ok (MkMerge2 rangelist changes (S i) (S j)).

(** The case [res > 0]: CHANGE is older than RANGE. *)
Definition merge2_change_older rangelist changes (i j : nat)
    (range change : svn_merge_range_t) : result merge2_state :=
  if end_ change <? start range then
    let! rangelist := svn_sort__array_insert change rangelist i in
    Ok (MkMerge2 rangelist changes (S i) (S j))
  else if end_ change =? start range then
    if same_inheritance range change then
      Ok (MkMerge2 (<[i := set_start range (start change)]> rangelist)
            changes i (S j))
    else
      let! rangelist := svn_sort__array_insert change rangelist i in
      Ok (MkMerge2 rangelist changes i (S j))
  else if same_inheritance range change then
    let range := set_start range (start change) in
    if end_ range <? end_ change then
      let rangelist := <[i := set_end range (end_ change)]> rangelist in
      let! (rangelist, i) :=
        adjust_remaining_ranges (adjust_fuel rangelist) rangelist i in
      Ok (MkMerge2 rangelist changes i (S j))
    else Ok (MkMerge2 (<[i := range]> rangelist) changes i (S j))
  else if inheritable range then
    if start change <? start range then
      let change_copy := set_end change (start range) in
      let! rangelist := svn_sort__array_insert change_copy rangelist i in
      Ok (MkMerge2 rangelist (<[j := set_start change (start range)]> changes)
            (S i) j)
    else Ok (MkMerge2 rangelist changes i (S j))
  else merge2_change_absorbs rangelist changes i j range change.

(** One iteration of the [while] loop. *)
Definition merge2_step (s : merge2_state) (range change : svn_merge_range_t)
    : result merge2_state :=
  let 'MkMerge2 rangelist changes i j := s in
  let res := svn_sort_compare_ranges range change in
  if res =? 0 then
    Ok (MkMerge2
          (if inheritable range || inheritable change
           then <[i := set_inheritable range true]> rangelist else rangelist)
          changes (S i) (S j))
  else if res <? 0 then merge2_range_older rangelist changes i j range change
  else merge2_change_older rangelist changes i j range change.

Fixpoint merge2_loop (fuel : nat) (s : merge2_state) : result merge2_state :=
  match fuel with
  | O => OutOfFuel
  | S fuel =>
    match m2_rangelist s !! m2_i s, m2_changes s !! m2_j s with
    | Some range, Some change =>
        let! s := merge2_step s range change in merge2_loop fuel s
    | _, _ => Ok s
    end
  end.

Definition merge2_fuel rangelist changes : nat :=
  4 + 3 * length rangelist + 7 * length changes.

(** Appends [changes[j..]] one by one. *)
Fixpoint merge2_append rangelist (remaining : svn_rangelist_t)
    : result svn_rangelist_t :=
  match remaining with
  | [] => Ok rangelist
  | change :: remaining =>
      let! rangelist :=
        svn_sort__array_insert change rangelist (length rangelist) in
      merge2_append rangelist remaining
  end.

Definition svn_rangelist_merge2 rangelist changes : result svn_rangelist_t :=
  let! s := merge2_loop (merge2_fuel rangelist changes)
              (MkMerge2 rangelist changes 0 0) in
  merge2_append (m2_rangelist s) (drop (m2_j s) (m2_changes s)).


(** ** Correctness of [adjust_remaining_ranges] *)

(** What extending [m] to overlap its successors [rest] must produce: [m'] and
    [rest'] describe the same revisions, and an inheritable description wins.
    [adv] tells whether [*range_index] moved on to the first range of [rest']. *)
Record adjusted (m : svn_merge_range_t) (rest : svn_rangelist_t)
    (m' : svn_merge_range_t) (rest' : svn_rangelist_t) (adv : bool) : Prop := {
  adj_start : start m' = start m;
  adj_inheritable : inheritable m' = inheritable m;
  adj_wf : wf_from (start m) (m' :: rest') = true;
  adj_covers rev : covers (m' :: rest') rev = covers (m :: rest) rev;
  adj_inh rev : covers_as true (m' :: rest') rev = covers_as true (m :: rest) rev;
  adj_all b : all_as b rest = true → all_as b rest' = true;
  adj_length : (length rest' ≤ length rest)%nat;
  adj_adv : if adv then end_ m' ≤ end_ m ∧ rest' ≠ [] else True;
}.

(** When [m] cannot be split by an inheritable successor. *)
Definition adjustable (m : svn_merge_range_t) (rest : svn_rangelist_t) : Prop :=
  inheritable m = true ∨ all_as false rest = true.

(** Absorbing one successor that ends before [m] does. *)
Lemma adjusted_absorb m r rest m' rest' adv :
  start m < start r → start r < end_ r → end_ r < end_ m →
  inheritable m || same_inheritance m r = true →
  adjusted m rest m' rest' adv → adjusted m (r :: rest) m' rest' adv.
Proof.
  intros ? ? ? Hinh []. split; try done; intros.
  - rewrite adj_covers0. range_lia.
  - rewrite adj_inh0. range_lia.
  - apply adj_all0. range_lia.
  - simpl. lia.
Qed.

(** The ways in which the loop ends. *)
Lemma adjusted_done m rest m' rest' (adv : bool) :
  start m' = start m → inheritable m' = inheritable m →
  wf_from (start m) (m' :: rest') = true →
  (∀ rev, covers (m' :: rest') rev = covers (m :: rest) rev) →
  (∀ rev, covers_as true (m' :: rest') rev = covers_as true (m :: rest) rev) →
  (∀ b, all_as b rest = true → all_as b rest' = true) →
  (length rest' ≤ length rest)%nat →
  (if adv then end_ m' ≤ end_ m ∧ rest' ≠ [] else True) →
  adjusted m rest m' rest' adv.
Proof. by split. Qed.

Ltac adjusted_done :=
  apply adjusted_done; [| | |intros rev|intros rev|intros b'| |];
  try (split; [|done]); try done; range_lia.

Lemma adjust_loop_spec recurse n (pre dead rest : svn_rangelist_t) m :
  (length rest ≤ n)%nat →
  start m < end_ m → wf_from (start m + 1) rest = true → adjustable m rest →
  ∃ (m' : svn_merge_range_t) (dead' rest' : svn_rangelist_t) (adv : bool),
    adjust_loop recurse n (pre ++ m :: dead ++ rest) (length pre) (length pre)
      (S (length pre + length dead)) (length dead)
    = Ok (pre ++ m' :: dead' ++ rest',
          (length pre + Nat.b2n adv)%nat, length dead')
    ∧ adjusted m rest m' rest' adv.
Proof.
  revert dead rest; induction n as [|n IH]; intros dead rest Hn Hm Hwf Hadj.
  { destruct rest; [|simpl in Hn; lia]. exists m, dead, [], false.
    split; [by rewrite Nat.add_0_r|]. adjusted_done. }
  simpl. rewrite list_lookup_middle by done.
  destruct rest as [|r rest].
  { rewrite (lookup_end _ (S _)) by (rewrite length_app; simpl; rewrite length_app; simpl; lia).
    exists m, dead, [], false. split; [by rewrite Nat.add_0_r|]. adjusted_done. }
  replace (pre ++ m :: dead ++ r :: rest) with ((pre ++ m :: dead) ++ r :: rest)
    by by rewrite <- app_assoc.
  rewrite list_lookup_middle by (rewrite length_app; simpl; lia).
  assert (Hr : start m < start r ∧ start r < end_ r ∧ wf_from (end_ r) rest = true)
    by range_lia.
  case_if.
  { exists m, dead, (r :: rest), false.
    split; [by rewrite Nat.add_0_r, <- app_assoc|]. adjusted_done. }
  case_if.
  { case_if.
    - exists (set_end m (end_ r)), (dead ++ [r]), rest, false. split.
      + rewrite <- app_assoc. simpl. rewrite insert_middle by done.
        rewrite Nat.add_0_r, <- app_assoc, length_app. simpl. repeat f_equal. lia.
      + adjusted_done.
    - exists m, dead, (r :: rest), true. split.
      + rewrite Nat.add_1_r, <- app_assoc. done.
      + adjusted_done. }
  case_if.
  { case_if.
    - destruct (IH (dead ++ [r]) rest) as (m' & dead' & rest' & adv & He & Ha).
      + simpl in Hn; lia.
      + lia.
      + eapply wf_from_weaken; [apply Hr|lia].
      + destruct Hadj; [by left|right; range_lia].
      + exists m', dead', rest', adv. rewrite length_app in He. simpl in He.
        rewrite <- He, <- !app_assoc. simpl. split; [repeat f_equal; lia|].
        apply adjusted_absorb; [lia..|done|done].
    - destruct Hadj; range_lia. }
  case_if.
  { case_if.
    - exists m, (dead ++ [r]), rest, false. split.
      + rewrite <- !app_assoc, length_app, Nat.add_0_r. simpl. repeat f_equal. lia.
      + adjusted_done.
    - destruct Hadj; range_lia. }
  case_if.
  { exists (set_end m (end_ r)), (dead ++ [r]), rest, false. split.
    - rewrite <- app_assoc. simpl. rewrite insert_middle by done.
      rewrite Nat.add_0_r, <- app_assoc, length_app. simpl. repeat f_equal. lia.
    - adjusted_done. }
  case_if; [|destruct Hadj; range_lia].
  exists m, dead, (set_start r (end_ m) :: rest), true. split.
  - rewrite insert_middle by (rewrite length_app; simpl; lia).
    rewrite Nat.add_1_r, <- app_assoc. done.
  - adjusted_done.
Qed.

Lemma adjust_remaining_ranges_spec fuel (pre rest : svn_rangelist_t) m i :
  (0 < fuel)%nat → i = length pre →
  start m < end_ m → wf_from (start m + 1) rest = true → adjustable m rest →
  ∃ m' rest' adv,
    adjust_remaining_ranges fuel (pre ++ m :: rest) i
    = Ok (pre ++ m' :: rest', (i + Nat.b2n adv)%nat)
    ∧ adjusted m rest m' rest' adv.
Proof.
  intros Hf -> Hm Hwf Hadj. destruct fuel as [|fuel]; [lia|]. cbn [adjust_remaining_ranges].
  if_false by (rewrite length_app; cbn [length]; lia).
  destruct (adjust_loop_spec (adjust_remaining_ranges fuel)
              (length (pre ++ m :: rest)) pre [] rest m)
    as (m' & dead & rest' & adv & He & Ha); try done.
  { rewrite length_app. simpl. lia. }
  exists m', rest', adv. split; [|done].
  cbn [length app] in He. rewrite Nat.add_0_r in He. rewrite He. simpl.
  do 2 f_equal. case_if; [|by destruct dead].
  replace (pre ++ m' :: dead ++ rest') with ((pre ++ [m']) ++ dead ++ rest')
    by by rewrite <- app_assoc.
  rewrite array_delete_middle by (rewrite ?length_app; simpl; lia).
  by rewrite <- app_assoc.
Qed.

(** ** Correctness of the merge loop *)

(** When merging is safe: the situations in which no non-inheritable range
    has to be split around inheritable successors. *)
Inductive merge_mode := ChangesInheritable | RangesNonInheritable | RangesInheritable.

Definition mergeable (md : merge_mode) rangelist changes : bool :=
  match md with
  | ChangesInheritable => all_as true changes
  | RangesNonInheritable => all_as false rangelist
  | RangesInheritable => all_as true rangelist && compact changes
  end.

(** The part of it that the loop maintains for the ranges and changes left. *)
Definition mode_ok (md : merge_mode) (ranges changes : svn_rangelist_t) : bool :=
  match md, ranges with
  | ChangesInheritable, _ => all_as true changes
  | RangesNonInheritable, [] => true
  | RangesNonInheritable, h :: t =>
      all_as false t
      && (negb (inheritable h)
          || match changes with [] => true | c :: _ => start h <=? start c end)
  | RangesInheritable, [] => compact changes
  | RangesInheritable, h :: t =>
      compact changes && all_as true t
      && (inheritable h
          || match changes with
             | [] => true
             | c :: _ => (end_ h <? start c) || ((end_ h =? start c) && inheritable c)
             end)
  end.

(** How far the loop is from its end; the last summand counts the truncations
    the current pair of ranges can still undergo. *)
Definition truncations (ranges changes : svn_rangelist_t) : nat :=
  match ranges, changes with
  | r :: _, c :: _ =>
      if start r =? start c then 1%nat
      else if start c <? end_ r then 2%nat else 0%nat
  | _, _ => 0%nat
  end.

Definition merge2_measure (ranges changes : svn_rangelist_t) : nat :=
  (3 * length ranges + 7 * length changes + truncations ranges changes)%nat.

Lemma truncations_le ranges changes : (truncations ranges changes ≤ 2)%nat.
Proof. unfold truncations. repeat case_match; lia. Qed.

(** The loop state [s] splits the rangelist into [pre ++ suf], with the loop
    index at the border, and has the changes [rem] left. *)
Definition splits (s : merge2_state) (pre suf rem : svn_rangelist_t) : Prop :=
  m2_rangelist s = pre ++ suf ∧ m2_i s = length pre
  ∧ drop (m2_j s) (m2_changes s) = rem.

Definition split_wf (pre suf rem : svn_rangelist_t) : bool :=
  wf_from 0 (pre ++ suf) && wf_from (last_end 0 pre) rem.

(** One iteration keeps the meaning and makes progress. *)
Record step_ok (md : merge_mode) (pre suf rem : svn_rangelist_t)
    (pre' suf' rem' : svn_rangelist_t) : Prop := {
  so_wf : split_wf pre' suf' rem' = true;
  so_covers rev : covers (pre' ++ suf') rev || covers rem' rev
                = covers (pre ++ suf) rev || covers rem rev;
  so_inh rev : covers_as true (pre' ++ suf') rev || covers_as true rem' rev
             = covers_as true (pre ++ suf) rev || covers_as true rem rev;
  so_mode : mode_ok md suf' rem' = true;
  so_measure : (merge2_measure suf' rem' < merge2_measure suf rem)%nat;
}.

Definition steps (md : merge_mode) (s : merge2_state) (out : result merge2_state)
    (pre suf rem : svn_rangelist_t) : Prop :=
  ∃ s' pre' suf' rem', out = Ok s' ∧ splits s' pre' suf' rem'
    ∧ step_ok md pre suf rem pre' suf' rem'.

(** [mode_ok] after the head of the ranges has been replaced. *)
Lemma mode_ok_uniform md ranges changes :
  mergeable md ranges changes = true → mode_ok md ranges changes = true.
Proof. destruct md, ranges; simpl; unfold all_as; simpl; lia. Qed.

Lemma mode_ok_rest md r ranges c changes :
  mode_ok md (r :: ranges) (c :: changes) = true →
  mergeable md ranges changes = true.
Proof. destruct md, changes; simpl; unfold all_as; simpl; lia. Qed.

Lemma mode_ok_head md r ranges changes :
  mergeable md ranges changes = true →
  inheritable r = true ∨ md ≠ RangesInheritable →
  (∀ c, head changes = Some c → start r ≤ start c) →
  mode_ok md (r :: ranges) changes = true.
Proof.
  intros Hm Hr Hc. destruct md; simpl in *; [done| |].
  - destruct changes as [|c changes]; [lia|]. specialize (Hc c eq_refl). lia.
  - destruct Hr as [->|?]; [|done]. lia.
Qed.

Lemma mergeable_length_irrel md rest rest' changes :
  (∀ b, all_as b rest = true → all_as b rest' = true) →
  mergeable md rest changes = true → mergeable md rest' changes = true.
Proof.
  intros H. pose proof (H true). pose proof (H false). destruct md; simpl; lia.
Qed.

(** A branch that ends with [s'] at the given split. *)
Lemma steps_intro md s s' out pre suf rem pre' suf' rem' :
  out = Ok s' → m2_rangelist s' = pre' ++ suf' → m2_i s' = length pre' →
  drop (m2_j s') (m2_changes s') = rem' →
  step_ok md pre suf rem pre' suf' rem' →
  steps md s out pre suf rem.
Proof. intros. exists s', pre', suf', rem'. unfold splits. auto. Qed.

Ltac step_to pre' suf' rem' :=
  split_arrays; simpl rbind;
  eapply (steps_intro _ _ _ _ _ _ _ pre' suf' rem');
  [ reflexivity
  | simpl; rewrite <- ?app_assoc; reflexivity
  | simpl; rewrite ?length_app; simpl; lia
  | simpl; split_arrays; reflexivity
  | ].

Ltac measure_lia :=
  unfold merge2_measure; cbn [length];
  match goal with
  | |- (_ + truncations ?r ?c < _)%nat => pose proof (truncations_le r c)
  end;
  first [lia | simpl truncations; unfold split_wf in *; range_simpl;
               repeat case_match; lia].

Ltac mode_lia :=
  range_simpl; range_hyps; simpl in *; range_hyps;
  repeat (apply andb_true_iff; split);
  first [done | assumption | congruence | lia | inh_cases; simpl in *; first [done | lia]].

(** Discharge [step_ok]: the endpoints decide every clause. *)
Ltac step_lia md Hmode rest more :=
  repeat match goal with x := _ |- _ => clear x end;
  split;
  [ clear Hmode; unfold split_wf in *; range_lia
  | clear Hmode; unfold split_wf in *; intros rev; range_lia
  | clear Hmode; unfold split_wf in *; intros rev; range_lia
  | unfold split_wf, mode_ok in *; destruct md, rest, more; try done; mode_lia
  | measure_lia ].

Section Step.
Context (md : merge_mode) (pre rest dch more : svn_rangelist_t)
        (range change : svn_merge_range_t).
Let rangelist := pre ++ range :: rest.
Let changes := dch ++ change :: more.
Hypothesis Hwf : split_wf pre (range :: rest) (change :: more) = true.
Hypothesis Hmode : mode_ok md (range :: rest) (change :: more) = true.
Let s0 := MkMerge2 rangelist changes (length pre) (length dch).
Let stepping (out : result merge2_state) :=
  steps md s0 out pre (range :: rest) (change :: more).

Lemma merge2_change_absorbs_ok :
  (start change < start range
   ∨ (start range = start change ∧ end_ change < end_ range)) →
  start range < end_ change → inheritable range = false →
  inheritable change = true →
  stepping (merge2_change_absorbs rangelist changes (length pre) (length dch)
              range change).
Proof.
  intros Hold Hov Hr Hc. unfold merge2_change_absorbs, rangelist, changes.
  assert (md ≠ RangesInheritable).
  { intros ->. unfold mode_ok in Hmode. simpl in Hmode. rewrite Hr in Hmode.
    unfold split_wf in Hwf. clear -Hold Hov Hmode Hwf. range_lia. }
  case_if; [case_if; [|case_if]|].
  - step_to pre (MkRange (start change) (end_ range) true :: rest) more.
    step_lia md Hmode rest more.
  - step_to pre (MkRange (start change) (end_ range) true :: rest)
      (set_start change (end_ range) :: more).
    step_lia md Hmode rest more.
  - step_to (pre ++ [MkRange (start change) (end_ change) true])
      (set_start range (end_ change) :: rest) more.
    step_lia md Hmode rest more.
  - step_to (pre ++ [MkRange (start range) (end_ change) true])
      (set_start range (end_ change) :: rest) more.
    step_lia md Hmode rest more.
Qed.

(** Widening RANGE to cover CHANGE, of the same inheritability. *)
Lemma merge2_adjust_ok fuel m :
  (0 < fuel)%nat →
  start m = Z.min (start range) (start change) → end_ m = end_ change →
  inheritable m = inheritable range → inheritable m = inheritable change →
  start change ≤ end_ range → end_ range ≤ end_ change →
  stepping (let! (rl, i) := adjust_remaining_ranges fuel (pre ++ m :: rest)
                              (length pre) in
            Ok (MkMerge2 rl changes i (S (length dch)))).
Proof.
  intros Hfuel Hs He Hr Hc Htouch Hend.
  assert (Hadj : adjustable m rest).
  { unfold adjustable. unfold split_wf, mode_ok in *. rewrite Hc.
    rewrite Hc in Hr. clear -Hwf Hmode Hr Htouch.
    destruct md; simpl in Hmode.
    - left. range_lia.
    - right. range_lia.
    - left. range_lia. }
  assert (Hb : start m < end_ m ∧ wf_from (start m + 1) rest = true).
  { unfold split_wf in Hwf. clear -Hwf Hs He Hend. range_lia. }
  destruct (adjust_remaining_ranges_spec fuel pre rest m (length pre))
    as (m' & rest' & adv & -> & []); try done; try apply Hb.
  assert (Hmode' : mergeable md rest' more = true).
  { eauto using mergeable_length_irrel, mode_ok_rest. }
  assert (Hmi : inheritable m' = true ∨ md ≠ RangesInheritable).
  { destruct md; [by right..|left]. unfold mode_ok, split_wf in *.
    rewrite adj_inheritable0. clear -Hwf Hmode Hr Hc Htouch. range_lia. }
  unfold split_wf in *. simpl. unfold changes, stepping. destruct adv.
  - destruct adj_adv0 as [Hle _]. step_to (pre ++ [m']) rest' more. split.
    + unfold split_wf in *. clear -Hwf Hs He adj_wf0 Hle adj_start0. range_lia.
    + intros rev. specialize (adj_covers0 rev).
      clear -Hwf Hs He adj_covers0 Htouch Hend. range_lia.
    + intros rev. specialize (adj_inh0 rev).
      clear -Hwf Hs He adj_inh0 Htouch Hend Hr Hc. range_lia.
    + by apply mode_ok_uniform.
    + measure_lia.
  - step_to pre (m' :: rest') more. split.
    + unfold split_wf in *. clear -Hwf Hs He adj_wf0 adj_start0. range_lia.
    + intros rev. specialize (adj_covers0 rev).
      clear -Hwf Hs He adj_covers0 Htouch Hend. range_lia.
    + intros rev. specialize (adj_inh0 rev).
      clear -Hwf Hs He adj_inh0 Htouch Hend Hr Hc. range_lia.
    + apply mode_ok_head; [done..|]. intros c Hhd.
      destruct more; simplify_eq/=. clear -Hwf Hs adj_start0. range_lia.
    + measure_lia.
Qed.

Lemma merge2_range_older_ok :
  (start range < start change
   ∨ (start range = start change ∧ end_ range < end_ change)) →
  stepping (merge2_range_older rangelist changes (length pre) (length dch)
              range change).
Proof.
  intros Hold. unfold merge2_range_older, rangelist, changes.
  case_if.
  { step_to (pre ++ [range]) rest (change :: more). step_lia md Hmode rest more. }
  case_if.
  { case_if.
    - rewrite insert_middle by done. apply merge2_adjust_ok; unfold adjust_fuel, split_wf in *;
        simpl; range_lia.
    - step_to (pre ++ [range]) rest (change :: more). step_lia md Hmode rest more. }
  case_if.
  { case_if.
    - step_to pre (range :: rest) more. step_lia md Hmode rest more.
    - step_to pre (range :: rest) (set_start change (end_ range) :: more).
      step_lia md Hmode rest more. }
  case_if.
  - step_to (pre ++ [set_end range (start change)])
      (set_start range (start change) :: rest) (change :: more).
    step_lia md Hmode rest more.
  - step_to pre (set_inheritable range true :: rest)
      (set_start change (end_ range) :: more).
    step_lia md Hmode rest more.
Qed.

Lemma merge2_change_older_ok :
  (start change < start range
   ∨ (start range = start change ∧ end_ change < end_ range)) →
  stepping (merge2_change_older rangelist changes (length pre) (length dch)
              range change).
Proof.
  intros Hold. unfold merge2_change_older.
  case_if.
  { unfold rangelist, changes. step_to (pre ++ [change]) (range :: rest) more.
    step_lia md Hmode rest more. }
  case_if.
  { case_if; unfold rangelist, changes.
    - step_to pre (set_start range (start change) :: rest) more.
      step_lia md Hmode rest more.
    - step_to pre (change :: range :: rest) more.
      step_lia md Hmode rest more. }
  case_if.
  { case_if; unfold rangelist, changes.
    - rewrite insert_middle by done. apply merge2_adjust_ok;
        unfold adjust_fuel, split_wf in *; simpl; range_lia.
    - step_to pre (set_start range (start change) :: rest) more.
      step_lia md Hmode rest more. }
  case_if.
  { case_if; unfold rangelist, changes.
    - step_to (pre ++ [set_end change (start range)]) (range :: rest)
        (set_start change (start range) :: more).
      step_lia md Hmode rest more.
    - step_to pre (range :: rest) more. step_lia md Hmode rest more. }
  apply merge2_change_absorbs_ok; [done|lia|done|range_lia].
Qed.

Lemma merge2_step_ok : stepping (merge2_step s0 range change).
Proof.
  unfold merge2_step, s0. compare_ranges range change.
  - unfold rangelist, changes. case_if.
    + step_to (pre ++ [set_inheritable range true]) rest more.
      step_lia md Hmode rest more.
    + step_to (pre ++ [range]) rest more. step_lia md Hmode rest more.
  - by apply merge2_range_older_ok.
  - by apply merge2_change_older_ok.
Qed.
End Step.

