(* ===== verification/RangelistUnion.v ===== *)
(** * The union theorem of [svn_rangelist_merge2] *)
From S2P Require Import Prelude MergeRange RangelistMerge.

Implicit Types (rangelist changes : svn_rangelist_t).

Lemma splits_lookup s pre suf rem :
  splits s pre suf rem →
  m2_rangelist s !! m2_i s = head suf ∧ m2_changes s !! m2_j s = head rem.
Proof.
  intros (-> & -> & <-). split.
  - destruct suf; [|by apply list_lookup_middle].
    rewrite app_nil_r. by apply lookup_end.
  - rewrite <- (Nat.add_0_r (m2_j s)) at 1. rewrite <- lookup_drop.
    by destruct (drop _ _).
Qed.

(** The loop ends, with one of the two lists used up. *)
Lemma merge2_loop_ok md fuel s pre suf rem :
  splits s pre suf rem → split_wf pre suf rem = true →
  mode_ok md suf rem = true → (merge2_measure suf rem < fuel)%nat →
  ∃ s' pre' suf' rem',
    merge2_loop fuel s = Ok s' ∧ splits s' pre' suf' rem'
    ∧ split_wf pre' suf' rem' = true ∧ (suf' = [] ∨ rem' = [])
    ∧ (∀ rev, covers (pre' ++ suf') rev || covers rem' rev
              = covers (pre ++ suf) rev || covers rem rev)
    ∧ (∀ rev, covers_as true (pre' ++ suf') rev || covers_as true rem' rev
              = covers_as true (pre ++ suf) rev || covers_as true rem rev).
Proof.
  revert s pre suf rem; induction fuel as [|fuel IH];
    intros s pre suf rem Hs Hwf Hmode Hfuel; [lia|].
  cbn [merge2_loop]. destruct (splits_lookup _ _ _ _ Hs) as [-> ->].
  destruct suf as [|range rest], rem as [|change more]; simpl;
    [exists s, pre, [], []; naive_solver
    |exists s, pre, [], (change :: more); naive_solver
    |exists s, pre, (range :: rest), []; naive_solver|].
  destruct s as [rl ch i j]. unfold splits in Hs. simpl in Hs.
  destruct Hs as (-> & -> & Hch).
  assert (ch = take j ch ++ change :: more ∧ j = length (take j ch)) as [Hch' Hj].
  { assert (length (drop j ch) ≠ 0)%nat as Hl by (by rewrite Hch).
    rewrite length_drop in Hl. rewrite <- Hch, take_drop, length_take. split; [done|lia]. }
  destruct (merge2_step_ok md pre rest (take j ch) more range change Hwf Hmode)
    as (s' & pre' & suf' & rem' & He & Hs' & []).
  rewrite <- Hch', <- Hj in He. rewrite He. simpl.
  destruct (IH s' pre' suf' rem') as (s2 & pre2 & suf2 & rem2 & ? & ? & ? & ? & Hc & Hi);
    [done..|lia|].
  exists s2, pre2, suf2, rem2. repeat (split; [done|]).
  split; intros rev; [by rewrite Hc|by rewrite Hi].
Qed.

Lemma merge2_append_ok rangelist remaining :
  merge2_append rangelist remaining = Ok (rangelist ++ remaining).
Proof.
  revert rangelist; induction remaining as [|c remaining IH]; intros rl; simpl.
  - by rewrite app_nil_r.
  - rewrite <- (app_nil_r rl) at 1. rewrite array_insert_middle by done. simpl.
    by rewrite IH, <- app_assoc.
Qed.

Lemma merge2_union (md : merge_mode) rangelist changes :
  rangelist_wf rangelist = true → rangelist_wf changes = true →
  mergeable md rangelist changes = true →
  ∃ merged,
    svn_rangelist_merge2 rangelist changes = Ok merged
    ∧ rangelist_wf merged = true
    ∧ ∀ rev,
        covers merged rev = covers rangelist rev || covers changes rev
        ∧ covers_as true merged rev
          = covers_as true rangelist rev || covers_as true changes rev.
Proof.
  intros Hr Hc Hm.
  assert (Hmode : mode_ok md rangelist changes = true) by by apply mode_ok_uniform.
  destruct (merge2_loop_ok md (merge2_fuel rangelist changes)
              (MkMerge2 rangelist changes 0 0) [] rangelist changes)
    as (s & pre & suf & rem & He & (Hrl & _ & Hrem) & Hwf & Hend & Hcov & Hinh).
  - by repeat split.
  - unfold split_wf. simpl. lia.
  - done.
  - unfold merge2_measure, merge2_fuel.
    pose proof (truncations_le rangelist changes). lia.
  - exists (m2_rangelist s ++ rem). unfold svn_rangelist_merge2. rewrite He. simpl.
    rewrite merge2_append_ok, Hrem, Hrl. split; [done|]. unfold split_wf in Hwf.
    split.
    + destruct Hend as [-> | ->]; range_lia.
    + intros rev. specialize (Hcov rev). specialize (Hinh rev).
      rewrite covers_app, covers_as_app. by simpl in *.
Qed.

(** C2: svn_rangelist_merge2 on two well-formed rangelists, of which the
    changes are all inheritable, or the rangelist is all non-inheritable, or
    the rangelist is all inheritable and the changes are minimal, returns,
    without failing or running out of steps, a well-formed rangelist whose
    revisions are the union of those of its arguments; a revision is
    inheritable in it exactly when it is inheritable in one of them. *)
Theorem svn_rangelist_merge2_union (md : merge_mode) rangelist changes :
  rangelist_wf rangelist = true → rangelist_wf changes = true →
  mergeable md rangelist changes = true →
  ∃ merged,
    svn_rangelist_merge2 rangelist changes = Ok merged
    ∧ rangelist_wf merged = true
    ∧ ∀ rev,
        covers merged rev = covers rangelist rev || covers changes rev
        ∧ covers_as true merged rev
          = covers_as true rangelist rev || covers_as true changes rev.
Proof. apply merge2_union. Qed.

(** Merging r1-4* and r7 with r3-9 (inheritable changes). *)
Lemma svn_rangelist_merge2_union_witness :
  ∃ merged,
    svn_rangelist_merge2 [MkRange 0 4 false; MkRange 6 7 true] [MkRange 2 9 true]
    = Ok merged
    ∧ rangelist_wf merged = true
    ∧ ∀ rev,
        covers merged rev
        = covers [MkRange 0 4 false; MkRange 6 7 true] rev
          || covers [MkRange 2 9 true] rev
        ∧ covers_as true merged rev
          = covers_as true [MkRange 0 4 false; MkRange 6 7 true] rev
            || covers_as true [MkRange 2 9 true] rev.
Proof. apply (svn_rangelist_merge2_union ChangesInheritable); reflexivity. Defined.

(** Outside of the cases of the union theorem the in-place merge can go
    wrong: two sorted, disjoint and minimal lists of mixed inheritability
    merge into a list that holds an inverted range. *)
Theorem svn_rangelist_merge2_corrupts :
  let rangelist := [MkRange 0 1 false; MkRange 2 3 false; MkRange 5 6 true] in
  let changes := [MkRange 1 8 false] in
  rangelist_wf rangelist && compact rangelist = true
  ∧ rangelist_wf changes && compact changes = true
  ∧ ∃ merged,
      svn_rangelist_merge2 rangelist changes = Ok merged
      ∧ MkRange 6 5 false ∈ merged ∧ rangelist_wf merged = false.
Proof.
  simpl. split; [done|]. split; [done|]. eexists. split; [reflexivity|].
  split; [|done]. apply list_elem_of_lookup. by exists 1%nat.
Qed.

(** The merged list is not always minimal, although both arguments are. *)
Theorem svn_rangelist_merge2_not_minimal :
  let rangelist := [MkRange 1 2 true] in
  let changes := [MkRange 1 2 false; MkRange 2 3 true] in
  rangelist_wf rangelist && compact rangelist = true
  ∧ rangelist_wf changes && compact changes = true
  ∧ ∃ merged,
      svn_rangelist_merge2 rangelist changes = Ok merged ∧ compact merged = false.
Proof. simpl. split; [done|]. split; [done|]. by eexists. Qed.
