(* ===== verification/Rangelist.v ===== *)
(** * Rangelist algebra

    The functions of [src/subversion/libsvn_subr/mergeinfo.c] that build one
    rangelist from others: appending a range ([combine_with_lastrange]),
    intersection, removal and difference, reversal and the filters on
    inheritability. *)
From S2P Require Import Prelude MergeRange.

Implicit Types (rangelist output eraser whiteboard : svn_rangelist_t).

(** ** [combine_with_lastrange] *)

(** [apr_array_pop]. *)
Definition array_pop {A} (array : list A) : list A := take (length array - 1) array.

(** A rangelist and the flag [sorted] that the [switch] leaves behind. *)
Definition is_before (a b : svn_merge_range_t) : bool :=
  svn_sort_compare_ranges a b <? 0.

(** [case svn__overlapping_intersection]; [rangelist] no longer holds
    [lastrange]. *)
Definition combine_overlapping rangelist (lastrange new_range : svn_merge_range_t)
    : svn_rangelist_t * bool :=
  let '(r1, r2) := if start new_range <? start lastrange
                   then (new_range, lastrange) else (lastrange, new_range) in
  let '(r1, r2) := if inheritable r1 then (r1, set_start r2 (end_ r1))
                   else (set_end r1 (start r2), r2) in
  (rangelist ++ [r1; r2], is_before lastrange r1 && is_before r1 r2).

(** [default:], that is [svn__proper_subset_intersection]. *)
Definition combine_subset rangelist (lastrange new_range : svn_merge_range_t)
    : svn_rangelist_t * bool :=
  let '(r1, r2) := if (start new_range <? start lastrange)
                      || (end_ lastrange <? end_ new_range)
                   then (new_range, lastrange) else (lastrange, new_range) in
  if inheritable r1 then
    let r1 := MkRange (Z.min (start r1) (start r2)) (Z.max (end_ r1) (end_ r2))
                (inheritable r1) in
    (rangelist ++ [r1], is_before lastrange r1)
  else if start r1 =? start r2 then
    let tmp_revnum := end_ r1 in
    let r1' := MkRange (start r1) (end_ r2) true in
    let r2' := MkRange (end_ r1') tmp_revnum (inheritable r1) in
    (rangelist ++ [r1'; r2'], is_before lastrange r1' && is_before r1' r2')
  else if end_ r1 =? end_ r2 then
    let r1' := set_end r1 (start r2) in
    let r2' := set_inheritable r2 true in
    (rangelist ++ [r1'; r2'], is_before lastrange r1' && is_before r1' r2')
  else
    let r3 := MkRange (end_ r2) (end_ r1) (inheritable r1) in
    let r2' := set_inheritable r2 true in
    let r1' := set_end r1 (start r2) in
    (rangelist ++ [r1'; r2'; r3],
     is_before lastrange r1' && is_before r1' r2' && is_before r2' r3).

Section CombineWithLastrange.
Context `{Qsort}.

Definition combine_with_lastrange (new_range : svn_merge_range_t) rangelist
    (consider_inheritance : bool) : result svn_rangelist_t :=
  match last rangelist with
  | None => Ok (rangelist ++ [new_range])
  | Some lastrange =>
    let popped := array_pop rangelist in
    if negb consider_inheritance then
      match combine_ranges lastrange new_range false with
      | Some combined_range => Ok (popped ++ [combined_range])
      | None => Ok (rangelist ++ [new_range])
      end
    else
      match combine_ranges lastrange new_range true with
      | Some combined_range => Ok (popped ++ [combined_range])
      | None =>
        let! intersection_type := get_type_of_intersection new_range lastrange in
        let '(rangelist, sorted) :=
          match intersection_type with
          | svn__no_intersection | svn__adjoining_intersection =>
              (rangelist ++ [new_range], is_before lastrange new_range)
          | svn__equal_intersection =>
              (popped ++ [set_inheritable lastrange true], true)
          | svn__overlapping_intersection =>
              combine_overlapping popped lastrange new_range
          | svn__proper_subset_intersection =>
              combine_subset popped lastrange new_range
          end in
        Ok (if sorted then rangelist
            else qsort svn_sort_compare_ranges rangelist)
      end
  end.

(** ** [rangelist_intersect_or_remove] *)

(** [ior_working] holds [lasti2] and [working_elt2]; [None] is the initial
    [lasti2 = -1]. *)
Record ior_state := MkIor {
  ior_output : svn_rangelist_t;
  ior_i1 : nat;
  ior_i2 : nat;
  ior_working : option (nat * svn_merge_range_t);
}.

(** The copy of [rangelist2[i2]] to work with. *)
Definition ior_elt2 (rangelist2 : svn_rangelist_t) (s : ior_state)
    : option svn_merge_range_t :=
  match ior_working s with
  | Some (lasti2, working_elt2) =>
      if (ior_i2 s =? lasti2)%nat
      then if (ior_i2 s <? length rangelist2)%nat then Some working_elt2 else None
      else rangelist2 !! ior_i2 s
  | None => rangelist2 !! ior_i2 s
  end.

(** ELT1 contains ELT2. *)
Definition ior_contained (do_remove consider_inheritance : bool)
    (s : ior_state) (elt1 elt2 : svn_merge_range_t) : result ior_state :=
  let! output :=
    if negb do_remove
    then combine_with_lastrange
           (MkRange (start elt2) (end_ elt2) (inheritable elt2 || inheritable elt1))
           (ior_output s) consider_inheritance
    else Ok (ior_output s) in
  Ok (MkIor output
        (if (start elt2 =? start elt1) && (end_ elt2 =? end_ elt1)
         then S (ior_i1 s) else ior_i1 s)
        (S (ior_i2 s)) (Some (ior_i2 s, elt2))).

(** ELT1 and ELT2 overlap, but ELT1 does not contain ELT2. *)
Definition ior_overlapping (do_remove consider_inheritance : bool)
    (s : ior_state) (elt1 elt2 : svn_merge_range_t) : result ior_state :=
  let! output :=
    if start elt2 <? start elt1 then
      let tmp_range :=
        if do_remove
        then MkRange (start elt2) (start elt1) (inheritable elt2)
        else MkRange (start elt1) (Z.min (end_ elt2) (end_ elt1))
               (inheritable elt2 || inheritable elt1) in
      combine_with_lastrange tmp_range (ior_output s) consider_inheritance
    else Ok (ior_output s) in
  if end_ elt1 <? end_ elt2 then
    let! output :=
      if negb do_remove
      then combine_with_lastrange
             (MkRange (Z.max (start elt2) (start elt1)) (end_ elt1)
                (inheritable elt2 || inheritable elt1))
             output consider_inheritance
      else Ok output in
    Ok (MkIor output (ior_i1 s) (ior_i2 s)
          (Some (ior_i2 s, MkRange (end_ elt1) (end_ elt2) (inheritable elt2))))
  else
    Ok (MkIor output (ior_i1 s) (S (ior_i2 s)) (Some (ior_i2 s, elt2))).

(** ELT1 and ELT2 do not intersect. *)
Definition ior_disjoint (do_remove consider_inheritance : bool)
    (s : ior_state) (elt1 elt2 : svn_merge_range_t) : ior_state :=
  if svn_sort_compare_ranges elt1 elt2 <? 0 then
    MkIor (ior_output s) (S (ior_i1 s)) (ior_i2 s) (Some (ior_i2 s, elt2))
  else
    let output := ior_output s in
    let combined :=
      match last output with
      | Some lastrange => combine_ranges lastrange elt2 consider_inheritance
      | None => None
      end in
    let output :=
      match combined with
      | Some combined_range =>
          if do_remove then array_pop output ++ [combined_range] else output
      | None => if do_remove then output ++ [elt2] else output
      end in
    MkIor output (ior_i1 s) (S (ior_i2 s)) (Some (ior_i2 s, elt2)).

(** One iteration of the [while] loop. *)
Definition ior_step (do_remove consider_inheritance : bool) (s : ior_state)
    (elt1 elt2 : svn_merge_range_t) : result ior_state :=
  let! contains := range_contains elt1 elt2 consider_inheritance in
  if contains then ior_contained do_remove consider_inheritance s elt1 elt2
  else
    let! intersects := range_intersect elt1 elt2 consider_inheritance in
    if intersects then
      ior_overlapping do_remove consider_inheritance s elt1 elt2
    else Ok (ior_disjoint do_remove consider_inheritance s elt1 elt2).

Fixpoint ior_loop (fuel : nat) (rangelist1 rangelist2 : svn_rangelist_t)
    (do_remove consider_inheritance : bool) (s : ior_state) : result ior_state :=
  match fuel with
  | O => OutOfFuel
  | S fuel =>
    match rangelist1 !! ior_i1 s, ior_elt2 rangelist2 s with
    | Some elt1, Some elt2 =>
        let! s := ior_step do_remove consider_inheritance s elt1 elt2 in
        ior_loop fuel rangelist1 rangelist2 do_remove consider_inheritance s
    | _, _ => Ok s
    end
  end.

(** Every iteration advances an index or leaves [working_elt2] behind the
    current range of [rangelist1]. *)
Definition ior_fuel (rangelist1 rangelist2 : svn_rangelist_t) : nat :=
  2 * length rangelist1 + 2 * length rangelist2 + 2.

Fixpoint combine_all (elts : svn_rangelist_t) output (consider_inheritance : bool)
    : result svn_rangelist_t :=
  match elts with
  | [] => Ok output
  | elt :: elts =>
      let! output := combine_with_lastrange elt output consider_inheritance in
      combine_all elts output consider_inheritance
  end.

(** After the loop: the rest of [rangelist2], the working copy first. *)
Definition ior_finish (rangelist2 : svn_rangelist_t)
    (consider_inheritance : bool) (s : ior_state) : result svn_rangelist_t :=
  let! (output, i2) :=
    match ior_working s with
    | Some (lasti2, working_elt2) =>
        if (ior_i2 s =? lasti2)%nat && (ior_i2 s <? length rangelist2)%nat then
          let! output := combine_with_lastrange working_elt2 (ior_output s)
                           consider_inheritance in
          Ok (output, S (ior_i2 s))
        else Ok (ior_output s, ior_i2 s)
    | None => Ok (ior_output s, ior_i2 s)
    end in
  combine_all (drop i2 rangelist2) output consider_inheritance.

Definition rangelist_intersect_or_remove (rangelist1 rangelist2 : svn_rangelist_t)
    (do_remove consider_inheritance : bool) : result svn_rangelist_t :=
  let! s := ior_loop (ior_fuel rangelist1 rangelist2) rangelist1 rangelist2
              do_remove consider_inheritance (MkIor [] 0 0 None) in
  if do_remove then ior_finish rangelist2 consider_inheritance s
  else Ok (ior_output s).

Definition svn_rangelist_intersect (rangelist1 rangelist2 : svn_rangelist_t)
    (consider_inheritance : bool) : result svn_rangelist_t :=
  rangelist_intersect_or_remove rangelist1 rangelist2 false consider_inheritance.

Definition svn_rangelist_remove eraser whiteboard (consider_inheritance : bool)
    : result svn_rangelist_t :=
  rangelist_intersect_or_remove eraser whiteboard true consider_inheritance.

(** Returns [*deleted] and [*added]. *)
Definition svn_rangelist_diff (from to : svn_rangelist_t)
    (consider_inheritance : bool) : result (svn_rangelist_t * svn_rangelist_t) :=
  let! deleted := svn_rangelist_remove to from consider_inheritance in
  let! added := svn_rangelist_remove from to consider_inheritance in
  Ok (deleted, added).

(** ** Simple transformations *)

Definition svn_rangelist__initialize (start_ end__ : Z) (inheritable_ : bool)
    : svn_rangelist_t :=
  [MkRange start_ end__ inheritable_].

Definition svn_rangelist__set_inheritance rangelist (b : bool) : svn_rangelist_t :=
  map (λ range, set_inheritable range b) rangelist.

(** The ranges are shared with the input: in the first branch the code fills
    a new range with [inheritable = TRUE] but pushes the old one. *)
Definition svn_rangelist_inheritable2 rangelist (start_ end__ : Z)
    (inheritable_ : bool) : result svn_rangelist_t :=
  if (0 <? length rangelist)%nat then
    if negb (SVN_IS_VALID_REVNUM start_) || negb (SVN_IS_VALID_REVNUM end__)
       || (end__ <? start_)
    then Ok (List.filter (λ range, Bool.eqb (inheritable range) inheritable_)
               rangelist)
    else svn_rangelist_remove
           (svn_rangelist__initialize start_ end__ inheritable_) rangelist true
  else Ok [].
End CombineWithLastrange.

(** The swapping loop of [svn_rangelist_reverse]: [n] iterations from [i]. *)
Fixpoint reverse_loop rangelist (i n : nat) : svn_rangelist_t :=
  match n with
  | O => rangelist
  | S n =>
    let swap_index := (length rangelist - i - 1)%nat in
    match rangelist !! i, rangelist !! swap_index with
    | Some range, Some other =>
        reverse_loop
          (<[i := range_swap_endpoints other]>
             (<[swap_index := range_swap_endpoints range]> rangelist))
          (S i) n
    | _, _ => rangelist
    end
  end.

Definition svn_rangelist_reverse rangelist : svn_rangelist_t :=
  let swapped := reverse_loop rangelist 0 (length rangelist / 2) in
  if (length rangelist mod 2 =? 1)%nat
  then alter range_swap_endpoints (length rangelist / 2)%nat swapped
  else swapped.
