(* ===== verification/RangelistLoop.v ===== *)
(** * Appending to a rangelist, and the steps of the two-list walk

    What [combine_with_lastrange] does to the end of a rangelist, and the
    transitions of the loop of [rangelist_intersect_or_remove] on the remaining
    parts of its two lists, against the sets of revisions they denote. *)
From S2P Require Import Prelude MergeRange Rangelist.

Implicit Types (rangelist output eraser whiteboard out l : svn_rangelist_t).

(** ** Appending behind the last range *)

(** No two neighbours of the list would be combined by [combine_ranges]. *)
Definition touching (ci : bool) (r r' : svn_merge_range_t) : bool :=
  (end_ r =? start r') && (negb ci || same_inheritance r r').

Fixpoint apart (ci : bool) (rl : svn_rangelist_t) : bool :=
  match rl with
  | [] => true
  | r :: rl =>
      match rl with [] => true | r' :: _ => negb (touching ci r r') end && apart ci rl
  end.

Lemma apart_compact rl : apart true rl = compact rl.
Proof.
  induction rl as [|r rl IH]; [done|]. simpl. rewrite IH. by destruct rl.
Qed.

Lemma apart_snoc ci rl r x :
  apart ci (rl ++ [r; x]) = apart ci (rl ++ [r]) && negb (touching ci r x).
Proof.
  induction rl as [|a rl IH]; cbn [app apart].
  - destruct (touching ci r x); done.
  - rewrite IH. destruct rl; simpl; lia.
Qed.

Lemma apart_snoc_same ci rl r r' :
  start r = start r' → inheritable r = inheritable r' →
  apart ci (rl ++ [r]) = apart ci (rl ++ [r']).
Proof.
  intros Hs Hi. induction rl as [|a rl IH]; [done|]. cbn [app apart]. rewrite IH.
  f_equal. destruct rl; [|done]. simpl. unfold touching, same_inheritance.
  by rewrite Hs, Hi.
Qed.

(** Ranges that only grow in inheritability, when inheritance is ignored. *)
Lemma apart_false_snoc rl r r' :
  start r = start r' → apart false (rl ++ [r]) = apart false (rl ++ [r']).
Proof.
  intros Hs. induction rl as [|a rl IH]; [done|]. cbn [app apart]. rewrite IH.
  f_equal. destruct rl; [|done]. simpl. unfold touching. by rewrite Hs.
Qed.

(** [out'] is [out] with [x] added at its end. *)
Record pushed (ci : bool) out (x : svn_merge_range_t) out' : Prop := {
  pushed_wf : rangelist_wf out' = true;
  pushed_end : last_end 0 out' = end_ x;
  pushed_apart : apart ci out = true → apart ci out' = true;
  pushed_covers : ∀ rev, covers out' rev = covers out rev || in_range x rev;
  pushed_as : ∀ b rev, ci = true →
    covers_as b out' rev
    = covers_as b out rev || (Bool.eqb (inheritable x) b && in_range x rev);
  pushed_inheritable : ∀ rev,
    covers_as true out rev || (inheritable x && in_range x rev) = true →
    covers_as true out' rev = true;
  pushed_last : ∃ pre r, out' = pre ++ [r] ∧ end_ r = end_ x ∧ start r <= start x
    ∧ (if ci then inheritable r = inheritable x
       else implb (inheritable x) (inheritable r) = true);
}.

Section Append.
Context `{Qsort}.

Lemma array_pop_snoc {A} (l : list A) x : array_pop (l ++ [x]) = l.
Proof.
  unfold array_pop. rewrite length_app. simpl.
  replace (length l + 1 - 1)%nat with (length l) by lia. apply take_app_length.
Qed.

Lemma wf_snoc lo rl x :
  wf_from lo (rl ++ [x])
  = wf_from lo rl && (last_end lo rl <=? start x) && (start x <? end_ x).
Proof. rewrite wf_from_app. simpl. lia. Qed.

Lemma last_end_snoc lo rl x : last_end lo (rl ++ [x]) = end_ x.
Proof. by rewrite last_end_app. Qed.

(** Appending, without combining. *)
Lemma pushed_snoc ci out x :
  rangelist_wf out = true → last_end 0 out <= start x → start x < end_ x →
  match last out with Some r => touching ci r x = false | None => True end →
  pushed ci out x (out ++ [x]).
Proof.
  intros Hwf Hle Hlt Ht. split.
  - rewrite wf_snoc. lia.
  - by rewrite last_end_snoc.
  - intros Ha. destruct out as [|r out _] using rev_ind; [done|].
    rewrite last_snoc in Ht. rewrite <- app_assoc. simpl.
    rewrite apart_snoc, Ht. by rewrite Ha.
  - intros rev. rewrite covers_app. simpl. lia.
  - intros b rev _. rewrite covers_as_app. simpl. lia.
  - intros rev. rewrite covers_as_app. simpl. destruct (inheritable x); simpl; lia.
  - exists out, x. repeat split; [lia|]. destruct ci, (inheritable x); done.
Qed.

(** Extending the last range. *)
Lemma pushed_extend ci out r x b :
  rangelist_wf (out ++ [r]) = true → end_ r = start x → start x < end_ x →
  b = inheritable r || inheritable x →
  (ci = true → inheritable r = inheritable x) →
  pushed ci (out ++ [r]) x (out ++ [MkRange (start r) (end_ x) b]).
Proof.
  intros Hwf He Hlt Hb Hi. rewrite wf_snoc in Hwf. split.
  - rewrite wf_snoc. simpl. lia.
  - by rewrite last_end_snoc.
  - intros Ha. rewrite <- Ha. destruct ci.
    + apply apart_snoc_same; simpl; [done|]. rewrite Hb, Hi by done.
      by destruct (inheritable x).
    + by apply apart_false_snoc.
  - intros rev. rewrite !covers_app. simpl. unfold in_range. simpl. lia.
  - intros b' rev Hci. rewrite !covers_as_app. simpl. unfold in_range. simpl.
    rewrite Hb, Hi by done. destruct (inheritable x), b'; simpl; lia.
  - intros rev. rewrite !covers_as_app. simpl. unfold in_range. simpl. rewrite Hb.
    destruct (inheritable x), (inheritable r); simpl; lia.
  - eexists _, _. split; [reflexivity|]. simpl. split; [done|]. split; [lia|].
    rewrite Hb. destruct ci; [rewrite Hi by done|]; by destruct (inheritable x), (inheritable r).
Qed.

Definition may_push out (x : svn_merge_range_t) : bool :=
  rangelist_wf out && (last_end 0 out <=? start x) && (start x <? end_ x).

(** What [combine_with_lastrange] comes to for a range that lies behind the
    last one: its sorting cases are not reached. *)
Definition append_range (ci : bool) out (x : svn_merge_range_t) : svn_rangelist_t :=
  match last out with
  | Some r =>
      match combine_ranges r x ci with
      | Some c => array_pop out ++ [c]
      | None => out ++ [x]
      end
  | None => out ++ [x]
  end.

Lemma combine_with_lastrange_append ci out x :
  may_push out x = true → combine_with_lastrange x out ci = Ok (append_range ci out x).
Proof.
  unfold may_push. intros Hm. unfold combine_with_lastrange, append_range.
  destruct out as [|r out _] using rev_ind; [done|].
  rewrite last_snoc, array_pop_snoc. rewrite wf_snoc, last_end_snoc in Hm.
  destruct ci; cbn [negb]; [|by destruct (combine_ranges _ _ _)].
  destruct (combine_ranges r x true); [done|].
  pose proof (last_end_ge 0 out).
  unfold get_type_of_intersection, guarded. rewrite !(valid_forward 0) by lia.
  assert (is_before r x = true) as Hb.
  { unfold is_before. compare_ranges r x; lia. }
  case_if; [simpl; by rewrite Hb|]. if_false by lia. if_true by lia.
  simpl. by rewrite Hb.
Qed.

Lemma append_range_pushed ci out x :
  may_push out x = true → pushed ci out x (append_range ci out x).
Proof.
  unfold may_push, append_range. intros Hm.
  destruct out as [|r out _] using rev_ind.
  { apply pushed_snoc; simpl in *; lia. }
  rewrite last_snoc, array_pop_snoc. rewrite wf_snoc, last_end_snoc in Hm.
  destruct (combine_ranges r x ci) as [c|] eqn:Hc.
  - revert Hc. unfold combine_ranges, same_inheritance. case_if; [|done].
    case_if; [|done]. intros [= <-].
    replace (Z.min _ _) with (start r) by lia.
    replace (Z.max _ _) with (end_ x) by lia.
    apply pushed_extend; [rewrite wf_snoc; lia|lia|lia|done|]. intros ->.
    by apply eqb_prop.
  - apply pushed_snoc; [rewrite wf_snoc|rewrite last_end_snoc|..]; try lia.
    rewrite last_snoc. revert Hc.
    unfold combine_ranges, touching, same_inheritance. destruct ci; simpl;
      repeat (case_if; try done); lia.
Qed.

Lemma combine_with_lastrange_end ci out x :
  may_push out x = true →
  ∃ out', combine_with_lastrange x out ci = Ok out' ∧ pushed ci out x out'.
Proof.
  intros Hm. eexists.
  split; [by apply combine_with_lastrange_append|by apply append_range_pushed].
Qed.

(** Appending the same range twice is appending it once. *)
Lemma combine_with_lastrange_again ci out x out' :
  pushed ci out x out' → start x < end_ x →
  combine_with_lastrange x out' ci = Ok out'.
Proof.
  intros [_ _ _ _ _ _ (pre & r & -> & He & Hs & Hi)] Hlt.
  unfold combine_with_lastrange. rewrite last_snoc, array_pop_snoc.
  assert (combine_ranges r x ci = Some r) as Hcr; [|destruct ci; simpl; by rewrite Hcr].
  unfold combine_ranges, same_inheritance. if_true by lia.
  destruct r as [a b ih]; simpl in *. subst b.
  replace (Z.min a (start x)) with a by lia.
  replace (Z.max _ _) with (end_ x) by lia.
  destruct ci, ih, (inheritable x); done.
Qed.
End Append.

(** ** The loop of [rangelist_intersect_or_remove] *)

(** The revisions that the two lists select, and their inheritability: with
    [consider_inheritance] each inheritability by itself, without it ranges
    that are inheritable in one of the lists. *)
Definition selected (do_remove : bool) (rl1 rl2 : svn_rangelist_t) (rev : Z) : bool :=
  if do_remove then covers rl2 rev && negb (covers rl1 rev)
  else covers rl1 rev && covers rl2 rev.

Definition selected_as (b do_remove : bool) (rl1 rl2 : svn_rangelist_t) (rev : Z) : bool :=
  if do_remove then covers_as b rl2 rev && negb (covers_as b rl1 rev)
  else covers_as b rl1 rev && covers_as b rl2 rev.

Definition selected_inheritable (do_remove : bool) (rl1 rl2 : svn_rangelist_t)
    (rev : Z) : bool :=
  if do_remove then covers_as true rl2 rev && negb (covers rl1 rev)
  else (covers_as true rl1 rev || covers_as true rl2 rev)
       && covers rl1 rev && covers rl2 rev.

(** No revision has different inheritability in the two lists. *)
Definition compatible (rl1 rl2 : svn_rangelist_t) : Prop :=
  ∀ b rev, covers_as b rl1 rev = true → covers_as (negb b) rl2 rev = false.

Record ior_inv (ci : bool) (out rl1 rl2 : svn_rangelist_t) : Prop := {
  inv_out : rangelist_wf out = true;
  inv_apart : apart ci out = true;
  inv_1 : rangelist_wf rl1 = true;
  inv_2 : wf_from (last_end 0 out) rl2 = true;
  inv_compatible : ci = true → compatible rl1 rl2;
}.

Definition ior_measure (rl1 rl2 : svn_rangelist_t) : nat :=
  2 * length rl1 + 2 * length rl2
  - match rl1, rl2 with
    | e1 :: _, e2 :: _ => if end_ e1 <=? start e2 then 1 else 0
    | _, _ => 0
    end.

(** The lists at the start of an iteration and at its end. *)
Record ior_to (dr ci : bool) (out rl1 rl2 out' rl1' rl2' : svn_rangelist_t) : Prop := {
  to_inv : ior_inv ci out' rl1' rl2';
  to_measure : (ior_measure rl1' rl2' < ior_measure rl1 rl2)%nat;
  to_covers : ∀ rev,
    covers out' rev || selected dr rl1' rl2' rev = covers out rev || selected dr rl1 rl2 rev;
  to_as : ∀ b rev, ci = true →
    covers_as b out' rev || selected_as b dr rl1' rl2' rev
    = covers_as b out rev || selected_as b dr rl1 rl2 rev;
  to_inheritable : ∀ rev,
    covers_as true out rev || selected_inheritable dr rl1 rl2 rev = true →
    covers_as true out' rev || selected_inheritable dr rl1' rl2' rev = true;
}.

(** The part of [rangelist2] that is still to be treated. *)
Definition ior_remaining (rangelist2 : svn_rangelist_t) (s : ior_state) : svn_rangelist_t :=
  match ior_elt2 rangelist2 s with
  | Some elt2 => elt2 :: drop (S (ior_i2 s)) rangelist2
  | None => []
  end.

Lemma compatible_head e1 e2 t1' t2' :
  compatible (e1 :: t1') (e2 :: t2') →
  start e1 < end_ e1 → start e2 < end_ e2 →
  start e1 < end_ e2 → start e2 < end_ e1 → inheritable e1 = inheritable e2.
Proof.
  intros Hc ? ? ? ?.
  specialize (Hc (inheritable e1) (Z.max (start e1) (start e2) + 1)).
  simpl in Hc. unfold in_range in Hc. rewrite eqb_reflx in Hc.
  destruct (inheritable e1), (inheritable e2); simpl in *; lia.
Qed.

Lemma compatible_sub rl1 rl2 rl1' rl2' :
  compatible rl1 rl2 →
  (∀ b rev, covers_as b rl1' rev = true → covers_as b rl1 rev = true) →
  (∀ b rev, covers_as b rl2' rev = true → covers_as b rl2 rev = true) →
  compatible rl1' rl2'.
Proof.
  intros Hc H1 H2 b rev Hb. specialize (Hc b rev (H1 _ _ Hb)).
  specialize (H2 (negb b) rev). destruct (covers_as (negb b) rl2' rev); [|done].
  rewrite H2 in Hc; done.
Qed.

Lemma covers_below lo rl rev : wf_from lo rl = true → rev <= lo → covers rl rev = false.
Proof. intros. pose proof (covers_bounds lo rl rev). destruct (covers rl rev); lia. Qed.

Lemma covers_as_below b lo rl rev :
  wf_from lo rl = true → rev <= lo → covers_as b rl rev = false.
Proof.
  intros. pose proof (covers_as_bounds b lo rl rev). destruct (covers_as b rl rev); lia.
Qed.

Lemma max_ltb a b c : (Z.max a b <? c) = (a <? c) && (b <? c).
Proof. lia. Qed.
Lemma leb_min a b c : (c <=? Z.min a b) = (c <=? a) && (c <=? b).
Proof. lia. Qed.

(** Nothing of the list [t], well formed by [H], lies at or below [lo]: two
    cases. *)
Ltac tail_case rev lo t H :=
  destruct (Z.lt_ge_cases lo rev);
  [|rewrite ?(covers_below lo t rev), ?(covers_as_below true lo t rev),
      ?(covers_as_below false lo t rev) in * by (exact H || lia)]; clear H.

(** Compare [rev] with the endpoints in sight, then decide the booleans. *)
Ltac rev_cases rev :=
  repeat match goal with
  | |- context [Z.ltb ?a rev] =>
      first [ replace (Z.ltb a rev) with true by (symmetry; apply Z.ltb_lt; lia)
            | replace (Z.ltb a rev) with false by (symmetry; apply Z.ltb_ge; lia)
            | destruct (Z.ltb_spec a rev) ]
  | |- context [Z.leb rev ?a] =>
      first [ replace (Z.leb rev a) with true by (symmetry; apply Z.leb_le; lia)
            | replace (Z.leb rev a) with false by (symmetry; apply Z.leb_gt; lia)
            | destruct (Z.leb_spec rev a) ]
  end.
Ltac bool_cases :=
  cbn [andb orb negb Bool.eqb implb];
  repeat match goal with
  | |- context [covers ?l ?r] => destruct (covers l r)
  | |- context [covers_as ?b ?l ?r] => destruct (covers_as b l r)
  | |- context [inheritable ?e] => destruct (inheritable e)
  end; first [done | exfalso; lia].
Ltac select_cases rev :=
  unfold selected, selected_as, selected_inheritable in *; cbn [covers covers_as];
  unfold in_range; cbn [start end_ inheritable]; rewrite ?max_ltb, ?leb_min.

Definition nonempty (r : svn_merge_range_t) : bool := start r <? end_ r.

(** [out'] is [out] with [x] added at its end, unless [x] is empty. *)
Definition pushed_if (ci : bool) out (x : svn_merge_range_t) out' : Prop :=
  if nonempty x then pushed ci out x out' else out' = out.

(** What an iteration appends to the output ... *)
Definition ior_piece (dr : bool) (e1 e2 : svn_merge_range_t) : svn_merge_range_t :=
  if dr then MkRange (start e2) (Z.min (end_ e2) (start e1)) (inheritable e2)
  else MkRange (Z.max (start e1) (start e2)) (Z.min (end_ e1) (end_ e2))
         (inheritable e2 || inheritable e1).

(** ... and what it leaves of [rangelist2]. *)
Definition ior_rest (e1 e2 : svn_merge_range_t) (tail2 : svn_rangelist_t)
    : svn_rangelist_t :=
  if end_ e2 <=? end_ e1 then tail2
  else MkRange (end_ e1) (end_ e2) (inheritable e2) :: tail2.

Lemma pushed_if_covers ci out x out' rev :
  pushed_if ci out x out' → covers out' rev = covers out rev || in_range x rev.
Proof.
  unfold pushed_if, nonempty, in_range.
  destruct (Z.ltb_spec (start x) (end_ x)) as [?|?]; [intros Hp; by apply (pushed_covers _ _ _ _ Hp)|intros ->].
  destruct (covers out rev); simpl; lia.
Qed.

Lemma pushed_if_as ci out x out' rev b :
  pushed_if ci out x out' → ci = true →
  covers_as b out' rev
  = covers_as b out rev || (Bool.eqb (inheritable x) b && in_range x rev).
Proof.
  unfold pushed_if, nonempty, in_range.
  destruct (Z.ltb_spec (start x) (end_ x)) as [?|?]; [intros Hp ?; by apply (pushed_as _ _ _ _ Hp)|intros ->].
  destruct (covers_as b out rev); simpl; lia.
Qed.

Lemma pushed_if_inheritable ci out x out' rev :
  pushed_if ci out x out' →
  covers_as true out rev || (inheritable x && in_range x rev) = true →
  covers_as true out' rev = true.
Proof.
  unfold pushed_if, nonempty, in_range.
  destruct (Z.ltb_spec (start x) (end_ x)) as [?|?]; [intros Hp; by apply (pushed_inheritable _ _ _ _ Hp)|intros ->].
  destruct (covers_as true out rev); simpl; lia.
Qed.

Section Transitions.
Context (dr ci : bool) (out : svn_rangelist_t) (e1 e2 : svn_merge_range_t).
Context (tail1 tail2 : svn_rangelist_t).

(** The first range of [rangelist1] lies before all of [rangelist2]. *)
Lemma ior_to_next1 (rl2' : svn_rangelist_t) :
  ior_inv ci out (e1 :: tail1) rl2' → wf_from (end_ e1) rl2' = true →
  ior_to dr ci out (e1 :: tail1) rl2' out tail1 rl2'.
Proof.
  intros [Ho Ha H1 H2 Hc] Hle. simpl in H1.
  assert (start e1 < end_ e1) by lia. split.
  - split; [done|done|eapply wf_from_weaken; [|shelve]; lia|done|].
    intros Hci. eapply compatible_sub; [by apply Hc| |done].
    intros b rev. simpl. intros ->. apply orb_true_r.
    Unshelve. lia.
  - unfold ior_measure. destruct rl2'; simpl in *; [destruct tail1; lia|].
    if_true by lia. destruct tail1; [lia|]. case_if; lia.
  - clear H1 H2 Hc. intros rev. select_cases rev.
    destruct dr; tail_case rev (end_ e1) rl2' Hle; rev_cases rev; bool_cases.
  - clear H1 H2 Hc. intros b rev Hci. select_cases rev.
    destruct dr, b; tail_case rev (end_ e1) rl2' Hle; rev_cases rev; bool_cases.
  - clear H1 H2 Hc. intros rev. select_cases rev.
    destruct dr; tail_case rev (end_ e1) rl2' Hle; rev_cases rev; bool_cases.
Qed.

(** The first ranges overlap, or that of [rangelist2] comes first. *)
Lemma ior_to_advance out' :
  ior_inv ci out (e1 :: tail1) (e2 :: tail2) → start e2 < end_ e1 →
  pushed_if ci out (ior_piece dr e1 e2) out' →
  ior_to dr ci out (e1 :: tail1) (e2 :: tail2)
              out' (e1 :: tail1) (ior_rest e1 e2 tail2).
Proof.
  intros [Ho Ha H1 H2 Hc] Hle Hp.
  pose proof (λ rev, pushed_if_covers _ _ _ _ rev Hp) as Hpc.
  pose proof (λ rev b, pushed_if_as _ _ _ _ rev b Hp) as Hpa.
  pose proof (λ rev, pushed_if_inheritable _ _ _ _ rev Hp) as Hpi.
  simpl in H1, H2.
  assert (0 <= start e1) by lia. pose proof (last_end_ge 0 out Ho).
  assert (start e1 < end_ e1) by lia. assert (start e2 < end_ e2) by lia.
  assert (wf_from (end_ e1) tail1 = true) as Ht1 by lia.
  assert (wf_from (end_ e2) tail2 = true) as Ht2 by lia.
  assert (ci = true → start e1 < end_ e2 → inheritable e1 = inheritable e2) as Hi.
  { intros Hci ?. by apply (compatible_head _ _ tail1 tail2); auto. }
  split.
  - unfold pushed_if, nonempty in Hp. split.
    + case_match; [apply Hp|by subst].
    + case_match; [by apply Hp|by subst].
    + simpl. lia.
    + assert (last_end 0 out' <= end_ e2 ∧ (end_ e1 < end_ e2 → last_end 0 out' <= end_ e1))
        as [? ?].
      { clear Hpc Hpa Hpi Hi. revert Hp. case_if; [|intros ->; lia].
        intros Hp. rewrite (pushed_end _ _ _ _ Hp). unfold ior_piece.
        destruct dr; simpl; lia. }
      unfold ior_rest. case_if; simpl; [eapply wf_from_weaken; [done|lia]|lia].
    + intros Hci. eapply compatible_sub; [by apply Hc|done|]. unfold ior_rest.
      intros b rev. case_if; simpl; [intros ->; apply orb_true_r|].
      unfold in_range. simpl. destruct (covers_as b tail2 rev); lia.
  - unfold ior_measure, ior_rest. if_false by lia.
    destruct (Z.leb_spec (end_ e2) (end_ e1)); simpl.
    + destruct tail2; [lia|]. case_if; lia.
    + if_true by lia. lia.
  - clear Hpa Hpi Hi Hp Hc H1 H2 Ho. intros rev. rewrite Hpc. clear Hpc.
    unfold ior_rest, ior_piece. select_cases rev.
    destruct dr, (Z.leb_spec (end_ e2) (end_ e1)); select_cases rev;
    tail_case rev (end_ e1) tail1 Ht1; tail_case rev (end_ e2) tail2 Ht2;
    rev_cases rev; bool_cases.
  - clear Hpc Hpi Hp Hc H1 H2 Ho. intros b rev Hci. rewrite Hpa by done. clear Hpa.
    specialize (Hi Hci). unfold ior_rest, ior_piece. select_cases rev.
    destruct dr, b, (Z.leb_spec (end_ e2) (end_ e1)); select_cases rev;
    tail_case rev (end_ e1) tail1 Ht1; tail_case rev (end_ e2) tail2 Ht2;
    rev_cases rev; rewrite ?Hi by lia; bool_cases.
  - clear Hpc Hpa Hi Hp Hc H1 H2 Ho. intros rev Hr.
    destruct (covers_as true out' rev) eqn:Hout'; [done|]. simpl.
    assert (covers_as true out rev
      || (inheritable (ior_piece dr e1 e2) && in_range (ior_piece dr e1 e2) rev) = false)
      as Hpi'.
    { apply not_true_is_false. intros Hx. specialize (Hpi rev Hx). by rewrite Hout' in Hpi. }
    clear Hpi. revert Hpi' Hr. unfold ior_rest, ior_piece. select_cases rev.
    destruct dr, (Z.leb_spec (end_ e2) (end_ e1)); select_cases rev;
    tail_case rev (end_ e1) tail1 Ht1; tail_case rev (end_ e2) tail2 Ht2;
    rev_cases rev; bool_cases.
Qed.
End Transitions.
