(* ===== verification/RangelistAlgebra.v ===== *)
(** * The algebra of rangelists

    The functions of [Rangelist] against the sets of revisions that rangelists
    denote.

    The function is called with ranges that lie anywhere relative to the last
    one; what it leaves, up to the order that [qsort] establishes, covers the
    old list and the new range. *)
From S2P Require Import Prelude MergeRange Rangelist RangelistLoop.

Implicit Types (rangelist output eraser whiteboard out l : svn_rangelist_t).

(** ** The code of an iteration *)

Lemma ior_remaining_next rangelist2 output i1 i2 e :
  ior_remaining rangelist2 (MkIor output i1 (S i2) (Some (i2, e)))
  = drop (S i2) rangelist2.
Proof.
  unfold ior_remaining, ior_elt2. cbn [ior_working ior_i2].
  if_false by (by destruct (Nat.eqb_spec (S i2) i2); [lia|]).
  destruct (rangelist2 !! S i2) as [x|] eqn:Hx.
  - symmetry. by apply drop_S.
  - symmetry. apply drop_ge. by apply lookup_ge_None.
Qed.

Lemma ior_remaining_same rangelist2 output i1 i2 e :
  (i2 < length rangelist2)%nat →
  ior_remaining rangelist2 (MkIor output i1 i2 (Some (i2, e)))
  = e :: drop (S i2) rangelist2.
Proof.
  intros Hl. unfold ior_remaining, ior_elt2. cbn [ior_working ior_i2].
  rewrite Nat.eqb_refl. by if_true by lia.
Qed.

Lemma ior_elt2_length rangelist2 s e :
  ior_elt2 rangelist2 s = Some e → (ior_i2 s < length rangelist2)%nat.
Proof.
  unfold ior_elt2. repeat case_match; try done; try lia; apply lookup_lt_Some.
Qed.

Lemma ior_to_trans dr ci out rl1 rl2 out' rl1' rl2' out2 rl12 rl22 :
  ior_to dr ci out rl1 rl2 out' rl1' rl2' →
  ior_to dr ci out' rl1' rl2' out2 rl12 rl22 →
  ior_to dr ci out rl1 rl2 out2 rl12 rl22.
Proof.
  intros [? ? Hc Ha Hi] [? ? Hc' Ha' Hi']. split; [done|lia|..].
  - intros rev. by rewrite Hc'.
  - intros b rev Hci. by rewrite Ha'; auto.
  - auto.
Qed.

Lemma ior_measure_le rl1 rl2 :
  (ior_measure rl1 rl2 <= 2 * length rl1 + 2 * length rl2)%nat.
Proof. unfold ior_measure. apply Nat.le_sub_l. Qed.

Section Step.
Context `{Qsort} (dr ci : bool) (rangelist1 rangelist2 : svn_rangelist_t).

Lemma push_piece out x :
  rangelist_wf out = true → last_end 0 out <= start x →
  ∃ out',
    (if nonempty x then combine_with_lastrange x out ci else Ok out) = Ok out'
    ∧ pushed_if ci out x out'.
Proof.
  intros Ho Hl. unfold pushed_if. destruct (nonempty x) eqn:Hn; [|eauto].
  apply combine_with_lastrange_end. unfold may_push, nonempty in *. lia.
Qed.

(** What an iteration does in each of its branches, in terms of the piece
    it appends. *)
Definition ior_goto (s : ior_state) (e1 e2 : svn_merge_range_t) out' : ior_state :=
  MkIor out'
    (if (end_ e1 =? end_ e2) && (start e1 =? start e2) then S (ior_i1 s) else ior_i1 s)
    (if end_ e2 <=? end_ e1 then S (ior_i2 s) else ior_i2 s)
    (Some (ior_i2 s,
           if end_ e2 <=? end_ e1 then e2
           else MkRange (end_ e1) (end_ e2) (inheritable e2))).

Lemma ior_contained_goto s e1 e2 out' :
  start e1 <= start e2 → start e2 < end_ e2 → end_ e2 <= end_ e1 →
  (if nonempty (ior_piece dr e1 e2)
   then combine_with_lastrange (ior_piece dr e1 e2) (ior_output s) ci
   else Ok (ior_output s)) = Ok out' →
  ior_contained dr ci s e1 e2 = Ok (ior_goto s e1 e2 out').
Proof.
  intros Hs Hlt He Hp. unfold ior_contained, ior_goto.
  assert ((end_ e2 <=? end_ e1) = true) as -> by lia.
  replace ((end_ e1 =? end_ e2) && (start e1 =? start e2))
    with ((start e2 =? start e1) && (end_ e2 =? end_ e1)) by lia.
  revert Hp. unfold ior_piece, nonempty. destruct dr; simpl.
  - if_false by lia. by intros [= ->].
  - if_true by lia. replace (Z.max _ _) with (start e2) by lia.
    replace (Z.min _ _) with (end_ e2) by lia. by intros ->.
Qed.

Lemma ior_overlapping_goto s e1 e2 out' :
  rangelist_wf (ior_output s) = true → last_end 0 (ior_output s) <= start e2 →
  start e1 < end_ e1 → start e2 < end_ e2 →
  start e1 < end_ e2 → start e2 < end_ e1 → start e2 < start e1 ∨ end_ e1 < end_ e2 →
  (if nonempty (ior_piece dr e1 e2)
   then combine_with_lastrange (ior_piece dr e1 e2) (ior_output s) ci
   else Ok (ior_output s)) = Ok out' →
  ior_overlapping dr ci s e1 e2 = Ok (ior_goto s e1 e2 out').
Proof.
  intros Ho Hl H1 H2 H12 H21 Hn Hp. unfold ior_overlapping, ior_goto.
  assert ((end_ e1 =? end_ e2) && (start e1 =? start e2) = false) as -> by lia.
  replace (end_ e2 <=? end_ e1) with (negb (end_ e1 <? end_ e2)) by lia.
  revert Hp. unfold ior_piece, nonempty. destruct dr; cbn [negb start end_].
  - replace (Z.min (end_ e2) (start e1)) with (start e1) by lia.
    destruct (Z.ltb_spec (start e2) (start e1)).
    + intros ->. cbn [rbind]. by destruct (end_ e1 <? end_ e2).
    + intros [= ->]. cbn [rbind]. by if_true by lia.
  - if_true by lia. rewrite (Z.max_comm (start e2)), (Z.min_comm (end_ e2)).
    intros Hp.
    assert (pushed ci (ior_output s) (MkRange (Z.max (start e1) (start e2))
      (Z.min (end_ e1) (end_ e2)) (inheritable e2 || inheritable e1)) out') as Hpush.
    { rewrite combine_with_lastrange_append in Hp by (unfold may_push; simpl; lia).
      injection Hp as <-. apply append_range_pushed. unfold may_push. simpl. lia. }
    assert (Hagain := combine_with_lastrange_again _ _ _ _ Hpush).
    simpl in Hagain. specialize (Hagain ltac:(lia)).
    destruct (Z.ltb_spec (start e2) (start e1)), (Z.ltb_spec (end_ e1) (end_ e2)); [..|lia].
    + replace (Z.max (start e1) (start e2)) with (start e1) in * by lia.
      rewrite Hp. cbn [rbind]. replace (Z.min _ _) with (end_ e1) in Hagain by lia.
      by rewrite Hagain.
    + replace (Z.max (start e1) (start e2)) with (start e1) in * by lia.
      by rewrite Hp.
    + cbn [rbind]. replace (Z.min _ _) with (end_ e1) in Hp by lia. by rewrite Hp.
Qed.

Lemma ior_disjoint_goto s e1 e2 out' :
  rangelist_wf (ior_output s) = true → last_end 0 (ior_output s) <= start e2 →
  start e1 < end_ e1 → start e2 < end_ e2 → end_ e2 <= start e1 →
  (if nonempty (ior_piece dr e1 e2)
   then combine_with_lastrange (ior_piece dr e1 e2) (ior_output s) ci
   else Ok (ior_output s)) = Ok out' →
  ior_disjoint dr ci s e1 e2 = ior_goto s e1 e2 out'.
Proof.
  intros Ho Hl H1 H2 Hd Hp. unfold ior_disjoint, ior_goto.
  compare_ranges e1 e2; try lia.
  assert ((end_ e1 =? end_ e2) && (start e1 =? start e2) = false) as -> by lia.
  assert ((end_ e2 <=? end_ e1) = true) as -> by lia. f_equal.
  revert Hp. unfold ior_piece, nonempty. destruct dr; simpl.
  - if_true by lia. replace (Z.min _ _) with (end_ e2) by lia.
    destruct e2 as [a b ih]; simpl in *.
    rewrite combine_with_lastrange_append by (unfold may_push; simpl; lia).
    intros [= <-]. unfold append_range. destruct (last _); [|done].
    by destruct (combine_ranges _ _ _).
  - if_false by lia. intros [= <-]. destruct (last _); [|done].
    by destruct (combine_ranges _ _ _).
Qed.

Lemma ior_step_advance s e1 e2 tail1 tail2 :
  ior_inv ci (ior_output s) (e1 :: tail1) (e2 :: tail2) → start e2 < end_ e1 →
  ∃ out',
    pushed_if ci (ior_output s) (ior_piece dr e1 e2) out'
    ∧ ior_step dr ci s e1 e2 = Ok (ior_goto s e1 e2 out').
Proof.
  intros [Ho Ha H1 H2 Hc] Hle. simpl in H1, H2.
  pose proof (last_end_ge 0 _ Ho).
  assert (ci = true → start e1 < end_ e2 → inheritable e1 = inheritable e2) as Hi.
  { intros Hci ?. apply (compatible_head _ _ tail1 tail2); auto; lia. }
  destruct (push_piece (ior_output s) (ior_piece dr e1 e2)) as (out' & Hp & Hp');
    [done|unfold ior_piece; destruct dr; simpl; lia|].
  exists out'. split; [done|].
  unfold ior_step, range_contains, range_intersect, guarded.
  rewrite !(valid_forward 0) by lia. cbn [rbind].
  destruct (Z.leb_spec (end_ e2) (start e1)) as [Hd|Hd].
  { if_false by lia. if_false by lia. by rewrite (ior_disjoint_goto _ _ _ out') by (done || lia). }
  assert (negb ci || same_inheritance e1 e2 = true) as ->.
  { destruct ci; [|done]. unfold same_inheritance. rewrite Hi by done. apply eqb_reflx. }
  case_if; [by apply ior_contained_goto; try lia|].
  if_true by lia. apply ior_overlapping_goto; done || lia.
Qed.

Lemma ior_goto_remaining s e1 e2 out' :
  (ior_i2 s < length rangelist2)%nat →
  ior_remaining rangelist2 (ior_goto s e1 e2 out')
  = ior_rest e1 e2 (drop (S (ior_i2 s)) rangelist2).
Proof.
  intros Hl. unfold ior_goto, ior_rest. destruct (end_ e2 <=? end_ e1).
  - apply ior_remaining_next.
  - by apply ior_remaining_same.
Qed.

Lemma ior_step_ok s e1 e2 :
  rangelist1 !! ior_i1 s = Some e1 → ior_elt2 rangelist2 s = Some e2 →
  ior_inv ci (ior_output s) (drop (ior_i1 s) rangelist1) (ior_remaining rangelist2 s) →
  ∃ s',
    ior_step dr ci s e1 e2 = Ok s'
    ∧ ior_to dr ci (ior_output s) (drop (ior_i1 s) rangelist1) (ior_remaining rangelist2 s)
        (ior_output s') (drop (ior_i1 s') rangelist1) (ior_remaining rangelist2 s').
Proof.
  intros He1 He2. pose proof (ior_elt2_length _ _ _ He2) as Hl.
  assert (Hrem : ior_remaining rangelist2 s = e2 :: drop (S (ior_i2 s)) rangelist2)
    by by (unfold ior_remaining; rewrite He2).
  rewrite Hrem, (drop_S rangelist1 e1) by done. intros Hinv.
  pose proof Hinv as [_ _ H1 H2 _]. simpl in H1, H2.
  destruct (Z.le_gt_cases (end_ e1) (start e2)) as [Hd|Hd].
  - pose proof (last_end_ge 0 _ (inv_out _ _ _ _ Hinv)).
    exists (MkIor (ior_output s) (S (ior_i1 s)) (ior_i2 s) (Some (ior_i2 s, e2))). split.
    + unfold ior_step, range_contains, range_intersect, ior_disjoint, guarded.
      rewrite !(valid_forward 0) by lia. cbn [rbind]. if_false by lia.
      if_false by lia. compare_ranges e1 e2; lia || done.
    + rewrite ior_remaining_same by done. apply ior_to_next1; [done|simpl; lia].
  - destruct (ior_step_advance _ _ _ _ _ Hinv) as (out' & Hp & ->); [lia|].
    eexists. split; [done|]. rewrite ior_goto_remaining by done.
    pose proof (ior_to_advance dr ci _ _ _ _ _ _ Hinv ltac:(lia) Hp) as Hto.
    unfold ior_goto. cbn [ior_i1 ior_output]. case_if; [|by rewrite (drop_S rangelist1 e1 (ior_i1 s))].
    eapply ior_to_trans; [done|]. apply ior_to_next1; [apply Hto|].
    unfold ior_rest. if_true by lia. eapply wf_from_weaken; [|shelve]. lia.
    Unshelve. lia.
Qed.

Lemma ior_loop_ok fuel s :
  ior_inv ci (ior_output s) (drop (ior_i1 s) rangelist1) (ior_remaining rangelist2 s) →
  (ior_measure (drop (ior_i1 s) rangelist1) (ior_remaining rangelist2 s) < fuel)%nat →
  ∃ s',
    ior_loop fuel rangelist1 rangelist2 dr ci s = Ok s'
    ∧ ior_inv ci (ior_output s') (drop (ior_i1 s') rangelist1) (ior_remaining rangelist2 s')
    ∧ (drop (ior_i1 s') rangelist1 = [] ∨ ior_remaining rangelist2 s' = [])
    ∧ (s' = s
       ∨ ior_to dr ci (ior_output s) (drop (ior_i1 s) rangelist1) (ior_remaining rangelist2 s)
           (ior_output s') (drop (ior_i1 s') rangelist1) (ior_remaining rangelist2 s')).
Proof.
  revert s; induction fuel as [|fuel IH]; intros s Hinv Hf; [lia|]. cbn [ior_loop].
  destruct (rangelist1 !! ior_i1 s) as [e1|] eqn:He1.
  2: { exists s. split; [done|]. split; [done|]. split; [|by left]. left.
       apply drop_ge. by apply lookup_ge_None. }
  destruct (ior_elt2 rangelist2 s) as [e2|] eqn:He2.
  2: { exists s. split; [done|]. split; [done|]. split; [|by left]. right.
       unfold ior_remaining. by rewrite He2. }
  destruct (ior_step_ok s e1 e2 He1 He2 Hinv) as (s1 & -> & Hto). cbn [rbind].
  destruct (IH s1) as (s2 & ? & ? & ? & Hs2); [apply Hto|pose proof (to_measure _ _ _ _ _ _ _ _ Hto); lia|].
  exists s2. do 3 (split; [done|]). right.
  destruct Hs2 as [->|]; [done|by eapply ior_to_trans].
Qed.

Lemma combine_all_ok rl out :
  rangelist_wf out = true → apart ci out = true →
  wf_from (last_end 0 out) rl = true →
  ∃ out',
    combine_all rl out ci = Ok out'
    ∧ rangelist_wf out' = true ∧ apart ci out' = true
    ∧ (∀ rev, covers out' rev = covers out rev || covers rl rev)
    ∧ (∀ b rev, ci = true → covers_as b out' rev = covers_as b out rev || covers_as b rl rev)
    ∧ (∀ rev, covers_as true out rev || covers_as true rl rev = true →
              covers_as true out' rev = true).
Proof.
  revert out; induction rl as [|x rl IH]; intros out Ho Ha Hwf; simpl in *.
  { exists out. repeat split; try done; intros; rewrite ?orb_false_r in *; done. }
  destruct (combine_with_lastrange_end ci out x) as (o1 & -> & Hp);
    [unfold may_push; lia|]. cbn [rbind].
  destruct (IH o1) as (o2 & -> & ? & ? & Hc & Hb & Hi);
    [apply Hp|by apply Hp|rewrite (pushed_end _ _ _ _ Hp); lia|].
  exists o2. repeat split; [done..|intros rev|intros b rev Hci|intros rev Hr].
  - by rewrite Hc, (pushed_covers _ _ _ _ Hp), orb_assoc.
  - by rewrite Hb, (pushed_as _ _ _ _ Hp), orb_assoc.
  - apply Hi. pose proof (pushed_inheritable _ _ _ _ Hp rev).
    destruct (covers_as true rl rev), (covers_as true o1 rev); try done.
    revert Hr. destruct (inheritable x), (covers_as true out rev), (in_range x rev); simpl in *; auto.
Qed.

Lemma ior_finish_combine_all s :
  ior_finish rangelist2 ci s = combine_all (ior_remaining rangelist2 s) (ior_output s) ci.
Proof.
  unfold ior_finish, ior_remaining, ior_elt2.
  assert (∀ i, drop i rangelist2
    = match rangelist2 !! i with Some e => e :: drop (S i) rangelist2 | None => [] end) as Hd.
  { intros i. destruct (rangelist2 !! i) eqn:Hi; [by apply drop_S|].
    apply drop_ge. by apply lookup_ge_None. }
  destruct (ior_working s) as [[lasti2 w]|]; [|cbn [rbind]; by rewrite Hd].
  destruct (ior_i2 s =? lasti2)%nat; cbn [andb]; [|cbn [rbind]; by rewrite Hd].
  case_if; [cbn [combine_all]; by destruct (combine_with_lastrange _ _ _)|].
  cbn [rbind]. rewrite drop_ge by lia. done.
Qed.
End Step.

(** ** The theorems *)

Section Theorems.
Context `{Qsort}.

(** The two callers of the loop at once. *)
Lemma intersect_or_remove_ok dr ci rangelist1 rangelist2 :
  rangelist_wf rangelist1 = true → rangelist_wf rangelist2 = true →
  (ci = true → compatible rangelist1 rangelist2) →
  ∃ output,
    rangelist_intersect_or_remove rangelist1 rangelist2 dr ci = Ok output
    ∧ rangelist_wf output = true ∧ apart ci output = true
    ∧ (∀ rev, covers output rev = selected dr rangelist1 rangelist2 rev)
    ∧ (∀ b rev, ci = true →
         covers_as b output rev = selected_as b dr rangelist1 rangelist2 rev)
    ∧ (∀ rev, selected_inheritable dr rangelist1 rangelist2 rev = true →
         covers_as true output rev = true).
Proof.
  intros H1 H2 Hc. unfold rangelist_intersect_or_remove.
  assert (Hrem : ior_remaining rangelist2 (MkIor [] 0 0 None) = rangelist2)
    by by destruct rangelist2.
  destruct (ior_loop_ok dr ci rangelist1 rangelist2 (ior_fuel rangelist1 rangelist2)
              (MkIor [] 0 0 None)) as (s & -> & Hinv & Hend & Hto).
  { rewrite Hrem. by split. }
  { rewrite Hrem. pose proof (ior_measure_le rangelist1 rangelist2). unfold ior_fuel.
    cbn [ior_i1]. rewrite drop_0. lia. }
  rewrite Hrem in Hto. cbn [rbind ior_output ior_i1] in *. rewrite drop_0 in Hto.
  destruct (combine_all_ok ci (ior_remaining rangelist2 s) (ior_output s))
    as (o & Ho & ? & ? & Hoc & Hoa & Hoi); [apply Hinv..|].
  destruct Hinv as [].
  assert ((∀ rev, covers (ior_output s) rev || selected dr (drop (ior_i1 s) rangelist1)
             (ior_remaining rangelist2 s) rev = selected dr rangelist1 rangelist2 rev)
    ∧ (∀ b rev, ci = true → covers_as b (ior_output s) rev
         || selected_as b dr (drop (ior_i1 s) rangelist1) (ior_remaining rangelist2 s) rev
         = selected_as b dr rangelist1 rangelist2 rev)
    ∧ (∀ rev, selected_inheritable dr rangelist1 rangelist2 rev = true →
         covers_as true (ior_output s) rev || selected_inheritable dr
           (drop (ior_i1 s) rangelist1) (ior_remaining rangelist2 s) rev = true))
    as (Hsc & Hsa & Hsi).
  { destruct Hto as [->|[_ _ Ht Ha Hi]]; [by rewrite Hrem|].
    repeat split; [apply Ht|apply Ha|apply Hi]. }
  unfold selected, selected_as, selected_inheritable in *. destruct dr.
  - rewrite ior_finish_combine_all. exists o. repeat split; [done..| | |].
    + intros rev. rewrite Hoc, <- Hsc.
      destruct Hend as [-> | ->]; simpl; by rewrite ?andb_true_r.
    + intros b rev Hci. rewrite Hoa, <- Hsa by done.
      destruct Hend as [-> | ->]; simpl; by rewrite ?andb_true_r.
    + intros rev Hr. apply Hoi. etrans; [|apply (Hsi rev Hr)].
      destruct Hend as [-> | ->]; simpl; by rewrite ?andb_true_r.
  - exists (ior_output s). repeat split; [done..| | |].
    + intros rev. rewrite <- Hsc.
      destruct Hend as [-> | ->]; simpl; by rewrite ?andb_false_r, orb_false_r.
    + intros b rev Hci. rewrite <- Hsa by done.
      destruct Hend as [-> | ->]; simpl; by rewrite ?andb_false_r, orb_false_r.
    + intros rev Hr. etrans; [|apply (Hsi rev Hr)]. rewrite <- (orb_false_r (covers_as true _ _)) at 1.
      f_equal. symmetry. apply andb_false_iff.
      destruct Hend as [-> | ->]; [left; simpl; apply andb_false_r|by right].
Qed.
End Theorems.

(** C28: svn_rangelist_intersect returns a well-formed rangelist of the
    revisions in both arguments; when inheritance is considered, on
    compatible lists, the intersection is taken separately for inheritable
    and non-inheritable revisions, and otherwise a common revision
    inheritable in either argument stays inheritable. *)
Theorem svn_rangelist_intersect_spec `{Qsort} (consider_inheritance : bool)
    (rangelist1 rangelist2 : svn_rangelist_t) :
  rangelist_wf rangelist1 = true → rangelist_wf rangelist2 = true →
  (consider_inheritance = true → compatible rangelist1 rangelist2) →
  ∃ output,
    svn_rangelist_intersect rangelist1 rangelist2 consider_inheritance = Ok output
    ∧ rangelist_wf output = true ∧ apart consider_inheritance output = true
    ∧ (∀ rev, covers output rev = covers rangelist1 rev && covers rangelist2 rev)
    ∧ (∀ b rev, consider_inheritance = true →
         covers_as b output rev = covers_as b rangelist1 rev && covers_as b rangelist2 rev)
    ∧ (∀ rev, (covers_as true rangelist1 rev || covers_as true rangelist2 rev)
              && covers rangelist1 rev && covers rangelist2 rev = true →
         covers_as true output rev = true).
Proof. apply (intersect_or_remove_ok false). Qed.

Lemma svn_rangelist_intersect_spec_witness :
  ∃ output,
    svn_rangelist_intersect [MkRange 0 4 false; MkRange 6 9 true]
      [MkRange 2 4 false; MkRange 7 8 true] true = Ok output
    ∧ rangelist_wf output = true ∧ apart true output = true
    ∧ (∀ rev, covers output rev
              = covers [MkRange 0 4 false; MkRange 6 9 true] rev
                && covers [MkRange 2 4 false; MkRange 7 8 true] rev)
    ∧ (∀ b rev, true = true →
         covers_as b output rev
         = covers_as b [MkRange 0 4 false; MkRange 6 9 true] rev
           && covers_as b [MkRange 2 4 false; MkRange 7 8 true] rev)
    ∧ (∀ rev, (covers_as true [MkRange 0 4 false; MkRange 6 9 true] rev
               || covers_as true [MkRange 2 4 false; MkRange 7 8 true] rev)
              && covers [MkRange 0 4 false; MkRange 6 9 true] rev
              && covers [MkRange 2 4 false; MkRange 7 8 true] rev = true →
         covers_as true output rev = true).
Proof.
  apply svn_rangelist_intersect_spec; [done|done|]. intros _ b rev.
  destruct b; simpl; unfold in_range; simpl; lia.
Defined.

(** C29: svn_rangelist_remove of two well-formed rangelists returns a well-
    formed rangelist of the whiteboard's revisions that the eraser does not
    have; when inheritance is considered, which needs lists in which no
    revision has different inheritability, this holds separately for
    inheritable and non-inheritable revisions. In both cases an inheritable
    revision of the whiteboard that the eraser does not have stays
    inheritable (when inheritance is not considered, a non-inheritable one
    may become inheritable). *)
Theorem svn_rangelist_remove_spec `{Qsort} (consider_inheritance : bool)
    eraser whiteboard :
  rangelist_wf eraser = true → rangelist_wf whiteboard = true →
  (consider_inheritance = true → compatible eraser whiteboard) →
  ∃ output,
    svn_rangelist_remove eraser whiteboard consider_inheritance = Ok output
    ∧ rangelist_wf output = true ∧ apart consider_inheritance output = true
    ∧ (∀ rev, covers output rev = covers whiteboard rev && negb (covers eraser rev))
    ∧ (∀ b rev, consider_inheritance = true →
         covers_as b output rev = covers_as b whiteboard rev && negb (covers_as b eraser rev))
    ∧ (∀ rev, covers_as true whiteboard rev && negb (covers eraser rev) = true →
         covers_as true output rev = true).
Proof. apply (intersect_or_remove_ok true). Qed.

Lemma svn_rangelist_remove_spec_witness :
  ∃ output,
    svn_rangelist_remove [MkRange 2 5 true] [MkRange 0 4 false; MkRange 6 9 true] false
    = Ok output
    ∧ rangelist_wf output = true ∧ apart false output = true
    ∧ (∀ rev, covers output rev
              = covers [MkRange 0 4 false; MkRange 6 9 true] rev
                && negb (covers [MkRange 2 5 true] rev))
    ∧ (∀ b rev, false = true →
         covers_as b output rev
         = covers_as b [MkRange 0 4 false; MkRange 6 9 true] rev
           && negb (covers_as b [MkRange 2 5 true] rev))
    ∧ (∀ rev, covers_as true [MkRange 0 4 false; MkRange 6 9 true] rev
              && negb (covers [MkRange 2 5 true] rev) = true →
         covers_as true output rev = true).
Proof. by apply svn_rangelist_remove_spec. Defined.

(** With inheritance considered and lists that are not compatible, a
    revision that is non-inheritable in both lists is neither part of the
    intersection nor removed. *)
Theorem svn_rangelist_intersect_mixed `{Qsort} :
  let rangelist1 := [MkRange 1 2 true; MkRange 3 4 false] in
  let rangelist2 := [MkRange 0 4 false] in
  rangelist_wf rangelist1 && compact rangelist1 = true
  ∧ rangelist_wf rangelist2 && compact rangelist2 = true
  ∧ covers_as false rangelist1 4 && covers_as false rangelist2 4 = true
  ∧ svn_rangelist_intersect rangelist1 rangelist2 true = Ok []
  ∧ svn_rangelist_remove rangelist1 rangelist2 true = Ok rangelist2.
Proof. simpl. repeat split; reflexivity. Qed.

(** svn_rangelist_diff, ignoring inheritance, returns disjoint well-formed
    deletions and additions, and patching the first list with them gives the
    revisions of the second. *)
Theorem svn_rangelist_diff_spec `{Qsort} (from to : svn_rangelist_t) :
  rangelist_wf from = true → rangelist_wf to = true →
  ∃ deleted added,
    svn_rangelist_diff from to false = Ok (deleted, added)
    ∧ rangelist_wf deleted && rangelist_wf added = true
    ∧ ∀ rev,
        covers deleted rev && covers added rev = false
        ∧ covers deleted rev = covers from rev && negb (covers to rev)
        ∧ covers to rev = (covers from rev && negb (covers deleted rev)) || covers added rev.
Proof.
  intros Hf Ht. unfold svn_rangelist_diff, svn_rangelist_remove.
  destruct (intersect_or_remove_ok true false to from) as (d & -> & Hd & _ & Hdc & _);
    [done..|]. cbn [rbind].
  destruct (intersect_or_remove_ok true false from to) as (a & -> & Ha & _ & Hac & _);
    [done..|]. cbn [rbind].
  exists d, a. split; [done|]. split; [by rewrite Hd, Ha|]. intros rev.
  rewrite Hdc, Hac. unfold selected.
  by destruct (covers from rev), (covers to rev).
Qed.

Lemma svn_rangelist_diff_spec_witness :
  ∃ deleted added,
    svn_rangelist_diff [MkRange 0 4 false; MkRange 6 9 true] [MkRange 2 8 true] false
    = Ok (deleted, added)
    ∧ rangelist_wf deleted && rangelist_wf added = true
    ∧ ∀ rev,
        covers deleted rev && covers added rev = false
        ∧ covers deleted rev
          = covers [MkRange 0 4 false; MkRange 6 9 true] rev
            && negb (covers [MkRange 2 8 true] rev)
        ∧ covers [MkRange 2 8 true] rev
          = (covers [MkRange 0 4 false; MkRange 6 9 true] rev && negb (covers deleted rev))
            || covers added rev.
Proof. by apply svn_rangelist_diff_spec. Defined.

(** ** Reversal *)

Lemma reverse_loop_length n : ∀ i rl, length (reverse_loop rl i n) = length rl.
Proof.
  induction n as [|n IH]; intros i rl; cbn [reverse_loop]; [done|].
  destruct (rl !! i), (rl !! (length rl - i - 1)%nat); try done.
  by rewrite IH, !length_insert.
Qed.

(** After [n] swaps from [i] on, both ends hold the mirrored ranges. *)
Lemma reverse_loop_lookup n i (rl : svn_rangelist_t) k :
  (2 * (i + n) <= length rl)%nat → (k < length rl)%nat →
  reverse_loop rl i n !! k
  = if ((i <=? k) && (k <? i + n)
        || (length rl - (i + n) <=? k) && (k <? length rl - i))%nat
    then range_swap_endpoints <$> rl !! (length rl - 1 - k)%nat else rl !! k.
Proof.
  revert i rl; induction n as [|n IH]; intros i rl Hn Hk; cbn [reverse_loop].
  { if_false by lia. done. }
  destruct (lookup_lt_is_Some_2 rl i) as [x Hx]; [lia|].
  destruct (lookup_lt_is_Some_2 rl (length rl - i - 1)) as [y Hy]; [lia|].
  rewrite Hx, Hy. rewrite IH by (rewrite !length_insert; lia).
  rewrite !length_insert.
  set (sw := (length rl - i - 1)%nat) in *.
  destruct (decide (k = i)) as [->|Hki].
  { if_false by lia. if_true by lia. rewrite list_lookup_insert_eq by (rewrite length_insert; lia).
    replace (length rl - 1 - i)%nat with sw by (unfold sw; lia). by rewrite Hy. }
  destruct (decide (k = sw)) as [->|Hks].
  { if_false by (unfold sw; lia). if_true by (unfold sw; lia).
    rewrite list_lookup_insert_ne by (unfold sw; lia).
    rewrite list_lookup_insert_eq by (unfold sw; lia).
    replace (length rl - 1 - sw)%nat with i by (unfold sw; lia). by rewrite Hx. }
  replace ((i <=? k) && (k <? i + S n)
           || (length rl - (i + S n) <=? k) && (k <? length rl - i))%nat
    with ((S i <=? k) && (k <? S i + n)
          || (length rl - (S i + n) <=? k) && (k <? length rl - S i))%nat
    by (unfold sw in *; lia).
  case_if.
  - f_equal. rewrite !list_lookup_insert_ne by (unfold sw in *; lia). done.
  - by rewrite !list_lookup_insert_ne.
Qed.

(** Reversing a rangelist swaps the ends of each range and the order of the
    ranges, and is an involution. *)
Theorem svn_rangelist_reverse_spec rangelist :
  svn_rangelist_reverse rangelist = reverse (map range_swap_endpoints rangelist)
  ∧ svn_rangelist_reverse (svn_rangelist_reverse rangelist) = rangelist.
Proof.
  assert (Hrev : ∀ rl, svn_rangelist_reverse rl = reverse (map range_swap_endpoints rl)).
  { intros rl. unfold svn_rangelist_reverse.
    pose proof (Nat.div_mod_eq (length rl) 2) as Hdm.
    pose proof (Nat.mod_upper_bound (length rl) 2).
    apply list_eq_same_length with (length rl); [|by case_if; rewrite ?length_alter, reverse_loop_length|].
    { by rewrite length_reverse, length_map. }
    intros k a b Hk. rewrite reverse_lookup by (by rewrite length_map).
    rewrite length_map, list_lookup_fmap.
    replace (length rl - S k)%nat with (length rl - 1 - k)%nat by lia.
    destruct (Nat.eqb_spec (length rl mod 2) 1) as [Ho|He].
    - destruct (decide (k = length rl / 2)%nat) as [->|Hne].
      + rewrite list_lookup_alter_eq, reverse_loop_lookup by lia. if_false by lia.
        replace (length rl - 1 - length rl / 2)%nat with (length rl / 2)%nat by lia.
        congruence.
      + rewrite list_lookup_alter_ne, reverse_loop_lookup by lia. if_true by lia. congruence.
    - rewrite reverse_loop_lookup by lia. if_true by lia. congruence. }
  split; [done|]. rewrite !Hrev, <- fmap_reverse. rewrite reverse_involutive. change (map range_swap_endpoints (map range_swap_endpoints rangelist) = rangelist). rewrite map_map.
  rewrite <- (map_id rangelist) at 2. apply map_ext. by intros [].
Qed.

(** ** Filters on inheritability *)

Lemma filter_inheritable_wf lo rangelist b :
  wf_from lo rangelist = true →
  wf_from lo (List.filter (λ range, Bool.eqb (inheritable range) b) rangelist) = true.
Proof.
  revert lo; induction rangelist as [|r rl IH]; intros lo; simpl; [done|].
  intros Hwf. case_if; simpl.
  - rewrite IH by lia. lia.
  - apply wf_from_weaken with (end_ r); [apply IH|]; lia.
Qed.

Lemma filter_inheritable_covers rangelist b b' rev :
  covers_as b' (List.filter (λ range, Bool.eqb (inheritable range) b) rangelist) rev
  = Bool.eqb b b' && covers_as b' rangelist rev.
Proof.
  induction rangelist as [|r rl IH]; simpl; [by rewrite andb_false_r|].
  case_if; simpl; rewrite IH.
  - apply eqb_prop in Hif as ->. by destruct b, b'.
  - destruct (inheritable r), b, b'; done.
Qed.

(** Without a valid pair of bounds, svn_rangelist_inheritable2 keeps exactly
    the revisions of the requested inheritability. *)
Theorem svn_rangelist_inheritable2_unbounded `{Qsort} rangelist (start_ end__ : Z) (b : bool) :
  rangelist_wf rangelist = true →
  start_ < 0 ∨ end__ < 0 ∨ end__ < start_ →
  ∃ output,
    svn_rangelist_inheritable2 rangelist start_ end__ b = Ok output
    ∧ rangelist_wf output = true
    ∧ ∀ rev, covers_as b output rev = covers_as b rangelist rev
           ∧ covers_as (negb b) output rev = false.
Proof.
  intros Hwf Hb. unfold svn_rangelist_inheritable2, SVN_IS_VALID_REVNUM.
  destruct rangelist as [|r rl]; [by eexists|].
  if_true by (simpl; lia). if_true by lia. eexists. split; [done|].
  split; [by apply filter_inheritable_wf|]. intros rev.
  rewrite !filter_inheritable_covers. by destruct b.
Qed.

Lemma svn_rangelist_inheritable2_unbounded_witness :
  ∃ output,
    svn_rangelist_inheritable2 [MkRange 0 4 false; MkRange 6 9 true] (-1) (-1) true
    = Ok output
    ∧ rangelist_wf output = true
    ∧ ∀ rev, covers_as true output rev
             = covers_as true [MkRange 0 4 false; MkRange 6 9 true] rev
           ∧ covers_as (negb true) output rev = false.
Proof. apply svn_rangelist_inheritable2_unbounded; [done|lia]. Defined.

(** With bounds start < end, svn_rangelist_inheritable2 removes the
    revisions of the requested inheritability that lie in the bounds and
    keeps all the others, when no revision in the bounds has the other
    inheritability. *)
Theorem svn_rangelist_inheritable2_bounded `{Qsort} rangelist (start_ end__ : Z) (b : bool) :
  rangelist_wf rangelist = true → 0 <= start_ < end__ →
  (∀ rev, start_ < rev <= end__ → covers_as (negb b) rangelist rev = false) →
  ∃ output,
    svn_rangelist_inheritable2 rangelist start_ end__ b = Ok output
    ∧ rangelist_wf output = true
    ∧ ∀ rev, covers output rev
             = covers rangelist rev && negb ((start_ <? rev) && (rev <=? end__)).
Proof.
  intros Hwf Hb Hc. unfold svn_rangelist_inheritable2, SVN_IS_VALID_REVNUM.
  destruct (decide (rangelist = [])) as [->|Hne]; [by eexists|].
  if_true by (destruct rangelist; simpl; [done|lia]). if_false by lia.
  destruct (intersect_or_remove_ok true true
              (svn_rangelist__initialize start_ end__ b) rangelist)
    as (out & Ho & Hw & _ & Hcov & _); [simpl; lia|done| |].
  - intros _ b' rev. simpl. unfold in_range. simpl.
    destruct (Bool.eqb_spec b b') as [<-|]; simpl; [|done]. intros Hr. apply Hc. lia.
  - exists out. split; [done|]. split; [done|]. intros rev. rewrite Hcov.
    simpl. unfold in_range. simpl. by rewrite orb_false_r.
Qed.

Lemma svn_rangelist_inheritable2_bounded_witness :
  ∃ output,
    svn_rangelist_inheritable2 [MkRange 0 4 false; MkRange 6 9 true] 5 8 true = Ok output
    ∧ rangelist_wf output = true
    ∧ ∀ rev, covers output rev
             = covers [MkRange 0 4 false; MkRange 6 9 true] rev
               && negb ((5 <? rev) && (rev <=? 8)).
Proof.
  apply svn_rangelist_inheritable2_bounded; [done|lia|].
  intros rev Hr. simpl. unfold in_range. simpl. lia.
Defined.

(** Bounds that name a single revision make svn_rangelist_inheritable2 abort
    in the assertion of the removal loop. *)
Theorem svn_rangelist_inheritable2_one_revision `{Qsort} rangelist (r : Z) (b : bool) :
  rangelist ≠ [] → 0 <= r → svn_rangelist_inheritable2 rangelist r r b = Aborted.
Proof.
  intros Hne Hr. unfold svn_rangelist_inheritable2, SVN_IS_VALID_REVNUM.
  destruct rangelist as [|x rl]; [done|]. if_true by (simpl; lia). if_false by lia.
  unfold svn_rangelist_remove, rangelist_intersect_or_remove. simpl.
  unfold ior_step, range_contains, IS_VALID_FORWARD_RANGE, guarded. simpl.
  by if_false by lia.
Qed.

Lemma svn_rangelist_inheritable2_one_revision_witness :
  svn_rangelist_inheritable2 [MkRange 0 4 false] 3 3 true = Aborted.
Proof. apply svn_rangelist_inheritable2_one_revision; [done|lia]. Defined.

(** ** [combine_with_lastrange] in all its cases *)

(** The order of the ranges does not matter for what a list covers. *)
#[global] Instance covers_proper : Proper ((≡ₚ) ==> (=) ==> (=)) covers.
Proof.
  intros l1' l2' Hp rev ? <-. induction Hp; simpl; [done|congruence| |congruence].
  destruct (in_range x rev), (in_range y rev); done.
Qed.

#[global] Instance covers_as_proper b : Proper ((≡ₚ) ==> (=) ==> (=)) (covers_as b).
Proof.
  intros l1' l2' Hp rev ? <-. induction Hp; simpl; [done|congruence| |congruence].
  by rewrite !orb_assoc, (orb_comm (_ && in_range y rev)).
Qed.

(** What the pieces that replace [lastrange] cover. *)
Definition unites (pieces : svn_rangelist_t) (lastrange new_range : svn_merge_range_t)
    : Prop :=
  ∀ rev, covers pieces rev = in_range lastrange rev || in_range new_range rev
       ∧ covers_as true pieces rev
         = (inheritable lastrange && in_range lastrange rev)
           || (inheritable new_range && in_range new_range rev).

Ltac unite :=
  let rev := fresh "rev" in intros rev; unfold in_range; simpl; unfold in_range; simpl;
  rev_cases rev; simpl; rewrite ?andb_false_r, ?orb_true_r; first [done | exfalso; lia | split; lia].

Section Unite.
Context (lastrange new_range : svn_merge_range_t).
Hypothesis Hl : start lastrange < end_ lastrange.
Hypothesis Hn : start new_range < end_ new_range.
Hypothesis Hi : inheritable new_range = negb (inheritable lastrange).

Lemma combine_overlapping_ok rangelist :
  start lastrange < end_ new_range → start new_range < end_ lastrange →
  negb ((start lastrange <=? start new_range) && (end_ new_range <=? end_ lastrange)) = true →
  negb ((start new_range <=? start lastrange) && (end_ lastrange <=? end_ new_range)) = true →
  ∃ pieces sorted,
    combine_overlapping rangelist lastrange new_range = (rangelist ++ pieces, sorted)
    ∧ unites pieces lastrange new_range.
Proof.
  intros H1 H2 H3 H4. unfold combine_overlapping.
  destruct lastrange as [s1 t1 i1], new_range as [s2 t2 i2]; simpl in *; subst i2.
  destruct (Z.ltb_spec s2 s1), i1; simpl; (eexists _, _; split; [done|]); unite.
Qed.

Lemma combine_subset_ok rangelist :
  ((start lastrange <=? start new_range) && (end_ new_range <=? end_ lastrange))
  || ((start new_range <=? start lastrange) && (end_ lastrange <=? end_ new_range)) = true →
  ∃ pieces sorted,
    combine_subset rangelist lastrange new_range = (rangelist ++ pieces, sorted)
    ∧ unites pieces lastrange new_range.
Proof.
  intros H1. unfold combine_subset.
  destruct lastrange as [s1 t1 i1], new_range as [s2 t2 i2]; simpl in *; subst i2.
  destruct ((s2 <? s1) || (t1 <? t2)) eqn:Hsup; simpl;
    destruct i1; simpl; repeat case_if; (eexists _, _; split; [done|]).
  all: rewrite ?andb_true_iff, ?andb_false_iff, ?orb_true_iff, ?orb_false_iff in *.
  all: unite.
Qed.
End Unite.

Lemma covers_pieces pre r pieces new_range :
  unites pieces r new_range →
  ∀ rev,
    covers (pre ++ pieces) rev = covers (pre ++ [r]) rev || in_range new_range rev
    ∧ covers_as true (pre ++ pieces) rev
      = covers_as true (pre ++ [r]) rev || (inheritable new_range && in_range new_range rev).
Proof.
  intros Hu rev. destruct (Hu rev) as [Hc Ha].
  rewrite !covers_app, !covers_as_app, Hc, Ha. simpl.
  destruct (inheritable r); simpl; rewrite ?orb_false_r; split; by rewrite ?orb_assoc.
Qed.

Section Combine.
Context `{Qsort}.

(** combine_with_lastrange, considering inheritance, returns for any forward
    range and any last forward range a list with exactly the revisions of
    both; a revision is inheritable in it exactly when it is in one of them. *)
Theorem combine_with_lastrange_union new_range (rangelist : svn_rangelist_t) :
  IS_VALID_FORWARD_RANGE new_range = true →
  from_option IS_VALID_FORWARD_RANGE true (last rangelist) = true →
  ∃ output,
    combine_with_lastrange new_range rangelist true = Ok output
    ∧ ∀ rev,
        covers output rev = covers rangelist rev || in_range new_range rev
        ∧ covers_as true output rev
          = covers_as true rangelist rev
            || (inheritable new_range && in_range new_range rev).
Proof.
  intros Hn Hl. unfold combine_with_lastrange.
  destruct rangelist as [|r pre _] using rev_ind.
  { eexists. split; [done|]. intros rev. simpl. rewrite !orb_false_r.
    by destruct (inheritable new_range). }
  rewrite last_snoc in *. simpl in Hl. rewrite array_pop_snoc. cbn [negb].
  unfold IS_VALID_FORWARD_RANGE, SVN_IS_VALID_REVNUM in *.
  destruct (combine_ranges r new_range true) as [c|] eqn:Hc.
  { eexists. split; [done|]. apply covers_pieces. revert Hc. unfold combine_ranges.
    case_if; [|done]. case_if; [|done]. intros [= <-].
    assert (inheritable r = inheritable new_range) as Hi by (by apply eqb_prop).
    rewrite Hi. intros rev. unfold in_range. simpl. unfold in_range. simpl.
    destruct (inheritable new_range); simpl; lia. }
  assert (Hsnoc : unites [r; new_range] r new_range).
  { intros rev. simpl.
    destruct (inheritable r), (inheritable new_range); simpl; by rewrite ?orb_false_r. }
  unfold get_type_of_intersection, guarded.
  rewrite !(valid_forward 0) by lia. cbn [rbind].
  assert (Hfin : ∀ pieces (sorted : bool), unites pieces r new_range →
    ∃ output,
      Ok (if sorted then pre ++ pieces
          else qsort svn_sort_compare_ranges (pre ++ pieces)) = Ok output
      ∧ ∀ rev, covers output rev = covers (pre ++ [r]) rev || in_range new_range rev
        ∧ covers_as true output rev = covers_as true (pre ++ [r]) rev
            || (inheritable new_range && in_range new_range rev)).
  { intros pieces sorted Hu. eexists. split; [done|]. intros rev.
    destruct sorted; rewrite ?qsort_perm; by apply covers_pieces. }
  assert (Hi : start r <= end_ new_range → start new_range <= end_ r →
               inheritable new_range = negb (inheritable r)).
  { revert Hc. unfold combine_ranges, same_inheritance. case_if; [|lia].
    destruct (inheritable r), (inheritable new_range); done. }
  destruct ((start new_range <=? end_ r) && (start r <=? end_ new_range)) eqn:Hint;
    cbn [negb].
  2: { rewrite <- app_assoc. by apply (Hfin [r; new_range]). }
  specialize (Hi ltac:(lia) ltac:(lia)).
  case_if.
  { apply (Hfin [set_inheritable r true] true). intros rev. rewrite Hi. unfold in_range. simpl. unfold in_range. simpl.
    destruct (inheritable r); simpl; lia. }
  case_if; [rewrite <- app_assoc; by apply (Hfin [r; new_range])|].
  case_if; [destruct (combine_subset_ok r new_range ltac:(lia) ltac:(lia) Hi pre)
              as (p & b & -> & ?); [lia|by apply Hfin]|].
  case_if; [destruct (combine_subset_ok r new_range ltac:(lia) ltac:(lia) Hi pre)
              as (p & b & -> & ?); [lia|by apply Hfin]|].
  destruct (combine_overlapping_ok r new_range ltac:(lia) ltac:(lia) Hi pre)
    as (p & b & -> & ?); [lia..|by apply Hfin].
Qed.
End Combine.

(** Appending r6-12 behind r4-10*: the intersection becomes inheritable, the
    rest of the old range keeps its own inheritability. *)
Lemma combine_with_lastrange_union_witness :
  ∃ output,
    combine_with_lastrange (MkRange 5 12 true) [MkRange 3 10 false] true = Ok output
    ∧ ∀ rev,
        covers output rev = covers [MkRange 3 10 false] rev
                            || in_range (MkRange 5 12 true) rev
        ∧ covers_as true output rev
          = covers_as true [MkRange 3 10 false] rev
            || (inheritable (MkRange 5 12 true) && in_range (MkRange 5 12 true) rev).
Proof. apply combine_with_lastrange_union; reflexivity. Defined.
