(* ===== verification/Paths.v ===== *)
(** * Paths

    The parts of [src/subversion/libsvn_subr/dirent_uri.c] and [path.c] that
    mergeinfo keys go through: canonicalization of relative paths and
    repository paths, its decision procedure, and the order on paths.

    A C string is the list of its bytes before the terminating NUL; [deref]
    reads the byte under a pointer into it. *)
From S2P Require Import Prelude.

Implicit Types (s path : list byte).

(** ** Bytes and C strings *)

Definition SLASH : byte := "/"%byte.

(** The bytes up to the next [c], and the rest from it on. *)
Fixpoint span_until (c : byte) s : list byte * list byte :=
  match s with
  | [] => ([], [])
  | x :: s' => if x =b? c then ([], s)
               else let '(seg, rest) := span_until c s' in (x :: seg, rest)
  end.

(** ** Canonicalization ([dirent_uri.c]) *)

Inductive path_type_t := type_dirent | type_relpath.

(** An empty segment or ["."]. *)
Definition noop_segment (seg : list byte) : bool :=
  match seg with [] => true | [c] => c =b? "."%byte | _ => false end.

(** The loop over the segments of [src]. *)
Fixpoint canonicalize_loop (fuel : nat) (src dst : list byte) (canon_segments : nat)
    : list byte * nat :=
  match fuel, src with
  | S fuel, _ :: _ =>
      let '(seg, next) := span_until SLASH src in
      let src := drop 1 next in
      if noop_segment seg then canonicalize_loop fuel src dst canon_segments
      else canonicalize_loop fuel src
             (dst ++ seg ++ (if deref next =b? SLASH then [SLASH] else []))
             (S canon_segments)
  | _, _ => (dst, canon_segments)
  end.

(** [canonicalize] for relative paths and (POSIX) dirents. *)
Definition canonicalize (type : path_type_t) path : list byte :=
  match path with
  | [] => []
  | _ =>
    let '(src, dst) :=
      match type with
      | type_dirent => if deref path =b? SLASH then (drop 1 path, [SLASH]) else (path, [])
      | type_relpath => (path, [])
      end in
    let '(dst, canon_segments) := canonicalize_loop (length src) src dst 0 in
    if (0 <? canon_segments)%nat && (from_option (λ c, c =b? SLASH) false (last dst))
    then take (length dst - 1) dst else dst
  end.

Definition svn_relpath_canonicalize (relpath : list byte) : list byte :=
  canonicalize type_relpath relpath.

Definition svn_dirent_canonicalize (dirent : list byte) : list byte :=
  canonicalize type_dirent dirent.

Definition svn_fspath__canonicalize (fspath : list byte) : list byte :=
  if bool_decide (fspath = [SLASH]) then [SLASH]
  else SLASH :: svn_relpath_canonicalize fspath.

(** The loop of [relpath_is_canonical]; [before] is the byte before [ptr]. *)
Fixpoint relpath_is_canonical_loop (fuel : nat) (before : byte) (seg ptr : list byte)
    : bool :=
  match fuel with
  | O => false
  | S fuel =>
    if bool_decide (seg = ["."%byte]) then false
    else if (deref ptr =b? SLASH) && (deref (drop 1 ptr) =b? SLASH) then false
    else match ptr with
    | [] => negb (before =b? SLASH)
    | c :: tail =>
        let '(before, ptr) := if c =b? SLASH then (c, tail) else (before, ptr) in
        let '(seg, rest) := span_until SLASH ptr in
        relpath_is_canonical_loop fuel (default before (last seg)) seg rest
    end
  end.

Definition relpath_is_canonical (relpath : list byte) : bool :=
  match relpath with
  | [] => true
  | c :: _ => if c =b? SLASH then false
              else relpath_is_canonical_loop (S (S (length relpath))) NUL [] relpath
  end.

Definition svn_dirent_is_canonical (dirent : list byte) : bool :=
  relpath_is_canonical (if deref dirent =b? SLASH then drop 1 dirent else dirent).

Definition svn_fspath__is_canonical (fspath : list byte) : bool :=
  (deref fspath =b? SLASH) && relpath_is_canonical (drop 1 fspath).

(** ** The order on paths ([path.c])

    The [assert]s that both paths are canonical are preconditions (a release
    build compiles them out); the result is total without them. *)
Fixpoint svn_path_compare_paths (path1 path2 : list byte) : Z :=
  let tail_compare :=
    if bool_decide (path1 = []) && bool_decide (path2 = []) then 0
    else if (deref path1 =b? SLASH) && (deref path2 =b? NUL) then 1
    else if (deref path2 =b? SLASH) && (deref path1 =b? NUL) then -1
    else if deref path1 =b? SLASH then -1
    else if deref path2 =b? SLASH then 1
    else if byte_val (deref path1) <? byte_val (deref path2) then -1 else 1 in
  match path1, path2 with
  | c1 :: rest1, c2 :: rest2 =>
      if c1 =b? c2 then svn_path_compare_paths rest1 rest2 else tail_compare
  | _, _ => tail_compare
  end.

(** ** Paths as lists of segments *)

Fixpoint split_slash s : list (list byte) :=
  match s with
  | [] => [[]]
  | c :: s =>
      if c =b? SLASH then [] :: split_slash s
      else match split_slash s with
           | seg :: segs => (c :: seg) :: segs
           | [] => [[c]]
           end
  end.

Fixpoint join_slash (segs : list (list byte)) : list byte :=
  match segs with
  | [] => []
  | [seg] => seg
  | seg :: segs => seg ++ SLASH :: join_slash segs
  end.

Definition real_segment (seg : list byte) : bool := negb (noop_segment seg).

Lemma span_until_app c s : (span_until c s).1 ++ (span_until c s).2 = s.
Proof.
  induction s as [|x s IH]; simpl; [done|]. case_if; [done|].
  destruct (span_until c s); simpl in *. by rewrite IH.
Qed.

Lemma span_until_notin c s : c ∉ (span_until c s).1.
Proof.
  induction s as [|x s IH]; simpl; [apply not_elem_of_nil|].
  destruct (byte_eqb_spec x c); [apply not_elem_of_nil|].
  destruct (span_until c s); simpl in *. apply not_elem_of_cons. by split.
Qed.

Lemma span_until_next c s :
  (span_until c s).2 = [] ∨ ∃ t, (span_until c s).2 = c :: t.
Proof.
  induction s as [|x s IH]; simpl; [by left|].
  destruct (byte_eqb_spec x c) as [->|]; [right; by eexists|].
  by destruct (span_until c s).
Qed.

Lemma span_until_eq c seg next :
  c ∉ seg → (next = [] ∨ ∃ t, next = c :: t) → span_until c (seg ++ next) = (seg, next).
Proof.
  intros Hs Hn. induction seg as [|x seg IH]; simpl.
  - destruct Hn as [->|[t ->]]; [done|]. simpl. by rewrite byte_eqb_refl.
  - apply not_elem_of_cons in Hs as [Hx Hs]. rewrite (proj2 (byte_eqb_ne x c)) by done.
    by rewrite IH.
Qed.

Lemma split_slash_span s :
  split_slash s
  = (span_until SLASH s).1
    :: match (span_until SLASH s).2 with [] => [] | _ :: t => split_slash t end.
Proof.
  induction s as [|x s IH]; simpl; [done|].
  destruct (x =b? SLASH) eqn:Hx; [done|]. rewrite IH.
  by destruct (span_until SLASH s).
Qed.

Lemma join_slash_char x seg segs :
  join_slash ((x :: seg) :: segs) = x :: join_slash (seg :: segs).
Proof. by destruct segs. Qed.

Lemma join_split_slash s : join_slash (split_slash s) = s.
Proof.
  induction s as [|x s IH]; simpl; [done|].
  destruct (split_slash s) as [|seg segs] eqn:Hs.
  { by rewrite split_slash_span in Hs. }
  destruct (byte_eqb_spec x SLASH) as [->|Hx].
  - by rewrite <- IH.
  - by rewrite join_slash_char, IH.
Qed.

Lemma split_slash_notin s : Forall (λ seg, SLASH ∉ seg) (split_slash s).
Proof.
  induction s as [|x s IH]; simpl; [repeat constructor; apply not_elem_of_nil|].
  destruct (byte_eqb_spec x SLASH); [constructor; [apply not_elem_of_nil|done]|].
  rewrite split_slash_span in *. apply Forall_cons in IH as [? ?].
  constructor; [|done]. apply not_elem_of_cons. by split.
Qed.

Lemma split_join_slash segs :
  segs ≠ [] → Forall (λ seg, SLASH ∉ seg) segs → split_slash (join_slash segs) = segs.
Proof.
  induction segs as [|seg segs IH]; [done|]. intros _ [Hs Hss]%Forall_cons.
  destruct segs as [|seg' segs].
  - simpl. rewrite split_slash_span, <- (app_nil_r seg), span_until_eq by auto.
    simpl. by rewrite app_nil_r.
  - change (join_slash (seg :: seg' :: segs)) with (seg ++ SLASH :: join_slash (seg' :: segs)).
    rewrite split_slash_span, span_until_eq by eauto. cbn [fst snd].
    by rewrite IH.
Qed.

(** *** The canonicalization loop *)

(** What the loop appends for the segments of its input. *)
Fixpoint emitted (segs : list (list byte)) : list byte :=
  match segs with
  | [] => []
  | [seg] => if noop_segment seg then [] else seg
  | seg :: segs => if noop_segment seg then emitted segs else seg ++ SLASH :: emitted segs
  end.

Lemma canonicalize_loop_ok fuel src dst n :
  (length src <= fuel)%nat →
  canonicalize_loop fuel src dst n
  = (dst ++ emitted (split_slash src),
     (n + length (List.filter real_segment (split_slash src)))%nat).
Proof.
  revert src dst n; induction fuel as [|fuel IH]; intros src dst n Hf.
  { destruct src; [|simpl in Hf; lia]. simpl. by rewrite app_nil_r, Nat.add_0_r. }
  destruct src as [|c src']; [simpl; by rewrite app_nil_r, Nat.add_0_r|].
  set (src := c :: src') in *. cbn [canonicalize_loop].
  rewrite split_slash_span. pose proof (span_until_app SLASH src) as Happ.
  pose proof (span_until_next SLASH src) as Hnext.
  assert (length (drop 1 (span_until SLASH src).2) <= fuel)%nat as Hl.
  { rewrite length_drop. apply (f_equal length) in Happ.
    rewrite length_app in Happ. lia. }
  change (match src with _ :: _ => _ | [] => _ end) with
    (let '(seg, next) := span_until SLASH src in
     let src := drop 1 next in
     if noop_segment seg then canonicalize_loop fuel src dst n
     else canonicalize_loop fuel src
            (dst ++ seg ++ (if deref next =b? SLASH then [SLASH] else [])) (S n)).
  destruct (span_until SLASH src) as [seg next]. cbn [fst snd] in *.
  rewrite !IH by done. cbn [List.filter].
  assert (real_segment seg = negb (noop_segment seg)) as -> by done.
  destruct Hnext as [->|[t ->]].
  - change (drop 1 []) with (@nil byte). cbn [split_slash emitted List.filter].
    destruct (noop_segment seg); simpl; rewrite !app_nil_r; f_equal; lia.
  - change (drop 1 (SLASH :: t)) with t.
    assert (emitted (seg :: split_slash t)
      = if noop_segment seg then emitted (split_slash t)
        else seg ++ SLASH :: emitted (split_slash t)) as ->.
    { by rewrite (split_slash_span t). }
    destruct (noop_segment seg); simpl; [done|].
    rewrite <- !app_assoc. f_equal. lia.
Qed.

Lemma emitted_join segs :
  emitted segs
  = join_slash (List.filter real_segment segs)
    ++ (if existsb real_segment segs && from_option noop_segment false (last segs)
        then [SLASH] else []).
Proof.
  induction segs as [|seg segs IH]; [done|].
  destruct segs as [|seg' segs].
  { simpl. unfold real_segment. destruct (noop_segment seg); simpl; by rewrite ?app_nil_r. }
  assert (emitted (seg :: seg' :: segs)
    = if noop_segment seg then emitted (seg' :: segs)
      else seg ++ SLASH :: emitted (seg' :: segs)) as -> by done.
  rewrite IH. clear IH. rewrite last_cons_cons.
  remember (seg' :: segs) as rest eqn:Hrest.
  assert (from_option noop_segment false (last rest) = false → existsb real_segment rest = true)
    as Hlast.
  { intros Hl. apply existsb_exists.
    destruct rest as [|x rest _] using rev_ind; [done|]. rewrite last_snoc in Hl. simpl in Hl.
    exists x. split; [apply in_or_app; right; by left|]. unfold real_segment. by rewrite Hl. }
  cbn [List.filter existsb]. assert (real_segment seg = negb (noop_segment seg)) as -> by done.
  destruct (noop_segment seg); cbn [negb orb andb]; [done|].
  rewrite app_comm_cons, app_assoc. simpl.
  assert (existsb real_segment rest = false → List.filter real_segment rest = []) as Hnone.
  { clear. induction rest as [|x rest IH]; simpl; [done|].
    destruct (real_segment x); simpl; [done|auto]. }
  destruct (existsb real_segment rest) eqn:Hex.
  - destruct (List.filter real_segment rest) as [|y ys] eqn:Hf.
    + apply existsb_exists in Hex as (x & Hx & Hr).
      assert (In x (List.filter real_segment rest)) as Hin by (by apply filter_In).
      by rewrite Hf in Hin.
    + simpl andb. by rewrite <- !app_assoc.
  - rewrite Hnone by done. simpl. destruct (from_option _ _ _); [|by specialize (Hlast eq_refl)].
    simpl. by rewrite app_nil_r.
Qed.

Definition proper_segment (seg : list byte) : Prop := (SLASH ∉ seg) ∧ real_segment seg = true.

Lemma proper_segments s : Forall proper_segment (List.filter real_segment (split_slash s)).
Proof.
  apply Forall_forall. intros seg [Hin Hr]%list_elem_of_In%filter_In. split; [|done].
  apply list_elem_of_In in Hin.
  by apply (proj1 (Forall_forall _ _) (split_slash_notin s)).
Qed.

Definition ends_in_slash s : bool := from_option (λ c, c =b? SLASH) false (last s).

Lemma join_slash_end segs : Forall proper_segment segs → ends_in_slash (join_slash segs) = false.
Proof.
  induction segs as [|seg segs IH]; [done|]. intros [[Hs Hr] Hss]%Forall_cons.
  assert (ends_in_slash seg = false ∧ seg ≠ []) as [He Hne].
  { split; [|by intros ->]. unfold ends_in_slash.
    destruct seg as [|c seg _] using rev_ind; [done|]. rewrite last_snoc. simpl.
    apply byte_eqb_ne. intros ->. apply Hs. apply list_elem_of_In, in_or_app. right. by left. }
  destruct segs as [|seg' segs]; [done|].
  change (join_slash (seg :: seg' :: segs)) with (seg ++ SLASH :: join_slash (seg' :: segs)).
  specialize (IH Hss). unfold ends_in_slash in *. rewrite last_app.
  assert (join_slash (seg' :: segs) ≠ []) as Hj.
  { apply Forall_cons in Hss as [[_ Hr'] _]. destruct seg' as [|c seg']; [done|].
    by rewrite join_slash_char. }
  destruct (join_slash (seg' :: segs)) as [|c l]; [done|].
  rewrite last_cons_cons. destruct (last (c :: l)) eqn:Hlast; [done|].
  by apply last_None in Hlast.
Qed.

(** Relative paths: the real segments, joined. *)
Lemma svn_relpath_canonicalize_segments s :
  svn_relpath_canonicalize s = join_slash (List.filter real_segment (split_slash s)).
Proof.
  unfold svn_relpath_canonicalize, canonicalize.
  destruct s as [|c s]; [done|]. remember (c :: s) as path.
  rewrite canonicalize_loop_ok by lia. simpl app. simpl Nat.add.
  rewrite emitted_join.
  assert (∀ segs, (0 <? length (List.filter real_segment segs))%nat
                  = existsb real_segment segs) as ->.
  { induction segs as [|x segs IH]; [done|]. simpl.
    destruct (real_segment x); [done|]. by rewrite IH. }
  set (j := join_slash _).
  change (from_option (λ c, c =b? SLASH) false (last ?l)) with (ends_in_slash l).
  destruct (existsb real_segment (split_slash path)); cbn [andb].
  - destruct (from_option noop_segment false (last (split_slash path))).
    + unfold ends_in_slash. rewrite last_snoc. simpl from_option. cbn iota.
      rewrite byte_eqb_refl, length_app. simpl.
      replace (length j + 1 - 1)%nat with (length j) by lia. apply take_app_length.
    + rewrite app_nil_r. unfold j. by rewrite (join_slash_end _ (proper_segments path)).
  - by rewrite app_nil_r.
Qed.

(** *** The decision procedure *)

Lemma relpath_is_canonical_loop_ok fuel before seg ptr :
  (length ptr < fuel)%nat →
  (ptr = [] ∨ ∃ t, ptr = SLASH :: t) → SLASH ∉ seg →
  (seg = [] → ptr = [] ∧ before = SLASH) → (seg ≠ [] → before ≠ SLASH) →
  relpath_is_canonical_loop fuel before seg ptr
  = real_segment seg
    && forallb real_segment (match ptr with [] => [] | _ :: t => split_slash t end).
Proof.
  revert before seg ptr; induction fuel as [|fuel IH]; intros before seg ptr Hf Hptr Hseg He Hne;
    [lia|]. cbn [relpath_is_canonical_loop].
  case_bool_decide as Hdot; [by subst|].
  assert (real_segment seg = negb (bool_decide (seg = []))) as ->.
  { unfold real_segment, noop_segment. destruct seg as [|c [|? ?]]; [done| |done].
    rewrite (bool_decide_eq_false_2 ([c] = [])) by done.
    f_equal. apply byte_eqb_ne. by intros ->. }
  destruct Hptr as [->|[t ->]].
  { simpl. rewrite andb_true_r. f_equal. case_bool_decide as Hs.
    - destruct (He Hs) as [_ ->]. apply byte_eqb_refl.
    - apply byte_eqb_ne. auto. }
  assert (bool_decide (seg = []) = false) as ->.
  { apply bool_decide_eq_false. intros Hs. by destruct (He Hs). }
  change (drop 1 (SLASH :: t)) with t. cbn [deref negb andb]. rewrite byte_eqb_refl. cbn [andb].
  rewrite split_slash_span.
  pose proof (span_until_app SLASH t) as Happ.
  pose proof (span_until_notin SLASH t) as Hnotin.
  pose proof (span_until_next SLASH t) as Hnext.
  destruct (span_until SLASH t) as [seg' rest]. cbn [fst snd] in *.
  cbn [forallb]. destruct (byte_eqb_spec (deref t) SLASH) as [Hd|Hd].
  { destruct seg' as [|c' seg'].
    - done.
    - exfalso. rewrite <- Happ in Hd. simpl in Hd. subst. apply Hnotin. by left. }
  rewrite IH; [done|..].
  - apply (f_equal length) in Happ. rewrite length_app in Happ. simpl in Hf. lia.
  - done.
  - done.
  - intros ->. simpl in *. destruct Hnext as [->|[t' ->]]; [done|]. by subst.
  - intros Hs. destruct seg' as [|c' seg' _] using rev_ind; [done|].
    rewrite last_snoc. simpl. intros ->. apply Hnotin.
    apply list_elem_of_In, in_or_app. right. by left.
Qed.

(** A relative path is canonical when it is empty or all of its segments are real. *)
Lemma relpath_is_canonical_segments s :
  relpath_is_canonical s = bool_decide (s = []) || forallb real_segment (split_slash s).
Proof.
  destruct s as [|c s]; [done|]. rewrite (bool_decide_eq_false_2 (c :: s = [])) by done.
  cbn [relpath_is_canonical orb]. destruct (byte_eqb_spec c SLASH) as [->|Hc]; [done|].
  remember (c :: s) as path eqn:Hp.
  remember (S (length path)) as fuel eqn:Hfuel. cbn [relpath_is_canonical_loop].
  assert (deref path =b? SLASH = false) as Hd by (subst; by apply byte_eqb_ne).
  rewrite Hd. cbn [andb].
  pose proof (span_until_app SLASH path) as Happ.
  pose proof (span_until_notin SLASH path) as Hnotin.
  pose proof (span_until_next SLASH path) as Hnext.
  rewrite split_slash_span.
  rewrite Hp at 1. rewrite (proj2 (byte_eqb_ne c SLASH)) by done.
  destruct (span_until SLASH path) as [seg rest]. cbn [fst snd] in *.
  assert (Hs : seg ≠ []).
  { intros ->. simpl in Happ. subst rest. destruct Hnext as [->|[t ->]]; [done|].
    by injection Hp as <-. }
  change (real_segment seg && _) with
    (forallb real_segment (seg :: match rest with [] => [] | _ :: t => split_slash t end)).
  rewrite relpath_is_canonical_loop_ok; [done| |done|done|done|].
  - apply (f_equal length) in Happ. rewrite length_app in Happ. lia.
  - intros _. destruct seg as [|c' seg' _] using rev_ind; [done|].
    rewrite last_snoc. simpl. intros ->. apply Hnotin.
    apply list_elem_of_In, in_or_app. right. by left.
Qed.

Lemma relpath_canonical_fixed s :
  relpath_is_canonical s = true → svn_relpath_canonicalize s = s.
Proof.
  rewrite svn_relpath_canonicalize_segments, relpath_is_canonical_segments.
  case_bool_decide as Hs; [by subst|]. simpl. intros Hall.
  rewrite <- (join_split_slash s) at 2. f_equal.
  revert Hall. generalize (split_slash s). intros segs.
  induction segs as [|x segs IH]; simpl; [done|]. intros [-> ?]%andb_true_iff.
  by rewrite IH.
Qed.

(** C40: svn_relpath_canonicalize always produces a string that
    relpath_is_canonical accepts, and leaves exactly the canonical strings
    unchanged. *)
Theorem svn_relpath_canonicalize_canonical s :
  relpath_is_canonical (svn_relpath_canonicalize s) = true
  ∧ (relpath_is_canonical s = true ↔ svn_relpath_canonicalize s = s).
Proof.
  assert (Hout : relpath_is_canonical (svn_relpath_canonicalize s) = true).
  { rewrite svn_relpath_canonicalize_segments, relpath_is_canonical_segments.
    destruct (List.filter real_segment (split_slash s)) as [|seg segs] eqn:Hf; [done|].
    apply orb_true_iff. right. rewrite split_join_slash; [|done|].
    - rewrite <- Hf. apply forallb_forall. by intros x [_ ?]%filter_In.
    - rewrite <- Hf. eapply Forall_impl; [apply proper_segments|]. by intros ? []. }
  split; [done|]. split; [apply relpath_canonical_fixed|by intros <-].
Qed.

(** ** The order on paths is lexicographic

    The separator ranks below every other byte and above the end of a path. *)

Definition path_rank (c : byte) : Z := if c =b? SLASH then 0 else 1 + byte_val c.

Fixpoint lex_compare (l1 l2 : list Z) : Z :=
  match l1, l2 with
  | [], [] => 0
  | [], _ => -1
  | _, [] => 1
  | x :: l1, y :: l2 =>
      if x =? y then lex_compare l1 l2 else if x <? y then -1 else 1
  end.

(** A C string. *)
Definition c_string s : bool := forallb (λ c, negb (c =b? NUL)) s.

Lemma path_rank_inj a b : path_rank a = path_rank b → a = b.
Proof.
  unfold path_rank. pose proof (byte_val_range a). pose proof (byte_val_range b).
  destruct (byte_eqb_spec a SLASH), (byte_eqb_spec b SLASH); intros; subst; try done; try lia.
  apply byte_val_inj. lia.
Qed.

Lemma lex_compare_eq l1' l2' : lex_compare l1' l2' = 0 ↔ l1' = l2'.
Proof.
  revert l2'; induction l1' as [|x l1' IH]; intros [|y l2']; simpl; try done.
  destruct (Z.eqb_spec x y) as [->|Hxy].
  - rewrite IH. split; [by intros ->|by intros [=]].
  - split; [by destruct (x <? y)|by intros [=]].
Qed.

Lemma lex_compare_opp l1' l2' : lex_compare l2' l1' = - lex_compare l1' l2'.
Proof.
  revert l2'; induction l1' as [|x l1' IH]; intros [|y l2']; simpl; try done.
  rewrite (Z.eqb_sym y x). destruct (Z.eqb_spec x y); [apply IH|].
  destruct (Z.ltb_spec x y), (Z.ltb_spec y x); lia.
Qed.

Lemma lex_compare_trans l1' l2' l3' :
  lex_compare l1' l2' <= 0 → lex_compare l2' l3' <= 0 → lex_compare l1' l3' <= 0.
Proof.
  revert l2' l3'; induction l1' as [|x l1' IH]; intros [|y l2'] [|z l3']; simpl; try lia.
  destruct (Z.eqb_spec x y), (Z.eqb_spec y z), (Z.eqb_spec x z); subst; try lia; eauto.
  all: repeat case_if; try lia; eauto.
Qed.

Lemma svn_path_compare_paths_lex p1' p2' :
  c_string p1' = true → c_string p2' = true →
  svn_path_compare_paths p1' p2' = lex_compare (map path_rank p1') (map path_rank p2').
Proof.
  revert p2'; induction p1' as [|a p1' IH]; intros [|b p2'];
    cbn [svn_path_compare_paths map lex_compare c_string forallb deref]; try done.
  - intros _ [Hb _]%andb_true_iff. apply negb_true_iff, byte_eqb_ne in Hb.
    rewrite (bool_decide_eq_false_2 (b :: p2' = [])) by done. cbn [andb].
    change (NUL =b? SLASH) with false. cbn [andb].
    destruct (b =b? SLASH); [done|]. cbn [andb].
    rewrite (proj2 (Z.ltb_lt _ _)); [done|].
    assert (byte_val b ≠ byte_val NUL) by (by intros ?%byte_val_inj).
    pose proof (byte_val_range b). change (byte_val NUL) with 0 in *. lia.
  - intros [Ha _]%andb_true_iff _. apply negb_true_iff, byte_eqb_ne in Ha.
    rewrite (bool_decide_eq_false_2 (a :: p1' = [])) by done. cbn [andb].
    change (NUL =b? SLASH) with false. cbn [andb].
    destruct (a =b? SLASH); [done|]. cbn [andb].
    rewrite (proj2 (Z.ltb_ge _ _)); [done|].
    pose proof (byte_val_range a). change (byte_val NUL) with 0. lia.
  - intros [Ha Hp1]%andb_true_iff [Hb Hp2]%andb_true_iff.
    destruct (byte_eqb_spec a b) as [->|Hab]; [rewrite Z.eqb_refl; by apply IH|].
    rewrite (proj2 (Z.eqb_neq _ _)) by (by intros ?%path_rank_inj).
    rewrite !(bool_decide_eq_false_2 (_ :: _ = [])) by done. cbn [andb].
    apply negb_true_iff in Ha as ->. apply negb_true_iff in Hb as ->.
    rewrite !andb_false_r. unfold path_rank.
    pose proof (byte_val_range a). pose proof (byte_val_range b).
    destruct (byte_eqb_spec a SLASH), (byte_eqb_spec b SLASH); subst; try done.
    + by rewrite (proj2 (Z.ltb_lt _ _)) by lia.
    + by rewrite (proj2 (Z.ltb_ge _ _)) by lia.
    + by replace (1 + byte_val a <? 1 + byte_val b) with (byte_val a <? byte_val b) by lia.
Qed.

Lemma svn_path_order (p1' p2' p3' : list byte) :
  c_string p1' = true → c_string p2' = true → c_string p3' = true →
  (svn_path_compare_paths p1' p2' = 0 ↔ p1' = p2')
  ∧ svn_path_compare_paths p2' p1' = - svn_path_compare_paths p1' p2'
  ∧ (svn_path_compare_paths p1' p2' <= 0 → svn_path_compare_paths p2' p3' <= 0 →
     svn_path_compare_paths p1' p3' <= 0).
Proof.
  intros H1 H2 H3. rewrite !svn_path_compare_paths_lex by done.
  split; [|split; [apply lex_compare_opp|apply lex_compare_trans]].
  rewrite lex_compare_eq. split; [|by intros ->].
  apply list_fmap_eq_inj. intros a b. apply path_rank_inj.
Qed.

(** svn_path_compare_paths is a total order on C strings: it returns 0 only
    for equal paths, is antisymmetric and transitive. *)
Theorem svn_path_compare_paths_order (p1' p2' p3' : list byte) :
  c_string p1' = true → c_string p2' = true → c_string p3' = true →
  (svn_path_compare_paths p1' p2' = 0 ↔ p1' = p2')
  ∧ svn_path_compare_paths p2' p1' = - svn_path_compare_paths p1' p2'
  ∧ (svn_path_compare_paths p1' p2' <= 0 → svn_path_compare_paths p2' p3' <= 0 →
     svn_path_compare_paths p1' p3' <= 0).
Proof. apply svn_path_order. Qed.

Lemma path_subtree (p path child : list byte) :
  c_string p = true → c_string path = true → c_string child = true →
  svn_path_compare_paths p path <= 0 →
  svn_path_compare_paths path (p ++ SLASH :: child) <= 0 →
  path = p ∨ ∃ rest, path = p ++ SLASH :: rest.
Proof.
  intros Hp Hx Hc. rewrite !svn_path_compare_paths_lex; try done.
  2: { unfold c_string in *. rewrite forallb_app, Hp. simpl. done. }
  rewrite map_app. revert path Hx. clear Hp. induction p as [|a p IH]; intros [|b path] Hx; simpl.
  - by left.
  - intros _ Hle. right. exists path. simpl. f_equal. revert Hle.
    destruct (byte_eqb_spec b SLASH) as [->|Hb]; [done|].
    assert (0 < path_rank b) as Hr.
    { unfold path_rank. rewrite (proj2 (byte_eqb_ne _ _)) by done.
      pose proof (byte_val_range b). lia. }
    change (path_rank SLASH) with 0. rewrite (proj2 (Z.eqb_neq _ _)) by lia.
    rewrite (proj2 (Z.ltb_ge _ _)) by lia. lia.
  - lia.
  - apply andb_true_iff in Hx as [_ Hx].
    destruct (Z.eqb_spec (path_rank a) (path_rank b)) as [Hab|Hab].
    + apply path_rank_inj in Hab as ->. rewrite Z.eqb_refl. intros H1 H2.
      destruct (IH path Hx H1 H2) as [->|[rest ->]]; [by left|right; by exists rest].
    + rewrite (proj2 (Z.eqb_neq (path_rank b) _)) by lia.
      repeat case_if; intros; exfalso; lia.
Qed.

(** In the order of svn_path_compare_paths a directory's subtree is
    contiguous: every path between a directory and one of its descendants is
    the directory or inside it. *)
Theorem svn_path_compare_paths_subtree (p path child : list byte) :
  c_string p = true → c_string path = true → c_string child = true →
  svn_path_compare_paths p path <= 0 →
  svn_path_compare_paths path (p ++ SLASH :: child) <= 0 →
  path = p ∨ ∃ rest, path = p ++ SLASH :: rest.
Proof. apply path_subtree. Qed.

(** "/a" <= "/a/c" <= "/a/b/c"?  Only descendants of "/a" lie between. *)
Lemma svn_path_compare_paths_subtree_witness :
  let path := String.list_byte_of_string in
  path "/a/c" = path "/a" ∨ ∃ rest, path "/a/c" = path "/a" ++ SLASH :: rest.
Proof.
  apply (svn_path_compare_paths_subtree (String.list_byte_of_string "/a")
           (String.list_byte_of_string "/a/c") (String.list_byte_of_string "d/e"));
    vm_compute; done.
Defined.

Lemma svn_path_compare_paths_order_witness :
  let path := String.list_byte_of_string in
  (svn_path_compare_paths (path "/a/z") (path "/a-b") = 0 ↔ path "/a/z" = path "/a-b")
  ∧ svn_path_compare_paths (path "/a-b") (path "/a/z")
    = - svn_path_compare_paths (path "/a/z") (path "/a-b")
  ∧ (svn_path_compare_paths (path "/a/z") (path "/a-b") <= 0 →
     svn_path_compare_paths (path "/a-b") (path "/b") <= 0 →
     svn_path_compare_paths (path "/a/z") (path "/b") <= 0).
Proof. by apply svn_path_compare_paths_order. Defined.
