(* ===== verification/Relpaths.v ===== *)
(** * Taking paths apart and putting them together

    The functions of [src/subversion/libsvn_subr/dirent_uri.c] that join, split
    and compare canonical paths: relative paths, repository paths
    ([svn_fspath__*]) and the local paths of POSIX systems (dirents).  A
    canonical path is a list of proper segments, with a leading slash when it is
    rooted; the theorems say what each function does to that list.

    The [assert]s that the arguments are canonical are preconditions. *)
From S2P Require Import Prelude Paths.

Implicit Types (path : list byte) (a b : list (list byte)).

(** [path[i]]. *)
Definition path_at path (i : nat) : byte := deref (drop i path).

(** ** Helpers *)

(** [while (len > 0 && relpath[len] != '/') --len;] *)
Fixpoint previous_slash path (len : nat) : nat :=
  match len with
  | O => O
  | S len' => if path_at path len =b? SLASH then len else previous_slash path len'
  end.

Definition relpath_previous_segment (relpath : list byte) (len : nat) : nat :=
  match len with O => O | S len => previous_slash relpath len end.

Definition dirent_root_length (dirent : list byte) (len : nat) : nat :=
  if (1 <=? len)%nat && (path_at dirent 0 =b? SLASH) then 1%nat else 0%nat.

Definition dirent_previous_segment (dirent : list byte) (len : nat) : nat :=
  match len with
  | O => O
  | S len =>
      let len := previous_slash dirent len in
      if bool_decide (dirent_root_length dirent (S len) = S len) then S len else len
  end.

Definition dirent_is_rooted (dirent : list byte) : bool := deref dirent =b? SLASH.

(** [while (start > 0 && relpath[start - 1] != '/') --start;] *)
Fixpoint segment_start path (start : nat) : nat :=
  match start with
  | O => O
  | S start' => if path_at path start' =b? SLASH then start else segment_start path start'
  end.

(** The loop of [get_longest_ancestor_length] over the tails of both paths at
    [i], up to the end of either; returns [i] and [last_dirsep]. *)
Fixpoint ancestor_loop (path1 path2 : list byte) (i last_dirsep : nat) : nat * nat :=
  match path1, path2 with
  | c1 :: path1, c2 :: path2 =>
      if c1 =b? c2 then
        ancestor_loop path1 path2 (S i) (if c1 =b? SLASH then i else last_dirsep)
      else (i, last_dirsep)
  | _, _ => (i, last_dirsep)
  end.

Definition get_longest_ancestor_length (types : path_type_t) (path1 path2 : list byte) : nat :=
  match path1, path2 with
  | [], _ | _, [] => O
  | _, _ =>
    let '(i, last_dirsep) := ancestor_loop path1 path2 0 0 in
    let slash1 := path_at path1 0 =b? SLASH in
    let slash2 := path_at path2 0 =b? SLASH in
    if (i =? 1)%nat && slash1 && slash2 then 1%nat
    else if match types with type_dirent => (i =? 0)%nat | type_relpath => false end then O
    else if ((i =? length path1)%nat && (path_at path2 i =b? SLASH))
         || ((i =? length path2)%nat && (path_at path1 i =b? SLASH))
         || ((i =? length path1)%nat && (i =? length path2)%nat) then i
    else if (last_dirsep =? 0)%nat && slash1 && slash2 then 1%nat
    else last_dirsep
  end.

(** The loop of [is_child] to the end of one of the paths: their tails there, and
    the byte before them, or [None] at a byte that differs. *)
Fixpoint child_loop (before : byte) (path1 path2 : list byte)
    : option (byte * list byte * list byte) :=
  match path1, path2 with
  | c1 :: path1, c2 :: path2 => if c1 =b? c2 then child_loop c1 path1 path2 else None
  | _, _ => Some (before, path1, path2)
  end.

Definition is_child (types : path_type_t) (path1 path2 : list byte) : option (list byte) :=
  match path1 with
  | [] =>
      match path2 with
      | [] => None
      | _ => if match types with type_dirent => dirent_is_rooted path2 | type_relpath => false end
             then None else Some path2
      end
  | _ =>
      match child_loop NUL path1 path2 with
      | Some (before, [], c :: rest) =>
          if before =b? SLASH then if c =b? SLASH then None else Some (c :: rest)
          else if c =b? SLASH then match rest with [] => None | _ => Some rest end
          else None
      | _ => None
      end
  end.

(** ** Relative paths *)

Definition svn_relpath_join (base component : list byte) : list byte :=
  match base, component with
  | [], _ => component
  | _, [] => base
  | _, _ => base ++ SLASH :: component
  end.

Definition svn_relpath_dirname (relpath : list byte) : list byte :=
  take (relpath_previous_segment relpath (length relpath)) relpath.

Definition svn_relpath_basename (relpath : list byte) : list byte :=
  drop (segment_start relpath (length relpath)) relpath.

Definition svn_relpath_split (relpath : list byte) : list byte * list byte :=
  (svn_relpath_dirname relpath, svn_relpath_basename relpath).

Definition svn_relpath_get_longest_ancestor (relpath1 relpath2 : list byte) : list byte :=
  take (get_longest_ancestor_length type_relpath relpath1 relpath2) relpath1.

Definition svn_relpath_skip_ancestor (parent_relpath child_relpath : list byte)
    : option (list byte) :=
  match parent_relpath with
  | [] => Some child_relpath
  | _ =>
    let len := length parent_relpath in
    if negb (bool_decide (take len child_relpath = parent_relpath)) then None
    else match drop len child_relpath with
    | [] => Some []
    | c :: rest => if c =b? SLASH then Some rest else None
    end
  end.

(** ** Repository paths *)

Definition svn_fspath__is_root (fspath : list byte) (len : nat) : bool :=
  (len =? 1)%nat && (path_at fspath 0 =b? SLASH).

Definition svn_fspath__skip_ancestor (parent_fspath child_fspath : list byte)
    : option (list byte) :=
  svn_relpath_skip_ancestor (drop 1 parent_fspath) (drop 1 child_fspath).

Definition svn_fspath__dirname (fspath : list byte) : list byte :=
  if (path_at fspath 0 =b? SLASH) && bool_decide (drop 1 fspath = []) then fspath
  else SLASH :: svn_relpath_dirname (drop 1 fspath).

Definition svn_fspath__basename (fspath : list byte) : list byte :=
  svn_relpath_basename (drop 1 fspath).

Definition svn_fspath__split (fspath : list byte) : list byte * list byte :=
  (svn_fspath__dirname fspath, svn_fspath__basename fspath).

Definition svn_fspath__join (fspath relpath : list byte) : list byte :=
  match relpath with
  | [] => fspath
  | _ => if bool_decide (drop 1 fspath = []) then SLASH :: relpath
         else fspath ++ SLASH :: relpath
  end.

Definition svn_fspath__get_longest_ancestor (fspath1 fspath2 : list byte) : list byte :=
  SLASH :: svn_relpath_get_longest_ancestor (drop 1 fspath1) (drop 1 fspath2).

(** ** Local paths *)

Definition svn_dirent_is_root (dirent : list byte) (len : nat) : bool :=
  (len =? 1)%nat && (path_at dirent 0 =b? SLASH).

Definition svn_dirent_is_absolute (dirent : list byte) : bool := deref dirent =b? SLASH.

Definition svn_dirent_join (base component : list byte) : list byte :=
  if svn_dirent_is_absolute component then component
  else match base, component with
  | [], _ => component
  | _, [] => base
  | _, _ =>
      if path_at base (length base - 1) =b? SLASH then base ++ component
      else base ++ SLASH :: component
  end.

Definition svn_dirent_dirname (dirent : list byte) : list byte :=
  let len := length dirent in
  if bool_decide (len = dirent_root_length dirent len) then take len dirent
  else take (dirent_previous_segment dirent len) dirent.

Definition svn_dirent_basename (dirent : list byte) : list byte :=
  if svn_dirent_is_root dirent (length dirent) then []
  else drop (segment_start dirent (length dirent)) dirent.

Definition svn_dirent_split (dirent : list byte) : list byte * list byte :=
  (svn_dirent_dirname dirent, svn_dirent_basename dirent).

Definition svn_dirent_get_longest_ancestor (dirent1 dirent2 : list byte) : list byte :=
  take (get_longest_ancestor_length type_dirent dirent1 dirent2) dirent1.

Definition svn_dirent_is_child (parent_dirent child_dirent : list byte) : option (list byte) :=
  is_child type_dirent parent_dirent child_dirent.

Definition svn_dirent_skip_ancestor (parent_dirent child_dirent : list byte)
    : option (list byte) :=
  let len := length parent_dirent in
  if negb (bool_decide (take len child_dirent = parent_dirent)) then None
  else match drop len child_dirent with
  | [] => Some []
  | c :: rest =>
      let root_len := dirent_root_length child_dirent (length child_dirent) in
      if (len <? root_len)%nat then None
      else if c =b? SLASH then Some rest
      else if (root_len =? len)%nat then Some (c :: rest)
      else None
  end.

Definition svn_dirent_is_ancestor (parent_dirent child_dirent : list byte) : bool :=
  bool_decide (svn_dirent_skip_ancestor parent_dirent child_dirent ≠ None).

(** ** Canonical paths as lists of segments *)

Definition proper a : Prop := Forall proper_segment a.

(** The path with these segments, rooted or relative. *)
Definition path_of (rooted : bool) a : list byte := (if rooted then [SLASH] else []) ++ join_slash a.

Definition segments path : list (list byte) :=
  match path with [] => [] | _ => split_slash path end.

(** The longest common prefix. *)
Fixpoint common_segments a b : list (list byte) :=
  match a, b with
  | x :: a, y :: b => if bool_decide (x = y) then x :: common_segments a b else []
  | _, _ => []
  end.

Lemma proper_segment_ne seg : proper_segment seg → seg ≠ [].
Proof. by intros [_ Hr] ->. Qed.

Lemma join_slash_cons seg a :
  join_slash (seg :: a) = seg ++ match a with [] => [] | _ => SLASH :: join_slash a end.
Proof. destruct a; [by rewrite app_nil_r|done]. Qed.

Lemma join_slash_nil a : proper a → join_slash a = [] ↔ a = [].
Proof.
  intros Ha. split; [|by intros ->]. destruct a as [|seg a]; [done|].
  apply Forall_cons in Ha as [Hs%proper_segment_ne _]. rewrite join_slash_cons.
  by intros [? ?]%app_eq_nil.
Qed.

Lemma join_slash_app a b :
  a ≠ [] → b ≠ [] → join_slash (a ++ b) = join_slash a ++ SLASH :: join_slash b.
Proof.
  intros Ha Hb. induction a as [|x a IH]; [done|]. cbn [app]. rewrite !join_slash_cons.
  destruct a as [|y a]; [by destruct b; rewrite ?app_nil_r|].
  rewrite IH by done. rewrite <- app_assoc. done.
Qed.

Lemma join_slash_snoc a seg :
  join_slash (a ++ [seg]) = match a with [] => seg | _ => join_slash a ++ SLASH :: seg end.
Proof. destruct a as [|x a]; [done|]. by rewrite join_slash_app. Qed.

Lemma segments_join a : proper a → segments (join_slash a) = a.
Proof.
  intros Ha. destruct (decide (a = [])) as [->|Hne]; [done|]. unfold segments.
  destruct (join_slash a) as [|c s] eqn:Hj; [by apply join_slash_nil in Hj|].
  rewrite <- Hj. apply split_join_slash; [done|]. eapply Forall_impl; [done|]. by intros ? [].
Qed.

Lemma join_segments path : join_slash (segments path) = path.
Proof. destruct path; [done|]. apply join_split_slash. Qed.

Lemma canonical_proper path : relpath_is_canonical path = true ↔ proper (segments path).
Proof.
  rewrite relpath_is_canonical_segments. destruct path as [|c path]; [split; [constructor|done]|].
  rewrite bool_decide_eq_false_2 by done. simpl orb. unfold segments, proper.
  rewrite forallb_forall, Forall_forall. pose proof (split_slash_notin (c :: path)) as Hn.
  rewrite Forall_forall in Hn. split.
  - intros H x Hx. split; [by apply Hn|]. apply H. by apply list_elem_of_In.
  - intros H x Hx. by apply H, list_elem_of_In.
Qed.

Lemma canonical_join a : proper a → relpath_is_canonical (join_slash a) = true.
Proof. intros Ha. apply canonical_proper. by rewrite segments_join. Qed.

Lemma join_slash_inj a b : proper a → proper b → join_slash a = join_slash b → a = b.
Proof. intros Ha Hb He. by rewrite <- (segments_join a), <- (segments_join b), He. Qed.

Lemma join_slash_head a : proper a → path_at (join_slash a) 0 ≠ SLASH.
Proof.
  intros Ha. unfold path_at. rewrite drop_0. destruct a as [|seg a]; [done|].
  apply Forall_cons in Ha as [[Hs Hr] _]. rewrite join_slash_cons.
  destruct seg as [|c seg]; [done|]. simpl. intros ->. apply Hs. by left.
Qed.

Lemma common_segments_prefix a b :
  ∃ a' b', a = common_segments a b ++ a' ∧ b = common_segments a b ++ b'
    ∧ (a' = [] ∨ b' = [] ∨ head a' ≠ head b').
Proof.
  revert b; induction a as [|x a IH]; intros [|y b]; simpl.
  - exists [], []. auto.
  - exists [], (y :: b). auto.
  - exists (x :: a), []. auto.
  - case_bool_decide as Hxy; [subst y|].
    + destruct (IH b) as (a' & b' & Ha & Hb & H). exists a', b'. simpl. by rewrite <- Ha, <- Hb.
    + exists (x :: a), (y :: b). repeat split; []. right. right. simpl. by intros [= ?].
Qed.

(** *** Walking back to a slash *)

Lemma path_at_app_r s t i : path_at (s ++ t) (length s + i) = path_at t i.
Proof. unfold path_at. by rewrite drop_app_add. Qed.

Lemma path_at_elem s i : (i < length s)%nat → path_at s i ∈ s.
Proof.
  intros Hi. unfold path_at. rewrite <- (take_drop i s) at 2.
  destruct (drop i s) as [|c t] eqn:Hd.
  { apply (f_equal length) in Hd. rewrite length_drop in Hd. simpl in Hd. lia. }
  simpl. apply elem_of_app. right. by left.
Qed.

Lemma path_at_not_slash s i : SLASH ∉ s → (i < length s)%nat → path_at s i =b? SLASH = false.
Proof. intros Hs Hi. apply byte_eqb_ne. intros He. apply Hs. rewrite <- He. by apply path_at_elem. Qed.

Lemma previous_slash_app s seg k :
  SLASH ∉ seg → (k <= length seg)%nat → previous_slash (s ++ SLASH :: seg) (length s + k) = length s.
Proof.
  intros Hs. induction k as [|k IH]; intros Hk.
  - rewrite Nat.add_0_r. destruct (length s) as [|n] eqn:Hl; [done|]. cbn [previous_slash].
    rewrite <- Hl. rewrite <- (Nat.add_0_r (length s)) at 1. by rewrite path_at_app_r.
  - rewrite Nat.add_succ_r. cbn [previous_slash]. rewrite <- Nat.add_succ_r, path_at_app_r.
    change (path_at (SLASH :: seg) (S k)) with (path_at seg k).
    rewrite path_at_not_slash by (done || lia). apply IH. lia.
Qed.

Lemma previous_slash_none seg k :
  SLASH ∉ seg → (k < length seg)%nat → previous_slash seg k = 0%nat.
Proof.
  intros Hs. induction k as [|k IH]; intros Hk; [done|]. cbn [previous_slash].
  rewrite path_at_not_slash by done. apply IH. lia.
Qed.

Lemma segment_start_app s seg k :
  SLASH ∉ seg → (k <= length seg)%nat →
  segment_start (s ++ SLASH :: seg) (S (length s + k)) = S (length s).
Proof.
  intros Hs. induction k as [|k IH]; intros Hk.
  - cbn [segment_start]. by rewrite path_at_app_r, Nat.add_0_r.
  - rewrite Nat.add_succ_r. cbn [segment_start] in *.
    rewrite <- Nat.add_succ_r, path_at_app_r.
    change (path_at (SLASH :: seg) (S k)) with (path_at seg k).
    rewrite path_at_not_slash by (done || lia). rewrite Nat.add_succ_r. apply IH. lia.
Qed.

Lemma segment_start_none seg k :
  SLASH ∉ seg → (k <= length seg)%nat → segment_start seg k = 0%nat.
Proof.
  intros Hs. induction k as [|k IH]; intros Hk; [done|]. cbn [segment_start].
  rewrite path_at_not_slash by (done || lia). apply IH. lia.
Qed.

Lemma svn_relpath_dirname_join a seg :
  proper_segment seg → svn_relpath_dirname (join_slash (a ++ [seg])) = join_slash a.
Proof.
  intros Hp. pose proof (proper_segment_ne _ Hp) as Hne. destruct Hp as [Hs _].
  unfold svn_relpath_dirname, relpath_previous_segment. rewrite join_slash_snoc.
  destruct a as [|x a].
  - destruct (length seg) as [|n] eqn:Hl; [by apply nil_length_inv in Hl|].
    by rewrite previous_slash_none by (done || lia).
  - rewrite length_app. simpl length. rewrite Nat.add_succ_r, previous_slash_app by done.
    by rewrite take_app_length.
Qed.

Lemma svn_relpath_basename_join a seg :
  proper_segment seg → svn_relpath_basename (join_slash (a ++ [seg])) = seg.
Proof.
  intros [Hs _]. unfold svn_relpath_basename. rewrite join_slash_snoc. destruct a as [|x a].
  - by rewrite segment_start_none.
  - rewrite length_app. simpl length. rewrite Nat.add_succ_r, segment_start_app by done.
    rewrite <- Nat.add_1_r, drop_app_add. done.
Qed.

Lemma svn_relpath_join_join a b :
  proper a → proper b → svn_relpath_join (join_slash a) (join_slash b) = join_slash (a ++ b).
Proof.
  intros Ha Hb. destruct (decide (a = [])) as [->|Hna]; [done|].
  destruct (decide (b = [])) as [->|Hnb].
  { rewrite app_nil_r. unfold svn_relpath_join. by destruct (join_slash a). }
  rewrite join_slash_app by done. unfold svn_relpath_join.
  destruct (join_slash a) as [|c s] eqn:Hja; [by apply join_slash_nil in Hja|].
  by destruct (join_slash b) as [|d t] eqn:Hjb; [apply join_slash_nil in Hjb|].
Qed.

(** *** The longest common ancestor *)

(** One of the paths ends at [k], and the other one ends or has a slash there. *)
Definition at_end (k : nat) (path1 path2 : list byte) : bool :=
  ((k =? length path1)%nat && (path_at path2 k =b? SLASH))
  || ((k =? length path2)%nat && (path_at path1 k =b? SLASH))
  || ((k =? length path1)%nat && (k =? length path2)%nat).

Definition segment_end path : Prop := path = [] ∨ ∃ t, path = SLASH :: t.

Lemma ancestor_loop_same seg path1 path2 i d :
  SLASH ∉ seg →
  ancestor_loop (seg ++ path1) (seg ++ path2) i d = ancestor_loop path1 path2 (i + length seg) d.
Proof.
  revert i; induction seg as [|c seg IH]; intros i Hs; simpl; [by rewrite Nat.add_0_r|].
  apply not_elem_of_cons in Hs as [Hc Hs]. rewrite byte_eqb_refl.
  rewrite (proj2 (byte_eqb_ne c SLASH)) by done. rewrite IH by done. f_equal. lia.
Qed.

Lemma ancestor_loop_mono path1 path2 i d : (i <= (ancestor_loop path1 path2 i d).1)%nat.
Proof.
  revert path2 i d; induction path1 as [|c path1 IH]; intros [|c' path2] i d; simpl; [lia..|].
  destruct (c =b? c'); simpl; [|lia]. etrans; [|apply IH]. lia.
Qed.

Lemma ancestor_loop_differ seg seg' path1 path2 i d :
  seg ≠ seg' → SLASH ∉ seg → SLASH ∉ seg' → segment_end path1 → segment_end path2 →
  ∃ k, ancestor_loop (seg ++ path1) (seg' ++ path2) i d = (i + k, d)%nat
    ∧ at_end k (seg ++ path1) (seg' ++ path2) = false.
Proof.
  revert seg' i; induction seg as [|c seg IH]; intros [|c' seg'] i Hne Hs Hs' H1 H2; [done|..].
  - exists 0%nat. apply not_elem_of_cons in Hs' as [Hc _]. cbn [app]. rewrite Nat.add_0_r.
    assert (c' =b? SLASH = false) as Hc' by by apply byte_eqb_ne.
    destruct H1 as [->|[t ->]]; unfold at_end, path_at; simpl; [by rewrite Hc'|].
    by rewrite (proj2 (byte_eqb_ne SLASH c')) by done.
  - exists 0%nat. apply not_elem_of_cons in Hs as [Hc _]. cbn [app]. rewrite Nat.add_0_r.
    assert (c =b? SLASH = false) as Hc' by by apply byte_eqb_ne.
    destruct H2 as [->|[t ->]]; unfold at_end, path_at; simpl; [by rewrite Hc'|].
    by rewrite Hc'.
  - apply not_elem_of_cons in Hs as [Hc Hs], Hs' as [Hc' Hs']. simpl.
    destruct (byte_eqb_spec c c') as [->|Hcc]; [|exists 0%nat; by rewrite Nat.add_0_r].
    rewrite (proj2 (byte_eqb_ne c' SLASH)) by done.
    destruct (IH seg' (S i)) as (k & -> & Hk); [by intros ->|done..|].
    exists (S k). split; [f_equal; lia|done].
Qed.

Lemma join_tail_end a : segment_end match a with [] => [] | _ => SLASH :: join_slash a end.
Proof. destruct a; [by left|right; by eexists]. Qed.

Lemma eqb_add_l n k l : ((n + k)%nat =? (n + l)%nat)%nat = (k =? l)%nat.
Proof. destruct (Nat.eqb_spec k l), (Nat.eqb_spec (n + k) (n + l)); lia. Qed.

Lemma at_end_app k seg path1 path2 :
  at_end (length seg + k) (seg ++ path1) (seg ++ path2) = at_end k path1 path2.
Proof.
  unfold at_end. rewrite !path_at_app_r, !length_app.
  by rewrite !eqb_add_l.
Qed.

Lemma at_end_zero path1 path2 : path1 ≠ [] → path2 ≠ [] → at_end 0 path1 path2 = false.
Proof. by destruct path1, path2. Qed.

(** The end of the loop and the last slash give the length of the common segments. *)
Lemma ancestor_loop_join a b i d :
  proper a → proper b → a ≠ [] → b ≠ [] →
  let '(i', d') := ancestor_loop (join_slash a) (join_slash b) i d in
  (if at_end (i' - i) (join_slash a) (join_slash b) then i' else d')
  = match common_segments a b with [] => d | l => (i + length (join_slash l))%nat end.
Proof.
  revert b i d; induction a as [|x a IH]; intros b i d Ha Hb Hna Hnb; [done|].
  destruct b as [|y b]; [done|]. clear Hna Hnb.
  apply Forall_cons in Ha as [[Hx Hxr] Ha], Hb as [[Hy Hyr] Hb]. rewrite !join_slash_cons.
  cbn [common_segments]. case_bool_decide as Hxy; [subst y|].
  2:{ destruct (ancestor_loop_differ x y _ _ i d Hxy Hx Hy (join_tail_end a) (join_tail_end b))
        as (k & -> & Hk). by replace (i + k - i)%nat with k by lia; rewrite Hk. }
  rewrite ancestor_loop_same by done. rewrite join_slash_cons.
  destruct a as [|x' a], b as [|y' b].
  - cbn [ancestor_loop common_segments]. replace (i + length x - i)%nat with (length x + 0)%nat by lia.
    by rewrite at_end_app, app_nil_r.
  - cbn [ancestor_loop common_segments]. replace (i + length x - i)%nat with (length x + 0)%nat by lia.
    by rewrite at_end_app, app_nil_r.
  - cbn [ancestor_loop common_segments]. replace (i + length x - i)%nat with (length x + 0)%nat by lia.
    by rewrite at_end_app, app_nil_r.
  - remember (x' :: a) as a' eqn:Ea. remember (y' :: b) as b' eqn:Eb.
    assert (a' ≠ [] ∧ b' ≠ []) as [Hna Hnb] by (by subst).
    cbn [ancestor_loop]. rewrite !byte_eqb_refl.
    specialize (IH b' (S (i + length x)) (i + length x)%nat Ha Hb Hna Hnb).
    pose proof (ancestor_loop_mono (join_slash a') (join_slash b') (S (i + length x)) (i + length x)%nat) as Hm.
    destruct (ancestor_loop _ _ _ _) as [i' d'] eqn:Hl. cbn [fst] in Hm.
    replace (i' - i)%nat with (length x + S (i' - S (i + length x)))%nat by lia.
    rewrite at_end_app.
    change (at_end (S ?k) (SLASH :: ?p) (SLASH :: ?q)) with (at_end k p q). rewrite IH.
    destruct (common_segments a' b') as [|z l]; simpl; rewrite ?app_nil_r, ?length_app; simpl; [done|].
    lia.
Qed.

Lemma join_slash_ne a : proper a → a ≠ [] → join_slash a ≠ [].
Proof. intros Ha Hne He. by apply Hne, join_slash_nil. Qed.

Lemma take_common a b : take (length (join_slash (common_segments a b))) (join_slash a)
  = join_slash (common_segments a b).
Proof.
  destruct (common_segments_prefix a b) as (a' & b' & Ha & _ & _). rewrite Ha at 2.
  destruct (decide (common_segments a b = [])) as [->|Hc]; [done|].
  destruct (decide (a' = [])) as [->|Hn]; [by rewrite app_nil_r, firstn_all|].
  by rewrite join_slash_app, take_app_length.
Qed.

Lemma svn_relpath_get_longest_ancestor_join a b :
  proper a → proper b →
  svn_relpath_get_longest_ancestor (join_slash a) (join_slash b) = join_slash (common_segments a b).
Proof.
  intros Ha Hb. destruct (decide (a = [])) as [->|Hna]; [done|].
  destruct (decide (b = [])) as [->|Hnb].
  { unfold svn_relpath_get_longest_ancestor, get_longest_ancestor_length.
    destruct (join_slash a), a; done. }
  pose proof (ancestor_loop_join a b 0 0 Ha Hb Hna Hnb) as Hloop.
  pose proof (join_slash_ne a Ha Hna) as Hja. pose proof (join_slash_ne b Hb Hnb) as Hjb.
  pose proof (join_slash_head a Ha) as Hsa.
  unfold svn_relpath_get_longest_ancestor. rewrite <- (take_common a b) at 1. f_equal.
  unfold get_longest_ancestor_length.
  destruct (join_slash a) as [|c p] eqn:Ep; [done|]. destruct (join_slash b) as [|c' q] eqn:Eq; [done|].
  rewrite (proj2 (byte_eqb_ne _ _) Hsa).
  destruct (ancestor_loop (c :: p) (c' :: q) 0 0) as [i' d'] eqn:Hl.
  rewrite !andb_false_r. cbn [andb]. fold (at_end i' (c :: p) (c' :: q)).
  rewrite Nat.sub_0_r in Hloop. rewrite Hloop. by destruct (common_segments a b).
Qed.

(** *** Skipping an ancestor *)

Lemma split_slash_app s t : split_slash (s ++ SLASH :: t) = split_slash s ++ split_slash t.
Proof.
  induction s as [|c s IH]; [done|]. cbn [app split_slash]. rewrite IH.
  destruct (c =b? SLASH); [done|]. by rewrite (split_slash_span s).
Qed.

Lemma segments_app a rest :
  proper a → a ≠ [] → rest ≠ [] → segments (join_slash a ++ SLASH :: rest) = a ++ segments rest.
Proof.
  intros Ha Hne Hr. pose proof (join_slash_ne a Ha Hne) as Hj.
  assert (segments (join_slash a ++ SLASH :: rest) = split_slash (join_slash a) ++ split_slash rest) as ->.
  { rewrite <- split_slash_app. by destruct (join_slash a). }
  f_equal; [|by destruct rest]. rewrite <- (segments_join a Ha) at 2. by destruct (join_slash a).
Qed.

Lemma proper_app a b : proper (a ++ b) ↔ proper a ∧ proper b.
Proof. apply Forall_app. Qed.

Lemma svn_relpath_skip_ancestor_join a b r :
  proper a → proper b →
  svn_relpath_skip_ancestor (join_slash a) (join_slash b) = Some r
  ↔ ∃ c, b = a ++ c ∧ r = join_slash c.
Proof.
  intros Ha Hb. destruct (decide (a = [])) as [->|Hne].
  { simpl. split; [intros [= <-]; by exists b|by intros (c & -> & ->)]. }
  pose proof (join_slash_ne a Ha Hne) as Hj. unfold svn_relpath_skip_ancestor.
  destruct (join_slash a) as [|x p] eqn:Ep; [done|]. rewrite <- Ep. clear Hj.
  split.
  - case_bool_decide as Ht; [simpl|done]. intros Hr.
    pose proof (take_drop (length (join_slash a)) (join_slash b)) as Hjb. rewrite Ht in Hjb.
    destruct (drop (length (join_slash a)) (join_slash b)) as [|y rest].
    + injection Hr as <-. exists []. rewrite !app_nil_r in *. split; [|done].
      symmetry. by apply join_slash_inj.
    + destruct (byte_eqb_spec y SLASH) as [->|]; [|done]. injection Hr as ->.
      destruct (decide (r = [])) as [->|Hr].
      { pose proof (join_slash_end b Hb) as He. rewrite <- Hjb in He. unfold ends_in_slash in He.
        by rewrite last_snoc in He. }
      exists (segments r). rewrite join_segments. split; [|done].
      by rewrite <- (segments_join b Hb), <- Hjb, segments_app.
  - intros (c & -> & ->). destruct (decide (c = [])) as [->|Hc].
    + rewrite app_nil_r, firstn_all, bool_decide_eq_true_2, drop_all by done. done.
    + rewrite join_slash_app by done. rewrite take_app_length, bool_decide_eq_true_2 by done.
      by rewrite drop_app_length.
Qed.

(** *** Repository paths and local paths *)

Lemma svn_fspath__split_path_of a seg :
  proper_segment seg → svn_fspath__split (path_of true (a ++ [seg])) = (path_of true a, seg).
Proof.
  intros Hs. unfold svn_fspath__split, svn_fspath__dirname, svn_fspath__basename, path_of.
  change (drop 1 ([SLASH] ++ ?p)) with p.
  rewrite svn_relpath_dirname_join, svn_relpath_basename_join by done.
  rewrite bool_decide_eq_false_2; [by rewrite andb_false_r|]. rewrite join_slash_snoc.
  apply proper_segment_ne in Hs. destruct a; [done|]. by intros [? ?]%app_eq_nil.
Qed.

Lemma svn_fspath__join_path_of a b :
  proper a → proper b → svn_fspath__join (path_of true a) (join_slash b) = path_of true (a ++ b).
Proof.
  intros Ha Hb. unfold svn_fspath__join, path_of. change (drop 1 ([SLASH] ++ ?p)) with p.
  destruct (decide (b = [])) as [->|Hnb]; [by rewrite app_nil_r|].
  pose proof (join_slash_ne b Hb Hnb) as Hj. destruct (join_slash b) as [|c p] eqn:Ep; [done|].
  case_bool_decide as Hd.
  - apply join_slash_nil in Hd as ->; [|done]. simpl. by rewrite Ep.
  - assert (a ≠ []) by (by intros ->). rewrite join_slash_app by done. rewrite Ep.
    by rewrite <- app_assoc.
Qed.

Lemma dirent_previous_segment_first dirent :
  previous_slash dirent (length dirent - 1) = 0%nat →
  dirent ≠ [] →
  dirent_previous_segment dirent (length dirent)
  = if path_at dirent 0 =b? SLASH then 1%nat else 0%nat.
Proof.
  intros Hp Hne. unfold dirent_previous_segment. destruct (length dirent) as [|n] eqn:Hl.
  { by apply nil_length_inv in Hl. }
  simpl in Hp. rewrite Nat.sub_0_r in Hp. rewrite Hp. unfold dirent_root_length. simpl.
  by destruct (path_at dirent 0 =b? SLASH).
Qed.

(** The last segment follows nothing, the root, or a parent and a slash. *)
Lemma path_of_snoc rooted a seg :
  proper a →
  ∃ s, path_of rooted (a ++ [seg]) = s ++ seg
    ∧ (s = [] ∧ path_of rooted a = []
       ∨ ∃ p, s = p ++ [SLASH] ∧ path_of rooted a = match p with [] => [SLASH] | _ => p end).
Proof.
  intros Ha. unfold path_of at 1. rewrite join_slash_snoc. destruct a as [|x a].
  - exists (if rooted then [SLASH] else []). split; [done|].
    destruct rooted; [right; by exists []|by left].
  - exists (path_of rooted (x :: a) ++ [SLASH]). unfold path_of. split; [by rewrite <- !app_assoc|].
    right. eexists. split; [done|]. destruct (_ ++ join_slash (x :: a)) eqn:Hp; [|done].
    apply app_eq_nil in Hp as [_ Hj]. by apply join_slash_nil in Hj.
Qed.

Lemma svn_dirent_dirname_path_of rooted a seg :
  proper a → proper_segment seg → svn_dirent_dirname (path_of rooted (a ++ [seg])) = path_of rooted a.
Proof.
  intros Ha Hs. pose proof (proper_segment_ne _ Hs) as Hne. destruct Hs as [Hs Hr].
  assert (length seg ≠ 0)%nat as Hlen by (by intros ?%nil_length_inv).
  destruct (path_of_snoc rooted a seg Ha) as (s & -> & [[-> ->]|(p & -> & ->)]);
    unfold svn_dirent_dirname.
  - simpl app. unfold dirent_root_length. rewrite path_at_not_slash by (done || lia).
    rewrite andb_false_r, bool_decide_eq_false_2 by done.
    rewrite dirent_previous_segment_first by (done || (apply previous_slash_none; [done|lia])).
    by rewrite path_at_not_slash by (done || lia).
  - rewrite <- app_assoc in *. change ([SLASH] ++ seg) with (SLASH :: seg) in *.
    rewrite bool_decide_eq_false_2.
    2:{ unfold dirent_root_length. rewrite length_app. simpl. case_match; lia. }
    unfold dirent_previous_segment. rewrite length_app. simpl length. rewrite Nat.add_succ_r.
    rewrite previous_slash_app by done. destruct p as [|c p]; [done|].
    rewrite bool_decide_eq_false_2; [by rewrite take_app_length|].
    unfold dirent_root_length. simpl. case_match; lia.
Qed.

Lemma svn_dirent_basename_path_of rooted a seg :
  proper a → proper_segment seg → svn_dirent_basename (path_of rooted (a ++ [seg])) = seg.
Proof.
  intros Ha Hs. pose proof (proper_segment_ne _ Hs) as Hne. destruct Hs as [Hs Hr].
  assert (length seg ≠ 0)%nat as Hlen by (by intros ?%nil_length_inv).
  unfold svn_dirent_basename, svn_dirent_is_root.
  destruct (path_of_snoc rooted a seg Ha) as (s & -> & [[-> _]|(p & -> & _)]).
  - simpl app. rewrite path_at_not_slash by (done || lia). rewrite andb_false_r.
    by rewrite segment_start_none.
  - rewrite <- app_assoc. change ([SLASH] ++ seg) with (SLASH :: seg). rewrite length_app.
    simpl length. rewrite (proj2 (Nat.eqb_neq _ 1)) by lia. cbn [andb].
    rewrite Nat.add_succ_r, segment_start_app by done.
    by rewrite <- Nat.add_1_r, drop_app_add.
Qed.

(** The last byte of a path is not a slash, except for the root. *)
Lemma path_of_last rooted a :
  proper a → path_of rooted a ≠ [] →
  path_at (path_of rooted a) (length (path_of rooted a) - 1) =b? SLASH = bool_decide (a = []).
Proof.
  intros Ha Hne. destruct a as [|seg a _] using rev_ind; [by destruct rooted|].
  rewrite bool_decide_eq_false_2 by (by destruct a).
  apply proper_app in Ha as [Ha [Hs _]%Forall_cons].
  pose proof (proper_segment_ne _ Hs) as Hn. destruct Hs as [Hs _].
  assert (length seg ≠ 0)%nat as Hlen by (by intros ?%nil_length_inv).
  destruct (path_of_snoc rooted a seg Ha) as (s & -> & _).
  rewrite length_app. replace (length s + length seg - 1)%nat with (length s + (length seg - 1))%nat by lia.
  rewrite path_at_app_r. apply path_at_not_slash; [done|lia].
Qed.

Lemma svn_dirent_join_path_of rooted a b :
  proper a → proper b → svn_dirent_join (path_of rooted a) (join_slash b) = path_of rooted (a ++ b).
Proof.
  intros Ha Hb. unfold svn_dirent_join, svn_dirent_is_absolute.
  pose proof (join_slash_head b Hb) as Hh. unfold path_at in Hh. rewrite drop_0 in Hh.
  rewrite (proj2 (byte_eqb_ne _ _) Hh). clear Hh.
  pose proof (path_of_last rooted a Ha) as Hlast.
  destruct (path_of rooted a) as [|c p] eqn:Ep.
  { unfold path_of in *. destruct rooted; [done|]. by apply join_slash_nil in Ep as ->. }
  rewrite Hlast by done. clear Hlast. rewrite <- Ep.
  destruct (decide (b = [])) as [->|Hnb]; [by rewrite (app_nil_r a)|].
  pose proof (join_slash_ne b Hb Hnb) as Hj. destruct (join_slash b) as [|d q] eqn:Eq; [done|].
  rewrite <- Eq. unfold path_of. case_bool_decide as Hna.
  - subst a. by rewrite app_nil_r.
  - rewrite join_slash_app by done. by rewrite <- app_assoc.
Qed.

Lemma svn_dirent_join_absolute base b :
  svn_dirent_join base (path_of true b) = path_of true b.
Proof. done. Qed.

Lemma dirent_ancestor_rooted a b :
  proper a → proper b →
  get_longest_ancestor_length type_dirent (path_of true a) (path_of true b)
  = S (length (join_slash (common_segments a b))).
Proof.
  intros Ha Hb. unfold get_longest_ancestor_length, path_of. cbn [app ancestor_loop].
  rewrite !byte_eqb_refl. change (path_at (SLASH :: ?p) 0 =b? SLASH) with true.
  destruct (decide (a = [])) as [->|Hna]; [done|].
  destruct (decide (b = [])) as [->|Hnb].
  { cbn [join_slash]. destruct (join_slash a); by destruct a. }
  pose proof (ancestor_loop_join a b 1 0 Ha Hb Hna Hnb) as Hloop.
  pose proof (join_slash_ne a Ha Hna) as Hja. pose proof (join_slash_ne b Hb Hnb) as Hjb.
  pose proof (ancestor_loop_mono (join_slash a) (join_slash b) 1 0) as Hm.
  destruct (ancestor_loop (join_slash a) (join_slash b) 1 0) as [i d] eqn:Hl. cbn [fst] in Hm.
  rewrite !andb_true_r. destruct (Nat.eqb_spec i 1) as [->|Hi].
  { rewrite Nat.sub_diag, at_end_zero in Hloop by done.
    assert (d = 0)%nat as ->.
    { destruct (join_slash a), (join_slash b); try done. cbn [ancestor_loop] in Hl.
      destruct (_ =b? _); [|congruence].
      pose proof (ancestor_loop_mono l l0 2 (if b0 =b? SLASH then 1 else 0)%nat) as Hm'.
      rewrite Hl in Hm'. simpl in Hm'. lia. }
    destruct (common_segments a b); [done|lia]. }
  rewrite (proj2 (Nat.eqb_neq i 0)) by lia.
  replace i with (S (i - 1)) at 1 2 3 4 5 6 by lia.
  change (at_end (i - 1) (join_slash a) (join_slash b)) with
    (at_end (S (i - 1)) (SLASH :: join_slash a) (SLASH :: join_slash b)) in Hloop.
  unfold at_end in Hloop.
  destruct (_ || _ || _).
  - replace (S (i - 1)) with i by lia. rewrite Hloop. destruct (common_segments a b); [lia|done].
  - rewrite Hloop. by destruct (common_segments a b).
Qed.

Lemma dirent_ancestor_relative a b :
  proper a → proper b →
  get_longest_ancestor_length type_dirent (path_of false a) (path_of false b)
  = length (join_slash (common_segments a b)).
Proof.
  intros Ha Hb. unfold path_of, get_longest_ancestor_length. cbn [app].
  destruct (decide (a = [])) as [->|Hna]; [done|].
  destruct (decide (b = [])) as [->|Hnb]; [by destruct (join_slash a), a|].
  pose proof (ancestor_loop_join a b 0 0 Ha Hb Hna Hnb) as Hloop.
  pose proof (join_slash_ne a Ha Hna) as Hja. pose proof (join_slash_ne b Hb Hnb) as Hjb.
  pose proof (join_slash_head a Ha) as Hsa.
  destruct (join_slash a) as [|c p] eqn:Ep; [done|]. destruct (join_slash b) as [|c' q] eqn:Eq; [done|].
  rewrite (proj2 (byte_eqb_ne _ _) Hsa).
  destruct (ancestor_loop (c :: p) (c' :: q) 0 0) as [i d] eqn:Hl.
  rewrite !andb_false_r. cbn [andb]. fold (at_end i (c :: p) (c' :: q)).
  rewrite Nat.sub_0_r in Hloop. destruct (Nat.eqb_spec i 0) as [->|Hi].
  - rewrite at_end_zero in Hloop by done. assert (d = 0)%nat as ->.
    { cbn [ancestor_loop] in Hl. destruct (c =b? c'); [|congruence].
      pose proof (ancestor_loop_mono p q 1 (if c =b? SLASH then 0 else 0)%nat) as Hm.
      rewrite Hl in Hm. simpl in Hm. lia. }
    by destruct (common_segments a b).
  - rewrite Hloop. by destruct (common_segments a b).
Qed.

Lemma svn_dirent_get_longest_ancestor_path_of r r' a b :
  proper a → proper b →
  svn_dirent_get_longest_ancestor (path_of r a) (path_of r' b)
  = if Bool.eqb r r' then path_of r (common_segments a b) else [].
Proof.
  intros Ha Hb. unfold svn_dirent_get_longest_ancestor. destruct r, r'; simpl Bool.eqb; cbn iota.
  - rewrite dirent_ancestor_rooted by done. unfold path_of. cbn [app take]. by rewrite take_common.
  - pose proof (join_slash_head b Hb) as Hh. unfold path_of, get_longest_ancestor_length. cbn [app].
    destruct (join_slash b) as [|c q]; [done|]. cbn [ancestor_loop].
    rewrite (proj2 (byte_eqb_ne SLASH c)) by (by intros <-). done.
  - pose proof (join_slash_head a Ha) as Hh. unfold path_of, get_longest_ancestor_length. cbn [app].
    destruct (join_slash a) as [|c q]; [done|]. cbn [ancestor_loop].
    rewrite (proj2 (byte_eqb_ne c SLASH)) by (by intros ->). done.
  - rewrite dirent_ancestor_relative by done. unfold path_of. cbn [app]. by rewrite take_common.
Qed.

(** How one path can extend another, byte by byte. *)
Lemma join_slash_extends a b rest :
  proper a → proper b → a ≠ [] → join_slash b = join_slash a ++ rest →
  (rest = [] ∧ b = a) ∨ (∃ c, c ≠ [] ∧ b = a ++ c ∧ rest = SLASH :: join_slash c)
  ∨ (∃ x t, x ≠ SLASH ∧ rest = x :: t ∧ ∀ c, b ≠ a ++ c).
Proof.
  intros Ha Hb Hne He. pose proof (svn_relpath_skip_ancestor_join a b) as Hskip.
  unfold svn_relpath_skip_ancestor in Hskip. pose proof (join_slash_ne a Ha Hne) as Hj.
  destruct (join_slash a) as [|y p] eqn:Ep; [done|]. rewrite <- Ep in *. clear Hj.
  rewrite He, take_app_length, drop_app_length, bool_decide_eq_true_2 in Hskip by done.
  simpl negb in Hskip. cbn iota in Hskip. destruct rest as [|x t].
  - left. split; [done|]. rewrite app_nil_r in He. by apply join_slash_inj.
  - right. destruct (byte_eqb_spec x SLASH) as [->|Hx].
    + left. destruct (proj1 (Hskip t Ha Hb) eq_refl) as (c & -> & ->). exists c.
      split; [|done]. intros ->. rewrite app_nil_r in He. apply (f_equal length) in He.
      rewrite length_app in He. simpl in He. lia.
    + right. exists x, t. split; [done|]. split; [done|]. intros c ->.
      destruct (Hskip (join_slash c) Ha Hb) as [_ H]. by discriminate H; eauto.
Qed.

(** Everything relative is below the empty path, and everything rooted below the root. *)
Lemma below_root (r : bool) b rest :
  proper b →
  match join_slash b with
  | [] => Some []
  | c :: q => if c =b? SLASH then Some q else Some (c :: q)
  end = Some rest
  ↔ r = r ∧ ∃ c : list (list byte), b = [] ++ c ∧ rest = join_slash c.
Proof.
  intros Hb. pose proof (join_slash_head b Hb) as Hhb.
  assert (match join_slash b with [] => Some [] | c :: q => if c =b? SLASH then Some q else Some (c :: q) end
    = Some (join_slash b)) as ->.
  { destruct (join_slash b) as [|c q]; [done|]. by rewrite (proj2 (byte_eqb_ne c SLASH)). }
  split; [intros [= <-]; split; [done|]; by exists b|]. intros (_ & c & Hc & ->). simpl in Hc. by subst.
Qed.

Lemma path_of_rooted_eq r r' a b s :
  proper a → proper b → a ≠ [] → path_of r' b = path_of r a ++ s →
  r = r' ∧ join_slash b = join_slash a ++ s.
Proof.
  intros Ha Hb Hna He. assert (r = r') as <-.
  { pose proof (join_slash_head b Hb) as Hhb. destruct r, r'; try done; unfold path_of in He; cbn [app] in He.
    - rewrite He in Hhb. by destruct Hhb.
    - pose proof (join_slash_head a Ha) as Hha. pose proof (join_slash_ne a Ha Hna).
      destruct (join_slash a) as [|c p]; [done|]. injection He as <- _. by destruct Hha. }
  split; [done|]. unfold path_of in He. rewrite <- app_assoc in He. by apply app_inv_head in He.
Qed.

(** A parent that is not a root is not as long as the root of its child. *)
Lemma root_length_child r a s :
  proper a → a ≠ [] →
  let child := path_of r a ++ s in
  dirent_root_length child (length child) ≠ length (path_of r a)
  ∧ (dirent_root_length child (length child) <= length (path_of r a))%nat.
Proof.
  intros Ha Hna. pose proof (join_slash_ne a Ha Hna). pose proof (join_slash_head a Ha) as Hh.
  unfold dirent_root_length, path_of, path_at in *. rewrite drop_0 in *. destruct r; cbn [app deref].
  - destruct (join_slash a); [done|]. split; case_match; simpl; lia.
  - destruct (join_slash a) as [|c p]; [done|]. cbn [app deref] in *.
    rewrite (proj2 (byte_eqb_ne c SLASH)) by done. rewrite andb_false_r. simpl. lia.
Qed.

Lemma svn_dirent_skip_ancestor_path_of r r' a b rest :
  proper a → proper b →
  svn_dirent_skip_ancestor (path_of r a) (path_of r' b) = Some rest
  ↔ r = r' ∧ ∃ c, b = a ++ c ∧ rest = join_slash c.
Proof.
  intros Ha Hb. unfold svn_dirent_skip_ancestor. case_bool_decide as Ht; simpl negb; cbn iota.
  2:{ split; [done|]. intros (-> & c & -> & ->). exfalso. apply Ht. unfold path_of.
      destruct (decide (c = [])) as [->|Hc]; [by rewrite app_nil_r, firstn_all|].
      destruct (decide (a = [])) as [->|Hna]; [by destruct r'|].
      by rewrite join_slash_app, app_assoc, take_app_length. }
  pose proof (take_drop (length (path_of r a)) (path_of r' b)) as He. rewrite Ht in He.
  remember (drop (length (path_of r a)) (path_of r' b)) as s eqn:Es. clear Ht Es. symmetry in He.
  rewrite He. destruct (decide (a = [])) as [->|Hna].
  - pose proof (join_slash_head b Hb) as Hhb.
    destruct r, r'; unfold path_of in *; cbn [app join_slash] in *.
    + injection He as He. rewrite <- He, <- (below_root true) by done. by destruct (join_slash b).
    + rewrite He in Hhb. by destruct Hhb.
    + subst s. simpl. by split; [|intros [? _]].
    + subst s. rewrite <- (below_root false) by done. destruct (join_slash b) as [|c q]; [done|].
      unfold dirent_root_length. by rewrite (proj2 (byte_eqb_ne _ _) Hhb), andb_false_r.
  - destruct (path_of_rooted_eq r r' a b s Ha Hb Hna He) as [<- Hj].
    destruct (root_length_child r a s Ha Hna) as [Hne Hle].
    destruct (join_slash_extends a b s Ha Hb Hna Hj) as [[-> ->]|[(c & Hc & -> & ->)|(x & t & Hx & -> & Hno)]].
    + split; [intros [= <-]; split; [done|]; exists []; by rewrite app_nil_r|].
      intros (_ & c & Hc & ->). rewrite <- (app_nil_r a) in Hc at 1. by apply app_inv_head in Hc as <-.
    + rewrite (proj2 (Nat.ltb_ge _ _)) by done. rewrite byte_eqb_refl.
      split; [intros [= <-]; split; [done|]; by exists c|]. by intros (_ & d & ->%app_inv_head & ->).
    + rewrite (proj2 (Nat.ltb_ge _ _)), (proj2 (byte_eqb_ne x SLASH)), (proj2 (Nat.eqb_neq _ _)) by done.
      split; [done|]. intros (_ & d & -> & _). by destruct (Hno d).
Qed.

Lemma child_loop_app before path rest :
  child_loop before path (path ++ rest) = Some (default before (last path), [], rest).
Proof.
  revert before; induction path as [|c path IH]; intros before; [done|].
  cbn [app child_loop]. rewrite byte_eqb_refl, IH. destruct path; [done|].
  rewrite last_cons_cons. by destruct (last (b :: path)) eqn:Hl; [|apply last_None in Hl].
Qed.

Lemma child_loop_some before path1 path2 x rest :
  child_loop before path1 path2 = Some (x, [], rest) → path2 = path1 ++ rest.
Proof.
  revert before path2; induction path1 as [|c path1 IH]; intros before [|d path2]; simpl.
  - by intros [= _ <-].
  - by intros [= _ <-].
  - done.
  - destruct (byte_eqb_spec c d) as [->|]; [|done]. intros H. by rewrite (IH _ _ H).
Qed.

Lemma last_byte_at path : path ≠ [] → last path = Some (path_at path (length path - 1)).
Proof.
  destruct path as [|c path _] using rev_ind; [done|]. intros _. rewrite last_snoc, length_app. simpl.
  replace (length path + 1 - 1)%nat with (length path + 0)%nat by lia. by rewrite path_at_app_r.
Qed.

Lemma is_child_nonempty path1 path2 :
  path1 ≠ [] →
  svn_dirent_is_child path1 path2
  = match child_loop NUL path1 path2 with
    | Some (before, [], c :: rest) =>
        if before =b? SLASH then if c =b? SLASH then None else Some (c :: rest)
        else if c =b? SLASH then match rest with [] => None | _ => Some rest end else None
    | _ => None
    end.
Proof. by destruct path1. Qed.

Lemma is_child_of_empty r' b rest :
  proper b →
  svn_dirent_is_child [] (path_of r' b) = Some rest
  ↔ false = r' ∧ ∃ c, c ≠ [] ∧ b = [] ++ c ∧ rest = join_slash c.
Proof.
  intros Hb. pose proof (join_slash_head b Hb) as Hh. unfold path_at in Hh. rewrite drop_0 in Hh.
  unfold svn_dirent_is_child, path_of. cbn [is_child]. unfold dirent_is_rooted.
  destruct r'; [split; [done|by intros [? _]]|]. cbn [app].
  destruct (decide (b = [])) as [->|Hnb]; [split; [done|by intros (_ & c & ? & <- & _)]|].
  pose proof (join_slash_ne b Hb Hnb). destruct (join_slash b) as [|c p] eqn:Ep; [done|].
  rewrite (proj2 (byte_eqb_ne _ _) Hh), <- Ep. split.
  - intros [= <-]. split; [done|]. by exists b.
  - by intros (_ & c' & _ & -> & ->).
Qed.

Lemma is_child_sound r r' a b rest :
  proper a → proper b → path_of r a ≠ [] →
  svn_dirent_is_child (path_of r a) (path_of r' b) = Some rest →
  r = r' ∧ ∃ c, c ≠ [] ∧ b = a ++ c ∧ rest = join_slash c.
Proof.
  intros Ha Hb Hnil. rewrite is_child_nonempty by done.
  destruct (child_loop NUL (path_of r a) (path_of r' b)) as [[[x [|]] [|c t]]|] eqn:Hl; try done.
  pose proof (child_loop_some _ _ _ _ _ Hl) as He. rewrite He, child_loop_app in Hl.
  injection Hl as <-. rewrite last_byte_at by done. simpl default. rewrite path_of_last by done.
  pose proof (join_slash_head b Hb) as Hhb. case_bool_decide as Hna.
  - subst a. destruct r; [|done]. destruct r'; unfold path_of in He; cbn [app join_slash] in He.
    + injection He as He. destruct (c =b? SLASH); [done|]. rewrite <- He. intros [= <-].
      split; [done|]. exists b. split; [|done]. by intros ->.
    + rewrite He in Hhb. by destruct Hhb.
  - destruct (path_of_rooted_eq r r' a b _ Ha Hb Hna He) as [<- Hj].
    destruct (join_slash_extends a b _ Ha Hb Hna Hj) as [[? _]|[(d & Hd & -> & [= -> ->])|(y & u & Hy & [= -> ->] & _)]];
      [done| |by rewrite (proj2 (byte_eqb_ne y SLASH))].
    rewrite byte_eqb_refl. intros Hr. split; [done|]. exists d. split; [done|]. split; [done|].
    destruct (join_slash d); [done|by injection Hr].
Qed.

Lemma is_child_complete r a c :
  proper a → proper c → c ≠ [] → path_of r a ≠ [] →
  svn_dirent_is_child (path_of r a) (path_of r (a ++ c)) = Some (join_slash c).
Proof.
  intros Ha Hpc Hc Hnil. rewrite is_child_nonempty by done.
  pose proof (join_slash_ne c Hpc Hc) as Hj. pose proof (join_slash_head c Hpc) as Hh.
  destruct (decide (a = [])) as [->|Hna].
  - destruct r; [|done]. unfold path_of. cbn [app join_slash child_loop]. rewrite byte_eqb_refl.
    cbn [child_loop]. destruct (join_slash c) as [|d p]; [done|]. change (d ≠ SLASH) in Hh.
    by rewrite byte_eqb_refl, (proj2 (byte_eqb_ne _ _) Hh).
  - unfold path_of at 2. rewrite join_slash_app, app_assoc by done. fold (path_of r a).
    rewrite child_loop_app, last_byte_at by done. simpl default.
    rewrite path_of_last, bool_decide_eq_false_2 by done. rewrite byte_eqb_refl.
    by destruct (join_slash c).
Qed.

Lemma svn_dirent_is_child_path_of r r' a b rest :
  proper a → proper b →
  svn_dirent_is_child (path_of r a) (path_of r' b) = Some rest
  ↔ r = r' ∧ ∃ c, c ≠ [] ∧ b = a ++ c ∧ rest = join_slash c.
Proof.
  intros Ha Hb. destruct (decide (path_of r a = [])) as [Hnil|Hnil].
  { assert (r = false ∧ a = []) as [-> ->].
    { unfold path_of in Hnil. destruct r; [done|]. by apply join_slash_nil in Hnil. }
    by apply is_child_of_empty. }
  split; [by apply is_child_sound|]. intros (<- & c & Hc & -> & ->).
  apply proper_app in Hb as [_ Hpc]. by apply is_child_complete.
Qed.

(** ** The functions on segments *)

(** On canonical relative and repository paths, which are lists of segments,
    splitting takes the last segment off, joining concatenates, the longest
    common ancestor is the longest common prefix of the segments (not of the
    bytes), and skip_ancestor succeeds exactly below the parent, with the
    segments that are left. *)
Theorem svn_relpath_segments a b seg rest :
  proper a → proper b → proper_segment seg →
  svn_relpath_split (join_slash (a ++ [seg])) = (join_slash a, seg)
  ∧ svn_relpath_join (join_slash a) (join_slash b) = join_slash (a ++ b)
  ∧ svn_relpath_get_longest_ancestor (join_slash a) (join_slash b)
    = join_slash (common_segments a b)
  ∧ (svn_relpath_skip_ancestor (join_slash a) (join_slash b) = Some rest
     ↔ ∃ c, b = a ++ c ∧ rest = join_slash c)
  ∧ svn_fspath__split (path_of true (a ++ [seg])) = (path_of true a, seg)
  ∧ svn_fspath__join (path_of true a) (join_slash b) = path_of true (a ++ b)
  ∧ svn_fspath__get_longest_ancestor (path_of true a) (path_of true b)
    = path_of true (common_segments a b)
  ∧ (svn_fspath__skip_ancestor (path_of true a) (path_of true b) = Some rest
     ↔ ∃ c, b = a ++ c ∧ rest = join_slash c).
Proof.
  intros Ha Hb Hs. unfold svn_relpath_split. rewrite svn_relpath_dirname_join, svn_relpath_basename_join by done.
  split; [done|]. split; [by apply svn_relpath_join_join|].
  split; [by apply svn_relpath_get_longest_ancestor_join|].
  split; [by apply svn_relpath_skip_ancestor_join|]. split; [by apply svn_fspath__split_path_of|].
  split; [by apply svn_fspath__join_path_of|]. unfold svn_fspath__get_longest_ancestor, svn_fspath__skip_ancestor.
  unfold path_of. change (drop 1 ([SLASH] ++ ?p)) with p.
  split; [by rewrite svn_relpath_get_longest_ancestor_join|].
  by apply svn_relpath_skip_ancestor_join.
Qed.

Lemma svn_relpath_segments_witness :
  let p := String.list_byte_of_string in
  svn_relpath_split (p "a/b/c") = (p "a/b", p "c")
  ∧ svn_relpath_get_longest_ancestor (p "a/bc") (p "a/b/c") = p "a".
Proof.
  assert (proper [String.list_byte_of_string "a"; String.list_byte_of_string "b"]) as H1
    by (repeat constructor; vm_compute; try done; set_solver).
  assert (proper [String.list_byte_of_string "a"; String.list_byte_of_string "bc"]) as H2
    by (repeat constructor; vm_compute; try done; set_solver).
  assert (proper [String.list_byte_of_string "a"; String.list_byte_of_string "b"; String.list_byte_of_string "c"]) as H3
    by (repeat constructor; vm_compute; try done; set_solver).
  assert (proper_segment (String.list_byte_of_string "c")) as Hs
    by (split; vm_compute; try done; set_solver).
  split.
  - exact (proj1 (svn_relpath_segments _ [] _ [] H1 (Forall_nil_2 _) Hs)).
  - exact (proj1 (proj2 (proj2 (svn_relpath_segments _ _ _ [] H2 H3 Hs)))).
Defined.

(** The functions on local paths, on lists of segments: splitting takes the
    last segment off, joining concatenates (an absolute second path replaces
    the first), the longest ancestor is the common prefix of two paths that
    are both rooted or both relative, and svn_dirent_skip_ancestor and
    svn_dirent_is_child find exactly the segments below a path. *)
Theorem svn_dirent_segments r r' a b seg rest :
  proper a → proper b → proper_segment seg →
  svn_dirent_split (path_of r (a ++ [seg])) = (path_of r a, seg)
  ∧ svn_dirent_join (path_of r a) (path_of r' b) = (if r' then path_of true b else path_of r (a ++ b))
  ∧ svn_dirent_get_longest_ancestor (path_of r a) (path_of r' b)
    = (if Bool.eqb r r' then path_of r (common_segments a b) else [])
  ∧ (svn_dirent_skip_ancestor (path_of r a) (path_of r' b) = Some rest
     ↔ r = r' ∧ ∃ c, b = a ++ c ∧ rest = join_slash c)
  ∧ (svn_dirent_is_child (path_of r a) (path_of r' b) = Some rest
     ↔ r = r' ∧ ∃ c, c ≠ [] ∧ b = a ++ c ∧ rest = join_slash c).
Proof.
  intros Ha Hb Hs. unfold svn_dirent_split.
  rewrite svn_dirent_dirname_path_of, svn_dirent_basename_path_of by done.
  split; [done|]. split; [destruct r'; [done|by apply svn_dirent_join_path_of]|].
  split; [by apply svn_dirent_get_longest_ancestor_path_of|].
  split; [by apply svn_dirent_skip_ancestor_path_of|by apply svn_dirent_is_child_path_of].
Qed.

Lemma svn_dirent_segments_witness :
  let p := String.list_byte_of_string in
  svn_dirent_get_longest_ancestor (p "/b") (p "/c") = p "/"
  ∧ (svn_dirent_skip_ancestor (p "/b") (p "/c") = Some [] ↔ true = true ∧ ∃ c, [p "c"] = [p "b"] ++ c ∧ [] = join_slash c).
Proof.
  assert (proper_segment (String.list_byte_of_string "b")) as Hb by (split; vm_compute; try done; set_solver).
  assert (proper_segment (String.list_byte_of_string "c")) as Hc by (split; vm_compute; try done; set_solver).
  assert (proper [String.list_byte_of_string "b"] ∧ proper [String.list_byte_of_string "c"]) as [Pb Pc]
    by (split; repeat constructor; done || apply Hb || apply Hc).
  pose proof (svn_dirent_segments true true _ _ _ [] Pb Pc Hb) as (_ & _ & H & H' & _). by split.
Defined.
