(* ===== verification/Uri.v ===== *)
(** * Escaping URIs

    The URI functions of [src/subversion/libsvn_subr/path.c] and the parts of
    [dirent_uri.c] that take URIs apart: escaping with a table of the bytes that
    stand for themselves, decoding, the test for safe URIs, and the last segment
    of a URI. *)
From S2P Require Import Prelude Cstrings Paths Relpaths.

Implicit Types (path s : list byte).

(** ** The program *)

Definition svn_ctype_isxdigit (c : byte) : bool :=
  let v := byte_val c in
  ((48 <=? v) && (v <=? 57)) || ((65 <=? v) && (v <=? 70)) || ((97 <=? v) && (v <=? 102)).

Definition uri_table : Type := list bool.

(** A table from the rows of 0s and 1s of the source. *)
Definition table_of (rows : String.string) : uri_table :=
  map (λ c, c =b? "1"%byte) (String.list_byte_of_string rows).

Definition svn_uri__char_validity : uri_table :=
  table_of "00000000000000000000000000000000010010111111111111111111111001001111111111111111111111111110000101111111111111111111111111100010"
  ++ replicate 128 false.

Definition iri_escape_chars : uri_table := replicate 128 true ++ replicate 128 false.

Definition uri_autoescape_chars : uri_table :=
  table_of "11111111111111111111111111111111010111111111111111111111111101011111111111111111111111111111010101111111111111111111111111100011"
  ++ replicate 128 true.

(** [table[(unsigned char) c]]. *)
Definition table_at (table : uri_table) (c : byte) : bool :=
  default false (table !! Z.to_nat (byte_val c)).

(** The part after the scheme, [None] for a null pointer. *)
Fixpoint skip_uri_scheme_loop path (j : nat) : option (list byte) :=
  match path with
  | [] => None
  | c :: rest =>
      if c =b? ":"%byte then
        if (0 <? j)%nat && (deref rest =b? SLASH) && (deref (drop 1 rest) =b? SLASH)
        then Some (drop 2 rest) else None
      else if c =b? SLASH then None
      else skip_uri_scheme_loop rest (S j)
  end.

Definition skip_uri_scheme path : option (list byte) := skip_uri_scheme_loop path 0.

Definition svn_path_is_url path : bool := bool_decide (skip_uri_scheme path ≠ None).

Fixpoint uri_safe_loop path : bool :=
  match path with
  | [] => true
  | c :: rest =>
      if c =b? "%"%byte then
        match rest with
        | d1 :: d2 :: rest => if svn_ctype_isxdigit d1 && svn_ctype_isxdigit d2 then uri_safe_loop rest else false
        | _ => false
        end
      else if negb (table_at svn_uri__char_validity c) then false
      else uri_safe_loop rest
  end.

Definition svn_path_is_uri_safe path : bool :=
  match skip_uri_scheme path with
  | None => false
  | Some path =>
      match strchr path SLASH with
      | None => true
      | Some (_, after) => uri_safe_loop (SLASH :: after)
      end
  end.

(** One digit of [%02X]. *)
Definition upper_hex (d : Z) : byte := byte_of (if d <? 10 then 48 + d else 55 + d).

(** [apr_snprintf (..., "%%%02X", c)]. *)
Definition escaped (c : byte) : list byte :=
  ["%"%byte; upper_hex (byte_val c / 16); upper_hex (byte_val c mod 16)].

(** [copied] holds the bytes from [path + copied] to [path + i]. *)
Fixpoint uri_escape_loop path (table : uri_table) (copied retstr : list byte) : list byte * list byte :=
  match path with
  | [] => (copied, retstr)
  | c :: rest =>
      if table_at table c then uri_escape_loop rest table (copied ++ [c]) retstr
      else uri_escape_loop rest table [] (retstr ++ copied ++ escaped c)
  end.

Definition uri_escape path (table : uri_table) : list byte :=
  let '(copied, retstr) := uri_escape_loop path table [] [] in
  match retstr with [] => path | _ => retstr ++ copied end.

Definition svn_path_uri_encode path : list byte := uri_escape path svn_uri__char_validity.
Definition svn_path_uri_from_iri (iri : list byte) : list byte := uri_escape iri iri_escape_chars.
Definition svn_path_uri_autoescape (uri : list byte) : list byte := uri_escape uri uri_autoescape_chars.

Definition xdigit_val (c : byte) : Z :=
  let v := byte_val c in if v <? 65 then v - 48 else if v <? 97 then v - 55 else v - 87.

(** [(char) strtol (digitz, NULL, 16)] of two hexadecimal digits. *)
Definition strtol_hex2 (d1 d2 : byte) : byte := byte_of (16 * xdigit_val d1 + xdigit_val d2).

Fixpoint uri_decode_loop path (query_start : bool) : list byte :=
  match path with
  | [] => []
  | c :: rest =>
      if c =b? "?"%byte then c :: uri_decode_loop rest true
      else if (c =b? "+"%byte) && query_start then " "%byte :: uri_decode_loop rest query_start
      else match rest with
      | d1 :: d2 :: rest' =>
          if (c =b? "%"%byte) && svn_ctype_isxdigit d1 && svn_ctype_isxdigit d2
          then strtol_hex2 d1 d2 :: uri_decode_loop rest' query_start
          else c :: uri_decode_loop rest query_start
      | _ => c :: uri_decode_loop rest query_start
      end
  end.

Definition svn_path_uri_decode path : list byte := uri_decode_loop path false.

(** *** [dirent_uri.c] *)

(** [for (i += 2; i < len; i++) if (uri[i] == '/') return i; return len] *)
Fixpoint hostname_end (uri : list byte) (i : nat) : nat :=
  match uri with
  | [] => i
  | c :: uri => if c =b? SLASH then i else hostname_end uri (S i)
  end.

Fixpoint uri_schema_root_loop (uri rest : list byte) (before : byte) (i : nat) : nat :=
  match rest with
  | [] => O
  | c :: rest =>
      if c =b? SLASH then
        if (0 <? i)%nat && (before =b? ":"%byte) && (deref rest =b? SLASH) && negb (bool_decide (rest = [])) then
          if (i =? 5)%nat && bool_decide (take 4 uri = String.list_byte_of_string "file") then 7%nat
          else hostname_end (drop 1 rest) (i + 2)
        else O
      else uri_schema_root_loop uri rest c (S i)
  end.

(** For [len = strlen (uri)]. *)
Definition uri_schema_root_length (uri : list byte) : nat := uri_schema_root_loop uri uri NUL 0.

Definition svn_uri_is_root (uri : list byte) : bool := (length uri =? uri_schema_root_length uri)%nat.

(** [while (len > root_length && uri[i] != '/') --i;]: [len] does not change, and
    [i] wraps around below 0. *)
Fixpoint uri_back (uri : list byte) (i : nat) : result nat :=
  if path_at uri i =b? SLASH then Ok i
  else match i with O => Undefined | S i => uri_back uri i end.

Definition uri_previous_segment (uri : list byte) : result nat :=
  let len := length uri in
  match len with
  | O => Ok 0%nat
  | S i =>
      let! i := if (uri_schema_root_length uri <? len)%nat then uri_back uri i else Ok i in
      Ok (if (i =? 0)%nat && (1 <? len)%nat && (deref uri =b? SLASH) then 1%nat else i)
  end.

Definition svn_uri_dirname (uri : list byte) : result (list byte) :=
  if svn_uri_is_root uri then Ok uri
  else let! len := uri_previous_segment uri in Ok (take len uri).

Definition svn_uri_basename (uri : list byte) : list byte :=
  if svn_uri_is_root uri then []
  else svn_path_uri_decode (drop (segment_start uri (length uri)) uri).

Definition svn_uri_split (uri : list byte) : result (list byte * list byte) :=
  let! dirpath := svn_uri_dirname uri in
  Ok (dirpath, svn_uri_basename uri).

(** ** Escaping byte by byte *)

Definition escape_byte (table : uri_table) (c : byte) : list byte :=
  if table_at table c then [c] else escaped c.

Definition escape_bytes (table : uri_table) s : list byte := concat (map (escape_byte table) s).

Lemma uri_escape_loop_ok s table copied retstr :
  let '(copied', retstr') := uri_escape_loop s table copied retstr in
  retstr' ++ copied' = retstr ++ copied ++ escape_bytes table s
  ∧ (retstr' = [] → retstr = [] ∧ copied' = copied ++ s).
Proof.
  revert copied retstr; induction s as [|c s IH]; intros copied retstr.
  { simpl. by rewrite !app_nil_r. }
  cbn [uri_escape_loop]. change (escape_bytes table (c :: s)) with (escape_byte table c ++ escape_bytes table s).
  unfold escape_byte. destruct (table_at table c).
  - specialize (IH (copied ++ [c]) retstr). destruct (uri_escape_loop _ _ _ _) as [copied' retstr'].
    destruct IH as [-> IH]. split; [by rewrite <- !app_assoc|]. intros Hn. destruct (IH Hn) as [-> ->].
    by rewrite <- app_assoc.
  - specialize (IH [] (retstr ++ copied ++ escaped c)).
    destruct (uri_escape_loop _ _ _ _) as [copied' retstr']. destruct IH as [-> IH].
    split; [by rewrite <- !app_assoc|]. intros Hn. destruct (IH Hn) as [Hf _].
    apply app_eq_nil in Hf as [_ Hf]. by apply app_eq_nil in Hf as [_ Hf].
Qed.

Lemma uri_escape_bytes s table : uri_escape s table = escape_bytes table s.
Proof.
  unfold uri_escape. pose proof (uri_escape_loop_ok s table [] []) as H.
  destruct (uri_escape_loop s table [] []) as [copied retstr]. destruct H as [H Hnil]. simpl in H.
  destruct retstr as [|c retstr]; [|done]. destruct (Hnil eq_refl) as [_ ->]. by rewrite <- H.
Qed.

Lemma escaped_xdigits c :
  ∃ d1 d2, escaped c = ["%"%byte; d1; d2] ∧ svn_ctype_isxdigit d1 = true ∧ svn_ctype_isxdigit d2 = true
    ∧ strtol_hex2 d1 d2 = c.
Proof. do 2 eexists. split; [done|]. by destruct c. Qed.

Lemma decode_escaped c s q : uri_decode_loop (escaped c ++ s) q = c :: uri_decode_loop s q.
Proof.
  destruct (escaped_xdigits c) as (d1 & d2 & -> & H1 & H2 & Hc). cbn [app uri_decode_loop].
  change ("%"%byte =b? "?"%byte) with false. change ("%"%byte =b? "+"%byte) with false.
  rewrite byte_eqb_refl, H1, H2. cbn [andb]. by rewrite Hc.
Qed.

Lemma decode_plain c s q :
  c ≠ "?"%byte → c ≠ "%"%byte → (c ≠ "+"%byte ∨ q = false) →
  uri_decode_loop (c :: s) q = c :: uri_decode_loop s q.
Proof.
  intros H1 H2 H3. cbn [uri_decode_loop]. rewrite (proj2 (byte_eqb_ne c "?"%byte)) by done.
  rewrite (proj2 (byte_eqb_ne c "%"%byte)) by done.
  assert ((c =b? "+"%byte) && q = false) as ->.
  { destruct H3 as [H3| ->]; [by rewrite (proj2 (byte_eqb_ne c "+"%byte))|apply andb_false_r]. }
  by destruct s as [|d1 [|d2 s]].
Qed.

(** *** Encoding is undone by decoding *)

Lemma valid_not_special c :
  table_at svn_uri__char_validity c = true → c ≠ "?"%byte ∧ c ≠ "%"%byte.
Proof. by destruct c. Qed.

Lemma decode_encode s : svn_path_uri_decode (svn_path_uri_encode s) = s.
Proof.
  unfold svn_path_uri_decode, svn_path_uri_encode. rewrite uri_escape_bytes.
  induction s as [|c s IH]; [done|].
  change (escape_bytes svn_uri__char_validity (c :: s)) with
    (escape_byte svn_uri__char_validity c ++ escape_bytes svn_uri__char_validity s).
  unfold escape_byte. destruct (table_at svn_uri__char_validity c) eqn:Hc.
  - apply valid_not_special in Hc as [H1 H2]. cbn [app]. rewrite decode_plain, IH; auto.
  - by rewrite decode_escaped, IH.
Qed.

Lemma encoded_safe s : uri_safe_loop (svn_path_uri_encode s) = true.
Proof.
  unfold svn_path_uri_encode. rewrite uri_escape_bytes. induction s as [|c s IH]; [done|].
  change (escape_bytes svn_uri__char_validity (c :: s)) with
    (escape_byte svn_uri__char_validity c ++ escape_bytes svn_uri__char_validity s).
  unfold escape_byte. destruct (table_at svn_uri__char_validity c) eqn:Hc.
  - pose proof (valid_not_special c Hc) as [_ H2]. cbn [app uri_safe_loop].
    by rewrite (proj2 (byte_eqb_ne c "%"%byte)), Hc.
  - destruct (escaped_xdigits c) as (d1 & d2 & -> & H1 & H2 & _). cbn [app uri_safe_loop].
    by rewrite byte_eqb_refl, H1, H2.
Qed.

Lemma encoded_no_slash s : SLASH ∉ s → SLASH ∉ svn_path_uri_encode s.
Proof.
  intros Hs. unfold svn_path_uri_encode. rewrite uri_escape_bytes. induction s as [|c s IH]; [done|].
  change (escape_bytes svn_uri__char_validity (c :: s)) with
    (escape_byte svn_uri__char_validity c ++ escape_bytes svn_uri__char_validity s).
  apply not_elem_of_cons in Hs as [Hc Hs]. intros [Hin|Hin]%elem_of_app; [|by apply IH].
  revert Hc Hin. clear. unfold escape_byte. destruct (table_at svn_uri__char_validity c); intros Hc.
  - intros Hin. apply list_elem_of_singleton in Hin. done.
  - destruct (escaped_xdigits c) as (d1 & d2 & -> & H1 & H2 & _). rewrite !elem_of_cons.
    intros [H|[H|[H|H]]]; [done|by subst|by subst|by apply elem_of_nil in H].
Qed.

(** *** Escaping more of a URI does not change what it decodes to *)

Definition keeps_special (table : uri_table) : Prop :=
  ∀ c, c = "%"%byte ∨ c = "?"%byte ∨ c = "+"%byte ∨ svn_ctype_isxdigit c = true → table_at table c = true.

Lemma escape_bytes_head table c s :
  ∃ d t, escape_bytes table (c :: s) = d :: t
    ∧ (table_at table c = true → d = c ∧ t = escape_bytes table s)
    ∧ (table_at table c = false → d = "%"%byte).
Proof.
  change (escape_bytes table (c :: s)) with (escape_byte table c ++ escape_bytes table s).
  unfold escape_byte. destruct (table_at table c).
  - exists c, (escape_bytes table s). by split.
  - destruct (escaped_xdigits c) as (d1 & d2 & -> & _). by eexists _, _.
Qed.

(** After a percent sign that does not start an escape, none appears. *)
Lemma no_new_escape table s q :
  (∀ d1 d2 r, s = d1 :: d2 :: r → svn_ctype_isxdigit d1 && svn_ctype_isxdigit d2 = false) →
  uri_decode_loop ("%"%byte :: escape_bytes table s) q = "%"%byte :: uri_decode_loop (escape_bytes table s) q.
Proof.
  intros Hno. cbn [uri_decode_loop]. change ("%"%byte =b? "?"%byte) with false.
  change ("%"%byte =b? "+"%byte) with false. rewrite byte_eqb_refl. cbn [andb].
  destruct s as [|c1 s]; [done|].
  destruct (escape_bytes_head table c1 s) as (d1 & t & -> & Hk1 & He1). destruct (table_at table c1).
  - destruct (Hk1 eq_refl) as [-> ->]. destruct s as [|c2 s]; [done|].
    destruct (escape_bytes_head table c2 s) as (d2 & t & -> & Hk2 & He2). destruct (table_at table c2).
    + destruct (Hk2 eq_refl) as [-> _]. by rewrite (Hno _ _ _ eq_refl).
    + rewrite (He2 eq_refl). by rewrite andb_false_r.
  - rewrite (He1 eq_refl). by destruct t.
Qed.

Lemma decode_escape_bytes table s q :
  keeps_special table → uri_decode_loop (escape_bytes table s) q = uri_decode_loop s q.
Proof.
  intros Ht. remember (length s) as n eqn:Hn. revert s q Hn.
  induction n as [n IH] using lt_wf_ind; intros s q ->. destruct s as [|c s]; [done|].
  assert (∀ s' q, (length s' < length (c :: s))%nat →
    uri_decode_loop (escape_bytes table s') q = uri_decode_loop s' q) as IH'.
  { intros s' q' Hl. by apply (IH (length s')). }
  clear IH. change (escape_bytes table (c :: s)) with (escape_byte table c ++ escape_bytes table s).
  unfold escape_byte. destruct (table_at table c) eqn:Hc.
  2:{ assert (c ≠ "?"%byte ∧ c ≠ "%"%byte ∧ c ≠ "+"%byte) as (H1 & H2 & H3).
      { repeat split; intros ->; rewrite Ht in Hc by auto; done. }
      rewrite decode_escaped, IH' by (simpl; lia). by rewrite decode_plain by auto. }
  cbn [app]. destruct (byte_eqb_spec c "?"%byte) as [->|Hq].
  { cbn [uri_decode_loop]. rewrite byte_eqb_refl, IH' by (simpl; lia). done. }
  destruct (byte_eqb_spec c "%"%byte) as [->|Hp].
  2:{ cbn [uri_decode_loop]. rewrite (proj2 (byte_eqb_ne c "?"%byte)), (proj2 (byte_eqb_ne c "%"%byte)) by done.
      cbn [andb]. destruct ((c =b? "+"%byte) && q); [by rewrite IH' by (simpl; lia)|].
      rewrite <- (IH' s q) by (simpl; lia). destruct (escape_bytes table s) as [|? [|? ?]], s as [|? [|? ?]]; done. }
  destruct s as [|d1 [|d2 r]]; [done|by rewrite no_new_escape, IH' by (done || (simpl; lia))|].
  destruct (svn_ctype_isxdigit d1 && svn_ctype_isxdigit d2) eqn:Hd.
  - pose proof Hd as [H1 H2]%andb_true_iff.
    change (escape_bytes table (d1 :: d2 :: r)) with
      (escape_byte table d1 ++ escape_byte table d2 ++ escape_bytes table r).
    unfold escape_byte. rewrite !Ht by auto. cbn [app uri_decode_loop].
    change ("%"%byte =b? "?"%byte) with false. change ("%"%byte =b? "+"%byte) with false.
    rewrite byte_eqb_refl, H1, H2. cbn [andb]. by rewrite IH' by (simpl; lia).
  - rewrite no_new_escape by (intros ??? [= <- <- <-]; done). rewrite IH' by (simpl; lia).
    cbn [uri_decode_loop]. change ("%"%byte =b? "?"%byte) with false.
    change ("%"%byte =b? "+"%byte) with false. rewrite byte_eqb_refl. cbn [andb]. by rewrite Hd.
Qed.

Lemma autoescape_keeps : keeps_special uri_autoescape_chars.
Proof. intros c [->|[->|[->|H]]]; [done..|]. revert H. by destruct c. Qed.

Lemma iri_keeps : keeps_special iri_escape_chars.
Proof. intros c [->|[->|[->|H]]]; [done..|]. revert H. by destruct c. Qed.

(** ** The last segment of a URI *)

Lemma hostname_end_app host t i :
  SLASH ∉ host → hostname_end (host ++ SLASH :: t) i = (i + length host)%nat.
Proof.
  revert i; induction host as [|c host IH]; intros i Hh; cbn [app hostname_end]; [by rewrite byte_eqb_refl, Nat.add_0_r|].
  apply not_elem_of_cons in Hh as [Hc Hh]. rewrite (proj2 (byte_eqb_ne c SLASH)) by done.
  rewrite IH by done. simpl. lia.
Qed.

(** A scheme, and a host that [file] URIs leave empty. *)
Definition uri_root (scheme host : list byte) : Prop :=
  scheme ≠ [] ∧ ":"%byte ∉ scheme ∧ SLASH ∉ scheme ∧ SLASH ∉ host
  ∧ (scheme = String.list_byte_of_string "file" → host = []).

Definition root_text (scheme host : list byte) : list byte := scheme ++ String.list_byte_of_string "://" ++ host.

Lemma root_loop_scheme uri s t before i :
  SLASH ∉ s → uri_schema_root_loop uri (s ++ t) before i
  = uri_schema_root_loop uri t (default before (last s)) (i + length s).
Proof.
  revert before i; induction s as [|c s IH]; intros before i Hs; [by rewrite Nat.add_0_r|].
  apply not_elem_of_cons in Hs as [Hc Hs]. cbn [app uri_schema_root_loop].
  rewrite (proj2 (byte_eqb_ne c SLASH)), IH by done. simpl length. rewrite Nat.add_succ_r. f_equal.
  destruct s as [|d s]; [done|]. rewrite last_cons_cons. by destruct (last (d :: s)) eqn:Hl; [|apply last_None in Hl].
Qed.

Lemma uri_schema_root_length_root scheme host t :
  uri_root scheme host →
  uri_schema_root_length (root_text scheme host ++ SLASH :: t) = length (root_text scheme host).
Proof.
  intros (Hne & Hc & Hs & Hh & Hfile). unfold uri_schema_root_length, root_text.
  remember (String.list_byte_of_string "://") as sep eqn:Esep.
  assert ((scheme ++ sep ++ host) ++ SLASH :: t
    = (scheme ++ [":"%byte]) ++ SLASH :: SLASH :: host ++ SLASH :: t) as ->.
  { subst sep. by rewrite <- !app_assoc. }
  rewrite root_loop_scheme.
  2:{ intros [H|H]%elem_of_app; [done|]. by apply list_elem_of_singleton in H. }
  rewrite last_snoc. simpl default. cbn [uri_schema_root_loop]. rewrite !byte_eqb_refl.
  change (deref (SLASH :: ?p) =b? SLASH) with true. rewrite bool_decide_eq_false_2 by done.
  rewrite length_app. simpl length. rewrite (proj2 (Nat.ltb_lt _ _)) by lia. cbn [andb negb].
  change (drop 1 (SLASH :: ?p)) with p. rewrite hostname_end_app by done.
  rewrite !length_app. subst sep. simpl length.
  destruct (Nat.eqb_spec (0 + (length scheme + 1)) 5) as [H5|]; cbn [andb]; [|lia].
  case_bool_decide as Hf; [|lia].
  assert (scheme = String.list_byte_of_string "file") as ->.
  { rewrite <- app_assoc, take_app_le, firstn_all2 in Hf by lia. done. }
  by rewrite Hfile.
Qed.

Lemma uri_back_app s seg k :
  SLASH ∉ seg → (k <= length seg)%nat → uri_back (s ++ SLASH :: seg) (length s + k) = Ok (length s).
Proof.
  intros Hs. induction k as [|k IH]; intros Hk.
  - assert (path_at (s ++ SLASH :: seg) (length s + 0) =b? SLASH = true) as H by by rewrite path_at_app_r.
    rewrite Nat.add_0_r in *. destruct (length s); cbn [uri_back]; by rewrite H.
  - rewrite Nat.add_succ_r. cbn [uri_back]. rewrite <- Nat.add_succ_r, path_at_app_r.
    change (path_at (SLASH :: seg) (S k)) with (path_at seg k).
    rewrite path_at_not_slash by (done || lia). apply IH. lia.
Qed.

(** A segment is encoded when it is added to a URI, and decoded when it is taken off. *)
Lemma svn_uri_split_encoded scheme host t seg :
  uri_root scheme host → (t = [] ∨ ∃ t', t = SLASH :: t') → SLASH ∉ seg → seg ≠ [] →
  let base := root_text scheme host ++ t in
  svn_uri_split (base ++ SLASH :: svn_path_uri_encode seg) = Ok (base, seg).
Proof.
  intros Hroot Ht Hs Hne base. pose proof (encoded_no_slash seg Hs) as Hes.
  assert (uri_schema_root_length (base ++ SLASH :: svn_path_uri_encode seg) = length (root_text scheme host)) as Hlen.
  { subst base. rewrite <- app_assoc. destruct Ht as [->|[t' ->]]; [by apply uri_schema_root_length_root|].
    cbn [app]. by apply uri_schema_root_length_root. }
  assert (length (root_text scheme host) <= length base)%nat as Hle by (subst base; rewrite length_app; lia).
  unfold svn_uri_split, svn_uri_dirname, svn_uri_basename, svn_uri_is_root. rewrite Hlen.
  rewrite (proj2 (Nat.eqb_neq _ _)) by (rewrite length_app; simpl; lia). cbn [rbind].
  assert (1 < length base)%nat as Hbase.
  { destruct Hroot as (Hn & _). unfold root_text in Hle. rewrite !length_app in Hle. simpl in Hle. lia. }
  assert (uri_previous_segment (base ++ SLASH :: svn_path_uri_encode seg) = Ok (length base)) as ->.
  { unfold uri_previous_segment. rewrite Hlen, length_app. simpl length. rewrite Nat.add_succ_r.
    rewrite (proj2 (Nat.ltb_lt _ _)), uri_back_app by (done || lia). cbn [rbind].
    by rewrite (proj2 (Nat.eqb_neq (length base) 0)) by lia. }
  cbn [rbind]. rewrite take_app_length, length_app. simpl length.
  rewrite Nat.add_succ_r, segment_start_app by done.
  rewrite <- Nat.add_1_r, drop_app_add. change (drop 1 (SLASH :: ?p)) with p. by rewrite decode_encode.
Qed.

(** Decoding inverts the encoding of any path, and the two other escaping
    functions do not change what a URI decodes to; an encoded path below a
    root makes a safe URI, and splitting off an encoded last segment gives
    the segment back. *)
Theorem svn_path_uri_encode_decode (path scheme host t seg : list byte) :
  uri_root scheme host → (t = [] ∨ ∃ t', t = SLASH :: t') → SLASH ∉ seg → seg ≠ [] →
  svn_path_uri_decode (svn_path_uri_encode path) = path
  ∧ svn_path_uri_decode (svn_path_uri_autoescape path) = svn_path_uri_decode path
  ∧ svn_path_uri_decode (svn_path_uri_from_iri path) = svn_path_uri_decode path
  ∧ svn_path_is_uri_safe (root_text scheme host ++ SLASH :: svn_path_uri_encode path) = true
  ∧ svn_uri_split ((root_text scheme host ++ t) ++ SLASH :: svn_path_uri_encode seg)
    = Ok (root_text scheme host ++ t, seg).
Proof.
  intros Hroot Ht Hs Hne. split; [apply decode_encode|].
  unfold svn_path_uri_autoescape, svn_path_uri_from_iri, svn_path_uri_decode. rewrite !uri_escape_bytes.
  split; [apply decode_escape_bytes, autoescape_keeps|]. split; [apply decode_escape_bytes, iri_keeps|].
  split; [|by apply svn_uri_split_encoded]. destruct Hroot as (Hn & Hc & Hsl & Hh & _).
  unfold svn_path_is_uri_safe, skip_uri_scheme, root_text.
  assert (∀ j rest, (0 < j + length scheme)%nat →
    skip_uri_scheme_loop (scheme ++ ":"%byte :: SLASH :: SLASH :: rest) j = Some rest) as Hskip.
  { clear - Hc Hsl. induction scheme as [|c s IH]; intros j rest Hj; cbn [app skip_uri_scheme_loop].
    - rewrite byte_eqb_refl. change (deref (SLASH :: ?p) =b? SLASH) with true.
      change (drop 1 (SLASH :: ?p)) with p. change (deref (SLASH :: ?p) =b? SLASH) with true.
      by rewrite (proj2 (Nat.ltb_lt 0 j)) by (simpl in Hj; lia).
    - apply not_elem_of_cons in Hc as [Hc1 Hc], Hsl as [Hs1 Hsl].
      rewrite (proj2 (byte_eqb_ne c ":"%byte)), (proj2 (byte_eqb_ne c SLASH)) by done.
      apply IH; [done..|lia]. }
  rewrite <- !app_assoc. change (String.list_byte_of_string "://" ++ ?p) with (":"%byte :: SLASH :: SLASH :: p).
  rewrite Hskip by (destruct scheme; [done|simpl; lia]). rewrite strchr_app by done.
  cbn [uri_safe_loop]. change (SLASH =b? "%"%byte) with false.
  change (table_at svn_uri__char_validity SLASH) with true. apply encoded_safe.
Qed.

Lemma svn_path_uri_encode_decode_witness :
  let p := String.list_byte_of_string in
  svn_path_uri_decode (svn_path_uri_encode (p "a b?c%+")) = p "a b?c%+"
  ∧ svn_uri_split (p "http://svn.example.org/r" ++ SLASH :: svn_path_uri_encode (p "50% off"))
    = Ok (p "http://svn.example.org/r", p "50% off").
Proof.
  destruct (svn_path_uri_encode_decode (String.list_byte_of_string "a b?c%+") (String.list_byte_of_string "http")
    (String.list_byte_of_string "svn.example.org") (String.list_byte_of_string "/r")
    (String.list_byte_of_string "50% off")) as (H1 & _ & _ & _ & H2).
  - repeat split; vm_compute; set_solver.
  - right. exists (String.list_byte_of_string "r"). reflexivity.
  - vm_compute. set_solver.
  - done.
  - split; [exact H1|exact H2].
Defined.

(** [uri_previous_segment] tests [len] where it means [i].  Only the precondition
    that the URI is canonical, and so has slashes, keeps it from reading before
    the start. *)
Lemma svn_uri_dirname_no_slash : svn_uri_dirname (String.list_byte_of_string "abc") = Undefined.
Proof. vm_compute. reflexivity. Qed.
