(* ===== verification/Subst.v ===== *)
(** * Translation of line ends and keywords

    [src/subversion/libsvn_subr/subst.c]: the streaming translation of texts
    between their repository and their working form.  Line ends become a given
    string, and keywords between dollar signs are expanded with their values, or
    contracted.  A text is translated in chunks; a line end or a keyword that may
    continue in the next chunk is kept in buffers of the baton.

    A stream that is written to is the list of the bytes written so far, as with
    [svn_stream_from_stringbuf]; files, special files and UTF-8 conversions are
    not modelled. *)
From S2P Require Import Prelude Cstrings Paths.

Implicit Types (buf name value s out : list byte).

Definition CR : byte := x0d.
Definition LF : byte := x0a.
Definition DOLLAR : byte := "$"%byte.

(** ** Line-end styles *)

Inductive svn_subst_eol_style_t :=
  | svn_subst_eol_style_unknown | svn_subst_eol_style_none
  | svn_subst_eol_style_native | svn_subst_eol_style_fixed.

(** On POSIX systems. *)
Definition APR_EOL_STR : list byte := [LF].
Definition SVN_SUBST_NATIVE_EOL_STR : list byte := [LF].

(** Returns [*style] and [*eol]. *)
Definition svn_subst_eol_style_from_value (value : option (list byte))
    : svn_subst_eol_style_t * option (list byte) :=
  match value with
  | None => (svn_subst_eol_style_none, None)
  | Some value =>
      if bool_decide (value = bytes_of "native") then (svn_subst_eol_style_native, Some APR_EOL_STR)
      else if bool_decide (value = bytes_of "LF") then (svn_subst_eol_style_fixed, Some [LF])
      else if bool_decide (value = bytes_of "CR") then (svn_subst_eol_style_fixed, Some [CR])
      else if bool_decide (value = bytes_of "CRLF") then (svn_subst_eol_style_fixed, Some [CR; LF])
      else (svn_subst_eol_style_unknown, None)
  end.

Definition is_style (a b : svn_subst_eol_style_t) : bool :=
  match a, b with
  | svn_subst_eol_style_unknown, svn_subst_eol_style_unknown
  | svn_subst_eol_style_none, svn_subst_eol_style_none
  | svn_subst_eol_style_native, svn_subst_eol_style_native
  | svn_subst_eol_style_fixed, svn_subst_eol_style_fixed => true
  | _, _ => false
  end.

(** [keywords] is a hash of expansions, [None] for a null pointer. *)
Definition keywords_t : Type := gmap (list byte) (list byte).

(** [eol] is not null when the style is fixed. *)
Definition svn_subst_translation_required (style : svn_subst_eol_style_t) (eol : list byte)
    (keywords : option keywords_t) (special force_eol_check : bool) : bool :=
  special || bool_decide (keywords ≠ None)
  || (negb (is_style style svn_subst_eol_style_none) && force_eol_check)
  || (is_style style svn_subst_eol_style_native
      && negb (bool_decide (APR_EOL_STR = SVN_SUBST_NATIVE_EOL_STR)))
  || (is_style style svn_subst_eol_style_fixed && negb (bool_decide (APR_EOL_STR = eol))).

(** ** Keywords in the keyword buffer *)

Definition SVN_KEYWORD_MAX_LEN : nat := 255.

(** [strncpy (dst, src, n)] of a terminated string: what it stores. *)
Definition strncpy (src : list byte) (n : nat) : list byte :=
  let src := take n (cstring src) in src ++ replicate (n - length src) NUL.

(** The loop that overwrites with spaces up to the next dollar sign. *)
Fixpoint fill_spaces s : list byte :=
  match s with
  | [] => []
  | c :: rest => if c =b? DOLLAR then s else " "%byte :: fill_spaces rest
  end.

Definition buf_at buf (i : nat) : byte := deref (drop i buf).

(** What an expansion writes has to fit the buffer. *)
Definition fit buf : result (list byte) :=
  if (length buf <=? SVN_KEYWORD_MAX_LEN)%nat then Ok buf else Undefined.

(** ["$keyword: value $"], with the value cut to [max] bytes. *)
Definition expanded (keyword value : list byte) (max : nat) : list byte :=
  DOLLAR :: keyword ++ bytes_of ": "
  ++ match value with
     | [] => [DOLLAR]
     | _ => strncpy value (Nat.min (length value) max) ++ [" "%byte; DOLLAR]
     end.

(** [buf] holds [*len] bytes; [None] for [FALSE].  [keyword] is what [buf] has
    after its first byte, as the code checks. *)
Definition translate_keyword_subst buf (keyword : list byte) (value : option (list byte))
    : result (option (list byte)) :=
  let len := length buf in
  let keyword_len := length keyword in
  assert! (len <=? SVN_KEYWORD_MAX_LEN)%nat in
  assert! (buf_at buf 0 =b? DOLLAR) && (buf_at buf (len - 1) =b? DOLLAR) in
  if (len <? keyword_len + 2)%nat then Ok None
  else if negb (bool_decide (take keyword_len (drop 1 buf) = keyword)) then Ok None
  else
    let ptr := (1 + keyword_len)%nat in
    if (buf_at buf ptr =b? ":"%byte) && (buf_at buf (ptr + 1) =b? ":"%byte)
       && (buf_at buf (ptr + 2) =b? " "%byte)
       && ((buf_at buf (len - 2) =b? " "%byte) || (buf_at buf (len - 2) =b? "#"%byte))
       && (6 + keyword_len <? len)%nat then
      let max_value_len := (len - (6 + keyword_len))%nat in
      match value with
      | None => Ok (Some (take (ptr + 2) buf ++ fill_spaces (drop (ptr + 2) buf)))
      | Some value =>
          let vlen := length value in
          if (vlen <=? max_value_len)%nat then
            Ok (Some (take (ptr + 3) buf ++ strncpy value vlen
                      ++ fill_spaces (drop (ptr + 3 + vlen) buf)))
          else
            Ok (Some (take (ptr + 3) buf ++ strncpy value max_value_len ++ ["#"%byte; DOLLAR]))
      end
    else if buf_at buf ptr =b? DOLLAR then
      match value with
      | Some value =>
          let! buf := fit (expanded keyword value (SVN_KEYWORD_MAX_LEN - 5 - keyword_len)) in
          Ok (Some buf)
      | None => Ok (Some buf)
      end
    else if ((4 + keyword_len <=? len)%nat && (buf_at buf ptr =b? ":"%byte)
             && (buf_at buf (ptr + 1) =b? " "%byte) && (buf_at buf (len - 2) =b? " "%byte))
         || ((3 + keyword_len <=? len)%nat && (buf_at buf ptr =b? ":"%byte)
             && (buf_at buf (ptr + 1) =b? DOLLAR)) then
      match value with
      | None => Ok (Some (take ptr buf ++ [DOLLAR]))
      | Some value =>
          let! buf := fit (expanded keyword value (SVN_KEYWORD_MAX_LEN - 5)) in
          Ok (Some buf)
      end
    else Ok None.

(** The bytes from [buf + 1] up to the first colon, or to the last byte but one. *)
Fixpoint keyword_until s (n : nat) : list byte :=
  match n, s with
  | S n, c :: s => if c =b? ":"%byte then [] else c :: keyword_until s n
  | _, _ => []
  end.

(** The name is a C string: it ends at a NUL byte of the text. *)
Definition keyword_name buf : list byte := cstring (keyword_until (drop 1 buf) (length buf - 2)).

Definition match_keyword buf (keywords : option keywords_t) : bool :=
  match keywords with
  | None => false
  | Some keywords => bool_decide (keywords !! keyword_name buf ≠ None)
  end.

Definition translate_keyword buf name (expand : bool) (keywords : option keywords_t)
    : result (option (list byte)) :=
  assert! (length buf <=? SVN_KEYWORD_MAX_LEN)%nat in
  assert! (buf_at buf 0 =b? DOLLAR) && (buf_at buf (length buf - 1) =b? DOLLAR) in
  match keywords with
  | None => Ok None
  | Some keywords =>
      match keywords !! name with
      | Some value => translate_keyword_subst buf name (if expand then Some value else None)
      | None => Ok None
      end
  end.

(** ** The translation baton *)

Inductive svn_tristate_t := svn_tristate_false | svn_tristate_true | svn_tristate_unknown.

Record translation_baton := MkBaton {
  eol_str : option (list byte);
  translated_eol : option bool;
  repair : bool;
  keywords : option keywords_t;
  expand : bool;
  newline_buf : list byte;
  keyword_buf : list byte;
  src_format : list byte;
  nl_translation_skippable : svn_tristate_t;
}.

Definition set_newline_buf (b : translation_baton) nl : translation_baton :=
  MkBaton (eol_str b) (translated_eol b) (repair b) (keywords b) (expand b) nl
    (keyword_buf b) (src_format b) (nl_translation_skippable b).

Definition set_keyword_buf (b : translation_baton) kw : translation_baton :=
  MkBaton (eol_str b) (translated_eol b) (repair b) (keywords b) (expand b) (newline_buf b)
    kw (src_format b) (nl_translation_skippable b).

Definition set_translated (b : translation_baton) (t : option bool) format : translation_baton :=
  MkBaton (eol_str b) t (repair b) (keywords b) (expand b) (newline_buf b)
    (keyword_buf b) format (nl_translation_skippable b).

Definition set_skippable (b : translation_baton) (t : svn_tristate_t) : translation_baton :=
  MkBaton (eol_str b) (translated_eol b) (repair b) (keywords b) (expand b) (newline_buf b)
    (keyword_buf b) (src_format b) t.

Definition create_translation_baton (eol_str : option (list byte)) (translated_eol : option bool)
    (repair : bool) (keywords : option keywords_t) (expand : bool) : translation_baton :=
  let keywords :=
    match keywords with
    | Some kw => if (size kw =? 0)%nat then None else Some kw
    | None => None
    end in
  MkBaton eol_str translated_eol repair keywords expand [] [] [] svn_tristate_unknown.

(** [b->interesting[(unsigned char) c]]. *)
Definition interesting (b : translation_baton) (c : byte) : bool :=
  (bool_decide (keywords b ≠ None) && (c =b? DOLLAR))
  || (bool_decide (eol_str b ≠ None) && ((c =b? CR) || (c =b? LF))).

(** A null [eol_str] has length 0 and is not read. *)
Definition eol (b : translation_baton) : list byte := default [] (eol_str b).

Definition STRING_IS_EOL (str : list byte) : bool :=
  bool_decide (str = [CR; LF]) || bool_decide (str = [LF]) || bool_decide (str = [CR]).

Definition DIFFERENT_EOL_STRINGS (eol1 eol2 : list byte) : bool :=
  negb (length eol1 =? length eol2)%nat || negb (deref eol1 =b? deref eol2).

(** [newline] is the newline buffer's content. *)
Definition translate_newline (b : translation_baton) newline out
    : result (translation_baton * list byte) :=
  assert! STRING_IS_EOL newline in
  let! format :=
    match src_format b with
    | [] => Ok newline
    | _ =>
        if negb (repair b) && DIFFERENT_EOL_STRINGS (src_format b) newline
        then Error SVN_ERR_IO_INCONSISTENT_EOL else Ok (src_format b)
    end in
  let t :=
    match translated_eol b with
    | Some _ => if bool_decide (eol b ≠ newline) then Some true else translated_eol b
    | None => None
    end in
  Ok (set_translated b t format, out ++ eol b).

(** For [eol_str] that is not null: otherwise the first byte is read from it. *)
Definition eol_unchanged (b : translation_baton) buf : result bool :=
  match eol_str b with
  | None => Undefined
  | Some eol_str =>
      let first := deref buf in
      let second := deref (drop 1 buf) in
      if negb (first =b? deref eol_str) then Ok false
      else if (length eol_str =? 2)%nat then Ok (second =b? deref (drop 1 eol_str))
      else Ok (negb (interesting b second) || (first =b? second))
  end.

(** *** Looking for interesting bytes *)

(** Four bytes at once. *)
Fixpoint skip_words (b : translation_baton) buf : nat :=
  match buf with
  | c0 :: c1 :: c2 :: c3 :: rest =>
      if interesting b c0 || interesting b c1 || interesting b c2 || interesting b c3 then 0%nat
      else (4 + skip_words b rest)%nat
  | _ => 0%nat
  end.

Fixpoint skip_bytes (b : translation_baton) buf : nat :=
  match buf with
  | [] => 0%nat
  | c :: rest => if interesting b c then 0%nat else S (skip_bytes b rest)
  end.

(** The [do] loop over the bytes from [p] on: the new [len]. *)
Fixpoint scan_loop (fuel : nat) (b : translation_baton) rest (len : nat) : result nat :=
  match fuel with
  | O => OutOfFuel
  | S fuel =>
      let len := (len + skip_words b (drop len rest))%nat in
      let len := (len + skip_bytes b (drop len rest))%nat in
      let again :=
        match nl_translation_skippable b with
        | svn_tristate_true => (len + 2 <? length rest)%nat
        | _ => false
        end in
      if again then
        let! unchanged := eol_unchanged b (drop len rest) in
        if unchanged then scan_loop fuel b rest (len + length (eol b)) else Ok len
      else Ok len
  end.

Definition update_skippable (b : translation_baton) : translation_baton :=
  match nl_translation_skippable b with
  | svn_tristate_unknown =>
      match src_format b with
      | [] => b
      | _ =>
          if bool_decide (eol b = src_format b) then set_skippable b svn_tristate_true
          else if repair b then set_skippable b svn_tristate_true
          else set_skippable b svn_tristate_false
      end
  | _ => b
  end.

(** *** Chunks *)

(** [p] and [next_sign_off] of the loop, with the baton and the output. *)
Record chunk_state := MkChunk {
  cs_baton : translation_baton;
  cs_out : list byte;
  cs_p : nat;
  next_sign_off : nat;
}.

(** Appends a byte to the keyword buffer, an array of [SVN_KEYWORD_MAX_LEN]. *)
Definition keyword_push (b : translation_baton) (c : byte) : result translation_baton :=
  if (length (keyword_buf b) <? SVN_KEYWORD_MAX_LEN)%nat
  then Ok (set_keyword_buf b (keyword_buf b ++ [c])) else Undefined.

Definition flush_keyword (b : translation_baton) out : translation_baton * list byte :=
  (set_keyword_buf b [], out ++ keyword_buf b).

(** A second dollar sign, at [p]. *)
Definition at_dollar (b : translation_baton) out (p next_sign : nat) : result (bool * chunk_state) :=
  let! b1 := keyword_push b DOLLAR in
  if match_keyword (keyword_buf b1) (keywords b) then
    let! translated :=
      translate_keyword (keyword_buf b1) (keyword_name (keyword_buf b1)) (expand b) (keywords b) in
    match translated with
    | Some kw =>
        let '(b, out) := flush_keyword (set_keyword_buf b1 kw) out in
        Ok (false, MkChunk b out (S p) 0)
    | None =>
        if (SVN_KEYWORD_MAX_LEN <=? length (keyword_buf b1))%nat then
          let '(b, out) := flush_keyword b1 out in
          Ok (false, MkChunk b out (S p) 0)
        else
          Ok (true, MkChunk b1 out (S p)
                (if (next_sign =? 0)%nat then (length (keyword_buf b1) - 1)%nat else next_sign))
    end
  else
    let '(b, out) := flush_keyword b out in
    Ok (false, MkChunk b out p 0).

(** A keyword that is too long or ends in a newline: back to the next dollar sign
    in it, if there is one in this chunk. *)
Definition no_keyword (b : translation_baton) out (p next_sign : nat) : result (bool * chunk_state) :=
  let keyword_off := length (keyword_buf b) in
  let! (b, p) :=
    if (0 <? next_sign)%nat then
      if (p <? keyword_off - next_sign)%nat then Undefined
      else Ok (set_keyword_buf b (take next_sign (keyword_buf b)), (p - (keyword_off - next_sign))%nat)
    else Ok (b, p) in
  let '(b, out) := flush_keyword b out in
  Ok (false, MkChunk b out p 0).

(** The first part of a round: [true] for [continue]. *)
Definition leave_interesting buf (cs : chunk_state) : result (bool * chunk_state) :=
  let b := cs_baton cs in
  let out := cs_out cs in
  let p := cs_p cs in
  let c := buf_at buf p in
  match newline_buf b with
  | _ :: _ =>
      let '(newline, p) := if c =b? LF then (newline_buf b ++ [c], S p) else (newline_buf b, p) in
      let! (b, out) := translate_newline b newline out in
      Ok (false, MkChunk (set_newline_buf b []) out p (next_sign_off cs))
  | [] =>
      match keyword_buf b with
      | [] => Ok (false, cs)
      | _ =>
          if c =b? DOLLAR then at_dollar b out p (next_sign_off cs)
          else if (length (keyword_buf b) =? SVN_KEYWORD_MAX_LEN - 1)%nat || (c =b? CR) || (c =b? LF) then
            let! (continue, cs) := no_keyword b out p (next_sign_off cs) in
            Ok (continue, cs)
          else
            let! b := keyword_push b c in
            Ok (true, MkChunk b out (S p) (next_sign_off cs))
      end
  end.

(** The rest of a round: copies boring bytes, then takes an interesting one. *)
Definition enter_interesting buf (cs : chunk_state) : result chunk_state :=
  let b := update_skippable (cs_baton cs) in
  let p := cs_p cs in
  let rest := drop p buf in
  let! len := scan_loop (S (length rest)) b rest 0 in
  let len := (len + skip_bytes b (drop len rest))%nat in
  let out := cs_out cs ++ take len rest in
  let p := (p + len)%nat in
  match drop len rest with
  | [] => Ok (MkChunk b out p (next_sign_off cs))
  | c :: _ =>
      if c =b? DOLLAR then
        let! b := keyword_push b c in
        Ok (MkChunk b out (S p) (next_sign_off cs))
      else if c =b? CR then Ok (MkChunk (set_newline_buf b (newline_buf b ++ [c])) out (S p) (next_sign_off cs))
      else if c =b? LF then
        let! (b, out) := translate_newline b (newline_buf b ++ [c]) out in
        Ok (MkChunk (set_newline_buf b []) out (S p) (next_sign_off cs))
      else Ok (MkChunk b out p (next_sign_off cs))
  end.

Fixpoint chunk_loop (fuel : nat) buf (cs : chunk_state) : result (translation_baton * list byte) :=
  if (length buf <=? cs_p cs)%nat then Ok (cs_baton cs, cs_out cs)
  else
    match fuel with
    | O => OutOfFuel
    | S fuel =>
        let! (continue, cs) := leave_interesting buf cs in
        let! cs := if (continue : bool) then Ok cs else enter_interesting buf cs in
        chunk_loop fuel buf cs
    end.

(** Every round makes this smaller: the text that is not decided yet counts more
    than the text that is not read yet. *)
Definition chunk_measure buf (cs : chunk_state) : nat :=
  ((length buf - cs_p cs + length (keyword_buf (cs_baton cs))) * 256 + (length buf - cs_p cs))%nat.

(** The flush at the end, for a null [buf]. *)
Definition translate_flush (b : translation_baton) out : result (translation_baton * list byte) :=
  let! (b, out) :=
    match newline_buf b with
    | [] => Ok (b, out)
    | newline =>
        let! (b, out) := translate_newline b newline out in
        Ok (set_newline_buf b [], out)
    end in
  match keyword_buf b with
  | [] => Ok (b, out)
  | _ => Ok (flush_keyword b out)
  end.

Definition translate_chunk (b : translation_baton) (buf : option (list byte)) out
    : result (translation_baton * list byte) :=
  match buf with
  | Some buf =>
      let cs := MkChunk b out 0 0 in
      chunk_loop (chunk_measure buf cs) buf cs
  | None => translate_flush b out
  end.


(** ** Translated streams

    The wrapped stream: what is left to read from it and what was written to it.
    Reading gives all the bytes asked for unless the stream ends. *)

Definition SVN__STREAM_CHUNK_SIZE : nat := N.to_nat 16384.

Record translated_stream_baton := MkStream {
  to_read : list byte;
  written_out : list byte;
  in_baton : translation_baton;
  out_baton : translation_baton;
  written : bool;
  readbuf : list byte;
  readbuf_off : nat;
}.

Definition stream_translated (to_read written_out : list byte) (eol_str : option (list byte))
    (translated_eol : option bool) (repair : bool) (keywords : option keywords_t) (expand : bool)
    : translated_stream_baton :=
  MkStream to_read written_out
    (create_translation_baton eol_str translated_eol repair keywords expand)
    (create_translation_baton eol_str translated_eol repair keywords expand) false [] 0.

Definition take_from (b : translated_stream_baton) (n : nat) : translated_stream_baton :=
  MkStream (to_read b) (written_out b) (in_baton b) (out_baton b) (written b) (readbuf b)
    (readbuf_off b + n).

(** Fills the read buffer: the new baton and the new [readlen]. *)
Definition fill_readbuf (b : translated_stream_baton) : result (translated_stream_baton * nat) :=
  let buf := take SVN__STREAM_CHUNK_SIZE (to_read b) in
  let readlen := length buf in
  let! (inb, readbuf) := translate_chunk (in_baton b) (Some buf) [] in
  let! (inb, readbuf) :=
    if negb (readlen =? SVN__STREAM_CHUNK_SIZE)%nat then translate_chunk inb None readbuf
    else Ok (inb, readbuf) in
  Ok (MkStream (drop SVN__STREAM_CHUNK_SIZE (to_read b)) (written_out b) inb (out_baton b)
        (written b) readbuf 0, readlen).

(** The loop: [buffer] has what was read so far. *)
Fixpoint read_loop (fuel : nat) (b : translated_stream_baton) (buffer : list byte)
    (readlen unsatisfied : nat) : result (translated_stream_baton * list byte) :=
  if (readlen =? SVN__STREAM_CHUNK_SIZE)%nat && (0 <? unsatisfied)%nat then
    match fuel with
    | O => OutOfFuel
    | S fuel =>
        let! (b, readlen) :=
          if negb (readbuf_off b <? length (readbuf b))%nat then fill_readbuf b else Ok (b, readlen) in
        let to_copy := Nat.min unsatisfied (length (readbuf b) - readbuf_off b) in
        read_loop fuel (take_from b to_copy)
          (buffer ++ take to_copy (drop (readbuf_off b) (readbuf b))) readlen (unsatisfied - to_copy)
    end
  else Ok (b, buffer).

(** The bytes read; their number is the new [*len].  Every round takes a byte from
    the read buffer, reads a full chunk, or is the last. *)
Definition translated_stream_read (b : translated_stream_baton) (len : nat)
    : result (translated_stream_baton * list byte) :=
  if (len =? 1)%nat && (readbuf_off b <? length (readbuf b))%nat then
    Ok (take_from b 1, [buf_at (readbuf b) (readbuf_off b)])
  else read_loop (S (len + length (to_read b))) b [] SVN__STREAM_CHUNK_SIZE len.

Definition translated_stream_write (b : translated_stream_baton) (buffer : list byte)
    : result translated_stream_baton :=
  let! (outb, out) := translate_chunk (out_baton b) (Some buffer) (written_out b) in
  Ok (MkStream (to_read b) out (in_baton b) outb true (readbuf b) (readbuf_off b)).

(** The wrapped stream is closed without an error. *)
Definition translated_stream_close (b : translated_stream_baton) : result translated_stream_baton :=
  if written b then
    let! (outb, out) := translate_chunk (out_baton b) None (written_out b) in
    Ok (MkStream (to_read b) out (in_baton b) outb true (readbuf b) (readbuf_off b))
  else Ok b.

(** Returns [*dst] and, where [translated_eol] is not null, [*translated_eol]: an
    early return leaves its old value [old]. *)
Definition translate_cstring (src : list byte) (old : option bool) (eol_str : option (list byte))
    (repair : bool) (keywords : option keywords_t) (expand : bool) : result (list byte * option bool) :=
  let src := cstring src in
  let has_keywords := match keywords with Some kw => (0 <? size kw)%nat | None => false end in
  if negb (bool_decide (eol_str ≠ None) || has_keywords) then Ok (src, old)
  else
    let b := stream_translated [] [] eol_str (option_map (λ _, false) old) repair keywords expand in
    let! b := translated_stream_write b src in
    let! b := translated_stream_close b in
    Ok (cstring (written_out b), Subst.translated_eol (out_baton b)).

Definition svn_subst_translate_cstring2 (src : list byte) (eol_str : option (list byte))
    (repair : bool) (keywords : option keywords_t) (expand : bool) : result (list byte) :=
  let! (dst, _) := translate_cstring src None eol_str repair keywords expand in Ok dst.
