(* ===== verification/SubstCorrect.v ===== *)
(** * What the translation does to a text

    However a text is cut into chunks, [translate_chunk] divides it into plain
    bytes, line ends and keywords, copies the first, replaces the others, and
    stays inside its keyword buffer; without keywords the division is unique.
    Expanding and contracting keywords are inverse on texts of the usual form. *)
From S2P Require Import Prelude Cstrings Paths Subst.

Implicit Types (buf name value s out rest total nl kw : list byte).

(** ** Pieces *)

Inductive piece := Plain (c : byte) | Newline (nl : list byte) | Keyword (kw kw' : list byte).

Definition source (x : piece) : list byte :=
  match x with Plain c => [c] | Newline nl => nl | Keyword kw _ => kw end.

Definition sources (ps : list piece) : list byte := concat (map source ps).

Fixpoint newlines (ps : list piece) : list (list byte) :=
  match ps with
  | [] => []
  | Newline nl :: ps => nl :: newlines ps
  | _ :: ps => newlines ps
  end.

(** A carriage return that was taken for a line end is followed by a byte that is
    not a line feed. *)
Fixpoint followed (ps : list piece) rest : Prop :=
  match ps with
  | [] => True
  | x :: ps =>
      (x = Newline [CR] → ∃ c, head (sources ps ++ rest) = Some c ∧ c ≠ LF) ∧ followed ps rest
  end.

Lemma sources_app ps qs : sources (ps ++ qs) = sources ps ++ sources qs.
Proof. unfold sources. by rewrite map_app, concat_app. Qed.

Lemma newlines_app ps qs : newlines (ps ++ qs) = newlines ps ++ newlines qs.
Proof. induction ps as [|[] ps IH]; simpl; [done|done|by rewrite IH|done]. Qed.

Lemma followed_app ps qs rest :
  followed (ps ++ qs) rest ↔ followed ps (sources qs ++ rest) ∧ followed qs rest.
Proof.
  induction ps as [|x ps IH]; simpl; [tauto|]. rewrite sources_app, <- app_assoc, IH. tauto.
Qed.

Lemma followed_more ps rest more : followed ps rest → followed ps (rest ++ more).
Proof.
  induction ps as [|x ps IH]; simpl; [done|]. intros [Hx Hps]. split; [|by apply IH].
  intros Hn. destruct (Hx Hn) as (c & Hc & Hne). exists c. split; [|done].
  rewrite app_assoc. by destruct (sources ps ++ rest).
Qed.

(** ** One translation *)

Section Translation.
Variables (e : option (list byte)) (rp ex : bool) (kws : option keywords_t) (t0 : option bool).

Definition target (x : piece) : list byte :=
  match x with Plain c => [c] | Newline _ => default [] e | Keyword _ kw' => kw' end.

Definition targets (ps : list piece) : list byte := concat (map target ps).

Lemma targets_app ps qs : targets (ps ++ qs) = targets ps ++ targets qs.
Proof. unfold targets. by rewrite map_app, concat_app. Qed.

(** Between dollar signs and on one line. *)
Definition keyword_text kw : Prop := deref kw = DOLLAR ∧ CR ∉ kw ∧ LF ∉ kw.

Definition piece_ok (x : piece) : Prop :=
  match x with
  | Plain c => e ≠ None → c ≠ CR ∧ c ≠ LF
  | Newline nl => e ≠ None ∧ STRING_IS_EOL nl = true
  | Keyword kw kw' =>
      keyword_text kw ∧ match_keyword kw kws = true
      ∧ translate_keyword kw (keyword_name kw) ex kws = Ok (Some kw')
  end.

Hypothesis eol_known : e = None ∨ e = Some [LF] ∨ e = Some [CR] ∨ e = Some [CR; LF].

(** Expansions fit into the keyword buffer. *)
Hypothesis values_fit : ∀ (h : keywords_t) (k v : list byte), kws = Some h → h !! k = Some v → (length k + length v <= 250)%nat.

(** *** The keyword buffer *)

Lemma strncpy_length s n : length (strncpy s n) = n.
Proof. unfold strncpy. rewrite length_app, length_replicate, length_take. lia. Qed.

Lemma expanded_length keyword value max :
  length (expanded keyword value max)
  = match value with
    | [] => (4 + length keyword)%nat
    | _ => (5 + length keyword + Nat.min (length value) max)%nat
    end.
Proof.
  unfold expanded. cbn [length]. rewrite !length_app. destruct value; simpl; [lia|].
  rewrite length_app, strncpy_length. simpl. lia.
Qed.

(** A keyword of the hash is translated or left alone, inside the buffer. *)
Lemma translate_keyword_total kw name :
  (2 <= length kw <= SVN_KEYWORD_MAX_LEN)%nat → deref kw = DOLLAR → last kw = Some DOLLAR →
  ∃ r, translate_keyword kw name ex kws = Ok r.
Proof.
  unfold SVN_KEYWORD_MAX_LEN. intros Hl Hh Hla. unfold translate_keyword, SVN_KEYWORD_MAX_LEN.
  assert (buf_at kw (length kw - 1) = DOLLAR) as Hlast.
  { destruct kw as [|c kw _] using rev_ind; [done|]. rewrite last_snoc in Hla. injection Hla as ->.
    unfold buf_at. rewrite length_app. simpl.
    replace (length kw + 1 - 1)%nat with (length kw + 0)%nat by lia. by rewrite drop_app_add. }
  rewrite (proj2 (Nat.leb_le (length kw) 255)) by lia. cbn [guarded].
  assert ((buf_at kw 0 =b? DOLLAR) && (buf_at kw (length kw - 1) =b? DOLLAR) = true) as Hd.
  { unfold buf_at at 1. rewrite drop_0, Hh, Hlast. done. }
  rewrite Hd. cbn [guarded]. destruct kws as [h|] eqn:Hkws; [|by eexists].
  destruct (h !! name) as [v|] eqn:Hv; [|by eexists].
  pose proof (values_fit h name v eq_refl Hv) as Hfit. unfold translate_keyword_subst, SVN_KEYWORD_MAX_LEN.
  rewrite (proj2 (Nat.leb_le (length kw) 255)) by lia. cbn [guarded]. rewrite Hd. cbn [guarded].
  assert (∀ max, fit (expanded name v max) = Ok (expanded name v max)) as Hf.
  { intros max. unfold fit, SVN_KEYWORD_MAX_LEN. rewrite (proj2 (Nat.leb_le _ _)); [done|].
    rewrite expanded_length. destruct v; cbn [length] in *; lia. }
  destruct ex; rewrite ?Hf; repeat case_match; by eexists.
Qed.

(** *** The invariant *)

Definition flag (ps : list piece) : option bool :=
  option_map (λ t, t || existsb (λ nl, negb (bool_decide (default [] e = nl))) (newlines ps)) t0.

(** What the line ends seen so far say about the source. *)
Record formats (ps : list piece) (b : translation_baton) : Prop := {
  formats_first : src_format b = default [] (head (newlines ps));
  formats_same : rp = false → Forall (λ nl, nl = src_format b) (newlines ps);
  formats_flag : translated_eol b = flag ps;
  formats_skip : nl_translation_skippable b = svn_tristate_true →
    src_format b ≠ [] ∧ (rp = true ∨ src_format b = default [] e);
}.

Record settings (b : translation_baton) : Prop := {
  settings_eol : eol_str b = e;
  settings_repair : repair b = rp;
  settings_keywords : keywords b = kws;
  settings_expand : expand b = ex;
}.

(** [rest] is what is left of the chunk, [total] all the text so far. *)
Record inv total (ps : list piece) (b : translation_baton) out rest : Prop := {
  inv_text : sources ps ++ newline_buf b ++ keyword_buf b ++ rest = total;
  inv_out : targets ps = out;
  inv_pieces : Forall piece_ok ps;
  inv_followed : followed ps (newline_buf b ++ keyword_buf b ++ rest);
  inv_newline : newline_buf b = [] ∨ (newline_buf b = [CR] ∧ keyword_buf b = [] ∧ e ≠ None);
  inv_keyword : keyword_buf b = []
    ∨ (keyword_text (keyword_buf b) ∧ (length (keyword_buf b) < SVN_KEYWORD_MAX_LEN)%nat ∧ kws ≠ None);
  inv_formats : formats ps b;
  inv_settings : settings b;
}.

(** The text has line ends of different forms. *)
Definition inconsistent total : Prop :=
  rp = false ∧ ∃ ps nl nl' rest,
    Forall piece_ok ps ∧ sources ps ++ nl ++ rest = total ∧ followed ps (nl ++ rest)
    ∧ STRING_IS_EOL nl = true ∧ (nl = [CR] → head rest ≠ Some LF)
    ∧ nl' ∈ newlines ps ∧ nl' ≠ nl.

Lemma eol_cases nl : STRING_IS_EOL nl = true → nl = [CR; LF] ∨ nl = [LF] ∨ nl = [CR].
Proof.
  unfold STRING_IS_EOL. intros [[H|H]%orb_true_iff|H]%orb_true_iff; apply bool_decide_eq_true in H; auto.
Qed.

Lemma different_eol a c :
  STRING_IS_EOL a = true → STRING_IS_EOL c = true → DIFFERENT_EOL_STRINGS a c = negb (bool_decide (a = c)).
Proof. intros [->|[->| ->]]%eol_cases [->|[->| ->]]%eol_cases; done. Qed.

Lemma piece_newlines ps : Forall piece_ok ps → Forall (λ nl, e ≠ None ∧ STRING_IS_EOL nl = true) (newlines ps).
Proof.
  induction ps as [|[] ps IH]; intros H; apply Forall_cons in H || constructor; [by apply IH, H| |by apply IH, H].
  destruct H as [Hnl H]. by constructor; [|apply IH].
Qed.

(** A line end is written, or found to be of another form than the first one. *)
Lemma translate_newline_ok ps b nl out :
  e ≠ None → STRING_IS_EOL nl = true → Forall piece_ok ps → formats ps b → settings b →
  (∃ b', translate_newline b nl out = Ok (b', out ++ default [] e)
     ∧ formats (ps ++ [Newline nl]) b' ∧ settings b'
     ∧ newline_buf b' = newline_buf b ∧ keyword_buf b' = keyword_buf b)
  ∨ (translate_newline b nl out = Error SVN_ERR_IO_INCONSISTENT_EOL
     ∧ rp = false ∧ ∃ nl', nl' ∈ newlines ps ∧ nl' ≠ nl).
Proof.
  intros He Hnl Hps [Hfirst Hsame Hflag Hskip] [Hse Hr Hk Hx]. unfold translate_newline, eol.
  rewrite Hnl, Hse, Hr. cbn [guarded].
  pose proof (piece_newlines ps Hps) as Hnls.
  assert (nl ≠ []) as Hnn by by apply eol_cases in Hnl as [->|[->| ->]].
  assert (∀ format, (format = src_format b ∧ newlines ps ≠ [] ∨ format = nl ∧ newlines ps = []) →
    (rp = false → format = nl) →
    let b' := set_translated b (match translated_eol b with
         | Some _ => if bool_decide (default [] e ≠ nl) then Some true else translated_eol b
         | None => None end) format in
    formats (ps ++ [Newline nl]) b' ∧ settings b') as Hok.
  { intros format Hformat Hrep b'. split; [|by split]. split; cbn.
    - rewrite newlines_app. destruct Hformat as [[-> Hn]|[-> ->]]; [|done].
      rewrite Hfirst. by destruct (newlines ps).
    - intros Hrp. rewrite newlines_app. apply Forall_app. specialize (Hrep Hrp). subst format.
      split; [|by repeat constructor]. destruct Hformat as [[-> _]|[_ ->]]; [by apply Hsame|constructor].
    - rewrite Hflag. unfold flag. rewrite newlines_app, existsb_app. destruct t0 as [t|]; [|done].
      cbn. rewrite orb_false_r. case_bool_decide as Hd; cbn.
      + rewrite bool_decide_eq_false_2 by done. by rewrite !orb_true_r.
      + rewrite bool_decide_eq_true_2 by (destruct (decide (default [] e = nl)); [done|by destruct Hd]).
        by rewrite !orb_false_r.
    - intros Hs. destruct (Hskip Hs) as [H1 H2].
      destruct Hformat as [[-> _]|[-> Hn]]; [done|]. rewrite Hfirst, Hn in H1. done. }
  destruct (newlines ps) as [|first nls] eqn:Hl.
  - cbn in Hfirst. rewrite Hfirst. cbn [rbind]. left. eexists. split; [done|].
    destruct (Hok nl) as [H1 H2]; [by right|done|]. by split.
  - cbn in Hfirst. apply Forall_cons in Hnls as [[_ Hf] _].
    assert (src_format b ≠ []) as Hne by (rewrite Hfirst; by apply eol_cases in Hf as [->|[->| ->]]).
    destruct (src_format b) as [|c format] eqn:Hsrc; [done|]. rewrite <- Hsrc in *.
    rewrite different_eol by (rewrite ?Hfirst; done).
    destruct (negb rp && negb (bool_decide (src_format b = nl))) eqn:Hcond.
    + right. split; [done|]. apply andb_true_iff in Hcond as [Hrp Hd].
      apply negb_true_iff in Hrp, Hd. apply bool_decide_eq_false in Hd. split; [done|].
      exists first. split; [by left|]. by rewrite <- Hfirst.
    + left. cbn [rbind]. eexists. split; [done|].
      destruct (Hok (src_format b)) as [H1 H2]; [by left| |by split].
      intros Hrp. rewrite Hrp in Hcond. cbn in Hcond. apply negb_false_iff in Hcond.
      by apply bool_decide_eq_true in Hcond.
Qed.

(** *** Boring bytes *)

Definition boring (b : translation_baton) : Prop := newline_buf b = [] ∧ keyword_buf b = [].

Lemma interesting_settings b c :
  settings b → interesting b c = (bool_decide (kws ≠ None) && (c =b? DOLLAR))
    || (bool_decide (e ≠ None) && ((c =b? CR) || (c =b? LF))).
Proof. intros [He _ Hk _]. unfold interesting. by rewrite He, Hk. Qed.

Lemma boring_plain b c : settings b → interesting b c = false → piece_ok (Plain c).
Proof.
  intros Hs. rewrite interesting_settings by done. intros [_ H]%orb_false_iff He.
  rewrite bool_decide_eq_true_2 in H by done. cbn [andb] in H.
  apply orb_false_iff in H as [H1 H2]. by split; apply byte_eqb_ne.
Qed.

Lemma skip_bytes_ok b rest :
  (skip_bytes b rest <= length rest)%nat
  ∧ Forall (λ c, interesting b c = false) (take (skip_bytes b rest) rest)
  ∧ match drop (skip_bytes b rest) rest with [] => True | c :: _ => interesting b c = true end.
Proof.
  induction rest as [|c rest (H1 & H2 & H3)]; [by repeat constructor|]. cbn [skip_bytes length].
  destruct (interesting b c) eqn:Hc; [by split; [lia|split; [constructor|]]|].
  split; [lia|]. cbn [take drop]. split; [by constructor|done].
Qed.

Lemma skip_words_ok b rest :
  (skip_words b rest <= length rest)%nat
  ∧ Forall (λ c, interesting b c = false) (take (skip_words b rest) rest).
Proof.
  remember (length rest) as n eqn:Hn. revert rest Hn.
  induction n as [n IH] using lt_wf_ind; intros rest ->.
  destruct rest as [|c0 [|c1 [|c2 [|c3 rest]]]]; cbn [skip_words length];
    try (split; [lia|constructor]).
  destruct (_ || _ || _ || _) eqn:Hc; [split; [lia|constructor]|].
  apply orb_false_iff in Hc as [[[H0 H1]%orb_false_iff H2]%orb_false_iff H3].
  destruct (IH (length rest) ltac:(cbn [length]; lia) rest eq_refl) as [Hl Hf]. split; [lia|].
  change (4 + skip_words b rest)%nat with (S (S (S (S (skip_words b rest))))).
  cbn [take]. by repeat (constructor; [done|]).
Qed.

(** Plain pieces for boring bytes. *)
Lemma plain_pieces b s :
  settings b → Forall (λ c, interesting b c = false) s →
  ∃ ps, sources ps = s ∧ targets ps = s ∧ Forall piece_ok ps ∧ newlines ps = []
    ∧ ∀ rest, followed ps rest.
Proof.
  intros Hs. induction s as [|c s IH]; intros H.
  { exists []. by repeat split. }
  apply Forall_cons in H as [Hc H]. destruct (IH H) as (ps & H1 & H2 & H3 & H4 & H5).
  exists (Plain c :: ps). unfold sources, targets in *. cbn. rewrite H1, H2. split; [done|]. split; [done|].
  split; [constructor; [by eapply boring_plain|done]|]. split; [done|]. intros rest. by split.
Qed.

(** Pieces that the quick scan copies: plain bytes and line ends that are already right. *)
Definition copied (b : translation_baton) (ps : list piece) s rest : Prop :=
  sources ps = s ∧ targets ps = s ∧ Forall piece_ok ps
  ∧ Forall (λ nl, nl = default [] e) (newlines ps)
  ∧ (newlines ps ≠ [] → nl_translation_skippable b = svn_tristate_true)
  ∧ followed ps rest.

Lemma copied_app b ps qs s t rest :
  copied b ps s (t ++ rest) → copied b qs t rest → copied b (ps ++ qs) (s ++ t) rest.
Proof.
  intros (H1 & H2 & H3 & H4 & H5 & H6) (G1 & G2 & G3 & G4 & G5 & G6). unfold copied.
  rewrite sources_app, targets_app, newlines_app, H1, H2, G1, G2. repeat split; try done.
  - by apply Forall_app.
  - by apply Forall_app.
  - intros Hn. destruct (newlines ps); [by apply G5|by apply H5].
  - apply followed_app. by rewrite G1.
Qed.

Lemma copied_plain b s rest :
  settings b → Forall (λ c, interesting b c = false) s → ∃ ps, copied b ps s rest.
Proof.
  intros Hs Hf. destruct (plain_pieces b s Hs Hf) as (ps & H1 & H2 & H3 & H4 & H5).
  exists ps. unfold copied. by rewrite H4.
Qed.

(** [eol_unchanged] only skips a line end that stays as it is. *)
Lemma eol_unchanged_ok b rest :
  settings b → (2 < length rest)%nat → e ≠ None →
  nl_translation_skippable b = svn_tristate_true →
  ∃ r, eol_unchanged b rest = Ok r
    ∧ (r = true → ∃ t, rest = default [] e ++ t ∧ t ≠ [] ∧ copied b [Newline (default [] e)] (default [] e) t).
Proof.
  intros Hs Hl He Hskip. pose proof (λ c, interesting_settings b c Hs) as Hint.
  destruct Hs as [Hse _ _ _]. unfold eol_unchanged. rewrite Hse.
  destruct rest as [|c0 [|c1 rest]]; [simpl in Hl; lia..|]. destruct rest as [|c2 rest]; [simpl in Hl; lia|].
  cbn [deref drop]. rewrite (bool_decide_eq_true_2 (e ≠ None)) in Hint by done.
  assert (∀ nl t, e = Some nl → STRING_IS_EOL nl = true → followed [Newline nl] t →
    copied b [Newline nl] nl t) as Hcop.
  { intros nl t Heq Hnl Hf. unfold copied, sources, targets. cbn. rewrite Heq, !app_nil_r. cbn.
    split; [done|]. split; [done|]. split; [repeat constructor; [by rewrite Heq|done]|].
    split; [by repeat constructor|done]. }
  destruct eol_known as [->|[Heq|[Heq|Heq]]]; [done|..]; rewrite Heq; cbn [deref drop length default option_map].
  - destruct (byte_eqb_spec c0 LF) as [->|]; [|by eexists]. cbn [negb].
    eexists. split; [done|]. intros Hr. exists (c1 :: c2 :: rest). split; [done|]. split; [done|].
    apply Hcop; [done..|]. by split.
  - destruct (byte_eqb_spec c0 CR) as [->|]; [|by eexists]. cbn [negb].
    eexists. split; [done|]. intros Hr. exists (c1 :: c2 :: rest). split; [done|]. split; [done|].
    apply Hcop; [done..|]. split; [|done]. intros _. exists c1. split; [done|]. intros ->.
    rewrite Hint in Hr. cbn in Hr. by rewrite orb_true_r in Hr.
  - destruct (byte_eqb_spec c0 CR) as [->|]; [|by eexists]. cbn [negb].
    eexists. split; [done|]. intros Hr. apply byte_eqb_eq in Hr as ->. exists (c2 :: rest).
    split; [done|]. split; [done|]. apply Hcop; [done..|]. by split.
Qed.

Lemma scan_loop_ok fuel b rest len ps :
  settings b → (nl_translation_skippable b = svn_tristate_true → e ≠ None) →
  (len <= length rest)%nat → (length rest - len < fuel)%nat →
  copied b ps (take len rest) (drop len rest) →
  ∃ len' ps', scan_loop fuel b rest len = Ok len' ∧ (len <= len' <= length rest)%nat
    ∧ copied b ps' (take len' rest) (drop len' rest).
Proof.
  intros Hs He. revert len ps; induction fuel as [|fuel IH]; intros len ps Hl Hf Hcop; [lia|].
  cbn [scan_loop]. set (len1 := (len + skip_words b (drop len rest))%nat).
  set (len2 := (len1 + skip_bytes b (drop len1 rest))%nat).
  assert (∀ n k ps, (n <= length rest)%nat → (k <= length (drop n rest))%nat →
    Forall (λ c, interesting b c = false) (take k (drop n rest)) →
    copied b ps (take n rest) (drop n rest) →
    ∃ ps', copied b ps' (take (n + k) rest) (drop (n + k) rest)) as Hstep.
  { intros n k qs Hn Hk Hint Hq.
    destruct (copied_plain b (take k (drop n rest)) (drop (n + k) rest) Hs Hint) as [ps' Hp].
    exists (qs ++ ps'). rewrite <- take_take_drop. apply copied_app; [|done].
    by rewrite <- drop_drop, take_drop. }
  destruct (skip_words_ok b (drop len rest)) as [Hw1 Hw2].
  destruct (Hstep len _ ps Hl Hw1 Hw2 Hcop) as [ps1 Hc1]. fold len1 in Hc1.
  assert (len1 <= length rest)%nat as Hl1 by (rewrite length_drop in Hw1; lia).
  destruct (skip_bytes_ok b (drop len1 rest)) as (Hb1 & Hb2 & _).
  destruct (Hstep len1 _ ps1 Hl1 Hb1 Hb2 Hc1) as [ps2 Hc2]. fold len2 in Hc2.
  assert (len2 <= length rest)%nat as Hl2 by (rewrite length_drop in Hb1; lia).
  assert (∃ len' ps', Ok len2 = Ok len' ∧ (len <= len' <= length rest)%nat
    ∧ copied b ps' (take len' rest) (drop len' rest)) as Hdone.
  { exists len2, ps2. split; [done|]. split; [lia|done]. }
  destruct (nl_translation_skippable b) eqn:Hskip; [done| |done].
  destruct (Nat.ltb_spec (len2 + 2) (length rest)) as [Hlt|]; [|done].
  destruct (eol_unchanged_ok b (drop len2 rest)) as (r & -> & Hr); [done|rewrite length_drop; lia|by apply He|done|].
  cbn [rbind]. destruct r; [|done]. destruct (Hr eq_refl) as (t & Ht & Hne & Hc).
  assert (length (eol b) = length (default [] e)) as -> by (unfold eol; by rewrite (settings_eol b Hs)).
  assert (0 < length (default [] e))%nat as Hpos by (destruct eol_known as [->|[->|[->| ->]]]; [by specialize (He eq_refl)|simpl; lia..]).
  assert (drop (len2 + length (default [] e)) rest = t) as Hd by (by rewrite <- drop_drop, Ht, drop_app_length).
  assert (take (len2 + length (default [] e)) rest = take len2 rest ++ default [] e) as Htk.
  { by rewrite <- take_take_drop, Ht, take_app_length. }
  assert (length t = length rest - (len2 + length (default [] e)))%nat as Hlt' by (rewrite <- Hd; apply length_drop).
  assert (0 < length t)%nat by (destruct t; [done|simpl; lia]).
  destruct (IH (len2 + length (default [] e))%nat (ps2 ++ [Newline (default [] e)])) as (len' & ps' & H1 & H2 & H3);
    [lia|lia| |].
  - rewrite Htk, Hd. apply copied_app; [by rewrite <- Ht|done].
  - exists len', ps'. split; [done|]. split; [lia|done].
Qed.

(** *** Growing the list of pieces *)

Lemma formats_copied ps qs b b' :
  formats ps b → Forall (λ nl, nl = default [] e) (newlines qs) →
  (newlines qs ≠ [] → nl_translation_skippable b = svn_tristate_true) →
  src_format b' = src_format b → translated_eol b' = translated_eol b →
  nl_translation_skippable b' = nl_translation_skippable b → formats (ps ++ qs) b'.
Proof.
  intros [Hfirst Hsame Hflag Hskip] Hq Hs E1 E2 E3. split; rewrite ?E1, ?E2, ?E3, ?newlines_app; [..|done].
  - rewrite Hfirst. destruct (newlines ps) as [|nl nls] eqn:Hn; [|done].
    destruct (newlines qs) as [|nl' nls']; [done|]. destruct (Hskip (Hs ltac:(done))) as [H _].
    by rewrite Hfirst in H.
  - intros Hrp. apply Forall_app. split; [by apply Hsame|].
    destruct (newlines qs) as [|nl' nls']; [constructor|]. destruct (Hskip (Hs ltac:(done))) as [_ [H|H]]; [congruence|].
    eapply Forall_impl; [exact Hq|]. intros nl ->. done.
  - rewrite Hflag. unfold flag. destruct t0 as [t|]; [|done]. cbn. rewrite newlines_app, existsb_app.
    replace (existsb _ (newlines qs)) with false; [by rewrite orb_false_r|].
    clear -Hq. symmetry. induction Hq as [|nl nls -> _ IH]; [done|]. cbn. by rewrite bool_decide_eq_true_2, IH.
Qed.

Lemma formats_no_newlines ps qs b b' :
  formats ps b → newlines qs = [] → src_format b' = src_format b → translated_eol b' = translated_eol b →
  nl_translation_skippable b' = nl_translation_skippable b → formats (ps ++ qs) b'.
Proof. intros H Hn. intros. eapply formats_copied; try done; by rewrite Hn. Qed.

Lemma plain_ok s :
  (e ≠ None → CR ∉ s ∧ LF ∉ s) →
  sources (map Plain s) = s ∧ targets (map Plain s) = s ∧ Forall piece_ok (map Plain s)
  ∧ newlines (map Plain s) = [] ∧ ∀ rest, followed (map Plain s) rest.
Proof.
  unfold sources, targets. induction s as [|c s IH]; intros Hs; [by repeat split|].
  destruct IH as (H1 & H2 & H3 & H4 & H5).
  { intros He. destruct (Hs He) as [[_ ?]%not_elem_of_cons [_ ?]%not_elem_of_cons]. done. }
  cbn. rewrite H1, H2. split; [done|]. split; [done|]. split; [|split; [done|]; by split].
  constructor; [|done]. intros He. destruct (Hs He) as [[? _]%not_elem_of_cons [? _]%not_elem_of_cons]. auto.
Qed.

(** Pieces for the keyword buffer and what follows it. *)
Lemma inv_extend total ps qs b out rest rest' :
  inv total ps b out rest → newline_buf b = [] → sources qs ++ rest' = keyword_buf b ++ rest →
  Forall piece_ok qs → newlines qs = [] → followed qs rest' →
  inv total (ps ++ qs) (set_keyword_buf b []) (out ++ targets qs) rest'.
Proof.
  intros [Htext Hout Hps Hf Hn Hk Hform Hset] Hnl Hq Hqs Hqn Hqf.
  rewrite Hnl in *. cbn [app] in Htext, Hf. rewrite <- Hq in Htext, Hf. split; cbn; rewrite ?Hnl.
  - by rewrite sources_app, <- app_assoc.
  - by rewrite targets_app, Hout.
  - by apply Forall_app.
  - by apply followed_app.
  - by left.
  - by left.
  - by apply (formats_no_newlines ps _ b).
  - by destruct Hset.
Qed.

(** The first part of the keyword buffer is given up, the rest is read again. *)
Lemma inv_flush total ps b out rest s rest' :
  inv total ps b out rest → newline_buf b = [] → s ++ rest' = keyword_buf b ++ rest →
  CR ∉ s → LF ∉ s → inv total (ps ++ map Plain s) (set_keyword_buf b []) (out ++ s) rest'.
Proof.
  intros Hinv Hnl Hs H1 H2. destruct (plain_ok s (λ _, conj H1 H2)) as (P1 & P2 & P3 & P4 & P5).
  rewrite <- P2 at 2. apply (inv_extend total ps _ b out rest); try done. by rewrite P1.
Qed.

(** *** A round *)

Definition sign_ok buf (kb : list byte) (p ns : nat) : Prop :=
  ns = 0%nat ∨ ((0 < ns < length kb)%nat ∧ (length kb - ns <= p)%nat
    ∧ drop ns kb = take (length kb - ns) (drop (p - (length kb - ns)) buf)).

Definition chunk_ok total buf (cs : chunk_state) : Prop :=
  (cs_p cs <= length buf)%nat
  ∧ (∃ ps, inv total ps (cs_baton cs) (cs_out cs) (drop (cs_p cs) buf))
  ∧ sign_ok buf (keyword_buf (cs_baton cs)) (cs_p cs) (next_sign_off cs).

Lemma drop_at buf p : (p < length buf)%nat → drop p buf = buf_at buf p :: drop (S p) buf.
Proof.
  intros Hp. unfold buf_at. destruct (drop p buf) as [|c t] eqn:Hd.
  { apply (f_equal length) in Hd. rewrite length_drop in Hd. simpl in Hd. lia. }
  by rewrite <- Nat.add_1_r, <- drop_drop, Hd.
Qed.

Lemma sign_push buf kb p ns :
  (p < length buf)%nat → sign_ok buf kb p ns → sign_ok buf (kb ++ [buf_at buf p]) (S p) ns.
Proof.
  intros Hp [->|(H1 & H2 & H3)]; [by left|]. right. rewrite length_app. cbn [length].
  split; [lia|]. split; [lia|]. rewrite drop_app_le, H3 by lia.
  replace (length kb + 1 - ns)%nat with (S (length kb - ns)) by lia.
  replace (S p - S (length kb - ns))%nat with (p - (length kb - ns))%nat by lia.
  rewrite <- (Nat.add_1_r (length kb - ns)), <- take_take_drop, drop_drop.
  replace (p - (length kb - ns) + (length kb - ns))%nat with p by lia.
  by rewrite (drop_at buf p Hp).
Qed.

(** Adds a byte to the keyword buffer. *)
Lemma inv_push total ps b out buf p :
  (p < length buf)%nat → inv total ps b out (drop p buf) → newline_buf b = [] → kws ≠ None →
  buf_at buf p ≠ CR → buf_at buf p ≠ LF → (keyword_buf b = [] → buf_at buf p = DOLLAR) →
  (length (keyword_buf b) + 1 < SVN_KEYWORD_MAX_LEN)%nat →
  inv total ps (set_keyword_buf b (keyword_buf b ++ [buf_at buf p])) out (drop (S p) buf).
Proof.
  intros Hp [Htext Hout Hps Hf Hn Hk Hform Hset] Hnl Hkws Hcr Hlf Hd Hl.
  rewrite (drop_at buf p Hp), Hnl in *. split; cbn; rewrite ?Hnl, <- ?app_assoc; try done.
  - by left.
  - right. rewrite length_app. cbn [length]. split; [|by split]. destruct Hk as [Hk|[[K1 [K2 K3]] _]].
    + rewrite Hk. cbn [app]. split; [by apply Hd|]. split; set_solver.
    + split; [by destruct (keyword_buf b)|]. set_solver.
  - by destruct Hform.
  - by destruct Hset.
Qed.

(** The outcome of a step: the invariant, or a line end of another form. *)
Definition step_ok total {A} (P : A → Prop) (r : result A) : Prop :=
  match r with
  | Ok x => P x
  | Error err => err = SVN_ERR_IO_INCONSISTENT_EOL ∧ ∀ more, inconsistent (total ++ more)
  | _ => False
  end.

Definition left_state total buf (cs : chunk_state) (r : bool * chunk_state) : Prop :=
  chunk_ok total buf r.2 ∧
  if r.1 then (chunk_measure buf r.2 < chunk_measure buf cs)%nat
  else boring (cs_baton r.2) ∧ next_sign_off r.2 = 0%nat
    ∧ (chunk_measure buf r.2 <= chunk_measure buf cs)%nat
    ∧ (cs_p r.2 < length buf ∨ chunk_measure buf r.2 < chunk_measure buf cs)%nat.

Lemma sign_zero buf kb p : sign_ok buf kb p 0.
Proof. by left. Qed.

Lemma at_dollar_ok total buf cs ps :
  let b := cs_baton cs in
  (cs_p cs < length buf)%nat → inv total ps b (cs_out cs) (drop (cs_p cs) buf) →
  sign_ok buf (keyword_buf b) (cs_p cs) (next_sign_off cs) →
  newline_buf b = [] → keyword_buf b ≠ [] → buf_at buf (cs_p cs) = DOLLAR →
  step_ok total (left_state total buf cs) (at_dollar b (cs_out cs) (cs_p cs) (next_sign_off cs)).
Proof.
  intros b Hp Hinv Hsign Hnl Hne Hd. pose proof Hinv as [Htext Hout Hps Hf Hn Hk Hform Hset].
  destruct Hk as [|((K1 & K2 & K3) & Hlen & Hkws)]; [done|].
  unfold at_dollar, keyword_push. fold b. rewrite (proj2 (Nat.ltb_lt _ _)) by done. cbn [rbind keyword_buf set_keyword_buf].
  rewrite (settings_keywords b Hset), (settings_expand b Hset).
  set (kw := keyword_buf b ++ [DOLLAR]).
  assert (0 < length (keyword_buf b))%nat as Hpos by (destruct (keyword_buf b); [done|simpl; lia]).
  assert (length kw = S (length (keyword_buf b))) as Hlkw by (subst kw; rewrite length_app; simpl; lia).
  assert (keyword_text kw) as Hkw.
  { subst kw. split; [by destruct (keyword_buf b)|]. split; set_solver. }
  pose proof (drop_at buf (cs_p cs) Hp) as Hdrop. rewrite Hd in Hdrop.
  destruct (match_keyword kw kws) eqn:Hmatch.
  - destruct (translate_keyword_total kw (keyword_name kw)) as [r Hr].
    { rewrite Hlkw. unfold SVN_KEYWORD_MAX_LEN in *. lia. }
    { apply Hkw. }
    { subst kw. by rewrite last_snoc. }
    rewrite Hr. cbn [rbind]. destruct r as [kw'|].
    + cbn [flush_keyword step_ok]. split; [|split; [by split|split; [done|]]].
      2:{ unfold chunk_measure. cbn. fold b. lia. }
      split; [cbn; lia|]. split; [|apply sign_zero]. exists (ps ++ [Keyword kw kw']). cbn.
      replace (cs_out cs ++ kw') with (cs_out cs ++ targets [Keyword kw kw'])
        by (unfold targets; cbn; by rewrite app_nil_r).
      apply (inv_extend total ps [Keyword kw kw'] b _ (drop (cs_p cs) buf)); try done.
      { unfold sources. cbn. subst kw. by rewrite Hdrop, app_nil_r, <- app_assoc. }
      by repeat constructor; try apply Hkw.
    + destruct (Nat.leb_spec SVN_KEYWORD_MAX_LEN (length kw)) as [Hfull|Hnot].
      * cbn [flush_keyword step_ok]. split; [|split; [by split|split; [done|]]].
        2:{ unfold chunk_measure. cbn. fold b. lia. }
        split; [cbn; lia|]. split; [|apply sign_zero]. exists (ps ++ map Plain kw). cbn.
        apply (inv_flush total ps b _ (drop (cs_p cs) buf)); try done; [|apply Hkw..].
        subst kw. by rewrite Hdrop, <- app_assoc.
      * cbn [step_ok]. split; [|unfold chunk_measure; cbn; fold b; rewrite Hlkw; lia].
        split; [cbn; lia|]. split.
        -- exists ps. cbn. subst kw. rewrite <- Hd at 1. apply inv_push; try done; rewrite ?Hd; try done. lia.
        -- cbn. subst kw. destruct (Nat.eqb_spec (next_sign_off cs) 0) as [|Hns].
           ++ right. rewrite Hlkw. replace (S (length (keyword_buf b)) - 1)%nat with (length (keyword_buf b)) by lia.
              split; [lia|]. replace (S (length (keyword_buf b)) - length (keyword_buf b))%nat with 1%nat by lia.
              split; [lia|]. rewrite drop_app_length. replace (S (cs_p cs) - 1)%nat with (cs_p cs) by lia.
              by rewrite Hdrop.
           ++ rewrite <- Hd. by apply sign_push.
  - cbn [flush_keyword step_ok]. split; [|split; [by split|split; [done|]]].
    2:{ unfold chunk_measure. cbn. fold b. lia. }
    split; [cbn; lia|]. split; [|apply sign_zero]. exists (ps ++ map Plain (keyword_buf b)). cbn.
    by apply (inv_flush total ps b (cs_out cs) (drop (cs_p cs) buf)).
Qed.

Lemma no_keyword_ok total buf cs ps :
  let b := cs_baton cs in
  (cs_p cs < length buf)%nat → inv total ps b (cs_out cs) (drop (cs_p cs) buf) →
  sign_ok buf (keyword_buf b) (cs_p cs) (next_sign_off cs) →
  newline_buf b = [] → keyword_buf b ≠ [] →
  step_ok total (left_state total buf cs) (no_keyword b (cs_out cs) (cs_p cs) (next_sign_off cs)).
Proof.
  intros b Hp Hinv Hsign Hnl Hne. pose proof (inv_keyword _ _ _ _ _ Hinv) as Hk.
  destruct Hk as [|((_ & K2 & K3) & Hlen & _)]; [done|]. unfold SVN_KEYWORD_MAX_LEN in Hlen. unfold no_keyword.
  assert (0 < length (keyword_buf b))%nat as Hpos by (destruct (keyword_buf b); [done|simpl; lia]).
  destruct (Nat.ltb_spec 0 (next_sign_off cs)) as [Hns|Hns].
  - destruct Hsign as [|(S1 & S2 & S3)]; [lia|]. fold b in S1, S2, S3.
    rewrite (proj2 (Nat.ltb_ge _ _)) by done. cbn [rbind flush_keyword keyword_buf set_keyword_buf step_ok].
    split; [|split; [by split|split; [done|]]].
    2:{ unfold chunk_measure. cbn. fold b. lia. }
    split; [cbn; lia|]. split; [|apply sign_zero].
    exists (ps ++ map Plain (take (next_sign_off cs) (keyword_buf b))). cbn.
    assert (drop (cs_p cs - (length (keyword_buf b) - next_sign_off cs)) buf
      = drop (next_sign_off cs) (keyword_buf b) ++ drop (cs_p cs) buf) as ->.
    { rewrite S3. replace (cs_p cs) with (cs_p cs - (length (keyword_buf b) - next_sign_off cs)
        + (length (keyword_buf b) - next_sign_off cs))%nat at 3 by lia.
      by rewrite <- drop_drop, take_drop. }
    change (set_keyword_buf (set_keyword_buf b ?x) []) with (set_keyword_buf b []).
    apply (inv_flush total ps b (cs_out cs) (drop (cs_p cs) buf)); try done.
    + by rewrite app_assoc, take_drop.
    + intros H. by apply elem_of_take in H as (? & ?%list_elem_of_lookup_2 & _).
    + intros H. by apply elem_of_take in H as (? & ?%list_elem_of_lookup_2 & _).
  - cbn [rbind flush_keyword step_ok]. split; [|split; [by split|split; [done|]]].
    2:{ unfold chunk_measure. cbn. fold b. lia. }
    split; [cbn; lia|]. split; [|apply sign_zero]. exists (ps ++ map Plain (keyword_buf b)). cbn.
    by apply (inv_flush total ps b (cs_out cs) (drop (cs_p cs) buf)).
Qed.

(** A line end that is known to be complete. *)
Lemma newline_ok total ps b out nl rest :
  inv total ps (set_newline_buf b []) out (nl ++ rest) → keyword_buf b = [] → e ≠ None →
  STRING_IS_EOL nl = true → (nl = [CR] → ∃ c, head rest = Some c ∧ c ≠ LF) →
  step_ok total (λ r, ∃ ps', inv total ps' (set_newline_buf r.1 []) r.2 rest ∧ keyword_buf r.1 = [])
    (translate_newline b nl out).
Proof.
  intros [Htext Hout Hps Hf Hn Hk Hform Hset] Hkb He Heol Hcr. cbn in Htext, Hf. rewrite Hkb in *.
  assert (formats ps b) as Hfb by (destruct Hform; by split).
  assert (settings b) as Hsb by (destruct Hset; by split).
  destruct (translate_newline_ok ps b nl out He Heol Hps Hfb Hsb)
    as [(b' & -> & Hform' & Hset' & Hn' & Hk')|(-> & Hrp & nl' & Hin & Hne)]; cbn [step_ok].
  - exists (ps ++ [Newline nl]). cbn [fst snd]. rewrite Hk', Hkb. split; [|done].
    split; cbn; rewrite ?Hk', ?Hkb.
    + rewrite sources_app, <- Htext, <- app_assoc. unfold sources at 2. cbn. by rewrite app_nil_r.
    + rewrite targets_app, Hout. unfold targets. cbn. by rewrite app_nil_r.
    + apply Forall_app. by repeat constructor.
    + apply followed_app. unfold sources. cbn. rewrite app_nil_r. split; [done|]. split; [|done].
      intros [= ->]. by apply Hcr.
    + by left.
    + by left.
    + destruct Hform'. by split.
    + by destruct Hset'.
  - split; [done|]. intros more. split; [done|].
    exists ps, nl, nl', (rest ++ more). split_and!; try done.
    + by rewrite <- Htext, <- !app_assoc.
    + rewrite app_assoc. by apply followed_more.
    + intros Hc. destruct (Hcr Hc) as (c & Hcc & Hne'). destruct rest; [done|]. cbn in *. congruence.
Qed.

Lemma set_newline_nop b : newline_buf b = [] → set_newline_buf b [] = b.
Proof. destruct b. by intros [= ->]. Qed.

(** A carriage return is kept, *)
Lemma inv_cr total ps b out rest :
  inv total ps b out (CR :: rest) → boring b → e ≠ None → inv total ps (set_newline_buf b [CR]) out rest.
Proof.
  intros [Htext Hout Hps Hf Hn Hk Hform Hset] [Hnl Hkb] He. rewrite Hnl, Hkb in *.
  split; cbn; rewrite ?Hkb; try done.
  - by right.
  - by destruct Hform.
  - by destruct Hset.
Qed.

(** and read again. *)
Lemma inv_unread total ps b out rest :
  inv total ps b out rest → newline_buf b = [CR] → inv total ps (set_newline_buf b []) out (CR :: rest).
Proof.
  intros [Htext Hout Hps Hf Hn Hk Hform Hset] Hnl. rewrite Hnl in *.
  destruct Hn as [|(_ & Hkb & He)]; [done|]. rewrite Hkb in *. split; cbn; rewrite ?Hkb; try done.
  - by left.
  - by destruct Hform.
  - by destruct Hset.
Qed.

Lemma step_bind total {A B} (P : A → Prop) (Q : B → Prop) (r : result A) (k : A → result B) :
  step_ok total P r → (∀ x, P x → step_ok total Q (k x)) → step_ok total Q (rbind r k).
Proof. destruct r; cbn; auto. Qed.

Lemma left_boring total ps buf cs b out p :
  newline_buf b = [] → keyword_buf b = [] → inv total ps b out (drop p buf) →
  (cs_p cs <= p <= length buf)%nat → (p < length buf ∨ cs_p cs < p)%nat →
  left_state total buf cs (false, MkChunk b out p 0).
Proof.
  intros Hn Hk Hinv Hp Hlt. split.
  - split; [apply Hp|]. split; [by exists ps|]. by left.
  - unfold boring, chunk_measure. cbn [fst snd cs_baton cs_p next_sign_off]. rewrite Hk, Hn.
    cbn [length]. split_and!; try done; lia.
Qed.

Lemma leave_ok total buf cs :
  chunk_ok total buf cs → (cs_p cs < length buf)%nat →
  step_ok total (left_state total buf cs) (leave_interesting buf cs).
Proof.
  intros (Hle & (ps & Hinv) & Hsign) Hp. unfold leave_interesting.
  pose proof (drop_at buf (cs_p cs) Hp) as Hdrop.
  destruct (inv_newline _ _ _ _ _ Hinv) as [Hnl|(Hnl & Hkb & He)]; rewrite Hnl; cbn [app].
  - destruct (keyword_buf (cs_baton cs)) as [|k kb] eqn:Hkb; [|rewrite <- Hkb in *].
    { cbn [step_ok]. destruct Hsign as [Hs|[Hs _]]; [|simpl in Hs; lia].
      split; [|by split; [split|split; [|split; [|left]]]]. split; [done|]. split; [by exists ps|by left]. }
    assert (keyword_buf (cs_baton cs) ≠ []) as Hne by by rewrite Hkb.
    destruct (byte_eqb_spec (buf_at buf (cs_p cs)) DOLLAR) as [Hd|Hd].
    { by eapply at_dollar_ok. }
    destruct (_ || _ || _) eqn:Hend.
    { eapply step_bind; [by eapply no_keyword_ok|]. intros [continue cs'] H. done. }
    apply orb_false_iff in Hend as [[Hlen Hcr]%orb_false_iff Hlf].
    apply Nat.eqb_neq in Hlen. apply byte_eqb_ne in Hcr, Hlf.
    destruct (inv_keyword _ _ _ _ _ Hinv) as [|(_ & Hl & Hkws)]; [done|].
    unfold keyword_push. rewrite (proj2 (Nat.ltb_lt _ _)) by done. cbn [rbind step_ok].
    split; [|cbn; unfold chunk_measure; cbn; rewrite length_app; simpl; lia].
    split; [cbn; lia|]. split; [|cbn; by apply sign_push].
    exists ps. cbn. apply inv_push; try done. unfold SVN_KEYWORD_MAX_LEN in *. lia.
  - assert (next_sign_off cs = 0%nat) as Hs by (rewrite Hkb in Hsign; destruct Hsign as [|[Hs _]]; [done|simpl in Hs; lia]).
    apply inv_unread in Hinv; [|done]. rewrite Hdrop in Hinv.
    destruct (byte_eqb_spec (buf_at buf (cs_p cs)) LF) as [Hlf|Hlf].
    + rewrite Hlf in *. eapply step_bind.
      { by apply (newline_ok total ps _ _ [CR; LF] (drop (S (cs_p cs)) buf)). }
      intros [b out] (ps' & Hinv' & Hkb'). cbn [fst snd] in *. cbn [step_ok]. rewrite Hs.
      apply (left_boring total ps'); try done; lia.
    + eapply step_bind.
      { apply (newline_ok total ps _ _ [CR] (buf_at buf (cs_p cs) :: drop (S (cs_p cs)) buf)); try done.
        intros _. by eexists. }
      intros [b out] (ps' & Hinv' & Hkb'). cbn [fst snd] in *. cbn [step_ok]. rewrite Hs.
      apply (left_boring total ps'); try done; rewrite ?Hdrop; try done; lia.
Qed.

Lemma update_skippable_ok total ps b out rest :
  inv total ps b out rest → boring b →
  inv total ps (update_skippable b) out rest ∧ boring (update_skippable b).
Proof.
  intros Hinv Hbor. pose proof (conj Hinv Hbor) as Hsame.
  destruct Hinv as [Htext Hout Hps Hf Hn Hk [H1 H2 H3 H4] Hset], Hbor as [Hnl Hkb]. pose proof Hset as [S1 S2 S3 S4].
  unfold update_skippable, eol. rewrite S1, S2.
  assert (∀ t, (t = svn_tristate_true → src_format b ≠ [] ∧ (rp = true ∨ src_format b = default [] e)) →
    inv total ps (set_skippable b t) out rest ∧ boring (set_skippable b t)) as Hset'.
  { intros t Ht. split; [|done]. by split; cbn; try done; split. }
  destruct (nl_translation_skippable b); [done..|].
  destruct (src_format b) eqn:Hsrc; [done|]. rewrite <- Hsrc in *.
  case_bool_decide as He; [|destruct rp eqn:Hrp]; apply Hset'; intros Ht; try done; split; auto; by rewrite Hsrc.
Qed.

Definition entered total buf (cs cs' : chunk_state) : Prop :=
  chunk_ok total buf cs' ∧ (chunk_measure buf cs' <= chunk_measure buf cs)%nat
  ∧ (cs_p cs < length buf → chunk_measure buf cs' < chunk_measure buf cs)%nat.

Lemma entered_plain total ps buf cs b out p :
  boring (cs_baton cs) → inv total ps b out (drop p buf) → sign_ok buf (keyword_buf b) p 0 →
  (length (keyword_buf b) <= 1)%nat → (cs_p cs + length (keyword_buf b) <= p <= length buf)%nat →
  (cs_p cs < length buf → cs_p cs < p)%nat → entered total buf cs (MkChunk b out p 0).
Proof.
  intros [_ Hb] Hinv Hs Hl Hp Hlt. split; [split; [apply Hp|split; [by exists ps|done]]|].
  unfold chunk_measure. cbn [cs_baton cs_p]. rewrite Hb. cbn [length]. lia.
Qed.

Lemma copied_inv total ps qs b out s rest :
  inv total ps b out (s ++ rest) → boring b → copied b qs s rest → inv total (ps ++ qs) b (out ++ s) rest.
Proof.
  intros [Htext Hout Hps Hf Hn Hk Hform Hset] [Hnl Hkb] (C1 & C2 & C3 & C4 & C5 & C6).
  rewrite Hnl, Hkb in *. cbn [app] in *. split; rewrite ?Hnl, ?Hkb; cbn [app]; try by left; try done.
  - by rewrite sources_app, C1, <- app_assoc.
  - by rewrite targets_app, Hout, C2.
  - by apply Forall_app.
  - apply followed_app. by rewrite C1.
  - by apply (formats_copied ps qs b).
  - done.
Qed.

(** What the scan copies. *)
Lemma scan_ok total ps b out rest :
  inv total ps b out rest → boring b →
  ∃ len ps', scan_loop (S (length rest)) b rest 0 = Ok len
    ∧ let len := (len + skip_bytes b (drop len rest))%nat in
      (len <= length rest)%nat ∧ inv total ps' b (out ++ take len rest) (drop len rest)
      ∧ match drop len rest with [] => True | c :: _ => interesting b c = true end.
Proof.
  intros Hinv Hbor. pose proof (inv_settings _ _ _ _ _ Hinv) as Hset.
  destruct (scan_loop_ok (S (length rest)) b rest 0 []) as (len & qs & Hr & Hlen & Hcop); [done| |lia|lia|done|].
  { intros Hskip. destruct (inv_formats _ _ _ _ _ Hinv) as [Hfirst _ _ Hsk].
    destruct (Hsk Hskip) as [Hne _]. rewrite Hfirst in Hne.
    pose proof (piece_newlines ps (inv_pieces _ _ _ _ _ Hinv)) as Hnls.
    destruct (newlines ps); [done|]. by apply Forall_cons in Hnls as [[? _] _]. }
  destruct (skip_bytes_ok b (drop len rest)) as (Hb1 & Hb2 & Hb3).
  set (s := take (skip_bytes b (drop len rest)) (drop len rest)) in *.
  exists len, (ps ++ (qs ++ map Plain s)). split; [done|]. cbv zeta.
  rewrite drop_drop in Hb3. rewrite length_drop in Hb1. split; [lia|]. split; [|done].
  apply copied_inv; [by rewrite take_drop|done|].
  rewrite <- take_take_drop. apply copied_app; [by rewrite <- drop_drop, take_drop|].
  destruct (plain_ok s) as (P1 & P2 & P3 & P4 & P5); [|unfold copied; by rewrite P4].
  intros He. clear -Hb2 Hset He. induction Hb2 as [|c s Hc _ IH]; [split; apply not_elem_of_nil|].
  pose proof (boring_plain b c Hset Hc He) as [Hx1 Hx2]. destruct IH. split; apply not_elem_of_cons; auto.
Qed.

Lemma enter_ok total buf cs :
  chunk_ok total buf cs → boring (cs_baton cs) → next_sign_off cs = 0%nat →
  step_ok total (entered total buf cs) (enter_interesting buf cs).
Proof.
  intros (Hle & (ps & Hinv) & _) Hbor Hsign. unfold enter_interesting. rewrite Hsign.
  destruct (update_skippable_ok _ _ _ _ _ Hinv Hbor) as [Hinv1 Hbor1].
  set (b := update_skippable (cs_baton cs)) in *. set (rest := drop (cs_p cs) buf) in *.
  pose proof (inv_settings _ _ _ _ _ Hinv1) as Hset.
  destruct (scan_ok _ _ _ _ _ Hinv1 Hbor1) as (len & ps2 & -> & Hb1 & Hinv2 & Hb3). cbn [rbind].
  set (len2 := (len + skip_bytes b (drop len rest))%nat) in *. clearbody len2.
  assert (length rest = length buf - cs_p cs)%nat as Hlr by apply length_drop.
  assert (drop len2 rest = drop (cs_p cs + len2) buf) as Hrest by (subst rest; by rewrite drop_drop).
  destruct Hbor1 as [Hnl Hkb].
  destruct (drop len2 rest) as [|c rest'] eqn:Hd.
  { cbn [step_ok]. apply (entered_plain total ps2); rewrite ?Hkb, <- ?Hrest; try done; [by left|simpl; lia| |].
    - apply (f_equal length) in Hd. rewrite length_drop in Hd. simpl in *. lia.
    - apply (f_equal length) in Hd. rewrite length_drop in Hd. simpl in *. lia. }
  assert (len2 < length rest)%nat as Hlt by (apply (f_equal length) in Hd; rewrite length_drop in Hd; simpl in Hd; lia).
  assert (cs_p cs + len2 < length buf)%nat as Hpl by lia.
  assert (buf_at buf (cs_p cs + len2) = c ∧ rest' = drop (S (cs_p cs + len2)) buf) as [Hc Hr'].
  { pose proof (drop_at buf (cs_p cs + len2) Hpl) as H. rewrite <- Hrest in H. by injection H. }
  rewrite interesting_settings in Hb3 by done.
  destruct (byte_eqb_spec c DOLLAR) as [Hcd|_]; [|destruct (byte_eqb_spec c CR) as [Hcr|_]; [|destruct (byte_eqb_spec c LF) as [Hlf|_]]].
  - assert (kws ≠ None) as Hkws.
    { intros ->. rewrite Hcd in Hb3. cbn in Hb3. by rewrite andb_false_r in Hb3. }
    unfold keyword_push. rewrite Hkb. cbn [length Nat.ltb Nat.leb rbind step_ok app].
    apply (entered_plain total ps2); cbn [keyword_buf set_keyword_buf length]; try done; try lia; [|by left].
    rewrite Hrest in Hinv2. pose proof (inv_push total ps2 b _ buf _ Hpl Hinv2) as H.
    rewrite Hc, Hkb, Hcd in H. rewrite Hcd. apply H; try done. unfold SVN_KEYWORD_MAX_LEN. simpl. lia.
  - assert (e ≠ None) as He by (intros ->; rewrite Hcr in Hb3; cbn in Hb3; by rewrite andb_false_r in Hb3).
    cbn [step_ok]. rewrite Hnl. cbn [app].
    apply (entered_plain total ps2); cbn [keyword_buf set_newline_buf]; rewrite ?Hkb; try done; cbn [length]; try lia; [|by left].
    rewrite Hcr in *. rewrite <- Hr'. by apply inv_cr.
  - assert (e ≠ None) as He by (intros ->; cbn in Hb3; by rewrite andb_false_r in Hb3).
    rewrite Hnl. cbn [app]. rewrite Hlf in *. eapply step_bind.
    { apply (newline_ok total ps2 _ _ [LF] rest'); try done. by rewrite set_newline_nop. }
    intros [b' out] (ps' & Hinv' & Hkb'). cbn [fst snd step_ok] in *.
    apply (entered_plain total ps'); cbn [keyword_buf set_newline_buf]; rewrite ?Hkb', <- ?Hr'; try done; cbn [length]; try lia. by left.
  - by rewrite !andb_false_r in Hb3.
Qed.

(** *** Chunks *)

Lemma chunk_loop_ok total buf fuel cs :
  chunk_ok total buf cs → (chunk_measure buf cs <= fuel)%nat →
  step_ok total (λ r, ∃ ps, inv total ps r.1 r.2 []) (chunk_loop fuel buf cs).
Proof.
  revert cs; induction fuel as [|fuel IH]; intros cs Hcs Hm; cbn [chunk_loop];
    destruct (Nat.leb_spec (length buf) (cs_p cs)) as [Hp|Hp].
  - destruct Hcs as (_ & (ps & Hinv) & _). exists ps. by rewrite drop_ge in Hinv.
  - unfold chunk_measure in Hm. lia.
  - destruct Hcs as (_ & (ps & Hinv) & _). exists ps. by rewrite drop_ge in Hinv.
  - eapply step_bind; [by apply leave_ok|]. intros [continue cs1] [Hcs1 Hleft]. cbn [fst snd] in *.
    destruct continue; cbn [rbind]; [apply IH; [done|lia]|].
    destruct Hleft as (Hbor & Hs & Hm1 & Hlt). eapply step_bind; [by apply enter_ok|].
    intros cs2 (Hcs2 & Hm2 & Hlt2). apply IH; [done|]. lia.
Qed.

Lemma inv_more total ps b out buf : inv total ps b out [] → inv (total ++ buf) ps b out buf.
Proof.
  intros [Htext Hout Hps Hf Hn Hk Hform Hset]. rewrite app_nil_r in Htext, Hf. split; try done.
  - by rewrite <- Htext, <- !app_assoc.
  - rewrite app_assoc. by apply followed_more.
Qed.

Lemma translate_chunk_ok total ps b out buf :
  inv total ps b out [] →
  step_ok (total ++ buf) (λ r, ∃ ps, inv (total ++ buf) ps r.1 r.2 []) (translate_chunk b (Some buf) out).
Proof.
  intros Hinv. apply chunk_loop_ok; [|done]. split; [cbn; lia|]. split; [|by left].
  exists ps. cbn [cs_baton cs_out cs_p]. rewrite drop_0. by apply inv_more.
Qed.

End Translation.
