(* ===== verification/SubstStreams.v ===== *)
(** * Translated streams: writing and reading

    Writing a text to a translated stream, in any chunks, divides it as
    [SubstCorrect] says and never leaves the keyword buffer; without keywords the
    outcome is that of a function of the text.  Reading from a translated stream,
    in any portions, delivers the same bytes as writing.

    Whatever portions are asked for, reading delivers the bytes that writing the
    text in full chunks to a translated stream gives. *)
From S2P Require Import Prelude Cstrings Paths Subst SubstCorrect.

Implicit Types (buf name value s out rest total nl kw text : list byte) (ps : list piece).

(** ** Line ends of a text *)

Fixpoint convert_eols (eol : list byte) s : list byte :=
  match s with
  | [] => []
  | c :: s' =>
      if c =b? CR then
        eol ++ match s' with
               | d :: s'' => if d =b? LF then convert_eols eol s'' else convert_eols eol s'
               | [] => []
               end
      else if c =b? LF then eol ++ convert_eols eol s' else c :: convert_eols eol s'
  end.

Fixpoint eols s : list (list byte) :=
  match s with
  | [] => []
  | c :: s' =>
      if c =b? CR then
        match s' with
        | d :: s'' => if d =b? LF then [CR; LF] :: eols s'' else [CR] :: eols s'
        | [] => [[CR]]
        end
      else if c =b? LF then [LF] :: eols s' else eols s'
  end.

(** All line ends have the form of the first. *)
Definition one_eol (nls : list (list byte)) : bool :=
  match nls with [] => true | nl :: nls => forallb (λ nl', bool_decide (nl' = nl)) nls end.

Lemma one_eol_spec nls : one_eol nls = true ↔ ∀ a c, a ∈ nls → c ∈ nls → a = c.
Proof.
  destruct nls as [|nl nls]; cbn; [set_solver|]. rewrite forallb_forall. split.
  - intros H. assert (∀ a, a ∈ nl :: nls → a = nl) as Hall.
    { intros a [->|Ha]%elem_of_cons; [done|]. apply list_elem_of_In in Ha.
      by apply (bool_decide_eq_true_1 _ (H a Ha)). }
    intros a c Ha Hc. by rewrite (Hall a Ha), (Hall c Hc).
  - intros H a Ha%list_elem_of_In. apply bool_decide_eq_true_2, H; set_solver.
Qed.

Lemma convert_eols_plain eol s rest : CR ∉ s → LF ∉ s → convert_eols eol (s ++ rest) = s ++ convert_eols eol rest.
Proof.
  induction s as [|c s IH]; [done|]. intros [H1 H2]%not_elem_of_cons [H3 H4]%not_elem_of_cons. cbn.
  rewrite (proj2 (byte_eqb_ne c CR)), (proj2 (byte_eqb_ne c LF)) by done. by rewrite IH.
Qed.

Lemma eols_plain s rest : CR ∉ s → LF ∉ s → eols (s ++ rest) = eols rest.
Proof.
  induction s as [|c s IH]; [done|]. intros [H1 H2]%not_elem_of_cons [H3 H4]%not_elem_of_cons. cbn.
  rewrite (proj2 (byte_eqb_ne c CR)), (proj2 (byte_eqb_ne c LF)) by done. by rewrite IH.
Qed.

Lemma convert_eols_cons eol c s : c ≠ CR → c ≠ LF → convert_eols eol (c :: s) = c :: convert_eols eol s.
Proof. intros H1 H2. apply (convert_eols_plain eol [c]); set_solver. Qed.

Lemma eols_cons c s : c ≠ CR → c ≠ LF → eols (c :: s) = eols s.
Proof. intros H1 H2. apply (eols_plain [c]); set_solver. Qed.

Lemma convert_eols_newline eol nl rest :
  STRING_IS_EOL nl = true → (nl = [CR] → head rest ≠ Some LF) →
  convert_eols eol (nl ++ rest) = eol ++ convert_eols eol rest.
Proof.
  intros [->|[->| ->]]%eol_cases Hcr; [done..|]. cbn. destruct rest as [|d rest]; [done|].
  rewrite (proj2 (byte_eqb_ne d LF)); [done|]. intros ->. by apply Hcr.
Qed.

Lemma eols_newline nl rest :
  STRING_IS_EOL nl = true → (nl = [CR] → head rest ≠ Some LF) → eols (nl ++ rest) = nl :: eols rest.
Proof.
  intros [->|[->| ->]]%eol_cases Hcr; [done..|]. cbn. destruct rest as [|d rest]; [done|].
  rewrite (proj2 (byte_eqb_ne d LF)); [done|]. intros ->. by apply Hcr.
Qed.

(** A carriage return that is a line end has no line feed after it. *)
Fixpoint unsplit ps rest : Prop :=
  match ps with
  | [] => True
  | x :: ps => (x = Newline [CR] → head (sources ps ++ rest) ≠ Some LF) ∧ unsplit ps rest
  end.

Lemma followed_unsplit ps rest : followed ps rest → unsplit ps rest.
Proof.
  induction ps as [|x ps IH]; cbn; [done|]. intros [Hx Hps]. split; [|by apply IH].
  intros Hn. destruct (Hx Hn) as (c & -> & Hc). congruence.
Qed.

Lemma unsplit_app ps qs rest :
  unsplit (ps ++ qs) rest ↔ unsplit ps (sources qs ++ rest) ∧ unsplit qs rest.
Proof.
  induction ps as [|x ps IH]; simpl; [tauto|]. rewrite sources_app, <- app_assoc, IH. tauto.
Qed.

Section Streams.
Variables (e : option (list byte)) (rp ex : bool) (kws : option keywords_t) (t0 : option bool).

Lemma pieces_eols ps rest :
  e ≠ None → Forall (piece_ok e ex kws) ps → unsplit ps rest → eols (sources ps ++ rest) = newlines ps ++ eols rest.
Proof.
  intros He. induction ps as [|x ps IH]; intros Hps Hu; [done|].
  apply Forall_cons in Hps as [Hx Hps]. destruct Hu as [Hcr Hu]. specialize (IH Hps Hu).
  change (sources (x :: ps)) with (source x ++ sources ps). rewrite <- app_assoc.
  destruct x as [c|nl|kw kw']; cbn [source newlines].
  - destruct (Hx He). cbn [app]. rewrite eols_cons by done. done.
  - destruct Hx as [_ Hnl]. rewrite eols_newline, IH; [done|done|]. intros ->. by apply Hcr.
  - destruct Hx as ((_ & H1 & H2) & _). by rewrite eols_plain.
Qed.

Lemma pieces_convert eol ps rest :
  e = Some eol → kws = None → Forall (piece_ok e ex kws) ps → unsplit ps rest →
  convert_eols eol (sources ps ++ rest) = targets e ps ++ convert_eols eol rest.
Proof.
  intros He Hk. induction ps as [|x ps IH]; intros Hps Hu; [done|].
  apply Forall_cons in Hps as [Hx Hps]. destruct Hu as [Hcr Hu]. specialize (IH Hps Hu).
  change (sources (x :: ps)) with (source x ++ sources ps). change (targets e (x :: ps)) with (target e x ++ targets e ps).
  rewrite <- !app_assoc. destruct x as [c|nl|kw kw']; cbn [source target].
  - destruct Hx as [H1 H2]; [by rewrite He|]. cbn [app]. rewrite convert_eols_cons by done. cbn. by rewrite IH.
  - destruct Hx as [_ Hnl]. rewrite convert_eols_newline, IH; [by rewrite He|done|]. intros ->. by apply Hcr.
  - destruct Hx as (_ & Hm & _). by rewrite Hk in Hm.
Qed.

(** Without line-end translation no byte is a line end. *)
Lemma pieces_no_eol ps : e = None → Forall (piece_ok e ex kws) ps → newlines ps = [].
Proof. intros ->. induction 1 as [|[] ps Hx _ IH]; [done|done|by destruct Hx|done]. Qed.

Lemma pieces_copy ps : e = None → kws = None → Forall (piece_ok e ex kws) ps → targets e ps = sources ps.
Proof.
  intros He Hk. induction 1 as [|[] ps Hx _ IH]; [done|..].
  - unfold targets, sources in *. cbn. by rewrite IH.
  - destruct Hx as [Hx _]. by destruct Hx.
  - destruct Hx as (_ & Hm & _). by rewrite Hk in Hm.
Qed.

Hypothesis eol_known : e = None ∨ e = Some [LF] ∨ e = Some [CR] ∨ e = Some [CR; LF].
Hypothesis values_fit : ∀ (h : keywords_t) (k v : list byte), kws = Some h → h !! k = Some v → (length k + length v <= 250)%nat.

(** ** A finished text *)

Record divided text ps (b : translation_baton) out : Prop := {
  divided_text : sources ps = text;
  divided_out : targets e ps = out;
  divided_pieces : Forall (piece_ok e ex kws) ps;
  divided_unsplit : unsplit ps [];
  divided_formats : formats e rp t0 ps b;
}.

Definition finish_ok text (r : result (translation_baton * list byte)) : Prop :=
  match r with
  | Ok (b, out) => ∃ ps, divided text ps b out
  | Error err => err = SVN_ERR_IO_INCONSISTENT_EOL ∧ inconsistent e rp ex kws text
  | _ => False
  end.

Lemma translate_flush_ok text ps b out :
  inv e rp ex kws t0 text ps b out [] → finish_ok text (translate_flush b out).
Proof.
  intros [Htext Hout Hps Hf Hn Hk Hform Hset]. unfold translate_flush.
  destruct Hn as [Hnl|(Hnl & Hkb & He)]; rewrite Hnl in *; cbn [app] in *.
  - cbn [rbind]. rewrite app_nil_r in Htext, Hf.
    destruct (keyword_buf b) as [|k kb] eqn:Hkb.
    { cbn. exists ps. rewrite app_nil_r in Htext. split; try done. by apply followed_unsplit. }
    rewrite <- Hkb in *. destruct Hk as [Hk|((_ & K2 & K3) & _)]; [by rewrite Hk in Hkb|].
    cbn [flush_keyword finish_ok].
    destruct (plain_ok e ex kws (keyword_buf b) (λ _, conj K2 K3)) as (P1 & P2 & P3 & P4 & P5).
    exists (ps ++ map Plain (keyword_buf b)). split.
    + by rewrite sources_app, P1.
    + by rewrite targets_app, P2, Hout.
    + by apply Forall_app.
    + apply unsplit_app. rewrite P1, app_nil_r. split; apply followed_unsplit; [done|apply P5].
    + by apply (formats_no_newlines e rp t0 ps _ b).
  - rewrite Hkb in *. cbn [app] in *.
    destruct (translate_newline_ok e rp ex kws t0 ps b [CR] out He eq_refl Hps Hform Hset)
      as [(b' & -> & Hform' & Hset' & Hn' & Hk')|(-> & Hrp & nl' & Hin & Hne)]; cbn [rbind finish_ok].
    + cbn [keyword_buf set_newline_buf]. rewrite Hk', Hkb. exists (ps ++ [Newline [CR]]). split.
      * by rewrite sources_app, <- Htext.
      * rewrite targets_app, Hout. unfold targets. cbn. by rewrite app_nil_r.
      * apply Forall_app. by repeat constructor.
      * apply unsplit_app. split; [by apply followed_unsplit|]. by split.
      * destruct Hform'. by split.
    + split; [done|]. split; [done|]. by exists ps, [CR], nl', [].
Qed.

(** Chunks in a row, then the flush. *)
Fixpoint translate_chunks (b : translation_baton) (chunks : list (list byte)) out
    : result (translation_baton * list byte) :=
  match chunks with
  | [] => translate_flush b out
  | buf :: chunks => let! (b, out) := translate_chunk b (Some buf) out in translate_chunks b chunks out
  end.

Lemma translate_chunks_ok chunks total ps b out :
  inv e rp ex kws t0 total ps b out [] → finish_ok (total ++ concat chunks) (translate_chunks b chunks out).
Proof.
  revert total ps b out; induction chunks as [|buf chunks IH]; intros total ps b out Hinv; cbn [translate_chunks concat].
  { rewrite app_nil_r. by eapply translate_flush_ok. }
  pose proof (translate_chunk_ok e rp ex kws t0 eol_known values_fit total ps b out buf Hinv) as Hc.
  destruct (translate_chunk b (Some buf) out) as [[b' out']|err| | |]; cbn [step_ok rbind] in *; try done.
  - destruct Hc as [ps' Hinv']. rewrite app_assoc. by eapply IH.
  - destruct Hc as [-> Hin]. split; [done|]. by rewrite app_assoc.
Qed.

Lemma inv_start : inv e rp ex kws t0 [] [] (MkBaton e t0 rp kws ex [] [] [] svn_tristate_unknown) [] [].
Proof. split; cbn; try done; [by left|by left|]. split; cbn; try done. unfold flag. by destruct t0 as [[]|]. Qed.

Lemma inconsistent_eols text :
  inconsistent e rp ex kws text → rp = false ∧ e ≠ None ∧ one_eol (eols text) = false.
Proof.
  intros (Hrp & ps & nl & nl' & rest & Hps & <- & Hf & Hnl & Hcr & Hin & Hne). split; [done|].
  assert (e ≠ None) as He.
  { intros He. rewrite (pieces_no_eol ps He Hps) in Hin. by apply not_elem_of_nil in Hin. }
  split; [done|]. rewrite pieces_eols by (try done; by apply followed_unsplit). rewrite eols_newline by done.
  destruct (one_eol _) eqn:H; [|done]. destruct Hne. apply (proj1 (one_eol_spec _) H); set_solver.
Qed.

Lemma divided_eols text ps b out :
  divided text ps b out → e ≠ None → newlines ps = eols text ∧ (rp = false → one_eol (eols text) = true).
Proof.
  intros [<- _ Hps Hu Hform] He. pose proof (pieces_eols ps [] He Hps Hu) as Heq.
  rewrite !app_nil_r in Heq. split; [done|]. intros Hrp. rewrite Heq. apply one_eol_spec.
  pose proof (formats_same _ _ _ _ _ Hform Hrp) as Hall. rewrite Forall_forall in Hall.
  intros a c Ha Hc. by rewrite (Hall a Ha), (Hall c Hc).
Qed.

(** The line ends alone decide whether there is an error. *)
Lemma translate_chunks_outcome chunks :
  match translate_chunks (MkBaton e t0 rp kws ex [] [] [] svn_tristate_unknown) chunks [] with
  | Ok (b, out) =>
      (∃ ps, divided (concat chunks) ps b out) ∧ (e = None ∨ rp || one_eol (eols (concat chunks)) = true)
  | Error err =>
      err = SVN_ERR_IO_INCONSISTENT_EOL ∧ e ≠ None ∧ rp || one_eol (eols (concat chunks)) = false
  | _ => False
  end.
Proof.
  pose proof (translate_chunks_ok chunks [] [] _ [] inv_start) as H. cbn [app] in H.
  destruct (translate_chunks _ chunks []) as [[b out]|err| | |]; cbn [finish_ok] in H; try done.
  - split; [done|]. destruct H as [ps Hd]. destruct (decide (e = None)) as [|He]; [by left|]. right.
    destruct rp eqn:Hrp; [done|]. cbn. by apply (divided_eols _ ps b out).
  - destruct H as [-> (-> & He & ->)%inconsistent_eols]. done.
Qed.

End Streams.

(** ** Writing *)

Fixpoint stream_write_all (b : translated_stream_baton) (chunks : list (list byte))
    : result translated_stream_baton :=
  match chunks with
  | [] => translated_stream_close b
  | buffer :: chunks => let! b := translated_stream_write b buffer in stream_write_all b chunks
  end.

Definition written_stream (b : translated_stream_baton) (r : translation_baton * list byte)
    : translated_stream_baton :=
  MkStream (to_read b) r.2 (in_baton b) r.1 true (readbuf b) (readbuf_off b).

Lemma stream_write_all_chunks b chunks :
  written b = true ∨ chunks ≠ [] →
  stream_write_all b chunks
  = (let! r := translate_chunks (out_baton b) chunks (written_out b) in Ok (written_stream b r)).
Proof.
  revert b; induction chunks as [|buffer chunks IH]; intros b Hw; cbn [stream_write_all translate_chunks].
  - destruct Hw as [Hw|]; [|done]. unfold translated_stream_close. rewrite Hw. cbn [translate_chunk].
    by destruct (translate_flush _ _) as [[]| | | |].
  - unfold translated_stream_write.
    destruct (translate_chunk (out_baton b) (Some buffer) (written_out b)) as [[outb out]| | | |]; try done.
    cbn [rbind]. rewrite IH by by left. by destruct (translate_chunks _ _ _).
Qed.

Lemma stream_write_all_start e t0 rp kws ex chunks :
  let b := stream_translated [] [] e t0 rp kws ex in
  match stream_write_all b chunks, translate_chunks (out_baton b) chunks [] with
  | Ok b', Ok (outb, out) => written_out b' = out ∧ translated_eol (out_baton b') = translated_eol outb
  | Error err, Error err' => err = err'
  | Undefined, Undefined | Aborted, Aborted | OutOfFuel, OutOfFuel => True
  | _, _ => False
  end.
Proof.
  intros b. destruct chunks as [|buffer chunks]; [done|].
  rewrite stream_write_all_chunks by by right. by destruct (translate_chunks _ _ _) as [[]| | | |].
Qed.

Definition eol_string (e : option (list byte)) : Prop :=
  e = None ∨ e = Some [LF] ∨ e = Some [CR] ∨ e = Some [CR; LF].

(** Keywords and values that the keyword buffer has room for. *)
Definition keywords_fit (kws : option keywords_t) : Prop :=
  ∀ (h : keywords_t) (k v : list byte), kws = Some h → h !! k = Some v → (length k + length v <= 250)%nat.

Lemma create_keywords_fit e t0 rp kws ex :
  keywords_fit kws → keywords_fit (keywords (create_translation_baton e t0 rp kws ex)).
Proof.
  intros H h k v. cbn. destruct kws as [h'|]; [|done]. case_match; [done|]. intros [= <-]. by apply H.
Qed.


Lemma translated_stream_write_eols_ok e t0 rp ex chunks :
  eol_string e →
  let r := stream_write_all (stream_translated [] [] e t0 rp None ex) chunks in
  let text := concat chunks in
  let eol := default [] e in
  if bool_decide (e = None) || rp || one_eol (eols text) then
    ∃ b, r = Ok b ∧ written_out b = (if bool_decide (e = None) then text else convert_eols eol text)
      ∧ translated_eol (out_baton b)
        = option_map (λ t, t || (bool_decide (e ≠ None)
            && existsb (λ nl, negb (bool_decide (eol = nl))) (eols text))) t0
  else r = Error SVN_ERR_IO_INCONSISTENT_EOL.
Proof.
  intros He r text eol. pose proof (stream_write_all_start e t0 rp None ex chunks) as Hw. cbv zeta in Hw. fold r in Hw.
  pose proof (translate_chunks_outcome e rp ex None t0 He ltac:(done) chunks) as Hc.
  change (MkBaton _ _ _ _ _ _ _ _ _) with (out_baton (stream_translated [] [] e t0 rp None ex)) in Hc.
  destruct r as [b|err| | |], (translate_chunks _ chunks []) as [[outb out]|err'| | |]; try done.
  - destruct Hw as [Hout Hfl], Hc as [(ps & Hd) Hcond]. fold text in Hd, Hcond.
    assert (bool_decide (e = None) || rp || one_eol (eols text) = true) as ->.
    { destruct Hcond as [->|Hc]; [done|]. by rewrite <- orb_assoc, Hc, orb_true_r. }
    exists b. split; [done|]. rewrite Hout, Hfl. pose proof Hd as [Htext <- Hps Hu Hform].
    rewrite (formats_flag _ _ _ _ _ Hform). unfold flag. fold eol. destruct e as [eol'|].
    + destruct (divided_eols _ _ _ _ _ _ _ _ _ Hd) as [-> _]; [done|]. split; [|done].
      pose proof (pieces_convert (Some eol') ex None eol' ps [] eq_refl eq_refl Hps Hu) as H.
      cbn in *. by rewrite !app_nil_r, Htext in H.
    + cbn. rewrite (pieces_copy None ex None ps) by done. split; [done|].
      by rewrite (pieces_no_eol None ex None ps).
  - subst err'. destruct Hc as (-> & Hne & Hc). fold text in Hc.
    by rewrite (bool_decide_eq_false_2 (e = None)), <- orb_assoc, Hc by done.
Qed.

(** ** Strings *)

(** A text is plain bytes and line ends. *)
Lemma text_ind (P : list byte → Prop) :
  P [] → (∀ c s, c ≠ CR → c ≠ LF → P s → P (c :: s)) →
  (∀ nl s, STRING_IS_EOL nl = true → (nl = [CR] → head s ≠ Some LF) → P s → P (nl ++ s)) → ∀ s, P s.
Proof.
  intros Hnil Hc Hnl s. remember (length s) as n eqn:Hn. revert s Hn.
  induction n as [n IH] using lt_wf_ind; intros s ->.
  destruct s as [|c s]; [done|]. assert (P s) as Hs by (apply (IH (length s)); [simpl; lia|done]).
  destruct (decide (c = CR)) as [->|Hcr]; [|destruct (decide (c = LF)) as [->|Hlf]].
  - destruct s as [|d s]; [by apply (Hnl [CR] [])|]. destruct (decide (d = LF)) as [->|Hd].
    + apply (Hnl [CR; LF] s); [done|done|]. apply (IH (length s)); [simpl; lia|done].
    + apply (Hnl [CR] (d :: s)); [done| |done]. intros _ [= ->]. done.
  - by apply (Hnl [LF] s).
  - by apply Hc.
Qed.

Lemma eol_string_cases eol : eol_string (Some eol) → STRING_IS_EOL eol = true.
Proof. by intros [|[[= ->]|[[= ->]|[= ->]]]]. Qed.

(** No converted text starts with the second half of its own line end. *)
Lemma convert_eols_head eol s :
  eol_string (Some eol) → eol = [CR] → head (convert_eols eol s) ≠ Some LF.
Proof.
  intros He ->. induction s as [|c s Hcr Hlf IH|nl s Hnl Hcr IH] using text_ind; [done|..].
  - rewrite convert_eols_cons by done. cbn. congruence.
  - by rewrite convert_eols_newline.
Qed.

Lemma convert_convert_eols eol eol' s :
  eol_string (Some eol) → convert_eols eol' (convert_eols eol s) = convert_eols eol' s.
Proof.
  intros He. induction s as [|c s Hcr Hlf IH|nl s Hnl Hcr IH] using text_ind; [done|..].
  - rewrite !convert_eols_cons by done. by rewrite IH.
  - rewrite !convert_eols_newline, IH; auto using eol_string_cases, convert_eols_head.
Qed.

Lemma eols_convert_eols eol s :
  eol_string (Some eol) → eols (convert_eols eol s) = map (λ _, eol) (eols s).
Proof.
  intros He. induction s as [|c s Hcr Hlf IH|nl s Hnl Hcr IH] using text_ind; [done|..].
  - rewrite convert_eols_cons by done.
    by rewrite !eols_cons by done.
  - rewrite convert_eols_newline, !eols_newline, IH; auto using eol_string_cases, convert_eols_head.
Qed.

Lemma convert_eols_same eol s : Forall (λ nl, nl = eol) (eols s) → convert_eols eol s = s.
Proof.
  induction s as [|c s Hcr Hlf IH|nl s Hnl Hcr IH] using text_ind; [done|..].
  - rewrite eols_cons by done.
    rewrite convert_eols_cons by done. intros H. cbn. by rewrite IH.
  - rewrite eols_newline by done. intros [-> H]%Forall_cons. by rewrite convert_eols_newline, IH.
Qed.

Lemma convert_eols_no_nul eol s : NUL ∉ eol → NUL ∉ s → NUL ∉ convert_eols eol s.
Proof.
  intros He. induction s as [|c s Hcr Hlf IH|nl s Hnl Hcr IH] using text_ind; [done|..].
  - rewrite convert_eols_cons by done. set_solver.
  - rewrite convert_eols_newline by done. set_solver.
Qed.

Lemma one_eol_const eol (nls : list (list byte)) : one_eol (map (λ _, eol) nls) = true.
Proof. apply one_eol_spec. intros a c (? & -> & _)%list_elem_of_fmap (? & -> & _)%list_elem_of_fmap. done. Qed.

Lemma eol_no_nul eol : eol_string (Some eol) → NUL ∉ eol.
Proof. intros [|[[= ->]|[[= ->]|[= ->]]]]; [done|..]; intros H; set_unfold in H; by intuition. Qed.

(** The line ends of a string are all replaced, or have different forms. *)
Lemma svn_subst_translate_cstring2_eols src eol rp ex :
  eol_string (Some eol) → NUL ∉ src →
  svn_subst_translate_cstring2 src (Some eol) rp None ex
  = if rp || one_eol (eols src) then Ok (convert_eols eol src) else Error SVN_ERR_IO_INCONSISTENT_EOL.
Proof.
  intros He Hnul. unfold svn_subst_translate_cstring2, translate_cstring. rewrite cstring_no_nul by done.
  cbn [option_map]. rewrite (bool_decide_eq_true_2 (Some eol ≠ None)) by done. cbn [orb negb].
  pose proof (translated_stream_write_eols_ok (Some eol) None rp ex [src] He) as H.
  cbn [stream_write_all concat default from_option] in H. rewrite app_nil_r in H.
  rewrite bool_decide_eq_false_2 in H by done. cbn [orb] in H. destruct (rp || one_eol (eols src)).
  - destruct H as (b & Hb & Hout & _). destruct (translated_stream_write _ src) as [b1| | | |]; try done.
    cbn [rbind] in *. rewrite Hb. cbn [rbind]. rewrite Hout, cstring_no_nul; [done|].
    by apply convert_eols_no_nul; [apply eol_no_nul|].
  - destruct (translated_stream_write _ src) as [b1| | | |]; try done; cbn [rbind] in *; by rewrite ?H; simplify_eq.
Qed.

(** Translating the line ends of a string and translating them back gives
    the string: the intermediate text has only the wanted line end, and
    translating it again, without repair, gives what translating the
    original with repair gives. *)
Theorem svn_subst_translate_cstring2_back src eol eol' rp ex :
  eol_string (Some eol) → eol_string (Some eol') → NUL ∉ src → rp || one_eol (eols src) = true →
  ∃ dst, svn_subst_translate_cstring2 src (Some eol) rp None ex = Ok dst
    ∧ eols dst = map (λ _, eol) (eols src)
    ∧ svn_subst_translate_cstring2 dst (Some eol') false None ex
      = svn_subst_translate_cstring2 src (Some eol') true None ex
    ∧ (Forall (λ nl, nl = eol') (eols src) →
       svn_subst_translate_cstring2 dst (Some eol') false None ex = Ok src).
Proof.
  intros He He' Hnul Hone. exists (convert_eols eol src).
  assert (NUL ∉ convert_eols eol src) as Hnul' by by apply convert_eols_no_nul; [apply eol_no_nul|].
  rewrite !svn_subst_translate_cstring2_eols, eols_convert_eols, one_eol_const, convert_convert_eols by done.
  rewrite Hone. cbn [orb]. split_and!; try done. intros H. by rewrite convert_eols_same.
Qed.

Lemma svn_subst_translate_cstring2_back_witness :
  ∃ dst, svn_subst_translate_cstring2 [x61; LF; x62; LF] (Some [CR; LF]) false None true = Ok dst
    ∧ eols dst = map (λ _, [CR; LF]) (eols [x61; LF; x62; LF])
    ∧ svn_subst_translate_cstring2 dst (Some [LF]) false None true
      = svn_subst_translate_cstring2 [x61; LF; x62; LF] (Some [LF]) true None true
    ∧ (Forall (λ nl, nl = [LF]) (eols [x61; LF; x62; LF]) →
       svn_subst_translate_cstring2 dst (Some [LF]) false None true = Ok [x61; LF; x62; LF]).
Proof.
  apply (svn_subst_translate_cstring2_back [x61; LF; x62; LF] [CR; LF] [LF]).
  - by right; right; right.
  - by right; left.
  - by apply (bool_decide_eq_true_1 _).
  - reflexivity.
Defined.


(** C23: Without keywords the outcome of writing a text to a translated
    stream does not depend on how it is cut into chunks: the quick scan, the
    buffered carriage return and the skipping of unchanged line ends give
    the same bytes as replacing every LF, CR and CRLF of the whole text, the
    flag of changed line ends is the one of the whole text, and a text with
    different line ends is rejected unless it is to be repaired. *)
Theorem translated_stream_write_eols e t0 rp ex chunks :
  eol_string e →
  let r := stream_write_all (stream_translated [] [] e t0 rp None ex) chunks in
  let text := concat chunks in
  let eol := default [] e in
  if bool_decide (e = None) || rp || one_eol (eols text) then
    ∃ b, r = Ok b ∧ written_out b = (if bool_decide (e = None) then text else convert_eols eol text)
      ∧ translated_eol (out_baton b)
        = option_map (λ t, t || (bool_decide (e ≠ None)
            && existsb (λ nl, negb (bool_decide (eol = nl))) (eols text))) t0
  else r = Error SVN_ERR_IO_INCONSISTENT_EOL.
Proof. apply translated_stream_write_eols_ok. Qed.

Lemma translated_stream_write_eols_witness :
  let r := stream_write_all (stream_translated [] [] (Some [LF]) (Some false) true None false) [[x61; CR]; [LF; x62; CR]] in
  let text := concat [[x61; CR]; [LF; x62; CR]] in
  let eol := default [] (Some [LF]) in
  if bool_decide (Some [LF] = None) || true || one_eol (eols text) then
    ∃ b, r = Ok b ∧ written_out b = (if bool_decide (Some [LF] = None) then text else convert_eols eol text)
      ∧ translated_eol (out_baton b)
        = option_map (λ t, t || (bool_decide (Some [LF] ≠ None)
            && existsb (λ nl, negb (bool_decide (eol = nl))) (eols text))) (Some false)
  else r = Error SVN_ERR_IO_INCONSISTENT_EOL.
Proof. apply (translated_stream_write_eols (Some [LF]) (Some false) true false). by right; left. Defined.

(** With keywords the cutting of the text matters: the start of a further keyword
    inside a candidate is forgotten with the chunk. *)
Lemma translated_stream_chunks_matter :
  let kws : option keywords_t := Some {[ bytes_of "Rev" := bytes_of "42" ]} in
  let b := stream_translated [] [] None None false kws true in
  let out r := match r with Ok b => Some (written_out b) | _ => None end in
  out (stream_write_all b [bytes_of "$Rev:a$Rev$" ++ [LF]]) = Some (bytes_of "$Rev:a$Rev: 42 $" ++ [LF])
  ∧ out (stream_write_all b [bytes_of "$Rev:a$"; bytes_of "Rev$" ++ [LF]]) = Some (bytes_of "$Rev:a$Rev$" ++ [LF]).
Proof. split; vm_compute; reflexivity. Qed.

(** ** Reading from a translated stream *)

Implicit Types (buffer : list byte).

(** ** Output is only appended *)

Definition after {A} (p : list byte) (r : result (A * list byte)) : result (A * list byte) :=
  let! (b, out) := r in Ok (b, p ++ out).

Definition shift (p : list byte) (cs : chunk_state) : chunk_state :=
  MkChunk (cs_baton cs) (p ++ cs_out cs) (cs_p cs) (next_sign_off cs).

Definition shifted (p : list byte) (r : result (bool * chunk_state)) : result (bool * chunk_state) :=
  let! (continue, cs) := r in Ok (continue, shift p cs).

Lemma translate_newline_after b nl p out :
  translate_newline b nl (p ++ out) = after p (translate_newline b nl out).
Proof.
  unfold translate_newline, after, guarded. destruct (STRING_IS_EOL nl); [|done].
  destruct (src_format b); [|destruct (negb (repair b) && _)]; cbn [rbind]; by rewrite ?app_assoc.
Qed.

Lemma at_dollar_shift b p out q ns : at_dollar b (p ++ out) q ns = shifted p (at_dollar b out q ns).
Proof.
  unfold at_dollar, shifted. destruct (keyword_push b DOLLAR) as [b1| | | |]; cbn [rbind]; try done.
  destruct (match_keyword _ _); [|unfold flush_keyword, shift; cbn; by rewrite app_assoc].
  destruct (translate_keyword _ _ _ _) as [[kw|]| | | |]; cbn [rbind]; try done;
    [unfold flush_keyword, shift; cbn; by rewrite app_assoc|].
  destruct (_ <=? _)%nat; unfold flush_keyword, shift; cbn; by rewrite ?app_assoc.
Qed.

Lemma no_keyword_shift b p out q ns : no_keyword b (p ++ out) q ns = shifted p (no_keyword b out q ns).
Proof.
  unfold no_keyword, shifted. destruct (0 <? ns)%nat; [destruct (_ <? _)%nat; [done|]|];
    cbn [rbind]; unfold flush_keyword, shift; cbn; by rewrite app_assoc.
Qed.

Lemma leave_interesting_shift buf p cs :
  leave_interesting buf (shift p cs) = shifted p (leave_interesting buf cs).
Proof.
  unfold leave_interesting. cbn [shift cs_baton cs_out cs_p next_sign_off].
  destruct (newline_buf (cs_baton cs)) as [|n nb].
  - destruct (keyword_buf (cs_baton cs)) eqn:Hkb; [done|]. rewrite <- Hkb. destruct (_ =b? DOLLAR); [apply at_dollar_shift|].
    destruct (_ || _ || _).
    + rewrite no_keyword_shift. by destruct (no_keyword _ _ _ _) as [[]| | | |].
    + by destruct (keyword_push _ _).
  - destruct (_ =b? LF); rewrite translate_newline_after; by destruct (translate_newline _ _ _) as [[]| | | |].
Qed.

Lemma enter_interesting_shift buf p cs :
  enter_interesting buf (shift p cs) = (let! cs := enter_interesting buf cs in Ok (shift p cs)).
Proof.
  unfold enter_interesting. cbn [shift cs_baton cs_out cs_p next_sign_off].
  destruct (scan_loop _ _ _ _) as [len| | | |]; try done. cbn [rbind].
  destruct (drop _ (drop _ buf)) as [|c rest]; [unfold shift; cbn; by rewrite app_assoc|].
  destruct (c =b? DOLLAR); [|destruct (c =b? CR); [|destruct (c =b? LF)]].
  - destruct (keyword_push _ _); cbn [rbind]; unfold shift; cbn; by rewrite ?app_assoc.
  - unfold shift; cbn; by rewrite app_assoc.
  - rewrite <- app_assoc, translate_newline_after. by destruct (translate_newline _ _ _) as [[]| | | |].
  - unfold shift; cbn; by rewrite app_assoc.
Qed.

Lemma chunk_loop_after fuel buf p cs : chunk_loop fuel buf (shift p cs) = after p (chunk_loop fuel buf cs).
Proof.
  revert cs; induction fuel as [|fuel IH]; intros cs; cbn [chunk_loop shift cs_p].
  { by destruct (_ <=? _)%nat. }
  destruct (_ <=? _)%nat; [done|]. fold (shift p cs). rewrite leave_interesting_shift.
  destruct (leave_interesting buf cs) as [[[] cs1]| | | |]; try done; cbn [shifted rbind]; [apply IH|].
  rewrite enter_interesting_shift. destruct (enter_interesting buf cs1); try done. apply IH.
Qed.

Lemma translate_flush_after b p out : translate_flush b (p ++ out) = after p (translate_flush b out).
Proof.
  unfold translate_flush. destruct (newline_buf b) as [|n nb].
  - cbn [rbind]. destruct (keyword_buf b); [done|]. unfold flush_keyword, after; cbn. by rewrite app_assoc.
  - rewrite translate_newline_after. destruct (translate_newline _ _ _) as [[b' out']| | | |]; try done.
    cbn [after rbind]. destruct (keyword_buf (set_newline_buf b' [])); [done|].
    unfold flush_keyword; cbn. by rewrite app_assoc.
Qed.

Lemma translate_chunk_after b (obuf : option (list byte)) p out :
  translate_chunk b obuf (p ++ out) = after p (translate_chunk b obuf out).
Proof.
  destruct obuf as [buf|]; cbn [translate_chunk]; [|apply translate_flush_after].
  apply (chunk_loop_after _ buf p (MkChunk b out 0 0)).
Qed.

Lemma after_after {A} (p q : list byte) (r : result (A * list byte)) : after p (after q r) = after (p ++ q) r.
Proof. destruct r as [[b out]| | | |]; cbn; by rewrite <- ?app_assoc. Qed.

Lemma translate_chunks_after b chunks p out :
  translate_chunks b chunks (p ++ out) = after p (translate_chunks b chunks out).
Proof.
  revert b out; induction chunks as [|buf chunks IH]; intros b out; cbn [translate_chunks].
  { apply translate_flush_after. }
  rewrite translate_chunk_after. destruct (translate_chunk b (Some buf) out) as [[b' out']| | | |]; try done.
  apply IH.
Qed.

(** A flushed baton has nothing left. *)
Lemma translate_flush_boring b out b' out' :
  translate_flush b out = Ok (b', out') → boring b'.
Proof.
  unfold translate_flush. destruct (newline_buf b) as [|n nb] eqn:Hn.
  - cbn [rbind]. destruct (keyword_buf b) eqn:Hk; [by intros [= <- <-]|]. by intros [= <- <-].
  - destruct (translate_newline _ _ _) as [[b1 out1]| | | |]; try done. cbn [rbind].
    destruct (keyword_buf (set_newline_buf b1 [])) eqn:Hk; by intros [= <- <-].
Qed.

Lemma translate_empty b out : translate_chunk b (Some []) out = Ok (b, out).
Proof. unfold translate_chunk. by destruct (chunk_measure [] _). Qed.

Lemma translate_flush_nothing b out : boring b → translate_flush b out = Ok (b, out).
Proof. intros [H1 H2]. unfold translate_flush. rewrite H1. cbn [rbind]. by rewrite H2. Qed.

(** ** Reading *)

(** The text as it is read: full chunks, then a shorter one. *)
Fixpoint cut (fuel : nat) text : list (list byte) :=
  if (length text <? SVN__STREAM_CHUNK_SIZE)%nat then [text]
  else
    match fuel with
    | O => []
    | S fuel => take SVN__STREAM_CHUNK_SIZE text :: cut fuel (drop SVN__STREAM_CHUNK_SIZE text)
    end.

Definition full_chunks text : list (list byte) := cut (length text) text.

Lemma chunk_size_pos : (0 < SVN__STREAM_CHUNK_SIZE)%nat.
Proof. unfold SVN__STREAM_CHUNK_SIZE. lia. Qed.

#[local] Opaque SVN__STREAM_CHUNK_SIZE.

Lemma cut_fuel fuel fuel' text :
  (length text <= fuel)%nat → (length text <= fuel')%nat → cut fuel text = cut fuel' text.
Proof.
  pose proof chunk_size_pos as Hpos.
  revert fuel' text; induction fuel as [|fuel IH]; intros [|fuel'] text H1 H2; cbn [cut];
    destruct (Nat.ltb_spec (length text) SVN__STREAM_CHUNK_SIZE); try done; try lia.
  rewrite (IH fuel'); [done|rewrite length_drop; lia..].
Qed.

Lemma full_chunks_long text :
  (SVN__STREAM_CHUNK_SIZE <= length text)%nat →
  full_chunks text = take SVN__STREAM_CHUNK_SIZE text :: full_chunks (drop SVN__STREAM_CHUNK_SIZE text).
Proof.
  intros Hl. pose proof chunk_size_pos. unfold full_chunks. destruct text as [|c text]; [simpl in Hl; lia|].
  cbn [length cut]. rewrite (proj2 (Nat.ltb_ge _ _)) by exact Hl.
  f_equal. apply cut_fuel; rewrite length_drop; cbn [length]; lia.
Qed.

Lemma full_chunks_short text : (length text < SVN__STREAM_CHUNK_SIZE)%nat → full_chunks text = [text].
Proof. intros Hl. unfold full_chunks. destruct (length text) eqn:H; cbn [cut]; rewrite H; by rewrite (proj2 (Nat.ltb_lt _ _)). Qed.

Lemma full_chunks_concat text : concat (full_chunks text) = text.
Proof.
  remember (length text) as n eqn:Hn. revert text Hn.
  induction n as [n IH] using lt_wf_ind; intros text ->. pose proof chunk_size_pos.
  destruct (decide (length text < SVN__STREAM_CHUNK_SIZE)%nat) as [Hlt|Hge].
  - rewrite full_chunks_short by done. apply app_nil_r.
  - rewrite full_chunks_long by lia. cbn [concat]. erewrite IH; [apply take_drop| |done].
    rewrite length_drop. lia.
Qed.

(** What reading still has to deliver. *)
Definition delivers (b : translated_stream_baton) rest : Prop :=
  ∃ inb out, translate_chunks (in_baton b) (full_chunks (to_read b)) [] = Ok (inb, out)
    ∧ rest = drop (readbuf_off b) (readbuf b) ++ out.

Lemma fill_readbuf_ok b rest :
  delivers b rest → (length (readbuf b) <= readbuf_off b)%nat →
  ∃ b' readlen, fill_readbuf b = Ok (b', readlen) ∧ delivers b' rest
    ∧ (readlen = SVN__STREAM_CHUNK_SIZE → (length (to_read b') < length (to_read b))%nat)
    ∧ (readlen ≠ SVN__STREAM_CHUNK_SIZE → drop (readbuf_off b') (readbuf b') = rest).
Proof.
  intros (inb & out & Hc & ->) Hoff. rewrite drop_ge by done. cbn [app]. unfold fill_readbuf.
  pose proof chunk_size_pos as Hpos.
  destruct (decide (length (to_read b) < SVN__STREAM_CHUNK_SIZE)%nat) as [Hlt|Hge].
  - rewrite full_chunks_short in Hc by done. rewrite take_ge by lia. cbn [translate_chunks] in Hc.
    destruct (translate_chunk (in_baton b) (Some (to_read b)) []) as [[inb1 out1]| | | |]; try done.
    cbn [rbind] in *. rewrite (proj2 (Nat.eqb_neq _ _)) by lia. cbn [negb translate_chunk].
    rewrite Hc. cbn [rbind]. eexists _, _. split; [done|]. split; [|split; [lia|]; intros _; by rewrite drop_0].
    exists inb, []. cbn [in_baton to_read readbuf readbuf_off]. rewrite drop_ge by lia.
    rewrite full_chunks_short by (simpl; lia). cbn [translate_chunks]. rewrite translate_empty. cbn [rbind].
    rewrite drop_0, app_nil_r. split; [|done]. apply translate_flush_nothing. by eapply translate_flush_boring.
  - rewrite full_chunks_long in Hc by lia. cbn [translate_chunks] in Hc.
    destruct (translate_chunk (in_baton b) _ []) as [[inb1 out1]| | | |]; try done. cbn [rbind] in *.
    assert (length (take SVN__STREAM_CHUNK_SIZE (to_read b)) = SVN__STREAM_CHUNK_SIZE) as Hl
      by (rewrite length_take; lia).
    rewrite Hl, Nat.eqb_refl. cbn [negb rbind]. eexists _, _. split; [done|].
    split; [|split; [intros _; cbn [to_read]; rewrite length_drop; lia|done]].
    rewrite <- (app_nil_r out1), translate_chunks_after in Hc.
    destruct (translate_chunks inb1 _ []) as [[inb2 out2]| | | |] eqn:H2; try done. injection Hc as <- <-.
    exists inb2, out2. cbn [in_baton to_read readbuf readbuf_off]. by rewrite drop_0.
Qed.

Lemma delivers_take b n rest :
  delivers b rest → (n <= length (readbuf b) - readbuf_off b)%nat →
  delivers (take_from b n) (drop n rest)
  ∧ take n rest = take n (drop (readbuf_off b) (readbuf b)).
Proof.
  intros (inb & out & Hc & ->) Hn. assert (n <= length (drop (readbuf_off b) (readbuf b)))%nat as Hl by (rewrite length_drop; lia).
  split; [|by rewrite take_app_le]. exists inb, out. split; [done|]. cbn [take_from readbuf readbuf_off].
  by rewrite drop_app_le, drop_drop.
Qed.

Lemma read_loop_ok fuel b buffer readlen unsatisfied rest :
  delivers b rest → (readlen ≠ SVN__STREAM_CHUNK_SIZE → unsatisfied = 0%nat ∨ rest = []) →
  (readlen = SVN__STREAM_CHUNK_SIZE → unsatisfied + length (to_read b) < fuel)%nat →
  ∃ b', read_loop fuel b buffer readlen unsatisfied = Ok (b', buffer ++ take unsatisfied rest)
    ∧ delivers b' (drop unsatisfied rest).
Proof.
  revert b buffer readlen unsatisfied rest; induction fuel as [|fuel IH]; intros b buffer readlen u rest Hd Hend Hf.
  { cbn [read_loop]. destruct (Nat.eqb_spec readlen SVN__STREAM_CHUNK_SIZE) as [Hr|Hr]; [lia|]. cbn [andb].
    exists b. destruct (Hend Hr) as [->| ->]; by rewrite ?take_0, ?drop_0, ?take_nil, ?drop_nil, ?app_nil_r. }
  cbn [read_loop]. destruct (Nat.eqb_spec readlen SVN__STREAM_CHUNK_SIZE) as [Hr|Hr]; cbn [andb].
  2:{ exists b. destruct (Hend Hr) as [->| ->]; by rewrite ?take_0, ?drop_0, ?take_nil, ?drop_nil, ?app_nil_r. }
  destruct (Nat.ltb_spec 0 u) as [Hu|Hu].
  2:{ exists b. replace u with 0%nat by lia. by rewrite take_0, drop_0, app_nil_r. }
  assert (∃ b1 readlen1,
    (if negb (readbuf_off b <? length (readbuf b))%nat then fill_readbuf b else Ok (b, readlen)) = Ok (b1, readlen1)
    ∧ delivers b1 rest
    ∧ (readlen1 ≠ SVN__STREAM_CHUNK_SIZE → drop (readbuf_off b1) (readbuf b1) = rest)
    ∧ (readlen1 = SVN__STREAM_CHUNK_SIZE →
       (length (to_read b1) < length (to_read b)) ∨ (to_read b1 = to_read b ∧ readbuf_off b1 < length (readbuf b1)))%nat)
    as (b1 & readlen1 & -> & Hd1 & Hlast & Hless).
  { destruct (Nat.ltb_spec (readbuf_off b) (length (readbuf b))) as [Hlt|Hge]; cbn [negb].
    - exists b, readlen. split; [done|]. split; [done|]. split; [done|]. by right.
    - destruct (fill_readbuf_ok b rest Hd Hge) as (b1 & readlen1 & Hfill & H1 & H2 & H3).
      exists b1, readlen1. split_and!; try done. intros H. left. by apply H2. }
  cbn [rbind]. set (n := Nat.min u (length (readbuf b1) - readbuf_off b1)).
  destruct (delivers_take b1 n rest Hd1) as [Hd2 Htake].
  { lia. }
  rewrite <- Htake. destruct (IH (take_from b1 n) (buffer ++ take n rest) readlen1 (u - n)%nat (drop n rest) Hd2)
    as (b' & Hr' & Hd').
  - intros Hne. specialize (Hlast Hne). rewrite <- Hlast.
    destruct (decide (u <= length (readbuf b1) - readbuf_off b1)%nat); [left; lia|right].
    apply drop_ge. rewrite length_drop. lia.
  - intros Hr1. specialize (Hf Hr). cbn [take_from to_read]. destruct (Hless Hr1) as [?|[-> ?]]; lia.
  - exists b'. rewrite Hr'. rewrite drop_drop in Hd'. replace (n + (u - n))%nat with u in Hd' by lia.
    split; [|done]. f_equal. f_equal. rewrite <- app_assoc. f_equal.
    rewrite take_take_drop. f_equal. lia.
Qed.

Lemma translated_stream_read_ok b len rest :
  delivers b rest →
  ∃ b', translated_stream_read b len = Ok (b', take len rest) ∧ delivers b' (drop len rest).
Proof.
  intros Hd. unfold translated_stream_read.
  destruct ((len =? 1)%nat && (readbuf_off b <? length (readbuf b))%nat) eqn:Hfast.
  - apply andb_true_iff in Hfast as [->%Nat.eqb_eq Hlt%Nat.ltb_lt].
    destruct (delivers_take b 1 rest Hd ltac:(lia)) as [Hd1 ->].
    exists (take_from b 1). split; [|done]. by rewrite drop_at by done.
  - apply (read_loop_ok _ b []); [done|done|lia].
Qed.

(** Reads in a row: all the bytes that they return. *)
Fixpoint stream_read_all (b : translated_stream_baton) (lens : list nat) : result (list byte) :=
  match lens with
  | [] => Ok []
  | len :: lens =>
      let! (b, buffer) := translated_stream_read b len in
      let! more := stream_read_all b lens in
      Ok (buffer ++ more)
  end.

Lemma stream_read_all_ok b lens rest :
  delivers b rest → stream_read_all b lens = Ok (take (sum_list lens) rest).
Proof.
  revert b rest; induction lens as [|len lens IH]; intros b rest Hd; [done|]. cbn [stream_read_all sum_list].
  destruct (translated_stream_read_ok b len rest Hd) as (b' & -> & Hd'). cbn [rbind].
  rewrite (IH b' _ Hd'). cbn [rbind]. by rewrite take_take_drop.
Qed.

(** C24: Reading from a translated stream never gets stuck and loses
    nothing: whatever portions are asked for, single bytes included, the
    reads end and return the bytes that writing the same text in full chunks
    gives, in full as long as there are any. *)
Theorem translated_stream_read_written e t0 rp kws ex text lens b :
  stream_write_all (stream_translated [] [] e t0 rp kws ex) (full_chunks text) = Ok b →
  stream_read_all (stream_translated text [] e t0 rp kws ex) lens = Ok (take (sum_list lens) (written_out b)).
Proof.
  intros Hw. apply stream_read_all_ok.
  pose proof (stream_write_all_start e t0 rp kws ex (full_chunks text)) as H. cbv zeta in H. rewrite Hw in H.
  destruct (translate_chunks _ _ _) as [[outb out]| | | |] eqn:Hc; try done. destruct H as [-> _].
  exists outb, out. split; [done|]. cbn [readbuf readbuf_off stream_translated]. done.
Qed.

Lemma translated_stream_read_written_witness :
  ∃ b, stream_write_all (stream_translated [] [] (Some [CR; LF]) None false None true) (full_chunks [x61; LF; x62]) = Ok b
    ∧ stream_read_all (stream_translated [x61; LF; x62] [] (Some [CR; LF]) None false None true) [1%nat; 5%nat]
      = Ok (take (sum_list [1%nat; 5%nat]) (written_out b)).
Proof.
  eexists. split; [vm_compute; reflexivity|]. apply (translated_stream_read_written (Some [CR; LF]) None false None true).
  vm_compute. reflexivity.
Defined.
