(* ===== verification/Keywords.v ===== *)
(** * Keywords and their expansions

    The hash of keywords that [svn:keywords] asks for, from
    [src/subversion/libsvn_subr/subst.c], with the human form of dates of
    [time.c], and what translating a keyword does to its text: expanding and
    contracting are inverse, and keywords of a fixed width keep it. *)
From S2P Require Import Prelude Numbers Cstrings Time StringLists Paths Relpaths Uri Subst.

Implicit Types (fmt rev url author value name keyword token : list byte).

(** ** Dates for people *)

(** [printf] of [%.<precision>d] and of [%+.<precision>d]. *)
Definition printf_prec (precision : nat) (n : Z) : list byte :=
  let digits := decimal 20 (Z.abs n) in
  (if n <? 0 then ["-"%byte] else []) ++ replicate (precision - length digits) "0"%byte ++ digits.

Definition printf_plus_prec (precision : nat) (n : Z) : list byte :=
  (if n <? 0 then [] else ["+"%byte]) ++ printf_prec precision n.

(** The local time zone, and the localized text of a date in at most so many
    bytes, converted to UTF-8: [None] when one of these steps fails. *)
Class LocalTime := {
  apr_time_exp_lt : Z → option apr_time_exp_t;
  apr_strftime_utf8 : apr_time_exp_t → nat → option (list byte);
}.

Definition SVN_TIME__MAX_LENGTH : nat := 80.

Section Build.
Context `{AprTime} `{LocalTime} `{AprStrtok}.

(** [None] for a null pointer. *)
Definition svn_time_to_human_cstring (when : Z) : option (list byte) :=
  match apr_time_exp_lt when with
  | None => None
  | Some t =>
      let datestr := take (SVN_TIME__MAX_LENGTH - 1)
        (printf_prec 4 (tm_year t + 1900) ++ "-"%byte :: printf_prec 2 (tm_mon t + 1) ++ "-"%byte
         :: printf_prec 2 (tm_mday t) ++ " "%byte :: printf_prec 2 (tm_hour t) ++ ":"%byte
         :: printf_prec 2 (tm_min t) ++ ":"%byte :: printf_prec 2 (tm_sec t) ++ " "%byte
         :: printf_plus_prec 2 (Z.quot (tm_gmtoff t) 3600)
         ++ printf_prec 2 (Z.rem (Z.quot (Z.abs (tm_gmtoff t)) 60) 60)) in
      let len := length datestr in
      match apr_strftime_utf8 t (SVN_TIME__MAX_LENGTH - len) with
      | None => Some datestr
      | Some suffix => Some (datestr ++ take (SVN_TIME__MAX_LENGTH - len - 1) suffix)
      end
  end.

(** ** Formats *)

Section Printf.
Variables (orev ourl : option (list byte)) (date : Z) (oauthor : option (list byte)).

Definition gmt_text (t : apr_time_exp_t) : list byte :=
  printf_0d 4 (tm_year t + 1900) ++ "-"%byte :: printf_0d 2 (tm_mon t + 1) ++ "-"%byte
  :: printf_0d 2 (tm_mday t) ++ " "%byte :: printf_0d 2 (tm_hour t) ++ ":"%byte
  :: printf_0d 2 (tm_min t) ++ ":"%byte :: printf_0d 2 (tm_sec t) ++ ["Z"%byte].

(** What a format code appends. *)
Definition keyword_code (c : byte) : result (list byte) :=
  if c =b? "a"%byte then Ok (default [] oauthor)
  else if c =b? "b"%byte then
    match ourl with
    | Some (d :: url) => Ok (svn_uri_basename (d :: url))
    | _ => Ok []
    end
  else if c =b? "d"%byte then
    if date =? 0 then Ok [] else Ok (gmt_text (apr_time_exp_gmt date))
  else if c =b? "D"%byte then
    if date =? 0 then Ok [] else from_option Ok Undefined (svn_time_to_human_cstring date)
  else if c =b? "r"%byte then Ok (default [] orev)
  else if c =b? "u"%byte then Ok (default [] ourl)
  else if c =b? "%"%byte then Ok ["%"%byte]
  else Ok ["%"%byte; c].

Fixpoint keyword_printf fmt : result (list byte) :=
  match fmt with
  | [] => Ok []
  | c :: fmt' =>
      if c =b? "%"%byte then
        match fmt' with
        | [] => Ok ["%"%byte]
        | d :: fmt'' =>
            let! text := keyword_code d in
            let! more := keyword_printf fmt'' in
            Ok (text ++ more)
        end
      else let! more := keyword_printf fmt' in Ok (c :: more)
  end.

(** ** The hash *)

Definition SVN_KEYWORD_REVISION_LONG : list byte := bytes_of "LastChangedRevision".
Definition SVN_KEYWORD_REVISION_SHORT : list byte := bytes_of "Rev".
Definition SVN_KEYWORD_REVISION_MEDIUM : list byte := bytes_of "Revision".
Definition SVN_KEYWORD_DATE_LONG : list byte := bytes_of "LastChangedDate".
Definition SVN_KEYWORD_DATE_SHORT : list byte := bytes_of "Date".
Definition SVN_KEYWORD_AUTHOR_LONG : list byte := bytes_of "LastChangedBy".
Definition SVN_KEYWORD_AUTHOR_SHORT : list byte := bytes_of "Author".
Definition SVN_KEYWORD_URL_LONG : list byte := bytes_of "HeadURL".
Definition SVN_KEYWORD_URL_SHORT : list byte := bytes_of "URL".
Definition SVN_KEYWORD_ID : list byte := bytes_of "Id".
Definition SVN_KEYWORD_HEADER : list byte := bytes_of "Header".

Definition is_same (a b : list byte) : bool := strcmp a b =? 0.
Definition is_same_nocase (a b : list byte) : bool := svn_cstring_casecmp a b =? 0.

(** The body of the loop. *)
Definition add_keyword (kw : keywords_t) keyword : result keywords_t :=
  if is_same keyword SVN_KEYWORD_REVISION_LONG || is_same keyword SVN_KEYWORD_REVISION_MEDIUM
     || is_same_nocase keyword SVN_KEYWORD_REVISION_SHORT then
    let! revision_val := keyword_printf (bytes_of "%r") in
    Ok (<[SVN_KEYWORD_REVISION_SHORT := revision_val]>
         (<[SVN_KEYWORD_REVISION_MEDIUM := revision_val]>
           (<[SVN_KEYWORD_REVISION_LONG := revision_val]> kw)))
  else if is_same keyword SVN_KEYWORD_DATE_LONG || is_same_nocase keyword SVN_KEYWORD_DATE_SHORT then
    let! date_val := keyword_printf (bytes_of "%D") in
    Ok (<[SVN_KEYWORD_DATE_SHORT := date_val]> (<[SVN_KEYWORD_DATE_LONG := date_val]> kw))
  else if is_same keyword SVN_KEYWORD_AUTHOR_LONG || is_same_nocase keyword SVN_KEYWORD_AUTHOR_SHORT then
    let! author_val := keyword_printf (bytes_of "%a") in
    Ok (<[SVN_KEYWORD_AUTHOR_SHORT := author_val]> (<[SVN_KEYWORD_AUTHOR_LONG := author_val]> kw))
  else if is_same keyword SVN_KEYWORD_URL_LONG || is_same_nocase keyword SVN_KEYWORD_URL_SHORT then
    let! url_val := keyword_printf (bytes_of "%u") in
    Ok (<[SVN_KEYWORD_URL_SHORT := url_val]> (<[SVN_KEYWORD_URL_LONG := url_val]> kw))
  else if is_same_nocase keyword SVN_KEYWORD_ID then
    let! id_val := keyword_printf (bytes_of "%b %r %d %a") in
    Ok (<[SVN_KEYWORD_ID := id_val]> kw)
  else if is_same_nocase keyword SVN_KEYWORD_HEADER then
    let! header_val := keyword_printf (bytes_of "%u %r %d %a") in
    Ok (<[SVN_KEYWORD_HEADER := header_val]> kw)
  else Ok kw.

Fixpoint add_keywords (kw : keywords_t) (keyword_tokens : list (list byte)) : result keywords_t :=
  match keyword_tokens with
  | [] => Ok kw
  | keyword :: keyword_tokens => let! kw := add_keyword kw keyword in add_keywords kw keyword_tokens
  end.

(** The separators: blank, tab, vertical tab, newline, backspace, return, form feed. *)
Definition keyword_separators : list byte := [x20; x09; x0b; x0a; x08; x0d; x0c].

Definition svn_subst_build_keywords2 (keywords_val : list byte) : result keywords_t :=
  let! keyword_tokens := svn_cstring_split keywords_val keyword_separators true in
  add_keywords ∅ keyword_tokens.

(** The structure of the older interface. *)
Record svn_subst_keywords_t := {
  kw_revision : option (list byte);
  kw_date : option (list byte);
  kw_author : option (list byte);
  kw_url : option (list byte);
  kw_id : option (list byte);
}.

(** Slots without a keyword are left alone. *)
Definition svn_subst_build_keywords (kw : svn_subst_keywords_t) (keywords_val : list byte)
    : result svn_subst_keywords_t :=
  let! kwhash := svn_subst_build_keywords2 keywords_val in
  let slot key old := match kwhash !! key with Some val => Some val | None => old end in
  Ok {| kw_revision := slot SVN_KEYWORD_REVISION_LONG (kw_revision kw);
        kw_date := slot SVN_KEYWORD_DATE_LONG (kw_date kw);
        kw_author := slot SVN_KEYWORD_AUTHOR_LONG (kw_author kw);
        kw_url := slot SVN_KEYWORD_URL_LONG (kw_url kw);
        kw_id := slot SVN_KEYWORD_ID (kw_id kw) |}.

(** ** Which keywords are there *)

(** The names of one expansion, the short one last, and its format. *)
Definition keyword_groups : list (list (list byte) * list byte) :=
  [([SVN_KEYWORD_REVISION_LONG; SVN_KEYWORD_REVISION_MEDIUM; SVN_KEYWORD_REVISION_SHORT], bytes_of "%r");
   ([SVN_KEYWORD_DATE_LONG; SVN_KEYWORD_DATE_SHORT], bytes_of "%D");
   ([SVN_KEYWORD_AUTHOR_LONG; SVN_KEYWORD_AUTHOR_SHORT], bytes_of "%a");
   ([SVN_KEYWORD_URL_LONG; SVN_KEYWORD_URL_SHORT], bytes_of "%u");
   ([SVN_KEYWORD_ID], bytes_of "%b %r %d %a");
   ([SVN_KEYWORD_HEADER], bytes_of "%u %r %d %a")].

(** A token asks for a group by a long name, or by the short one in any case. *)
Fixpoint asks_for token (names : list (list byte)) : bool :=
  match names with
  | [] => false
  | [name] => is_same_nocase token name
  | name :: names => is_same token name || asks_for token names
  end.

Definition group_of token : option (list (list byte) * list byte) :=
  find (λ group, asks_for token group.1) keyword_groups.

Definition selects token name : bool :=
  match group_of token with Some (names, _) => bool_decide (name ∈ names) | None => false end.

(** The expansion of a keyword. *)
Definition keyword_value name : result (list byte) :=
  match find (λ group, bool_decide (name ∈ group.1)) keyword_groups with
  | Some (_, fmt) => keyword_printf fmt
  | None => Ok []
  end.

Lemma add_keyword_group kw token :
  add_keyword kw token
  = match group_of token with
    | Some (names, fmt) =>
        let! value := keyword_printf fmt in Ok (foldl (λ kw name, <[name := value]> kw) kw names)
    | None => Ok kw
    end.
Proof.
  unfold add_keyword, group_of, keyword_groups. cbn [find asks_for fst]. rewrite orb_assoc.
  destruct (_ || _ || _); [done|]. destruct (_ || _); [done|]. destruct (_ || _); [done|].
  destruct (_ || _); [done|]. destruct (is_same_nocase _ _); [done|]. by destruct (is_same_nocase _ _).
Qed.

Lemma insert_names (names : list (list byte)) value (kw : keywords_t) name :
  foldl (λ kw name, <[name := value]> kw) kw names !! name
  = if bool_decide (name ∈ names) then Some value else kw !! name.
Proof.
  unfold keywords_t in *. revert kw; induction names as [|n names IH]; intros kw; cbn [foldl]; [done|]. rewrite IH. cbv beta.
  destruct (decide (name ∈ names)) as [Hin|Hin].
  - by rewrite !bool_decide_eq_true_2 by set_solver.
  - rewrite (bool_decide_eq_false_2 (name ∈ names)) by done. destruct (decide (name = n)) as [->|Hne].
    + rewrite lookup_insert_eq. by rewrite bool_decide_eq_true_2 by set_solver.
    + rewrite lookup_insert_ne by done. by rewrite bool_decide_eq_false_2 by set_solver.
Qed.

(** Groups have no name in common. *)
Lemma group_of_name token names fmt name :
  group_of token = Some (names, fmt) → name ∈ names → keyword_value name = keyword_printf fmt.
Proof.
  intros Hg Hin. assert ((names, fmt) ∈ keyword_groups) as Hgroup.
  { apply list_elem_of_In. unfold group_of in Hg. by apply find_some in Hg as [? _]. }
  unfold keyword_groups in Hgroup. rewrite !elem_of_cons, elem_of_nil in Hgroup.
  repeat match goal with H : _ ∨ _ |- _ => destruct H as [H|H] end; try done; injection Hgroup as -> ->;
    rewrite !elem_of_cons, elem_of_nil in Hin;
    repeat match goal with H : _ ∨ _ |- _ => destruct H as [H|H] end; try done; by subst name.
Qed.

Lemma add_keywords_lookup tokens kw kw' name :
  add_keywords kw tokens = Ok kw' →
  kw' !! name
  = if existsb (λ token, selects token name) tokens
    then match keyword_value name with Ok value => Some value | _ => None end else kw !! name.
Proof.
  revert kw; induction tokens as [|token tokens IH]; intros kw; cbn [add_keywords existsb]; [by intros [= ->]|].
  rewrite add_keyword_group. destruct (group_of token) as [[names fmt]|] eqn:Hg.
  - destruct (keyword_printf fmt) as [value| | | |] eqn:Hv; try done. cbn [rbind]. intros H3.
    rewrite (IH _ H3), insert_names. unfold selects at 2. rewrite Hg.
    destruct (decide (name ∈ names)) as [Hin|Hin].
    + rewrite bool_decide_eq_true_2 by done. cbn [orb]. rewrite (group_of_name token names fmt name Hg Hin), Hv.
      by destruct (existsb _ tokens).
    + by rewrite bool_decide_eq_false_2 by done.
  - cbn [rbind]. intros H3. rewrite (IH _ H3). unfold selects at 2. by rewrite Hg.
Qed.

Hypothesis date_known : date = 0 ∨ apr_time_exp_lt date ≠ None.

Lemma keyword_printf_total fmt : ∃ value, keyword_printf fmt = Ok value.
Proof.
  assert (∀ c, ∃ text, keyword_code c = Ok text) as Hcode.
  { intros c. unfold keyword_code, svn_time_to_human_cstring.
    repeat (destruct (_ =b? _); [first [by eexists|destruct (Z.eqb_spec date 0); [by eexists|by eexists]|idtac]|]);
      [..|by eexists].
    - destruct ourl as [[|d url]|]; by eexists.
    - destruct (Z.eqb_spec date 0) as [|Hd]; [by eexists|]. destruct date_known as [|Hk]; [done|].
      destruct (apr_time_exp_lt date); [|done]. destruct (apr_strftime_utf8 _ _); by eexists. }
  remember (length fmt) as n eqn:Hn. revert fmt Hn. induction n as [n IH] using lt_wf_ind; intros fmt ->.
  destruct fmt as [|c fmt]; cbn [keyword_printf]; [by eexists|]. destruct (c =b? _).
  - destruct fmt as [|d fmt]; [by eexists|]. destruct (Hcode d) as [text ->].
    destruct (IH (length fmt) ltac:(simpl; lia) fmt eq_refl) as [more ->]. by eexists.
  - destruct (IH (length fmt) ltac:(simpl; lia) fmt eq_refl) as [more ->]. by eexists.
Qed.

Lemma add_keywords_total tokens kw : ∃ kw', add_keywords kw tokens = Ok kw'.
Proof.
  revert kw; induction tokens as [|token tokens IH]; intros kw; cbn [add_keywords]; [by eexists|].
  rewrite add_keyword_group. destruct (group_of token) as [[names fmt]|]; [|apply IH].
  destruct (keyword_printf_total fmt) as [value ->]. apply IH.
Qed.

Lemma svn_subst_build_keywords2_ok keywords_val :
  ∃ tokens kw, svn_cstring_split keywords_val keyword_separators true = Ok tokens
    ∧ svn_subst_build_keywords2 keywords_val = Ok kw
    ∧ ∀ name, kw !! name
      = if existsb (λ token, selects token name) tokens
        then match keyword_value name with Ok value => Some value | _ => None end else None.
Proof.
  destruct (split_loop_total (length keywords_val) keywords_val keyword_separators true (le_n _)) as [tokens Hs].
  destruct (add_keywords_total tokens ∅) as [kw Hk]. exists tokens, kw.
  unfold svn_subst_build_keywords2, svn_cstring_split, svn_cstring_split_append. rewrite Hs. cbn [app rbind].
  split; [done|]. split; [done|]. intros name. by rewrite (add_keywords_lookup _ _ _ _ Hk).
Qed.

End Printf.
End Build.

(** The hash that svn_subst_build_keywords2 makes has exactly the keywords
    that a token of the property's value asks for, by a long name or by the
    short name in any case, each with the expansion of its format. *)
Theorem svn_subst_build_keywords2_lookup `{AprTime} `{LocalTime} `{AprStrtok}
    (orev ourl : option (list byte)) (date : Z) (oauthor : option (list byte)) (keywords_val : list byte) :
  date = 0 ∨ apr_time_exp_lt date ≠ None →
  ∃ tokens kw, svn_cstring_split keywords_val keyword_separators true = Ok tokens
    ∧ svn_subst_build_keywords2 orev ourl date oauthor keywords_val = Ok kw
    ∧ ∀ name, kw !! name
      = if existsb (λ token, selects token name) tokens
        then match keyword_value orev ourl date oauthor name with Ok value => Some value | _ => None end
        else None.
Proof. intros Hd. by apply svn_subst_build_keywords2_ok. Qed.

Definition no_zone : LocalTime := {| apr_time_exp_lt _ := None; apr_strftime_utf8 _ _ := None |}.

Lemma svn_subst_build_keywords2_lookup_witness :
  (0 = 0 ∨ @apr_time_exp_lt no_zone 0 ≠ None)
  ∧ ∃ tokens kw, @svn_cstring_split strtok_apr (bytes_of "rev HeadURL") keyword_separators true = Ok tokens
    ∧ @svn_subst_build_keywords2 calendar_28 no_zone strtok_apr (Some (bytes_of "42")) None 0 None
        (bytes_of "rev HeadURL") = Ok kw
    ∧ ∀ name, kw !! name
      = if existsb (λ token, selects token name) tokens
        then match @keyword_value calendar_28 no_zone (Some (bytes_of "42")) None 0 None name with
             | Ok value => Some value | _ => None end
        else None.
Proof.
  split; [by left|].
  apply (@svn_subst_build_keywords2_lookup calendar_28 no_zone strtok_apr (Some (bytes_of "42")) None 0 None
    (bytes_of "rev HeadURL")). by left.
Defined.

(** East of Greenwich by less than an hour or west: the sign is lost. *)
Lemma svn_time_to_human_cstring_half_hour t :
  tm_gmtoff t = -1800 →
  @svn_time_to_human_cstring {| apr_time_exp_lt _ := Some t; apr_strftime_utf8 _ _ := None |} 0
  = @svn_time_to_human_cstring {| apr_time_exp_lt _ := Some
      {| tm_usec := tm_usec t; tm_sec := tm_sec t; tm_min := tm_min t; tm_hour := tm_hour t;
         tm_mday := tm_mday t; tm_mon := tm_mon t; tm_year := tm_year t; tm_wday := tm_wday t;
         tm_yday := tm_yday t; tm_isdst := tm_isdst t; tm_gmtoff := 1800 |};
      apr_strftime_utf8 _ _ := None |} 0.
Proof. intros Ht. unfold svn_time_to_human_cstring. cbn [apr_time_exp_lt apr_strftime_utf8]. by rewrite Ht. Qed.

(** ** Comparing keywords *)

(** An item of the first hash that is not in the second one [b]. *)
Definition keyword_item_differs (b : keywords_t) (compare_values : bool) (item : list byte * list byte) : bool :=
  match b !! item.1 with
  | None => true
  | Some b_val => compare_values && negb (bool_decide (item.2 = b_val))
  end.

(** The hash's order does not matter. *)
Definition svn_subst_keywords_differ2 (a b : option keywords_t) (compare_values : bool) : bool :=
  let a_count := match a with None => 0%nat | Some a => size a end in
  let b_count := match b with None => 0%nat | Some b => size b end in
  if negb (a_count =? b_count)%nat then true
  else if (a_count =? 0)%nat then false
  else
    match a, b with
    | Some a, Some b => existsb (keyword_item_differs b compare_values) (map_to_list a)
    | _, _ => false
    end.

(** [None] for a null pointer to the structure; values are C strings. *)
Definition keyword_slot_differs (a b : option (list byte)) (compare_values : bool) : bool :=
  negb (Bool.eqb (bool_decide (a = None)) (bool_decide (b = None)))
  || match a, b with
     | Some a, Some b => compare_values && negb (strcmp a b =? 0)
     | _, _ => false
     end.

Definition keyword_slots_empty (kw : svn_subst_keywords_t) : bool :=
  bool_decide (kw_revision kw = None) && bool_decide (kw_date kw = None)
  && bool_decide (kw_author kw = None) && bool_decide (kw_url kw = None).

Definition svn_subst_keywords_differ (a b : option svn_subst_keywords_t) (compare_values : bool) : bool :=
  match a, b with
  | None, None => false
  | None, Some b => negb (keyword_slots_empty b)
  | Some a, None => negb (keyword_slots_empty a)
  | Some a, Some b =>
      if keyword_slots_empty a && keyword_slots_empty b then false
      else keyword_slot_differs (kw_revision a) (kw_revision b) compare_values
           || keyword_slot_differs (kw_date a) (kw_date b) compare_values
           || keyword_slot_differs (kw_author a) (kw_author b) compare_values
           || keyword_slot_differs (kw_url a) (kw_url b) compare_values
  end.

(** The fifth slot is not looked at. *)
Lemma svn_subst_keywords_differ_id id id' :
  svn_subst_keywords_differ
    (Some {| kw_revision := None; kw_date := None; kw_author := None; kw_url := None; kw_id := id |})
    (Some {| kw_revision := None; kw_date := None; kw_author := None; kw_url := None; kw_id := id' |}) true = false.
Proof. done. Qed.

Lemma subset_same_size (a b : gset (list byte)) : a ⊆ b → size a = size b → a = b.
Proof. intros Hs Hsize. apply set_eq. intros x. split; [set_solver|]. intros Hx.
  destruct (decide (x ∈ a)); [done|]. assert (a ⊂ b) as Hp by set_solver.
  apply subset_size in Hp. lia.
Qed.

Lemma keyword_items_same (a b : keywords_t) compare_values k v :
  existsb (keyword_item_differs b compare_values) (map_to_list a) = false → a !! k = Some v →
  ∃ v', b !! k = Some v' ∧ (compare_values = true → v = v').
Proof.
  intros He Hk. destruct (keyword_item_differs b compare_values (k, v)) eqn:Hd.
  - rewrite <- not_true_iff_false, existsb_exists in He. destruct He. exists (k, v).
    split; [|done]. by apply list_elem_of_In, elem_of_map_to_list.
  - unfold keyword_item_differs in Hd. cbn [fst snd] in Hd. destruct (b !! k) as [v'|]; [|done]. exists v'.
    split; [done|]. intros ->. cbn [andb] in Hd. apply negb_false_iff in Hd. by apply bool_decide_eq_true in Hd.
Qed.

Lemma keyword_items_differ (a b : keywords_t) compare_values :
  size a = size b →
  existsb (keyword_item_differs b compare_values) (map_to_list a)
  = negb (if compare_values then bool_decide (a = b) else bool_decide (dom a =@{gset (list byte)} dom b)).
Proof.
  intros Hsize. pose proof (keyword_items_same a b compare_values) as Hsame.
  destruct (existsb _ (map_to_list a)) eqn:He; symmetry.
  - apply existsb_exists in He as ([k v] & Hin%list_elem_of_In%elem_of_map_to_list & Hv).
    unfold keyword_item_differs in Hv. cbn [fst snd] in Hv. apply negb_true_iff. unfold keywords_t in *.
    destruct compare_values; apply bool_decide_eq_false_2; intros Heq.
    + subst b. rewrite Hin in Hv. by rewrite bool_decide_eq_true_2 in Hv.
    + assert (k ∈ dom b) as [v' Hb]%elem_of_dom by (rewrite <- Heq; by apply elem_of_dom_2 in Hin).
      by rewrite Hb in Hv.
  - apply negb_false_iff. unfold keywords_t in *.
    assert (dom a = dom b) as Hdom.
    { apply subset_same_size; [|by rewrite !size_dom]. intros k [v Hk]%elem_of_dom.
      destruct (Hsame k v eq_refl Hk) as (v' & Hb & _). by apply elem_of_dom_2 in Hb. }
    destruct compare_values; apply bool_decide_eq_true_2; [|done]. apply map_eq. intros k.
    destruct (a !! k) as [v|] eqn:Hk.
    + destruct (Hsame k v eq_refl Hk) as (v' & -> & Hv). by rewrite Hv.
    + symmetry. apply not_elem_of_dom. rewrite <- Hdom. by apply not_elem_of_dom.
Qed.

(** Counting and one-way lookups decide whether two keyword hashes, null
    pointers included, have different keywords or values. *)
Theorem svn_subst_keywords_differ2_same (a b : option keywords_t) compare_values :
  svn_subst_keywords_differ2 a b compare_values
  = negb (if compare_values then bool_decide (default ∅ a = default ∅ b)
          else bool_decide (dom (default ∅ a) =@{gset (list byte)} dom (default ∅ b))).
Proof.
  assert (∀ m : keywords_t, size m = 0%nat → m = ∅) as Hempty by (intros m; apply map_size_empty_inv).
  unfold svn_subst_keywords_differ2.
  assert (∀ o : option keywords_t, match o with None => 0%nat | Some m => size m end = size (default ∅ o)) as Hcount.
  { intros [m|]; [done|]. symmetry. apply (map_size_empty (M := gmap (list byte))). }
  rewrite !Hcount. destruct (Nat.eqb_spec (size (default ∅ a)) (size (default ∅ b))) as [Hsize|Hsize]; cbn [negb].
  - destruct (Nat.eqb_spec (size (default ∅ a)) 0) as [Hz|Hz].
    + rewrite (Hempty _ Hz), (Hempty (default ∅ b)) by lia. destruct compare_values; by rewrite bool_decide_eq_true_2.
    + destruct a as [a|]; [|done]. destruct b as [b|]; [by apply keyword_items_differ|]. cbn in Hsize, Hz. done.
  - destruct compare_values; rewrite bool_decide_eq_false_2; try done; intros Heq.
    + by rewrite Heq in Hsize.
    + apply Hsize. unfold keywords_t in *. by rewrite <- !size_dom, Heq.
Qed.

(** ** Expanding and contracting *)

Lemma buf_at_app (a b : list byte) i : buf_at (a ++ b) (length a + i) = buf_at b i.
Proof. unfold buf_at. by rewrite drop_app_add. Qed.

Lemma strncpy_all value n : NUL ∉ value → (length value <= n)%nat → strncpy value (Nat.min (length value) n) = value.
Proof.
  intros Hnul Hn. unfold strncpy. rewrite cstring_no_nul, Nat.min_l, take_ge, Nat.sub_diag by lia || done.
  apply app_nil_r.
Qed.

(** The text of an expanded keyword. *)
Definition long_form name value : list byte :=
  (DOLLAR :: name) ++ ":"%byte :: " "%byte :: match value with [] => [DOLLAR] | _ => value ++ [" "%byte; DOLLAR] end.

Definition short_form name : list byte := (DOLLAR :: name) ++ [DOLLAR].

Lemma expanded_long name value max :
  NUL ∉ value → (length value <= max)%nat → expanded name value max = long_form name value.
Proof.
  intros Hnul Hmax. unfold expanded, long_form. cbn [app]. f_equal. f_equal.
  change (bytes_of ": ") with [":"%byte; " "%byte]. cbn [app]. do 2 f_equal.
  destruct value as [|v value]; [done|]. by rewrite strncpy_all.
Qed.

Lemma long_form_length name value :
  length (long_form name value) = match value with [] => (4 + length name)%nat | _ => (5 + length name + length value)%nat end.
Proof. unfold long_form. rewrite length_app. destruct value; cbn [length]; [lia|]. rewrite length_app. cbn [length]. lia. Qed.

Lemma keyword_until_colon name (c : byte) rest n :
  ":"%byte ∉ name → (length name <= n)%nat → (c = ":"%byte ∨ n = length name) →
  keyword_until (name ++ c :: rest) n = name.
Proof.
  revert n; induction name as [|d name IH]; intros n Hc Hn Hend.
  - destruct n as [|n]; [done|]. destruct Hend as [->|]; [|done]. cbn. by rewrite byte_eqb_refl.
  - apply not_elem_of_cons in Hc as [Hd Hc]. destruct n as [|n]; [cbn [length] in Hn; lia|]. cbn.
    rewrite (proj2 (byte_eqb_ne d ":"%byte)) by done. cbn [length] in Hn, Hend.
    rewrite IH; [done|done|lia|destruct Hend; [by left|right; lia]].
Qed.

Section RoundTrip.
Variables (name value : list byte).
Hypothesis name_plain : (NUL ∉ name) ∧ (":"%byte ∉ name).

Lemma keyword_name_long : keyword_name (long_form name value) = name.
Proof.
  destruct name_plain as [Hn Hc]. unfold keyword_name. rewrite long_form_length.
  unfold long_form. cbn [app]. change (drop 1 (DOLLAR :: ?s)) with s.
  rewrite keyword_until_colon; [by apply cstring_no_nul|done|destruct value; lia|by left].
Qed.

Lemma keyword_name_short : keyword_name (short_form name) = name.
Proof.
  destruct name_plain as [Hn Hc]. unfold keyword_name, short_form. cbn [app length].
  change (drop 1 (DOLLAR :: ?s)) with s. rewrite length_app. cbn [length]. rewrite keyword_until_colon; [by apply cstring_no_nul|done|lia|right; lia].
Qed.

Lemma long_form_at (i : nat) :
  buf_at (long_form name value) (1 + length name + i)
  = buf_at (":"%byte :: " "%byte :: match value with [] => [DOLLAR] | _ => value ++ [" "%byte; DOLLAR] end) i.
Proof. apply (buf_at_app (DOLLAR :: name)). Qed.

Lemma long_form_end :
  buf_at (long_form name value) (length (long_form name value) - 2) = " "%byte
  ∧ buf_at (long_form name value) (length (long_form name value) - 1) = DOLLAR.
Proof.
  rewrite long_form_length. destruct value as [|v value'] eqn:Hv; rewrite <- ?Hv.
  - replace (4 + length name - 2)%nat with (1 + length name + 1)%nat by lia.
    replace (4 + length name - 1)%nat with (1 + length name + 2)%nat by lia.
    by rewrite !long_form_at, Hv.
  - replace (5 + length name + length value - 2)%nat with (1 + length name + (2 + (length value + 0)))%nat by lia.
    replace (5 + length name + length value - 1)%nat with (1 + length name + (2 + (length value + 1)))%nat by lia.
    rewrite !long_form_at, Hv.
    split; apply (buf_at_app (":"%byte :: " "%byte :: v :: value')).
Qed.

Hypothesis value_plain : (NUL ∉ value).
Hypothesis fits : (length name + length value <= 250)%nat.

Lemma expand_short :
  translate_keyword_subst (short_form name) name (Some value) = Ok (Some (long_form name value)).
Proof.
  assert (length (short_form name) = 2 + length name)%nat as Hl by (unfold short_form; rewrite length_app; simpl; lia).
  assert (∀ i, buf_at (short_form name) (1 + length name + i) = buf_at [DOLLAR] i) as Hat
    by apply (buf_at_app (DOLLAR :: name)).
  unfold translate_keyword_subst. rewrite Hl. unfold SVN_KEYWORD_MAX_LEN.
  rewrite (proj2 (Nat.leb_le _ _)) by lia. cbn [guarded].
  replace (2 + length name - 1)%nat with (1 + length name + 0)%nat by lia. rewrite Hat.
  change (buf_at (short_form name) 0) with DOLLAR. change (buf_at [DOLLAR] 0) with DOLLAR.
  cbn [guarded andb]. rewrite byte_eqb_refl. cbn [andb guarded].
  rewrite (proj2 (Nat.ltb_ge _ _)) by lia.
  assert (take (length name) (drop 1 (short_form name)) = name) as -> by (apply (take_app_length name)).
  rewrite bool_decide_eq_true_2 by done. cbn [negb].
  replace (1 + length name)%nat with (1 + length name + 0)%nat by lia. rewrite Hat.
  change (buf_at [DOLLAR] 0 =b? ":"%byte) with false. change (buf_at [DOLLAR] 0 =b? DOLLAR) with true. cbn [andb].
  rewrite expanded_long by (done || lia). unfold fit, SVN_KEYWORD_MAX_LEN.
  rewrite (proj2 (Nat.leb_le _ _)); [done|]. rewrite long_form_length. destruct value; cbn [length] in *; lia.
Qed.

(** From the long form. *)
Lemma translate_long ovalue :
  (∀ v, ovalue = Some v → NUL ∉ v ∧ (length name + length v <= 250)%nat) →
  translate_keyword_subst (long_form name value) name ovalue
  = Ok (Some (match ovalue with Some v => long_form name v | None => short_form name end)).
Proof.
  intros Hv. pose proof (long_form_length name value) as Hl. pose proof long_form_end as [He2 He1].
  assert (length (long_form name value) <= 255 ∧ 4 + length name <= length (long_form name value))%nat as [Hmax Hmin]
    by (rewrite Hl; destruct value; cbn [length] in *; lia).
  pose proof (long_form_at 0) as H0. pose proof (long_form_at 1) as H1. cbn [buf_at drop deref] in H0, H1.
  rewrite Nat.add_0_r in H0.
  assert (take (length name) (drop 1 (long_form name value)) = name) as Htake
    by (apply (take_app_length name)).
  assert (take (1 + length name) (long_form name value) ++ [DOLLAR] = short_form name) as Hshort.
  { unfold long_form, short_form. f_equal. apply (take_app_length (DOLLAR :: name)). }
  unfold translate_keyword_subst, SVN_KEYWORD_MAX_LEN. cbv zeta. rewrite He1, He2, H0, H1, Htake, Hshort.
  change (buf_at (long_form name value) 0) with DOLLAR.
  rewrite (proj2 (Nat.leb_le (length (long_form name value)) 255)) by lia. rewrite byte_eqb_refl. cbn [andb guarded].
  rewrite (proj2 (Nat.ltb_ge _ _)) by lia. rewrite bool_decide_eq_true_2 by done. cbn [negb].
  rewrite (proj2 (Nat.leb_le (4 + length name) _)) by lia.
  change (":"%byte =b? ":"%byte) with true. change (" "%byte =b? ":"%byte) with false.
  change (" "%byte =b? " "%byte) with true. change (":"%byte =b? DOLLAR) with false. cbn [andb orb].
  destruct ovalue as [v|]; [|done]. destruct (Hv v eq_refl) as [Hnul Hfit].
  rewrite expanded_long by (done || lia). unfold fit, SVN_KEYWORD_MAX_LEN.
  rewrite (proj2 (Nat.leb_le _ _)); [done|]. rewrite long_form_length. destruct v; cbn [length] in *; lia.
Qed.

End RoundTrip.

Lemma translate_keyword_known (h : keywords_t) (buf name value : list byte) (ex : bool) :
  h !! name = Some value → (length buf <= 255)%nat → deref buf = DOLLAR → buf_at buf (length buf - 1) = DOLLAR →
  keyword_name buf = name →
  match_keyword buf (Some h) = true
  ∧ translate_keyword buf (keyword_name buf) ex (Some h)
    = translate_keyword_subst buf name (if ex then Some value else None).
Proof.
  intros Hh Hl Hd He Hn. unfold match_keyword, translate_keyword, SVN_KEYWORD_MAX_LEN. rewrite Hn, Hh.
  split; [by rewrite bool_decide_eq_true_2|]. rewrite (proj2 (Nat.leb_le _ _)) by done.
  unfold buf_at at 1. rewrite drop_0, Hd, He. done.
Qed.

(** C35: For a keyword of the hash whose name has no NUL and no colon, and
    values without a NUL, of at most 250 bytes together with the name,
    expanding and contracting are inverse: the short form becomes the long
    form with the value, the long form becomes the short form again, and a
    long form with an older value (within the same limit) gets the current
    one; all three are recognised by the keyword's name. (A value past the
    limit overflows the buffer: translate_keyword_subst_overflow.) *)
Theorem translate_keyword_round_trip (h : keywords_t) name value value' :
  h !! name = Some value → NUL ∉ name → ":"%byte ∉ name → NUL ∉ value → NUL ∉ value' →
  (length name + length value <= 250)%nat → (length name + length value' <= 250)%nat →
  let short := short_form name in
  let long := long_form name value in
  let old := long_form name value' in
  match_keyword short (Some h) = true ∧ match_keyword long (Some h) = true ∧ match_keyword old (Some h) = true
  ∧ translate_keyword short (keyword_name short) true (Some h) = Ok (Some long)
  ∧ translate_keyword long (keyword_name long) false (Some h) = Ok (Some short)
  ∧ translate_keyword old (keyword_name old) true (Some h) = Ok (Some long).
Proof.
  intros Hh Hn Hc Hv Hv' Hfit Hfit' short long old.
  assert (∀ v, NUL ∉ v → (length name + length v <= 250)%nat →
    match_keyword (long_form name v) (Some h) = true
    ∧ ∀ ex, translate_keyword (long_form name v) (keyword_name (long_form name v)) ex (Some h)
      = translate_keyword_subst (long_form name v) name (if ex then Some value else None)) as Hlong.
  { intros v Hvn Hvf. assert (length (long_form name v) <= 255)%nat as Hl
      by (rewrite long_form_length; destruct v; cbn [length] in *; lia).
    pose proof (keyword_name_long name v (conj Hn Hc)) as Hk. pose proof (long_form_end name v) as [_ He].
    split; [by eapply (translate_keyword_known h _ name value true)|].
    intros ex. by eapply (translate_keyword_known h _ name value ex). }
  destruct (translate_keyword_known h short name value true) as [Hms Hts]; [done| |done| |by apply keyword_name_short|].
  { unfold short, short_form. rewrite length_app. cbn [length]. lia. }
  { unfold short, short_form. rewrite length_app. cbn [length].
    replace (S (length name) + 1 - 1)%nat with (length (DOLLAR :: name) + 0)%nat by (cbn [length]; lia). apply buf_at_app. }
  destruct (Hlong value Hv Hfit) as [Hml Htl]. destruct (Hlong value' Hv' Hfit') as [Hmo Hto].
  split_and!; try done.
  - rewrite Hts. by apply expand_short.
  - rewrite Htl. by apply (translate_long name value Hv Hfit None).
  - rewrite Hto. apply (translate_long name value' Hv' Hfit' (Some value)). by intros v [= <-].
Qed.

Lemma translate_keyword_round_trip_witness :
  let h : keywords_t := {[ bytes_of "Rev" := bytes_of "42" ]} in
  let short := short_form (bytes_of "Rev") in
  let long := long_form (bytes_of "Rev") (bytes_of "42") in
  let old := long_form (bytes_of "Rev") [] in
  match_keyword short (Some h) = true ∧ match_keyword long (Some h) = true ∧ match_keyword old (Some h) = true
  ∧ translate_keyword short (keyword_name short) true (Some h) = Ok (Some long)
  ∧ translate_keyword long (keyword_name long) false (Some h) = Ok (Some short)
  ∧ translate_keyword old (keyword_name old) true (Some h) = Ok (Some long).
Proof.
  apply (translate_keyword_round_trip {[ bytes_of "Rev" := bytes_of "42" ]} (bytes_of "Rev") (bytes_of "42") []).
  - reflexivity.
  - by apply (bool_decide_eq_true_1 _).
  - by apply (bool_decide_eq_true_1 _).
  - by apply (bool_decide_eq_true_1 _).
  - by apply (bool_decide_eq_true_1 _).
  - cbn. lia.
  - cbn. lia.
Defined.

(** ** Keywords of a fixed width *)

Lemma fill_spaces_length (s : list byte) : length (fill_spaces s) = length s.
Proof. induction s as [|c s IH]; cbn; [done|]. destruct (c =b? DOLLAR); cbn; by rewrite ?IH. Qed.

Lemma fill_spaces_last (s : list byte) : last s = Some DOLLAR → last (fill_spaces s) = Some DOLLAR.
Proof.
  induction s as [|c s IH]; [done|]. intros Hl. cbn [fill_spaces]. destruct (byte_eqb_spec c DOLLAR) as [|Hc]; [done|].
  destruct s as [|d s]; [cbn in Hl; congruence|]. specialize (IH Hl).
  destruct (fill_spaces (d :: s)); [done|]. exact IH.
Qed.

(** ["$keyword:: "] up to [" $"] or ["#$"]. *)
Definition fixed_width (buf keyword : list byte) : bool :=
  let ptr := (1 + length keyword)%nat in
  let len := length buf in
  (buf_at buf ptr =b? ":"%byte) && (buf_at buf (ptr + 1) =b? ":"%byte) && (buf_at buf (ptr + 2) =b? " "%byte)
  && ((buf_at buf (len - 2) =b? " "%byte) || (buf_at buf (len - 2) =b? "#"%byte))
  && (6 + length keyword <? len)%nat.

Lemma drop_buf_at (buf : list byte) i : (i < length buf)%nat → drop i buf = buf_at buf i :: drop (S i) buf.
Proof.
  intros Hp. unfold buf_at. destruct (drop i buf) as [|c t] eqn:Hd.
  { apply (f_equal length) in Hd. rewrite length_drop in Hd. cbn [length] in Hd. lia. }
  by rewrite <- Nat.add_1_r, <- drop_drop, Hd.
Qed.

Lemma last_drop (buf : list byte) i c : (i < length buf)%nat → last buf = Some c → last (drop i buf) = Some c.
Proof.
  intros Hi Hl. rewrite <- (take_drop i buf), last_app in Hl.
  destruct (drop i buf) as [|d t] eqn:Hd; [|destruct (last (d :: t)) eqn:El; [done|by apply last_None in El]].
  apply (f_equal length) in Hd. rewrite length_drop in Hd. cbn [length] in Hd. lia.
Qed.

(** A keyword of a fixed width keeps it: whether its value is put in, cut,
    padded or removed, the text has the same length, the same start and a
    dollar sign at its end. *)
Theorem translate_keyword_fixed_width (buf keyword : list byte) (value : option (list byte)) :
  (length buf <= SVN_KEYWORD_MAX_LEN)%nat → deref buf = DOLLAR → last buf = Some DOLLAR →
  take (length keyword) (drop 1 buf) = keyword → fixed_width buf keyword = true →
  ∃ buf', translate_keyword_subst buf keyword value = Ok (Some buf')
    ∧ length buf' = length buf
    ∧ take (length keyword + 4) buf' = take (length keyword + 4) buf ∧ last buf' = Some DOLLAR.
Proof.
  intros Hl Hd Hlast Hkey Hfix. unfold translate_keyword_subst. rewrite (proj2 (Nat.leb_le _ _)) by done.
  assert (6 + length keyword < length buf)%nat as Hlen
    by (unfold fixed_width in Hfix; apply andb_true_iff in Hfix as [_ ?%Nat.ltb_lt]; done).
  assert (buf_at buf (length buf - 1) = DOLLAR) as He.
  { pose proof (last_drop buf (length buf - 1) DOLLAR ltac:(lia) Hlast) as H.
    rewrite (drop_buf_at buf (length buf - 1)) in H by lia. rewrite drop_ge in H by lia. by injection H. }
  unfold buf_at at 1. rewrite drop_0, Hd, He. cbn [guarded]. rewrite byte_eqb_refl. cbn [andb guarded].
  rewrite (proj2 (Nat.ltb_ge (length buf) _)) by lia. rewrite Hkey, bool_decide_eq_true_2 by done. cbn [negb].
  cbv zeta. change (_ && _ && _ && _ && _) with (fixed_width buf keyword). rewrite Hfix.
  set (ptr := (1 + length keyword)%nat).
  assert (buf_at buf (ptr + 2) = " "%byte) as Hsp.
  { unfold fixed_width in Hfix. repeat (apply andb_true_iff in Hfix as [Hfix ?]). by apply byte_eqb_eq. }
  replace (length keyword + 4)%nat with (ptr + 3)%nat by lia.
  assert (ptr = 1 + length keyword)%nat as Hptr by done. clearbody ptr.
  assert (length (take (ptr + 3) buf) = ptr + 3)%nat as Htk by (rewrite length_take; lia).
  destruct value as [value|].
  - set (max := (length buf - (6 + length keyword))%nat).
    destruct (Nat.leb_spec (length value) max) as [Hv|Hv]; eexists; (split; [done|]).
    + split; [|split; [by rewrite take_app_length'|]].
      * rewrite !length_app, fill_spaces_length, length_drop, Htk. unfold strncpy.
        rewrite length_app, length_replicate, length_take. lia.
      * rewrite !last_app, fill_spaces_last; [done|]. apply last_drop; [lia|done].
    + split; [|split; [by rewrite take_app_length'|by rewrite !last_app]].
      rewrite !length_app, Htk. unfold strncpy. rewrite length_app, length_replicate, length_take. cbn [length]. lia.
  - eexists. split; [done|]. split; [|split].
    + rewrite length_app, fill_spaces_length, length_take, length_drop. lia.
    + rewrite (drop_buf_at buf (ptr + 2)), Hsp by lia. cbn [fill_spaces].
      rewrite (proj2 (byte_eqb_ne " "%byte DOLLAR)) by done.
      replace (ptr + 3)%nat with (ptr + 2 + 1)%nat by lia.
      rewrite <- (take_drop (ptr + 2) buf) at 3.
      assert (length (take (ptr + 2) buf) = ptr + 2)%nat as Htk2 by (rewrite length_take; lia).
      rewrite <- Htk2 at 1 4. rewrite !take_app_add, (drop_buf_at buf (ptr + 2)), Hsp by lia. done.
    + rewrite last_app, fill_spaces_last; [done|]. apply last_drop; [lia|done].
Qed.

Lemma translate_keyword_fixed_width_witness :
  let buf := bytes_of "$Rev::     $" in
  fixed_width buf (bytes_of "Rev") = true
  ∧ ∃ buf', translate_keyword_subst buf (bytes_of "Rev") (Some (bytes_of "4200")) = Ok (Some buf')
    ∧ length buf' = length buf
    ∧ take (length (bytes_of "Rev") + 4) buf' = take (length (bytes_of "Rev") + 4) buf ∧ last buf' = Some DOLLAR.
Proof.
  split; [reflexivity|].
  apply (translate_keyword_fixed_width (bytes_of "$Rev::     $") (bytes_of "Rev") (Some (bytes_of "4200"))).
  - apply Nat.leb_le. reflexivity.
  - reflexivity.
  - reflexivity.
  - reflexivity.
  - reflexivity.
Defined.

(** ** The keyword buffer *)

(** The second expansion of a keyword does not subtract the keyword's length from
    the room that the value has: a value that the first one cuts overflows. *)
Lemma translate_keyword_subst_overflow :
  let value := replicate 250 "x"%byte in
  (∃ buf, translate_keyword_subst (bytes_of "$Rev$") (bytes_of "Rev") (Some value) = Ok (Some buf))
  ∧ translate_keyword_subst (bytes_of "$Rev: 1 $") (bytes_of "Rev") (Some value) = Undefined.
Proof. split; [by eexists|]. vm_compute. done. Qed.
