(* ===== verification/Sorts.v ===== *)
(** * Sorting helpers

    [src/subversion/libsvn_subr/sorts.c]: the comparison functions, the sorted
    list of a hash table's items, and binary search. *)
From S2P Require Import Prelude Paths.

(** ** Items of a hash table *)

Record svn_sort__item_t (V : Type) := MkItem { item_key : list byte; item_value : V }.
Arguments MkItem {V} _ _.
Arguments item_key {V} _.
Arguments item_value {V} _.

Definition svn_sort_compare_items_as_paths {V} (a b : svn_sort__item_t V) : Z :=
  svn_path_compare_paths (item_key a) (item_key b).

(** [memcmp], by the sign of its result. *)
Fixpoint memcmp (a b : list byte) : Z :=
  match a, b with
  | x :: a, y :: b =>
      if x =b? y then memcmp a b else if byte_val x <? byte_val y then -1 else 1
  | _, _ => 0
  end.

Definition svn_sort_compare_items_lexically {V} (a b : svn_sort__item_t V) : Z :=
  let klen x := length (item_key x) in
  let len := Nat.min (klen a) (klen b) in
  let val := memcmp (take len (item_key a)) (take len (item_key b)) in
  if negb (val =? 0) then val
  else if (klen a <? klen b)%nat then -1 else if (klen b <? klen a)%nat then 1 else 0.

Definition svn_sort_compare_revisions (a_rev b_rev : Z) : Z :=
  if a_rev =? b_rev then 0 else if a_rev <? b_rev then 1 else -1.

(** The flag [sorted] after the loop that pushes the items. *)
Fixpoint pushed_in_order {A} (comparison_func : A → A → Z) (ary : list A) : bool :=
  match ary with
  | [] => true
  | item :: ary =>
      match ary with
      | [] => true
      | next :: _ => (comparison_func item next <? 0) && pushed_in_order comparison_func ary
      end
  end.

(** [items] are the entries of the hash table in the order in which APR
    iterates over them, which is unspecified. *)
Definition svn_sort__hash `{Qsort} {V} (items : list (svn_sort__item_t V))
    (comparison_func : svn_sort__item_t V → svn_sort__item_t V → Z)
    : list (svn_sort__item_t V) :=
  if pushed_in_order comparison_func items then items else qsort comparison_func items.

(** ** Binary search *)

(** The [while] loop; [fuel] bounds the iterations by the width of the
    interval.  [base] is only read below [nelts]. *)
Fixpoint lower_bound_loop {A} (fuel : nat) (compare_func : A → A → Z) (key : A)
    (base : list A) (lower upper : Z) : result Z :=
  if lower <=? upper then
    match fuel with
    | O => OutOfFuel
    | S fuel =>
      let try := lower + (upper - lower) / 2 in
      match base !! Z.to_nat try with
      | Some elt =>
          if compare_func elt key <? 0
          then lower_bound_loop fuel compare_func key base (try + 1) upper
          else lower_bound_loop fuel compare_func key base lower (try - 1)
      | None => Aborted
      end
    end
  else assert! lower =? upper + 1 in Ok lower.

Definition svn_sort__bsearch_lower_bound {A} (key : A) (array : list A)
    (compare_func : A → A → Z) : result Z :=
  lower_bound_loop (length array) compare_func key array 0 (Z.of_nat (length array) - 1).

(** ** Theorems *)

Section Bsearch.
Context {A : Type} (compare_func : A → A → Z) (key : A) (array : list A).

(** The array is sorted relative to [key]: the elements below it come first. *)
Hypothesis Hsorted : ∀ i j x y, (i <= j)%nat →
  array !! i = Some x → array !! j = Some y →
  compare_func y key < 0 → compare_func x key < 0.

Lemma lower_bound_loop_ok fuel lower upper :
  0 <= lower → upper < Z.of_nat (length array) → lower <= upper + 1 →
  upper + 1 - lower <= Z.of_nat fuel →
  (∀ i x, array !! i = Some x → Z.of_nat i < lower → compare_func x key < 0) →
  (∀ i x, array !! i = Some x → upper < Z.of_nat i → 0 <= compare_func x key) →
  ∃ index,
    lower_bound_loop fuel compare_func key array lower upper = Ok index
    ∧ 0 <= index <= Z.of_nat (length array)
    ∧ (∀ i x, array !! i = Some x → (Z.of_nat i < index ↔ compare_func x key < 0)).
Proof.
  revert lower upper; induction fuel as [|fuel IH];
    intros lower upper Hl Hu Hlu Hf Hlow Hup; cbn [lower_bound_loop].
  - unfold guarded. if_false by lia. if_true by lia. exists lower.
    split; [done|]. split; [lia|]. intros i x Hx. split; [by eauto|]. intros Hc.
    specialize (Hup i x Hx). lia.
  - destruct (Z.leb_spec lower upper) as [Hle|Hgt].
    + pose proof (Z.div_pos (upper - lower) 2).
      pose proof (Z.mul_div_le (upper - lower) 2).
      set (try := lower + (upper - lower) / 2) in *.
      destruct (lookup_lt_is_Some_2 array (Z.to_nat try)) as [elt He]; [lia|].
      rewrite He. destruct (Z.ltb_spec (compare_func elt key) 0) as [Hc|Hc].
      * apply IH; try lia; [|done]. intros i x Hx Hi.
        apply (Hsorted i (Z.to_nat try) x elt); [lia|done..].
      * apply IH; try lia; [done|]. intros i x Hx Hi.
        destruct (Z.lt_ge_cases (compare_func x key) 0) as [Hc'|]; [|done].
        assert (compare_func elt key < 0); [|lia].
        apply (Hsorted (Z.to_nat try) i elt x); [lia|done..].
    + unfold guarded. if_true by lia. exists lower.
      split; [done|]. split; [lia|]. intros i x Hx. split; [by eauto|]. intros Hc.
      specialize (Hup i x Hx). lia.
Qed.
End Bsearch.

(** svn_sort__bsearch_lower_bound ends, stays inside the array, and returns
    the index that separates the elements below the key from the others. *)
Theorem svn_sort__bsearch_lower_bound_spec {A} (compare_func : A → A → Z) (key : A)
    (array : list A) :
  (∀ i j x y, (i <= j)%nat → array !! i = Some x → array !! j = Some y →
     compare_func y key < 0 → compare_func x key < 0) →
  ∃ index,
    svn_sort__bsearch_lower_bound key array compare_func = Ok index
    ∧ 0 <= index <= Z.of_nat (length array)
    ∧ ∀ i x, array !! i = Some x → (Z.of_nat i < index ↔ compare_func x key < 0).
Proof.
  intros Hs. apply lower_bound_loop_ok; try lia; [done|].
  intros i x Hx%lookup_lt_Some Hi. lia.
Qed.

Lemma svn_sort__bsearch_lower_bound_spec_witness :
  ∃ index,
    svn_sort__bsearch_lower_bound 5 [2; 4; 5; 5; 9] Z.sub = Ok index
    ∧ 0 <= index <= Z.of_nat (length [2; 4; 5; 5; 9])
    ∧ ∀ i x, [2; 4; 5; 5; 9] !! i = Some x → (Z.of_nat i < index ↔ x - 5 < 0).
Proof.
  apply (svn_sort__bsearch_lower_bound_spec Z.sub 5).
  intros i j x y Hij Hx Hy.
  destruct (decide (i = j)) as [->|Hne]; [rewrite Hx in Hy; by injection Hy as ->|].
  repeat (destruct i as [|i]; [injection Hx as <-|]); try done;
    repeat (destruct j as [|j]; [injection Hy as <-|]); try done; lia.
Defined.

(** *** The items of a hash table *)

Section Hash.
Context `{Qsort} {V : Type}.
Implicit Types (items : list (svn_sort__item_t V)).

Definition item_le (a b : svn_sort__item_t V) : Prop :=
  svn_sort_compare_items_as_paths a b <= 0.

Definition path_items items : Prop :=
  Forall (λ item, c_string (item_key item) = true) items ∧ NoDup (map item_key items).

Lemma path_items_in items x :
  path_items items → x ∈ items → c_string (item_key x) = true.
Proof. intros [Hc _] Hx. by apply (proj1 (Forall_forall _ _) Hc). Qed.

Lemma path_items_key items x y :
  path_items items → x ∈ items → y ∈ items → item_key x = item_key y → x = y.
Proof.
  intros [_ Hnd] Hx Hy He.
  apply list_elem_of_lookup in Hx as [i Hi], Hy as [j Hj].
  assert (i = j) as ->; [|congruence].
  apply (NoDup_lookup (map item_key items) i j (item_key x));
    [done|by rewrite list_lookup_fmap, Hi|by rewrite list_lookup_fmap, Hj, He].
Qed.

Lemma item_le_trans x y z :
  c_string (item_key x) = true → c_string (item_key y) = true →
  c_string (item_key z) = true → item_le x y → item_le y z → item_le x z.
Proof. intros Hx Hy Hz. by apply (svn_path_order _ _ _ Hx Hy Hz). Qed.

Lemma pushed_in_order_sorted items :
  path_items items →
  pushed_in_order svn_sort_compare_items_as_paths items = true → StronglySorted item_le items.
Proof.
  intros [Hc _]. induction items as [|x items IH]; [constructor|].
  apply Forall_cons in Hc as [Hx Hc]. destruct items as [|y items].
  { intros _. repeat constructor. }
  intros [Hxy Hp]%andb_true_iff. specialize (IH Hc Hp). constructor; [done|].
  apply StronglySorted_inv in IH as [_ Hall].
  apply Forall_cons in Hc as [Hy Hc].
  assert (item_le x y) as Hle by (unfold item_le; lia).
  constructor; [done|]. rewrite Forall_forall in *. intros z Hz.
  eapply item_le_trans; eauto.
Qed.

Lemma svn_sort__hash_sorted items :
  path_items items →
  svn_sort__hash items svn_sort_compare_items_as_paths ≡ₚ items
  ∧ StronglySorted item_le (svn_sort__hash items svn_sort_compare_items_as_paths).
Proof.
  intros Hi. unfold svn_sort__hash. case_if.
  - split; [done|]. by apply pushed_in_order_sorted.
  - split; [apply qsort_perm|]. apply qsort_sorted.
    + intros x y Hx%(path_items_in items) Hy%(path_items_in items); [|done..].
      destruct (svn_path_order _ _ _ Hx Hy Hy) as (_ & Hopp & _).
      unfold svn_sort_compare_items_as_paths. lia.
    + intros x y z Hx Hy Hz. apply item_le_trans; by apply (path_items_in items).
Qed.
End Hash.

(** svn_sort__hash with the path comparison returns the items of the hash in
    path order, and the same array whatever order the hash is iterated in. *)
Theorem svn_sort__hash_as_paths `{Qsort} {V} (items items' : list (svn_sort__item_t V)) :
  path_items items → items' ≡ₚ items →
  let ary := svn_sort__hash items svn_sort_compare_items_as_paths in
  ary ≡ₚ items
  ∧ StronglySorted (λ a b, svn_sort_compare_items_as_paths a b <= 0) ary
  ∧ svn_sort__hash items' svn_sort_compare_items_as_paths = ary.
Proof.
  intros Hi Hp. simpl. destruct (svn_sort__hash_sorted items Hi) as [Hperm Hs].
  split; [done|]. split; [done|].
  assert (path_items items') as Hi'.
  { destruct Hi. split; by rewrite Hp. }
  destruct (svn_sort__hash_sorted items' Hi') as [Hperm' Hs'].
  apply (StronglySorted_unique_strong item_le); [|done|done|by rewrite Hperm', Hperm].
  intros x y Hx Hy. rewrite Hperm', Hp in Hx. rewrite Hperm in Hy.
  unfold item_le, svn_sort_compare_items_as_paths. intros H1 H2.
  pose proof (path_items_in _ _ Hi Hx) as Hcx. pose proof (path_items_in _ _ Hi Hy) as Hcy.
  destruct (svn_path_order _ _ _ Hcx Hcy Hcy) as (Heq & Hopp & _).
  apply (path_items_key items); [done..|]. apply Heq. lia.
Qed.

Lemma svn_sort__hash_as_paths_witness :
  let item p := MkItem (String.list_byte_of_string p) tt in
  let items := [item "/a-b"; item "/b"; item "/a/c"; item "/a"] in
  let ary := svn_sort__hash items svn_sort_compare_items_as_paths in
  ary ≡ₚ items
  ∧ StronglySorted (λ a b, svn_sort_compare_items_as_paths a b <= 0) ary
  ∧ svn_sort__hash (reverse items) svn_sort_compare_items_as_paths = ary.
Proof.
  apply svn_sort__hash_as_paths.
  - split; [repeat constructor|]. vm_compute. apply (bool_decide_unpack _). by vm_compute.
  - apply reverse_Permutation.
Defined.
