(* ===== verification/PathDriver.v ===== *)
(** * Path-based delta drivers

    [src/subversion/libsvn_delta/path_driver.c], which drives a tree delta editor
    through the paths of a list: it opens the directories above each path and
    closes those it leaves, and a callback handles the path itself; and
    [svn_delta_path_driver] of [deprecated.c], which sorts the paths first.

    A delta editor is a record of functions that take and return the state of
    whatever they work on.  A baton is a pointer that may be null, an
    [option Baton]; the stack of directory batons has its top first.  The pools
    of the stack are not modelled. *)
From S2P Require Import Prelude Cstrings Paths Relpaths.

Implicit Types (path : list byte).

(** ** The program *)

Section Driver.
Context {St Baton : Type}.

(** The functions of [svn_delta_editor_t] that the driver calls; the edit baton
    is part of the state, and the revision is always [SVN_INVALID_REVNUM]. *)
Record svn_delta_editor_t := {
  open_root : St → result (St * option Baton);
  open_directory : list byte → option Baton → St → result (St * option Baton);
  close_directory : option Baton → St → result St;
}.

(** Takes the path and its parent's baton; returns [*dir_baton]. *)
Definition svn_delta_path_driver_cb_func_t : Type :=
  list byte → option Baton → St → result (St * option Baton).

Variables (editor : svn_delta_editor_t) (callback_func : svn_delta_path_driver_cb_func_t).

Definition open_dir (db_stack : list (option Baton)) path (st : St)
    : result (list (option Baton) * St) :=
  match db_stack with
  | [] => Aborted
  | parent_db :: _ =>
      let! (st, db) := open_directory editor path parent_db st in
      Ok (db :: db_stack, st)
  end.

Definition pop_stack (db_stack : list (option Baton)) (st : St)
    : result (list (option Baton) * St) :=
  match db_stack with
  | [] => Aborted
  | db :: db_stack =>
      let! st := close_directory editor db st in
      Ok (db_stack, st)
  end.

(** [instance] is advanced before it is read: an empty rest is left behind its
    terminator. *)
Fixpoint components_loop (fuel : nat) (instance : list byte) (count : nat) : result nat :=
  match fuel, instance with
  | O, _ => OutOfFuel
  | _, [] => Undefined
  | S fuel, _ :: instance =>
      match strchr instance SLASH with
      | Some (_, after) => components_loop fuel (SLASH :: after) (S count)
      | None => Ok count
      end
  end.

Definition count_components path : result nat :=
  if bool_decide (path = [SLASH]) then Ok 0%nat
  else components_loop (S (length path)) path 1.

(** [while (count--) pop_stack (...)] *)
Fixpoint pop_directories (count : nat) (db_stack : list (option Baton)) (st : St)
    : result (list (option Baton) * St) :=
  match count with
  | O => Ok (db_stack, st)
  | S count =>
      let! (db_stack, st) := pop_stack db_stack st in
      pop_directories count db_stack st
  end.

(** Step C: [piece] is an offset in [pdir]. *)
Fixpoint open_directories (fuel : nat) (pdir : list byte) (piece : nat)
    (db_stack : list (option Baton)) (st : St) : result (list (option Baton) * St) :=
  match fuel with
  | O => OutOfFuel
  | S fuel =>
      match strchr (drop piece pdir) SLASH with
      | Some (before, _) =>
          let piece := (piece + length before)%nat in
          let! (db_stack, st) := open_dir db_stack (take piece pdir) st in
          open_directories fuel pdir (S piece) db_stack st
      | None => open_dir db_stack pdir st
      end
  end.

(** One round of the loop over the paths; [last_path] is null in the first round
    of a drive whose first path is not the root ([i == 0]). *)
Definition drive_path path (db_stack : list (option Baton)) (last_path : option (list byte))
    (st : St) : result (list (option Baton) * option (list byte) * St) :=
  let common :=
    match last_path with
    | None => []
    | Some last_path =>
        if deref last_path =b? SLASH then svn_fspath__get_longest_ancestor last_path path
        else svn_relpath_get_longest_ancestor last_path path
    end in
  let common_len := length common in
  let! (db_stack, st) :=
    match last_path with
    | None => Ok (db_stack, st)
    | Some last_path =>
        if (common_len <? length last_path)%nat then
          let rel := drop (match common_len with O => O | S _ => S common_len end) last_path in
          let! count := count_components rel in
          pop_directories count db_stack st
        else Ok (db_stack, st)
    end in
  let '(pdir, _) :=
    if deref path =b? SLASH then svn_fspath__split path else svn_relpath_split path in
  let! (db_stack, st) :=
    if (common_len <? length pdir)%nat then
      open_directories (S (length pdir)) pdir (S common_len) db_stack st
    else Ok (db_stack, st) in
  match db_stack with
  | [] => Undefined
  | parent_db :: _ =>
      let! (st, db) := callback_func path parent_db st in
      match db with
      | Some _ => Ok (db :: db_stack, Some path, st)
      | None => Ok (db_stack, Some pdir, st)
      end
  end.

Fixpoint drive_paths (paths : list (list byte)) (db_stack : list (option Baton))
    (last_path : option (list byte)) (st : St) : result (list (option Baton) * St) :=
  match paths with
  | [] => Ok (db_stack, st)
  | path :: paths =>
      let! (db_stack, last_path, st) := drive_path path db_stack last_path st in
      drive_paths paths db_stack last_path st
  end.

Definition svn_delta_path_driver2 (paths : list (list byte)) (st : St) : result St :=
  match paths with
  | [] => Ok st
  | path :: rest =>
      let! (db_stack, st) :=
        match path with
        | [] =>
            let! (st, db) := callback_func path None st in
            drive_paths rest [db] (Some path) st
        | _ =>
            let! (st, db) := open_root editor st in
            drive_paths paths [db] None st
        end in
      let! (_, st) := pop_directories (length db_stack) db_stack st in
      Ok st
  end.

Definition svn_delta_path_driver `{Qsort} (paths : list (list byte)) (st : St) : result St :=
  svn_delta_path_driver2 (qsort svn_path_compare_paths paths) st.

End Driver.
Arguments svn_delta_editor_t : clear implicits.
Arguments svn_delta_path_driver_cb_func_t : clear implicits.
