(* ===== verification/PathDriverCorrect.v ===== *)
(** * The path driver makes valid drives

    [svn_delta.h] asks of whoever drives an editor that directories are opened
    depth first, each one once and with the baton of its parent, and that every
    directory is closed.  A monitor wrapped around any editor and any callback
    stops a drive that breaks these rules; the theorem says that it never stops
    a drive of [svn_delta_path_driver]. *)
From S2P Require Import Prelude Cstrings Paths Relpaths PathDriver.

Implicit Types (path : list byte) (a b c l : list (list byte)).

(** ** The monitor *)

Section Monitor.
Context {St Baton : Type} `{!EqDecision Baton}.

(** The directories that are open, the innermost first, with their batons; all
    directories that were ever opened; the paths handed to the callback. *)
Record monitor_t := MkMonitor {
  mon_open : list (list byte * option Baton);
  mon_dirs : list (list byte);
  mon_called : list (list byte);
  mon_state : St;
}.

Definition start_monitor (st : St) : monitor_t := MkMonitor [] [] [] st.

(** [path] can be visited below the innermost directory, whose baton is [parent]. *)
Definition may_visit path (parent : option Baton) (m : monitor_t) : bool :=
  match mon_open m with
  | [] => false
  | (dir, db) :: _ =>
      bool_decide (parent = db) && bool_decide (path ≠ [])
      && bool_decide (svn_relpath_dirname path = dir) && bool_decide (path ∉ mon_dirs m)
  end.

Definition opened path (db : option Baton) (st : St) (m : monitor_t) : monitor_t :=
  MkMonitor ((path, db) :: mon_open m) (path :: mon_dirs m) (mon_called m) st.

Definition called path (m : monitor_t) : monitor_t :=
  MkMonitor (mon_open m) (mon_dirs m) (mon_called m ++ [path]) (mon_state m).

Definition may_open_root (m : monitor_t) : bool :=
  bool_decide (mon_open m = []) && bool_decide (mon_dirs m = []).

Definition monitored_editor (editor : svn_delta_editor_t St Baton)
    : svn_delta_editor_t monitor_t Baton := {|
  open_root m :=
    assert! may_open_root m in
    let! (st, db) := open_root editor (mon_state m) in
    Ok (opened [] db st m, db);
  open_directory path parent m :=
    assert! may_visit path parent m in
    let! (st, db) := open_directory editor path parent (mon_state m) in
    Ok (opened path db st m, db);
  close_directory db m :=
    match mon_open m with
    | [] => Aborted
    | (dir, db') :: rest =>
        assert! bool_decide (db = db') in
        let! st := close_directory editor db (mon_state m) in
        Ok (MkMonitor rest (mon_dirs m) (mon_called m) st)
    end;
|}.

Definition monitored_callback (callback : svn_delta_path_driver_cb_func_t St Baton)
    : svn_delta_path_driver_cb_func_t monitor_t Baton := λ path parent m,
  assert! if bool_decide (path = []) then may_open_root m && bool_decide (parent = None)
          else may_visit path parent m && bool_decide (path ∉ mon_called m) in
  let! (st, db) := callback path parent (mon_state m) in
  let m := called path (MkMonitor (mon_open m) (mon_dirs m) (mon_called m) st) in
  Ok (if bool_decide (path = []) || bool_decide (db ≠ None) then opened path db st m else m, db).

End Monitor.
Arguments monitor_t : clear implicits.

(** ** Outcomes *)

Inductive failure := FError (e : svn_errno) | FAborted | FUndefined | FOutOfFuel.

Definition failing {A} (f : failure) : result A :=
  match f with
  | FError e => Error e
  | FAborted => Aborted
  | FUndefined => Undefined
  | FOutOfFuel => OutOfFuel
  end.

Lemma failing_bind {A B} f (k : A → result B) : (let! x := failing f in k x) = failing f.
Proof. by destruct f. Qed.

Lemma result_cases {A} (r : result A) : (∃ x, r = Ok x) ∨ (∃ f, r = failing f).
Proof.
  destruct r; [left; by eexists|right..]; [by exists (FError e)|by exists FAborted|by exists FUndefined|
    by exists FOutOfFuel].
Qed.

(** ** The directories above a path *)

(** A path's directories and itself, the innermost first. *)
Fixpoint opens_upto (l : list (list byte)) (n : nat) : list (list byte) :=
  join_slash (take n l) :: match n with O => [] | S n => opens_upto l n end.

Definition opens l : list (list byte) := opens_upto l (length l).

Lemma opens_upto_app l c n : (n <= length l)%nat → opens_upto (l ++ c) n = opens_upto l n.
Proof.
  induction n as [|n IH]; intros Hn; cbn [opens_upto]; [done|].
  rewrite take_app_le by done. by rewrite IH by lia.
Qed.

Lemma opens_snoc l seg : opens (l ++ [seg]) = join_slash (l ++ [seg]) :: opens l.
Proof.
  unfold opens. rewrite length_app. simpl length. rewrite Nat.add_1_r. cbn [opens_upto].
  rewrite opens_upto_app by done. f_equal. rewrite firstn_all2; [done|]. rewrite length_app. simpl. lia.
Qed.

Lemma opens_ne l : opens l ≠ [].
Proof. unfold opens. by destruct (length l). Qed.

(** ** The order of the paths *)

Definition path_before a b : Prop := svn_path_compare_paths (join_slash a) (join_slash b) < 0.

Definition good a : Prop := proper a ∧ c_string (join_slash a) = true.

Lemma c_string_app s t : c_string (s ++ t) = c_string s && c_string t.
Proof. unfold c_string. by rewrite forallb_app. Qed.

Lemma good_app a b : good (a ++ b) → good a.
Proof.
  intros [Hp Hc]. split; [by apply proper_app in Hp as [? _]|].
  destruct (decide (a = [])) as [->|Hna]; [done|]. destruct (decide (b = [])) as [->|Hnb].
  { by rewrite app_nil_r in Hc. }
  rewrite join_slash_app, c_string_app in Hc by done. by apply andb_true_iff in Hc as [? _].
Qed.

Lemma path_before_trans a b c :
  good a → good b → good c → path_before a b → path_before b c → path_before a c.
Proof.
  unfold path_before. intros [_ Ha] [_ Hb] [_ Hc] H1 H2.
  destruct (svn_path_order _ _ _ Ha Hb Hc) as (_ & _ & Htr).
  specialize (Htr ltac:(lia) ltac:(lia)).
  destruct (Z.eq_dec (svn_path_compare_paths (join_slash a) (join_slash c)) 0) as [He|]; [|lia].
  apply (svn_path_order _ _ _ Ha Hc Hc) in He. rewrite <- He in H2.
  destruct (svn_path_order _ _ _ Ha Hb Ha) as (_ & Hopp & _). lia.
Qed.

Lemma path_before_irrefl a : good a → ¬ path_before a a.
Proof.
  unfold path_before. intros [_ Ha]. destruct (svn_path_order _ _ _ Ha Ha Ha) as ([_ H] & _).
  rewrite H by done. lia.
Qed.

Lemma lex_compare_app r1 x r2 : lex_compare r1 (r1 ++ x :: r2) = -1.
Proof. induction r1 as [|y r1 IH]; simpl; [done|]. by rewrite Z.eqb_refl. Qed.

(** A directory comes before what is in it. *)
Lemma path_before_child a b : good (a ++ b) → b ≠ [] → path_before a (a ++ b).
Proof.
  intros Hg Hb. pose proof (good_app _ _ Hg) as [Ha Hca]. destruct Hg as [Hp Hc]. unfold path_before.
  rewrite svn_path_compare_paths_lex by done. apply proper_app in Hp as [_ Hpb].
  destruct (decide (a = [])) as [->|Hna].
  - pose proof (join_slash_ne b Hpb Hb). simpl. by destruct (join_slash b).
  - rewrite join_slash_app, map_app by done. cbn [map]. rewrite lex_compare_app. lia.
Qed.

(** What lies between a directory and something in it is in it. *)
Lemma path_before_between a b p :
  good (a ++ b) → good p → path_before a p → path_before p (a ++ b) → a `prefix_of` p.
Proof.
  intros Hg [Hp Hcp] H1 H2. pose proof (good_app _ _ Hg) as [Ha Hca]. destruct Hg as [Hab Hc].
  destruct (decide (a = [])) as [->|Hna]; [apply prefix_nil|].
  destruct (decide (b = [])) as [->|Hnb].
  { rewrite app_nil_r in *. exfalso. eapply path_before_irrefl; [|eapply path_before_trans]; by eauto. }
  unfold path_before in *. rewrite join_slash_app in * by done.
  rewrite c_string_app in Hc. apply andb_true_iff in Hc as [_ Hc].
  destruct (path_subtree (join_slash a) (join_slash p) (join_slash b)) as [He|[rest He]];
    [done|done|by apply andb_true_iff in Hc as [_ Hc]|lia|lia|..].
  - apply join_slash_inj in He as ->; [done..].
  - destruct (join_slash_extends a p _ Ha Hp Hna He) as [[? _]|[(r & _ & -> & _)|(x & t & Hx & [= <- _] & _)]];
      [done|by apply prefix_app_r|done].
Qed.

(** ** Counting components *)

Lemma length_join_slash a : proper a → (length a <= length (join_slash a))%nat.
Proof.
  induction a as [|x a IH]; intros Ha; [done|]. apply Forall_cons in Ha as [Hx Ha].
  rewrite join_slash_cons, length_app. apply proper_segment_ne in Hx.
  destruct x as [|y x]; [done|]. specialize (IH Ha). destruct a; simpl in *; lia.
Qed.

Lemma strchr_tail y a :
  SLASH ∉ y →
  strchr (y ++ match a with [] => [] | _ => SLASH :: join_slash a end) SLASH
  = match a with [] => None | _ => Some (y, join_slash a) end.
Proof. intros Hy. destruct a; [rewrite app_nil_r; by apply strchr_none|by apply strchr_app]. Qed.

Lemma components_loop_join fuel x y a count :
  SLASH ∉ y → proper a → (length a < fuel)%nat →
  components_loop fuel (x :: y ++ match a with [] => [] | _ => SLASH :: join_slash a end) count
  = Ok (count + length a)%nat.
Proof.
  revert x y a count; induction fuel as [|fuel IH]; intros x y a count Hy Ha Hf; [lia|].
  cbn [components_loop]. rewrite strchr_tail by done. destruct a as [|z a]; [by rewrite Nat.add_0_r|].
  apply Forall_cons in Ha as [[Hz _] Ha]. rewrite join_slash_cons.
  simpl in Hf. rewrite IH by (done || lia). f_equal. simpl. lia.
Qed.

Lemma count_components_join a : proper a → a ≠ [] → count_components (join_slash a) = Ok (length a).
Proof.
  intros Ha Hne. unfold count_components. pose proof (join_slash_head a Ha) as Hh.
  rewrite bool_decide_eq_false_2 by (by intros He; rewrite He in Hh).
  pose proof (length_join_slash a Ha) as Hl. destruct a as [|x a]; [done|].
  apply Forall_cons in Ha as [Hx Ha]. pose proof (proper_segment_ne _ Hx) as Hn. destruct Hx as [Hx _].
  rewrite join_slash_cons in *. destruct x as [|y x]; [done|]. apply not_elem_of_cons in Hx as [_ Hx].
  cbn [app]. rewrite components_loop_join; [done..|]. simpl in *. lia.
Qed.

(** ** The monitored drive *)

Section Simulation.
Context {St Baton : Type} `{!EqDecision Baton}.
Variables (editor : svn_delta_editor_t St Baton)
  (callback : svn_delta_path_driver_cb_func_t St Baton).

Let medit := monitored_editor editor.
Let mcall := monitored_callback callback.

(** A call of the editor or of the callback that does not succeed. *)
Definition call_fails (f : failure) : Prop :=
  (∃ st, open_root editor st = failing f)
  ∨ (∃ path db st, open_directory editor path db st = failing f)
  ∨ (∃ db st, close_directory editor db st = failing f)
  ∨ (∃ path db st, callback path db st = failing f).

(** Both runs go on with related results, or stop with the failure of a call. *)
Inductive agree {A B} (P : A → B → Prop) : result A → result B → Prop :=
  | agree_ok x y : P x y → agree P (Ok x) (Ok y)
  | agree_fail f : call_fails f → agree P (failing f) (failing f).

Lemma agree_bind {A B A' B'} (P : A → B → Prop) (Q : A' → B' → Prop) r r' k k' :
  agree P r r' → (∀ x y, P x y → agree Q (k x) (k' y)) →
  agree Q (let! x := r in k x) (let! y := r' in k' y).
Proof.
  intros [x y H|f Hf] Hk; [by apply Hk|]. rewrite !failing_bind. by constructor.
Qed.

Lemma agree_mono {A B} (P Q : A → B → Prop) r r' :
  agree P r r' → (∀ x y, P x y → Q x y) → agree Q r r'.
Proof. intros [x y H|f Hf] HPQ; constructor; [by apply HPQ|done]. Qed.

(** The monitor sees the directories down to [l], with the batons of the stack. *)
Record tracks (l : list (list byte)) (db_stack : list (option Baton)) (st : St)
    (m : monitor_t St Baton) : Prop := {
  tracks_state : mon_state m = st;
  tracks_open : map fst (mon_open m) = opens l;
  tracks_stack : map snd (mon_open m) = db_stack;
}.

Lemma tracks_top l db_stack st m :
  tracks l db_stack st m →
  ∃ db rest stack', mon_open m = (join_slash l, db) :: rest ∧ db_stack = db :: stack'.
Proof.
  intros [_ Ho <-]. destruct (mon_open m) as [|[dir db] rest]; [by destruct (opens_ne l)|].
  exists db, rest, (map snd rest). split; [|done]. f_equal. f_equal. unfold opens in Ho. destruct (length l) eqn:Hl;
    simpl in Ho; injection Ho as Ho _; rewrite Ho; [by apply nil_length_inv in Hl as ->|].
  rewrite <- Hl. by rewrite firstn_all.
Qed.

Definition same_record (m m' : monitor_t St Baton) : Prop :=
  mon_dirs m' = mon_dirs m ∧ mon_called m' = mon_called m.

(** *** Leaving directories *)

Lemma pop_stack_tracks l seg db_stack st m :
  tracks (l ++ [seg]) db_stack st m →
  agree (λ '(stack, st) '(stack', m'), stack' = stack ∧ tracks l stack st m' ∧ same_record m m')
    (pop_stack editor db_stack st) (pop_stack medit db_stack m).
Proof.
  intros [<- Ho <-]. rewrite opens_snoc in Ho. destruct (mon_open m) as [|[dir db] rest] eqn:Hm; [done|].
  injection Ho as -> Ho. cbn [map snd pop_stack].
  change (close_directory medit db m) with
    (match mon_open m with
     | [] => Aborted
     | (dir, db') :: rest =>
         assert! bool_decide (db = db') in
         let! st := close_directory editor db (mon_state m) in
         Ok (MkMonitor rest (mon_dirs m) (mon_called m) st) end).
  rewrite Hm, bool_decide_eq_true_2 by done. cbn [guarded].
  destruct (result_cases (close_directory editor db (mon_state m))) as [[st' Hc]|[f Hc]]; rewrite Hc.
  - cbn [rbind]. constructor. split; [done|]. split; [|done]. by split.
  - rewrite !failing_bind. constructor. right. right. left. eauto.
Qed.

Lemma pop_directories_tracks l c db_stack st m :
  tracks (l ++ c) db_stack st m →
  agree (λ '(stack, st) '(stack', m'), stack' = stack ∧ tracks l stack st m' ∧ same_record m m')
    (pop_directories editor (length c) db_stack st) (pop_directories medit (length c) db_stack m).
Proof.
  revert db_stack st m; induction c as [|seg c IH] using rev_ind; intros db_stack st m Ht.
  - rewrite app_nil_r in Ht. by constructor.
  - rewrite app_assoc in Ht. rewrite length_app, Nat.add_comm. cbn [length Nat.add pop_directories].
    eapply agree_bind; [by eapply pop_stack_tracks|].
    intros [stack st'] [stack' m'] (-> & Ht' & [Hd Hc]).
    eapply agree_mono; [by apply IH|]. intros [stk s] [stk' m''] (-> & H1 & [Hd' Hc']).
    split; [done|]. split; [done|]. split; congruence.
Qed.

(** *** Entering directories *)

Lemma join_slash_snoc_ne l seg : proper l → proper_segment seg → join_slash (l ++ [seg]) ≠ [].
Proof.
  intros Hl Hs. apply join_slash_ne; [|by destruct l]. apply proper_app. split; [done|]. by constructor.
Qed.

Lemma may_visit_below l seg db rest (m : monitor_t St Baton) :
  proper l → proper_segment seg → mon_open m = (join_slash l, db) :: rest →
  join_slash (l ++ [seg]) ∉ mon_dirs m → may_visit (join_slash (l ++ [seg])) db m = true.
Proof.
  intros Hl Hs Hm Hfresh. unfold may_visit. rewrite Hm, svn_relpath_dirname_join by done.
  by rewrite !bool_decide_eq_true_2 by (done || by apply join_slash_snoc_ne).
Qed.

Lemma open_dir_tracks l seg db_stack st m :
  proper l → proper_segment seg → tracks l db_stack st m → join_slash (l ++ [seg]) ∉ mon_dirs m →
  agree (λ '(stack, st) '(stack', m'), stack' = stack ∧ tracks (l ++ [seg]) stack st m'
           ∧ mon_dirs m' = join_slash (l ++ [seg]) :: mon_dirs m ∧ mon_called m' = mon_called m)
    (open_dir editor db_stack (join_slash (l ++ [seg])) st)
    (open_dir medit db_stack (join_slash (l ++ [seg])) m).
Proof.
  intros Hl Hs Ht Hfresh. destruct (tracks_top _ _ _ _ Ht) as (db & rest & stack & Hm & ->).
  destruct Ht as [<- Ho Hst]. unfold open_dir.
  change (open_directory medit ?p ?d m) with
    (assert! may_visit p d m in
     let! (st, db) := open_directory editor p d (mon_state m) in Ok (opened p db st m, db)).
  rewrite (may_visit_below l seg db rest) by done.
  cbn [guarded].
  destruct (result_cases (open_directory editor (join_slash (l ++ [seg])) db (mon_state m)))
    as [[[st' db'] Hc]|[f Hc]]; rewrite Hc.
  - cbn [rbind]. constructor. split; [done|]. split; [|done]. split; cbn; [done|..].
    + by rewrite opens_snoc, Ho.
    + by rewrite Hst.
  - rewrite !failing_bind. constructor. right. left. eauto.
Qed.

Lemma take_join_slash a b : take (length (join_slash a)) (join_slash (a ++ b)) = join_slash a.
Proof.
  destruct (decide (a = [])) as [->|Hna]; [done|].
  destruct (decide (b = [])) as [->|Hnb]; [by rewrite app_nil_r, firstn_all|].
  by rewrite join_slash_app, take_app_length.
Qed.

Definition tail_of (r : list (list byte)) : list byte :=
  match r with [] => [] | _ => SLASH :: join_slash r end.

(** The directories of [r] below [c] are not open yet. *)
Definition fresh (c r : list (list byte)) (m : monitor_t St Baton) : Prop :=
  ∀ k, (0 < k <= length r)%nat → join_slash (c ++ take k r) ∉ mon_dirs m.

Definition entered (c r : list (list byte)) (m m' : monitor_t St Baton) : Prop :=
  mon_called m' = mon_called m
  ∧ ∀ e, e ∈ mon_dirs m' → e ∈ mon_dirs m ∨ ∃ k, e = join_slash (c ++ take k r).

(** [piece] points into the segment [x]; [y] is what is left of it. *)
Lemma open_directories_tracks fuel c x r piece y db_stack st m :
  proper c → proper (x :: r) → SLASH ∉ y →
  drop piece (join_slash (c ++ x :: r)) = y ++ tail_of r →
  (piece + length y = length (join_slash (c ++ [x])))%nat →
  (length r < fuel)%nat → tracks c db_stack st m → fresh c (x :: r) m →
  agree (λ '(stack, st) '(stack', m'), stack' = stack ∧ tracks (c ++ x :: r) stack st m'
           ∧ entered c (x :: r) m m')
    (open_directories editor fuel (join_slash (c ++ x :: r)) piece db_stack st)
    (open_directories medit fuel (join_slash (c ++ x :: r)) piece db_stack m).
Proof.
  revert c x r piece y db_stack st m.
  induction fuel as [|fuel IH]; intros c x r piece y db_stack st m Hc Hp Hy Hdrop Hlen Hf Ht Hfresh; [lia|].
  apply Forall_cons in Hp as [Hx Hr]. cbn [open_directories]. rewrite Hdrop. unfold tail_of.
  rewrite strchr_tail by done.
  pose proof (open_dir_tracks c x db_stack st m Hc Hx Ht (Hfresh 1%nat ltac:(simpl; lia))) as Hopen.
  destruct r as [|z r].
  - eapply agree_mono; [exact Hopen|]. intros [stk s] [stk' m'] (-> & H1 & Hd & Hcl).
    split; [done|]. split; [done|]. split; [done|]. rewrite Hd.
    intros e [->|He]%elem_of_cons; [right; by exists 1%nat|by left].
  - rewrite Hlen. replace (c ++ x :: z :: r) with ((c ++ [x]) ++ z :: r) by by rewrite <- app_assoc.
    rewrite take_join_slash. eapply agree_bind; [exact Hopen|].
    intros [stk s] [stk' m'] (-> & H1 & Hd & Hcl).
    assert (proper (c ++ [x])) as Hcx by (apply proper_app; split; [done|by constructor]).
    pose proof Hr as [[Hz _] _]%Forall_cons.
    eapply agree_mono; [apply (IH (c ++ [x]) z r _ z); try done; [| |simpl in Hf; lia|]|].
    + rewrite (join_slash_app (c ++ [x]) (z :: r)); [|by destruct c|done]. rewrite <- Nat.add_1_r, drop_app_add.
      change (drop 1 (SLASH :: ?p)) with p. apply join_slash_cons.
    + rewrite (join_slash_app (c ++ [x]) [z]) by (by destruct c). rewrite length_app. simpl. lia.
    + intros k Hk. rewrite Hd. apply not_elem_of_cons. split.
      * intros He. apply join_slash_inj in He; [|apply proper_app; split; [done|by apply Forall_take]|done].
        apply (f_equal length) in He. rewrite !length_app, length_take in He. simpl in *. lia.
      * specialize (Hfresh (S k)). simpl in Hfresh. rewrite <- app_assoc. apply Hfresh. simpl in *. lia.
    + intros [stk2 s2] [stk2' m2] (-> & H2 & Hcl2 & Hd2).
      split; [done|]. split; [done|]. split; [congruence|].
      intros e He. destruct (Hd2 e He) as [He'|[k ->]].
      * rewrite Hd in He'. apply elem_of_cons in He' as [->|]; [|by left]. right. by exists 1%nat.
      * right. exists (S k). simpl. by rewrite <- app_assoc.
Qed.

(** *** One round *)

(** What the monitor has recorded, against the paths still to come. *)
Record records (l : list (list byte)) (todo : list (list (list byte))) (m : monitor_t St Baton)
    : Prop := {
  records_last : good l ∧ ∀ p, p ∈ todo → path_before l p;
  records_dirs : ∀ e, e ∈ mon_dirs m → ∃ d, good d ∧ e = join_slash d
    ∧ ∀ p, p ∈ todo → path_before d p ∧ (d `prefix_of` p → d `prefix_of` l);
  records_called : ∀ e, e ∈ mon_called m → ∃ d, good d ∧ e = join_slash d
    ∧ ∀ p, p ∈ todo → path_before d p;
}.

Lemma length_join_app c r :
  proper r →
  length (join_slash (c ++ r))
  = (length (join_slash c) + match c, r with [], _ => length (join_slash r) | _, [] => 0 | _, _ => S (length (join_slash r)) end)%nat.
Proof.
  intros Hr. destruct c as [|x c]; [done|]. destruct r as [|y r]; [by rewrite app_nil_r, Nat.add_0_r|].
  by rewrite join_slash_app, length_app.
Qed.

Lemma longer_join c r :
  proper r → (length (join_slash c) <? length (join_slash (c ++ r)))%nat = negb (bool_decide (r = [])).
Proof.
  intros Hr. rewrite length_join_app by done. case_bool_decide as Hn; [subst r|].
  - apply Nat.ltb_ge. destruct c; [done|lia].
  - apply Nat.ltb_lt. pose proof (join_slash_ne r Hr Hn). destruct r as [|y r]; [done|].
    destruct c; [|lia].
    destruct (join_slash (y :: r)); [done|]. change (length (join_slash [])) with 0%nat. simpl. lia.
Qed.

(** Step B. *)
Lemma leave_tracks c r db_stack st m :
  proper (c ++ r) → tracks (c ++ r) db_stack st m →
  let rel := drop (match length (join_slash c) with O => O | S _ => S (length (join_slash c)) end)
               (join_slash (c ++ r)) in
  agree (λ '(stack, st) '(stack', m'), stack' = stack ∧ tracks c stack st m' ∧ same_record m m')
    (if (length (join_slash c) <? length (join_slash (c ++ r)))%nat then
       let! count := count_components rel in pop_directories editor count db_stack st
     else Ok (db_stack, st))
    (if (length (join_slash c) <? length (join_slash (c ++ r)))%nat then
       let! count := count_components rel in pop_directories medit count db_stack m
     else Ok (db_stack, m)).
Proof.
  intros [Hc Hr]%proper_app Ht rel. rewrite longer_join by done. case_bool_decide as Hn; simpl negb; cbn iota.
  { subst r. rewrite app_nil_r in Ht. by constructor. }
  assert (rel = join_slash r) as ->.
  { subst rel. destruct (decide (c = [])) as [->|Hnc]; [done|]. rewrite join_slash_app by done.
    pose proof (join_slash_ne c Hc Hnc) as Hj. destruct (join_slash c) as [|x s]; [done|].
    cbn [length]. by rewrite <- (Nat.add_1_r (S (length s))), (drop_app_add (x :: s)). }
  rewrite count_components_join by done. cbn [rbind]. by apply pop_directories_tracks.
Qed.

(** Step C. *)
Lemma enter_tracks c r db_stack st m :
  proper (c ++ r) → tracks c db_stack st m → fresh c r m →
  let pdir := join_slash (c ++ r) in
  agree (λ '(stack, st) '(stack', m'), stack' = stack ∧ tracks (c ++ r) stack st m' ∧ entered c r m m')
    (if (length (join_slash c) <? length pdir)%nat then
       open_directories editor (S (length pdir)) pdir (S (length (join_slash c))) db_stack st
     else Ok (db_stack, st))
    (if (length (join_slash c) <? length pdir)%nat then
       open_directories medit (S (length pdir)) pdir (S (length (join_slash c))) db_stack m
     else Ok (db_stack, m)).
Proof.
  intros Hcr Ht Hfresh. pose proof Hcr as [Hc Hr]%proper_app. cbn zeta. rewrite longer_join by done.
  case_bool_decide as Hn; simpl negb; cbn iota.
  { subst r. rewrite !app_nil_r. constructor. split; [done|]. split; [done|]. split; [done|]. by left. }
  destruct r as [|x r]; [done|]. clear Hn. pose proof Hr as [[Hx Hxr] Hr']%Forall_cons.
  assert (length r < S (length (join_slash (c ++ x :: r))))%nat as Hf.
  { pose proof (length_join_slash (c ++ x :: r) Hcr) as H. rewrite length_app in H. simpl in H. lia. }
  destruct (decide (c = [])) as [->|Hnc].
  - destruct x as [|x0 y]; [done|]. apply not_elem_of_cons in Hx as [_ Hy].
    apply (open_directories_tracks _ [] (x0 :: y) r 1 y); try done. cbn [app]. by rewrite join_slash_cons.
  - apply (open_directories_tracks _ c x r (S (length (join_slash c))) x); try done.
    + rewrite join_slash_app by done. rewrite <- Nat.add_1_r, drop_app_add.
      change (drop 1 (SLASH :: ?p)) with p. apply join_slash_cons.
    + rewrite join_slash_app, length_app by done. simpl. lia.
Qed.

(** The parent of the next path, below what it shares with the last directory. *)
Lemma next_parent l q seg :
  good l → good (q ++ [seg]) → path_before l (q ++ [seg]) →
  ∃ c l' q', l = c ++ l' ∧ q = c ++ q' ∧ common_segments l (q ++ [seg]) = c.
Proof.
  intros Hl Hp Hb. destruct (common_segments_prefix l (q ++ [seg])) as (l' & p' & Hl' & Hp' & _).
  remember (common_segments l (q ++ [seg])) as c. exists c, l'. destruct p' as [|s p' _] using rev_ind.
  - exfalso. rewrite app_nil_r in Hp'. rewrite Hp' in *. clear Hp' Heqc.
    destruct (decide (l' = [])) as [->|Hn]; [rewrite app_nil_r in *; subst l|subst l].
    + by apply (path_before_irrefl c).
    + apply (path_before_irrefl c Hp). eapply path_before_trans; [done|exact Hl|done| |done].
      by apply path_before_child.
  - rewrite app_assoc in Hp'. apply app_inj_tail in Hp' as [-> _]. by exists p'.
Qed.

Lemma fresh_below l c l' q' seg todo m :
  l = c ++ l' → common_segments l ((c ++ q') ++ [seg]) = c → good ((c ++ q') ++ [seg]) →
  records l (((c ++ q') ++ [seg]) :: todo) m → fresh c q' m.
Proof.
  intros -> Hcommon Hp [_ Hdirs _] k Hk Hin. destruct (Hdirs _ Hin) as (d & [Hd _] & He & Hall).
  destruct (Hall ((c ++ q') ++ [seg])) as [_ Hpre]; [by left|].
  assert (good (c ++ take k q')) as [Hck _].
  { apply (good_app _ (drop k q' ++ [seg])). by rewrite <- app_assoc, (app_assoc (take k q')), take_drop, app_assoc. }
  apply join_slash_inj in He as <-; [|done..].
  destruct Hpre as [t Ht].
  { exists (drop k q' ++ [seg]). by rewrite <- !app_assoc, (app_assoc (take k q')), take_drop. }
  rewrite <- app_assoc in Ht. apply app_inv_head in Ht as ->.
  assert (∀ c0, c0 ≠ [] → common_segments (c ++ c0 ++ t) (c ++ c0 ++ drop k q' ++ [seg]) ≠ c) as Hlong.
  { clear. intros c0 Hc0 He. apply (f_equal length) in He.
    assert (∀ c1 t1 t2, (length c1 <= length (common_segments (c1 ++ t1) (c1 ++ t2)))%nat) as H.
    { intros c1 t1 t2. induction c1 as [|x c1 IH]; simpl; [lia|].
      rewrite bool_decide_eq_true_2 by done. simpl. lia. }
    specialize (H (c ++ c0) t (drop k q' ++ [seg])). rewrite <- !app_assoc, He, length_app in H.
    destruct c0; [done|]. simpl in H. lia. }
  apply (Hlong (take k q')).
  - destruct q'; [simpl in Hk; lia|]. by destruct k; [lia|].
  - rewrite <- Hcommon at 3. f_equal. by rewrite (app_assoc (take k q')), take_drop, <- app_assoc.
Qed.

Lemma good_prefix a b : a `prefix_of` b → good b → good a.
Proof. intros [t ->]. apply good_app. Qed.

Lemma strict_prefix_snoc a q (seg : list byte) : a `prefix_of` q ++ [seg] → a ≠ q ++ [seg] → a `prefix_of` q.
Proof.
  intros [t Ht] Hne. destruct t as [|y t _] using rev_ind; [by rewrite app_nil_r in Ht|].
  rewrite app_assoc in Ht. apply app_inj_tail in Ht as [-> _]. by apply prefix_app_r.
Qed.

Lemma before_child_of q seg a : good (q ++ [seg]) → a `prefix_of` q → path_before a (q ++ [seg]).
Proof.
  intros Hg [t ->]. rewrite <- app_assoc in *. apply path_before_child; [done|].
  by intros [_ ?]%app_eq_nil.
Qed.

Lemma records_next l l' q seg todo m m' :
  records l ((q ++ [seg]) :: todo) m → Forall good ((q ++ [seg]) :: todo) →
  Forall (path_before (q ++ [seg])) todo → l' = q ++ [seg] ∨ l' = q →
  mon_called m' = mon_called m ++ [join_slash (q ++ [seg])] →
  (∀ e, e ∈ mon_dirs m' → e ∈ mon_dirs m ∨ (∃ d, d `prefix_of` q ∧ e = join_slash d)
     ∨ l' = q ++ [seg] ∧ e = join_slash (q ++ [seg])) →
  records l' todo m'.
Proof.
  intros [_ Hdirs Hcalled] [Hp Hgood]%Forall_cons Hsorted Hl' Hc Hd.
  assert (∀ p', p' ∈ todo → good p' ∧ path_before (q ++ [seg]) p') as Htodo.
  { intros p' Hin. split; [by eapply Forall_forall in Hgood|by eapply Forall_forall in Hsorted]. }
  assert (q `prefix_of` l') as Hql by (destruct Hl' as [->| ->]; [by apply prefix_app_r|done]).
  assert (∀ d p', p' ∈ todo → good d → path_before d (q ++ [seg]) → path_before d p') as Htrans.
  { intros d p' Hin Hgd Hb. destruct (Htodo p' Hin). by apply (path_before_trans _ (q ++ [seg])). }
  assert (good q) as Hq by by eapply good_app.
  split.
  - split; [by destruct Hl' as [->| ->]|]. intros p' Hin.
    destruct Hl' as [->| ->]; [by apply Htodo|]. apply Htrans; [done..|]. by apply before_child_of.
  - intros e He. destruct (Hd e He) as [Hm|[(d & Hpre & ->)|[-> ->]]].
    + destruct (Hdirs e Hm) as (d & Hgd & -> & Hall). exists d. split; [done|]. split; [done|].
      intros p' Hin. destruct (Hall (q ++ [seg])) as [Hbefore _]; [by left|].
      split; [by apply Htrans|]. intros [x ->]. etrans; [|exact Hql].
      destruct (Htodo _ Hin) as [Hgp Hlt]. apply (strict_prefix_snoc _ _ seg).
      * by apply (path_before_between d x).
      * intros ->. by apply (path_before_irrefl (q ++ [seg])).
    + assert (good d) by by eapply good_prefix. exists d. split; [done|]. split; [done|].
      intros p' Hin. split; [|intros _; by etrans]. apply Htrans; [done..|]. by apply before_child_of.
    + exists (q ++ [seg]). split; [done|]. split; [done|]. intros p' Hin. by split; [apply Htodo|].
  - intros e. rewrite Hc. intros [Hm|Hm]%elem_of_app.
    + destruct (Hcalled e Hm) as (d & Hgd & -> & Hall). exists d. split; [done|]. split; [done|].
      intros p' Hin. apply Htrans; [done..|]. apply Hall. by left.
    + apply list_elem_of_singleton in Hm as ->. exists (q ++ [seg]). split; [done|]. split; [done|].
      intros p' Hin. by apply Htodo.
Qed.

(** Step D: what the callback does below the innermost directory. *)
Lemma callback_tracks q seg db_stack st m :
  proper q → proper_segment seg → tracks q db_stack st m →
  join_slash (q ++ [seg]) ∉ mon_dirs m → join_slash (q ++ [seg]) ∉ mon_called m →
  ∃ parent_db stack, db_stack = parent_db :: stack
  ∧ agree (λ '(st, db) '(m', db'), db' = db
      ∧ mon_called m' = mon_called m ++ [join_slash (q ++ [seg])]
      ∧ match db with
        | Some _ => tracks (q ++ [seg]) (db :: db_stack) st m'
            ∧ mon_dirs m' = join_slash (q ++ [seg]) :: mon_dirs m
        | None => tracks q db_stack st m' ∧ mon_dirs m' = mon_dirs m
        end)
    (callback (join_slash (q ++ [seg])) parent_db st) (mcall (join_slash (q ++ [seg])) parent_db m).
Proof.
  intros Hq Hs Ht Hdirs Hcalled. destruct (tracks_top _ _ _ _ Ht) as (db & rest & stack & Hm & ->).
  destruct Ht as [<- Ho Hst]. exists db, stack. split; [done|]. unfold mcall, monitored_callback.
  pose proof (join_slash_snoc_ne q seg Hq Hs) as Hne.
  rewrite !(bool_decide_eq_false_2 (join_slash (q ++ [seg]) = [])) by done.
  rewrite (may_visit_below q seg db rest) by done.
  rewrite bool_decide_eq_true_2 by done. cbn [andb guarded orb].
  destruct (result_cases (callback (join_slash (q ++ [seg])) db (mon_state m))) as [[[st' db'] Hc]|[f Hc]]; rewrite Hc.
  2:{ rewrite failing_bind. constructor. right. right. right. eauto. }
  cbn [rbind]. constructor. split; [done|]. destruct db' as [b|].
  - rewrite bool_decide_eq_true_2 by done. split; [done|]. split; [|done]. split; cbn; [done|..].
    + by rewrite opens_snoc, Ho.
    + by rewrite Hst.
  - rewrite bool_decide_eq_false_2 by (intros H; by apply H). split; [done|]. by split.
Qed.

Lemma drive_path_root {S} (ed : svn_delta_editor_t S Baton) cb path db_stack (st : S) :
  drive_path ed cb path db_stack None st = drive_path ed cb path db_stack (Some []) st.
Proof. done. Qed.

(** One round keeps the directories and the records in step. *)
Lemma drive_path_tracks l p todo db_stack st m :
  p ≠ [] → Forall good (p :: todo) → StronglySorted path_before (p :: todo) →
  tracks l db_stack st m → records l (p :: todo) m →
  agree (λ '(stack, last, st) '(stack', last', m'), stack' = stack ∧ last' = last
           ∧ mon_called m' = mon_called m ++ [join_slash p]
           ∧ ∃ l', last = Some (join_slash l') ∧ tracks l' stack st m' ∧ records l' todo m')
    (drive_path editor callback (join_slash p) db_stack (Some (join_slash l)) st)
    (drive_path medit mcall (join_slash p) db_stack (Some (join_slash l)) m).
Proof.
  intros Hne Hgood [_ Hsorted]%StronglySorted_inv Ht Hrec.
  destruct p as [|seg q _] using rev_ind; [done|]. clear Hne.
  pose proof Hgood as [Hp _]%Forall_cons.
  destruct (records_last _ _ _ Hrec) as [Hl Hbefore].
  destruct (next_parent l q seg Hl Hp) as (c & l' & q' & -> & -> & Hcommon); [by apply Hbefore; left|].
  pose proof (fresh_below _ c l' q' seg todo m eq_refl Hcommon Hp Hrec) as Hfresh.
  pose proof Hp as [Hpp _]. pose proof Hpp as [Hpq [Hs _]%Forall_cons]%proper_app.
  destruct Hl as [Hpl _]. unfold drive_path.
  pose proof (join_slash_head _ Hpl) as Hhl. pose proof (join_slash_head _ Hpp) as Hhp.
  unfold path_at in Hhl, Hhp. rewrite drop_0 in Hhl, Hhp.
  rewrite !(proj2 (byte_eqb_ne _ _) Hhl), !(proj2 (byte_eqb_ne _ _) Hhp).
  rewrite svn_relpath_get_longest_ancestor_join, Hcommon by done.
  unfold svn_relpath_split. rewrite svn_relpath_dirname_join by done.
  eapply agree_bind; [by apply leave_tracks|]. intros [stk1 s1] [stk1' m1] (-> & Ht1 & [Hd1 Hc1]).
  eapply agree_bind; [apply enter_tracks; try done|].
  { intros k Hk. rewrite Hd1. by apply Hfresh. }
  intros [stk2 s2] [stk2' m2] (-> & Ht2 & [Hc2 Hd2]). rewrite Hd1 in Hd2.
  assert (∀ e, e ∈ mon_dirs m2 → e ∈ mon_dirs m ∨ ∃ d, d `prefix_of` (c ++ q') ∧ e = join_slash d) as Hdirs2.
  { intros e He. destruct (Hd2 e He) as [|[k ->]]; [by left|]. right. eexists. split; [|done].
    apply prefix_app. eexists. symmetry. apply take_drop. }
  destruct (callback_tracks (c ++ q') seg stk2 s2 m2) as (db & stack & -> & Hcb); try done.
  { intros He. destruct (Hdirs2 _ He) as [Hm|(d & Hpre & Hd)].
    - destruct (records_dirs _ _ _ Hrec _ Hm) as (d & [Hgd _] & Hd & Hall).
      apply join_slash_inj in Hd as <-; [|done..]. eapply path_before_irrefl; [exact Hp|].
      apply Hall. by left.
    - apply join_slash_inj in Hd; [|done|by destruct (good_prefix d _ Hpre (good_app _ _ Hp))].
      subst d. destruct Hpre as [t Ht']. apply (f_equal length) in Ht'. rewrite !length_app in Ht'. simpl in Ht'. lia. }
  { rewrite Hc2, Hc1. intros Hm. destruct (records_called _ _ _ Hrec _ Hm) as (d & [Hgd _] & Hd & Hall).
    apply join_slash_inj in Hd as <-; [|done..]. eapply path_before_irrefl; [exact Hp|]. apply Hall. by left. }
  eapply agree_bind; [exact Hcb|]. rewrite Hc2, Hc1.
  intros [s3 db3] [m3 db3'] (-> & Hc3 & H3). destruct db3 as [b|]; destruct H3 as [Ht3 Hd3]; constructor;
    (split; [done|]; split; [done|]; split; [done|]).
  - exists ((c ++ q') ++ [seg]). split; [done|]. split; [done|].
    eapply (records_next _ _ (c ++ q') seg); try done; [by left|]. rewrite Hd3.
    intros e [->|He]%elem_of_cons; [by auto|]. destruct (Hdirs2 e He); auto.
  - exists (c ++ q'). split; [done|]. split; [done|].
    eapply (records_next _ _ (c ++ q') seg); try done; [by right|]. rewrite Hd3.
    intros e He. destruct (Hdirs2 e He); auto.
Qed.

(** *** The whole drive *)

Lemma drive_paths_tracks l todo db_stack st m :
  Forall (λ p, p ≠ []) todo → Forall good todo → StronglySorted path_before todo →
  tracks l db_stack st m → records l todo m →
  agree (λ '(stack, st) '(stack', m'), stack' = stack ∧ mon_called m' = mon_called m ++ map join_slash todo
           ∧ ∃ l', tracks l' stack st m')
    (drive_paths editor callback (map join_slash todo) db_stack (Some (join_slash l)) st)
    (drive_paths medit mcall (map join_slash todo) db_stack (Some (join_slash l)) m).
Proof.
  revert l db_stack st m; induction todo as [|p todo IH]; intros l db_stack st m Hne Hgood Hsorted Ht Hrec.
  { constructor. split; [done|]. split; [by rewrite app_nil_r|]. by exists l. }
  apply Forall_cons in Hne as [Hnp Hne]. cbn [map drive_paths].
  eapply agree_bind; [by apply drive_path_tracks|].
  intros [[stk last] s1] [[stk' last'] m1] (-> & -> & Hc & l' & -> & Ht' & Hrec').
  apply Forall_cons in Hgood as [_ Hgood]. apply StronglySorted_inv in Hsorted as [Hsorted _].
  eapply agree_mono; [by apply IH|]. intros [stk2 s2] [stk2' m2] (-> & Hc2 & Hl).
  split; [done|]. split; [|done]. by rewrite Hc2, Hc, <- app_assoc.
Qed.

(** The rest of the stack is closed, the root last. *)
Lemma close_all db_stack st m :
  mon_state m = st → map snd (mon_open m) = db_stack →
  agree (λ '(stack, st) '(stack', m'), m' = MkMonitor [] (mon_dirs m) (mon_called m) st)
    (pop_directories editor (length db_stack) db_stack st)
    (pop_directories medit (length db_stack) db_stack m).
Proof.
  revert st m; induction db_stack as [|db stack IH]; intros st m <- Hst.
  { constructor. destruct m as [[|] ? ? ?]; [done|done]. }
  cbn [length pop_directories pop_stack]. destruct (mon_open m) as [|[dir db'] rest] eqn:Hm; [done|].
  injection Hst as -> Hst.
  change (close_directory medit db m) with
    (match mon_open m with
     | [] => Aborted
     | (dir, db') :: rest =>
         assert! bool_decide (db = db') in
         let! st := close_directory editor db (mon_state m) in
         Ok (MkMonitor rest (mon_dirs m) (mon_called m) st) end).
  rewrite Hm, bool_decide_eq_true_2 by done. cbn [guarded].
  destruct (result_cases (close_directory editor db (mon_state m))) as [[st' Hc]|[f Hc]]; rewrite Hc.
  - cbn [rbind]. eapply agree_mono; [by apply IH|]. by intros [? ?] [? ?] ->.
  - rewrite !failing_bind. constructor. right. right. left. eauto.
Qed.

Definition completes (paths : list (list byte)) (st : St) (m : monitor_t St Baton) : Prop :=
  ∃ dirs, m = MkMonitor [] dirs paths st.

Lemma finish_tracks todo before db_stack st m :
  Forall (λ p, p ≠ []) todo → Forall good todo → StronglySorted path_before todo →
  tracks [] db_stack st m → records [] todo m → mon_called m = before →
  agree (completes (before ++ map join_slash todo))
    (let! (db_stack, st) := drive_paths editor callback (map join_slash todo) db_stack (Some []) st in
     let! (_, st) := pop_directories editor (length db_stack) db_stack st in Ok st)
    (let! (db_stack, m) := drive_paths medit mcall (map join_slash todo) db_stack (Some []) m in
     let! (_, m) := pop_directories medit (length db_stack) db_stack m in Ok m).
Proof.
  intros Hne Hgood Hsorted Ht Hrec <-.
  eapply agree_bind; [by apply (drive_paths_tracks [])|].
  intros [stk s1] [stk' m1] (-> & Hc & l' & [Hs Ho Hst]).
  eapply agree_bind; [by apply close_all|]. intros [? s2] [? m2] ->. constructor.
  eexists. by rewrite Hc.
Qed.

Lemma root_records todo st db called :
  Forall (path_before []) todo → called = [] ∨ called = [[]] →
  tracks [] [db] st (MkMonitor [([], db)] [[]] called st) ∧
  records [] todo (MkMonitor [([], db)] [[]] called st).
Proof.
  intros Hb Hc. assert (good []) as Hnil by (by split; [constructor|]).
  assert (∀ p, p ∈ todo → path_before [] p) as Hbefore by (intros p Hp; by eapply Forall_forall in Hb).
  split; [done|]. split; [done|..]; cbn.
  - intros e He. apply list_elem_of_singleton in He as ->. exists []. split; [done|]. split; [done|].
    intros p Hp. by split; [apply Hbefore|].
  - intros e He. exists []. split; [done|]. destruct Hc as [->| ->]; [by apply elem_of_nil in He|].
    by apply list_elem_of_singleton in He as ->.
Qed.

Lemma svn_delta_path_driver2_segments todo st :
  Forall good todo → StronglySorted path_before todo →
  agree (completes (map join_slash todo))
    (svn_delta_path_driver2 editor callback (map join_slash todo) st)
    (svn_delta_path_driver2 medit mcall (map join_slash todo) (start_monitor st)).
Proof.
  intros Hgood Hsorted. destruct todo as [|p todo]; [constructor; by eexists|].
  assert (∀ q, q ∈ todo → q ≠ []) as Hne.
  { intros q Hq ->. apply StronglySorted_inv in Hsorted as [_ Hb]. eapply Forall_forall in Hb; [|done].
    apply Forall_cons in Hgood as [Hp _]. assert (good []) as Hnil by (by split; [constructor|]).
    destruct (decide (p = [])) as [->|Hn]; [by eapply path_before_irrefl|].
    eapply path_before_irrefl; [exact Hp|]. eapply path_before_trans; [done|exact Hnil|done|done|].
    by apply (path_before_child [] p). }
  cbn [map svn_delta_path_driver2]. pose proof Hgood as [Hp Hgood']%Forall_cons.
  pose proof Hsorted as [Hsorted' Hb]%StronglySorted_inv. destruct (decide (p = [])) as [->|Hn].
  - cbn [join_slash]. unfold mcall at 1, monitored_callback at 1.
    rewrite !(bool_decide_eq_true_2 ([] = [])) by done. change (may_open_root (start_monitor st)) with true.
    rewrite !bool_decide_eq_true_2 by done. cbn [andb orb guarded start_monitor mon_state].
    destruct (result_cases (callback [] None st)) as [[[s1 db] Hc]|[f Hc]]; rewrite Hc.
    2:{ rewrite !failing_bind. constructor. right. right. right. eauto. }
    cbn [rbind]. destruct (root_records todo s1 db [[]] Hb) as [Ht Hrec]; [by right|].
    apply (finish_tracks todo [[]]); try done. by apply Forall_forall.
  - assert (join_slash p ≠ []) as Hj by (apply join_slash_ne; [apply Hp|done]).
    destruct (join_slash p) as [|c s] eqn:Ep; [done|]. rewrite <- Ep. clear Hj.
    change (open_root medit (start_monitor st)) with
      (let! (st, db) := open_root editor st in Ok (opened [] db st (start_monitor st), db)).
    destruct (result_cases (open_root editor st)) as [[[s1 db] Hc]|[f Hc]]; rewrite Hc.
    2:{ rewrite !failing_bind. constructor. left. eauto. }
    cbn [rbind]. assert (path_before [] p) as Hbp by by apply (path_before_child [] p).
    assert (Forall (path_before []) (p :: todo)) as Hball.
    { constructor; [done|]. rewrite Forall_forall in *. intros q Hq.
      eapply path_before_trans; [..|exact Hbp|by apply Hb]; [by split; [constructor|]|done|by apply Hgood']. }
    destruct (root_records (p :: todo) s1 db [] Hball) as [Ht Hrec]; [by left|].
    apply (finish_tracks (p :: todo) []); try done. constructor; [done|]. by apply Forall_forall.
Qed.

End Simulation.

(** ** The theorem *)

Lemma strictly_sorted (paths : list (list byte)) :
  Forall (λ p, relpath_is_canonical p = true ∧ c_string p = true) paths → NoDup paths →
  StronglySorted (λ x y, svn_path_compare_paths x y <= 0) paths →
  Forall good (map segments paths) ∧ StronglySorted path_before (map segments paths)
  ∧ map join_slash (map segments paths) = paths.
Proof.
  induction paths as [|p paths IH]; intros Hall Hnd Hs; [repeat constructor|].
  apply Forall_cons in Hall as [[Hp Hcp] Hall]. apply NoDup_cons in Hnd as [Hnp Hnd].
  apply StronglySorted_inv in Hs as [Hs Hle]. destruct (IH Hall Hnd Hs) as (Hg & Hss & Hj). cbn [map].
  split; [constructor; [|done]|split; [constructor; [done|]|by rewrite join_segments, Hj]].
  - split; [by apply canonical_proper|by rewrite join_segments].
  - apply Forall_map, Forall_forall. intros q Hq. unfold path_before. cbn. rewrite !join_segments.
    rewrite Forall_forall in Hle, Hall. specialize (Hle q Hq). destruct (Hall q Hq) as [_ Hcq].
    destruct (svn_path_order p q q Hcp Hcq Hcq) as ([He _] & _).
    destruct (Z.eq_dec (svn_path_compare_paths p q) 0) as [Hz|]; [|lia].
    apply He in Hz as ->. done.
Qed.

(** C12: For any editor and callback and any distinct canonical relative
    paths, svn_delta_path_driver either completes or returns the failure of
    one of the calls it makes; whenever it completes, the callback has got
    every path in path order with the baton of the path's parent, every
    directory was opened once and below its open parent, and all directories
    have been closed: a monitor that stops on the first call that breaks
    these rules changes nothing. *)
Theorem svn_delta_path_driver_valid `{Qsort} {St Baton : Type} `{!EqDecision Baton}
    (editor : svn_delta_editor_t St Baton) (callback : svn_delta_path_driver_cb_func_t St Baton)
    (paths : list (list byte)) (st : St) :
  Forall (λ p, relpath_is_canonical p = true ∧ c_string p = true) paths → NoDup paths →
  let drive := svn_delta_path_driver editor callback paths st in
  let monitored := svn_delta_path_driver (monitored_editor editor) (monitored_callback callback)
                     paths (start_monitor st) in
  (∃ st' dirs, drive = Ok st'
     ∧ monitored = Ok (MkMonitor [] dirs (qsort svn_path_compare_paths paths) st'))
  ∨ (∃ f, call_fails editor callback f ∧ drive = failing f ∧ monitored = failing f).
Proof.
  intros Hall Hnd. unfold svn_delta_path_driver.
  pose proof (qsort_perm svn_path_compare_paths paths) as Hperm.
  assert (∀ x, x ∈ paths → c_string x = true) as Hc.
  { intros x Hx. rewrite Forall_forall in Hall. by apply Hall. }
  destruct (strictly_sorted (qsort svn_path_compare_paths paths)) as (Hg & Hs & Hj).
  - by rewrite Hperm.
  - by rewrite Hperm.
  - apply qsort_sorted.
    + intros x y Hx Hy. destruct (svn_path_order x y y (Hc _ Hx) (Hc _ Hy) (Hc _ Hy)) as (_ & Ho & _). lia.
    + intros x y z Hx Hy Hz. by apply (svn_path_order x y z (Hc _ Hx) (Hc _ Hy) (Hc _ Hz)).
  - pose proof (svn_delta_path_driver2_segments editor callback _ st Hg Hs) as Ha. rewrite !Hj in Ha.
    cbn zeta. destruct Ha as [st' m [dirs ->]|f Hf]; [left|right]; eauto.
Qed.

(** *** Examples *)

(** An editor that only writes down its calls; its batons are paths. *)
Inductive call_t := opened_dir (path parent : list byte) | closed_dir (path : list byte) | visited (path parent : list byte).

Definition log_editor : svn_delta_editor_t (list call_t) (list byte) := {|
  open_root log := Ok (log, Some []);
  open_directory path parent log := Ok (log ++ [opened_dir path (default [] parent)], Some path);
  close_directory db log := Ok (log ++ [closed_dir (default [] db)]);
|}.

(** [is_dir] says which paths the callback opens as directories. *)
Definition log_callback (is_dir : list byte → bool)
    : svn_delta_path_driver_cb_func_t (list call_t) (list byte) := λ path parent log,
  Ok (log ++ [visited path (default [] parent)], if is_dir path then Some path else None).

Lemma svn_delta_path_driver_valid_witness :
  let p := String.list_byte_of_string in
  let paths := [p "C/g"; p "A/B/f"; p "A-1"; p "A/B"] in
  let callback := log_callback (λ path, bool_decide (path = p "A/B")) in
  (∃ st' dirs, svn_delta_path_driver log_editor callback paths [] = Ok st'
     ∧ svn_delta_path_driver (monitored_editor log_editor) (monitored_callback callback) paths (start_monitor [])
       = Ok (MkMonitor [] dirs (qsort svn_path_compare_paths paths) st'))
  ∨ (∃ f, call_fails log_editor callback f
      ∧ svn_delta_path_driver log_editor callback paths [] = failing f
      ∧ svn_delta_path_driver (monitored_editor log_editor) (monitored_callback callback) paths (start_monitor [])
        = failing f).
Proof.
  apply svn_delta_path_driver_valid.
  - repeat constructor; vm_compute; done.
  - repeat constructor; vm_compute; set_solver.
Defined.

(** The calls of that drive. *)
Example svn_delta_path_driver_log :
  let p := String.list_byte_of_string in
  svn_delta_path_driver log_editor (log_callback (λ path, bool_decide (path = p "A/B")))
    [p "C/g"; p "A/B/f"; p "A-1"; p "A/B"] []
  = Ok [opened_dir (p "A") []; visited (p "A/B") (p "A"); visited (p "A/B/f") (p "A/B");
        closed_dir (p "A/B"); closed_dir (p "A"); visited (p "A-1") [];
        opened_dir (p "C") []; visited (p "C/g") (p "C"); closed_dir (p "C"); closed_dir []].
Proof. vm_compute. reflexivity. Qed.

(** Rooted paths: the common ancestor is the root, whose length already counts
    its slash, and one byte too many of the last path is skipped, with the first
    segment when that has one letter.  [/c] is visited below [/a]. *)
Lemma svn_delta_path_driver_rooted :
  let p := String.list_byte_of_string in
  svn_delta_path_driver log_editor (log_callback (λ path, bool_decide (path = p "/a/b")))
    [p "/a/b"; p "/c"] []
  = Ok [opened_dir (p "/a") []; visited (p "/a/b") (p "/a"); closed_dir (p "/a/b");
        visited (p "/c") (p "/a"); closed_dir (p "/a"); closed_dir []].
Proof. vm_compute. reflexivity. Qed.
