(* ===== verification/MergeinfoText.v ===== *)
(** * The text format of mergeinfo

    The parser and the printer of [src/subversion/libsvn_subr/mergeinfo.c],
    with [svn_revnum_parse] of [types.c].  Input
    is a C string: the pointers [curr], [*input] and [end] of the code are the
    rest of the input, [curr == end] is [curr = []]. *)
From S2P Require Import Prelude Numbers MergeRange RangelistMerge Rangelist Paths Sorts.

(** ** Revision numbers *)

(** Returns the revision and [*endptr]. *)
Definition svn_revnum_parse (str : list byte) : result (Z * list byte) :=
  let '(result, end_) := strtol str in
  if (length str =? length end_)%nat then Error SVN_ERR_REVNUM_PARSE_FAILURE
  else if result <? 0 then Error SVN_ERR_REVNUM_PARSE_FAILURE
  else Ok (result, end_).

(** ** Printing rangelists *)

Definition range_to_string (range : svn_merge_range_t) : list byte :=
  let mark := if inheritable range then [] else ["*"%byte] in
  if start range =? end_ range - 1 then printf_ld (end_ range) ++ mark
  else if start range - 1 =? end_ range then
    "-"%byte :: printf_ld (start range) ++ mark
  else if start range <? end_ range then
    printf_ld (start range + 1) ++ "-"%byte :: printf_ld (end_ range) ++ mark
  else printf_ld (start range) ++ "-"%byte :: printf_ld (end_ range + 1) ++ mark.

Fixpoint svn_rangelist_to_string (rangelist : svn_rangelist_t) : list byte :=
  match rangelist with
  | [] => []
  | [range] => range_to_string range
  | range :: rangelist =>
      range_to_string range ++ ","%byte :: svn_rangelist_to_string rangelist
  end.

(** ** Parsing rangelists *)

(** What follows a revision or a revision range: the end of the list ([None])
    or the next element. *)
Definition parse_range_end (curr : list byte) (mrange : svn_merge_range_t)
    (rangelist : svn_rangelist_t)
    : result (svn_rangelist_t * list byte * bool) :=
  if (deref curr =b? NEWLINE) || bool_decide (curr = []) then
    Ok (rangelist ++ [mrange], curr, true)
  else if deref curr =b? ","%byte then
    Ok (rangelist ++ [mrange], drop 1 curr, false)
  else if deref curr =b? "*"%byte then
    let mrange := set_inheritable mrange false in
    let curr := drop 1 curr in
    if (deref curr =b? ","%byte) || (deref curr =b? NEWLINE)
       || bool_decide (curr = []) then
      if deref curr =b? ","%byte then Ok (rangelist ++ [mrange], drop 1 curr, false)
      else Ok (rangelist ++ [mrange], curr, true)
    else Error SVN_ERR_MERGEINFO_PARSE_ERROR
  else Error SVN_ERR_MERGEINFO_PARSE_ERROR.

(** One iteration of the [while] loop: the new rangelist and position, and
    whether the function returns here. *)
Definition parse_range_element (curr : list byte) (rangelist : svn_rangelist_t)
    : result (svn_rangelist_t * list byte * bool) :=
  let! (firstrev, curr) := svn_revnum_parse curr in
  if negb (deref curr =b? "-"%byte) && negb (deref curr =b? NEWLINE)
     && negb (deref curr =b? ","%byte) && negb (deref curr =b? "*"%byte)
     && negb (bool_decide (curr = []))
  then Error SVN_ERR_MERGEINFO_PARSE_ERROR
  else
    let mrange := MkRange (firstrev - 1) firstrev true in
    if firstrev =? 0 then Error SVN_ERR_MERGEINFO_PARSE_ERROR
    else if deref curr =b? "-"%byte then
      let! (secondrev, curr) := svn_revnum_parse (drop 1 curr) in
      if secondrev <? firstrev then Error SVN_ERR_MERGEINFO_PARSE_ERROR
      else if firstrev =? secondrev then Error SVN_ERR_MERGEINFO_PARSE_ERROR
      else parse_range_end curr (set_end mrange secondrev) rangelist
    else parse_range_end curr mrange rangelist.

Fixpoint parse_rangelist_loop (fuel : nat) (curr : list byte)
    (rangelist : svn_rangelist_t) : result (svn_rangelist_t * list byte) :=
  match fuel with
  | O => OutOfFuel
  | S fuel =>
    if bool_decide (curr = []) then Error SVN_ERR_MERGEINFO_PARSE_ERROR
    else if deref curr =b? NEWLINE then Ok (rangelist, curr)
    else
      let! (rangelist, curr, returned) := parse_range_element curr rangelist in
      if (returned : bool) then Ok (rangelist, curr)
      else parse_rangelist_loop fuel curr rangelist
  end.

(** Returns the rangelist and the new [*input].  Every iteration consumes at
    least one digit of the input. *)
Definition parse_rangelist (input : list byte) (rangelist : svn_rangelist_t)
    : result (svn_rangelist_t * list byte) :=
  let curr := skip_while (λ c, negb (c =b? NEWLINE) && isspace c) input in
  if (deref curr =b? NEWLINE) || bool_decide (curr = []) then Ok (rangelist, curr)
  else parse_rangelist_loop (S (length curr)) curr rangelist.

Definition svn_rangelist__parse (str : list byte) : result svn_rangelist_t :=
  let! (rangelist, _) := parse_rangelist str [] in Ok rangelist.

(** ** Parsing mergeinfo *)

(** [svn_mergeinfo_t]: repository paths to rangelists. *)
Abbreviation svn_mergeinfo_t := (gmap (list byte) svn_rangelist_t) (only parsing).

(** The loop of [parse_pathname]: [before] is the line up to [curr];
    [last_colon] holds the text before the colon and from it on. *)
Fixpoint last_colon_loop (before curr : list byte)
    (last_colon : option (list byte * list byte)) : option (list byte * list byte) :=
  match curr with
  | [] => last_colon
  | c :: curr' =>
      if c =b? NEWLINE then last_colon
      else last_colon_loop (before ++ [c]) curr'
             (if c =b? ":"%byte then Some (before, curr) else last_colon)
  end.

(** Returns the path and the new [*input], at the colon. *)
Definition parse_pathname (input : list byte) : result (list byte * list byte) :=
  match last_colon_loop [] input None with
  | None => Error SVN_ERR_MERGEINFO_PARSE_ERROR
  | Some (name, last_colon) =>
      if bool_decide (name = []) then Error SVN_ERR_MERGEINFO_PARSE_ERROR
      else Ok (svn_fspath__canonicalize name, last_colon)
  end.

(** The loop of [parse_revision_line] that combines the sorted ranges. *)
Fixpoint combine_sorted (lastrange : svn_merge_range_t) (ranges : svn_rangelist_t)
    : result svn_rangelist_t :=
  match ranges with
  | [] => Ok [lastrange]
  | range :: ranges =>
      if (start lastrange <=? end_ range) && (start range <=? end_ lastrange) then
        if (start range <? end_ lastrange) && negb (same_inheritance range lastrange)
        then Error SVN_ERR_MERGEINFO_PARSE_ERROR
        else if same_inheritance lastrange range
        then combine_sorted (set_end lastrange (Z.max (end_ range) (end_ lastrange))) ranges
        else let! rest := combine_sorted range ranges in Ok (lastrange :: rest)
      else let! rest := combine_sorted range ranges in Ok (lastrange :: rest)
  end.

Section Parse.
Context `{Qsort}.

Definition sort_and_combine (rangelist : svn_rangelist_t) : result svn_rangelist_t :=
  if (1 <? length rangelist)%nat then
    match qsort svn_sort_compare_ranges rangelist with
    | lastrange :: ranges => combine_sorted lastrange ranges
    | [] => Ok []
    end
  else Ok rangelist.

Definition parse_revision_line (input : list byte) (hash : svn_mergeinfo_t)
    : result (list byte * svn_mergeinfo_t) :=
  let! (pathname, input) := parse_pathname input in
  if negb (deref input =b? ":"%byte) then Error SVN_ERR_MERGEINFO_PARSE_ERROR
  else
    let! (rangelist, input) := parse_rangelist (drop 1 input) [] in
    if (length rangelist =? 0)%nat then Error SVN_ERR_MERGEINFO_PARSE_ERROR
    else if negb (bool_decide (input = [])) && negb (deref input =b? NEWLINE)
    then Error SVN_ERR_MERGEINFO_PARSE_ERROR
    else
      let input := drop 1 input in
      let! rangelist := sort_and_combine rangelist in
      let! rangelist :=
        match hash !! pathname with
        | Some existing_rangelist =>
            svn_rangelist_merge2 rangelist existing_rangelist
        | None => Ok rangelist
        end in
      Ok (input, <[pathname := rangelist]> hash).

(** Every line consumes at least its colon. *)
Fixpoint parse_top (fuel : nat) (input : list byte) (hash : svn_mergeinfo_t)
    : result svn_mergeinfo_t :=
  match fuel with
  | O => OutOfFuel
  | S fuel =>
    if bool_decide (input = []) then Ok hash
    else
      let! (input, hash) := parse_revision_line input hash in
      parse_top fuel input hash
  end.

(** [SVN_ERR_MERGEINFO_PARSE_ERROR] becomes the topmost error. *)
Definition svn_mergeinfo_parse (input : list byte) : result svn_mergeinfo_t :=
  match parse_top (S (length input)) input ∅ with
  | Error _ => Error SVN_ERR_MERGEINFO_PARSE_ERROR
  | r => r
  end.

(** ** Printing mergeinfo *)

Fixpoint lines_to_string (prefix : list byte)
    (sorted : list (svn_sort__item_t svn_rangelist_t)) : list byte :=
  match sorted with
  | [] => []
  | elt :: sorted =>
      let key := item_key elt in
      prefix ++ (if deref key =b? SLASH then [] else [SLASH]) ++ key
      ++ ":"%byte :: svn_rangelist_to_string (item_value elt)
      ++ match sorted with
         | [] => []
         | _ => NEWLINE :: lines_to_string prefix sorted
         end
  end.

(** The items of a hash table; [svn_sort__hash] makes the order irrelevant. *)
Definition hash_items (input : svn_mergeinfo_t) : list (svn_sort__item_t svn_rangelist_t) :=
  map (λ kv, MkItem kv.1 kv.2) (map_to_list input).

(** A missing prefix is the empty one. *)
Definition mergeinfo_to_stringbuf (input : svn_mergeinfo_t) (prefix : option (list byte))
    : list byte :=
  lines_to_string (default [] prefix)
    (svn_sort__hash (hash_items input) svn_sort_compare_items_as_paths).

Definition svn_mergeinfo_to_string (input : svn_mergeinfo_t) : list byte :=
  mergeinfo_to_stringbuf input None.

Definition svn_mergeinfo_sort (input : svn_mergeinfo_t) : svn_mergeinfo_t :=
  qsort svn_sort_compare_ranges <$> input.
End Parse.

Example parse_ex :
  svn_mergeinfo_parse (String.list_byte_of_string "/trunk:3,5-9*,1-2") =
  Ok {[ String.list_byte_of_string "/trunk" := [MkRange 0 3 true; MkRange 4 9 false] ]}.
Proof. reflexivity. Qed.
