(* ===== verification/MergeinfoParse.v ===== *)
(** * The text format of mergeinfo: correctness

    What the parser accepts, and that it reads back what the printer writes. *)
From S2P Require Import Prelude Numbers MergeRange RangelistMerge Rangelist Paths Sorts MergeinfoText.

(** ** Numbers *)

Lemma svn_revnum_parse_printf n rest :
  0 <= n <= LONG_MAX → isdigit (deref rest) = false →
  svn_revnum_parse (printf_ld n ++ rest) = Ok (n, rest).
Proof.
  intros Hn Hrest. change LONG_MAX with 9223372036854775807 in Hn.
  assert (strtol (printf_ld n ++ rest) = (n, rest)) as Hstrtol
    by (apply strtol_printf; [change LONG_MAX with 9223372036854775807; change LONG_MIN with (-9223372036854775808); lia|done]).
  unfold svn_revnum_parse. rewrite Hstrtol.
  destruct (printf_ld_head n) as (c & s & -> & _); [lia|].
  if_false by (symmetry; apply Nat.eqb_neq; rewrite length_app; simpl; lia).
  if_false by lia. done.
Qed.

(** ** Rangelists *)

Lemma byte_eqb_false a b : a ≠ b → a =b? b = false.
Proof. apply byte_eqb_ne. Qed.

Lemma drop_1_cons {A} (x : A) l : drop 1 (x :: l) = l.
Proof. apply drop_0. Qed.

(** A range that [svn_mergeinfo_parse] can produce. *)
Definition printable (r : svn_merge_range_t) : bool :=
  (0 <=? start r) && (start r <? end_ r) && (end_ r <=? LONG_MAX).

(** What may follow a range in the text. *)
Definition range_follow (rest : list byte) : Prop :=
  rest = [] ∨ (∃ t, rest = NEWLINE :: t) ∨ (∃ t, rest = ","%byte :: t).

Definition after_range (r : svn_merge_range_t) (rest : list byte)
    (rangelist : svn_rangelist_t) : result (svn_rangelist_t * list byte * bool) :=
  Ok (rangelist ++ [r],
      if deref rest =b? ","%byte then drop 1 rest else rest,
      negb (deref rest =b? ","%byte)).

Definition range_mark (r : svn_merge_range_t) : list byte :=
  if inheritable r then [] else ["*"%byte].

Lemma parse_range_end_ok r rest rangelist :
  range_follow rest →
  parse_range_end (range_mark r ++ rest) (set_inheritable r true) rangelist
  = after_range r rest rangelist.
Proof.
  destruct r as [s e b]. unfold range_follow, range_mark, parse_range_end, after_range,
    set_inheritable. simpl.
  intros [->|[[t ->]|[t ->]]]; by destruct b.
Qed.

Lemma parse_range_element_ok r rest rangelist :
  printable r = true → range_follow rest →
  parse_range_element (range_to_string r ++ rest) rangelist = after_range r rest rangelist.
Proof.
  unfold printable. intros Hp Hrest.
  assert (Hd : ∀ t, isdigit (deref (range_mark r ++ t)) = isdigit (deref t)
                    ∨ isdigit (deref (range_mark r ++ t)) = false).
  { intros t. unfold range_mark. destruct (inheritable r); [by left|by right]. }
  assert (Hnd : isdigit (deref (range_mark r ++ rest)) = false).
  { destruct (Hd rest) as [->| ->]; [|done].
    by destruct Hrest as [->|[[t ->]|[t ->]]]. }
  assert (Hfollow : deref (range_mark r ++ rest) ∈ [NUL; NEWLINE; ","%byte; "*"%byte]
    ∧ (deref (range_mark r ++ rest) = NUL → range_mark r ++ rest = [])).
  { unfold range_mark. destruct (inheritable r); simpl;
      destruct Hrest as [->|[[t ->]|[t ->]]]; simpl; set_solver. }
  unfold range_to_string, parse_range_element. fold (range_mark r).
  destruct (Z.eqb_spec (start r) (end_ r - 1)) as [Hs|Hs].
  - rewrite <- app_assoc, svn_revnum_parse_printf by (done || lia). cbn [rbind].
    if_false by (symmetry; destruct Hfollow as [Hf Hnul];
      repeat (apply elem_of_cons in Hf as [Hf|Hf]; [rewrite Hf in *; try done|]);
      [by rewrite Hnul|by apply not_elem_of_nil in Hf]).
    if_false by lia.
    rewrite byte_eqb_false.
    2: { destruct Hfollow as [Hf _]. intros Hc. rewrite Hc in Hf.
         by repeat (apply elem_of_cons in Hf as [Hf|Hf]; [discriminate|]);
           apply not_elem_of_nil in Hf. }
    replace (MkRange (end_ r - 1) (end_ r) true) with (set_inheritable r true).
    { by apply parse_range_end_ok. }
    unfold set_inheritable. by rewrite Hs.
  - if_false by lia. if_true by lia.
    rewrite <- app_assoc. cbn [app]. rewrite svn_revnum_parse_printf by (done || lia).
    cbn [rbind deref]. rewrite byte_eqb_refl. cbn [negb andb].
    if_false by lia. rewrite drop_1_cons.
    rewrite <- app_assoc, svn_revnum_parse_printf by (done || lia). cbn [rbind].
    if_false by lia. if_false by lia.
    replace (set_end _ _) with (set_inheritable r true).
    { by apply parse_range_end_ok. }
    unfold set_inheritable, set_end. simpl. f_equal. lia.
Qed.

Lemma range_to_string_head r :
  printable r = true → ∃ c s, range_to_string r = c :: s ∧ isdigit c = true.
Proof.
  unfold printable, range_to_string. intros Hp.
  assert (Hn : ∀ n t, 0 <= n → ∃ c s, printf_ld n ++ t = c :: s ∧ isdigit c = true).
  { intros n t Hn. destruct (printf_ld_head n Hn) as (c & s & -> & ?).
    exists c, (s ++ t). by split. }
  case_if; [apply Hn; lia|]. if_false by lia. if_true by lia. apply Hn. lia.
Qed.

Definition line_end (rest : list byte) : Prop := rest = [] ∨ ∃ t, rest = NEWLINE :: t.

Lemma svn_rangelist_to_string_cons r r' rangelist :
  svn_rangelist_to_string (r :: r' :: rangelist)
  = range_to_string r ++ ","%byte :: svn_rangelist_to_string (r' :: rangelist).
Proof. done. Qed.

Lemma parse_rangelist_loop_ok fuel rangelist rest acc :
  rangelist ≠ [] → Forall (λ r, printable r = true) rangelist → line_end rest →
  (length rangelist <= fuel)%nat →
  parse_rangelist_loop fuel (svn_rangelist_to_string rangelist ++ rest) acc
  = Ok (acc ++ rangelist, rest).
Proof.
  revert acc fuel; induction rangelist as [|r rangelist IH]; [done|].
  intros acc [|fuel] _ [Hr Hrs]%Forall_cons Hrest Hf; [simpl in Hf; lia|].
  cbn [parse_rangelist_loop].
  destruct (range_to_string_head r Hr) as (c & s & Hc & Hd).
  destruct (isdigit_facts c Hd) as (_ & _ & _ & Hnl & _).
  assert (Hhead : ∃ t, svn_rangelist_to_string (r :: rangelist) ++ rest = c :: t).
  { destruct rangelist as [|r' rangelist]; [|rewrite svn_rangelist_to_string_cons];
      cbn [svn_rangelist_to_string]; rewrite Hc; by eexists. }
  destruct Hhead as [t Ht]. rewrite bool_decide_eq_false_2 by by rewrite Ht.
  assert (deref (svn_rangelist_to_string (r :: rangelist) ++ rest) = c) as ->
    by by rewrite Ht.
  rewrite (byte_eqb_false c NEWLINE) by done.
  destruct rangelist as [|r' rangelist].
  - cbn [svn_rangelist_to_string].
    rewrite parse_range_element_ok; [|done|destruct Hrest as [->|[? ->]]; unfold range_follow; eauto].
    unfold after_range. cbn [rbind].
    assert (deref rest =b? ","%byte = false) as ->; [|done].
    by destruct Hrest as [->|[? ->]].
  - rewrite svn_rangelist_to_string_cons, <- app_assoc. cbn [app].
    rewrite parse_range_element_ok; [|done|unfold range_follow; eauto].
    unfold after_range. cbn [deref rbind]. rewrite byte_eqb_refl. cbn [negb].
    rewrite drop_1_cons, IH; [by rewrite <- app_assoc|done..|simpl in *; lia].
Qed.

Lemma svn_rangelist_to_string_length rangelist :
  Forall (λ r, printable r = true) rangelist →
  (length rangelist <= length (svn_rangelist_to_string rangelist))%nat.
Proof.
  induction rangelist as [|r rangelist IH]; [simpl; lia|]. intros [Hr Hrs]%Forall_cons.
  destruct (range_to_string_head r Hr) as (c & s & Hc & _).
  destruct rangelist as [|r' rangelist]; [|rewrite svn_rangelist_to_string_cons];
    cbn [svn_rangelist_to_string]; rewrite Hc; [simpl; lia|].
  specialize (IH Hrs). rewrite length_app. simpl in *. lia.
Qed.

Lemma parse_rangelist_ok rangelist rest acc :
  rangelist ≠ [] → Forall (λ r, printable r = true) rangelist → line_end rest →
  parse_rangelist (svn_rangelist_to_string rangelist ++ rest) acc
  = Ok (acc ++ rangelist, rest).
Proof.
  intros Hne Hrs Hrest. unfold parse_rangelist.
  destruct rangelist as [|r rangelist]; [done|].
  pose proof Hrs as [Hr _]%Forall_cons.
  destruct (range_to_string_head r Hr) as (c & s & Hc & Hd).
  destruct (isdigit_facts c Hd) as (Hsp & _ & _ & Hnl & _).
  assert (Hhead : ∃ t, svn_rangelist_to_string (r :: rangelist) ++ rest = c :: t).
  { destruct rangelist as [|r' rangelist]; [|rewrite svn_rangelist_to_string_cons];
      cbn [svn_rangelist_to_string]; rewrite Hc; by eexists. }
  destruct Hhead as [t Ht].
  assert (skip_while (λ c, negb (c =b? NEWLINE) && isspace c)
            (svn_rangelist_to_string (r :: rangelist) ++ rest)
          = svn_rangelist_to_string (r :: rangelist) ++ rest) as ->.
  { rewrite Ht. cbn [skip_while]. by rewrite Hsp, andb_false_r. }
  assert (deref (svn_rangelist_to_string (r :: rangelist) ++ rest) = c) as ->
    by by rewrite Ht.
  rewrite byte_eqb_false by done.
  rewrite bool_decide_eq_false_2 by by rewrite Ht. cbn [orb].
  apply parse_rangelist_loop_ok; try done.
  pose proof (svn_rangelist_to_string_length _ Hrs). rewrite length_app. lia.
Qed.

(** svn_rangelist__parse inverts svn_rangelist_to_string on every list of
    forward ranges of revisions that fit a C long, in any order, overlapping
    or not, with their inheritability. *)
Theorem svn_rangelist_parse_print rangelist :
  Forall (λ r, printable r = true) rangelist →
  svn_rangelist__parse (svn_rangelist_to_string rangelist) = Ok rangelist.
Proof.
  intros Hrs. unfold svn_rangelist__parse. destruct (decide (rangelist = [])) as [->|Hne]; [done|].
  rewrite <- (app_nil_r (svn_rangelist_to_string rangelist)).
  rewrite parse_rangelist_ok by (done || by left). done.
Qed.

(** "7-9*,3,10-12" *)
Lemma svn_rangelist_parse_print_witness :
  svn_rangelist__parse
    (svn_rangelist_to_string [MkRange 6 9 false; MkRange 2 3 true; MkRange 9 12 true])
  = Ok [MkRange 6 9 false; MkRange 2 3 true; MkRange 9 12 true].
Proof. apply svn_rangelist_parse_print. by repeat constructor. Defined.

(** ** What the parser accepts *)

Definition parse_errno (e : svn_errno) : bool :=
  bool_decide (e = SVN_ERR_REVNUM_PARSE_FAILURE)
  || bool_decide (e = SVN_ERR_MERGEINFO_PARSE_ERROR).

(** Returned values satisfy [P], and the only errors are parse errors. *)
Definition parses {A} (r : result A) (P : A → Prop) : Prop :=
  match r with
  | Ok a => P a
  | Error e => parse_errno e = true
  | Aborted | Undefined | OutOfFuel => False
  end.

Lemma parses_bind {A B} (m : result A) (k : A → result B) P Q :
  parses m P → (∀ a, P a → parses (k a) Q) → parses (rbind m k) Q.
Proof. destruct m; simpl; auto. Qed.

Lemma parses_impl {A} (m : result A) (P Q : A → Prop) :
  parses m P → (∀ a, P a → Q a) → parses m Q.
Proof. destruct m; simpl; auto. Qed.

Lemma svn_revnum_parse_parses s :
  parses (svn_revnum_parse s)
    (λ '(rev, rest), 0 <= rev <= LONG_MAX ∧ (length rest < length s)%nat).
Proof.
  unfold svn_revnum_parse. pose proof (strtol_bounds s) as Hb.
  destruct (strtol s) as [v rest]. destruct Hb as [Hv Hr].
  destruct (Nat.eqb_spec (length s) (length rest)); [done|].
  destruct (Z.ltb_spec v 0); [done|]. simpl. split; [lia|].
  destruct Hr as [->|]; [done|lia].
Qed.

Definition element_parsed (curr : list byte) (rangelist : svn_rangelist_t)
    : svn_rangelist_t * list byte * bool → Prop :=
  λ '(rangelist', curr', _),
    (length curr' <= length curr)%nat
    ∧ ∃ r, rangelist' = rangelist ++ [r] ∧ printable r = true.

Lemma parse_range_end_parses curr mrange rangelist :
  printable mrange = true →
  parses (parse_range_end curr mrange rangelist) (element_parsed curr rangelist).
Proof.
  intros Hp. unfold parse_range_end, element_parsed.
  repeat case_if; simpl; try done; rewrite ?length_drop; (split; [lia|]);
    eexists; split; done.
Qed.

Lemma parse_range_element_parses curr rangelist :
  parses (parse_range_element curr rangelist)
    (λ '(rangelist', curr', ret), element_parsed curr rangelist (rangelist', curr', ret)
       ∧ (length curr' < length curr)%nat).
Proof.
  unfold parse_range_element.
  eapply parses_bind; [apply svn_revnum_parse_parses|]. intros [firstrev c1] [Hf Hl1].
  case_if; [done|]. destruct (Z.eqb_spec firstrev 0); [done|].
  case_if.
  - eapply parses_bind; [apply svn_revnum_parse_parses|]. intros [secondrev c2] [Hs Hl2].
    rewrite length_drop in Hl2.
    destruct (Z.ltb_spec secondrev firstrev); [done|].
    destruct (Z.eqb_spec firstrev secondrev); [done|].
    eapply parses_impl; [apply parse_range_end_parses; unfold printable; simpl; lia|].
    intros [[rl' c'] ret] [Hl3 Hr]. split; [split; [lia|done]|lia].
  - eapply parses_impl; [apply parse_range_end_parses; unfold printable; simpl; lia|].
    intros [[rl' c'] ret] [Hl3 Hr]. split; [split; [lia|done]|lia].
Qed.

Lemma parse_rangelist_loop_parses fuel curr rangelist :
  (length curr < fuel)%nat → Forall (λ r, printable r = true) rangelist →
  parses (parse_rangelist_loop fuel curr rangelist)
    (λ '(rangelist', rest), Forall (λ r, printable r = true) rangelist'
       ∧ (length rest <= length curr)%nat).
Proof.
  revert curr rangelist; induction fuel as [|fuel IH]; intros curr rangelist Hf Hrs; [lia|].
  cbn [parse_rangelist_loop]. case_if; [done|]. case_if; [by simpl|].
  eapply parses_bind; [apply parse_range_element_parses|].
  intros [[rl' c'] ret] [[Hl (r & -> & Hr)] Hlt].
  assert (Forall (λ r, printable r = true) (rangelist ++ [r])).
  { apply Forall_app. split; [done|by constructor]. }
  destruct ret; [simpl; split; [done|lia]|].
  eapply parses_impl; [apply IH; [lia|done]|]. intros [rl2 c2] [? ?]. split; [done|lia].
Qed.

Lemma parse_rangelist_parses input :
  parses (parse_rangelist input [])
    (λ '(rangelist, rest), Forall (λ r, printable r = true) rangelist
       ∧ (length rest <= length input)%nat).
Proof.
  unfold parse_rangelist.
  pose proof (skip_while_length (λ c, negb (c =b? NEWLINE) && isspace c) input).
  case_if; [by simpl|].
  eapply parses_impl; [apply parse_rangelist_loop_parses; [lia|done]|].
  intros [rl c] [? ?]. split; [done|lia].
Qed.

(** Parsing any byte string as a rangelist ends with forward ranges of
    revision numbers that fit a C long, or with one of the two parse errors;
    it never reads past the end of the string nor aborts. *)
Theorem svn_rangelist__parse_sound (str : list byte) :
  match svn_rangelist__parse str with
  | Ok rangelist =>
      Forall (λ r, (0 <=? start r) && (start r <? end_ r) && (end_ r <=? LONG_MAX) = true)
        rangelist
  | Error e => e = SVN_ERR_REVNUM_PARSE_FAILURE ∨ e = SVN_ERR_MERGEINFO_PARSE_ERROR
  | Aborted | Undefined | OutOfFuel => False
  end.
Proof.
  unfold svn_rangelist__parse. pose proof (parse_rangelist_parses str) as Hp.
  destruct (parse_rangelist str []) as [[rl rest]|e| | |]; simpl in *; try done.
  - by destruct Hp.
  - unfold parse_errno in Hp. destruct e; try done; auto.
Qed.

(** ** Sorting and combining the ranges of a line *)

Lemma same_inheritance_sym a b : same_inheritance a b = same_inheritance b a.
Proof. unfold same_inheritance. by destruct (inheritable a), (inheritable b). Qed.

Lemma compare_ranges_le r1 r2 : svn_sort_compare_ranges r1 r2 <= 0 → start r1 <= start r2.
Proof. compare_ranges r1 r2; lia. Qed.

Lemma qsort_ranges_sorted `{Qsort} rangelist :
  StronglySorted (λ x y, svn_sort_compare_ranges x y <= 0)
    (qsort svn_sort_compare_ranges rangelist).
Proof.
  apply qsort_sorted.
  - intros x y _ _. compare_ranges x y; compare_ranges y x; lia.
  - intros x y z _ _ _. compare_ranges x y; compare_ranges y z; compare_ranges x z; lia.
Qed.

Definition forward (r : svn_merge_range_t) : bool := start r <? end_ r.

(** What the combining loop returns for [lastrange] and the ranges after it. *)
Definition combined (lastrange : svn_merge_range_t) (ranges : svn_rangelist_t)
    (r : result svn_rangelist_t) : Prop :=
  match r with
  | Ok out =>
      wf_from (start lastrange) out = true ∧ compact out = true
      ∧ (∃ r0 out', out = r0 :: out' ∧ start r0 = start lastrange
           ∧ inheritable r0 = inheritable lastrange)
      ∧ ∀ b rev, covers_as b out rev = covers_as b (lastrange :: ranges) rev
  | Error e =>
      e = SVN_ERR_MERGEINFO_PARSE_ERROR
      ∧ ∃ rev, covers_as true (lastrange :: ranges) rev = true
             ∧ covers_as false (lastrange :: ranges) rev = true
  | Aborted | Undefined | OutOfFuel => False
  end.

Lemma combined_next lastrange range ranges :
  forward lastrange = true → end_ lastrange <= start range →
  end_ lastrange < start range ∨ inheritable lastrange ≠ inheritable range →
  combined range ranges (combine_sorted range ranges) →
  combined lastrange (range :: ranges)
    (let! rest := combine_sorted range ranges in Ok (lastrange :: rest)).
Proof.
  unfold forward. intros Hf Hle Hne. destruct (combine_sorted range ranges) as [out|e| | |];
    simpl; [|..|done|done|done].
  - intros (Hwf & Hcmp & (r0 & out' & -> & Hs & Hi) & Hcov). split; [|split; [|split]].
    + rewrite (wf_from_weaken _ (end_ lastrange) _ Hwf) by lia. lia.
    + rewrite Hcmp. rewrite Hs, andb_true_r. unfold same_inheritance. rewrite Hi.
      apply negb_true_iff, andb_false_iff.
      destruct Hne as [Hne|Hne]; [left; lia|right]. by apply eqb_false_iff.
    + by exists lastrange, (r0 :: out').
    + intros b rev. specialize (Hcov b rev). simpl in *. by rewrite Hcov.
  - intros (-> & rev & Ht & Hf'). split; [done|]. exists rev. simpl in *.
    rewrite Ht, Hf', !orb_true_r. done.
Qed.

Lemma combine_sorted_ok lastrange ranges :
  forward lastrange = true → forallb forward ranges = true →
  Forall (λ r, start lastrange <= start r) ranges →
  StronglySorted (λ x y, svn_sort_compare_ranges x y <= 0) ranges →
  combined lastrange ranges (combine_sorted lastrange ranges).
Proof.
  intros Hl Hfw Hge Hs. revert lastrange Hl Hge.
  induction Hs as [|range ranges Hs IH Hall]; intros lastrange Hl Hge.
  { simpl. unfold forward in Hl. split; [lia|]. split; [done|]. split; [|done].
    by exists lastrange, []. }
  simpl in Hfw. apply andb_true_iff in Hfw as [Hr Hfw].
  apply Forall_cons in Hge as [Hlr Hge]. unfold forward in *.
  assert (Forall (λ r, start range <= start r) ranges) as Hrr.
  { eapply Forall_impl; [exact Hall|]. intros x. apply compare_ranges_le. }
  cbn [combine_sorted]. specialize (IH Hfw).
  destruct (Z.leb_spec (start range) (end_ lastrange)) as [Ht|Ht].
  2: { rewrite andb_false_r. apply combined_next; [done|lia|left; lia|]. by apply IH. }
  if_true by lia.
  destruct (same_inheritance range lastrange) eqn:Hsame.
  - unfold same_inheritance in *. apply eqb_prop in Hsame.
    rewrite andb_false_r, Hsame, eqb_reflx.
    assert (Hc : combined (set_end lastrange (Z.max (end_ range) (end_ lastrange))) ranges
      (combine_sorted (set_end lastrange (Z.max (end_ range) (end_ lastrange))) ranges)).
    { apply IH; [unfold set_end; simpl; lia|done]. }
    assert (Hcov : ∀ b rev,
      covers_as b (set_end lastrange (Z.max (end_ range) (end_ lastrange)) :: ranges) rev
      = covers_as b (lastrange :: range :: ranges) rev).
    { intros b rev. simpl. rewrite Hsame. unfold in_range. simpl.
      destruct (Bool.eqb (inheritable lastrange) b); simpl; [|done].
      rewrite orb_assoc. f_equal. lia. }
    destruct (combine_sorted _ _) as [out|e| | |]; simpl in Hc; [|..|done|done|done]; simpl.
    + destruct Hc as (? & ? & ? & Hc). repeat split; try done. intros b rev.
      rewrite Hc. apply Hcov.
    + destruct Hc as (? & rev & Hc1 & Hc2). split; [done|]. exists rev.
      split; [etrans; [symmetry; apply (Hcov true rev)|done]
             |etrans; [symmetry; apply (Hcov false rev)|done]].
  - destruct (Z.ltb_spec (start range) (end_ lastrange)) as [Hov|Hov].
    + simpl. split; [done|]. exists (start range + 1). unfold same_inheritance in Hsame.
      unfold in_range. destruct (inheritable range), (inheritable lastrange); try done; simpl; lia.
    + cbn [andb negb]. rewrite same_inheritance_sym, Hsame.
      apply combined_next; [done|done|right|by apply IH].
      unfold same_inheritance in Hsame. intros He. by rewrite He, eqb_reflx in Hsame.
Qed.

Lemma covers_as_perm b rl1 rl2 rev : rl1 ≡ₚ rl2 → covers_as b rl1 rev = covers_as b rl2 rev.
Proof.
  intros Hp. induction Hp; simpl; [done|congruence| |congruence].
  by rewrite !orb_assoc, (orb_comm (_ && in_range y rev)).
Qed.

Lemma forallb_perm {A} (p : A → bool) l1' l2' : l1' ≡ₚ l2' → forallb p l1' = forallb p l2'.
Proof.
  intros Hp. induction Hp; simpl; [done|congruence| |congruence].
  by rewrite !andb_assoc, (andb_comm (p y)).
Qed.

(** The clean-up that parse_revision_line does after parsing a rangelist
    returns a sorted, disjoint and minimal list with the same revisions and
    inheritability, or the parse error; the error only arises when some
    revision is listed both as inheritable and as non-inheritable. *)
Theorem sort_and_combine_spec `{Qsort} rangelist :
  Forall (λ r, printable r = true) rangelist →
  match sort_and_combine rangelist with
  | Ok out =>
      rangelist_wf out = true ∧ compact out = true
      ∧ ∀ b rev, covers_as b out rev = covers_as b rangelist rev
  | Error e =>
      e = SVN_ERR_MERGEINFO_PARSE_ERROR
      ∧ ∃ rev, covers_as true rangelist rev = true ∧ covers_as false rangelist rev = true
  | Aborted | Undefined | OutOfFuel => False
  end.
Proof.
  intros Hrs. unfold sort_and_combine, printable in *. case_if.
  2: { destruct rangelist as [|r [|? ?]]; [done| |simpl in *; lia].
       apply Forall_cons in Hrs as [Hr _]. split; [simpl; lia|done]. }
  assert (Hall : ∀ r, r ∈ qsort svn_sort_compare_ranges rangelist →
    0 <= start r ∧ forward r = true).
  { intros r. rewrite qsort_perm. intros Hr. rewrite Forall_forall in Hrs.
    specialize (Hrs r Hr). unfold forward. lia. }
  pose proof (qsort_ranges_sorted rangelist) as Hs.
  pose proof (qsort_perm svn_sort_compare_ranges rangelist) as Hp.
  destruct (qsort svn_sort_compare_ranges rangelist) as [|lastrange ranges].
  { apply Permutation_nil_l in Hp. by subst. }
  apply StronglySorted_inv in Hs as [Hs Hle].
  destruct (Hall lastrange) as [Hl0 Hl]; [by left|].
  assert (Hc : combined lastrange ranges (combine_sorted lastrange ranges)).
  { apply combine_sorted_ok; [done| | |done].
    - apply forallb_forall. intros r Hr. apply Hall. right. by apply list_elem_of_In.
    - eapply Forall_impl; [exact Hle|]. intros r. apply compare_ranges_le. }
  destruct (combine_sorted lastrange ranges) as [out|e| | |]; simpl in Hc; try done.
  - destruct Hc as (Hwf & ? & _ & Hcov).
    split; [by eapply wf_from_weaken|]. split; [done|]. intros b rev.
    rewrite Hcov. by apply (covers_as_perm b (lastrange :: ranges)).
  - destruct Hc as (-> & rev & Ht & Hf). split; [done|]. exists rev.
    by rewrite <- !(covers_as_perm _ (lastrange :: ranges) rangelist).
Qed.

Lemma sort_and_combine_spec_witness :
  match sort_and_combine [MkRange 2 3 true; MkRange 4 9 false; MkRange 0 2 true] with
  | Ok out =>
      rangelist_wf out = true ∧ compact out = true
      ∧ ∀ b rev, covers_as b out rev
        = covers_as b [MkRange 2 3 true; MkRange 4 9 false; MkRange 0 2 true] rev
  | Error e =>
      e = SVN_ERR_MERGEINFO_PARSE_ERROR
      ∧ ∃ rev,
          covers_as true [MkRange 2 3 true; MkRange 4 9 false; MkRange 0 2 true] rev = true
          ∧ covers_as false [MkRange 2 3 true; MkRange 4 9 false; MkRange 0 2 true] rev = true
  | Aborted | Undefined | OutOfFuel => False
  end.
Proof. apply sort_and_combine_spec. by repeat constructor. Defined.

(** Nothing is left to do for a rangelist in normal form. *)
Lemma wf_sorted lo rangelist :
  wf_from lo rangelist = true →
  Forall (λ r, lo <= start r) rangelist
  ∧ StronglySorted (λ x y, svn_sort_compare_ranges x y <= 0) rangelist.
Proof.
  revert lo; induction rangelist as [|r rl IH]; intros lo; simpl; [repeat constructor|].
  intros Hwf. destruct (IH (end_ r)) as [Hge Hs]; [by apply andb_true_iff in Hwf as [_ ?]|]. split.
  - constructor; [lia|]. eapply Forall_impl; [exact Hge|]. intros x Hx. cbn beta in Hx. lia.
  - constructor; [done|]. eapply Forall_impl; [exact Hge|]. simpl. intros x Hx.
    compare_ranges r x; lia.
Qed.

Lemma wf_start_inj lo rangelist x y :
  wf_from lo rangelist = true → x ∈ rangelist → y ∈ rangelist → start x = start y → x = y.
Proof.
  revert lo; induction rangelist as [|r rl IH]; intros lo; simpl;
    [intros _ ?%not_elem_of_nil; done|].
  intros Hwf. destruct (wf_sorted (end_ r) rl) as [Hge _]; [lia|].
  rewrite Forall_forall in Hge. rewrite !elem_of_cons.
  intros [->|Hx] [->|Hy] He; [done| | |eapply (IH (end_ r)); eauto; lia].
  - specialize (Hge y Hy). simpl in Hge. lia.
  - specialize (Hge x Hx). simpl in Hge. lia.
Qed.

Lemma qsort_wf `{Qsort} rangelist :
  rangelist_wf rangelist = true → qsort svn_sort_compare_ranges rangelist = rangelist.
Proof.
  intros Hwf. apply (StronglySorted_unique_strong (λ x y, svn_sort_compare_ranges x y <= 0));
    [|apply qsort_ranges_sorted|by apply (wf_sorted 0)|apply qsort_perm].
  intros x y Hx Hy. rewrite qsort_perm in Hx. intros H1 H2.
  apply (wf_start_inj 0 rangelist); [done..|].
  apply compare_ranges_le in H1, H2. lia.
Qed.

Lemma combine_sorted_wf lo lastrange ranges :
  wf_from lo (lastrange :: ranges) = true → compact (lastrange :: ranges) = true →
  combine_sorted lastrange ranges = Ok (lastrange :: ranges).
Proof.
  revert lo lastrange; induction ranges as [|range ranges IH]; intros lo lastrange; [done|].
  intros Hwf Hc. cbn [combine_sorted].
  assert (combine_sorted range ranges = Ok (range :: ranges)) as ->.
  { apply (IH (end_ lastrange)); simpl in *; lia. }
  cbn [rbind]. cbn [wf_from compact] in *.
  destruct (Z.leb_spec (start range) (end_ lastrange)) as [Hle|Hgt];
    [|by rewrite andb_false_r].
  if_true by lia. if_false by lia.
  destruct (same_inheritance lastrange range); [|done]. lia.
Qed.

Lemma sort_and_combine_wf `{Qsort} rangelist :
  rangelist_wf rangelist = true → compact rangelist = true →
  sort_and_combine rangelist = Ok rangelist.
Proof.
  intros Hwf Hc. unfold sort_and_combine. rewrite qsort_wf by done. case_if; [|done].
  destruct rangelist as [|r rl]; [done|]. by eapply combine_sorted_wf.
Qed.

(** ** Lines *)

Definition no_newline (s : list byte) : bool := forallb (λ c, negb (c =b? NEWLINE)) s.
Definition no_colon (s : list byte) : bool := forallb (λ c, negb (c =b? ":"%byte)) s.

Lemma last_colon_none before s rest lc :
  no_newline s = true → no_colon s = true → line_end rest →
  last_colon_loop before (s ++ rest) lc = lc.
Proof.
  revert before; induction s as [|c s IH]; intros before; simpl.
  - intros _ _ [->|[t ->]]; done.
  - intros [Hn Hn']%andb_true_iff [Hc Hc']%andb_true_iff Hr.
    apply negb_true_iff in Hn as ->, Hc as ->. by apply IH.
Qed.

Lemma last_colon_loop_ok before name s rest lc :
  no_newline name = true → no_newline s = true → no_colon s = true → line_end rest →
  last_colon_loop before (name ++ ":"%byte :: s ++ rest) lc
  = Some (before ++ name, ":"%byte :: s ++ rest).
Proof.
  intros Hn Hs Hc Hr. revert before lc Hn; induction name as [|c name IH]; intros before lc Hn; simpl.
  - rewrite app_nil_r. by apply last_colon_none.
  - apply andb_true_iff in Hn as [Hn Hn']. apply negb_true_iff in Hn as ->.
    rewrite IH by done. by rewrite <- app_assoc.
Qed.

Lemma digits_plain s :
  forallb isdigit s = true → no_newline s = true ∧ no_colon s = true.
Proof.
  intros Hd. split; apply forallb_forall; intros c Hc;
    apply (proj1 (forallb_forall _ _) Hd), isdigit_facts in Hc as (_ & _ & _ & Hn & _ & Hcol);
    apply negb_true_iff; by apply byte_eqb_false.
Qed.

Lemma range_to_string_plain r :
  printable r = true →
  no_newline (range_to_string r) = true ∧ no_colon (range_to_string r) = true.
Proof.
  unfold printable. intros Hp.
  assert (Hld : ∀ n, 0 <= n → no_newline (printf_ld n) = true ∧ no_colon (printf_ld n) = true).
  { intros n Hn. apply digits_plain. unfold printf_ld. if_false by lia. by apply decimal_digits. }
  assert (no_newline (range_mark r) = true ∧ no_colon (range_mark r) = true) as [Hm1 Hm2]
    by (unfold range_mark; by destruct (inheritable r)).
  destruct (Hld (end_ r)) as [He1 He2]; [lia|].
  destruct (Hld (start r + 1)) as [Hs1 Hs2]; [lia|].
  unfold range_to_string. fold (range_mark r).
  case_if; [|if_false by lia; if_true by lia]; unfold no_newline, no_colon in *;
    rewrite ?forallb_app; simpl; rewrite ?forallb_app.
  - by rewrite He1, He2, Hm1, Hm2.
  - by rewrite Hs1, Hs2, He1, He2, Hm1, Hm2.
Qed.

Lemma rangelist_to_string_plain rangelist :
  Forall (λ r, printable r = true) rangelist →
  no_newline (svn_rangelist_to_string rangelist) = true
  ∧ no_colon (svn_rangelist_to_string rangelist) = true.
Proof.
  induction rangelist as [|r rangelist IH]; [done|]. intros [Hr Hrs]%Forall_cons.
  destruct (range_to_string_plain r Hr) as [H1 H2].
  destruct rangelist as [|r' rangelist]; [done|].
  rewrite svn_rangelist_to_string_cons. destruct (IH Hrs) as [H3 H4].
  unfold no_newline, no_colon in *. rewrite !forallb_app. cbn [forallb]. by rewrite H1, H2, H3, H4.
Qed.

(** ** Mergeinfo *)

(** Mergeinfo in normal form: absolute canonical paths, and rangelists as
    [svn_mergeinfo.h] wants them. *)
Definition entry_ok (path : list byte) (rangelist : svn_rangelist_t) : Prop :=
  svn_fspath__is_canonical path = true ∧ no_newline path = true
  ∧ rangelist ≠ [] ∧ rangelist_wf rangelist = true ∧ compact rangelist = true
  ∧ Forall (λ r, printable r = true) rangelist.

Lemma fspath_canonical path :
  svn_fspath__is_canonical path = true →
  svn_fspath__canonicalize path = path ∧ ∃ t, path = SLASH :: t.
Proof.
  unfold svn_fspath__is_canonical, svn_fspath__canonicalize.
  destruct path as [|c path]; [done|]. rewrite drop_1_cons. cbn [deref].
  destruct (byte_eqb_spec c SLASH) as [->|]; [|done]. simpl andb. intros Hc.
  split; [|by exists path]. case_bool_decide as Hs; [done|]. f_equal.
  assert (path ≠ []) as Hne by (by intros ->).
  apply relpath_canonical_fixed in Hc. rewrite svn_relpath_canonicalize_segments in *.
  cbn [split_slash]. rewrite byte_eqb_refl. by simpl.
Qed.

Section MergeinfoRoundTrip.
Context `{Qsort}.

Lemma parse_revision_line_ok path rangelist rest hash :
  entry_ok path rangelist → line_end rest → hash !! path = None →
  parse_revision_line
    (path ++ ":"%byte :: svn_rangelist_to_string rangelist ++ rest) hash
  = Ok (drop 1 rest, <[path := rangelist]> hash).
Proof.
  intros (Hcan & Hnl & Hne & Hwf & Hcmp & Hrs) Hrest Hh.
  destruct (rangelist_to_string_plain rangelist Hrs) as [Hn Hc].
  destruct (fspath_canonical path Hcan) as [Hfs [t ->]].
  unfold parse_revision_line, parse_pathname. rewrite last_colon_loop_ok by done.
  rewrite app_nil_l. rewrite bool_decide_eq_false_2 by done. cbn [rbind].
  rewrite Hfs. cbn [deref]. rewrite byte_eqb_refl. cbn [negb].
  rewrite drop_1_cons, parse_rangelist_ok by done. rewrite app_nil_l. cbn [rbind].
  if_false by (symmetry; apply Nat.eqb_neq; by destruct rangelist).
  if_false by (by destruct Hrest as [->|[? ->]]).
  rewrite sort_and_combine_wf by done. cbn [rbind]. by rewrite Hh.
Qed.

(** The entries of the items, added in order. *)
Fixpoint add_items (items : list (svn_sort__item_t svn_rangelist_t))
    (hash : svn_mergeinfo_t) : svn_mergeinfo_t :=
  match items with
  | [] => hash
  | item :: items => add_items items (<[item_key item := item_value item]> hash)
  end.

Lemma parse_top_lines items fuel hash :
  Forall (λ item, entry_ok (item_key item) (item_value item)) items →
  NoDup (map item_key items) →
  (∀ item, item ∈ items → hash !! item_key item = None) →
  (length items < fuel)%nat →
  parse_top fuel (lines_to_string [] items) hash = Ok (add_items items hash).
Proof.
  revert fuel hash; induction items as [|item items IH];
    intros [|fuel] hash Hall Hnd Hnone Hf; [simpl in Hf; lia|done|simpl in Hf; lia|].
  apply Forall_cons in Hall as [Hi Hall]. apply NoDup_cons in Hnd as [Hnotin Hnd].
  set (rest := match items with
               | [] => [] | _ => NEWLINE :: lines_to_string [] items end).
  assert (lines_to_string [] (item :: items)
    = item_key item ++ ":"%byte :: svn_rangelist_to_string (item_value item) ++ rest) as ->.
  { cbn [lines_to_string]. destruct Hi as (Hcan & _).
    apply fspath_canonical in Hcan as [_ [t ->]]. done. }
  cbn [parse_top]. rewrite bool_decide_eq_false_2.
  2: { destruct (item_key item); done. }
  rewrite parse_revision_line_ok; [|done| |apply Hnone; by left].
  2: { unfold rest, line_end. destruct items; eauto. }
  cbn [rbind]. assert (drop 1 rest = lines_to_string [] items) as ->.
  { unfold rest. destruct items; [done|]. by rewrite drop_1_cons. }
  rewrite IH; [done|done|done| |simpl in Hf; lia].
  intros x Hx. rewrite lookup_insert_ne; [apply Hnone; by right|].
  intros He. apply Hnotin. rewrite He. by apply list_elem_of_fmap_2.
Qed.

Lemma add_items_lookup items hash path :
  NoDup (map item_key items) →
  (∀ item, item ∈ items → hash !! item_key item = None) →
  ∀ rangelist, add_items items hash !! path = Some rangelist
    ↔ MkItem path rangelist ∈ items ∨ hash !! path = Some rangelist.
Proof.
  revert hash; induction items as [|item items IH]; intros hash Hnd Hnone rl; simpl.
  { rewrite elem_of_nil. naive_solver. }
  apply NoDup_cons in Hnd as [Hnotin Hnd]. rewrite IH; [|done|].
  2: { intros x Hx. rewrite lookup_insert_ne; [apply Hnone; by right|].
       intros He. apply Hnotin. rewrite He. by apply list_elem_of_fmap_2. }
  rewrite elem_of_cons. destruct item as [k v]; simpl in *.
  destruct (decide (k = path)) as [->|Hne].
  - rewrite lookup_insert_eq. specialize (Hnone (MkItem path v) ltac:(by left)).
    simpl in Hnone. rewrite Hnone. split.
    + intros [?|[= ->]]; auto.
    + intros [[[= ->]|?]|?]; auto. done.
  - rewrite lookup_insert_ne by done. split; [naive_solver|].
    intros [[[= -> ->]|?]|?]; [done|auto..].
Qed.

Lemma lines_length items :
  Forall (λ item, entry_ok (item_key item) (item_value item)) items →
  (length items <= length (lines_to_string [] items))%nat.
Proof.
  induction items as [|item items IH]; [done|]. intros [_ Hall]%Forall_cons.
  specialize (IH Hall). cbn [lines_to_string length].
  rewrite !length_app. cbn [length]. rewrite length_app.
  destruct items; cbn [length] in *; lia.
Qed.
End MergeinfoRoundTrip.

(** C11: Parsing the printed form of a mergeinfo gives that mergeinfo back,
    when every path is one that the printer writes unambiguously (canonical,
    absolute, without newline) and every rangelist is sorted, disjoint,
    minimal and non-empty. *)
Theorem svn_mergeinfo_parse_print `{Qsort} (input : svn_mergeinfo_t) :
  (∀ path rangelist, input !! path = Some rangelist → entry_ok path rangelist) →
  svn_mergeinfo_parse (svn_mergeinfo_to_string input) = Ok input.
Proof.
  intros Hok. unfold svn_mergeinfo_parse, svn_mergeinfo_to_string, mergeinfo_to_stringbuf.
  set (items := svn_sort__hash _ _).
  assert (items ≡ₚ hash_items input) as Hp.
  { unfold items, svn_sort__hash. case_if; [done|apply qsort_perm]. }
  assert (Hin : ∀ item, item ∈ items ↔ input !! item_key item = Some (item_value item)).
  { intros [k v]. rewrite Hp. unfold hash_items. rewrite list_elem_of_fmap.
    split.
    - intros ([k' v'] & [= -> ->] & Hkv). by apply elem_of_map_to_list in Hkv.
    - intros Hkv. exists (k, v). split; [done|]. by apply elem_of_map_to_list. }
  assert (Hall : Forall (λ item, entry_ok (item_key item) (item_value item)) items).
  { apply Forall_forall. intros item Hi%Hin. by apply Hok. }
  assert (Hnd : NoDup (map item_key items)).
  { rewrite Hp. unfold hash_items. rewrite map_map. apply NoDup_fst_map_to_list. }
  simpl default.
  rewrite parse_top_lines; [|done|done|intros; apply lookup_empty|].
  2: { pose proof (lines_length items Hall). lia. }
  f_equal. apply map_eq. intros path. apply option_eq. intros rl.
  rewrite add_items_lookup; [|done|intros; apply lookup_empty].
  rewrite lookup_empty, Hin. simpl. naive_solver.
Qed.

Lemma svn_mergeinfo_parse_print_witness :
  let path := String.list_byte_of_string in
  let input : svn_mergeinfo_t :=
    {[ path "/branches/1.x" := [MkRange 4 9 false; MkRange 9 12 true];
       path "/trunk" := [MkRange 0 3 true] ]} in
  svn_mergeinfo_parse (svn_mergeinfo_to_string input) = Ok input.
Proof.
  apply svn_mergeinfo_parse_print. intros path rl.
  rewrite lookup_insert_Some, lookup_singleton_Some.
  intros [[<- <-]|[_ [<- <-]]]; (repeat split; try done; repeat constructor).
Defined.
