(* ===== verification/Mergeinfo.v ===== *)
(** * Mergeinfo and mergeinfo catalogs

    The functions of [src/subversion/libsvn_subr/mergeinfo.c] on
    [svn_mergeinfo_t] (repository paths to rangelists) and
    [svn_mergeinfo_catalog_t] (paths to mergeinfo), and [svn_hash_diff] of
    [hash.c].  A hash table is a [gmap]; a loop over [apr_hash_first] and
    [apr_hash_next] folds over its entries, in an order that APR leaves
    unspecified and on which no theorem depends. *)
From S2P Require Import Prelude MergeRange RangelistMerge RangelistUnion Rangelist RangelistLoop RangelistAlgebra Paths Relpaths Sorts MergeinfoText.

Abbreviation svn_mergeinfo_catalog_t := (gmap (list byte) svn_mergeinfo_t) (only parsing).

(** ** Loops over hash tables *)

Fixpoint fold_entries {V B : Type} (f : list byte → V → B → result B)
    (entries : list (list byte * V)) (s : B) : result B :=
  match entries with
  | [] => Ok s
  | (key, val) :: entries => let! s := f key val s in fold_entries f entries s
  end.

Definition hash_fold {V B : Type} (f : list byte → V → B → result B)
    (hash : gmap (list byte) V) (s : B) : result B :=
  fold_entries f (map_to_list hash) s.

(** The common loop: compute a value for each entry and, if there is one, set
    it in the output hash. *)
Definition hash_collect {V W} (g : list byte → V → result (option W))
    (hash : gmap (list byte) V) : result (gmap (list byte) W) :=
  hash_fold (λ key val out,
    let! w := g key val in
    Ok (match w with Some w => <[key := w]> out | None => out end)) hash ∅.

(** [if (rangelist->nelts) apr_hash_set (...)]. *)
Definition unless_empty (rangelist : svn_rangelist_t) : option svn_rangelist_t :=
  match rangelist with [] => None | _ => Some rangelist end.

(** ** Differences *)

Inductive svn_hash_diff_key_status :=
  | svn_hash_diff_key_both
  | svn_hash_diff_key_a
  | svn_hash_diff_key_b.

Definition svn_hash_diff {V B : Type} (hash_a hash_b : gmap (list byte) V)
    (diff_func : list byte → svn_hash_diff_key_status → B → result B) (baton : B)
    : result B :=
  let! baton := hash_fold (λ key _ baton,
    diff_func key (match hash_b !! key with
                   | Some _ => svn_hash_diff_key_both
                   | None => svn_hash_diff_key_a
                   end) baton) hash_a baton in
  hash_fold (λ key _ baton,
    match hash_a !! key with
    | Some _ => Ok baton
    | None => diff_func key svn_hash_diff_key_b baton
    end) hash_b baton.

(** [apr_hash_set] on an output that the caller may not want ([NULL]). *)
Definition set_wanted (out : option svn_mergeinfo_t) (path : list byte)
    (rangelist : svn_rangelist_t) : option svn_mergeinfo_t :=
  match out with Some out => Some (<[path := rangelist]> out) | None => None end.

Definition set_nonempty (out : option svn_mergeinfo_t) (path : list byte)
    (rangelist : svn_rangelist_t) : option svn_mergeinfo_t :=
  match rangelist with [] => out | _ => set_wanted out path rangelist end.

Section Mergeinfo.
Context `{Qsort}.

(** The baton's [deleted] and [added] are the state. *)
Definition mergeinfo_hash_diff_cb (from to : svn_mergeinfo_t)
    (consider_inheritance : bool) (path : list byte)
    (status : svn_hash_diff_key_status)
    (cb : option svn_mergeinfo_t * option svn_mergeinfo_t)
    : result (option svn_mergeinfo_t * option svn_mergeinfo_t) :=
  let '(deleted, added) := cb in
  let from_rangelist := default [] (from !! path) in
  let to_rangelist := default [] (to !! path) in
  match status with
  | svn_hash_diff_key_both =>
      let! (deleted_rangelist, added_rangelist) :=
        svn_rangelist_diff from_rangelist to_rangelist consider_inheritance in
      Ok (set_nonempty deleted path deleted_rangelist,
          set_nonempty added path added_rangelist)
  | svn_hash_diff_key_a => Ok (set_wanted deleted path from_rangelist, added)
  | svn_hash_diff_key_b => Ok (deleted, set_wanted added path to_rangelist)
  end.

Definition walk_mergeinfo_hash_for_diff (from to : svn_mergeinfo_t)
    (deleted added : option svn_mergeinfo_t) (consider_inheritance : bool)
    : result (option svn_mergeinfo_t * option svn_mergeinfo_t) :=
  svn_hash_diff from to (mergeinfo_hash_diff_cb from to consider_inheritance)
    (deleted, added).

(** [None] is a [NULL] mergeinfo.  Returns [*deleted] and [*added]. *)
Definition svn_mergeinfo_diff2 (from to : option svn_mergeinfo_t)
    (consider_inheritance : bool) : result (svn_mergeinfo_t * svn_mergeinfo_t) :=
  match from, to with
  | Some from, None => Ok (from, ∅)
  | None, Some to => Ok (∅, to)
  | Some from, Some to =>
      let! (deleted, added) :=
        walk_mergeinfo_hash_for_diff from to (Some ∅) (Some ∅) consider_inheritance in
      Ok (default ∅ deleted, default ∅ added)
  | None, None => Ok (∅, ∅)
  end.

Definition svn_mergeinfo__equals (info1 info2 : svn_mergeinfo_t)
    (consider_inheritance : bool) : result bool :=
  if (size info1 =? size info2)%nat then
    let! (deleted, added) := svn_mergeinfo_diff2 (Some info1) (Some info2)
                               consider_inheritance in
    Ok ((size deleted =? 0)%nat && (size added =? 0)%nat)
  else Ok false.

Definition svn_mergeinfo_remove2 (eraser whiteboard : svn_mergeinfo_t)
    (consider_inheritance : bool) : result svn_mergeinfo_t :=
  let! (deleted, _) :=
    walk_mergeinfo_hash_for_diff whiteboard eraser (Some ∅) None consider_inheritance in
  Ok (default ∅ deleted).

(** ** Merging *)

(** The walk over two sorted hash tables that both
    [svn_mergeinfo_merge2] and [svn_mergeinfo_catalog_merge] contain; they
    differ in how they merge the values of a common key. *)
Fixpoint copy_back {V} (sorted : list (svn_sort__item_t V)) (hash : gmap (list byte) V)
    : gmap (list byte) V :=
  match sorted with
  | [] => hash
  | elt :: sorted => copy_back sorted (<[item_key elt := item_value elt]> hash)
  end.

Fixpoint hash_merge_loop {V} (merge : V → V → result V) (fuel : nat)
    (sorted1 sorted2 : list (svn_sort__item_t V)) (hash : gmap (list byte) V)
    : result (gmap (list byte) V) :=
  match fuel with
  | O => OutOfFuel
  | S fuel =>
    match sorted1, sorted2 with
    | elt1 :: rest1, elt2 :: rest2 =>
        let res := svn_sort_compare_items_as_paths elt1 elt2 in
        if res =? 0 then
          let! v := merge (item_value elt1) (item_value elt2) in
          hash_merge_loop merge fuel rest1 rest2 (<[item_key elt1 := v]> hash)
        else if res <? 0 then hash_merge_loop merge fuel rest1 sorted2 hash
        else hash_merge_loop merge fuel sorted1 rest2
               (<[item_key elt2 := item_value elt2]> hash)
    | _, _ => Ok (copy_back sorted2 hash)
    end
  end.

Definition items_of {V} (hash : gmap (list byte) V) : list (svn_sort__item_t V) :=
  map (λ kv, MkItem kv.1 kv.2) (map_to_list hash).

Definition hash_merge {V} (merge : V → V → result V) (hash changes : gmap (list byte) V)
    : result (gmap (list byte) V) :=
  let sorted1 := svn_sort__hash (items_of hash) svn_sort_compare_items_as_paths in
  let sorted2 := svn_sort__hash (items_of changes) svn_sort_compare_items_as_paths in
  hash_merge_loop merge (S (length sorted1 + length sorted2)) sorted1 sorted2 hash.

Definition svn_mergeinfo_merge2 (mergeinfo changes : svn_mergeinfo_t)
    : result svn_mergeinfo_t :=
  if (size changes =? 0)%nat then Ok mergeinfo
  else hash_merge svn_rangelist_merge2 mergeinfo changes.

Definition svn_mergeinfo_catalog_merge
    (mergeinfo_cat changes_cat : svn_mergeinfo_catalog_t)
    : result svn_mergeinfo_catalog_t :=
  hash_merge svn_mergeinfo_merge2 mergeinfo_cat changes_cat.

Definition svn_rangelist__merge_many (merged_rangelist : svn_rangelist_t)
    (merge_history : svn_mergeinfo_t) : result svn_rangelist_t :=
  hash_fold (λ _ subtree_rangelist merged,
    svn_rangelist_merge2 merged subtree_rangelist) merge_history merged_rangelist.

(** ** Intersection and filters *)

Definition svn_mergeinfo_intersect2 (mergeinfo1 mergeinfo2 : svn_mergeinfo_t)
    (consider_inheritance : bool) : result svn_mergeinfo_t :=
  hash_collect (λ path rangelist1,
    match mergeinfo2 !! path with
    | Some rangelist2 =>
        let! rangelist2 := svn_rangelist_intersect rangelist1 rangelist2
                             consider_inheritance in
        Ok (unless_empty rangelist2)
    | None => Ok None
    end) mergeinfo1.

Definition svn_mergeinfo_inheritable2 (mergeinfo : svn_mergeinfo_t)
    (path : option (list byte)) (start_ end__ : Z) (inheritable_ : bool)
    : result svn_mergeinfo_t :=
  hash_collect (λ key rangelist,
    let! inheritable_rangelist :=
      if match path with
         | None => true
         | Some path => svn_path_compare_paths path key =? 0
         end
      then svn_rangelist_inheritable2 rangelist start_ end__ inheritable_
      else Ok rangelist in
    Ok (unless_empty inheritable_rangelist)) mergeinfo.

Definition svn_mergeinfo__filter_mergeinfo_by_ranges (mergeinfo : svn_mergeinfo_t)
    (youngest_rev oldest_rev : Z) (include_range : bool) : result svn_mergeinfo_t :=
  assert! SVN_IS_VALID_REVNUM youngest_rev in
  assert! SVN_IS_VALID_REVNUM oldest_rev in
  assert! oldest_rev <? youngest_rev in
  let filter_rangelist := svn_rangelist__initialize oldest_rev youngest_rev true in
  hash_collect (λ _ rangelist,
    match rangelist with
    | [] => Ok None
    | _ =>
        let! new_rangelist := rangelist_intersect_or_remove filter_rangelist rangelist
                                (negb include_range) false in
        Ok (unless_empty new_rangelist)
    end) mergeinfo.

Definition svn_mergeinfo__filter_catalog_by_ranges (catalog : svn_mergeinfo_catalog_t)
    (youngest_rev oldest_rev : Z) (include_range : bool)
    : result svn_mergeinfo_catalog_t :=
  hash_collect (λ _ mergeinfo,
    let! filtered_mergeinfo := svn_mergeinfo__filter_mergeinfo_by_ranges mergeinfo
                                 youngest_rev oldest_rev include_range in
    Ok (if (size filtered_mergeinfo =? 0)%nat then None else Some filtered_mergeinfo))
    catalog.
End Mergeinfo.

(** ** Simple transformations *)

(** The hash table owns its rangelists; a copy has the same value. *)
Definition svn_rangelist_dup (rangelist : svn_rangelist_t) : svn_rangelist_t := rangelist.
Definition svn_mergeinfo_dup (mergeinfo : svn_mergeinfo_t) : svn_mergeinfo_t :=
  svn_rangelist_dup <$> mergeinfo.
Definition svn_mergeinfo_catalog_dup (catalog : svn_mergeinfo_catalog_t)
    : svn_mergeinfo_catalog_t := svn_mergeinfo_dup <$> catalog.

Definition svn_mergeinfo__set_inheritance (mergeinfo : svn_mergeinfo_t) (b : bool)
    : svn_mergeinfo_t :=
  (λ rangelist, svn_rangelist__set_inheritance rangelist b) <$> mergeinfo.

(** The pruned mergeinfo, and whether anything was removed. *)
Definition svn_mergeinfo__remove_empty_rangelists (mergeinfo : svn_mergeinfo_t)
    : svn_mergeinfo_t * bool :=
  (omap unless_empty mergeinfo,
   existsb (λ kv, match kv.2 with [] => true | _ => false end) (map_to_list mergeinfo)).

Definition svn_mergeinfo__is_noninheritable (mergeinfo : svn_mergeinfo_t) : bool :=
  existsb (λ kv, existsb (λ range, negb (inheritable range)) kv.2) (map_to_list mergeinfo).

Definition adjust_range (offset : Z) (range : svn_merge_range_t) : option svn_merge_range_t :=
  if (0 <? start range + offset) && (0 <? end_ range + offset)
  then Some (MkRange (if start range + offset <? 0 then 0 else start range + offset)
               (if end_ range + offset <? 0 then 0 else end_ range + offset)
               (inheritable range))
  else None.

Definition svn_mergeinfo__adjust_mergeinfo_rangelists (mergeinfo : svn_mergeinfo_t)
    (offset : Z) : svn_mergeinfo_t :=
  omap (λ rangelist, unless_empty (omap (adjust_range offset) rangelist)) mergeinfo.

(** Returns [*youngest_rev] and [*oldest_rev]. *)
Definition svn_mergeinfo__get_range_endpoints (mergeinfo : svn_mergeinfo_t) : result (Z * Z) :=
  hash_fold (λ _ rangelist '(youngest_rev, oldest_rev),
    match last rangelist, head rangelist with
    | Some newest, Some oldest =>
        Ok (if negb (SVN_IS_VALID_REVNUM youngest_rev) || (youngest_rev <? end_ newest)
            then end_ newest else youngest_rev,
            if negb (SVN_IS_VALID_REVNUM oldest_rev) || (start oldest <? oldest_rev)
            then start oldest else oldest_rev)
    | _, _ => Ok (youngest_rev, oldest_rev)
    end) mergeinfo (SVN_INVALID_REVNUM, SVN_INVALID_REVNUM).

Record svn_location_segment_t := MkSegment {
  range_start : Z;
  range_end : Z;
  segment_path : option (list byte);
}.

(** One iteration of [svn_mergeinfo__mergeinfo_from_segments]. *)
Definition add_segment (mergeinfo : svn_mergeinfo_t) (segment : svn_location_segment_t)
    : svn_mergeinfo_t :=
  match segment_path segment with
  | None => mergeinfo
  | Some path =>
      let source_path := SLASH :: path in
      let path_ranges := default [] (mergeinfo !! source_path) in
      if (range_start segment =? 0) && (range_end segment =? 0) then mergeinfo
      else <[source_path :=
               path_ranges ++ [MkRange (Z.max (range_start segment - 1) 0)
                                 (range_end segment) true]]> mergeinfo
  end.

Definition svn_mergeinfo__mergeinfo_from_segments (segments : list svn_location_segment_t)
    : svn_mergeinfo_t :=
  fold_left add_segment segments ∅.

(** ** Catalogs and formatted strings *)

Definition svn_mergeinfo__remove_prefix_from_catalog (in_catalog : svn_mergeinfo_catalog_t)
    (prefix_path : list byte) : result svn_mergeinfo_catalog_t :=
  assert! deref prefix_path =b? SLASH in
  hash_fold (λ original_path value out_catalog,
    match svn_fspath__skip_ancestor prefix_path original_path with
    | None => Aborted
    | Some new_path => Ok (<[new_path := value]> out_catalog)
    end) in_catalog ∅.

Definition svn_mergeinfo__add_suffix_to_mergeinfo (mergeinfo : svn_mergeinfo_t)
    (suffix_relpath : list byte) : result svn_mergeinfo_t :=
  assert! relpath_is_canonical suffix_relpath in
  hash_fold (λ fspath rangelist out,
    Ok (<[svn_fspath__join fspath suffix_relpath := rangelist]> out)) mergeinfo ∅.

(** Builds without [SVN_DEBUG]. *)
Definition svn_mergeinfo__to_formatted_string `{Qsort} (mergeinfo : option svn_mergeinfo_t)
    (prefix : option (list byte)) : list byte :=
  match mergeinfo with
  | Some mergeinfo =>
      if (size mergeinfo =? 0)%nat then []
      else mergeinfo_to_stringbuf mergeinfo (Some (default [] prefix)) ++ [NEWLINE]
  | None => []
  end.

Definition svn_mergeinfo__catalog_to_formatted_string `{Qsort}
    (catalog : option svn_mergeinfo_catalog_t) (key_prefix val_prefix : option (list byte))
    : list byte :=
  match catalog with
  | Some catalog =>
      if (size catalog =? 0)%nat then [NEWLINE]
      else concat (map (λ elt,
             default [] key_prefix ++ item_key elt ++ [NEWLINE]
             ++ mergeinfo_to_stringbuf (item_value elt) (Some (default [] val_prefix))
             ++ [NEWLINE])
             (svn_sort__hash (items_of catalog) svn_sort_compare_items_as_paths))
  | None => [NEWLINE]
  end.

(** ** Inheritance words *)

Inductive svn_mergeinfo_inheritance_t :=
  | svn_mergeinfo_explicit
  | svn_mergeinfo_inherited
  | svn_mergeinfo_nearest_ancestor.

Definition svn_inheritance_to_word (inherit : svn_mergeinfo_inheritance_t) : list byte :=
  String.list_byte_of_string
    match inherit with
    | svn_mergeinfo_inherited => "inherited"
    | svn_mergeinfo_nearest_ancestor => "nearest-ancestor"
    | svn_mergeinfo_explicit => "explicit"
    end.

Definition svn_inheritance_from_word (word : list byte) : svn_mergeinfo_inheritance_t :=
  if bool_decide (word = String.list_byte_of_string "inherited")
  then svn_mergeinfo_inherited
  else if bool_decide (word = String.list_byte_of_string "nearest-ancestor")
  then svn_mergeinfo_nearest_ancestor
  else svn_mergeinfo_explicit.
