(* ===== verification/MergeinfoAlgebra.v ===== *)
(** * Correctness of the mergeinfo operations

    Mergeinfo denotes, for every repository path, a set of revisions; the
    operations of [Mergeinfo] are union, difference, intersection and
    restriction of these sets. *)
From S2P Require Import Prelude MergeRange RangelistMerge RangelistUnion Rangelist RangelistLoop RangelistAlgebra Paths Sorts MergeinfoText Mergeinfo.

Implicit Types (path : list byte) (rangelist : svn_rangelist_t).

(** ** Folds over hash tables *)

Section Fold.
Context {V B : Type} (f : list byte → V → B → result B) (hash : gmap (list byte) V).
Context (P : gmap (list byte) V → B → Prop).
Hypothesis Hstep : ∀ m key val s,
  hash !! key = Some val → m !! key = None → m ⊆ hash → P m s →
  ∃ s', f key val s = Ok s' ∧ P (<[key := val]> m) s'.

Lemma fold_entries_ind entries m s :
  NoDup entries.*1 →
  (∀ key val, (key, val) ∈ entries → hash !! key = Some val ∧ m !! key = None) →
  m ⊆ hash → P m s →
  ∃ s', fold_entries f entries s = Ok s' ∧ P (list_to_map entries ∪ m) s'.
Proof.
  revert m s; induction entries as [|[key val] entries IH]; intros m s Hnd Hin Hsub HP; simpl.
  { exists s. split; [done|]. by rewrite map_empty_union. }
  apply NoDup_cons in Hnd as [Hnotin Hnd].
  destruct (Hin key val) as [Hk Hm]; [by left|].
  destruct (Hstep m key val s Hk Hm Hsub HP) as (s1 & -> & HP1). cbn [rbind].
  assert (list_to_map (M := gmap _ V) entries !! key = None) as Hnone
    by by apply not_elem_of_list_to_map_1.
  destruct (IH (<[key := val]> m) s1) as (s2 & -> & HP2); [done| |by apply insert_subseteq_l|done|].
  - intros k v Hkv. rewrite lookup_insert_ne; [by apply Hin; right|].
    intros ->. apply Hnotin. by apply list_elem_of_fmap_2' with (k, v).
  - exists s2. split; [done|]. by rewrite <- insert_union_l, insert_union_r by done.
Qed.

Lemma hash_fold_ind s : P ∅ s → ∃ s', hash_fold f hash s = Ok s' ∧ P hash s'.
Proof.
  intros HP. destruct (fold_entries_ind (map_to_list hash) ∅ s) as (s' & Hf & HP').
  - apply NoDup_fst_map_to_list.
  - intros k v Hkv%elem_of_map_to_list. split; [done|apply lookup_empty].
  - apply map_empty_subseteq.
  - done.
  - exists s'. split; [done|]. by rewrite map_union_empty, list_to_map_to_list in HP'.
Qed.
End Fold.

(** The collecting loop, key by key. *)
Lemma hash_collect_ok {V W} (g : list byte → V → result (option W)) hash :
  (∀ key val, hash !! key = Some val → ∃ w, g key val = Ok w) →
  ∃ out,
    hash_collect g hash = Ok out
    ∧ ∀ key, match hash !! key with
             | Some val => g key val = Ok (out !! key)
             | None => out !! key = None
             end.
Proof.
  intros Hg. apply (hash_fold_ind _ hash (λ m out, ∀ key,
    match m !! key with Some val => g key val = Ok (out !! key) | None => out !! key = None end)).
  - intros m key val out Hk Hm _ HP. destruct (Hg key val Hk) as [w Hw]. rewrite Hw.
    eexists. split; [done|]. intros k. destruct (decide (k = key)) as [->|Hne].
    + rewrite lookup_insert_eq, Hw. f_equal. specialize (HP key). rewrite Hm in HP.
      destruct w; [by rewrite lookup_insert_eq|done].
    + rewrite lookup_insert_ne by done. specialize (HP k).
      destruct w; [by rewrite lookup_insert_ne by done|done].
  - intros key. by rewrite !lookup_empty.
Qed.

(** ** What mergeinfo means *)

Definition ranges_of (mergeinfo : svn_mergeinfo_t) path : svn_rangelist_t :=
  default [] (mergeinfo !! path).

Definition path_covers (mergeinfo : svn_mergeinfo_t) path (rev : Z) : bool :=
  covers (ranges_of mergeinfo path) rev.

(** Valid mergeinfo: no empty rangelist, and all of them well formed. *)
Definition mergeinfo_wf (mergeinfo : svn_mergeinfo_t) : Prop :=
  ∀ path rangelist, mergeinfo !! path = Some rangelist →
    rangelist ≠ [] ∧ rangelist_wf rangelist = true.

Lemma mergeinfo_wf_insert mergeinfo path rangelist :
  mergeinfo_wf mergeinfo → rangelist ≠ [] → rangelist_wf rangelist = true →
  mergeinfo_wf (<[path := rangelist]> mergeinfo).
Proof. intros Hm Hne Hwf p rl [[_ <-]|[_ Hp]]%lookup_insert_Some; [done|eauto]. Qed.

Lemma mergeinfo_wf_empty : mergeinfo_wf ∅.
Proof. intros p rl. by rewrite lookup_empty. Qed.

Lemma ranges_of_wf mergeinfo path :
  mergeinfo_wf mergeinfo → rangelist_wf (ranges_of mergeinfo path) = true.
Proof.
  intros Hm. unfold ranges_of. destruct (mergeinfo !! path) eqn:Hp; [|done].
  by destruct (Hm _ _ Hp).
Qed.

Lemma covers_nonempty lo rangelist :
  wf_from lo rangelist = true → (∀ rev, covers rangelist rev = false) → rangelist = [].
Proof.
  destruct rangelist as [|r rl]; [done|]. simpl. intros Hwf Hc.
  specialize (Hc (end_ r)). unfold in_range in Hc. lia.
Qed.

(** The domain of valid mergeinfo: the paths that have revisions. *)
Lemma mergeinfo_wf_dom mergeinfo path :
  mergeinfo_wf mergeinfo →
  mergeinfo !! path = None ↔ ∀ rev, path_covers mergeinfo path rev = false.
Proof.
  intros Hm. unfold path_covers, ranges_of. split; [by intros ->|].
  destruct (mergeinfo !! path) as [rl|] eqn:Hp; [|done]. simpl. intros Hc.
  destruct (Hm _ _ Hp) as [Hne Hwf]. by destruct Hne; apply (covers_nonempty 0).
Qed.

Lemma unless_empty_ranges rangelist : default [] (unless_empty rangelist) = rangelist.
Proof. by destruct rangelist. Qed.

(** ** Difference *)

(** An output table holds, for the paths that are done, what [spec] asks. *)
Definition filled (spec : list byte → svn_rangelist_t → Prop) (finished : list byte → bool)
    (out : option svn_mergeinfo_t) : Prop :=
  match out with
  | None => True
  | Some out =>
      mergeinfo_wf out
      ∧ ∀ path, if finished path then spec path (ranges_of out path) else out !! path = None
  end.

Lemma filled_set (spec : list byte → svn_rangelist_t → Prop)
    (finished finished' : list byte → bool) out path rangelist :
  filled spec finished out → finished path = false → finished' path = true →
  (∀ path', path' ≠ path → finished' path' = finished path') →
  rangelist_wf rangelist = true → spec path rangelist →
  filled spec finished' (set_nonempty out path rangelist)
  ∧ (is_Some (set_nonempty out path rangelist) ↔ is_Some out).
Proof.
  intros Hf Hp Hp' Hsame Hwf Hs. unfold set_nonempty, set_wanted, filled in *.
  destruct out as [out|]; [|by destruct rangelist].
  destruct Hf as [Hmwf Hf]. split; [|by destruct rangelist].
  destruct rangelist as [|r rl].
  - split; [done|]. intros path'. destruct (decide (path' = path)) as [->|Hne].
    + rewrite Hp'. unfold ranges_of. specialize (Hf path). rewrite Hp in Hf. by rewrite Hf.
    + rewrite Hsame by done. apply Hf.
  - split; [by apply mergeinfo_wf_insert|].
    intros path'. unfold ranges_of in *. destruct (decide (path' = path)) as [->|Hne].
    + by rewrite Hp', lookup_insert_eq.
    + rewrite Hsame, lookup_insert_ne by done. apply Hf.
Qed.

Lemma set_wanted_nonempty out path rangelist :
  rangelist ≠ [] → set_wanted out path rangelist = set_nonempty out path rangelist.
Proof. by destruct rangelist. Qed.

Section Diff.
Context `{Qsort} (from to : svn_mergeinfo_t) (ci : bool).
Hypothesis Hfrom : mergeinfo_wf from.
Hypothesis Hto : mergeinfo_wf to.
Hypothesis Hci : ci = true →
  ∀ path, compatible (ranges_of from path) (ranges_of to path)
        ∧ compatible (ranges_of to path) (ranges_of from path).

Definition minus_spec (m1 m2 : svn_mergeinfo_t) path rangelist : Prop :=
  ∀ rev, covers rangelist rev = path_covers m1 path rev && negb (path_covers m2 path rev).

Lemma rangelist_diff_ok path :
  ∃ deleted added,
    svn_rangelist_diff (ranges_of from path) (ranges_of to path) ci = Ok (deleted, added)
    ∧ rangelist_wf deleted = true ∧ rangelist_wf added = true
    ∧ minus_spec from to path deleted ∧ minus_spec to from path added.
Proof.
  unfold svn_rangelist_diff, svn_rangelist_remove.
  destruct (intersect_or_remove_ok true ci (ranges_of to path) (ranges_of from path))
    as (d & -> & Hd & _ & Hdc & _);
    [by apply ranges_of_wf..|intros ?; by apply Hci|]. cbn [rbind].
  destruct (intersect_or_remove_ok true ci (ranges_of from path) (ranges_of to path))
    as (a & -> & Ha & _ & Hac & _);
    [by apply ranges_of_wf..|intros ?; by apply Hci|]. cbn [rbind].
  by exists d, a.
Qed.

Lemma minus_spec_alone (m1 m2 : svn_mergeinfo_t) path :
  m2 !! path = None → minus_spec m1 m2 path (ranges_of m1 path).
Proof.
  intros Hn rev. unfold path_covers, ranges_of. rewrite Hn. simpl. by rewrite andb_true_r.
Qed.

(** The state of the walk after the entries of [m] (of [from], then of [to]). *)
Definition walk_inv (f1 f2 : list byte → bool)
    (s0 s : option svn_mergeinfo_t * option svn_mergeinfo_t) : Prop :=
  filled (minus_spec from to) f1 s.1 ∧ filled (minus_spec to from) f2 s.2
  ∧ (is_Some s.1 ↔ is_Some s0.1) ∧ (is_Some s.2 ↔ is_Some s0.2).

Definition present (m : svn_mergeinfo_t) path : bool := bool_decide (is_Some (m !! path)).

Lemma present_insert m path rangelist path' :
  path' ≠ path → present (<[path := rangelist]> m) path' = present m path'.
Proof. intros Hne. unfold present. by rewrite lookup_insert_ne. Qed.

Lemma present_insert_eq m path rangelist : present (<[path := rangelist]> m) path = true.
Proof. unfold present. rewrite lookup_insert_eq. by apply bool_decide_eq_true. Qed.

Lemma present_None m path : m !! path = None → present m path = false.
Proof. intros Hn. unfold present. rewrite Hn. apply bool_decide_eq_false. by intros []. Qed.

Lemma present_Some m path rangelist : m !! path = Some rangelist → present m path = true.
Proof. intros Hn. unfold present. rewrite Hn. by apply bool_decide_eq_true. Qed.

Lemma ranges_of_Some m path rangelist :
  m !! path = Some rangelist → default [] (m !! path) = ranges_of m path.
Proof. done. Qed.

Lemma walk_from_step s0 m path rangelist s :
  from !! path = Some rangelist → m !! path = None →
  walk_inv (present m) (λ p, present m p && present to p) s0 s →
  ∃ s',
    mergeinfo_hash_diff_cb from to ci path
      (match to !! path with
       | Some _ => svn_hash_diff_key_both
       | None => svn_hash_diff_key_a
       end) s = Ok s'
    ∧ walk_inv (present (<[path := rangelist]> m))
        (λ p, present (<[path := rangelist]> m) p && present to p) s0 s'.
Proof.
  intros Hf Hm (Hd & Ha & Hsd & Hsa). destruct s as [d a]. simpl in *.
  unfold mergeinfo_hash_diff_cb.
  assert (Hsame : ∀ p, p ≠ path → present (<[path := rangelist]> m) p = present m p)
    by (intros; by apply present_insert).
  destruct (to !! path) as [to_rl|] eqn:Ht.
  - destruct (rangelist_diff_ok path) as (dl & ad & He & ? & ? & ? & ?).
    unfold ranges_of in He. rewrite Ht in He. simpl in He. simpl. rewrite He. cbn [rbind].
    eexists. split; [done|].
    destruct (filled_set (minus_spec from to) (present m)
                (present (<[path := rangelist]> m)) d path dl) as [Hd' Hsd'];
      [done|by apply present_None|apply present_insert_eq|done..|].
    destruct (filled_set (minus_spec to from) (λ p, present m p && present to p)
                (λ p, present (<[path := rangelist]> m) p && present to p) a path ad)
      as [Ha' Hsa']; [done|by rewrite present_None| | |done..|].
    + by rewrite present_insert_eq, (present_Some _ _ _ Ht).
    + intros p Hp. by rewrite Hsame.
    + split; [done|]. split; [done|]. simpl. by rewrite Hsd', Hsa'.
  - destruct (Hfrom _ _ Hf) as [Hne Hwf].
    eexists. split; [done|]. simpl.
    assert (rangelist = ranges_of from path) as Hr by (unfold ranges_of; by rewrite Hf).
    rewrite Hf. simpl. rewrite set_wanted_nonempty by done.
    destruct (filled_set (minus_spec from to) (present m)
                (present (<[path := rangelist]> m)) d path rangelist) as [Hd' Hsd'];
      [done|by apply present_None|apply present_insert_eq|done|done| |].
    { rewrite Hr. by apply minus_spec_alone. }
    split; [done|]. split; [|by rewrite Hsd'].
    simpl. unfold filled in *. destruct a as [a|]; [|done].
    destruct Ha as [Hw Ha]. split; [done|]. intros p. specialize (Ha p).
    destruct (decide (p = path)) as [->|Hp]; [|by rewrite Hsame].
    rewrite (present_None to path Ht), andb_false_r in *. done.
Qed.

Lemma walk_to_step s0 m path rangelist s :
  to !! path = Some rangelist → m !! path = None →
  walk_inv (present from) (λ p, present to p && (present from p || present m p)) s0 s →
  ∃ s',
    match from !! path with
    | Some _ => Ok s
    | None => mergeinfo_hash_diff_cb from to ci path svn_hash_diff_key_b s
    end = Ok s'
    ∧ walk_inv (present from)
        (λ p, present to p && (present from p || present (<[path := rangelist]> m) p)) s0 s'.
Proof.
  intros Ht Hm (Hd & Ha & Hsd & Hsa). destruct s as [d a]. simpl in *.
  assert (Hsame : ∀ p, p ≠ path → present (<[path := rangelist]> m) p = present m p)
    by (intros; by apply present_insert).
  destruct (from !! path) as [from_rl|] eqn:Hf.
  - eexists. split; [done|]. split; [done|]. split; [|done]. simpl.
    unfold filled in *. destruct a as [a|]; [|done].
    destruct Ha as [Hw Ha]. split; [done|]. intros p. specialize (Ha p).
    destruct (decide (p = path)) as [->|Hp]; [|by rewrite Hsame].
    by rewrite (present_Some _ _ _ Hf) in *.
  - destruct (Hto _ _ Ht) as [Hne Hwf].
    eexists. split; [done|]. unfold mergeinfo_hash_diff_cb. rewrite Ht. simpl.
    rewrite set_wanted_nonempty by done.
    assert (rangelist = ranges_of to path) as Hr by (unfold ranges_of; by rewrite Ht).
    destruct (filled_set (minus_spec to from)
                (λ p, present to p && (present from p || present m p))
                (λ p, present to p && (present from p || present (<[path := rangelist]> m) p))
                a path rangelist) as [Ha' Hsa']; [done| | | |done| |].
    + by rewrite (present_None from path Hf), (present_None m path Hm), andb_false_r.
    + by rewrite (present_Some to path _ Ht), present_insert_eq, orb_true_r.
    + intros p Hp. by rewrite Hsame.
    + rewrite Hr. by apply minus_spec_alone.
    + split; [done|]. split; [done|]. simpl. by rewrite Hsa'.
Qed.

(** What the walk leaves in the outputs that are wanted. *)
Definition walk_result (spec : list byte → svn_rangelist_t → Prop)
    (out0 out : option svn_mergeinfo_t) : Prop :=
  match out0, out with
  | None, None => True
  | Some _, Some out => mergeinfo_wf out ∧ ∀ path, spec path (ranges_of out path)
  | _, _ => False
  end.

Lemma walk_result_filled (spec : list byte → svn_rangelist_t → Prop)
    (finished : list byte → bool) out0 out :
  filled spec finished out → (is_Some out ↔ is_Some out0) →
  (∀ path, finished path = false → spec path []) → walk_result spec out0 out.
Proof.
  unfold filled, walk_result. intros Hf Hs Hnone. destruct out as [out|], out0 as [out0|].
  - destruct Hf as [Hw Hf]. split; [done|]. intros path. specialize (Hf path).
    destruct (finished path) eqn:Hp; [done|]. unfold ranges_of. rewrite Hf. by apply Hnone.
  - destruct (proj1 Hs); [by eexists|done].
  - destruct (proj2 Hs); [by eexists|done].
  - done.
Qed.

Lemma filled_start (spec : list byte → svn_rangelist_t → Prop) (out : option svn_mergeinfo_t) :
  default ∅ out = ∅ → filled spec (λ _, false) out.
Proof.
  unfold filled. destruct out as [out|]; [|done]. simpl. intros ->.
  split; [apply mergeinfo_wf_empty|]. intros path. apply lookup_empty.
Qed.

Lemma filled_ext (spec : list byte → svn_rangelist_t → Prop)
    (f1 f2 : list byte → bool) out :
  (∀ path, f1 path = f2 path) → filled spec f1 out → filled spec f2 out.
Proof.
  intros He. unfold filled. destruct out as [out|]; [|done].
  intros [Hw Hf]. split; [done|]. intros path. rewrite <- He. apply Hf.
Qed.

Lemma walk_ok deleted added :
  default ∅ deleted = ∅ → default ∅ added = ∅ →
  ∃ deleted' added',
    walk_mergeinfo_hash_for_diff from to deleted added ci = Ok (deleted', added')
    ∧ walk_result (minus_spec from to) deleted deleted'
    ∧ walk_result (minus_spec to from) added added'.
Proof.
  intros Hd Ha. unfold walk_mergeinfo_hash_for_diff, svn_hash_diff.
  destruct (hash_fold_ind (λ key (_ : svn_rangelist_t) baton,
      mergeinfo_hash_diff_cb from to ci key
        (match to !! key with
         | Some _ => svn_hash_diff_key_both | None => svn_hash_diff_key_a end) baton) from
      (λ m, walk_inv (present m) (λ p, present m p && present to p) (deleted, added)))
    with (s := (deleted, added)) as (s1 & -> & Hs1).
  { intros m key val s Hk Hm _. by apply walk_from_step. }
  { split; [|split; [|done]]; (eapply filled_ext; [|by apply filled_start]);
      intros p; simpl; by rewrite present_None by apply lookup_empty. }
  cbn [rbind].
  destruct (hash_fold_ind (λ key (_ : svn_rangelist_t) baton,
      match from !! key with
      | Some _ => Ok baton
      | None => mergeinfo_hash_diff_cb from to ci key svn_hash_diff_key_b baton
      end) to
      (λ m, walk_inv (present from) (λ p, present to p && (present from p || present m p))
              (deleted, added)))
    with (s := s1) as ([d a] & -> & Hd' & Ha' & Hsd & Hsa).
  { intros m key val s Hk Hm _. by apply walk_to_step. }
  { destruct Hs1 as (? & Hf & ? & ?). split; [done|]. split; [|done].
    eapply filled_ext; [|exact Hf]. intros p. simpl.
    rewrite (present_None ∅) by apply lookup_empty. by rewrite orb_false_r, andb_comm. }
  exists d, a. split; [done|]. simpl in *. split.
  - eapply walk_result_filled; [done..|]. intros path Hp rev.
    unfold present in Hp. apply bool_decide_eq_false in Hp.
    unfold path_covers, ranges_of. destruct (from !! path); [by destruct Hp; eexists|done].
  - eapply walk_result_filled; [done..|]. intros path Hp rev. simpl in Hp.
    unfold present in Hp. unfold path_covers, ranges_of.
    destruct (to !! path) as [x|]; [|done].
    rewrite (bool_decide_eq_true_2 (is_Some (Some x))) in Hp by by eexists.
    by rewrite andb_true_l, orb_true_r in Hp.
Qed.
End Diff.

(** C31: svn_mergeinfo_diff2 of two well-formed mergeinfos yields well-
    formed deleted and added mergeinfos: for every path, deleted has exactly
    the revisions only the first has, and added those only the second has.
    When inheritance is considered this is for mergeinfos in which no
    revision of a path has different inheritability in the two
    (svn_rangelist_intersect_mixed shows what happens otherwise). *)
Theorem svn_mergeinfo_diff2_spec `{Qsort} (from to : svn_mergeinfo_t) (ci : bool) :
  mergeinfo_wf from → mergeinfo_wf to →
  (ci = true → ∀ path,
     compatible (ranges_of from path) (ranges_of to path)
     ∧ compatible (ranges_of to path) (ranges_of from path)) →
  ∃ deleted added,
    svn_mergeinfo_diff2 (Some from) (Some to) ci = Ok (deleted, added)
    ∧ mergeinfo_wf deleted ∧ mergeinfo_wf added
    ∧ ∀ path rev,
        path_covers deleted path rev
        = path_covers from path rev && negb (path_covers to path rev)
        ∧ path_covers added path rev
          = path_covers to path rev && negb (path_covers from path rev).
Proof.
  intros Hf Ht Hc. unfold svn_mergeinfo_diff2.
  destruct (walk_ok from to ci Hf Ht Hc (Some ∅) (Some ∅))
    as ([d|] & [a|] & -> & Hd & Ha); try done.
  destruct Hd as [? Hd], Ha as [? Ha]. cbn [rbind default from_option id]. exists d, a.
  do 3 (split; [done|]). intros path rev. split; [apply Hd|apply Ha].
Qed.

Lemma svn_mergeinfo_diff2_spec_witness :
  let from : svn_mergeinfo_t := {[ [SLASH] := [MkRange 0 4 true] ]} in
  let to : svn_mergeinfo_t := {[ [SLASH] := [MkRange 2 6 false] ]} in
  ∃ deleted added,
    svn_mergeinfo_diff2 (Some from) (Some to) false = Ok (deleted, added)
    ∧ mergeinfo_wf deleted ∧ mergeinfo_wf added
    ∧ ∀ path rev,
        path_covers deleted path rev
        = path_covers from path rev && negb (path_covers to path rev)
        ∧ path_covers added path rev
          = path_covers to path rev && negb (path_covers from path rev).
Proof.
  apply svn_mergeinfo_diff2_spec; [..|done];
    intros path rl [_ <-]%lookup_singleton_Some; done.
Defined.

(** svn_mergeinfo__equals, ignoring inheritance, decides whether two
    mergeinfos cover the same revisions of the same paths. *)
Theorem svn_mergeinfo__equals_spec `{Qsort} (info1 info2 : svn_mergeinfo_t) :
  mergeinfo_wf info1 → mergeinfo_wf info2 →
  ∃ is_equal,
    svn_mergeinfo__equals info1 info2 false = Ok is_equal
    ∧ (is_equal = true ↔
       ∀ path rev, path_covers info1 path rev = path_covers info2 path rev).
Proof.
  intros H1 H2. unfold svn_mergeinfo__equals, svn_mergeinfo_diff2.
  destruct (Nat.eqb_spec (size info1) (size info2)) as [Hs|Hs].
  - destruct (walk_ok info1 info2 false H1 H2) with (deleted := Some (∅ : svn_mergeinfo_t))
      (added := Some (∅ : svn_mergeinfo_t)) as ([d|] & [a|] & -> & Hd & Ha); try done.
    destruct Hd as [Hdw Hd], Ha as [Haw Ha]. cbn [rbind default from_option id].
    eexists. split; [done|]. rewrite andb_true_iff, !Nat.eqb_eq, !map_size_empty_iff.
    split.
    + intros [-> ->] path rev. specialize (Hd path rev). specialize (Ha path rev).
      unfold ranges_of in Hd, Ha. rewrite lookup_empty in Hd, Ha. simpl in *.
      destruct (path_covers info1 path rev), (path_covers info2 path rev); done.
    + intros He. split; apply map_eq; intros path; rewrite lookup_empty;
        apply mergeinfo_wf_dom; [done| |done|]; intros rev.
      * etrans; [apply Hd|]. rewrite He. apply andb_negb_r.
      * etrans; [apply Ha|]. rewrite He. apply andb_negb_r.
  - eexists. split; [done|]. split; [done|]. intros He. destruct Hs.
    rewrite <- !(size_dom (D := gset (list byte))). f_equal. apply set_eq. intros path.
    rewrite !elem_of_dom, <- !not_eq_None_Some.
    rewrite !mergeinfo_wf_dom by done. by setoid_rewrite He.
Qed.

Lemma svn_mergeinfo__equals_spec_witness :
  let info1 : svn_mergeinfo_t := {[ [SLASH] := [MkRange 0 4 true] ]} in
  let info2 : svn_mergeinfo_t := {[ [SLASH] := [MkRange 0 2 false; MkRange 2 4 true] ]} in
  ∃ is_equal,
    svn_mergeinfo__equals info1 info2 false = Ok is_equal
    ∧ (is_equal = true ↔
       ∀ path rev, path_covers info1 path rev = path_covers info2 path rev).
Proof.
  apply svn_mergeinfo__equals_spec;
    intros path rl [_ <-]%lookup_singleton_Some; done.
Defined.

(** ** Intersection, removal and restriction *)

(** svn_mergeinfo_intersect2 and svn_mergeinfo_remove2, ignoring
    inheritance, split a mergeinfo: path by path the first holds the
    revisions that both mergeinfos have and the second those that only the
    first one has. *)
Theorem svn_mergeinfo_intersect_remove_spec `{Qsort} (mergeinfo1 mergeinfo2 : svn_mergeinfo_t) :
  mergeinfo_wf mergeinfo1 → mergeinfo_wf mergeinfo2 →
  ∃ common rest,
    svn_mergeinfo_intersect2 mergeinfo1 mergeinfo2 false = Ok common
    ∧ svn_mergeinfo_remove2 mergeinfo2 mergeinfo1 false = Ok rest
    ∧ mergeinfo_wf common ∧ mergeinfo_wf rest
    ∧ ∀ path rev,
        path_covers common path rev
        = path_covers mergeinfo1 path rev && path_covers mergeinfo2 path rev
        ∧ path_covers rest path rev
          = path_covers mergeinfo1 path rev && negb (path_covers mergeinfo2 path rev).
Proof.
  intros H1 H2.
  unfold svn_mergeinfo_intersect2, svn_mergeinfo_remove2, svn_rangelist_intersect.
  destruct (walk_ok mergeinfo1 mergeinfo2 false H1 H2) with (deleted := Some (∅ : svn_mergeinfo_t))
    (added := None : option svn_mergeinfo_t) as ([rest|] & a & -> & Hd & _); try done.
  destruct Hd as [Hw Hd]. cbn [rbind default from_option id].
  set (g := λ path rangelist1, match mergeinfo2 !! path with
            | Some rangelist2 => _ | None => _ end).
  assert (Hg : ∀ path rl1, mergeinfo1 !! path = Some rl1 → ∃ w, g path rl1 = Ok w
    ∧ (w ≠ Some []) ∧ rangelist_wf (default [] w) = true
    ∧ ∀ rev, covers (default [] w) rev
             = path_covers mergeinfo1 path rev && path_covers mergeinfo2 path rev).
  { intros path rl1 Hp. unfold g, path_covers, ranges_of. rewrite Hp.
    destruct (mergeinfo2 !! path) as [rl2|] eqn:Hp2; simpl.
    - destruct (intersect_or_remove_ok false false rl1 rl2) as (o & -> & Ho & _ & Hoc & _);
        [by apply (H1 path)|by apply (H2 path)|done|]. cbn [rbind].
      eexists. split; [done|]. rewrite unless_empty_ranges. split; [by destruct o|done].
    - eexists. split; [done|]. split; [done|]. split; [done|]. intros rev.
      by rewrite andb_false_r. }
  destruct (hash_collect_ok g mergeinfo1) as (common & -> & Hc).
  { intros path rl1 Hp. destruct (Hg path rl1 Hp) as (w & ? & _). by exists w. }
  exists common, rest. split; [done|]. split; [done|].
  assert (Hcommon : ∀ path, common !! path ≠ Some []
    ∧ rangelist_wf (ranges_of common path) = true
    ∧ ∀ rev, path_covers common path rev
             = path_covers mergeinfo1 path rev && path_covers mergeinfo2 path rev).
  { intros path. specialize (Hc path). destruct (mergeinfo1 !! path) as [rl1|] eqn:Hp.
    - destruct (Hg path rl1 Hp) as (w & Hw' & ? & ? & ?).
      unfold path_covers, ranges_of in *. rewrite Hw' in Hc. injection Hc as <-. done.
    - unfold path_covers, ranges_of. by rewrite Hc, Hp. }
  split; [|split; [done|]].
  - intros path rl Hp. destruct (Hcommon path) as (Hne & Hwf & _).
    unfold ranges_of in Hwf. rewrite Hp in Hne, Hwf. split; [congruence|done].
  - intros path rev. split; [apply Hcommon|apply Hd].
Qed.

Lemma svn_mergeinfo_intersect_remove_spec_witness :
  let mergeinfo1 : svn_mergeinfo_t := {[ [SLASH] := [MkRange 0 4 true] ]} in
  let mergeinfo2 : svn_mergeinfo_t := {[ [SLASH] := [MkRange 2 6 false] ]} in
  ∃ common rest,
    svn_mergeinfo_intersect2 mergeinfo1 mergeinfo2 false = Ok common
    ∧ svn_mergeinfo_remove2 mergeinfo2 mergeinfo1 false = Ok rest
    ∧ mergeinfo_wf common ∧ mergeinfo_wf rest
    ∧ ∀ path rev,
        path_covers common path rev
        = path_covers mergeinfo1 path rev && path_covers mergeinfo2 path rev
        ∧ path_covers rest path rev
          = path_covers mergeinfo1 path rev && negb (path_covers mergeinfo2 path rev).
Proof.
  apply svn_mergeinfo_intersect_remove_spec;
    intros path rl [_ <-]%lookup_singleton_Some; done.
Defined.

(** svn_mergeinfo__filter_mergeinfo_by_ranges keeps, path by path, exactly
    the revisions inside (or, for an excluding filter, outside) the half-
    open range of revisions. *)
Theorem svn_mergeinfo__filter_by_ranges_spec `{Qsort} (mergeinfo : svn_mergeinfo_t)
    (youngest_rev oldest_rev : Z) (include_range : bool) :
  mergeinfo_wf mergeinfo → 0 <= oldest_rev < youngest_rev →
  ∃ filtered,
    svn_mergeinfo__filter_mergeinfo_by_ranges mergeinfo youngest_rev oldest_rev include_range
    = Ok filtered
    ∧ mergeinfo_wf filtered
    ∧ ∀ path rev,
        path_covers filtered path rev
        = path_covers mergeinfo path rev
          && Bool.eqb include_range ((oldest_rev <? rev) && (rev <=? youngest_rev)).
Proof.
  intros Hm Hr. unfold svn_mergeinfo__filter_mergeinfo_by_ranges, guarded, SVN_IS_VALID_REVNUM.
  if_true by lia. if_true by lia. if_true by lia.
  set (g := λ _ rangelist, match rangelist with [] => Ok None | _ => _ end).
  assert (Hg : ∀ path rl, mergeinfo !! path = Some rl → ∃ w, g path rl = Ok w
    ∧ (w ≠ Some []) ∧ rangelist_wf (default [] w) = true
    ∧ ∀ rev, covers (default [] w) rev = path_covers mergeinfo path rev
        && Bool.eqb include_range ((oldest_rev <? rev) && (rev <=? youngest_rev))).
  { intros path rl Hp. unfold g, path_covers, ranges_of. rewrite Hp. simpl.
    destruct (Hm path rl Hp) as [Hne Hwf]. destruct rl as [|r rl]; [done|].
    destruct (intersect_or_remove_ok (negb include_range) false
      (svn_rangelist__initialize oldest_rev youngest_rev true) (r :: rl))
      as (o & -> & Ho & _ & Hoc & _); [simpl; lia|done|done|]. cbn [rbind].
    eexists. split; [done|]. rewrite unless_empty_ranges. split; [by destruct o|].
    split; [done|]. intros rev. rewrite Hoc. unfold selected, svn_rangelist__initialize.
    cbn [covers]. unfold in_range at 1 3. simpl start. simpl end_. rewrite orb_false_r.
    destruct include_range; simpl.
    - by rewrite andb_comm.
    - done. }
  destruct (hash_collect_ok g mergeinfo) as (out & -> & Hc).
  { intros path rl Hp. destruct (Hg path rl Hp) as (w & ? & _). by exists w. }
  exists out. split; [done|].
  assert (Hout : ∀ path, out !! path ≠ Some []
    ∧ rangelist_wf (ranges_of out path) = true
    ∧ ∀ rev, path_covers out path rev = path_covers mergeinfo path rev
        && Bool.eqb include_range ((oldest_rev <? rev) && (rev <=? youngest_rev))).
  { intros path. specialize (Hc path). destruct (mergeinfo !! path) as [rl|] eqn:Hp.
    - destruct (Hg path rl Hp) as (w & Hw' & ? & ? & ?).
      unfold path_covers, ranges_of in *. rewrite Hw' in Hc. injection Hc as <-. done.
    - unfold path_covers, ranges_of. by rewrite Hc, Hp. }
  split; [|intros path rev; apply Hout].
  intros path rl Hp. destruct (Hout path) as (Hne & Hwf & _).
  unfold ranges_of in Hwf. rewrite Hp in Hne, Hwf. split; [congruence|done].
Qed.

Lemma svn_mergeinfo__filter_by_ranges_spec_witness :
  let mergeinfo : svn_mergeinfo_t := {[ [SLASH] := [MkRange 0 4 true; MkRange 7 9 false] ]} in
  ∃ filtered,
    svn_mergeinfo__filter_mergeinfo_by_ranges mergeinfo 8 2 false = Ok filtered
    ∧ mergeinfo_wf filtered
    ∧ ∀ path rev,
        path_covers filtered path rev
        = path_covers mergeinfo path rev && Bool.eqb false ((2 <? rev) && (rev <=? 8)).
Proof.
  apply svn_mergeinfo__filter_by_ranges_spec; [|lia].
  intros path rl [_ <-]%lookup_singleton_Some; done.
Defined.

(** ** Merging two hash tables *)

Section HashMerge.
Context {V : Type} (merge : V → V → result V).
Implicit Types (sorted : list (svn_sort__item_t V)).

Definition sorted_items sorted : Prop :=
  path_items sorted ∧ StronglySorted item_le sorted.

Lemma sorted_items_cons elt sorted :
  sorted_items (elt :: sorted) →
  sorted_items sorted ∧ c_string (item_key elt) = true
  ∧ (∀ x, x ∈ sorted → item_le elt x ∧ item_key x ≠ item_key elt).
Proof.
  intros [[Hc Hnd] Hs]. apply Forall_cons in Hc as [Hce Hc].
  apply NoDup_cons in Hnd as [Hnotin Hnd]. apply StronglySorted_inv in Hs as [Hs Hle].
  split; [by repeat split|]. split; [done|]. intros x Hx. split.
  - by apply (proj1 (Forall_forall _ _) Hle).
  - intros He. apply Hnotin. rewrite <- He. by apply list_elem_of_fmap_2.
Qed.

Lemma copy_back_lookup sorted (hash : gmap (list byte) V) :
  NoDup (map item_key sorted) →
  (∀ x, x ∈ sorted → copy_back sorted hash !! item_key x = Some (item_value x))
  ∧ (∀ key, key ∉ map item_key sorted → copy_back sorted hash !! key = hash !! key).
Proof.
  revert hash; induction sorted as [|elt sorted IH]; intros hash Hnd; simpl.
  { split; [intros x Hx; by apply not_elem_of_nil in Hx|done]. }
  apply NoDup_cons in Hnd as [Hnotin Hnd].
  destruct (IH (<[item_key elt := item_value elt]> hash) Hnd) as [H1 H2]. split.
  - intros x [->|Hx]%elem_of_cons; [|by apply H1].
    rewrite H2 by done. apply lookup_insert_eq.
  - intros key Hk. apply not_elem_of_cons in Hk as [Hk1 Hk2].
    rewrite H2 by done. by apply lookup_insert_ne.
Qed.

(** An element that sorts before all of [sorted] shares no key with it. *)
Lemma before_disjoint elt other sorted :
  sorted_items (other :: sorted) → c_string (item_key elt) = true →
  svn_sort_compare_items_as_paths elt other < 0 →
  ∀ x, x ∈ other :: sorted → item_key x ≠ item_key elt.
Proof.
  intros Hs Hce Hlt x Hx He.
  destruct (sorted_items_cons _ _ Hs) as (_ & Hco & Hle).
  unfold svn_sort_compare_items_as_paths in *.
  assert (svn_path_compare_paths (item_key other) (item_key elt) <= 0) as Hoe.
  { rewrite <- He. apply elem_of_cons in Hx as [->|Hx]; [|by apply Hle].
    destruct (svn_path_order _ _ _ Hco Hco Hco) as ([_ Heq] & _). rewrite Heq; done. }
  destruct (svn_path_order _ _ _ Hce Hco Hco) as (_ & Hopp & _). lia.
Qed.

Lemma before_disjoint_r elt other sorted :
  sorted_items (elt :: sorted) → c_string (item_key other) = true →
  0 < svn_sort_compare_items_as_paths elt other →
  ∀ x, x ∈ elt :: sorted → item_key x ≠ item_key other.
Proof.
  intros Hs Hce Hlt. apply before_disjoint; [done..|].
  destruct (sorted_items_cons _ _ Hs) as (_ & Hco & _).
  destruct (svn_path_order _ _ _ Hco Hce Hce) as (_ & Hopp & _).
  unfold svn_sort_compare_items_as_paths in *. lia.
Qed.

(** What the walk does to the table: keys of both lists are merged, keys of
    the second are added, the others are left alone. *)
Record merged_into (sorted1 sorted2 : list (svn_sort__item_t V))
    (hash hash' : gmap (list byte) V) : Prop := {
  merged_both : ∀ x1 x2, x1 ∈ sorted1 → x2 ∈ sorted2 → item_key x1 = item_key x2 →
    ∃ v, merge (item_value x1) (item_value x2) = Ok v ∧ hash' !! item_key x1 = Some v;
  merged_new : ∀ x2, x2 ∈ sorted2 → item_key x2 ∉ map item_key sorted1 →
    hash' !! item_key x2 = Some (item_value x2);
  merged_old : ∀ key, key ∉ map item_key sorted2 → hash' !! key = hash !! key;
}.

Lemma hash_merge_loop_ok fuel sorted1 sorted2 hash :
  sorted_items sorted1 → sorted_items sorted2 →
  (length sorted1 + length sorted2 < fuel)%nat →
  (∀ x1 x2, x1 ∈ sorted1 → x2 ∈ sorted2 → item_key x1 = item_key x2 →
     ∃ v, merge (item_value x1) (item_value x2) = Ok v) →
  ∃ hash', hash_merge_loop merge fuel sorted1 sorted2 hash = Ok hash'
    ∧ merged_into sorted1 sorted2 hash hash'.
Proof.
  revert sorted1 sorted2 hash; induction fuel as [|fuel IH];
    intros sorted1 sorted2 hash Hs1 Hs2 Hf Hm; [lia|]. cbn [hash_merge_loop].
  assert (Hdone : sorted1 = [] ∨ sorted2 = [] →
    ∃ hash', Ok (copy_back sorted2 hash) = Ok hash' ∧ merged_into sorted1 sorted2 hash hash').
  { intros Hnil. eexists. split; [done|].
    destruct (copy_back_lookup sorted2 hash) as [H1 H2]; [apply Hs2|].
    split; [|auto|done]. intros x1 x2 Hx1 Hx2 _.
    destruct Hnil as [-> | ->]; by apply not_elem_of_nil in Hx1 || apply not_elem_of_nil in Hx2. }
  destruct sorted1 as [|elt1 rest1]; [by apply Hdone; left|].
  destruct sorted2 as [|elt2 rest2]; [by apply Hdone; right|]. clear Hdone.
  destruct (sorted_items_cons _ _ Hs1) as (Hr1 & Hc1 & Hle1).
  destruct (sorted_items_cons _ _ Hs2) as (Hr2 & Hc2 & Hle2).
  simpl in Hf.
  destruct (Z.eqb_spec (svn_sort_compare_items_as_paths elt1 elt2) 0) as [He|Hne].
  { apply (svn_path_order _ _ _ Hc1 Hc2 Hc2) in He.
    destruct (Hm elt1 elt2) as [v Hv]; [by left|by left|done|]. rewrite Hv. cbn [rbind].
    destruct (IH rest1 rest2 (<[item_key elt1:=v]> hash)) as (h & -> & [Hb Hn Ho]);
      [done|done|lia|intros; apply Hm; [by right|by right|done]|].
    exists h. split; [done|].
    assert (h !! item_key elt1 = Some v) as Hh.
    { rewrite Ho; [apply lookup_insert_eq|]. intros (x & Hx1 & Hx2)%list_elem_of_fmap.
      apply (proj2 (Hle2 x Hx2)). congruence. }
    split.
    - intros x1 x2 Hx1 Hx2 Hk. apply elem_of_cons in Hx1, Hx2.
      destruct Hx1 as [->|Hx1], Hx2 as [->|Hx2]; [by exists v| | |by apply Hb].
      + destruct (Hle2 x2 Hx2) as [_ []]. congruence.
      + destruct (Hle1 x1 Hx1) as [_ []]. congruence.
    - intros x2 Hx2 Hk. apply not_elem_of_cons in Hk as [Hk1 Hk2].
      apply elem_of_cons in Hx2 as [->|Hx2]; [congruence|by apply Hn].
    - intros key Hk. apply not_elem_of_cons in Hk as [Hk1 Hk2].
      rewrite Ho by done. apply lookup_insert_ne. congruence. }
  destruct (Z.ltb_spec (svn_sort_compare_items_as_paths elt1 elt2) 0) as [Hlt|Hge].
  { pose proof (before_disjoint _ _ _ Hs2 Hc1 Hlt) as Hdis.
    destruct (IH rest1 (elt2 :: rest2) hash) as (h & -> & [Hb Hn Ho]);
      [done|done|simpl; lia|intros; apply Hm; [by right|done|done]|].
    exists h. split; [done|]. split; [|intros x2 Hx2 Hk|done].
    - intros x1 x2 Hx1 Hx2 Hk. apply elem_of_cons in Hx1 as [->|Hx1]; [|by apply Hb].
      by destruct (Hdis x2 Hx2).
    - apply not_elem_of_cons in Hk as [Hk1 Hk2]. by apply Hn. }
  pose proof (before_disjoint_r _ _ _ Hs1 Hc2 ltac:(lia)) as Hdis.
  destruct (IH (elt1 :: rest1) rest2 (<[item_key elt2:=item_value elt2]> hash))
    as (h & -> & [Hb Hn Ho]); [done|done|simpl; lia|intros; apply Hm; [done|by right|done]|].
  exists h. split; [done|].
  split.
  - intros x1 x2 Hx1 Hx2 Hk. apply elem_of_cons in Hx2 as [->|Hx2]; [|by apply Hb].
    by destruct (Hdis x1 Hx1).
  - intros x2 Hx2 Hk. apply elem_of_cons in Hx2 as [->|Hx2]; [|by apply Hn].
    rewrite Ho; [apply lookup_insert_eq|]. intros (x & Hx1 & Hx2)%list_elem_of_fmap.
    by apply (proj2 (Hle2 x Hx2)).
  - intros key Hk. apply not_elem_of_cons in Hk as [Hk1 Hk2].
    rewrite Ho by done. apply lookup_insert_ne. congruence.
Qed.

Definition path_keys (hash : gmap (list byte) V) : Prop :=
  ∀ key v, hash !! key = Some v → c_string key = true.

Lemma items_of_elem (hash : gmap (list byte) V) x :
  x ∈ items_of hash ↔ hash !! item_key x = Some (item_value x).
Proof.
  unfold items_of. rewrite list_elem_of_fmap. split.
  - intros ([k v] & -> & Hkv). by apply elem_of_map_to_list in Hkv.
  - intros Hk. exists (item_key x, item_value x). split; [by destruct x|].
    by apply elem_of_map_to_list.
Qed.

Lemma items_of_path_items hash : path_keys hash → path_items (items_of hash).
Proof.
  intros Hk. split.
  - apply Forall_forall. intros x Hx%items_of_elem. by eapply Hk.
  - unfold items_of. rewrite map_map. apply NoDup_fst_map_to_list.
Qed.

Lemma hash_merge_ok `{Qsort} (hash changes : gmap (list byte) V) :
  path_keys hash → path_keys changes →
  (∀ key v1 v2, hash !! key = Some v1 → changes !! key = Some v2 →
     ∃ v, merge v1 v2 = Ok v) →
  ∃ hash',
    hash_merge merge hash changes = Ok hash'
    ∧ ∀ key, match hash !! key, changes !! key with
             | Some v1, Some v2 => ∃ v, merge v1 v2 = Ok v ∧ hash' !! key = Some v
             | None, Some v2 => hash' !! key = Some v2
             | old, None => hash' !! key = old
             end.
Proof.
  intros H1 H2 Hm. unfold hash_merge.
  destruct (svn_sort__hash_sorted (items_of hash)) as [Hp1 Hs1];
    [by apply items_of_path_items|].
  destruct (svn_sort__hash_sorted (items_of changes)) as [Hp2 Hs2];
    [by apply items_of_path_items|].
  set (s1 := svn_sort__hash (items_of hash) _) in *.
  set (s2 := svn_sort__hash (items_of changes) _) in *.
  assert (Hi1 : ∀ x, x ∈ s1 ↔ hash !! item_key x = Some (item_value x))
    by (intros x; rewrite Hp1; apply items_of_elem).
  assert (Hi2 : ∀ x, x ∈ s2 ↔ changes !! item_key x = Some (item_value x))
    by (intros x; rewrite Hp2; apply items_of_elem).
  destruct (hash_merge_loop_ok (S (length s1 + length s2)) s1 s2 hash)
    as (h & Hh & [Hb Hn Ho]).
  - split; [|done]. destruct (items_of_path_items hash H1). split; by rewrite Hp1.
  - split; [|done]. destruct (items_of_path_items changes H2). split; by rewrite Hp2.
  - lia.
  - intros x1 x2 Hx1%Hi1 Hx2%Hi2 Hk. rewrite <- Hk in Hx2. by eapply Hm.
  - exists h. split; [done|]. intros key.
    assert (Hnone : ∀ s (m : gmap (list byte) V),
      (∀ x, x ∈ s ↔ m !! item_key x = Some (item_value x)) → m !! key = None →
      key ∉ map item_key s).
    { intros s m Hs Hk (x & -> & Hx%Hs)%list_elem_of_fmap. congruence. }
    destruct (hash !! key) as [v1|] eqn:Hk1, (changes !! key) as [v2|] eqn:Hk2.
    + apply (Hb (MkItem key v1) (MkItem key v2)); [by apply Hi1|by apply Hi2|done].
    + rewrite Ho by by eapply Hnone. done.
    + apply (Hn (MkItem key v2)); [by apply Hi2|by eapply Hnone].
    + rewrite Ho by by eapply Hnone. done.
Qed.
End HashMerge.

(** C30: svn_mergeinfo_merge2 merges two mergeinfos path by path: the result
    is well formed and has, for every path, the union of the revisions of
    both. The mergeinfos are well formed, and at every path the changes are
    all inheritable, or the ranges merged into are all non-inheritable, or
    these are all inheritable and the changes minimal
    (svn_rangelist_merge2_corrupts shows a merge outside of these cases). *)
Theorem svn_mergeinfo_merge2_union `{Qsort} (mergeinfo changes : svn_mergeinfo_t) :
  mergeinfo_wf mergeinfo → mergeinfo_wf changes →
  path_keys mergeinfo → path_keys changes →
  (∀ path, ∃ md, mergeable md (ranges_of mergeinfo path) (ranges_of changes path) = true) →
  ∃ merged,
    svn_mergeinfo_merge2 mergeinfo changes = Ok merged
    ∧ mergeinfo_wf merged
    ∧ ∀ path rev,
        path_covers merged path rev
        = path_covers mergeinfo path rev || path_covers changes path rev.
Proof.
  intros Hw1 Hw2 Hk1 Hk2 Hm. unfold svn_mergeinfo_merge2.
  destruct (Nat.eqb_spec (size changes) 0) as [He|Hne].
  { apply map_size_empty_inv in He as ->. exists mergeinfo. split; [done|]. split; [done|].
    intros path rev. unfold path_covers at 3, ranges_of. rewrite lookup_empty. simpl.
    by rewrite orb_false_r. }
  assert (Hmerge : ∀ path rl1 rl2, mergeinfo !! path = Some rl1 → changes !! path = Some rl2 →
    ∃ rl, svn_rangelist_merge2 rl1 rl2 = Ok rl ∧ rangelist_wf rl = true
      ∧ ∀ rev, covers rl rev = covers rl1 rev || covers rl2 rev).
  { intros path rl1 rl2 H1 H2. destruct (Hm path) as [md Hmd].
    unfold ranges_of in Hmd. rewrite H1, H2 in Hmd.
    destruct (merge2_union md rl1 rl2) as (rl & ? & ? & Hc);
      [by apply (Hw1 path)|by apply (Hw2 path)|done|].
    exists rl. repeat split; try done. intros rev. apply Hc. }
  destruct (hash_merge_ok svn_rangelist_merge2 mergeinfo changes) as (merged & -> & Hmerged);
    [done|done| |].
  { intros path rl1 rl2 H1 H2. destruct (Hmerge path rl1 rl2 H1 H2) as (rl & ? & _). by exists rl. }
  exists merged. split; [done|].
  assert (Hall : ∀ path, merged !! path ≠ Some [] ∧ rangelist_wf (ranges_of merged path) = true
    ∧ ∀ rev, path_covers merged path rev
             = path_covers mergeinfo path rev || path_covers changes path rev).
  { intros path. specialize (Hmerged path). unfold path_covers, ranges_of.
    destruct (mergeinfo !! path) as [rl1|] eqn:H1, (changes !! path) as [rl2|] eqn:H2.
    - destruct Hmerged as (rl & Hrl & ->).
      destruct (Hmerge path rl1 rl2 H1 H2) as (rl' & Hrl' & Hwf & Hc).
      rewrite Hrl in Hrl'. injection Hrl' as <-. split; [|done]. intros [= ->].
      destruct (Hw1 path rl1 H1) as [Hne1 Hwf1]. destruct Hne1.
      apply (covers_nonempty 0); [done|]. intros rev. specialize (Hc rev). simpl in Hc.
      by destruct (covers rl1 rev).
    - rewrite Hmerged. destruct (Hw1 path rl1 H1). split; [congruence|]. split; [done|].
      intros rev. simpl. by rewrite orb_false_r.
    - rewrite Hmerged. destruct (Hw2 path rl2 H2). split; [congruence|done].
    - by rewrite Hmerged. }
  split; [|intros path rev; apply Hall].
  intros path rl Hp. destruct (Hall path) as (Hne' & Hwf & _).
  unfold ranges_of in Hwf. rewrite Hp in Hne', Hwf. split; [congruence|done].
Qed.

Lemma svn_mergeinfo_merge2_union_witness :
  let trunk := String.list_byte_of_string "/trunk" in
  let mergeinfo : svn_mergeinfo_t := {[ trunk := [MkRange 0 4 false] ]} in
  let changes : svn_mergeinfo_t := {[ trunk := [MkRange 2 6 true] ]} in
  ∃ merged,
    svn_mergeinfo_merge2 mergeinfo changes = Ok merged
    ∧ mergeinfo_wf merged
    ∧ ∀ path rev,
        path_covers merged path rev
        = path_covers mergeinfo path rev || path_covers changes path rev.
Proof.
  apply svn_mergeinfo_merge2_union.
  1-2: intros path rl [_ <-]%lookup_singleton_Some; done.
  1-2: intros path rl [<- _]%lookup_singleton_Some; done.
  intros path. exists ChangesInheritable. unfold ranges_of, mergeable.
  destruct (decide (path = String.list_byte_of_string "/trunk")) as [->|Hne].
  - by rewrite lookup_singleton_eq.
  - by rewrite (lookup_singleton_ne _ path) by done.
Defined.

(** ** Shifting revisions *)

(** A negative offset makes the adjustment drop a range all of whose
    revisions stay positive. *)
Theorem svn_mergeinfo__adjust_drops :
  let path := [SLASH] in
  let mergeinfo : svn_mergeinfo_t := {[ path := [MkRange 2 10 true] ]} in
  svn_mergeinfo__adjust_mergeinfo_rangelists mergeinfo (-2) = ∅
  ∧ ∀ rev, 2 < rev <= 10 → 0 < rev + -2 ∧ path_covers mergeinfo path rev = true.
Proof.
  split; [reflexivity|]. intros rev Hr. split; [lia|].
  unfold path_covers, ranges_of. rewrite lookup_singleton_eq. simpl. unfold in_range. simpl. lia.
Qed.
