(* ===== verification/TextDelta.v ===== *)
(** * Delta windows

    [src/subversion/libsvn_delta/text_delta.c]: the instructions of a delta
    window, how a window is built op by op, and how it is applied to its source
    view.  Sizes and offsets ([apr_size_t]) are integers; all of them lie within
    buffers, so that their sums do not wrap around. *)
From S2P Require Import Prelude.

(** The standard size of a view ([delta.h]). *)
Definition SVN_DELTA_WINDOW_SIZE : Z := 102400.

(** ** Buffers *)

Definition blen (s : list byte) : Z := Z.of_nat (length s).

(** The [len] bytes of [s] from [offset] on. *)
Definition bytes_at (offset len : Z) (s : list byte) : list byte :=
  take (Z.to_nat len) (drop (Z.to_nat offset) s).

(** ** Data *)

Inductive svn_delta_action := svn_txdelta_source | svn_txdelta_target | svn_txdelta_new.

#[global] Instance svn_delta_action_eq_dec : EqDecision svn_delta_action.
Proof. solve_decision. Defined.

Definition action_eqb (a b : svn_delta_action) : bool := bool_decide (a = b).

Record svn_txdelta_op_t := MkOp {
  action_code : svn_delta_action;
  offset : Z;
  op_length : Z;
}.

(** [num_ops] is the length of [ops]. *)
Record svn_txdelta_window_t := MkWindow {
  sview_offset : Z;
  sview_len : Z;
  tview_len : Z;
  src_ops : Z;
  ops : list svn_txdelta_op_t;
  new_data : list byte;
}.

(** [svn_txdelta__ops_baton_t]; [num_ops] is the length of [bb_ops]. *)
Record ops_baton := MkBaton {
  bb_src_ops : Z;
  bb_ops_size : nat;
  bb_ops : list svn_txdelta_op_t;
  bb_new_data : list byte;
}.

Definition empty_baton : ops_baton := MkBaton 0 0 [] [].

(** ** Building windows *)

Definition svn_txdelta__make_window (build_baton : ops_baton) : svn_txdelta_window_t :=
  MkWindow 0 0 0 (bb_src_ops build_baton) (bb_ops build_baton) (bb_new_data build_baton).

Definition svn_txdelta_window_dup (window : svn_txdelta_window_t) : svn_txdelta_window_t :=
  let build_baton := MkBaton (src_ops window) (length (ops window)) (ops window)
                       (new_data window) in
  let new_window := svn_txdelta__make_window build_baton in
  MkWindow (sview_offset window) (sview_len window) (tview_len window)
    (src_ops new_window) (ops new_window) (new_data new_window).

(** [data] is the memory under the argument [new_data]. *)
Definition svn_txdelta__insert_op (build_baton : ops_baton) (opcode : svn_delta_action)
    (offset_ length_ : Z) (data : list byte) : ops_baton :=
  let 'MkBaton src size ops_ new := build_baton in
  let merge op :=
    action_eqb (action_code op) opcode
    && (action_eqb opcode svn_txdelta_new || (offset op + op_length op =? offset_)) in
  let appended := new ++ bytes_at 0 length_ data in
  match last ops_ with
  | Some op =>
      if merge op then
        MkBaton src size
          (take (length ops_ - 1) ops_
             ++ [MkOp (action_code op) (offset op) (op_length op + length_)])
          (if action_eqb opcode svn_txdelta_new then appended else new)
      else
        MkBaton (if action_eqb opcode svn_txdelta_source then src + 1 else src)
          (if (length ops_ =? size)%nat then (if (size =? 0)%nat then 16 else 2 * size)%nat
           else size)
          (ops_ ++ [MkOp opcode (if action_eqb opcode svn_txdelta_new then blen new
                                 else offset_) length_])
          (if action_eqb opcode svn_txdelta_new then appended else new)
  | None =>
      MkBaton (if action_eqb opcode svn_txdelta_source then src + 1 else src)
        (if (length ops_ =? size)%nat then (if (size =? 0)%nat then 16 else 2 * size)%nat
         else size)
        (ops_ ++ [MkOp opcode (if action_eqb opcode svn_txdelta_new then blen new
                               else offset_) length_])
        (if action_eqb opcode svn_txdelta_new then appended else new)
  end.

(** Shortening a string buffer by [n] bytes ([new_data->len -= n]). *)
Definition shorten (n : Z) (s : list byte) : list byte :=
  take (Z.to_nat (blen s - n)) s.

(** The loop of [svn_txdelta__remove_copy], over the ops back to front; the
    count of source ops is left alone. *)
Fixpoint remove_copy_loop (rev_ops : list svn_txdelta_op_t) (new : list byte)
    (max_len len : Z) : list svn_txdelta_op_t * list byte * Z :=
  match rev_ops with
  | [] => ([], new, len)
  | op :: rest =>
      if action_eqb (action_code op) svn_txdelta_target then (rev_ops, new, len)
      else if max_len <? op_length op + len then
        if action_eqb (action_code op) svn_txdelta_new then
          (MkOp (action_code op) (offset op) (op_length op - (max_len - len)) :: rest,
           shorten (max_len - len) new, max_len)
        else (rev_ops, new, len)
      else
        remove_copy_loop rest
          (if action_eqb (action_code op) svn_txdelta_new
           then shorten (op_length op) new else new)
          max_len (len + op_length op)
  end.

(** Returns the number of bytes removed. *)
Definition svn_txdelta__remove_copy (build_baton : ops_baton) (max_len : Z)
    : ops_baton * Z :=
  let '(rev_ops, new, len) :=
    remove_copy_loop (reverse (bb_ops build_baton)) (bb_new_data build_baton) max_len 0 in
  (MkBaton (bb_src_ops build_baton) (bb_ops_size build_baton) (reverse rev_ops) new, len).

(** ** Applying windows *)

(** The byte-wise copy: it reads what it has written. *)
Fixpoint copy_bytes (target : list byte) (source n : nat) : list byte :=
  match n with
  | O => target
  | S n => copy_bytes (target ++ [default x00 (target !! source)]) (S source) n
  end.

(** The copy in chunks of four bytes. *)
Fixpoint copy_chunks (fuel : nat) (target : list byte) (source n : nat)
    : list byte * nat * nat :=
  match fuel with
  | O => (target, source, n)
  | S fuel =>
      if (4 <=? n)%nat
      then copy_chunks fuel (target ++ take 4 (drop source target)) (source + 4) (n - 4)
      else (target, source, n)
  end.

(** [target] is the buffer up to the target pointer, [source] an index of it. *)
Definition patterning_copy (target : list byte) (source n : nat) : list byte :=
  let '(target, source, n) :=
    if (source + n + 4 <=? length target)%nat then copy_chunks n target source n
    else (target, source, n) in
  copy_bytes target source n.

(** The loop of [svn_txdelta_apply_instructions]; [tbuf] holds the bytes that
    have been written. *)
Fixpoint apply_ops (window : svn_txdelta_window_t) (sbuf : list byte) (tlen : Z)
    (ops_ : list svn_txdelta_op_t) (tpos : Z) (tbuf : list byte)
    : result (list byte * Z) :=
  match ops_ with
  | [] => assert! tpos =? tview_len window in Ok (tbuf, tpos)
  | op :: ops_ =>
      let buf_len := if op_length op <? tlen - tpos then op_length op else tlen - tpos in
      assert! tpos + op_length op <=? tview_len window in
      let! tbuf :=
        match action_code op with
        | svn_txdelta_source =>
            assert! offset op + op_length op <=? sview_len window in
            Ok (tbuf ++ bytes_at (offset op) buf_len sbuf)
        | svn_txdelta_target =>
            assert! offset op <? tpos in
            Ok (patterning_copy tbuf (Z.to_nat (offset op)) (Z.to_nat buf_len))
        | svn_txdelta_new =>
            assert! offset op + op_length op <=? blen (new_data window) in
            Ok (tbuf ++ bytes_at (offset op) buf_len (new_data window))
        end in
      let tpos := tpos + op_length op in
      if tlen <=? tpos then Ok (tbuf, tlen)
      else apply_ops window sbuf tlen ops_ tpos tbuf
  end.

(** Returns the bytes in the target buffer and [*tlen]. *)
Definition svn_txdelta_apply_instructions (window : svn_txdelta_window_t)
    (sbuf : list byte) (tlen : Z) : result (list byte * Z) :=
  apply_ops window sbuf tlen (ops window) 0 [].

(** ** What a window means *)

Section Meaning.
Context (sbuf new : list byte).

(** The target after one more op. *)
Definition apply_op (target : list byte) (op : svn_txdelta_op_t) : list byte :=
  match action_code op with
  | svn_txdelta_source => target ++ bytes_at (offset op) (op_length op) sbuf
  | svn_txdelta_target =>
      copy_bytes target (Z.to_nat (offset op)) (Z.to_nat (op_length op))
  | svn_txdelta_new => target ++ bytes_at (offset op) (op_length op) new
  end.

Fixpoint expand (target : list byte) (ops_ : list svn_txdelta_op_t) : list byte :=
  match ops_ with [] => target | op :: ops_ => expand (apply_op target op) ops_ end.

Lemma expand_app target ops1 ops2 :
  expand target (ops1 ++ ops2) = expand (expand target ops1) ops2.
Proof. revert target; induction ops1 as [|op ops1 IH]; intros target; simpl; auto. Qed.
End Meaning.

(** The instructions stay within their buffers, the source view having
    [slen] bytes, the new data [nlen], the target so far [tpos]. *)
Definition op_valid (slen nlen tpos : Z) (op : svn_txdelta_op_t) : bool :=
  (0 <=? offset op) && (0 <=? op_length op)
  && match action_code op with
     | svn_txdelta_source => offset op + op_length op <=? slen
     | svn_txdelta_target => offset op <? tpos
     | svn_txdelta_new => offset op + op_length op <=? nlen
     end.

Fixpoint ops_valid (slen nlen tpos : Z) (ops_ : list svn_txdelta_op_t) : bool :=
  match ops_ with
  | [] => true
  | op :: ops_ => op_valid slen nlen tpos op && ops_valid slen nlen (tpos + op_length op) ops_
  end.

Fixpoint ops_length (ops_ : list svn_txdelta_op_t) : Z :=
  match ops_ with [] => 0 | op :: ops_ => op_length op + ops_length ops_ end.

Definition window_valid (window : svn_txdelta_window_t) : bool :=
  ops_valid (sview_len window) (blen (new_data window)) 0 (ops window)
  && (ops_length (ops window) =? tview_len window).

(** The target view that a window stands for. *)
Definition window_text (window : svn_txdelta_window_t) (sbuf : list byte) : list byte :=
  expand sbuf (new_data window) [] (ops window).

(** ** Lemmas *)

Section Bytes.
Implicit Types (s : list byte).

Lemma blen_app s s' : blen (s ++ s') = blen s + blen s'.
Proof. unfold blen. rewrite length_app. lia. Qed.

Lemma blen_bytes_at off len s :
  0 <= off → 0 <= len → off + len <= blen s → blen (bytes_at off len s) = len.
Proof. unfold blen, bytes_at. rewrite length_take, length_drop. lia. Qed.

Lemma bytes_at_split off l1' l2' s :
  0 <= off → 0 <= l1' → 0 <= l2' →
  bytes_at off (l1' + l2') s = bytes_at off l1' s ++ bytes_at (off + l1') l2' s.
Proof.
  intros. unfold bytes_at. rewrite !Z2Nat.inj_add by done.
  rewrite <- drop_drop, take_take_drop. done.
Qed.

Lemma bytes_at_app off len s s' :
  0 <= off → 0 <= len → off + len <= blen s → bytes_at off len (s ++ s') = bytes_at off len s.
Proof.
  unfold blen, bytes_at. intros. rewrite drop_app_le by lia.
  apply take_app_le. rewrite length_drop. lia.
Qed.

Lemma bytes_at_all s : bytes_at 0 (blen s) s = s.
Proof. unfold bytes_at, blen. rewrite drop_0, Nat2Z.id. apply firstn_all. Qed.

Lemma bytes_at_middle s s' len :
  0 <= len → bytes_at (blen s) len (s ++ s') = bytes_at 0 len s'.
Proof.
  intros. unfold bytes_at, blen. rewrite Nat2Z.id, drop_app_length. by rewrite drop_0.
Qed.

Lemma bytes_at_idemp len s : bytes_at 0 len (bytes_at 0 len s) = bytes_at 0 len s.
Proof. unfold bytes_at. rewrite !drop_0, take_take. by rewrite Nat.min_id. Qed.

Lemma bytes_at_short off len len' s :
  0 <= len' <= len → bytes_at off len' s = take (Z.to_nat len') (bytes_at off len s).
Proof. intros. unfold bytes_at. rewrite take_take. f_equal. lia. Qed.

Lemma copy_bytes_length target source n :
  length (copy_bytes target source n) = (length target + n)%nat.
Proof.
  revert target source; induction n as [|n IH]; intros target source; simpl; [lia|].
  rewrite IH, length_app. simpl. lia.
Qed.

Lemma copy_bytes_add target source n m :
  copy_bytes target source (n + m) = copy_bytes (copy_bytes target source n) (source + n) m.
Proof.
  revert target source; induction n as [|n IH]; intros target source; simpl.
  { by rewrite Nat.add_0_r. }
  rewrite IH. f_equal. lia.
Qed.

Lemma copy_bytes_take target source n :
  take (length target) (copy_bytes target source n) = target.
Proof.
  revert target source; induction n as [|n IH]; intros target source; simpl; [apply firstn_all|].
  specialize (IH (target ++ [default x00 (target !! source)]) (S source)).
  apply (f_equal (take (length target))) in IH. rewrite length_app, take_take in IH.
  rewrite take_app_length, Nat.min_l in IH by lia. done.
Qed.

(** Far from the end of the buffer, the copy is a block copy. *)
Lemma copy_bytes_block target source n :
  (source + n <= length target)%nat →
  copy_bytes target source n = target ++ take n (drop source target).
Proof.
  revert target source; induction n as [|n IH]; intros target source Hl; simpl.
  { by rewrite app_nil_r. }
  destruct (lookup_lt_is_Some_2 target source) as [x Hx]; [lia|]. rewrite Hx. simpl.
  rewrite IH by (rewrite length_app; lia).
  rewrite <- app_assoc. f_equal. rewrite (drop_S target x source) by done. simpl. f_equal.
  rewrite drop_app_le by lia. apply take_app_le. rewrite length_drop. lia.
Qed.

Lemma copy_chunks_ok fuel target source n :
  (source + n + 4 <= length target)%nat →
  let '(target', source', n') := copy_chunks fuel target source n in
  copy_bytes target' source' n' = copy_bytes target source n.
Proof.
  revert target source n; induction fuel as [|fuel IH]; intros target source n Hl; [done|].
  cbn [copy_chunks]. destruct (Nat.leb_spec 4 n); [|done].
  specialize (IH (target ++ take 4 (drop source target)) (source + 4)%nat (n - 4)%nat).
  destruct (copy_chunks _ _ _ _) as [[t' s'] n'].
  rewrite IH by (rewrite length_app, length_take, length_drop; lia).
  replace n with (4 + (n - 4))%nat at 2 by lia. rewrite copy_bytes_add.
  by rewrite (copy_bytes_block target source 4) by lia.
Qed.

Lemma patterning_copy_bytes target source n :
  patterning_copy target source n = copy_bytes target source n.
Proof.
  unfold patterning_copy. destruct (Nat.leb_spec (source + n + 4) (length target)); [|done].
  pose proof (copy_chunks_ok n target source n) as Hc.
  destruct (copy_chunks n target source n) as [[t' s'] n']. by apply Hc.
Qed.
End Bytes.

Section Apply.
Context (sbuf new : list byte) (slen : Z).
Hypothesis Hsbuf : slen <= blen sbuf.
Implicit Types (op : svn_txdelta_op_t) (target : list byte).

Lemma apply_op_length target op :
  op_valid slen (blen new) (blen target) op = true →
  blen (apply_op sbuf new target op) = blen target + op_length op.
Proof.
  unfold op_valid, apply_op. intros Hv. destruct (action_code op).
  - rewrite blen_app, blen_bytes_at; lia.
  - unfold blen. rewrite copy_bytes_length. lia.
  - rewrite blen_app, blen_bytes_at; lia.
Qed.

Lemma apply_op_prefix target op :
  take (length target) (apply_op sbuf new target op) = target.
Proof.
  unfold apply_op. destruct (action_code op); [apply take_app_length| |apply take_app_length].
  apply copy_bytes_take.
Qed.

Lemma expand_prefix ops_ target n :
  (n <= length target)%nat → take n (expand sbuf new target ops_) = take n target.
Proof.
  revert target; induction ops_ as [|op ops_ IH]; intros target Hn; [done|].
  cbn [expand]. pose proof (apply_op_prefix target op) as Hp.
  assert (length target <= length (apply_op sbuf new target op))%nat as Hl.
  { apply (f_equal length) in Hp. rewrite length_take in Hp. lia. }
  etrans; [apply IH; lia|]. rewrite <- Hp at 2. rewrite take_take. f_equal. lia.
Qed.

Lemma expand_length ops_ target :
  ops_valid slen (blen new) (blen target) ops_ = true →
  blen (expand sbuf new target ops_) = blen target + ops_length ops_.
Proof.
  revert target; induction ops_ as [|op ops_ IH]; intros target; simpl; [lia|].
  intros [Hv Hvs]%andb_true_iff. rewrite <- apply_op_length in Hvs by done.
  rewrite IH by done. rewrite apply_op_length by done. lia.
Qed.

(** An op cut off after [len] bytes writes the beginning of its text. *)
Lemma apply_op_cut target op len :
  op_valid slen (blen new) (blen target) op = true → 0 <= len <= op_length op →
  apply_op sbuf new target (MkOp (action_code op) (offset op) len)
  = take (length target + Z.to_nat len) (apply_op sbuf new target op).
Proof.
  intros Hv Hl. unfold apply_op. cbn [action_code offset op_length].
  destruct (action_code op).
  - rewrite take_app_add. f_equal. by apply bytes_at_short.
  - replace (Z.to_nat (op_length op))
      with (Z.to_nat len + (Z.to_nat (op_length op) - Z.to_nat len))%nat by lia.
    rewrite copy_bytes_add. rewrite <- copy_bytes_length with (source := Z.to_nat (offset op)).
    by rewrite copy_bytes_take.
  - rewrite take_app_add. f_equal. by apply bytes_at_short.
Qed.
End Apply.

Lemma apply_ops_ok window sbuf tlen ops_ tpos tbuf :
  sview_len window <= blen sbuf →
  ops_valid (sview_len window) (blen (new_data window)) tpos ops_ = true →
  blen tbuf = tpos → tpos + ops_length ops_ = tview_len window → tpos <= tlen →
  apply_ops window sbuf tlen ops_ tpos tbuf
  = Ok (take (Z.to_nat tlen) (expand sbuf (new_data window) tbuf ops_),
        Z.min tlen (tview_len window)).
Proof.
  intros Hs. revert tpos tbuf; induction ops_ as [|op ops_ IH]; intros tpos tbuf Hv Ht Hsum Hle.
  { simpl in *. unfold guarded. if_true by lia. f_equal. f_equal; [|lia].
    rewrite take_ge; [done|]. unfold blen in Ht. lia. }
  simpl in Hv, Hsum. apply andb_true_iff in Hv as [Hv Hvs].
  assert (Hvop := Hv). unfold op_valid in Hv.
  assert (Hrest : 0 <= ops_length ops_).
  { clear -Hvs. revert Hvs. generalize (tpos + op_length op).
    induction ops_ as [|o ops_ IH]; simpl; [lia|]. intros p [Ho Hos]%andb_true_iff.
    specialize (IH _ Hos). unfold op_valid in Ho. lia. }
  cbn [apply_ops]. unfold guarded.
  if_true by lia.
  set (buf_len := if op_length op <? tlen - tpos then op_length op else tlen - tpos).
  assert (0 <= buf_len <= op_length op) as Hbl by (unfold buf_len; case_if; lia).
  match goal with |- rbind ?m _ = _ => assert (m =
    Ok (apply_op sbuf (new_data window) tbuf (MkOp (action_code op) (offset op) buf_len))) as -> end.
  { unfold apply_op. cbn [action_code offset op_length]. destruct (action_code op);
      if_true by lia; [done| |done]. by rewrite patterning_copy_bytes. }
  cbn [rbind]. rewrite <- Ht in Hvop.
  pose proof (apply_op_length sbuf (new_data window) (sview_len window) Hs tbuf op Hvop) as Hlen.
  destruct (Z.leb_spec tlen (tpos + op_length op)) as [Hfull|Hmore].
  - f_equal. f_equal; [|lia].
    assert (buf_len = tlen - tpos) as Hb by (unfold buf_len; case_if; lia).
    rewrite (apply_op_cut sbuf (new_data window) (sview_len window)) by done.
    cbn [expand].
    rewrite expand_prefix by (unfold blen in *; lia).
    f_equal. unfold blen in Ht. lia.
  - assert (buf_len = op_length op) as -> by (unfold buf_len; case_if; lia).
    replace (MkOp (action_code op) (offset op) (op_length op)) with op by by destruct op.
    rewrite IH; [done|done|lia|lia|lia].
Qed.

Lemma svn_txdelta_apply_instructions_ok window sbuf (tlen : Z) :
  window_valid window = true → sview_len window <= blen sbuf → 0 <= tlen →
  svn_txdelta_apply_instructions window sbuf tlen
  = Ok (take (Z.to_nat tlen) (window_text window sbuf), Z.min tlen (tview_len window))
  ∧ blen (window_text window sbuf) = tview_len window.
Proof.
  unfold window_valid, svn_txdelta_apply_instructions, window_text.
  intros [Hv Hsum]%andb_true_iff Hs Ht. split; [by apply apply_ops_ok; try lia|].
  rewrite (expand_length _ _ (sview_len window)) by done. unfold blen at 1. simpl. lia.
Qed.

(** C36: Applying a valid window to its source view writes the first
    min(tlen, tview_len) bytes of the text the window denotes, reports that
    length, and that text has length tview_len: the C loop agrees with the
    denotation of the instructions. *)
Theorem svn_txdelta_apply_instructions_spec window sbuf (tlen : Z) :
  window_valid window = true → sview_len window <= blen sbuf → 0 <= tlen →
  svn_txdelta_apply_instructions window sbuf tlen
  = Ok (take (Z.to_nat tlen) (window_text window sbuf), Z.min tlen (tview_len window))
  ∧ blen (window_text window sbuf) = tview_len window.
Proof. apply svn_txdelta_apply_instructions_ok. Qed.

(** "abcd", then a source copy, then "ghghghg" from a copy that overlaps. *)
Lemma svn_txdelta_apply_instructions_spec_witness :
  let bytes := String.list_byte_of_string in
  let window := MkWindow 0 6 14 1
    [MkOp svn_txdelta_new 0 4; MkOp svn_txdelta_source 2 3; MkOp svn_txdelta_target 5 7]
    (bytes "abcd") in
  svn_txdelta_apply_instructions window (bytes "uvwxyz") 12
  = Ok (take (Z.to_nat 12) (window_text window (bytes "uvwxyz")), Z.min 12 (tview_len window))
  ∧ blen (window_text window (bytes "uvwxyz")) = tview_len window.
Proof. by apply svn_txdelta_apply_instructions_spec. Defined.

(** ** Overlapping copies *)

Lemma copy_bytes_old target source n i :
  (i < length target)%nat → copy_bytes target source n !! i = target !! i.
Proof.
  intros Hi. rewrite <- (copy_bytes_take target source n) at 2.
  by rewrite lookup_take_lt by done.
Qed.

Lemma copy_bytes_reads_itself target source n k :
  (source < length target)%nat → (k < n)%nat →
  copy_bytes target source n !! (length target + k)%nat
  = copy_bytes target source n !! (source + k)%nat.
Proof.
  revert target source k; induction n as [|n IH]; intros target source k Hs Hk; [lia|].
  cbn [copy_bytes]. destruct (lookup_lt_is_Some_2 target source Hs) as [x Hx].
  rewrite Hx. cbn [default from_option id].
  destruct k as [|k].
  - rewrite !Nat.add_0_r, !copy_bytes_old by (rewrite length_app; simpl; lia).
    rewrite lookup_app_r, lookup_app_l by lia. by rewrite Nat.sub_diag, Hx.
  - specialize (IH (target ++ [x]) (S source) k).
    rewrite length_app in IH. simpl in IH.
    replace (length target + S k)%nat with (length target + 1 + k)%nat by lia.
    replace (source + S k)%nat with (S (source + k))%nat by lia.
    apply IH; lia.
Qed.

(** patterning_copy, which copies in doubling chunks, equals the bytewise
    copy from the buffer into itself: it appends n bytes that repeat the
    bytes between the source position and the end periodically. *)
Theorem patterning_copy_spec (target : list byte) (source n : nat) :
  (source < length target)%nat →
  patterning_copy target source n = copy_bytes target source n
  ∧ length (patterning_copy target source n) = (length target + n)%nat
  ∧ take (length target) (patterning_copy target source n) = target
  ∧ ∀ k, (k < n)%nat →
      patterning_copy target source n !! (length target + k)%nat
      = target !! (source + k mod (length target - source))%nat.
Proof.
  intros Hs. rewrite patterning_copy_bytes. split; [done|].
  split; [apply copy_bytes_length|]. split; [apply copy_bytes_take|].
  set (p := (length target - source)%nat).
  intros k. induction (lt_wf k) as [k _ IH]. intros Hk.
  rewrite copy_bytes_reads_itself by done.
  destruct (Nat.lt_ge_cases k p) as [Hlt|Hge].
  - rewrite Nat.mod_small by done. apply copy_bytes_old. unfold p in *. lia.
  - replace (source + k)%nat with (length target + (k - p))%nat by (unfold p in *; lia).
    rewrite IH by (unfold p in *; lia). do 2 f_equal.
    replace k with (k - p + 1 * p)%nat at 2 by lia.
    symmetry. apply Nat.Div0.mod_add.
Qed.

Lemma patterning_copy_spec_witness :
  let target := String.list_byte_of_string "abcdefgh" in
  patterning_copy target 6 7 = copy_bytes target 6 7
  ∧ length (patterning_copy target 6 7) = (length target + 7)%nat
  ∧ take (length target) (patterning_copy target 6 7) = target
  ∧ ∀ k, (k < 7)%nat →
      patterning_copy target 6 7 !! (length target + k)%nat
      = target !! (6 + k mod (length target - 6))%nat.
Proof. apply patterning_copy_spec. simpl. lia. Defined.

(** ** Building a window *)

(** The new data are used once, in order: after [ops_], the first [pos] bytes
    have become the first [new_end pos ops_]. *)
Fixpoint new_end (pos : Z) (ops_ : list svn_txdelta_op_t) : option Z :=
  match ops_ with
  | [] => Some pos
  | op :: ops_ =>
      if action_eqb (action_code op) svn_txdelta_new
      then if offset op =? pos then new_end (pos + op_length op) ops_ else None
      else new_end pos ops_
  end.

Definition source_ops (ops_ : list svn_txdelta_op_t) : Z :=
  Z.of_nat (length (List.filter (λ op, action_eqb (action_code op) svn_txdelta_source) ops_)).

Definition baton_text (sbuf : list byte) (b : ops_baton) : list byte :=
  expand sbuf (bb_new_data b) [] (bb_ops b).

(** The ops are valid, and use up the new data in ascending order. *)
Record baton_wf (slen : Z) (b : ops_baton) : Prop := {
  baton_ops : ops_valid slen (blen (bb_new_data b)) 0 (bb_ops b) = true;
  baton_new : new_end 0 (bb_ops b) = Some (blen (bb_new_data b));
  baton_size : (length (bb_ops b) <= bb_ops_size b)%nat;
}.

Lemma action_eqb_spec a b : reflect (a = b) (action_eqb a b).
Proof. apply bool_decide_reflect. Qed.

Lemma ops_valid_app slen nlen tpos ops1 ops2 :
  ops_valid slen nlen tpos (ops1 ++ ops2)
  = ops_valid slen nlen tpos ops1 && ops_valid slen nlen (tpos + ops_length ops1) ops2.
Proof.
  revert tpos; induction ops1 as [|op ops1 IH]; intros tpos; simpl; [by rewrite Z.add_0_r|].
  by rewrite IH, Z.add_assoc, andb_assoc.
Qed.

Lemma ops_length_app ops1 ops2 : ops_length (ops1 ++ ops2) = ops_length ops1 + ops_length ops2.
Proof. induction ops1 as [|op ops1 IH]; simpl; lia. Qed.

Lemma new_end_app pos ops1 ops2 :
  new_end pos (ops1 ++ ops2) = pos' ← new_end pos ops1; new_end pos' ops2.
Proof.
  revert pos; induction ops1 as [|op ops1 IH]; intros pos; simpl; [done|].
  repeat case_if; auto.
Qed.

Lemma ops_valid_weaken slen nlen nlen' tpos ops_ :
  nlen <= nlen' → ops_valid slen nlen tpos ops_ = true → ops_valid slen nlen' tpos ops_ = true.
Proof.
  intros Hn. revert tpos; induction ops_ as [|op ops_ IH]; intros tpos; simpl; [done|].
  intros [Ho Hos]%andb_true_iff. rewrite IH by done. unfold op_valid in *.
  destruct (action_code op); lia.
Qed.

Lemma ops_length_nonneg slen nlen tpos ops_ :
  ops_valid slen nlen tpos ops_ = true → 0 <= ops_length ops_.
Proof.
  revert tpos; induction ops_ as [|op ops_ IH]; intros tpos; simpl; [lia|].
  intros [Ho Hos]%andb_true_iff. specialize (IH _ Hos). unfold op_valid in Ho. lia.
Qed.

(** New data behind what the ops use do not matter. *)
Lemma expand_more_new sbuf new extra slen tpos target ops_ :
  ops_valid slen (blen new) tpos ops_ = true →
  expand sbuf (new ++ extra) target ops_ = expand sbuf new target ops_.
Proof.
  revert tpos target; induction ops_ as [|op ops_ IH]; intros tpos target; simpl; [done|].
  intros [Ho Hos]%andb_true_iff. rewrite (IH _ _ Hos). f_equal.
  unfold apply_op, op_valid in *. destruct (action_code op); [done..|].
  rewrite bytes_at_app; [done|lia..].
Qed.

(** The text that an inserted op stands for. *)
Definition inserted_text (sbuf target : list byte) (opcode : svn_delta_action)
    (offset_ length_ : Z) (data : list byte) : list byte :=
  match opcode with
  | svn_txdelta_source => target ++ bytes_at offset_ length_ sbuf
  | svn_txdelta_target => copy_bytes target (Z.to_nat offset_) (Z.to_nat length_)
  | svn_txdelta_new => target ++ bytes_at 0 length_ data
  end.

Definition insertable (slen : Z) (b : ops_baton) (opcode : svn_delta_action)
    (offset_ length_ : Z) (data : list byte) : Prop :=
  0 <= length_
  ∧ match opcode with
    | svn_txdelta_source => 0 <= offset_ ∧ offset_ + length_ <= slen
    | svn_txdelta_target => 0 <= offset_ < ops_length (bb_ops b)
    | svn_txdelta_new => length_ <= blen data
    end.

Section Insert.
Context (sbuf : list byte) (slen : Z).
Hypothesis Hsbuf : slen <= blen sbuf.
Context (opcode : svn_delta_action) (offset_ length_ : Z) (data : list byte).

(** What is added to the new data. *)
Definition extra_data : list byte :=
  if action_eqb opcode svn_txdelta_new then bytes_at 0 length_ data else [].

Lemma if_app_extra (new : list byte) :
  (if action_eqb opcode svn_txdelta_new then new ++ bytes_at 0 length_ data else new)
  = new ++ extra_data.
Proof. unfold extra_data. case_if; [done|by rewrite app_nil_r]. Qed.

Lemma extra_data_length b :
  insertable slen b opcode offset_ length_ data →
  blen extra_data = if action_eqb opcode svn_txdelta_new then length_ else 0.
Proof.
  unfold insertable, extra_data. intros [? Hi].
  destruct (action_eqb_spec opcode svn_txdelta_new) as [->|]; [|done].
  apply blen_bytes_at; lia.
Qed.

Definition pushed_op (new : list byte) : svn_txdelta_op_t :=
  MkOp opcode (if action_eqb opcode svn_txdelta_new then blen new else offset_) length_.

Lemma push_op_ok b src size :
  baton_wf slen b → insertable slen b opcode offset_ length_ data →
  (length (bb_ops b) < size)%nat →
  let b' := MkBaton src size (bb_ops b ++ [pushed_op (bb_new_data b)])
              (bb_new_data b ++ extra_data) in
  baton_wf slen b'
  ∧ baton_text sbuf b' = inserted_text sbuf (baton_text sbuf b) opcode offset_ length_ data
  ∧ source_ops (bb_ops b')
    = source_ops (bb_ops b) + (if action_eqb opcode svn_txdelta_source then 1 else 0).
Proof.
  intros [Hops Hnew Hsize] Hi Hsz. pose proof (extra_data_length b Hi) as Hex.
  destruct b as [src0 size0 ops_ new]; simpl in *. destruct Hi as [Hl Hi]. simpl in Hi.
  assert (0 <= blen extra_data) by (unfold blen; lia).
  split; [split; simpl|split].
  - rewrite ops_valid_app, blen_app.
    rewrite (ops_valid_weaken slen (blen new)) by (done || lia). simpl.
    unfold op_valid, pushed_op. simpl. rewrite Hex.
    destruct opcode; simpl in *; unfold blen; lia.
  - rewrite new_end_app, Hnew. simpl. unfold pushed_op. simpl. rewrite blen_app, Hex.
    destruct opcode; simpl; rewrite ?Z.add_0_r, ?Z.eqb_refl; done.
  - rewrite length_app. simpl. lia.
  - unfold baton_text. simpl. rewrite expand_app. simpl.
    rewrite (expand_more_new _ _ _ slen 0) by done.
    unfold apply_op, inserted_text, pushed_op, extra_data. simpl.
    destruct opcode; simpl; [done..|].
    rewrite bytes_at_middle by lia. f_equal. apply bytes_at_idemp.
  - simpl. unfold source_ops. rewrite List.filter_app, length_app. simpl.
    destruct opcode; simpl; lia.
Qed.

Lemma merge_op_ok b src init op :
  baton_wf slen b → insertable slen b opcode offset_ length_ data →
  bb_ops b = init ++ [op] → action_code op = opcode →
  opcode = svn_txdelta_new ∨ offset op + op_length op = offset_ →
  let b' := MkBaton src (bb_ops_size b)
              (init ++ [MkOp (action_code op) (offset op) (op_length op + length_)])
              (bb_new_data b ++ extra_data) in
  baton_wf slen b'
  ∧ baton_text sbuf b' = inserted_text sbuf (baton_text sbuf b) opcode offset_ length_ data
  ∧ source_ops (bb_ops b') = source_ops (bb_ops b).
Proof.
  intros [Hops Hnew Hsize] Hi Hb Hop Hadj. pose proof (extra_data_length b Hi) as Hex.
  destruct b as [src0 size0 ops_ new]; simpl in *. subst ops_. destruct Hi as [Hl Hi].
  simpl in Hi. assert (0 <= blen extra_data) by (unfold blen; lia).
  rewrite ops_valid_app in Hops. simpl in Hops. rewrite andb_true_r in Hops.
  apply andb_true_iff in Hops as [Hinit Hlast].
  rewrite new_end_app in Hnew.
  destruct (new_end 0 init) as [pos|] eqn:Hpos; [|done]. simpl in Hnew. rewrite Hop in Hnew.
  rewrite ops_length_app in Hi. simpl in Hi.
  assert (Hnewop : opcode = svn_txdelta_new → offset op = pos ∧ pos + op_length op = blen new).
  { intros ->. simpl in Hnew. destruct (Z.eqb_spec (offset op) pos); [|done].
    by injection Hnew as <-. }
  unfold op_valid in Hlast. rewrite Hop in Hlast.
  split; [split; simpl|split].
  - rewrite ops_valid_app, blen_app.
    rewrite (ops_valid_weaken slen (blen new)) by (done || lia). simpl.
    unfold op_valid. simpl. rewrite Hex, Hop.
    destruct opcode; simpl in *; destruct Hadj; try lia; try done;
      destruct Hnewop; done || lia.
  - rewrite new_end_app, Hpos. simpl. rewrite Hop, blen_app, Hex.
    destruct opcode; simpl in *; [by rewrite Z.add_0_r..|].
    destruct Hnewop as [-> ?]; [done|]. rewrite Z.eqb_refl. f_equal. lia.
  - by rewrite length_app in *.
  - unfold baton_text. simpl. rewrite !expand_app. simpl.
    rewrite (expand_more_new _ _ _ slen 0) by done.
    unfold apply_op, inserted_text, extra_data. simpl. rewrite Hop.
    destruct opcode; simpl in *.
    + destruct Hadj as [?|<-]; [done|]. by rewrite bytes_at_split, app_assoc by lia.
    + destruct Hadj as [?|<-]; [done|].
      by rewrite !Z2Nat.inj_add, copy_bytes_add by lia.
    + destruct Hnewop as [Ho Hn]; [done|]. rewrite bytes_at_split by lia.
      rewrite bytes_at_app by lia. rewrite <- app_assoc. f_equal. f_equal.
      replace (offset op + op_length op) with (blen new) by lia.
      rewrite bytes_at_middle by lia. apply bytes_at_idemp.
  - simpl. unfold source_ops. rewrite !List.filter_app, !length_app. simpl.
    by destruct (action_eqb (action_code op) svn_txdelta_source).
Qed.
End Insert.

(** An op is merged with the one before it when it continues it. *)
Lemma insert_op_ok sbuf slen b opcode offset_ length_ data :
  slen <= blen sbuf → baton_wf slen b → insertable slen b opcode offset_ length_ data →
  let b' := svn_txdelta__insert_op b opcode offset_ length_ data in
  baton_wf slen b'
  ∧ baton_text sbuf b' = inserted_text sbuf (baton_text sbuf b) opcode offset_ length_ data
  ∧ bb_src_ops b' - source_ops (bb_ops b') = bb_src_ops b - source_ops (bb_ops b).
Proof.
  intros Hs Hwf Hi. destruct b as [src size ops_ new]. simpl.
  assert (Hpush : let b' := MkBaton (if action_eqb opcode svn_txdelta_source then src + 1 else src)
      (if (length ops_ =? size)%nat then (if (size =? 0)%nat then 16 else 2 * size)%nat else size)
      (ops_ ++ [pushed_op opcode offset_ length_ new]) (new ++ extra_data opcode length_ data) in
    baton_wf slen b'
    ∧ baton_text sbuf b' = inserted_text sbuf (baton_text sbuf (MkBaton src size ops_ new))
                             opcode offset_ length_ data
    ∧ bb_src_ops b' - source_ops (bb_ops b') = src - source_ops ops_).
  { pose proof (baton_size _ _ Hwf) as Hsz. simpl in Hsz.
    destruct (push_op_ok sbuf slen opcode offset_ length_ data (MkBaton src size ops_ new)
      (if action_eqb opcode svn_txdelta_source then src + 1 else src)
      (if (length ops_ =? size)%nat then (if (size =? 0)%nat then 16 else 2 * size)%nat else size)
      Hwf Hi) as (H1 & H2 & H3).
    { simpl. destruct (Nat.eqb_spec (length ops_) size); [|lia].
      destruct (Nat.eqb_spec size 0); lia. }
    simpl. split; [exact H1|]. split; [exact H2|]. simpl in H3. rewrite H3. case_if; lia. }
  rewrite if_app_extra. fold (pushed_op opcode offset_ length_ new).
  destruct (last ops_) as [op|] eqn:Hlast; [|done].
  case_if; [|done]. apply last_Some in Hlast as [init ->].
  rewrite length_app. simpl length. rewrite Nat.add_sub, take_app_length.
  apply andb_true_iff in Hif as [Hop Hadj]. destruct (action_eqb_spec (action_code op) opcode);
    [|done].
  destruct (merge_op_ok sbuf slen opcode offset_ length_ data
    (MkBaton src size (init ++ [op]) new) src init op Hwf Hi eq_refl) as (H1 & H2 & H3);
    [done| |].
  { destruct (action_eqb_spec opcode svn_txdelta_new); [by left|right; simpl in Hadj; lia]. }
  split; [exact H1|]. split; [exact H2|]. simpl in *. by rewrite H3.
Qed.

(** svn_txdelta__insert_op keeps the instructions well formed and appends
    exactly the inserted text to the text built so far, also when it merges
    the new op with the previous one; the source-op counter moves with the
    number of source ops. *)
Theorem svn_txdelta__insert_op_spec sbuf (slen : Z) (b : ops_baton)
    (opcode : svn_delta_action) (offset_ length_ : Z) (data : list byte) :
  slen <= blen sbuf → baton_wf slen b → insertable slen b opcode offset_ length_ data →
  let b' := svn_txdelta__insert_op b opcode offset_ length_ data in
  baton_wf slen b'
  ∧ baton_text sbuf b' = inserted_text sbuf (baton_text sbuf b) opcode offset_ length_ data
  ∧ bb_src_ops b' - source_ops (bb_ops b') = bb_src_ops b - source_ops (bb_ops b).
Proof. apply insert_op_ok. Qed.

Lemma svn_txdelta__insert_op_spec_witness :
  let bytes := String.list_byte_of_string in
  let b := MkBaton 1 16 [MkOp svn_txdelta_new 0 2; MkOp svn_txdelta_source 1 2] (bytes "ab") in
  let b' := svn_txdelta__insert_op b svn_txdelta_source 3 1 [] in
  baton_wf 4 b'
  ∧ baton_text (bytes "wxyz") b'
    = inserted_text (bytes "wxyz") (baton_text (bytes "wxyz") b) svn_txdelta_source 3 1 []
  ∧ bb_src_ops b' - source_ops (bb_ops b') = bb_src_ops b - source_ops (bb_ops b).
Proof.
  apply svn_txdelta__insert_op_spec; [done| |].
  - split; simpl; [done|done|lia].
  - split; lia.
Defined.

(** ** Taking ops back *)

Lemma ops_valid_new_end slen nlen tpos pos ops_ q :
  ops_valid slen nlen tpos ops_ = true → new_end pos ops_ = Some q →
  pos <= q ∧ ops_valid slen q tpos ops_ = true.
Proof.
  revert tpos pos; induction ops_ as [|op ops_ IH]; intros tpos pos; simpl.
  { intros _ [= ->]. by split. }
  intros [Ho Hos]%andb_true_iff He. unfold op_valid in *.
  destruct (action_code op); simpl in *.
  - destruct (IH _ _ Hos He) as [? ->]. split; [done|lia].
  - destruct (IH _ _ Hos He) as [? ->]. split; [done|lia].
  - destruct (Z.eqb_spec (offset op) pos) as [Hp|]; [|done].
    destruct (IH _ _ Hos He) as [? ->]. split; lia.
Qed.

Section Remove.
Context (sbuf : list byte) (slen : Z).
Hypothesis Hsbuf : slen <= blen sbuf.

(** Ops and new data that belong together. *)
Definition ops_wf (ops_ : list svn_txdelta_op_t) (new : list byte) : Prop :=
  ops_valid slen (blen new) 0 ops_ = true ∧ new_end 0 ops_ = Some (blen new).

Lemma shorten_app (s : list byte) (n : Z) :
  0 <= n <= blen s → ∃ extra, s = shorten n s ++ extra ∧ blen (shorten n s) = blen s - n.
Proof.
  intros Hn. exists (drop (Z.to_nat (blen s - n)) s). unfold shorten.
  rewrite take_drop. split; [done|]. unfold blen in *. rewrite length_take. lia.
Qed.

(** Shorten the last op by [n], and its new data with it. *)
Lemma shorten_last init op new n :
  ops_wf (init ++ [op]) new → action_code op = svn_txdelta_new → 0 <= n <= op_length op →
  let new' := shorten n new in
  let ops' := init ++ [MkOp (action_code op) (offset op) (op_length op - n)] in
  ops_wf ops' new'
  ∧ expand sbuf new' [] ops'
    = take (Z.to_nat (ops_length (init ++ [op]) - n)) (expand sbuf new [] (init ++ [op])).
Proof.
  intros [Hv Hn] Hop Hle. rewrite ops_valid_app in Hv. apply andb_true_iff in Hv as [Hi Hl].
  simpl in Hl. rewrite andb_true_r in Hl. assert (Hlv := Hl).
  unfold op_valid in Hl. rewrite Hop in Hl.
  rewrite new_end_app in Hn. destruct (new_end 0 init) as [pos|] eqn:Hpos; [|done].
  simpl in Hn. rewrite Hop in Hn. simpl in Hn.
  destruct (Z.eqb_spec (offset op) pos) as [Ho|]; [|done]. injection Hn as Hn.
  destruct (ops_valid_new_end _ _ _ _ _ _ Hi Hpos) as [Hpos0 Hi'].
  destruct (shorten_app new n) as (extra & Hnew & Hshort); [lia|].
  set (new' := shorten n new) in *. simpl.
  assert (Hinit' : ops_valid slen (blen new') 0 init = true).
  { apply (ops_valid_weaken slen pos); [lia|done]. }
  split; [split|].
  - rewrite ops_valid_app, Hinit'. simpl. unfold op_valid. simpl. rewrite Hop. lia.
  - rewrite new_end_app, Hpos. simpl. rewrite Hop. simpl.
    destruct (Z.eqb_spec (offset op) pos); [|done]. f_equal. lia.
  - rewrite !expand_app. simpl.
    assert (Hexp : expand sbuf new [] init = expand sbuf new' [] init).
    { rewrite Hnew. by apply (expand_more_new _ _ _ slen 0). }
    rewrite Hexp.
    assert (Htlen : blen (expand sbuf new' [] init) = ops_length init).
    { rewrite (expand_length _ _ slen) by done. done. }
    rewrite <- Hexp in Htlen |- *.
    assert (apply_op sbuf new' (expand sbuf new [] init)
              (MkOp (action_code op) (offset op) (op_length op - n))
            = apply_op sbuf new (expand sbuf new [] init)
              (MkOp (action_code op) (offset op) (op_length op - n))) as ->.
    { unfold apply_op. simpl. rewrite Hop. f_equal. rewrite Hnew.
      by rewrite bytes_at_app by lia. }
    rewrite (apply_op_cut sbuf new slen); [|by rewrite Htlen|lia].
    f_equal. rewrite ops_length_app. simpl. unfold blen in Htlen.
    pose proof (ops_length_nonneg _ _ _ _ Hi). lia.
Qed.

Lemma drop_last init op new :
  ops_wf (init ++ [op]) new →
  let new' := if action_eqb (action_code op) svn_txdelta_new
              then shorten (op_length op) new else new in
  ops_wf init new'
  ∧ expand sbuf new' [] init
    = take (Z.to_nat (ops_length init)) (expand sbuf new [] (init ++ [op])).
Proof.
  intros [Hv Hn]. rewrite ops_valid_app in Hv. apply andb_true_iff in Hv as [Hi Hl].
  simpl in Hl. rewrite andb_true_r in Hl. unfold op_valid in Hl.
  rewrite new_end_app in Hn. destruct (new_end 0 init) as [pos|] eqn:Hpos; [|done].
  simpl in Hn.
  destruct (ops_valid_new_end _ _ _ _ _ _ Hi Hpos) as [Hpos0 Hi'].
  set (new' := if action_eqb (action_code op) svn_txdelta_new
               then shorten (op_length op) new else new).
  assert (∃ extra, new = new' ++ extra ∧ blen new' = pos) as (extra & Hnew & Hshort).
  { unfold new'. case_if.
    - destruct (Z.eqb_spec (offset op) pos); [|done]. injection Hn as Hn.
      destruct (shorten_app new (op_length op)) as (extra & ? & ?); [lia|].
      exists extra. split; [done|lia].
    - injection Hn as ->. exists []. by rewrite app_nil_r. }
  assert (Hinit' : ops_valid slen (blen new') 0 init = true) by by rewrite Hshort.
  split; [split; [done|by rewrite Hpos, Hshort]|].
  rewrite expand_app. cbn [expand].
  assert (Hexp : expand sbuf new [] init = expand sbuf new' [] init).
  { rewrite Hnew. by apply (expand_more_new _ _ _ slen 0). }
  rewrite Hexp.
  assert (Htlen : blen (expand sbuf new' [] init) = ops_length init).
  { rewrite (expand_length _ _ slen) by done. done. }
  rewrite <- (apply_op_prefix sbuf new (expand sbuf new' [] init) op) at 1.
  f_equal. unfold blen in Htlen. lia.
Qed.

Lemma remove_copy_loop_ok rev_ops new max_len len :
  ops_wf (reverse rev_ops) new → 0 <= len <= max_len →
  let '(rev_ops', new', n) := remove_copy_loop rev_ops new max_len len in
  ops_wf (reverse rev_ops') new' ∧ len <= n <= max_len
  ∧ (length rev_ops' <= length rev_ops)%nat
  ∧ n - len <= ops_length (reverse rev_ops)
  ∧ expand sbuf new' [] (reverse rev_ops')
    = take (Z.to_nat (ops_length (reverse rev_ops) - (n - len)))
        (expand sbuf new [] (reverse rev_ops)).
Proof.
  revert new len; induction rev_ops as [|op rest IH]; intros new len Hwf Hlen.
  { simpl. split; [exact Hwf|]. do 3 (split; [lia|]). by rewrite take_nil. }
  assert (Hsame : ∀ l, l <= ops_length (reverse (op :: rest)) →
    expand sbuf new [] (reverse (op :: rest))
    = take (Z.to_nat (ops_length (reverse (op :: rest)) - (len - len)))
        (expand sbuf new [] (reverse (op :: rest)))).
  { intros l _. rewrite take_ge; [done|]. destruct Hwf as [Hv _].
    pose proof (expand_length sbuf new slen Hsbuf _ [] Hv) as Hl.
    unfold blen in Hl. simpl in Hl. lia. }
  pose proof (ops_length_nonneg _ _ _ _ (proj1 Hwf)) as Hnn.
  cbn [remove_copy_loop]. rewrite reverse_cons in *.
  destruct (action_eqb_spec (action_code op) svn_txdelta_target) as [_|_].
  { rewrite reverse_cons. split; [exact Hwf|]. do 3 (split; [lia|]). by apply (Hsame 0). }
  assert (Hopv : 0 <= op_length op ∧ 0 <= ops_length (reverse rest)).
  { destruct Hwf as [Hv _]. rewrite ops_valid_app in Hv. simpl in Hv.
    apply andb_true_iff in Hv as [Hv1 Hv2]. unfold op_valid in Hv2.
    pose proof (ops_length_nonneg _ _ _ _ Hv1). lia. }
  assert (Hsum : ops_length (reverse rest ++ [op]) = ops_length (reverse rest) + op_length op)
    by (rewrite ops_length_app; simpl; lia).
  destruct (Z.ltb_spec max_len (op_length op + len)) as [Hcut|Hwhole].
  - destruct (action_eqb_spec (action_code op) svn_txdelta_new) as [Hnew|_].
    + destruct (shorten_last (reverse rest) op new (max_len - len) Hwf Hnew) as [Hwf' Htext];
        [lia|]. rewrite reverse_cons.
      split; [exact Hwf'|]. split; [lia|]. split; [simpl; lia|]. split; [lia|exact Htext].
    + rewrite reverse_cons. split; [exact Hwf|]. do 3 (split; [lia|]). by apply (Hsame 0).
  - destruct (drop_last (reverse rest) op new Hwf) as [Hwf' Htext].
    set (new' := if action_eqb _ _ then _ else _) in *.
    specialize (IH new' (len + op_length op) Hwf' ltac:(lia)).
    destruct (remove_copy_loop rest new' max_len (len + op_length op)) as [[r' new2] removed].
    destruct IH as (? & ? & ? & ? & Ht). split; [done|]. split; [lia|].
    split; [simpl; lia|]. split; [lia|]. rewrite Ht, Htext, take_take. f_equal. lia.
Qed.
End Remove.

Lemma remove_copy_ok sbuf (slen : Z) (b : ops_baton) (max_len : Z) :
  slen <= blen sbuf → baton_wf slen b → 0 <= max_len →
  let '(b', removed) := svn_txdelta__remove_copy b max_len in
  baton_wf slen b' ∧ 0 <= removed <= max_len
  ∧ baton_text sbuf b'
    = take (Z.to_nat (blen (baton_text sbuf b) - removed)) (baton_text sbuf b).
Proof.
  intros Hs [Hv Hn Hsz] Hm. unfold svn_txdelta__remove_copy, baton_text.
  pose proof (remove_copy_loop_ok sbuf slen Hs (reverse (bb_ops b)) (bb_new_data b) max_len 0) as Hr.
  rewrite reverse_involutive in Hr. specialize (Hr (conj Hv Hn) ltac:(lia)).
  destruct (remove_copy_loop _ _ _ _) as [[r n] len]. simpl.
  destruct Hr as ([? ?] & ? & Hl & ? & Ht). rewrite length_reverse in Hl.
  split; [split; simpl; [done|done|rewrite length_reverse; lia]|]. split; [lia|].
  rewrite Ht. f_equal. rewrite (expand_length _ _ slen) by done. simpl. unfold blen. simpl. lia.
Qed.

(** svn_txdelta__remove_copy keeps the instructions well formed and removes
    from the end of the built text exactly as many bytes as it reports, at
    most max_len. *)
Theorem svn_txdelta__remove_copy_spec sbuf (slen : Z) (b : ops_baton) (max_len : Z) :
  slen <= blen sbuf → baton_wf slen b → 0 <= max_len →
  let '(b', removed) := svn_txdelta__remove_copy b max_len in
  baton_wf slen b' ∧ 0 <= removed <= max_len
  ∧ baton_text sbuf b'
    = take (Z.to_nat (blen (baton_text sbuf b) - removed)) (baton_text sbuf b).
Proof. apply remove_copy_ok. Qed.

Lemma svn_txdelta__remove_copy_spec_witness :
  let bytes := String.list_byte_of_string in
  let b := MkBaton 1 16 [MkOp svn_txdelta_new 0 4; MkOp svn_txdelta_source 1 2] (bytes "abcd") in
  let '(b', removed) := svn_txdelta__remove_copy b 5 in
  baton_wf 4 b' ∧ 0 <= removed <= 5
  ∧ baton_text (bytes "wxyz") b'
    = take (Z.to_nat (blen (baton_text (bytes "wxyz") b) - removed))
        (baton_text (bytes "wxyz") b).
Proof.
  apply (svn_txdelta__remove_copy_spec (String.list_byte_of_string "wxyz") 4
    (MkBaton 1 16 [MkOp svn_txdelta_new 0 4; MkOp svn_txdelta_source 1 2]
       (String.list_byte_of_string "abcd")) 5); [done| |lia].
  split; simpl; [done|done|lia].
Defined.

(** ** Empty ops, and the count of source ops *)

Definition ops_nonempty (ops_ : list svn_txdelta_op_t) : bool :=
  forallb (λ op, 0 <? op_length op) ops_.

Lemma insert_op_nonempty b opcode offset_ length_ data :
  0 < length_ → ops_nonempty (bb_ops b) = true →
  ops_nonempty (bb_ops (svn_txdelta__insert_op b opcode offset_ length_ data)) = true.
Proof.
  intros Hl. destruct b as [src size ops_ new]. unfold ops_nonempty. simpl. intros Hne.
  assert (forall op, 0 < op_length op →
    forallb (λ op, 0 <? op_length op) (ops_ ++ [op]) = true) as Happ.
  { intros op Hop. rewrite forallb_app, Hne. simpl. lia. }
  destruct (last ops_) as [op|] eqn:Hlast; [|by apply Happ].
  case_if; [|by apply Happ]. simpl. apply last_Some in Hlast as [init ->].
  rewrite length_app. simpl length. rewrite Nat.add_sub, take_app_length.
  rewrite forallb_app in *. simpl in *. lia.
Qed.

Lemma remove_copy_loop_nonempty rev_ops new max_len len :
  let '(rev_ops', _, _) := remove_copy_loop rev_ops new max_len len in
  (ops_nonempty rev_ops = true → ops_nonempty rev_ops' = true)
  ∧ source_ops rev_ops' <= source_ops rev_ops.
Proof.
  revert new len; induction rev_ops as [|op rest IH]; intros new len; [done|].
  cbn [remove_copy_loop]. case_if; [done|]. destruct (Z.ltb_spec max_len (op_length op + len)).
  - case_if; [|done]. unfold ops_nonempty, source_ops. simpl. split; [lia|].
    destruct (action_eqb (action_code op) svn_txdelta_source); simpl; lia.
  - specialize (IH (if action_eqb (action_code op) svn_txdelta_new
                    then shorten (op_length op) new else new) (len + op_length op)).
    destruct (remove_copy_loop _ _ _ _) as [[r n] l]. destruct IH as [IH1 IH2].
    unfold ops_nonempty, source_ops in *. simpl. split; [intros [? ?]%andb_true_iff; auto|].
    case_if; simpl; lia.
Qed.

Lemma forallb_reverse {A} (f : A → bool) (l : list A) : forallb f (reverse l) = forallb f l.
Proof.
  induction l as [|x l IH]; [done|]. rewrite reverse_cons, forallb_app, IH. simpl.
  by rewrite andb_true_r, andb_comm.
Qed.

Lemma source_ops_reverse ops_ : source_ops (reverse ops_) = source_ops ops_.
Proof.
  unfold source_ops. induction ops_ as [|op ops_ IH]; [done|].
  rewrite reverse_cons, List.filter_app, length_app. simpl. case_if; simpl; lia.
Qed.

Lemma remove_copy_nonempty b max_len :
  let '(b', _) := svn_txdelta__remove_copy b max_len in
  (ops_nonempty (bb_ops b) = true → ops_nonempty (bb_ops b') = true)
  ∧ bb_src_ops b' = bb_src_ops b ∧ source_ops (bb_ops b') <= source_ops (bb_ops b).
Proof.
  unfold svn_txdelta__remove_copy.
  pose proof (remove_copy_loop_nonempty (reverse (bb_ops b)) (bb_new_data b) max_len 0) as Hr.
  destruct (remove_copy_loop _ _ _ _) as [[r n] l]. simpl.
  unfold ops_nonempty in *. rewrite !forallb_reverse in *. rewrite !source_ops_reverse in *.
  tauto.
Qed.

(** Removing a copy-from-source op leaves the source-op counter behind: the
    window made afterwards announces a source op that it does not have. *)
Theorem svn_txdelta__remove_copy_src_ops (data : list byte) :
  let b := svn_txdelta__insert_op empty_baton svn_txdelta_source 0 4 data in
  let '(b', removed) := svn_txdelta__remove_copy b 4 in
  removed = 4 ∧ bb_ops b' = [] ∧ src_ops (svn_txdelta__make_window b') = 1.
Proof. done. Qed.
