(* ===== verification/Svndiff.v ===== *)
(** * The svndiff format

    [src/subversion/libsvn_delta/svndiff.c]: integers of variable length, the
    optional compression of a window's sections, the encoder of a sequence of
    windows, and the decoders, both the one that is fed chunks of a stream and
    the one that reads a window from a stream.

    A pointer range [P..END) is the list of its bytes.  zlib is a parameter. *)
From S2P Require Import Prelude TextDelta.

Definition MIN_COMPRESS_SIZE : Z := 512.
Definition MAX_ENCODED_INT_LEN : Z := 10.
Definition MAX_INSTRUCTION_LEN : Z := 2 * MAX_ENCODED_INT_LEN + 1.
Definition MAX_INSTRUCTION_SECTION_LEN : Z := SVN_DELTA_WINDOW_SIZE * MAX_INSTRUCTION_LEN.
Definition SVN_DELTA_COMPRESSION_LEVEL_NONE : Z := 0.
Definition SVN_DELTA_COMPRESSION_LEVEL_DEFAULT : Z := 5.

(** ** zlib *)

Inductive zlib_error :=
  Z_STREAM_ERROR | Z_MEM_ERROR | Z_BUF_ERROR | Z_VERSION_ERROR | Z_DATA_ERROR | Z_OTHER.

(** [compress2 data level], into a buffer of [compressBound] bytes, and
    [uncompress size data], into a buffer of [size] bytes: the documentation
    promises that the latter undoes the former, and that it stays within its
    buffer. *)
Class Zlib := {
  compress2 : list byte → Z → list byte + zlib_error;
  uncompress : Z → list byte → list byte + zlib_error;
  uncompress_compress2 : ∀ data level z,
    compress2 data level = inl z → uncompress (blen data) z = inl data;
  uncompress_bound : ∀ size z data, uncompress size z = inl data → blen data <= size;
}.

Definition svn_error__wrap_zlib {A} (r : A + zlib_error) : result A :=
  match r with
  | inl a => Ok a
  | inr Z_STREAM_ERROR => Error SVN_ERR_STREAM_MALFORMED_DATA
  | inr Z_MEM_ERROR => Error APR_ENOMEM
  | inr Z_BUF_ERROR => Error APR_ENOMEM
  | inr Z_VERSION_ERROR => Error SVN_ERR_STREAM_UNRECOGNIZED_DATA
  | inr Z_DATA_ERROR => Error SVN_ERR_STREAM_MALFORMED_DATA
  | inr Z_OTHER => Error SVN_ERR_STREAM_UNRECOGNIZED_DATA
  end.

(** ** Encoding *)

(** The loop that counts the bytes needed after the first one. *)
Fixpoint int_bytes (fuel : nat) (v : Z) (n : Z) : Z :=
  match fuel with
  | O => n
  | S fuel => if 0 <? v then int_bytes fuel (Z.shiftr v 7) (n + 1) else n
  end.

(** The loop that writes [n] bytes. *)
Fixpoint int_digits (n : nat) (val : Z) : list byte :=
  match n with
  | O => []
  | S n =>
      let cont := Z.shiftl (if (0 <? n)%nat then 1 else 0) 7 in
      byte_of (Z.lor (Z.land (Z.shiftr val (Z.of_nat n * 7)) 0x7f) cont) :: int_digits n val
  end.

(** Ten rounds are more than a 63-bit value needs, and one more than the
    assertion admits. *)
Definition encode_int (val : Z) : result (list byte) :=
  assert! 0 <=? val in
  let n := int_bytes 10 (Z.shiftr val 7) 1 in
  assert! n <=? MAX_ENCODED_INT_LEN in
  Ok (int_digits (Z.to_nat n) val).

(** An [apr_size_t] argument is converted to [svn_filesize_t]. *)
Definition append_encoded_int (header : list byte) (val : Z) : result (list byte) :=
  let! p := encode_int (s64 val) in Ok (header ++ p).

Section Encoder.
Context `{Zlib}.

Definition zlib_encode (data : list byte) (compression_level : Z) : result (list byte) :=
  let len := blen data in
  let! out := append_encoded_int [] len in
  if (len <? MIN_COMPRESS_SIZE) || (compression_level =? SVN_DELTA_COMPRESSION_LEVEL_NONE)
  then Ok (out ++ data)
  else
    let! compressed := svn_error__wrap_zlib (compress2 data compression_level) in
    if len <=? blen compressed then Ok (out ++ data) else Ok (out ++ compressed).

Definition action_bits (action : svn_delta_action) : Z :=
  match action with
  | svn_txdelta_source => 0
  | svn_txdelta_target => Z.shiftl 1 6
  | svn_txdelta_new => Z.shiftl 2 6
  end.

(** One round of the loop over the instructions of [window_handler]. *)
Definition encode_op (op : svn_txdelta_op_t) : result (list byte) :=
  let ip := action_bits (action_code op) in
  let! head :=
    if Z.shiftr (op_length op) 6 =? 0 then Ok [byte_of (Z.lor ip (op_length op))]
    else let! p := encode_int (s64 (op_length op)) in Ok (byte_of ip :: p) in
  let! tail :=
    if action_eqb (action_code op) svn_txdelta_new then Ok []
    else encode_int (s64 (offset op)) in
  Ok (head ++ tail).

Fixpoint encode_ops (ops_ : list svn_txdelta_op_t) : result (list byte) :=
  match ops_ with
  | [] => Ok []
  | op :: ops_ =>
      let! ibuf := encode_op op in
      let! instructions := encode_ops ops_ in
      Ok (ibuf ++ instructions)
  end.

(** [output] is what has been written to the stream. *)
Record encoder_baton := MkEncoder {
  output : list byte;
  output_closed : bool;
  header_done : bool;
  enc_version : Z;
  compression_level : Z;
}.

(** What [window_handler] writes for a window, behind the header. *)
Definition encode_window (version level : Z) (window : svn_txdelta_window_t)
    : result (list byte) :=
  let! instructions := encode_ops (ops window) in
  let! header := append_encoded_int [] (sview_offset window) in
  let! header := append_encoded_int header (sview_len window) in
  let! header := append_encoded_int header (tview_len window) in
  let! instructions :=
    if version =? 1 then zlib_encode instructions level else Ok instructions in
  let! header := append_encoded_int header (blen instructions) in
  let! newdata :=
    if version =? 1 then zlib_encode (new_data window) level else Ok (new_data window) in
  let! header := append_encoded_int header (blen newdata) in
  Ok (header ++ instructions ++ newdata).

Definition svndiff_header (version : Z) : list byte :=
  ["S"%byte; "V"%byte; "N"%byte; byte_of version].

Definition window_handler (window : option svn_txdelta_window_t) (eb : encoder_baton)
    : result encoder_baton :=
  let 'MkEncoder out closed done version level := eb in
  let out := if done then out else out ++ svndiff_header version in
  match window with
  | None => Ok (MkEncoder out true true version level)
  | Some window =>
      let! bytes := encode_window version level window in
      Ok (MkEncoder (out ++ bytes) closed true version level)
  end.

Definition svn_txdelta_to_svndiff3 (svndiff_version level : Z) : encoder_baton :=
  MkEncoder [] false false svndiff_version level.

Definition svn_txdelta_to_svndiff2 (svndiff_version : Z) : encoder_baton :=
  svn_txdelta_to_svndiff3 svndiff_version SVN_DELTA_COMPRESSION_LEVEL_DEFAULT.

Definition svn_txdelta_to_svndiff : encoder_baton :=
  svn_txdelta_to_svndiff3 0 SVN_DELTA_COMPRESSION_LEVEL_DEFAULT.
End Encoder.

(** ** Decoding integers *)

(** The loop of [decode_file_offset] and [decode_size], [conv] being the
    conversion to the type of the result; at most [n] bytes are read. *)
Fixpoint decode_loop (conv : Z → Z) (n : nat) (temp : Z) (p : list byte)
    : option (Z * list byte) :=
  match n, p with
  | S n, c :: p =>
      let temp := conv (Z.lor (Z.shiftl temp 7) (Z.land (byte_val c) 0x7f)) in
      if byte_val c <? 0x80 then Some (temp, p) else decode_loop conv n temp p
  | _, _ => None
  end.

Definition decode_file_offset (p : list byte) : option (Z * list byte) :=
  decode_loop s64 (Z.to_nat MAX_ENCODED_INT_LEN) 0 p.

Definition decode_size (p : list byte) : option (Z * list byte) :=
  decode_loop u64 (Z.to_nat MAX_ENCODED_INT_LEN) 0 p.

(** ** Decoding windows *)

Section Decoder.
Context `{Zlib}.

(** The copy that is saved when [copyless_allowed] is set has the same bytes. *)
Definition zlib_decode (input : list byte) (limit : Z) : result (list byte) :=
  match decode_size input with
  | None => Error SVN_ERR_SVNDIFF_INVALID_COMPRESSED_DATA
  | Some (len, input) =>
      if limit <? len then Error SVN_ERR_SVNDIFF_INVALID_COMPRESSED_DATA
      else if blen input =? len then Ok input
      else
        let! out := svn_error__wrap_zlib (uncompress len input) in
        if negb (blen out =? len) then Error SVN_ERR_SVNDIFF_INVALID_COMPRESSED_DATA
        else Ok out
  end.

(** The offset of a [svn_txdelta_new] is not set by the code; it is 0 here,
    and not read before [decode_window] sets it. *)
Definition decode_instruction (p : list byte) : option (svn_txdelta_op_t * list byte) :=
  match p with
  | [] => None
  | c :: p =>
      let c := byte_val c in
      let action := Z.land (Z.shiftr c 6) 3 in
      if 3 <=? action then None
      else
        let action := if action =? 0 then svn_txdelta_source
                      else if action =? 1 then svn_txdelta_target else svn_txdelta_new in
        let length_ := Z.land c 0x3f in
        '(length_, p) ← (if length_ =? 0 then decode_size p else Some (length_, p));
        '(offset_, p) ← (if negb (action_eqb action svn_txdelta_new) then decode_size p
                         else Some (0, p));
        Some (MkOp action offset_ length_, p)
  end.

(** Every instruction takes at least a byte, so the length of the section is
    enough fuel. *)
Fixpoint count_loop (fuel : nat) (p : list byte) (sview_len tview_len new_len : Z)
    (n tpos npos : Z) : result Z :=
  match p with
  | [] =>
      if negb (tpos =? tview_len) then Error SVN_ERR_SVNDIFF_INVALID_OPS
      else if negb (npos =? new_len) then Error SVN_ERR_SVNDIFF_INVALID_OPS
      else Ok n
  | _ =>
      match fuel with
      | O => OutOfFuel
      | S fuel =>
          match decode_instruction p with
          | None => Error SVN_ERR_SVNDIFF_INVALID_OPS
          | Some (op, p) =>
              if op_length op =? 0 then Error SVN_ERR_SVNDIFF_INVALID_OPS
              else if u64 (tview_len - tpos) <? op_length op
              then Error SVN_ERR_SVNDIFF_INVALID_OPS
              else
                let! npos :=
                  match action_code op with
                  | svn_txdelta_source =>
                      if (u64 (sview_len - offset op) <? op_length op)
                         || (sview_len <? offset op)
                      then Error SVN_ERR_SVNDIFF_INVALID_OPS else Ok npos
                  | svn_txdelta_target =>
                      if tpos <=? offset op then Error SVN_ERR_SVNDIFF_INVALID_OPS
                      else Ok npos
                  | svn_txdelta_new =>
                      if u64 (new_len - npos) <? op_length op
                      then Error SVN_ERR_SVNDIFF_INVALID_OPS
                      else Ok (u64 (npos + op_length op))
                  end in
                count_loop fuel p sview_len tview_len new_len (n + 1)
                  (u64 (tpos + op_length op)) npos
          end
      end
  end.

(** Returns [*ninst]. *)
Definition count_and_verify_instructions (p : list byte)
    (sview_len tview_len new_len : Z) : result Z :=
  count_loop (length p) p sview_len tview_len new_len 0 0 0.

(** The second loop over the instructions; a NULL from [decode_instruction]
    would be dereferenced. *)
Fixpoint decode_ops (ninst : nat) (data : list byte) (npos : Z)
    : result (list svn_txdelta_op_t * Z * list byte) :=
  match ninst with
  | O => Ok ([], 0, data)
  | S ninst =>
      match decode_instruction data with
      | None => Undefined
      | Some (op, data) =>
          let '(op, npos) :=
            if action_eqb (action_code op) svn_txdelta_new
            then (MkOp svn_txdelta_new npos (op_length op), u64 (npos + op_length op))
            else (op, npos) in
          let! decoded := decode_ops ninst data npos in
          let '(ops_, src_ops_, data) := decoded in
          Ok (op :: ops_,
              (if action_eqb (action_code op) svn_txdelta_source then 1 else 0) + src_ops_,
              data)
      end
  end.

(** [data] starts with the [inslen + newlen] bytes of the two sections. *)
Definition decode_window (sview_offset_ sview_len_ tview_len_ inslen newlen : Z)
    (data : list byte) (version : Z) : result svn_txdelta_window_t :=
  let insend := drop (Z.to_nat inslen) data in
  let instructions := bytes_at 0 inslen data in
  let! sections :=
    if version =? 1 then
      let! ndout := zlib_decode (bytes_at 0 newlen insend) SVN_DELTA_WINDOW_SIZE in
      let! instout := zlib_decode instructions MAX_INSTRUCTION_SECTION_LEN in
      Ok (instout, ndout)
    else Ok (instructions, bytes_at 0 newlen insend) in
  let '(instructions, new_data_) := sections in
  let! ninst :=
    count_and_verify_instructions instructions sview_len_ tview_len_ (blen new_data_) in
  let! decoded := decode_ops (Z.to_nat ninst) instructions 0 in
  let '(ops_, src_ops_, rest) := decoded in
  assert! (length rest =? 0)%nat in
  Ok (MkWindow sview_offset_ sview_len_ tview_len_ src_ops_ ops_ new_data_).

(** The five integers of a window header. *)
Record window_header := MkHeader {
  h_sview_offset : Z;
  h_sview_len : Z;
  h_tview_len : Z;
  h_inslen : Z;
  h_newlen : Z;
}.

Definition decode_header (p : list byte) : option (window_header * list byte) :=
  '(sview_offset_, p) ← decode_file_offset p;
  '(sview_len_, p) ← decode_size p;
  '(tview_len_, p) ← decode_size p;
  '(inslen, p) ← decode_size p;
  '(newlen, p) ← decode_size p;
  Some (MkHeader sview_offset_ sview_len_ tview_len_ inslen newlen, p).

(** The checks for size and for integer overflow, in [write_handler] and in
    [read_window_header]. *)
Definition header_too_large (h : window_header) : bool :=
  (SVN_DELTA_WINDOW_SIZE <? h_tview_len h) || (SVN_DELTA_WINDOW_SIZE <? h_sview_len h)
  || (SVN_DELTA_WINDOW_SIZE + MAX_ENCODED_INT_LEN <? h_newlen h)
  || (MAX_INSTRUCTION_SECTION_LEN <? h_inslen h).

Definition header_overflows (h : window_header) : bool :=
  (h_sview_offset h <? 0) || (u64 (h_inslen h + h_newlen h) <? h_inslen h)
  || (u64 (h_sview_len h + h_tview_len h) <? h_sview_len h)
  || (u64 (h_sview_offset h + h_sview_len h) <? u64 (h_sview_offset h)).

(** *** The stream that is written to

    [C] is the state of the consumer of the windows. *)
Section Stream.
Context {C : Type} (consumer_func : option svn_txdelta_window_t → C → result C).

Record decode_baton := MkDecoder {
  consumer_baton : C;
  buffer : list byte;
  last_sview_offset : Z;
  last_sview_len : Z;
  header_bytes : nat;
  error_on_early_close : bool;
  dec_version : Z;
}.

Definition slides_backward (db : decode_baton) (h : window_header) : bool :=
  (0 <? h_sview_len h)
  && ((h_sview_offset h <? last_sview_offset db)
      || (u64 (h_sview_offset h + h_sview_len h)
          <? u64 (last_sview_offset db + last_sview_len db))).

(** The [while (1)] of [write_handler]: every round takes a window from the
    buffer, so the length of the buffer is enough fuel. *)
Fixpoint write_loop (fuel : nat) (db : decode_baton) : result decode_baton :=
  match decode_header (buffer db) with
  | None => Ok db
  | Some (h, p) =>
      if header_too_large h then Error SVN_ERR_SVNDIFF_CORRUPT_WINDOW
      else if header_overflows h then Error SVN_ERR_SVNDIFF_CORRUPT_WINDOW
      else if slides_backward db h then Error SVN_ERR_SVNDIFF_BACKWARD_VIEW
      else if blen p <? u64 (h_inslen h + h_newlen h) then Ok db
      else
        let! window := decode_window (h_sview_offset h) (h_sview_len h) (h_tview_len h)
                         (h_inslen h) (h_newlen h) p (dec_version db) in
        let! c := consumer_func (Some window) (consumer_baton db) in
        let db := MkDecoder c (drop (Z.to_nat (h_inslen h + h_newlen h)) p)
                    (h_sview_offset h) (h_sview_len h) (header_bytes db)
                    (error_on_early_close db) (dec_version db) in
        match fuel with
        | O => OutOfFuel
        | S fuel => write_loop fuel db
        end
  end.

(** The four bytes of the header; returns the rest of [buf]. *)
Definition write_header (db : decode_baton) (buf : list byte)
    : result (decode_baton * list byte) :=
  if (header_bytes db <? 4)%nat then
    let nheader := Nat.min (4 - header_bytes db) (length buf) in
    let matches version :=
      bool_decide (take nheader buf
                   = take nheader (drop (header_bytes db) (svndiff_header version))) in
    let! version :=
      if matches 0 then Ok 0 else if matches 1 then Ok 1
      else Error SVN_ERR_SVNDIFF_INVALID_HEADER in
    Ok (MkDecoder (consumer_baton db) (buffer db) (last_sview_offset db)
          (last_sview_len db) (header_bytes db + nheader)
          (error_on_early_close db) version,
        drop nheader buf)
  else Ok (db, buf).

Definition write_handler (db : decode_baton) (buf : list byte) : result decode_baton :=
  let! headed := write_header db buf in
  let '(db, buf) := headed in
  let data := buffer db ++ buf in
  write_loop (length data)
    (MkDecoder (consumer_baton db) data (last_sview_offset db) (last_sview_len db)
       (header_bytes db) (error_on_early_close db) (dec_version db)).

Definition close_handler (db : decode_baton) : result C :=
  if error_on_early_close db
     && ((header_bytes db <? 4)%nat || negb (length (buffer db) =? 0)%nat)
  then Error SVN_ERR_SVNDIFF_UNEXPECTED_END
  else consumer_func None (consumer_baton db).

(** The version is not initialised; it is set with the header. *)
Definition svn_txdelta_parse_svndiff (handler_baton : C) (early_close : bool)
    : decode_baton :=
  MkDecoder handler_baton [] 0 0 0 early_close 0.
End Stream.

(** *** Reading from a stream

    A stream is the list of the bytes that are left to read. *)

(** The loop of [read_one_size], and of [read_window_header] for the offset
    of the source view; [read_one_byte] is the first match. *)
Fixpoint read_one (conv : Z → Z) (size : Z) (stream : list byte) : result (Z * list byte) :=
  match stream with
  | [] => Error SVN_ERR_SVNDIFF_UNEXPECTED_END
  | c :: stream =>
      let size := conv (Z.lor (Z.shiftl size 7) (Z.land (byte_val c) 0x7f)) in
      if negb (Z.land (byte_val c) 0x80 =? 0) then read_one conv size stream
      else Ok (size, stream)
  end.

Definition read_one_size (stream : list byte) : result (Z * list byte) :=
  read_one u64 0 stream.

Definition read_window_header (stream : list byte) : result (window_header * list byte) :=
  let! x := read_one s64 0 stream in let '(sview_offset_, stream) := x in
  let! x := read_one_size stream in let '(sview_len_, stream) := x in
  let! x := read_one_size stream in let '(tview_len_, stream) := x in
  let! x := read_one_size stream in let '(inslen, stream) := x in
  let! x := read_one_size stream in let '(newlen, stream) := x in
  let h := MkHeader sview_offset_ sview_len_ tview_len_ inslen newlen in
  if header_too_large h then Error SVN_ERR_SVNDIFF_CORRUPT_WINDOW
  else if header_overflows h then Error SVN_ERR_SVNDIFF_CORRUPT_WINDOW
  else Ok (h, stream).

(** Returns the window and the rest of the stream. *)
Definition svn_txdelta_read_svndiff_window (stream : list byte) (svndiff_version : Z)
    : result (svn_txdelta_window_t * list byte) :=
  let! x := read_window_header stream in
  let '(h, stream) := x in
  let len := u64 (h_inslen h + h_newlen h) in
  let buf := bytes_at 0 len stream in
  if blen buf <? len then Error SVN_ERR_SVNDIFF_UNEXPECTED_END
  else
    let! window := decode_window (h_sview_offset h) (h_sview_len h) (h_tview_len h)
                     (h_inslen h) (h_newlen h) buf svndiff_version in
    Ok (window, drop (Z.to_nat len) stream).

(** Seeks in a file; behind its end there is nothing to read. *)
Definition svn_txdelta_skip_svndiff_window (file : list byte) : result (list byte) :=
  let! x := read_window_header file in
  let '(h, file) := x in
  Ok (drop (Z.to_nat (h_inslen h + h_newlen h)) file).

Definition svn__compress (input : list byte) (level : Z) : result (list byte) :=
  zlib_encode input level.

Definition svn__decompress (input : list byte) (limit : Z) : result (list byte) :=
  zlib_decode input limit.
End Decoder.

Arguments MkDecoder {C}.
Arguments consumer_baton {C}.
Arguments buffer {C}.
Arguments last_sview_offset {C}.
Arguments last_sview_len {C}.
Arguments header_bytes {C}.
Arguments error_on_early_close {C}.
Arguments dec_version {C}.
