(* ===== verification/SvndiffCodec.v ===== *)
(** * Properties of the svndiff format *)
From S2P Require Import Prelude TextDelta Svndiff.

(** ** Variable-length integers *)

Section Integers.
Lemma seven_bits (w : Z) :
  0 <= w → Z.lor (Z.shiftl (Z.shiftr w 7) 7) (w mod 128) = w.
Proof. intros _. by apply (lor_split w 7). Qed.

Definition digit_ok (more : bool) (a : Z) : bool :=
  let cont := Z.shiftl (if more then 1 else 0) 7 in
  (Z.lor a cont =? a + cont) && (Z.land (a + cont) 0x7f =? a)
  && (Z.land (a + cont) 0x80 =? cont).

Lemma digit_bits more a : 0 <= a < 128 → digit_ok more a = true.
Proof.
  intros Ha.
  assert (Hall : forallb (λ n, digit_ok more (Z.of_nat n)) (seq 0 128) = true)
    by by destruct more; vm_compute.
  rewrite forallb_forall in Hall.
  replace a with (Z.of_nat (Z.to_nat a)) by lia. apply Hall, in_seq. lia.
Qed.

(** A byte of an encoded integer: seven bits of it, and whether more follow. *)
Lemma int_digit_val (n : nat) (val : Z) :
  let cont := Z.shiftl (if (0 <? n)%nat then 1 else 0) 7 in
  let w := Z.shiftr val (Z.of_nat n * 7) in
  let c := byte_val (byte_of (Z.lor (Z.land w 0x7f) cont)) in
  let more := if (0 <? n)%nat then 128 else 0 in
  Z.land c 0x7f = w mod 128 ∧ Z.land c 0x80 = more ∧ c = w mod 128 + more.
Proof.
  intros cont w c more. assert (Hw : Z.land w 0x7f = w mod 128).
  { change 0x7f with (Z.ones 7). by rewrite Z.land_ones by lia. }
  pose proof (Z.mod_pos_bound w 128 ltac:(lia)) as Hb.
  pose proof (digit_bits (0 <? n)%nat (w mod 128) Hb) as Hd. unfold digit_ok in Hd.
  fold cont in Hd. apply andb_true_iff in Hd as [[H1%Z.eqb_eq H2%Z.eqb_eq]%andb_true_iff H3%Z.eqb_eq].
  assert (cont = more) as Hmore by (unfold cont, more; by destruct (0 <? n)%nat).
  rewrite Hmore in *. assert (c = w mod 128 + more) as Hc.
  { unfold c. rewrite byte_val_of, Hw, Hmore, H1.
    apply Z.mod_small. clearbody w. unfold more. destruct (0 <? n)%nat; lia. }
  by rewrite Hc.
Qed.

Lemma shift_step (n : nat) (val : Z) :
  0 <= val →
  Z.lor (Z.shiftl (Z.shiftr val (Z.of_nat (S n) * 7)) 7)
    (Z.shiftr val (Z.of_nat n * 7) mod 128)
  = Z.shiftr val (Z.of_nat n * 7).
Proof.
  intros Hv. rewrite <- (seven_bits (Z.shiftr val (Z.of_nat n * 7))) at 2
    by by apply Z.shiftr_nonneg.
  f_equal. f_equal. rewrite Z.shiftr_shiftr by lia. f_equal. lia.
Qed.

Lemma shiftr_bound (val k : Z) : 0 <= val → 0 <= k → 0 <= Z.shiftr val k <= val.
Proof.
  intros Hv Hk. rewrite Z.shiftr_div_pow2 by done.
  pose proof (Z.pow_pos_nonneg 2 k ltac:(lia) Hk).
  split; [apply Z.div_pos; lia|apply Z.div_le_upper_bound; nia].
Qed.

(** [conv] keeps the values in question. *)
Lemma decode_digits conv k n val rest :
  (∀ v, 0 <= v <= val → conv v = v) → 0 <= val → (0 < n <= k)%nat →
  decode_loop conv k (Z.shiftr val (Z.of_nat n * 7)) (int_digits n val ++ rest)
  = Some (val, rest).
Proof.
  intros Hconv Hv. revert k; induction n as [|n IH]; intros k Hk; [lia|].
  destruct k as [|k]; [lia|]. cbn [int_digits app decode_loop].
  destruct (int_digit_val n val) as (H1 & _ & H3). rewrite H1, shift_step by done.
  rewrite Hconv by (apply shiftr_bound; lia). rewrite H3.
  pose proof (Z.mod_pos_bound (Z.shiftr val (Z.of_nat n * 7)) 128 ltac:(lia)).
  destruct n as [|n].
  - cbn [Nat.ltb Nat.leb]. if_true by lia. simpl. by rewrite Z.shiftr_0_r.
  - cbn [Nat.ltb Nat.leb]. if_false by lia. apply IH. lia.
Qed.

Lemma read_digits conv n val rest :
  (∀ v, 0 <= v <= val → conv v = v) → 0 <= val → (0 < n)%nat →
  read_one conv (Z.shiftr val (Z.of_nat n * 7)) (int_digits n val ++ rest)
  = Ok (val, rest).
Proof.
  intros Hconv Hv. induction n as [|n IH]; intros Hn; [lia|].
  cbn [int_digits app read_one].
  destruct (int_digit_val n val) as (H1 & H2 & _). rewrite H1, H2, shift_step by done.
  rewrite Hconv by (apply shiftr_bound; lia).
  destruct n as [|n].
  - simpl. by rewrite Z.shiftr_0_r.
  - cbn [Nat.ltb Nat.leb]. simpl negb. apply IH. lia.
Qed.

Lemma int_bytes_bound fuel k v n :
  (k <= fuel)%nat → 0 <= v < 2 ^ (7 * Z.of_nat k) →
  n <= int_bytes fuel v n <= n + Z.of_nat k
  ∧ v < 2 ^ (7 * (int_bytes fuel v n - n)).
Proof.
  revert k v n; induction fuel as [|fuel IH]; intros k v n Hk Hv; cbn [int_bytes].
  { replace k with O in * by lia. rewrite Z.sub_diag. simpl in *. lia. }
  destruct (Z.ltb_spec 0 v) as [Hpos|]; [|rewrite Z.sub_diag; simpl; lia].
  destruct k as [|k]; [simpl in Hv; lia|].
  assert (Hsplit : 2 ^ (7 * Z.of_nat (S k)) = 2 ^ (7 * Z.of_nat k) * 128).
  { replace (7 * Z.of_nat (S k)) with (7 * Z.of_nat k + 7) by lia.
    by rewrite Z.pow_add_r by lia. }
  assert (Hdiv : Z.shiftr v 7 = v / 128) by by rewrite Z.shiftr_div_pow2 by lia.
  destruct (IH k (Z.shiftr v 7) (n + 1)) as [Hn Hlt]; [lia| |].
  { rewrite Hdiv. split; [apply Z.div_pos; lia|apply Z.div_lt_upper_bound; lia]. }
  split; [lia|]. set (m := int_bytes fuel (Z.shiftr v 7) (n + 1)) in *.
  replace (7 * (m - n)) with (7 * (m - (n + 1)) + 7) by lia.
  rewrite Z.pow_add_r by lia. change (2 ^ 7) with 128. rewrite Hdiv in Hlt.
  pose proof (Z.div_mod v 128 ltac:(lia)). pose proof (Z.mod_pos_bound v 128 ltac:(lia)). lia.
Qed.

(** What [encode_int] writes for a 63-bit value. *)
Lemma encode_int_ok val :
  0 <= val < 0x8000000000000000 →
  ∃ n, encode_int val = Ok (int_digits n val) ∧ (0 < n <= 9)%nat
       ∧ Z.shiftr val (Z.of_nat n * 7) = 0.
Proof.
  intros Hv. unfold encode_int, guarded. if_true by lia.
  destruct (int_bytes_bound 10 8 (Z.shiftr val 7) 1) as [Hn Hlt]; [lia| |].
  { change (2 ^ (7 * Z.of_nat 8)) with 0x100000000000000.
    rewrite Z.shiftr_div_pow2 by lia. change (2 ^ 7) with 128.
    split; [apply Z.div_pos; lia|apply Z.div_lt_upper_bound; lia]. }
  set (m := int_bytes 10 (Z.shiftr val 7) 1) in *.
  if_true by (unfold MAX_ENCODED_INT_LEN; lia).
  exists (Z.to_nat m). split; [done|]. split; [lia|].
  rewrite Z2Nat.id by lia. rewrite Z.shiftr_div_pow2 by lia.
  apply Z.div_small. split; [lia|].
  rewrite Z.shiftr_div_pow2 in Hlt by lia. change (2 ^ 7) with 128 in Hlt.
  replace (m * 7) with (7 * (m - 1) + 7) by lia. rewrite Z.pow_add_r by lia.
  change (2 ^ 7) with 128.
  pose proof (Z.div_mod val 128 ltac:(lia)). pose proof (Z.mod_pos_bound val 128 ltac:(lia)). lia.
Qed.

Lemma int_digits_length n val : length (int_digits n val) = n.
Proof. induction n as [|n IH]; simpl; [done|by rewrite IH]. Qed.
End Integers.

(** An encoded integer: it is read back by each of the decoders, whatever
    follows it. *)
Record encoded (val : Z) (p : list byte) : Prop := {
  encoded_offset rest : decode_file_offset (p ++ rest) = Some (val, rest);
  encoded_size rest : decode_size (p ++ rest) = Some (val, rest);
  encoded_read conv rest : conv = s64 ∨ conv = u64 → read_one conv 0 (p ++ rest) = Ok (val, rest);
  encoded_length : 1 <= blen p <= 9;
}.

Lemma encode_int_encoded val :
  0 <= val < 0x8000000000000000 → ∃ p, encode_int val = Ok p ∧ encoded val p.
Proof.
  intros Hv. destruct (encode_int_ok val Hv) as (n & Henc & Hn & Hs).
  exists (int_digits n val). split; [done|].
  assert (∀ v, 0 <= v <= val → s64 v = v) by (intros; apply s64_small; lia).
  assert (∀ v, 0 <= v <= val → u64 v = v) by (intros; apply u64_small; lia).
  split.
  - intros rest. unfold decode_file_offset. rewrite <- Hs at 1. apply decode_digits; [done|lia|].
    unfold MAX_ENCODED_INT_LEN. lia.
  - intros rest. unfold decode_size. rewrite <- Hs at 1. apply decode_digits; [done|lia|].
    unfold MAX_ENCODED_INT_LEN. lia.
  - intros conv rest Hc. rewrite <- Hs at 1. apply read_digits; [|lia|lia].
    by destruct Hc as [->| ->].
  - unfold blen. rewrite int_digits_length. lia.
Qed.

Lemma append_encoded_int_ok header val :
  0 <= val < 0x8000000000000000 →
  ∃ p, append_encoded_int header val = Ok (header ++ p) ∧ encoded val p.
Proof.
  intros Hv. destruct (encode_int_encoded val Hv) as (p & Henc & Hp).
  exists p. unfold append_encoded_int. rewrite s64_small by lia. by rewrite Henc.
Qed.

(** ** Instructions *)

Section Instructions.
Implicit Types (op : svn_txdelta_op_t).

(** An op that the encoder is given: the decoder refuses empty ops. *)
Definition op_encodable op : bool :=
  (0 <? op_length op) && (op_length op <? 0x8000000000000000)
  && (0 <=? offset op) && (offset op <? 0x8000000000000000).

(** What [decode_instruction] makes of it. *)
Definition decoded_op op : svn_txdelta_op_t :=
  if action_eqb (action_code op) svn_txdelta_new
  then MkOp svn_txdelta_new 0 (op_length op) else op.

Definition selector_ok (action : svn_delta_action) (len : Z) : bool :=
  let c := byte_val (byte_of (Z.lor (action_bits action) len)) in
  (Z.land (Z.shiftr c 6) 3
   =? match action with
      | svn_txdelta_source => 0 | svn_txdelta_target => 1 | svn_txdelta_new => 2 end)
  && (Z.land c 0x3f =? len).

Lemma selector_bits action len : 0 <= len < 64 → selector_ok action len = true.
Proof.
  intros Hl.
  assert (Hall : forallb (λ n, selector_ok action (Z.of_nat n)) (seq 0 64) = true)
    by by destruct action; vm_compute.
  rewrite forallb_forall in Hall.
  replace len with (Z.of_nat (Z.to_nat len)) by lia. apply Hall, in_seq. lia.
Qed.

Lemma decode_selector action len p :
  0 <= len < 64 →
  decode_instruction (byte_of (Z.lor (action_bits action) len) :: p)
  = '(length_, p) ← (if len =? 0 then decode_size p else Some (len, p));
    '(offset_, p) ← (if negb (action_eqb action svn_txdelta_new) then decode_size p
                     else Some (0, p));
    Some (MkOp action offset_ length_, p).
Proof.
  intros Hl. pose proof (selector_bits action len Hl) as Hs. unfold selector_ok in Hs.
  apply andb_true_iff in Hs as [H1%Z.eqb_eq H2%Z.eqb_eq].
  unfold decode_instruction. rewrite H1, H2. by destruct action.
Qed.

Lemma small_length len : 0 <= len → Z.shiftr len 6 = 0 ↔ len < 64.
Proof.
  intros Hl. rewrite Z.shiftr_div_pow2 by lia. change (2 ^ 6) with 64.
  rewrite Z.div_small_iff by lia. lia.
Qed.

Lemma encode_op_ok op :
  op_encodable op = true →
  ∃ p, encode_op op = Ok p ∧ 1 <= blen p <= 19
       ∧ ∀ rest, decode_instruction (p ++ rest) = Some (decoded_op op, rest).
Proof.
  unfold op_encodable. intros Hop.
  destruct (encode_int_encoded (op_length op)) as (pl & Hpl & Hel); [lia|].
  destruct (encode_int_encoded (offset op)) as (po & Hpo & Heo); [lia|].
  pose proof (encoded_length _ _ Hel). pose proof (encoded_length _ _ Heo).
  unfold encode_op. rewrite !s64_small, Hpl, Hpo by lia. cbn [rbind].
  set (tail := if action_eqb (action_code op) svn_txdelta_new then [] else po).
  assert (∀ rest,
    ('(offset_, p) ← (if negb (action_eqb (action_code op) svn_txdelta_new)
                      then decode_size (tail ++ rest) else Some (0, tail ++ rest));
     Some (MkOp (action_code op) offset_ (op_length op), p)) = Some (decoded_op op, rest)) as Htail.
  { intros rest. unfold tail, decoded_op. destruct (action_eqb_spec (action_code op) svn_txdelta_new)
      as [Hn|Hn]; cbn [negb].
    - simpl. by rewrite Hn.
    - rewrite (encoded_size _ _ Heo). simpl. by destruct op. }
  assert (0 <= blen tail <= 9) as Hblen by (unfold tail; case_if; [done|lia]).
  assert ((if action_eqb (action_code op) svn_txdelta_new then Ok [] else Ok po) = Ok tail)
    as -> by (unfold tail; by case_if).
  pose proof (small_length (op_length op) ltac:(lia)) as Hsmall.
  destruct (Z.eqb_spec (Z.shiftr (op_length op) 6) 0) as [Hz|Hz]; cbn [rbind].
  - exists (byte_of (Z.lor (action_bits (action_code op)) (op_length op)) :: tail).
    split; [done|]. split; [unfold blen in *; simpl; lia|]. intros rest.
    cbn [app]. rewrite decode_selector by lia. if_false by lia. apply Htail.
  - exists (byte_of (action_bits (action_code op)) :: pl ++ tail).
    split; [done|]. split; [unfold blen in *; simpl; rewrite length_app; lia|]. intros rest.
    cbn [app]. replace (action_bits (action_code op))
      with (Z.lor (action_bits (action_code op)) 0) by apply Z.lor_0_r.
    rewrite decode_selector by lia. rewrite <- app_assoc. cbn [Z.eqb].
    rewrite (encoded_size _ _ Hel). apply Htail.
Qed.

(** The ops that [decode_ops] returns for the new data from [npos] on. *)
Lemma encode_ops_ok ops_ :
  forallb op_encodable ops_ = true →
  ∃ p, encode_ops ops_ = Ok p
    ∧ Z.of_nat (length ops_) <= blen p <= 19 * Z.of_nat (length ops_).
Proof.
  induction ops_ as [|op ops_ IH]; simpl; [intros _; by exists []|].
  intros [Hop Hops]%andb_true_iff.
  destruct (encode_op_ok op Hop) as (p1 & -> & Hl1 & _). destruct (IH Hops) as (p2 & -> & Hl2).
  simpl. exists (p1 ++ p2). split; [done|]. rewrite blen_app. lia.
Qed.

(** Reading back what [encode_ops] has written. *)
Lemma encode_ops_cons op ops_ p :
  forallb op_encodable (op :: ops_) = true → encode_ops (op :: ops_) = Ok p →
  ∃ p2, encode_ops ops_ = Ok p2 ∧ (length p2 < length p)%nat
        ∧ decode_instruction p = Some (decoded_op op, p2).
Proof.
  simpl. intros [Hop Hops]%andb_true_iff.
  destruct (encode_op_ok op Hop) as (p1 & -> & Hl1 & Hd). simpl.
  destruct (encode_ops ops_) as [p2| | | |] eqn:He; try done. intros [= <-].
  exists p2. split; [done|]. rewrite length_app. unfold blen in Hl1. split; [lia|apply Hd].
Qed.
End Instructions.

(** The ops are what [decode_window] makes: none is empty, and together they
    use the new data once, in order. *)
Section Verified.
Context (slen tlen nlen : Z).
Hypothesis Hslen : 0 <= slen < 0x8000000000000000.
Hypothesis Htlen : 0 <= tlen < 0x8000000000000000.
Hypothesis Hnlen : 0 <= nlen < 0x8000000000000000.

Record ops_verified (tpos npos : Z) (ops_ : list svn_txdelta_op_t) : Prop := {
  verified_valid : ops_valid slen nlen tpos ops_ = true;
  verified_nonempty : forallb (λ op, 0 <? op_length op) ops_ = true;
  verified_length : tpos + ops_length ops_ = tlen;
  verified_new : new_end npos ops_ = Some nlen;
}.

Lemma new_end_mono tpos pos ops_ q :
  ops_valid slen nlen tpos ops_ = true → new_end pos ops_ = Some q → pos <= q.
Proof. intros Hv He. by destruct (ops_valid_new_end _ _ _ _ _ _ Hv He). Qed.

Lemma verified_cons tpos npos op ops_ :
  ops_verified tpos npos (op :: ops_) →
  op_valid slen nlen tpos op = true ∧ 0 < op_length op ∧ tpos + op_length op <= tlen
  ∧ (action_code op = svn_txdelta_new → offset op = npos ∧ npos + op_length op <= nlen)
  ∧ ops_verified (tpos + op_length op)
      (if action_eqb (action_code op) svn_txdelta_new then npos + op_length op else npos) ops_.
Proof.
  intros [Hv Hn Hl He]. simpl in *. apply andb_true_iff in Hv as [Hv Hvs].
  apply andb_true_iff in Hn as [Hn Hns]. pose proof (ops_length_nonneg _ _ _ _ Hvs).
  split; [done|]. split; [lia|]. split; [lia|].
  destruct (action_eqb_spec (action_code op) svn_txdelta_new) as [Ha|Ha].
  - destruct (Z.eqb_spec (offset op) npos); [|done].
    pose proof (new_end_mono _ _ _ _ Hvs He). split; [lia|]. by split; [| |lia|].
  - split; [done|]. by split; [| |lia|].
Qed.

Lemma verified_encodable tpos npos ops_ :
  0 <= tpos → 0 <= npos → ops_verified tpos npos ops_ → forallb op_encodable ops_ = true.
Proof.
  revert tpos npos; induction ops_ as [|op ops_ IH]; intros tpos npos Ht Hnp Hv; [done|].
  apply verified_cons in Hv as (Hop & ? & ? & ? & Hv). simpl.
  apply andb_true_iff; split.
  - unfold op_encodable, op_valid in *. destruct (action_code op); lia.
  - refine (IH _ _ _ _ Hv); [lia|case_if; lia].
Qed.

(** The verdict on well-formed instructions, and their decoding. *)
Lemma count_encoded ops_ p fuel n tpos npos :
  0 <= tpos → 0 <= npos <= nlen → ops_verified tpos npos ops_ →
  encode_ops ops_ = Ok p → (length p <= fuel)%nat →
  count_loop fuel p slen tlen nlen n tpos npos = Ok (n + Z.of_nat (length ops_)).
Proof.
  revert p fuel n tpos npos; induction ops_ as [|op ops_ IH]; intros p fuel n tpos npos Ht Hnp Hv.
  { intros [= <-] _. destruct Hv as [_ _ Hl He]. simpl in Hl, He. injection He as He.
    assert ((tpos =? tlen) = true) as Htp by lia. assert ((npos =? nlen) = true) as Hnn by lia.
    destruct fuel; cbn [count_loop length]; rewrite Htp, Hnn; cbn [negb];
      by rewrite Z.add_0_r. }
  intros He Hf. pose proof (verified_encodable tpos npos _ Ht (proj1 Hnp) Hv) as Henc.
  destruct (encode_ops_cons _ _ _ Henc He) as (p2 & He2 & Hl2 & Hd).
  apply verified_cons in Hv as (Hop & Hpos & Hlen & Hnew & Hv).
  destruct fuel as [|fuel]; [lia|]. destruct p as [|c p]; [simpl in Hl2; lia|].
  cbn [count_loop]. rewrite Hd.
  assert (Hdl : op_length (decoded_op op) = op_length op) by (unfold decoded_op; by case_if).
  assert (Hda : action_code (decoded_op op) = action_code op).
  { unfold decoded_op. case_if; [|done].
    by destruct (action_eqb_spec (action_code op) svn_txdelta_new). }
  rewrite Hdl, Hda, !u64_small by lia.
  if_false by lia. if_false by lia.
  assert (Hnew' : action_code op ≠ svn_txdelta_new → decoded_op op = op).
  { intros Hna. unfold decoded_op. by destruct (action_eqb_spec (action_code op) svn_txdelta_new). }
  assert (Hnp2 : 0 <= (if action_eqb (action_code op) svn_txdelta_new
                       then npos + op_length op else npos) <= nlen).
  { case_if; [|done]. destruct (action_eqb_spec (action_code op) svn_txdelta_new); [|done].
    destruct Hnew; [done|lia]. }
  match goal with |- rbind ?m _ = _ => assert (m = Ok
    (if action_eqb (action_code op) svn_txdelta_new then npos + op_length op else npos)) as -> end.
  { unfold op_valid in Hop. destruct (action_code op) eqn:Ha; simpl.
    - rewrite Hnew' by done. rewrite u64_small by lia. if_false by lia. done.
    - rewrite Hnew' by done. if_false by lia. done.
    - destruct Hnew as [? ?]; [done|]. rewrite !u64_small by lia. if_false by lia. done. }
  cbn [rbind].
  rewrite u64_small by lia. rewrite (IH p2); [cbn [length]; f_equal; lia|lia|done|done|done|].
  simpl in Hf, Hl2. lia.
Qed.

Lemma decode_encoded ops_ p tpos npos :
  0 <= tpos → 0 <= npos <= nlen → ops_verified tpos npos ops_ → encode_ops ops_ = Ok p →
  decode_ops (length ops_) p npos = Ok (ops_, source_ops ops_, []).
Proof.
  revert p tpos npos; induction ops_ as [|op ops_ IH]; intros p tpos npos Ht Hnp Hv.
  { by intros [= <-]. }
  intros He. pose proof (verified_encodable tpos npos _ Ht (proj1 Hnp) Hv) as Henc.
  destruct (encode_ops_cons _ _ _ Henc He) as (p2 & He2 & Hl2 & Hd).
  apply verified_cons in Hv as (Hop & Hpos & Hlen & Hnew & Hv).
  cbn [length decode_ops]. rewrite Hd. unfold decoded_op, source_ops. cbn [List.filter].
  destruct (action_eqb_spec (action_code op) svn_txdelta_new) as [Ha|Ha].
  - destruct Hnew as [Ho Hn]; [done|]. simpl. rewrite u64_small by lia.
    rewrite (IH p2 (tpos + op_length op)) by (done || lia). simpl. rewrite Ha. simpl.
    destruct op as [a o l]; simpl in *. by subst.
  - destruct (action_eqb_spec (action_code op) svn_txdelta_new); [done|].
    rewrite (IH p2 (tpos + op_length op)) by (done || lia). simpl.
    destruct (action_eqb_spec (action_code op) svn_txdelta_source); simpl;
      [|done]. unfold source_ops. f_equal. f_equal. f_equal. lia.
Qed.
End Verified.

(** ** Sections, compressed or not *)

(** [compress2] has enough memory, and the level is valid. *)
Definition compression_works `{Zlib} (level : Z) : Prop :=
  ∀ data, ∃ z, compress2 data level = inl z.

Section Sections.
Context `{Zlib}.

Lemma zlib_encode_ok data level :
  blen data < 0x8000000000000000 → compression_works level →
  ∃ z, zlib_encode data level = Ok z ∧ 1 <= blen z <= 9 + blen data
       ∧ ∀ limit, blen data <= limit → zlib_decode z limit = Ok data.
Proof.
  intros Hlen Hc. assert (Hnn : 0 <= blen data) by (unfold blen; lia).
  destruct (append_encoded_int_ok [] (blen data)) as (p & Hp & He); [lia|]. simpl in Hp.
  pose proof (encoded_length _ _ He) as Hpl.
  assert (Hplain : ∀ limit, blen data <= limit → zlib_decode (p ++ data) limit = Ok data).
  { intros limit Hl. unfold zlib_decode. rewrite (encoded_size _ _ He).
    if_false by lia. by rewrite Z.eqb_refl. }
  assert (Hpd : 1 <= blen (p ++ data) <= 9 + blen data) by (rewrite blen_app; lia).
  unfold zlib_encode. rewrite Hp. cbn [rbind].
  destruct ((blen data <? MIN_COMPRESS_SIZE) || (level =? SVN_DELTA_COMPRESSION_LEVEL_NONE)).
  { by exists (p ++ data). }
  destruct (Hc data) as [z Hz]. rewrite Hz. cbn [svn_error__wrap_zlib rbind].
  destruct (Z.leb_spec (blen data) (blen z)) as [|Hshort]; [by exists (p ++ data)|].
  exists (p ++ z). split; [done|]. assert (0 <= blen z) by (unfold blen; lia).
  split; [rewrite blen_app; lia|]. intros limit Hl. unfold zlib_decode.
  rewrite (encoded_size _ _ He). if_false by lia. if_false by lia.
  rewrite (uncompress_compress2 _ _ _ Hz). cbn [svn_error__wrap_zlib rbind].
  by rewrite Z.eqb_refl.
Qed.

(** A section of a window, for either version. *)
Definition encode_section (version level : Z) (data : list byte) : result (list byte) :=
  if version =? 1 then zlib_encode data level else Ok data.

Definition decode_section (version : Z) (section : list byte) (limit : Z)
    : result (list byte) :=
  if version =? 1 then zlib_decode section limit else Ok section.

Lemma encode_section_ok version level data :
  blen data < 0x8000000000000000 → (version = 1 → compression_works level) →
  ∃ z, encode_section version level data = Ok z ∧ 0 <= blen z <= 9 + blen data
       ∧ ∀ limit, blen data <= limit → decode_section version z limit = Ok data.
Proof.
  intros Hlen Hc. unfold encode_section, decode_section.
  destruct (Z.eqb_spec version 1) as [Hv|]; [|exists data; unfold blen in *; split; [done|lia || (split; [lia|done])]].
  destruct (zlib_encode_ok data level Hlen (Hc Hv)) as (z & Hz & Hl & Hd).
  exists z. split; [done|]. split; [lia|done].
Qed.

Lemma decode_window_sections so sl tl inslen newlen data version :
  decode_window so sl tl inslen newlen data version
  = let! nd := decode_section version (bytes_at 0 newlen (drop (Z.to_nat inslen) data))
                 SVN_DELTA_WINDOW_SIZE in
    let! ins := decode_section version (bytes_at 0 inslen data) MAX_INSTRUCTION_SECTION_LEN in
    let! ninst := count_and_verify_instructions ins sl tl (blen nd) in
    let! decoded := decode_ops (Z.to_nat ninst) ins 0 in
    let '(ops_, src_ops_, rest) := decoded in
    assert! (length rest =? 0)%nat in
    Ok (MkWindow so sl tl src_ops_ ops_ nd).
Proof.
  unfold decode_window, decode_section. destruct (version =? 1); [|done].
  destruct (zlib_decode (bytes_at 0 newlen _) _); [|done..]. cbn [rbind].
  by destruct (zlib_decode (bytes_at 0 inslen _) _).
Qed.
End Sections.

(** ** Windows *)

(** A window as the delta functions build it, within the limits of the
    format.  The count of source ops is not part of it: the format does not
    carry it. *)
Record window_ok (w : svn_txdelta_window_t) : Prop := {
  ok_ops : ops_verified (sview_len w) (tview_len w) (blen (new_data w)) 0 0 (ops w);
  ok_tview : 0 <= tview_len w <= SVN_DELTA_WINDOW_SIZE;
  ok_sview : 0 <= sview_len w <= SVN_DELTA_WINDOW_SIZE;
  ok_offset : 0 <= sview_offset w < 0x8000000000000000;
}.

(** The window with the count of its source ops. *)
Definition recounted (w : svn_txdelta_window_t) : svn_txdelta_window_t :=
  MkWindow (sview_offset w) (sview_len w) (tview_len w) (source_ops (ops w)) (ops w) (new_data w).

Lemma ops_length_count slen nlen tpos ops_ :
  ops_valid slen nlen tpos ops_ = true → forallb (λ op, 0 <? op_length op) ops_ = true →
  Z.of_nat (length ops_) <= ops_length ops_.
Proof.
  revert tpos; induction ops_ as [|op ops_ IH]; intros tpos; simpl; [lia|].
  intros [Hv Hvs]%andb_true_iff [Hn Hns]%andb_true_iff. specialize (IH _ Hvs Hns). lia.
Qed.

Lemma new_end_length slen nlen tpos pos ops_ q :
  ops_valid slen nlen tpos ops_ = true → new_end pos ops_ = Some q →
  q <= pos + ops_length ops_.
Proof.
  revert tpos pos; induction ops_ as [|op ops_ IH]; intros tpos pos; simpl.
  { intros _ [= <-]. lia. }
  intros [Hv Hvs]%andb_true_iff. unfold op_valid in Hv.
  case_if; [case_if; [|done]|]; intros He; specialize (IH _ _ Hvs He); lia.
Qed.

(** The parts of an encoded window. *)
Record encoded_window `{Zlib} (version : Z) (w : svn_txdelta_window_t)
    (header sections : list byte) (h : window_header) : Prop := {
  ew_header rest : decode_header (header ++ rest) = Some (h, rest);
  ew_read rest : read_window_header (header ++ rest) = Ok (h, rest);
  ew_too_large : header_too_large h = false;
  ew_overflows : header_overflows h = false;
  ew_sview_offset : h_sview_offset h = sview_offset w;
  ew_sview_len : h_sview_len h = sview_len w;
  ew_sections : h_inslen h + h_newlen h = blen sections;
  ew_nonneg : 0 <= h_inslen h ∧ 0 <= h_newlen h;
  ew_small : blen sections < 0x10000000000000000;
  ew_window rest : decode_window (h_sview_offset h) (h_sview_len h) (h_tview_len h)
                     (h_inslen h) (h_newlen h) (sections ++ rest) version = Ok (recounted w);
  ew_nonempty : 1 <= blen header;
}.

Section Windows.
Context `{Zlib} (version level : Z).
Hypothesis Hworks : version = 1 → compression_works level.

Lemma encode_window_ok w :
  window_ok w →
  ∃ header sections h,
    encode_window version level w = Ok (header ++ sections)
    ∧ encoded_window version w header sections h.
Proof.
  intros [Hops Htv Hsv Hoff]. unfold SVN_DELTA_WINDOW_SIZE in *.
  pose proof (ops_length_count _ _ _ _ (verified_valid _ _ _ _ _ _ Hops)
    (verified_nonempty _ _ _ _ _ _ Hops)) as Hcount.
  pose proof (new_end_length _ _ _ _ _ _ (verified_valid _ _ _ _ _ _ Hops)
    (verified_new _ _ _ _ _ _ Hops)) as Hnd.
  pose proof (verified_length _ _ _ _ _ _ Hops) as Hlen.
  assert (Hnn : 0 <= blen (new_data w)) by (unfold blen; lia).
  assert (Henc : forallb op_encodable (ops w) = true).
  { refine (verified_encodable (sview_len w) (tview_len w) (blen (new_data w))
      _ _ _ 0 0 (ops w) _ _ Hops); lia. }
  destruct (encode_ops_ok _ Henc) as (ins & Hins & Hinsl).
  destruct (encode_section_ok version level ins) as (zins & Hzins & Hzinsl & Hdins);
    [lia|done|].
  destruct (encode_section_ok version level (new_data w)) as (znd & Hznd & Hzndl & Hdnd);
    [lia|done|].
  unfold encode_window. rewrite Hins. cbn [rbind].
  destruct (append_encoded_int_ok [] (sview_offset w)) as (p1 & -> & H1); [lia|]. cbn [rbind app].
  destruct (append_encoded_int_ok p1 (sview_len w)) as (p2 & -> & H2); [lia|]. cbn [rbind].
  destruct (append_encoded_int_ok (p1 ++ p2) (tview_len w)) as (p3 & -> & H3); [lia|].
  cbn [rbind]. fold (encode_section version level ins). rewrite Hzins. cbn [rbind].
  destruct (append_encoded_int_ok ((p1 ++ p2) ++ p3) (blen zins)) as (p4 & -> & H4); [lia|].
  cbn [rbind]. fold (encode_section version level (new_data w)). rewrite Hznd. cbn [rbind].
  destruct (append_encoded_int_ok (((p1 ++ p2) ++ p3) ++ p4) (blen znd)) as (p5 & -> & H5); [lia|].
  cbn [rbind].
  exists (((((p1 ++ p2) ++ p3) ++ p4) ++ p5)), (zins ++ znd),
    (MkHeader (sview_offset w) (sview_len w) (tview_len w) (blen zins) (blen znd)).
  split; [done|]. rewrite <- !(app_assoc p1), <- !(app_assoc p2), <- !(app_assoc p3).
  assert (Hhdr : ∀ rest : list byte, (p1 ++ p2 ++ p3 ++ p4 ++ p5) ++ rest
    = p1 ++ p2 ++ p3 ++ p4 ++ p5 ++ rest) by (intros; by rewrite <- !app_assoc).
  assert (Htl : header_too_large (MkHeader (sview_offset w) (sview_len w) (tview_len w)
    (blen zins) (blen znd)) = false).
  { unfold header_too_large, MAX_INSTRUCTION_SECTION_LEN, MAX_INSTRUCTION_LEN,
      SVN_DELTA_WINDOW_SIZE, MAX_ENCODED_INT_LEN. simpl. lia. }
  assert (Hov : header_overflows (MkHeader (sview_offset w) (sview_len w) (tview_len w)
    (blen zins) (blen znd)) = false).
  { unfold header_overflows. simpl. rewrite !u64_small by lia. lia. }
  split; simpl; try done.
  - intros rest. rewrite Hhdr. unfold decode_header.
    rewrite (encoded_offset _ _ H1). cbn [mbind option_bind].
    rewrite (encoded_size _ _ H2). cbn [mbind option_bind].
    rewrite (encoded_size _ _ H3). cbn [mbind option_bind].
    rewrite (encoded_size _ _ H4). cbn [mbind option_bind].
    by rewrite (encoded_size _ _ H5).
  - intros rest. rewrite Hhdr. unfold read_window_header, read_one_size.
    rewrite (encoded_read _ _ H1) by auto. cbn [rbind].
    rewrite (encoded_read _ _ H2) by auto. cbn [rbind].
    rewrite (encoded_read _ _ H3) by auto. cbn [rbind].
    rewrite (encoded_read _ _ H4) by auto. cbn [rbind].
    rewrite (encoded_read _ _ H5) by auto. cbn [rbind].
    by rewrite Htl, Hov.
  - by rewrite blen_app.
  - lia.
  - rewrite blen_app. lia.
  - intros rest. rewrite decode_window_sections.
    assert (drop (Z.to_nat (blen zins)) ((zins ++ znd) ++ rest) = znd ++ rest) as ->.
    { unfold blen. rewrite Nat2Z.id, <- app_assoc. apply drop_app_length. }
    rewrite <- app_assoc.
    rewrite (bytes_at_app 0 (blen znd)), (bytes_at_app 0 (blen zins)), !bytes_at_all by lia.
    rewrite Hdnd by (unfold SVN_DELTA_WINDOW_SIZE; lia).
    cbn [rbind]. rewrite Hdins by (unfold MAX_INSTRUCTION_SECTION_LEN, MAX_INSTRUCTION_LEN,
      SVN_DELTA_WINDOW_SIZE, MAX_ENCODED_INT_LEN; lia).
    cbn [rbind]. unfold count_and_verify_instructions.
    rewrite (count_encoded (sview_len w) (tview_len w) (blen (new_data w)) ltac:(lia) ltac:(lia) ltac:(lia) (ops w) ins) by (done || lia).
    cbn [rbind]. rewrite Z.add_0_l, Nat2Z.id.
    rewrite (decode_encoded (sview_len w) (tview_len w) (blen (new_data w)) ltac:(lia) ltac:(lia) ltac:(lia) (ops w) ins 0 0) by (done || lia).
    cbn [rbind]. unfold guarded. done.
  - pose proof (encoded_length _ _ H1). rewrite !blen_app.
    unfold blen in *. lia.
Qed.
End Windows.

(** ** Streams *)

(** The encoder on a sequence of windows, and its output. *)
Fixpoint encode_stream `{Zlib} (windows : list svn_txdelta_window_t) (eb : encoder_baton)
    : result encoder_baton :=
  match windows with
  | [] => window_handler None eb
  | w :: windows => let! eb := window_handler (Some w) eb in encode_stream windows eb
  end.

(** Handing windows to a consumer. *)
Fixpoint deliver {C} (consumer : option svn_txdelta_window_t → C → result C)
    (windows : list svn_txdelta_window_t) (c : C) : result C :=
  match windows with
  | [] => Ok c
  | w :: windows => let! c := consumer (Some w) c in deliver consumer windows c
  end.

(** The source views do not slide backward, from the view given on. *)
Fixpoint slides_forward (last_offset last_len : Z) (windows : list svn_txdelta_window_t) : bool :=
  match windows with
  | [] => true
  | w :: windows =>
      ((sview_len w =? 0)
       || ((last_offset <=? sview_offset w)
           && (last_offset + last_len <=? sview_offset w + sview_len w)))
      && slides_forward (sview_offset w) (sview_len w) windows
  end.

Definition with_buffer {C} (db : decode_baton (C := C)) (buf : list byte) : decode_baton :=
  MkDecoder (consumer_baton db) buf (last_sview_offset db) (last_sview_len db)
    (header_bytes db) (error_on_early_close db) (dec_version db).

Section RoundTrip.
Context `{Zlib} {C : Type} (f : option svn_txdelta_window_t → C → result C).
Context (version level : Z).
Hypothesis Hworks : version = 1 → compression_works level.

Lemma write_loop_window fuel db w header sections h rest :
  encoded_window version w header sections h → window_ok w → dec_version db = version →
  buffer db = header ++ sections ++ rest →
  0 <= last_sview_offset db < 0x8000000000000000 →
  0 <= last_sview_len db <= SVN_DELTA_WINDOW_SIZE →
  slides_forward (last_sview_offset db) (last_sview_len db) [w] = true →
  write_loop f (S fuel) db
  = let! c := f (Some (recounted w)) (consumer_baton db) in
    write_loop f fuel (MkDecoder c rest (sview_offset w) (sview_len w) (header_bytes db)
                         (error_on_early_close db) version).
Proof.
  intros He [_ _ Hsv Hoff] Hv Hb Hlo Hll Hs. unfold SVN_DELTA_WINDOW_SIZE in *.
  cbn [write_loop]. rewrite Hb, (ew_header _ _ _ _ _ He).
  rewrite (ew_too_large _ _ _ _ _ He), (ew_overflows _ _ _ _ _ He).
  assert (slides_backward db h = false) as ->.
  { unfold slides_backward. rewrite (ew_sview_offset _ _ _ _ _ He), (ew_sview_len _ _ _ _ _ He).
    rewrite !u64_small by lia. cbn [slides_forward] in Hs. lia. }
  pose proof (ew_sections _ _ _ _ _ He) as Hsec. pose proof (ew_small _ _ _ _ _ He).
  pose proof (ew_nonneg _ _ _ _ _ He). rewrite u64_small by lia.
  if_false by (rewrite blen_app; unfold blen in *; lia).
  rewrite Hv, (ew_window _ _ _ _ _ He). cbn [rbind].
  destruct (f (Some (recounted w)) (consumer_baton db)); [|done..]. cbn [rbind].
  rewrite (ew_sview_offset _ _ _ _ _ He), (ew_sview_len _ _ _ _ _ He), Hsec.
  unfold blen at 1. by rewrite Nat2Z.id, drop_app_length.
Qed.

(** What the encoder writes for windows, behind the header. *)
Fixpoint encode_windows (windows : list svn_txdelta_window_t) : result (list byte) :=
  match windows with
  | [] => Ok []
  | w :: windows =>
      let! bytes := encode_window version level w in
      let! more := encode_windows windows in
      Ok (bytes ++ more)
  end.

Lemma encode_windows_ok windows :
  Forall window_ok windows → ∃ bytes, encode_windows windows = Ok bytes.
Proof.
  induction 1 as [|w windows Hw Hws [bytes Hb]]; [by exists []|].
  destruct (encode_window_ok version level Hworks w Hw) as (header & sections & h & Henc & _).
  exists ((header ++ sections) ++ bytes). simpl. by rewrite Henc, Hb.
Qed.

Lemma last_view {B} (g : svn_txdelta_window_t → B) w windows (d : B) :
  from_option g d (last (w :: windows)) = from_option g (g w) (last windows).
Proof. rewrite last_cons. by destruct (last windows). Qed.

Lemma write_windows windows db bytes fuel :
  Forall window_ok windows → dec_version db = version →
  0 <= last_sview_offset db < 0x8000000000000000 →
  0 <= last_sview_len db <= SVN_DELTA_WINDOW_SIZE →
  slides_forward (last_sview_offset db) (last_sview_len db) windows = true →
  encode_windows windows = Ok bytes → buffer db = bytes → (length bytes <= fuel)%nat →
  write_loop f fuel db
  = let! c := deliver f (map recounted windows) (consumer_baton db) in
    Ok (MkDecoder c [] (from_option sview_offset (last_sview_offset db) (last windows))
          (from_option sview_len (last_sview_len db) (last windows))
          (header_bytes db) (error_on_early_close db) version).
Proof.
  intros Hok. revert db bytes fuel.
  induction Hok as [|w windows Hw Hws IH]; intros db bytes fuel Hv Hlo Hll Hs.
  { intros [= <-] Hb _. destruct db as [c b lo ll hb e v]. simpl in *. subst.
    by destruct fuel. }
  intros Hbytes Hb Hfuel. cbn [slides_forward] in Hs. apply andb_true_iff in Hs as [Hs1 Hs2].
  destruct (encode_window_ok version level Hworks w Hw) as (header & sections & h & Henc & He).
  cbn [encode_windows] in Hbytes. rewrite Henc in Hbytes. cbn [rbind] in Hbytes.
  destruct (encode_windows windows) as [more| | | |] eqn:Hmore; try done.
  injection Hbytes as <-. pose proof (ew_nonempty _ _ _ _ _ He) as Hne. unfold blen in Hne.
  rewrite !length_app in Hfuel. destruct fuel as [|fuel]; [lia|].
  assert (Hsw := Hw). destruct Hsw as [_ _ Hsv Hoff].
  rewrite (write_loop_window fuel db w header sections h more He Hw); try done;
    [|by rewrite app_assoc|by cbn [slides_forward]; rewrite Hs1].
  cbn [deliver map].
  destruct (f (Some (recounted w)) (consumer_baton db)) as [c| | | |]; [|done..]. cbn [rbind].
  rewrite (IH _ more) by (done || lia). simpl. by rewrite !last_view.
Qed.

Lemma encode_stream_windows windows eb bytes :
  enc_version eb = version → compression_level eb = level → header_done eb = true →
  encode_windows windows = Ok bytes →
  encode_stream windows eb = Ok (MkEncoder (output eb ++ bytes) true true version level).
Proof.
  revert eb bytes; induction windows as [|w windows IH]; intros [out cl hd v l] bytes;
    simpl; intros -> -> ->.
  { intros [= <-]. by rewrite app_nil_r. }
  destruct (encode_window version level w) as [b| | | |]; [|done..]. cbn [rbind].
  destruct (encode_windows windows) as [more| | | |]; try done. intros [= <-].
  rewrite (IH (MkEncoder _ _ _ _ _) more) by done. simpl. by rewrite app_assoc.
Qed.

(** The header is written with the first window, or with the end. *)
Lemma encode_stream_header windows :
  encode_stream windows (svn_txdelta_to_svndiff3 version level)
  = encode_stream windows (MkEncoder (svndiff_header version) false true version level).
Proof. by destruct windows. Qed.

Lemma decode_stream_header early c bytes :
  version = 0 ∨ version = 1 →
  write_handler f (svn_txdelta_parse_svndiff c early) (svndiff_header version ++ bytes)
  = write_loop f (length bytes) (MkDecoder c bytes 0 0 4 early version).
Proof.
  intros Hv. unfold write_handler, write_header, svn_txdelta_parse_svndiff.
  cbn [header_bytes Nat.ltb Nat.leb].
  replace (Nat.min (4 - 0) (length (svndiff_header version ++ bytes))) with 4%nat
    by (rewrite length_app; simpl; lia).
  by destruct Hv as [-> | ->].
Qed.
End RoundTrip.

Lemma svndiff_pipe `{Zlib} {C : Type}
    (consumer_func : option svn_txdelta_window_t → C → result C) (handler_baton : C)
    (windows : list svn_txdelta_window_t) (svndiff_version level : Z) (early_close : bool) :
  svndiff_version = 0 ∨ (svndiff_version = 1 ∧ compression_works level) →
  Forall window_ok windows → slides_forward 0 0 windows = true →
  ∃ eb,
    encode_stream windows (svn_txdelta_to_svndiff3 svndiff_version level) = Ok eb
    ∧ output_closed eb = true
    ∧ (let! db := write_handler consumer_func
                    (svn_txdelta_parse_svndiff handler_baton early_close) (output eb) in
       close_handler consumer_func db)
      = let! c := deliver consumer_func (map recounted windows) handler_baton in
        consumer_func None c.
Proof.
  intros Hv Hok Hs.
  assert (Hworks : svndiff_version = 1 → compression_works level)
    by (destruct Hv as [-> |[-> ?]]; done).
  destruct (encode_windows_ok svndiff_version level Hworks windows Hok) as [bytes Hb].
  rewrite encode_stream_header, (encode_stream_windows svndiff_version level _ _ bytes) by done.
  eexists. split; [done|]. split; [done|]. cbn [output].
  rewrite (decode_stream_header consumer_func svndiff_version level) by (destruct Hv as [|[]]; auto).
  rewrite (write_windows consumer_func svndiff_version level Hworks windows _ bytes) by done.
  cbn [consumer_baton]. destruct (deliver consumer_func (map recounted windows) handler_baton); [|done..].
  cbn [rbind]. unfold close_handler. simpl. by rewrite andb_false_r.
Qed.

(** C10: A stream of valid windows whose source views slide forward, encoded
    as svndiff 0 or 1, is decoded into the same windows in the same order
    (with the source-op count recomputed), followed by the final NULL
    window; the consumer's own errors come back unchanged. *)
Theorem svndiff_roundtrip `{Zlib} {C : Type}
    (consumer_func : option svn_txdelta_window_t → C → result C) (handler_baton : C)
    (windows : list svn_txdelta_window_t) (svndiff_version level : Z) (early_close : bool) :
  svndiff_version = 0 ∨ (svndiff_version = 1 ∧ compression_works level) →
  Forall window_ok windows → slides_forward 0 0 windows = true →
  ∃ eb,
    encode_stream windows (svn_txdelta_to_svndiff3 svndiff_version level) = Ok eb
    ∧ output_closed eb = true
    ∧ (let! db := write_handler consumer_func
                    (svn_txdelta_parse_svndiff handler_baton early_close) (output eb) in
       close_handler consumer_func db)
      = let! c := deliver consumer_func (map recounted windows) handler_baton in
        consumer_func None c.
Proof. apply svndiff_pipe. Qed.

(** ** The decoder does not depend on how its input is cut *)

Lemma decode_loop_app conv n temp p v r x :
  decode_loop conv n temp p = Some (v, r) → decode_loop conv n temp (p ++ x) = Some (v, r ++ x).
Proof.
  revert temp p; induction n as [|n IH]; intros temp [|c p]; simpl; try done.
  case_if; [by intros [= <- <-]|apply IH].
Qed.

Lemma decode_loop_shorter conv n temp p v r :
  decode_loop conv n temp p = Some (v, r) → (length r < length p)%nat.
Proof.
  revert temp p; induction n as [|n IH]; intros temp [|c p]; simpl; try done.
  case_if; [intros [= <- <-]; lia|]. intros Hd%IH. lia.
Qed.

Lemma decode_header_inv p h r :
  decode_header p = Some (h, r) →
  ∃ r1 r2 r3 r4,
    decode_file_offset p = Some (h_sview_offset h, r1)
    ∧ decode_size r1 = Some (h_sview_len h, r2) ∧ decode_size r2 = Some (h_tview_len h, r3)
    ∧ decode_size r3 = Some (h_inslen h, r4) ∧ decode_size r4 = Some (h_newlen h, r).
Proof.
  unfold decode_header. intros Hd.
  destruct (decode_file_offset p) as [[v1 r1]|] eqn:H1; [|done]. cbn [mbind option_bind] in Hd.
  destruct (decode_size r1) as [[v2 r2]|] eqn:H2; [|done]. cbn [mbind option_bind] in Hd.
  destruct (decode_size r2) as [[v3 r3]|] eqn:H3; [|done]. cbn [mbind option_bind] in Hd.
  destruct (decode_size r3) as [[v4 r4]|] eqn:H4; [|done]. cbn [mbind option_bind] in Hd.
  destruct (decode_size r4) as [[v5 r5]|] eqn:H5; [|done]. cbn [mbind option_bind] in Hd.
  injection Hd as <- <-. by exists r1, r2, r3, r4.
Qed.

Lemma decode_header_app p h r x :
  decode_header p = Some (h, r) → decode_header (p ++ x) = Some (h, r ++ x).
Proof.
  intros (r1 & r2 & r3 & r4 & H1 & H2 & H3 & H4 & H5)%decode_header_inv.
  unfold decode_header, decode_file_offset, decode_size in *.
  rewrite (decode_loop_app _ _ _ _ _ _ x H1). cbn [mbind option_bind].
  rewrite (decode_loop_app _ _ _ _ _ _ x H2). cbn [mbind option_bind].
  rewrite (decode_loop_app _ _ _ _ _ _ x H3). cbn [mbind option_bind].
  rewrite (decode_loop_app _ _ _ _ _ _ x H4). cbn [mbind option_bind].
  rewrite (decode_loop_app _ _ _ _ _ _ x H5). by destruct h.
Qed.

Lemma decode_header_shorter p h r : decode_header p = Some (h, r) → (length r < length p)%nat.
Proof.
  intros (r1 & r2 & r3 & r4 & H1 & H2 & H3 & H4 & H5)%decode_header_inv.
  apply decode_loop_shorter in H1, H2, H3, H4, H5. lia.
Qed.

Lemma decode_header_nonneg p h r :
  decode_header p = Some (h, r) →
  0 <= h_sview_len h ∧ 0 <= h_tview_len h ∧ 0 <= h_inslen h ∧ 0 <= h_newlen h.
Proof.
  intros (r1 & r2 & r3 & r4 & H1 & H2 & H3 & H4 & H5)%decode_header_inv.
  assert (∀ n temp q v q', decode_loop u64 n temp q = Some (v, q') → 0 <= v) as Hnn.
  { clear. induction n as [|n IH]; intros temp [|c q] v q'; simpl; try done.
    case_if; [intros [= <- _]|apply IH]. unfold u64. apply Z.mod_pos_bound. lia. }
  eauto 10.
Qed.

Section Chunks.
Context `{Zlib} {C : Type} (f : option svn_txdelta_window_t → C → result C).
Implicit Types (db : decode_baton (C := C)) (x : list byte).

Lemma decode_window_app so sl tl inslen newlen data version x :
  0 <= inslen → 0 <= newlen → inslen + newlen <= blen data →
  decode_window so sl tl inslen newlen (data ++ x) version
  = decode_window so sl tl inslen newlen data version.
Proof.
  intros Hi Hn Hl. rewrite !decode_window_sections.
  unfold blen in Hl. rewrite drop_app_le by lia.
  rewrite !bytes_at_app; [done|unfold blen; rewrite ?length_drop; lia..].
Qed.

(** One round of [write_loop]: it waits for more data, or takes a window. *)
Definition round db : result (option decode_baton) :=
  match decode_header (buffer db) with
  | None => Ok None
  | Some (h, p) =>
      if header_too_large h then Error SVN_ERR_SVNDIFF_CORRUPT_WINDOW
      else if header_overflows h then Error SVN_ERR_SVNDIFF_CORRUPT_WINDOW
      else if slides_backward db h then Error SVN_ERR_SVNDIFF_BACKWARD_VIEW
      else if blen p <? u64 (h_inslen h + h_newlen h) then Ok None
      else
        let! window := decode_window (h_sview_offset h) (h_sview_len h) (h_tview_len h)
                         (h_inslen h) (h_newlen h) p (dec_version db) in
        let! c := f (Some window) (consumer_baton db) in
        Ok (Some (MkDecoder c (drop (Z.to_nat (h_inslen h + h_newlen h)) p)
                    (h_sview_offset h) (h_sview_len h) (header_bytes db)
                    (error_on_early_close db) (dec_version db)))
  end.

Lemma write_loop_round fuel db :
  write_loop f fuel db
  = let! r := round db in
    match r, fuel with
    | None, _ => Ok db
    | Some _, O => OutOfFuel
    | Some db', S fuel => write_loop f fuel db'
    end.
Proof.
  destruct fuel; cbn [write_loop]; unfold round;
    (destruct (decode_header (buffer db)) as [[h p]|]; [|done]);
    (do 4 (case_if; [done|]));
    (destruct (decode_window _ _ _ _ _ _ _); [|done..]); cbn [rbind];
    by destruct (f _ _).
Qed.

Lemma sections_small h : header_too_large h = false → h_inslen h + h_newlen h < 0x10000000000000000.
Proof.
  unfold header_too_large, SVN_DELTA_WINDOW_SIZE, MAX_INSTRUCTION_SECTION_LEN,
    MAX_INSTRUCTION_LEN, SVN_DELTA_WINDOW_SIZE, MAX_ENCODED_INT_LEN. lia.
Qed.

(** More data do not change a round that does not wait for them. *)
Lemma round_app db x :
  round db ≠ Ok None →
  round (with_buffer db (buffer db ++ x))
  = let! r := round db in Ok ((λ db', with_buffer db' (buffer db' ++ x)) <$> r).
Proof.
  unfold round. cbn [with_buffer buffer consumer_baton dec_version header_bytes
    error_on_early_close]. intros Hwait.
  destruct (decode_header (buffer db)) as [[h p]|] eqn:Hd; [|done].
  rewrite (decode_header_app _ _ _ x Hd).
  destruct (header_too_large h) eqn:Hl; [done|]. destruct (header_overflows h); [done|].
  change (slides_backward (with_buffer db (buffer db ++ x)) h) with (slides_backward db h).
  destruct (slides_backward db h); [done|].
  pose proof (decode_header_nonneg _ _ _ Hd) as (? & ? & ? & ?).
  pose proof (sections_small h Hl). rewrite u64_small in * by lia.
  destruct (Z.ltb_spec (blen p) (h_inslen h + h_newlen h)) as [|Hfull]; [done|].
  if_false by (rewrite blen_app; unfold blen in *; lia).
  rewrite decode_window_app by lia.
  destruct (decode_window _ _ _ _ _ _ _); [|done..]. cbn [rbind].
  destruct (f _ _); [|done..]. cbn. unfold with_buffer. simpl.
  rewrite drop_app_le; [done|]. unfold blen in Hfull. lia.
Qed.

Lemma round_shorter db db' :
  round db = Ok (Some db') → (length (buffer db') < length (buffer db))%nat.
Proof.
  unfold round. destruct (decode_header (buffer db)) as [[h p]|] eqn:Hd; [|done].
  do 4 (case_if; [done|]). apply decode_header_shorter in Hd.
  destruct (decode_window _ _ _ _ _ _ _); [|done..]. cbn [rbind].
  destruct (f _ _); [|done..]. intros [= <-]. simpl. rewrite length_drop. lia.
Qed.

(** The length of the buffer is enough fuel. *)
Lemma write_loop_fuel fuel fuel' db :
  (length (buffer db) <= fuel)%nat → (length (buffer db) <= fuel')%nat →
  write_loop f fuel db = write_loop f fuel' db.
Proof.
  revert fuel' db; induction fuel as [|fuel IH]; intros fuel' db Hf Hf';
    rewrite !write_loop_round; destruct (round db) as [[db'|]| | | |] eqn:Hr;
    try done; apply round_shorter in Hr; [lia|].
  cbn [rbind]. destruct fuel' as [|fuel']; [lia|]. apply IH; lia.
Qed.

Lemma write_loop_app fuel db x :
  (length (buffer db) <= fuel)%nat →
  write_loop f (fuel + length x) (with_buffer db (buffer db ++ x))
  = let! db' := write_loop f fuel db in
    write_loop f (length (buffer db' ++ x)) (with_buffer db' (buffer db' ++ x)).
Proof.
  revert db; induction fuel as [|fuel IH]; intros db Hf.
  - rewrite (write_loop_round 0). destruct (round db) as [[db'|]| | | |] eqn:Hr.
    1: apply round_shorter in Hr; lia.
    1: cbn [rbind]; apply write_loop_fuel; simpl; rewrite length_app; lia.
    all: rewrite write_loop_round, round_app, Hr by (by rewrite Hr); done.
  - rewrite (write_loop_round (S fuel)). destruct (round db) as [[db'|]| | | |] eqn:Hr.
    2: cbn [rbind]; apply write_loop_fuel; simpl; rewrite length_app; lia.
    2-5: rewrite write_loop_round, round_app, Hr by (by rewrite Hr); done.
    rewrite write_loop_round, round_app, Hr by (by rewrite Hr). cbn.
    apply IH. apply round_shorter in Hr. lia.
Qed.
End Chunks.

(** The states of the decoder: the header is at most four bytes, and nothing is
    buffered before it is complete. *)
Definition decoder_wf {C} (db : decode_baton (C := C)) : Prop :=
  (header_bytes db <= 4)%nat ∧ ((header_bytes db < 4)%nat → buffer db = []).

Section Header.
Context {C : Type}.
Implicit Types (db : decode_baton (C := C)).

Definition header_matches (version : Z) (at_ : nat) (buf : list byte) : bool :=
  bool_decide (take (Nat.min (4 - at_) (length buf)) buf
               = take (Nat.min (4 - at_) (length buf)) (drop at_ (svndiff_header version))).

(** The header bytes in [buf], when the header is not complete. *)
Lemma write_header_partial db buf :
  (header_bytes db < 4)%nat →
  write_header db buf
  = let! version :=
      if header_matches 0 (header_bytes db) buf then Ok 0
      else if header_matches 1 (header_bytes db) buf then Ok 1
      else Error SVN_ERR_SVNDIFF_INVALID_HEADER in
    let n := Nat.min (4 - header_bytes db) (length buf) in
    Ok (MkDecoder (consumer_baton db) (buffer db) (last_sview_offset db) (last_sview_len db)
          (header_bytes db + n) (error_on_early_close db) version, drop n buf).
Proof. intros Hh. unfold write_header. by if_true by lia. Qed.

(** A header that begins in one chunk and goes on in the next. *)
Lemma header_matches_app version at_ s1 s2 :
  (at_ + length s1 < 4)%nat →
  header_matches version at_ (s1 ++ s2)
  = header_matches version at_ s1 && header_matches version (at_ + length s1) s2.
Proof.
  intros Hl. unfold header_matches. rewrite length_app, (Nat.min_r _ (length s1)) by lia.
  set (n := Nat.min (4 - (at_ + length s1)) (length s2)).
  replace (Nat.min (4 - at_) (length s1 + length s2)) with (length s1 + n)%nat by (unfold n; lia).
  rewrite take_app_add, firstn_all. rewrite <- (take_take_drop _ (length s1) n), drop_drop.
  apply Bool.eq_iff_eq_true. rewrite andb_true_iff, !bool_decide_eq_true. split.
  - intros He. apply app_inj_1 in He; [done|].
    rewrite length_take, length_drop. simpl. lia.
  - by intros [<- <-].
Qed.

(** Before the last byte of the header the versions do not differ. *)
Lemma header_matches_prefix at_ s1 :
  (at_ + length s1 < 4)%nat → header_matches 0 at_ s1 = header_matches 1 at_ s1.
Proof.
  intros Hl. unfold header_matches. rewrite Nat.min_r by lia.
  assert (∀ version, take (length s1) (drop at_ (svndiff_header version))
    = take (length s1) (drop at_ ["S"%byte; "V"%byte; "N"%byte])) as Hpre.
  { intros version.
    change (svndiff_header version) with (["S"%byte; "V"%byte; "N"%byte] ++ [byte_of version]).
    rewrite drop_app_le by (simpl; lia).
    apply take_app_le. rewrite length_drop. simpl. lia. }
  by rewrite !Hpre.
Qed.

(** A header that is complete with the first chunk. *)
Lemma header_matches_full version at_ s1 s2 :
  (4 <= at_ + length s1)%nat →
  header_matches version at_ (s1 ++ s2) = header_matches version at_ s1.
Proof.
  intros Hl. unfold header_matches. rewrite length_app, !Nat.min_l by lia.
  by rewrite take_app_le by lia.
Qed.
End Header.

Section WriteHandler.
Context `{Zlib} {C : Type} (f : option svn_txdelta_window_t → C → result C).
Implicit Types (db : decode_baton (C := C)).

Lemma write_handler_complete db s :
  header_bytes db = 4%nat →
  write_handler f db s
  = write_loop f (length (buffer db ++ s)) (with_buffer db (buffer db ++ s)).
Proof. intros Hh. unfold write_handler, write_header. by rewrite Hh. Qed.

Lemma write_loop_header fuel db db' :
  write_loop f fuel db = Ok db' → header_bytes db' = header_bytes db.
Proof.
  revert db; induction fuel as [|fuel IH]; intros db; rewrite write_loop_round;
    destruct (round f db) as [[db2|]| | | |] eqn:Hr; cbn [rbind]; try done;
    try by intros [= <-].
  intros Hw. apply IH in Hw. rewrite Hw. clear -Hr. revert Hr. unfold round.
  destruct (decode_header (buffer db)) as [[h p]|]; [|done].
  do 4 (case_if; [done|]). destruct (decode_window _ _ _ _ _ _ _); [|done..]. cbn [rbind].
  destruct (f _ _); [|done..]. by intros [= <-].
Qed.

Lemma write_handler_app db s1 s2 :
  decoder_wf db →
  write_handler f db (s1 ++ s2) = let! db' := write_handler f db s1 in write_handler f db' s2.
Proof.
  intros [Hh Hb]. destruct (decide (header_bytes db = 4)%nat) as [H4|H4].
  { rewrite !write_handler_complete by done. rewrite app_assoc.
    rewrite (length_app _ s2), (write_loop_app f (length (buffer db ++ s1))
      (with_buffer db (buffer db ++ s1)) s2) by done.
    destruct (write_loop f _ (with_buffer db (buffer db ++ s1))) as [db'| | | |] eqn:Hw;
      [|done..]. cbn [rbind]. apply write_loop_header in Hw.
    by rewrite write_handler_complete by by rewrite Hw. }
  specialize (Hb ltac:(lia)). unfold write_handler at 1 2.
  rewrite !write_header_partial by lia.
  destruct (decide (header_bytes db + length s1 < 4)%nat) as [Hpart|Hfull].
  - rewrite !header_matches_app by done. rewrite <- (header_matches_prefix _ s1) by done.
    destruct (header_matches 0 (header_bytes db) s1); [|done]. cbn [andb rbind].
    rewrite Hb, (Nat.min_r (4 - header_bytes db) (length s1)), drop_all by lia.
    cbn [app length buffer consumer_baton last_sview_offset last_sview_len header_bytes
         error_on_early_close dec_version].
    rewrite write_loop_round. cbn [round buffer decode_header decode_file_offset decode_loop].
    unfold round. cbn [buffer].
    change (decode_header []) with (@None (window_header * list byte)). cbn [rbind].
    unfold write_handler. rewrite write_header_partial by (simpl; lia). cbn [header_bytes buffer].
    rewrite length_app.
    replace (Nat.min (4 - header_bytes db) (length s1 + length s2))
      with (length s1 + Nat.min (4 - (header_bytes db + length s1)) (length s2))%nat by lia.
    rewrite <- drop_drop, drop_app_length, Nat.add_assoc.
    by case_if; [|case_if].
  - rewrite !header_matches_full by lia.
    destruct (if header_matches 0 _ _ then _ else _) as [v| | | |]; [|done..]. cbn [rbind].
    rewrite (Nat.min_l _ (length s1)), (Nat.min_l _ (length (s1 ++ s2)))
      by (rewrite ?length_app; lia).
    rewrite Hb.
    cbn [app buffer consumer_baton last_sview_offset last_sview_len header_bytes
         error_on_early_close dec_version].
    rewrite drop_app_le by lia. set (s := drop _ s1).
    rewrite (length_app s s2).
    set (db0 := MkDecoder _ s _ _ _ _ v).
    change (MkDecoder _ (s ++ s2) _ _ _ _ v) with (with_buffer db0 (buffer db0 ++ s2)).
    rewrite (write_loop_app f (length s) db0 s2) by done.
    destruct (write_loop f _ db0) as [db'| | | |] eqn:Hw; [|done..]. cbn [rbind].
    apply write_loop_header in Hw. simpl in Hw.
    rewrite write_handler_complete by (rewrite Hw; lia). done.
Qed.
End WriteHandler.

(** Writing chunk after chunk. *)
Fixpoint write_chunks `{Zlib} {C} (f : option svn_txdelta_window_t → C → result C)
    (chunks : list (list byte)) (db : decode_baton) : result decode_baton :=
  match chunks with
  | [] => Ok db
  | s :: chunks => let! db := write_handler f db s in write_chunks f chunks db
  end.

Lemma write_chunks_concat `{Zlib} {C} (f : option svn_txdelta_window_t → C → result C) chunks
    s db :
  decoder_wf db →
  write_chunks f (s :: chunks) db = write_handler f db (s ++ concat chunks).
Proof.
  revert s; induction chunks as [|s' chunks IH]; intros s Hwf.
  { simpl. rewrite app_nil_r. by destruct (write_handler f db s). }
  cbn [concat]. rewrite app_assoc, <- IH by done. cbn [write_chunks].
  rewrite write_handler_app by done. by destruct (write_handler f db s).
Qed.

(** C33: The incremental svndiff parser does not depend on how its input is
    split: writing any sequence of chunks has the same outcome, windows
    delivered and buffered remainder as writing their concatenation in one
    call. *)
Theorem write_handler_chunks `{Zlib} {C : Type}
    (consumer_func : option svn_txdelta_window_t → C → result C)
    (handler_baton : C) (early_close : bool) (chunks : list (list byte)) :
  write_chunks consumer_func chunks (svn_txdelta_parse_svndiff handler_baton early_close)
  = write_handler consumer_func (svn_txdelta_parse_svndiff handler_baton early_close)
      (concat chunks).
Proof.
  destruct chunks as [|s chunks]; [done|].
  apply write_chunks_concat. split; simpl; [lia|done].
Qed.

(** ** What the decoder lets through *)

Lemma decode_loop_u64 n temp q v q' :
  decode_loop u64 n temp q = Some (v, q') → 0 <= v < 0x10000000000000000.
Proof.
  revert temp q; induction n as [|n IH]; intros temp [|c q]; simpl; try done.
  case_if; [intros [= <- _]|apply IH]. apply Z.mod_pos_bound. lia.
Qed.

Lemma decode_instruction_inv p op r :
  decode_instruction p = Some (op, r) →
  (length r < length p)%nat ∧ 0 <= op_length op < 0x10000000000000000
  ∧ 0 <= offset op < 0x10000000000000000.
Proof.
  destruct p as [|c p]; [done|]. cbn [decode_instruction]. case_if; [done|].
  set (action := if _ =? 0 then _ else _). set (len := Z.land (byte_val c) 63).
  assert (0 <= len < 64) as Hlen.
  { unfold len. change 63 with (Z.ones 6). rewrite Z.land_ones by lia.
    change (2 ^ 6) with 64. apply Z.mod_pos_bound. lia. }
  assert (∀ l p1, (if len =? 0 then decode_size p else Some (len, p)) = Some (l, p1) →
    (length p1 <= length p)%nat ∧ 0 <= l < 0x10000000000000000) as H1.
  { intros l p1. case_if; [|intros [= <- <-]; lia]. intros Hd. unfold decode_size in Hd.
    pose proof (decode_loop_u64 _ _ _ _ _ Hd). apply decode_loop_shorter in Hd. lia. }
  destruct (if len =? 0 then _ else _) as [[l p1]|]; [|done]. cbn [mbind option_bind].
  destruct (H1 _ _ eq_refl) as [Hl1 Hl2].
  case_if; [|intros [= <- <-]; simpl; lia].
  destruct (decode_size p1) as [[o p2]|] eqn:Hd; [|done]. cbn [mbind option_bind].
  intros [= <- <-]. unfold decode_size in Hd.
  pose proof (decode_loop_u64 _ _ _ _ _ Hd). apply decode_loop_shorter in Hd. simpl. lia.
Qed.

Section Sound.
Context (slen tlen nlen : Z).
Hypothesis Hslen : 0 <= slen < 0x8000000000000000.
Hypothesis Htlen : 0 <= tlen < 0x8000000000000000.
Hypothesis Hnlen : 0 <= nlen < 0x8000000000000000.

(** The op with the offset that [decode_ops] gives it. *)
Definition placed_op (npos : Z) (op : svn_txdelta_op_t) : svn_txdelta_op_t :=
  if action_eqb (action_code op) svn_txdelta_new
  then MkOp svn_txdelta_new npos (op_length op) else op.

Lemma verified_placed tpos npos op ops_ :
  0 <= offset op → 0 < op_length op → 0 <= tpos → 0 <= npos →
  match action_code op with
  | svn_txdelta_source => offset op + op_length op <= slen
  | svn_txdelta_target => offset op < tpos
  | svn_txdelta_new => npos + op_length op <= nlen
  end →
  ops_verified slen tlen nlen (tpos + op_length op)
    (if action_eqb (action_code op) svn_txdelta_new then npos + op_length op else npos) ops_ →
  ops_verified slen tlen nlen tpos npos (placed_op npos op :: ops_).
Proof.
  intros Ho Hl Ht Hn Hop [Hv Hne Hlen Hnew]. unfold placed_op.
  destruct op as [[] o l]; simpl in *; split; simpl; try lia; try done.
  all: rewrite ?Z.eqb_refl, ?Hv, ?Hne; unfold op_valid; simpl; done || lia.
Qed.

Lemma count_sound fuel p n tpos npos :
  0 <= tpos <= tlen → 0 <= npos <= nlen → (length p <= fuel)%nat →
  match count_loop fuel p slen tlen nlen n tpos npos with
  | Ok m =>
      ∃ ops_, m = n + Z.of_nat (length ops_)
        ∧ decode_ops (length ops_) p npos = Ok (ops_, source_ops ops_, [])
        ∧ ops_verified slen tlen nlen tpos npos ops_
  | Error e => e = SVN_ERR_SVNDIFF_INVALID_OPS
  | Aborted | Undefined | OutOfFuel => False
  end.
Proof.
  revert p n tpos npos; induction fuel as [|fuel IH]; intros p n tpos npos Ht Hn Hf.
  all: destruct p as [|c p]; cbn [count_loop].
  1, 3: destruct (Z.eqb_spec tpos tlen); simpl; [|done]; destruct (Z.eqb_spec npos nlen); simpl;
    [|done]; exists []; split; [simpl; lia|]; split; [done|];
    split; simpl; [done|done|lia|by f_equal].
  { simpl in Hf. lia. }
  destruct (decode_instruction (c :: p)) as [[op r]|] eqn:Hd; [|done].
  destruct (decode_instruction_inv _ _ _ Hd) as (Hr & Hl & Ho).
  case_if; [done|]. rewrite (u64_small (tlen - tpos)) by lia. case_if; [done|].
  set (npos' := if action_eqb (action_code op) svn_txdelta_new then npos + op_length op
                else npos).
  match goal with |- context [rbind ?m _] => assert (m = Ok npos' ∧
    match action_code op with
    | svn_txdelta_source => offset op + op_length op <= slen
    | svn_txdelta_target => offset op < tpos
    | svn_txdelta_new => npos + op_length op <= nlen
    end ∨ m = Error SVN_ERR_SVNDIFF_INVALID_OPS) as Hm end.
  { unfold npos'. destruct (action_code op); simpl.
    - destruct (Z.ltb_spec slen (offset op)).
      { right. by rewrite orb_true_r. }
      rewrite u64_small by lia. case_if; [by right|left]. split; [done|lia].
    - case_if; [by right|left]. split; [done|lia].
    - rewrite u64_small by lia. case_if; [by right|left].
      rewrite u64_small by lia. split; [done|lia]. }
  destruct Hm as [[-> Hop]| ->]; [|done]. cbn [rbind].
  rewrite u64_small by lia.
  assert (0 <= npos' <= nlen) as Hnp.
  { unfold npos'. destruct (action_code op); simpl; lia. }
  specialize (IH r (n + 1) (tpos + op_length op) npos' ltac:(lia) Hnp
    ltac:(simpl in *; lia)).
  destruct (count_loop fuel r slen tlen nlen (n + 1) (tpos + op_length op) npos')
    as [m|e| | |]; [|done..].
  destruct IH as (ops_ & -> & Hdec & Hver).
  exists (placed_op npos op :: ops_). split; [simpl; lia|]. split.
  - cbn [length decode_ops]. rewrite Hd. unfold placed_op, source_ops, npos' in *.
    cbn [List.filter].
    destruct (action_eqb_spec (action_code op) svn_txdelta_new) as [Ha|Ha].
    + rewrite Ha in Hop. rewrite u64_small by lia. rewrite Hdec. done.
    + rewrite Hdec. cbn [rbind]. case_if; [|done].
      unfold source_ops. cbn [length]. f_equal. f_equal. f_equal. lia.
  - apply verified_placed; [lia|lia|lia|lia|done|done].
Qed.
End Sound.

(** The errors of [decode_window]. *)
Definition window_error (e : svn_errno) : bool :=
  match e with
  | SVN_ERR_SVNDIFF_INVALID_OPS | SVN_ERR_SVNDIFF_INVALID_COMPRESSED_DATA
  | SVN_ERR_STREAM_MALFORMED_DATA | SVN_ERR_STREAM_UNRECOGNIZED_DATA | APR_ENOMEM => true
  | _ => false
  end.

(** The errors of the stream. *)
Definition stream_error (e : svn_errno) : bool :=
  window_error e
  || match e with
     | SVN_ERR_SVNDIFF_INVALID_HEADER | SVN_ERR_SVNDIFF_CORRUPT_WINDOW
     | SVN_ERR_SVNDIFF_BACKWARD_VIEW => true
     | _ => false
     end.

Section SoundWindow.
Context `{Zlib}.

Lemma decode_section_sound version data limit :
  match decode_section version data limit with
  | Ok out => blen out <= Z.max limit (blen data)
  | Error e => window_error e = true
  | Aborted | Undefined | OutOfFuel => False
  end.
Proof.
  unfold decode_section. case_if; [|lia]. unfold zlib_decode.
  destruct (decode_size data) as [[len r]|] eqn:Hd; [|done]. case_if; [done|].
  case_if; [lia|]. destruct (uncompress len r) as [out|[]] eqn:Hu; try done.
  cbn [svn_error__wrap_zlib rbind]. case_if; [done|].
  apply uncompress_bound in Hu. lia.
Qed.

Lemma decode_window_sound so sl tl inslen newlen data version :
  0 <= so < 0x8000000000000000 → 0 <= sl <= SVN_DELTA_WINDOW_SIZE →
  0 <= tl <= SVN_DELTA_WINDOW_SIZE → 0 <= newlen < 0x8000000000000000 →
  match decode_window so sl tl inslen newlen data version with
  | Ok w => window_ok w ∧ recounted w = w ∧ sview_offset w = so ∧ sview_len w = sl
  | Error e => window_error e = true
  | Aborted | Undefined | OutOfFuel => False
  end.
Proof.
  intros Hso Hsl Htl Hnl. rewrite decode_window_sections.
  pose proof (decode_section_sound version (bytes_at 0 newlen (drop (Z.to_nat inslen) data))
    SVN_DELTA_WINDOW_SIZE) as Hnd.
  destruct (decode_section version (bytes_at 0 newlen _) _) as [nd| | | |]; [|done..].
  cbn [rbind].
  pose proof (decode_section_sound version (bytes_at 0 inslen data)
    MAX_INSTRUCTION_SECTION_LEN) as Hins.
  destruct (decode_section version (bytes_at 0 inslen data) _) as [ins| | | |]; [|done..].
  cbn [rbind]. unfold SVN_DELTA_WINDOW_SIZE in *.
  assert (0 <= blen nd < 0x8000000000000000) as Hndl.
  { assert (blen (bytes_at 0 newlen (drop (Z.to_nat inslen) data)) <= newlen).
    { unfold blen, bytes_at. rewrite length_take. lia. }
    unfold blen in *. lia. }
  unfold count_and_verify_instructions.
  pose proof (count_sound sl tl (blen nd) ltac:(lia) ltac:(lia) Hndl (length ins) ins 0 0 0
    ltac:(lia) ltac:(lia) ltac:(done)) as Hc.
  destruct (count_loop _ _ _ _ _ _ _ _) as [m|e| | |]; [|by subst|done..].
  destruct Hc as (ops_ & -> & Hdec & Hver). cbn [rbind].
  rewrite Z.add_0_l, Nat2Z.id, Hdec. cbn [rbind]. unfold guarded. simpl.
  split; [|done]. split; simpl; unfold SVN_DELTA_WINDOW_SIZE; done || lia.
Qed.
End SoundWindow.

(** The consumer that keeps the windows. *)
Definition collect (window : option svn_txdelta_window_t) (windows : list svn_txdelta_window_t)
    : result (list svn_txdelta_window_t) :=
  Ok (match window with Some w => windows ++ [w] | None => windows end).

Lemma slides_forward_app lo ll ws w :
  slides_forward lo ll (ws ++ [w])
  = slides_forward lo ll ws
    && slides_forward (from_option sview_offset lo (last ws)) (from_option sview_len ll (last ws)) [w].
Proof.
  revert lo ll; induction ws as [|w' ws IH]; intros lo ll; [done|].
  cbn [app]. cbn [slides_forward]. rewrite IH, !last_view. cbn [slides_forward].
  by rewrite andb_assoc.
Qed.

Section SoundStream.
Context `{Zlib}.
Implicit Types (db : decode_baton (C := list svn_txdelta_window_t)).

Record collected db : Prop := {
  c_ok : Forall (λ w, window_ok w ∧ recounted w = w) (consumer_baton db);
  c_slides : slides_forward 0 0 (consumer_baton db) = true;
  c_offset : last_sview_offset db = from_option sview_offset 0 (last (consumer_baton db));
  c_len : last_sview_len db = from_option sview_len 0 (last (consumer_baton db));
}.

Lemma collected_bounds db :
  collected db →
  0 <= last_sview_offset db < 0x8000000000000000
  ∧ 0 <= last_sview_len db <= SVN_DELTA_WINDOW_SIZE.
Proof.
  intros [Hok _ -> ->]. destruct (last (consumer_baton db)) as [w|] eqn:Hl; [|done].
  apply last_Some_elem_of in Hl. rewrite Forall_forall in Hok.
  destruct (Hok _ Hl) as [[_ _ Hsv Hoff] _]. simpl. lia.
Qed.

Lemma decode_file_offset_bound p v r :
  decode_file_offset p = Some (v, r) → v < 0x8000000000000000.
Proof.
  unfold decode_file_offset. generalize (Z.to_nat MAX_ENCODED_INT_LEN) as n, 0 as temp.
  intros n temp. revert temp p; induction n as [|n IH]; intros temp [|c p]; simpl; try done.
  case_if; [intros [= <- _]|apply IH]. unfold s64.
  set (x := Z.lor _ _).
  pose proof (Z.mod_pos_bound (x + 0x8000000000000000) 0x10000000000000000). lia.
Qed.

Lemma round_sound db :
  collected db →
  match round collect db with
  | Ok (Some db') => collected db' ∧ header_bytes db' = header_bytes db
  | Ok None => True
  | Error e => stream_error e = true
  | Aborted | Undefined | OutOfFuel => False
  end.
Proof.
  intros Hc. pose proof (collected_bounds db Hc) as [Hlo Hll]. destruct Hc as [Hok Hs Ho Hl].
  unfold round. destruct (decode_header (buffer db)) as [[h p]|] eqn:Hd; [|done].
  destruct (header_too_large h) eqn:Htl; [done|].
  destruct (header_overflows h) eqn:Hov; [done|].
  destruct (slides_backward db h) eqn:Hsb; [done|].
  case_if; [done|].
  pose proof (decode_header_nonneg _ _ _ Hd) as (? & ? & ? & ?).
  pose proof (sections_small h Htl) as Hsmall.
  apply decode_header_inv in Hd as (r1 & _ & _ & _ & Hd%decode_file_offset_bound & _).
  unfold header_too_large, header_overflows in *.
  assert (Hnewlen : 0 <= h_newlen h < 0x8000000000000000)
    by (unfold SVN_DELTA_WINDOW_SIZE, MAX_ENCODED_INT_LEN in *; lia).
  pose proof (decode_window_sound (h_sview_offset h) (h_sview_len h) (h_tview_len h)
    (h_inslen h) (h_newlen h) p (dec_version db) ltac:(lia) ltac:(lia) ltac:(lia) Hnewlen) as Hw.
  destruct (decode_window _ _ _ _ _ _ _) as [w|e| | |]; [|cbn [rbind]|done..].
  2: { unfold stream_error. by rewrite Hw. }
  destruct Hw as (Hwok & Hwr & Hwo & Hwl).
  cbn [collect rbind]. split; [|done]. split; cbn [consumer_baton last_sview_offset last_sview_len].
  - apply Forall_app. by split; [|constructor].
  - rewrite slides_forward_app, Hs, <- Ho, <- Hl. cbn [slides_forward andb].
    unfold slides_backward in Hsb. unfold SVN_DELTA_WINDOW_SIZE in *.
    rewrite !u64_small in Hsb by lia. rewrite Hwo, Hwl. lia.
  - by rewrite last_snoc.
  - by rewrite last_snoc.
Qed.

Lemma write_loop_sound fuel db :
  collected db → (length (buffer db) <= fuel)%nat →
  match write_loop collect fuel db with
  | Ok db' => collected db' ∧ header_bytes db' = header_bytes db
  | Error e => stream_error e = true
  | Aborted | Undefined | OutOfFuel => False
  end.
Proof.
  revert db; induction fuel as [|fuel IH]; intros db Hc Hf;
    rewrite write_loop_round; pose proof (round_sound db Hc) as Hr;
    destruct (round collect db) as [[db'|]| | | |] eqn:Hround; try done;
    apply round_shorter in Hround; [lia|].
  cbn [rbind]. destruct Hr as [Hc' Hh]. specialize (IH db' Hc' ltac:(lia)).
  by rewrite Hh in IH.
Qed.

Lemma write_handler_sound db s :
  collected db → decoder_wf db →
  match write_handler collect db s with
  | Ok db' => collected db'
  | Error e => stream_error e = true
  | Aborted | Undefined | OutOfFuel => False
  end.
Proof.
  intros Hc [Hh Hb]. unfold write_handler, write_header.
  destruct Hc as [Hok Hs Ho Hl]. case_if.
  - case_if; [|case_if; [|done]]; cbn [rbind consumer_baton buffer last_sview_offset
      last_sview_len header_bytes error_on_early_close dec_version];
      match goal with |- context [write_loop collect ?n ?d] =>
        pose proof (write_loop_sound n d ltac:(done) ltac:(done)) as Hw;
        destruct (write_loop collect n d) as [db'| | | |]; [apply Hw|done..] end.
  - cbn [rbind].
    match goal with |- context [write_loop collect ?n ?d] =>
      pose proof (write_loop_sound n d ltac:(done) ltac:(done)) as Hw;
      destruct (write_loop collect n d) as [db'| | | |]; [apply Hw|done..] end.
Qed.
End SoundStream.


(** ** Reading windows one at a time *)

Section ReadWindow.
Context `{Zlib}.

Lemma read_encoded_window version w header sections h rest :
  encoded_window version w header sections h →
  svn_txdelta_read_svndiff_window ((header ++ sections) ++ rest) version
  = Ok (recounted w, rest)
  ∧ svn_txdelta_skip_svndiff_window ((header ++ sections) ++ rest) = Ok rest.
Proof.
  intros He. pose proof (ew_sections _ _ _ _ _ He) as Hs.
  pose proof (ew_small _ _ _ _ _ He). pose proof (ew_nonneg _ _ _ _ _ He).
  assert (Hdrop : drop (Z.to_nat (blen sections)) (sections ++ rest) = rest).
  { unfold blen. rewrite Nat2Z.id. apply drop_app_length. }
  unfold svn_txdelta_read_svndiff_window, svn_txdelta_skip_svndiff_window.
  rewrite <- app_assoc, (ew_read _ _ _ _ _ He). cbn [rbind].
  rewrite Hs, Hdrop, u64_small by lia.
  rewrite bytes_at_app, bytes_at_all by lia. if_false by lia.
  pose proof (ew_window _ _ _ _ _ He []) as Hw. rewrite app_nil_r in Hw. rewrite Hw.
  cbn [rbind]. by rewrite Hdrop.
Qed.
End ReadWindow.

(** Reading one window from a stream inverts encoding it and leaves the rest
    of the stream unread; skipping a window moves the stream to the same
    place. *)
Theorem svn_txdelta_read_svndiff_window_spec `{Zlib} (window : svn_txdelta_window_t)
    (svndiff_version level : Z) (rest : list byte) :
  window_ok window → (svndiff_version = 1 → compression_works level) →
  ∃ bytes,
    encode_window svndiff_version level window = Ok bytes
    ∧ svn_txdelta_read_svndiff_window (bytes ++ rest) svndiff_version
      = Ok (recounted window, rest)
    ∧ svn_txdelta_skip_svndiff_window (bytes ++ rest) = Ok rest.
Proof.
  intros Hok Hw.
  destruct (encode_window_ok svndiff_version level Hw window Hok)
    as (header & sections & h & Henc & He).
  exists (header ++ sections). split; [done|]. by apply (read_encoded_window svndiff_version _ _ _ h).
Qed.

(** The variable-length integers round trip: every value below 2^63 is
    encoded in at most 9 bytes, and the buffer decoders of offsets and sizes
    and the stream reader all give the value back and leave the rest of the
    input. *)
Theorem encode_int_decode (val : Z) (rest : list byte) :
  0 <= val < 0x8000000000000000 →
  ∃ p,
    encode_int val = Ok p ∧ 1 <= blen p <= MAX_ENCODED_INT_LEN - 1
    ∧ decode_file_offset (p ++ rest) = Some (val, rest)
    ∧ decode_size (p ++ rest) = Some (val, rest)
    ∧ read_one_size (p ++ rest) = Ok (val, rest).
Proof.
  intros Hv. destruct (encode_int_encoded val Hv) as (p & Hp & He).
  exists p. split; [done|]. split; [apply (encoded_length _ _ He)|].
  split; [apply (encoded_offset _ _ He)|]. split; [apply (encoded_size _ _ He)|].
  apply (encoded_read _ _ He). by right.
Qed.

Lemma encode_int_decode_witness :
  0 <= 2000 < 0x8000000000000000
  ∧ ∃ p,
      encode_int 2000 = Ok p ∧ 1 <= blen p <= MAX_ENCODED_INT_LEN - 1
      ∧ decode_file_offset (p ++ [x61]) = Some (2000, [x61])
      ∧ decode_size (p ++ [x61]) = Some (2000, [x61])
      ∧ read_one_size (p ++ [x61]) = Ok (2000, [x61]).
Proof. split; [lia|]. apply (encode_int_decode 2000 [x61]). lia. Defined.

Example encode_int_2000 : encode_int 2000 = Ok [x8f; x50].
Proof. reflexivity. Qed.

(** svn__decompress inverts svn__compress whenever the data is within the
    limit, and compression never adds more than the nine bytes of the length
    header. *)
Theorem svn__compress_decompress `{Zlib} (data : list byte) (level limit : Z) :
  blen data < 0x8000000000000000 → compression_works level → blen data <= limit →
  ∃ z,
    svn__compress data level = Ok z ∧ blen z <= 9 + blen data
    ∧ svn__decompress z limit = Ok data.
Proof.
  intros Hl Hc Hlim. destruct (zlib_encode_ok data level Hl Hc) as (z & Hz & Hzl & Hd).
  exists z. split; [done|]. split; [lia|]. by apply Hd.
Qed.

(** ** A compressor

    The laws of [Zlib] can be met: runs of one byte are packed into two. *)
Module Runs.
Definition compress2 (data : list byte) (level : Z) : list byte + zlib_error :=
  match data with
  | [] => inl [x00]
  | c :: _ => if bool_decide (data = replicate (length data) c) then inl [x01; c]
              else inl (x00 :: data)
  end.

Definition uncompress (size : Z) (z : list byte) : list byte + zlib_error :=
  match z with
  | x00 :: data => if blen data <=? size then inl data else inr Z_BUF_ERROR
  | [x01; c] => if 0 <=? size then inl (replicate (Z.to_nat size) c) else inr Z_BUF_ERROR
  | _ => inr Z_DATA_ERROR
  end.

Lemma uncompress_compress2 data level z :
  compress2 data level = inl z → uncompress (blen data) z = inl data.
Proof.
  unfold compress2. destruct data as [|c data]; [by intros [= <-]|].
  case_bool_decide as Hr; intros [= <-]; unfold uncompress.
  - if_true by (unfold blen; lia). unfold blen. by rewrite Nat2Z.id, <- Hr.
  - by rewrite Z.leb_refl.
Qed.

Lemma uncompress_bound size z data : uncompress size z = inl data → blen data <= size.
Proof.
  unfold uncompress. destruct z as [|[] z]; try done.
  - case_if; [|done]. intros [= <-]. lia.
  - destruct z as [|c [|? ?]]; try done. case_if; [|done]. intros [= <-].
    unfold blen. rewrite length_replicate. lia.
Qed.

Definition runs_Zlib : Zlib := {|
  Svndiff.compress2 := compress2;
  Svndiff.uncompress := uncompress;
  Svndiff.uncompress_compress2 := uncompress_compress2;
  Svndiff.uncompress_bound := uncompress_bound;
|}.

Lemma works level : @compression_works runs_Zlib level.
Proof.
  intros [|c data]; [by eexists|]. cbn. unfold compress2.
  destruct (bool_decide _); by eexists.
Qed.
End Runs.

(** Two windows, the second with enough new data to be compressed. *)
Definition example_windows : list svn_txdelta_window_t :=
  [MkWindow 0 4 6 1 [MkOp svn_txdelta_new 0 2; MkOp svn_txdelta_source 1 2;
                     MkOp svn_txdelta_target 0 2] [x61; x62];
   MkWindow 4 4 600 0 [MkOp svn_txdelta_new 0 600] (replicate 600 x61)].

Lemma example_windows_ok : Forall window_ok example_windows.
Proof. repeat constructor; vm_compute; done. Qed.

Lemma svndiff_roundtrip_witness :
  let _ := Runs.runs_Zlib in
  ∃ eb,
    encode_stream example_windows (svn_txdelta_to_svndiff3 1 5) = Ok eb
    ∧ output_closed eb = true
    ∧ (let! db := write_handler collect (svn_txdelta_parse_svndiff [] true) (output eb) in
       close_handler collect db)
      = let! c := deliver collect (map recounted example_windows) [] in collect None c.
Proof.
  apply (@svndiff_roundtrip Runs.runs_Zlib _ collect [] example_windows 1 5 true).
  - right. split; [done|]. apply Runs.works.
  - apply example_windows_ok.
  - vm_compute. reflexivity.
Defined.

Lemma svn_txdelta_read_svndiff_window_spec_witness :
  let _ := Runs.runs_Zlib in
  let window := MkWindow 0 4 6 1 [MkOp svn_txdelta_new 0 2; MkOp svn_txdelta_source 1 2;
                                  MkOp svn_txdelta_target 0 2] [x61; x62] in
  ∃ bytes,
    encode_window 1 5 window = Ok bytes
    ∧ svn_txdelta_read_svndiff_window (bytes ++ [x63]) 1 = Ok (recounted window, [x63])
    ∧ svn_txdelta_skip_svndiff_window (bytes ++ [x63]) = Ok [x63].
Proof.
  apply (@svn_txdelta_read_svndiff_window_spec Runs.runs_Zlib _ 1 5 [x63]).
  - repeat constructor; vm_compute; done.
  - intros _. apply Runs.works.
Defined.

Lemma svn__compress_decompress_witness :
  let _ := Runs.runs_Zlib in
  ∃ z,
    svn__compress (replicate 600 x61) 5 = Ok z ∧ blen z <= 9 + blen (replicate 600 x61)
    ∧ svn__decompress z 102400 = Ok (replicate 600 x61).
Proof.
  apply (@svn__compress_decompress Runs.runs_Zlib (replicate 600 x61) 5 102400);
    [by vm_compute|apply Runs.works|vm_compute; done].
Defined.
