(* ===== verification/Xdelta.v ===== *)
(** * xdelta

    [src/subversion/libsvn_delta/xdelta.c]: the ops that make a target out of a
    source.  The source is cut into blocks, which are put into a hash table
    under a checksum; a rolling checksum over the target finds them again.

    A pointer into a buffer is the buffer with an index; [read] is [Undefined]
    outside of the buffer.  [unaligned] is SVN_UNALIGNED_ACCESS_IS_OK. *)
From S2P Require Import Prelude TextDelta.

Definition MATCH_BLOCKSIZE : Z := 64.
Definition NO_POSITION : Z := 0xffffffff.

(** ** Memory *)

Definition read (s : list byte) (i : Z) : result byte :=
  if i <? 0 then Undefined
  else match s !! Z.to_nat i with Some c => Ok c | None => Undefined end.

(** [memcmp (a + i, b + j, len) == 0]. *)
Definition memeq (a : list byte) (i : Z) (b : list byte) (j : Z) (len : Z) : result bool :=
  if (0 <=? i) && (i + len <=? blen a) && (0 <=? j) && (j + len <=? blen b)
  then Ok (bool_decide (bytes_at i len a = bytes_at j len b))
  else Undefined.

(** ** Checksums *)

Definition adler32_replace (adler32 : Z) (c_out c_in : byte) : Z :=
  let adler32 := u32 (adler32 - MATCH_BLOCKSIZE * 0x10000 * byte_val c_out) in
  let adler32 := u32 (adler32 - byte_val c_out) in
  let adler32 := u32 (adler32 + byte_val c_in) in
  u32 (adler32 + u32 (adler32 * 0x10000)).

(** The loop of [init_adler32], which is unrolled eight times there. *)
Fixpoint adler32_loop (s1 s2 : Z) (input : list byte) : Z * Z :=
  match input with
  | [] => (s1, s2)
  | c :: input =>
      let s1 := u32 (s1 + byte_val c) in
      let s2 := u32 (s2 + s1) in
      adler32_loop s1 s2 input
  end.

Definition adler32 (block : list byte) : Z :=
  let '(s1, s2) := adler32_loop 0 0 block in u32 (u32 (s2 * 0x10000) + s1).

Definition init_adler32 (data : list byte) (pos : Z) : result Z :=
  if pos + MATCH_BLOCKSIZE <=? blen data then Ok (adler32 (bytes_at pos MATCH_BLOCKSIZE data))
  else Undefined.

(** ** The table of blocks *)

Record block := MkBlock { adlersum : Z; pos : Z }.

(** [max] is the largest index of [slots]. *)
Record blocks_t := MkBlocks { max : Z; data : list byte; slots : list block }.

Definition hash_func (sum : Z) : Z := Z.lxor sum (Z.shiftr sum 12).

(** The loop of [add_block]; a probe of every slot is enough fuel. *)
Fixpoint add_loop (fuel : nat) (blocks : blocks_t) (sum p h : Z) : result (list block) :=
  match slots blocks !! Z.to_nat h with
  | None => Undefined
  | Some b =>
      if pos b =? NO_POSITION then Ok (<[Z.to_nat h := MkBlock sum p]> (slots blocks))
      else
        let! same :=
          if adlersum b =? sum then memeq (data blocks) (pos b) (data blocks) p MATCH_BLOCKSIZE
          else Ok false in
        if same then Ok (slots blocks)
        else match fuel with
             | O => OutOfFuel
             | S fuel => add_loop fuel blocks sum p (Z.land (u32 (h + 1)) (max blocks))
             end
  end.

Definition add_block (blocks : blocks_t) (sum p : Z) : result blocks_t :=
  let! slots_ := add_loop (length (slots blocks)) blocks sum p
                   (Z.land (hash_func sum) (max blocks)) in
  Ok (MkBlocks (max blocks) (data blocks) slots_).

Fixpoint find_loop (fuel : nat) (blocks : blocks_t) (sum : Z) (b : list byte) (bpos h : Z)
    : result Z :=
  match slots blocks !! Z.to_nat h with
  | None => Undefined
  | Some blk =>
      if pos blk =? NO_POSITION then Ok NO_POSITION
      else
        let! same :=
          if adlersum blk =? sum then memeq (data blocks) (pos blk) b bpos MATCH_BLOCKSIZE
          else Ok false in
        if same then Ok (pos blk)
        else match fuel with
             | O => OutOfFuel
             | S fuel => find_loop fuel blocks sum b bpos (Z.land (u32 (h + 1)) (max blocks))
             end
  end.

(** [data] is [b + bpos]. *)
Definition find_block (blocks : blocks_t) (sum : Z) (b : list byte) (bpos : Z) : result Z :=
  find_loop (length (slots blocks)) blocks sum b bpos (Z.land (hash_func sum) (max blocks)).

(** The power of two above [nblocks]. *)
Fixpoint double_until (fuel : nat) (wnslots nblocks : Z) : Z :=
  match fuel with
  | O => wnslots
  | S fuel => if wnslots <=? nblocks then double_until fuel (wnslots * 2) nblocks else wnslots
  end.

Fixpoint init_blocks_loop (fuel : nat) (i datalen : Z) (blocks : blocks_t) : result blocks_t :=
  if u32 (i + MATCH_BLOCKSIZE) <=? datalen then
    match fuel with
    | O => OutOfFuel
    | S fuel =>
        let! sum := init_adler32 (data blocks) i in
        let! blocks := add_block blocks sum i in
        init_blocks_loop fuel (u32 (i + MATCH_BLOCKSIZE)) datalen blocks
    end
  else Ok blocks.

(** 64 doublings exceed any [apr_size_t]. *)
Definition init_blocks_table (data_ : list byte) (datalen : Z) : result blocks_t :=
  let nblocks := datalen / MATCH_BLOCKSIZE + 1 in
  let wnslots := double_until 64 1 nblocks * 2 in
  let nslots := u32 wnslots in
  assert! wnslots =? nslots in
  init_blocks_loop (Z.to_nat nblocks) 0 datalen
    (MkBlocks (nslots - 1) data_ (replicate (Z.to_nat nslots) (MkBlock 0 NO_POSITION))).

(** ** Comparing memory *)

Section Match.
Context (unaligned : bool).
Implicit Types (a b : list byte).

(** The loop over words of eight bytes. *)
Fixpoint match_words (fuel : nat) a (i : Z) b (j : Z) (pos_ max_len : Z) : result Z :=
  if pos_ + 8 <=? max_len then
    let! same := memeq a (i + pos_) b (j + pos_) 8 in
    if same then
      match fuel with
      | O => OutOfFuel
      | S fuel => match_words fuel a i b j (pos_ + 8) max_len
      end
    else Ok pos_
  else Ok pos_.

Fixpoint match_bytes (fuel : nat) a (i : Z) b (j : Z) (pos_ max_len : Z) : result Z :=
  if pos_ <? max_len then
    let! x := read a (i + pos_) in
    let! y := read b (j + pos_) in
    if x =b? y then
      match fuel with
      | O => OutOfFuel
      | S fuel => match_bytes fuel a i b j (pos_ + 1) max_len
      end
    else Ok pos_
  else Ok pos_.

(** Compares [a + i] with [b + j]. *)
Definition match_length a (i : Z) b (j : Z) (max_len : Z) : result Z :=
  let! pos_ := if unaligned then match_words (Z.to_nat max_len) a i b j 0 max_len else Ok 0 in
  match_bytes (Z.to_nat max_len) a i b j pos_ max_len.

Fixpoint reverse_match_words (fuel : nat) a (i : Z) b (j : Z) (pos_ max_len : Z) : result Z :=
  if pos_ <=? max_len then
    let! same := memeq a (i - pos_) b (j - pos_) 8 in
    if same then
      match fuel with
      | O => OutOfFuel
      | S fuel => reverse_match_words fuel a i b j (pos_ + 8) max_len
      end
    else Ok pos_
  else Ok pos_.

(** The [while] loop, [pos_] being the value before its increment. *)
Fixpoint reverse_match_bytes (fuel : nat) a (i : Z) b (j : Z) (pos_ max_len : Z) : result Z :=
  let pos_ := pos_ + 1 in
  if pos_ <=? max_len then
    let! x := read a (i - pos_) in
    let! y := read b (j - pos_) in
    if negb (x =b? y) then Ok (pos_ - 1)
    else
      match fuel with
      | O => OutOfFuel
      | S fuel => reverse_match_bytes fuel a i b j pos_ max_len
      end
  else Ok max_len.

(** Compares what is before [a + i] with what is before [b + j]. *)
Definition reverse_match_length a (i : Z) b (j : Z) (max_len : Z) : result Z :=
  let! pos_ :=
    if unaligned then
      let! p := reverse_match_words (Z.to_nat max_len) a i b j 8 max_len in Ok (p - 8)
    else Ok 0 in
  reverse_match_bytes (Z.to_nat max_len) a i b j pos_ max_len.

(** The loop of [find_match] that extends the match backward. *)
Fixpoint extend_back (fuel : nat) a b (apos bpos delta pending_insert_start : Z)
    : result (Z * Z * Z) :=
  if (0 <? apos) && (pending_insert_start <? bpos) then
    let! x := read a (apos - 1) in
    let! y := read b (bpos - 1) in
    if x =b? y then
      match fuel with
      | O => OutOfFuel
      | S fuel => extend_back fuel a b (apos - 1) (bpos - 1) (delta + 1) pending_insert_start
      end
    else Ok (apos, bpos, delta)
  else Ok (apos, bpos, delta).

(** Returns the length of the match with [*bposp] and [*aposp], if there is
    one. *)
Definition find_match (blocks : blocks_t) (rolling : Z) a (asize : Z) b (bsize : Z)
    (bpos pending_insert_start : Z) : result (option (Z * Z * Z)) :=
  let! apos := find_block blocks rolling b bpos in
  if apos =? NO_POSITION then Ok None
  else
    let arest := u64 (u64 (asize - apos) - MATCH_BLOCKSIZE) in
    let brest := u64 (u64 (bsize - bpos) - MATCH_BLOCKSIZE) in
    let max_delta := if arest <? brest then arest else brest in
    let! delta := match_length a (apos + MATCH_BLOCKSIZE) b (bpos + MATCH_BLOCKSIZE) max_delta in
    let! extended := extend_back (Z.to_nat apos) a b apos bpos delta pending_insert_start in
    let '(apos, bpos, delta) := extended in
    Ok (Some (MATCH_BLOCKSIZE + delta, bpos, apos)).

(** ** Computing a delta *)

Definition store_delta_trailer (build_baton : ops_baton) a (asize : Z) b (bsize start_ : Z)
    : result ops_baton :=
  let max_len := if bsize - start_ <? asize then bsize - start_ else asize in
  if max_len =? 0 then Ok build_baton
  else
    let! end_match := reverse_match_length a asize b bsize max_len in
    let end_match := if end_match <=? 4 then 0 else end_match in
    let build_baton :=
      if end_match <? bsize - start_
      then svn_txdelta__insert_op build_baton svn_txdelta_new start_
             (bsize - start_ - end_match) (drop (Z.to_nat start_) b)
      else build_baton in
    Ok (if negb (end_match =? 0)
        then svn_txdelta__insert_op build_baton svn_txdelta_source (asize - end_match)
               end_match []
        else build_baton).

(** The branch for a match of [matchlen] bytes at [apos] and [lo]; returns
    the ops and the new [lo]. *)
Definition store_match (build_baton : ops_baton) a b (matchlen lo apos : Z)
    (pending_insert_start : Z) : result (ops_baton * Z) :=
  let! extended :=
    if 0 <? lo - pending_insert_start then
      Ok (svn_txdelta__insert_op build_baton svn_txdelta_new 0 (lo - pending_insert_start)
            (drop (Z.to_nat pending_insert_start) b), apos, matchlen, lo)
    else
      let! len := reverse_match_length a apos b lo (if apos <? lo then apos else lo) in
      if 0 <? len then
        let '(build_baton, len) := svn_txdelta__remove_copy build_baton len in
        Ok (build_baton, apos - len, matchlen + len, lo - len)
      else Ok (build_baton, apos, matchlen, lo) in
  let '(build_baton, apos, matchlen, lo) := extended in
  Ok (svn_txdelta__insert_op build_baton svn_txdelta_source apos matchlen [], lo + matchlen).

(** The main loop; [lo] grows with every round. *)
Fixpoint compute_delta_loop (fuel : nat) (blocks : blocks_t) (build_baton : ops_baton)
    a (asize : Z) b (bsize : Z) (rolling lo pending_insert_start : Z)
    : result (ops_baton * Z) :=
  if lo <? bsize then
    match fuel with
    | O => OutOfFuel
    | S fuel =>
        let! found :=
          if lo + MATCH_BLOCKSIZE <=? bsize
          then find_match blocks rolling a asize b bsize lo pending_insert_start
          else Ok None in
        match found with
        | None =>
            let! rolling :=
              if lo + MATCH_BLOCKSIZE <? bsize then
                let! c_out := read b lo in
                let! c_in := read b (lo + MATCH_BLOCKSIZE) in
                Ok (adler32_replace rolling c_out c_in)
              else Ok rolling in
            compute_delta_loop fuel blocks build_baton a asize b bsize rolling (lo + 1)
              pending_insert_start
        | Some (matchlen, lo, apos) =>
            let! stored := store_match build_baton a b matchlen lo apos pending_insert_start in
            let '(build_baton, lo) := stored in
            let! rolling :=
              if lo + MATCH_BLOCKSIZE <=? bsize then init_adler32 b lo else Ok rolling in
            compute_delta_loop fuel blocks build_baton a asize b bsize rolling lo lo
        end
    end
  else Ok (build_baton, pending_insert_start).

Definition compute_delta (build_baton : ops_baton) a (asize : Z) b (bsize : Z)
    : result ops_baton :=
  let! lo := match_length a 0 b 0 (if bsize <? asize then bsize else asize) in
  let '(build_baton, lo) :=
    if (4 <? lo) || (lo =? bsize)
    then (svn_txdelta__insert_op build_baton svn_txdelta_source 0 lo [], lo)
    else (build_baton, 0) in
  if (bsize - lo <? MATCH_BLOCKSIZE) || (asize <? MATCH_BLOCKSIZE)
  then store_delta_trailer build_baton a asize b bsize lo
  else
    let! blocks := init_blocks_table a asize in
    let! rolling := init_adler32 b lo in
    let! computed := compute_delta_loop (Z.to_nat bsize) blocks build_baton a asize b bsize
                       rolling lo lo in
    let '(build_baton, pending_insert_start) := computed in
    store_delta_trailer build_baton a asize b bsize pending_insert_start.

(** [data] holds the source and the target. *)
Definition svn_txdelta__xdelta (build_baton : ops_baton) (data_ : list byte)
    (source_len target_len : Z) : result ops_baton :=
  assert! negb (source_len =? 0) in
  compute_delta build_baton (bytes_at 0 source_len data_) source_len
    (bytes_at source_len target_len data_) target_len.
End Match.
