(* ===== verification/XdeltaMatch.v ===== *)
(** * Properties of xdelta: comparing memory, checksums and the table of blocks *)
From S2P Require Import Prelude TextDelta Xdelta.

(** ** Reads within a buffer *)

Section Reads.
Implicit Types (a b s : list byte).

Lemma read_ok s i : 0 <= i < blen s → ∃ c, read s i = Ok c ∧ bytes_at i 1 s = [c].
Proof.
  unfold blen, read, bytes_at. intros Hi. if_false by lia.
  destruct (lookup_lt_is_Some_2 s (Z.to_nat i)) as [c Hc]; [lia|]. rewrite Hc.
  exists c. split; [done|]. change (Z.to_nat 1) with 1%nat. by rewrite (drop_S s c).
Qed.

Lemma memeq_ok a i b j len :
  0 <= i → i + len <= blen a → 0 <= j → j + len <= blen b →
  memeq a i b j len = Ok (bool_decide (bytes_at i len a = bytes_at j len b)).
Proof. intros. unfold memeq. by if_true by lia. Qed.

(** [len] bytes at two places agree. *)
Definition same a i b j len : Prop := bytes_at i len a = bytes_at j len b.

Lemma same_extend a i b j n m :
  0 <= i → 0 <= j → 0 <= n → 0 <= m →
  same a i b j n → same a (i + n) b (j + n) m → same a i b j (n + m).
Proof. unfold same. intros ???? H1 H2. by rewrite !bytes_at_split, H1, H2. Qed.

Lemma same_read a i b j x y :
  bytes_at i 1 a = [x] → bytes_at j 1 b = [y] → (x =b? y) = true ↔ same a i b j 1.
Proof.
  unfold same, byte_eqb. intros -> ->. rewrite bool_decide_eq_true. split; [by intros ->|].
  by intros [= ->].
Qed.

Lemma same_zero a i b j : same a i b j 0.
Proof. unfold same, bytes_at. done. Qed.

Lemma same_sub a i b j n m k :
  0 <= i → 0 <= j → 0 <= k → 0 <= m → k + m <= n →
  same a i b j n → same a (i + k) b (j + k) m.
Proof.
  unfold same, bytes_at. intros Hi Hj Hk Hm Hn H.
  apply (f_equal (λ l, take (Z.to_nat m) (drop (Z.to_nat k) l))) in H.
  rewrite !skipn_firstn_comm, !drop_drop, !take_take, !Nat.min_l in H by lia.
  by rewrite !Z2Nat.inj_add by lia.
Qed.
End Reads.

(** ** The lengths of matches *)

Section Lengths.
Context (a b : list byte).

(** The first difference behind [i] and [j] is [n] bytes away, or at least
    [max_len]. *)
Definition common (i j max_len n : Z) : Prop :=
  0 <= n <= max_len ∧ same a i b j n ∧ (n < max_len → ¬ same a (i + n) b (j + n) 1).

Definition common_back (i j max_len n : Z) : Prop :=
  0 <= n <= max_len ∧ same a (i - n) b (j - n) n
  ∧ (n < max_len → ¬ same a (i - n - 1) b (j - n - 1) 1).

Lemma common_unique i j max_len n n' :
  0 <= i → 0 <= j → common i j max_len n → common i j max_len n' → n = n'.
Proof.
  assert (∀ n n', 0 <= i → 0 <= j → common i j max_len n → common i j max_len n' →
    n < n' → False) as Hlt.
  { clear. intros n n' Hi Hj (Hn & _ & Hd) (Hn' & Hs & _) Hlt.
    apply Hd; [lia|]. apply (same_sub a i b j n' 1 n); [lia..|done]. }
  intros Hi Hj H1 H2. destruct (Z.lt_trichotomy n n') as [?|[?|?]]; [|done|];
    exfalso; eauto.
Qed.

Lemma common_back_unique i j max_len n n' :
  max_len <= i → max_len <= j → common_back i j max_len n → common_back i j max_len n' →
  n = n'.
Proof.
  assert (∀ n n', max_len <= i → max_len <= j → common_back i j max_len n →
    common_back i j max_len n' → n < n' → False) as Hlt.
  { clear. intros n n' Hi Hj (Hn & _ & Hd) (Hn' & Hs & _) Hlt. apply Hd; [lia|].
    pose proof (same_sub a (i - n') b (j - n') n' 1 (n' - n - 1)) as Hsub.
    replace (i - n' + (n' - n - 1)) with (i - n - 1) in Hsub by lia.
    replace (j - n' + (n' - n - 1)) with (j - n - 1) in Hsub by lia.
    apply Hsub; [lia..|done]. }
  intros Hi Hj H1 H2. destruct (Z.lt_trichotomy n n') as [?|[?|?]]; [|done|];
    exfalso; eauto.
Qed.

Lemma match_words_ok fuel i j p max_len :
  0 <= i → 0 <= j → 0 <= p <= max_len → i + max_len <= blen a → j + max_len <= blen b →
  (Z.to_nat (max_len - p) <= fuel)%nat → same a i b j p →
  ∃ n, match_words fuel a i b j p max_len = Ok n ∧ p <= n <= max_len ∧ same a i b j n.
Proof.
  intros Hi Hj. revert p; induction fuel as [|fuel IH]; intros p Hp Ha Hb Hf Hs;
    cbn [match_words]; (case_if; [|by exists p; split; [|split; [lia|]]]); [lia|].
  rewrite memeq_ok by lia. cbn [rbind]. case_bool_decide as Hw.
  - destruct (IH (p + 8)) as (n & -> & ? & ?); [lia..| |].
    + apply same_extend; [lia..|done|]. done.
    + exists n. split; [done|]. split; [lia|done].
  - exists p. split; [done|]. split; [lia|done].
Qed.

Lemma match_bytes_ok fuel i j p max_len :
  0 <= i → 0 <= j → 0 <= p <= max_len → i + max_len <= blen a → j + max_len <= blen b →
  (Z.to_nat (max_len - p) <= fuel)%nat → same a i b j p →
  ∃ n, match_bytes fuel a i b j p max_len = Ok n ∧ common i j max_len n.
Proof.
  intros Hi Hj. revert p; induction fuel as [|fuel IH]; intros p Hp Ha Hb Hf Hs;
    cbn [match_bytes]; (case_if; [|exists p; split; [done|]; split; [lia|]; split; [done|lia]]);
    [lia|].
  destruct (read_ok a (i + p)) as (x & -> & Hx); [lia|].
  destruct (read_ok b (j + p)) as (y & -> & Hy); [lia|]. cbn [rbind].
  pose proof (same_read _ _ _ _ _ _ Hx Hy) as Hxy.
  destruct (x =b? y) eqn:Heq.
  - apply IH; [lia..|]. apply same_extend; [lia..|done|]. by apply Hxy.
  - exists p. split; [done|]. split; [lia|]. split; [done|]. intros _ Hs1.
    by apply Hxy in Hs1.
Qed.

Lemma match_length_ok unaligned i j max_len :
  0 <= i → 0 <= j → 0 <= max_len → i + max_len <= blen a → j + max_len <= blen b →
  ∃ n, match_length unaligned a i b j max_len = Ok n ∧ common i j max_len n.
Proof.
  intros Hi Hj Hm Ha Hb. unfold match_length.
  assert (∃ p, (if unaligned then match_words (Z.to_nat max_len) a i b j 0 max_len else Ok 0)
    = Ok p ∧ 0 <= p <= max_len ∧ same a i b j p) as (p & -> & Hp & Hs).
  { destruct unaligned; [|exists 0; split; [done|]; split; [lia|apply same_zero]].
    apply match_words_ok; try lia. apply same_zero. }
  cbn [rbind]. apply match_bytes_ok; done || lia.
Qed.

Lemma reverse_match_words_ok fuel i j p max_len :
  8 <= p → 0 <= max_len → p - 8 <= max_len →
  max_len <= i <= blen a → max_len <= j <= blen b →
  (Z.to_nat (max_len - (p - 8)) <= fuel)%nat → same a (i - (p - 8)) b (j - (p - 8)) (p - 8) →
  ∃ n, reverse_match_words fuel a i b j p max_len = Ok n
    ∧ p <= n ∧ n - 8 <= max_len ∧ same a (i - (n - 8)) b (j - (n - 8)) (n - 8).
Proof.
  intros Hp Hm. revert p Hp; induction fuel as [|fuel IH]; intros p Hp Hle Ha Hb Hf Hs;
    cbn [reverse_match_words]; (case_if; [|exists p; split; [done|]; split; [lia|]; split; [lia|done]]);
    [lia|].
  rewrite memeq_ok by lia. cbn [rbind]. case_bool_decide as Hw.
  - destruct (IH (p + 8)) as (n & -> & ? & ? & ?); [lia..| |].
    + replace (p + 8 - 8) with (8 + (p - 8)) by lia. apply same_extend; [lia..| |].
      * replace (i - (8 + (p - 8))) with (i - p) by lia.
        by replace (j - (8 + (p - 8))) with (j - p) by lia.
      * replace (i - (8 + (p - 8)) + 8) with (i - (p - 8)) by lia.
        by replace (j - (8 + (p - 8)) + 8) with (j - (p - 8)) by lia.
    + exists n. split; [done|]. split; [lia|]. split; [lia|done].
  - exists p. split; [done|]. split; [lia|]. split; [lia|done].
Qed.

Lemma same_extend_back i j n m :
  0 <= n → 0 <= m → n + m <= i → n + m <= j →
  same a (i - n) b (j - n) n → same a (i - n - m) b (j - n - m) m →
  same a (i - (n + m)) b (j - (n + m)) (n + m).
Proof.
  intros. rewrite Z.add_comm. apply same_extend; [lia..| |].
  - replace (i - (m + n)) with (i - n - m) by lia. by replace (j - (m + n)) with (j - n - m) by lia.
  - replace (i - (m + n) + m) with (i - n) by lia. by replace (j - (m + n) + m) with (j - n) by lia.
Qed.

Lemma reverse_match_bytes_ok fuel i j p max_len :
  0 <= p <= max_len → max_len <= i <= blen a → max_len <= j <= blen b →
  (Z.to_nat (max_len - p) <= fuel)%nat → same a (i - p) b (j - p) p →
  ∃ n, reverse_match_bytes fuel a i b j p max_len = Ok n ∧ common_back i j max_len n.
Proof.
  revert p; induction fuel as [|fuel IH]; intros p Hp Ha Hb Hf Hs;
    cbn [reverse_match_bytes].
  all: destruct (Z.leb_spec (p + 1) max_len); [|exists max_len; split; [done|]; split; [lia|];
    replace p with max_len in Hs by lia; split; [done|lia]].
  { lia. }
  destruct (read_ok a (i - (p + 1))) as (x & -> & Hx); [lia|].
  destruct (read_ok b (j - (p + 1))) as (y & -> & Hy); [lia|]. cbn [rbind].
  pose proof (same_read _ _ _ _ _ _ Hx Hy) as Hxy. rewrite Z.sub_add_distr, Z.sub_add_distr in Hxy.
  destruct (x =b? y) eqn:Heq; cbn [negb].
  - apply IH; [lia..|]. apply same_extend_back; [lia..|done|]. by apply Hxy.
  - exists p. split; [f_equal; lia|]. split; [lia|]. split; [done|]. intros _ Hs1.
    by apply Hxy in Hs1.
Qed.

Lemma reverse_match_length_ok unaligned i j max_len :
  0 <= max_len → max_len <= i <= blen a → max_len <= j <= blen b →
  ∃ n, reverse_match_length unaligned a i b j max_len = Ok n ∧ common_back i j max_len n.
Proof.
  intros Hm Ha Hb. unfold reverse_match_length.
  assert (∃ p, (if unaligned then
      let! p := reverse_match_words (Z.to_nat max_len) a i b j 8 max_len in Ok (p - 8)
    else Ok 0) = Ok p ∧ 0 <= p <= max_len ∧ same a (i - p) b (j - p) p) as (p & -> & Hp & Hs).
  { destruct unaligned; [|exists 0; split; [done|]; split; [lia|apply same_zero]].
    destruct (reverse_match_words_ok (Z.to_nat max_len) i j 8 max_len) as (n & -> & ? & ? & ?);
      try lia; [apply same_zero|].
    exists (n - 8). split; [done|]. split; [lia|done]. }
  cbn [rbind]. apply reverse_match_bytes_ok; done || lia.
Qed.

(** Extending a match backward. *)
Lemma extend_back_ok fuel apos bpos delta pending :
  0 <= apos → 0 <= pending <= bpos → apos + delta <= blen a → bpos + delta <= blen b →
  0 <= delta → (Z.to_nat apos <= fuel)%nat → same a apos b bpos delta →
  ∃ k, extend_back fuel a b apos bpos delta pending = Ok (apos - k, bpos - k, delta + k)
    ∧ 0 <= k <= apos ∧ pending <= bpos - k ∧ same a (apos - k) b (bpos - k) (delta + k).
Proof.
  revert apos bpos delta; induction fuel as [|fuel IH];
    intros apos bpos delta Ha Hb Hla Hlb Hd Hf Hs; cbn [extend_back].
  all: destruct ((0 <? apos) && (pending <? bpos)) eqn:Hcond;
    [|exists 0; rewrite !Z.sub_0_r, Z.add_0_r; split; [done|]; split; [lia|]; split; [lia|done]].
  { lia. }
  destruct (read_ok a (apos - 1)) as (x & -> & Hx); [lia|].
  destruct (read_ok b (bpos - 1)) as (y & -> & Hy); [lia|]. cbn [rbind].
  pose proof (same_read _ _ _ _ _ _ Hx Hy) as Hxy.
  destruct (x =b? y) eqn:Heq;
    [|exists 0; rewrite !Z.sub_0_r, Z.add_0_r; split; [done|]; split; [lia|]; split; [lia|done]].
  destruct (IH (apos - 1) (bpos - 1) (delta + 1)) as (k & -> & ? & ? & Hk); [lia..| |].
  { rewrite Z.add_comm. apply same_extend; [lia..|by apply Hxy|].
    by rewrite !Z.sub_add. }
  exists (k + 1).
  replace (apos - (k + 1)) with (apos - 1 - k) by lia.
  replace (bpos - (k + 1)) with (bpos - 1 - k) by lia.
  replace (delta + (k + 1)) with (delta + 1 + k) by lia.
  split; [done|]. split; [lia|]. split; [lia|done].
Qed.
End Lengths.

(** ** The rolling checksum *)

Section Adler.
Implicit Types (l w : list byte).

(** The two sums without wrap-around. *)
Fixpoint sum1 l : Z := match l with [] => 0 | c :: l => byte_val c + sum1 l end.
Fixpoint sum2 l : Z :=
  match l with [] => 0 | c :: l => (1 + blen l) * byte_val c + sum2 l end.

Lemma u32_cong x : ∃ k, u32 x = x + k * 0x100000000.
Proof.
  exists (- (x / 0x100000000)). unfold u32.
  pose proof (Z.div_mod x 0x100000000 ltac:(lia)). lia.
Qed.

Lemma u32_eq x y k : x = y + k * 0x100000000 → u32 x = u32 y.
Proof. intros ->. unfold u32. apply Z_mod_plus_full. Qed.

Lemma adler32_loop_sums s1 s2 l :
  ∃ k1 k2,
    adler32_loop s1 s2 l
    = (s1 + sum1 l + k1 * 0x100000000, s2 + blen l * s1 + sum2 l + k2 * 0x100000000).
Proof.
  revert s1 s2; induction l as [|c l IH]; intros s1 s2.
  { exists 0, 0. cbn [adler32_loop sum1 sum2]. change (blen []) with 0. f_equal; ring. }
  cbn [adler32_loop sum1 sum2]. destruct (u32_cong (s1 + byte_val c)) as [k1 ->].
  destruct (u32_cong (s2 + (s1 + byte_val c + k1 * 0x100000000))) as [k2 ->].
  destruct (IH (s1 + byte_val c + k1 * 0x100000000)
    (s2 + (s1 + byte_val c + k1 * 0x100000000) + k2 * 0x100000000)) as (k3 & k4 & ->).
  exists (k1 + k3), (k1 + k2 + blen l * k1 + k4).
  assert (blen (c :: l) = 1 + blen l) as -> by (unfold blen; simpl; lia).
  f_equal; ring.
Qed.

Lemma adler32_sums l : adler32 l = u32 (sum2 l * 0x10000 + sum1 l).
Proof.
  unfold adler32. destruct (adler32_loop_sums 0 0 l) as (k1 & k2 & ->).
  destruct (u32_cong ((0 + blen l * 0 + sum2 l + k2 * 4294967296) * 65536)) as [k3 ->].
  apply (u32_eq _ _ (k1 + k2 * 0x10000 + k3)). ring.
Qed.

Lemma sum1_snoc w c : sum1 (w ++ [c]) = sum1 w + byte_val c.
Proof. induction w as [|x w IH]; simpl; [lia|]. rewrite IH. lia. Qed.

Lemma sum2_snoc w c : sum2 (w ++ [c]) = sum2 w + sum1 w + byte_val c.
Proof.
  induction w as [|x w IH]; cbn [app sum2 sum1].
  { change (blen []) with 0. ring. }
  rewrite IH, blen_app. change (blen [c]) with 1. ring.
Qed.

Lemma adler32_rolls c_out w c_in :
  blen w = MATCH_BLOCKSIZE - 1 →
  adler32_replace (adler32 (c_out :: w)) c_out c_in = adler32 (w ++ [c_in]).
Proof.
  intros Hw. rewrite !adler32_sums. unfold adler32_replace.
  rewrite sum1_snoc, sum2_snoc. cbn [sum1 sum2]. rewrite Hw. unfold MATCH_BLOCKSIZE.
  set (o := byte_val c_out). set (i := byte_val c_in).
  destruct (u32_cong (((1 + (64 - 1)) * o + sum2 w) * 0x10000 + (o + sum1 w))) as [k1 ->].
  match goal with |- context [u32 (?x - 64 * 0x10000 * o)] =>
    destruct (u32_cong (x - 64 * 0x10000 * o)) as [k2 ->] end.
  match goal with |- context [u32 (?x - o)] => destruct (u32_cong (x - o)) as [k3 ->] end.
  match goal with |- context [u32 (?x - o + ?y + i)] =>
    destruct (u32_cong (x - o + y + i)) as [k4 ->] end.
  match goal with |- context [u32 (?x * 0x10000)] =>
    destruct (u32_cong (x * 0x10000)) as [k5 ->] end.
  apply (u32_eq _ _ ((k1 + k2 + k3 + k4) * 0x10001 + k5 + sum2 w)). ring.
Qed.
End Adler.

(** ** Probing the table *)

Definition used (b : block) : bool := negb (pos b =? NO_POSITION).

Definition used_count (l : list block) : nat := length (List.filter used l).

Lemma used_count_insert l h b : (used_count (<[h := b]> l) <= S (used_count l))%nat.
Proof.
  unfold used_count. revert h; induction l as [|x l IH]; intros h; [destruct h; simpl; lia|].
  destruct h as [|h]; simpl.
  - case_if; case_if; simpl; lia.
  - specialize (IH h). case_if; simpl; lia.
Qed.

Lemma used_count_room l :
  (used_count l < length l)%nat → ∃ e b, l !! e = Some b ∧ used b = false.
Proof.
  unfold used_count. induction l as [|x l IH]; simpl; [lia|]. case_if; simpl; intros Hlt.
  - destruct IH as (e & b & He & Hb); [lia|]. by exists (S e), b.
  - by exists O, x.
Qed.

(** The indices go round: [h + 1] after [h], modulo the number of slots. *)
Section Ring.
Context (n : Z).
Hypothesis Hn : 0 < n.

Lemma ring_next e h :
  0 <= h < n → 0 <= e < n → e ≠ h → (e - (h + 1) mod n) mod n = (e - h) mod n - 1.
Proof.
  intros Hh He Hne. rewrite Zminus_mod_idemp_r.
  assert ((e - h) mod n ≠ 0).
  { intros H0. apply Z.mod_divide in H0 as [q Hq]; [|lia]. assert (q = 0) by nia. nia. }
  pose proof (Z.mod_pos_bound (e - h) n Hn). pose proof (Z.div_mod (e - h) n ltac:(lia)).
  symmetry. apply Z.mod_unique with (q := (e - h) / n); lia.
Qed.

Lemma ring_shift h d : (h + (d + 1)) mod n = ((h + 1) mod n + d) mod n.
Proof. rewrite Zplus_mod_idemp_l. f_equal. lia. Qed.

Lemma ring_back h j : 0 <= j < n → (h + (j - h) mod n) mod n = j.
Proof.
  intros Hj. rewrite Zplus_mod_idemp_r. replace (h + (j - h)) with j by lia.
  by apply Z.mod_small.
Qed.

Lemma ring_start h j : 0 <= h < n → (j - h) mod n = 0 → 0 <= j < n → j = h.
Proof.
  intros Hh H0 Hj. apply Z.mod_divide in H0 as [q Hq]; [|lia]. assert (q = 0) by nia. nia.
Qed.
End Ring.

Section Probe.
Context (blocks : blocks_t) (k n : Z).
Hypothesis Hk : 0 <= k <= 31.
Hypothesis Hpow : n = 2 ^ k.
Hypothesis Hmax : max blocks = n - 1.
Hypothesis Hslots : Z.of_nat (length (slots blocks)) = n.

Lemma n_pos : 0 < n.
Proof. rewrite Hpow. apply Z.pow_pos_nonneg; lia. Qed.

Lemma n_small : n <= 0x80000000.
Proof. rewrite Hpow. change 0x80000000 with (2 ^ 31). apply Z.pow_le_mono_r; lia. Qed.

Lemma land_max x : Z.land x (max blocks) = x mod n.
Proof.
  rewrite Hmax, Hpow. replace (2 ^ k - 1) with (Z.ones k) by (rewrite Z.ones_equiv; lia).
  apply Z.land_ones. lia.
Qed.

Lemma next_slot h : 0 <= h < n → Z.land (u32 (h + 1)) (max blocks) = (h + 1) mod n.
Proof. intros Hh. pose proof n_small. rewrite land_max, u32_small by lia. done. Qed.

(** The slot at [h]. *)
Definition slot (h : Z) : block := default (MkBlock 0 NO_POSITION) (slots blocks !! Z.to_nat h).

Lemma slot_lookup h : 0 <= h < n → slots blocks !! Z.to_nat h = Some (slot h).
Proof.
  intros Hh. unfold slot. destruct (lookup_lt_is_Some_2 (slots blocks) (Z.to_nat h)) as [b ->];
    [lia|done].
Qed.

(** Both loops stop at the first slot that is free or passes a test; [e] is
    a free slot. *)
Section Loop.
Context (test : block → bool) (e : Z).
Hypothesis He : 0 <= e < n.
Hypothesis Hfree : used (slot e) = false.

Fixpoint probe (fuel : nat) (h : Z) : Z :=
  if negb (used (slot h)) || test (slot h) then h
  else match fuel with O => h | S fuel => probe fuel ((h + 1) mod n) end.

Lemma probe_ok fuel h :
  0 <= h < n → (e - h) mod n <= Z.of_nat fuel →
  ∃ d, 0 <= d <= (e - h) mod n ∧ probe fuel h = (h + d) mod n
    ∧ (used (slot (probe fuel h)) = false ∨ test (slot (probe fuel h)) = true)
    ∧ ∀ d', 0 <= d' < d →
        used (slot ((h + d') mod n)) = true ∧ test (slot ((h + d') mod n)) = false.
Proof.
  revert h; induction fuel as [|fuel IH]; intros h Hh Hf; cbn [probe].
  all: pose proof n_pos as Hn; pose proof (Z.mod_pos_bound (e - h) n Hn).
  all: destruct (negb (used (slot h)) || test (slot h)) eqn:Hstop.
  1,3: exists 0; rewrite Z.add_0_r, (Z.mod_small h) by lia; split; [lia|]; split; [done|];
    split; [apply orb_true_iff in Hstop as [?%negb_true_iff|?]; auto|lia].
  all: apply orb_false_iff in Hstop as [Hu%negb_false_iff Ht].
  { exfalso.
    rewrite (ring_start n ltac:(lia) h e) in Hfree by lia. congruence. }
  assert (e ≠ h) as Hne by (intros ->; congruence).
  destruct (IH ((h + 1) mod n)) as (d & Hd & Hp & Hend & Hbefore);
    [apply Z.mod_pos_bound; done|rewrite ring_next; lia|].
  rewrite ring_next in Hd by lia. exists (d + 1).
  split; [lia|]. split; [by rewrite ring_shift|]. split; [done|].
  intros d' Hd'. destruct (decide (d' = 0)) as [-> |].
  { by rewrite Z.add_0_r, (Z.mod_small h) by lia. }
  replace d' with (d' - 1 + 1) by lia. rewrite ring_shift. apply Hbefore. lia.
Qed.

Lemma probe_range fuel h : 0 <= h < n → 0 <= probe fuel h < n.
Proof.
  revert h; induction fuel as [|fuel IH]; intros h Hh; cbn [probe]; case_if; try done.
  apply IH, Z.mod_pos_bound, n_pos.
Qed.
End Loop.
End Probe.

(** ** The table *)

Definition home (n sum : Z) : Z := hash_func sum mod n.

(** The blocks of the source at the multiples of [MATCH_BLOCKSIZE] below [i]
    are in the table: an entry is never behind a free slot, seen from the slot
    that its checksum hashes to. *)
Record table_wf (a : list byte) (i : Z) (blocks : blocks_t) : Prop := {
  t_data : data blocks = a;
  t_size : ∃ k, 0 <= k <= 31 ∧ max blocks + 1 = 2 ^ k
                ∧ Z.of_nat (length (slots blocks)) = max blocks + 1;
  t_used h :
    0 <= h < max blocks + 1 → used (slot blocks h) = true →
    0 <= pos (slot blocks h) ∧ pos (slot blocks h) + MATCH_BLOCKSIZE <= blen a
    ∧ adlersum (slot blocks h) = adler32 (bytes_at (pos (slot blocks h)) MATCH_BLOCKSIZE a);
  t_chain h d :
    0 <= h < max blocks + 1 → used (slot blocks h) = true →
    let h0 := home (max blocks + 1) (adlersum (slot blocks h)) in
    0 <= d < (h - h0) mod (max blocks + 1) →
    used (slot blocks ((h0 + d) mod (max blocks + 1))) = true;
  t_all q :
    0 <= q < i → (MATCH_BLOCKSIZE | q) → q + MATCH_BLOCKSIZE <= blen a →
    ∃ h, 0 <= h < max blocks + 1 ∧ used (slot blocks h) = true
      ∧ bytes_at (pos (slot blocks h)) MATCH_BLOCKSIZE a = bytes_at q MATCH_BLOCKSIZE a;
  t_room : Z.of_nat (used_count (slots blocks)) * MATCH_BLOCKSIZE <= i;
}.

Section Table.
Context (a : list byte) (i : Z) (blocks : blocks_t).
Hypothesis Hwf : table_wf a i blocks.
Hypothesis Hroom : i < (max blocks + 1) * MATCH_BLOCKSIZE.
Abbreviation n := (max blocks + 1).

Lemma free_slot : ∃ e, 0 <= e < n ∧ used (slot blocks e) = false.
Proof.
  destruct Hwf as [_ (k & Hk & Hn & Hl) _ _ _ Hr].
  destruct (used_count_room (slots blocks)) as (e & b & He & Hb).
  { unfold MATCH_BLOCKSIZE in *. lia. }
  exists (Z.of_nat e). pose proof (lookup_lt_Some _ _ _ He). split; [lia|].
  unfold slot. by rewrite Nat2Z.id, He.
Qed.

(** What the probes for the block [b + bpos] with checksum [sum] look for. *)
Definition hit (sum : Z) (b : list byte) (bpos : Z) (blk : block) : bool :=
  (adlersum blk =? sum)
  && bool_decide (bytes_at (pos blk) MATCH_BLOCKSIZE a = bytes_at bpos MATCH_BLOCKSIZE b).

Lemma compare_block h sum b bpos :
  0 <= h < n → used (slot blocks h) = true → 0 <= bpos → bpos + MATCH_BLOCKSIZE <= blen b →
  (if adlersum (slot blocks h) =? sum
   then memeq (data blocks) (pos (slot blocks h)) b bpos MATCH_BLOCKSIZE else Ok false)
  = Ok (hit sum b bpos (slot blocks h)).
Proof.
  intros Hh Hu Hb Hbl. destruct Hwf as [Hd _ Hused _ _ _].
  destruct (Hused h Hh Hu) as (? & ? & ?). unfold hit. rewrite Hd.
  case_if; [|done]. by rewrite memeq_ok by lia.
Qed.

Section Probes.
Context (sum bpos e : Z) (b : list byte).
Hypothesis Hb : 0 <= bpos.
Hypothesis Hbl : bpos + MATCH_BLOCKSIZE <= blen b.
Hypothesis He : 0 <= e < n.
Hypothesis Hfree : used (slot blocks e) = false.

Lemma find_loop_eq fuel h :
  0 <= h < n →
  find_loop fuel blocks sum b bpos h
  = if negb (used (slot blocks h)) then Ok NO_POSITION
    else if hit sum b bpos (slot blocks h) then Ok (pos (slot blocks h))
    else match fuel with
         | O => OutOfFuel
         | S fuel => find_loop fuel blocks sum b bpos ((h + 1) mod n)
         end.
Proof.
  intros Hh. destruct (t_size _ _ _ Hwf) as (k & Hk & Hn & Hl).
  rewrite <- (next_slot blocks k n Hk Hn) by lia.
  destruct (used (slot blocks h)) eqn:Hu; destruct fuel; cbn [find_loop negb];
    rewrite (slot_lookup blocks k n Hk Hn Hl h) by lia;
    unfold used in Hu; first [rewrite (proj1 (negb_true_iff _) Hu)
                            |rewrite (proj1 (negb_false_iff _) Hu)]; try done;
    rewrite compare_block by (done || unfold used; lia); cbn [rbind]; by case_if.
Qed.

Lemma add_loop_eq fuel h :
  b = a → 0 <= h < n →
  add_loop fuel blocks sum bpos h
  = if negb (used (slot blocks h))
    then Ok (<[Z.to_nat h := MkBlock sum bpos]> (slots blocks))
    else if hit sum b bpos (slot blocks h) then Ok (slots blocks)
    else match fuel with
         | O => OutOfFuel
         | S fuel => add_loop fuel blocks sum bpos ((h + 1) mod n)
         end.
Proof.
  intros Hba Hh. destruct (t_size _ _ _ Hwf) as (k & Hk & Hn & Hl).
  assert (data blocks = b) as Hd by by rewrite Hba, (t_data _ _ _ Hwf).
  rewrite <- (next_slot blocks k n Hk Hn) by lia.
  destruct (used (slot blocks h)) eqn:Hu; destruct fuel; cbn [add_loop negb];
    rewrite (slot_lookup blocks k n Hk Hn Hl h) by lia;
    unfold used in Hu; first [rewrite (proj1 (negb_true_iff _) Hu)
                            |rewrite (proj1 (negb_false_iff _) Hu)]; try done;
    rewrite Hd at 2; rewrite compare_block by (done || unfold used; lia); cbn [rbind];
    by case_if.
Qed.

Abbreviation probed fuel h := (probe blocks n (hit sum b bpos) fuel h).

Lemma loops_probe fuel h :
  0 <= h < n → (e - h) mod n <= Z.of_nat fuel →
  find_loop fuel blocks sum b bpos h
  = Ok (if used (slot blocks (probed fuel h)) then pos (slot blocks (probed fuel h))
        else NO_POSITION)
  ∧ (b = a → add_loop fuel blocks sum bpos h
     = Ok (if used (slot blocks (probed fuel h)) then slots blocks
           else <[Z.to_nat (probed fuel h) := MkBlock sum bpos]> (slots blocks))).
Proof.
  destruct (t_size _ _ _ Hwf) as (k & Hk & Hn & Hl).
  assert (0 < n) as Hpos by (apply (n_pos blocks k n); done || lia).
  revert h; induction fuel as [|fuel IH]; intros h Hh Hf;
    pose proof (Z.mod_pos_bound (e - h) n Hpos) as Hmod;
    (split; [rewrite find_loop_eq by done|intros Hba; rewrite add_loop_eq by done]);
    cbn [probe]; destruct (used (slot blocks h)) eqn:Hu; cbn [negb orb];
    try (by rewrite Hu);
    destruct (hit sum b bpos (slot blocks h)) eqn:Hh2; try (by rewrite Hu).
  1,2: exfalso; rewrite (ring_start n Hpos h e) in Hfree by lia; congruence.
  all: assert (e ≠ h) by (intros ->; congruence);
    destruct (IH ((h + 1) mod n)) as [IH1 IH2];
    [by apply Z.mod_pos_bound|rewrite ring_next; lia|auto].
Qed.

(** The slot where the probes end. *)
Lemma probe_end :
  ∃ d, let h0 := home n sum in let h := (h0 + d) mod n in
    0 <= d < n
    ∧ find_loop (length (slots blocks)) blocks sum b bpos h0
      = Ok (if used (slot blocks h) then pos (slot blocks h) else NO_POSITION)
    ∧ (b = a → add_loop (length (slots blocks)) blocks sum bpos h0
       = Ok (if used (slot blocks h) then slots blocks
             else <[Z.to_nat h := MkBlock sum bpos]> (slots blocks)))
    ∧ (used (slot blocks h) = true → hit sum b bpos (slot blocks h) = true)
    ∧ ∀ d', 0 <= d' < d →
        used (slot blocks ((h0 + d') mod n)) = true
        ∧ hit sum b bpos (slot blocks ((h0 + d') mod n)) = false.
Proof.
  destruct (t_size _ _ _ Hwf) as (k & Hk & Hn & Hl).
  assert (0 < n) as Hpos by (apply (n_pos blocks k n); done || lia).
  set (h0 := home n sum). pose proof (Z.mod_pos_bound (hash_func sum) n Hpos : 0 <= h0 < n).
  pose proof (Z.mod_pos_bound (e - h0) n Hpos) as Hmod.
  destruct (probe_ok blocks k n Hk Hn (hit sum b bpos) e He Hfree (length (slots blocks)) h0)
    as (d & Hd & Hp & Hend & Hbefore); [done|lia|].
  destruct (loops_probe (length (slots blocks)) h0) as [Hfind Hadd]; [done|lia|].
  rewrite Hp in *. exists d. split; [lia|]. split; [done|]. split; [done|].
  split; [|done]. intros Hu. destruct Hend; [congruence|done].
Qed.
End Probes.
End Table.

Lemma slot_insert blocks h x blk :
  0 <= h < Z.of_nat (length (slots blocks)) → 0 <= x →
  slot (MkBlocks (max blocks) (data blocks) (<[Z.to_nat h := blk]> (slots blocks))) x
  = if x =? h then blk else slot blocks x.
Proof.
  intros Hh Hx. unfold slot. simpl. destruct (Z.eqb_spec x h) as [->|Hne].
  - by rewrite list_lookup_insert_eq by lia.
  - by rewrite list_lookup_insert_ne by lia.
Qed.

Lemma divide_below q i : (MATCH_BLOCKSIZE | q) → (MATCH_BLOCKSIZE | i) →
  q < i + MATCH_BLOCKSIZE → q <= i.
Proof. unfold MATCH_BLOCKSIZE. intros [x ->] [y ->] ?. lia. Qed.

Section AddBlock.
Context (a : list byte) (i : Z) (blocks : blocks_t).
Hypothesis Hwf : table_wf a i blocks.
Hypothesis Hroom : i < (max blocks + 1) * MATCH_BLOCKSIZE.
Hypothesis Hi : 0 <= i.
Hypothesis Hdiv : (MATCH_BLOCKSIZE | i).
Hypothesis Hin : i + MATCH_BLOCKSIZE <= blen a.
Hypothesis Hsmall : blen a <= NO_POSITION.
Abbreviation n := (max blocks + 1).
Abbreviation sum := (adler32 (bytes_at i MATCH_BLOCKSIZE a)).

(** The block is there already. *)
Lemma table_known h :
  0 <= h < n → used (slot blocks h) = true → hit a sum a i (slot blocks h) = true →
  table_wf a (i + MATCH_BLOCKSIZE) blocks.
Proof.
  intros Hh Hu Hhit. destruct Hwf as [Hd Hs Hused Hchain Hall Hr].
  split; [done..| |unfold MATCH_BLOCKSIZE in *; lia].
  intros q Hq Hqd Hql. pose proof (divide_below q i Hqd Hdiv ltac:(lia)).
  destruct (decide (q = i)) as [->|]; [|by apply Hall; [lia|..]].
  exists h. unfold hit in Hhit. apply andb_true_iff in Hhit as [_ Hb].
  by apply bool_decide_eq_true in Hb.
Qed.

(** The block goes into the first free slot. *)
Lemma table_added d :
  let h0 := home n sum in let h := (h0 + d) mod n in
  0 <= d < n → used (slot blocks h) = false →
  (∀ d', 0 <= d' < d → used (slot blocks ((h0 + d') mod n)) = true) →
  table_wf a (i + MATCH_BLOCKSIZE)
    (MkBlocks (max blocks) (data blocks) (<[Z.to_nat h := MkBlock sum i]> (slots blocks))).
Proof.
  intros h0 h Hd Hfree Hbefore. destruct Hwf as [Hdata (k & Hk & Hn & Hl) Hused Hchain Hall Hr].
  assert (Hpos : 0 < n) by (apply (n_pos blocks k n); done || lia).
  pose proof (Z.mod_pos_bound (h0 + d) n Hpos : 0 <= h < n) as Hh.
  assert (Hslot : ∀ x, 0 <= x → slot (MkBlocks (max blocks) (data blocks)
      (<[Z.to_nat h := MkBlock sum i]> (slots blocks))) x
    = if x =? h then MkBlock sum i else slot blocks x) by (intros; apply slot_insert; lia).
  assert (Hnew : used (MkBlock sum i) = true).
  { unfold used, NO_POSITION, MATCH_BLOCKSIZE in *. simpl. lia. }
  assert (Hmono : ∀ x, 0 <= x → used (slot blocks x) = true → used (if x =? h
    then MkBlock sum i else slot blocks x) = true) by (intros; by case_if).
  split; cbn [max data slots].
  - done.
  - exists k. by rewrite length_insert.
  - intros x Hx. rewrite Hslot by lia. case_if; [simpl; intros _; split; [lia|split; [lia|done]]|].
    by apply Hused.
  - intros x d' Hx. rewrite !Hslot by (done || lia || (apply Z.mod_pos_bound; done)).
    destruct (Z.eqb_spec x h) as [->|Hne]; intros Hu Hd'.
    + cbn [adlersum] in *. fold h0 in Hd' |- *.
      apply Hmono; [apply Z.mod_pos_bound; done|]. apply Hbefore.
      assert ((h - h0) mod n = d) as Hhd; [|lia]. unfold h.
      rewrite Zminus_mod_idemp_l. replace (h0 + d - h0) with d by lia.
      by apply Z.mod_small.
    + apply Hmono; [apply Z.mod_pos_bound; done|]. by apply Hchain.
  - intros q Hq Hqd Hql. pose proof (divide_below q i Hqd Hdiv ltac:(lia)).
    destruct (decide (q = i)) as [->|].
    + exists h. rewrite Hslot, Z.eqb_refl by lia. by split.
    + destruct (Hall q) as (x & Hx & Hu & Hb); [lia|done|lia|].
      exists x. rewrite Hslot by lia. destruct (Z.eqb_spec x h) as [->|]; [congruence|done].
  - pose proof (used_count_insert (slots blocks) (Z.to_nat h) (MkBlock sum i)).
    unfold MATCH_BLOCKSIZE in *. lia.
Qed.

Lemma add_block_ok :
  ∃ blocks', add_block blocks sum i = Ok blocks' ∧ max blocks' = max blocks
    ∧ table_wf a (i + MATCH_BLOCKSIZE) blocks'.
Proof.
  destruct (free_slot a i blocks Hwf Hroom) as (e & He & Hfree).
  destruct (probe_end a i blocks Hwf sum i e a Hi Hin He Hfree)
    as (d & Hd & _ & Hadd & Hhit & Hbefore).
  destruct (t_size _ _ _ Hwf) as (k & Hk & Hn & Hl).
  assert (Hpos : 0 < n) by (apply (n_pos blocks k n); done || lia).
  unfold add_block. rewrite (land_max blocks k n Hk Hn) by lia.
  change (hash_func sum mod n) with (home n sum). rewrite Hadd by done. cbn [rbind].
  eexists. split; [done|]. split; [done|].
  destruct (used (slot blocks ((home n sum + d) mod n))) eqn:Hu.
  - replace (MkBlocks _ _ _) with blocks by (by destruct blocks).
    apply (table_known ((home n sum + d) mod n)); [by apply Z.mod_pos_bound|done|by apply Hhit].
  - apply table_added; [done|done|]. intros d' Hd'. by apply Hbefore.
Qed.
End AddBlock.

Lemma init_blocks_loop_ok a fuel i blocks :
  table_wf a i blocks → blen a < (max blocks + 1) * MATCH_BLOCKSIZE → blen a <= 0x80000000 →
  0 <= i <= blen a → (MATCH_BLOCKSIZE | i) → blen a - i < (Z.of_nat fuel + 1) * MATCH_BLOCKSIZE →
  ∃ blocks' i', init_blocks_loop fuel i (blen a) blocks = Ok blocks' ∧ max blocks' = max blocks
    ∧ table_wf a i' blocks' ∧ i' <= blen a < i' + MATCH_BLOCKSIZE.
Proof.
  intros Hwf Hroom Hsmall. revert i blocks Hwf Hroom; induction fuel as [|fuel IH];
    intros i blocks Hwf Hroom Hi Hd Hf; unfold MATCH_BLOCKSIZE in Hf; cbn [init_blocks_loop];
    rewrite u32_small by (unfold MATCH_BLOCKSIZE; lia).
  all: destruct (Z.leb_spec (i + MATCH_BLOCKSIZE) (blen a)) as [Hle|];
    [|exists blocks, i; split; [done|]; split; [done|]; split; [done|lia]].
  { unfold MATCH_BLOCKSIZE in *. lia. }
  unfold init_adler32. rewrite (t_data _ _ _ Hwf). if_true by lia. cbn [rbind].
  destruct (add_block_ok a i blocks Hwf) as (blocks2 & -> & Hmax & Hwf2);
    [lia|lia|done|done|unfold NO_POSITION; lia|]. cbn [rbind].
  destruct (IH (i + MATCH_BLOCKSIZE) blocks2) as (blocks' & i' & Hloop & Hmax' & Hwf' & Hi');
    [done|by rewrite Hmax|unfold MATCH_BLOCKSIZE in *; lia
    |apply Z.divide_add_r; [done|apply Z.divide_refl]|unfold MATCH_BLOCKSIZE in *; lia|].
  exists blocks', i'. split; [done|]. split; [congruence|done].
Qed.

Lemma double_until_ok fuel k nblocks :
  0 <= k → 2 ^ k <= 2 * nblocks → nblocks < 2 ^ (k + Z.of_nat fuel) →
  ∃ k', double_until fuel (2 ^ k) nblocks = 2 ^ k' ∧ k <= k' ∧ nblocks < 2 ^ k' <= 2 * nblocks.
Proof.
  revert k; induction fuel as [|fuel IH]; intros k Hk Hle Hf; cbn [double_until].
  { exists k. rewrite Z.add_0_r in Hf. done. }
  destruct (Z.leb_spec (2 ^ k) nblocks) as [Hlt|]; [|by exists k].
  assert (2 ^ k * 2 = 2 ^ (k + 1)) as Hs by (rewrite Z.pow_add_r by lia; done).
  rewrite Hs. destruct (IH (k + 1)) as (k' & -> & ? & ?); [lia|lia| |].
  { by replace (k + 1 + Z.of_nat fuel) with (k + Z.of_nat (S fuel)) by lia. }
  exists k'. split; [done|]. split; [lia|done].
Qed.

Lemma empty_table_wf a k :
  0 <= k <= 31 →
  table_wf a 0 (MkBlocks (2 ^ k - 1) a (replicate (Z.to_nat (2 ^ k)) (MkBlock 0 NO_POSITION))).
Proof.
  intros Hk. assert (Hpos : 0 < 2 ^ k) by (apply Z.pow_pos_nonneg; lia).
  assert (Hempty : ∀ h, slot (MkBlocks (2 ^ k - 1) a
    (replicate (Z.to_nat (2 ^ k)) (MkBlock 0 NO_POSITION))) h = MkBlock 0 NO_POSITION).
  { intros h. unfold slot. simpl. destruct (replicate _ _ !! Z.to_nat h) eqn:Hl; [|done].
    by apply lookup_replicate in Hl as [-> _]. }
  split; cbn [data max slots].
  - done.
  - exists k. rewrite length_replicate. split; [done|lia].
  - intros h _. by rewrite Hempty.
  - intros h d _. by rewrite Hempty.
  - intros q Hq. lia.
  - unfold used_count.
    assert (∀ m, List.filter used (replicate m (MkBlock 0 NO_POSITION)) = []) as ->
      by (intros m; by induction m). done.
Qed.

(** The table of the whole source. *)
Lemma init_blocks_table_ok a :
  blen a <= 0x80000000 →
  ∃ blocks i, init_blocks_table a (blen a) = Ok blocks ∧ table_wf a i blocks
    ∧ i <= blen a < i + MATCH_BLOCKSIZE ∧ blen a < (max blocks + 1) * MATCH_BLOCKSIZE.
Proof.
  intros Hsmall. assert (0 <= blen a) by (unfold blen; lia). unfold init_blocks_table.
  set (nblocks := blen a / MATCH_BLOCKSIZE + 1).
  pose proof (Z.div_mod (blen a) MATCH_BLOCKSIZE ltac:(done)) as Hdm.
  pose proof (Z.mod_pos_bound (blen a) MATCH_BLOCKSIZE ltac:(done)) as Hmb.
  assert (Hnb : 1 <= nblocks <= 0x2000001) by (unfold nblocks, MATCH_BLOCKSIZE in *; lia).
  destruct (double_until_ok 64 0 nblocks) as (k & Hdbl & Hk & Hkb); [lia|simpl; lia| |].
  { change (2 ^ (0 + Z.of_nat 64)) with 0x10000000000000000. lia. }
  change (2 ^ 0) with 1 in Hdbl. rewrite Hdbl.
  assert (Hk2 : 2 ^ k * 2 = 2 ^ (k + 1)) by (rewrite Z.pow_add_r by lia; done).
  assert (Hk31 : k + 1 <= 31).
  { apply Z.lt_succ_r. apply (Z.pow_lt_mono_r_iff 2); [lia|lia|]. rewrite <- Hk2.
    change (2 ^ Z.succ 31) with 0x100000000. lia. }
  rewrite Hk2. assert (Hpow : 0 < 2 ^ (k + 1) < 0x100000000) by lia.
  rewrite u32_small by lia. unfold guarded. rewrite Z.eqb_refl.
  destruct (init_blocks_loop_ok a (Z.to_nat nblocks) 0 (MkBlocks (2 ^ (k + 1) - 1) a
    (replicate (Z.to_nat (2 ^ (k + 1))) (MkBlock 0 NO_POSITION))))
    as (blocks & i & Hloop & Hmax & Hwf & Hi).
  - apply empty_table_wf. lia.
  - cbn [max]. unfold nblocks, MATCH_BLOCKSIZE in *. lia.
  - done.
  - lia.
  - apply Z.divide_0_r.
  - unfold nblocks, MATCH_BLOCKSIZE in *. lia.
  - exists blocks, i. split; [done|]. split; [done|]. split; [done|].
    rewrite Hmax. cbn [max]. unfold nblocks, MATCH_BLOCKSIZE in *. lia.
Qed.

(** Looking a block up. *)
Lemma find_block_ok a i blocks b bpos sum :
  table_wf a i blocks → i < (max blocks + 1) * MATCH_BLOCKSIZE →
  0 <= bpos → bpos + MATCH_BLOCKSIZE <= blen b →
  ∃ p, find_block blocks sum b bpos = Ok p
    ∧ (p = NO_POSITION ∨ 0 <= p ∧ p + MATCH_BLOCKSIZE <= blen a ∧ same a p b bpos MATCH_BLOCKSIZE)
    ∧ (p = NO_POSITION → sum = adler32 (bytes_at bpos MATCH_BLOCKSIZE b) →
       ∀ q, 0 <= q < i → (MATCH_BLOCKSIZE | q) → q + MATCH_BLOCKSIZE <= blen a →
         ¬ same a q b bpos MATCH_BLOCKSIZE).
Proof.
  intros Hwf Hroom Hb Hbl.
  destruct (free_slot a i blocks Hwf Hroom) as (e & He & Hfree).
  destruct (probe_end a i blocks Hwf sum bpos e b Hb Hbl He Hfree)
    as (d & Hd & Hfind & _ & Hhit & Hbefore).
  destruct Hwf as [Hdata (k & Hk & Hn & Hl) Hused Hchain Hall Hr].
  assert (Hpos : 0 < max blocks + 1) by (apply (n_pos blocks k _); done || lia).
  unfold find_block. rewrite (land_max blocks k _ Hk Hn) by lia.
  change (hash_func sum mod _) with (home (max blocks + 1) sum). rewrite Hfind.
  set (n := max blocks + 1) in *. set (h0 := home n sum) in *. set (h := (h0 + d) mod n) in *.
  pose proof (Z.mod_pos_bound (h0 + d) n Hpos : 0 <= h < n) as Hh.
  eexists. split; [done|].
  destruct (used (slot blocks h)) eqn:Hu.
  - destruct (Hused h Hh Hu) as (Hp0 & Hpl & _). specialize (Hhit eq_refl).
    unfold hit in Hhit. apply andb_true_iff in Hhit as [_ Hs%bool_decide_eq_true].
    split; [by right|]. intros Hno. exfalso. unfold used in Hu. lia.
  - split; [by left|]. intros _ Hsum q Hq Hqd Hql Hsame.
    destruct (Hall q Hq Hqd Hql) as (j & Hj & Hju & Hjb).
    destruct (Hused j Hj Hju) as (Hp0 & Hpl & Hja).
    assert (Hjs : adlersum (slot blocks j) = sum).
    { rewrite Hja, Hjb, Hsum. by rewrite Hsame. }
    assert (Hjhit : hit a sum b bpos (slot blocks j) = true).
    { unfold hit. rewrite Hjs, Z.eqb_refl. apply bool_decide_eq_true. by rewrite Hjb, Hsame. }
    pose proof (Z.mod_pos_bound (j - h0) n Hpos) as Hjd.
    assert (Hback : (h0 + (j - h0) mod n) mod n = j) by (apply ring_back; lia).
    destruct (Z.lt_trichotomy d ((j - h0) mod n)) as [Hlt|[Heq|Hgt]].
    + pose proof (Hchain j d Hj Hju) as Hc. rewrite Hjs in Hc. fold n h0 in Hc.
      specialize (Hc ltac:(lia)). fold h in Hc. congruence.
    + rewrite <- Heq in Hback. fold h in Hback. congruence.
    + destruct (Hbefore _ (conj (proj1 Hjd) Hgt)) as [_ Hmiss]. rewrite Hback in Hmiss. congruence.
Qed.
