(* ===== verification/XdeltaCorrect.v ===== *)
(** * Properties of xdelta: the computed ops make the target *)
From S2P Require Import Prelude TextDelta Xdelta XdeltaMatch.

Section Compute.
Context (unaligned : bool) (a b : list byte).
Hypothesis Ha : 0 < blen a <= 0x80000000.
Hypothesis Hb : blen b < 0x8000000000000000.
Abbreviation asize := (blen a).
Abbreviation bsize := (blen b).

Lemma bsize_nonneg : 0 <= bsize.
Proof. unfold blen. lia. Qed.

(** The ops so far make the first [p] bytes of the target. *)
Record built (p : Z) (bt : ops_baton) : Prop := {
  built_wf : baton_wf asize bt;
  built_text : baton_text a bt = bytes_at 0 p b;
  built_nonempty : ops_nonempty (bb_ops bt) = true;
  built_src : source_ops (bb_ops bt) <= bb_src_ops bt;
  built_range : 0 <= p <= bsize;
}.

Lemma built_length p bt : built p bt → ops_length (bb_ops bt) = p.
Proof.
  intros [[Hv _ _] Ht _ _ Hp].
  pose proof (expand_length a (bb_new_data bt) asize ltac:(lia) (bb_ops bt) [] Hv) as Hl.
  unfold baton_text in Ht. rewrite Ht in Hl. rewrite blen_bytes_at in Hl by lia.
  change (blen []) with 0 in Hl. lia.
Qed.

Lemma insert_source p bt off len :
  built p bt → 0 < len → 0 <= off → off + len <= asize → p + len <= bsize →
  same a off b p len →
  built (p + len) (svn_txdelta__insert_op bt svn_txdelta_source off len []).
Proof.
  intros [Hwf Ht Hne Hs Hp] Hl Ho Hoa Hpb Hsame.
  destruct (insert_op_ok a asize bt svn_txdelta_source off len []) as (Hwf' & Ht' & Hs');
    [lia|done|by split; [lia|]|].
  split; [done| |by apply insert_op_nonempty|lia|lia].
  rewrite Ht', Ht. unfold inserted_text. rewrite Hsame.
  by rewrite bytes_at_split by lia.
Qed.

Lemma insert_new p bt off len :
  built p bt → 0 < len → p + len <= bsize →
  built (p + len) (svn_txdelta__insert_op bt svn_txdelta_new off len (drop (Z.to_nat p) b)).
Proof.
  intros [Hwf Ht Hne Hs Hp] Hl Hpb.
  destruct (insert_op_ok a asize bt svn_txdelta_new off len (drop (Z.to_nat p) b))
    as (Hwf' & Ht' & Hs'); [lia|done| |].
  { split; [lia|]. unfold blen in *. rewrite length_drop. lia. }
  split; [done| |by apply insert_op_nonempty|lia|lia].
  rewrite Ht', Ht. unfold inserted_text. by rewrite bytes_at_split by lia.
Qed.

Lemma remove_built p bt max_len :
  built p bt → 0 <= max_len <= p →
  let '(bt', n) := svn_txdelta__remove_copy bt max_len in
  0 <= n <= max_len ∧ built (p - n) bt'.
Proof.
  intros Hbuilt Hm. pose proof (built_length p bt Hbuilt) as Hlen.
  destruct Hbuilt as [Hwf Ht Hne Hs Hp].
  pose proof (remove_copy_ok a asize bt max_len ltac:(lia) Hwf ltac:(lia)) as Hr.
  pose proof (remove_copy_nonempty bt max_len) as Hr2.
  destruct (svn_txdelta__remove_copy bt max_len) as [bt' n].
  destruct Hr as (Hwf' & Hn & Ht'). destruct Hr2 as (Hne' & Hsrc & Hsrc').
  split; [done|]. split; [done| |by apply Hne'|lia|lia].
  rewrite Ht', Ht. rewrite blen_bytes_at by lia.
  symmetry. apply bytes_at_short. lia.
Qed.

(** A match, extended both ways. *)
Lemma find_match_ok i blocks rolling bpos pending :
  table_wf a i blocks → i < (max blocks + 1) * MATCH_BLOCKSIZE →
  0 <= pending <= bpos → bpos + MATCH_BLOCKSIZE <= bsize →
  ∃ found, find_match unaligned blocks rolling a asize b bsize bpos pending = Ok found
    ∧ match found with
      | None => True
      | Some (len, lo, apos) =>
          pending <= lo ∧ 0 <= apos ∧ apos + len <= asize ∧ lo + len <= bsize
          ∧ bpos + MATCH_BLOCKSIZE <= lo + len ∧ MATCH_BLOCKSIZE <= len ∧ same a apos b lo len
      end.
Proof.
  intros Hwf Hroom Hp Hbl. unfold find_match.
  destruct (find_block_ok a i blocks b bpos rolling Hwf Hroom) as (p & -> & Hpos & _);
    [lia|done|]. cbn [rbind].
  destruct (Z.eqb_spec p NO_POSITION) as [|Hno]; [by exists None|].
  destruct Hpos as [?|(Hp0 & Hpl & Hs)]; [done|]. unfold MATCH_BLOCKSIZE in *.
  rewrite !u64_small by (rewrite ?u64_small; lia).
  set (max_delta := if _ <? _ then _ else _).
  assert (0 <= max_delta ∧ max_delta <= asize - p - 64 ∧ max_delta <= bsize - bpos - 64)
    as (Hm0 & Hma & Hmb) by (unfold max_delta; case_if; lia).
  destruct (match_length_ok a b unaligned (p + 64) (bpos + 64) max_delta)
    as (delta & -> & Hd & Hsd & _); [lia..|]. cbn [rbind].
  assert (Hsame : same a p b bpos (64 + delta)).
  { apply same_extend; try lia; done. }
  destruct (extend_back_ok a b (Z.to_nat p) p bpos (64 + delta) pending)
    as (k & Hext & Hk & Hkp & Hks); [lia..|done|].
  assert (extend_back (Z.to_nat p) a b p bpos delta pending = Ok (p - k, bpos - k, delta + k))
    as ->.
  { clear -Hext. revert Hext. generalize (Z.to_nat p) as fuel. intros fuel.
    revert p bpos delta k. induction fuel as [|fuel IH]; intros p bpos delta k;
      cbn [extend_back]; (case_if; [|intros [= ? ? ?]; f_equal; f_equal; [f_equal|]; lia]);
      (destruct (read a (p - 1)); [|done..]); (destruct (read b (bpos - 1)); [|done..]);
      cbn [rbind]; (case_if; [|intros [= ? ? ?]; f_equal; f_equal; [f_equal|]; lia]); [done|].
    intros Hext. rewrite (IH (p - 1) (bpos - 1) (delta + 1) (k - 1)).
    - f_equal. f_equal; [f_equal|]; lia.
    - rewrite Z.add_assoc, Hext. f_equal. f_equal; [f_equal|]; lia. }
  cbn [rbind]. exists (Some (64 + (delta + k), bpos - k, p - k)). split; [done|].
  replace (64 + (delta + k)) with (64 + delta + k) by lia. split; [lia|]. do 5 (split; [lia|]). done.
Qed.

Lemma store_match_ok bt matchlen lo apos pending :
  built pending bt → pending <= lo → 0 <= apos → 0 < matchlen → apos + matchlen <= asize →
  lo + matchlen <= bsize → same a apos b lo matchlen →
  ∃ bt', store_match unaligned bt a b matchlen lo apos pending = Ok (bt', lo + matchlen)
    ∧ built (lo + matchlen) bt'.
Proof.
  intros Hbuilt Hlo Ha0 Hm Hma Hmb Hs. pose proof (built_range _ _ Hbuilt) as Hp.
  unfold store_match. destruct (Z.ltb_spec 0 (lo - pending)) as [Hgap|Hadj].
  - cbn [rbind]. eexists. split; [done|].
    pose proof (insert_new pending bt 0 (lo - pending) Hbuilt ltac:(lia) ltac:(lia)) as Hnew.
    replace (pending + (lo - pending)) with lo in Hnew by lia.
    apply insert_source; done || lia.
  - assert (lo = pending) as -> by lia.
    set (max_len := if apos <? pending then apos else pending).
    assert (0 <= max_len ∧ max_len <= apos ∧ max_len <= pending) as (? & ? & ?)
      by (unfold max_len; case_if; lia).
    destruct (reverse_match_length_ok a b unaligned apos pending max_len)
      as (len & -> & Hl & Hsl & _); [lia..|]. cbn [rbind].
    destruct (Z.ltb_spec 0 len) as [Hpos|]; cbn [rbind].
    + pose proof (remove_built pending bt len Hbuilt ltac:(lia)) as Hr.
      destruct (svn_txdelta__remove_copy bt len) as [bt' n]. destruct Hr as [Hn Hbuilt'].
      cbn [rbind]. replace (pending - n + (matchlen + n)) with (pending + matchlen) by lia.
      eexists. split; [done|].
      replace (pending + matchlen) with (pending - n + (matchlen + n)) by lia.
      apply insert_source; [done|lia|lia|lia|lia|].
      rewrite Z.add_comm. apply same_extend; [lia..| |by rewrite !Z.sub_add].
      pose proof (same_sub a (apos - len) b (pending - len) len n (len - n)
        ltac:(lia) ltac:(lia) ltac:(lia) ltac:(lia) ltac:(lia) Hsl) as Hsub.
      replace (apos - len + (len - n)) with (apos - n) in Hsub by lia.
      by replace (pending - len + (len - n)) with (pending - n) in Hsub by lia.
    + eexists. split; [done|]. apply insert_source; done || lia.
Qed.

Lemma store_delta_trailer_ok bt start_ :
  built start_ bt →
  ∃ bt', store_delta_trailer unaligned bt a asize b bsize start_ = Ok bt' ∧ built bsize bt'.
Proof.
  intros Hbuilt. pose proof (built_range _ _ Hbuilt) as Hp. unfold store_delta_trailer.
  set (max_len := if _ <? _ then _ else _).
  assert (0 <= max_len ∧ max_len <= asize ∧ max_len <= bsize - start_
          ∧ (max_len = 0 → start_ = bsize)) as (? & ? & ? & Hzero)
    by (unfold max_len; case_if; lia).
  destruct (Z.eqb_spec max_len 0) as [Hz|Hnz].
  { exists bt. split; [done|]. by rewrite <- Hzero. }
  destruct (reverse_match_length_ok a b unaligned asize bsize max_len)
    as (len & -> & Hl & Hs & _); [lia..|]. cbn [rbind].
  set (end_match := if len <=? 4 then 0 else len).
  assert (0 <= end_match <= len ∧ same a (asize - end_match) b (bsize - end_match) end_match)
    as [He Hes].
  { unfold end_match. case_if; [|split; [lia|done]]. split; [lia|apply same_zero]. }
  eexists. split; [done|].
  set (bt2 := if end_match <? bsize - start_ then _ else bt).
  assert (built (bsize - end_match) bt2) as Hbt2.
  { unfold bt2. case_if.
    - replace (bsize - end_match) with (start_ + (bsize - start_ - end_match)) by lia.
      apply insert_new; done || lia.
    - by replace (bsize - end_match) with start_ by lia. }
  destruct (Z.eqb_spec end_match 0) as [Hez|]; cbn [negb].
  - by rewrite Hez, Z.sub_0_r in Hbt2.
  - replace bsize with (bsize - end_match + end_match) by lia.
    apply insert_source; done || lia.
Qed.

Lemma compute_delta_loop_ok i blocks fuel bt rolling lo pending :
  table_wf a i blocks → i < (max blocks + 1) * MATCH_BLOCKSIZE →
  built pending bt → pending <= lo <= bsize → bsize - lo <= Z.of_nat fuel →
  ∃ bt' pending',
    compute_delta_loop unaligned fuel blocks bt a asize b bsize rolling lo pending
    = Ok (bt', pending') ∧ built pending' bt'.
Proof.
  intros Hwf Hroom. revert bt rolling lo pending; induction fuel as [|fuel IH];
    intros bt rolling lo pending Hbuilt Hlo Hf; cbn [compute_delta_loop];
    (destruct (Z.ltb_spec lo bsize); [|by exists bt, pending]); [lia|].
  pose proof (built_range _ _ Hbuilt).
  assert (∃ found, (if lo + MATCH_BLOCKSIZE <=? bsize
    then find_match unaligned blocks rolling a asize b bsize lo pending else Ok None) = Ok found
    ∧ match found with
      | None => True
      | Some (len, lo', apos) =>
          pending <= lo' ∧ 0 <= apos ∧ apos + len <= asize ∧ lo' + len <= bsize
          ∧ lo + MATCH_BLOCKSIZE <= lo' + len ∧ MATCH_BLOCKSIZE <= len ∧ same a apos b lo' len
      end) as (found & -> & Hfound).
  { destruct (Z.leb_spec (lo + MATCH_BLOCKSIZE) bsize); [|by exists None].
    by apply (find_match_ok i); [| |lia|]. }
  cbn [rbind]. destruct found as [[[len lo'] apos]|].
  - destruct Hfound as (? & ? & ? & ? & ? & ? & Hs). unfold MATCH_BLOCKSIZE in *.
    destruct (store_match_ok bt len lo' apos pending) as (bt' & -> & Hbuilt'); [done|lia..|done|].
    cbn [rbind]. unfold init_adler32, MATCH_BLOCKSIZE.
    destruct (Z.leb_spec (lo' + len + 64) bsize) as [Hr|]; cbn [rbind]; apply IH; done || lia.
  - unfold MATCH_BLOCKSIZE. destruct (Z.ltb_spec (lo + 64) bsize).
    + destruct (read_ok b lo) as (x & -> & _); [lia|].
      destruct (read_ok b (lo + 64)) as (y & -> & _); [lia|]. cbn [rbind].
      apply IH; done || lia.
    + cbn [rbind]. apply IH; done || lia.
Qed.

Lemma built_empty : built 0 empty_baton.
Proof. split; [split; done|done|done|done|]. pose proof bsize_nonneg. lia. Qed.

Lemma compute_delta_ok :
  0 < bsize →
  ∃ bt, compute_delta unaligned empty_baton a asize b bsize = Ok bt ∧ built bsize bt.
Proof.
  intros Hpos. unfold compute_delta. set (m := if bsize <? asize then bsize else asize).
  assert (0 <= m ∧ m <= asize ∧ m <= bsize) as (? & ? & ?) by (unfold m; case_if; lia).
  destruct (match_length_ok a b unaligned 0 0 m) as (lo & -> & Hlo & Hs & _); [lia..|].
  cbn [rbind].
  assert (∃ bt lo', (if (4 <? lo) || (lo =? bsize)
      then (svn_txdelta__insert_op empty_baton svn_txdelta_source 0 lo [], lo)
      else (empty_baton, 0)) = (bt, lo') ∧ built lo' bt) as (bt & lo' & -> & Hbuilt).
  { case_if; [|exists empty_baton, 0; split; [done|apply built_empty]].
    do 2 eexists. split; [done|].
    replace lo with (0 + lo) at 1 by lia.
    apply insert_source; [apply built_empty|lia..|done]. }
  pose proof (built_range _ _ Hbuilt) as Hlr.
  case_if; [by apply store_delta_trailer_ok|].
  destruct (init_blocks_table_ok a ltac:(lia)) as (blocks & i & -> & Hwf & Hi & Hroom).
  cbn [rbind]. unfold init_adler32. if_true by (unfold MATCH_BLOCKSIZE in *; lia).
  cbn [rbind].
  destruct (compute_delta_loop_ok i blocks (Z.to_nat bsize) bt
    (adler32 (bytes_at lo' MATCH_BLOCKSIZE b)) lo' lo') as (bt' & pending & -> & Hbuilt');
    [done|lia|done|lia|lia|].
  cbn [rbind]. by apply store_delta_trailer_ok.
Qed.
End Compute.


Definition xdelta_source : list byte := replicate 70 x61 ++ replicate 70 x62.
Definition xdelta_target : list byte := x63 :: replicate 69 x62 ++ replicate 80 x61.


(** Rolling the 32-bit adler checksum by one byte with adler32_replace gives
    the checksum computed afresh over the shifted block, with all the wrap-
    around of the machine arithmetic. *)
Theorem adler32_replace_rolls (c_out c_in : byte) (middle : list byte) :
  blen middle = MATCH_BLOCKSIZE - 1 →
  adler32_replace (adler32 (c_out :: middle)) c_out c_in = adler32 (middle ++ [c_in]).
Proof. apply adler32_rolls. Qed.

Lemma adler32_replace_rolls_witness :
  adler32_replace (adler32 (x61 :: replicate 63 xff)) x61 x62
  = adler32 (replicate 63 xff ++ [x62]).
Proof. apply adler32_replace_rolls. reflexivity. Defined.

(** The block table is sound and complete: looking up the checksum of a
    target block ends and finds an aligned source block with the very same
    bytes, and reports no position only when no aligned source block has
    those bytes. *)
Theorem find_block_spec (source target : list byte) (bpos : Z) :
  blen source <= 0x80000000 → 0 <= bpos → bpos + MATCH_BLOCKSIZE <= blen target →
  ∃ blocks p,
    init_blocks_table source (blen source) = Ok blocks
    ∧ find_block blocks (adler32 (bytes_at bpos MATCH_BLOCKSIZE target)) target bpos = Ok p
    ∧ if p =? NO_POSITION
      then ∀ q, 0 <= q → (MATCH_BLOCKSIZE | q) → q + MATCH_BLOCKSIZE <= blen source →
             bytes_at q MATCH_BLOCKSIZE source ≠ bytes_at bpos MATCH_BLOCKSIZE target
      else 0 <= p ∧ p + MATCH_BLOCKSIZE <= blen source
           ∧ bytes_at p MATCH_BLOCKSIZE source = bytes_at bpos MATCH_BLOCKSIZE target.
Proof.
  intros Hs Hb Hbl. destruct (init_blocks_table_ok source Hs) as (blocks & i & Ht & Hwf & Hi & Hroom).
  destruct (find_block_ok source i blocks target bpos
    (adler32 (bytes_at bpos MATCH_BLOCKSIZE target)) Hwf) as (p & Hp & Hpos & Hno); [lia|done|done|].
  exists blocks, p. split; [done|]. split; [done|].
  destruct (Z.eqb_spec p NO_POSITION) as [->|Hne].
  - intros q Hq Hqd Hql. apply Hno; [done|done| |done|done].
    unfold MATCH_BLOCKSIZE in *. lia.
  - destruct Hpos as [|Hpos]; done.
Qed.

Lemma find_block_spec_witness :
  ∃ blocks p,
    init_blocks_table xdelta_source (blen xdelta_source) = Ok blocks
    ∧ find_block blocks (adler32 (bytes_at 71 MATCH_BLOCKSIZE xdelta_target)) xdelta_target 71
      = Ok p
    ∧ if p =? NO_POSITION
      then ∀ q, 0 <= q → (MATCH_BLOCKSIZE | q) → q + MATCH_BLOCKSIZE <= blen xdelta_source →
             bytes_at q MATCH_BLOCKSIZE xdelta_source
             ≠ bytes_at 71 MATCH_BLOCKSIZE xdelta_target
      else 0 <= p ∧ p + MATCH_BLOCKSIZE <= blen xdelta_source
           ∧ bytes_at p MATCH_BLOCKSIZE xdelta_source
             = bytes_at 71 MATCH_BLOCKSIZE xdelta_target.
Proof. apply find_block_spec; vm_compute; discriminate. Defined.

(** The word-at-a-time scanners used where unaligned access is allowed
    return the same match lengths, forward and backward, as the bytewise
    loops, for every bound and position inside the buffers. *)
Theorem match_length_words (a b : list byte) (i j max_len : Z) :
  0 <= max_len →
  (0 <= i → 0 <= j → i + max_len <= blen a → j + max_len <= blen b →
   match_length true a i b j max_len = match_length false a i b j max_len)
  ∧ (max_len <= i <= blen a → max_len <= j <= blen b →
     reverse_match_length true a i b j max_len = reverse_match_length false a i b j max_len).
Proof.
  intros Hm. split.
  - intros Hi Hj Ha Hb.
    destruct (match_length_ok a b true i j max_len) as (n & -> & Hn); [done..|].
    destruct (match_length_ok a b false i j max_len) as (n' & -> & Hn'); [done..|].
    f_equal.
    apply (common_unique a b i j max_len); done.
  - intros Ha Hb.
    destruct (reverse_match_length_ok a b true i j max_len) as (n & -> & Hn); [done..|].
    destruct (reverse_match_length_ok a b false i j max_len) as (n' & -> & Hn'); [done..|].
    f_equal. apply (common_back_unique a b i j max_len); [lia|lia|done|done].
Qed.

Lemma match_length_words_witness :
  0 <= 20
  ∧ match_length true xdelta_source 50 xdelta_source 60 20
    = match_length false xdelta_source 50 xdelta_source 60 20.
Proof.
  split; [discriminate|].
  apply (match_length_words xdelta_source xdelta_source 50 60 20); vm_compute; discriminate.
Defined.
