(* ===== verification/DeltaStream.v ===== *)
(** * Delta streams

    [src/subversion/libsvn_delta/text_delta.c]: the functions that make windows
    out of a source and a target, either pulling from streams
    ([svn_txdelta_run], [svn_txdelta2]) or pushed by a writer
    ([svn_txdelta_target_push]), and the handler that applies windows to a
    source stream ([svn_txdelta_apply]).

    A readable stream is the list of the bytes left to read, a writable one the
    bytes written; their own errors are not modelled.  A window handler with
    its baton is a function on a state [C]. *)
From S2P Require Import Prelude TextDelta Xdelta.

Definition SVN__STREAM_CHUNK_SIZE : Z := 16384.

(** What the code uses of APR: the context of a checksum, and the alignment of
    sizes.  A checksum is that of the bytes it is fed, however they are cut. *)
Class Apr := {
  checksum_ctx : Type;
  digest : Type;
  checksum_ctx_create : checksum_ctx;
  checksum_update : checksum_ctx → list byte → checksum_ctx;
  checksum_final : checksum_ctx → digest;
  checksum_update_app : ∀ k s1 s2,
    checksum_update (checksum_update k s1) s2 = checksum_update k (s1 ++ s2);
  checksum_update_nil : ∀ k, checksum_update k [] = k;
  APR_ALIGN_DEFAULT : Z → Z;
  align_up : ∀ size, 0 <= size < 0x8000000000000000 → size <= APR_ALIGN_DEFAULT size;
}.

(** [svn_stream_read]: reads [len] bytes, or what is left. *)
Definition svn_stream_read (stream : list byte) (len : Z) : list byte * list byte :=
  (bytes_at 0 len stream, drop (Z.to_nat len) stream).

Abbreviation window_handler_t C := (option svn_txdelta_window_t → C → result C).

Section DeltaStream.
Context `{Apr} (unaligned : bool).

(** ** Windows from a source and a target *)

Definition compute_window (data : list byte) (source_len target_len source_offset : Z)
    : result svn_txdelta_window_t :=
  let! build_baton :=
    if source_len =? 0
    then Ok (svn_txdelta__insert_op empty_baton svn_txdelta_new 0 target_len data)
    else svn_txdelta__xdelta unaligned empty_baton data source_len target_len in
  let window := svn_txdelta__make_window build_baton in
  Ok (MkWindow source_offset source_len target_len (src_ops window) (ops window)
        (new_data window)).

(** The part of [buf] that is in use is local to [txdelta_next_window]. *)
Record txdelta_baton := MkTxdelta {
  td_source : list byte;
  td_target : list byte;
  more_source : bool;
  more : bool;
  td_pos : Z;
  context : option checksum_ctx;
  checksum : option digest;
}.

Definition txdelta_next_window (b : txdelta_baton)
    : result (option svn_txdelta_window_t * txdelta_baton) :=
  let '(source_buf, source, more_source_) :=
    if more_source b then
      let '(buf, source) := svn_stream_read (td_source b) SVN_DELTA_WINDOW_SIZE in
      (buf, source, blen buf =? SVN_DELTA_WINDOW_SIZE)
    else ([], td_source b, false) in
  let source_len := blen source_buf in
  let '(target_buf, target) := svn_stream_read (td_target b) SVN_DELTA_WINDOW_SIZE in
  let target_len := blen target_buf in
  let pos_ := td_pos b + source_len in
  if target_len =? 0 then
    Ok (None, MkTxdelta source target more_source_ false pos_ (context b)
                (match context b with
                 | Some k => Some (checksum_final k)
                 | None => checksum b
                 end))
  else
    let context_ := (λ k, checksum_update k target_buf) <$> context b in
    let! window := compute_window (source_buf ++ target_buf) source_len target_len
                     (pos_ - source_len) in
    Ok (Some window, MkTxdelta source target more_source_ (more b) pos_ context_ (checksum b)).

Definition txdelta_md5_digest (b : txdelta_baton) : option digest :=
  if more b then None
  else match context b with None => None | Some _ => checksum b end.

Definition new_txdelta (source target : list byte) (calculate_checksum : bool)
    : txdelta_baton :=
  MkTxdelta source target true true 0
    (if calculate_checksum then Some checksum_ctx_create else None) None.

Definition svn_txdelta2 (source target : list byte) (calculate_checksum : bool)
    : txdelta_baton := new_txdelta source target calculate_checksum.

Definition svn_txdelta (source target : list byte) : txdelta_baton :=
  svn_txdelta2 source target true.

Section Run.
Context {C : Type} (handler : window_handler_t C) (cancel_func : option (C → result C)).

(** The loop of [svn_txdelta_run]; every window takes a byte of the target,
    so its length is enough fuel. *)
Fixpoint run_loop (fuel : nat) (tb : txdelta_baton) (c : C) : result (txdelta_baton * C) :=
  let! next := txdelta_next_window tb in
  let '(window, tb) := next in
  let! c := handler window c in
  let! c := match cancel_func with Some f => f c | None => Ok c end in
  match window, fuel with
  | None, _ => Ok (tb, c)
  | Some _, O => OutOfFuel
  | Some _, S fuel => run_loop fuel tb c
  end.

(** Returns [*checksum] and the state of the handler. *)
Definition svn_txdelta_run (source target : list byte) (want_checksum : bool) (c : C)
    : result (option digest * C) :=
  let tb := new_txdelta source target want_checksum in
  let! done := run_loop (length target) tb c in
  let '(tb, c) := done in
  Ok (if want_checksum then checksum tb else None, c).
End Run.

(** The loop of [svn_txdelta_send_txstream], for any stream of windows. *)
Fixpoint svn_txdelta_send_txstream {T C} (fuel : nat)
    (next_window : T → result (option svn_txdelta_window_t * T)) (handler : window_handler_t C)
    (txstream : T) (c : C) : result (T * C) :=
  let! next := next_window txstream in
  let '(window, txstream) := next in
  let! c := handler window c in
  match window, fuel with
  | None, _ => Ok (txstream, c)
  | Some _, O => OutOfFuel
  | Some _, S fuel => svn_txdelta_send_txstream fuel next_window handler txstream c
  end.

(** ** Pushing the target *)

Section TargetPush.
Context {C : Type} (wh : window_handler_t C).

(** [buf] holds [source_buf] and behind it [target_buf]. *)
Record tpush_baton := MkTpush {
  tp_source : list byte;
  whb : C;
  source_buf : list byte;
  target_buf : list byte;
  source_offset : Z;
  source_done : bool;
}.

(** Every round takes a byte of [data]. *)
Fixpoint tpush_loop (fuel : nat) (tb : tpush_baton) (data : list byte) : result tpush_baton :=
  if 0 <? blen data then
    match fuel with
    | O => OutOfFuel
    | S fuel =>
        let tb :=
          if (blen (source_buf tb) =? 0) && negb (source_done tb) then
            let '(buf, source) := svn_stream_read (tp_source tb) SVN_DELTA_WINDOW_SIZE in
            MkTpush source (whb tb) buf (target_buf tb) (source_offset tb)
              (if blen buf <? SVN_DELTA_WINDOW_SIZE then true else source_done tb)
          else tb in
        let chunk_len := SVN_DELTA_WINDOW_SIZE - blen (target_buf tb) in
        let chunk_len := if blen data <? chunk_len then blen data else chunk_len in
        let target_buf_ := target_buf tb ++ bytes_at 0 chunk_len data in
        let data := drop (Z.to_nat chunk_len) data in
        if blen target_buf_ =? SVN_DELTA_WINDOW_SIZE then
          let! window := compute_window (source_buf tb ++ target_buf_)
                           (blen (source_buf tb)) (blen target_buf_) (source_offset tb) in
          let! c := wh (Some window) (whb tb) in
          tpush_loop fuel
            (MkTpush (tp_source tb) c [] []
               (source_offset tb + blen (source_buf tb)) (source_done tb)) data
        else
          tpush_loop fuel
            (MkTpush (tp_source tb) (whb tb) (source_buf tb) target_buf_ (source_offset tb)
               (source_done tb)) data
    end
  else Ok tb.

Definition tpush_write_handler (tb : tpush_baton) (data : list byte) : result tpush_baton :=
  tpush_loop (length data) tb data.

Definition tpush_close_handler (tb : tpush_baton) : result C :=
  let! c :=
    if 0 <? blen (target_buf tb) then
      let! window := compute_window (source_buf tb ++ target_buf tb)
                       (blen (source_buf tb)) (blen (target_buf tb)) (source_offset tb) in
      wh (Some window) (whb tb)
    else Ok (whb tb) in
  wh None c.

Definition svn_txdelta_target_push (handler_baton : C) (source : list byte) : tpush_baton :=
  MkTpush source handler_baton [] [] 0 false.
End TargetPush.

(** ** Applying windows to a stream *)

(** Returns the new size of the buffer. *)
Definition size_buffer (buf_size view_len : Z) : result Z :=
  if buf_size <? view_len then
    let buf_size := u64 (buf_size * 2) in
    let buf_size := if buf_size <? view_len then view_len else buf_size in
    assert! buf_size <=? APR_ALIGN_DEFAULT buf_size in
    Ok buf_size
  else Ok buf_size.

(** [sbuf] is the part of the source buffer in use, of [sbuf_len] bytes. *)
Record apply_baton := MkApply {
  ap_source : list byte;
  ap_target : list byte;
  ap_target_closed : bool;
  sbuf : list byte;
  sbuf_size : Z;
  sbuf_offset : Z;
  tbuf_size : Z;
  md5_context : option checksum_ctx;
  result_digest : option digest;
}.

(** The source buffer moved to the view: returns the buffer, its size and its
    offset.  The [memmove] has to stay within the two buffers. *)
Definition move_source_buffer (window : svn_txdelta_window_t) (ab : apply_baton)
    : result (list byte * Z * Z) :=
  if negb (sview_offset window =? sbuf_offset ab) || (sbuf_size ab <? sview_len window) then
    let! size := size_buffer (sbuf_size ab) (sview_len window) in
    let! buf :=
      if u64 (sview_offset window) <? u64 (sbuf_offset ab + blen (sbuf ab)) then
        let start := u64 (sview_offset window - sbuf_offset ab) in
        if (start <=? blen (sbuf ab)) && (blen (sbuf ab) - start <=? size)
        then Ok (drop (Z.to_nat start) (sbuf ab))
        else Undefined
      else Ok [] in
    Ok (buf, size, sview_offset window)
  else Ok (sbuf ab, sbuf_size ab, sbuf_offset ab).

Definition apply_window (window : option svn_txdelta_window_t) (ab : apply_baton)
    : result apply_baton :=
  match window with
  | None =>
      Ok (MkApply (ap_source ab) (ap_target ab) true (sbuf ab) (sbuf_size ab) (sbuf_offset ab)
            (tbuf_size ab) (md5_context ab) (checksum_final <$> md5_context ab))
  | Some window =>
      assert! (sview_len window =? 0)
              || ((sbuf_offset ab <=? sview_offset window)
                  && (u64 (sbuf_offset ab + blen (sbuf ab))
                      <=? u64 (sview_offset window + sview_len window))) in
      let! tsize := size_buffer (tbuf_size ab) (tview_len window) in
      let! moved := move_source_buffer window ab in
      let '(buf, ssize, soffset) := moved in
      let! filled :=
        if blen buf <? sview_len window then
          let len := sview_len window - blen buf in
          let '(more_, source) := svn_stream_read (ap_source ab) len in
          if negb (blen more_ =? len) then Error SVN_ERR_INCOMPLETE_DATA
          else Ok (buf ++ more_, source)
        else Ok (buf, ap_source ab) in
      let '(buf, source) := filled in
      let! applied := svn_txdelta_apply_instructions window buf (tview_len window) in
      let '(tbuf, len) := applied in
      assert! len =? tview_len window in
      Ok (MkApply source (ap_target ab ++ tbuf) (ap_target_closed ab) buf ssize soffset tsize
            ((λ k, checksum_update k tbuf) <$> md5_context ab) (result_digest ab))
  end.

Definition svn_txdelta_apply (source : list byte) (want_digest : bool) : apply_baton :=
  MkApply source [] false [] 0 0 0
    (if want_digest then Some checksum_ctx_create else None) None.

(** ** Sending whole texts *)

Definition svn_txdelta_send_string {C} (string : list byte) (handler : window_handler_t C)
    (c : C) : result C :=
  let window := MkWindow 0 0 (blen string) 0 [MkOp svn_txdelta_new 0 (blen string)] string in
  let! c := handler (Some window) c in
  handler None c.

(** The loop of [svn_txdelta_send_stream]; every window but the last takes
    bytes of the stream. *)
Fixpoint send_stream_loop {C} (fuel : nat) (stream : list byte) (handler : window_handler_t C)
    (k : option checksum_ctx) (c : C) : result (option checksum_ctx * C) :=
  let '(read_buf, stream) := svn_stream_read stream SVN__STREAM_CHUNK_SIZE in
  let read_len := blen read_buf in
  if read_len =? 0 then Ok (k, c)
  else
    let window := MkWindow 0 0 read_len 0 [MkOp svn_txdelta_new 0 read_len] read_buf in
    let! c := handler (Some window) c in
    let k := (λ k, checksum_update k read_buf) <$> k in
    if read_len <? SVN__STREAM_CHUNK_SIZE then Ok (k, c)
    else match fuel with
         | O => OutOfFuel
         | S fuel => send_stream_loop fuel stream handler k c
         end.

(** Returns the digest, when one is asked for. *)
Definition svn_txdelta_send_stream {C} (stream : list byte) (handler : window_handler_t C)
    (want_digest : bool) (c : C) : result (option digest * C) :=
  let k := if want_digest then Some checksum_ctx_create else None in
  let! sent := send_stream_loop (length stream) stream handler k c in
  let '(k, c) := sent in
  let! c := handler None c in
  Ok (checksum_final <$> k, c).
End DeltaStream.

Arguments MkTpush {C}.
Arguments tp_source {C}.
Arguments whb {C}.
Arguments source_buf {C}.
Arguments target_buf {C}.
Arguments source_offset {C}.
Arguments source_done {C}.
