(* ===== verification/DeltaStreamCorrect.v ===== *)
(** * Properties of delta streams *)
From S2P Require Import Prelude TextDelta Svndiff SvndiffCodec Xdelta XdeltaMatch XdeltaCorrect DeltaStream.

(** ** The contract of producers and consumers of windows

    The windows make [target] and leave [target'] of it, taking views of
    [full], one after the other without overlap or gap, from [pos] to [pos']. *)
Fixpoint windows_make (full : list byte) (pos : Z) (target : list byte)
    (ws : list svn_txdelta_window_t) (pos' : Z) (target' : list byte) : Prop :=
  match ws with
  | [] => pos = pos' ∧ target = target'
  | w :: ws =>
      window_ok w ∧ sview_offset w = pos ∧ pos + sview_len w <= blen full
      ∧ 0 < tview_len w <= blen target
      ∧ window_text w (bytes_at pos (sview_len w) full) = bytes_at 0 (tview_len w) target
      ∧ windows_make full (pos + sview_len w) (drop (Z.to_nat (tview_len w)) target) ws pos' target'
  end.

Lemma windows_make_app full pos target ws1 pos1 target1 ws2 pos2 target2 :
  windows_make full pos target ws1 pos1 target1 →
  windows_make full pos1 target1 ws2 pos2 target2 →
  windows_make full pos target (ws1 ++ ws2) pos2 target2.
Proof.
  revert pos target; induction ws1 as [|w ws1 IH]; intros pos target; [by intros [-> ->]|].
  intros (? & ? & ? & ? & ? & Hws) Hws2. simpl. do 5 (split; [done|]). by apply IH.
Qed.

(** Text that follows is not touched. *)
Lemma windows_make_more full pos target ws pos' target' extra :
  windows_make full pos target ws pos' target' →
  windows_make full pos (target ++ extra) ws pos' (target' ++ extra).
Proof.
  revert pos target; induction ws as [|w ws IH]; intros pos target; [by intros [-> ->]|].
  intros (? & ? & ? & Ht & Htext & Hws). simpl.
  do 3 (split; [done|]). split; [rewrite blen_app; unfold blen in *; lia|].
  split; [by rewrite bytes_at_app by lia|].
  rewrite drop_app_le by (unfold blen in Ht; lia). by apply IH.
Qed.

Lemma windows_make_ok full pos target ws pos' target' :
  windows_make full pos target ws pos' target' → Forall window_ok ws.
Proof.
  revert pos target; induction ws as [|w ws IH]; intros pos target; [constructor|].
  intros (? & _ & _ & _ & _ & Hws). constructor; eauto.
Qed.

Lemma windows_make_slides full pos target ws pos' target' lo ll :
  windows_make full pos target ws pos' target' → lo <= pos → lo + ll <= pos →
  slides_forward lo ll ws = true.
Proof.
  revert pos target lo ll; induction ws as [|w ws IH]; intros pos target lo ll; [done|].
  intros (Hok & Ho & _ & _ & _ & Hws) Hlo Hll. cbn [slides_forward].
  pose proof (ok_sview _ Hok) as Hsv. apply andb_true_iff; split; [lia|].
  apply (IH _ _ _ _ Hws); lia.
Qed.

Lemma windows_make_recounted full pos target ws pos' target' :
  windows_make full pos target ws pos' target' →
  windows_make full pos target (map recounted ws) pos' target'.
Proof.
  revert pos target; induction ws as [|w ws IH]; intros pos target; [done|].
  intros ([? ? ? ?] & ? & ? & ? & ? & Hws). simpl. split; [by split|].
  do 4 (split; [done|]). by apply IH.
Qed.

Lemma deliver_app {C} (f : window_handler_t C) ws1 ws2 c :
  deliver f (ws1 ++ ws2) c = let! c := deliver f ws1 c in deliver f ws2 c.
Proof.
  revert c; induction ws1 as [|w ws1 IH]; intros c; [done|]. cbn [deliver app].
  destruct (f (Some w) c); [|done..]. apply IH.
Qed.

(** ** Making windows *)

Section Make.
Context `{Apr} (unaligned : bool).

Lemma compute_window_ok source target off :
  blen source <= SVN_DELTA_WINDOW_SIZE → 0 < blen target <= SVN_DELTA_WINDOW_SIZE →
  0 <= off < 0x8000000000000000 →
  ∃ w, compute_window unaligned (source ++ target) (blen source) (blen target) off = Ok w
    ∧ window_ok w ∧ sview_offset w = off ∧ sview_len w = blen source
    ∧ tview_len w = blen target ∧ window_text w source = target.
Proof.
  unfold SVN_DELTA_WINDOW_SIZE. intros Hs Ht Ho. assert (0 <= blen source) by (unfold blen; lia).
  unfold compute_window. destruct (Z.eqb_spec (blen source) 0) as [Hz|Hnz].
  - assert (source = []) as -> by (destruct source; [done|unfold blen in Hz; simpl in Hz; lia]).
    cbn [rbind app]. simpl. rewrite bytes_at_all. eexists. split; [done|].
    split; [|do 3 (split; [done|]); apply bytes_at_all].
    unfold SVN_DELTA_WINDOW_SIZE. split; simpl.
    + split; simpl; [|lia|lia|done]. unfold op_valid. simpl. lia.
    + unfold SVN_DELTA_WINDOW_SIZE. lia.
    + unfold SVN_DELTA_WINDOW_SIZE. lia.
    + done.
  - destruct (compute_delta_ok unaligned source target ltac:(lia) ltac:(lia) ltac:(lia))
      as (bt & Hbt & Hbuilt).
    unfold svn_txdelta__xdelta, guarded. if_true by lia.
    rewrite bytes_at_app, bytes_at_all, bytes_at_middle, bytes_at_all by lia.
    rewrite Hbt. cbn [rbind]. eexists. split; [done|].
    pose proof (built_length source target (blen target) bt Hbuilt) as Hlen.
    destruct Hbuilt as [[Hv Hn _] Htext Hne _ _]. rewrite bytes_at_all in Htext.
    split; [|done]. split; simpl.
    + by split.
    + unfold SVN_DELTA_WINDOW_SIZE. lia.
    + unfold SVN_DELTA_WINDOW_SIZE. lia.
    + done.
Qed.

(** *** Pulling *)

(** A read of a stream that is at [pos] in [full]. *)
Lemma read_at full pos len :
  0 <= pos <= blen full → 0 <= len →
  ∃ buf, svn_stream_read (drop (Z.to_nat pos) full) len
         = (buf, drop (Z.to_nat (pos + blen buf)) full)
  ∧ buf = bytes_at pos (blen buf) full
  ∧ 0 <= blen buf <= len ∧ pos + blen buf <= blen full ∧ blen buf = Z.min len (blen full - pos).
Proof.
  intros Hp Hl. unfold svn_stream_read.
  assert (bytes_at 0 len (drop (Z.to_nat pos) full) = bytes_at pos len full) as ->.
  { unfold bytes_at. by rewrite drop_0. }
  assert (Hb : blen (bytes_at pos len full) = Z.min len (blen full - pos)).
  { unfold bytes_at, blen in *. rewrite length_take, length_drop. lia. }
  exists (bytes_at pos len full). rewrite Hb. split; [f_equal|split; [|lia]].
  2: { unfold bytes_at, blen in *. destruct (Z.min_spec len (Z.of_nat (length full) - pos))
      as [[? ->]|[? ->]]; [done|]. rewrite !take_ge; [done|rewrite length_drop; lia..]. }
  - rewrite drop_drop. destruct (Z.min_spec len (blen full - pos)) as [[? ->]|[? ->]].
    + f_equal. lia.
    + unfold blen in *. rewrite !drop_ge; [done|lia..].
Qed.

(** The source of the windows is at [pos]. *)
Definition pulls (full : list byte) (pos : Z) (tb : txdelta_baton) : Prop :=
  0 <= pos <= blen full ∧ td_source tb = drop (Z.to_nat pos) full ∧ td_pos tb = pos.

Definition context_after (tb : txdelta_baton) (text : list byte) : option checksum_ctx :=
  (λ k, checksum_update k text) <$> context tb.

Lemma next_window_ok full pos tb :
  blen full < 0x8000000000000000 → pulls full pos tb →
  ∃ tb' pos',
    pulls full pos' tb'
    ∧ match td_target tb with
      | [] =>
          txdelta_next_window unaligned tb = Ok (None, tb') ∧ more tb' = false
          ∧ context tb' = context tb
          ∧ checksum tb' = (match context tb with
                            | Some k => Some (checksum_final k) | None => checksum tb end)
      | _ =>
          ∃ w, txdelta_next_window unaligned tb = Ok (Some w, tb')
            ∧ windows_make full pos (td_target tb) [w] pos' (td_target tb')
            ∧ (length (td_target tb') < length (td_target tb))%nat
            ∧ (∃ text, td_target tb = text ++ td_target tb'
                       ∧ context tb' = context_after tb text)
            ∧ checksum tb' = checksum tb
      end.
Proof.
  intros Hfull (Hpos & Hsrc & Htp). unfold txdelta_next_window.
  set (rd := if more_source tb then _ else _).
  assert (∃ s ms, rd = (s, drop (Z.to_nat (pos + blen s)) full, ms)
    ∧ s = bytes_at pos (blen s) full ∧ 0 <= blen s <= SVN_DELTA_WINDOW_SIZE
    ∧ pos + blen s <= blen full) as (s & ms & -> & Hs & Hsl & Hsp).
  { unfold rd. rewrite Hsrc. destruct (more_source tb).
    - destruct (read_at full pos SVN_DELTA_WINDOW_SIZE Hpos)
        as (buf & -> & Hb & Hbl & Hbp & _); [done|]. by exists buf, (blen buf =? SVN_DELTA_WINDOW_SIZE).
    - exists [], false. change (blen []) with 0. rewrite Z.add_0_r.
      split; [done|]. split; [done|]. split; [done|lia]. }
  set (tgt := td_target tb). unfold svn_stream_read.
  assert (Htl : blen (bytes_at 0 SVN_DELTA_WINDOW_SIZE tgt)
    = Z.min SVN_DELTA_WINDOW_SIZE (blen tgt)).
  { unfold bytes_at, blen, SVN_DELTA_WINDOW_SIZE. rewrite length_take, length_drop. lia. }
  rewrite Htp. replace (pos + blen s - blen s) with pos by lia.
  destruct tgt as [|c tgt'] eqn:Htgt.
  - change (blen []) with 0 in Htl. rewrite Htl. if_true by done.
    eexists (MkTxdelta _ _ _ _ _ _ _), (pos + blen s).
    split; [split; [lia|by split]|]. by split.
  - assert (0 < blen (c :: tgt')) by (unfold blen; simpl; lia).
    if_false by (unfold SVN_DELTA_WINDOW_SIZE in *; lia).
    rewrite <- Htgt in *. set (t := bytes_at 0 SVN_DELTA_WINDOW_SIZE tgt) in *.
    destruct (compute_window_ok s t pos) as (w & -> & Hok & Ho & Hl & Ht & Htext); [lia|
      unfold SVN_DELTA_WINDOW_SIZE in *; lia|lia|].
    cbn [rbind]. eexists (MkTxdelta _ _ _ _ _ _ _), (pos + blen s).
    split; [split; [lia|by split]|].
    cbn [td_target context checksum]. exists w. split; [done|].
    assert (Htt : t = bytes_at 0 (blen t) tgt).
    { unfold t at 1, bytes_at. rewrite Htl. destruct (Z.min_spec SVN_DELTA_WINDOW_SIZE (blen tgt))
        as [[? ->]|[? ->]]; [done|]. unfold blen in *. rewrite !take_ge; [done|..];
        rewrite length_drop; lia. }
    assert (Hdrop : drop (Z.to_nat SVN_DELTA_WINDOW_SIZE) tgt = drop (Z.to_nat (blen t)) tgt).
    { rewrite Htl. destruct (Z.min_spec SVN_DELTA_WINDOW_SIZE (blen tgt)) as [[? ->]|[? ->]];
        [done|]. unfold blen in *. rewrite !drop_ge; [done|lia..]. }
    split; [|split; [|split; [|done]]].
    + simpl. rewrite Hl, Ht, <- Hs, Hdrop.
      split; [done|]. split; [done|]. split; [lia|].
      split; [unfold SVN_DELTA_WINDOW_SIZE in *; lia|]. split; [congruence|done].
    + rewrite length_drop. unfold blen, SVN_DELTA_WINDOW_SIZE in *. lia.
    + exists t. split; [|done]. rewrite Hdrop. rewrite Htt at 1. unfold bytes_at.
      by rewrite drop_0, take_drop.
Qed.

(** A handler with the cancellation function called behind it. *)
Definition cancellable {C} (handler : window_handler_t C) (cancel_func : option (C → result C))
    : window_handler_t C :=
  λ w c, let! c := handler w c in match cancel_func with Some f => f c | None => Ok c end.

Lemma run_loop_ok full fuel pos tb :
  blen full < 0x8000000000000000 → pulls full pos tb → (length (td_target tb) <= fuel)%nat →
  ∃ ws tb' pos',
    windows_make full pos (td_target tb) ws pos' []
    ∧ checksum tb' = (match context_after tb (td_target tb) with
                      | Some k => Some (checksum_final k) | None => checksum tb end)
    ∧ ∀ (C : Type) (handler : window_handler_t C) cancel_func c,
        run_loop unaligned handler cancel_func fuel tb c
        = let! c := deliver (cancellable handler cancel_func) ws c in
          let! c := cancellable handler cancel_func None c in Ok (tb', c).
Proof.
  intros Hfull. revert pos tb; induction fuel as [|fuel IH]; intros pos tb Hp Hf;
    destruct (next_window_ok full pos tb Hfull Hp) as (tb1 & pos1 & Hp1 & Hnext);
    destruct (td_target tb) as [|x tgt] eqn:Htgt.
  1, 3: destruct Hnext as (Hnext & _ & Hctx & Hck); exists [], tb1, pos; split; [done|];
    split; [unfold context_after; rewrite Hck; destruct (context tb); simpl; [|done];
            by rewrite checksum_update_nil|];
    intros C handler cancel_func c; cbn [run_loop deliver]; rewrite Hnext; cbn [rbind];
    unfold cancellable; destruct (handler None c); [|done..]; cbn [rbind]; by case_match.
  { simpl in Hf. lia. }
  destruct Hnext as (w & Hnext & Hmake & Hlen & (text & Htext & Hctx) & Hck).
  rewrite <- Htgt in *.
  destruct (IH pos1 tb1 Hp1) as (ws & tb' & pos' & Hws & Hcks & Hrun); [lia|].
  exists (w :: ws), tb', pos'. split.
  { apply (windows_make_app full pos (td_target tb) [w] pos1 (td_target tb1)); done. }
  split.
  { rewrite Hcks, Hck, Htext. unfold context_after in *. rewrite Hctx.
    destruct (context tb); simpl; [|done]. by rewrite checksum_update_app. }
  intros C handler cancel_func c. cbn [run_loop deliver]. rewrite Hnext. cbn [rbind].
  unfold cancellable at 1. destruct (handler (Some w) c) as [c1| | | |]; [|done..].
  cbn [rbind].
  destruct (match cancel_func with Some f => f c1 | None => Ok c1 end) as [c2| | | |];
    [|done..].
  cbn [rbind]. apply Hrun.
Qed.

(** [svn_txdelta_run] hands the handler windows that make the target. *)
Lemma run_ok source target want :
  blen source < 0x8000000000000000 →
  ∃ ws pos',
    windows_make source 0 target ws pos' []
    ∧ ∀ (C : Type) (handler : window_handler_t C) cancel_func (c : C),
        svn_txdelta_run unaligned handler cancel_func source target want c
        = let! c := deliver (cancellable handler cancel_func) ws c in
          let! c := cancellable handler cancel_func None c in
          Ok (if want then Some (checksum_final (checksum_update checksum_ctx_create target))
              else None, c).
Proof.
  intros Hs.
  destruct (run_loop_ok source (length target) 0 (new_txdelta source target want) Hs)
    as (ws & tb' & pos' & Hws & Hck & Hrun); [split; [unfold blen; lia|by rewrite drop_0]|done|].
  exists ws, pos'. split; [done|]. intros C handler cancel_func c.
  unfold svn_txdelta_run. rewrite Hrun.
  destruct (deliver _ ws c) as [c1| | | |]; [|done..]. cbn [rbind].
  destruct (cancellable handler cancel_func None c1); [|done..]. cbn [rbind].
  rewrite Hck. by destruct want.
Qed.

(** *** Pushing *)

Section Push.
Context {C : Type} (wh : window_handler_t C) (full : list byte).
Hypothesis Hfull : blen full < 0x8000000000000000.

(** The part of the source that is buffered, and the buffered target. *)
Record pushing (tb : tpush_baton (C := C)) : Prop := {
  p_offset : 0 <= source_offset tb;
  p_range : source_offset tb + blen (source_buf tb) <= blen full;
  p_size : blen (source_buf tb) <= SVN_DELTA_WINDOW_SIZE;
  p_buf : source_buf tb = bytes_at (source_offset tb) (blen (source_buf tb)) full;
  p_rest : tp_source tb = drop (Z.to_nat (source_offset tb + blen (source_buf tb))) full;
  p_target : blen (target_buf tb) < SVN_DELTA_WINDOW_SIZE;
}.

(** The window of what is buffered. *)
Lemma push_window tb target :
  pushing tb → 0 < blen target <= SVN_DELTA_WINDOW_SIZE →
  ∃ w, compute_window unaligned (source_buf tb ++ target) (blen (source_buf tb)) (blen target)
         (source_offset tb) = Ok w
    ∧ ∀ extra, windows_make full (source_offset tb) (target ++ extra) [w]
        (source_offset tb + blen (source_buf tb)) extra.
Proof.
  intros [Ho Hr Hsz Hb Hrest _] Ht. assert (0 <= blen (source_buf tb)) by (unfold blen; lia).
  destruct (compute_window_ok (source_buf tb) target (source_offset tb) Hsz Ht)
    as (w & Hw & Hok & Hwo & Hwl & Hwt & Htext); [lia|].
  exists w. split; [done|]. intros extra. simpl. rewrite Hwl, Hwt.
  split; [done|]. split; [done|]. split; [done|].
  split; [rewrite blen_app; unfold blen in *; lia|].
  rewrite <- Hb, Htext, bytes_at_app, bytes_at_all by lia. split; [done|].
  unfold blen. by rewrite Nat2Z.id, drop_app_length.
Qed.

(** Filling the source buffer, when it is empty. *)
Definition refilled (tb : tpush_baton (C := C)) : tpush_baton :=
  if (blen (source_buf tb) =? 0) && negb (source_done tb) then
    let '(buf, source) := svn_stream_read (tp_source tb) SVN_DELTA_WINDOW_SIZE in
    MkTpush source (whb tb) buf (target_buf tb) (source_offset tb)
      (if blen buf <? SVN_DELTA_WINDOW_SIZE then true else source_done tb)
  else tb.

Lemma refilled_ok tb :
  pushing tb →
  pushing (refilled tb) ∧ whb (refilled tb) = whb tb ∧ target_buf (refilled tb) = target_buf tb
  ∧ source_offset (refilled tb) = source_offset tb.
Proof.
  intros Hp. unfold refilled. case_if; [|done]. destruct Hp as [Ho Hr Hsz Hb Hrest Ht].
  apply andb_true_iff in Hif as [Hz%Z.eqb_eq _].
  assert (0 <= source_offset tb <= blen full) as Hat by lia.
  rewrite Hrest, Hz, Z.add_0_r. destruct (read_at full (source_offset tb) SVN_DELTA_WINDOW_SIZE)
    as (buf & -> & Hbuf & Hbl & Hbp & _); [done..|].
  split; [|done]. split; simpl; done || lia.
Qed.

Definition with_whb (tb : tpush_baton (C := C)) (c : C) : tpush_baton :=
  MkTpush (tp_source tb) c (source_buf tb) (target_buf tb) (source_offset tb)
    (source_done tb).

Lemma refilled_whb tb c : refilled (with_whb tb c) = with_whb (refilled tb) c.
Proof. unfold refilled. simpl. by case_if. Qed.

Lemma tpush_loop_ok fuel tb data :
  pushing tb → (length data <= fuel)%nat →
  ∃ ws tb',
    pushing tb'
    ∧ windows_make full (source_offset tb) (target_buf tb ++ data) ws (source_offset tb')
        (target_buf tb')
    ∧ ∀ c, tpush_loop unaligned wh fuel (with_whb tb c) data
           = let! c := deliver wh ws c in Ok (with_whb tb' c).
Proof.
  revert tb data; induction fuel as [|fuel IH]; intros tb data Hp Hf; cbn [tpush_loop];
    (destruct (Z.ltb_spec 0 (blen data)) as [Hpos|Hz];
     [|assert (data = []) as -> by (destruct data; [done|unfold blen in Hz; simpl in Hz; lia]);
       exists [], tb; split; [done|]; split; [by rewrite app_nil_r|done]]).
  { unfold blen in Hpos. lia. }
  destruct (refilled_ok tb Hp) as (Hp1 & _ & Ht1 & Ho1).
  assert (Hre : ∀ c, refilled (with_whb tb c) = with_whb (refilled tb) c)
    by apply refilled_whb.
  unfold refilled at 1 in Hre. set (tb1 := refilled tb) in *. rewrite <- Ht1, <- Ho1.
  assert (Htb : 0 <= blen (target_buf tb1) < SVN_DELTA_WINDOW_SIZE)
    by (split; [unfold blen; lia|apply (p_target _ Hp1)]).
  set (room := SVN_DELTA_WINDOW_SIZE - blen (target_buf tb1)).
  set (chunk := if blen data <? room then blen data else room).
  assert (0 < chunk ∧ chunk <= blen data
          ∧ blen (target_buf tb1) + chunk <= SVN_DELTA_WINDOW_SIZE) as (Hch & Hcd & Hcs)
    by (unfold chunk, room; case_if; lia).
  set (target := target_buf tb1 ++ bytes_at 0 chunk data).
  assert (Hbl : blen target = blen (target_buf tb1) + chunk)
    by (unfold target; rewrite blen_app, blen_bytes_at; lia).
  assert (Hsplit : target_buf tb1 ++ data = target ++ drop (Z.to_nat chunk) data).
  { unfold target. rewrite <- app_assoc. f_equal. unfold bytes_at. by rewrite drop_0, take_drop. }
  assert (Hless : (length (drop (Z.to_nat chunk) data) <= fuel)%nat).
  { rewrite length_drop. unfold blen in Hcd. lia. }
  assert (0 <= blen (source_buf tb1)) by (unfold blen; lia). rewrite Hsplit.
  destruct (Z.eqb_spec (blen target) SVN_DELTA_WINDOW_SIZE) as [Hwindow|Hmore].
  - destruct (push_window tb1 target Hp1) as (w & Hw & Hmake); [lia|].
    destruct (IH (MkTpush (tp_source tb1) (whb tb1) [] []
      (source_offset tb1 + blen (source_buf tb1)) (source_done tb1))
      (drop (Z.to_nat chunk) data)) as (ws & tb' & Hp' & Hws & Hl); [|done|].
    { destruct Hp1 as [? ? ? ? ? ?].
      split; simpl; change (blen []) with 0; rewrite ?Z.add_0_r; done || lia. }
    exists (w :: ws), tb'. split; [done|]. split.
    { eapply (windows_make_app _ _ _ [w]); [apply Hmake|exact Hws]. }
    intros c. rewrite Hre. cbn [with_whb whb tp_source source_buf target_buf source_offset
      source_done deliver]. fold room chunk target. rewrite Hwindow, Z.eqb_refl.
    rewrite <- Hwindow, Hw. cbn [rbind].
    destruct (wh (Some w) c) as [c1| | | |]; [|done..]. cbn [rbind]. apply (Hl c1).
  - destruct (IH (MkTpush (tp_source tb1) (whb tb1) (source_buf tb1)
      target (source_offset tb1) (source_done tb1))
      (drop (Z.to_nat chunk) data)) as (ws & tb' & Hp' & Hws & Hl); [|done|].
    { destruct Hp1 as [? ? ? ? ? ?]. split; simpl; done || lia. }
    exists ws, tb'. split; [done|]. split; [exact Hws|].
    intros c. rewrite Hre. cbn [with_whb whb tp_source source_buf target_buf source_offset
      source_done]. fold room chunk target. if_false by lia. apply (Hl c).
Qed.

(** Everything written to the stream, then its end. *)
Fixpoint push_all (chunks : list (list byte)) (tb : tpush_baton) : result C :=
  match chunks with
  | [] => tpush_close_handler unaligned wh tb
  | s :: chunks => let! tb := tpush_write_handler unaligned wh tb s in push_all chunks tb
  end.

Lemma push_all_ok chunks tb :
  pushing tb →
  ∃ ws pos',
    windows_make full (source_offset tb) (target_buf tb ++ concat chunks) ws pos' []
    ∧ ∀ c, push_all chunks (with_whb tb c) = let! c := deliver wh ws c in wh None c.
Proof.
  revert tb; induction chunks as [|s chunks IH]; intros tb Hp.
  - cbn [push_all concat]. rewrite app_nil_r. unfold tpush_close_handler.
    cbn [with_whb whb tp_source source_buf target_buf source_offset source_done].
    destruct (Z.ltb_spec 0 (blen (target_buf tb))) as [Hpos|Hz].
    + pose proof (p_target _ Hp).
      destruct (push_window tb (target_buf tb) Hp) as (w & Hw & Hmake); [lia|].
      exists [w], (source_offset tb + blen (source_buf tb)). split.
      { rewrite <- (app_nil_r (target_buf tb)). apply Hmake. }
      intros c. rewrite Hw. cbn [rbind deliver]. by destruct (wh (Some w) c).
    + exists [], (source_offset tb). split; [|done].
      destruct (target_buf tb); [done|]. unfold blen in Hz. simpl in Hz. lia.
  - destruct (tpush_loop_ok (length s) tb s Hp) as (ws1 & tb1 & Hp1 & Hws1 & Hl1); [done|].
    destruct (IH tb1 Hp1) as (ws2 & pos' & Hws2 & Hl2).
    exists (ws1 ++ ws2), pos'. split.
    + cbn [concat]. rewrite app_assoc.
      eapply windows_make_app; [by apply windows_make_more|done].
    + intros c. cbn [push_all]. unfold tpush_write_handler. rewrite Hl1, deliver_app.
      destruct (deliver wh ws1 c) as [c1| | | |]; [|done..]. cbn [rbind]. apply Hl2.
Qed.
End Push.
End Make.

(** ** Applying windows *)

Section ApplyWindows.
Context `{Apr} (full : list byte).
Hypothesis Hfull : blen full < 0x8000000000000000.

Lemma size_buffer_ok size view :
  0 <= size <= 2 * SVN_DELTA_WINDOW_SIZE → 0 <= view <= SVN_DELTA_WINDOW_SIZE →
  ∃ size', size_buffer size view = Ok size' ∧ view <= size' <= 2 * SVN_DELTA_WINDOW_SIZE
    ∧ size <= size'.
Proof.
  unfold SVN_DELTA_WINDOW_SIZE. intros Hs Hv. unfold size_buffer.
  destruct (Z.ltb_spec size view) as [Hlt|]; [|by exists size; split; [|lia]].
  rewrite u64_small by lia. set (s := if size * 2 <? view then view else size * 2).
  assert (view <= s <= 204800 ∧ size <= s) as [? ?] by (unfold s; case_if; lia).
  unfold guarded. pose proof (align_up s ltac:(lia)). if_true by lia.
  exists s. split; [done|lia].
Qed.

(** The buffered view of the source, and the rest of it. *)
Record applying (ab : apply_baton) : Prop := {
  a_offset : 0 <= sbuf_offset ab;
  a_range : sbuf_offset ab + blen (sbuf ab) <= blen full;
  a_buf : sbuf ab = bytes_at (sbuf_offset ab) (blen (sbuf ab)) full;
  a_source : ap_source ab = drop (Z.to_nat (sbuf_offset ab + blen (sbuf ab))) full;
  a_ssize : blen (sbuf ab) <= sbuf_size ab <= 2 * SVN_DELTA_WINDOW_SIZE;
  a_tsize : 0 <= tbuf_size ab <= 2 * SVN_DELTA_WINDOW_SIZE;
}.

Lemma drop_bytes_at off len n :
  0 <= n <= len → 0 <= off →
  drop (Z.to_nat n) (bytes_at off len full) = bytes_at (off + n) (len - n) full.
Proof.
  intros Hn Ho. unfold bytes_at. rewrite skipn_firstn_comm, drop_drop. f_equal; [lia|].
  f_equal. lia.
Qed.

(** The buffer moved to a view that begins in or just behind the old one. *)
Lemma move_source_buffer_ok w ab :
  applying ab → window_ok w →
  sbuf_offset ab <= sview_offset w <= sbuf_offset ab + blen (sbuf ab) →
  ∃ buf size, move_source_buffer w ab = Ok (buf, size, sview_offset w)
    ∧ buf = bytes_at (sview_offset w) (sbuf_offset ab + blen (sbuf ab) - sview_offset w) full
    ∧ sview_len w <= size <= 2 * SVN_DELTA_WINDOW_SIZE ∧ blen buf <= size.
Proof.
  intros [Ho Hr Hb Hsrc Hss Hts] [_ _ Hsv Hoff] Hin. unfold move_source_buffer.
  assert (0 <= blen (sbuf ab)) by (unfold blen; lia).
  destruct (negb (sview_offset w =? sbuf_offset ab) || (sbuf_size ab <? sview_len w)) eqn:Hmove.
  - destruct (size_buffer_ok (sbuf_size ab) (sview_len w)) as (size & -> & Hsize & Hsize');
      [lia|done|]. cbn [rbind]. rewrite !u64_small by lia.
    destruct (Z.ltb_spec (sview_offset w) (sbuf_offset ab + blen (sbuf ab))) as [Hover|Hend].
    + rewrite ?u64_small by lia. if_true by lia. cbn [rbind]. do 2 eexists. split; [done|].
      rewrite Hb at 1. rewrite drop_bytes_at by lia.
      replace (sbuf_offset ab + (sview_offset w - sbuf_offset ab)) with (sview_offset w) by lia.
      replace (blen (sbuf ab) - (sview_offset w - sbuf_offset ab))
        with (sbuf_offset ab + blen (sbuf ab) - sview_offset w) by lia.
      split; [done|]. split; [lia|]. unfold blen at 1.
      rewrite length_drop. unfold blen in *. lia.
    + cbn [rbind]. do 2 eexists. split; [done|]. split; [|split; [lia|unfold blen; simpl; lia]].
      by replace (sbuf_offset ab + blen (sbuf ab) - sview_offset w) with 0 by lia.
  - apply orb_false_iff in Hmove as [He%negb_false_iff Hsz].
    assert (sview_offset w = sbuf_offset ab) as -> by lia.
    do 2 eexists. split; [done|].
    replace (sbuf_offset ab + blen (sbuf ab) - sbuf_offset ab) with (blen (sbuf ab)) by lia.
    split; [done|lia].
Qed.

Lemma apply_window_ok w ab :
  applying ab → window_ok w →
  sbuf_offset ab <= sview_offset w <= sbuf_offset ab + blen (sbuf ab) →
  sbuf_offset ab + blen (sbuf ab) <= sview_offset w + sview_len w <= blen full →
  ∃ ab', apply_window (Some w) ab = Ok ab' ∧ applying ab'
    ∧ sbuf_offset ab' = sview_offset w ∧ blen (sbuf ab') = sview_len w
    ∧ ap_target ab' = ap_target ab
        ++ window_text w (bytes_at (sview_offset w) (sview_len w) full)
    ∧ ap_target_closed ab' = ap_target_closed ab
    ∧ md5_context ab' = (λ k, checksum_update k
        (window_text w (bytes_at (sview_offset w) (sview_len w) full))) <$> md5_context ab.
Proof.
  intros Hap Hok Hin Hend.
  destruct (move_source_buffer_ok w ab Hap Hok Hin) as (buf & size & Hmove & Hbuf & Hsize & Hbs).
  destruct Hap as [Ho Hr Hb Hsrc Hss Hts]. assert (Hw := Hok).
  destruct Hw as [[Hv Hne Hlen Hnew] Htv Hsv Hoff].
  assert (0 <= blen (sbuf ab)) by (unfold blen; lia).
  assert (Hbl : blen buf = sbuf_offset ab + blen (sbuf ab) - sview_offset w)
    by (rewrite Hbuf; apply blen_bytes_at; lia).
  set (view := bytes_at (sview_offset w) (sview_len w) full).
  assert (Hvl : blen view = sview_len w) by (apply blen_bytes_at; lia).
  assert (Hfill : (if blen buf <? sview_len w then
      let '(more_, source) := svn_stream_read (ap_source ab) (sview_len w - blen buf) in
      if negb (blen more_ =? sview_len w - blen buf) then Error SVN_ERR_INCOMPLETE_DATA
      else Ok (buf ++ more_, source)
    else Ok (buf, ap_source ab))
    = Ok (view, drop (Z.to_nat (sview_offset w + sview_len w)) full)).
  { destruct (Z.ltb_spec (blen buf) (sview_len w)) as [Hshort|Hfit].
    - rewrite Hsrc.
      destruct (read_at full (sbuf_offset ab + blen (sbuf ab)) (sview_len w - blen buf))
        as (more_ & -> & Hmore & _ & _ & Hml); [lia..|].
      rewrite Z.min_l in Hml by lia. if_false by lia.
      f_equal. f_equal; [|f_equal; lia]. rewrite Hmore, Hbuf, Hml.
      replace (sview_len w - blen buf)
        with (sview_offset w + sview_len w - (sbuf_offset ab + blen (sbuf ab))) by lia.
      replace (sbuf_offset ab + blen (sbuf ab))
        with (sview_offset w + (sbuf_offset ab + blen (sbuf ab) - sview_offset w)) at 2 by lia.
      rewrite <- bytes_at_split by lia. unfold view. f_equal. lia.
    - f_equal. f_equal; [|rewrite Hsrc; f_equal; lia]. rewrite Hbuf. unfold view. f_equal. lia. }
  unfold apply_window, guarded. rewrite !u64_small by lia. if_true by lia.
  destruct (size_buffer_ok (tbuf_size ab) (tview_len w) Hts Htv) as (tsize & -> & Htsize & _).
  cbn [rbind]. rewrite Hmove. cbn [rbind]. rewrite Hfill. cbn [rbind].
  unfold svn_txdelta_apply_instructions.
  rewrite apply_ops_ok by (done || lia). cbn [rbind]. rewrite Z.min_id, Z.eqb_refl.
  assert (take (Z.to_nat (tview_len w)) (expand view (new_data w) [] (ops w))
    = window_text w view) as ->.
  { apply take_ge.
    pose proof (expand_length view (new_data w) (sview_len w) ltac:(lia) (ops w) [] Hv) as He.
    change (blen []) with 0 in He. unfold window_text, blen in *. lia. }
  eexists. split; [done|]. split; [|done].
  split; simpl; rewrite ?Hvl; done || lia.
Qed.

(** Windows that fit together, applied one after the other. *)
Lemma apply_windows_ok ws pos target pos' ab :
  windows_make full pos target ws pos' [] → applying ab →
  pos = sbuf_offset ab + blen (sbuf ab) →
  ∃ ab', deliver apply_window ws ab = Ok ab'
    ∧ ap_target ab' = ap_target ab ++ target ∧ ap_target_closed ab' = ap_target_closed ab
    ∧ md5_context ab' = (λ k, checksum_update k target) <$> md5_context ab.
Proof.
  revert pos target ab; induction ws as [|w ws IH]; intros pos target ab.
  { intros [_ ->] _ _. exists ab. split; [done|]. rewrite app_nil_r. split; [done|].
    split; [done|]. destruct (md5_context ab); [|done]. simpl. by rewrite checksum_update_nil. }
  intros (Hok & Ho & Hr & Ht & Htext & Hws) Hap Hpos.
  pose proof (ok_sview _ Hok) as Hsv. assert (0 <= blen (sbuf ab)) by (unfold blen; lia).
  destruct (apply_window_ok w ab Hap Hok) as (ab1 & Hab1 & Hap1 & Ho1 & Hl1 & Ht1 & Hc1 & Hm1);
    [lia|lia|].
  rewrite Ho, Htext in Ht1, Hm1.
  destruct (IH _ _ ab1 Hws Hap1) as (ab' & Hab' & Ht' & Hc' & Hm'); [lia|].
  exists ab'. cbn [deliver]. rewrite Hab1. split; [done|].
  assert (Hsplit : bytes_at 0 (tview_len w) target ++ drop (Z.to_nat (tview_len w)) target = target)
    by (unfold bytes_at; by rewrite drop_0, take_drop).
  split; [by rewrite Ht', Ht1, <- app_assoc, Hsplit|]. split; [congruence|].
  rewrite Hm', Hm1. destruct (md5_context ab); [|done]. simpl.
  by rewrite checksum_update_app, Hsplit.
Qed.

Lemma applying_start want : applying (svn_txdelta_apply full want).
Proof. split; simpl; unfold blen; simpl; done || lia. Qed.

(** What [apply_window] makes of all windows and the end. *)
Lemma apply_all_ok ws target pos' want :
  windows_make full 0 target ws pos' [] →
  ∃ ab,
    (let! ab := deliver apply_window ws (svn_txdelta_apply full want) in apply_window None ab)
    = Ok ab
    ∧ ap_target ab = target ∧ ap_target_closed ab = true
    ∧ result_digest ab = (if want
        then Some (checksum_final (checksum_update checksum_ctx_create target)) else None).
Proof.
  intros Hws.
  destruct (apply_windows_ok ws 0 target pos' (svn_txdelta_apply full want) Hws)
    as (ab & -> & Ht & _ & Hm); [apply applying_start|done|].
  cbn [rbind]. eexists. split; [done|]. simpl. split; [by rewrite Ht|]. split; [done|].
  rewrite Hm. by destruct want.
Qed.
End ApplyWindows.

(** ** From a source and a target to the target *)

Lemma cancellable_none {C} (f : window_handler_t C) ws c :
  deliver (cancellable f None) ws c = deliver f ws c.
Proof.
  revert c; induction ws as [|w ws IH]; intros c; [done|]. cbn [deliver]. unfold cancellable at 1.
  destruct (f (Some w) c); [|done..]. cbn [rbind]. apply IH.
Qed.

(** svn_txdelta_run, feeding the window consumer of svn_txdelta_apply, ends
    and makes it write exactly the target text to its target stream, close
    it, and report the digest of the target when asked to; the checksum
    svn_txdelta_run returns is that of the target as well. *)
Theorem svn_txdelta_run_apply `{Apr} (unaligned : bool) (source target : list byte)
    (want_checksum want_digest : bool) :
  blen source < 0x8000000000000000 →
  let sum := checksum_final (checksum_update checksum_ctx_create target) in
  ∃ ab,
    svn_txdelta_run unaligned apply_window None source target want_checksum
      (svn_txdelta_apply source want_digest)
    = Ok (if want_checksum then Some sum else None, ab)
    ∧ ap_target ab = target ∧ ap_target_closed ab = true
    ∧ result_digest ab = if want_digest then Some sum else None.
Proof.
  intros Hs sum. destruct (run_ok unaligned source target want_checksum Hs)
    as (ws & pos' & Hws & Hrun).
  destruct (apply_all_ok source Hs ws target pos' want_digest Hws) as (ab & Hab & Ht & Hc & Hd).
  exists ab. rewrite Hrun, cancellable_none. split; [|done].
  destruct (deliver apply_window ws _) as [ab1| | | |]; try done. cbn [rbind] in *.
  unfold cancellable. rewrite Hab. done.
Qed.

Lemma deliver_encoder `{Zlib} ws eb :
  (let! eb := deliver window_handler ws eb in window_handler None eb) = encode_stream ws eb.
Proof.
  revert eb; induction ws as [|w ws IH]; intros eb; [done|]. cbn [deliver encode_stream].
  destruct (window_handler (Some w) eb); [|done..]. apply IH.
Qed.

(** C1: End to end: computing the delta of any two texts (up to 2^63 bytes
    of source), encoding it as svndiff of version 0 or 1, parsing that
    stream and applying the parsed windows to the source rebuilds exactly
    the target, and both streams are closed, whichever match scanner is
    compiled in. *)
Theorem svn_txdelta_svndiff_apply `{Apr} `{Zlib} (unaligned : bool) (source target : list byte)
    (svndiff_version level : Z) :
  blen source < 0x8000000000000000 →
  svndiff_version = 0 ∨ (svndiff_version = 1 ∧ compression_works level) →
  ∃ eb ab,
    svn_txdelta_run unaligned window_handler None source target false
      (svn_txdelta_to_svndiff3 svndiff_version level) = Ok (None, eb)
    ∧ output_closed eb = true
    ∧ (let! db := write_handler apply_window
                    (svn_txdelta_parse_svndiff (svn_txdelta_apply source false) true)
                    (output eb) in
       close_handler apply_window db) = Ok ab
    ∧ ap_target ab = target ∧ ap_target_closed ab = true.
Proof.
  intros Hs Hv. destruct (run_ok unaligned source target false Hs) as (ws & pos' & Hws & Hrun).
  pose proof (windows_make_ok _ _ _ _ _ _ Hws) as Hok.
  destruct (svndiff_pipe apply_window (svn_txdelta_apply source false) ws svndiff_version level
    true Hv Hok) as (eb & Henc & Hclosed & Hdec).
  { by apply (windows_make_slides _ _ _ _ _ _ 0 0 Hws). }
  destruct (apply_all_ok source Hs (map recounted ws) target pos' false)
    as (ab & Hab & Ht & Hc & _); [by apply windows_make_recounted|].
  exists eb, ab. rewrite Hrun, cancellable_none, Hdec. rewrite <- deliver_encoder in Henc.
  split; [|done].
  destruct (deliver window_handler ws _) as [eb1| | | |]; try done. cbn [rbind] in *.
  unfold cancellable. by rewrite Henc.
Qed.

(** C32: The push-style delta computation reconstructs the target no matter
    into which chunks the target is split: the applied text is the
    concatenation of the chunks. *)
Theorem svn_txdelta_target_push_apply `{Apr} (unaligned : bool) (source : list byte)
    (chunks : list (list byte)) (want_digest : bool) :
  blen source < 0x8000000000000000 →
  ∃ ab,
    push_all unaligned apply_window chunks
      (svn_txdelta_target_push (svn_txdelta_apply source want_digest) source) = Ok ab
    ∧ ap_target ab = concat chunks ∧ ap_target_closed ab = true.
Proof.
  intros Hs. destruct (push_all_ok unaligned apply_window source Hs chunks
    (svn_txdelta_target_push (svn_txdelta_apply source want_digest) source))
    as (ws & pos' & Hws & Hpush).
  { split; simpl; change (blen []) with 0; try (unfold blen; lia); done. }
  destruct (apply_all_ok source Hs ws (concat chunks) pos' want_digest Hws)
    as (ab & Hab & Ht & Hc & _).
  exists ab. split; [|done]. rewrite <- Hab. apply (Hpush (svn_txdelta_apply source want_digest)).
Qed.

(** C37: apply_window preserves the invariant of the applier (its buffer
    holds the source bytes at its offset, and the stream is read up to the
    end of the buffer): a valid window whose source view starts in the
    buffered view or directly after it, ends at its end or later and lies in
    the source moves the buffer to its own view and appends the text that
    the window denotes over the true source bytes. (A view that starts after
    a gap gets the wrong bytes: apply_window_gap.) *)
Theorem apply_window_spec `{Apr} (full : list byte) (window : svn_txdelta_window_t)
    (ab : apply_baton) :
  blen full < 0x8000000000000000 → applying full ab → window_ok window →
  sbuf_offset ab <= sview_offset window <= sbuf_offset ab + blen (sbuf ab) →
  sbuf_offset ab + blen (sbuf ab) <= sview_offset window + sview_len window <= blen full →
  ∃ ab',
    apply_window (Some window) ab = Ok ab' ∧ applying full ab'
    ∧ sbuf_offset ab' = sview_offset window ∧ blen (sbuf ab') = sview_len window
    ∧ ap_target ab' = ap_target ab
        ++ window_text window (bytes_at (sview_offset window) (sview_len window) full).
Proof.
  intros Hf Hap Hok Hin Hend.
  destruct (apply_window_ok full Hf window ab Hap Hok Hin Hend) as (ab' & ? & ? & ? & ? & ? & _).
  by exists ab'.
Qed.

(** ** Whole texts *)

Section SendStream.
Context `{Apr}.

Lemma text_window_ok text :
  0 < blen text <= SVN_DELTA_WINDOW_SIZE →
  let w := MkWindow 0 0 (blen text) 0 [MkOp svn_txdelta_new 0 (blen text)] text in
  window_ok w ∧ window_text w [] = text.
Proof.
  intros Ht w. split; [|apply bytes_at_all]. unfold SVN_DELTA_WINDOW_SIZE in *.
  split; simpl; unfold SVN_DELTA_WINDOW_SIZE; try lia.
  split; simpl; [|lia|lia|done]. unfold op_valid. simpl. lia.
Qed.

Lemma send_stream_loop_ok {C} (f : window_handler_t C) fuel stream k :
  (length stream <= fuel)%nat →
  ∃ ws, windows_make [] 0 stream ws 0 []
    ∧ ∀ c, send_stream_loop fuel stream f k c
           = let! c := deliver f ws c in Ok ((λ k, checksum_update k stream) <$> k, c).
Proof.
  revert stream k; induction fuel as [|fuel IH]; intros stream k Hf;
    destruct (read_at stream 0 SVN__STREAM_CHUNK_SIZE) as (buf & Hr & Hb & Hbl & _ & Hmin);
    [unfold blen; lia|done| |unfold blen; lia|done|]; rewrite drop_0 in Hr.
  - destruct stream; [|simpl in Hf; lia]. exists []. split; [done|]. intros c.
    cbn [send_stream_loop deliver]. rewrite Hr.
    assert (blen buf = 0) as -> by (rewrite Hmin; done). simpl.
    destruct k; [|done]. simpl. by rewrite checksum_update_nil.
  - destruct (Z.eqb_spec (blen buf) 0) as [Hz|Hnz].
    { assert (stream = []) as ->.
      { destruct stream; [done|]. rewrite Hz in Hmin. unfold SVN__STREAM_CHUNK_SIZE, blen in Hmin.
        simpl in Hmin. lia. }
      exists []. split; [done|]. intros c. cbn [send_stream_loop deliver]. rewrite Hr.
      rewrite Hz. simpl. destruct k; [|done]. simpl. by rewrite checksum_update_nil. }
    assert (Hsplit : stream = buf ++ drop (Z.to_nat (blen buf)) stream).
    { rewrite Hb at 1. unfold bytes_at. by rewrite drop_0, take_drop. }
    rewrite Z.add_0_l in Hr.
    destruct (IH (drop (Z.to_nat (blen buf)) stream) ((λ k, checksum_update k buf) <$> k))
      as (ws & Hws & Hsend).
    { rewrite length_drop. unfold blen in *. lia. }
    destruct (text_window_ok buf) as [Hok Htext].
    { unfold SVN__STREAM_CHUNK_SIZE, SVN_DELTA_WINDOW_SIZE in *. lia. }
    exists (MkWindow 0 0 (blen buf) 0 [MkOp svn_txdelta_new 0 (blen buf)] buf :: ws). split.
    { split; [done|]. split; [done|]. split; [done|].
      split; [cbn [tview_len]; lia|]. split; [|exact Hws].
      change (bytes_at 0 _ []) with (@nil byte). by rewrite Htext. }
    intros c. cbn [send_stream_loop deliver]. rewrite Hr. if_false by lia.
    destruct (f (Some _) c) as [c1| | | |]; [|done..]. cbn [rbind].
    assert (Hk : (λ k, checksum_update k (drop (Z.to_nat (blen buf)) stream)) <$>
        ((λ k, checksum_update k buf) <$> k) = (λ k, checksum_update k stream) <$> k).
    { destruct k; [|done]. simpl. by rewrite checksum_update_app, <- Hsplit. }
    destruct (Z.ltb_spec (blen buf) SVN__STREAM_CHUNK_SIZE) as [Hlast|].
    + assert (Hnil : drop (Z.to_nat (blen buf)) stream = []).
      { apply drop_ge. unfold blen in *. lia. }
      rewrite Hnil in Hws, Hk. destruct ws as [|w ws].
      * cbn [deliver rbind]. rewrite <- Hk. destruct k; [|done]. simpl.
        by rewrite checksum_update_nil.
      * exfalso. destruct Hws as (_ & _ & _ & Hlen & _). change (blen []) with 0 in Hlen. lia.
    + rewrite Hsend, Hk. done.
Qed.
End SendStream.

(** svn_txdelta_send_stream sends windows that rebuild the whole text from
    an empty source, closes the handler, and computes the digest of the text
    when asked to. *)
Theorem svn_txdelta_send_stream_apply `{Apr} (text : list byte) (want_digest : bool) :
  ∃ ab,
    svn_txdelta_send_stream text apply_window want_digest (svn_txdelta_apply [] false)
    = Ok (if want_digest
          then Some (checksum_final (checksum_update checksum_ctx_create text)) else None, ab)
    ∧ ap_target ab = text ∧ ap_target_closed ab = true.
Proof.
  unfold svn_txdelta_send_stream.
  destruct (send_stream_loop_ok apply_window (length text) text
    (if want_digest then Some checksum_ctx_create else None)) as (ws & Hws & Hsend); [done|].
  destruct (apply_all_ok [] ltac:(done) ws text 0 false Hws) as (ab & Hab & Ht & Hc & _).
  exists ab. rewrite Hsend. split; [|done].
  destruct (deliver apply_window ws _) as [ab1| | | |]; try done. cbn [rbind] in *.
  rewrite Hab. cbn [rbind]. by destruct want_digest.
Qed.

(** ** Limits of the code *)

Section Limits.
Context `{Apr}.

Definition copy_window (off len : Z) : svn_txdelta_window_t :=
  MkWindow off len len 1 [MkOp svn_txdelta_source 0 len] [].

Lemma copy_window_ok off len :
  0 <= off < 0x8000000000000000 → 0 < len <= SVN_DELTA_WINDOW_SIZE →
  window_ok (copy_window off len).
Proof.
  intros Ho Hl. split; simpl; [|lia|lia|done].
  split; simpl; [unfold op_valid; simpl|..]; done || lia.
Qed.

(** An empty source view that lies before a non-empty buffer takes
    apply_window to an access outside of the source buffer. *)
Theorem apply_window_out_of_bounds (full : list byte) :
  5 <= blen full < 0x8000000000000000 →
  let windows := [copy_window 0 5; copy_window 3 2;
                  MkWindow 0 0 1 0 [MkOp svn_txdelta_new 0 1] [x61]] in
  Forall window_ok windows ∧ slides_forward 0 0 windows = true
  ∧ deliver apply_window windows (svn_txdelta_apply full false) = Undefined.
Proof.
  intros Hf windows.
  assert (Hok : Forall window_ok windows).
  { repeat constructor; vm_compute; done. }
  split; [done|]. split; [done|]. unfold windows.
  destruct (apply_window_ok full ltac:(lia) (copy_window 0 5) (svn_txdelta_apply full false))
    as (ab1 & Hab1 & Hap1 & Ho1 & Hl1 & _); [apply applying_start|by inversion Hok|done| |].
  { simpl. change (blen []) with 0. lia. }
  destruct (apply_window_ok full ltac:(lia) (copy_window 3 2) ab1 Hap1)
    as (ab2 & Hab2 & Hap2 & Ho2 & Hl2 & _); [|rewrite Ho1, Hl1; simpl; lia..|].
  { apply copy_window_ok; unfold SVN_DELTA_WINDOW_SIZE; lia. }
  cbn [deliver]. rewrite Hab1. cbn [rbind]. rewrite Hab2. cbn [rbind].
  unfold apply_window. cbn [sview_len tview_len Z.eqb orb guarded].
  destruct (size_buffer_ok (tbuf_size ab2) 1) as (ts & -> & _);
    [apply (a_tsize _ _ Hap2)|done|]. cbn [rbind].
  unfold move_source_buffer. cbn [sview_offset sview_len]. rewrite Ho2, Hl2.
  cbn [sview_offset sview_len copy_window Z.eqb negb orb].
  destruct (size_buffer_ok (sbuf_size ab2) 0) as (ss & -> & _).
  { pose proof (a_ssize _ _ Hap2). assert (0 <= blen (sbuf ab2)) by (unfold blen; lia). lia. }
  { done. }
  done.
Qed.

(** When the next view starts after the end of the buffered one, the bytes
    between them are not skipped: the window is applied to the wrong bytes
    of the source. *)
Theorem apply_window_gap :
  let full := String.list_byte_of_string "abcdef" in
  let windows := [copy_window 0 2; copy_window 4 2] in
  Forall window_ok windows ∧ slides_forward 0 0 windows = true
  ∧ ∃ ab, deliver apply_window windows (svn_txdelta_apply full false) = Ok ab
          ∧ ap_target ab = String.list_byte_of_string "abcd".
Proof.
  intros full windows. split; [repeat constructor; vm_compute; done|]. split; [done|].
  destruct (apply_window_ok full ltac:(done) (copy_window 0 2) (svn_txdelta_apply full false))
    as (ab1 & Hab1 & Hap1 & Ho1 & Hl1 & Ht1 & _); [apply applying_start| |done|done|].
  { by apply copy_window_ok. }
  unfold windows. cbn [deliver]. rewrite Hab1. cbn [rbind]. unfold apply_window.
  cbn [sview_offset sview_len tview_len copy_window] in *. rewrite Ho1, Hl1.
  change ((2 =? 0) || ((0 <=? 4) && (u64 (0 + 2) <=? u64 (4 + 2)))) with true.
  cbn [guarded].
  destruct (size_buffer_ok (tbuf_size ab1) 2) as (ts & -> & _);
    [apply (a_tsize _ _ Hap1)|done|]. cbn [rbind].
  unfold move_source_buffer. rewrite Ho1, Hl1.
  cbn [sview_offset sview_len copy_window Z.eqb negb orb].
  destruct (size_buffer_ok (sbuf_size ab1) 2) as (ss & -> & _);
    [pose proof (a_ssize _ _ Hap1); lia|done|].
  rewrite (a_source _ _ Hap1), Ho1, Hl1. eexists. split; [reflexivity|].
  cbn [ap_target]. by rewrite Ht1.
Qed.
End Limits.

(** Sending the empty string through svndiff produces a stream that the
    svndiff parser rejects. *)
Theorem svn_txdelta_send_string_empty `{Zlib} {C} (f : window_handler_t C) (c : C)
    (level : Z) (early_close : bool) :
  ∃ eb,
    svn_txdelta_send_string [] window_handler (svn_txdelta_to_svndiff3 0 level) = Ok eb
    ∧ write_handler f (svn_txdelta_parse_svndiff c early_close) (output eb)
      = Error SVN_ERR_SVNDIFF_INVALID_OPS.
Proof. eexists. split; reflexivity. Qed.

(** ** Examples

    The laws of [Apr] can be met: a "checksum" that keeps the text. *)
Definition text_Apr : Apr.
Proof.
  refine {| checksum_ctx := list byte; digest := list byte; checksum_ctx_create := [];
            checksum_update := app; checksum_final := λ k, k;
            APR_ALIGN_DEFAULT := λ size, size |}.
  - intros. by rewrite app_assoc.
  - intros. apply app_nil_r.
  - intros. apply Z.le_refl.
Defined.

Lemma svn_txdelta_run_apply_witness :
  let _ := text_Apr in
  let sum := checksum_final (checksum_update checksum_ctx_create xdelta_target) in
  ∃ ab,
    svn_txdelta_run true apply_window None xdelta_source xdelta_target true
      (svn_txdelta_apply xdelta_source true)
    = Ok (Some sum, ab)
    ∧ ap_target ab = xdelta_target ∧ ap_target_closed ab = true
    ∧ result_digest ab = Some sum.
Proof.
  apply (@svn_txdelta_run_apply text_Apr true xdelta_source xdelta_target true true).
  reflexivity.
Defined.

Lemma svn_txdelta_svndiff_apply_witness :
  let _ := text_Apr in let _ := Runs.runs_Zlib in
  ∃ eb ab,
    svn_txdelta_run true window_handler None xdelta_source xdelta_target false
      (svn_txdelta_to_svndiff3 1 5) = Ok (None, eb)
    ∧ output_closed eb = true
    ∧ (let! db := write_handler apply_window
                    (svn_txdelta_parse_svndiff (svn_txdelta_apply xdelta_source false) true)
                    (output eb) in
       close_handler apply_window db) = Ok ab
    ∧ ap_target ab = xdelta_target ∧ ap_target_closed ab = true.
Proof.
  apply (@svn_txdelta_svndiff_apply text_Apr Runs.runs_Zlib true xdelta_source xdelta_target 1 5);
    [reflexivity|right; split; [reflexivity|apply Runs.works]].
Defined.

Lemma svn_txdelta_target_push_apply_witness :
  let _ := text_Apr in
  ∃ ab,
    push_all true apply_window [xdelta_target; []; xdelta_target]
      (svn_txdelta_target_push (svn_txdelta_apply xdelta_source true) xdelta_source) = Ok ab
    ∧ ap_target ab = concat [xdelta_target; []; xdelta_target] ∧ ap_target_closed ab = true.
Proof.
  apply (@svn_txdelta_target_push_apply text_Apr true xdelta_source
    [xdelta_target; []; xdelta_target] true). reflexivity.
Defined.

Lemma apply_window_spec_witness :
  let _ := text_Apr in
  let ab := svn_txdelta_apply xdelta_source true in
  ∃ ab',
    apply_window (Some (copy_window 0 5)) ab = Ok ab' ∧ applying xdelta_source ab'
    ∧ sbuf_offset ab' = sview_offset (copy_window 0 5) ∧ blen (sbuf ab') = sview_len (copy_window 0 5)
    ∧ ap_target ab' = ap_target ab
        ++ window_text (copy_window 0 5)
             (bytes_at (sview_offset (copy_window 0 5)) (sview_len (copy_window 0 5)) xdelta_source).
Proof.
  apply (@apply_window_spec text_Apr xdelta_source (copy_window 0 5)
    (@svn_txdelta_apply text_Apr xdelta_source true)).
  - reflexivity.
  - apply applying_start.
  - apply copy_window_ok; vm_compute; split; (reflexivity || discriminate).
  - vm_compute. split; discriminate.
  - vm_compute. split; discriminate.
Defined.
