(* ===== verification/RangeIndex.v ===== *)
(** * The range index of window composition

    [src/subversion/libsvn_delta/compose_delta.c], "Mapping ranges in the source
    stream to ranges in the composed delta": a splay tree of ranges whose nodes
    are also linked into an ordered list.  The nodes live in a store under the
    addresses that the links name; the [left] and [right] links, which no two
    nodes share, are the structure of an inductive tree of addresses. *)
From S2P Require Import Prelude.

(** ** Data *)

Record range_index_node_t := MkNode {
  n_offset : Z;
  n_limit : Z;
  n_target_offset : Z;
  n_prev : option nat;
  n_next : option nat;
}.

Inductive index_tree :=
  | NoTree
  | Tree (left : index_tree) (node : nat) (right : index_tree).

Abbreviation node_store := (gmap nat range_index_node_t) (only parsing).

Record range_index_t := MkRangeIndex {
  nodes : node_store;
  index_root : index_tree;
}.

Implicit Types (store : node_store) (t l r : index_tree) (node : range_index_node_t).

Definition set_prev node (p : option nat) : range_index_node_t :=
  MkNode (n_offset node) (n_limit node) (n_target_offset node) p (n_next node).
Definition set_next node (p : option nat) : range_index_node_t :=
  MkNode (n_offset node) (n_limit node) (n_target_offset node) (n_prev node) p.
Definition set_range node (offset limit target_offset : Z) : range_index_node_t :=
  MkNode offset limit target_offset (n_prev node) (n_next node).

(** Following a pointer. *)
Definition node_at store (id : nat) : result range_index_node_t :=
  from_option Ok Undefined (store !! id).

(** ** Operations *)

Definition create_range_index : range_index_t := MkRangeIndex ∅ NoTree.

(** A block that is not in use; the node's links are null. *)
Definition alloc_range_index_node store (offset limit target_offset : Z)
    : nat * node_store :=
  let id := fresh (dom store) in
  (id, <[id := MkNode offset limit target_offset None None]> store).

Definition free_range_index_node store (id : nat) : result node_store :=
  let! node := node_at store id in
  let! store :=
    match n_next node with
    | Some m => let! x := node_at store m in Ok (<[m := set_prev x (n_prev node)]> store)
    | None => Ok store
    end in
  let! store :=
    match n_prev node with
    | Some m => let! x := node_at store m in Ok (<[m := set_next x (n_next node)]> store)
    | None => Ok store
    end in
  Ok (delete id store).

(** The subtrees that [splay_range_index] hangs below its scratch node: the
    nodes it passed on the left (right), innermost first, each with the subtree
    on its other side. *)
Abbreviation left_spine := (list (index_tree * nat)) (only parsing).
Abbreviation right_spine := (list (nat * index_tree)) (only parsing).

(** The [for] loop: returns the spines and the tree at the [break]. *)
Fixpoint splay_loop store (offset : Z) (lefts : left_spine) (rights : right_spine) t
    : result (left_spine * right_spine * index_tree) :=
  match t with
  | NoTree => Undefined
  | Tree l n r =>
      let! tree := node_at store n in
      if offset <? n_offset tree then
        match l with
        | NoTree => Ok (lefts, rights, t)
        | Tree ll ln lr =>
            let! node := node_at store ln in
            if offset <? n_offset node then
              match ll with
              | NoTree => Ok (lefts, rights, Tree NoTree ln (Tree lr n r))
              | _ => splay_loop store offset lefts ((ln, Tree lr n r) :: rights) ll
              end
            else splay_loop store offset lefts ((n, r) :: rights) l
        end
      else if n_offset tree <? offset then
        match r with
        | NoTree => Ok (lefts, rights, t)
        | Tree rl rn rr =>
            let! node := node_at store rn in
            if n_offset node <? offset then
              match rr with
              | NoTree => Ok (lefts, rights, Tree (Tree l n rl) rn NoTree)
              | _ => splay_loop store offset ((Tree l n rl, rn) :: lefts) rights rr
              end
            else splay_loop store offset ((l, n) :: lefts) rights r
        end
      else Ok (lefts, rights, t)
  end.

(** "Link in the left and right subtrees". *)
Definition link_left (lefts : left_spine) t : index_tree :=
  fold_left (λ t '(l, n), Tree l n t) lefts t.
Definition link_right (rights : right_spine) t : index_tree :=
  fold_left (λ t '(n, r), Tree t n r) rights t.

(** Take the rightmost node out of the tree with root [n]. *)
Fixpoint remove_rightmost l (n : nat) r : index_tree * nat :=
  match r with
  | NoTree => (l, n)
  | Tree rl rn rr => let '(r', m) := remove_rightmost rl rn rr in (Tree l n r', m)
  end.

(** "... put the node with the largest offset where node->offset <= offset at
    the top of the tree". *)
Definition turn_around store (offset : Z) l (n : nat) r : result index_tree :=
  let! tree := node_at store n in
  if offset <? n_offset tree then
    match l with
    | NoTree => Ok (Tree l n r)
    | Tree ll ln NoTree => Ok (Tree ll ln (Tree NoTree n r))
    | Tree ll ln lr =>
        let '(l', m) := remove_rightmost ll ln lr in
        Ok (Tree l' m (Tree NoTree n r))
    end
  else Ok (Tree l n r).

Definition root_is_placed store (offset : Z) t : result bool :=
  match t with
  | NoTree => Undefined
  | Tree l n r =>
      let! tree := node_at store n in
      Ok ((n_offset tree <=? offset)
          || (match l with NoTree => true | _ => false end
              && match n_prev tree with None => true | _ => false end))
  end.

Definition splay_range_index (offset : Z) (ndx : range_index_t) : result range_index_t :=
  let store := nodes ndx in
  match index_root ndx with
  | NoTree => Ok ndx
  | t =>
      let! (lefts, rights, t) := splay_loop store offset [] [] t in
      match t with
      | NoTree => Undefined
      | Tree l n r =>
          let! t := turn_around store offset (link_left lefts l) n (link_right rights r) in
          let! placed := root_is_placed store offset t in
          assert! placed in Ok (MkRangeIndex store t)
      end
  end.

Fixpoint delete_subtree store t : result node_store :=
  match t with
  | NoTree => Ok store
  | Tree l n r =>
      let! store := delete_subtree store l in
      let! store := delete_subtree store r in
      free_range_index_node store n
  end.

(** [clean_tree] from the slot that holds [t] on, [top_offset] being the
    offset of the node above it. *)
Fixpoint clean_slot store (limit top_offset : Z) t : result (node_store * index_tree) :=
  match t with
  | NoTree => Ok (store, NoTree)
  | Tree l n r =>
      let! node := node_at store n in
      let! offset :=
        match r with
        | Tree _ rn _ =>
            let! node := node_at store rn in
            Ok (if n_offset node <? top_offset then n_offset node else top_offset)
        | NoTree => Ok top_offset
        end in
      if (n_limit node <=? limit) || ((n_offset node <? limit) && (offset <? limit)) then
        let! store := delete_subtree store (Tree l n NoTree) in
        clean_slot store limit top_offset r
      else
        let! (store, l) := clean_slot store limit (n_offset node) l in
        Ok (store, Tree l n r)
  end.

(** [clean_tree] for the tree with root [n]. *)
Definition clean_tree store l (n : nat) r (limit : Z) : result range_index_t :=
  let! (store, r) := clean_slot store limit (u64 (limit + 1)) r in
  Ok (MkRangeIndex store (Tree l n r)).

(** "Insert the range to the right of the splayed node", [tree] at [n]. *)
Definition insert_right store (tree : range_index_node_t) l (n : nat) r
    (offset limit target_offset : Z) : result range_index_t :=
  let '(id, store) := alloc_range_index_node store offset limit target_offset in
  let! store :=
    match n_next tree with
    | None => Ok store
    | Some m =>
        let! next := node_at store m in
        Ok (<[m := set_prev next (Some id)]> store)
    end in
  let store :=
    <[id := MkNode offset limit target_offset (Some n) (n_next tree)]>
      (<[n := set_next tree (Some id)]> store) in
  clean_tree store (Tree l n NoTree) id r limit.

(** "Insert the range left of the splayed node", which has no left subtree. *)
Definition insert_left store (tree : range_index_node_t) (n : nat) r
    (offset limit target_offset : Z) : result range_index_t :=
  let '(id, store) := alloc_range_index_node store offset limit target_offset in
  let store :=
    <[id := MkNode offset limit target_offset None (Some n)]>
      (<[n := set_prev tree (Some id)]> store) in
  clean_tree store NoTree id (Tree NoTree n r) limit.

Definition insert_range (offset limit target_offset : Z) (ndx : range_index_t)
    : result range_index_t :=
  let store := nodes ndx in
  match index_root ndx with
  | NoTree =>
      let '(node, store) := alloc_range_index_node store offset limit target_offset in
      Ok (MkRangeIndex store (Tree NoTree node NoTree))
  | Tree l n r =>
      let! tree := node_at store n in
      if (offset =? n_offset tree) && (n_limit tree <? limit) then
        clean_tree (<[n := set_range tree (n_offset tree) limit target_offset]> store)
          l n r limit
      else if (n_offset tree <? offset) && (n_limit tree <? limit) then
        let! insert_range_p :=
          match n_next tree with
          | None => Ok true
          | Some m =>
              let! next := node_at store m in
              Ok ((n_limit tree <? n_offset next) || (n_limit next <? limit))
          end in
        if insert_range_p then
          let! overridden :=
            match n_prev tree with
            | None => Ok false
            | Some m => let! prev := node_at store m in Ok (offset <? n_limit prev)
            end in
          if overridden then
            clean_tree (<[n := set_range tree offset limit target_offset]> store) l n r limit
          else
            insert_right store tree l n r offset limit target_offset
        else Ok ndx
      else if offset <? n_offset tree then
        assert! match l with NoTree => true | _ => false end in
        insert_left store tree n r offset limit target_offset
      else Ok ndx
  end.

(** ** Lists of ranges *)

Inductive range_kind := range_from_source | range_from_target.

(** A [range_list_node_t]; the links are the list's. *)
Record range_list_node_t := MkRangeNode {
  rl_kind : range_kind;
  rl_offset : Z;
  rl_limit : Z;
  rl_target_offset : Z;
}.

(** The loop of [build_range_list], [node] being the current node. *)
Fixpoint build_range_loop (fuel : nat) store (range_list : list range_list_node_t)
    (offset limit : Z) (node : option nat) : result (list range_list_node_t) :=
  if offset <? limit then
    match fuel with
    | O => OutOfFuel
    | S fuel =>
        match node with
        | None => Ok (range_list ++ [MkRangeNode range_from_source offset limit 0])
        | Some id =>
            let! x := node_at store id in
            if offset <? n_offset x then
              if limit <=? n_offset x
              then Ok (range_list ++ [MkRangeNode range_from_source offset limit 0])
              else
                build_range_loop fuel store
                  (range_list ++ [MkRangeNode range_from_source offset (n_offset x) 0])
                  (n_offset x) limit node
            else if n_limit x <=? offset then
              build_range_loop fuel store range_list offset limit (n_next x)
            else
              let target_offset := offset - n_offset x + n_target_offset x in
              if limit <=? n_limit x
              then Ok (range_list ++ [MkRangeNode range_from_target offset limit target_offset])
              else
                build_range_loop fuel store
                  (range_list
                     ++ [MkRangeNode range_from_target offset (n_limit x) target_offset])
                  (n_limit x) limit (n_next x)
        end
    end
  else Aborted.

(** Two rounds for each node, and a last one. *)
Definition build_range_list (offset limit : Z) (ndx : range_index_t)
    : result (list range_list_node_t) :=
  build_range_loop (S (2 * size (nodes ndx))) (nodes ndx) [] offset limit
    match index_root ndx with NoTree => None | Tree _ n _ => Some n end.
