(* ===== verification/RangeIndexCorrect.v ===== *)
(** * The range index: its tree and its links

    The [prev] and [next] links of the nodes follow the in-order sequence of the
    tree, through every insertion and removal. *)
From S2P Require Import Prelude RangeIndex.

Implicit Types (store : node_store) (t l r : index_tree) (node : range_index_node_t).

(** ** In-order sequences *)

(** Equality of sequences up to the association of [++]. *)
#[local] Ltac flat_inorder := simpl; do 4 (rewrite <- ?app_assoc; simpl); done.

Fixpoint inorder t : list nat :=
  match t with NoTree => [] | Tree l n r => inorder l ++ n :: inorder r end.

Fixpoint inorder_left (lefts : list (index_tree * nat)) : list nat :=
  match lefts with [] => [] | (l, n) :: lefts => inorder_left lefts ++ inorder l ++ [n] end.

Fixpoint inorder_right (rights : list (nat * index_tree)) : list nat :=
  match rights with [] => [] | (n, r) :: rights => n :: inorder r ++ inorder_right rights end.

Lemma inorder_link_left lefts t : inorder (link_left lefts t) = inorder_left lefts ++ inorder t.
Proof.
  revert t; induction lefts as [|[l n] lefts IH]; intros t; simpl; [done|].
  unfold link_left in IH. rewrite IH. flat_inorder.
Qed.

Lemma inorder_link_right rights t :
  inorder (link_right rights t) = inorder t ++ inorder_right rights.
Proof.
  revert t; induction rights as [|[n r] rights IH]; intros t; simpl; [by rewrite app_nil_r|].
  unfold link_right in IH. rewrite IH. simpl. by rewrite <- app_assoc.
Qed.

Lemma inorder_remove_rightmost l n r :
  let '(t, m) := remove_rightmost l n r in inorder t ++ [m] = inorder (Tree l n r).
Proof.
  revert l n; induction r as [|rl IHl rn rr IHr]; intros l n; simpl; [done|].
  specialize (IHr rl rn). destruct (remove_rightmost rl rn rr) as [t m]. simpl in *.
  by rewrite <- IHr, <- app_assoc.
Qed.

(** ** Offsets of addresses *)

Definition off store (id : nat) : Z := from_option n_offset 0 (store !! id).

Definition present store (seq : list nat) : Prop := ∀ id, id ∈ seq → is_Some (store !! id).

Definition ordered store : list nat → Prop :=
  StronglySorted (λ a b, off store a < off store b).

Lemma node_at_present store seq id :
  present store seq → id ∈ seq →
  ∃ node, node_at store id = Ok node ∧ store !! id = Some node ∧ n_offset node = off store id.
Proof.
  intros Hp Hid. destruct (Hp id Hid) as [node Hn]. exists node.
  unfold node_at, off. by rewrite Hn.
Qed.

Lemma present_app store s1 s2 : present store (s1 ++ s2) ↔ present store s1 ∧ present store s2.
Proof.
  split.
  - intros Hp. split; intros id Hid; apply Hp; set_solver.
  - intros [H1 H2] id [?|?]%elem_of_app; auto.
Qed.

Lemma present_cons store id seq : present store (id :: seq) ↔ is_Some (store !! id) ∧ present store seq.
Proof.
  split.
  - intros Hp. split; [apply Hp; set_solver|]. intros ??. apply Hp. set_solver.
  - intros [H1 H2] id' [->|?]%elem_of_cons; auto.
Qed.

Lemma ordered_app store s1 s2 :
  ordered store (s1 ++ s2)
  ↔ (∀ a b, a ∈ s1 → b ∈ s2 → off store a < off store b) ∧ ordered store s1 ∧ ordered store s2.
Proof. apply StronglySorted_app. Qed.

Lemma ordered_cons store id seq :
  ordered store (id :: seq) ↔ (∀ b, b ∈ seq → off store id < off store b) ∧ ordered store seq.
Proof.
  unfold ordered. split.
  - inversion 1 as [|? ? Hs Hf]; subst. split; [|done]. by apply Forall_forall.
  - intros [H1 H2]. constructor; [done|]. by apply Forall_forall.
Qed.

(** ** Splaying *)

Section Splay.
Context store (offset : Z).

(** Where the loop stops. *)
Definition stops l (n : nat) r : Prop :=
  (offset < off store n ∧ l = NoTree)
  ∨ (off store n < offset ∧ r = NoTree)
  ∨ off store n = offset.

(** What it has passed lies to either side of the key. *)
Definition passed (lefts : list (index_tree * nat)) (rights : list (nat * index_tree)) : Prop :=
  (∀ id, id ∈ inorder_left lefts → off store id < offset)
  ∧ (∀ id, id ∈ inorder_right rights → offset < off store id).

Lemma passed_left lefts rights l n :
  passed lefts rights → off store n < offset → ordered store (inorder l ++ [n]) →
  passed ((l, n) :: lefts) rights.
Proof.
  intros [Hl Hr] Hn Ho. split; [|done]. simpl. apply ordered_app in Ho as (Ho & _ & _).
  intros id. rewrite !elem_of_app, list_elem_of_singleton. intros [?|[Hid| ->]]; [auto| |done].
  specialize (Ho id n Hid). set_solver by lia.
Qed.

Lemma passed_right lefts rights r n :
  passed lefts rights → offset < off store n → ordered store (n :: inorder r) →
  passed lefts ((n, r) :: rights).
Proof.
  intros [Hl Hr] Hn Ho. split; [done|]. simpl. apply ordered_cons in Ho as (Ho & _).
  intros id. rewrite elem_of_cons, elem_of_app. intros [-> |[Hid|?]]; [done| |auto].
  specialize (Ho id Hid). lia.
Qed.

Definition splayed lefts rights t (out : result (list (index_tree * nat) * list (nat * index_tree) * index_tree)) : Prop :=
  ∃ lefts' rights' l n r,
    out = Ok (lefts', rights', Tree l n r)
    ∧ inorder_left lefts' ++ inorder (Tree l n r) ++ inorder_right rights'
      = inorder_left lefts ++ inorder t ++ inorder_right rights
    ∧ stops l n r ∧ passed lefts' rights'.

Lemma splay_loop_ok t lefts rights :
  t ≠ NoTree → present store (inorder t) → ordered store (inorder t) → passed lefts rights →
  splayed lefts rights t (splay_loop store offset lefts rights t).
Proof.
  revert lefts rights. 
  assert (∀ k t lefts rights, (length (inorder t) < k)%nat →
    t ≠ NoTree → present store (inorder t) → ordered store (inorder t) → passed lefts rights →
    splayed lefts rights t (splay_loop store offset lefts rights t)) as Hk;
    [|by intros lefts rights; apply (Hk (S (length (inorder t)))); lia].
  clear t. induction k as [|k IH]; intros t lefts rights Hsize Hne Hp Ho Hpass; [lia|].
  destruct t as [|l n r]; [done|]. cbn [inorder] in Hp, Ho, Hsize. rewrite length_app in Hsize.
  cbn [length] in Hsize.
  destruct (node_at_present store _ n Hp) as (tree & Hat & _ & Hoff); [set_solver|].
  cbn [splay_loop]. rewrite Hat. cbn [rbind]. rewrite Hoff.
  apply present_app in Hp as [Hpl [_ Hpr]%present_cons].
  assert (Ho' := Ho). apply ordered_app in Ho' as (Hln & Hol & Hnr).
  assert (Hstop : stops l n r → splayed lefts rights (Tree l n r) (Ok (lefts, rights, Tree l n r)))
    by (intros Hs; by exists lefts, rights, l, n, r).
  assert (Hsub : ∀ lefts' rights' t',
    (length (inorder t') < k)%nat → t' ≠ NoTree → present store (inorder t') →
    ordered store (inorder t') → passed lefts' rights' →
    inorder_left lefts' ++ inorder t' ++ inorder_right rights'
    = inorder_left lefts ++ inorder (Tree l n r) ++ inorder_right rights →
    splayed lefts rights (Tree l n r) (splay_loop store offset lefts' rights' t')).
  { intros lefts' rights' t' H1 H2 H3 H4 H5 H6.
    destruct (IH t' lefts' rights' H1 H2 H3 H4 H5) as (a & b & c & d & e & -> & Hseq & Hrest).
    exists a, b, c, d, e. by rewrite Hseq. }
  destruct (Z.ltb_spec offset (off store n)) as [Hlt|Hge].
  - destruct l as [|ll ln lr]; [apply Hstop; by left|].
    assert (Hpass' : passed lefts ((n, r) :: rights)) by by apply passed_right.
    destruct (node_at_present store _ ln Hpl) as (node & Hat' & _ & Hoff'); [set_solver|].
    cbv beta iota. rewrite Hat'. cbn [rbind]. rewrite Hoff'.
    destruct (Z.ltb_spec offset (off store ln)) as [Hlt'|Hge'].
    + cbn [inorder] in Hsize, Hpl, Ho. rewrite length_app in Hsize. cbn [length] in Hsize.
      assert (passed lefts ((ln, Tree lr n r) :: rights)).
      { apply passed_right; [done..|]. cbn [inorder]. rewrite <- app_assoc in Ho.
        by apply ordered_app in Ho as (_ & _ & Ho). }
      apply present_app in Hpl as [Hpll _]. apply ordered_app in Hol as (_ & Holl & _).
      destruct ll as [|lll lln llr].
      * exists lefts, rights, NoTree, ln, (Tree lr n r). split; [done|].
        split; [flat_inorder|]. split; [by left|done].
      * apply Hsub; [lia|done..|]. flat_inorder.
    + apply Hsub; [lia|done..|]. flat_inorder.
  - destruct (Z.ltb_spec (off store n) offset) as [Hgt|Heq]; [|apply Hstop; right; right; lia].
    destruct r as [|rl rn rr]; [apply Hstop; right; by left|].
    assert (Hon : ordered store (inorder l ++ [n])).
    { change (n :: inorder (Tree rl rn rr)) with ([n] ++ inorder (Tree rl rn rr)) in Ho.
      rewrite app_assoc in Ho. by apply ordered_app in Ho as (_ & Ho & _). }
    assert (Hpass' : passed ((l, n) :: lefts) rights) by by apply passed_left.
    apply ordered_cons in Hnr as [Hnr Hor].
    destruct (node_at_present store _ rn Hpr) as (node & Hat' & _ & Hoff'); [set_solver|].
    cbv beta iota. rewrite Hat'. cbn [rbind]. rewrite Hoff'.
    destruct (Z.ltb_spec (off store rn) offset) as [Hgt'|Hle'].
    + cbn [inorder] in Hsize, Hpr, Ho. rewrite length_app in Hsize. cbn [length] in Hsize.
      assert (passed ((Tree l n rl, rn) :: lefts) rights).
      { apply passed_left; [done..|]. cbn [inorder].
        replace (inorder l ++ n :: inorder rl ++ rn :: inorder rr)
          with (((inorder l ++ n :: inorder rl) ++ [rn]) ++ inorder rr) in Ho
          by (by rewrite <- !app_assoc).
        by apply ordered_app in Ho as (_ & Ho & _). }
      apply present_app in Hpr as [_ [_ Hprr]%present_cons].
      apply ordered_app in Hor as (_ & _ & [_ Horr]%ordered_cons).
      destruct rr as [|rrl rrn rrr].
      * exists lefts, rights, (Tree l n rl), rn, NoTree. split; [done|].
        split; [flat_inorder|]. split; [right; by left|done].
      * apply Hsub; [lia|done..|]. flat_inorder.
    + apply Hsub; [lia|done..|]. flat_inorder.
Qed.

(** The promise of [splay_range_index]: the root is the last node whose offset
    does not exceed the key, or the first of all. *)
Definition placed t : Prop :=
  match t with
  | NoTree => True
  | Tree l n r =>
      (∀ id, id ∈ inorder r → offset < off store id)
      ∧ (off store n <= offset ∨ (offset < off store n ∧ l = NoTree))
  end.

Lemma turn_around_ok l n r :
  present store (inorder (Tree l n r)) → ordered store (inorder (Tree l n r)) →
  (∀ id, id ∈ inorder r → offset < off store id) →
  (offset < off store n → ∀ id, id ∈ inorder l → off store id < offset) →
  ∃ t, turn_around store offset l n r = Ok t ∧ inorder t = inorder (Tree l n r)
       ∧ placed t ∧ t ≠ NoTree.
Proof.
  intros Hp Ho Hr Hl. unfold turn_around.
  destruct (node_at_present store _ n Hp) as (tree & -> & _ & Hoff); [simpl; set_solver|].
  cbn [rbind]. rewrite Hoff. destruct (Z.ltb_spec offset (off store n)) as [Hlt|Hge].
  2:{ eexists. split; [done|]. split; [done|]. split; [split; [done|by left]|done]. }
  specialize (Hl Hlt). cbn [inorder] in Ho. apply ordered_app in Ho as (_ & _ & [Hn _]%ordered_cons).
  assert (Hright : ∀ id, id ∈ n :: inorder r → offset < off store id).
  { intros id [->|Hid]%elem_of_cons; [done|]. by apply Hr. }
  destruct l as [|ll ln lr].
  { eexists. split; [done|]. split; [done|]. split; [split; [done|by right]|done]. }
  pose proof (inorder_remove_rightmost ll ln lr) as Hrm. revert Hrm.
  destruct lr as [|lrl lrn lrr].
  - intros _. eexists. split; [done|]. split; [flat_inorder|].
    split; [|done]. split; [done|]. left. apply Z.lt_le_incl, Hl. simpl. set_solver.
  - destruct (remove_rightmost ll ln (Tree lrl lrn lrr)) as [l' m]. intros Hrm.
    eexists. split; [done|]. cbn [inorder app] in *.
    split; [by rewrite <- Hrm, <- app_assoc|]. split; [|done]. split; [done|].
    left. apply Z.lt_le_incl, Hl. rewrite <- Hrm. set_solver.
Qed.
End Splay.

(** ** Properties of the range index: the list through the tree *)

Implicit Types (seq : list nat).

(** ** Linked sequences *)

Record linked store seq : Prop := {
  linked_nodup : NoDup seq;
  linked_nodes s1 id s2 :
    seq = s1 ++ id :: s2 →
    ∃ node, store !! id = Some node ∧ n_prev node = last s1 ∧ n_next node = head s2;
}.

Definition payload node : Z * Z * Z := (n_offset node, n_limit node, n_target_offset node).

(** [store'] has nodes of [store] only, with other links at most. *)
Definition subset_of store' store : Prop :=
  ∀ id node', store' !! id = Some node' →
    ∃ node, store !! id = Some node ∧ payload node = payload node'.

Lemma subset_of_refl store : subset_of store store.
Proof. intros id node Hn. by exists node. Qed.

Lemma subset_of_trans store1 store2 store3 :
  subset_of store1 store2 → subset_of store2 store3 → subset_of store1 store3.
Proof.
  intros H12 H23 id node1 (node2 & H2 & Hp2)%H12.
  apply H23 in H2 as (node3 & H3 & Hp3). exists node3. by rewrite Hp3.
Qed.

Lemma subset_of_off store' store id :
  subset_of store' store → is_Some (store' !! id) → off store' id = off store id.
Proof.
  intros Hs [node' Hn']. destruct (Hs _ _ Hn') as (node & Hn & Hp).
  unfold off. rewrite Hn, Hn'. simpl. by injection Hp.
Qed.

Lemma linked_present store seq : linked store seq → present store seq.
Proof.
  intros [_ Hl] id (s1 & s2 & ->)%list_elem_of_split.
  destruct (Hl s1 id s2 eq_refl) as (node & Hn & _). eauto.
Qed.

Lemma ordered_subset store store' seq seq' :
  subset_of store' store → present store' seq' → seq' `sublist_of` seq →
  ordered store seq → ordered store' seq'.
Proof.
  intros Hs Hp Hsub. revert seq' Hp Hsub. unfold ordered.
  induction seq as [|id seq IH]; intros seq' Hp Hsub Ho.
  { apply sublist_nil_r in Hsub as ->. constructor. }
  apply ordered_cons in Ho as [Hid Ho]. inversion Hsub as [|? seq'' ? Hsub'|? ? ? Hsub']; subst.
  - apply present_cons in Hp as [Hp1 Hp2]. apply ordered_cons. split; [|by apply IH].
    intros b Hb. rewrite !(subset_of_off store' store) by auto. apply Hid.
    by eapply elem_of_sublist.
  - by apply IH.
Qed.

(** Updates that leave the links of a sequence alone. *)
Lemma linked_data store seq id node node' :
  linked store seq → store !! id = Some node →
  n_prev node' = n_prev node → n_next node' = n_next node →
  linked (<[id := node']> store) seq.
Proof.
  intros [Hnd Hl] Hn Hp Hx. split; [done|]. intros s1 id' s2 Hseq.
  destruct (Hl _ _ _ Hseq) as (x & Hx' & Hp' & Hn').
  destruct (decide (id = id')) as [->|Hne].
  - rewrite lookup_insert_eq. exists node'. rewrite Hn in Hx'. injection Hx' as ->.
    by rewrite Hp, Hx.
  - rewrite lookup_insert_ne by done. eauto.
Qed.

(** ** Removal *)

Lemma last_in {A} (s : list A) x : last s = Some x → x ∈ s.
Proof. intros [s' ->]%last_Some. set_solver. Qed.

(** An element of a concatenation is in one part. *)
Lemma app_split {A} (s1 s2 t1 t2 : list A) m :
  s1 ++ s2 = t1 ++ m :: t2 →
  (∃ u, s1 = t1 ++ m :: u ∧ t2 = u ++ s2) ∨ (∃ u, t1 = s1 ++ u ∧ s2 = u ++ m :: t2).
Proof.
  intros [(u & -> & Hu)|(u & -> & ->)]%app_eq_inv; [|eauto].
  destruct u as [|b u]; simpl in Hu; [right; exists []; by rewrite !app_nil_r|].
  injection Hu as <- ->. eauto.
Qed.

Lemma head_in {A} (s : list A) x : head s = Some x → x ∈ s.
Proof. destruct s; [done|]. intros [= ->]. by left. Qed.

(** A node once its neighbour [id] is gone. *)
Definition unlinked (prev next : option nat) (id : nat) node : range_index_node_t :=
  MkNode (n_offset node) (n_limit node) (n_target_offset node)
    (if bool_decide (next = Some id) then prev else n_prev node)
    (if bool_decide (prev = Some id) then next else n_next node).

Lemma free_node_store store id node :
  store !! id = Some node →
  n_prev node ≠ Some id → n_next node ≠ Some id →
  (∀ m, n_prev node = Some m → is_Some (store !! m)) →
  (∀ m, n_next node = Some m → is_Some (store !! m)) →
  (∀ m, n_prev node = Some m → n_next node ≠ Some m) →
  ∃ store', free_range_index_node store id = Ok store'
    ∧ store' !! id = None
    ∧ ∀ m, m ≠ id → store' !! m = unlinked (n_prev node) (n_next node) m <$> store !! m.
Proof.
  intros Hn Hp Hx Hps Hxs Hpx. unfold free_range_index_node, node_at. rewrite Hn.
  cbn [from_option rbind].
  assert (∃ store1, match n_next node with
    | Some m => let! x := from_option Ok Undefined (store !! m) in
                Ok (<[m := set_prev x (n_prev node)]> store)
    | None => Ok store end = Ok store1
    ∧ ∀ m, store1 !! m = (λ x, if bool_decide (n_next node = Some m)
                               then set_prev x (n_prev node) else x) <$> store !! m)
    as (store1 & -> & H1).
  { destruct (n_next node) as [m|].
    - destruct (Hxs m eq_refl) as [x Hm]. rewrite Hm. eexists; split; [done|]. intros m'.
      destruct (decide (m = m')) as [<-|Hne].
      + rewrite lookup_insert_eq, Hm. simpl. by rewrite bool_decide_true.
      + rewrite lookup_insert_ne by done. rewrite bool_decide_false by congruence.
        by destruct (store !! m').
    - eexists; split; [done|]. intros m'. by destruct (store !! m'). }
  cbn [rbind].
  assert (∃ store2, match n_prev node with
    | Some m => let! x := from_option Ok Undefined (store1 !! m) in
                Ok (<[m := set_next x (n_next node)]> store1)
    | None => Ok store1 end = Ok store2
    ∧ ∀ m, store2 !! m = unlinked (n_prev node) (n_next node) m <$> store !! m)
    as (store2 & -> & H2).
  { destruct (n_prev node) as [m|] eqn:Hprev.
    - destruct (Hps m eq_refl) as [x Hm]. rewrite (H1 m), Hm. simpl.
      rewrite bool_decide_false by (by apply Hpx). eexists; split; [done|]. intros m'.
      unfold unlinked. destruct (decide (m = m')) as [<-|Hne].
      + rewrite lookup_insert_eq, Hm. simpl. rewrite bool_decide_false by (by apply Hpx).
        by rewrite bool_decide_true.
      + rewrite lookup_insert_ne by done. rewrite H1. destruct (store !! m') as [y|]; [|done].
        simpl. rewrite (bool_decide_false (Some m = Some m')) by congruence.
        by case_bool_decide; [|destruct y].
    - eexists; split; [done|]. intros m'. rewrite H1. destruct (store !! m') as [y|]; [|done].
      simpl. unfold unlinked. rewrite (bool_decide_false (None = Some m')) by done.
      by case_bool_decide; [|destruct y]. }
  cbn [rbind]. eexists; split; [done|]. split; [apply lookup_delete_eq|].
  intros m Hm. by rewrite lookup_delete_ne.
Qed.

Lemma free_node_ok store s1 id s2 :
  linked store (s1 ++ id :: s2) →
  ∃ store', free_range_index_node store id = Ok store'
    ∧ linked store' (s1 ++ s2) ∧ subset_of store' store.
Proof.
  intros Hl. pose proof (linked_present _ _ Hl) as Hpres. destruct Hl as [Hnd Hl].
  destruct (Hl s1 id s2 eq_refl) as (node & Hn & Hp & Hx).
  pose proof Hnd as (Hnd1 & Hdisj & [Hid2 Hnd2]%NoDup_cons)%NoDup_app.
  assert (Hid1 : id ∉ s1) by (intros Hin; apply (Hdisj _ Hin); by left).
  assert (H12 : ∀ m, m ∈ s1 → m ∈ s2 → False) by (intros m H1 H2; apply (Hdisj m H1); by right).
  destruct (free_node_store store id node Hn) as (store' & Hfree & Hdel & Hother).
  { rewrite Hp. by intros ?%last_in. }
  { rewrite Hx. by intros ?%head_in. }
  { rewrite Hp. intros m ?%last_in. apply Hpres. set_solver. }
  { rewrite Hx. intros m ?%head_in. apply Hpres. set_solver. }
  { rewrite Hp, Hx. intros m ?%last_in ?%head_in. eauto. }
  exists store'. split; [done|]. rewrite Hp, Hx in Hother. split.
  2:{ intros m node' Hm. destruct (decide (m = id)) as [->|Hne]; [congruence|].
      rewrite Hother in Hm by done. apply fmap_Some in Hm as (x & Hm & ->). by exists x. }
  split.
  { apply NoDup_app. split; [done|]. split; [|done]. intros m Hm1 Hm2. eauto. }
  intros t1 m t2 Hseq. assert (m ≠ id) as Hne.
  { intros ->. assert (id ∈ s1 ++ s2) as [?|?]%elem_of_app by (rewrite Hseq; set_solver); done. }
  rewrite Hother by done.
  destruct (app_split _ _ _ _ _ Hseq) as [(u & -> & ->)|(u & -> & ->)].
  - destruct (Hl t1 m (u ++ id :: s2)) as (x & -> & Hxp & Hxn); [by rewrite <- app_assoc|].
    eexists. split; [done|]. simpl. rewrite bool_decide_false.
    2:{ intros Hin%head_in. apply (H12 m); [set_solver|done]. }
    split; [done|]. rewrite last_app_cons. destruct u as [|b u].
    + simpl. by rewrite bool_decide_true.
    + rewrite bool_decide_false; [done|]. rewrite last_cons_cons. intros Hin%last_in.
      apply NoDup_app in Hnd1 as (_ & _ & [Hm _]%NoDup_cons). done.
  - destruct (Hl (s1 ++ id :: u) m t2) as (x & -> & Hxp & Hxn); [by rewrite <- app_assoc|].
    eexists. split; [done|]. simpl. rewrite (bool_decide_false (last s1 = Some m)).
    2:{ intros Hin%last_in. apply (H12 m); [done|set_solver]. }
    split; [|done]. destruct u as [|b u].
    + simpl. rewrite bool_decide_true by done. by rewrite app_nil_r.
    + simpl. rewrite bool_decide_false.
      * by rewrite Hxp, !last_app_cons, last_cons_cons.
      * intros [= ->]. apply NoDup_cons in Hnd2 as [Hm _]. set_solver.
Qed.

Lemma delete_subtree_ok store t s1 s2 :
  linked store (s1 ++ inorder t ++ s2) →
  ∃ store', delete_subtree store t = Ok store'
    ∧ linked store' (s1 ++ s2) ∧ subset_of store' store.
Proof.
  revert store s1 s2; induction t as [|l IHl n r IHr]; intros store s1 s2 Hl.
  { exists store. split; [done|]. split; [done|apply subset_of_refl]. }
  cbn [delete_subtree]. simpl in Hl. rewrite <- app_assoc in Hl.
  destruct (IHl _ _ _ Hl) as (store1 & -> & Hl1 & Hs1). cbn [rbind].
  destruct (IHr store1 (s1 ++ [n]) s2) as (store2 & -> & Hl2 & Hs2).
  { by rewrite <- app_assoc. }
  cbn [rbind]. rewrite <- app_assoc in Hl2.
  destruct (free_node_ok store2 s1 n s2 Hl2) as (store3 & -> & Hl3 & Hs3).
  exists store3. split; [done|]. split; [done|].
  eauto using subset_of_trans.
Qed.

Lemma clean_slot_ok store limit top_offset t s1 s2 :
  linked store (s1 ++ inorder t ++ s2) →
  ∃ store' t', clean_slot store limit top_offset t = Ok (store', t')
    ∧ linked store' (s1 ++ inorder t' ++ s2) ∧ subset_of store' store
    ∧ inorder t' `sublist_of` inorder t.
Proof.
  revert store top_offset s1 s2; induction t as [|l IHl n r IHr];
    intros store top_offset s1 s2 Hl.
  { exists store, NoTree. by split; [|split; [|split; [apply subset_of_refl|]]]. }
  pose proof (linked_present _ _ Hl) as Hp. cbn [clean_slot].
  destruct (node_at_present _ _ n Hp) as (node & -> & _ & _); [set_solver|]. cbn [rbind].
  assert (∃ offset, match r with
    | Tree _ rn _ => let! node := node_at store rn in
        Ok (if n_offset node <? top_offset then n_offset node else top_offset)
    | NoTree => Ok top_offset end = Ok offset) as (offset & ->).
  { destruct r as [|rl rn rr]; [by eexists|].
    destruct (node_at_present _ _ rn Hp) as (rnode & -> & _ & _); [set_solver|].
    by eexists. }
  cbn [rbind]. simpl in Hl. rewrite <- app_assoc in Hl. simpl in Hl. case_if.
  - destruct (delete_subtree_ok store (Tree l n NoTree) s1 (inorder r ++ s2))
      as (store1 & -> & Hl1 & Hs1); [simpl; by rewrite <- app_assoc|].
    cbn [rbind]. destruct (IHr store1 top_offset s1 s2 Hl1) as (store2 & t' & -> & Hl2 & Hs2 & Hsub).
    exists store2, t'. split; [done|]. split; [done|].
    split; [by eapply subset_of_trans|]. simpl. by apply sublist_inserts_l, sublist_cons.
  - destruct (IHl store (n_offset node) s1 (n :: inorder r ++ s2) Hl)
      as (store1 & l' & -> & Hl1 & Hs1 & Hsub).
    cbn [rbind]. exists store1, (Tree l' n r). split; [done|]. simpl.
    split; [by rewrite <- app_assoc|]. split; [done|]. by apply sublist_app.
Qed.

(** ** The invariant *)

Record index_wf (ndx : range_index_t) : Prop := {
  index_linked : linked (nodes ndx) (inorder (index_root ndx));
  index_ordered : ordered (nodes ndx) (inorder (index_root ndx));
}.

Lemma create_range_index_wf : index_wf create_range_index.
Proof.
  split; [split; [constructor|]|constructor]. intros s1 id s2 Hs. by destruct s1.
Qed.

Lemma clean_tree_ok store l n r limit :
  linked store (inorder (Tree l n r)) → ordered store (inorder (Tree l n r)) →
  ∃ ndx', clean_tree store l n r limit = Ok ndx'
    ∧ index_wf ndx' ∧ subset_of (nodes ndx') store.
Proof.
  intros Hl Ho. unfold clean_tree.
  destruct (clean_slot_ok store limit (u64 (limit + 1)) r (inorder l ++ [n]) [])
    as (store' & r' & -> & Hl' & Hs & Hsub).
  { rewrite app_nil_r, <- app_assoc. done. }
  cbn [rbind]. eexists. split; [done|]. split; [|done].
  rewrite app_nil_r, <- app_assoc in Hl'. split; [done|]. simpl.
  eapply ordered_subset; [done|by apply linked_present| |done].
  simpl. by apply sublist_app, sublist_skip.
Qed.

(** ** Splaying *)

Lemma splay_range_index_ok offset ndx :
  index_wf ndx →
  ∃ ndx', splay_range_index offset ndx = Ok ndx' ∧ index_wf ndx'
    ∧ nodes ndx' = nodes ndx ∧ placed (nodes ndx) offset (index_root ndx').
Proof.
  destruct ndx as [store t]. intros [Hl Ho]. cbn [nodes index_root] in *. unfold splay_range_index. cbn [nodes index_root].
  destruct t as [|l n r]; [by exists (MkRangeIndex store NoTree)|].
  assert (Hp := linked_present _ _ Hl).
  destruct (splay_loop_ok store offset (Tree l n r) [] []) as
    (lefts & rights & l' & n' & r' & -> & Hseq & Hstop & Hlefts & Hrights); [done..| |].
  { split; intros ? ?%elem_of_nil; done. }
  simpl in Hseq. rewrite app_nil_r in Hseq.
  cbn [rbind]. set (tl := link_left lefts l'). set (tr := link_right rights r').
  assert (Hin : inorder (Tree tl n' tr) = inorder (Tree l n r)).
  { simpl. unfold tl, tr. rewrite inorder_link_left, inorder_link_right.
    rewrite <- Hseq, <- !app_assoc. done. }
  assert (Hpos : (∀ id, id ∈ inorder tr → offset < off store id)
    ∧ (offset < off store n' → ∀ id, id ∈ inorder tl → off store id < offset)).
  { rewrite <- Hin in Ho. cbn [inorder] in Ho.
    apply ordered_app in Ho as (Hall & _ & [Hr _]%ordered_cons).
    unfold tl, tr in *. rewrite inorder_link_left, inorder_link_right in *.
    split.
    - intros id [Hid|Hid]%elem_of_app; [|by apply Hrights].
      destruct Hstop as [[? ->]|[[? ->]|?]];
        [specialize (Hr id ltac:(set_solver)); lia|set_solver|
         specialize (Hr id ltac:(set_solver)); lia].
    - intros Hlt id [Hid|Hid]%elem_of_app; [by apply Hlefts|].
      destruct Hstop as [[? ->]|[[? ->]|?]]; [set_solver|lia|lia]. }
  rewrite <- Hin in Hp, Ho. destruct Hpos as [Hr Hl'].
  destruct (turn_around_ok store offset tl n' tr Hp Ho Hr Hl') as (t' & -> & Hin' & Hpl & Hne).
  cbn [rbind]. rewrite Hin in Hin'.
  assert (root_is_placed store offset t' = Ok true) as ->.
  { destruct t' as [|l'' n'' r'']; [done|]. unfold root_is_placed.
    rewrite <- Hin' in Hl. destruct Hl as [_ Hl].
    destruct (Hl (inorder l'') n'' (inorder r'') eq_refl) as (node & Hn & Hprev & _).
    unfold node_at. rewrite Hn. cbn [from_option rbind]. f_equal.
    destruct Hpl as [_ [Hle|[_ ->]]].
    - unfold off in Hle. rewrite Hn in Hle. simpl in Hle. lia.
    - rewrite Hprev. simpl. by rewrite orb_true_r. }
  cbn [rbind guarded]. eexists. split; [done|]. split; [|done].
  split; simpl; rewrite Hin'; [done|]. by rewrite <- Hin.
Qed.

(** ** Insertion *)

(** A node once [id] is between the neighbours [prev] and [next]. *)
Definition relinked (prev next : option nat) (id : nat) (m : nat) node : range_index_node_t :=
  MkNode (n_offset node) (n_limit node) (n_target_offset node)
    (if bool_decide (next = Some m) then Some id else n_prev node)
    (if bool_decide (prev = Some m) then Some id else n_next node).

Lemma linked_between store store' s1 s2 id node :
  linked store (s1 ++ s2) → id ∉ s1 ++ s2 →
  store' !! id = Some node → n_prev node = last s1 → n_next node = head s2 →
  (∀ m, m ≠ id → store' !! m = relinked (last s1) (head s2) id m <$> store !! m) →
  linked store' (s1 ++ id :: s2).
Proof.
  intros [Hnd Hl] Hid Hn Hp Hx Hother.
  assert (Hnd' : NoDup (s1 ++ id :: s2)).
  { rewrite <- Permutation_middle. by constructor. }
  split; [done|]. pose proof Hnd as (Hnd1 & H12 & Hnd2)%NoDup_app.
  intros t1 m t2 Hseq. destruct (decide (m = id)) as [->|Hne].
  { assert (t1 = s1 ∧ t2 = s2) as [-> ->]; [|eauto].
    destruct (app_split _ _ _ _ _ Hseq) as [(u & -> & ->)|(u & -> & Hu)]; [set_solver|].
    destruct u as [|b u]; [by injection Hu as ->; rewrite app_nil_r|].
    injection Hu as <- ->. set_solver. }
  rewrite Hother by done.
  destruct (app_split _ _ _ _ _ Hseq) as [(u & -> & ->)|(u & -> & Hu)].
  - destruct (Hl t1 m (u ++ s2)) as (x & -> & Hxp & Hxn); [by rewrite <- app_assoc|].
    eexists. split; [done|]. simpl. rewrite bool_decide_false.
    2:{ intros Hin%head_in. apply (H12 m); [set_solver|done]. }
    split; [done|]. rewrite last_app_cons. destruct u as [|b u].
    + simpl. by rewrite bool_decide_true.
    + rewrite bool_decide_false; [done|]. rewrite last_cons_cons. intros Hin%last_in.
      apply NoDup_app in Hnd1 as (_ & _ & [Hm _]%NoDup_cons). done.
  - destruct u as [|b u]; [by injection Hu|]. injection Hu as <- ->.
    destruct (Hl (s1 ++ u) m t2) as (x & -> & Hxp & Hxn); [by rewrite <- app_assoc|].
    eexists. split; [done|]. simpl. rewrite (bool_decide_false (last s1 = Some m)).
    2:{ intros Hin%last_in. apply (H12 m); [done|set_solver]. }
    split; [|done]. destruct u as [|b' u]; simpl.
    + rewrite bool_decide_true by done. by rewrite last_app.
    + rewrite bool_decide_false.
      * by rewrite Hxp, !last_app_cons, !last_cons_cons.
      * intros [= ->]. apply NoDup_cons in Hnd2 as [Hm _]. set_solver.
Qed.

(** Every node of [store'] is one of [store] or has the payload [p]. *)
Definition gains store' store (p : Z * Z * Z) : Prop :=
  ∀ id node', store' !! id = Some node' →
    payload node' = p ∨ ∃ node, store !! id = Some node ∧ payload node = payload node'.

Lemma gains_subset store1 store2 store3 p :
  subset_of store1 store2 → gains store2 store3 p → gains store1 store3 p.
Proof.
  intros Hs Hg id node1 H1. destruct (Hs _ _ H1) as (node2 & H2 & <-). by apply Hg.
Qed.

Lemma gains_insert store id node p : payload node = p → gains (<[id := node]> store) store p.
Proof.
  intros Hp id' node' [[<- <-]|[_ Hn]]%lookup_insert_Some; [by left|right; eauto].
Qed.

Lemma ordered_ext store store' seq :
  (∀ id, id ∈ seq → off store' id = off store id) → ordered store seq → ordered store' seq.
Proof.
  unfold ordered. induction seq as [|id seq IH]; intros Hoff; [constructor|].
  intros [Hid Ho]%ordered_cons. apply ordered_cons. split.
  - intros b Hb. rewrite !Hoff by set_solver. auto.
  - apply IH; [set_solver|done].
Qed.

Lemma off_relinked store store' prev next id m :
  store' !! m = relinked prev next id m <$> store !! m → off store' m = off store m.
Proof. unfold off. intros ->. by destruct (store !! m). Qed.

Lemma off_insert_eq store id node : off (<[id := node]> store) id = n_offset node.
Proof. unfold off. by rewrite lookup_insert_eq. Qed.

Lemma off_insert_ne store id id' node :
  id ≠ id' → off (<[id := node]> store) id' = off store id'.
Proof. unfold off. intros. by rewrite lookup_insert_ne. Qed.

(** A new node between its neighbours, in the store and in the order. *)
Lemma between_ok store store' s1 s2 id node :
  linked store (s1 ++ s2) → ordered store (s1 ++ s2) → store !! id = None →
  store' !! id = Some node → n_prev node = last s1 → n_next node = head s2 →
  (∀ m, m ≠ id → store' !! m = relinked (last s1) (head s2) id m <$> store !! m) →
  (∀ m, m ∈ s1 → off store m < n_offset node) → (∀ m, m ∈ s2 → n_offset node < off store m) →
  linked store' (s1 ++ id :: s2) ∧ ordered store' (s1 ++ id :: s2)
  ∧ gains store' store (payload node).
Proof.
  intros Hl Ho Hid Hn Hp Hx Hother H1 H2.
  assert (Hnew : id ∉ s1 ++ s2).
  { intros Hin. destruct (linked_present _ _ Hl id Hin). congruence. }
  split; [by eapply linked_between|]. split.
  - assert (Hoff : ∀ m, m ∈ s1 ++ s2 → off store' m = off store m).
    { intros m Hm. eapply off_relinked, Hother. by intros ->. }
    assert (off store' id = n_offset node) as Hoffid by (unfold off; by rewrite Hn).
    apply ordered_app in Ho as (H12 & Ho1 & Ho2). apply ordered_app. split.
    + intros a b Ha [->|Hb]%elem_of_cons; [rewrite Hoffid, Hoff by set_solver; auto|].
      rewrite !Hoff by set_solver. auto.
    + split; [eapply ordered_ext; [|done]; intros; apply Hoff; set_solver|].
      apply ordered_cons. split.
      * intros b Hb. rewrite Hoffid, Hoff by set_solver. auto.
      * eapply ordered_ext; [|done]. intros; apply Hoff; set_solver.
  - intros m node' Hm. destruct (decide (m = id)) as [->|Hne].
    + left. congruence.
    + right. rewrite Hother in Hm by done. apply fmap_Some in Hm as (x & Hx' & ->). eauto.
Qed.

Lemma clean_tree_gains store0 store l n r limit p :
  linked store (inorder (Tree l n r)) → ordered store (inorder (Tree l n r)) →
  gains store store0 p →
  ∃ ndx', clean_tree store l n r limit = Ok ndx' ∧ index_wf ndx' ∧ gains (nodes ndx') store0 p.
Proof.
  intros Hl Ho Hg. destruct (clean_tree_ok store l n r limit Hl Ho) as (ndx' & -> & Hwf & Hs).
  exists ndx'. split; [done|]. split; [done|]. by eapply gains_subset.
Qed.

(** Overwriting the data of a node, within the order. *)
Lemma update_ok store s1 n s2 node offset limit target_offset :
  linked store (s1 ++ n :: s2) → ordered store (s1 ++ n :: s2) → store !! n = Some node →
  n_offset node <= offset → (∀ m, m ∈ s2 → offset < off store m) →
  let store' := <[n := set_range node offset limit target_offset]> store in
  linked store' (s1 ++ n :: s2) ∧ ordered store' (s1 ++ n :: s2)
  ∧ gains store' store (offset, limit, target_offset).
Proof.
  intros Hl Ho Hn Hle H2. split; [by eapply linked_data|]. split; [|by apply gains_insert].
  pose proof (linked_nodup _ _ Hl) as (Hnd & H12 & [Hn2 _]%NoDup_cons)%NoDup_app.
  assert (Hne : ∀ m, m ∈ s1 ++ s2 → n ≠ m).
  { intros m [Hm|Hm]%elem_of_app ->; [|done]. apply (H12 _ Hm). set_solver. }
  apply ordered_app in Ho as (H1n & Ho1 & [Hn2' Ho2]%ordered_cons).
  assert (Hold : off store n = n_offset node) by (unfold off; by rewrite Hn).
  apply ordered_app. split; [|split].
  - intros a b Ha [->|Hb]%elem_of_cons.
    + rewrite off_insert_eq, off_insert_ne by (apply Hne; set_solver). simpl.
      specialize (H1n a n Ha ltac:(by left)). lia.
    + rewrite !off_insert_ne by (apply Hne; set_solver). apply H1n; set_solver.
  - eapply ordered_ext; [|done]. intros; apply off_insert_ne, Hne; set_solver.
  - apply ordered_cons. split.
    + intros b Hb. rewrite off_insert_eq, off_insert_ne by (apply Hne; set_solver). auto.
    + eapply ordered_ext; [|done]. intros; apply off_insert_ne, Hne; set_solver.
Qed.

Lemma fresh_none store : store !! fresh (dom store) = None.
Proof. apply not_elem_of_dom, is_fresh. Qed.

Section Insert.
Context store (tree : range_index_node_t) l (n : nat) r (offset limit target_offset : Z).
Hypothesis Hl : linked store (inorder (Tree l n r)).
Hypothesis Ho : ordered store (inorder (Tree l n r)).
Hypothesis Hn : store !! n = Some tree.
Hypothesis Hnext : n_next tree = head (inorder r).
Hypothesis Hr : ∀ id, id ∈ inorder r → offset < off store id.

Lemma root_alone m : m ∈ inorder l ∨ m ∈ inorder r → m ≠ n.
Proof.
  pose proof (linked_nodup _ _ Hl) as (_ & H12 & [Hn2 _]%NoDup_cons)%NoDup_app.
  intros [Hm|Hm] ->; [|done]. apply (H12 n Hm). set_solver.
Qed.

Lemma insert_right_ok :
  n_offset tree < offset →
  ∃ ndx', insert_right store tree l n r offset limit target_offset = Ok ndx' ∧ index_wf ndx'
    ∧ gains (nodes ndx') store (offset, limit, target_offset).
Proof.
  intros Hlt. unfold insert_right, alloc_range_index_node.
  pose proof (fresh_none store) as Hfresh. set (id := fresh (dom store)) in *.
  assert (Hpres := linked_present _ _ Hl). assert (Hoff : off store n = n_offset tree)
    by (unfold off; by rewrite Hn).
  assert (Hl0 := Hl). assert (Ho0 := Ho). cbn [inorder] in Hl0, Ho0, Hpres.
  set (new := MkNode offset limit target_offset (Some n) (n_next tree)).
  set (store1 := <[id := _]> store).
  assert (∃ store2, match n_next tree with
      | None => Ok store1
      | Some m => let! next := node_at store1 m in
          Ok (<[m := set_prev next (Some id)]> store1) end = Ok store2
      ∧ ∀ m, m ≠ id → store2 !! m
        = (λ x, if bool_decide (n_next tree = Some m) then set_prev x (Some id) else x)
            <$> store !! m) as (store2 & -> & Hstore2).
  { rewrite Hnext. destruct (head (inorder r)) as [m|] eqn:Hm.
    - apply head_in in Hm. destruct (Hpres m) as [x Hx]; [set_solver|].
      assert (id ≠ m) by congruence.
      unfold node_at, store1. rewrite lookup_insert_ne, Hx by done.
      eexists. split; [done|]. intros m' Hm'. destruct (decide (m = m')) as [<-|Hne].
      + rewrite lookup_insert_eq, Hx. simpl. by rewrite bool_decide_true.
      + rewrite !lookup_insert_ne by done. rewrite bool_decide_false by congruence.
        by destruct (store !! m').
    - eexists. split; [done|]. intros m' Hm'. unfold store1.
      rewrite lookup_insert_ne by done. by destruct (store !! m'). }
  cbn [rbind].
  assert (Happ : inorder l ++ n :: inorder r = (inorder l ++ [n]) ++ inorder r)
    by (by rewrite <- app_assoc).
  rewrite Happ in Hl0, Ho0.
  destruct (between_ok store (<[id := new]> (<[n := set_next tree (Some id)]> store2))
    (inorder l ++ [n]) (inorder r) id new) as (Hl' & Ho' & Hg); try done.
  - by rewrite lookup_insert_eq.
  - by rewrite last_snoc.
  - intros m Hm. rewrite lookup_insert_ne by done. rewrite last_snoc, <- Hnext.
    destruct (decide (n = m)) as [<-|Hne].
    + rewrite lookup_insert_eq, Hn. simpl. unfold relinked.
      rewrite (bool_decide_true (Some n = Some n)) by done. rewrite bool_decide_false; [done|].
      rewrite Hnext. intros Hin%head_in. by apply (root_alone n); [right|].
    + rewrite lookup_insert_ne, Hstore2 by done. destruct (store !! m) as [x|]; [|done].
      simpl. unfold relinked. rewrite (bool_decide_false (Some n = Some m)) by congruence.
      by case_bool_decide; [|destruct x].
  - intros m [Hm| ->%list_elem_of_singleton]%elem_of_app; [|simpl; lia].
    apply ordered_app in Ho0 as (_ & Ho0 & _). apply ordered_app in Ho0 as (Hbelow & _ & _).
    specialize (Hbelow m n Hm ltac:(by left)). simpl. lia.
  - by apply clean_tree_gains.
Qed.

Lemma insert_left_ok :
  l = NoTree → offset < n_offset tree →
  ∃ ndx', insert_left store tree n r offset limit target_offset = Ok ndx' ∧ index_wf ndx'
    ∧ gains (nodes ndx') store (offset, limit, target_offset).
Proof.
  intros Hleft Hlt. unfold insert_left, alloc_range_index_node.
  assert (Hl0 := Hl). assert (Ho0 := Ho). rewrite Hleft in Hl0, Ho0. cbn [inorder app] in Hl0, Ho0.
  assert (off store n = n_offset tree) by (unfold off; by rewrite Hn).
  pose proof (fresh_none store) as Hfresh. set (id := fresh (dom store)) in *.
  set (new := MkNode offset limit target_offset None (Some n)).
  destruct (between_ok store (<[id := new]> (<[n := set_prev tree (Some id)]>
      (<[id := MkNode offset limit target_offset None None]> store)))
      [] (n :: inorder r) id new) as (Hl' & Ho' & Hg); try done.
  - by rewrite lookup_insert_eq.
  - intros m Hm. rewrite lookup_insert_ne by done. destruct (decide (n = m)) as [<-|Hne].
    + rewrite lookup_insert_eq, Hn. simpl. unfold relinked. simpl.
      by rewrite bool_decide_true.
    + rewrite !lookup_insert_ne by done. destruct (store !! m) as [x|]; [|done].
      simpl. unfold relinked. rewrite !bool_decide_false by congruence. by destruct x.
  - by intros ??%elem_of_nil.
  - intros m [->|Hm]%elem_of_cons; simpl; [lia|].
    apply Hr in Hm. lia.
  - by apply clean_tree_gains.
Qed.
End Insert.

Lemma insert_range_ok offset limit target_offset ndx :
  index_wf ndx → placed (nodes ndx) offset (index_root ndx) →
  ∃ ndx', insert_range offset limit target_offset ndx = Ok ndx' ∧ index_wf ndx'
    ∧ gains (nodes ndx') (nodes ndx) (offset, limit, target_offset).
Proof.
  destruct ndx as [store [|l n r]]; cbn [nodes index_root]; intros [Hl Ho] Hplaced;
    cbn [nodes index_root] in Hl, Ho; unfold insert_range; cbn [nodes index_root];
    pose proof (fresh_none store) as Hfresh; unfold alloc_range_index_node;
    set (id := fresh (dom store)) in *.
  { destruct (between_ok store (<[id := MkNode offset limit target_offset None None]> store)
      [] [] id (MkNode offset limit target_offset None None)) as (Hl' & Ho' & Hg); try done.
    - by rewrite lookup_insert_eq.
    - intros m Hm. rewrite lookup_insert_ne by done. unfold relinked. simpl.
      by destruct (store !! m) as [[]|].
    - by intros ??%elem_of_nil.
    - by intros ??%elem_of_nil.
    - eexists. by split; [|split]. }
  destruct Hplaced as [Hr Hroot]. assert (Hpres := linked_present _ _ Hl).
  destruct (node_at_present store _ n Hpres) as (tree & -> & Hn & Hoff); [simpl; set_solver|].
  cbn [rbind]. assert (Hlinks := linked_nodes _ _ Hl (inorder l) n (inorder r) eq_refl).
  destruct Hlinks as (tree' & Htree & Hprev & Hnext). rewrite Hn in Htree. injection Htree as <-.
  cbn [inorder] in Hl, Ho, Hpres.
  destruct ((offset =? n_offset tree) && (n_limit tree <? limit)) eqn:Hcase1.
  { assert (offset = n_offset tree) as -> by lia.
    destruct (update_ok store _ n _ tree (n_offset tree) limit target_offset Hl Ho Hn)
      as (Hl' & Ho' & Hg); [lia|done|].
    by apply clean_tree_gains. }
  destruct ((n_offset tree <? offset) && (n_limit tree <? limit)) eqn:Hcase2.
  { match goal with |- context [rbind (match n_next tree with _ => _ end) _] =>
      assert (∃ b : bool, match n_next tree with
        | None => Ok true
        | Some m => let! next := node_at store m in
            Ok ((n_limit tree <? n_offset next) || (n_limit next <? limit)) end = Ok b)
        as (b & ->) end.
    { rewrite Hnext. destruct (head (inorder r)) as [m|] eqn:Hm; [|by eexists].
      apply head_in in Hm. destruct (node_at_present store _ m Hpres) as (x & -> & _);
        [set_solver|]. by eexists. }
    cbn [rbind]. destruct b; [|by eexists; split; [done|split; [by split|intros ?? ?; eauto]]].
    assert (∃ b : bool, match n_prev tree with
        | None => Ok false
        | Some m => let! prev := node_at store m in Ok (offset <? n_limit prev) end = Ok b)
        as (b & ->).
    { rewrite Hprev. destruct (last (inorder l)) as [m|] eqn:Hm; [|by eexists].
      apply last_in in Hm. destruct (node_at_present store _ m Hpres) as (x & -> & _);
        [set_solver|]. by eexists. }
    cbn [rbind]. destruct b.
    { destruct (update_ok store _ n _ tree offset limit target_offset Hl Ho Hn)
        as (Hl' & Ho' & Hg); [lia|done|].
      by apply clean_tree_gains. }
    apply insert_right_ok; [done..|lia]. }
  destruct (Z.ltb_spec offset (n_offset tree)) as [Hlt|Hge].
  2:{ eexists; split; [done|split; [by split|intros ?? ?; eauto]]. }
  destruct Hroot as [?|[_ ->]]; [lia|]. cbn [guarded].
  by apply (insert_left_ok store tree NoTree).
Qed.

(** ** Building the list of ranges *)

(** The ranges follow each other from [offset] to [limit]; each one that refers
    to the target lies in the range of a node and refers to its image. *)
Fixpoint tiles store (offset limit : Z) (ranges : list range_list_node_t) : Prop :=
  match ranges with
  | [] => offset = limit
  | range :: ranges =>
      rl_offset range = offset ∧ offset < rl_limit range <= limit
      ∧ match rl_kind range with
        | range_from_source => True
        | range_from_target =>
            ∃ id node, store !! id = Some node
              ∧ n_offset node <= offset ∧ rl_limit range <= n_limit node
              ∧ rl_target_offset range = offset - n_offset node + n_target_offset node
        end
      ∧ tiles store (rl_limit range) limit ranges
  end.

Definition builds store (acc : list range_list_node_t) (offset limit : Z)
    (out : result (list range_list_node_t)) : Prop :=
  ∃ ranges, out = Ok (acc ++ ranges) ∧ tiles store offset limit ranges.

(** One more range in front. *)
Lemma builds_more store acc kind offset limit' target_offset limit out :
  builds store (acc ++ [MkRangeNode kind offset limit' target_offset]) limit' limit out →
  offset < limit' <= limit →
  match kind with
  | range_from_source => True
  | range_from_target =>
      ∃ id node, store !! id = Some node
        ∧ n_offset node <= offset ∧ limit' <= n_limit node
        ∧ target_offset = offset - n_offset node + n_target_offset node
  end →
  builds store acc offset limit out.
Proof.
  intros (ranges & -> & Ht) ??.
  exists (MkRangeNode kind offset limit' target_offset :: ranges). by rewrite <- app_assoc.
Qed.

Lemma builds_last store acc limit : builds store acc limit limit (Ok acc).
Proof. exists []. by rewrite app_nil_r. Qed.

Lemma build_range_loop_ok store seq pre suf acc offset limit fuel :
  linked store seq → seq = pre ++ suf → offset < limit → (2 * length suf < fuel)%nat →
  builds store acc offset limit (build_range_loop fuel store acc offset limit (head suf)).
Proof.
  intros Hl. revert pre acc offset fuel; induction suf as [|id suf IH];
    intros pre acc offset fuel Hseq Hlim Hf; (destruct fuel as [|fuel]; [lia|]).
  { cbn [build_range_loop head]. if_true by lia.
    eapply builds_more; [apply builds_last|lia|done]. }
  destruct (linked_nodes _ _ Hl pre id suf Hseq) as (x & Hx & _ & Hnext).
  assert (Hrest : ∀ acc offset fuel, offset < limit → (2 * length suf < fuel)%nat →
    builds store acc offset limit (build_range_loop fuel store acc offset limit (n_next x))).
  { rewrite Hnext. intros. eapply (IH (pre ++ [id])); [by rewrite <- app_assoc|done..]. }
  assert (Hin : ∀ acc offset fuel, offset < limit → (2 * length suf + 1 < fuel)%nat →
    n_offset x <= offset →
    builds store acc offset limit (build_range_loop fuel store acc offset limit (Some id))).
  { clear acc offset fuel Hlim Hf. intros acc offset [|fuel] Hlim Hf Hle; [lia|].
    cbn [build_range_loop]. if_true by lia. unfold node_at. rewrite Hx. cbn [from_option rbind].
    if_false by lia. case_if; [apply Hrest; lia|]. case_if.
    - eapply builds_more; [apply builds_last|lia|].
      exists id, x. split; [done|]. split; [lia|]. split; [lia|done].
    - eapply builds_more; [apply Hrest; lia|lia|].
      exists id, x. split; [done|]. split; [lia|]. split; [lia|done]. }
  simpl in Hf. destruct (Z.ltb_spec offset (n_offset x)) as [Hlt|Hge]; [|apply Hin; simpl; lia].
  cbn [build_range_loop head]. if_true by lia. unfold node_at. rewrite Hx. cbn [from_option rbind].
  if_true by lia. case_if.
  - eapply builds_more; [apply builds_last|lia|done].
  - eapply builds_more; [apply Hin; simpl; lia|lia|done].
Qed.

Lemma linked_size store seq : linked store seq → (length seq <= size store)%nat.
Proof.
  intros Hl. rewrite <- size_dom. rewrite <- (size_list_to_set (C := gset nat) seq)
    by apply (linked_nodup _ _ Hl).
  apply subseteq_size. intros id Hid%elem_of_list_to_set. apply elem_of_dom.
  by apply (linked_present _ _ Hl).
Qed.

Lemma build_range_list_ok offset limit ndx :
  index_wf ndx → offset < limit →
  ∃ ranges, build_range_list offset limit ndx = Ok ranges
    ∧ tiles (nodes ndx) offset limit ranges.
Proof.
  intros [Hl _] Hlim. unfold build_range_list. pose proof (linked_size _ _ Hl) as Hs.
  destruct (index_root ndx) as [|l n r].
  - by apply (build_range_loop_ok _ _ [] [] [] _ _ _ Hl); [done..|simpl; lia].
  - cbn [inorder] in *. rewrite length_app in Hs.
    by apply (build_range_loop_ok _ _ (inorder l) (n :: inorder r) [] _ _ _ Hl); [done..|simpl in *; lia].
Qed.
