(* ===== verification/ComposeDelta.v ===== *)
(** * Window composition

    [src/subversion/libsvn_delta/compose_delta.c]: the index of the offsets of a
    window's ops, the copying of ops that make a range of a window's target, and
    [svn_txdelta_compose_windows].  Sizes and offsets ([apr_size_t]) lie within
    the views of the two windows, so that their sums do not wrap around. *)
From S2P Require Import Prelude TextDelta RangeIndex.

(** ** The offset index *)

Record offset_index_t := MkOffsetIndex {
  oi_length : nat;
  offs : list Z;
}.

Fixpoint op_offsets (offset : Z) (ops_ : list svn_txdelta_op_t) : list Z :=
  match ops_ with
  | [] => [offset]
  | op :: ops_ => offset :: op_offsets (offset + op_length op) ops_
  end.

Definition create_offset_index (window : svn_txdelta_window_t) : offset_index_t :=
  MkOffsetIndex (length (ops window)) (op_offsets 0 (ops window)).

Definition offs_at (ndx : offset_index_t) (i : nat) : result Z :=
  from_option Ok Undefined (offs ndx !! i).

(** The binary search; it is given [hi - lo] steps at most. *)
Fixpoint search_loop (fuel : nat) (ndx : offset_index_t) (offset : Z) (lo hi : nat)
    : result nat :=
  if (lo =? hi)%nat then Ok lo
  else
    match fuel with
    | O => OutOfFuel
    | S fuel =>
        let op := ((lo + hi) / 2)%nat in
        let! off := offs_at ndx op in
        if offset <? off then search_loop fuel ndx offset lo op
        else search_loop fuel ndx offset (S op) hi
    end.

(** The search between [lo] and [hi], and the check of its result. *)
Definition search_between (ndx : offset_index_t) (offset : Z) (lo hi : nat) : result nat :=
  let! lo := search_loop (hi - lo) ndx offset lo hi in
  match lo with
  | O => Undefined
  | S lo =>
      let! first := offs_at ndx lo in
      let! next := offs_at ndx (S lo) in
      assert! (first <=? offset) && (offset <? next) in Ok lo
  end.

Definition search_offset_index (ndx : offset_index_t) (offset : Z) (hint : nat)
    : result nat :=
  let! total := offs_at ndx (oi_length ndx) in
  assert! offset <? total in
  if (hint <? oi_length ndx)%nat then
    let! first := offs_at ndx hint in
    if offset <? first then search_between ndx offset 0 hint
    else
      let! next := offs_at ndx (S hint) in
      if offset <? next then Ok hint
      else search_between ndx offset (S hint) (oi_length ndx)
  else search_between ndx offset 0 (oi_length ndx).

(** ** Copying ops *)

Section CopySourceOps.
Context (window : svn_txdelta_window_t) (ndx : offset_index_t).

(** The type of [copy_source_ops]: offset, limit, target offset, hint. *)
Abbreviation copy_ops_t := (Z → Z → Z → nat → ops_baton → result ops_baton) (only parsing).

(** "This is an overlapping target copy": the op [op] starts at [off0]. *)
Definition copy_overlapping (copy_source_ops : copy_ops_t) (op : svn_txdelta_op_t)
    (off0 fix_offset fix_limit target_offset : Z) (op_ndx : nat) (build_baton : ops_baton)
    : result ops_baton :=
  let ptn_length := off0 - offset op in
  let ptn_overlap := fix_offset mod ptn_length in
  assert! ptn_overlap <? ptn_length in
  let length_ := Z.min (op_length op - fix_offset - fix_limit) (ptn_length - ptn_overlap) in
  let! build_baton :=
    copy_source_ops (offset op + ptn_overlap) (offset op + ptn_overlap + length_)
      target_offset op_ndx build_baton in
  let fix_off := fix_offset + length_ in
  let tgt_off := target_offset + length_ in
  assert! fix_off + fix_limit <=? op_length op in
  let! (build_baton, fix_off, tgt_off) :=
    if (0 <? ptn_overlap) && (fix_off + fix_limit <? op_length op) then
      let length_ := Z.min (op_length op - fix_off - fix_limit) ptn_overlap in
      let! build_baton :=
        copy_source_ops (offset op) (offset op + length_) tgt_off op_ndx build_baton in
      Ok (build_baton, fix_off + length_, tgt_off + length_)
    else Ok (build_baton, fix_off, tgt_off) in
  assert! fix_off + fix_limit <=? op_length op in
  if fix_off + fix_limit <? op_length op then
    Ok (svn_txdelta__insert_op build_baton svn_txdelta_target (tgt_off - ptn_length)
          (op_length op - fix_off - fix_limit) [])
  else Ok build_baton.

(** The ops that define [offset, limit): a round of the loop for each one. *)
Fixpoint copy_ops_loop (copy_source_ops : copy_ops_t) (fuel : nat) (op_ndx : nat)
    (offset_ limit target_offset : Z) (build_baton : ops_baton) : result ops_baton :=
  let! off0 := offs_at ndx op_ndx in
  if limit <=? off0 then Ok build_baton
  else
    match fuel with
    | O => OutOfFuel
    | S fuel =>
        let! off1 := offs_at ndx (S op_ndx) in
        let! op := from_option Ok Undefined (ops window !! op_ndx) in
        let fix_offset := if off0 <? offset_ then offset_ - off0 else 0 in
        let fix_limit := if limit <? off1 then off1 - limit else 0 in
        assert! fix_offset + fix_limit <? op_length op in
        let! build_baton :=
          if negb (action_eqb (action_code op) svn_txdelta_target) then
            let data :=
              if action_eqb (action_code op) svn_txdelta_new
              then drop (Z.to_nat (offset op + fix_offset)) (new_data window) else [] in
            Ok (svn_txdelta__insert_op build_baton (action_code op) (offset op + fix_offset)
                  (op_length op - fix_offset - fix_limit) data)
          else
            assert! offset op <? off0 in
            if offset op + op_length op - fix_limit <=? off0 then
              copy_source_ops (offset op + fix_offset) (offset op + op_length op - fix_limit)
                target_offset op_ndx build_baton
            else
              copy_overlapping copy_source_ops op off0 fix_offset fix_limit target_offset
                op_ndx build_baton in
        copy_ops_loop copy_source_ops fuel (S op_ndx) offset_ limit
          (target_offset + (op_length op - fix_offset - fix_limit)) build_baton
    end.

(** [depth] bounds the recursion: it goes to earlier ops only. *)
Fixpoint copy_source_ops (depth : nat) (offset_ limit target_offset : Z) (hint : nat)
    (build_baton : ops_baton) : result ops_baton :=
  match depth with
  | O => OutOfFuel
  | S depth =>
      let! op_ndx := search_offset_index ndx offset_ hint in
      copy_ops_loop (copy_source_ops depth) (oi_length ndx - op_ndx) op_ndx offset_ limit
        target_offset build_baton
  end.
End CopySourceOps.

(** ** Composition *)

Section Compose.
Context (window_A window_B : svn_txdelta_window_t).
Let offset_index := create_offset_index window_A.

(** The loop over the range list; it also returns the final [tgt_off]. *)
Fixpoint compose_ranges (ranges : list range_list_node_t) (tgt_off : Z)
    (build_baton : ops_baton) : result (ops_baton * Z) :=
  match ranges with
  | [] => Ok (build_baton, tgt_off)
  | range :: ranges =>
      let! build_baton :=
        match rl_kind range with
        | range_from_target =>
            Ok (svn_txdelta__insert_op build_baton svn_txdelta_target (rl_target_offset range)
                  (rl_limit range - rl_offset range) [])
        | range_from_source =>
            copy_source_ops window_A offset_index (oi_length offset_index)
              (rl_offset range) (rl_limit range) tgt_off 0 build_baton
        end in
      compose_ranges ranges (tgt_off + (rl_limit range - rl_offset range)) build_baton
  end.

Fixpoint compose_ops (ops_ : list svn_txdelta_op_t) (target_offset : Z)
    (build_baton : ops_baton) (range_index : range_index_t) : result ops_baton :=
  match ops_ with
  | [] => Ok build_baton
  | op :: ops_ =>
      let! (build_baton, range_index) :=
        if negb (action_eqb (action_code op) svn_txdelta_source) then
          let data :=
            if action_eqb (action_code op) svn_txdelta_new
            then drop (Z.to_nat (offset op)) (new_data window_B) else [] in
          Ok (svn_txdelta__insert_op build_baton (action_code op) (offset op)
                (op_length op) data, range_index)
        else
          let offset_ := offset op in
          let limit := offset op + op_length op in
          let! range_index := splay_range_index offset_ range_index in
          let! range_list := build_range_list offset_ limit range_index in
          let! (build_baton, tgt_off) := compose_ranges range_list target_offset build_baton in
          assert! tgt_off =? target_offset + op_length op in
          let! range_index := insert_range offset_ limit target_offset range_index in
          Ok (build_baton, range_index) in
      compose_ops ops_ (target_offset + op_length op) build_baton range_index
  end.

Definition svn_txdelta_compose_windows : result svn_txdelta_window_t :=
  let! build_baton := compose_ops (ops window_B) 0 empty_baton create_range_index in
  let composite := svn_txdelta__make_window build_baton in
  Ok (MkWindow (sview_offset window_A) (sview_len window_A) (tview_len window_B)
        (src_ops composite) (ops composite) (new_data composite)).
End Compose.

(** "abcdefgh" copied and repeated, and then cut out of the middle. *)
Example compose_example :
  let bytes := String.list_byte_of_string in
  let window_A := MkWindow 0 8 20 1
    [MkOp svn_txdelta_source 0 8; MkOp svn_txdelta_target 5 10; MkOp svn_txdelta_new 0 2]
    (bytes "xy") in
  let window_B := MkWindow 0 20 24 3
    [MkOp svn_txdelta_source 10 10; MkOp svn_txdelta_source 6 8; MkOp svn_txdelta_new 0 1;
     MkOp svn_txdelta_source 12 5]
    (bytes "!") in
  (let! window := svn_txdelta_compose_windows window_A window_B in
   Ok (window_text window (bytes "abcdefgh")))
  = Ok (window_text window_B (window_text window_A (bytes "abcdefgh"))).
Proof. vm_compute. reflexivity. Qed.
