(* ===== verification/ComposeTheorems.v ===== *)
(** * Window composition

 *)
From S2P Require Import Prelude TextDelta Svndiff SvndiffCodec RangeIndex RangeIndexCorrect ComposeDelta.

(** ** Bytes by position *)

Definition byte_at (s : list byte) (i : Z) : option byte := s !! Z.to_nat i.

Lemma byte_at_app_l s s' i : 0 <= i < blen s → byte_at (s ++ s') i = byte_at s i.
Proof. unfold byte_at, blen. intros. apply lookup_app_l. lia. Qed.

Lemma byte_at_app_r s s' i : 0 <= i → byte_at (s ++ s') (blen s + i) = byte_at s' i.
Proof.
  unfold byte_at, blen. intros. rewrite lookup_app_r by lia. f_equal. lia.
Qed.

Lemma byte_at_bytes off len s i :
  0 <= off → 0 <= i < len → byte_at (bytes_at off len s) i = byte_at s (off + i).
Proof.
  unfold byte_at, bytes_at. intros. rewrite lookup_take_lt by lia. rewrite lookup_drop.
  f_equal. lia.
Qed.

Lemma bytes_ext s s' :
  blen s = blen s' → (∀ i, 0 <= i < blen s → byte_at s i = byte_at s' i) → s = s'.
Proof.
  unfold blen, byte_at. intros Hl Hi. apply list_eq. intros i.
  destruct (Nat.lt_ge_cases i (length s)) as [Hlt|Hge].
  - specialize (Hi (Z.of_nat i) ltac:(lia)). by rewrite Nat2Z.id in Hi.
  - rewrite !lookup_ge_None_2 by lia. done.
Qed.

Lemma bytes_at_ext off len s off' s' :
  0 <= off → 0 <= off' → 0 <= len → off + len <= blen s → off' + len <= blen s' →
  (∀ i, 0 <= i < len → byte_at s (off + i) = byte_at s' (off' + i)) →
  bytes_at off len s = bytes_at off' len s'.
Proof.
  intros ????? Hi. apply bytes_ext; rewrite !blen_bytes_at by done; [done|].
  intros i Hi'. rewrite !byte_at_bytes by done. by apply Hi.
Qed.

Lemma bytes_at_inner off len off' len' s :
  0 <= off → 0 <= off' → 0 <= len' → off' + len' <= len →
  bytes_at off' len' (bytes_at off len s) = bytes_at (off + off') len' s.
Proof.
  intros. unfold bytes_at. rewrite skipn_firstn_comm, take_take, drop_drop. f_equal; [lia|].
  f_equal. lia.
Qed.

(** The bytes that a copy from the buffer into itself writes. *)
Lemma copy_bytes_eq target x (source : Z) (n : nat) :
  0 <= source < blen target → length x = n →
  (∀ k, 0 <= k < Z.of_nat n → byte_at (target ++ x) (source + k) = byte_at x k) →
  copy_bytes target (Z.to_nat source) n = target ++ x.
Proof.
  intros Hs Hx Hk. apply list_eq. intros i. unfold blen in Hs.
  assert (∀ k, (k < n)%nat → copy_bytes target (Z.to_nat source) n !! (length target + k)%nat
                             = x !! k) as Hnew.
  { intros k. induction (lt_wf k) as [k _ IH]. intros Hkn.
    rewrite copy_bytes_reads_itself by lia.
    specialize (Hk (Z.of_nat k) ltac:(lia)). unfold byte_at in Hk. rewrite Nat2Z.id in Hk.
    rewrite <- Hk. replace (Z.to_nat (source + Z.of_nat k)) with (Z.to_nat source + k)%nat by lia.
    destruct (Nat.lt_ge_cases (Z.to_nat source + k) (length target)) as [Hlt|Hge].
    - rewrite copy_bytes_old by done. by rewrite lookup_app_l.
    - replace (Z.to_nat source + k)%nat
        with (length target + (Z.to_nat source + k - length target))%nat by lia.
      rewrite IH by lia. rewrite lookup_app_r by lia. f_equal. lia. }
  destruct (Nat.lt_ge_cases i (length target)) as [Hlt|Hge].
  { rewrite copy_bytes_old by done. by rewrite lookup_app_l. }
  replace i with (length target + (i - length target))%nat by lia.
  destruct (Nat.lt_ge_cases (i - length target) n) as [Hi|Hi].
  - rewrite Hnew by done. rewrite lookup_app_r by lia. f_equal. lia.
  - rewrite !lookup_ge_None_2; [done| |]; rewrite ?length_app, ?copy_bytes_length; lia.
Qed.

(** ** Building *)

Section Makes.
Context (sbuf : list byte) (slen : Z).
Hypothesis Hslen : slen <= blen sbuf.

(** The ops in the baton are those of a valid window and make [text]. *)
Record makes (b : ops_baton) (text : list byte) : Prop := {
  makes_wf : baton_wf slen b;
  makes_text : baton_text sbuf b = text;
  makes_nonempty : ops_nonempty (bb_ops b) = true;
  makes_src : bb_src_ops b = source_ops (bb_ops b);
}.

Lemma makes_empty : makes empty_baton [].
Proof. by split. Qed.

Lemma makes_length b text : makes b text → ops_length (bb_ops b) = blen text.
Proof.
  intros [[Hv _ _] <- _ _]. unfold baton_text.
  rewrite (expand_length _ _ slen) by done. by rewrite Z.add_0_l.
Qed.

Lemma makes_insert b text opcode off len data x :
  makes b text → 0 < len → insertable slen b opcode off len data →
  inserted_text sbuf text opcode off len data = x →
  makes (svn_txdelta__insert_op b opcode off len data) x.
Proof.
  intros [Hwf Ht Hne Hs] Hl Hi <-.
  destruct (insert_op_ok sbuf slen b opcode off len data Hslen Hwf Hi) as (Hwf' & Ht' & Hs').
  split; [done| |by apply insert_op_nonempty|lia]. by rewrite Ht', Ht.
Qed.

Lemma makes_source b text off len data :
  makes b text → 0 < len → 0 <= off → off + len <= slen →
  makes (svn_txdelta__insert_op b svn_txdelta_source off len data)
    (text ++ bytes_at off len sbuf).
Proof. intros Hm Hl Ho Hs. eapply makes_insert; [done..| |done]. split; [lia|done]. Qed.

Lemma makes_new b text off len data :
  makes b text → 0 < len → len <= blen data →
  makes (svn_txdelta__insert_op b svn_txdelta_new off len data) (text ++ bytes_at 0 len data).
Proof. intros Hm Hl Ho. eapply makes_insert; [done..| |done]. split; [lia|done]. Qed.

Lemma makes_target b text off len data x :
  makes b text → 0 < len → 0 <= off < blen text → blen x = len →
  (∀ k, 0 <= k < len → byte_at (text ++ x) (off + k) = byte_at x k) →
  makes (svn_txdelta__insert_op b svn_txdelta_target off len data) (text ++ x).
Proof.
  intros Hm Hl Ho Hx Hk. eapply makes_insert; [done..| |].
  - split; [lia|]. by rewrite (makes_length _ _ Hm).
  - simpl. apply copy_bytes_eq; [done|unfold blen in Hx; lia|].
    intros k ?. apply Hk. lia.
Qed.
End Makes.

(** ** The text of a window, op by op *)

Section Window.
Context (window : svn_txdelta_window_t) (sbuf : list byte).
Hypothesis Hvalid : window_valid window = true.
Hypothesis Hnonempty : ops_nonempty (ops window) = true.
Hypothesis Hsbuf : sview_len window <= blen sbuf.

Abbreviation text := (window_text window sbuf).
Definition start_of (i : nat) : Z := ops_length (take i (ops window)).

Lemma text_length : blen text = tview_len window.
Proof.
  unfold window_valid, window_text in *. apply andb_true_iff in Hvalid as [Hv Hl].
  rewrite (expand_length _ _ (sview_len window)) by done. unfold blen at 1. simpl. lia.
Qed.

Lemma start_of_0 : start_of 0 = 0.
Proof. done. Qed.

Lemma start_of_S i op : ops window !! i = Some op → start_of (S i) = start_of i + op_length op.
Proof using Type.
  clear Hvalid Hsbuf Hnonempty.
  intros Hop. unfold start_of. rewrite (take_S_r _ _ op) by done.
  rewrite ops_length_app. simpl. lia.
Qed.

Lemma start_of_end : start_of (length (ops window)) = blen text.
Proof.
  rewrite text_length. unfold start_of. rewrite firstn_all.
  unfold window_valid in Hvalid. apply andb_true_iff in Hvalid as [_ Hl]. lia.
Qed.

Lemma op_nonempty i op : ops window !! i = Some op → 0 < op_length op.
Proof using Hnonempty.
  clear Hvalid Hsbuf.
  intros Hop%list_elem_of_lookup_2. unfold ops_nonempty in Hnonempty.
  rewrite forallb_forall in Hnonempty. rewrite list_elem_of_In in Hop.
  specialize (Hnonempty op Hop). lia.
Qed.

Lemma start_of_mono i j : (i <= j <= length (ops window))%nat → start_of i <= start_of j.
Proof using Hnonempty.
  clear Hvalid Hsbuf.
  induction j as [|j IH]; intros Hij; [by replace i with 0%nat by lia|].
  destruct (decide (i = S j)) as [->|]; [lia|].
  destruct (lookup_lt_is_Some_2 (ops window) j) as [op Hop]; [lia|].
  rewrite (start_of_S j op Hop). pose proof (op_nonempty j op Hop).
  specialize (IH ltac:(lia)). lia.
Qed.

Lemma start_of_lt i j :
  (i <= length (ops window))%nat → (j <= length (ops window))%nat →
  start_of i < start_of j → (i < j)%nat.
Proof using Hnonempty.
  clear Hvalid Hsbuf.
  intros Hi Hj Hlt. destruct (Nat.lt_ge_cases i j) as [|Hge]; [done|].
  pose proof (start_of_mono j i). lia.
Qed.

Lemma op_offsets_lookup i :
  (i <= length (ops window))%nat →
  offs_at (create_offset_index window) i = Ok (start_of i).
Proof.
  assert (∀ l off i, (i <= length l)%nat →
    op_offsets off l !! i = Some (off + ops_length (take i l))) as Hl.
  { induction l as [|op l IH]; intros off j Hj; simpl in *.
    - replace j with 0%nat by lia. simpl. f_equal. lia.
    - destruct j as [|j]; simpl; [f_equal; lia|]. rewrite IH by lia. f_equal. lia. }
  intros Hi. unfold offs_at, create_offset_index, start_of. cbn [offs].
  rewrite Hl by done. by rewrite Z.add_0_l.
Qed.

(** What the op at [start_of i] writes. *)
Lemma op_text i op :
  ops window !! i = Some op →
  0 <= start_of i ∧ start_of i + op_length op <= blen text ∧ 0 <= offset op
  ∧ match action_code op with
    | svn_txdelta_source =>
        offset op + op_length op <= sview_len window
        ∧ bytes_at (start_of i) (op_length op) text = bytes_at (offset op) (op_length op) sbuf
    | svn_txdelta_target =>
        offset op < start_of i
        ∧ ∀ k, 0 <= k < op_length op → byte_at text (start_of i + k) = byte_at text (offset op + k)
    | svn_txdelta_new =>
        offset op + op_length op <= blen (new_data window)
        ∧ bytes_at (start_of i) (op_length op) text
          = bytes_at (offset op) (op_length op) (new_data window)
    end.
Proof.
  intros Hop. pose proof (op_nonempty i op Hop) as Hpos.
  assert (Hi := lookup_lt_Some _ _ _ Hop).
  assert (0 <= start_of i) by (pose proof (start_of_mono 0 i); rewrite start_of_0 in *; lia).
  assert (start_of i + op_length op <= blen text).
  { rewrite <- (start_of_S i op Hop), <- start_of_end. apply start_of_mono. lia. }
  assert (Hv := Hvalid). unfold window_valid in Hv. apply andb_true_iff in Hv as [Hv _].
  rewrite <- (take_drop_middle _ _ _ Hop) in Hv.
  rewrite ops_valid_app in Hv. apply andb_true_iff in Hv as [Hv1 Hv].
  cbn [ops_valid] in Hv. apply andb_true_iff in Hv as [Hv _].
  rewrite Z.add_0_l in Hv. fold (start_of i) in Hv.
  set (before := expand sbuf (new_data window) [] (take i (ops window))).
  assert (Hbefore : blen before = start_of i).
  { unfold before. rewrite (expand_length _ _ (sview_len window)) by done. done. }
  assert (Htext : ∃ rest, text = apply_op sbuf (new_data window) before op ++ rest).
  { exists (drop (length (apply_op sbuf (new_data window) before op)) text).
    rewrite <- (take_drop (length (apply_op sbuf (new_data window) before op)) text) at 1.
    f_equal. unfold window_text. rewrite <- (take_drop_middle _ _ _ Hop) at 1.
    rewrite expand_app. fold before. cbn [expand]. rewrite expand_prefix by done.
    apply firstn_all. }
  split; [done|]. split; [done|]. unfold op_valid in Hv. split; [lia|].
  destruct Htext as [rest Htext]. unfold apply_op in Htext.
  destruct (action_code op).
  - split; [lia|]. rewrite Htext, <- Hbefore, <- app_assoc.
    rewrite bytes_at_middle by lia. rewrite bytes_at_app; [apply bytes_at_idemp|lia..|].
    rewrite blen_bytes_at; lia.
  - split; [lia|]. intros k Hk.
    assert (Hc : ∀ j, 0 <= j < blen before + op_length op → byte_at text j
      = byte_at (copy_bytes before (Z.to_nat (offset op)) (Z.to_nat (op_length op))) j).
    { intros j Hj. rewrite Htext. apply byte_at_app_l. unfold blen in *.
      rewrite copy_bytes_length. lia. }
    rewrite !Hc by lia. unfold byte_at. unfold blen in Hbefore.
    replace (Z.to_nat (start_of i + k)) with (length before + Z.to_nat k)%nat by lia.
    replace (Z.to_nat (offset op + k)) with (Z.to_nat (offset op) + Z.to_nat k)%nat by lia.
    apply copy_bytes_reads_itself; lia.
  - split; [lia|]. rewrite Htext, <- Hbefore, <- app_assoc.
    rewrite bytes_at_middle by lia. rewrite bytes_at_app; [apply bytes_at_idemp|lia..|].
    rewrite blen_bytes_at; lia.
Qed.
End Window.

(** ** Properties of window composition: composing windows composes deltas *)

Section Copy.
Context (window : svn_txdelta_window_t) (sbuf : list byte).
Hypothesis Hvalid : window_valid window = true.
Hypothesis Hnonempty : ops_nonempty (ops window) = true.
Hypothesis Hsbuf : sview_len window <= blen sbuf.

Abbreviation text := (window_text window sbuf).
Abbreviation index := (create_offset_index window).
Abbreviation num_ops := (length (ops window)).
Abbreviation start := (start_of window).

(** ** Searching *)

Lemma search_loop_ok offset fuel lo hi :
  (lo <= hi <= num_ops)%nat → (hi - lo <= fuel)%nat →
  (lo = 0%nat ∨ start (lo - 1) <= offset) → offset < start hi →
  ∃ i, search_loop fuel index offset lo hi = Ok i
    ∧ (i <= hi)%nat ∧ (i = 0%nat ∨ start (i - 1) <= offset) ∧ offset < start i.
Proof.
  revert lo hi; induction fuel as [|fuel IH]; intros lo hi Hle Hf Hlo Hhi; cbn [search_loop];
    (destruct (Nat.eqb_spec lo hi) as [<-|Hne]; [by exists lo|]); [lia|].
  assert (lo <= (lo + hi) / 2 < hi)%nat as Hop.
  { pose proof (Nat.div_mod_eq (lo + hi) 2). pose proof (Nat.mod_upper_bound (lo + hi) 2). lia. }
  set (op := ((lo + hi) / 2)%nat) in *.
  rewrite op_offsets_lookup by lia. cbn [rbind].
  destruct (Z.ltb_spec offset (start op)) as [Hlt|Hge].
  - destruct (IH lo op) as (i & -> & Hi & ? & ?); [lia..|done|done|]. exists i. by split; [|split; [lia|]].
  - destruct (IH (S op) hi) as (i & -> & Hi & ? & ?); [lia..| |done|].
    + right. by replace (S op - 1)%nat with op by lia.
    + by exists i.
Qed.

Definition found (offset : Z) (i : nat) : Prop :=
  (i < num_ops)%nat ∧ start i <= offset < start (S i).

Lemma search_between_ok offset lo hi :
  0 <= offset → (lo <= hi <= num_ops)%nat →
  (lo = 0%nat ∨ start (lo - 1) <= offset) → offset < start hi →
  ∃ i, search_between index offset lo hi = Ok i ∧ found offset i.
Proof.
  intros H0 Hle Hlo Hhi. unfold search_between.
  destruct (search_loop_ok offset (hi - lo) lo hi) as (i & -> & Hi & Hprev & Hlt); [done..|].
  cbn [rbind]. destruct i as [|i]; [rewrite start_of_0 in Hlt; lia|].
  rewrite !op_offsets_lookup by lia. cbn [rbind].
  destruct Hprev as [|Hprev]; [lia|]. replace (S i - 1)%nat with i in Hprev by lia.
  unfold guarded. if_true by lia. exists i. split; [done|]. split; lia.
Qed.

Lemma search_offset_index_ok offset hint :
  0 <= offset < blen text →
  ∃ i, search_offset_index index offset hint = Ok i ∧ found offset i.
Proof.
  intros Ho. unfold search_offset_index. cbn [oi_length create_offset_index].
  rewrite <- (start_of_end window sbuf) in Ho by done.
  rewrite op_offsets_lookup by done. cbn [rbind]. unfold guarded. if_true by lia.
  destruct (Nat.ltb_spec hint num_ops) as [Hh|Hh]; [|apply search_between_ok; lia].
  rewrite op_offsets_lookup by lia. cbn [rbind].
  destruct (Z.ltb_spec offset (start hint)); [apply search_between_ok; lia|].
  rewrite op_offsets_lookup by lia. cbn [rbind].
  destruct (Z.ltb_spec offset (start (S hint))); [exists hint; by split|].
  apply search_between_ok; [lia..| |lia]. right. by replace (S hint - 1)%nat with hint by lia.
Qed.

(** ** Copying *)

Abbreviation makes := (makes sbuf (sview_len window)).

(** The contract of [copy_source_ops] for ranges that end by [bound]. *)
Definition copies (copy : Z → Z → Z → nat → ops_baton → result ops_baton) (bound : Z) : Prop :=
  ∀ offset limit target_offset hint b t,
    0 <= offset < limit → limit <= bound → makes b t → blen t = target_offset →
    ∃ b', copy offset limit target_offset hint b = Ok b'
      ∧ makes b' (t ++ bytes_at offset (limit - offset) text).

(** Within an op that copies from the target, the text repeats itself. *)
Section Pattern.
Context (i : nat) (op : svn_txdelta_op_t).
Hypothesis Hop : ops window !! i = Some op.
Hypothesis Haction : action_code op = svn_txdelta_target.
Abbreviation off0 := (start i).
Let p := off0 - offset op.

Lemma target_op :
  0 <= offset op < off0 ∧ off0 + op_length op <= blen text
  ∧ ∀ k, 0 <= k < op_length op → byte_at text (off0 + k) = byte_at text (offset op + k).
Proof.
  destruct (op_text window sbuf Hvalid Hnonempty Hsbuf i op Hop) as (? & ? & ? & Ht).
  rewrite Haction in Ht. destruct Ht. split; [lia|]. by split.
Qed.

Lemma pattern_byte (k j : Z) :
  0 <= k < op_length op → 0 <= j < p → (∃ q, 0 <= q ∧ k = q * p + j) →
  byte_at text (off0 + k) = byte_at text (offset op + j).
Proof.
  intros Hk Hj (q & Hq & ->). destruct target_op as (Ho & _ & Hcopy).
  revert Hk. pattern q. apply natlike_ind; [..|done].
  - intros Hk. by rewrite Hcopy.
  - intros q' Hq' IH Hk. unfold p in *. rewrite Hcopy by done. rewrite <- IH by nia.
    f_equal. lia.
Qed.

(** [n] bytes of the op's text from [f] on that do not wrap around. *)
Lemma pattern_bytes (f j n : Z) :
  0 <= f → 0 <= n → f + n <= op_length op → 0 <= j → j + n <= p →
  (∃ q, 0 <= q ∧ f = q * p + j) →
  bytes_at (off0 + f) n text = bytes_at (offset op + j) n text.
Proof.
  intros ????? (q & Hq & Hf). destruct target_op as (Ho & Hl & _).
  apply bytes_at_ext; [unfold p in *; lia..|]. intros k Hk. rewrite <- !Z.add_assoc.
  apply pattern_byte; [lia..|]. exists q. split; [done|]. lia.
Qed.

Lemma copy_overlapping_ok copy fix_offset fix_limit target_offset op_ndx b t :
  copies copy off0 → makes b t → blen t = target_offset →
  0 <= fix_offset → 0 <= fix_limit → fix_offset + fix_limit < op_length op →
  ∃ b', copy_overlapping copy op off0 fix_offset fix_limit target_offset op_ndx b = Ok b'
    ∧ makes b' (t ++ bytes_at (off0 + fix_offset) (op_length op - fix_offset - fix_limit) text).
Proof.
  intros Hcopy Hm Ht Hfo Hfl Hlt. destruct target_op as (Ho & Hend & Hself).
  unfold copy_overlapping, guarded. fold p.
  assert (0 <= blen t) as Htl by (unfold blen; lia).
  assert (0 < p) as Hp by (unfold p; lia).
  pose proof (Z.mod_pos_bound fix_offset p Hp) as Hphi.
  pose proof (Z.div_mod fix_offset p ltac:(lia)) as Hdiv.
  set (phi := fix_offset mod p) in *. set (q := fix_offset / p) in *.
  assert (0 <= q) as Hq by (apply Z.div_pos; lia).
  set (n := op_length op - fix_offset - fix_limit).
  set (l1 := Z.min n (p - phi)).
  if_true by lia.
  destruct (Hcopy (offset op + phi) (offset op + phi + l1) target_offset op_ndx b t)
    as (b1 & -> & Hm1); [unfold l1, n in *; lia|unfold l1, p in *; lia|done..|].
  cbn [rbind]. if_true by (unfold l1, n; lia).
  replace (offset op + phi + l1 - (offset op + phi)) with l1 in Hm1 by lia.
  rewrite <- (pattern_bytes fix_offset phi l1) in Hm1;
    [|unfold l1, n; lia..|exists q; split; [done|]; rewrite Z.mul_comm; exact Hdiv].
  assert (Hb1 : blen (bytes_at (off0 + fix_offset) l1 text) = l1)
    by (apply blen_bytes_at; unfold l1, n in *; lia).
  match goal with |- context [rbind ?m _] =>
    assert (∃ b2 l2, m = Ok (b2, fix_offset + (l1 + l2), target_offset + (l1 + l2))
      ∧ 0 <= l2 ∧ l1 + l2 <= n ∧ (l1 + l2 < n → l1 + l2 = p)
      ∧ makes b2 (t ++ bytes_at (off0 + fix_offset) (l1 + l2) text)) as (b2 & l2 & -> & H2) end.
  { destruct ((0 <? phi) && (fix_offset + l1 + fix_limit <? op_length op)) eqn:Hmore.
    - assert (l1 = p - phi) as Hl1 by (unfold l1, n in *; lia).
      set (l2 := Z.min (op_length op - (fix_offset + l1) - fix_limit) phi).
      destruct (Hcopy (offset op) (offset op + l2) (target_offset + l1) op_ndx b1
        (t ++ bytes_at (off0 + fix_offset) l1 text))
        as (b2 & -> & Hm2); [unfold l2, n in *; lia|unfold l2, p in *; lia|done|
                             rewrite blen_app; lia|].
      cbn [rbind]. exists b2, l2. split; [f_equal; f_equal; [f_equal|]; lia|]. split; [unfold l2, n in *; lia|].
      split; [unfold l2, n in *; lia|]. split; [unfold l2, n in *; lia|].
      replace (offset op + l2 - offset op) with l2 in Hm2 by lia.
      replace (offset op) with (offset op + 0) in Hm2 at 1 by lia.
      rewrite <- (pattern_bytes (fix_offset + l1) 0 l2) in Hm2;
        [|unfold l2, n in *; lia..|exists (q + 1); split; lia].
      rewrite <- app_assoc, Z.add_assoc in Hm2. rewrite bytes_at_split; [done|unfold l2; lia..].
    - exists b1, 0. rewrite !Z.add_0_r. split; [done|]. split; [lia|].
      unfold l1, n in *. split; [lia|]. split; [lia|]. done. }
  destruct H2 as (Hl2 & Hle & Hfull & Hm2). cbn [rbind]. if_true by (unfold n in *; lia).
  destruct (Z.ltb_spec (fix_offset + (l1 + l2) + fix_limit) (op_length op)) as [Hrest|Hdone].
  2:{ exists b2. split; [done|]. by replace n with (l1 + l2) by (unfold n in *; lia). }
  rewrite (Hfull ltac:(unfold n in *; lia)) in *.
  replace (target_offset + p - p) with target_offset by lia.
  eexists. split; [done|].
  replace (op_length op - (fix_offset + p) - fix_limit) with (n - p) by (unfold n; lia).
  replace n with (p + (n - p)) at 2 by lia.
  rewrite bytes_at_split, app_assoc by (unfold n in *; lia).
  assert (Hbp : blen (bytes_at (off0 + fix_offset) p text) = p)
    by (apply blen_bytes_at; unfold n in *; lia).
  assert (Hbr : blen (bytes_at (off0 + fix_offset + p) (n - p) text) = n - p)
    by (apply blen_bytes_at; unfold n in *; lia).
  apply makes_target; [done|done|unfold n in *; lia|rewrite blen_app; lia|done|].
  intros k Hk. rewrite <- app_assoc, <- Ht. rewrite byte_at_app_r by lia.
  rewrite <- bytes_at_split by (unfold n in *; lia).
  rewrite !byte_at_bytes by (unfold n in *; lia).
  replace (off0 + fix_offset + p + k) with (off0 + (fix_offset + p + k)) by lia.
  rewrite Hself by (unfold n in *; lia). f_equal. unfold p. lia.
Qed.
End Pattern.

Lemma copies_weaken copy bound bound' : bound' <= bound → copies copy bound → copies copy bound'.
Proof. intros Hb Hc offset limit tgt hint b t Ho Hl. apply Hc; lia. Qed.

(** One op, as far as it lies in the range. *)
Lemma copy_op_ok copy i op fix_offset fix_limit target_offset b t :
  ops window !! i = Some op → copies copy (start i) → makes b t → blen t = target_offset →
  0 <= fix_offset → 0 <= fix_limit → fix_offset + fix_limit < op_length op →
  let n := op_length op - fix_offset - fix_limit in
  ∃ b',
    (if negb (action_eqb (action_code op) svn_txdelta_target) then
       let data :=
         if action_eqb (action_code op) svn_txdelta_new
         then drop (Z.to_nat (offset op + fix_offset)) (new_data window) else [] in
       Ok (svn_txdelta__insert_op b (action_code op) (offset op + fix_offset) n data)
     else
       assert! offset op <? start i in
       if offset op + op_length op - fix_limit <=? start i then
         copy (offset op + fix_offset) (offset op + op_length op - fix_limit) target_offset i b
       else copy_overlapping copy op (start i) fix_offset fix_limit target_offset i b) = Ok b'
    ∧ makes b' (t ++ bytes_at (start i + fix_offset) n text).
Proof.
  intros Hop Hcopy Hm Ht Hfo Hfl Hlt n.
  destruct (op_text window sbuf Hvalid Hnonempty Hsbuf i op Hop) as (H0 & Hend & Hoff & Hact).
  rewrite <- (bytes_at_inner (start i) (op_length op)) by (unfold n; lia).
  destruct (action_code op) eqn:Haction; simpl.
  - destruct Hact as [Hs ->]. eexists. split; [done|].
    rewrite bytes_at_inner by (unfold n; lia). apply makes_source; unfold n in *; lia || done.
  - destruct Hact as [Hs Hself]. unfold guarded. if_true by lia. rewrite bytes_at_inner by (unfold n; lia).
    destruct (Z.leb_spec (offset op + op_length op - fix_limit) (start i)) as [Hle|Hgt].
    + destruct (Hcopy (offset op + fix_offset) (offset op + op_length op - fix_limit)
        target_offset i b t) as (b' & -> & Hm'); [lia..|done|done|].
      exists b'. split; [done|].
      replace (offset op + op_length op - fix_limit - (offset op + fix_offset)) with n in Hm'
        by (unfold n; lia).
      rewrite (bytes_at_ext (start i + fix_offset) n text (offset op + fix_offset) text);
        [done|unfold n; lia..|].
      intros k Hk. rewrite <- !Z.add_assoc. apply Hself. unfold n in *; lia.
    + apply (copy_overlapping_ok i op Hop Haction); done.
  - destruct Hact as [Hs ->]. eexists. split; [done|].
    rewrite bytes_at_inner by (unfold n; lia).
    replace (bytes_at (offset op + fix_offset) n (new_data window))
      with (bytes_at 0 n (drop (Z.to_nat (offset op + fix_offset)) (new_data window)))
      by (unfold bytes_at; by rewrite drop_0).
    apply makes_new; [done|done|unfold n; lia|].
    unfold blen in *. rewrite length_drop. unfold n. lia.
Qed.

Lemma copy_ops_loop_ok copy depth fuel i offset limit target_offset b t :
  copies copy (start depth) → (depth < num_ops)%nat → limit <= start (S depth) →
  0 <= offset < limit → (i <= num_ops)%nat → (num_ops - i <= fuel)%nat →
  (start i < limit → offset < start (S i)) → makes b t → blen t = target_offset →
  let cur := Z.min limit (Z.max offset (start i)) in
  ∃ b', copy_ops_loop window index copy fuel i offset limit target_offset b = Ok b'
    ∧ makes b' (t ++ bytes_at cur (limit - cur) text).
Proof.
  intros Hcopy Hdepth Hlimit Ho. revert i target_offset b t.
  induction fuel as [|fuel IH]; intros i target_offset b t Hi Hf Hin Hm Ht cur;
    cbn [copy_ops_loop]; rewrite op_offsets_lookup by done; cbn [rbind];
    (destruct (Z.leb_spec limit (start i)) as [Hdone|Hmore];
     [exists b; split; [done|]; replace (limit - cur) with 0 by (unfold cur; lia);
      unfold bytes_at; simpl; by rewrite app_nil_r|]);
    (assert (i < S depth)%nat as Hid by (apply (start_of_lt window Hnonempty); lia)); [lia|].
  rewrite op_offsets_lookup by lia. cbn [rbind].
  destruct (lookup_lt_is_Some_2 (ops window) i) as [op Hop]; [lia|]. rewrite Hop.
  cbn [from_option rbind].
  pose proof (start_of_S window i op Hop) as HS. specialize (Hin Hmore).
  pose proof (op_nonempty window Hnonempty i op Hop).
  set (fix_offset := if start i <? offset then offset - start i else 0).
  set (fix_limit := if limit <? start (S i) then start (S i) - limit else 0).
  assert (0 <= fix_offset ∧ start i + fix_offset = cur) as [Hfo Hcur]
    by (unfold fix_offset, cur; case_if; lia).
  assert (0 <= fix_limit ∧ start (S i) - fix_limit = Z.min limit (start (S i))) as [Hfl Hend]
    by (unfold fix_limit; case_if; lia).
  assert (fix_offset + fix_limit < op_length op) as Hlt by (unfold cur in *; lia).
  unfold guarded. if_true by lia.
  destruct (copy_op_ok copy i op fix_offset fix_limit target_offset b t) as (b1 & Heq & Hm1);
    [done| |done..|].
  { eapply copies_weaken; [|done]. apply (start_of_mono window Hnonempty). lia. }
  unfold guarded in Heq. rewrite Heq. cbn [rbind].
  set (n := op_length op - fix_offset - fix_limit) in *.
  assert (0 <= start i) by (pose proof (start_of_mono window Hnonempty 0 i); rewrite start_of_0 in *; lia).
  assert (start (S i) <= blen text) as Hfit.
  { rewrite <- (start_of_end window sbuf) by done. apply (start_of_mono window Hnonempty). lia. }
  destruct (IH (S i) (target_offset + n) b1 (t ++ bytes_at (start i + fix_offset) n text))
    as (b2 & -> & Hm2); [lia|lia| |done| |].
  { intros Hlt'. rewrite <- (Z.le_succ_l). pose proof (start_of_mono window Hnonempty (S i) (S (S i))).
    destruct (lookup_lt_is_Some_2 (ops window) (S i)) as [op' Hop'].
    { assert (S i < S depth)%nat by (apply (start_of_lt window Hnonempty); lia). lia. }
    pose proof (start_of_S window (S i) op' Hop').
    pose proof (op_nonempty window Hnonempty (S i) op' Hop'). lia. }
  { rewrite blen_app, blen_bytes_at; unfold cur, n in *; lia. }
  exists b2. split; [done|]. rewrite <- app_assoc in Hm2.
  set (cur' := Z.min limit (Z.max offset (start (S i)))) in *.
  assert (cur' = cur + n) as Hcur' by (unfold cur', cur, n in *; lia).
  replace (limit - cur) with (n + (limit - cur')) by lia.
  rewrite bytes_at_split, <- Hcur' by (unfold cur, cur', n in *; lia). by rewrite <- Hcur.
Qed.

Lemma copy_source_ops_ok depth :
  (depth <= num_ops)%nat → copies (copy_source_ops window index depth) (start depth).
Proof.
  induction depth as [|depth IH]; intros Hd offset limit target_offset hint b t Ho Hlimit Hm Ht.
  { rewrite start_of_0 in Hlimit. lia. }
  cbn [copy_source_ops].
  destruct (search_offset_index_ok offset hint) as (i & -> & Hi & Hoff).
  { rewrite <- (start_of_end window sbuf) by done.
    pose proof (start_of_mono window Hnonempty (S depth) num_ops). lia. }
  cbn [rbind]. cbn [oi_length create_offset_index].
  destruct (copy_ops_loop_ok (copy_source_ops window index depth) depth (num_ops - i) i offset limit
    target_offset b t) as (b' & -> & Hm'); [apply IH; lia|lia|done|done|lia|done|lia|done|done|].
  exists b'. split; [done|]. rewrite Z.max_l, Z.min_r in Hm' by lia. done.
Qed.
End Copy.

(** ** Window composition: the theorem, and composition with svndiff and the applier *)

Section Compose.
Context (window_A window_B : svn_txdelta_window_t) (source : list byte).
Hypothesis Hvalid_A : window_valid window_A = true.
Hypothesis Hnonempty_A : ops_nonempty (ops window_A) = true.
Hypothesis Hsource : sview_len window_A <= blen source.
Hypothesis Hvalid_B : window_valid window_B = true.
Hypothesis Hnonempty_B : ops_nonempty (ops window_B) = true.
Hypothesis Hview : sview_len window_B <= tview_len window_A.

Abbreviation middle := (window_text window_A source).
Abbreviation target := (window_text window_B middle).
Abbreviation makes := (makes source (sview_len window_A)).
Abbreviation start := (start_of window_B).

Lemma middle_length : sview_len window_B <= blen middle.
Proof. rewrite text_length; [lia|done..]. Qed.

(** Every node of the range index names a copy, in the target so far, of a part
    of the middle text. *)
Definition truthful (store : node_store) (t : list byte) : Prop :=
  ∀ id node, store !! id = Some node →
    0 <= n_offset node ∧ n_limit node <= blen middle ∧ 0 <= n_target_offset node
    ∧ n_target_offset node + (n_limit node - n_offset node) <= blen t
    ∧ bytes_at (n_target_offset node) (n_limit node - n_offset node) t
      = bytes_at (n_offset node) (n_limit node - n_offset node) middle.

Lemma truthful_app store t x : truthful store t → truthful store (t ++ x).
Proof.
  intros Ht id node Hn. destruct (Ht id node Hn) as (? & ? & ? & ? & <-).
  rewrite blen_app. assert (0 <= blen x) by (unfold blen; lia).
  do 4 (split; [lia|]).
  destruct (Z.le_gt_cases (n_offset node) (n_limit node)); [by apply bytes_at_app; lia|].
  unfold bytes_at. by rewrite Z2Nat.nonpos by lia.
Qed.

Lemma truthful_gains store' store t offset limit target_offset :
  gains store' store (offset, limit, target_offset) → truthful store t →
  0 <= offset → limit <= blen middle → 0 <= target_offset →
  target_offset + (limit - offset) <= blen t →
  bytes_at target_offset (limit - offset) t = bytes_at offset (limit - offset) middle →
  truthful store' t.
Proof.
  intros Hg Ht ????? id node' Hn'. destruct (Hg id node' Hn') as [Hp|(node & Hn & Hp)].
  - injection Hp as -> -> ->. done.
  - pose proof (Ht id node Hn) as Hnode. injection Hp as Hp1 Hp2 Hp3.
    by rewrite Hp1, Hp2, Hp3 in Hnode.
Qed.

(** A target copy of what a node names. *)
Lemma copied_bytes t node (offset len : Z) :
  0 <= n_target_offset node →
  n_target_offset node + (n_limit node - n_offset node) <= blen t →
  bytes_at (n_target_offset node) (n_limit node - n_offset node) t
  = bytes_at (n_offset node) (n_limit node - n_offset node) middle →
  0 <= n_offset node <= offset → 0 <= len → offset + len <= n_limit node →
  bytes_at (offset - n_offset node + n_target_offset node) len t = bytes_at offset len middle.
Proof.
  intros ?? Heq ???.
  replace (offset - n_offset node + n_target_offset node)
    with (n_target_offset node + (offset - n_offset node)) by lia.
  rewrite <- (bytes_at_inner _ (n_limit node - n_offset node)), Heq by lia.
  rewrite bytes_at_inner by lia. f_equal. lia.
Qed.

Lemma compose_ranges_ok store ranges offset limit target_offset b t :
  tiles store offset limit ranges → truthful store t →
  0 <= offset <= limit → limit <= blen middle → makes b t → blen t = target_offset →
  ∃ b', compose_ranges window_A ranges target_offset b
        = Ok (b', target_offset + (limit - offset))
    ∧ makes b' (t ++ bytes_at offset (limit - offset) middle).
Proof.
  revert offset target_offset b t; induction ranges as [|range ranges IH];
    intros offset target_offset b t Htiles Htruth Ho Hlimit Hm Ht.
  { simpl in Htiles. subst limit. exists b. rewrite Z.sub_diag, Z.add_0_r. split; [done|].
    unfold bytes_at. simpl. by rewrite app_nil_r. }
  destruct Htiles as (Hro & Hrl & Hkind & Htiles). cbn [compose_ranges]. rewrite Hro.
  set (mid := rl_limit range) in *. set (n := mid - offset).
  assert (∃ b1, match rl_kind range with
      | range_from_target =>
          Ok (svn_txdelta__insert_op b svn_txdelta_target (rl_target_offset range) n [])
      | range_from_source =>
          copy_source_ops window_A (create_offset_index window_A)
            (oi_length (create_offset_index window_A)) offset mid target_offset 0 b
      end = Ok b1 ∧ makes b1 (t ++ bytes_at offset n middle)) as (b1 & -> & Hm1).
  { destruct (rl_kind range).
    - apply (copy_source_ops_ok window_A source Hvalid_A Hnonempty_A Hsource); [done|lia| |done..].
      cbn [oi_length create_offset_index]. rewrite (start_of_end window_A source) by done. lia.
    - destruct Hkind as (id & node & Hn & Hle & Hle' & ->).
      destruct (Htruth id node Hn) as (? & ? & ? & ? & Heq).
      eexists. split; [done|]. unfold n.
      apply makes_target; [done|done|lia|lia|apply blen_bytes_at; lia|].
      intros k Hk. rewrite byte_at_app_l by lia.
      rewrite <- (copied_bytes t node offset (mid - offset)) by (done || lia).
      by rewrite byte_at_bytes by lia. }
  cbn [rbind]. unfold mid in *.
  destruct (IH (rl_limit range) (target_offset + n) b1 (t ++ bytes_at offset n middle))
    as (b2 & -> & Hm2); [done|by apply truthful_app|lia|done|done| |].
  { rewrite blen_app, blen_bytes_at; unfold n; lia. }
  exists b2. split; [unfold n; do 2 f_equal; lia|]. rewrite <- app_assoc in Hm2.
  replace (limit - offset) with (n + (limit - rl_limit range)) by (unfold n; lia).
  rewrite bytes_at_split by (unfold n; lia).
  by replace (offset + n) with (rl_limit range) by (unfold n; lia).
Qed.

(** The text made so far is the beginning of the target. *)
Lemma compose_op_text i op x :
  ops window_B !! i = Some op → x = bytes_at (start i) (op_length op) target →
  bytes_at 0 (start (S i)) target = bytes_at 0 (start i) target ++ x.
Proof.
  intros Hop ->. destruct (op_text window_B middle Hvalid_B Hnonempty_B middle_length i op Hop)
    as (? & ? & _). pose proof (op_nonempty window_B Hnonempty_B i op Hop).
  rewrite (start_of_S window_B i op Hop), bytes_at_split by lia. done.
Qed.

(** An op of the second window that does not copy from its source. *)
Lemma compose_plain_ok i op b :
  ops window_B !! i = Some op → action_code op ≠ svn_txdelta_source →
  makes b (bytes_at 0 (start i) target) →
  let data := if action_eqb (action_code op) svn_txdelta_new
              then drop (Z.to_nat (offset op)) (new_data window_B) else [] in
  makes (svn_txdelta__insert_op b (action_code op) (offset op) (op_length op) data)
    (bytes_at 0 (start (S i)) target).
Proof.
  intros Hop Hne Hm data.
  destruct (op_text window_B middle Hvalid_B Hnonempty_B middle_length i op Hop)
    as (? & ? & ? & Hact).
  pose proof (op_nonempty window_B Hnonempty_B i op Hop).
  assert (blen (bytes_at 0 (start i) target) = start i) as Hlen by (apply blen_bytes_at; lia).
  unfold data. destruct (action_code op); [done| |].
  - destruct Hact as [Hlt Hself].
    rewrite (compose_op_text i op _ Hop eq_refl).
    apply makes_target; [done|done|lia|lia|apply blen_bytes_at; lia|].
    intros k Hk.
    rewrite <- (compose_op_text i op _ Hop eq_refl), (start_of_S window_B i op Hop).
    rewrite !byte_at_bytes by lia. rewrite Z.add_0_l. symmetry. by apply Hself.
  - destruct Hact as [Hle Hnew].
    rewrite (compose_op_text i op (bytes_at 0 (op_length op)
      (drop (Z.to_nat (offset op)) (new_data window_B))) Hop).
    + apply makes_new; [done|done|lia|]. simpl. unfold blen in *. rewrite length_drop. lia.
    + rewrite Hnew. unfold bytes_at. by rewrite drop_0.
Qed.

Lemma compose_ops_ok ops_ i b ndx :
  drop i (ops window_B) = ops_ → (i <= length (ops window_B))%nat →
  index_wf ndx → truthful (nodes ndx) (bytes_at 0 (start i) target) →
  makes b (bytes_at 0 (start i) target) →
  ∃ b', compose_ops window_A window_B ops_ (start i) b ndx = Ok b' ∧ makes b' target.
Proof.
  revert i b ndx; induction ops_ as [|op ops_ IH]; intros i b ndx Hdrop Hi Hwf Htruth Hm.
  { exists b. split; [done|]. apply (f_equal length) in Hdrop. rewrite length_drop in Hdrop.
    replace i with (length (ops window_B)) in Hm by (simpl in Hdrop; lia).
    rewrite (start_of_end window_B middle), bytes_at_all in Hm by (done || apply middle_length).
    done. }
  assert (ops window_B !! i = Some op) as Hop.
  { rewrite <- (Nat.add_0_r i), <- lookup_drop, Hdrop. done. }
  assert (drop (S i) (ops window_B) = ops_) as Hdrop'.
  { rewrite <- Nat.add_1_r, <- drop_drop, Hdrop. simpl. by rewrite drop_0. }
  assert (Hi' := lookup_lt_Some _ _ _ Hop).
  pose proof (op_nonempty window_B Hnonempty_B i op Hop) as Hpos.
  destruct (op_text window_B middle Hvalid_B Hnonempty_B middle_length i op Hop)
    as (H0 & Hend & Hoff & Hact).
  assert (blen (bytes_at 0 (start i) target) = start i) as Hlen by (apply blen_bytes_at; lia).
  pose proof (start_of_S window_B i op Hop) as HS.
  assert (blen (bytes_at 0 (start (S i)) target) = start (S i)) as HlenS
    by (apply blen_bytes_at; lia).
  cbn [compose_ops]. rewrite <- HS.
  destruct (action_eqb_spec (action_code op) svn_txdelta_source) as [Hsrc|Hsrc]; cbn [negb].
  2:{ cbn [rbind]. apply IH; [done|lia|done| |by apply compose_plain_ok].
      rewrite (compose_op_text i op _ Hop eq_refl). by apply truthful_app. }
  rewrite Hsrc in Hact. destruct Hact as [Hle Htext].
  pose proof middle_length as Hmid.
  pose proof (compose_op_text i op _ Hop (eq_sym Htext)) as Hnext.
  destruct (splay_range_index_ok (offset op) ndx Hwf) as (ndx1 & -> & Hwf1 & Hnodes & Hplaced).
  cbn [rbind]. rewrite <- Hnodes in Hplaced, Htruth.
  set (limit := offset op + op_length op).
  assert (op_length op = limit - offset op) as Hol by (unfold limit; lia).
  destruct (build_range_list_ok (offset op) limit ndx1 Hwf1) as (ranges & -> & Htiles); [lia|].
  cbn [rbind].
  destruct (compose_ranges_ok (nodes ndx1) ranges (offset op) limit (start i) b _
    Htiles Htruth ltac:(lia) ltac:(lia) Hm Hlen) as (b1 & -> & Hm1).
  cbn [rbind]. unfold guarded. if_true by lia.
  destruct (insert_range_ok (offset op) limit (start i) ndx1 Hwf1 Hplaced)
    as (ndx2 & -> & Hwf2 & Hgains). cbn [rbind].
  rewrite <- Hol, <- Hnext in Hm1. apply IH; [done|lia|done| |done].
  eapply truthful_gains; [done|by rewrite Hnext; apply truthful_app|lia..|].
  rewrite <- Hol, bytes_at_inner by lia. done.
Qed.

Lemma compose_ok :
  ∃ window,
    svn_txdelta_compose_windows window_A window_B = Ok window
    ∧ sview_offset window = sview_offset window_A ∧ sview_len window = sview_len window_A
    ∧ tview_len window = tview_len window_B
    ∧ window_text window source = target
    ∧ ops_verified (sview_len window_A) (tview_len window_B) (blen (new_data window)) 0 0
        (ops window)
    ∧ src_ops window = source_ops (ops window).
Proof.
  unfold svn_txdelta_compose_windows.
  destruct (compose_ops_ok (ops window_B) 0 empty_baton create_range_index) as (b & Hc & Hm).
  - by rewrite drop_0.
  - lia.
  - apply create_range_index_wf.
  - by intros id node Hn; cbn [nodes create_range_index] in Hn; apply lookup_empty_Some in Hn.
  - apply makes_empty.
  - rewrite start_of_0 in Hc. rewrite Hc. cbn [rbind]. eexists. split; [done|].
    do 3 (split; [done|]). pose proof (makes_length source (sview_len window_A) Hsource b target Hm) as Hlen.
    destruct Hm as [[Hv Hn _] Ht Hne Hs]. split; [done|]. split; [|done].
    split; [done|done| |done]. simpl. rewrite Hlen.
    rewrite (text_length window_B middle) by (done || apply middle_length). done.
Qed.
End Compose.

Lemma window_ok_valid w :
  window_ok w → window_valid w = true ∧ ops_nonempty (ops w) = true.
Proof.
  intros [[Hv Hn Hl _] _ _ _]. split; [|done]. unfold window_valid. rewrite Hv. simpl. lia.
Qed.

(** C3: svn_txdelta_compose_windows of two valid windows, the second of
    which reads the target of the first, ends without a failed assertion,
    and the composite is a valid window with the source view of the first
    and the target length of the second that, applied to any source view,
    writes what applying the second window to the text of the first writes. *)
Theorem svn_txdelta_compose_windows_spec (window_A window_B : svn_txdelta_window_t) :
  window_ok window_A → window_ok window_B → sview_len window_B <= tview_len window_A →
  ∃ composite,
    svn_txdelta_compose_windows window_A window_B = Ok composite
    ∧ window_ok composite ∧ src_ops composite = source_ops (ops composite)
    ∧ sview_offset composite = sview_offset window_A
    ∧ sview_len composite = sview_len window_A
    ∧ ∀ source tlen,
        sview_len window_A <= blen source → 0 <= tlen →
        svn_txdelta_apply_instructions composite source tlen
        = svn_txdelta_apply_instructions window_B (window_text window_A source) tlen.
Proof.
  intros HA HB Hview. destruct (window_ok_valid _ HA) as [HvA HnA].
  destruct (window_ok_valid _ HB) as [HvB HnB].
  destruct (compose_ok window_A window_B (replicate (Z.to_nat (sview_len window_A)) x00)
    HvA HnA) as (composite & Hc & Ho & Hs & Ht & _ & Hv & Hsrc); [|done..|].
  { unfold blen. rewrite length_replicate. pose proof (ok_sview _ HA). lia. }
  assert (window_ok composite) as Hok.
  { split; rewrite ?Ho, ?Hs, ?Ht; [done|apply HB|apply HA|apply HA]. }
  exists composite. do 5 (split; [done|]). intros source tlen Hsource Htlen.
  destruct (compose_ok window_A window_B source HvA HnA Hsource HvB HnB Hview)
    as (c' & Hc' & _ & _ & _ & Htext & _). rewrite Hc in Hc'. injection Hc' as <-.
  destruct (svn_txdelta_apply_instructions_ok composite source tlen) as [-> _];
    [by apply window_ok_valid|lia|done|].
  destruct (svn_txdelta_apply_instructions_ok window_B (window_text window_A source) tlen)
    as [-> _]; [done|by rewrite text_length|done|].
  by rewrite Htext, Ht.
Qed.

(** Two example windows: a copy that repeats itself, and cuts out of it. *)
Definition example_A : svn_txdelta_window_t :=
  MkWindow 7 8 20 1
    [MkOp svn_txdelta_source 0 8; MkOp svn_txdelta_target 5 10; MkOp svn_txdelta_new 0 2]
    (String.list_byte_of_string "xy").
Definition example_B : svn_txdelta_window_t :=
  MkWindow 0 20 24 3
    [MkOp svn_txdelta_source 10 10; MkOp svn_txdelta_source 6 8; MkOp svn_txdelta_new 0 1;
     MkOp svn_txdelta_source 12 5]
    (String.list_byte_of_string "!").

Lemma svn_txdelta_compose_windows_spec_witness :
  ∃ composite,
    svn_txdelta_compose_windows example_A example_B = Ok composite
    ∧ window_ok composite ∧ src_ops composite = source_ops (ops composite)
    ∧ sview_offset composite = 7
    ∧ sview_len composite = 8
    ∧ ∀ source tlen,
        8 <= blen source → 0 <= tlen →
        svn_txdelta_apply_instructions composite source tlen
        = svn_txdelta_apply_instructions example_B (window_text example_A source) tlen.
Proof.
  apply (svn_txdelta_compose_windows_spec example_A example_B); [by split|by split|done].
Defined.
