(* ===== verification/DiffLcs.v ===== *)
(** * Longest common subsequences

    [src/subversion/libsvn_diff/lcs.c], and the counting of tokens of [diff.c].

    A ring of positions is the list of the token indices of a file (or of a part
    of one) with the offset of the first of them; the offsets of the others
    follow.  A position is an index of the list; the list's length stands for the
    sentinel that [svn_diff__lcs] links between the tail and the head of the
    ring.  The nodes of a chain of matches are never changed once they are
    linked, so that a chain is a list; the recycling of unused nodes through a
    free list is memory management and not modelled. *)
From S2P Require Import Prelude.

(** ** Data *)

(** [None] in place of a ring is a null pointer: the file has no token. *)
Record ring := MkRing {
  ring_tokens : list Z;
  ring_offset : Z;
}.

(** The positions of a file whose first line has the given offset. *)
Definition ring_of (tokens : list Z) (offset : Z) : option ring :=
  match tokens with [] => None | _ => Some (MkRing tokens offset) end.

(** A [svn_diff__lcs_t]: the offsets of its two positions, and its length. *)
Record svn_diff__lcs_t := MkLcs {
  lcs_position0 : Z;
  lcs_position1 : Z;
  lcs_length : Z;
}.

Record svn_diff__snake_t := MkSnake {
  sn_y : Z;
  sn_lcs : list svn_diff__lcs_t;
  sn_position0 : option nat;
  sn_position1 : option nat;
}.

Definition null_snake : svn_diff__snake_t := MkSnake 0 [] None None.

(** ** Counting tokens *)

(** [token_counts[token]++]. *)
Definition count_token (token_counts : list Z) (token : Z) : result (list Z) :=
  match (if token <? 0 then None else token_counts !! Z.to_nat token) with
  | Some n => Ok (<[Z.to_nat token := n + 1]> token_counts)
  | None => Undefined
  end.

Fixpoint count_tokens (token_counts : list Z) (tokens : list Z) : result (list Z) :=
  match tokens with
  | [] => Ok token_counts
  | token :: tokens =>
      let! token_counts := count_token token_counts token in
      count_tokens token_counts tokens
  end.

Definition svn_diff__get_token_counts (loop_start : option ring) (num_tokens : nat)
    : result (list Z) :=
  count_tokens (replicate num_tokens 0)
    match loop_start with Some r => ring_tokens r | None => [] end.

(** ** Snakes *)

Section Lcs.
Context (list1 list2 : ring) (token_counts1 token_counts2 : list Z).
Abbreviation tokens0 := (ring_tokens list1).
Abbreviation tokens1 := (ring_tokens list2).

(** The fields [token_index], [next] and [offset] of positions. *)
Definition token_at0 (i : nat) : Z := default (-1) (tokens0 !! i).
Definition token_at1 (i : nat) : Z := default (-2) (tokens1 !! i).
Definition next0 (i : nat) : nat := if (i =? length tokens0)%nat then 0%nat else S i.
Definition next1 (i : nat) : nat := if (i =? length tokens1)%nat then 0%nat else S i.
Definition offset_at0 (i : nat) : Z := ring_offset list1 + Z.of_nat i.
Definition offset_at1 (i : nat) : Z := ring_offset list2 + Z.of_nat i.

Definition count_at (token_counts : list Z) (token : Z) : result Z :=
  from_option Ok Undefined (token_counts !! Z.to_nat token).

Fixpoint match_loop (fuel : nat) (position0 position1 : nat) : result (nat * nat) :=
  if token_at0 position0 =? token_at1 position1 then
    match fuel with
    | O => OutOfFuel
    | S fuel => match_loop fuel (next0 position0) (next1 position1)
    end
  else Ok (position0, position1).

(** [token >= 0 && token_counts[token] == 0] *)
Definition is_unique (token_counts : list Z) (token : Z) : result bool :=
  if 0 <=? token then let! n := count_at token_counts token in Ok (n =? 0) else Ok false.

(** The outer loop; at its head, the positions are the start positions. *)
Fixpoint snake_loop (fuel : nat) (start0 start1 : nat)
    (previous_lcs : list svn_diff__lcs_t) : result (nat * nat * list svn_diff__lcs_t) :=
  let! (position0, position1) := match_loop (length tokens0) start0 start1 in
  let previous_lcs :=
    if (position1 =? start1)%nat then previous_lcs
    else MkLcs (offset_at0 start0) (offset_at1 start1)
           (offset_at1 position1 - offset_at1 start1) :: previous_lcs in
  let! unique0 := is_unique token_counts2 (token_at0 position0) in
  if unique0 then
    match fuel with
    | O => OutOfFuel
    | S fuel => snake_loop fuel (next0 position0) position1 previous_lcs
    end
  else
    let! unique1 := is_unique token_counts1 (token_at1 position1) in
    if unique1 then
      match fuel with
      | O => OutOfFuel
      | S fuel => snake_loop fuel position0 (next1 position1) previous_lcs
      end
    else Ok (position0, position1, previous_lcs).

(** The array [fp] with the place of its origin. *)
Record snake_array := MkArray {
  origin : Z;
  snakes : list svn_diff__snake_t;
}.

Definition fp_at (fp : snake_array) (k : Z) : result svn_diff__snake_t :=
  if origin fp + k <? 0 then Undefined
  else from_option Ok Undefined (snakes fp !! Z.to_nat (origin fp + k)).

Definition set_fp (fp : snake_array) (k : Z) (snake : svn_diff__snake_t)
    : result snake_array :=
  if (0 <=? origin fp + k) && (origin fp + k <? Z.of_nat (length (snakes fp)))
  then Ok (MkArray (origin fp) (<[Z.to_nat (origin fp + k) := snake]> (snakes fp)))
  else Undefined.

(** Following a pointer to a position. *)
Definition pointee (position : option nat) : result nat := from_option Ok Undefined position.

Definition svn_diff__snake (fp : snake_array) (k : Z) : result snake_array :=
  let! left_ := fp_at fp (k - 1) in
  let! right_ := fp_at fp (k + 1) in
  let! (start0, start1, previous_lcs) :=
    if sn_y right_ <=? sn_y left_ then
      let! start1 := pointee (sn_position1 left_) in
      let! start0 := pointee (sn_position0 left_) in
      Ok (start0, next1 start1, sn_lcs left_)
    else
      let! start0 := pointee (sn_position0 right_) in
      let! start1 := pointee (sn_position1 right_) in
      Ok (next0 start0, start1, sn_lcs right_) in
  let! (position0, position1, lcs) :=
    snake_loop (length tokens0 + length tokens1) start0 start1 previous_lcs in
  set_fp fp k (MkSnake (offset_at1 position1) lcs (Some position0) (Some position1)).

(** ** The rounds *)

(** [n] snakes, from [k] upwards or downwards. *)
Fixpoint snakes_up (n : nat) (k : Z) (fp : snake_array) : result snake_array :=
  match n with
  | O => Ok fp
  | S n => let! fp := svn_diff__snake fp k in snakes_up n (k + 1) fp
  end.

Fixpoint snakes_down (n : nat) (k : Z) (fp : snake_array) : result snake_array :=
  match n with
  | O => Ok fp
  | S n => let! fp := svn_diff__snake fp k in snakes_down n (k - 1) fp
  end.

(** One round of the [do] loop. *)
Definition lcs_round (d p : Z) (fp : snake_array) : result snake_array :=
  let low := (if d <? 0 then d else 0) - p in
  let high := (if 0 <? d then d else 0) + p in
  let! fp := snakes_up (Z.to_nat (- low)) low fp in
  snakes_down (Z.to_nat (high + 1)) high fp.

(** The [do] loop. *)
Fixpoint lcs_loop (fuel : nat) (d p : Z) (fp : snake_array) : result snake_array :=
  let! fp := lcs_round d p fp in
  let! snake := fp_at fp 0 in
  if bool_decide (sn_position1 snake = Some (length tokens1)) then Ok fp
  else
    match fuel with
    | O => OutOfFuel
    | S fuel => lcs_loop fuel d (p + 1) fp
    end.
End Lcs.

(** The tokens of the other file that this one does not have. *)
Fixpoint unique_count (counts other_counts : list Z) : Z :=
  match counts, other_counts with
  | n :: counts, m :: other_counts =>
      (if n =? 0 then m else 0) + unique_count counts other_counts
  | _, _ => 0
  end.

(** Assumes [lines > 0]. *)
Definition prepend_lcs (lcs : list svn_diff__lcs_t) (lines pos0_offset pos1_offset : Z)
    : result (list svn_diff__lcs_t) :=
  assert! 0 <? lines in Ok (MkLcs pos0_offset pos1_offset lines :: lcs).

(** The offset of the end-of-file position of a file. *)
Definition eof_offset (position_list : option ring) (prefix_lines suffix_lines : Z) : Z :=
  match position_list with
  | Some r => (ring_offset r + Z.of_nat (length (ring_tokens r)) - 1) + suffix_lines + 1
  | None => prefix_lines + suffix_lines + 1
  end.

(** [svn_diff__lcs] for files that both have tokens, up to the last round. *)
Definition lcs_middle (list1 list2 : ring) (token_counts1 token_counts2 : list Z)
    : result (list svn_diff__lcs_t) :=
  let n0 := Z.of_nat (length (ring_tokens list1)) in
  let n1 := Z.of_nat (length (ring_tokens list2)) in
  let length0 := n0 - unique_count token_counts2 token_counts1 in
  let length1 := n1 - unique_count token_counts1 token_counts2 in
  let fp := MkArray (length1 + 1) (replicate (Z.to_nat (length0 + length1 + 3)) null_snake) in
  let d := length0 - length1 in
  let! fp := set_fp fp (d - 1) (MkSnake 0 [] (Some 0%nat) (Some (length (ring_tokens list2)))) in
  let! fp := lcs_loop list1 list2 token_counts1 token_counts2
               (Z.to_nat (Z.min length0 length1)) d 0 fp in
  let! snake := fp_at fp 0 in
  Ok (sn_lcs snake).

(** Null rings are [None]. *)
Definition svn_diff__lcs (position_list1 position_list2 : option ring)
    (token_counts_list1 token_counts_list2 : list Z) (prefix_lines suffix_lines : Z)
    : result (list svn_diff__lcs_t) :=
  let eof := MkLcs (eof_offset position_list1 prefix_lines suffix_lines)
               (eof_offset position_list2 prefix_lines suffix_lines) 0 in
  let with_suffix lcs :=
    if negb (suffix_lines =? 0)
    then prepend_lcs lcs suffix_lines (lcs_position0 eof - suffix_lines)
           (lcs_position1 eof - suffix_lines)
    else Ok lcs in
  let with_prefix lcs :=
    if negb (prefix_lines =? 0) then prepend_lcs lcs prefix_lines 1 1 else Ok lcs in
  match position_list1, position_list2 with
  | Some list1, Some list2 =>
      let! lcs := lcs_middle list1 list2 token_counts_list1 token_counts_list2 in
      let! lcs := with_suffix lcs in
      with_prefix (reverse lcs ++ [eof])
  | _, _ =>
      let! lcs := with_suffix [eof] in
      with_prefix lcs
  end.

Example lcs_example :
  let list1 := MkRing [0; 1; 2; 3; 0; 4] 1 in
  let list2 := MkRing [5; 1; 2; 0; 4; 6; 3] 1 in
  (let! counts1 := svn_diff__get_token_counts (Some list1) 7 in
   let! counts2 := svn_diff__get_token_counts (Some list2) 7 in
   svn_diff__lcs (Some list1) (Some list2) counts1 counts2 0 2)
  = Ok [MkLcs 2 2 2; MkLcs 5 4 2; MkLcs 7 8 2; MkLcs 9 10 0].
Proof. vm_compute. reflexivity. Qed.
