(* ===== verification/DiffLcsRounds.v ===== *)
(** * Longest common subsequences: snakes and rounds

    A state is a pair of positions; on diagonal [k], [k] more tokens are left of
    the first file than of the second, tokens that only one file has left out.
    After round [p], the array holds for each diagonal the furthest state that
    can be reached with [p] costly steps: no common subsequence is missed. *)
From S2P Require Import Prelude DiffLcs.

(** [counts] are the numbers of occurrences in [tokens] of the token indices. *)
Definition counts_of (tokens counts : list Z) : Prop :=
  ∀ token : Z, 0 <= token < Z.of_nat (length counts) →
    counts !! Z.to_nat token = Some (Z.of_nat (count_occ Z.eq_dec tokens token)).

Definition in_range (num : nat) (tokens : list Z) : Prop :=
  Forall (λ token, 0 <= token < Z.of_nat num) tokens.

Lemma filter_all {A} (P : A → Prop) `{∀ x, Decision (P x)} (l : list A) :
  (∀ x, x ∈ l → P x) → filter P l = l.
Proof.
  induction l as [|x l IH]; intros Hl; [done|].
  rewrite filter_cons_True by (apply Hl; by left). f_equal. apply IH. set_solver.
Qed.

Section Snake.
Context (t0 t1 : list Z) (o0 o1 : Z) (counts1 counts2 : list Z).
Hypothesis Hcounts1 : counts_of t0 counts1.
Hypothesis Hcounts2 : counts_of t1 counts2.
Hypothesis Ht0 : in_range (length counts2) t0.
Hypothesis Ht1 : in_range (length counts1) t1.

Abbreviation list1 := (MkRing t0 o0).
Abbreviation list2 := (MkRing t1 o1).
Abbreviation n0 := (length t0).
Abbreviation n1 := (length t1).

(** ** What is left of a file, without the tokens that the other lacks *)

Definition rest0 (i : nat) : list Z := filter (λ x, x ∈ t1) (drop i t0).
Definition rest1 (j : nat) : list Z := filter (λ x, x ∈ t0) (drop j t1).

(** ** Chains of matches *)

(** The matches of the chain end before the positions [i] and [j]. *)
Fixpoint chain_ok (chain : list svn_diff__lcs_t) (i j : nat) : Prop :=
  match chain with
  | [] => True
  | lcs :: chain =>
      ∃ (a b len : nat),
        lcs = MkLcs (o0 + Z.of_nat a) (o1 + Z.of_nat b) (Z.of_nat len)
        ∧ (0 < len)%nat ∧ (a + len <= i)%nat ∧ (b + len <= j)%nat
        ∧ take len (drop a t0) = take len (drop b t1)
        ∧ chain_ok chain a b
  end.

Fixpoint matched (chain : list svn_diff__lcs_t) : Z :=
  match chain with [] => 0 | lcs :: chain => lcs_length lcs + matched chain end.

Lemma chain_ok_mono chain i j i' j' :
  chain_ok chain i j → (i <= i')%nat → (j <= j')%nat → chain_ok chain i' j'.
Proof.
  destruct chain as [|lcs chain]; [done|].
  intros (a & b & len & ? & ? & ? & ? & ? & ?) ??. exists a, b, len.
  do 2 (split; [done|]). split; [lia|]. split; [lia|]. done.
Qed.

(** ** Tokens *)

Lemma token0_nonneg i x : t0 !! i = Some x → 0 <= x.
Proof. intros Hx. eapply Forall_lookup_1 in Ht0; [|done]. simpl in Ht0. lia. Qed.

Lemma token1_nonneg j x : t1 !! j = Some x → 0 <= x.
Proof. intros Hx. eapply Forall_lookup_1 in Ht1; [|done]. simpl in Ht1. lia. Qed.

Lemma is_unique_ok (tokens other counts : list Z) (i : nat) (none : Z) :
  counts_of other counts → in_range (length counts) tokens → none < 0 →
  is_unique counts (default none (tokens !! i))
  = Ok (match tokens !! i with Some x => bool_decide (x ∉ other) | None => false end).
Proof.
  intros Hc Hr Hnone. unfold is_unique, count_at. destruct (tokens !! i) as [x|] eqn:Hx; simpl.
  - eapply Forall_lookup_1 in Hr; [|done]. simpl in Hr. if_true by lia.
    rewrite Hc by lia. simpl. f_equal.
    destruct (decide (x ∈ other)) as [Hin|Hnin].
    + rewrite bool_decide_false by (by intros ?). apply list_elem_of_In in Hin.
      apply (count_occ_In Z.eq_dec) in Hin. lia.
    + rewrite bool_decide_true by done. rewrite list_elem_of_In in Hnin.
      apply (count_occ_not_In Z.eq_dec) in Hnin. by rewrite Hnin.
  - if_false by lia. done.
Qed.

Lemma next0_lt i : (i < n0)%nat → next0 list1 i = S i.
Proof. intros. unfold next0. simpl. destruct (Nat.eqb_spec i n0); [lia|done]. Qed.

Lemma next1_lt j : (j < n1)%nat → next1 list2 j = S j.
Proof. intros. unfold next1. simpl. destruct (Nat.eqb_spec j n1); [lia|done]. Qed.

(** ** Matching *)

Definition differ (i j : nat) : Prop := ∀ x, t0 !! i = Some x → t1 !! j ≠ Some x.

Lemma tokens_equal i j :
  (token_at0 list1 i =? token_at1 list2 j) = true ↔ ∃ x, t0 !! i = Some x ∧ t1 !! j = Some x.
Proof.
  unfold token_at0, token_at1. simpl. split.
  - intros Heq%Z.eqb_eq. destruct (t0 !! i) as [x|] eqn:Hx, (t1 !! j) as [y|] eqn:Hy;
      simpl in Heq; [subst; eauto| | |lia];
      [apply token0_nonneg in Hx|apply token1_nonneg in Hy]; lia.
  - intros (x & -> & ->). simpl. lia.
Qed.

Lemma match_loop_ok fuel i j :
  (i <= n0)%nat → (j <= n1)%nat → (n0 - i <= fuel)%nat →
  ∃ m, match_loop list1 list2 fuel i j = Ok ((i + m)%nat, (j + m)%nat)
    ∧ (i + m <= n0)%nat ∧ (j + m <= n1)%nat
    ∧ take m (drop i t0) = take m (drop j t1) ∧ differ (i + m) (j + m).
Proof.
  revert i j; induction fuel as [|fuel IH]; intros i j Hi Hj Hf; cbn [match_loop];
    (destruct (token_at0 list1 i =? token_at1 list2 j) eqn:Heq;
     [apply tokens_equal in Heq as (x & Hx0 & Hx1);
      assert (Hi' := lookup_lt_Some _ _ _ Hx0); assert (Hj' := lookup_lt_Some _ _ _ Hx1)
     |exists 0%nat; rewrite !Nat.add_0_r; split; [done|]; do 3 (split; [done|]);
      intros x Hx Hx'; assert ((token_at0 list1 i =? token_at1 list2 j) = true)
        by (apply tokens_equal; eauto); congruence]); [lia|].
  rewrite next0_lt, next1_lt by done.
  destruct (IH (S i) (S j)) as (m & -> & ? & ? & Htake & Hdiff); [lia..|].
  exists (S m). rewrite <- !Nat.add_succ_comm. split; [done|].
  split; [lia|]. split; [lia|]. split; [|done].
  rewrite (drop_S t0 x i), (drop_S t1 x j) by done. simpl. by rewrite Htake.
Qed.

(** ** The reduced rests *)

Lemma rest0_in i x : t0 !! i = Some x → x ∈ t1 → rest0 i = x :: rest0 (S i).
Proof. intros Hx Hin. unfold rest0. rewrite (drop_S t0 x i) by done. by rewrite filter_cons_True. Qed.

Lemma rest0_notin i x : t0 !! i = Some x → x ∉ t1 → rest0 i = rest0 (S i).
Proof. intros Hx Hin. unfold rest0. rewrite (drop_S t0 x i) by done. by rewrite filter_cons_False. Qed.

Lemma rest1_in j x : t1 !! j = Some x → x ∈ t0 → rest1 j = x :: rest1 (S j).
Proof. intros Hx Hin. unfold rest1. rewrite (drop_S t1 x j) by done. by rewrite filter_cons_True. Qed.

Lemma rest1_notin j x : t1 !! j = Some x → x ∉ t0 → rest1 j = rest1 (S j).
Proof. intros Hx Hin. unfold rest1. rewrite (drop_S t1 x j) by done. by rewrite filter_cons_False. Qed.

Lemma rest_common m i j :
  (i + m <= n0)%nat → (j + m <= n1)%nat → take m (drop i t0) = take m (drop j t1) →
  rest0 i = take m (drop i t0) ++ rest0 (i + m) ∧ rest1 j = take m (drop i t0) ++ rest1 (j + m).
Proof.
  intros Hi Hj Heq. assert (∀ x, x ∈ take m (drop i t0) → x ∈ t0 ∧ x ∈ t1) as Hin.
  { intros x Hx. assert (Hx' := Hx). rewrite Heq in Hx'.
    apply elem_of_take in Hx as (k & Hx & _). apply elem_of_take in Hx' as (k' & Hx' & _).
    rewrite lookup_drop in Hx, Hx'. split; by eapply list_elem_of_lookup_2. }
  unfold rest0, rest1.
  rewrite <- (take_drop m (drop i t0)) at 1. rewrite <- (take_drop m (drop j t1)) at 1.
  rewrite !filter_app, !drop_drop, <- Heq. split; f_equal.
  - apply filter_all. intros x Hx. by apply Hin.
  - apply filter_all. intros x Hx. by apply Hin.
Qed.
Lemma rest0_mono i i' : (i <= i')%nat → (length (rest0 i') <= length (rest0 i))%nat.
Proof.
  intros Hi. unfold rest0. replace i' with (i + (i' - i))%nat by lia.
  rewrite <- (take_drop (i' - i) (drop i t0)) at 1. rewrite filter_app, length_app, drop_drop. lia.
Qed.

Lemma rest1_mono j j' : (j <= j')%nat → (length (rest1 j') <= length (rest1 j))%nat.
Proof.
  intros Hj. unfold rest1. replace j' with (j + (j' - j))%nat by lia.
  rewrite <- (take_drop (j' - j) (drop j t1)) at 1. rewrite filter_app, length_app, drop_drop. lia.
Qed.

(** ** Where a snake stops *)

Definition settled0 (i : nat) : Prop := i = n0 ∨ ∃ x, t0 !! i = Some x ∧ x ∈ t1.
Definition settled1 (j : nat) : Prop := j = n1 ∨ ∃ x, t1 !! j = Some x ∧ x ∈ t0.

Record stops (i j : nat) : Prop := {
  stops_settled0 : settled0 i;
  stops_settled1 : settled1 j;
  stops_differ : differ i j;
}.

Lemma settled0_step i : settled0 i → (i < n0)%nat → length (rest0 i) = S (length (rest0 (S i))).
Proof. intros [->|(x & Hx & Hin)] ?; [lia|]. by rewrite (rest0_in i x). Qed.

Lemma settled1_step j : settled1 j → (j < n1)%nat → length (rest1 j) = S (length (rest1 (S j))).
Proof. intros [->|(x & Hx & Hin)] ?; [lia|]. by rewrite (rest1_in j x). Qed.

Lemma settled0_end i : (i <= n0)%nat → settled0 i → (length (rest0 i) = 0%nat ↔ i = n0).
Proof.
  intros Hi Hs. split; [|intros ->; unfold rest0; by rewrite drop_all].
  intros Hl. destruct (decide (i = n0)); [done|]. rewrite settled0_step in Hl by (done || lia). lia.
Qed.

Lemma settled1_end j : (j <= n1)%nat → settled1 j → (length (rest1 j) = 0%nat ↔ j = n1).
Proof.
  intros Hj Hs. split; [|intros ->; unfold rest1; by rewrite drop_all].
  intros Hl. destruct (decide (j = n1)); [done|]. rewrite settled1_step in Hl by (done || lia). lia.
Qed.

(** The positions of the second file, settled, are ordered by what is left. *)
Lemma settled1_lt j j' :
  (j' <= n1)%nat → settled1 j → (j < j')%nat → (length (rest1 j') < length (rest1 j))%nat.
Proof.
  intros Hj' Hs Hlt. rewrite (settled1_step j) by (done || lia).
  pose proof (rest1_mono (S j) j' ltac:(lia)). lia.
Qed.

(** ** The snake *)

(** The chain after a run of [m] matches. *)
Definition extended (chain : list svn_diff__lcs_t) (i j m : nat) : list svn_diff__lcs_t :=
  if (j + m =? j)%nat then chain
  else MkLcs (offset_at0 list1 i) (offset_at1 list2 j)
         (offset_at1 list2 (j + m) - offset_at1 list2 j) :: chain.

Lemma extended_ok chain i j m :
  chain_ok chain i j → take m (drop i t0) = take m (drop j t1) →
  (i + m <= n0)%nat → (j + m <= n1)%nat →
  chain_ok (extended chain i j m) (i + m) (j + m)
  ∧ matched (extended chain i j m)
    = matched chain + Z.of_nat (length (take m (drop i t0))).
Proof.
  intros Hc Htake Hi Hj. rewrite length_take, length_drop, Nat.min_l by lia. unfold extended.
  destruct (Nat.eqb_spec (j + m) j) as [Hm|Hm].
  - replace m with 0%nat in * by lia. rewrite !Nat.add_0_r. split; [done|lia].
  - unfold offset_at0, offset_at1. simpl. split; [|lia]. exists i, j, m.
    split; [f_equal; lia|]. split; [lia|]. split; [lia|]. split; [lia|]. done.
Qed.

(** The tests for tokens that the other file lacks. *)
Definition skips0 (i : nat) : bool :=
  match t0 !! i with Some x => bool_decide (x ∉ t1) | None => false end.
Definition skips1 (j : nat) : bool :=
  match t1 !! j with Some x => bool_decide (x ∉ t0) | None => false end.

Lemma skips0_ok i : (i <= n0)%nat →
  if skips0 i then (i < n0)%nat ∧ rest0 i = rest0 (S i) else settled0 i.
Proof.
  intros Hi. unfold skips0. destruct (t0 !! i) as [x|] eqn:Hx.
  - case_bool_decide as Hin; [|right; exists x; split; [done|]; by destruct (decide (x ∈ t1))].
    split; [by eapply lookup_lt_Some|]. by apply (rest0_notin i x).
  - left. apply lookup_ge_None in Hx. lia.
Qed.

Lemma skips1_ok j : (j <= n1)%nat →
  if skips1 j then (j < n1)%nat ∧ rest1 j = rest1 (S j) else settled1 j.
Proof.
  intros Hj. unfold skips1. destruct (t1 !! j) as [x|] eqn:Hx.
  - case_bool_decide as Hin; [|right; exists x; split; [done|]; by destruct (decide (x ∈ t0))].
    split; [by eapply lookup_lt_Some|]. by apply (rest1_notin j x).
  - left. apply lookup_ge_None in Hx. lia.
Qed.

(** The promise of the loop. *)
Definition snaked (i j : nat) (chain : list svn_diff__lcs_t)
    (out : result (nat * nat * list svn_diff__lcs_t)) : Prop :=
  ∃ i' j' chain' common,
    out = Ok (i', j', chain')
    ∧ (i <= i' <= n0)%nat ∧ (j <= j' <= n1)%nat ∧ chain_ok chain' i' j' ∧ stops i' j'
    ∧ rest0 i = common ++ rest0 i' ∧ rest1 j = common ++ rest1 j'
    ∧ matched chain' = matched chain + Z.of_nat (length common).

(** A run of matches in front. *)
Lemma snaked_more i j chain i1 j1 chain1 common out :
  snaked i1 j1 chain1 out → (i <= i1)%nat → (j <= j1)%nat →
  rest0 i = common ++ rest0 i1 → rest1 j = common ++ rest1 j1 →
  matched chain1 = matched chain + Z.of_nat (length common) →
  snaked i j chain out.
Proof.
  intros (i' & j' & c' & com & -> & ? & ? & ? & ? & H0 & H1 & Hm) ?? Hr0 Hr1 Hm1.
  exists i', j', c', (common ++ com). split; [done|]. split; [lia|]. split; [lia|].
  do 2 (split; [done|]). rewrite Hr0, Hr1, H0, H1, <- !app_assoc, length_app.
  split; [done|]. split; [done|]. lia.
Qed.

Lemma snake_loop_ok fuel i j chain :
  (i <= n0)%nat → (j <= n1)%nat → (n0 - i + (n1 - j) <= fuel)%nat → chain_ok chain i j →
  snaked i j chain (snake_loop list1 list2 counts1 counts2 fuel i j chain).
Proof.
  revert i j chain; induction fuel as [|fuel IH]; intros i j chain Hi Hj Hf Hc;
    cbn [snake_loop]; simpl ring_tokens;
    (destruct (match_loop_ok n0 i j) as (m & -> & Him & Hjm & Htake & Hdiff); [lia..|]);
    cbn [rbind]; fold (extended chain i j m);
    (destruct (extended_ok chain i j m Hc Htake Him Hjm) as [Hc' Hm']);
    (destruct (rest_common m i j Him Hjm Htake) as [Hr0 Hr1]);
    unfold token_at0, token_at1; simpl ring_tokens;
    rewrite (is_unique_ok t0 t1 counts2 _ (-1)) by (done || lia); cbn [rbind];
    rewrite (is_unique_ok t1 t0 counts1 _ (-2)) by (done || lia); cbn [rbind];
    fold (skips0 (i + m)) (skips1 (j + m));
    (eapply snaked_more; [|apply Nat.le_add_r|apply Nat.le_add_r|exact Hr0|exact Hr1|exact Hm']);
    pose proof (skips0_ok _ Him) as H0; pose proof (skips1_ok _ Hjm) as H1;
    (destruct (skips0 (i + m)); [|destruct (skips1 (j + m))]); try lia.
  - exists (i + m)%nat, (j + m)%nat, (extended chain i j m), []. split; [done|].
    split; [lia|]. split; [lia|]. split; [done|]. split; [by split|]. simpl.
    split; [done|]. split; [done|lia].
  - destruct H0 as [Hlt Hr]. rewrite next0_lt by done.
    eapply (snaked_more _ _ _ (S (i + m)) (j + m) _ []); [apply IH; try lia| | |done..|simpl; lia];
      [by eapply chain_ok_mono; [done|lia..]|lia|lia].
  - destruct H1 as [Hlt Hr]. rewrite next1_lt by done.
    eapply (snaked_more _ _ _ (i + m) (S (j + m)) _ []); [apply IH; try lia| | |done..|simpl; lia];
      [by eapply chain_ok_mono; [done|lia..]|lia|lia].
  - exists (i + m)%nat, (j + m)%nat, (extended chain i j m), []. split; [done|].
    split; [lia|]. split; [lia|]. split; [done|]. split; [by split|]. simpl.
    split; [done|]. split; [done|lia].
Qed.
End Snake.

(** ** Properties of the LCS computation: the rounds *)

Section Rounds.
Context (t0 t1 : list Z) (o0 o1 : Z) (counts1 counts2 : list Z).
Hypothesis Hcounts1 : counts_of t0 counts1.
Hypothesis Hcounts2 : counts_of t1 counts2.
Hypothesis Ht0 : in_range (length counts2) t0.
Hypothesis Ht1 : in_range (length counts1) t1.
Hypothesis Ho1 : 0 < o1.

Abbreviation list1 := (MkRing t0 o0).
Abbreviation list2 := (MkRing t1 o1).
Abbreviation n0 := (length t0).
Abbreviation n1 := (length t1).
Abbreviation rest0 := (rest0 t0 t1).
Abbreviation rest1 := (rest1 t0 t1).
Abbreviation chain_ok := (chain_ok t0 t1 o0 o1).
Abbreviation stops := (stops t0 t1).
Abbreviation zlen l := (Z.of_nat (length l)).

Definition left0 (i : nat) : Z := zlen (rest0 i).
Definition left1 (j : nat) : Z := zlen (rest1 j).
Abbreviation L0 := (left0 0).
Abbreviation L1 := (left1 0).
Let d := L0 - L1.

(** ** Ways through both files *)

(** With [m] matches, only [r0] and [r1] are left. *)
Inductive reach : Z → list Z → list Z → Prop :=
  | reach_start : reach 0 (rest0 0) (rest1 0)
  | reach_match m x r0 r1 : reach m (x :: r0) (x :: r1) → reach (m + 1) r0 r1
  | reach_delete m x r0 r1 : reach m (x :: r0) r1 → reach m r0 r1
  | reach_insert m x r0 r1 : reach m r0 (x :: r1) → reach m r0 r1.

(** The number of steps away from diagonal 0 that were not needed. *)
Definition cost (a b m : Z) : Z :=
  if L0 <=? L1 then (L0 - a - m) + Z.max (a - b) 0 else (L1 - b - m) + Z.max (b - a) 0.

Lemma reach_suffix m r0 r1 :
  reach m r0 r1 → (∃ u, rest0 0 = u ++ r0) ∧ (∃ v, rest1 0 = v ++ r1).
Proof.
  induction 1 as [|m x r0 r1 _ [(u & ->) (v & ->)]|m x r0 r1 _ [(u & ->) (v & ->)]
                 |m x r0 r1 _ [(u & ->) (v & ->)]].
  - split; by exists [].
  - split; [exists (u ++ [x])|exists (v ++ [x])]; by rewrite <- app_assoc.
  - split; [exists (u ++ [x])|exists v]; by rewrite <- ?app_assoc.
  - split; [exists u|exists (v ++ [x])]; by rewrite <- ?app_assoc.
Qed.

Lemma reach_bounds m r0 r1 :
  reach m r0 r1 → 0 <= m ∧ m <= L0 - zlen r0 ∧ m <= L1 - zlen r1.
Proof.
  unfold left0, left1. induction 1; cbn [length] in *; lia.
Qed.

(** ** States *)

(** The state of diagonal [k] after round [p] lets no reachable one ahead. *)
Definition dominates (k p : Z) (b : Z) : Prop :=
  ∀ m r0 r1, reach m r0 r1 → zlen r0 - zlen r1 = k → cost (zlen r0) (zlen r1) m <= p →
    b <= zlen r1.

Record live (k p : Z) (e : svn_diff__snake_t) (i j : nat) : Prop := {
  live_y : sn_y e = o1 + Z.of_nat j;
  live_position0 : sn_position0 e = Some i;
  live_position1 : sn_position1 e = Some j;
  live_i : (i <= n0)%nat;
  live_j : (j <= n1)%nat;
  live_stops : stops i j;
  live_diagonal : left0 i - left1 j = k;
  live_chain : chain_ok (sn_lcs e) i j;
  live_cost : cost (left0 i) (left1 j) (matched (sn_lcs e)) <= p;
  live_dominates : dominates k p (left1 j);
}.

(** No state of the diagonal can be reached at this cost. *)
Definition absent (k p : Z) : Prop :=
  ∀ m r0 r1, reach m r0 r1 → zlen r0 - zlen r1 = k → cost (zlen r0) (zlen r1) m <= p → False.

Definition in_reach (k p : Z) : Prop := Z.min d 0 - p <= k <= Z.max d 0 + p.

Lemma absent_out k p : p < 0 ∨ ¬ in_reach k p → absent k p.
Proof.
  intros Hout m r0 r1 Hr Hk Hc. pose proof (reach_bounds _ _ _ Hr) as (? & ? & ?).
  unfold cost, in_reach, d in *. destruct (Z.leb_spec L0 L1); lia.
Qed.

(** ** One step *)

(** The start of a snake on diagonal [k] in round [p]. *)
Record starts (k p : Z) (i j : nat) (chain : list svn_diff__lcs_t) : Prop := {
  starts_i : (i <= n0)%nat;
  starts_j : (j <= n1)%nat;
  starts_diagonal : left0 i - left1 j = k;
  starts_chain : chain_ok chain i j;
  starts_cost : cost (left0 i) (left1 j) (matched chain) <= p;
  starts_left : dominates (k - 1) (if 0 <=? k - 1 then p - 1 else p) (left1 j + 1);
  starts_right : dominates (k + 1) (if k + 1 <=? 0 then p - 1 else p) (left1 j);
}.

Lemma left1_mono j j' : (j <= j')%nat → left1 j' <= left1 j.
Proof. intros Hj. pose proof (rest1_mono t0 t1 j j' Hj). unfold left1. lia. Qed.

Lemma left0_mono i i' : (i <= i')%nat → left0 i' <= left0 i.
Proof. intros Hi. pose proof (rest0_mono t0 t1 i i' Hi). unfold left0. lia. Qed.

Lemma snake_dominates k p i j i' j' common :
  dominates (k - 1) (if 0 <=? k - 1 then p - 1 else p) (left1 j + 1) →
  dominates (k + 1) (if k + 1 <=? 0 then p - 1 else p) (left1 j) →
  (i' <= n0)%nat → (j' <= n1)%nat → stops i' j' → left0 i' - left1 j' = k →
  rest0 i = common ++ rest0 i' → rest1 j = common ++ rest1 j' →
  dominates k p (left1 j').
Proof.
  intros Hl Hr Hi' Hj' Hs Hk H0 H1 m r0 r1 Hreach. 
  assert (Hle : left1 j' <= left1 j) by (unfold left1; rewrite H1, length_app; lia).
  revert Hreach. induction 1 as [|m x r0 r1 Hreach IH|m x r0 r1 Hreach _|m x r0 r1 Hreach _];
    intros Hdiag Hcost.
  - apply left1_mono. lia.
  - cbn [length] in IH. 
    assert (left1 j' <= Z.of_nat (S (length r1))) as Hb.
    { apply IH; [lia|]. unfold cost in *. destruct (Z.leb_spec L0 L1); lia. }
    destruct (decide (left1 j' = Z.of_nat (S (length r1)))) as [Heq|]; [|lia]. exfalso.
    destruct (reach_suffix _ _ _ Hreach) as [(u & Hu) (v & Hv)].
    assert (∃ u', rest0 0 = u' ++ rest0 i') as (u' & Hu').
    { unfold DiffLcsRounds.rest0. exists (filter (λ x, x ∈ t1) (take i' t0)).
      by rewrite drop_0, <- filter_app, take_drop. }
    assert (∃ v', rest1 0 = v' ++ rest1 j') as (v' & Hv').
    { unfold DiffLcsRounds.rest1. exists (filter (λ x, x ∈ t0) (take j' t1)).
      by rewrite drop_0, <- filter_app, take_drop. }
    assert (rest0 i' = x :: r0) as Hri.
    { rewrite Hu in Hu'. apply app_inj_2 in Hu' as [_ ->]; [done|].
      unfold left0, left1 in *. simpl. lia. }
    assert (rest1 j' = x :: r1) as Hrj.
    { rewrite Hv in Hv'. apply app_inj_2 in Hv' as [_ ->]; [done|].
      unfold left0, left1 in *. simpl. lia. }
    destruct Hs as [Hs0 Hs1 Hdiff].
    destruct Hs0 as [->|(y & Hy & Hyin)]; [unfold DiffLcsRounds.rest0 in Hri; by rewrite drop_all in Hri|].
    destruct Hs1 as [->|(z & Hz & Hzin)]; [unfold DiffLcsRounds.rest1 in Hrj; by rewrite drop_all in Hrj|].
    rewrite (rest0_in _ _ _ _ Hy Hyin) in Hri. rewrite (rest1_in _ _ _ _ Hz Hzin) in Hrj.
    injection Hri as -> _. injection Hrj as -> _. by apply (Hdiff x).
  - etrans; [exact Hle|]. eapply (Hr m (x :: r0) r1); [done|cbn [length]; lia|].
    cbn [length]. unfold cost in *. destruct (Z.leb_spec L0 L1), (Z.leb_spec (k + 1) 0); lia.
  - assert (left1 j + 1 <= zlen (x :: r1)) as Hb; [|cbn [length] in Hb; lia].
    apply (Hl m r0 (x :: r1)); [done|cbn [length]; lia|].
    cbn [length]. unfold cost in *. destruct (Z.leb_spec L0 L1), (Z.leb_spec 0 (k - 1)); lia.
Qed.

Lemma snake_loop_live k p i j chain :
  starts k p i j chain →
  ∃ i' j' chain',
    snake_loop list1 list2 counts1 counts2 (n0 + n1) i j chain = Ok (i', j', chain')
    ∧ live k p (MkSnake (offset_at1 list2 j') chain' (Some i') (Some j')) i' j'
    ∧ (i <= i')%nat ∧ (j <= j')%nat.
Proof.
  intros [Hi Hj Hk Hc Hcost Hl Hr].
  destruct (snake_loop_ok t0 t1 o0 o1 counts1 counts2 Hcounts1 Hcounts2 Ht0 Ht1 (n0 + n1) i j chain)
    as (i' & j' & chain' & common & -> & Hi' & Hj' & Hc' & Hs & H0 & H1 & Hm); [lia..|done|].
  exists i', j', chain'. split; [done|]. split; [|lia].
  assert (left0 i = zlen common + left0 i') as Hl0
    by (unfold left0; rewrite H0, length_app; lia).
  assert (left1 j = zlen common + left1 j') as Hl1
    by (unfold left1; rewrite H1, length_app; lia).
  split; try done; try lia.
  - simpl. unfold cost in *. destruct (Z.leb_spec L0 L1); lia.
  - eapply (snake_dominates k p i j i' j' common); done || lia.
Qed.

(** ** The neighbours of a diagonal *)

Definition before_left (k p : Z) : Z := if 0 <=? k - 1 then p - 1 else p.
Definition before_right (k p : Z) : Z := if k + 1 <=? 0 then p - 1 else p.

Definition seed : svn_diff__snake_t := MkSnake 0 [] (Some 0%nat) (Some n1).

Inductive left_ok (k p : Z) (e : svn_diff__snake_t) : Prop :=
  | left_live i j : live (k - 1) (before_left k p) e i j → j ≠ n1 → left_ok k p e
  | left_null : e = null_snake → absent (k - 1) (before_left k p) → left_ok k p e
  | left_seed : k = d → p = 0 → e = seed → absent (k - 1) (before_left k p) → left_ok k p e.

Inductive right_ok (k p : Z) (e : svn_diff__snake_t) : Prop :=
  | right_live i j : live (k + 1) (before_right k p) e i j → i ≠ n0 → right_ok k p e
  | right_null : e = null_snake → absent (k + 1) (before_right k p) → right_ok k p e.

Lemma absent_dominates k p b : absent k p → dominates k p b.
Proof. intros Ha m r0 r1 Hr Hk Hc. by destruct (Ha m r0 r1 Hr Hk Hc). Qed.

Lemma dominates_le k p b b' : dominates k p b → b' <= b → dominates k p b'.
Proof. intros Hd Hb m r0 r1 Hr Hk Hc. etrans; [exact Hb|]. eauto. Qed.

Lemma left_dominates k p e b :
  left_ok k p e → (∀ i j, live (k - 1) (before_left k p) e i j → j ≠ n1 → b <= left1 j) →
  dominates (k - 1) (before_left k p) b.
Proof.
  intros [i j Hl Hj|_ Ha|_ _ _ Ha] Hb; [|by apply absent_dominates..].
  eapply dominates_le; [apply Hl|by apply (Hb i)].
Qed.

Lemma right_dominates k p e b :
  right_ok k p e → (∀ i j, live (k + 1) (before_right k p) e i j → i ≠ n0 → b <= left1 j) →
  dominates (k + 1) (before_right k p) b.
Proof.
  intros [i j Hr Hi|_ Ha] Hb; [|by apply absent_dominates].
  eapply dominates_le; [apply Hr|by apply (Hb i)].
Qed.

Lemma live_left1_step k p e i j :
  live k p e i j → j ≠ n1 → left1 j = left1 (S j) + 1.
Proof.
  intros Hl Hj. unfold left1. rewrite (settled1_step t0 t1 j); [lia|apply Hl|].
  pose proof (live_j _ _ _ _ _ Hl). lia.
Qed.

Lemma live_left0_step k p e i j :
  live k p e i j → i ≠ n0 → left0 i = left0 (S i) + 1.
Proof.
  intros Hl Hi. unfold left0. rewrite (settled0_step t0 t1 i); [lia|apply Hl|].
  pose proof (live_i _ _ _ _ _ Hl). lia.
Qed.

Lemma live_lt k p e i j k' p' e' i' j' :
  live k p e i j → live k' p' e' i' j' → (j < j')%nat → left1 j' < left1 j.
Proof.
  intros Hl Hl' Hlt. unfold left1.
  pose proof (settled1_lt t0 t1 j j' (live_j _ _ _ _ _ Hl')
                (stops_settled1 _ _ _ _ (live_stops _ _ _ _ _ Hl)) Hlt). lia.
Qed.

(** A step to the right from a live left neighbour. *)
Lemma starts_from_left k p el il jl er :
  live (k - 1) (before_left k p) el il jl → jl ≠ n1 → right_ok k p er → sn_y er <= sn_y el →
  starts k p il (S jl) (sn_lcs el).
Proof.
  intros Hl Hj Hr Hy. pose proof (live_left1_step _ _ _ _ _ Hl Hj) as Hstep.
  pose proof (live_j _ _ _ _ _ Hl). pose proof (live_diagonal _ _ _ _ _ Hl) as Hk.
  split; [apply Hl|lia|lia| | | |].
  - eapply chain_ok_mono; [apply Hl|lia..].
  - pose proof (live_cost _ _ _ _ _ Hl) as Hc. unfold cost, before_left in *.
    destruct (Z.leb_spec L0 L1), (Z.leb_spec 0 (k - 1)); lia.
  - rewrite <- Hstep. apply Hl.
  - apply (right_dominates k p er); [done|]. intros i j Hlive _.
    rewrite (live_y _ _ _ _ _ Hl), (live_y _ _ _ _ _ Hlive) in Hy. apply left1_mono. lia.
Qed.

(** A step down from a live right neighbour. *)
Lemma starts_from_right k p el er ir jr :
  left_ok k p el → live (k + 1) (before_right k p) er ir jr → ir ≠ n0 → sn_y el < sn_y er →
  starts k p (S ir) jr (sn_lcs er).
Proof.
  intros Hl Hr Hi Hy. pose proof (live_left0_step _ _ _ _ _ Hr Hi) as Hstep.
  pose proof (live_i _ _ _ _ _ Hr). pose proof (live_diagonal _ _ _ _ _ Hr) as Hk.
  split; [lia|apply Hr|lia| | | |apply Hr].
  - eapply chain_ok_mono; [apply Hr|lia..].
  - pose proof (live_cost _ _ _ _ _ Hr) as Hc. unfold cost, before_right in *.
    destruct (Z.leb_spec L0 L1), (Z.leb_spec (k + 1) 0); lia.
  - apply (left_dominates k p el); [done|]. intros i j Hlive _.
    rewrite (live_y _ _ _ _ _ Hr), (live_y _ _ _ _ _ Hlive) in Hy.
    pose proof (live_lt _ _ _ _ _ _ _ _ _ _ Hlive Hr). lia.
Qed.

Lemma starts_from_seed k p er :
  k = d → p = 0 → absent (k - 1) (before_left k p) → right_ok k p er → sn_y er <= 0 →
  starts k p 0 0 [].
Proof.
  intros -> -> Ha Hr Hy. split; [lia|lia|done|done| | |].
  - simpl. unfold cost, d. destruct (Z.leb_spec L0 L1); lia.
  - by apply absent_dominates.
  - apply (right_dominates d 0 er); [done|]. intros i j Hlive _.
    rewrite (live_y _ _ _ _ _ Hlive) in Hy. lia.
Qed.

(** ** The array *)

Record array_ok (fp : snake_array) : Prop := {
  array_origin : origin fp = L1 + 1;
  array_length : Z.of_nat (length (snakes fp)) = L0 + L1 + 3;
}.

Lemma fp_at_ok fp k :
  array_ok fp → - L1 - 1 <= k <= L0 + 1 → ∃ e, fp_at fp k = Ok e.
Proof.
  intros [Ho Hl] Hk. unfold fp_at. if_false by lia.
  destruct (lookup_lt_is_Some_2 (snakes fp) (Z.to_nat (origin fp + k))) as [e ->]; [lia|].
  by exists e.
Qed.

Lemma set_fp_ok fp k e :
  array_ok fp → - L1 - 1 <= k <= L0 + 1 →
  ∃ fp', set_fp fp k e = Ok fp' ∧ array_ok fp' ∧ fp_at fp' k = Ok e
    ∧ ∀ k', k' ≠ k → fp_at fp' k' = fp_at fp k'.
Proof.
  intros [Ho Hl] Hk. unfold set_fp. if_true by lia. eexists. split; [done|].
  split; [split; simpl; rewrite ?length_insert; lia|]. split.
  - unfold fp_at. simpl. if_false by lia. by rewrite list_lookup_insert_eq by lia.
  - intros k' Hne. unfold fp_at. simpl. destruct (Z.ltb_spec (origin fp + k') 0); [done|].
    by rewrite list_lookup_insert_ne by lia.
Qed.

(** ** One step of the array *)

Lemma snake_step fp k p el er :
  array_ok fp → - L1 <= k <= L0 →
  fp_at fp (k - 1) = Ok el → fp_at fp (k + 1) = Ok er →
  left_ok k p el → right_ok k p er → el ≠ null_snake ∨ er ≠ null_snake →
  ∃ fp' e i j,
    svn_diff__snake list1 list2 counts1 counts2 fp k = Ok fp' ∧ array_ok fp'
    ∧ fp_at fp' k = Ok e ∧ live k p e i j
    ∧ (∀ k', k' ≠ k → fp_at fp' k' = fp_at fp k')
    ∧ (∀ il jl, live (k - 1) (before_left k p) el il jl → k <= 0 → il = n0 → i = n0)
    ∧ (∀ ir jr, live (k + 1) (before_right k p) er ir jr → 0 <= k → jr = n1 → j = n1).
Proof.
  intros Harr Hk Hel Her Hl Hr Hsome. unfold svn_diff__snake. rewrite Hel, Her. cbn [rbind].
  (* the rest of the function, from the start of the snake *)
  assert (∀ i j chain, starts k p i j chain →
    ∃ fp' e i' j',
      (let! (position0, position1, lcs) :=
         snake_loop list1 list2 counts1 counts2 (n0 + n1) i j chain in
       set_fp fp k (MkSnake (offset_at1 list2 position1) lcs (Some position0) (Some position1)))
      = Ok fp' ∧ array_ok fp' ∧ fp_at fp' k = Ok e ∧ live k p e i' j'
      ∧ (∀ k', k' ≠ k → fp_at fp' k' = fp_at fp k') ∧ (i <= i')%nat ∧ (j <= j')%nat) as Hrest.
  { intros i j chain Hst. destruct (snake_loop_live _ _ _ _ _ Hst) as (i' & j' & c & -> & Hlive & Hi & Hj).
    cbn [rbind]. destruct (set_fp_ok fp k (MkSnake (offset_at1 list2 j') c (Some i') (Some j')) Harr)
      as (fp' & -> & Harr' & Hat & Hother); [lia|]. by exists fp', (MkSnake (offset_at1 list2 j') c (Some i') (Some j')), i', j'. }
  destruct (Z.leb_spec (sn_y er) (sn_y el)) as [Hy|Hy].
  - destruct Hl as [il jl Hlive Hjl| -> Ha| -> -> -> Ha].
    + destruct (Hrest il (S jl) (sn_lcs el)) as (fp' & e & i & j & Heq & ? & ? & Hnew & ? & Hi & Hj);
        [by eapply starts_from_left|].
      rewrite (live_position0 _ _ _ _ _ Hlive), (live_position1 _ _ _ _ _ Hlive).
      cbn [pointee from_option rbind ring_tokens].
      rewrite next1_lt by (pose proof (live_j _ _ _ _ _ Hlive); lia). rewrite Heq.
      exists fp', e, i, j. do 5 (split; [done|]). split.
      * intros il' jl' Hlive' _ ->. pose proof (live_position0 _ _ _ _ _ Hlive') as Hp.
        rewrite (live_position0 _ _ _ _ _ Hlive) in Hp. injection Hp as ->.
        pose proof (live_i _ _ _ _ _ Hnew). lia.
      * intros ir jr Hlive' _ ->. rewrite (live_y _ _ _ _ _ Hlive), (live_y _ _ _ _ _ Hlive') in Hy.
        pose proof (live_j _ _ _ _ _ Hlive). lia.
    + exfalso. simpl in Hy. destruct Hr as [ir jr Hlive|]; [|by destruct Hsome].
      rewrite (live_y _ _ _ _ _ Hlive) in Hy. lia.
    + simpl in Hy. destruct (Hrest 0%nat 0%nat []) as (fp' & e & i & j & Heq & ? & ? & Hnew & ? & Hi & Hj);
        [by eapply starts_from_seed|].
      cbn [seed sn_position0 sn_position1 sn_lcs pointee from_option rbind ring_tokens].
      unfold next1. cbn [ring_tokens]. rewrite Nat.eqb_refl, Heq.
      exists fp', e, i, j. do 5 (split; [done|]). split.
      * intros il' jl' Hlive' _ _. pose proof (live_y _ _ _ _ _ Hlive'). simpl in *. lia.
      * intros ir jr Hlive' _ _. rewrite (live_y _ _ _ _ _ Hlive') in Hy. lia.
  - destruct Hr as [ir jr Hlive Hir| -> Ha].
    2:{ exfalso. simpl in Hy. destruct Hl as [il jl Hlive| ->|_ _ ->]; simpl in Hy; [|lia..].
        rewrite (live_y _ _ _ _ _ Hlive) in Hy. lia. }
    destruct (Hrest (S ir) jr (sn_lcs er)) as (fp' & e & i & j & Heq & ? & ? & Hnew & ? & Hi & Hj);
      [by eapply starts_from_right|].
    rewrite (live_position0 _ _ _ _ _ Hlive), (live_position1 _ _ _ _ _ Hlive).
    cbn [pointee from_option rbind ring_tokens].
    rewrite next0_lt by (pose proof (live_i _ _ _ _ _ Hlive); lia). rewrite Heq.
    exists fp', e, i, j. do 5 (split; [done|]). split.
    + intros il jl Hlive' Hk0 ->.
      rewrite (live_y _ _ _ _ _ Hlive), (live_y _ _ _ _ _ Hlive') in Hy.
      pose proof (live_lt _ _ _ _ _ _ _ _ _ _ Hlive' Hlive ltac:(lia)) as Hlt.
      pose proof (live_left0_step _ _ _ _ _ Hlive Hir).
      pose proof (live_diagonal _ _ _ _ _ Hlive). pose proof (live_diagonal _ _ _ _ _ Hlive').
      assert (left0 n0 = 0) by (unfold left0, DiffLcsRounds.rest0; by rewrite drop_all).
      pose proof (left0_mono (S ir) i Hi).
      apply (settled0_end t0 t1 i); [apply Hnew|apply Hnew|].
      assert (left0 i = 0) by (unfold left0 in *; lia). unfold left0 in *. lia.
    + intros ir' jr' Hlive' _ ->. pose proof (live_position1 _ _ _ _ _ Hlive') as Hp.
      rewrite (live_position1 _ _ _ _ _ Hlive) in Hp. injection Hp as ->.
      pose proof (live_j _ _ _ _ _ Hnew). lia.
Qed.

(** ** One round *)

Definition low (p : Z) : Z := Z.min d 0 - p.
Definition high (p : Z) : Z := Z.max d 0 + p.

(** The array before round [p]: the diagonals of the round before hold its
    states, none of which has come to an end. *)
Record before (p : Z) (fp : snake_array) : Prop := {
  before_array : array_ok fp;
  before_live k : 0 < p → in_reach k (p - 1) →
    ∃ e i j, fp_at fp k = Ok e ∧ live k (p - 1) e i j
      ∧ (k <= 0 → i ≠ n0) ∧ (0 <= k → j ≠ n1);
  before_null k : - L1 - 1 <= k <= L0 + 1 → p = 0 ∨ ¬ in_reach k (p - 1) → k ≠ d - 1 →
    fp_at fp k = Ok null_snake;
  before_seed : p = 0 → fp_at fp (d - 1) = Ok seed;
}.

Definition alive (fp : snake_array) (k p : Z) : Prop :=
  ∃ e i j, fp_at fp k = Ok e ∧ live k p e i j.

Definition at_end0 (fp : snake_array) (k : Z) : Prop :=
  ∃ e, fp_at fp k = Ok e ∧ sn_position0 e = Some n0.
Definition at_end1 (fp : snake_array) (k : Z) : Prop :=
  ∃ e, fp_at fp k = Ok e ∧ sn_position1 e = Some n1.

Lemma left_bounds i j : 0 <= left0 i <= L0 ∧ 0 <= left1 j <= L1.
Proof.
  pose proof (left0_mono 0 i ltac:(lia)). pose proof (left1_mono 0 j ltac:(lia)).
  unfold left0, left1 in *. lia.
Qed.

Lemma live_left0_end k p e i j : live k p e i j → left0 i = 0 ↔ i = n0.
Proof.
  intros Hl. unfold left0. rewrite <- (settled0_end t0 t1 i); [lia|apply Hl..].
Qed.

Lemma live_left1_end k p e i j : live k p e i j → left1 j = 0 ↔ j = n1.
Proof.
  intros Hl. unfold left1. rewrite <- (settled1_end t0 t1 j); [lia|apply Hl..].
Qed.

(** No round goes beyond the array. *)
Lemma round_bounds p fp : 0 <= p → before p fp → - L1 <= low p ∧ high p <= L0.
Proof.
  intros Hp Hb. destruct (decide (p = 0)) as [->|Hne].
  { pose proof (left_bounds 0 0). unfold low, high, d. lia. }
  unfold low, high. split.
  - destruct (before_live _ _ Hb (Z.min d 0 - p + 1)) as (e & i & j & _ & Hl & Hi & _);
      [lia|unfold in_reach; lia|].
    pose proof (live_left0_end _ _ _ _ _ Hl). pose proof (live_diagonal _ _ _ _ _ Hl).
    pose proof (left_bounds i j). specialize (Hi ltac:(lia)). lia.
  - destruct (before_live _ _ Hb (Z.max d 0 + p - 1)) as (e & i & j & _ & Hl & _ & Hj);
      [lia|unfold in_reach; lia|].
    pose proof (live_left1_end _ _ _ _ _ Hl). pose proof (live_diagonal _ _ _ _ _ Hl).
    pose proof (left_bounds i j). specialize (Hj ltac:(lia)). lia.
Qed.

Section Round.
Context (p : Z) (fp0 : snake_array).
Hypothesis Hp : 0 <= p.
Hypothesis Hbefore : before p fp0.

(** Before the step to [k] of the upward loop. *)
Record rising (k : Z) (fp : snake_array) : Prop := {
  rising_array : array_ok fp;
  rising_live k' : low p <= k' < k → alive fp k' p;
  rising_rest k' : k <= k' ∨ k' < low p → fp_at fp k' = fp_at fp0 k';
  rising_end k' : low p <= k' < k → at_end0 fp k' → at_end0 fp (k - 1);
}.

Lemma rising_start : rising (low p) fp0.
Proof. split; [apply Hbefore|lia|done|lia]. Qed.

Lemma rising_left k fp :
  low p <= k < 0 → rising k fp → ∃ e, fp_at fp (k - 1) = Ok e ∧ left_ok k p e
    ∧ (p = 0 ∨ low p < k → e ≠ null_snake).
Proof.
  intros Hk Hr. destruct (round_bounds p fp0 Hp Hbefore) as [Hlow _].
  pose proof (left_bounds 0 0) as Hb0. destruct (decide (k = low p)) as [->|Hne].
  - rewrite (rising_rest _ _ Hr) by lia. destruct (decide (p = 0)) as [->|Hp0].
    + unfold low in *. exists seed. replace (Z.min d 0 - 0) with d in * by lia.
      split; [by apply (before_seed _ _ Hbefore)|]. split; [|done].
      apply left_seed; try done. apply absent_out. right. unfold before_left, in_reach.
      if_false by lia. lia.
    + exists null_snake. split; [apply (before_null _ _ Hbefore); unfold in_reach, low in *; lia|].
      split; [|lia]. apply left_null; [done|]. apply absent_out. right.
      unfold before_left, in_reach, low in *. case_if; lia.
  - destruct (rising_live _ _ Hr (k - 1)) as (e & i & j & He & Hl); [lia|].
    exists e. split; [done|]. split.
    + apply (left_live _ _ _ i j); [unfold before_left; by if_false by lia|].
      rewrite <- (live_left1_end _ _ _ _ _ Hl). pose proof (live_diagonal _ _ _ _ _ Hl).
      pose proof (left_bounds i j). lia.
    + intros _ ->. by destruct Hl as [_ ? _ _ _ _ _ _ _ _].
Qed.

Lemma rising_right k fp :
  low p <= k < 0 → rising k fp → ∃ e, fp_at fp (k + 1) = Ok e ∧ right_ok k p e
    ∧ (0 < p → e ≠ null_snake).
Proof.
  intros Hk Hr. rewrite (rising_rest _ _ Hr) by lia. destruct (decide (p = 0)) as [->|Hp0].
  - pose proof (left_bounds 0 0). exists null_snake. split; [|split; [|lia]].
    + apply (before_null _ _ Hbefore); [unfold low, d in *; lia|by left|unfold low in *; lia].
    + apply right_null; [done|]. apply absent_out. left. unfold before_right. if_true by lia. lia.
  - destruct (before_live _ _ Hbefore (k + 1)) as (e & i & j & He & Hl & Hi & _);
      [lia|unfold in_reach, low in *; lia|].
    exists e. split; [done|]. split; [|intros _ ->; by destruct Hl].
    apply (right_live _ _ _ i j); [unfold before_right; by if_true by lia|apply Hi; lia].
Qed.

Lemma rising_step k fp :
  low p <= k < 0 → rising k fp →
  ∃ fp', svn_diff__snake list1 list2 counts1 counts2 fp k = Ok fp' ∧ rising (k + 1) fp'.
Proof.
  intros Hk Hr. destruct (round_bounds p fp0 Hp Hbefore) as [Hlow _].
  pose proof (left_bounds 0 0) as Hb0.
  destruct (rising_left k fp Hk Hr) as (el & Hel & Hlok & Hlsome).
  destruct (rising_right k fp Hk Hr) as (er & Her & Hrok & Hrsome).
  destruct (snake_step fp k p el er (rising_array _ _ Hr)) as
    (fp' & e & i & j & Heq & Harr & Hat & Hlive & Hother & Hend & _); try done; [lia| |].
  { destruct (decide (p = 0)); [left; apply Hlsome; by left|right; apply Hrsome; lia]. }
  exists fp'. split; [done|]. split; [done| | |].
  - intros k' Hk'. destruct (decide (k' = k)) as [->|]; [by exists e, i, j|].
    destruct (rising_live _ _ Hr k') as (e' & i' & j' & ? & ?); [lia|].
    exists e', i', j'. by rewrite Hother.
  - intros k' Hk'. rewrite Hother by lia. apply (rising_rest _ _ Hr). lia.
  - intros k' Hk' He'. replace (k + 1 - 1) with k by lia.
    destruct (decide (k' = k)) as [->|Hne]; [done|].
    assert (at_end0 fp (k - 1)) as (el' & Hel' & Hpos).
    { apply (rising_end _ _ Hr k'); [lia|]. destruct He' as (e' & He' & ?).
      rewrite Hother in He' by done. by exists e'. }
    rewrite Hel in Hel'. injection Hel' as <-.
    destruct (rising_live _ _ Hr (k - 1)) as (el' & il & jl & Hel' & Hll); [lia|].
    rewrite Hel in Hel'. injection Hel' as <-.
    exists e. split; [done|]. rewrite (live_position0 _ _ _ _ _ Hlive). f_equal.
    apply (Hend il jl); [unfold before_left; by if_false by lia|lia|].
    rewrite (live_position0 _ _ _ _ _ Hll) in Hpos. congruence.
Qed.

Lemma snakes_up_ok n k fp :
  low p <= k → k + Z.of_nat n = 0 → rising k fp →
  ∃ fp', snakes_up list1 list2 counts1 counts2 n k fp = Ok fp' ∧ rising 0 fp'.
Proof.
  revert k fp; induction n as [|n IH]; intros k fp Hk Hn Hr; cbn [snakes_up].
  - exists fp. split; [done|]. by replace 0 with k by lia.
  - destruct (rising_step k fp ltac:(lia) Hr) as (fp' & -> & Hr'). cbn [rbind].
    apply IH; [lia|lia|done].
Qed.
(** Before the step to [k] of the downward loop. *)
Record falling (k : Z) (fp : snake_array) : Prop := {
  falling_array : array_ok fp;
  falling_live k' : low p <= k' < 0 ∨ k < k' <= high p → alive fp k' p;
  falling_rest k' : 0 <= k' <= k ∨ high p < k' ∨ k' < low p → fp_at fp k' = fp_at fp0 k';
  falling_end0 k' : low p <= k' < 0 → at_end0 fp k' → at_end0 fp (if k <? 0 then 0 else -1);
  falling_end1 k' : k < k' <= high p → at_end1 fp k' → at_end1 fp (k + 1);
}.

Lemma falling_start fp : rising 0 fp → falling (high p) fp.
Proof.
  intros Hr. assert (0 <= high p) by (unfold high; lia). split.
  - apply Hr.
  - intros k' Hk'. apply (rising_live _ _ Hr). lia.
  - intros k' Hk'. apply (rising_rest _ _ Hr). lia.
  - intros k' Hk'. if_false by lia. by apply (rising_end _ _ Hr k').
  - lia.
Qed.

Lemma falling_left k fp :
  0 <= k <= high p → falling k fp → ∃ e, fp_at fp (k - 1) = Ok e ∧ left_ok k p e
    ∧ (k = high p → e ≠ null_snake).
Proof.
  intros Hk Hf. destruct (round_bounds p fp0 Hp Hbefore) as [Hlow Hhigh].
  pose proof (left_bounds 0 0) as Hb0.
  destruct (decide (k = 0 ∧ low p < 0)) as [[-> Hneg]|Hcase].
  { destruct (falling_live _ _ Hf (-1)) as (e & i & j & He & Hl); [lia|].
    exists e. split; [done|]. split; [|intros _ ->; by destruct Hl].
    apply (left_live _ _ _ i j); [done|].
    rewrite <- (live_left1_end _ _ _ _ _ Hl). pose proof (live_diagonal _ _ _ _ _ Hl).
    pose proof (left_bounds i j). lia. }
  assert (fp_at fp (k - 1) = fp_at fp0 (k - 1)) as ->
    by (apply (falling_rest _ _ Hf); unfold low in *; lia).
  destruct (decide (p = 0)) as [->|Hp0].
  - assert (absent (k - 1) (before_left k 0)) as Ha.
    { apply absent_out. unfold before_left, in_reach, low in *. case_if; lia. }
    destruct (decide (k = d)) as [->|Hne].
    + exists seed. split; [by apply (before_seed _ _ Hbefore)|]. split; [|done].
      by apply left_seed.
    + exists null_snake. split; [apply (before_null _ _ Hbefore); [lia|by left|lia]|].
      split; [by apply left_null|]. unfold high, low in *. lia.
  - destruct (before_live _ _ Hbefore (k - 1)) as (e & i & j & He & Hl & _ & Hj);
      [lia|unfold in_reach, high, low in *; lia|].
    exists e. split; [done|]. split; [|intros _ ->; by destruct Hl].
    unfold low in *.
    apply (left_live _ _ _ i j); [unfold before_left; by if_true by lia|apply Hj; lia].
Qed.

Lemma falling_right k fp :
  0 <= k <= high p → falling k fp → ∃ e, fp_at fp (k + 1) = Ok e ∧ right_ok k p e
    ∧ (k < high p → e ≠ null_snake).
Proof.
  intros Hk Hf. destruct (round_bounds p fp0 Hp Hbefore) as [Hlow Hhigh].
  destruct (decide (k = high p)) as [->|Hne].
  - exists null_snake. split; [|split; [|lia]].
    + rewrite (falling_rest _ _ Hf) by lia. pose proof (left_bounds 0 0).
      apply (before_null _ _ Hbefore); unfold in_reach, high in *; lia.
    + apply right_null; [done|]. apply absent_out. right. unfold before_right, in_reach, high.
      if_false by lia. lia.
  - destruct (falling_live _ _ Hf (k + 1)) as (e & i & j & He & Hl); [lia|].
    exists e. split; [done|]. split; [|intros _ ->; by destruct Hl].
    apply (right_live _ _ _ i j); [unfold before_right; by if_false by lia|].
    rewrite <- (live_left0_end _ _ _ _ _ Hl). pose proof (live_diagonal _ _ _ _ _ Hl).
    pose proof (left_bounds i j). lia.
Qed.

Lemma falling_step k fp :
  0 <= k <= high p → falling k fp →
  ∃ fp', svn_diff__snake list1 list2 counts1 counts2 fp k = Ok fp' ∧ falling (k - 1) fp'.
Proof.
  intros Hk Hf. destruct (round_bounds p fp0 Hp Hbefore) as [Hlow Hhigh].
  pose proof (left_bounds 0 0) as Hb0.
  assert (low p <= 0) as Hlow0 by (unfold low; lia).
  destruct (falling_left k fp Hk Hf) as (el & Hel & Hlok & Hlsome).
  destruct (falling_right k fp Hk Hf) as (er & Her & Hrok & Hrsome).
  destruct (snake_step fp k p el er (falling_array _ _ Hf)) as
    (fp' & e & i & j & Heq & Harr & Hat & Hlive & Hother & Hend0 & Hend1); try done; [lia| |].
  { destruct (decide (k = high p)); [left; by apply Hlsome|right; apply Hrsome; lia]. }
  exists fp'. split; [done|]. split; [done| | | |].
  - intros k' Hk'. destruct (decide (k' = k)) as [->|]; [by exists e, i, j|].
    destruct (falling_live _ _ Hf k') as (e' & i' & j' & ? & ?); [lia|].
    exists e', i', j'. by rewrite Hother.
  - intros k' Hk'. rewrite Hother by lia. apply (falling_rest _ _ Hf). lia.
  - intros k' Hk' He'. assert (at_end0 fp (-1)) as (el' & Hel' & Hpos).
    { pose proof (falling_end0 _ _ Hf k' Hk') as Hf0. destruct (Z.ltb_spec k 0); [lia|].
      apply Hf0. destruct He' as (e' & He' & ?). rewrite Hother in He' by lia. by exists e'. }
    destruct (Z.ltb_spec (k - 1) 0) as [Hk0|].
    2:{ exists el'. by rewrite Hother by lia. }
    assert (k = 0) as -> by lia. change (0 - 1) with (-1) in *. rewrite Hel in Hel'. injection Hel' as <-.
    destruct (falling_live _ _ Hf (-1)) as (el' & il & jl & Hel' & Hll); [lia|].
    rewrite Hel in Hel'. injection Hel' as <-.
    exists e. split; [done|]. rewrite (live_position0 _ _ _ _ _ Hlive). f_equal.
    apply (Hend0 il jl); [done|lia|].
    rewrite (live_position0 _ _ _ _ _ Hll) in Hpos. congruence.
  - intros k' Hk' He'. replace (k - 1 + 1) with k by lia.
    destruct (decide (k' = k)) as [->|Hne]; [done|].
    assert (at_end1 fp (k + 1)) as (er' & Her' & Hpos).
    { apply (falling_end1 _ _ Hf k'); [lia|]. destruct He' as (e' & He' & ?).
      rewrite Hother in He' by done. by exists e'. }
    rewrite Her in Her'. injection Her' as <-.
    destruct (falling_live _ _ Hf (k + 1)) as (er' & ir & jr & Her' & Hlr); [lia|].
    rewrite Her in Her'. injection Her' as <-.
    exists e. split; [done|]. rewrite (live_position1 _ _ _ _ _ Hlive). f_equal.
    apply (Hend1 ir jr); [unfold before_right; by if_false by lia|lia|].
    rewrite (live_position1 _ _ _ _ _ Hlr) in Hpos. congruence.
Qed.

Lemma snakes_down_ok n k fp :
  k <= high p → Z.of_nat n = k + 1 → falling k fp →
  ∃ fp', snakes_down list1 list2 counts1 counts2 n k fp = Ok fp' ∧ falling (-1) fp'.
Proof.
  revert k fp; induction n as [|n IH]; intros k fp Hk Hn Hf; cbn [snakes_down].
  - exists fp. split; [done|]. by replace (-1) with k by lia.
  - destruct (falling_step k fp ltac:(lia) Hf) as (fp' & -> & Hf'). cbn [rbind].
    apply IH; [lia|lia|done].
Qed.

Lemma lcs_round_ok :
  ∃ fp', lcs_round list1 list2 counts1 counts2 d p fp0 = Ok fp' ∧ falling (-1) fp'.
Proof.
  unfold lcs_round. replace ((if d <? 0 then d else 0) - p) with (low p)
    by (unfold low; case_if; lia).
  replace ((if 0 <? d then d else 0) + p) with (high p) by (unfold high; case_if; lia).
  destruct (snakes_up_ok (Z.to_nat (- low p)) (low p) fp0) as (fp1 & -> & Hr);
    [lia|unfold low; lia|apply rising_start|]. cbn [rbind].
  apply snakes_down_ok; [lia|unfold high; lia|by apply falling_start].
Qed.

(** An unfinished round leads to the next one. *)
Lemma falling_before fp e :
  falling (-1) fp → fp_at fp 0 = Ok e → sn_position1 e ≠ Some n1 → before (p + 1) fp.
Proof.
  intros Hf He Hopen. pose proof (left_bounds 0 0).
  assert (low p <= 0 <= high p) as Hlh by (unfold low, high; lia).
  destruct (falling_live _ _ Hf 0) as (e0 & i0 & j0 & He0 & Hl0); [lia|].
  rewrite He in He0. injection He0 as <-.
  assert (i0 ≠ n0 ∧ j0 ≠ n1) as [Hi0 Hj0].
  { assert (j0 ≠ n1) as Hj by (intros ->; by rewrite (live_position1 _ _ _ _ _ Hl0) in Hopen).
    split; [|done]. rewrite <- (live_left0_end _ _ _ _ _ Hl0).
    rewrite <- (live_left1_end _ _ _ _ _ Hl0) in Hj.
    pose proof (live_diagonal _ _ _ _ _ Hl0). lia. }
  split; [apply Hf| | |lia].
  - intros k _ Hk. replace (p + 1 - 1) with p in * by lia.
    destruct (falling_live _ _ Hf k) as (e' & i & j & He' & Hl);
      [unfold in_reach, low, high in *; lia|].
    exists e', i, j. do 2 (split; [done|]).
    assert (∀ e2 i2 j2, fp_at fp 0 = Ok e2 → live 0 p e2 i2 j2 → i2 = i0 ∧ j2 = j0) as Hsame.
    { intros e2 i2 j2 He2 Hl2. rewrite He in He2. injection He2 as <-.
      pose proof (live_position0 _ _ _ _ _ Hl2) as H1. pose proof (live_position1 _ _ _ _ _ Hl2) as H2.
      rewrite (live_position0 _ _ _ _ _ Hl0) in H1. rewrite (live_position1 _ _ _ _ _ Hl0) in H2.
      injection H1 as ->. by injection H2 as ->. }
    split; intros Hk0 ->.
    + destruct (decide (k = 0)) as [->|]; [by destruct (Hsame _ _ _ He' Hl) as [? _]|].
      destruct (falling_end0 _ _ Hf k) as (e2 & He2 & Hp2);
        [unfold in_reach, low in *; lia|exists e'; split; [done|apply Hl]|].
      change (if -1 <? 0 then 0 else -1) with 0 in He2. rewrite He in He2. injection He2 as <-.
      rewrite (live_position0 _ _ _ _ _ Hl0) in Hp2. congruence.
    + destruct (falling_end1 _ _ Hf k) as (e2 & He2 & Hp2);
        [unfold in_reach, high in *; lia|exists e'; split; [done|apply Hl]|].
      change (-1 + 1) with 0 in He2. rewrite He in He2. injection He2 as <-. congruence.
  - intros k Hk Hout Hd. rewrite (falling_rest _ _ Hf)
      by (destruct Hout; unfold in_reach, low, high in *; lia).
    apply (before_null _ _ Hbefore); [done| |done].
    destruct (decide (p = 0)); [by left|right]. unfold in_reach in *. lia.
Qed.
End Round.

(** ** All rounds *)

(** The result: all is matched, deleted or inserted at the least cost. *)
Record finished (fp : snake_array) (p : Z) : Prop := {
  finished_snake : ∃ e, fp_at fp 0 = Ok e ∧ live 0 p e n0 n1;
  finished_least m : reach m [] [] → m <= Z.min L0 L1 - p;
}.

Lemma lcs_loop_ok fuel p fp :
  0 <= p → Z.of_nat fuel = Z.min L0 L1 - p → before p fp →
  (∀ m, reach m [] [] → m <= Z.min L0 L1 - p) →
  ∃ fp' p', lcs_loop list1 list2 counts1 counts2 fuel d p fp = Ok fp' ∧ finished fp' p'.
Proof.
  revert p fp; induction fuel as [|fuel IH]; intros p fp Hp Hf Hb Hleast; cbn [lcs_loop];
    (destruct (lcs_round_ok p fp Hp Hb) as (fp' & -> & Hfall)); cbn [rbind];
    pose proof (left_bounds 0 0) as Hb0;
    assert (low p <= 0 <= high p) as Hlh by (unfold low, high; lia);
    (destruct (falling_live _ _ _ _ Hfall 0) as (e & i & j & He & Hl); [lia|]);
    rewrite He; cbn [rbind ring_tokens]; rewrite (live_position1 _ _ _ _ _ Hl);
    (case_bool_decide as Hend;
     [injection Hend as ->; exists fp', p; split; [done|]; split; [|done];
      exists e; split; [done|];
      enough (i = n0) as -> by done;
      apply (live_left0_end _ _ _ _ _ Hl);
      pose proof (proj2 (live_left1_end _ _ _ _ _ Hl) eq_refl);
      pose proof (live_diagonal _ _ _ _ _ Hl); lia|]);
    (assert (before (p + 1) fp') as Hb'
       by (eapply falling_before; [done..|]; rewrite (live_position1 _ _ _ _ _ Hl); done)).
  - exfalso. assert (0 <= p + 1) as Hp1 by lia. destruct (round_bounds _ _ Hp1 Hb'). unfold low, high, d in *. lia.
  - apply IH; [lia|lia|done|]. intros m Hm. 
    destruct (Z.le_gt_cases m (Z.min L0 L1 - (p + 1))) as [|Hgt]; [done|]. exfalso.
    apply Hend. f_equal. apply (live_left1_end _ _ _ _ _ Hl).
    pose proof (live_dominates _ _ _ _ _ Hl m [] [] Hm eq_refl) as Hdom.
    pose proof (left_bounds i j). simpl in Hdom.
    enough (left1 j <= 0) by lia. apply Hdom.
    specialize (Hleast m Hm). unfold cost. destruct (Z.leb_spec L0 L1); lia.
Qed.
End Rounds.
