(* ===== verification/DiffLcsCorrect.v ===== *)
(** * Properties of the LCS computation: the theorem

    [svn_diff__lcs] returns a longest common subsequence of the two files, as
    runs of equal tokens in ascending order, closed by the end-of-file node. *)
From S2P Require Import Prelude DiffLcs DiffLcsRounds.

(** ** Counting *)

Lemma count_tokens_ok tokens counts seen :
  counts_of seen counts → in_range (length counts) tokens →
  ∃ counts', count_tokens counts tokens = Ok counts' ∧ length counts' = length counts
    ∧ counts_of (tokens ++ seen) counts'.
Proof.
  revert counts seen; induction tokens as [|x tokens IH]; intros counts seen Hc Hr.
  { by exists counts. }
  apply Forall_cons in Hr as [Hx Hr]. cbn [count_tokens]. unfold count_token.
  if_false by lia. assert (Hx' := Hc x ltac:(lia)). rewrite Hx'. cbn [rbind].
  destruct (IH (<[Z.to_nat x := Z.of_nat (count_occ Z.eq_dec seen x) + 1]> counts) (x :: seen))
    as (counts' & -> & Hl & Hc').
  - intros y Hy. rewrite length_insert in Hy. cbn [count_occ].
    destruct (Z.eq_dec x y) as [->|Hne].
    + rewrite list_lookup_insert_eq by lia. f_equal. lia.
    + rewrite list_lookup_insert_ne by lia. by apply Hc.
  - by rewrite length_insert.
  - exists counts'. split; [done|]. rewrite length_insert in Hl. split; [done|].
    intros y Hy. rewrite Hc' by done. do 2 f_equal.
    change ((x :: tokens) ++ seen) with (x :: (tokens ++ seen)).
    cbn [count_occ]. rewrite !count_occ_app. cbn [count_occ]. destruct (Z.eq_dec x y); lia.
Qed.

Lemma get_token_counts_ok tokens offset num :
  in_range num tokens →
  ∃ counts, svn_diff__get_token_counts (ring_of tokens offset) num = Ok counts
    ∧ length counts = num ∧ counts_of tokens counts.
Proof.
  intros Hr. unfold svn_diff__get_token_counts.
  destruct (count_tokens_ok tokens (replicate num 0) []) as (counts & Hok & Hl & Hc).
  - intros x Hx. rewrite length_replicate in Hx. by rewrite lookup_replicate_2 by lia.
  - by rewrite length_replicate.
  - rewrite length_replicate in Hl. rewrite app_nil_r in Hc. exists counts. split; [|done].
    by destruct tokens.
Qed.

(** The counts of the tokens from [a] on. *)
Definition tally (tokens : list Z) (a n : nat) : list Z :=
  map (λ i, Z.of_nat (count_occ Z.eq_dec tokens (Z.of_nat i))) (seq a n).

Lemma counts_tally tokens counts :
  counts_of tokens counts → counts = tally tokens 0 (length counts).
Proof.
  intros Hc. apply list_eq. intros i. unfold tally. rewrite list_lookup_fmap.
  destruct (Nat.lt_ge_cases i (length counts)) as [Hi|Hi].
  - rewrite lookup_seq_lt by done. specialize (Hc (Z.of_nat i) ltac:(lia)).
    rewrite Nat2Z.id in Hc. by rewrite Hc.
  - rewrite lookup_ge_None_2 by done. rewrite (lookup_ge_None_2 (seq _ _)); [done|].
    by rewrite length_seq.
Qed.

Lemma unique_tally_cons other x t a n :
  unique_count (tally other a n) (tally (x :: t) a n)
  = unique_count (tally other a n) (tally t a n)
    + if decide (Z.of_nat a <= x < Z.of_nat (a + n) ∧ x ∉ other) then 1 else 0.
Proof.
  unfold tally. revert a. induction n as [|n IH]; intros a.
  { simpl. rewrite decide_False by lia. done. }
  cbn [seq map unique_count]. rewrite IH. cbn [count_occ].
  destruct (Z.eq_dec x (Z.of_nat a)) as [->|Hne].
  - rewrite (decide_False (P := Z.of_nat (S a) <= _ < _ ∧ _)) by lia.
    destruct (decide (Z.of_nat a ∈ other)) as [Hin|Hnin].
    + rewrite decide_False by tauto. apply list_elem_of_In in Hin.
      apply (count_occ_In Z.eq_dec) in Hin. if_false by lia. lia.
    + rewrite decide_True by (split; [lia|done]). rewrite list_elem_of_In in Hnin.
      apply (count_occ_not_In Z.eq_dec) in Hnin. rewrite Hnin.
      if_true by lia. lia.
  - destruct (decide (Z.of_nat (S a) <= x < Z.of_nat (S a + n) ∧ x ∉ other)) as [Hd|Hd].
    + rewrite decide_True by (split; [lia|tauto]). lia.
    + rewrite decide_False; [lia|]. intros [? ?]. apply Hd. split; [lia|done].
Qed.

Lemma unique_tally other t n :
  in_range n t →
  Z.of_nat (length t) - unique_count (tally other 0 n) (tally t 0 n)
  = Z.of_nat (length (filter (λ x, x ∈ other) t)).
Proof.
  induction 1 as [|x t Hx Ht IH].
  - assert (∀ a, unique_count (tally other a n) (tally [] a n) = 0) as ->; [|done].
    unfold tally. induction n as [|n IH]; intros a; [done|]. cbn [seq map unique_count].
    rewrite IH. simpl. by case_if.
  - rewrite unique_tally_cons, filter_cons. simpl length.
    destruct (decide (x ∈ other)).
    + rewrite decide_False by tauto. simpl. lia.
    + rewrite decide_True by (split; [lia|done]). lia.
Qed.

(** The tokens of a file that are not unique to it. *)
Lemma unique_count_ok t0 t1 counts1 counts2 :
  counts_of t0 counts1 → counts_of t1 counts2 → length counts1 = length counts2 →
  in_range (length counts2) t0 →
  Z.of_nat (length t0) - unique_count counts2 counts1
  = Z.of_nat (length (filter (λ x, x ∈ t1) t0)).
Proof.
  intros Hc1 Hc2 Hl Hr.
  rewrite (counts_tally _ _ Hc1), (counts_tally _ _ Hc2), Hl. by apply unique_tally.
Qed.

(** ** The part between prefix and suffix *)

Section Middle.
Context (t0 t1 : list Z) (o0 o1 : Z) (counts1 counts2 : list Z).
Hypothesis Hcounts1 : counts_of t0 counts1.
Hypothesis Hcounts2 : counts_of t1 counts2.
Hypothesis Hlength : length counts1 = length counts2.
Hypothesis Ht0 : in_range (length counts2) t0.
Hypothesis Ht1 : in_range (length counts2) t1.
Hypothesis Ho1 : 0 < o1.

Abbreviation reach := (reach t0 t1).
Abbreviation common := (λ s, s `sublist_of` t0 ∧ s `sublist_of` t1) (only parsing).

Lemma lcs_middle_chain :
  ∃ chain,
    lcs_middle (MkRing t0 o0) (MkRing t1 o1) counts1 counts2 = Ok chain
    ∧ chain_ok t0 t1 o0 o1 chain (length t0) (length t1)
    ∧ ∀ m, reach m [] [] → m <= matched chain.
Proof.
  assert (Ht1' := Ht1). rewrite <- Hlength in Ht1'. unfold lcs_middle. cbn [ring_tokens].
  rewrite (unique_count_ok t0 t1) by done. rewrite (unique_count_ok t1 t0) by done.
  set (n0 := Z.of_nat (length (filter (λ x, x ∈ t1) t0))).
  set (n1 := Z.of_nat (length (filter (λ x, x ∈ t0) t1))).
  assert (left0 t0 t1 0 = n0) as Hn0 by (unfold left0, rest0; by rewrite drop_0).
  assert (left1 t0 t1 0 = n1) as Hn1 by (unfold left1, rest1; by rewrite drop_0).
  assert (array_ok t0 t1 (MkArray (n1 + 1) (replicate (Z.to_nat (n0 + n1 + 3)) null_snake))) as Harr.
  { split; cbn [origin snakes]; rewrite ?length_replicate, ?Hn0, ?Hn1; lia. }
  destruct (set_fp_ok t0 t1 _ (n0 - n1 - 1) (MkSnake 0 [] (Some 0%nat) (Some (length t1))) Harr)
    as (fp & -> & Harr' & Hseed & Hother); [lia|].
  cbn [rbind].
  destruct (lcs_loop_ok t0 t1 o0 o1 counts1 counts2 Hcounts1 Hcounts2 Ht0 Ht1' Ho1
    (Z.to_nat (Z.min n0 n1)) 0 fp) as (fp' & p & Hloop & [(e & He & Hl) Hleast]).
  - done.
  - rewrite Hn0, Hn1. lia.
  - split; [done|lia| |].
    + intros k Hk _ Hne. rewrite Hn0, Hn1 in *. rewrite Hother by lia.
      unfold fp_at. cbn [origin snakes]. if_false by lia. by rewrite lookup_replicate_2 by lia.
    + intros _. by rewrite Hn0, Hn1.
  - intros m Hm. pose proof (reach_bounds _ _ _ _ _ Hm). simpl in *. lia.
  - rewrite Hn0, Hn1 in Hloop. rewrite Hloop. cbn [rbind]. rewrite He. cbn [rbind].
    exists (sn_lcs e). split; [done|]. split; [apply Hl|]. intros m Hm.
    specialize (Hleast m Hm). pose proof (live_cost _ _ _ _ _ _ _ _ _ Hl) as Hc.
    pose proof (live_diagonal _ _ _ _ _ _ _ _ _ Hl).
    assert (left0 t0 t1 (length t0) = 0) by (unfold left0, rest0; by rewrite drop_all).
    unfold cost in Hc. destruct (Z.leb_spec (left0 t0 t1 0) (left1 t0 t1 0)); lia.
Qed.

(** A common subsequence is a way through both files. *)
Lemma reach_common s m r0 r1 :
  reach m r0 r1 → s `sublist_of` r0 → s `sublist_of` r1 →
  reach (m + Z.of_nat (length s)) [] [].
Proof.
  revert s m r0 r1.
  assert (∀ r0 r1 m s, reach m r0 r1 → s `sublist_of` r0 → s `sublist_of` r1 →
    reach (m + Z.of_nat (length s)) [] []) as Hall; [|by eauto].
  induction r0 as [|x r0 IH0]; intros r1 m s Hr H0 H1.
  { apply sublist_nil_r in H0 as ->. rewrite Z.add_0_r. clear H1.
    induction r1 as [|y r1 IH1]; [done|]. apply IH1. by eapply reach_insert. }
  revert m s Hr H0 H1; induction r1 as [|y r1 IH1]; intros m s Hr H0 H1.
  { apply sublist_nil_r in H1 as ->. rewrite Z.add_0_r.
    specialize (IH0 [] m [] ltac:(by eapply reach_delete) (sublist_nil_l _) (sublist_nil_l _)).
    by rewrite Z.add_0_r in IH0. }
  apply sublist_cons_r in H0 as [H0|(s' & -> & H0)].
  { apply (IH0 (y :: r1)); [by eapply reach_delete|done|done]. }
  apply sublist_cons_r in H1 as [H1|(s'' & [= -> ->] & H1)].
  { apply IH1; [by eapply reach_insert|by apply sublist_skip|done]. }
  cbn [length]. replace (m + Z.of_nat (S (length s''))) with (m + 1 + Z.of_nat (length s'')) by lia.
  apply (IH0 r1); [by eapply reach_match|done|done].
Qed.

Lemma lcs_middle_ok :
  ∃ chain,
    lcs_middle (MkRing t0 o0) (MkRing t1 o1) counts1 counts2 = Ok chain
    ∧ chain_ok t0 t1 o0 o1 chain (length t0) (length t1)
    ∧ ∀ s, common s → Z.of_nat (length s) <= matched chain.
Proof.
  destruct lcs_middle_chain as (chain & Heq & Hc & Hmax). exists chain. do 2 (split; [done|]).
  intros s [H0 H1]. apply Hmax. rewrite <- (Z.add_0_l (Z.of_nat _)).
  assert (∀ (t other : list Z), s `sublist_of` t → (∀ x, x ∈ s → x ∈ other) →
    s `sublist_of` filter (λ x, x ∈ other) t) as Hfilter.
  { clear. intros t other Hs. induction Hs as [|x s t Hs IH|x s t Hs IH]; intros Hin.
    - apply sublist_nil_l.
    - rewrite filter_cons_True by (apply Hin; by left). apply sublist_skip, IH. set_solver.
    - rewrite filter_cons. case_decide; [by apply sublist_cons, IH|by apply IH]. }
  eapply reach_common; [apply reach_start| |]; unfold rest0, rest1; rewrite drop_0;
    apply Hfilter; try done; intros x Hx; by eapply elem_of_sublist.
Qed.
End Middle.

(** ** Whole files *)

Section Files.
Context (file0 file1 : list Z).

(** The runs of equal tokens follow each other from the lines [i] and [j] on,
    counted from 1, and the last node is the end of both files. *)
Fixpoint matching (i j : Z) (lcs : list svn_diff__lcs_t) : Prop :=
  match lcs with
  | [] => False
  | MkLcs pos0 pos1 len :: rest =>
      i <= pos0 ∧ j <= pos1
      ∧ if len =? 0
        then pos0 = Z.of_nat (length file0) + 1 ∧ pos1 = Z.of_nat (length file1) + 1 ∧ rest = []
        else 0 < len
             ∧ pos0 + len <= Z.of_nat (length file0) + 1
             ∧ pos1 + len <= Z.of_nat (length file1) + 1
             ∧ take (Z.to_nat len) (drop (Z.to_nat (pos0 - 1)) file0)
               = take (Z.to_nat len) (drop (Z.to_nat (pos1 - 1)) file1)
             ∧ matching (pos0 + len) (pos1 + len) rest
  end.

Lemma matching_weaken i j i' j' lcs :
  matching i j lcs → i' <= i → j' <= j → matching i' j' lcs.
Proof. destruct lcs as [|[pos0 pos1 len] rest]; [done|]. intros (? & ? & ?) ??. simpl. do 2 (split; [lia|]). done. Qed.
End Files.

Lemma take_drop_middle_part {A} (pre t suf : list A) a len :
  (a + len <= length t)%nat →
  take len (drop (length pre + a) (pre ++ t ++ suf)) = take len (drop a t).
Proof.
  intros Ha. rewrite <- drop_drop, drop_app_length. rewrite drop_app_le by lia.
  apply take_app_le. rewrite length_drop. lia.
Qed.

(** The chain of the middle, in ascending order. *)
Lemma matching_chain pre0 pre1 t0 t1 suf0 suf1 chain i j rest :
  chain_ok t0 t1 (Z.of_nat (length pre0) + 1) (Z.of_nat (length pre1) + 1) chain i j →
  (i <= length t0)%nat → (j <= length t1)%nat →
  matching (pre0 ++ t0 ++ suf0) (pre1 ++ t1 ++ suf1)
    (Z.of_nat (length pre0) + 1 + Z.of_nat i) (Z.of_nat (length pre1) + 1 + Z.of_nat j) rest →
  matching (pre0 ++ t0 ++ suf0) (pre1 ++ t1 ++ suf1)
    (Z.of_nat (length pre0) + 1) (Z.of_nat (length pre1) + 1) (reverse chain ++ rest)
  ∧ matched (reverse chain ++ rest) = matched chain + matched rest.
Proof.
  revert i j rest; induction chain as [|c chain IH]; intros i j rest Hc Hi Hj Hm.
  { split; [|done]. eapply matching_weaken; [done|lia..]. }
  destruct Hc as (a & b & len & -> & Hlen & Ha & Hb & Heq & Hc).
  rewrite reverse_cons, <- app_assoc. cbn [app].
  destruct (IH a b (MkLcs (Z.of_nat (length pre0) + 1 + Z.of_nat a)
    (Z.of_nat (length pre1) + 1 + Z.of_nat b) (Z.of_nat len) :: rest)) as [IH1 IH2]; [done|lia|lia| |].
  - cbn [matching]. split; [lia|]. split; [lia|]. if_false by lia.
    split; [lia|]. rewrite !length_app. split; [lia|]. split; [lia|]. split.
    + replace (Z.to_nat (Z.of_nat (length pre0) + 1 + Z.of_nat a - 1))
        with (length pre0 + a)%nat by lia.
      replace (Z.to_nat (Z.of_nat (length pre1) + 1 + Z.of_nat b - 1))
        with (length pre1 + b)%nat by lia.
      rewrite Nat2Z.id, !take_drop_middle_part by lia. done.
    + eapply matching_weaken; [done|lia..].
  - split; [done|]. rewrite IH2. simpl. lia.
Qed.

(** ** Common prefixes and suffixes *)

Definition is_common (s a b : list Z) : Prop := s `sublist_of` a ∧ s `sublist_of` b.

Lemma common_cons x a b s :
  is_common s (x :: a) (x :: b) → ∃ s', is_common s' a b ∧ (length s <= S (length s'))%nat.
Proof.
  intros [[Ha|(s1 & -> & Ha)]%sublist_cons_r [Hb|(s2 & Heq & Hb)]%sublist_cons_r].
  - exists s. split; [done|lia].
  - subst s. exists s2. split; [split; [|done]|simpl; lia].
    transitivity (x :: s2); [by apply sublist_cons|done].
  - exists s1. split; [split; [done|]|simpl; lia]. transitivity (x :: s1); [by apply sublist_cons|done].
  - injection Heq as <-. exists s1. split; [done|simpl; lia].
Qed.

Lemma common_prefix pre a b s :
  is_common s (pre ++ a) (pre ++ b) →
  ∃ s', is_common s' a b ∧ (length s <= length pre + length s')%nat.
Proof.
  revert s; induction pre as [|x pre IH]; intros s Hs; [by exists s|].
  destruct (common_cons x _ _ _ Hs) as (s1 & H1 & Hl1).
  destruct (IH s1 H1) as (s2 & H2 & Hl2). exists s2. split; [done|simpl; lia].
Qed.

Lemma sublist_reverse {A} (l k : list A) : l `sublist_of` k → reverse l `sublist_of` reverse k.
Proof.
  induction 1 as [|x l k _ IH|x l k _ IH]; [done|..]; rewrite !reverse_cons.
  - by apply sublist_app.
  - by apply sublist_inserts_r.
Qed.

Lemma common_suffix suf a b s :
  is_common s (a ++ suf) (b ++ suf) →
  ∃ s', is_common s' a b ∧ (length s <= length suf + length s')%nat.
Proof.
  intros [Ha Hb]. apply sublist_reverse in Ha, Hb.
  rewrite reverse_app in Ha. rewrite reverse_app in Hb.
  destruct (common_prefix (reverse suf) (reverse a) (reverse b) (reverse s) (conj Ha Hb))
    as (s' & [Ha' Hb'] & Hl). rewrite !length_reverse in Hl.
  exists (reverse s'). rewrite length_reverse. split; [|lia].
  apply sublist_reverse in Ha', Hb'. rewrite !reverse_involutive in Ha', Hb'. done.
Qed.

(** ** The theorem *)

Lemma eof_offset_ok tokens (prefix suffix : list Z) :
  eof_offset (ring_of tokens (Z.of_nat (length prefix) + 1)) (Z.of_nat (length prefix))
    (Z.of_nat (length suffix))
  = Z.of_nat (length (prefix ++ tokens ++ suffix)) + 1.
Proof.
  rewrite !length_app. destruct tokens as [|x tokens]; cbn [ring_of eof_offset ring_tokens length ring_offset]; lia.
Qed.

(** The chain of the middle, closed by the suffix and the end of file, and
    headed by the prefix. *)
Definition close_chain (prefix_lines suffix_lines : Z) (eof : svn_diff__lcs_t)
    (chain : list svn_diff__lcs_t) : result (list svn_diff__lcs_t) :=
  let! lcs :=
    if negb (suffix_lines =? 0)
    then prepend_lcs chain suffix_lines (lcs_position0 eof - suffix_lines)
           (lcs_position1 eof - suffix_lines)
    else Ok chain in
  if negb (prefix_lines =? 0)
  then prepend_lcs (reverse lcs ++ [eof]) prefix_lines 1 1
  else Ok (reverse lcs ++ [eof]).

(** The chain of the middle, the files having tokens or not. *)
Definition middle_chain (l1 l2 : option ring) (c1 c2 : list Z) : result (list svn_diff__lcs_t) :=
  match l1, l2 with Some r1, Some r2 => lcs_middle r1 r2 c1 c2 | _, _ => Ok [] end.

Lemma svn_diff__lcs_cases l1 l2 c1 c2 p s :
  svn_diff__lcs l1 l2 c1 c2 p s
  = let! chain := middle_chain l1 l2 c1 c2 in
    close_chain p s (MkLcs (eof_offset l1 p s) (eof_offset l2 p s) 0) chain.
Proof.
  unfold svn_diff__lcs, middle_chain, close_chain, prepend_lcs, guarded.
  assert (∀ eof : svn_diff__lcs_t, reverse [] ++ [eof] = [eof]
    ∧ ∀ c, reverse [c] ++ [eof] = [c; eof]) as Hrev by done.
  destruct l1, l2; cbn [rbind]; [by destruct (lcs_middle _ _ _ _)|..];
    (case_if; [destruct (0 <? s)|]; done).
Qed.

Lemma close_chain_ok (prefix suffix t0 t1 : list Z) chain :
  let o := Z.of_nat (length prefix) + 1 in
  let file0 := prefix ++ t0 ++ suffix in
  let file1 := prefix ++ t1 ++ suffix in
  chain_ok t0 t1 o o chain (length t0) (length t1) →
  ∃ lcs,
    close_chain (Z.of_nat (length prefix)) (Z.of_nat (length suffix))
      (MkLcs (Z.of_nat (length file0) + 1) (Z.of_nat (length file1) + 1) 0) chain = Ok lcs
    ∧ matching file0 file1 1 1 lcs
    ∧ matched lcs = Z.of_nat (length prefix) + matched chain + Z.of_nat (length suffix).
Proof.
  intros o file0 file1 Hc. unfold close_chain.
  set (eof := MkLcs _ _ 0). set (lp := Z.of_nat (length prefix)). set (ls := Z.of_nat (length suffix)).
  assert (Z.of_nat (length file0) = lp + Z.of_nat (length t0) + ls) as Hf0
    by (unfold file0; rewrite !length_app; lia).
  assert (Z.of_nat (length file1) = lp + Z.of_nat (length t1) + ls) as Hf1
    by (unfold file1; rewrite !length_app; lia).
  assert (∃ suffixed,
    (if negb (ls =? 0) then prepend_lcs chain ls (lcs_position0 eof - ls) (lcs_position1 eof - ls)
     else Ok chain) = Ok suffixed
    ∧ matching file0 file1 o o (reverse suffixed ++ [eof])
    ∧ matched (reverse suffixed ++ [eof]) = matched chain + ls) as (suffixed & -> & Hm & Hsum).
  { destruct (Z.eqb_spec ls 0) as [Hs|Hs]; cbn [negb].
    - exists chain. split; [done|]. rewrite Hs.
      apply (matching_chain prefix prefix t0 t1 suffix suffix chain _ _ [eof] Hc); [done..|].
      fold file0 file1 lp. unfold eof. simpl. repeat split; lia.
    - unfold prepend_lcs, guarded. if_true by lia. eexists. split; [done|].
      rewrite reverse_cons, <- app_assoc. cbn [app].
      destruct (matching_chain prefix prefix t0 t1 suffix suffix chain _ _
        [MkLcs (lcs_position0 eof - ls) (lcs_position1 eof - ls) ls; eof] Hc)
        as [Hm Hsum]; [done..| |]; [fold file0 file1 lp|fold file0 file1 in Hm, Hsum];
        [|split; [done|rewrite Hsum; simpl; lia]].
      unfold eof. cbn [matching lcs_position0 lcs_position1 lcs_length].
      split; [lia|]. split; [lia|]. if_false by lia. do 3 (split; [lia|]).
      split; [|simpl; repeat split; lia]. unfold file0, file1. rewrite !app_assoc.
      rewrite !drop_app_length'; [done| |]; rewrite length_app; lia. }
  cbn [rbind]. destruct (Z.eqb_spec lp 0) as [Hp|Hp]; cbn [negb].
  - exists (reverse suffixed ++ [eof]). split; [done|]. split; [|lia].
    eapply matching_weaken; [done|unfold o; lia..].
  - unfold prepend_lcs, guarded. if_true by lia. eexists. split; [done|].
    split; [|cbn [matched lcs_length]; lia].
    cbn [matching]. split; [lia|]. split; [lia|]. if_false by lia. do 3 (split; [lia|]). split.
    + unfold lp, file0, file1. rewrite Z.sub_diag, Nat2Z.id. change (Z.to_nat 0) with 0%nat. by rewrite !drop_0, !take_app_length.
    + eapply matching_weaken; [done|unfold o; lia..].
Qed.

Lemma middle_chain_ok (num : nat) (t0 t1 : list Z) (o0 o1 : Z) :
  in_range num t0 → in_range num t1 → 0 < o1 →
  ∃ counts1 counts2 chain,
    svn_diff__get_token_counts (ring_of t0 o0) num = Ok counts1
    ∧ svn_diff__get_token_counts (ring_of t1 o1) num = Ok counts2
    ∧ middle_chain (ring_of t0 o0) (ring_of t1 o1) counts1 counts2 = Ok chain
    ∧ chain_ok t0 t1 o0 o1 chain (length t0) (length t1)
    ∧ ∀ s, is_common s t0 t1 → Z.of_nat (length s) <= matched chain.
Proof.
  intros Hr0 Hr1 Ho1.
  destruct (get_token_counts_ok t0 o0 num Hr0) as (counts1 & Hget1 & Hl1 & Hc1).
  destruct (get_token_counts_ok t1 o1 num Hr1) as (counts2 & Hget2 & Hl2 & Hc2).
  exists counts1, counts2. destruct (decide (t0 = [] ∨ t1 = [])) as [Hnil|Hsome].
  - exists []. do 2 (split; [done|]). split; [by destruct Hnil as [->| ->]; [|destruct t0]|].
    split; [done|]. intros s [H0 H1]. by destruct Hnil as [->| ->];
      [apply sublist_nil_r in H0 as ->|apply sublist_nil_r in H1 as ->].
  - destruct (lcs_middle_ok t0 t1 o0 o1 counts1 counts2) as (chain & Hmid & ? & ?);
      try done; [congruence|by rewrite Hl2..|].
    exists chain. do 2 (split; [done|]). split; [|done]. destruct t0, t1; tauto.
Qed.

Lemma svn_diff__lcs_ok (num : nat) (prefix suffix t0 t1 : list Z) :
  in_range num t0 → in_range num t1 →
  let offset := Z.of_nat (length prefix) + 1 in
  let file0 := prefix ++ t0 ++ suffix in
  let file1 := prefix ++ t1 ++ suffix in
  ∃ counts1 counts2 lcs,
    svn_diff__get_token_counts (ring_of t0 offset) num = Ok counts1
    ∧ svn_diff__get_token_counts (ring_of t1 offset) num = Ok counts2
    ∧ svn_diff__lcs (ring_of t0 offset) (ring_of t1 offset) counts1 counts2
        (Z.of_nat (length prefix)) (Z.of_nat (length suffix)) = Ok lcs
    ∧ matching file0 file1 1 1 lcs
    ∧ ∀ s, is_common s file0 file1 → Z.of_nat (length s) <= matched lcs.
Proof.
  intros Hr0 Hr1 offset file0 file1.
  destruct (middle_chain_ok num t0 t1 offset offset Hr0 Hr1)
    as (counts1 & counts2 & chain & Hget1 & Hget2 & Hmid & Hchain & Hmax); [lia|].
  destruct (close_chain_ok prefix suffix t0 t1 chain Hchain) as (lcs & Heq & Hm & Hsum).
  exists counts1, counts2, lcs. do 2 (split; [done|]).
  rewrite svn_diff__lcs_cases, Hmid. unfold offset. rewrite !eof_offset_ok. split; [done|].
  split; [done|]. intros s Hs. destruct (common_prefix prefix _ _ _ Hs) as (s1 & H1 & Hlen1).
  destruct (common_suffix suffix _ _ _ H1) as (s2 & H2 & Hlen2).
  specialize (Hmax s2 H2). lia.
Qed.

(** C8: svn_diff__lcs ends, never leaves its arrays, and returns a chain of
    runs of equal lines in the order of both files, up to the end of both,
    and no common subsequence of the two files is longer than the lines in
    the runs. *)
Theorem svn_diff__lcs_longest (num : nat) (prefix suffix t0 t1 : list Z) :
  in_range num t0 → in_range num t1 →
  let offset := Z.of_nat (length prefix) + 1 in
  let file0 := prefix ++ t0 ++ suffix in
  let file1 := prefix ++ t1 ++ suffix in
  ∃ counts1 counts2 lcs,
    svn_diff__get_token_counts (ring_of t0 offset) num = Ok counts1
    ∧ svn_diff__get_token_counts (ring_of t1 offset) num = Ok counts2
    ∧ svn_diff__lcs (ring_of t0 offset) (ring_of t1 offset) counts1 counts2
        (Z.of_nat (length prefix)) (Z.of_nat (length suffix)) = Ok lcs
    ∧ matching file0 file1 1 1 lcs
    ∧ ∀ s, is_common s file0 file1 → Z.of_nat (length s) <= matched lcs.
Proof. apply svn_diff__lcs_ok. Qed.

Lemma svn_diff__lcs_longest_witness :
  let t0 := [0; 1; 2; 3; 0; 4] in
  let t1 := [5; 1; 2; 0; 4; 6; 3] in
  let file0 := [-1; -2] ++ t0 ++ [-3] in
  let file1 := [-1; -2] ++ t1 ++ [-3] in
  ∃ counts1 counts2 lcs,
    svn_diff__get_token_counts (ring_of t0 3) 7 = Ok counts1
    ∧ svn_diff__get_token_counts (ring_of t1 3) 7 = Ok counts2
    ∧ svn_diff__lcs (ring_of t0 3) (ring_of t1 3) counts1 counts2 2 1 = Ok lcs
    ∧ matching file0 file1 1 1 lcs
    ∧ ∀ s, is_common s file0 file1 → Z.of_nat (length s) <= matched lcs.
Proof.
  apply (svn_diff__lcs_longest 7 [-1; -2] [-3] [0; 1; 2; 3; 0; 4] [5; 1; 2; 0; 4; 6; 3]);
    unfold in_range; repeat (apply Forall_cons; split; [simpl; lia|]); apply Forall_nil; done.
Defined.
