(* ===== verification/DiffTokens.v ===== *)
(** * The tokens of a diff

    [src/subversion/libsvn_diff/token.c], and the vtable of [svn_diff.h] through
    which the diff reads its files: a typeclass with the callbacks, and one with
    what their documentation promises.

    The hash table of token trees is a list of [SVN_DIFF__HASH_SIZE] trees; the
    [parent] links, which nothing follows, are left out. *)
From S2P Require Import Prelude DiffLcs.

(** ** The vtable *)

Inductive svn_diff_datasource_e :=
  | svn_diff_datasource_original
  | svn_diff_datasource_modified
  | svn_diff_datasource_latest
  | svn_diff_datasource_ancestor.

#[global] Instance datasource_eq_dec : EqDecision svn_diff_datasource_e.
Proof. solve_decision. Defined.

(** [datasource_get_next_token] returns [None] where the C sets [*token] to
    null, and the hash and the token otherwise. *)
Class svn_diff_fns2_t (baton token : Type) := {
  datasources_open : baton → list svn_diff_datasource_e → result (baton * Z * Z);
  datasource_close : baton → svn_diff_datasource_e → result baton;
  datasource_get_next_token : baton → svn_diff_datasource_e → result (baton * option (Z * token));
  token_compare : baton → token → token → result (baton * Z);
  token_discard : option (baton → token → baton);
  token_discard_all : option (baton → baton);
}.

(** ** The token tree *)

Definition SVN_DIFF__HASH_SIZE : Z := 127.

Inductive svn_diff__node_t (token : Type) :=
  | NoNode
  | Node (left : svn_diff__node_t token) (hash index : Z) (node_token : token)
      (right : svn_diff__node_t token).
Arguments NoNode {token}.
Arguments Node {token} left hash index node_token right.

Record svn_diff__tree_t (token : Type) := MkTree {
  tree_root : list (svn_diff__node_t token);
  node_count : Z;
}.
Arguments MkTree {token} tree_root node_count.
Arguments tree_root {token} _.
Arguments node_count {token} _.

Section Tokens.
Context {baton token : Type} `{!svn_diff_fns2_t baton token}.

Definition svn_diff__tree_create : svn_diff__tree_t token :=
  MkTree (replicate (Z.to_nat SVN_DIFF__HASH_SIZE) NoNode) 0.

Definition svn_diff__get_node_count (tree : svn_diff__tree_t token) : Z := node_count tree.

Definition discard (diff_baton : baton) (t : token) : baton :=
  match token_discard with Some f => f diff_baton t | None => diff_baton end.

(** The search from a node on.  It returns the tree with the token in it, the
    number of nodes, and the index of the token's node. *)
Fixpoint insert_loop (diff_baton : baton) (hash : Z) (t : token) (count : Z)
    (node : svn_diff__node_t token) : result (baton * svn_diff__node_t token * Z * Z) :=
  match node with
  | NoNode => Ok (diff_baton, Node NoNode hash count t NoNode, count + 1, count)
  | Node l parent_hash index parent_token r =>
      let rv := s32 (u32 (hash - parent_hash)) in
      let! (diff_baton, rv) :=
        if rv =? 0 then token_compare diff_baton parent_token t else Ok (diff_baton, rv) in
      if rv =? 0 then
        Ok (discard diff_baton parent_token, Node l parent_hash index t r, count, index)
      else if 0 <? rv then
        let! (diff_baton, l, count, index') := insert_loop diff_baton hash t count l in
        Ok (diff_baton, Node l parent_hash index parent_token r, count, index')
      else
        let! (diff_baton, r, count, index') := insert_loop diff_baton hash t count r in
        Ok (diff_baton, Node l parent_hash index parent_token r, count, index')
  end.

(** Returns the index of the token's node. *)
Definition tree_insert_token (tree : svn_diff__tree_t token) (diff_baton : baton)
    (hash : Z) (t : token) : result (baton * svn_diff__tree_t token * Z) :=
  let slot := Z.to_nat (hash mod SVN_DIFF__HASH_SIZE) in
  let! node := from_option Ok Undefined (tree_root tree !! slot) in
  let! (diff_baton, node, count, index) :=
    insert_loop diff_baton hash t (node_count tree) node in
  Ok (diff_baton, MkTree (<[slot := node]> (tree_root tree)) count, index).

(** The loop: the token indices of the positions. *)
Fixpoint get_tokens_loop (fuel : nat) (tree : svn_diff__tree_t token) (diff_baton : baton)
    (datasource : svn_diff_datasource_e)
    : result (baton * svn_diff__tree_t token * list Z) :=
  match fuel with
  | O => OutOfFuel
  | S fuel =>
      let! (diff_baton, next) := datasource_get_next_token diff_baton datasource in
      match next with
      | None => Ok (diff_baton, tree, [])
      | Some (hash, t) =>
          let! (diff_baton, tree, index) := tree_insert_token tree diff_baton hash t in
          let! (diff_baton, tree, indices) := get_tokens_loop fuel tree diff_baton datasource in
          Ok (diff_baton, tree, index :: indices)
      end
  end.

(** [fuel] bounds the number of tokens of the datasource. *)
Definition svn_diff__get_tokens (fuel : nat) (tree : svn_diff__tree_t token)
    (diff_baton : baton) (datasource : svn_diff_datasource_e) (prefix_lines : Z)
    : result (baton * svn_diff__tree_t token * option ring) :=
  let! (diff_baton, tree, indices) := get_tokens_loop fuel tree diff_baton datasource in
  let! diff_baton := datasource_close diff_baton datasource in
  Ok (diff_baton, tree, ring_of indices (prefix_lines + 1)).
End Tokens.

(** ** What the callbacks promise

    The contents of a datasource are its tokens.  [datasources_open] may take
    lines off the start and the end that the datasources have in common; the
    others are [pending] until they are read.  Tokens compare by [rank], whose
    sign orders classes of equal tokens; equal tokens have the same hash.  The
    callbacks are used with a baton that is [usable] for the datasources at hand
    ([openable] before they are opened), and with tokens of its datasources
    only. *)
Class DiffFnsSpec (baton token : Type) `{!svn_diff_fns2_t baton token} := {
  openable : baton → list svn_diff_datasource_e → Prop;
  usable : baton → list svn_diff_datasource_e → Prop;
  contents : baton → svn_diff_datasource_e → list token;
  pending : baton → svn_diff_datasource_e → list token;
  rank : token → token → Z;
  hash_of : token → Z;

  rank_refl t : rank t t = 0;
  rank_sym t u : rank t u = 0 → rank u t = 0;
  rank_left t u v : rank t u = 0 → Z.sgn (rank t v) = Z.sgn (rank u v);
  rank_right t u v : rank t u = 0 → Z.sgn (rank v t) = Z.sgn (rank v u);
  rank_hash t u : rank t u = 0 → hash_of t = hash_of u;
  hash_range t : 0 <= hash_of t < 0x100000000;
  pending_spec b sources s t : usable b sources → t ∈ pending b s → t ∈ contents b s;

  open_spec b sources :
    openable b sources → NoDup sources →
    ∃ b' prefix_lines suffix_lines,
      datasources_open b sources = Ok (b', Z.of_nat prefix_lines, Z.of_nat suffix_lines)
      ∧ usable b' sources ∧ (∀ s, contents b' s = contents b s)
      ∧ (∀ s, s ∈ sources → ∃ prefix suffix,
           contents b s = prefix ++ pending b' s ++ suffix
           ∧ length prefix = prefix_lines ∧ length suffix = suffix_lines)
      ∧ (∀ s s' i t t', s ∈ sources → s' ∈ sources → (i < prefix_lines)%nat →
           contents b s !! i = Some t → contents b s' !! i = Some t' → rank t t' = 0)
      ∧ (∀ s s' i t t', s ∈ sources → s' ∈ sources → (i < suffix_lines)%nat →
           reverse (contents b s) !! i = Some t → reverse (contents b s') !! i = Some t' →
           rank t t' = 0);
  close_spec b sources s :
    usable b sources → s ∈ sources →
    ∃ b', datasource_close b s = Ok b'
      ∧ usable b' sources ∧ (∀ s, contents b' s = contents b s)
      ∧ ∀ s, pending b' s = pending b s;
  next_spec b sources s :
    usable b sources → s ∈ sources →
    ∃ b', datasource_get_next_token b s
            = Ok (b', match pending b s with t :: _ => Some (hash_of t, t) | [] => None end)
      ∧ usable b' sources ∧ (∀ s', contents b' s' = contents b s') ∧ pending b' s = tail (pending b s)
      ∧ ∀ s', s' ≠ s → pending b' s' = pending b s';
  compare_spec b sources s s' t u :
    usable b sources → t ∈ contents b s → u ∈ contents b s' →
    ∃ b', token_compare b t u = Ok (b', rank t u)
      ∧ usable b' sources ∧ (∀ s, contents b' s = contents b s)
      ∧ ∀ s, pending b' s = pending b s;
  discard_spec b sources t f :
    usable b sources → token_discard = Some f →
    usable (f b t) sources ∧ (∀ s, contents (f b t) s = contents b s)
      ∧ ∀ s, pending (f b t) s = pending b s;
}.
