(* ===== verification/DiffTokensCorrect.v ===== *)
(** * Properties of the token tree

    Every token is given the index of the first token equal to it, whatever the
    order of the hashes: the search for a token takes the same turns as the
    search for any token equal to it. *)
From S2P Require Import Prelude DiffLcs DiffTokens.

Section Index.
Context {baton token : Type} `{Hfns : !svn_diff_fns2_t baton token, Hspec : !DiffFnsSpec baton token}.
Context (sources : list svn_diff_datasource_e).
Implicit Types (b : baton) (t u v : token) (node : svn_diff__node_t token).

(** ** Equal tokens *)

Definition same_token t u : Prop := rank t u = 0.

#[global] Instance same_token_decision t u : Decision (same_token t u) := decide (rank t u = 0).

#[global] Instance same_token_equivalence : Equivalence same_token.
Proof.
  split.
  - intros t. apply rank_refl.
  - intros t u. apply rank_sym.
  - intros t u v Htu Huv. unfold same_token in *. pose proof (rank_left _ _ v Htu). lia.
Qed.

#[global] Instance hash_of_proper : Proper (same_token ==> eq) hash_of.
Proof. intros t u. apply rank_hash. Qed.

(** The turn that the search for [t] takes at a node with the token [u]. *)
Definition turn t u : Z :=
  let rv := s32 (u32 (hash_of t - hash_of u)) in if rv =? 0 then rank u t else rv.

Lemma hashes_equal t u : s32 (u32 (hash_of t - hash_of u)) = 0 ↔ hash_of t = hash_of u.
Proof.
  pose proof (hash_range t). pose proof (hash_range u). unfold s32, u32.
  split; [|intros ->; by rewrite Z.sub_diag]. intros Hz.
  destruct (Z.le_gt_cases (hash_of u) (hash_of t)) as [Hle|Hgt].
  - rewrite (Z.mod_small (hash_of t - hash_of u)) in Hz by lia. Z.div_mod_to_equations. lia.
  - rewrite <- (Z.mod_unique (hash_of t - hash_of u) 0x100000000 (-1)
      (hash_of t - hash_of u + 0x100000000)) in Hz by lia.
    Z.div_mod_to_equations. lia.
Qed.

Lemma turn_same t u : turn t u = 0 ↔ same_token u t.
Proof.
  unfold turn. case_if.
  - done.
  - split; [lia|]. intros Hut. apply hash_of_proper in Hut.
    assert (s32 (u32 (hash_of t - hash_of u)) = 0) by (by apply hashes_equal). lia.
Qed.

#[global] Instance turn_proper : Proper (same_token ==> same_token ==> eq) (λ t u, Z.sgn (turn t u)).
Proof.
  intros t t' Ht u u' Hu. unfold turn. cbn zeta.
  rewrite <- (hash_of_proper _ _ Ht), <- (hash_of_proper _ _ Hu). case_if; [|done].
  rewrite (rank_left u u' _ Hu). apply rank_right, Ht.
Qed.

(** ** Trees *)

(** The indices and tokens of a tree, in order. *)
Fixpoint entries node : list (Z * token) :=
  match node with
  | NoNode => []
  | Node l _ index t r => entries l ++ (index, t) :: entries r
  end.

Fixpoint searchable node : Prop :=
  match node with
  | NoNode => True
  | Node l hash _ t r =>
      hash = hash_of t
      ∧ (∀ e, e ∈ entries l → 0 < turn e.2 t) ∧ (∀ e, e ∈ entries r → turn e.2 t < 0)
      ∧ searchable l ∧ searchable r
  end.

(** The outcome of an insertion: the token takes the place of an equal one, or
    is a new entry. *)
Inductive inserted t (count : Z) (es es' : list (Z * token)) : Z → Z → Prop :=
  | inserted_equal es1 es2 index u :
      es = es1 ++ (index, u) :: es2 → es' = es1 ++ (index, t) :: es2 → same_token u t →
      inserted t count es es' count index
  | inserted_new es1 es2 :
      es = es1 ++ es2 → es' = es1 ++ (count, t) :: es2 → (∀ e, e ∈ es → ¬ same_token e.2 t) →
      inserted t count es es' (count + 1) count.

(** Nothing that can be read has changed. *)
Definition unread b b' : Prop :=
  usable b' sources ∧ (∀ s, contents b' s = contents b s) ∧ ∀ s, pending b' s = pending b s.

Lemma unread_trans b1 b2 b3 : unread b1 b2 → unread b2 b3 → unread b1 b3.
Proof. intros (_ & ? & ?) (? & ? & ?). split; [done|]. split; intros s; congruence. Qed.

Lemma discard_unread b t : usable b sources → unread b (discard b t).
Proof.
  intros Hb. unfold discard. destruct token_discard as [f|] eqn:Hf; [|done]. by apply discard_spec.
Qed.

(** The token is one of a datasource's. *)
Definition known b t : Prop := ∃ s, t ∈ contents b s.

Lemma known_unread b b' t : unread b b' → known b t → known b' t.
Proof. intros (_ & Hc & _) [s Hs]. exists s. by rewrite Hc. Qed.

(** Comparing, when the hashes are equal. *)
Lemma turn_ok b t u :
  usable b sources → known b t → known b u →
  ∃ b', (let rv := s32 (u32 (hash_of t - hash_of u)) in
         if rv =? 0 then token_compare b u t else Ok (b, rv)) = Ok (b', turn t u)
    ∧ unread b b'.
Proof.
  intros Hb [s Ht] [s' Hu]. unfold turn. cbn zeta. case_if; [|by exists b].
  destruct (compare_spec b sources s' s u t) as (b' & -> & ?); [done..|]. by exists b'.
Qed.

Lemma inserted_entries t count es es' count' index e :
  inserted t count es es' count' index → e ∈ es' →
  (∃ e', e' ∈ es ∧ same_token e'.2 e.2) ∨ e.2 = t.
Proof.
  intros [es1 es2 i u -> -> Hu|es1 es2 -> -> Hnew];
    rewrite elem_of_app, elem_of_cons; intros [He|[->|He]]; [| | | |by right|];
    try (left; exists e; split; [set_solver|done]).
  left. exists (i, u). split; [set_solver|done].
Qed.

Lemma insert_loop_ok b t count node :
  usable b sources → known b t → (∀ e, e ∈ entries node → known b e.2) → searchable node →
  ∃ b' node' count' index,
    insert_loop b (hash_of t) t count node = Ok (b', node', count', index)
    ∧ unread b b' ∧ searchable node'
    ∧ inserted t count (entries node) (entries node') count' index.
Proof.
  revert b; induction node as [|l IHl hash i u r IHr]; intros b.
  { intros Hb _ _ _. eexists _, _, _, _. split; [done|]. split; [done|].
    split; [by repeat split; set_solver|]. by apply (inserted_new _ _ _ _ [] []); [| |set_solver]. }
  intros Hb Hkt Hkn (-> & Hl & Hr & Hsl & Hsr). cbn [insert_loop]. cbn [entries] in Hkn.
  destruct (turn_ok b t u) as (b1 & Hturn & Hun); [done|done|apply (Hkn (i, u)); set_solver|].
  cbn zeta in Hturn |- *. rewrite Hturn.
  cbn [rbind]. destruct (Z.eqb_spec (turn t u) 0) as [Ht|Ht].
  - apply turn_same in Ht. eexists _, _, _, _. split; [done|].
    split; [by eapply unread_trans; [|apply discard_unread, Hun]|]. split.
    + split; [by rewrite Ht|]. split; [|split; [|done]].
      * intros e He. specialize (Hl e He). assert (Hs := turn_proper e.2 e.2 (reflexivity _) u t Ht).
        simpl in Hs. lia.
      * intros e He. specialize (Hr e He). assert (Hs := turn_proper e.2 e.2 (reflexivity _) u t Ht).
        simpl in Hs. lia.
    + by eapply inserted_equal.
  - assert (∀ e : Z * token, same_token e.2 t → Z.sgn (turn e.2 u) = Z.sgn (turn t u)) as Hsame
      by (intros e He; by apply (turn_proper _ _ He _ _ (reflexivity _))).
    assert (¬ same_token u t) as Hut by by rewrite <- turn_same.
    case_if.
    + destruct (IHl b1) as (b' & l' & count' & index & -> & Hun' & Hs' & Hins);
        [apply Hun|by eapply known_unread| |done|].
      { intros e He. eapply known_unread, Hkn; [done|set_solver]. }
      eexists _, _, _, _. split; [done|]. split; [by eapply unread_trans|]. split.
      * split; [done|]. split; [|done]. intros e He.
        destruct (inserted_entries _ _ _ _ _ _ _ Hins He) as [(e' & He' & Heq)|Heq].
        -- assert (Hs := turn_proper _ _ Heq u u (reflexivity _)). specialize (Hl _ He').
           simpl in Hs. lia.
        -- rewrite Heq. lia.
      * destruct Hins as [es1 es2 j v Hes Hes' Hv|es1 es2 Hes Hes' Hnew]; cbn [entries].
        -- apply (inserted_equal t count _ _ es1 (es2 ++ (i, u) :: entries r) j v);
             [by rewrite Hes, <- app_assoc|by rewrite Hes', <- app_assoc|done].
        -- apply (inserted_new t count _ _ es1 (es2 ++ (i, u) :: entries r));
             [by rewrite Hes, <- app_assoc|by rewrite Hes', <- app_assoc|].
           intros e. rewrite elem_of_app, elem_of_cons. intros [He|[->|He]].
           ++ by apply Hnew.
           ++ done.
           ++ intros Heq. specialize (Hsame _ Heq). specialize (Hr _ He). lia.
    + destruct (IHr b1) as (b' & r' & count' & index & -> & Hun' & Hs' & Hins);
        [apply Hun|by eapply known_unread| |done|].
      { intros e He. eapply known_unread, Hkn; [done|set_solver]. }
      eexists _, _, _, _. split; [done|]. split; [by eapply unread_trans|]. split.
      * split; [done|]. split; [done|]. split; [|done]. intros e He.
        destruct (inserted_entries _ _ _ _ _ _ _ Hins He) as [(e' & He' & Heq)|Heq].
        -- assert (Hs := turn_proper _ _ Heq u u (reflexivity _)). specialize (Hr _ He').
           simpl in Hs. lia.
        -- rewrite Heq. lia.
      * destruct Hins as [es1 es2 j v Hes Hes' Hv|es1 es2 Hes Hes' Hnew]; cbn [entries].
        -- apply (inserted_equal t count _ _ (entries l ++ (i, u) :: es1) es2 j v);
             [by rewrite Hes, <- app_assoc|by rewrite Hes', <- app_assoc|done].
        -- apply (inserted_new t count _ _ (entries l ++ (i, u) :: es1) es2);
             [by rewrite Hes, <- app_assoc|by rewrite Hes', <- app_assoc|].
           intros e. rewrite elem_of_app, elem_of_cons. intros [He|[->|He]].
           ++ intros Heq. specialize (Hsame _ Heq). specialize (Hl _ He). lia.
           ++ done.
           ++ by apply Hnew.
Qed.

(** ** Indices

    The first token of each class of equal tokens, in the order in which they
    were read; the index of a token is the position of the class. *)
Fixpoint position (reps : list token) t : nat :=
  match reps with
  | [] => O
  | r :: reps => if decide (same_token r t) then O else S (position reps t)
  end.

Definition add_token (reps : list token) t : list token :=
  if (position reps t =? length reps)%nat then reps ++ [t] else reps.

Definition distinct (reps : list token) : Prop :=
  ∀ i j r r', reps !! i = Some r → reps !! j = Some r' → same_token r r' → i = j.

Lemma position_spec reps t :
  (∃ r, reps !! position reps t = Some r ∧ same_token r t)
  ∨ position reps t = length reps ∧ ∀ r, r ∈ reps → ¬ same_token r t.
Proof.
  induction reps as [|r reps IH]; simpl; [right; split; [done|set_solver]|].
  case_decide as Hr; [left; by exists r|]. destruct IH as [(r' & Hl & Hs)|[-> Hnone]].
  - left. by exists r'.
  - right. split; [done|]. intros r'. rewrite elem_of_cons. intros [->|?]; [done|by apply Hnone].
Qed.

#[global] Instance position_proper reps : Proper (same_token ==> eq) (position reps).
Proof.
  intros t u Htu. induction reps as [|r reps IH]; simpl; [done|].
  rewrite IH. do 2 case_decide; try done; exfalso; revert select (¬ _); rewrite Htu || rewrite <- Htu; done.
Qed.

Lemma position_known reps i r t :
  distinct reps → reps !! i = Some r → same_token r t → position reps t = i.
Proof.
  intros Hd Hi Hr. destruct (position_spec reps t) as [(r' & Hl & Hs)|[_ Hnone]].
  - apply (Hd _ _ _ _ Hl Hi). by rewrite Hs, Hr.
  - exfalso. apply (Hnone r); [by eapply list_elem_of_lookup_2|done].
Qed.

Lemma position_extend reps reps' t :
  reps `prefix_of` reps' → (position reps t < length reps)%nat →
  position reps' t = position reps t.
Proof.
  intros [ext ->]. induction reps as [|r reps IH]; simpl; [lia|].
  case_decide; [done|]. intros. rewrite IH; [done|lia].
Qed.

Lemma add_token_prefix reps t : reps `prefix_of` add_token reps t.
Proof. unfold add_token. case_if; [by eexists|done]. Qed.

Lemma add_token_known reps t :
  (position (add_token reps t) t < length (add_token reps t))%nat.
Proof.
  unfold add_token. case_if.
  - destruct (position_spec (reps ++ [t]) t) as [(r & Hr & _)|[_ Hnone]].
    + by apply lookup_lt_Some in Hr.
    + exfalso. apply (Hnone t); [set_solver|reflexivity].
  - destruct (position_spec reps t) as [(r & Hr & _)|[? _]]; [by apply lookup_lt_Some in Hr|lia].
Qed.

Lemma add_token_distinct reps t : distinct reps → distinct (add_token reps t).
Proof.
  intros Hd. unfold add_token. case_if; [|done].
  destruct (position_spec reps t) as [(r & Hr & _)|[_ Hnone]];
    [apply lookup_lt_Some in Hr; lia|].
  intros i j r r' Hi Hj Hs. rewrite lookup_snoc_Some in Hi, Hj.
  destruct Hi as [[Hi Hir]|[Hi <-]], Hj as [[Hj Hjr]|[Hj <-]].
  - by apply (Hd i j r r').
  - exfalso. apply (Hnone r); [by eapply list_elem_of_lookup_2|done].
  - exfalso. apply (Hnone r'); [by eapply list_elem_of_lookup_2|by symmetry].
  - lia.
Qed.

Lemma position_added reps t :
  distinct reps → position (add_token reps t) t = position reps t.
Proof.
  intros Hd. destruct (decide (position reps t < length reps)%nat) as [Hk|Hk].
  { apply position_extend; [apply add_token_prefix|done]. }
  destruct (position_spec reps t) as [(r & Hr & _)|[Hp _]]; [apply lookup_lt_Some in Hr; lia|].
  apply (position_known _ _ t); [by apply add_token_distinct| |reflexivity].
  unfold add_token. if_true by lia. apply lookup_snoc_Some. right. by split; [lia|].
Qed.

(** ** Trees that index tokens *)

Definition slot_of t : nat := Z.to_nat (hash_of t mod SVN_DIFF__HASH_SIZE).

Record indexes b (tree : svn_diff__tree_t token) (reps : list token) : Prop := {
  ix_known k node e :
    tree_root tree !! k = Some node → e ∈ entries node → known b e.2;
  ix_count : node_count tree = Z.of_nat (length reps);
  ix_size : length (tree_root tree) = Z.to_nat SVN_DIFF__HASH_SIZE;
  ix_distinct : distinct reps;
  ix_searchable k node : tree_root tree !! k = Some node → searchable node;
  ix_sound k node i u :
    tree_root tree !! k = Some node → (i, u) ∈ entries node →
    slot_of u = k ∧ ∃ n r, i = Z.of_nat n ∧ reps !! n = Some r ∧ same_token r u;
  ix_complete n r :
    reps !! n = Some r →
    ∃ node u, tree_root tree !! slot_of r = Some node
      ∧ (Z.of_nat n, u) ∈ entries node ∧ same_token r u;
}.

Lemma indexes_unread b b' tree reps :
  (∀ s, contents b' s = contents b s) → indexes b tree reps → indexes b' tree reps.
Proof.
  intros Hc [Hk ? ? ? ? ? ?]. split; try done. intros k node e Hnode He.
  destruct (Hk _ _ _ Hnode He) as [s Hs]. exists s. by rewrite Hc.
Qed.

Lemma indexes_create b : indexes b svn_diff__tree_create [].
Proof.
  split; try done.
  - intros k node e Hk. apply lookup_replicate_1 in Hk as [-> _]. set_solver.
  - intros k node Hk. apply lookup_replicate_1 in Hk as [-> _]. done.
  - intros k node i u Hk. apply lookup_replicate_1 in Hk as [-> _]. set_solver.
Qed.

#[global] Instance slot_of_proper : Proper (same_token ==> eq) slot_of.
Proof. intros t u Htu. unfold slot_of. by rewrite (hash_of_proper _ _ Htu). Qed.

(** The index that an insertion returns is the position of the class. *)
Lemma inserted_position b tree reps t node count' index es' :
  indexes b tree reps → tree_root tree !! slot_of t = Some node →
  inserted t (Z.of_nat (length reps)) (entries node) es' count' index →
  index = Z.of_nat (position reps t) ∧ count' = Z.of_nat (length (add_token reps t)).
Proof.
  intros Hix Hnode [es1 es2 i u Hes _ Hu|es1 es2 Hes _ Hnew]; unfold add_token.
  - destruct (ix_sound _ _ _ Hix _ _ i u Hnode) as (_ & n & r & -> & Hn & Hr);
      [rewrite Hes; set_solver|].
    rewrite (position_known reps n r t (ix_distinct _ _ _ Hix) Hn) by by rewrite Hr.
    apply lookup_lt_Some in Hn. if_false by lia. done.
  - destruct (position_spec reps t) as [(r & Hr & Hs)|[-> _]].
    + exfalso. destruct (ix_complete _ _ _ Hix _ _ Hr) as (node' & u & Hnode' & Hu & Hru).
      assert (slot_of r = slot_of t) as Hslot by by rewrite Hs.
      rewrite Hslot in Hnode'. rewrite Hnode in Hnode'. injection Hnode' as <-.
      apply (Hnew _ Hu). cbn. by rewrite <- Hru.
    + rewrite Nat.eqb_refl, length_app. simpl. lia.
Qed.

Lemma inserted_In t count es es' count' index i u :
  inserted t count es es' count' index → (i, u) ∈ es' →
  (i, u) ∈ es ∨ i = index ∧ u = t.
Proof.
  intros [es1 es2 j v -> -> Hv|es1 es2 -> -> Hnew];
    rewrite !elem_of_app, !elem_of_cons; naive_solver.
Qed.

Lemma inserted_keeps t count es es' count' index i u :
  inserted t count es es' count' index → (i, u) ∈ es →
  ∃ u', (i, u') ∈ es' ∧ same_token u u'.
Proof.
  intros [es1 es2 j v -> -> Hv|es1 es2 -> -> Hnew].
  - rewrite elem_of_app, elem_of_cons. intros [?|[[= -> ->]|?]];
      [exists u|exists t|exists u]; (split; [set_solver|done]).
  - intros ?. exists u. split; [set_solver|done].
Qed.

Lemma inserted_index t count es es' count' index :
  inserted t count es es' count' index → (index, t) ∈ es'.
Proof. intros [es1 es2 j v -> -> Hv|es1 es2 -> -> Hnew]; set_solver. Qed.

Lemma tree_insert_token_ok tree reps b t :
  usable b sources → known b t → indexes b tree reps →
  ∃ b' tree',
    tree_insert_token tree b (hash_of t) t = Ok (b', tree', Z.of_nat (position reps t))
    ∧ unread b b' ∧ indexes b' tree' (add_token reps t).
Proof.
  intros Hb Hkt Hix. unfold tree_insert_token. fold (slot_of t).
  assert (slot_of t < length (tree_root tree))%nat as Hslot.
  { rewrite (ix_size _ _ _ Hix). unfold slot_of, SVN_DIFF__HASH_SIZE.
    pose proof (Z.mod_pos_bound (hash_of t) 127). lia. }
  destruct (lookup_lt_is_Some_2 _ _ Hslot) as [node Hnode]. rewrite Hnode. cbn [from_option rbind].
  rewrite (ix_count _ _ _ Hix).
  destruct (insert_loop_ok b t (Z.of_nat (length reps)) node)
    as (b' & node' & count' & index & -> & Hun & Hs & Hins); [done|done|intros e; by eapply ix_known|by eapply ix_searchable|].
  cbn [rbind]. destruct (inserted_position _ _ _ _ _ _ _ _ Hix Hnode Hins) as [-> ->].
  eexists _, _. split; [done|]. split; [done|].
  split; cbn [tree_root node_count].
  - intros k n e. rewrite list_lookup_insert_Some. intros [(<- & <- & _)|[_ Hk]] He.
    + apply (known_unread _ _ _ Hun). destruct e as [i u].
      destruct (inserted_In _ _ _ _ _ _ _ _ Hins He) as [Hold|[_ ->]]; [|done].
      by eapply (ix_known _ _ _ Hix).
    + apply (known_unread _ _ _ Hun). by eapply (ix_known _ _ _ Hix).
  - done.
  - rewrite length_insert. apply Hix.
  - apply add_token_distinct, Hix.
  - intros k n. rewrite list_lookup_insert_Some. intros [(<- & <- & _)|[_ Hk]]; [done|].
    by eapply ix_searchable.
  - assert (∀ n r, reps !! n = Some r → add_token reps t !! n = Some r) as Hmore.
    { intros n r Hr. by eapply prefix_lookup_Some; [|apply add_token_prefix]. }
    intros k n i u. rewrite list_lookup_insert_Some. intros [(<- & <- & _)|[_ Hk]] Hi.
    + destruct (inserted_In _ _ _ _ _ _ _ _ Hins Hi) as [Hold|[-> ->]].
      * destruct (ix_sound _ _ _ Hix _ _ _ _ Hnode Hold) as (Hsl & m & r & -> & Hm & Hr).
        split; [done|]. exists m, r. eauto.
      * split; [done|]. destruct (position_spec reps t) as [(r & Hr & Hrs)|[Hp _]].
        -- eexists _, r. eauto.
        -- exists (position reps t), t. split; [done|]. split; [|reflexivity].
           unfold add_token. if_true by lia. apply lookup_snoc_Some. right. by split; [lia|].
    + destruct (ix_sound _ _ _ Hix _ _ _ _ Hk Hi) as (Hsl & m & r & -> & Hm & Hr).
      split; [done|]. exists m, r. eauto.
  - intros n r Hn. assert (reps !! n = Some r ∨ n = length reps ∧ r = t
      ∧ position reps t = length reps) as [Hold|(-> & -> & Hp)].
    { revert Hn. unfold add_token. case_if; [|by left]. rewrite lookup_snoc_Some.
      intros [[_ ?]|[-> <-]]; [by left|right]. split; [done|]. split; [done|lia]. }
    + destruct (ix_complete _ _ _ Hix _ _ Hold) as (node0 & u & Hnode0 & Hu & Hru).
      destruct (decide (slot_of r = slot_of t)) as [Heq|Hne].
      * rewrite Heq, Hnode in Hnode0. injection Hnode0 as <-.
        destruct (inserted_keeps _ _ _ _ _ _ _ _ Hins Hu) as (u' & Hu' & Huu').
        exists node', u'. rewrite Heq, list_lookup_insert_eq by done.
        split; [done|]. split; [done|]. by rewrite Hru.
      * exists node0, u. by rewrite list_lookup_insert_ne by done.
    + exists node', t. rewrite list_lookup_insert_eq by done. split; [done|].
      split; [|reflexivity]. rewrite <- Hp. by eapply inserted_index.
Qed.

(** ** Reading the tokens of a datasource *)

Definition add_tokens (reps tokens : list token) : list token := fold_left add_token tokens reps.

Lemma add_tokens_prefix tokens reps : reps `prefix_of` add_tokens reps tokens.
Proof.
  revert reps; induction tokens as [|t tokens IH]; intros reps; [done|].
  transitivity (add_token reps t); [apply add_token_prefix|apply IH].
Qed.

Lemma add_tokens_known tokens reps t :
  t ∈ tokens → (position (add_tokens reps tokens) t < length (add_tokens reps tokens))%nat.
Proof.
  revert reps; induction tokens as [|u tokens IH]; intros reps; [set_solver|].
  rewrite elem_of_cons. intros [->|Hin]; [|by apply IH].
  cbn [add_tokens fold_left]. fold (add_tokens (add_token reps u) tokens).
  pose proof (add_token_known reps u) as Hk. pose proof (add_tokens_prefix tokens (add_token reps u)) as Hp.
  rewrite (position_extend _ _ _ Hp Hk). apply prefix_length in Hp. lia.
Qed.

(** The indices of tokens. *)
Definition indices (reps tokens : list token) : list Z :=
  map (λ t, Z.of_nat (position reps t)) tokens.

Lemma indices_extend reps reps' tokens :
  reps `prefix_of` reps' → (∀ t, t ∈ tokens → (position reps t < length reps)%nat) →
  indices reps' tokens = indices reps tokens.
Proof.
  intros Hp Hk. apply map_ext_in. intros t Hin. f_equal. apply position_extend; [done|].
  apply Hk. by apply list_elem_of_In.
Qed.

Lemma get_tokens_loop_ok fuel tree reps b s :
  s ∈ sources → usable b sources → indexes b tree reps →
  (length (pending b s) < fuel)%nat →
  ∃ b' tree',
    get_tokens_loop fuel tree b s
    = Ok (b', tree', indices (add_tokens reps (pending b s)) (pending b s))
    ∧ usable b' sources ∧ indexes b' tree' (add_tokens reps (pending b s))
    ∧ (∀ s', contents b' s' = contents b s') ∧ ∀ s', s' ≠ s → pending b' s' = pending b s'.
Proof.
  revert tree reps b; induction fuel as [|fuel IH]; intros tree reps b Hin Hb Hix Hf; [lia|].
  cbn [get_tokens_loop]. destruct (next_spec b sources s Hb Hin) as (b1 & -> & Hb1 & Hc1 & Hp1 & Ho1).
  cbn [rbind]. assert (Hknown := λ t, pending_spec b sources s t Hb).
  assert (indexes b1 tree reps) as Hix1 by by eapply indexes_unread.
  destruct (pending b s) as [|t tokens]; [by exists b1, tree|].
  destruct (tree_insert_token_ok tree reps b1 t)
    as (b2 & tree2 & -> & (Hb2 & Hc2 & Hp2) & Hix2); [done| |done|].
  { exists s. rewrite Hc1. apply Hknown. by left. }
  cbn [rbind]. simpl in Hp1.
  assert (pending b2 s = tokens) as Hp by by rewrite Hp2, Hp1.
  destruct (IH tree2 _ b2 Hin Hb2 Hix2) as (b3 & tree3 & Heq & Hb3 & Hix3 & Hc3 & Ho3);
    [rewrite Hp; simpl in Hf; lia|].
  rewrite Hp in Heq, Hix3. rewrite Heq. cbn [rbind]. exists b3, tree3. split.
  - do 2 f_equal. unfold indices. cbn [map]. do 2 f_equal.
    change (add_tokens reps (t :: tokens)) with (add_tokens (add_token reps t) tokens).
    rewrite <- (position_added reps t) by apply Hix. symmetry.
    apply position_extend; [apply add_tokens_prefix|apply add_token_known].
  - split; [done|]. split; [done|]. split; [intros s'; congruence|]. intros s' Hs. by rewrite Ho3, Hp2, Ho1.
Qed.

Lemma svn_diff__get_tokens_ok fuel tree reps b s prefix_lines :
  s ∈ sources → usable b sources → indexes b tree reps →
  (length (pending b s) < fuel)%nat →
  ∃ b' tree',
    svn_diff__get_tokens fuel tree b s prefix_lines
    = Ok (b', tree', ring_of (indices (add_tokens reps (pending b s)) (pending b s)) (prefix_lines + 1))
    ∧ usable b' sources ∧ indexes b' tree' (add_tokens reps (pending b s))
    ∧ (∀ s', contents b' s' = contents b s') ∧ ∀ s', s' ≠ s → pending b' s' = pending b s'.
Proof.
  intros Hin Hb Hix Hf. unfold svn_diff__get_tokens.
  destruct (get_tokens_loop_ok fuel tree reps b s Hin Hb Hix Hf)
    as (b1 & tree1 & -> & Hb1 & Hix1 & Hc1 & Ho1).
  cbn [rbind]. destruct (close_spec b1 sources s Hb1 Hin) as (b2 & -> & Hb2 & Hc2 & Hp2). cbn [rbind].
  exists b2, tree1. split; [done|]. split; [done|].
  split; [by eapply indexes_unread|]. split; [intros s'; congruence|].
  intros s' Hs. by rewrite Hp2, Ho1.
Qed.
End Index.
