(* ===== verification/Diff.v ===== *)
(** * Two-way diffs

    [src/subversion/libsvn_diff/diff.c] and the walks over diffs of [util.c]: from
    a chain of matches to a list of hunks, and [svn_diff_diff_2], which reads two
    datasources through the vtable and compares them. *)
From S2P Require Import Prelude DiffLcs DiffTokens.

(** ** Hunks *)

Inductive svn_diff__type_e :=
  | svn_diff__type_common
  | svn_diff__type_diff_modified
  | svn_diff__type_diff_latest
  | svn_diff__type_diff_common
  | svn_diff__type_conflict.

#[global] Instance diff_type_eq_dec : EqDecision svn_diff__type_e.
Proof. solve_decision. Defined.

(** The [next] links are those of the lists; a null diff is the empty list. *)
Inductive svn_diff_t := MkDiff {
  diff_type : svn_diff__type_e;
  original_start : Z;
  original_length : Z;
  modified_start : Z;
  modified_length : Z;
  latest_start : Z;
  latest_length : Z;
  resolved_diff : list svn_diff_t;
}.

(** The loop from a chain node on.  [svn_diff__diff] leaves the field
    [resolved_diff], which only conflicts use, uninitialised. *)
Fixpoint svn_diff__diff (lcs : list svn_diff__lcs_t) (original_start modified_start : Z)
    (want_common : bool) : result (list svn_diff_t) :=
  match lcs with
  | [] => Undefined
  | MkLcs position0 position1 length_ :: next =>
      let changed :=
        if (original_start <? position0) || (modified_start <? position1) then
          [MkDiff svn_diff__type_diff_modified
             (original_start - 1) (position0 - original_start)
             (modified_start - 1) (position1 - modified_start) 0 0 []]
        else [] in
      if length_ =? 0 then Ok changed
      else
        let common :=
          if want_common then
            [MkDiff svn_diff__type_common (position0 - 1) length_ (position1 - 1) length_ 0 0 []]
          else [] in
        let! rest := svn_diff__diff next (position0 + length_) (position1 + length_) want_common in
        Ok (changed ++ common ++ rest)
  end.

(** ** The diff of two datasources *)

Section Diff2.
Context {baton token : Type} `{!svn_diff_fns2_t baton token}.

Definition discard_all (diff_baton : baton) : baton :=
  match token_discard_all with Some f => f diff_baton | None => diff_baton end.

(** [fuel] bounds the number of tokens of a datasource. *)
Definition svn_diff_diff_2 (fuel : nat) (diff_baton : baton)
    : result (baton * list svn_diff_t) :=
  let datasource := [svn_diff_datasource_original; svn_diff_datasource_modified] in
  let tree := svn_diff__tree_create in
  let! (diff_baton, prefix_lines, suffix_lines) := datasources_open diff_baton datasource in
  let! (diff_baton, tree, position_list0) :=
    svn_diff__get_tokens fuel tree diff_baton svn_diff_datasource_original prefix_lines in
  let! (diff_baton, tree, position_list1) :=
    svn_diff__get_tokens fuel tree diff_baton svn_diff_datasource_modified prefix_lines in
  let num_tokens := Z.to_nat (svn_diff__get_node_count tree) in
  let diff_baton := discard_all diff_baton in
  let! token_counts0 := svn_diff__get_token_counts position_list0 num_tokens in
  let! token_counts1 := svn_diff__get_token_counts position_list1 num_tokens in
  let! lcs := svn_diff__lcs position_list0 position_list1 token_counts0 token_counts1
                prefix_lines suffix_lines in
  let! diff := svn_diff__diff lcs 1 1 true in
  Ok (diff_baton, diff).
End Diff2.

(** ** Walking a diff *)

Definition svn_diff_contains_conflicts (diff : list svn_diff_t) : bool :=
  existsb (λ hunk, bool_decide (diff_type hunk = svn_diff__type_conflict)) diff.

Definition svn_diff_contains_diffs (diff : list svn_diff_t) : bool :=
  existsb (λ hunk, negb (bool_decide (diff_type hunk = svn_diff__type_common))) diff.

(** An output function is given the starts and lengths of the original, the
    modified and the latest part of the hunk. *)
Definition output_fn (baton : Type) : Type :=
  baton → Z → Z → Z → Z → Z → Z → result baton.

Record svn_diff_output_fns_t (baton : Type) := {
  output_common : option (output_fn baton);
  output_diff_modified : option (output_fn baton);
  output_diff_latest : option (output_fn baton);
  output_diff_common : option (output_fn baton);
  output_conflict : option (baton → Z → Z → Z → Z → Z → Z → list svn_diff_t → result baton);
}.
Arguments output_common {baton} _.
Arguments output_diff_modified {baton} _.
Arguments output_diff_latest {baton} _.
Arguments output_diff_common {baton} _.
Arguments output_conflict {baton} _.

Section Output.
Context {baton : Type} (vtable : svn_diff_output_fns_t baton).

Definition output_hunk (output_baton : baton) (diff : svn_diff_t) : result baton :=
  let call (fn : option (output_fn baton)) :=
    match fn with
    | None => Ok output_baton
    | Some fn =>
        fn output_baton (original_start diff) (original_length diff) (modified_start diff)
          (modified_length diff) (latest_start diff) (latest_length diff)
    end in
  match diff_type diff with
  | svn_diff__type_common => call (output_common vtable)
  | svn_diff__type_diff_common => call (output_diff_common vtable)
  | svn_diff__type_diff_modified => call (output_diff_modified vtable)
  | svn_diff__type_diff_latest => call (output_diff_latest vtable)
  | svn_diff__type_conflict =>
      match output_conflict vtable with
      | None => Ok output_baton
      | Some fn =>
          fn output_baton (original_start diff) (original_length diff) (modified_start diff)
            (modified_length diff) (latest_start diff) (latest_length diff)
            (resolved_diff diff)
      end
  end.

Fixpoint svn_diff_output (diff : list svn_diff_t) (output_baton : baton) : result baton :=
  match diff with
  | [] => Ok output_baton
  | hunk :: diff =>
      let! output_baton := output_hunk output_baton hunk in
      svn_diff_output diff output_baton
  end.
End Output.
