(* ===== verification/DiffCorrect.v ===== *)
(** * Properties of two-way diffs

    The hunks of a diff cover both files in order; the common hunks hold equal
    tokens, and no common subsequence of the files has more tokens. *)
From S2P Require Import Prelude DiffLcs DiffLcsRounds DiffLcsCorrect DiffTokens DiffTokensCorrect Diff.

(** ** What a diff is *)

Definition slice {A} (l : list A) (start len : Z) : list A :=
  take (Z.to_nat len) (drop (Z.to_nat start) l).

Lemma slice_drop {A} (l : list A) start len :
  0 <= start → 0 <= len →
  slice l start len ++ drop (Z.to_nat (start + len)) l = drop (Z.to_nat start) l.
Proof.
  intros. unfold slice. rewrite Z2Nat.inj_add, <- drop_drop by done. apply take_drop.
Qed.

Section DiffOf.
Context {A : Type} (R : A → A → Prop) (original modified : list A).

(** A diff from the lines [o] and [m] on. *)
Fixpoint diff_from (o m : Z) (diff : list svn_diff_t) : Prop :=
  match diff with
  | [] => o = Z.of_nat (length original) ∧ m = Z.of_nat (length modified)
  | hunk :: diff =>
      original_start hunk = o ∧ modified_start hunk = m
      ∧ 0 <= original_length hunk ∧ 0 <= modified_length hunk
      ∧ 0 < original_length hunk + modified_length hunk
      ∧ match diff_type hunk with
        | svn_diff__type_common =>
            original_length hunk = modified_length hunk
            ∧ Forall2 R (slice original o (original_length hunk))
                (slice modified m (modified_length hunk))
        | svn_diff__type_diff_modified => True
        | _ => False
        end
      ∧ diff_from (o + original_length hunk) (m + modified_length hunk) diff
  end.

Definition diff_of : list svn_diff_t → Prop := diff_from 0 0.
End DiffOf.

Fixpoint common_lines (diff : list svn_diff_t) : Z :=
  match diff with
  | [] => 0
  | hunk :: diff =>
      (if bool_decide (diff_type hunk = svn_diff__type_common) then original_length hunk else 0)
      + common_lines diff
  end.

(** The patched file: the lines of common hunks are taken from the original,
    the others from the modified file. *)
Fixpoint patch {A} (original modified : list A) (diff : list svn_diff_t) : list A :=
  match diff with
  | [] => []
  | hunk :: diff =>
      (if bool_decide (diff_type hunk = svn_diff__type_common)
       then slice original (original_start hunk) (original_length hunk)
       else slice modified (modified_start hunk) (modified_length hunk))
      ++ patch original modified diff
  end.

Lemma diff_from_length {A} (R : A → A → Prop) original modified o m diff :
  diff_from R original modified o m diff →
  o <= Z.of_nat (length original) ∧ m <= Z.of_nat (length modified).
Proof.
  revert o m; induction diff as [|hunk diff IH]; intros o m; simpl; [lia|].
  intros (? & ? & ? & ? & _ & _ & Hd). apply IH in Hd. lia.
Qed.

Lemma diff_from_impl {A} (R R' : A → A → Prop) original modified o m diff :
  (∀ t u, R t u → R' t u) →
  diff_from R original modified o m diff → diff_from R' original modified o m diff.
Proof.
  intros HR. revert o m; induction diff as [|hunk diff IH]; intros o m; [done|]. simpl.
  intros (? & ? & ? & ? & ? & Htype & Hd). do 5 (split; [done|]). split; [|by apply IH].
  destruct (diff_type hunk); try done. destruct Htype as [? HF]. split; [done|].
  by eapply Forall2_impl.
Qed.

(** Patching the original gives the modified file, up to equality of tokens. *)
Lemma patch_ok {A} (R : A → A → Prop) `{!Equivalence R} original modified o m diff :
  0 <= o → 0 <= m → diff_from R original modified o m diff →
  Forall2 R (patch original modified diff) (drop (Z.to_nat m) modified).
Proof.
  revert o m; induction diff as [|hunk diff IH]; intros o m Ho Hm.
  { intros [_ ->]. rewrite Nat2Z.id, drop_all. constructor. }
  simpl. intros (-> & -> & Hol & Hml & _ & Htype & Hd).
  destruct (diff_from_length _ _ _ _ _ _ Hd). apply IH in Hd; [|lia..].
  rewrite <- (slice_drop modified m (modified_length hunk)) by lia. apply Forall2_app; [|done].
  case_bool_decide as Hc.
  - rewrite Hc in Htype. apply Htype.
  - apply (reflexivity (R := Forall2 R)).
Qed.

(** ** From matches to hunks *)

Lemma slice_map {A B} (f : A → B) l start len :
  slice (map f l) start len = map f (slice l start len).
Proof. unfold slice. by rewrite skipn_map, firstn_map. Qed.

(** A chain that matches indices of tokens becomes a diff of the tokens. *)
Lemma svn_diff__diff_ok {A} (R : A → A → Prop) (f : A → Z) original modified i j lcs :
  (∀ t u, t ∈ original → u ∈ modified → f t = f u → R t u) →
  1 <= i → 1 <= j → matching (map f original) (map f modified) i j lcs →
  ∃ diff, svn_diff__diff lcs i j true = Ok diff
    ∧ diff_from R original modified (i - 1) (j - 1) diff
    ∧ common_lines diff = matched lcs.
Proof.
  intros Hf. revert i j; induction lcs as [|[pos0 pos1 len] lcs IH]; intros i j Hi Hj; [done|].
  cbn [matching svn_diff__diff matched lcs_length]. rewrite !length_map. intros (H0 & H1 & Hm).
  assert (∀ diff, diff_from R original modified (pos0 - 1) (pos1 - 1) diff →
    let changed := if (i <? pos0) || (j <? pos1)
      then [MkDiff svn_diff__type_diff_modified (i - 1) (pos0 - i) (j - 1) (pos1 - j) 0 0 []]
      else [] in
    diff_from R original modified (i - 1) (j - 1) (changed ++ diff)
    ∧ common_lines (changed ++ diff) = common_lines diff) as Hchanged.
  { intros diff Hd. case_if; cbn [app].
    - split; [|done]. simpl. do 2 (split; [done|]). do 3 (split; [lia|]). split; [done|].
      by replace (i - 1 + (pos0 - i)) with (pos0 - 1) by lia;
        replace (j - 1 + (pos1 - j)) with (pos1 - 1) by lia.
    - by replace i with pos0 by lia; replace j with pos1 by lia. }
  destruct (Z.eqb_spec len 0) as [Hlen|Hlen].
  { destruct Hm as (-> & -> & ->). eexists. split; [done|].
    destruct (Hchanged []) as [Hd Hc]; [simpl; lia|]. rewrite app_nil_r in Hd, Hc.
    split; [done|]. rewrite Hc. simpl. lia. }
  destruct Hm as (Hpos & Hl0 & Hl1 & Heq & Hm).
  destruct (IH (pos0 + len) (pos1 + len)) as (rest & -> & Hd & Hc); [lia|lia|done|].
  cbn [rbind]. eexists. split; [done|].
  destruct (Hchanged ([MkDiff svn_diff__type_common (pos0 - 1) len (pos1 - 1) len 0 0 []] ++ rest))
    as [Hd' Hc'].
  - simpl. do 2 (split; [done|]). do 3 (split; [lia|]). split.
    + split; [done|]. fold (slice (map f original) (pos0 - 1) len) in Heq.
      fold (slice (map f modified) (pos1 - 1) len) in Heq. rewrite !slice_map in Heq.
      assert (∀ l l' : list A, (∀ t, t ∈ l → t ∈ original) → (∀ t, t ∈ l' → t ∈ modified) →
        map f l = map f l' → Forall2 R l l') as Hall.
      { clear -Hf. induction l as [|t l IH]; intros [|u l'] Hl Hl' Heq; try done.
        injection Heq as Htu Heq. constructor; [apply Hf; set_solver|apply IH; set_solver]. }
      apply Hall; [| |done]; intros t Ht; unfold slice in Ht;
        apply elem_of_take in Ht as (k & Ht & _); rewrite lookup_drop in Ht;
        by eapply list_elem_of_lookup_2.
    + by replace (pos0 - 1 + len) with (pos0 + len - 1) by lia;
        replace (pos1 - 1 + len) with (pos1 + len - 1) by lia.
  - split; [done|]. rewrite Hc'. simpl. rewrite Hc. done.
Qed.

(** ** The theorem *)

Section Diff2.
Context {baton token : Type} `{Hfns : !svn_diff_fns2_t baton token, Hspec : !DiffFnsSpec baton token}.
Implicit Types (b : baton) (t u : token).

(** The three parts of the indices of a datasource. *)
Lemma indices_app reps l1 l2 l3 :
  indices reps (l1 ++ l2 ++ l3) = indices reps l1 ++ indices reps l2 ++ indices reps l3.
Proof. unfold indices. by rewrite !map_app. Qed.

Lemma indices_same reps l l' : Forall2 same_token l l' → indices reps l = indices reps l'.
Proof. induction 1 as [|t u l l' Htu _ IH]; simpl; [done|]. by rewrite Htu, IH. Qed.

Lemma indices_range reps l num :
  (∀ t, t ∈ l → (position reps t < num)%nat) → in_range num (indices reps l).
Proof.
  intros Hl. apply Forall_forall. intros x. unfold indices. rewrite list_elem_of_fmap.
  intros (t & -> & Ht). specialize (Hl t Ht). lia.
Qed.

(** Tokens with the same index are equal, when one of them is known. *)
Lemma position_same reps t u :
  (position reps t < length reps)%nat → position reps t = position reps u → same_token t u.
Proof.
  intros Ht Heq. destruct (position_spec reps t) as [(r & Hr & Hrt)|[? _]]; [|lia].
  destruct (position_spec reps u) as [(r' & Hr' & Hru)|[? _]]; [|lia].
  rewrite Heq, Hr' in Hr. injection Hr as ->. by rewrite <- Hrt.
Qed.

Lemma parts_same n l1 l2 rest1 rest2 :
  length l1 = n → length l2 = n →
  (∀ i t t', (i < n)%nat → (l1 ++ rest1) !! i = Some t → (l2 ++ rest2) !! i = Some t' → rank t t' = 0) →
  Forall2 same_token l1 l2.
Proof.
  intros H1 H2 H. apply Forall2_same_length_lookup_2; [congruence|]. intros i t u Ht Hu.
  apply (H i).
  - rewrite <- H1. by apply lookup_lt_Some in Ht.
  - by apply lookup_app_l_Some.
  - by apply lookup_app_l_Some.
Qed.

(** Opening the datasources takes equal lines off their starts and ends. *)
Lemma open_parts b sources :
  openable b sources → NoDup sources →
  ∃ b' p s, datasources_open b sources = Ok (b', Z.of_nat p, Z.of_nat s)
    ∧ usable b' sources ∧ (∀ x, contents b' x = contents b x)
    ∧ ∃ pre suf : svn_diff_datasource_e → list token,
        (∀ x, x ∈ sources → contents b x = pre x ++ pending b' x ++ suf x
           ∧ length (pre x) = p ∧ length (suf x) = s)
        ∧ ∀ x y, x ∈ sources → y ∈ sources →
            Forall2 same_token (pre x) (pre y) ∧ Forall2 same_token (suf x) (suf y).
Proof.
  intros Hb Hnd.
  destruct (open_spec b sources Hb Hnd) as (b' & p & s & Hopen & Hb' & Hc & Hparts & Hpre & Hsuf).
  exists b', p, s. split; [done|]. split; [done|]. split; [done|].
  exists (λ x, take p (contents b x)),
    (λ x, drop (p + length (pending b' x)) (contents b x)).
  assert (∀ x, x ∈ sources → contents b x = take p (contents b x) ++ pending b' x ++
    drop (p + length (pending b' x)) (contents b x) ∧ length (take p (contents b x)) = p
    ∧ length (drop (p + length (pending b' x)) (contents b x)) = s) as Hx.
  { intros x Hx. destruct (Hparts x Hx) as (prefix & suffix & -> & <- & <-).
    rewrite take_app_length, <- drop_drop, !drop_app_length. done. }
  split; [done|]. intros x y Hinx Hiny.
  destruct (Hx x Hinx) as (Hcx & Hpx & Hsx), (Hx y Hiny) as (Hcy & Hpy & Hsy). split.
  - eapply (parts_same p); [done|done|]. rewrite <- Hcx, <- Hcy. intros i t t' ???.
    by apply (Hpre x y i).
  - rewrite <- (reverse_involutive (drop _ (contents b x))),
      <- (reverse_involutive (drop _ (contents b y))). apply Forall2_reverse.
    assert (Hrx := f_equal reverse Hcx). assert (Hry := f_equal reverse Hcy).
    rewrite app_assoc, reverse_app in Hrx, Hry.
    eapply (parts_same s); [by rewrite length_reverse..|].
    rewrite <- Hrx, <- Hry. intros i t t' ???. by apply (Hsuf x y i).
Qed.

Lemma common_indices reps l l' s s' :
  s `sublist_of` l → s' `sublist_of` l' → Forall2 same_token s s' →
  is_common (indices reps s) (indices reps l) (indices reps l').
Proof.
  intros Hs Hs' Hsame. split; [|rewrite (indices_same reps _ _ Hsame)].
  - exact (fmap_sublist (λ t, Z.of_nat (position reps t)) _ _ Hs).
  - exact (fmap_sublist (λ t, Z.of_nat (position reps t)) _ _ Hs').
Qed.

Lemma diff_2_ok fuel b :
  let original := contents b svn_diff_datasource_original in
  let modified := contents b svn_diff_datasource_modified in
  openable b [svn_diff_datasource_original; svn_diff_datasource_modified] →
  (length original < fuel)%nat → (length modified < fuel)%nat →
  ∃ b' diff,
    svn_diff_diff_2 fuel b = Ok (b', diff)
    ∧ diff_of same_token original modified diff
    ∧ ∀ s s', s `sublist_of` original → s' `sublist_of` modified → Forall2 same_token s s' →
        Z.of_nat (length s) <= common_lines diff.
Proof.
  intros original modified Hb Hf0 Hf1. unfold svn_diff_diff_2. cbn zeta.
  set (sources := [svn_diff_datasource_original; svn_diff_datasource_modified]) in *.
  destruct (open_parts b sources)
    as (b1 & p & s & -> & Hb1 & Hc1 & pre & suf & Hparts & Hsame).
  { done. }
  { repeat constructor; set_solver. }
  destruct (Hparts svn_diff_datasource_original) as (Ho & Hpo & Hso); [set_solver|].
  destruct (Hparts svn_diff_datasource_modified) as (Hm & Hpm & Hsm); [set_solver|].
  destruct (Hsame svn_diff_datasource_original svn_diff_datasource_modified) as [Hpre Hsuf];
    [set_solver..|]. clear Hparts Hsame. cbn [rbind].
  set (pend0 := pending b1 svn_diff_datasource_original) in *.
  set (pend1 := pending b1 svn_diff_datasource_modified) in *.
  fold original in Ho. fold modified in Hm.
  set (prefix := Z.of_nat p).
  destruct (svn_diff__get_tokens_ok sources fuel svn_diff__tree_create [] b1
    svn_diff_datasource_original prefix ltac:(set_solver) Hb1 (indexes_create b1)) as (b2 & tree2 & -> & Hb2 & Hix2 & _ & Hp2).
  { fold pend0. assert (Hl := f_equal length Ho). rewrite !length_app in Hl. lia. }
  cbn [rbind]. fold pend0 in Hix2 |- *.
  set (reps1 := add_tokens [] pend0) in *.
  specialize (Hp2 svn_diff_datasource_modified ltac:(done)). fold pend1 in Hp2.
  destruct (svn_diff__get_tokens_ok sources fuel tree2 reps1 b2 svn_diff_datasource_modified
    prefix ltac:(set_solver) Hb2 Hix2) as (b3 & tree3 & -> & _ & Hix3 & _ & _).
  { rewrite Hp2. assert (Hl := f_equal length Hm). rewrite !length_app in Hl. lia. }
  rewrite Hp2 in Hix3 |- *. cbn [rbind]. set (reps2 := add_tokens reps1 pend1) in *.
  unfold svn_diff__get_node_count. rewrite (ix_count _ _ _ Hix3), Nat2Z.id.
  set (reps := add_tokens reps2 (original ++ modified)).
  assert (reps1 `prefix_of` reps2) as H12 by apply add_tokens_prefix.
  assert (reps2 `prefix_of` reps) as H2 by apply add_tokens_prefix.
  assert (∀ t, t ∈ pend0 → (position reps1 t < length reps1)%nat) as Hk0
    by (intros t; apply add_tokens_known).
  assert (∀ t, t ∈ pend1 → (position reps2 t < length reps2)%nat) as Hk1
    by (intros t; apply add_tokens_known).
  assert (in_range (length reps2) (indices reps1 pend0)) as Hr0.
  { apply indices_range. intros t Ht. specialize (Hk0 t Ht). apply prefix_length in H12. lia. }
  assert (in_range (length reps2) (indices reps2 pend1)) as Hr1 by by apply indices_range.
  rewrite <- (indices_extend reps1 reps pend0) in Hr0 |- * by (done || by transitivity reps2).
  rewrite <- (indices_extend reps2 reps pend1) in Hr1 |- * by done.
  destruct (svn_diff__lcs_ok (length reps2) (indices reps (pre svn_diff_datasource_original))
    (indices reps (suf svn_diff_datasource_original)) _ _ Hr0 Hr1)
    as (counts1 & counts2 & lcs & Hc & Hc' & Hlcs & Hmatch & Hmax).
  unfold indices in Hc, Hc', Hlcs. rewrite !length_map, Hpo in Hc, Hc', Hlcs.
  rewrite length_map, Hso in Hlcs. fold (indices reps pend0) in *. fold (indices reps pend1) in *.
  fold prefix in Hc, Hc', Hlcs. rewrite Hc, Hc'. cbn [rbind]. rewrite Hlcs. cbn [rbind].
  rewrite <- indices_app, <- Ho in Hmatch, Hmax.
  rewrite (indices_same reps _ _ Hpre), (indices_same reps _ _ Hsuf) in Hmatch, Hmax.
  rewrite <- indices_app, <- Hm in Hmatch, Hmax.
  destruct (svn_diff__diff_ok same_token (λ t, Z.of_nat (position reps t)) original modified 1 1 lcs)
    as (diff & -> & Hd & Hcommon); [|done|done|done|].
  { intros t u Ht _ Heq. apply (position_same reps); [|lia].
    apply add_tokens_known. set_solver. }
  cbn [rbind]. eexists _, diff. split; [done|]. split; [done|].
  intros s0 s1 Hs0 Hs1 Hss. rewrite Hcommon.
  specialize (Hmax (indices reps s0) (common_indices reps _ _ _ _ Hs0 Hs1 Hss)).
  unfold indices in Hmax. by rewrite length_map in Hmax.
Qed.
End Diff2.
