(* ===== verification/Diff3.v ===== *)
(** * Three-way diffs

    [src/subversion/libsvn_diff/diff3.c].  Two chains of matches, between the
    original and the modified and between the original and the latest file, are
    walked in step; where both files changed, [svn_diff__resolve_conflict] looks
    at the tokens of the two.

    The positions of a file are shared: [svn_diff_diff3_2] keeps a pointer into
    each ring, and the resolution of a conflict relinks the positions of the
    conflict into a ring of their own.  A pointer is null, one of the file's
    positions, the sentinel that [svn_diff_diff3_2] adds after them, or a position
    that [svn_diff__lcs] made up for a prefix, a suffix or an end of file. *)
From S2P Require Import Prelude DiffLcs DiffTokens Diff.

(** ** Positions *)

Inductive position_t :=
  | Real (i : nat)
  | Sentinel
  | Made (offset : Z).

#[global] Instance position_eq_dec : EqDecision position_t.
Proof. solve_decision. Defined.

Abbreviation pointer := (option position_t) (only parsing).

(** The positions of a file: token indices, the offset of the first, and the
    [next] links; the sentinel has an offset and a link. *)
Record positions := MkPositions {
  p_tokens : list Z;
  p_offset : Z;
  p_next : list (option position_t);
  sentinel_offset : Z;
  sentinel_next : option position_t;
}.

Definition offset_of (file : positions) (p : pointer) : result Z :=
  match p with
  | Some (Real i) => Ok (p_offset file + Z.of_nat i)
  | Some Sentinel => Ok (sentinel_offset file)
  | Some (Made offset) => Ok offset
  | None => Undefined
  end.

(** The token index of the sentinel is not initialised. *)
Definition token_index_of (file : positions) (p : pointer) : result Z :=
  match p with
  | Some (Real i) => from_option Ok Undefined (p_tokens file !! i)
  | Some (Made _) => Ok 0
  | _ => Undefined
  end.

Definition next_of (file : positions) (p : pointer) : result pointer :=
  match p with
  | Some (Real i) => from_option Ok Undefined (p_next file !! i)
  | Some Sentinel => Ok (sentinel_next file)
  | Some (Made _) => Ok None
  | None => Undefined
  end.

(** Only positions of the file are ever relinked. *)
Definition set_next_of (file : positions) (p q : pointer) : result positions :=
  match p with
  | Some (Real i) =>
      Ok (MkPositions (p_tokens file) (p_offset file) (<[i := q]> (p_next file))
            (sentinel_offset file) (sentinel_next file))
  | _ => Undefined
  end.

(** The positions after [svn_diff_diff3_2] has put the sentinel after them, and
    the pointer to the start of the list. *)
Definition start_positions (position_list : option ring) (prefix_lines : Z)
    : positions * pointer :=
  match position_list with
  | Some r =>
      let n := length (ring_tokens r) in
      (MkPositions (ring_tokens r) (ring_offset r)
         (map (λ i, Some (Real (S i))) (seq 0 (n - 1)) ++ [Some Sentinel])
         (ring_offset r + Z.of_nat n) (Some (Real 0)),
       Some (Real 0))
  | None => (MkPositions [] (prefix_lines + 1) [] (prefix_lines + 1) None, Some Sentinel)
  end.

(** The position of a chain node: [svn_diff__lcs] made it up when its offset is
    not that of a position of the file. *)
Definition lcs_pointer (file : positions) (offset : Z) : pointer :=
  if (p_offset file <=? offset) && (offset <? p_offset file + Z.of_nat (length (p_tokens file)))
  then Some (Real (Z.to_nat (offset - p_offset file)))
  else Some (Made offset).

(** ** Conflicts *)

(** A file's positions with the pointer that the caller keeps into them. *)
Record cursor := MkCursor {
  cur_file : positions;
  cur_list : option position_t;
}.

(** The first position at or after [start]. *)
Fixpoint seek (fuel : nat) (file : positions) (p : pointer) (start : Z) : result pointer :=
  let! offset := offset_of file p in
  if offset <? start then
    match fuel with
    | O => OutOfFuel
    | S fuel => let! p := next_of file p in seek fuel file p start
    end
  else Ok p.

(** The loop over equal tokens, [common_length] being what is left. *)
Fixpoint match_common (common_length : nat) (file0 file1 : positions) (p0 p1 : pointer)
    : result (pointer * pointer * nat) :=
  match common_length with
  | O => Ok (p0, p1, O)
  | S left_ =>
      let! t0 := token_index_of file0 p0 in
      let! t1 := token_index_of file1 p1 in
      if t0 =? t1 then
        let! p0 := next_of file0 p0 in
        let! p1 := next_of file1 p1 in
        match_common left_ file0 file1 p0 p1
      else Ok (p0, p1, common_length)
  end.

Fixpoint walk (steps : nat) (file : positions) (p : pointer) : result pointer :=
  match steps with
  | O => Ok p
  | S steps => let! p := next_of file p in walk steps file p
  end.

(** The tokens from [p] to [tail].  [svn_diff__lcs] relies on the offsets of a
    ring being consecutive. *)
Fixpoint ring_between (fuel : nat) (file : positions) (p tail : pointer) (offset : Z)
    : result (list Z) :=
  let! here := offset_of file p in
  if negb (here =? offset) then Undefined
  else
    let! t := token_index_of file p in
    if bool_decide (p = tail) then Ok [t]
    else
      match fuel with
      | O => OutOfFuel
      | S fuel =>
          let! p := next_of file p in
          let! tokens := ring_between fuel file p tail (offset + 1) in
          Ok (t :: tokens)
      end.

(** "Create a new ring for svn_diff__lcs to grok", of [length_] positions from
    [position] on; the list goes on after them. *)
Definition cut_ring (file : positions) (position : pointer) (length_ : Z)
    : result (option ring * cursor) :=
  if length_ =? 0 then Ok (None, MkCursor file position)
  else
    let! tail := walk (Z.to_nat length_ - 1) file position in
    let! next := next_of file tail in
    let! file := set_next_of file tail position in
    let! offset := offset_of file position in
    let! tokens := ring_between (length (p_tokens file)) file position tail offset in
    Ok (Some (MkRing tokens offset), MkCursor file next).

(** "Fix up the EOF lcs element": an offset of 1 is replaced. *)
Definition fix_eof (offset : Z) (list_ : cursor) : result Z :=
  if offset =? 1 then offset_of (cur_file list_) (cur_list list_) else Ok offset.

(** "Produce the resolved diff", from a chain node on. *)
Fixpoint resolve_loop (hunk : svn_diff_t) (lcs : list svn_diff__lcs_t)
    (modified_start latest_start : Z) : result (list svn_diff_t) :=
  match lcs with
  | [] => Undefined
  | MkLcs position0 position1 length_ :: next =>
      let conflict :=
        if (modified_start <? position0) || (latest_start <? position1) then
          [MkDiff svn_diff__type_conflict (original_start hunk) (original_length hunk)
             (modified_start - 1) (position0 - modified_start)
             (latest_start - 1) (position1 - latest_start) []]
        else [] in
      if length_ =? 0 then Ok conflict
      else
        let! rest := resolve_loop hunk next (position0 + length_) (position1 + length_) in
        Ok (conflict
            ++ [MkDiff svn_diff__type_diff_common (original_start hunk) (original_length hunk)
                  (position0 - 1) length_ (position1 - 1) length_ []]
            ++ rest)
  end.

Definition set_resolved (hunk : svn_diff_t) (type : svn_diff__type_e)
    (resolved : list svn_diff_t) : svn_diff_t :=
  MkDiff type (original_start hunk) (original_length hunk) (modified_start hunk)
    (modified_length hunk) (latest_start hunk) (latest_length hunk) resolved.

(** [seek] and the other walks visit each position at most once. *)
Definition svn_diff__resolve_conflict (hunk : svn_diff_t) (list1 list2 : cursor)
    (num_tokens : nat) : result (svn_diff_t * cursor * cursor) :=
  let file1 := cur_file list1 in
  let file2 := cur_file list2 in
  let! start0 := seek (S (length (p_tokens file1))) file1 (cur_list list1) (modified_start hunk + 1) in
  let! start1 := seek (S (length (p_tokens file2))) file2 (cur_list list2) (latest_start hunk + 1) in
  let common_length := Z.min (modified_length hunk) (latest_length hunk) in
  let! (position0, position1, remaining) :=
    match_common (Z.to_nat common_length) file1 file2 start0 start1 in
  if (remaining =? 0)%nat && (modified_length hunk =? latest_length hunk) then
    Ok (set_resolved hunk svn_diff__type_diff_common [],
        MkCursor file1 position0, MkCursor file2 position1)
  else
    let common_length := common_length - Z.of_nat remaining in
    let! modified_start := offset_of file1 start0 in
    let! latest_start := offset_of file2 start1 in
    let head_ :=
      if 0 <? common_length then [MkLcs modified_start latest_start common_length] else [] in
    let! (ring0, list1) := cut_ring file1 position0 (modified_length hunk - common_length) in
    let! (ring1, list2) := cut_ring file2 position1 (latest_length hunk - common_length) in
    let! token_counts0 := svn_diff__get_token_counts ring0 num_tokens in
    let! token_counts1 := svn_diff__get_token_counts ring1 num_tokens in
    let! lcs := svn_diff__lcs ring0 ring1 token_counts0 token_counts1 0 0 in
    match lcs with
    | [] => Undefined
    | MkLcs offset0 offset1 length_ :: next =>
        let! offset0 := fix_eof offset0 list1 in
        let! offset1 := fix_eof offset1 list2 in
        let! resolved :=
          resolve_loop hunk (head_ ++ MkLcs offset0 offset1 length_ :: next)
            modified_start latest_start in
        Ok (set_resolved hunk svn_diff__type_conflict resolved, list1, list2)
    end.

(** ** The merged diff *)

Abbreviation lcs_chain := (list svn_diff__lcs_t) (only parsing).

(** Following the pointer to a chain node. *)
Definition lcs_node (lcs : lcs_chain) : result svn_diff__lcs_t :=
  from_option Ok Undefined (head lcs).

(** Skip the nodes that end before [sync]. *)
Fixpoint skip_before (lcs : lcs_chain) (sync : Z) : result lcs_chain :=
  match lcs with
  | [] => Undefined
  | node :: next =>
      if lcs_position0 node + lcs_length node <? sync then skip_before next sync else Ok lcs
  end.

(** "If the sync point is the EOF, and our current lcs segment doesn't reach as
    far as EOF, we need to skip this segment": [node] is that of the other
    chain. *)
Definition skip_at_eof (node : svn_diff__lcs_t) (lcs : lcs_chain) (sync : Z) : result lcs_chain :=
  let! here := lcs_node lcs in
  if (lcs_length node =? 0) && (0 <? lcs_length here)
     && (lcs_position0 here + lcs_length here =? sync)
  then
    let! next := lcs_node (tail lcs) in
    Ok (if negb (lcs_position1 here + lcs_length here =? lcs_position1 next)
        then tail lcs else lcs)
  else Ok lcs.

(** "Find the sync points". *)
Fixpoint find_sync (fuel : nat) (lcs_om lcs_ol : lcs_chain)
    : result (Z * lcs_chain * lcs_chain) :=
  let! om := lcs_node lcs_om in
  let! ol := lcs_node lcs_ol in
  if lcs_position0 ol <? lcs_position0 om then
    let original_sync := lcs_position0 om in
    let! lcs_ol := skip_before lcs_ol original_sync in
    let! lcs_ol := skip_at_eof om lcs_ol original_sync in
    let! ol := lcs_node lcs_ol in
    if lcs_position0 ol <=? original_sync then Ok (original_sync, lcs_om, lcs_ol)
    else match fuel with O => OutOfFuel | S fuel => find_sync fuel lcs_om lcs_ol end
  else
    let original_sync := lcs_position0 ol in
    let! lcs_om := skip_before lcs_om original_sync in
    let! lcs_om := skip_at_eof ol lcs_om original_sync in
    let! om := lcs_node lcs_om in
    if lcs_position0 om <=? original_sync then Ok (original_sync, lcs_om, lcs_ol)
    else match fuel with O => OutOfFuel | S fuel => find_sync fuel lcs_om lcs_ol end.

(** [lcs->position[1]->offset + (sync - lcs->position[0]->offset)] *)
Definition sync_of (node : svn_diff__lcs_t) (sync : Z) : Z :=
  lcs_position1 node + (sync - lcs_position0 node).

Definition is_changed (node : svn_diff__lcs_t) (original_start other_start : Z) : bool :=
  (0 <? lcs_position0 node - original_start) || (0 <? lcs_position1 node - other_start).

(** Record the start of the node, when it lies after the current position. *)
Definition record_start (list_ : cursor) (node : svn_diff__lcs_t) : result cursor :=
  let! offset := offset_of (cur_file list_) (cur_list list_) in
  Ok (if offset <? lcs_position1 node
      then MkCursor (cur_file list_) (lcs_pointer (cur_file list_) (lcs_position1 node))
      else list_).

(** Skip the nodes up to [original_start]. *)
Fixpoint skip_done (lcs : lcs_chain) (original_start : Z) : result lcs_chain :=
  match lcs with
  | [] => Undefined
  | node :: next =>
      if (lcs_position0 node + lcs_length node <=? original_start) && (0 <? lcs_length node)
      then skip_done next original_start else Ok lcs
  end.

(** The hunk for what changed before the sync point. *)
Definition changed_hunk (num_tokens : nat) (is_modified is_latest : bool)
    (original_start original_length modified_start modified_length latest_start latest_length : Z)
    (list1 list2 : cursor) : result (list svn_diff_t * cursor * cursor) :=
  let hunk type :=
    MkDiff type (original_start - 1) original_length (modified_start - 1) modified_length
      (latest_start - 1) latest_length [] in
  if is_modified && is_latest then
    let! (hunk, list1, list2) :=
      svn_diff__resolve_conflict (hunk svn_diff__type_conflict) list1 list2 num_tokens in
    Ok ([hunk], list1, list2)
  else if is_modified then Ok ([hunk svn_diff__type_diff_modified], list1, list2)
  else if is_latest then Ok ([hunk svn_diff__type_diff_latest], list1, list2)
  else Ok ([], list1, list2).

(** A round of the loop for each common hunk. *)
Fixpoint diff3_loop (fuel : nat) (num_tokens : nat) (lcs_om lcs_ol : lcs_chain)
    (original_start modified_start latest_start : Z) (list1 list2 : cursor)
    : result (list svn_diff_t) :=
  let! (original_sync, lcs_om, lcs_ol) :=
    find_sync (length lcs_om + length lcs_ol) lcs_om lcs_ol in
  let! om := lcs_node lcs_om in
  let! ol := lcs_node lcs_ol in
  let modified_sync := sync_of om original_sync in
  let latest_sync := sync_of ol original_sync in
  let! (changed, list1, list2) :=
    changed_hunk num_tokens (is_changed om original_start modified_start)
      (is_changed ol original_start latest_start)
      original_start (original_sync - original_start)
      modified_start (modified_sync - modified_start)
      latest_start (latest_sync - latest_start) list1 list2 in
  if (lcs_length om =? 0) || (lcs_length ol =? 0) then Ok changed
  else
    match fuel with
    | O => OutOfFuel
    | S fuel =>
        let modified_length := lcs_length om - (original_sync - lcs_position0 om) in
        let latest_length := lcs_length ol - (original_sync - lcs_position0 ol) in
        let common_length := Z.min modified_length latest_length in
        let common :=
          MkDiff svn_diff__type_common (original_sync - 1) common_length
            (modified_sync - 1) common_length (latest_sync - 1) common_length [] in
        let original_start := original_sync + common_length in
        let! list1 := record_start list1 om in
        let! list2 := record_start list2 ol in
        let! lcs_om := skip_done lcs_om original_start in
        let! lcs_ol := skip_done lcs_ol original_start in
        let! rest :=
          diff3_loop fuel num_tokens lcs_om lcs_ol original_start
            (modified_sync + common_length) (latest_sync + common_length) list1 list2 in
        Ok (changed ++ common :: rest)
    end.

Section Diff3.
Context {baton token : Type} `{!svn_diff_fns2_t baton token}.

(** [fuel] bounds the number of tokens of a datasource. *)
Definition svn_diff_diff3_2 (fuel : nat) (diff_baton : baton)
    : result (baton * list svn_diff_t) :=
  let datasource := [svn_diff_datasource_original; svn_diff_datasource_modified;
                     svn_diff_datasource_latest] in
  let tree := svn_diff__tree_create in
  let! (diff_baton, prefix_lines, suffix_lines) := datasources_open diff_baton datasource in
  let! (diff_baton, tree, position_list0) :=
    svn_diff__get_tokens fuel tree diff_baton svn_diff_datasource_original prefix_lines in
  let! (diff_baton, tree, position_list1) :=
    svn_diff__get_tokens fuel tree diff_baton svn_diff_datasource_modified prefix_lines in
  let! (diff_baton, tree, position_list2) :=
    svn_diff__get_tokens fuel tree diff_baton svn_diff_datasource_latest prefix_lines in
  let num_tokens := Z.to_nat (svn_diff__get_node_count tree) in
  let diff_baton := discard_all diff_baton in
  let! token_counts0 := svn_diff__get_token_counts position_list0 num_tokens in
  let! token_counts1 := svn_diff__get_token_counts position_list1 num_tokens in
  let! token_counts2 := svn_diff__get_token_counts position_list2 num_tokens in
  let! lcs_om := svn_diff__lcs position_list0 position_list1 token_counts0 token_counts1
                   prefix_lines suffix_lines in
  let! lcs_ol := svn_diff__lcs position_list0 position_list2 token_counts0 token_counts2
                   prefix_lines suffix_lines in
  let '(file1, p1) := start_positions position_list1 prefix_lines in
  let '(file2, p2) := start_positions position_list2 prefix_lines in
  let! diff :=
    diff3_loop (length lcs_om + length lcs_ol) num_tokens lcs_om lcs_ol 1 1 1
      (MkCursor file1 p1) (MkCursor file2 p2) in
  Ok (diff_baton, diff).
End Diff3.
