(* ===== verification/Diff3Chain.v ===== *)
(** * Three-way diffs: walking two chains of matches

    What [find_sync] and the other walks of [svn_diff_diff3_2] do with the chains
    of [svn_diff__lcs], whatever the positions. *)
From S2P Require Import Prelude DiffLcs DiffLcsRounds DiffLcsCorrect DiffTokens Diff DiffCorrect Diff3.

Implicit Types (node : svn_diff__lcs_t) (c : list svn_diff__lcs_t).

Abbreviation end0 node := (lcs_position0 node + lcs_length node) (only parsing).
Abbreviation end1 node := (lcs_position1 node + lcs_length node) (only parsing).

(** ** One chain

    Up to the lines [E0] and [E1] the files are compared; the last [s] lines of
    both are equal. *)
Section Chain.
Context (F0 F1 : list Z) (E0 E1 s : Z).

Definition closing : list svn_diff__lcs_t :=
  (if s =? 0 then [] else [MkLcs E0 E1 s]) ++ [MkLcs (E0 + s) (E1 + s) 0].

Definition mid_ok node : Prop := 0 < lcs_length node ∧ end0 node <= E0 ∧ end1 node <= E1.

Definition chain (i j : Z) c : Prop :=
  ∃ mids, c = mids ++ closing ∧ Forall mid_ok mids ∧ matching F0 F1 i j c.

Hypothesis Hs : 0 <= s.
Hypothesis HF0 : Z.of_nat (length F0) + 1 = E0 + s.
Hypothesis HF1 : Z.of_nat (length F1) + 1 = E1 + s.

(** The first node: between the starts and [E0], [E1], or at the close. *)
Lemma chain_node i j c :
  chain i j c →
  ∃ node next, c = node :: next
    ∧ i <= lcs_position0 node ∧ j <= lcs_position1 node
    ∧ chain (lcs_position0 node) (lcs_position1 node) c
    ∧ (mid_ok node ∧ chain (end0 node) (end1 node) next
       ∨ node = MkLcs E0 E1 s ∧ (s = 0 ∧ next = [] ∨ 0 < s ∧ next = [MkLcs (E0 + s) (E1 + s) 0])).
Proof.
  intros (mids & -> & Hmids & Hm). destruct mids as [|node mids].
  - cbn [app] in *. unfold closing in *. destruct (Z.eqb_spec s 0) as [Hs0|Hne]; cbn [app] in *.
    + rewrite Hs0, !Z.add_0_r in *. exists (MkLcs E0 E1 0), []. cbn [matching] in Hm.
      destruct Hm as (H0 & H1 & Hm). do 3 (split; [done|]). split; [|by right; split; [|left]].
      exists []. split; [unfold closing; by rewrite Hs0, !Z.add_0_r|]. split; [done|].
      cbn [matching lcs_position0 lcs_position1]. split; [lia|]. split; [lia|]. done.
    + exists (MkLcs E0 E1 s), [MkLcs (E0 + s) (E1 + s) 0]. cbn [matching] in Hm.
      destruct Hm as (H0 & H1 & Hm). do 3 (split; [done|]).
      split; [|by right; split; [|right; split; [lia|]]].
      exists []. split; [unfold closing; by rewrite (proj2 (Z.eqb_neq _ _) Hne)|]. split; [done|].
      cbn [matching lcs_position0 lcs_position1]. split; [lia|]. split; [lia|]. done.
  - apply Forall_cons in Hmids as [Hnode Hmids]. cbn [app] in *.
    destruct node as [pos0 pos1 len]. assert (Hnode' := Hnode).
    destruct Hnode as (Hlen & He0 & He1). cbn [lcs_position0 lcs_position1 lcs_length] in *.
    cbn [matching] in Hm. destruct Hm as (H0 & H1 & Hm).
    rewrite (proj2 (Z.eqb_neq len 0)) in Hm by lia.
    exists (MkLcs pos0 pos1 len), (mids ++ closing). cbn [lcs_position0 lcs_position1 lcs_length].
    do 3 (split; [done|]). split.
    + exists (MkLcs pos0 pos1 len :: mids). split; [done|]. split; [by constructor|].
      cbn [matching app lcs_position0 lcs_position1]. split; [lia|]. split; [lia|].
      by rewrite (proj2 (Z.eqb_neq len 0)) by lia.
    + left. split; [done|]. exists mids. split; [done|]. split; [done|]. apply Hm.
Qed.

Lemma chain_lengths i j c : chain i j c → Forall (λ node, 0 <= lcs_length node) c.
Proof.
  intros (mids & -> & Hmids & _). apply Forall_app. split.
  - eapply Forall_impl; [exact Hmids|]. intros node (? & _). lia.
  - unfold closing. case_if; cbn [app]; repeat constructor; simpl; lia.
Qed.

Lemma chain_weaken i j i' j' c : chain i j c → i' <= i → j' <= j → chain i' j' c.
Proof.
  intros (mids & -> & Hmids & Hm) ??. exists mids. split; [done|]. split; [done|].
  by eapply matching_weaken.
Qed.

(** The chain [c'] is [c] without some of its first nodes. *)
Definition advanced c c' : Prop :=
  c' = c ∨ ∃ node next, c = node :: next ∧ 0 < lcs_length node
    ∧ chain (end0 node) (end1 node) c' ∧ (length c' < length c)%nat.

Lemma advanced_chain i j c c' : chain i j c → advanced c c' → chain i j c'.
Proof.
  intros Hc [->|(node & next & -> & Hlen & Hc' & _)]; [done|].
  destruct (chain_node _ _ _ Hc) as (? & ? & [= <- <-] & ? & ? & _).
  eapply chain_weaken; [done|lia..].
Qed.

Lemma advanced_length c c' : advanced c c' → (length c' <= length c)%nat.
Proof. intros [->|(node & next & -> & _ & _ & ?)]; lia. Qed.

Lemma advanced_trans i j c c' c'' :
  chain i j c → advanced c c' → advanced c' c'' → advanced c c''.
Proof.
  intros Hc [->|(node & next & -> & Hlen & Hc' & Hl)]; [done|].
  intros [->|(node' & next' & -> & Hlen' & Hc'' & Hl')]; right; exists node, next;
    (split; [done|]); (split; [done|]); (split; [|lia]); [done|].
  destruct (chain_node _ _ _ Hc') as (? & ? & [= <- <-] & ? & ? & _).
  eapply chain_weaken; [done|lia..].
Qed.

Lemma advanced_next i j node next :
  chain i j (node :: next) → mid_ok node → chain (end0 node) (end1 node) next →
  advanced (node :: next) next.
Proof.
  intros _ Hmid Hc. right. exists node, next. split; [done|]. split; [apply Hmid|].
  split; [done|simpl; lia].
Qed.

Lemma skip_before_ok i j c sync :
  chain i j c → sync <= E0 →
  ∃ c' node next, skip_before c sync = Ok c' ∧ advanced c c' ∧ c' = node :: next
    ∧ sync <= end0 node.
Proof.
  revert i j; induction c as [|node next IH]; intros i j Hc Hsync.
  { by destruct (chain_node _ _ _ Hc) as (? & ? & ? & _). }
  destruct (chain_node _ _ _ Hc) as (? & ? & [= <- <-] & Hi & Hj & Hc0 & Hnode).
  cbn [skip_before]. case_if.
  - destruct Hnode as [[Hmid Hnext]|[-> _]]; [|simpl in *; lia].
    destruct (IH _ _ Hnext Hsync) as (c' & node' & next' & -> & Hadv & -> & Hend).
    exists (node' :: next'), node', next'. split; [done|]. split; [|done].
    eapply advanced_trans; [done|by eapply advanced_next|done].
  - exists (node :: next), node, next. split; [done|]. split; [by left|]. split; [done|lia].
Qed.

(** At [E0] there is only the closing node. *)
Lemma node_at_end i j node next :
  chain i j (node :: next) → E0 <= lcs_position0 node ∨ lcs_length node = 0 → node = MkLcs E0 E1 s.
Proof.
  intros Hc Hat. destruct (chain_node _ _ _ Hc) as (? & ? & [= <- <-] & _ & _ & _ & Hn).
  destruct Hn as [[(? & ? & ?) _]|[-> _]]; [lia|done].
Qed.

Lemma node_bounds i j node next :
  chain i j (node :: next) →
  i <= lcs_position0 node ∧ j <= lcs_position1 node
  ∧ lcs_position0 node <= E0 ∧ lcs_position1 node <= E1 ∧ 0 <= lcs_length node.
Proof.
  intros Hc. destruct (chain_node _ _ _ Hc) as (? & ? & [= <- <-] & ? & ? & _ & Hn).
  destruct Hn as [[(? & ? & ?) _]|[-> _]]; simpl in *; lia.
Qed.

Lemma chain_cons i j c : chain i j c → ∃ node next, c = node :: next.
Proof. intros Hc. destruct (chain_node _ _ _ Hc) as (? & ? & -> & _). by eexists _, _. Qed.

(** At the end of the original file, the segment reaches the end of the other. *)
Lemma skip_at_eof_ok i j c other node next sync :
  chain i j c → c = node :: next → sync <= end0 node → sync <= E0 →
  (lcs_length other = 0 → s = 0 ∧ sync = E0) →
  ∃ c' node' next', skip_at_eof other c sync = Ok c' ∧ advanced c c' ∧ c' = node' :: next'
    ∧ sync <= end0 node' ∧ (lcs_length other = 0 → sync_of node' sync = E1).
Proof.
  intros Hc -> Hend Hsync Hother. unfold skip_at_eof, lcs_node. cbn [head from_option rbind tail].
  destruct (chain_node _ _ _ Hc) as (? & ? & [= <- <-] & Hi & Hj & Hc0 & Hnode).
  destruct (Z.eqb_spec (lcs_length other) 0) as [Ho|Ho]; cbn [andb].
  2: { exists (node :: next), node, next. split; [done|]. split; [by left|]. done. }
  destruct (Hother Ho) as [Hs0 Hsy]. destruct Hnode as [[Hmid Hnext]|[-> Hnext]].
  - assert (Hmid' := Hmid). destruct Hmid as (Hlen & He0 & He1). if_true by lia. cbn [andb].
    destruct (Z.eqb_spec (end0 node) sync) as [He|?]; [|lia].
    destruct (chain_node _ _ _ Hnext) as (n2 & next2 & -> & H0 & H1 & Hc2 & Hn2).
    cbn [head from_option rbind]. destruct Hn2 as [[(? & ? & ?) _]|[-> Hnext2]]; [lia|].
    cbn [lcs_position1]. destruct (Z.eqb_spec (end1 node) E1) as [He'|He']; cbn [negb].
    + eexists _, node, _. split; [done|]. split; [by left|]. split; [done|].
      split; [lia|]. intros _. unfold sync_of. lia.
    + eexists _, (MkLcs E0 E1 s), next2. split; [done|]. split; [by eapply advanced_next|].
      split; [done|]. cbn [lcs_position0 lcs_length]. split; [lia|]. intros _. unfold sync_of. simpl. lia.
  - cbn [lcs_length]. if_false by lia. cbn [andb]. eexists _, (MkLcs E0 E1 s), next.
    split; [done|]. split; [by left|]. split; [done|]. split; [done|]. intros _.
    unfold sync_of. simpl. lia.
Qed.

(** ** Where the walk stands

    At the lines [o] and [x], the first node lies ahead, or these lines are a
    pair of its. *)
Definition placed (o x : Z) c : Prop :=
  ∃ node next, c = node :: next
    ∧ 1 <= lcs_position0 node ∧ 1 <= lcs_position1 node
    ∧ chain (lcs_position0 node) (lcs_position1 node) c
    ∧ (o <= lcs_position0 node ∧ x <= lcs_position1 node
       ∨ lcs_position0 node <= o < end0 node
         ∧ x - lcs_position1 node = o - lcs_position0 node).

Lemma slice_part {A} (l l' : list A) a b len k n :
  0 <= a → 0 <= b → 0 <= k → 0 <= n → k + n <= len →
  slice l a len = slice l' b len → slice l (a + k) n = slice l' (b + k) n.
Proof.
  intros Ha Hb Hk Hn Hlen Heq. unfold slice in *.
  apply (f_equal (λ m, take (Z.to_nat n) (drop (Z.to_nat k) m))) in Heq.
  rewrite !skipn_firstn_comm, !take_take, !drop_drop in Heq.
  rewrite !Nat.min_l in Heq by lia. rewrite !Z2Nat.inj_add by lia. done.
Qed.

(** The lines of a node are equal. *)
Lemma node_slices node next k n :
  chain (lcs_position0 node) (lcs_position1 node) (node :: next) →
  1 <= lcs_position0 node → 1 <= lcs_position1 node →
  0 <= k → 0 <= n → k + n <= lcs_length node →
  slice F0 (lcs_position0 node - 1 + k) n = slice F1 (lcs_position1 node - 1 + k) n.
Proof.
  intros (mids & Heq & _ & Hm) H0 H1 Hk Hn Hlen.
  destruct node as [pos0 pos1 len]. cbn [lcs_position0 lcs_position1 lcs_length matching] in *.
  destruct Hm as (_ & _ & Hm). destruct (Z.eqb_spec len 0) as [Hl|Hl].
  - unfold slice. replace n with 0 by lia. done.
  - apply (slice_part _ _ _ _ len); try lia. apply Hm.
Qed.

Lemma half_ok o x c c' node next sync :
  placed o x c → advanced c c' → c' = node :: next →
  lcs_position0 node <= sync <= end0 node → o <= sync → sync <= E0 → 1 <= o → 1 <= x →
  x <= sync_of node sync <= E1
  ∧ (is_changed node o x = false →
     sync_of node sync - x = sync - o ∧ slice F0 (o - 1) (sync - o) = slice F1 (x - 1) (sync - o))
  ∧ (o = E0 → x = E1 → is_changed node o x = false).
Proof.
  intros (n0 & nx & -> & H0 & H1 & Hc & Hat) Hadv -> Hsync Ho Hsy H1o H1x.
  assert (Hc' := advanced_chain _ _ _ _ Hc Hadv).
  destruct (chain_node _ _ _ Hc') as (? & ? & [= <- <-] & Hp0 & Hp1 & Hcn & Hn).
  assert (sync_of node sync <= E1) as HE1.
  { unfold sync_of. destruct Hn as [[(? & ? & ?) _]|[-> _]]; simpl in *; lia. }
  unfold is_changed. destruct Hadv as [[= -> ->]|(? & ? & [= <- <-] & Hlen & Hc'' & _)].
  - destruct Hat as [[Ha0 Ha1]|[Ha0 Ha1]].
    + split; [unfold sync_of in *; lia|]. split.
      * intros Hch. assert (o = lcs_position0 n0) as -> by lia.
        assert (x = lcs_position1 n0) as -> by lia. split; [unfold sync_of; lia|].
        pose proof (node_slices n0 nx 0 (sync - lcs_position0 n0) Hcn) as Hsl.
        rewrite !Z.add_0_r in Hsl. apply Hsl; lia.
      * intros -> ->. destruct Hn as [[(? & ? & ?) _]|[-> _]]; simpl in *; lia.
    + split; [unfold sync_of in *; lia|]. split.
      * intros _. split; [unfold sync_of; lia|].
        pose proof (node_slices n0 nx (o - lcs_position0 n0) (sync - o) Hcn) as Hsl.
        replace (lcs_position0 n0 - 1 + (o - lcs_position0 n0)) with (o - 1) in Hsl by lia.
        replace (lcs_position1 n0 - 1 + (o - lcs_position0 n0)) with (x - 1) in Hsl by lia.
        apply Hsl; lia.
      * intros _ _. lia.
  - destruct (chain_node _ _ _ Hc'') as (? & ? & [= <- <-] & Hq0 & Hq1 & _ & _).
    split; [unfold sync_of in *; lia|]. split; [lia|].
    intros -> ->. destruct Hn as [[(? & ? & ?) _]|[-> _]]; simpl in *; lia.
Qed.

(** After the common lines. *)
Lemma skip_done_ok node next sync common :
  chain (lcs_position0 node) (lcs_position1 node) (node :: next) →
  1 <= lcs_position0 node → 1 <= lcs_position1 node → 0 < lcs_length node →
  lcs_position0 node <= sync → 0 <= common → sync + common <= end0 node →
  sync + common <= E0 →
  ∃ c', skip_done (node :: next) (sync + common) = Ok c'
    ∧ placed (sync + common) (sync_of node sync + common) c'
    ∧ (length c' <= length (node :: next))%nat
    ∧ (sync + common = end0 node →
       (length c' < length (node :: next))%nat
       ∧ ∀ n nx, c' = n :: nx → sync + common <= lcs_position0 n).
Proof.
  intros Hc H0 H1 Hlen Hsync Hcommon Hend HE0.
  destruct (chain_node _ _ _ Hc) as (? & ? & [= <- <-] & _ & _ & _ & Hn).
  cbn [skip_done]. rewrite (proj2 (Z.ltb_lt 0 (lcs_length node))), andb_true_r by done.
  destruct (Z.leb_spec (end0 node) (sync + common)) as [Hle|Hgt].
  - destruct Hn as [[_ Hnext]|[-> _]]; [|simpl in *; lia].
    destruct (chain_node _ _ _ Hnext) as (n2 & next2 & -> & Hp0 & Hp1 & Hc2 & Hn2).
    exists (n2 :: next2). split.
    + cbn [skip_done]. destruct (Z.ltb_spec 0 (lcs_length n2)) as [Hl2|_];
        [|by rewrite andb_false_r]. by if_false by lia.
    + split; [|split; [simpl; lia|]].
      * exists n2, next2. split; [done|]. split; [lia|]. split; [lia|]. split; [done|].
        left. unfold sync_of. lia.
      * intros _. split; [simpl; lia|]. intros n nx [= <- <-]. lia.
  - exists (node :: next). split; [done|]. split; [|split; [done|lia]].
    exists node, next. do 4 (split; [done|]). right. unfold sync_of. lia.
Qed.

(** The last lines, which are equal to the end. *)
Lemma skip_done_closing next :
  chain E0 E1 (MkLcs E0 E1 s :: next) → 0 < s →
  skip_done (MkLcs E0 E1 s :: next) (E0 + s) = Ok [MkLcs (E0 + s) (E1 + s) 0].
Proof.
  intros Hc Hpos. destruct (chain_node _ _ _ Hc) as (? & ? & [= <- <-] & _ & _ & _ & Hn).
  destruct Hn as [[(? & ? & ?) _]|[_ [[? _]|[_ ->]]]]; [simpl in *; lia|lia|].
  cbn [skip_done lcs_position0 lcs_length]. if_true by lia. by rewrite andb_false_r.
Qed.
End Chain.

(** ** Two chains *)

Section TwoChains.
Context (F0 F1 F2 : list Z) (E0 E1 E2 s : Z).
Hypothesis Hs : 0 <= s.
Hypothesis HF0 : Z.of_nat (length F0) + 1 = E0 + s.
Hypothesis HF1 : Z.of_nat (length F1) + 1 = E1 + s.
Hypothesis HF2 : Z.of_nat (length F2) + 1 = E2 + s.

(** The sync point: a line of the original at which one of the two nodes begins
    and which the other covers or ends at.  At the end of a file, it is the end
    of all three. *)
Record synced (om ol : list svn_diff__lcs_t) (sync : Z) (om' ol' : list svn_diff__lcs_t)
    (nm nl : svn_diff__lcs_t) : Prop := {
  sy_om : advanced F0 F1 E0 E1 s om om';
  sy_ol : advanced F0 F2 E0 E2 s ol ol';
  sy_nm : head om' = Some nm;
  sy_nl : head ol' = Some nl;
  sy_nm_sync : lcs_position0 nm <= sync <= end0 nm;
  sy_nl_sync : lcs_position0 nl <= sync <= end0 nl;
  sy_start : sync = lcs_position0 nm ∨ sync = lcs_position0 nl;
  sy_end : sync <= E0;
  sy_eof : lcs_length nm = 0 ∨ lcs_length nl = 0 →
    s = 0 ∧ sync = E0 ∧ sync_of nm sync = E1 ∧ sync_of nl sync = E2;
}.

(** One branch of the loop: the chain [c] of nodes [n] is brought up to the node
    [other] of the chain that begins later. *)
Lemma bring_up F E c i j other :
  Z.of_nat (length F) + 1 = E + s →
  chain F0 F E0 E s i j c → lcs_position0 other <= E0 →
  (lcs_length other = 0 → s = 0 ∧ lcs_position0 other = E0) →
  ∃ c1 c' node next,
    skip_before c (lcs_position0 other) = Ok c1
    ∧ skip_at_eof other c1 (lcs_position0 other) = Ok c'
    ∧ advanced F0 F E0 E s c c' ∧ c' = node :: next
    ∧ lcs_position0 other <= end0 node
    ∧ (lcs_length other = 0 → sync_of node (lcs_position0 other) = E).
Proof.
  intros HF Hc Hother Heof.
  destruct (skip_before_ok F0 F E0 E s Hs HF0 HF i j c (lcs_position0 other) Hc Hother)
    as (c1 & n1 & x1 & Hsb & Hadv1 & Heq1 & Hend1).
  assert (Hc1 := advanced_chain F0 F E0 E s Hs HF0 HF _ _ _ _ Hc Hadv1).
  destruct (skip_at_eof_ok F0 F E0 E s Hs HF0 HF i j c1 other n1 x1 (lcs_position0 other) Hc1 Heq1
    Hend1 Hother Heof) as (c' & node & next & Hsk & Hadv2 & Heq2 & Hend2 & Hsync).
  exists c1, c', node, next. split; [done|]. split; [done|].
  split; [by eapply advanced_trans|]. done.
Qed.

Lemma find_sync_ok fuel om ol i j k l :
  chain F0 F1 E0 E1 s i j om → chain F0 F2 E0 E2 s k l ol →
  (length om + length ol <= fuel)%nat →
  ∃ sync om' ol' nm nl,
    find_sync fuel om ol = Ok (sync, om', ol') ∧ synced om ol sync om' ol' nm nl.
Proof.
  revert om ol; induction fuel as [|fuel IH]; intros om ol Hom Hol Hfuel.
  { destruct (chain_cons _ _ _ _ _ Hs HF0 HF1 _ _ _ Hom) as (? & ? & ->). simpl in Hfuel. lia. }
  destruct (chain_cons _ _ _ _ _ Hs HF0 HF1 _ _ _ Hom) as (m & xm & ->).
  destruct (chain_cons _ _ _ _ _ Hs HF0 HF2 _ _ _ Hol) as (n & xl & ->).
  destruct (node_bounds _ _ _ _ _ Hs HF0 HF1 _ _ _ _ Hom) as (_ & _ & Hm0 & Hm1 & Hml).
  destruct (node_bounds _ _ _ _ _ Hs HF0 HF2 _ _ _ _ Hol) as (_ & _ & Hn0 & Hn1 & Hnl).
  assert (Hmz := node_at_end _ _ _ _ _ Hs HF0 HF1 _ _ _ _ Hom).
  assert (Hnz := node_at_end _ _ _ _ _ Hs HF0 HF2 _ _ _ _ Hol).
  cbn [find_sync]. unfold lcs_node at 1 2. cbn [head from_option rbind].
  destruct (Z.ltb_spec (lcs_position0 n) (lcs_position0 m)) as [Hlt|Hge].
  - destruct (bring_up F2 E2 (n :: xl) k l m HF2 Hol Hm0) as
      (c1 & c' & node & next & Hsb & Hsk & Hadv & -> & Hend & Hsync).
    { intros Hz. rewrite (Hmz (or_intror Hz)) in Hz |- *. simpl in *. done. }
    rewrite Hsb. cbn [rbind]. rewrite Hsk. cbn [rbind]. unfold lcs_node at 1. cbn [head from_option rbind].
    assert (Hc' := advanced_chain _ _ _ _ _ Hs HF0 HF2 _ _ _ _ Hol Hadv).
    destruct (Z.leb_spec (lcs_position0 node) (lcs_position0 m)) as [Hle|Hgt].
    + eexists _, _, _, m, node. split; [done|].
      assert (lcs_length node = 0 → lcs_length m = 0) as Hzero.
      { intros Hz. assert (Hnode := node_at_end _ _ _ _ _ Hs HF0 HF2 _ _ _ _ Hc' (or_intror Hz)).
        rewrite Hnode in Hz, Hle. simpl in *. rewrite Hmz; [done|lia]. }
      split; try done; [by left|lia|by left|].
      intros Hz. assert (lcs_length m = 0) as Hz' by tauto. assert (Hm := Hmz (or_intror Hz')).
      specialize (Hsync Hz'). rewrite Hm in Hz', Hsync |- *. unfold sync_of in *. simpl in *. lia.
    + destruct (IH (m :: xm) (node :: next)) as (sync & om' & ol' & nm & nl & Heq & Hsy);
        [done|done| |].
      { destruct Hadv as [[= -> ->]|(? & ? & _ & _ & _ & Hl)]; [lia|simpl in *; lia]. }
      exists sync, om', ol', nm, nl. split; [done|]. destruct Hsy. split; try done.
      by eapply advanced_trans.
  - destruct (bring_up F1 E1 (m :: xm) i j n HF1 Hom Hn0) as
      (c1 & c' & node & next & Hsb & Hsk & Hadv & -> & Hend & Hsync).
    { intros Hz. rewrite (Hnz (or_intror Hz)) in Hz |- *. simpl in *. done. }
    rewrite Hsb. cbn [rbind]. rewrite Hsk. cbn [rbind]. unfold lcs_node at 1. cbn [head from_option rbind].
    assert (Hc' := advanced_chain _ _ _ _ _ Hs HF0 HF1 _ _ _ _ Hom Hadv).
    destruct (Z.leb_spec (lcs_position0 node) (lcs_position0 n)) as [Hle|Hgt].
    + eexists _, _, _, node, n. split; [done|].
      assert (lcs_length node = 0 → lcs_length n = 0) as Hzero.
      { intros Hz. assert (Hnode := node_at_end _ _ _ _ _ Hs HF0 HF1 _ _ _ _ Hc' (or_intror Hz)).
        rewrite Hnode in Hz, Hle. simpl in *. rewrite Hnz; [done|lia]. }
      split; try done; [by left|lia|by right|].
      intros Hz. assert (lcs_length n = 0) as Hz' by tauto. assert (Hn := Hnz (or_intror Hz')).
      specialize (Hsync Hz'). rewrite Hn in Hz', Hsync |- *. unfold sync_of in *. simpl in *. lia.
    + destruct (IH (node :: next) (n :: xl)) as (sync & om' & ol' & nm & nl & Heq & Hsy);
        [done|done| |].
      { destruct Hadv as [[= -> ->]|(? & ? & _ & _ & _ & Hl)]; [lia|simpl in *; lia]. }
      exists sync, om', ol', nm, nl. split; [done|]. destruct Hsy. split; try done.
      by eapply advanced_trans.
Qed.
End TwoChains.

(** ** The chains of the longest common subsequences *)

Lemma chain_mids t0 t1 o0 o1 c i j :
  chain_ok t0 t1 o0 o1 c i j → (i <= length t0)%nat → (j <= length t1)%nat →
  Forall (mid_ok (o0 + Z.of_nat (length t0)) (o1 + Z.of_nat (length t1))) c.
Proof.
  revert i j; induction c as [|node c IH]; intros i j Hc Hi Hj; [done|].
  destruct Hc as (a & b & len & -> & Hlen & Ha & Hb & _ & Hc). constructor; [|apply (IH a b); [done|lia..]].
  unfold mid_ok. cbn [lcs_position0 lcs_position1 lcs_length]. lia.
Qed.

(** The chain of [svn_diff__lcs] after the node of the prefix. *)
Lemma svn_diff__lcs_shape (num : nat) (prefix suffix t0 t1 : list Z) :
  in_range num t0 → in_range num t1 →
  let p := Z.of_nat (length prefix) in
  let s := Z.of_nat (length suffix) in
  let E0 := p + 1 + Z.of_nat (length t0) in
  let E1 := p + 1 + Z.of_nat (length t1) in
  ∃ counts1 counts2 c,
    svn_diff__get_token_counts (ring_of t0 (p + 1)) num = Ok counts1
    ∧ svn_diff__get_token_counts (ring_of t1 (p + 1)) num = Ok counts2
    ∧ svn_diff__lcs (ring_of t0 (p + 1)) (ring_of t1 (p + 1)) counts1 counts2 p s
      = Ok ((if p =? 0 then [] else [MkLcs 1 1 p]) ++ c)
    ∧ chain (prefix ++ t0 ++ suffix) (prefix ++ t1 ++ suffix) E0 E1 s (p + 1) (p + 1) c.
Proof.
  intros Hr0 Hr1 p s E0 E1.
  destruct (middle_chain_ok num t0 t1 (p + 1) (p + 1) Hr0 Hr1)
    as (counts1 & counts2 & mids & Hget1 & Hget2 & Hmid & Hmids & _); [lia|].
  exists counts1, counts2, (reverse mids ++ closing E0 E1 s). do 2 (split; [done|]).
  rewrite svn_diff__lcs_cases, Hmid. unfold p, s. rewrite !eof_offset_ok. fold p s. cbn [rbind].
  set (file0 := prefix ++ t0 ++ suffix). set (file1 := prefix ++ t1 ++ suffix).
  assert (Z.of_nat (length file0) + 1 = E0 + s) as HF0 by (unfold file0; rewrite !length_app; lia).
  assert (Z.of_nat (length file1) + 1 = E1 + s) as HF1 by (unfold file1; rewrite !length_app; lia).
  rewrite HF0, HF1. split.
  - unfold close_chain, prepend_lcs, guarded, closing. cbn [lcs_position0 lcs_position1].
    rewrite !Z.add_simpl_r.
    destruct (Z.eqb_spec s 0); cbn [negb]; [|if_true by lia]; cbn [rbind];
      (destruct (Z.eqb_spec p 0); cbn [negb]; [|if_true by lia]); cbn [app];
      rewrite ?reverse_cons, <- ?app_assoc; done.
  - exists (reverse mids). split; [done|]. split.
    { apply Forall_reverse. by apply (chain_mids t0 t1 (p + 1) (p + 1) mids _ _ Hmids). }
    apply (matching_chain prefix prefix t0 t1 suffix suffix mids (length t0) (length t1)); [done..|].
    fold p E0 E1 file0 file1. unfold closing. destruct (Z.eqb_spec s 0) as [Hs|Hs]; cbn [app matching].
    + repeat split; cbn [Z.eqb]; lia.
    + split; [lia|]. split; [lia|]. if_false by lia. do 3 (split; [lia|]). split.
      * unfold file0, file1. rewrite !app_assoc.
        rewrite !drop_app_length'; [done| |]; rewrite length_app; lia.
      * cbn [Z.eqb]. repeat split; lia.
Qed.
