(* ===== verification/Diff3Conflict.v ===== *)
(** * Three-way diffs: positions and conflicts

    The pointers that [svn_diff_diff3_2] keeps into the rings are sound, and
    [svn_diff__resolve_conflict] compares exactly the lines of its hunk. *)
From S2P Require Import Prelude DiffLcs DiffLcsRounds DiffLcsCorrect DiffTokens Diff DiffCorrect Diff3 Diff3Chain.

(** ** Positions of one file *)

Section File.
Context (t : list Z) (q : Z).
Implicit Types (file : positions) (i j k n : nat).

Abbreviation N := (length t) (only parsing).

Definition ptr_at i : option position_t := Some (if (i <? N)%nat then Real i else Sentinel).

(** From the index [i] on, the positions are linked in order. *)
Record linked file i : Prop := {
  ln_tokens : p_tokens file = t;
  ln_offset : p_offset file = q;
  ln_sentinel : sentinel_offset file = q + Z.of_nat N;
  ln_length : length (p_next file) = N;
  ln_next k : (i <= k < N)%nat → p_next file !! k = Some (ptr_at (S k));
}.

Definition points (c : cursor) i : Prop :=
  linked (cur_file c) i ∧ cur_list c = ptr_at i ∧ (i <= N)%nat.

Lemma linked_mono file i j : linked file i → (i <= j)%nat → linked file j.
Proof. intros [] ?. split; try done. intros k ?. apply ln_next0. lia. Qed.

Lemma ptr_at_real i : (i < N)%nat → ptr_at i = Some (Real i).
Proof. intros. unfold ptr_at. by if_true by lia. Qed.

Lemma offset_ptr file i j :
  linked file i → (j <= N)%nat → offset_of file (ptr_at j) = Ok (q + Z.of_nat j).
Proof.
  intros [] Hj. unfold ptr_at, offset_of. case_if; [by rewrite ln_offset0|].
  rewrite ln_sentinel0. do 2 f_equal. lia.
Qed.

Lemma token_ptr file i j :
  linked file i → (j < N)%nat →
  ∃ x, t !! j = Some x ∧ token_index_of file (ptr_at j) = Ok x.
Proof.
  intros [] Hj. destruct (lookup_lt_is_Some_2 t j Hj) as [x Hx]. exists x. split; [done|].
  rewrite ptr_at_real by done. cbn [token_index_of]. by rewrite ln_tokens0, Hx.
Qed.

Lemma next_ptr file i j :
  linked file i → (i <= j < N)%nat → next_of file (ptr_at j) = Ok (ptr_at (S j)).
Proof.
  intros [] Hj. rewrite ptr_at_real by lia. cbn [next_of]. by rewrite ln_next0 by lia.
Qed.

Lemma seek_ok fuel file i j :
  linked file i → (i <= j <= N)%nat → (j - i <= fuel)%nat →
  seek fuel file (ptr_at i) (q + Z.of_nat j) = Ok (ptr_at j).
Proof.
  revert i; induction fuel as [|fuel IH]; intros i Hl Hj Hf; cbn [seek];
    rewrite (offset_ptr file i) by (done || lia); cbn [rbind].
  - if_false by lia. by replace i with j by lia.
  - case_if; [|by replace i with j by lia]. rewrite (next_ptr file i) by (done || lia).
    cbn [rbind]. apply IH; [|lia..]. eapply linked_mono; [done|lia].
Qed.

Lemma walk_steps_ok file i j n :
  linked file i → (i <= j)%nat → (j + n <= N)%nat → walk n file (ptr_at j) = Ok (ptr_at (j + n)).
Proof.
  revert j; induction n as [|n IH]; intros j Hl Hj Hn; cbn [walk].
  { by rewrite Nat.add_0_r. }
  rewrite (next_ptr file i) by (done || lia). cbn [rbind]. rewrite IH by (done || lia).
  do 2 f_equal. lia.
Qed.

Lemma ring_between_ok fuel file j e :
  p_tokens file = t → p_offset file = q → (j <= e < N)%nat → (e - j <= fuel)%nat →
  (∀ k, (j <= k < e)%nat → p_next file !! k = Some (ptr_at (S k))) →
  ring_between fuel file (ptr_at j) (ptr_at e) (q + Z.of_nat j) = Ok (take (e + 1 - j) (drop j t)).
Proof.
  revert j; induction fuel as [|fuel IH]; intros j Ht Hq Hj Hf Hn; cbn [ring_between];
    rewrite (ptr_at_real j), (ptr_at_real e) by lia; cbn [offset_of token_index_of];
    rewrite Hq, Ht; cbn [rbind]; rewrite Z.eqb_refl; cbn [negb];
    destruct (lookup_lt_is_Some_2 t j) as [x Hx]; try lia; rewrite Hx; cbn [from_option rbind];
    rewrite (drop_S _ _ _ Hx).
  - assert (e = j) as -> by lia. rewrite bool_decide_true by done.
    by replace (j + 1 - j)%nat with 1%nat by lia.
  - case_bool_decide as He.
    + injection He as ->. by replace (e + 1 - e)%nat with 1%nat by lia.
    + assert (j < e)%nat by (destruct (decide (j = e)); [by subst|lia]).
      cbn [next_of]. rewrite Hn by lia. cbn [from_option rbind].
      specialize (IH (S j) Ht Hq). rewrite (ptr_at_real e) in IH by lia.
      replace (q + Z.of_nat j + 1) with (q + Z.of_nat (S j)) by lia.
      rewrite IH; [|lia|lia|intros k Hk; apply Hn; lia]. cbn [rbind].
      replace (e + 1 - j)%nat with (S (e + 1 - S j)) by lia. done.
Qed.

Lemma cut_ring_ok file i j (a : nat) :
  linked file i → (i <= j)%nat → (j + a <= N)%nat →
  ∃ c, cut_ring file (ptr_at j) (Z.of_nat a)
       = Ok (ring_of (take a (drop j t)) (q + Z.of_nat j), c)
    ∧ points c (j + a).
Proof.
  intros Hl Hi Ha. unfold cut_ring. destruct (Z.eqb_spec (Z.of_nat a) 0) as [Ha0|Ha0].
  { assert (a = 0%nat) as -> by lia. rewrite take_0, Nat.add_0_r. eexists. split; [done|].
    split; [by eapply linked_mono|]. split; [done|lia]. }
  rewrite Nat2Z.id. rewrite (walk_steps_ok file i) by (done || lia). cbn [rbind].
  rewrite (next_ptr file i) by (done || lia). cbn [rbind].
  rewrite (ptr_at_real (j + (a - 1))) by lia. cbn [set_next_of rbind].
  set (file' := MkPositions _ _ _ _ _).
  assert (∀ k, (i <= k < N)%nat → k ≠ (j + (a - 1))%nat → p_next file' !! k = Some (ptr_at (S k)))
    as Hnext.
  { intros k Hk Hne. unfold file'. cbn [p_next]. rewrite list_lookup_insert_ne by done.
    by apply Hl. }
  destruct Hl as [Ht Hq Hsent Hlen Hn].
  assert (linked file' (j + a)) as Hl'.
  { split; try done; cbn [file' p_next]; [by rewrite length_insert|].
    intros k Hk. apply Hnext; lia. }
  rewrite (offset_ptr file' (j + a)) by (done || lia). cbn [rbind].
  rewrite <- (ptr_at_real (j + (a - 1))) by lia. rewrite (ring_between_ok _ file' j).
  - cbn [rbind]. replace (j + (a - 1) + 1 - j)%nat with a by lia. eexists. split.
    + do 2 f_equal. assert (length (take a (drop j t)) = a) as Hla
        by (rewrite length_take, length_drop; lia).
      destruct (take a (drop j t)); [simpl in Hla; lia|done].
    + replace (S (j + (a - 1))) with (j + a)%nat by lia. done.
  - done.
  - done.
  - lia.
  - cbn [file' p_tokens]. rewrite Ht. lia.
  - intros k Hk. apply Hnext; lia.
Qed.
End File.

Lemma match_common_ok t0 q0 t1 q1 file0 file1 i0 i1 j0 j1 (n : nat) :
  linked t0 q0 file0 i0 → linked t1 q1 file1 i1 → (i0 <= j0)%nat → (i1 <= j1)%nat →
  (j0 + n <= length t0)%nat → (j1 + n <= length t1)%nat →
  ∃ k : nat, match_common n file0 file1 (ptr_at t0 j0) (ptr_at t1 j1)
        = Ok (ptr_at t0 (j0 + k), ptr_at t1 (j1 + k), (n - k)%nat)
    ∧ (k <= n)%nat ∧ take k (drop j0 t0) = take k (drop j1 t1)
    ∧ (k = n ∨ t0 !! (j0 + k)%nat ≠ t1 !! (j1 + k)%nat).
Proof.
  intros Hl0 Hl1. revert j0 j1; induction n as [|n IH]; intros j0 j1 Hi0 Hi1 Hn0 Hn1.
  { exists 0%nat. rewrite !Nat.add_0_r. do 3 (split; [done|]). by left. }
  cbn [match_common].
  destruct (token_ptr t0 q0 file0 i0 j0 Hl0) as (x0 & Hx0 & ->); [lia|].
  destruct (token_ptr t1 q1 file1 i1 j1 Hl1) as (x1 & Hx1 & ->); [lia|]. cbn [rbind].
  destruct (Z.eqb_spec x0 x1) as [->|Hne].
  - rewrite (next_ptr t0 q0 file0 i0), (next_ptr t1 q1 file1 i1) by (done || lia). cbn [rbind].
    destruct (IH (S j0) (S j1)) as (k & -> & Hk & Heq & Hmax); [lia..|].
    exists (S k). rewrite !Nat.add_succ_r. split; [done|]. split; [lia|]. split.
    + rewrite (drop_S _ _ _ Hx0), (drop_S _ _ _ Hx1). cbn [take]. by rewrite Heq.
    + destruct Hmax as [->|Hmax]; [by left|by right].
  - exists 0%nat. rewrite !Nat.add_0_r. split; [done|]. split; [lia|]. split; [done|].
    right. rewrite Hx0, Hx1. congruence.
Qed.

(** ** What resolving a conflict yields *)

Section ResolvedFrom.
Context {A : Type} (R : A → A → Prop) (modified latest : list A).

(** From the lines [m] and [l] on, up to [m_end] and [l_end]. *)
Fixpoint resolved_from (m l m_end l_end : Z) (diff : list svn_diff_t) : Prop :=
  match diff with
  | [] => m = m_end ∧ l = l_end
  | hunk :: diff =>
      modified_start hunk = m ∧ latest_start hunk = l
      ∧ 0 <= modified_length hunk ∧ 0 <= latest_length hunk
      ∧ 0 < modified_length hunk + latest_length hunk
      ∧ match diff_type hunk with
        | svn_diff__type_diff_common =>
            modified_length hunk = latest_length hunk
            ∧ Forall2 R (slice modified m (modified_length hunk))
                (slice latest l (latest_length hunk))
        | svn_diff__type_conflict => True
        | _ => False
        end
      ∧ resolved_from (m + modified_length hunk) (l + latest_length hunk) m_end l_end diff
  end.

Lemma slice_take {B} (l : list B) (e : nat) a n :
  0 <= a → 0 <= n → a + n <= Z.of_nat e → slice (take e l) a n = slice l a n.
Proof.
  intros. unfold slice. rewrite skipn_firstn_comm, take_take. f_equal. lia.
Qed.

Lemma equal_slices (f : A → Z) (e0 e1 : nat) m l n :
  (∀ t u, t ∈ modified → u ∈ latest → f t = f u → R t u) →
  slice (map f modified) m n = slice (map f latest) l n →
  Forall2 R (slice modified m n) (slice latest l n).
Proof.
  intros Hf. rewrite !slice_map. unfold slice.
  generalize (take_drop (Z.to_nat m) modified), (take_drop (Z.to_nat l) latest).
  assert (∀ us vs, (∀ t, t ∈ us → t ∈ modified) → (∀ u, u ∈ vs → u ∈ latest) →
    map f us = map f vs → Forall2 R us vs) as Hall.
  { clear -Hf. induction us as [|t us IH]; intros [|u vs] Hus Hvs Heq; try done.
    injection Heq as Htu Heq. constructor; [apply Hf; set_solver|apply IH; set_solver]. }
  intros _ _. apply Hall; intros t Ht; apply elem_of_take in Ht as (k & Ht & _);
    rewrite lookup_drop in Ht; by eapply list_elem_of_lookup_2.
Qed.

Lemma resolve_loop_ok (f : A → Z) hunk lcs (e0 e1 : nat) i j :
  (∀ t u, t ∈ modified → u ∈ latest → f t = f u → R t u) →
  (e0 <= length modified)%nat → (e1 <= length latest)%nat → 1 <= i → 1 <= j →
  matching (take e0 (map f modified)) (take e1 (map f latest)) i j lcs →
  ∃ resolved, resolve_loop hunk lcs i j = Ok resolved
    ∧ resolved_from (i - 1) (j - 1) (Z.of_nat e0) (Z.of_nat e1) resolved.
Proof.
  intros Hf He0 He1. revert i j; induction lcs as [|[pos0 pos1 len] lcs IH]; intros i j Hi Hj; [done|].
  cbn [matching resolve_loop]. rewrite !length_take, !length_map. intros (H0 & H1 & Hm).
  assert (∀ rest, resolved_from (pos0 - 1) (pos1 - 1) (Z.of_nat e0) (Z.of_nat e1) rest →
    resolved_from (i - 1) (j - 1) (Z.of_nat e0) (Z.of_nat e1)
      ((if (i <? pos0) || (j <? pos1)
        then [MkDiff svn_diff__type_conflict (original_start hunk) (original_length hunk)
                (i - 1) (pos0 - i) (j - 1) (pos1 - j) []] else []) ++ rest)) as Hconflict.
  { intros rest Hrest. case_if; cbn [app].
    - simpl. do 2 (split; [done|]). do 3 (split; [lia|]). split; [done|].
      by replace (i - 1 + (pos0 - i)) with (pos0 - 1) by lia;
        replace (j - 1 + (pos1 - j)) with (pos1 - 1) by lia.
    - by replace i with pos0 by lia; replace j with pos1 by lia. }
  destruct (Z.eqb_spec len 0) as [Hlen|Hlen].
  { destruct Hm as (-> & -> & ->). eexists. split; [done|].
    specialize (Hconflict []). rewrite app_nil_r in Hconflict. apply Hconflict. simpl. lia. }
  destruct Hm as (Hpos & Hl0 & Hl1 & Heq & Hm).
  destruct (IH (pos0 + len) (pos1 + len)) as (rest & -> & Hd); [lia|lia|done|].
  cbn [rbind]. eexists. split; [done|]. apply (Hconflict (_ :: rest)).
  simpl. do 2 (split; [done|]). do 3 (split; [lia|]). split.
  - split; [done|]. apply (equal_slices f e0 e1); [done|].
    change (slice (take e0 (map f modified)) (pos0 - 1) len
            = slice (take e1 (map f latest)) (pos1 - 1) len) in Heq.
    by rewrite !slice_take in Heq by lia.
  - by replace (pos0 - 1 + len) with (pos0 + len - 1) by lia;
      replace (pos1 - 1 + len) with (pos1 + len - 1) by lia.
Qed.
End ResolvedFrom.

(** Whatever its nodes, a chain with an end gives a diff. *)
Lemma resolve_loop_total hunk lcs i j :
  Exists (λ node, lcs_length node = 0) lcs → ∃ resolved, resolve_loop hunk lcs i j = Ok resolved.
Proof.
  intros He. revert i j; induction He as [[pos0 pos1 len] lcs Hz|[pos0 pos1 len] lcs _ IH];
    intros i j; cbn [resolve_loop lcs_length] in *.
  - rewrite (proj2 (Z.eqb_eq len 0) Hz). by eexists.
  - case_if; [by eexists|]. destruct (IH (pos0 + len) (pos1 + len)) as [rest ->]. by eexists.
Qed.

(** A node whose positions are lines of the files, and what a resolved diff is made
    of. *)
Definition positive (node : svn_diff__lcs_t) : Prop :=
  1 <= lcs_position0 node ∧ 1 <= lcs_position1 node ∧ 0 <= lcs_length node.

Definition plain (hunk : svn_diff_t) : Prop :=
  0 <= modified_start hunk ∧ 0 <= latest_start hunk ∧ resolved_diff hunk = []
  ∧ (diff_type hunk = svn_diff__type_diff_common ∨ diff_type hunk = svn_diff__type_conflict).

Lemma matching_positive F0 F1 i j lcs :
  1 <= i → 1 <= j → matching F0 F1 i j lcs → Forall positive lcs.
Proof.
  revert i j; induction lcs as [|[pos0 pos1 len] lcs IH]; intros i j Hi Hj; [done|].
  cbn [matching]. intros (H0 & H1 & Hm).
  destruct (Z.eqb_spec len 0) as [Hlen|Hlen].
  - destruct Hm as (_ & _ & ->). constructor; [|done]. unfold positive. simpl. lia.
  - destruct Hm as (Hpos & _ & _ & _ & Hm). constructor; [unfold positive; simpl; lia|].
    apply (IH (pos0 + len) (pos1 + len)); [lia..|done].
Qed.

Lemma resolve_loop_plain hunk lcs i j resolved :
  1 <= i → 1 <= j → Forall positive lcs → resolve_loop hunk lcs i j = Ok resolved → Forall plain resolved.
Proof.
  revert i j resolved; induction lcs as [|[pos0 pos1 len] lcs IH]; intros i j resolved Hi Hj; [done|].
  intros [(H0 & H1 & Hl) Hlcs]%Forall_cons. cbn [lcs_position0 lcs_position1 lcs_length] in *.
  cbn [resolve_loop]. set (conflict := if (i <? pos0) || (j <? pos1) then _ else _).
  assert (Forall plain conflict) as Hconflict.
  { unfold conflict. case_if; [|done]. constructor; [|done]. unfold plain. simpl.
    split; [lia|]. split; [lia|]. split; [done|by right]. }
  case_if; [by intros [= <-]|].
  destruct (resolve_loop hunk lcs _ _) as [rest| | | |] eqn:Hrest; try done. intros [= <-].
  apply Forall_app. split; [done|]. constructor.
  - unfold plain. simpl. split; [lia|]. split; [lia|]. split; [done|by left].
  - by eapply IH; [| |done|exact Hrest]; lia.
Qed.

(** ** Three-way diffs: the resolution of conflicts *)

(** ** The matches within a conflict *)

Lemma eof_offset_alone (tokens : list Z) offset :
  tokens ≠ [] → eof_offset (ring_of tokens offset) 0 0 = offset + Z.of_nat (length tokens).
Proof. destruct tokens as [|x tokens]; [done|]. intros _. cbn [ring_of eof_offset ring_tokens ring_offset]. lia. Qed.

Lemma fix_eof_same offset c : offset ≠ 1 → fix_eof offset c = Ok offset.
Proof. intros. unfold fix_eof. by if_false by lia. Qed.

(** The end of file of a file that may have no tokens. *)
Lemma fix_eof_ok (pre u : list Z) c :
  offset_of (cur_file c) (cur_list c) = Ok (Z.of_nat (length (pre ++ u)) + 1) →
  fix_eof (eof_offset (ring_of u (Z.of_nat (length pre) + 1)) 0 0) c
  = Ok (Z.of_nat (length (pre ++ u)) + 1).
Proof.
  intros Hc. destruct u as [|x u]; [done|]. rewrite eof_offset_alone by done.
  rewrite fix_eof_same by (simpl; lia). rewrite length_app. f_equal. lia.
Qed.

Lemma fix_eof_total offset c x :
  offset_of (cur_file c) (cur_list c) = Ok x → 1 <= offset → 1 <= x →
  ∃ y, fix_eof offset c = Ok y ∧ 1 <= y.
Proof. intros Hc ??. unfold fix_eof. case_if; [|by eexists]. rewrite Hc. by eexists. Qed.

(** The chain for the two sequences of a conflict, [c0] and [c1] being where the
    lists go on.  When both sequences lie behind the first line, it matches. *)
Lemma conflict_lcs_ok num (pre0 pre1 u0 u1 : list Z) (c0 c1 : cursor) :
  in_range num u0 → in_range num u1 →
  offset_of (cur_file c0) (cur_list c0) = Ok (Z.of_nat (length (pre0 ++ u0)) + 1) →
  offset_of (cur_file c1) (cur_list c1) = Ok (Z.of_nat (length (pre1 ++ u1)) + 1) →
  let o0 := Z.of_nat (length pre0) + 1 in
  let o1 := Z.of_nat (length pre1) + 1 in
  ∃ counts0 counts1 pos0 pos1 len next pos0' pos1',
    svn_diff__get_token_counts (ring_of u0 o0) num = Ok counts0
    ∧ svn_diff__get_token_counts (ring_of u1 o1) num = Ok counts1
    ∧ svn_diff__lcs (ring_of u0 o0) (ring_of u1 o1) counts0 counts1 0 0 = Ok (MkLcs pos0 pos1 len :: next)
    ∧ fix_eof pos0 c0 = Ok pos0' ∧ fix_eof pos1 c1 = Ok pos1'
    ∧ Exists (λ node, lcs_length node = 0) (MkLcs pos0' pos1' len :: next)
    ∧ Forall positive (MkLcs pos0' pos1' len :: next)
    ∧ (1 < o0 → 1 < o1 → matching (pre0 ++ u0) (pre1 ++ u1) o0 o1 (MkLcs pos0' pos1' len :: next)).
Proof.
  intros Hr0 Hr1 Hc0 Hc1 o0 o1.
  destruct (middle_chain_ok num u0 u1 o0 o1 Hr0 Hr1)
    as (counts0 & counts1 & chain & Hget0 & Hget1 & Hmid & Hchain & _); [lia|].
  exists counts0, counts1. rewrite svn_diff__lcs_cases, Hmid. unfold close_chain. cbn [rbind Z.eqb negb].
  set (eof := MkLcs _ _ 0).
  assert (matching (pre0 ++ u0) (pre1 ++ u1) (o0 + Z.of_nat (length u0)) (o1 + Z.of_nat (length u1))
    [MkLcs (Z.of_nat (length (pre0 ++ u0)) + 1) (Z.of_nat (length (pre1 ++ u1)) + 1) 0]) as Heof.
  { cbn [matching Z.eqb]. rewrite !length_app. unfold o0, o1. split; [lia|]. split; [lia|]. done. }
  destruct (decide (u0 = [] ∨ u1 = [])) as [Hnil|Hsome].
  - eexists _, _, 0, [], _, _. split; [done|]. split; [done|]. split.
    { assert (chain = []) as ->; [|done]. by destruct Hnil as [->| ->]; [|destruct u0]; injection Hmid as <-. }
    split; [by apply fix_eof_ok|]. split; [by apply fix_eof_ok|]. split; [by apply Exists_cons_hd|].
    split; [constructor; [|done]; unfold positive; simpl; lia|]. intros _ _. eapply matching_weaken; [done|lia..].
  - assert (eof = MkLcs (Z.of_nat (length (pre0 ++ u0)) + 1) (Z.of_nat (length (pre1 ++ u1)) + 1) 0) as Heq.
    { unfold eof. rewrite !eof_offset_alone by tauto. rewrite !length_app. unfold o0, o1. f_equal; lia. }
    rewrite Heq. destruct (matching_chain pre0 pre1 u0 u1 [] [] chain (length u0) (length u1)
      [MkLcs (Z.of_nat (length (pre0 ++ u0)) + 1) (Z.of_nat (length (pre1 ++ u1)) + 1) 0] Hchain)
      as [Hm _]; [done|done|by rewrite !app_nil_r|]. rewrite !app_nil_r in Hm. fold o0 o1 in Hm.
    assert (Exists (λ node, lcs_length node = 0) (reverse chain ++
      [MkLcs (Z.of_nat (length (pre0 ++ u0)) + 1) (Z.of_nat (length (pre1 ++ u1)) + 1) 0])) as Hend.
    { apply Exists_app. right. by apply Exists_cons_hd. }
    destruct (reverse chain ++ _) as [|[pos0 pos1 len] next]; [done|].
    assert (Hpositive := Hm). apply matching_positive in Hpositive; [|lia|lia].
    apply Forall_cons in Hpositive as [(Hpos0 & Hpos1 & Hlen) Hnext].
    cbn [lcs_position0 lcs_position1 lcs_length] in *.
    destruct (fix_eof_total pos0 c0 _ Hc0) as (pos0' & Hp0 & Hpos0'); [lia..|].
    destruct (fix_eof_total pos1 c1 _ Hc1) as (pos1' & Hp1 & Hpos1'); [lia..|].
    exists pos0, pos1, len, next, pos0', pos1'. do 5 (split; [done|]). split.
    { apply Exists_cons in Hend as [?|?]; [by apply Exists_cons_hd|by apply Exists_cons_tl]. }
    split; [by constructor|].
    intros H0 H1. assert (Hm' := Hm). destruct Hm' as (? & ? & _).
    rewrite fix_eof_same in Hp0 by lia. rewrite fix_eof_same in Hp1 by lia.
    injection Hp0 as <-. by injection Hp1 as <-.
Qed.

(** ** The hunk *)

Section Conflict.
Context {A : Type} (R : A → A → Prop) (f : A → Z) (modified latest : list A).
Hypothesis Hf : ∀ t u, t ∈ modified → u ∈ latest → f t = f u → R t u.
Hypothesis HR : ∀ t u, R t u → f t = f u.

Lemma same_map us vs : Forall2 R us vs → map f us = map f vs.
Proof. induction 1 as [|t u us vs Htu _ IH]; simpl; [done|]. by rewrite IH, (HR _ _ Htu). Qed.

(** What became of a hunk of [a] and [b] lines from [m] and [l] on. *)
Definition resolution (m l a b : Z) (type : svn_diff__type_e) (resolved : list svn_diff_t) : Prop :=
  match type with
  | svn_diff__type_diff_common =>
      a = b ∧ Forall2 R (slice modified m a) (slice latest l b) ∧ resolved = []
  | svn_diff__type_conflict =>
      ¬ Forall2 R (slice modified m a) (slice latest l b)
      ∧ Forall plain resolved
      ∧ (0 < m → 0 < l → resolved_from R modified latest m l (m + a) (l + b) resolved)
  | _ => False
  end.

Context (pre1 t1 suf1 pre2 t2 suf2 : list Z) (num : nat).
Hypothesis Hmodified : map f modified = pre1 ++ t1 ++ suf1.
Hypothesis Hlatest : map f latest = pre2 ++ t2 ++ suf2.
Hypothesis Ht1 : in_range num t1.
Hypothesis Ht2 : in_range num t2.

Abbreviation q1 := (Z.of_nat (length pre1) + 1) (only parsing).
Abbreviation q2 := (Z.of_nat (length pre2) + 1) (only parsing).

Lemma slice_pending (pre t suf : list Z) (j a : nat) :
  (j + a <= length t)%nat →
  slice (pre ++ t ++ suf) (Z.of_nat (length pre) + Z.of_nat j) (Z.of_nat a) = take a (drop j t).
Proof.
  intros. unfold slice. rewrite <- Nat2Z.inj_add, !Nat2Z.id. apply take_drop_middle_part. lia.
Qed.

Lemma pending_range (t : list Z) (a j : nat) : in_range num t → in_range num (take a (drop j t)).
Proof. intros Ht. by apply Forall_take, Forall_drop. Qed.

(** A file up to the end of a hunk. *)
Lemma take_to_end (pre t suf : list Z) (j k a : nat) :
  (k <= a)%nat → (j + a <= length t)%nat →
  take (length pre + j + a) (pre ++ t ++ suf)
  = (pre ++ take (j + k) t) ++ take (a - k) (drop (j + k) t)
  ∧ length (pre ++ take (j + k) t) = (length pre + j + k)%nat.
Proof.
  intros Hk Ha. rewrite length_app, length_take. split; [|lia].
  rewrite take_app, (take_ge pre) by lia. rewrite <- app_assoc. f_equal.
  rewrite take_app_le by lia. rewrite <- (take_drop (j + k) (take (_ - _) t)).
  rewrite take_take, skipn_firstn_comm. f_equal; f_equal; lia.
Qed.

Lemma points_offset (t : list Z) q c i :
  points t q c i → offset_of (cur_file c) (cur_list c) = Ok (q + Z.of_nat i).
Proof. intros (Hl & -> & Hi). by apply (offset_ptr t q _ i). Qed.

(** The two sequences are equal, or they differ after the first [k] tokens. *)
Lemma differ_after (j1 j2 a b k : nat) :
  (j1 + a <= length t1)%nat → (j2 + b <= length t2)%nat → (k <= Nat.min a b)%nat →
  k = Nat.min a b ∨ t1 !! (j1 + k)%nat ≠ t2 !! (j2 + k)%nat →
  ((Nat.min a b - k =? 0)%nat && (Z.of_nat a =? Z.of_nat b)) = false →
  take a (drop j1 t1) ≠ take b (drop j2 t2).
Proof.
  intros Ha Hb Hk Hmax Hne Heq. assert (a = b) as ->.
  { apply (f_equal length) in Heq. rewrite !length_take, !length_drop in Heq. lia. }
  rewrite Z.eqb_refl, andb_true_r in Hne. apply Nat.eqb_neq in Hne.
  destruct Hmax as [->|Hmax]; [lia|]. apply Hmax.
  apply (f_equal (lookup k)) in Heq. by rewrite !lookup_take_lt, !lookup_drop in Heq by lia.
Qed.

(** The resolved diff, from a chain for what follows the first [k] tokens, which
    are equal. *)
Lemma resolved_ok hunk lcs (j1 j2 a b k : nat) :
  (j1 + a <= length t1)%nat → (j2 + b <= length t2)%nat → (k <= Nat.min a b)%nat →
  take k (drop j1 t1) = take k (drop j2 t2) →
  Exists (λ node, lcs_length node = 0) lcs → Forall positive lcs →
  let m := Z.of_nat (length pre1) + Z.of_nat j1 in
  let l := Z.of_nat (length pre2) + Z.of_nat j2 in
  (1 < q1 + Z.of_nat (j1 + k) → 1 < q2 + Z.of_nat (j2 + k) →
   matching (take (length pre1 + j1 + a) (map f modified)) (take (length pre2 + j2 + b) (map f latest))
     (q1 + Z.of_nat (j1 + k)) (q2 + Z.of_nat (j2 + k)) lcs) →
  ∃ resolved,
    resolve_loop hunk
      ((if 0 <? Z.of_nat k
        then [MkLcs (q1 + Z.of_nat j1) (q2 + Z.of_nat j2) (Z.of_nat k)] else []) ++ lcs)
      (q1 + Z.of_nat j1) (q2 + Z.of_nat j2) = Ok resolved
    ∧ Forall plain resolved
    ∧ (0 < m → 0 < l →
       resolved_from R modified latest m l (m + Z.of_nat a) (l + Z.of_nat b) resolved).
Proof.
  intros Ha Hb Hk Heq Hend Hpositive m l Hmatch. set (head_ := if 0 <? Z.of_nat k then _ else _).
  assert (length (map f modified) = (length pre1 + length t1 + length suf1)%nat) as Hm1
    by (rewrite Hmodified, !length_app; lia).
  assert (length (map f latest) = (length pre2 + length t2 + length suf2)%nat) as Hm2
    by (rewrite Hlatest, !length_app; lia).
  rewrite length_map in Hm1, Hm2.
  destruct (resolve_loop_total hunk (head_ ++ lcs) (q1 + Z.of_nat j1) (q2 + Z.of_nat j2))
    as [resolved Hres]; [by apply Exists_app; right|].
  exists resolved. split; [done|]. split.
  { eapply resolve_loop_plain; [| | |exact Hres]; [lia..|]. apply Forall_app. split; [|done].
    unfold head_. case_if; [|done]. constructor; [|done]. unfold positive. simpl. lia. }
  intros Hm Hl.
  destruct (resolve_loop_ok R modified latest f hunk (head_ ++ lcs)
    (length pre1 + j1 + a) (length pre2 + j2 + b) (q1 + Z.of_nat j1) (q2 + Z.of_nat j2))
    as (resolved' & Hres' & Hfrom); [done|lia|lia|lia|lia| |].
  - specialize (Hmatch ltac:(lia) ltac:(lia)). unfold head_.
    destruct (Z.ltb_spec 0 (Z.of_nat k)) as [Hk0|Hk0]; cbn [app].
    + cbn [matching]. if_false by lia. rewrite !length_take, !length_map.
      do 5 (split; [lia|]). split.
      * rewrite Hmodified, Hlatest.
        fold (slice (take (length pre1 + j1 + a) (pre1 ++ t1 ++ suf1)) (q1 + Z.of_nat j1 - 1) (Z.of_nat k)).
        fold (slice (take (length pre2 + j2 + b) (pre2 ++ t2 ++ suf2)) (q2 + Z.of_nat j2 - 1) (Z.of_nat k)).
        rewrite !slice_take by lia.
        replace (q1 + Z.of_nat j1 - 1) with (Z.of_nat (length pre1) + Z.of_nat j1) by lia.
        replace (q2 + Z.of_nat j2 - 1) with (Z.of_nat (length pre2) + Z.of_nat j2) by lia.
        by rewrite !slice_pending by lia.
      * by rewrite !Nat2Z.inj_add, !Z.add_assoc in Hmatch.
    + assert (k = 0%nat) as -> by lia. by rewrite !Nat.add_0_r in Hmatch.
  - assert (resolved' = resolved) as -> by congruence.
    replace (m + Z.of_nat a) with (Z.of_nat (length pre1 + j1 + a)) by lia.
    replace (l + Z.of_nat b) with (Z.of_nat (length pre2 + j2 + b)) by lia.
    by replace m with (q1 + Z.of_nat j1 - 1) by lia; replace l with (q2 + Z.of_nat j2 - 1) by lia.
Qed.

Lemma svn_diff__resolve_conflict_ok hunk c1 c2 (i1 i2 j1 j2 a b : nat) :
  points t1 q1 c1 i1 → points t2 q2 c2 i2 → (i1 <= j1)%nat → (i2 <= j2)%nat →
  (j1 + a <= length t1)%nat → (j2 + b <= length t2)%nat →
  modified_start hunk = Z.of_nat (length pre1) + Z.of_nat j1 →
  latest_start hunk = Z.of_nat (length pre2) + Z.of_nat j2 →
  modified_length hunk = Z.of_nat a → latest_length hunk = Z.of_nat b →
  ∃ type resolved c1' c2',
    svn_diff__resolve_conflict hunk c1 c2 num = Ok (set_resolved hunk type resolved, c1', c2')
    ∧ points t1 q1 c1' (j1 + a) ∧ points t2 q2 c2' (j2 + b)
    ∧ resolution (modified_start hunk) (latest_start hunk) (Z.of_nat a) (Z.of_nat b) type resolved.
Proof.
  intros Hp1 Hp2 Hi1 Hi2 Ha Hb Hms Hls Hml Hll. unfold svn_diff__resolve_conflict.
  destruct Hp1 as (Hl1 & -> & Hb1), Hp2 as (Hl2 & -> & Hb2).
  rewrite (ln_tokens _ _ _ _ Hl1), (ln_tokens _ _ _ _ Hl2), Hms, Hls, Hml, Hll.
  replace (Z.of_nat (length pre1) + Z.of_nat j1 + 1) with (q1 + Z.of_nat j1) by lia.
  replace (Z.of_nat (length pre2) + Z.of_nat j2 + 1) with (q2 + Z.of_nat j2) by lia.
  rewrite (seek_ok t1 q1 _ _ i1 j1 Hl1), (seek_ok t2 q2 _ _ i2 j2 Hl2) by lia. cbn [rbind].
  rewrite <- Nat2Z.inj_min, Nat2Z.id.
  pose proof (slice_pending pre1 t1 suf1 j1 a Ha) as Hs1. rewrite <- Hmodified in Hs1.
  pose proof (slice_pending pre2 t2 suf2 j2 b Hb) as Hs2. rewrite <- Hlatest in Hs2.
  destruct (match_common_ok t1 q1 t2 q2 _ _ i1 i2 j1 j2 (Nat.min a b) Hl1 Hl2 Hi1 Hi2)
    as (k & -> & Hk & Heq & Hmax); [lia..|]. cbn [rbind].
  destruct (_ && _) eqn:Hcommon.
  { apply andb_prop in Hcommon as [?%Nat.eqb_eq ?%Z.eqb_eq].
    assert (a = b) as <- by lia. assert (k = a) as -> by lia.
    eexists _, _, _, _. split; [done|].
    split; [split; [by eapply linked_mono; [done|lia]|done]|].
    split; [split; [by eapply linked_mono; [done|lia]|done]|].
    split; [done|]. split; [|done]. apply (equal_slices R modified latest f 0 0); [done|congruence]. }
  apply (differ_after j1 j2 a b k) in Hcommon as Hdiffer; [|done..].
  rewrite <- Hs1, <- Hs2, !slice_map in Hdiffer.
  replace (Z.of_nat (Nat.min a b) - Z.of_nat (Nat.min a b - k)) with (Z.of_nat k) by lia.
  rewrite (offset_ptr t1 q1 _ i1 j1), (offset_ptr t2 q2 _ i2 j2) by (done || lia). cbn [rbind].
  rewrite <- !Nat2Z.inj_sub by lia.
  destruct (cut_ring_ok t1 q1 _ i1 (j1 + k) (a - k) Hl1) as (c1' & -> & Hc1); [lia..|].
  destruct (cut_ring_ok t2 q2 _ i2 (j2 + k) (b - k) Hl2) as (c2' & -> & Hc2); [lia..|]. cbn [rbind].
  replace (j1 + k + (a - k))%nat with (j1 + a)%nat in Hc1 by lia.
  replace (j2 + k + (b - k))%nat with (j2 + b)%nat in Hc2 by lia.
  destruct (take_to_end pre1 t1 suf1 j1 k a) as [Hend1 Hlen1]; [lia..|].
  destruct (take_to_end pre2 t2 suf2 j2 k b) as [Hend2 Hlen2]; [lia..|].
  destruct (conflict_lcs_ok num (pre1 ++ take (j1 + k) t1) (pre2 ++ take (j2 + k) t2)
    (take (a - k) (drop (j1 + k) t1)) (take (b - k) (drop (j2 + k) t2)) c1' c2')
    as (counts0 & counts1 & pos0 & pos1 & len & next & pos0' & pos1' & Hg0 & Hg1 & Hlcs & Hp0 & Hp1
        & Hend & Hpositive & Hmatch).
  { by apply pending_range. }
  { by apply pending_range. }
  { rewrite (points_offset _ _ _ _ Hc1), length_app, Hlen1, length_take, length_drop. f_equal. lia. }
  { rewrite (points_offset _ _ _ _ Hc2), length_app, Hlen2, length_take, length_drop. f_equal. lia. }
  rewrite Hlen1 in Hg0, Hlcs, Hmatch. rewrite Hlen2 in Hg1, Hlcs, Hmatch.
  rewrite <- Hend1, <- Hend2, <- Hmodified, <- Hlatest in Hmatch.
  replace (Z.of_nat (length pre1 + j1 + k) + 1) with (q1 + Z.of_nat (j1 + k)) in * by lia.
  replace (Z.of_nat (length pre2 + j2 + k) + 1) with (q2 + Z.of_nat (j2 + k)) in * by lia.
  rewrite Hg0, Hg1. cbn [rbind]. rewrite Hlcs. cbn [rbind]. rewrite Hp0, Hp1. cbn [rbind].
  destruct (resolved_ok hunk (MkLcs pos0' pos1' len :: next) j1 j2 a b k) as (resolved & -> & Hplain & Hres);
    [done..|].
  cbn [rbind]. eexists _, resolved, c1', c2'. split; [done|]. split; [done|]. split; [done|].
  split; [|by split]. intros Hsame. by apply Hdiffer, same_map.
Qed.
End Conflict.
