(* ===== verification/Diff3Correct.v ===== *)
(** * Properties of three-way diffs

    The hunks of a three-way diff cover the three files in order, and each says
    which of the files agree there. *)
From S2P Require Import Prelude DiffLcs DiffLcsRounds DiffLcsCorrect DiffTokens DiffTokensCorrect Diff DiffCorrect Diff3 Diff3Chain Diff3Conflict.

(** ** What a three-way diff is *)

Section Diff3Of.
Context {A : Type} (R : A → A → Prop) (original modified latest : list A).

(** A hunk that starts at the lines [o], [x] and [y]. *)
Definition hunk_ok (o x y : Z) (hunk : svn_diff_t) : Prop :=
  let a := original_length hunk in
  let b := modified_length hunk in
  let c := latest_length hunk in
  match diff_type hunk with
  | svn_diff__type_common =>
      a = b ∧ a = c
      ∧ Forall2 R (slice original o a) (slice modified x b)
      ∧ Forall2 R (slice original o a) (slice latest y c)
  | svn_diff__type_diff_modified =>
      0 < a + b ∧ a = c ∧ Forall2 R (slice original o a) (slice latest y c)
  | svn_diff__type_diff_latest =>
      0 < a + c ∧ a = b ∧ Forall2 R (slice original o a) (slice modified x b)
  | type => 0 < a + b + c ∧ resolution R modified latest x y b c type (resolved_diff hunk)
  end.

(** A diff from the lines [o], [x] and [y] on. *)
Fixpoint diff3_from (o x y : Z) (diff : list svn_diff_t) : Prop :=
  match diff with
  | [] =>
      o = Z.of_nat (length original) ∧ x = Z.of_nat (length modified)
      ∧ y = Z.of_nat (length latest)
  | hunk :: diff =>
      original_start hunk = o ∧ modified_start hunk = x ∧ latest_start hunk = y
      ∧ 0 <= original_length hunk ∧ 0 <= modified_length hunk ∧ 0 <= latest_length hunk
      ∧ hunk_ok o x y hunk
      ∧ diff3_from (o + original_length hunk) (x + modified_length hunk) (y + latest_length hunk) diff
  end.

Definition diff3_of : list svn_diff_t → Prop := diff3_from 0 0 0.
End Diff3Of.

Section SameRelation.
Context {A : Type} (R R' : A → A → Prop) (original modified latest : list A).
Hypothesis HR : ∀ t u, R t u ↔ R' t u.

Lemma Forall2_same l l' : Forall2 R l l' ↔ Forall2 R' l l'.
Proof. split; intros H; (eapply Forall2_impl; [exact H|]); intros t u; apply HR. Qed.

Lemma resolved_from_iff x y x' y' diff :
  resolved_from R modified latest x y x' y' diff → resolved_from R' modified latest x y x' y' diff.
Proof.
  revert x y; induction diff as [|hunk diff IH]; intros x y; [done|]. cbn [resolved_from].
  intros (? & ? & ? & ? & ? & Htype & Hd). do 5 (split; [done|]). split; [|by apply IH].
  destruct (diff_type hunk); try done. by rewrite <- Forall2_same.
Qed.

Lemma diff3_from_iff o x y diff :
  diff3_from R original modified latest o x y diff → diff3_from R' original modified latest o x y diff.
Proof.
  revert o x y; induction diff as [|hunk diff IH]; intros o x y; [done|]. cbn [diff3_from].
  intros (? & ? & ? & ? & ? & ? & Hok & Hd). do 6 (split; [done|]). split; [|by apply IH].
  unfold hunk_ok, resolution in *.
  destruct (diff_type hunk); rewrite <- ?Forall2_same; try done.
  destruct Hok as (? & ? & ? & Hres). do 3 (split; [done|]). intros ??. apply resolved_from_iff. auto.
Qed.
End SameRelation.

(** ** The loop *)

Section Loop.
Context {A : Type} (R : A → A → Prop) (f : A → Z) (original modified latest : list A).
Hypothesis Hf : ∀ t u, t ∈ original ++ modified ++ latest → u ∈ original ++ modified ++ latest →
  f t = f u → R t u.
Hypothesis HR : ∀ t u, R t u → f t = f u.

Context (prefix suffix t0 t1 t2 : list Z) (num : nat).
Hypothesis Horiginal : map f original = prefix ++ t0 ++ suffix.
Hypothesis Hmodified : map f modified = prefix ++ t1 ++ suffix.
Hypothesis Hlatest : map f latest = prefix ++ t2 ++ suffix.
Hypothesis Ht1 : in_range num t1.
Hypothesis Ht2 : in_range num t2.

Abbreviation F0 := (prefix ++ t0 ++ suffix) (only parsing).
Abbreviation F1 := (prefix ++ t1 ++ suffix) (only parsing).
Abbreviation F2 := (prefix ++ t2 ++ suffix) (only parsing).
Abbreviation p := (Z.of_nat (length prefix)) (only parsing).
Abbreviation s := (Z.of_nat (length suffix)) (only parsing).
Abbreviation E0 := (p + 1 + Z.of_nat (length t0)) (only parsing).
Abbreviation E1 := (p + 1 + Z.of_nat (length t1)) (only parsing).
Abbreviation E2 := (p + 1 + Z.of_nat (length t2)) (only parsing).

Lemma file_length (t : list Z) :
  Z.of_nat (length (prefix ++ t ++ suffix)) + 1 = p + 1 + Z.of_nat (length t) + s.
Proof. rewrite !length_app. lia. Qed.

(** The pointer into a file, [x] being the line of the file: it lies at or before
    it, unless the two files have reached their ends. *)
Definition cursor_at (t : list Z) (c : cursor) (o x : Z) : Prop :=
  (∃ i, points t (p + 1) c i ∧ p + 1 + Z.of_nat i <= x)
  ∨ o = E0 ∧ x = p + 1 + Z.of_nat (length t) ∧ ∃ offset, offset_of (cur_file c) (cur_list c) = Ok offset.

Lemma cursor_at_mono t c o x o' x' :
  cursor_at t c o x → o <= o' <= E0 → x <= x' <= p + 1 + Z.of_nat (length t) → cursor_at t c o' x'.
Proof.
  intros [(i & Hi & ?)|(-> & -> & Hoff)] ??; [left; exists i; split; [done|lia]|].
  right. split; [lia|]. split; [lia|done].
Qed.

Lemma cursor_at_offset t c o x :
  cursor_at t c o x → ∃ offset, offset_of (cur_file c) (cur_list c) = Ok offset.
Proof.
  intros [(i & Hi & ?)|(_ & _ & Hoff)]; [|done]. eexists. by apply (points_offset t (p + 1) c i).
Qed.

(** One of the two chains is ahead of the line of the original. *)
Record at_lines (o x y : Z) (om ol : list svn_diff__lcs_t) (list1 list2 : cursor) : Prop := {
  al_o : p + 1 <= o <= E0;
  al_x : p + 1 <= x <= E1;
  al_y : p + 1 <= y <= E2;
  al_om : placed F0 F1 E0 E1 s o x om;
  al_ol : placed F0 F2 E0 E2 s o y ol;
  al_ahead : (∃ node, head om = Some node ∧ o <= lcs_position0 node)
    ∨ ∃ node, head ol = Some node ∧ o <= lcs_position0 node;
  al_list1 : cursor_at t1 list1 o x;
  al_list2 : cursor_at t2 list2 o y;
}.

Lemma advanced_ahead t o x c c' node node' :
  placed F0 (prefix ++ t ++ suffix) E0 (p + 1 + Z.of_nat (length t)) s o x c →
  advanced F0 (prefix ++ t ++ suffix) E0 (p + 1 + Z.of_nat (length t)) s c c' →
  head c = Some node → head c' = Some node' → lcs_position0 node <= lcs_position0 node'.
Proof.
  intros (n & next & -> & _ & _ & Hc & _) Hadv [= <-] Hhead.
  destruct c' as [|n' next']; [done|]. injection Hhead as <-.
  assert (Hc' := advanced_chain _ _ _ _ _ (Nat2Z.is_nonneg _) (file_length t0) (file_length t) _ _ _ _ Hc Hadv).
  by destruct (node_bounds _ _ _ _ _ (Nat2Z.is_nonneg _) (file_length t0) (file_length t) _ _ _ _ Hc') as (? & _).
Qed.

Lemma in_original t : t ∈ original → t ∈ original ++ modified ++ latest.
Proof. rewrite !elem_of_app. tauto. Qed.

Lemma in_modified t : t ∈ modified → t ∈ original ++ modified ++ latest.
Proof. rewrite !elem_of_app. tauto. Qed.

Lemma in_latest t : t ∈ latest → t ∈ original ++ modified ++ latest.
Proof. rewrite !elem_of_app. tauto. Qed.

#[local] Hint Resolve in_original in_modified in_latest : core.

Lemma equal_lines (l l' : list A) a b n :
  (∀ t, t ∈ l → t ∈ original ++ modified ++ latest) →
  (∀ t, t ∈ l' → t ∈ original ++ modified ++ latest) →
  slice (map f l) a n = slice (map f l') b n → Forall2 R (slice l a n) (slice l' b n).
Proof.
  intros Hl Hl' Heq. apply (equal_slices R l l' f 0 0); [|done].
  intros t u Ht Hu. by apply Hf; [apply Hl|apply Hl'].
Qed.

(** ** A round *)

(** What a round says of one of the two files, from the lines [o] and [x] on. *)
Definition half (t : list Z) (o x sync : Z) (node : svn_diff__lcs_t) : Prop :=
  x <= sync_of node sync <= p + 1 + Z.of_nat (length t)
  ∧ (is_changed node o x = false →
     sync_of node sync - x = sync - o
     ∧ slice F0 (o - 1) (sync - o) = slice (prefix ++ t ++ suffix) (x - 1) (sync - o))
  ∧ (is_changed node o x = true →
     0 < (sync - o) + (sync_of node sync - x) ∧ ¬ (o = E0 ∧ x = p + 1 + Z.of_nat (length t))).

Lemma half_round t o x c c' node sync :
  placed F0 (prefix ++ t ++ suffix) E0 (p + 1 + Z.of_nat (length t)) s o x c →
  advanced F0 (prefix ++ t ++ suffix) E0 (p + 1 + Z.of_nat (length t)) s c c' →
  head c' = Some node → lcs_position0 node <= sync <= end0 node → o <= sync <= E0 →
  1 <= o → 1 <= x → half t o x sync node.
Proof.
  intros Hc Hadv Hhead Hsync Ho H1o H1x. destruct c' as [|n next]; [done|]. injection Hhead as ->.
  destruct (half_ok _ _ _ _ _ (Nat2Z.is_nonneg _) (file_length t0) (file_length t)
    o x c (node :: next) node next sync) as (H1 & H2 & H3); [done|done|done|lia..|].
  split; [done|]. split; [done|]. intros Hch. split.
  - unfold is_changed, sync_of in *. lia.
  - intros [-> ->]. by rewrite H3 in Hch.
Qed.

Lemma round_ok o x y om ol list1 list2 sync om' ol' nm nl :
  at_lines o x y om ol list1 list2 →
  synced F0 F1 F2 E0 E1 E2 s om ol sync om' ol' nm nl →
  o <= sync <= E0 ∧ half t1 o x sync nm ∧ half t2 o y sync nl.
Proof.
  intros [Ho Hx Hy Hom Hol Hahead _ _] [Hadvm Hadvl Hnm Hnl Hsm Hsl _ Hend _].
  assert (o <= sync).
  { destruct Hahead as [(node & Hn & ?)|(node & Hn & ?)].
    - pose proof (advanced_ahead _ _ _ _ _ _ _ Hom Hadvm Hn Hnm). lia.
    - pose proof (advanced_ahead _ _ _ _ _ _ _ Hol Hadvl Hn Hnl). lia. }
  split; [done|]. split; eapply half_round; done || lia.
Qed.

(** The hunk for what changed: the rest of the diff starts at the sync point. *)
Lemma changed_hunk_ok o x y sync nm nl list1 list2 :
  p + 1 <= o → p + 1 <= x → p + 1 <= y → o <= sync <= E0 →
  sync = lcs_position0 nm ∨ sync = lcs_position0 nl →
  half t1 o x sync nm → half t2 o y sync nl →
  cursor_at t1 list1 o x → cursor_at t2 list2 o y →
  let ms := sync_of nm sync in
  let ls := sync_of nl sync in
  ∃ changed list1' list2',
    changed_hunk num (is_changed nm o x) (is_changed nl o y) o (sync - o) x (ms - x) y (ls - y)
      list1 list2 = Ok (changed, list1', list2')
    ∧ cursor_at t1 list1' sync ms ∧ cursor_at t2 list2' sync ls
    ∧ ∀ rest, diff3_from R original modified latest (sync - 1) (ms - 1) (ls - 1) rest →
        diff3_from R original modified latest (o - 1) (x - 1) (y - 1) (changed ++ rest).
Proof.
  intros Ho Hx Hy Hsync Hstart (Hms & Hm0 & Hm1) (Hls & Hl0 & Hl1) Hc1 Hc2 ms ls.
  fold ms in Hms, Hm0, Hm1. fold ls in Hls, Hl0, Hl1.
  assert (cursor_at t1 list1 sync ms) as Hc1' by (eapply cursor_at_mono; done || lia).
  assert (cursor_at t2 list2 sync ls) as Hc2' by (eapply cursor_at_mono; done || lia).
  assert (∀ hunk rest, original_start hunk = o - 1 → modified_start hunk = x - 1 →
    latest_start hunk = y - 1 → original_length hunk = sync - o → modified_length hunk = ms - x →
    latest_length hunk = ls - y → hunk_ok R original modified latest (o - 1) (x - 1) (y - 1) hunk →
    diff3_from R original modified latest (sync - 1) (ms - 1) (ls - 1) rest →
    diff3_from R original modified latest (o - 1) (x - 1) (y - 1) (hunk :: rest)) as Hcons.
  { intros hunk rest H1 H2 H3 H4 H5 H6 Hok Hrest. cbn [diff3_from]. rewrite H1, H2, H3, H4, H5, H6.
    do 3 (split; [done|]). do 3 (split; [lia|]). split; [done|].
    by replace (o - 1 + (sync - o)) with (sync - 1) by lia;
      replace (x - 1 + (ms - x)) with (ms - 1) by lia; replace (y - 1 + (ls - y)) with (ls - 1) by lia. }
  rewrite <- Horiginal in Hm0, Hl0. rewrite <- Hmodified in Hm0. rewrite <- Hlatest in Hl0.
  unfold changed_hunk. destruct (is_changed nm o x) eqn:Hchm; cbn [andb];
    destruct (is_changed nl o y) eqn:Hchl.
  - destruct (Hm1 eq_refl) as [Hpos Hnot1], (Hl1 eq_refl) as [_ Hnot2].
    destruct Hc1 as [(i1 & Hp1 & Hi1)|(? & ? & _)]; [|tauto].
    destruct Hc2 as [(i2 & Hp2 & Hi2)|(? & ? & _)]; [|tauto].
    set (hunk := MkDiff _ _ _ _ _ _ _ _).
    destruct (svn_diff__resolve_conflict_ok R f modified latest
      (λ t u Ht Hu, Hf t u (in_modified t Ht) (in_latest u Hu)) HR prefix t1 suffix prefix t2 suffix num Hmodified Hlatest
      Ht1 Ht2 hunk list1 list2 i1 i2 (Z.to_nat (x - (p + 1))) (Z.to_nat (y - (p + 1)))
      (Z.to_nat (ms - x)) (Z.to_nat (ls - y)))
      as (type & resolved & list1' & list2' & -> & Hp1' & Hp2' & Hres);
      [done|done|simpl; lia..|].
    cbn [rbind]. eexists _, list1', list2'. split; [done|].
    split; [left; eexists; split; [done|lia]|]. split; [left; eexists; split; [done|lia]|].
    intros rest. rewrite !Z2Nat.id in Hres by lia.
    apply Hcons; try done. unfold hunk_ok. cbn [set_resolved original_length modified_length
      latest_length diff_type resolved_diff].
    assert (0 < sync - o + (ms - x) + (ls - y)) by lia. destruct type; try done.
  - destruct (Hl0 eq_refl) as [Hlen Hsl]. eexists _, list1, list2. split; [done|]. do 2 (split; [done|]).
    intros rest. apply Hcons; try done. unfold hunk_ok. cbn [diff_type original_length modified_length latest_length].
    destruct (Hm1 eq_refl) as [Hpos _]. split; [lia|]. split; [lia|]. rewrite Hlen.
    apply equal_lines; auto.
  - destruct (Hm0 eq_refl) as [Hlen Hsl]. eexists _, list1, list2. split; [done|]. do 2 (split; [done|]).
    intros rest. apply Hcons; try done. unfold hunk_ok. cbn [diff_type original_length modified_length latest_length].
    destruct (Hl1 eq_refl) as [Hpos _]. split; [lia|]. split; [lia|]. rewrite Hlen.
    apply equal_lines; auto.
  - destruct (Hm0 eq_refl) as [Hlen Hsl], (Hl0 eq_refl) as [Hlen' Hsl'].
    eexists [], list1, list2. split; [done|]. do 2 (split; [done|]). intros rest.
    assert (sync = o) by (unfold is_changed in *; lia).
    by replace o with sync by lia; replace x with ms by lia; replace y with ls by lia.
Qed.

(** The pointer after the round. *)
Lemma record_start_ok t c node next sync :
  chain F0 (prefix ++ t ++ suffix) E0 (p + 1 + Z.of_nat (length t)) s
    (lcs_position0 node) (lcs_position1 node) (node :: next) →
  cursor_at t c sync (sync_of node sync) → lcs_position0 node <= sync <= E0 → 0 < lcs_length node →
  ∃ c', record_start c node = Ok c' ∧ cursor_at t c' sync (sync_of node sync).
Proof.
  intros Hc Hcur Hsync Hlen. unfold record_start.
  destruct (cursor_at_offset _ _ _ _ Hcur) as [offset Hoff]. rewrite Hoff. cbn [rbind].
  eexists. split; [done|]. destruct (Z.ltb_spec offset (lcs_position1 node)) as [Hlt|]; [|done].
  destruct (chain_node _ _ _ _ _ (Nat2Z.is_nonneg _) (file_length t0) (file_length t) _ _ _ Hc)
    as (? & ? & [= <- <-] & H0 & H1 & _ & Hnode).
  assert (lcs_position1 node <= sync_of node sync) by (unfold sync_of; lia).
  destruct Hcur as [(i & Hi & Hix)|(-> & Hx & _)].
  - assert (Hoff' := points_offset t (p + 1) c i Hi). rewrite Hoff in Hoff'. injection Hoff' as ->.
    destruct Hi as (Hl & _ & Hle). unfold lcs_pointer. rewrite (ln_offset _ _ _ _ Hl), (ln_tokens _ _ _ _ Hl).
    destruct Hnode as [[(_ & _ & He) _]|[-> _]]; cbn [lcs_position0 lcs_position1 lcs_length] in *.
    + if_true by lia. left. exists (Z.to_nat (lcs_position1 node - (p + 1))). split; [|lia].
      split; [|split; [|lia]]; cbn [cur_file cur_list].
      * eapply linked_mono; [done|lia].
      * by rewrite ptr_at_real by lia.
    + if_false by lia. right. unfold sync_of. cbn [lcs_position0 lcs_position1].
      split; [lia|]. split; [lia|]. by eexists.
  - right. split; [done|]. split; [done|]. cbn [cur_file cur_list]. unfold lcs_pointer.
    case_if; [|by eexists]. by eexists.
Qed.

(** ** The end *)

(** Both chains have come to their last nodes. *)
Lemma diff3_loop_end fuel list1 list2 :
  diff3_loop fuel num [MkLcs (E0 + s) (E1 + s) 0] [MkLcs (E0 + s) (E2 + s) 0]
    (E0 + s) (E1 + s) (E2 + s) list1 list2 = Ok [].
Proof.
  assert (∀ l o x : Z, is_changed (MkLcs o x l) o x = false) as Hch.
  { intros. unfold is_changed. cbn [lcs_position0 lcs_position1]. rewrite !Z.sub_diag. done. }
  destruct fuel; cbn [diff3_loop find_sync length Nat.add]; unfold lcs_node;
    cbn [head from_option rbind lcs_position0 lcs_length]; rewrite Z.ltb_irrefl;
    cbn [skip_before lcs_position0 lcs_length]; rewrite Z.add_0_r, Z.ltb_irrefl; cbn [rbind skip_at_eof];
    unfold skip_at_eof, lcs_node; cbn [head from_option rbind lcs_length Z.eqb Z.ltb Z.compare andb];
    cbn [head from_option rbind lcs_position0]; rewrite Z.leb_refl; cbn [rbind head from_option];
    rewrite !Hch; done.
Qed.

(** ** From one round to the next *)

(** The common lines after the sync point. *)
Lemma common_hunk_ok t l sync common node next :
  map f l = prefix ++ t ++ suffix → (∀ u, u ∈ l → u ∈ original ++ modified ++ latest) →
  chain F0 (prefix ++ t ++ suffix) E0 (p + 1 + Z.of_nat (length t)) s
    (lcs_position0 node) (lcs_position1 node) (node :: next) →
  1 <= lcs_position0 node → 1 <= lcs_position1 node → lcs_position0 node <= sync → 0 <= common →
  sync + common <= end0 node →
  Forall2 R (slice original (sync - 1) common) (slice l (sync_of node sync - 1) common).
Proof.
  intros Hl Hin Hc H0 H1 Hsync Hcommon Hend. apply equal_lines; [auto|done|].
  rewrite Horiginal, Hl.
  pose proof (node_slices _ _ _ _ _ node next
    (sync - lcs_position0 node) common Hc H0 H1) as Hsl.
  replace (lcs_position0 node - 1 + (sync - lcs_position0 node)) with (sync - 1) in Hsl by lia.
  replace (lcs_position1 node - 1 + (sync - lcs_position0 node)) with (sync_of node sync - 1) in Hsl
    by (unfold sync_of; lia).
  apply Hsl; lia.
Qed.

Lemma placed_advanced t o x c c' :
  placed F0 (prefix ++ t ++ suffix) E0 (p + 1 + Z.of_nat (length t)) s o x c →
  advanced F0 (prefix ++ t ++ suffix) E0 (p + 1 + Z.of_nat (length t)) s c c' →
  ∃ node next, c' = node :: next
    ∧ chain F0 (prefix ++ t ++ suffix) E0 (p + 1 + Z.of_nat (length t)) s
        (lcs_position0 node) (lcs_position1 node) c'
    ∧ 1 <= lcs_position0 node ∧ 1 <= lcs_position1 node.
Proof.
  intros (n & next & -> & H0 & H1 & Hc & _) Hadv.
  assert (Hc' := advanced_chain _ _ _ _ _ (Nat2Z.is_nonneg _) (file_length t0) (file_length t) _ _ _ _ Hc Hadv).
  destruct (chain_node _ _ _ _ _ (Nat2Z.is_nonneg _) (file_length t0) (file_length t) _ _ _ Hc')
    as (node & next' & -> & ? & ? & Hcn & _).
  exists node, next'. split; [done|]. split; [done|]. lia.
Qed.

(** One chain after the common lines. *)
Lemma half_next t c node next sync common o :
  chain F0 (prefix ++ t ++ suffix) E0 (p + 1 + Z.of_nat (length t)) s
    (lcs_position0 node) (lcs_position1 node) (node :: next) →
  1 <= lcs_position0 node → 1 <= lcs_position1 node → 0 < lcs_length node →
  p + 1 <= o <= sync → p + 1 <= sync_of node sync →
  lcs_position0 node <= sync → 0 <= common → sync + common <= end0 node → sync + common <= E0 →
  cursor_at t c sync (sync_of node sync) →
  ∃ c' chain',
    record_start c node = Ok c' ∧ skip_done (node :: next) (sync + common) = Ok chain'
    ∧ cursor_at t c' (sync + common) (sync_of node sync + common)
    ∧ placed F0 (prefix ++ t ++ suffix) E0 (p + 1 + Z.of_nat (length t)) s
        (sync + common) (sync_of node sync + common) chain'
    ∧ sync_of node sync + common <= p + 1 + Z.of_nat (length t)
    ∧ (length chain' <= length (node :: next))%nat
    ∧ (sync + common = end0 node →
       (length chain' < length (node :: next))%nat
       ∧ ∃ n, head chain' = Some n ∧ sync + common <= lcs_position0 n).
Proof.
  intros Hc H0 H1 Hlen Ho Hx Hsync Hcommon Hend HE Hcur.
  destruct (record_start_ok t c node next sync Hc Hcur) as (c' & Hrec & Hcur'); [lia|done|].
  destruct (skip_done_ok _ _ _ _ _ (Nat2Z.is_nonneg _) (file_length t0) (file_length t)
    node next sync common Hc) as (chain' & Hskip & Hplaced & Hle & Hlt); [done..|].
  destruct (chain_node _ _ _ _ _ (Nat2Z.is_nonneg _) (file_length t0) (file_length t) _ _ _ Hc)
    as (? & ? & [= <- <-] & _ & _ & _ & Hnode).
  assert (sync_of node sync + common <= p + 1 + Z.of_nat (length t)) as HE1.
  { destruct Hnode as [[(? & ? & ?) _]|[-> _]]; unfold sync_of in *; simpl in *; lia. }
  exists c', chain'. do 2 (split; [done|]). split; [eapply cursor_at_mono; [done|lia..]|].
  do 3 (split; [done|]). intros He. destruct (Hlt He) as [Hl Hn]. split; [done|].
  destruct Hplaced as (n & nx & Hch & _). exists n. rewrite Hch. split; [done|]. by eapply Hn.
Qed.

(** At the ends of the files. *)
Lemma diff3_from_end :
  diff3_from R original modified latest (E0 + s - 1) (E1 + s - 1) (E2 + s - 1) [].
Proof.
  pose proof (f_equal length Horiginal) as Ho. pose proof (f_equal length Hmodified) as Hx.
  pose proof (f_equal length Hlatest) as Hy. rewrite length_map, !length_app in Ho, Hx, Hy.
  cbn [diff3_from]. lia.
Qed.

(** The common hunk of a round. *)
Lemma diff3_from_common sync common nm nextm nl nextl rest :
  chain F0 F1 E0 E1 s (lcs_position0 nm) (lcs_position1 nm) (nm :: nextm) →
  chain F0 F2 E0 E2 s (lcs_position0 nl) (lcs_position1 nl) (nl :: nextl) →
  1 <= lcs_position0 nm → 1 <= lcs_position1 nm → 1 <= lcs_position0 nl → 1 <= lcs_position1 nl →
  lcs_position0 nm <= sync → lcs_position0 nl <= sync → 0 <= common →
  sync + common <= end0 nm → sync + common <= end0 nl →
  let ms := sync_of nm sync in
  let ls := sync_of nl sync in
  diff3_from R original modified latest (sync + common - 1) (ms + common - 1) (ls + common - 1) rest →
  diff3_from R original modified latest (sync - 1) (ms - 1) (ls - 1)
    (MkDiff svn_diff__type_common (sync - 1) common (ms - 1) common (ls - 1) common [] :: rest).
Proof.
  intros Hcm Hcl Hm0 Hm1 Hl0 Hl1 Hsm Hsl Hcommon Hem Hel ms ls Hrest.
  cbn [diff3_from original_start modified_start latest_start original_length modified_length latest_length].
  do 3 (split; [done|]). do 3 (split; [done|]). split.
  - do 2 (split; [done|]). cbn [original_length modified_length latest_length].
    split; [apply (common_hunk_ok t1 modified sync common nm nextm)|
            apply (common_hunk_ok t2 latest sync common nl nextl)]; done || auto.
  - by replace (sync - 1 + common) with (sync + common - 1) by lia;
      replace (ms - 1 + common) with (ms + common - 1) by lia;
      replace (ls - 1 + common) with (ls + common - 1) by lia.
Qed.

(** One chain when the common lines go on to the ends of the files. *)
Lemma half_last t c node next sync common o x :
  chain F0 (prefix ++ t ++ suffix) E0 (p + 1 + Z.of_nat (length t)) s
    (lcs_position0 node) (lcs_position1 node) (node :: next) →
  lcs_position0 node <= sync <= E0 → E0 < sync + common <= end0 node → cursor_at t c o x →
  node = MkLcs E0 (p + 1 + Z.of_nat (length t)) s ∧ sync = E0
  ∧ ∃ c', record_start c node = Ok c'
    ∧ (sync + common = E0 + s →
       skip_done (node :: next) (sync + common) = Ok [MkLcs (E0 + s) (p + 1 + Z.of_nat (length t) + s) 0]).
Proof.
  intros Hc Hsync Hend Hcur.
  destruct (chain_node _ _ _ _ _ (Nat2Z.is_nonneg _) (file_length t0) (file_length t) _ _ _ Hc)
    as (? & ? & [= <- <-] & _ & _ & Hcn & Hnode).
  destruct Hnode as [[(? & ? & ?) _]|[-> _]]; [lia|]. cbn [lcs_position0 lcs_length] in *.
  split; [done|]. split; [lia|]. destruct (cursor_at_offset _ _ _ _ Hcur) as [offset Hoff].
  eexists. split; [unfold record_start; by rewrite Hoff|]. intros ->.
  eapply (skip_done_closing _ _ _ _ _ (Nat2Z.is_nonneg _) (file_length t0) (file_length t));
    [exact Hcn|lia].
Qed.

Lemma diff3_loop_ok fuel o x y om ol list1 list2 :
  at_lines o x y om ol list1 list2 → (length om + length ol <= fuel)%nat →
  ∃ diff, diff3_loop fuel num om ol o x y list1 list2 = Ok diff
    ∧ diff3_from R original modified latest (o - 1) (x - 1) (y - 1) diff.
Proof.
  revert o x y om ol list1 list2; induction fuel as [|fuel IH]; intros o x y om ol list1 list2 Hat Hfuel.
  { destruct (al_om _ _ _ _ _ _ _ Hat) as (? & ? & -> & _). simpl in Hfuel. lia. }
  destruct (al_om _ _ _ _ _ _ _ Hat) as (m & xm & Hom & _ & _ & Hcm & _).
  destruct (al_ol _ _ _ _ _ _ _ Hat) as (l & xl & Hol & _ & _ & Hcl & _).
  destruct (find_sync_ok F0 F1 F2 E0 E1 E2 s (Nat2Z.is_nonneg _) (file_length t0) (file_length t1)
    (file_length t2) (length om + length ol) om ol _ _ _ _ Hcm Hcl)
    as (sync & om' & ol' & nm & nl & Hfind & Hsy); [done|].
  destruct (round_ok _ _ _ _ _ _ _ _ _ _ _ _ Hat Hsy) as (Hsync & Hhm & Hhl).
  destruct (placed_advanced _ _ _ _ _ (al_om _ _ _ _ _ _ _ Hat) (sy_om _ _ _ _ _ _ _ _ _ _ _ _ _ _ Hsy))
    as (nm' & nextm & -> & Hcm' & Hm0 & Hm1).
  destruct (placed_advanced _ _ _ _ _ (al_ol _ _ _ _ _ _ _ Hat) (sy_ol _ _ _ _ _ _ _ _ _ _ _ _ _ _ Hsy))
    as (nl' & nextl & -> & Hcl' & Hl0 & Hl1).
  pose proof (advanced_length _ _ _ _ _ _ _ (sy_om _ _ _ _ _ _ _ _ _ _ _ _ _ _ Hsy)) as Hlm.
  pose proof (advanced_length _ _ _ _ _ _ _ (sy_ol _ _ _ _ _ _ _ _ _ _ _ _ _ _ Hsy)) as Hll.
  destruct Hsy as [_ _ [= ->] [= ->] Hsm Hsl Hstart Hend Heof].
  destruct Hat as [Ho Hx Hy _ _ _ Hc1 Hc2].
  destruct (changed_hunk_ok o x y sync nm nl list1 list2)
    as (changed & list1' & list2' & Hchanged & Hc1' & Hc2' & Hrest); [lia|lia|lia|done..|].
  cbn [diff3_loop]. rewrite Hfind. cbn [rbind]. unfold lcs_node. cbn [head from_option rbind].
  rewrite Hchanged. cbn [rbind].
  destruct (_ || _) eqn:Hzero.
  { apply orb_prop in Hzero as Hz. rewrite !Z.eqb_eq in Hz. destruct (Heof Hz) as (Hs & He & Hms & Hls).
    exists changed. split; [done|]. rewrite <- (app_nil_r changed). apply Hrest.
    rewrite Hms, Hls, He. pose proof diff3_from_end as Hd. by rewrite Hs, !Z.add_0_r in Hd. }
  apply orb_false_iff in Hzero as [Hzm%Z.eqb_neq Hzl%Z.eqb_neq].
  destruct (node_bounds _ _ _ _ _ (Nat2Z.is_nonneg _) (file_length t0) (file_length t1) _ _ _ _ Hcm')
    as (_ & _ & Hbm & _ & Hpm).
  destruct (node_bounds _ _ _ _ _ (Nat2Z.is_nonneg _) (file_length t0) (file_length t2) _ _ _ _ Hcl')
    as (_ & _ & Hbl & _ & Hpl).
  set (common := Z.min _ _).
  assert (0 <= common ∧ sync + common <= end0 nm ∧ sync + common <= end0 nl
    ∧ (sync + common = end0 nm ∨ sync + common = end0 nl)) as (Hcommon & Hem & Hel & Hor) by lia.
  clearbody common.
  assert (∀ rest, diff3_from R original modified latest (sync + common - 1)
      (sync_of nm sync + common - 1) (sync_of nl sync + common - 1) rest →
    diff3_from R original modified latest (o - 1) (x - 1) (y - 1)
      (changed ++ MkDiff svn_diff__type_common (sync - 1) common (sync_of nm sync - 1) common
         (sync_of nl sync - 1) common [] :: rest)) as Hnext.
  { intros rest Hd. apply Hrest. apply (diff3_from_common sync common nm nextm nl nextl); done || lia. }
  destruct Hhm as [Hxm _], Hhl as [Hyl _].
  destruct (Z.le_gt_cases (sync + common) E0) as [Hle|Hgt].
  - destruct (half_next t1 list1' nm nextm sync common o) as
      (list1'' & om'' & -> & Hskm & Hc1'' & Hplm & Hxm' & Hlm' & Hltm); [done|lia..|done|].
    destruct (half_next t2 list2' nl nextl sync common o) as
      (list2'' & ol'' & -> & Hskl & Hc2'' & Hpll & Hyl' & Hll' & Hltl); [done|lia..|done|].
    cbn [rbind]. rewrite Hskm, Hskl. cbn [rbind].
    destruct (IH (sync + common) (sync_of nm sync + common) (sync_of nl sync + common) om'' ol''
      list1'' list2'') as (rest & -> & Hd).
    + split; try done; try lia. destruct Hor as [Hor|Hor].
      * left. by apply Hltm.
      * right. by apply Hltl.
    + destruct Hor as [Hor|Hor]; [apply Hltm in Hor as [? _]|apply Hltl in Hor as [? _]]; lia.
    + cbn [rbind]. eexists. split; [done|]. by apply Hnext.
  - destruct (half_last t1 list1' nm nextm sync common sync (sync_of nm sync) Hcm') as (-> & He & list1'' & -> & Hskm);
      [lia|lia|done|].
    destruct (half_last t2 list2' nl nextl sync common sync (sync_of nl sync) Hcl') as (-> & _ & list2'' & -> & Hskl);
      [lia|lia|done|].
    cbn [lcs_position0 lcs_position1 lcs_length] in *.
    assert (sync + common = E0 + s) as Hlast by lia.
    cbn [rbind]. rewrite Hskm, Hskl by done. cbn [rbind]. unfold sync_of in *.
    cbn [lcs_position0 lcs_position1] in *.
    replace (E1 + (sync - E0) + common) with (E1 + s) in * by lia.
    replace (E2 + (sync - E0) + common) with (E2 + s) in * by lia.
    rewrite Hlast in *. rewrite diff3_loop_end. cbn [rbind]. eexists. split; [done|].
    apply Hnext, diff3_from_end.
Qed.

(** ** The start *)

Lemma at_start om ol list1 list2 :
  chain F0 F1 E0 E1 s (p + 1) (p + 1) om → chain F0 F2 E0 E2 s (p + 1) (p + 1) ol →
  points t1 (p + 1) list1 0 → points t2 (p + 1) list2 0 →
  at_lines (p + 1) (p + 1) (p + 1) om ol list1 list2.
Proof.
  intros Hom Hol H1 H2.
  destruct (chain_node _ _ _ _ _ (Nat2Z.is_nonneg _) (file_length t0) (file_length t1) _ _ _ Hom)
    as (m & nextm & -> & Hm0 & Hm1 & Hcm & _).
  destruct (chain_node _ _ _ _ _ (Nat2Z.is_nonneg _) (file_length t0) (file_length t2) _ _ _ Hol)
    as (l & nextl & -> & Hl0 & Hl1 & Hcl & _).
  split; [lia..| | | | |].
  - exists m, nextm. split; [done|]. split; [lia|]. split; [lia|]. split; [done|]. left. lia.
  - exists l, nextl. split; [done|]. split; [lia|]. split; [lia|]. split; [done|]. left. lia.
  - left. by exists m.
  - left. exists 0%nat. split; [done|lia].
  - left. exists 0%nat. split; [done|lia].
Qed.

(** The node of the prefix is skipped. *)
Lemma skip_prefix t c :
  chain F0 (prefix ++ t ++ suffix) E0 (p + 1 + Z.of_nat (length t)) s (p + 1) (p + 1) c → 0 < p →
  skip_done (MkLcs 1 1 p :: c) (1 + p) = Ok c.
Proof.
  intros Hc Hp.
  destruct (chain_node _ _ _ _ _ (Nat2Z.is_nonneg _) (file_length t0) (file_length t) _ _ _ Hc)
    as (node & next & -> & H0 & _).
  cbn [skip_done lcs_position0 lcs_length]. rewrite Z.leb_refl, (proj2 (Z.ltb_lt 0 p)) by done.
  cbn [andb]. destruct (Z.ltb_spec 0 (lcs_length node)); [|by rewrite andb_false_r].
  by if_false by lia.
Qed.

Lemma record_start_prefix t list_ :
  points t (p + 1) list_ 0 → record_start list_ (MkLcs 1 1 p) = Ok list_.
Proof.
  intros Hl. unfold record_start. rewrite (points_offset _ _ _ _ Hl). cbn [rbind lcs_position1].
  by if_false by lia.
Qed.

(** The first round, over the prefix. *)
Lemma diff3_loop_prefix om ol list1 list2 :
  p ≠ 0 →
  chain F0 F1 E0 E1 s (p + 1) (p + 1) om → chain F0 F2 E0 E2 s (p + 1) (p + 1) ol →
  points t1 (p + 1) list1 0 → points t2 (p + 1) list2 0 →
  diff3_loop (S (length om + S (length ol))) num (MkLcs 1 1 p :: om) (MkLcs 1 1 p :: ol) 1 1 1
    list1 list2
  = let! rest := diff3_loop (length om + S (length ol)) num om ol (p + 1) (p + 1) (p + 1) list1 list2 in
    Ok (MkDiff svn_diff__type_common 0 p 0 p 0 p [] :: rest).
Proof.
  intros Hp Hom Hol H1 H2. set (fuel := (length om + S (length ol))%nat).
  assert (∀ n, find_sync n (MkLcs 1 1 p :: om) (MkLcs 1 1 p :: ol)
    = Ok (1, MkLcs 1 1 p :: om, MkLcs 1 1 p :: ol)) as Hfind.
  { intros n. destruct n; cbn [find_sync]; unfold lcs_node, skip_at_eof;
      cbn [head from_option rbind lcs_position0 Z.ltb Z.compare Pos.compare Pos.compare_cont skip_before
           lcs_length]; (if_false by lia); unfold lcs_node;
      cbn [rbind head from_option lcs_length]; (if_false by lia); done. }
  cbn [diff3_loop]. rewrite Hfind. cbn [rbind]. unfold lcs_node. cbn [head from_option rbind].
  change (is_changed (MkLcs 1 1 p) 1 1) with false. change (sync_of (MkLcs 1 1 p) 1) with 1.
  unfold changed_hunk. cbn [andb rbind lcs_length lcs_position0].
  rewrite (proj2 (Z.eqb_neq p 0)) by done. cbn [orb]. change (1 - 1) with 0. rewrite Z.sub_0_r, Z.min_id.
  rewrite (record_start_prefix t1), (record_start_prefix t2) by done. cbn [rbind].
  rewrite (skip_prefix t1), (skip_prefix t2) by (done || lia). cbn [rbind app].
  by rewrite (Z.add_comm 1 p).
Qed.

Lemma diff3_loop_start om ol list1 list2 :
  chain F0 F1 E0 E1 s (p + 1) (p + 1) om → chain F0 F2 E0 E2 s (p + 1) (p + 1) ol →
  points t1 (p + 1) list1 0 → points t2 (p + 1) list2 0 →
  let pre := if p =? 0 then [] else [MkLcs 1 1 p] in
  ∃ diff,
    diff3_loop (length (pre ++ om) + length (pre ++ ol)) num (pre ++ om) (pre ++ ol) 1 1 1 list1 list2
    = Ok diff
    ∧ diff3_of R original modified latest diff.
Proof.
  intros Hom Hol H1 H2 pre. pose proof (at_start om ol list1 list2 Hom Hol H1 H2) as Hat.
  unfold pre. destruct (Z.eqb_spec p 0) as [Hp|Hp]; cbn [app].
  { rewrite Hp in Hat. destruct (diff3_loop_ok _ _ _ _ _ _ _ _ Hat (Nat.le_refl _)) as (diff & Heq & Hd).
    by exists diff. }
  cbn [length]. rewrite Nat.add_succ_l, diff3_loop_prefix by done.
  destruct (diff3_loop_ok (length om + S (length ol)) _ _ _ _ _ _ _ Hat) as (rest & -> & Hd); [lia|].
  cbn [rbind]. eexists. split; [done|]. rewrite !Z.add_simpl_r in Hd.
  unfold diff3_of. cbn [diff3_from original_start modified_start latest_start original_length
    modified_length latest_length]. do 3 (split; [done|]). do 3 (split; [lia|]). split; [|done].
  assert (∀ t, slice (prefix ++ t ++ suffix) 0 p = prefix) as Hpre.
  { intros t. unfold slice. rewrite Nat2Z.id. cbn [Z.to_nat]. by rewrite drop_0, take_app_length. }
  do 2 (split; [done|]). cbn [original_length modified_length latest_length].
  split; apply equal_lines; auto; by rewrite Horiginal, ?Hmodified, ?Hlatest, !Hpre.
Qed.
End Loop.

Lemma start_positions_ok (t : list Z) prefix_lines :
  let '(file, p) := start_positions (ring_of t (prefix_lines + 1)) prefix_lines in
  points t (prefix_lines + 1) (MkCursor file p) 0.
Proof.
  destruct t as [|x t]; cbn [ring_of start_positions].
  { split; [|by split]. split; try done; cbn [cur_file sentinel_offset length]; [lia|intros; lia]. }
  split; [|split; [done|lia]]. cbn [cur_file ring_tokens ring_offset].
  split; try done; cbn [p_next].
  - rewrite length_app, length_map, length_seq. simpl. lia.
  - intros k Hk. cbn [length] in *. rewrite Nat.sub_succ, Nat.sub_0_r. unfold ptr_at.
    destruct (decide (k < length t)%nat).
    + rewrite lookup_app_l by (rewrite length_map, length_seq; lia).
      rewrite list_lookup_fmap, lookup_seq_lt by lia. simpl. by if_true by lia.
    + assert (k = length t) as -> by lia.
      rewrite lookup_app_r by (rewrite length_map, length_seq; lia).
      rewrite length_map, length_seq, Nat.sub_diag. cbn [lookup list_lookup length].
      by rewrite Nat.ltb_irrefl.
Qed.
