(* ===== verification/Diff3Theorems.v ===== *)
(** * Three-way diffs: equal files, and whole files

    When both files made the same change, or one of them made none, the diff has
    no conflicts.

    When the latest file equals the original, no hunk is a change of the latest
    file, and the same holds for the modified file.

    [svn_diff_diff3_2] from the datasources to the diff. *)
From S2P Require Import Prelude DiffLcs DiffLcsRounds DiffLcsCorrect DiffTokens DiffTokensCorrect Diff DiffCorrect Diff3 Diff3Chain Diff3Conflict Diff3Correct.

(** ** The same change in both files *)

(** What the walk of two equal chains yields. *)
Definition twin (hunk : svn_diff_t) : Prop :=
  modified_start hunk = latest_start hunk ∧ modified_length hunk = latest_length hunk
  ∧ diff_type hunk ≠ svn_diff__type_diff_modified ∧ diff_type hunk ≠ svn_diff__type_diff_latest.

Lemma resolve_conflict_type hunk list1 list2 num hunk' list1' list2' :
  svn_diff__resolve_conflict hunk list1 list2 num = Ok (hunk', list1', list2') →
  ∃ type resolved, hunk' = set_resolved hunk type resolved
    ∧ (type = svn_diff__type_diff_common ∨ type = svn_diff__type_conflict).
Proof.
  unfold svn_diff__resolve_conflict. intros Hres.
  repeat match goal with
  | H : rbind ?r _ = Ok _ |- _ => destruct r; cbn [rbind] in H; try discriminate H
  | H : (let '(_, _) := ?x in _) = Ok _ |- _ => destruct x
  | H : (if ?b then _ else _) = Ok _ |- _ => destruct b
  | H : match ?l with _ => _ end = Ok _ |- _ => destruct l; try discriminate H
  | H : Ok _ = Ok _ |- _ => injection H as <- _ _; eauto
  end.
Qed.

Lemma find_sync_same n node next :
  0 <= lcs_length node →
  find_sync n (node :: next) (node :: next) = Ok (lcs_position0 node, node :: next, node :: next).
Proof.
  intros Hlen. destruct n; cbn [find_sync]; unfold lcs_node, skip_at_eof; cbn [head from_option rbind];
    rewrite Z.ltb_irrefl; cbn [skip_before rbind]; (if_false by lia); unfold lcs_node;
    cbn [rbind head from_option];
    (rewrite (proj2 (andb_false_iff _ _)) by (destruct (Z.eqb_spec (lcs_length node) 0); lia));
    cbn [andb rbind head from_option]; by rewrite Z.leb_refl.
Qed.

Lemma skip_done_lengths c o c' :
  Forall (λ node, 0 <= lcs_length node) c → skip_done c o = Ok c' →
  Forall (λ node, 0 <= lcs_length node) c'.
Proof.
  induction c as [|node c IH]; [done|]. intros Hc. cbn [skip_done]. case_if; [|by intros [= <-]].
  apply IH. by inversion Hc.
Qed.

Lemma changed_hunk_same num b o a x len list1 list2 changed list1' list2' :
  changed_hunk num b b o a x len x len list1 list2 = Ok (changed, list1', list2') → Forall twin changed.
Proof.
  unfold changed_hunk. destruct b; cbn [andb]; [|by intros [= <- _ _]].
  destruct (svn_diff__resolve_conflict _ _ _ _) as [[[hunk l1] l2]| | | |] eqn:Hres; try done.
  cbn [rbind]. intros [= <- _ _]. constructor; [|done].
  destruct (resolve_conflict_type _ _ _ _ _ _ _ Hres) as (type & resolved & -> & Htype).
  split; [done|]. split; [done|]. cbn [set_resolved diff_type]. by destruct Htype as [->| ->].
Qed.

Lemma diff3_loop_same fuel num c o x list1 list2 diff :
  Forall (λ node, 0 <= lcs_length node) c →
  diff3_loop fuel num c c o x x list1 list2 = Ok diff → Forall twin diff.
Proof.
  revert c o x list1 list2 diff; induction fuel as [|fuel IH];
    intros [|node next] o x list1 list2 diff Hc; try done;
    cbn [diff3_loop]; rewrite find_sync_same by (by inversion Hc); cbn [rbind]; unfold lcs_node;
    cbn [head from_option rbind];
    (destruct (changed_hunk _ _ _ _ _ _ _ _ _ _ _) as [[[changed l1] l2]| | | |] eqn:Hchanged; try done);
    apply changed_hunk_same in Hchanged; cbn [rbind]; rewrite orb_diag;
    (destruct (lcs_length node =? 0); [by intros [= <-]|]); [done|].
  destruct (record_start l1 node); try done. destruct (record_start l2 node); try done. cbn [rbind].
  destruct (skip_done (node :: next) _) as [c'| | | |] eqn:Hskip; try done. cbn [rbind].
  destruct (diff3_loop fuel _ _ _ _ _ _ _ _) as [rest| | | |] eqn:Hrest; try done. cbn [rbind].
  intros [= <-]. apply Forall_app. split; [done|]. constructor; [by repeat split|].
  apply (IH _ _ _ _ _ _ (skip_done_lengths _ _ _ Hc Hskip) Hrest).
Qed.

(** A diff of equal files and an original has no conflicts. *)
Lemma twins_agree {A} (R : A → A → Prop) original modified latest o x diff :
  Forall2 R modified latest → diff3_from R original modified latest o x x diff → Forall twin diff →
  svn_diff_contains_conflicts diff = false
  ∧ Forall (λ hunk, diff_type hunk = svn_diff__type_common
                    ∨ diff_type hunk = svn_diff__type_diff_common) diff.
Proof.
  intros Hsame. revert o x; induction diff as [|hunk diff IH]; intros o x; [done|]. cbn [diff3_from].
  intros (_ & Hx & Hy & _ & _ & _ & Hok & Hd) [(_ & Hlen & Hne1 & Hne2) Htwins]%Forall_cons.
  rewrite <- Hlen in Hd. destruct (IH _ _ Hd Htwins) as [Hno Htypes].
  assert (diff_type hunk = svn_diff__type_common ∨ diff_type hunk = svn_diff__type_diff_common) as Htype.
  { unfold hunk_ok, resolution in Hok. destruct (diff_type hunk); try tauto.
    destruct Hok as (_ & Hdiffer & _). exfalso. apply Hdiffer. rewrite <- Hlen. unfold slice.
    by apply Forall2_take, Forall2_drop. }
  split; [|by constructor]. unfold svn_diff_contains_conflicts in *. cbn [existsb]. rewrite Hno.
  by destruct Htype as [->| ->].
Qed.

(** ** Three-way diffs with an unchanged file *)

(** ** The longest common subsequence of a file with itself *)

Section Same.
Context (t : list Z) (o0 o1 : Z) (counts : list Z).
Abbreviation list1 := (MkRing t o0) (only parsing).
Abbreviation list2 := (MkRing t o1) (only parsing).
Abbreviation n := (length t) (only parsing).

Lemma unique_count_same : unique_count counts counts = 0.
Proof. induction counts as [|c cs IH]; simpl; [done|]. rewrite IH. case_if; lia. Qed.

Lemma match_loop_same i fuel :
  (i <= n)%nat → (n - i <= fuel)%nat → match_loop list1 list2 fuel i i = Ok (n, n).
Proof.
  revert i; induction fuel as [|fuel IH]; intros i Hi Hf; cbn [match_loop];
    unfold token_at0, token_at1; cbn [ring_tokens].
  - assert (i = n) as -> by lia. by rewrite lookup_ge_None_2.
  - destruct (decide (i = n)) as [->|Hne]; [by rewrite lookup_ge_None_2|].
    destruct (lookup_lt_is_Some_2 t i) as [x Hx]; [lia|]. rewrite Hx. cbn [default from_option].
    rewrite Z.eqb_refl. unfold next0, next1. cbn [ring_tokens].
    rewrite !(proj2 (Nat.eqb_neq i n)) by done. apply IH; lia.
Qed.

Lemma snake_loop_same fuel :
  (0 < n)%nat →
  snake_loop list1 list2 counts counts fuel 0 0 [] = Ok (n, n, [MkLcs o0 o1 (Z.of_nat n)]).
Proof.
  intros Hn. assert (∀ c, is_unique c (-1) = Ok false) as H1 by done.
  assert (∀ c, is_unique c (-2) = Ok false) as H2 by done.
  destruct fuel; cbn [snake_loop]; cbn [ring_tokens]; rewrite match_loop_same by lia; cbn [rbind];
    rewrite (proj2 (Nat.eqb_neq n 0)) by lia; unfold token_at0, token_at1; cbn [ring_tokens];
    rewrite lookup_ge_None_2 by lia; cbn [default from_option];
    rewrite H1; cbn [rbind]; rewrite H2; cbn [rbind]; unfold offset_at0, offset_at1; cbn [ring_offset];
    do 4 f_equal; lia.
Qed.

Lemma lcs_middle_same :
  (0 < n)%nat → lcs_middle list1 list2 counts counts = Ok [MkLcs o0 o1 (Z.of_nat n)].
Proof.
  intros Hn. unfold lcs_middle. cbn [ring_tokens]. rewrite unique_count_same, Z.sub_0_r, Z.sub_diag.
  assert (left0 t t 0 = Z.of_nat n) as Hl0.
  { unfold left0, rest0. rewrite drop_0, filter_all by done. done. }
  assert (left1 t t 0 = Z.of_nat n) as Hl1.
  { unfold left1, rest1. rewrite drop_0, filter_all by done. done. }
  set (fp0 := MkArray _ (replicate _ _)).
  assert (array_ok t t fp0) as Harr.
  { split; cbn [fp0 origin snakes]; rewrite ?length_replicate, ?Hl0, ?Hl1; lia. }
  destruct (set_fp_ok t t fp0 (0 - 1) (MkSnake 0 [] (Some 0%nat) (Some n)) Harr)
    as (fp & -> & Harr' & Hseed & Hother); [lia|]. cbn [rbind].
  assert (fp_at fp (0 + 1) = Ok null_snake) as Hright.
  { rewrite Hother by lia. unfold fp_at. cbn [fp0 origin snakes]. if_false by lia.
    by rewrite lookup_replicate_2 by lia. }
  set (last := MkSnake (offset_at1 list2 n) [MkLcs o0 o1 (Z.of_nat n)] (Some n) (Some n)).
  destruct (set_fp_ok t t fp 0 last Harr') as (fp' & Hset & _ & Hlast & _); [lia|].
  assert (lcs_round list1 list2 counts counts 0 0 fp = Ok fp') as Hround.
  { unfold lcs_round. change (Z.to_nat (- ((if 0 <? 0 then 0 else 0) - 0))) with 0%nat.
    change ((if 0 <? 0 then 0 else 0) + 0) with 0. change (Z.to_nat (0 + 1)) with 1%nat.
    cbn [snakes_up snakes_down rbind]. unfold svn_diff__snake. rewrite Hseed, Hright.
    cbn [rbind sn_y null_snake sn_position0 sn_position1 sn_lcs]. change (0 <=? 0) with true.
    cbn [pointee from_option rbind]. unfold next1. cbn [ring_tokens]. rewrite Nat.eqb_refl.
    rewrite snake_loop_same by done. cbn [rbind]. fold last. rewrite Hset. done. }
  destruct (Z.to_nat (Z.min (Z.of_nat n) (Z.of_nat n))); cbn [lcs_loop]; rewrite Hround; cbn [rbind];
    rewrite Hlast; cbn [rbind]; rewrite bool_decide_true by done; cbn [rbind]; rewrite Hlast; done.
Qed.
End Same.

(** The chain of a file and itself, after the node of the prefix. *)
Definition straight (q n E s : Z) : list svn_diff__lcs_t :=
  (if n =? 0 then [] else [MkLcs q q n]) ++ closing E E s.

Lemma svn_diff__lcs_same (prefix suffix t counts : list Z) :
  let p := Z.of_nat (length prefix) in
  let s := Z.of_nat (length suffix) in
  let n := Z.of_nat (length t) in
  svn_diff__lcs (ring_of t (p + 1)) (ring_of t (p + 1)) counts counts p s
  = Ok ((if p =? 0 then [] else [MkLcs 1 1 p]) ++ straight (p + 1) n (p + 1 + n) s).
Proof.
  intros p s n. rewrite svn_diff__lcs_cases.
  assert (middle_chain (ring_of t (p + 1)) (ring_of t (p + 1)) counts counts
    = Ok (if n =? 0 then [] else [MkLcs (p + 1) (p + 1) n])) as ->.
  { unfold n. destruct (Z.eqb_spec (Z.of_nat (length t)) 0) as [Hz|Hz].
    - by destruct t.
    - destruct t as [|x t']; [done|]. cbn [ring_of middle_chain]. apply lcs_middle_same. simpl. lia. }
  unfold p, s. rewrite eof_offset_ok. fold p s. cbn [rbind].
  unfold straight, close_chain, prepend_lcs, guarded, closing. cbn [lcs_position0 lcs_position1].
  assert (Z.of_nat (length (prefix ++ t ++ suffix)) + 1 = p + 1 + n + s) as ->
    by (rewrite !length_app; lia).
  rewrite !Z.add_simpl_r.
  destruct (Z.eqb_spec s 0); cbn [negb]; [|if_true by lia]; cbn [rbind];
    (destruct (Z.eqb_spec p 0); cbn [negb]; [|if_true by lia]);
    destruct (n =? 0); done.
Qed.

(** ** The walk *)

Section Unchanged.
Context (E0 s : Z).
Hypothesis Hs : 0 <= s.

(** What is left of the chain of the unchanged file: the head node has begun, and
    what follows it is the end. *)
Definition unchanged (o : Z) (node : svn_diff__lcs_t) (next : list svn_diff__lcs_t) : Prop :=
  lcs_position0 node = lcs_position1 node ∧ lcs_position0 node <= o ∧ lcs_position0 node <= E0
  ∧ 0 <= lcs_length node
  ∧ (0 < lcs_length node ∧ end0 node = E0 ∧ next = closing E0 E0 s
     ∨ node :: next = closing E0 E0 s).

Lemma closing_head node next :
  node :: next = closing E0 E0 s →
  node = MkLcs E0 E0 s ∧ (s = 0 ∧ next = [] ∨ 0 < s ∧ next = [MkLcs (E0 + s) (E0 + s) 0]).
Proof.
  unfold closing. destruct (Z.eqb_spec s 0) as [Hz|Hz]; cbn [app]; intros [= -> ->].
  - split; [by rewrite Hz, Z.add_0_r|by left].
  - split; [done|]. right. split; [lia|done].
Qed.

Lemma unchanged_end o node next : unchanged o node next → E0 <= end0 node.
Proof.
  intros (_ & _ & _ & _ & [(_ & He & _)|Hc]); [lia|].
  apply closing_head in Hc as [-> _]. simpl. lia.
Qed.

Lemma unchanged_bound o node next : unchanged o node next → lcs_position0 node <= E0.
Proof. by intros (_ & _ & ? & _). Qed.

Lemma unchanged_zero o node next :
  unchanged o node next → lcs_length node = 0 → s = 0 ∧ lcs_position0 node = E0.
Proof.
  intros (_ & _ & _ & _ & [(? & _)|Hc]) Hz; [lia|].
  apply closing_head in Hc as [-> _]. done.
Qed.

(** It is not skipped before the sync point. *)
Lemma skip_before_unchanged o node next sync :
  unchanged o node next → sync <= E0 → skip_before (node :: next) sync = Ok (node :: next).
Proof.
  intros Hu Hsync. apply unchanged_end in Hu. cbn [skip_before]. by if_false by lia.
Qed.

Lemma skip_at_eof_unchanged o other node next sync :
  unchanged o node next → sync <= E0 →
  skip_at_eof other (node :: next) sync = Ok (node :: next).
Proof.
  intros (Heq & _ & _ & _ & Hnext) Hsync. unfold skip_at_eof, lcs_node. cbn [head from_option rbind tail].
  destruct Hnext as [(Hlen & He & ->)|Hc].
  - case_if; [|done]. assert (∃ n2 c2, closing E0 E0 s = n2 :: c2 ∧ lcs_position1 n2 = E0) as (n2 & c2 & -> & Hn2).
    { unfold closing. destruct (Z.eqb_spec s 0) as [->|]; cbn [app]; eexists _, _; (split; [done|]);
        cbn [lcs_position1]; lia. }
    cbn [head from_option rbind]. rewrite Hn2. by if_false by lia.
  - apply closing_head in Hc as [-> [[Hz _]|[Hpos _]]]; cbn [lcs_length lcs_position0].
    + rewrite Hz. by rewrite andb_false_r.
    + rewrite (proj2 (andb_false_iff _ _)); [done|]. right. lia.
Qed.

(** After the common lines, the node is there still, or the end has come. *)
Lemma skip_done_unchanged o node next o' c' :
  unchanged o node next → lcs_position0 node <= o' <= end0 node → skip_done (node :: next) o' = Ok c' →
  (∃ node' next', c' = node' :: next' ∧ unchanged o' node' next' ∧ (0 < s → o' < E0 + s))
  ∨ 0 < s ∧ o' = E0 + s ∧ c' = [MkLcs (E0 + s) (E0 + s) 0].
Proof.
  intros (Heq & Ho & HE & Hlen & Hnext) Ho'. cbn [skip_done].
  destruct Hnext as [(Hpos & He & ->)|Hc].
  - rewrite (proj2 (Z.ltb_lt 0 (lcs_length node))), andb_true_r by done.
    destruct (Z.leb_spec (end0 node) o') as [Hle|Hgt].
    + intros Hskip. left. destruct (closing E0 E0 s) as [|n2 c2] eqn:Hcl; [done|].
      symmetry in Hcl. assert (Hcl' := Hcl). apply closing_head in Hcl as [-> Hc2].
      exists (MkLcs E0 E0 s), c2.
      assert (unchanged o' (MkLcs E0 E0 s) c2) as Hu.
      { split; [done|]. cbn [lcs_position0 lcs_length]. split; [lia|]. split; [lia|]. split; [done|].
        right. done. }
      split; [|split; [done|lia]]. cbn [skip_done lcs_position0 lcs_length] in Hskip.
      destruct Hc2 as [[-> ->]|[Hs' ->]]; [by rewrite andb_false_r in Hskip; injection Hskip as <-|].
      rewrite (proj2 (andb_false_iff _ _)) in Hskip by lia. by injection Hskip as <-.
    + intros [= <-]. left. exists node, (closing E0 E0 s). split; [done|]. split; [|lia].
      split; [done|]. split; [lia|]. do 2 (split; [done|]). by left.
  - apply closing_head in Hc as Hc'. destruct Hc' as [-> [[Hz ->]|[Hpos ->]]];
      cbn [lcs_position0 lcs_length] in *.
    + rewrite (proj2 (Z.ltb_ge 0 s)), andb_false_r by lia. intros [= <-]. left.
      exists (MkLcs E0 E0 s), []. split; [done|]. split; [|lia]. split; [done|].
      cbn [lcs_position0 lcs_length]. split; [lia|]. split; [lia|]. split; [done|]. by right.
    + destruct (Z.leb_spec (E0 + s) o') as [Hle|Hgt].
      * rewrite (proj2 (Z.ltb_lt 0 s)) by done. cbn [andb skip_done lcs_position0 lcs_length].
        rewrite andb_false_r. intros [= <-]. right. split; [done|]. split; [lia|done].
      * cbn [andb]. intros [= <-]. left. eexists _, _. split; [done|]. split; [|lia]. split; [done|].
        cbn [lcs_position0 lcs_length]. split; [lia|]. split; [lia|]. split; [done|]. by right.
Qed.

(** The chain at the start. *)
Lemma straight_unchanged q n :
  0 <= n → q + n = E0 → ∃ node next, straight q n E0 s = node :: next ∧ unchanged q node next.
Proof.
  intros Hn He. unfold straight. destruct (Z.eqb_spec n 0) as [Hz|Hz]; cbn [app].
  - destruct (closing E0 E0 s) as [|node next] eqn:Hcl; [unfold closing in Hcl; by destruct (s =? 0)|].
    exists node, next. split; [done|]. symmetry in Hcl. assert (Hcl' := Hcl).
    apply closing_head in Hcl as [-> _]. unfold unchanged. cbn [lcs_position0 lcs_position1 lcs_length].
    split; [done|]. split; [lia|]. split; [done|]. split; [done|]. right. done.
  - exists (MkLcs q q n), (closing E0 E0 s). split; [done|]. unfold unchanged.
    cbn [lcs_position0 lcs_position1 lcs_length]. split; [done|]. split; [lia|]. split; [lia|].
    split; [done|]. left. split; [lia|done].
Qed.
End Unchanged.

Section Walk.
Context (F0 F1 : list Z) (E0 E1 s : Z).
Hypothesis Hs : 0 <= s.
Hypothesis HF0 : Z.of_nat (length F0) + 1 = E0 + s.
Hypothesis HF1 : Z.of_nat (length F1) + 1 = E1 + s.
Abbreviation unchanged := (unchanged E0 s).

Lemma find_sync_keeps_ol fuel om ol next o i j sync om' ol' :
  chain F0 F1 E0 E1 s i j om → unchanged o ol next →
  find_sync fuel om (ol :: next) = Ok (sync, om', ol') →
  ol' = ol :: next ∧ lcs_position0 ol <= sync <= E0 ∧ advanced F0 F1 E0 E1 s om om'.
Proof.
  intros Hom Hu. revert om Hom; induction fuel as [|fuel IH]; intros om Hom;
    (destruct (chain_node _ _ _ _ _ Hs HF0 HF1 _ _ _ Hom) as (m & xm & -> & _));
    (destruct (node_bounds _ _ _ _ _ Hs HF0 HF1 _ _ _ _ Hom) as (_ & _ & Hm0 & _ & _));
    cbn [find_sync]; unfold lcs_node at 1 2; cbn [head from_option rbind];
    (destruct (Z.ltb_spec (lcs_position0 ol) (lcs_position0 m)) as [Hlt|Hge]).
  1, 3: rewrite (skip_before_unchanged E0 s Hs o) by done; cbn [rbind];
    rewrite (skip_at_eof_unchanged E0 s Hs o) by done; cbn [rbind]; unfold lcs_node; cbn [head from_option rbind];
    (if_true by lia); intros [= <- <- <-]; split; [done|]; split; [lia|by left].
  all: destruct (bring_up F0 E0 s Hs HF0 F1 E1 (m :: xm) i j ol HF1 Hom (unchanged_bound _ _ _ _ _ Hu)
      (unchanged_zero _ _ Hs _ _ _ Hu)) as (c1 & c' & node & nx & Hsb & Hsk & Hadv & -> & Hend & _);
    rewrite Hsb; cbn [rbind]; rewrite Hsk; cbn [rbind]; unfold lcs_node at 1; cbn [head from_option rbind];
    (destruct (Z.leb_spec (lcs_position0 node) (lcs_position0 ol)) as [Hle|Hgt];
     [intros [= <- <- <-]; pose proof (unchanged_bound _ _ _ _ _ Hu); split; [done|]; split; [lia|done]|]).
  - done.
  - intros Hfind. destruct (IH (node :: nx)) as (? & ? & Hadv'); [|done|].
    + by eapply (advanced_chain _ _ _ _ _ Hs HF0 HF1).
    + split; [done|]. split; [done|]. by eapply (advanced_trans _ _ _ _ _ Hs HF0 HF1).
Qed.

Lemma find_sync_keeps_om fuel om ol next o i j sync om' ol' :
  chain F0 F1 E0 E1 s i j ol → unchanged o om next →
  find_sync fuel (om :: next) ol = Ok (sync, om', ol') →
  om' = om :: next ∧ lcs_position0 om <= sync <= E0 ∧ advanced F0 F1 E0 E1 s ol ol'.
Proof.
  intros Hol Hu. revert ol Hol; induction fuel as [|fuel IH]; intros ol Hol;
    (destruct (chain_node _ _ _ _ _ Hs HF0 HF1 _ _ _ Hol) as (l & xl & -> & _));
    (destruct (node_bounds _ _ _ _ _ Hs HF0 HF1 _ _ _ _ Hol) as (_ & _ & Hl0 & _ & _));
    cbn [find_sync]; unfold lcs_node at 1 2; cbn [head from_option rbind];
    (destruct (Z.ltb_spec (lcs_position0 l) (lcs_position0 om)) as [Hlt|Hge]).
  2, 4: rewrite (skip_before_unchanged E0 s Hs o) by done; cbn [rbind];
    rewrite (skip_at_eof_unchanged E0 s Hs o) by done; cbn [rbind]; unfold lcs_node; cbn [head from_option rbind];
    (if_true by lia); intros [= <- <- <-]; split; [done|]; split; [lia|by left].
  all: destruct (bring_up F0 E0 s Hs HF0 F1 E1 (l :: xl) i j om HF1 Hol (unchanged_bound _ _ _ _ _ Hu)
      (unchanged_zero _ _ Hs _ _ _ Hu)) as (c1 & c' & node & nx & Hsb & Hsk & Hadv & -> & Hend & _);
    rewrite Hsb; cbn [rbind]; rewrite Hsk; cbn [rbind]; unfold lcs_node at 1; cbn [head from_option rbind];
    (destruct (Z.leb_spec (lcs_position0 node) (lcs_position0 om)) as [Hle|Hgt];
     [intros [= <- <- <-]; pose proof (unchanged_bound _ _ _ _ _ Hu); split; [done|]; split; [lia|done]|]).
  - done.
  - intros Hfind. destruct (IH (node :: nx)) as (? & ? & Hadv'); [|done|].
    + by eapply (advanced_chain _ _ _ _ _ Hs HF0 HF1).
    + split; [done|]. split; [done|]. by eapply (advanced_trans _ _ _ _ _ Hs HF0 HF1).
Qed.

Lemma skip_done_chain i j c o' c' :
  chain F0 F1 E0 E1 s i j c → skip_done c o' = Ok c' →
  (∃ i' j', chain F0 F1 E0 E1 s i' j' c' ∧ (0 < s → o' < E0 + s))
  ∨ 0 < s ∧ E0 + s <= o' ∧ c' = [MkLcs (E0 + s) (E1 + s) 0].
Proof.
  revert i j; induction c as [|node next IH]; intros i j Hc; [done|].
  destruct (chain_node _ _ _ _ _ Hs HF0 HF1 _ _ _ Hc) as (? & ? & [= <- <-] & _ & _ & _ & Hnode).
  cbn [skip_done]. case_if.
  - destruct Hnode as [[_ Hnext]|[-> [[-> ->]|[Hpos ->]]]]; [by eapply IH|apply andb_prop in Hif; simpl in *; lia|].
    cbn [skip_done lcs_position0 lcs_length] in *. rewrite andb_false_r. intros [= <-].
    right. apply andb_prop in Hif as [? _]. split; [done|]. split; [lia|done].
  - intros [= <-]. left. eexists _, _. split; [done|]. intros Hpos.
    apply andb_false_iff in Hif as [?|?]; destruct Hnode as [[(? & ? & ?) _]|[-> _]]; simpl in *; lia.
Qed.
End Walk.

Lemma unchanged_chain F0 E0 s o node next :
  0 <= s → Z.of_nat (length F0) + 1 = E0 + s → unchanged E0 s o node next →
  chain F0 F0 E0 E0 s (lcs_position0 node) (lcs_position0 node) (node :: next).
Proof.
  intros Hs HF (Heq & _ & Hle & _ & Hnext).
  assert (matching F0 F0 E0 E0 (closing E0 E0 s)) as Hclose.
  { unfold closing. destruct (Z.eqb_spec s 0) as [->|Hne]; cbn [app matching Z.eqb].
    - repeat split; lia.
    - split; [lia|]. split; [lia|]. if_false by lia. do 3 (split; [lia|]). split; [done|].
      repeat split; lia. }
  destruct Hnext as [(Hlen & He & ->)|Hc].
  - exists [node]. split; [done|]. split; [constructor; [|done]; unfold mid_ok; lia|].
    destruct node as [pos0 pos1 len]. cbn [lcs_position0 lcs_position1 lcs_length] in *. subst pos1.
    cbn [matching]. split; [lia|]. split; [lia|]. if_false by lia. do 3 (split; [lia|]). split; [done|].
    by rewrite He.
  - exists []. split; [done|]. split; [done|]. rewrite Hc.
    apply closing_head in Hc as [-> _]; [|done]. done.
Qed.

(** ** The loop *)

Section Loop.
Context (F0 F1 : list Z) (E0 E1 s : Z) (num : nat).
Hypothesis Hs : 0 <= s.
Hypothesis HF0 : Z.of_nat (length F0) + 1 = E0 + s.
Hypothesis HF1 : Z.of_nat (length F1) + 1 = E1 + s.

Definition only (type : svn_diff__type_e) (hunk : svn_diff_t) : Prop :=
  diff_type hunk = svn_diff__type_common ∨ diff_type hunk = type.

Lemma is_changed_unchanged o node next : unchanged E0 s o node next → is_changed node o o = false.
Proof. intros (Heq & Ho & _). unfold is_changed. lia. Qed.

(** Both chains have come to their ends. *)
Lemma diff3_loop_at_end fuel e0 e1 e2 o x y list1 list2 :
  diff3_loop fuel num [MkLcs e0 e1 0] [MkLcs e0 e2 0] o x y list1 list2
  = let! (changed, _, _) :=
      changed_hunk num (is_changed (MkLcs e0 e1 0) o x) (is_changed (MkLcs e0 e2 0) o y)
        o (e0 - o) x (e1 + (e0 - e0) - x) y (e2 + (e0 - e0) - y) list1 list2 in
    Ok changed.
Proof.
  assert (∀ n, find_sync n [MkLcs e0 e1 0] [MkLcs e0 e2 0]
    = Ok (e0, [MkLcs e0 e1 0], [MkLcs e0 e2 0])) as Hfind.
  { intros n. destruct n; cbn [find_sync]; unfold lcs_node, skip_at_eof;
      cbn [head from_option rbind lcs_position0]; rewrite Z.ltb_irrefl;
      cbn [skip_before lcs_position0 lcs_length]; rewrite Z.add_0_r, Z.ltb_irrefl;
      unfold lcs_node; cbn [head from_option rbind lcs_length Z.eqb Z.ltb Z.compare andb lcs_position0];
      by rewrite Z.leb_refl. }
  destruct fuel; cbn [diff3_loop]; rewrite Hfind; cbn [rbind]; unfold lcs_node;
    cbn [head from_option rbind]; unfold sync_of; cbn [lcs_position0 lcs_position1];
    destruct (changed_hunk _ _ _ _ _ _ _ _ _ _ _) as [[[? ?] ?]| | | |]; done.
Qed.

(** A round in which one of the two files does not change. *)
Lemma changed_hunk_one (type : bool) b o a x m y l list1 list2 changed list1' list2' :
  changed_hunk num (if type then b else false) (if type then false else b) o a x m y l list1 list2
  = Ok (changed, list1', list2') →
  Forall (only (if type then svn_diff__type_diff_modified else svn_diff__type_diff_latest)) changed.
Proof.
  unfold changed_hunk. destruct type, b; cbn [andb]; intros [= <- _ _];
    [apply Forall_singleton; by right|done|apply Forall_singleton; by right|done].
Qed.

Lemma diff3_loop_latest_unchanged fuel om ol next i j o x list1 list2 diff :
  chain F0 F1 E0 E1 s i j om → unchanged E0 s o ol next →
  diff3_loop fuel num om (ol :: next) o x o list1 list2 = Ok diff →
  Forall (only svn_diff__type_diff_modified) diff.
Proof.
  revert om ol next i j o x list1 list2 diff; induction fuel as [|fuel IH];
    intros om ol next i j o x list1 list2 diff Hom Hu;
    pose proof (unchanged_chain F0 E0 s o ol next Hs HF0 Hu) as Hol;
    cbn [diff3_loop];
    (destruct (find_sync_ok F0 F1 F0 E0 E1 E0 s Hs HF0 HF1 HF0 (length om + length (ol :: next)) om
       (ol :: next) i j _ _ Hom Hol) as (sync & om' & ol' & nm & nl & Hfind & Hsy); [done|]);
    (destruct (find_sync_keeps_ol F0 F1 E0 E1 s Hs HF0 HF1 _ _ _ _ _ _ _ _ _ _ Hom Hu Hfind)
       as (-> & Hsync & Hadv));
    rewrite Hfind; cbn [rbind];
    destruct Hsy as [_ _ Hnm [= <-] Hsm Hsl _ _ _];
    (destruct om' as [|m xm]; [done|]); injection Hnm as ->;
    unfold lcs_node; cbn [head from_option rbind];
    rewrite (is_changed_unchanged o ol next Hu);
    (destruct (changed_hunk _ _ _ _ _ _ _ _ _ _ _) as [[[changed l1] l2]| | | |] eqn:Hch; try done);
    cbn [rbind]; apply (changed_hunk_one true) in Hch; (case_if; [by intros [= <-]|]); [done|].
  apply orb_false_iff in Hif as [Hzm%Z.eqb_neq Hzl%Z.eqb_neq].
  assert (Hom' := advanced_chain _ _ _ _ _ Hs HF0 HF1 _ _ _ _ Hom Hadv).
  destruct (node_bounds _ _ _ _ _ Hs HF0 HF1 _ _ _ _ Hom') as (_ & _ & _ & _ & Hlm).
  assert (Hu' := Hu). destruct Hu' as (Heq & Ho & _ & Hll & _).
  set (common := Z.min _ _).
  assert (0 <= common ∧ sync + common <= end0 ol) as [Hcommon Hend] by lia. clearbody common.
  assert (sync_of ol sync = sync) as -> by (unfold sync_of; lia).
  destruct (record_start l1 nm); try done. destruct (record_start l2 ol); try done. cbn [rbind].
  destruct (skip_done (nm :: xm) _) as [om''| | | |] eqn:Hskm; try done.
  destruct (skip_done (ol :: next) _) as [ol''| | | |] eqn:Hskl; try done. cbn [rbind].
  destruct (diff3_loop fuel _ _ _ _ _ _ _ _) as [rest| | | |] eqn:Hrest; try done. cbn [rbind].
  intros [= <-]. apply Forall_app. split; [done|]. constructor; [by left|].
  destruct (skip_done_unchanged E0 s Hs o ol next (sync + common) ol'' Hu) as
    [(ol2 & next2 & -> & Hu2 & Hnot)|(Hpos & He & ->)]; [lia|done| |].
  - destruct (skip_done_chain _ _ _ _ _ Hs HF0 HF1 _ _ _ _ _ Hom' Hskm) as [(i' & j' & Hom2 & _)|?];
      [by eapply IH|lia].
  - destruct (skip_done_chain _ _ _ _ _ Hs HF0 HF1 _ _ _ _ _ Hom' Hskm) as [(? & ? & _ & ?)|(_ & _ & ->)];
      [lia|].
    rewrite He, diff3_loop_at_end in Hrest.
    assert (is_changed (MkLcs (E0 + s) (E0 + s) 0) (E0 + s) (E0 + s) = false) as Hno
      by (unfold is_changed; simpl; lia).
    rewrite Hno in Hrest. destruct (changed_hunk _ _ _ _ _ _ _ _ _ _ _) as [[[? ?] ?]| | | |] eqn:Hch2;
      try done. injection Hrest as <-. by apply (changed_hunk_one true) in Hch2.
Qed.

Lemma diff3_loop_modified_unchanged fuel om ol next i j o y list1 list2 diff :
  chain F0 F1 E0 E1 s i j ol → unchanged E0 s o om next →
  diff3_loop fuel num (om :: next) ol o o y list1 list2 = Ok diff →
  Forall (only svn_diff__type_diff_latest) diff.
Proof.
  revert om ol next i j o y list1 list2 diff; induction fuel as [|fuel IH];
    intros om ol next i j o y list1 list2 diff Hol Hu;
    pose proof (unchanged_chain F0 E0 s o om next Hs HF0 Hu) as Hom;
    cbn [diff3_loop];
    (destruct (find_sync_ok F0 F0 F1 E0 E0 E1 s Hs HF0 HF0 HF1 (length (om :: next) + length ol)
       (om :: next) ol _ _ i j Hom Hol) as (sync & om' & ol' & nm & nl & Hfind & Hsy); [done|]);
    (destruct (find_sync_keeps_om F0 F1 E0 E1 s Hs HF0 HF1 _ _ _ _ _ _ _ _ _ _ Hol Hu Hfind)
       as (-> & Hsync & Hadv));
    rewrite Hfind; cbn [rbind];
    destruct Hsy as [_ _ [= <-] Hnl Hsm Hsl _ _ _];
    (destruct ol' as [|l xl]; [done|]); injection Hnl as ->;
    unfold lcs_node; cbn [head from_option rbind];
    rewrite (is_changed_unchanged o om next Hu);
    (destruct (changed_hunk _ _ _ _ _ _ _ _ _ _ _) as [[[changed l1] l2]| | | |] eqn:Hch; try done);
    cbn [rbind]; apply (changed_hunk_one false) in Hch; (case_if; [by intros [= <-]|]); [done|].
  apply orb_false_iff in Hif as [Hzm%Z.eqb_neq Hzl%Z.eqb_neq].
  assert (Hol' := advanced_chain _ _ _ _ _ Hs HF0 HF1 _ _ _ _ Hol Hadv).
  destruct (node_bounds _ _ _ _ _ Hs HF0 HF1 _ _ _ _ Hol') as (_ & _ & _ & _ & Hll).
  assert (Hu' := Hu). destruct Hu' as (Heq & Ho & _ & Hlm & _).
  set (common := Z.min _ _).
  assert (0 <= common ∧ sync + common <= end0 om) as [Hcommon Hend] by lia. clearbody common.
  assert (sync_of om sync = sync) as -> by (unfold sync_of; lia).
  destruct (record_start l1 om); try done. destruct (record_start l2 nl); try done. cbn [rbind].
  destruct (skip_done (om :: next) _) as [om''| | | |] eqn:Hskm; try done.
  cbn [rbind]. destruct (skip_done (nl :: xl) _) as [ol''| | | |] eqn:Hskl; try done. cbn [rbind].
  destruct (diff3_loop fuel _ _ _ _ _ _ _ _) as [rest| | | |] eqn:Hrest; try done. cbn [rbind].
  intros [= <-]. apply Forall_app. split; [done|]. constructor; [by left|].
  destruct (skip_done_unchanged E0 s Hs o om next (sync + common) om'' Hu) as
    [(om2 & next2 & -> & Hu2 & Hnot)|(Hpos & He & ->)]; [lia|done| |].
  - destruct (skip_done_chain _ _ _ _ _ Hs HF0 HF1 _ _ _ _ _ Hol' Hskl) as [(i' & j' & Hol2 & _)|?];
      [by eapply IH|lia].
  - destruct (skip_done_chain _ _ _ _ _ Hs HF0 HF1 _ _ _ _ _ Hol' Hskl) as [(? & ? & _ & ?)|(_ & _ & ->)];
      [lia|].
    rewrite He, diff3_loop_at_end in Hrest.
    assert (is_changed (MkLcs (E0 + s) (E0 + s) 0) (E0 + s) (E0 + s) = false) as Hno
      by (unfold is_changed; simpl; lia).
    rewrite Hno in Hrest. destruct (changed_hunk _ _ _ _ _ _ _ _ _ _ _) as [[[? ?] ?]| | | |] eqn:Hch2;
      try done. injection Hrest as <-. by apply (changed_hunk_one false) in Hch2.
Qed.
End Loop.

(** ** Whole files *)

Section Start.
Context (prefix suffix t0 t : list Z) (num : nat).
Abbreviation p := (Z.of_nat (length prefix)) (only parsing).
Abbreviation s := (Z.of_nat (length suffix)) (only parsing).
Abbreviation E0 := (p + 1 + Z.of_nat (length t0)) (only parsing).
Abbreviation pre := (if p =? 0 then [] else [MkLcs 1 1 p]) (only parsing).
Context (c same : list svn_diff__lcs_t) (list1 list2 : cursor).
Hypothesis Hc : chain (prefix ++ t0 ++ suffix) (prefix ++ t ++ suffix) E0
  (p + 1 + Z.of_nat (length t)) s (p + 1) (p + 1) c.
Hypothesis Hchain : chain (prefix ++ t0 ++ suffix) (prefix ++ t0 ++ suffix) E0 E0 s (p + 1) (p + 1) same.
Hypothesis Hsame : same = straight (p + 1) (Z.of_nat (length t0)) E0 s.

Lemma same_head : ∃ node next, same = node :: next ∧ unchanged E0 s (p + 1) node next.
Proof. rewrite Hsame. apply straight_unchanged; [exact (Nat2Z.is_nonneg _)|exact (Nat2Z.is_nonneg _)|done]. Qed.

Lemma diff3_start_latest_unchanged diff :
  points t (p + 1) list1 0 → points t0 (p + 1) list2 0 →
  diff3_loop (length (pre ++ c) + length (pre ++ same)) num (pre ++ c) (pre ++ same) 1 1 1 list1 list2
  = Ok diff →
  Forall (only svn_diff__type_diff_modified) diff.
Proof.
  intros H1 H2. destruct same_head as (node & next & Heq & Hu).
  assert (∀ fuel rest, diff3_loop fuel num c same (p + 1) (p + 1) (p + 1) list1 list2 = Ok rest →
    Forall (only svn_diff__type_diff_modified) rest) as Hloop.
  { intros fuel rest. rewrite Heq.
    apply (diff3_loop_latest_unchanged _ _ E0 _ s num (Nat2Z.is_nonneg _)
             (file_length prefix suffix t0) (file_length prefix suffix t) _ _ _ _ _ _ _ _ _ _ _ Hc Hu). }
  destruct (Z.eqb_spec p 0) as [Hp|Hp]; cbn [app].
  { rewrite Hp in Hloop. apply Hloop. }
  cbn [length]. rewrite Nat.add_succ_l, (diff3_loop_prefix prefix suffix t0 t t0) by done.
  destruct (diff3_loop _ _ _ _ _ _ _ _ _) as [rest| | | |] eqn:Hrest; try done. intros [= <-].
  constructor; [by left|by eapply Hloop].
Qed.

Lemma diff3_start_modified_unchanged diff :
  points t0 (p + 1) list1 0 → points t (p + 1) list2 0 →
  diff3_loop (length (pre ++ same) + length (pre ++ c)) num (pre ++ same) (pre ++ c) 1 1 1 list1 list2
  = Ok diff →
  Forall (only svn_diff__type_diff_latest) diff.
Proof.
  intros H1 H2. destruct same_head as (node & next & Heq & Hu).
  assert (∀ fuel rest, diff3_loop fuel num same c (p + 1) (p + 1) (p + 1) list1 list2 = Ok rest →
    Forall (only svn_diff__type_diff_latest) rest) as Hloop.
  { intros fuel rest. rewrite Heq.
    apply (diff3_loop_modified_unchanged _ _ E0 _ s num (Nat2Z.is_nonneg _)
             (file_length prefix suffix t0) (file_length prefix suffix t) _ _ _ _ _ _ _ _ _ _ _ Hc Hu). }
  destruct (Z.eqb_spec p 0) as [Hp|Hp]; cbn [app].
  { rewrite Hp in Hloop. apply Hloop. }
  cbn [length]. rewrite Nat.add_succ_l, (diff3_loop_prefix prefix suffix t0 t0 t) by done.
  destruct (diff3_loop _ _ _ _ _ _ _ _ _) as [rest| | | |] eqn:Hrest; try done. intros [= <-].
  constructor; [by left|by eapply Hloop].
Qed.
End Start.

(** ** Three-way diffs of whole files *)

(** ** Whole files *)

Section Diff3.
Context {baton token : Type} `{Hfns : !svn_diff_fns2_t baton token, Hspec : !DiffFnsSpec baton token}.
Implicit Types (b : baton) (t u : token).

(** After all positions have been found, the diff is made from the indices. *)
Lemma diff3_indices_ok (reps : list token) (num : nat) original modified latest
    (prefix suffix t0 t1 t2 : list Z) :
  (∀ t, t ∈ original ++ modified ++ latest → (position reps t < length reps)%nat) →
  in_range num t0 → in_range num t1 → in_range num t2 →
  indices reps original = prefix ++ t0 ++ suffix →
  indices reps modified = prefix ++ t1 ++ suffix →
  indices reps latest = prefix ++ t2 ++ suffix →
  let p := Z.of_nat (length prefix) in
  let s := Z.of_nat (length suffix) in
  let l0 := ring_of t0 (p + 1) in
  let l1 := ring_of t1 (p + 1) in
  let l2 := ring_of t2 (p + 1) in
  ∃ counts0 counts1 counts2 lcs_om lcs_ol diff,
    svn_diff__get_token_counts l0 num = Ok counts0
    ∧ svn_diff__get_token_counts l1 num = Ok counts1
    ∧ svn_diff__get_token_counts l2 num = Ok counts2
    ∧ svn_diff__lcs l0 l1 counts0 counts1 p s = Ok lcs_om
    ∧ svn_diff__lcs l0 l2 counts0 counts2 p s = Ok lcs_ol
    ∧ diff3_loop (length lcs_om + length lcs_ol) num lcs_om lcs_ol 1 1 1
        (MkCursor (start_positions l1 p).1 (start_positions l1 p).2)
        (MkCursor (start_positions l2 p).1 (start_positions l2 p).2) = Ok diff
    ∧ diff3_of same_token original modified latest diff
    ∧ (t1 = t2 → Forall twin diff)
    ∧ (t0 = t2 → Forall (only svn_diff__type_diff_modified) diff)
    ∧ (t0 = t1 → Forall (only svn_diff__type_diff_latest) diff).
Proof.
  intros Hknown Hr0 Hr1 Hr2 Ho Hm Hl p s l0 l1 l2.
  destruct (svn_diff__lcs_shape num prefix suffix t0 t1 Hr0 Hr1)
    as (counts0 & counts1 & om & H0 & H1 & Hom & Hcm).
  destruct (svn_diff__lcs_shape num prefix suffix t0 t2 Hr0 Hr2)
    as (counts0' & counts2 & ol & H0' & H2 & Hol & Hcl).
  rewrite H0 in H0'. injection H0' as <-.
  pose proof (start_positions_ok t1 p) as Hs1. pose proof (start_positions_ok t2 p) as Hs2.
  fold l1 in Hs1. fold l2 in Hs2.
  destruct (start_positions l1 p) as [file1 p1], (start_positions l2 p) as [file2 p2].
  destruct (diff3_loop_start same_token (λ t, Z.of_nat (position reps t)) original modified latest)
    with (prefix := prefix) (suffix := suffix) (t0 := t0) (t1 := t1) (t2 := t2) (num := num)
      (om := om) (ol := ol) (list1 := MkCursor file1 p1) (list2 := MkCursor file2 p2)
    as (diff & Hdiff & Hd); try done.
  { intros t u Ht _ Heq. apply (position_same reps); [by apply Hknown|lia]. }
  { intros t u Htu. by rewrite Htu. }
  eexists counts0, counts1, counts2, _, _, diff. do 7 (split; [done|]). split; [|split]; intros ->.
  - rewrite H1 in H2. injection H2 as <-. rewrite Hom in Hol. injection Hol as Hol.
    apply app_inv_head in Hol as <-. eapply diff3_loop_same; [|exact Hdiff].
    apply Forall_app. split; [case_if; [done|]; constructor; [|done]; simpl; lia|].
    by eapply chain_lengths; [|exact Hcm]; lia.
  - rewrite H0 in H2. injection H2 as <-. unfold l0, l2, p, s in Hol. rewrite svn_diff__lcs_same in Hol.
    injection Hol as Hol. apply app_inv_head in Hol. symmetry in Hol.
    by eapply diff3_start_latest_unchanged; [exact Hcm|exact Hcl|exact Hol|exact Hs1|exact Hs2|exact Hdiff].
  - rewrite H0 in H1. injection H1 as <-. unfold l0, l1, p, s in Hom. rewrite svn_diff__lcs_same in Hom.
    injection Hom as Hom. apply app_inv_head in Hom. symmetry in Hom.
    by eapply diff3_start_modified_unchanged; [exact Hcl|exact Hcm|exact Hom|exact Hs1|exact Hs2|exact Hdiff].
Qed.

(** Reading the tokens of the three files; the indices are those of a list [reps]
    of known tokens. *)
Lemma get_three_tokens_ok fuel b (prefix : Z) :
  let sources := [svn_diff_datasource_original; svn_diff_datasource_modified;
                  svn_diff_datasource_latest] in
  let pend0 := pending b svn_diff_datasource_original in
  let pend1 := pending b svn_diff_datasource_modified in
  let pend2 := pending b svn_diff_datasource_latest in
  usable b sources →
  (length pend0 < fuel)%nat → (length pend1 < fuel)%nat → (length pend2 < fuel)%nat →
  ∃ b2 b3 b4 tree2 tree3 tree4 reps,
    let ring l := ring_of (indices reps l) (prefix + 1) in
    svn_diff__get_tokens fuel svn_diff__tree_create b svn_diff_datasource_original prefix
      = Ok (b2, tree2, ring pend0)
    ∧ svn_diff__get_tokens fuel tree2 b2 svn_diff_datasource_modified prefix
      = Ok (b3, tree3, ring pend1)
    ∧ svn_diff__get_tokens fuel tree3 b3 svn_diff_datasource_latest prefix
      = Ok (b4, tree4, ring pend2)
    ∧ svn_diff__get_node_count tree4 = Z.of_nat (length reps)
    ∧ ∀ t, t ∈ pend0 ++ pend1 ++ pend2 → (position reps t < length reps)%nat.
Proof.
  intros sources pend0 pend1 pend2 Hb Hf0 Hf1 Hf2.
  destruct (svn_diff__get_tokens_ok sources fuel svn_diff__tree_create [] b
    svn_diff_datasource_original prefix ltac:(set_solver) Hb (indexes_create b))
    as (b2 & tree2 & H2 & Hb2 & Hix2 & _ & Hp2); [done|].
  fold pend0 in H2, Hix2. set (reps1 := add_tokens [] pend0) in *.
  destruct (svn_diff__get_tokens_ok sources fuel tree2 reps1 b2 svn_diff_datasource_modified
    prefix ltac:(set_solver) Hb2 Hix2) as (b3 & tree3 & H3 & Hb3 & Hix3 & _ & Hp3);
    [by rewrite Hp2|].
  rewrite Hp2 in H3, Hix3 by done. fold pend1 in H3, Hix3. set (reps2 := add_tokens reps1 pend1) in *.
  destruct (svn_diff__get_tokens_ok sources fuel tree3 reps2 b3 svn_diff_datasource_latest
    prefix ltac:(set_solver) Hb3 Hix3) as (b4 & tree4 & H4 & _ & Hix4 & _ & _);
    [by rewrite Hp3, Hp2|].
  rewrite Hp3, Hp2 in H4, Hix4 by done. fold pend2 in H4, Hix4. set (reps3 := add_tokens reps2 pend2) in *.
  assert (reps1 `prefix_of` reps3) as H13 by (transitivity reps2; apply add_tokens_prefix).
  assert (reps2 `prefix_of` reps3) as H23 by apply add_tokens_prefix.
  assert (∀ t, t ∈ pend0 → (position reps1 t < length reps1)%nat) as Hk0
    by (intros t; apply add_tokens_known).
  assert (∀ t, t ∈ pend1 → (position reps2 t < length reps2)%nat) as Hk1
    by (intros t; apply add_tokens_known).
  rewrite <- (indices_extend reps1 reps3 pend0) in H2 by done.
  rewrite <- (indices_extend reps2 reps3 pend1) in H3 by done.
  exists b2, b3, b4, tree2, tree3, tree4, reps3. do 3 (split; [done|]).
  split; [by apply (ix_count _ _ _ Hix4)|]. intros t. rewrite !elem_of_app. intros [Ht|[Ht|Ht]].
  - rewrite (position_extend reps1 reps3) by auto. apply prefix_length in H13. specialize (Hk0 t Ht). lia.
  - rewrite (position_extend reps2 reps3) by auto. apply prefix_length in H23. specialize (Hk1 t Ht). lia.
  - by apply add_tokens_known.
Qed.

Lemma diff_3_ok fuel b :
  let original := contents b svn_diff_datasource_original in
  let modified := contents b svn_diff_datasource_modified in
  let latest := contents b svn_diff_datasource_latest in
  openable b [svn_diff_datasource_original; svn_diff_datasource_modified; svn_diff_datasource_latest] →
  (length original < fuel)%nat → (length modified < fuel)%nat → (length latest < fuel)%nat →
  ∃ b' diff,
    svn_diff_diff3_2 fuel b = Ok (b', diff) ∧ diff3_of same_token original modified latest diff
    ∧ (Forall2 same_token modified latest → Forall twin diff)
    ∧ (Forall2 same_token original latest → Forall (only svn_diff__type_diff_modified) diff)
    ∧ (Forall2 same_token original modified → Forall (only svn_diff__type_diff_latest) diff).
Proof.
  intros original modified latest Hb Hf0 Hf1 Hf2. unfold svn_diff_diff3_2. cbn zeta.
  set (sources := [svn_diff_datasource_original; svn_diff_datasource_modified;
                   svn_diff_datasource_latest]) in *.
  destruct (open_parts b sources)
    as (b1 & p & s & -> & Hb1 & Hc1 & pre & suf & Hparts & Hsame).
  { done. }
  { repeat constructor; set_solver. }
  destruct (Hparts svn_diff_datasource_original) as (Ho & Hpo & Hso); [set_solver|].
  destruct (Hparts svn_diff_datasource_modified) as (Hm & Hpm & Hsm); [set_solver|].
  destruct (Hparts svn_diff_datasource_latest) as (Hl & Hpl & Hsl); [set_solver|].
  destruct (Hsame svn_diff_datasource_original svn_diff_datasource_modified) as [Hprem Hsufm];
    [set_solver..|].
  destruct (Hsame svn_diff_datasource_original svn_diff_datasource_latest) as [Hprel Hsufl];
    [set_solver..|]. clear Hparts Hsame. cbn [rbind].
  fold original in Ho. fold modified in Hm. fold latest in Hl.
  assert (Hl0 := f_equal length Ho). assert (Hl1 := f_equal length Hm). assert (Hl2 := f_equal length Hl).
  rewrite !length_app in Hl0, Hl1, Hl2.
  destruct (get_three_tokens_ok fuel b1 (Z.of_nat p) Hb1)
    as (b2 & b3 & b4 & tree2 & tree3 & tree4 & reps1 & -> & H3 & H4 & Hcount & Hknown); [lia..|].
  cbn [rbind]. rewrite H3. cbn [rbind]. rewrite H4. cbn [rbind]. rewrite Hcount, Nat2Z.id.
  set (pend0 := pending b1 svn_diff_datasource_original) in *.
  set (pend1 := pending b1 svn_diff_datasource_modified) in *.
  set (pend2 := pending b1 svn_diff_datasource_latest) in *.
  set (reps := add_tokens reps1 (original ++ modified ++ latest)).
  assert (reps1 `prefix_of` reps) as Hprefix by apply add_tokens_prefix.
  assert (∀ l, (∀ t, t ∈ l → t ∈ pend0 ++ pend1 ++ pend2) →
    indices reps l = indices reps1 l ∧ in_range (length reps1) (indices reps l)) as Hpend.
  { intros l Hin. rewrite (indices_extend reps1 reps l) by auto. split; [done|].
    apply indices_range. auto. }
  destruct (Hpend pend0) as [<- Hr0]; [set_solver|]. destruct (Hpend pend1) as [<- Hr1]; [set_solver|].
  destruct (Hpend pend2) as [<- Hr2]; [set_solver|].
  destruct (diff3_indices_ok reps (length reps1) original modified latest
    (indices reps (pre svn_diff_datasource_original)) (indices reps (suf svn_diff_datasource_original))
    (indices reps pend0) (indices reps pend1) (indices reps pend2))
    as (counts0 & counts1 & counts2 & om & ol & diff & Hc0 & Hc1' & Hc2 & Hom & Hol & Hdiff & Hd & Htwin & Hmod & Hlat);
    try done.
  { intros t. apply add_tokens_known. }
  { by rewrite <- indices_app, <- Ho. }
  { by rewrite (indices_same reps _ _ Hprem), (indices_same reps _ _ Hsufm), <- indices_app, <- Hm. }
  { by rewrite (indices_same reps _ _ Hprel), (indices_same reps _ _ Hsufl), <- indices_app, <- Hl. }
  assert (length (indices reps (pre svn_diff_datasource_original)) = p) as Hlp
    by (unfold indices; by rewrite length_map).
  assert (length (indices reps (suf svn_diff_datasource_original)) = s) as Hls
    by (unfold indices; by rewrite length_map).
  rewrite Hlp in *. rewrite Hls in *. rewrite Hc0, Hc1', Hc2. cbn [rbind]. rewrite Hom. cbn [rbind].
  rewrite Hol. cbn [rbind].
  destruct (start_positions _ _) as [file1 p1], (start_positions _ _) as [file2 p2].
  cbn [fst snd] in Hdiff. rewrite Hdiff. cbn [rbind]. eexists _, diff. do 2 (split; [done|]).
  split; [intros Heq; apply Htwin|split; intros Heq; [apply Hmod|apply Hlat]];
    apply (indices_same reps) in Heq; rewrite ?Ho, ?Hm, ?Hl, !indices_app in Heq;
    rewrite <- ?(indices_same reps _ _ Hprem), <- ?(indices_same reps _ _ Hsufm) in Heq;
    rewrite <- ?(indices_same reps _ _ Hprel), <- ?(indices_same reps _ _ Hsufl) in Heq;
    by apply app_inv_head, app_inv_tail in Heq.
Qed.
End Diff3.
