(* ===== verification/DiffNormalize.v ===== *)
(** * Normalizing lines

    [svn_diff__normalize_buffer] of [src/subversion/libsvn_diff/util.c].  The
    memory that holds the buffer and the target is a list of bytes, addressed
    from 0: the two may be apart, or the target may be the buffer's own memory.
    The routine avoids copying: it returns a pointer into the buffer where the
    normalized bytes stand there already. *)
From S2P Require Import Prelude Numbers Cstrings Memory.

(** ** Data *)

Inductive svn_diff_file_ignore_space_t :=
  | svn_diff_file_ignore_space_none
  | svn_diff_file_ignore_space_change
  | svn_diff_file_ignore_space_all.

#[global] Instance ignore_space_eq_dec : EqDecision svn_diff_file_ignore_space_t.
Proof. solve_decision. Defined.

(** The option [show_c_function], which only the output of files reads, is left
    out. *)
Record svn_diff_file_options_t := MkOptions {
  ignore_space : svn_diff_file_ignore_space_t;
  ignore_eol_style : bool;
}.

Inductive svn_diff__normalize_state_t :=
  | svn_diff__normalize_state_normal
  | svn_diff__normalize_state_whitespace
  | svn_diff__normalize_state_cr.

#[global] Instance normalize_state_eq_dec : EqDecision svn_diff__normalize_state_t.
Proof. solve_decision. Defined.

(** ** The routine *)

(** The local variables, and the memory. *)
Record normalizer := MkNormalizer {
  memory : list byte;
  nz_start : nat;
  include_len : nat;
  last_skipped : bool;
  tgt_newend : nat;
}.

Definition SKIP (curp : nat) (nz : normalizer) : normalizer :=
  MkNormalizer (memory nz)
    (if (nz_start nz =? curp)%nat then S (nz_start nz) else nz_start nz)
    (include_len nz) true (tgt_newend nz).

Definition COPY_INCLUDED_SECTION (curp : nat) (nz : normalizer) : result normalizer :=
  if (0 <? include_len nz)%nat then
    let! bytes := read_bytes (memory nz) (nz_start nz) (include_len nz) in
    let! mem := write_bytes (memory nz) (tgt_newend nz) bytes in
    Ok (MkNormalizer mem curp 0 (last_skipped nz) (tgt_newend nz + include_len nz))
  else Ok (MkNormalizer (memory nz) curp (include_len nz) (last_skipped nz) (tgt_newend nz)).

Definition INCLUDE (curp : nat) (nz : normalizer) : result normalizer :=
  let! nz := if last_skipped nz then COPY_INCLUDED_SECTION curp nz else Ok nz in
  Ok (MkNormalizer (memory nz) (nz_start nz) (include_len nz + 1) false (tgt_newend nz)).

Definition INSERT (curp : nat) (x : byte) (nz : normalizer) : result normalizer :=
  let! nz := COPY_INCLUDED_SECTION curp nz in
  let! mem := write_bytes (memory nz) (tgt_newend nz) [x] in
  Ok (MkNormalizer mem (nz_start nz) (include_len nz) (last_skipped nz) (tgt_newend nz + 1)).

Definition INCLUDE_AS (curp : nat) (x : byte) (nz : normalizer) : result normalizer :=
  let! c := read_byte (memory nz) curp in
  if c =b? x then INCLUDE curp nz
  else
    let! nz := INSERT curp x nz in
    Ok (SKIP curp nz).

(** The body of the loop. *)
Definition normalize_byte (opts : svn_diff_file_options_t) (curp : nat)
    (state : svn_diff__normalize_state_t) (nz : normalizer)
    : result (svn_diff__normalize_state_t * normalizer) :=
  let! c := read_byte (memory nz) curp in
  if c =b? x0d then
    let! nz := if ignore_eol_style opts then INCLUDE_AS curp x0a nz else INCLUDE curp nz in
    Ok (svn_diff__normalize_state_cr, nz)
  else if c =b? x0a then
    let! nz :=
      if bool_decide (state = svn_diff__normalize_state_cr) && ignore_eol_style opts
      then Ok (SKIP curp nz) else INCLUDE curp nz in
    Ok (svn_diff__normalize_state_normal, nz)
  else if svn_ctype_isspace c
          && negb (bool_decide (ignore_space opts = svn_diff_file_ignore_space_none)) then
    let! nz :=
      if negb (bool_decide (state = svn_diff__normalize_state_whitespace))
         && bool_decide (ignore_space opts = svn_diff_file_ignore_space_change)
      then INCLUDE_AS curp x20 nz else Ok (SKIP curp nz) in
    Ok (svn_diff__normalize_state_whitespace, nz)
  else
    let! nz := INCLUDE curp nz in
    Ok (svn_diff__normalize_state_normal, nz).

(** The loop over [n] bytes from [curp] on. *)
Fixpoint normalize_loop (opts : svn_diff_file_options_t) (n curp : nat)
    (state : svn_diff__normalize_state_t) (nz : normalizer)
    : result (svn_diff__normalize_state_t * normalizer) :=
  match n with
  | O => Ok (state, nz)
  | S n =>
      let! (state, nz) := normalize_byte opts curp state nz in
      normalize_loop opts n (S curp) state nz
  end.

(** Returns the memory, [*tgt], [*lengthp] and [*statep]. *)
Definition svn_diff__normalize_buffer (opts : svn_diff_file_options_t) (mem : list byte)
    (tgt length_ : nat) (state : svn_diff__normalize_state_t) (buf : nat)
    : result (list byte * nat * nat * svn_diff__normalize_state_t) :=
  if bool_decide (ignore_space opts = svn_diff_file_ignore_space_none)
     && negb (ignore_eol_style opts)
  then Ok (mem, buf, length_, state)
  else
    let! (state, nz) :=
      normalize_loop opts length_ buf state (MkNormalizer mem buf 0 false tgt) in
    if (tgt =? tgt_newend nz)%nat
    then Ok (memory nz, nz_start nz, include_len nz, state)
    else
      let! nz := COPY_INCLUDED_SECTION (buf + length_) nz in
      Ok (memory nz, tgt, (tgt_newend nz - tgt)%nat, state).

Example normalize_example :
  let opts := MkOptions svn_diff_file_ignore_space_change true in
  let line := String.list_byte_of_string "a  b	c " ++ [x0d; x0a] in
  (* in place, and into a buffer of its own *)
  (let! (mem, tgt, len, _) :=
     svn_diff__normalize_buffer opts line 0 (length line) svn_diff__normalize_state_normal 0 in
   read_bytes mem tgt len)
  = Ok (String.list_byte_of_string "a b c " ++ [x0a])
  ∧ (let! (mem, tgt, len, _) :=
       svn_diff__normalize_buffer opts (line ++ replicate (length line) x00) (length line)
         (length line) svn_diff__normalize_state_normal 0 in
     read_bytes mem tgt len)
    = Ok (String.list_byte_of_string "a b c " ++ [x0a]).
Proof. split; vm_compute; reflexivity. Qed.

(** ** The specification *)

(** What a byte becomes, and the next state. *)
Definition normalized_byte (opts : svn_diff_file_options_t)
    (state : svn_diff__normalize_state_t) (c : byte) : list byte * svn_diff__normalize_state_t :=
  if c =b? x0d then
    ([if ignore_eol_style opts then x0a else x0d], svn_diff__normalize_state_cr)
  else if c =b? x0a then
    (if bool_decide (state = svn_diff__normalize_state_cr) && ignore_eol_style opts
     then [] else [x0a], svn_diff__normalize_state_normal)
  else if svn_ctype_isspace c then
    match ignore_space opts with
    | svn_diff_file_ignore_space_none => ([c], svn_diff__normalize_state_normal)
    | svn_diff_file_ignore_space_change =>
        (if bool_decide (state = svn_diff__normalize_state_whitespace) then [] else [x20],
         svn_diff__normalize_state_whitespace)
    | svn_diff_file_ignore_space_all => ([], svn_diff__normalize_state_whitespace)
    end
  else ([c], svn_diff__normalize_state_normal).

Fixpoint normalized (opts : svn_diff_file_options_t) (state : svn_diff__normalize_state_t)
    (bytes : list byte) : list byte * svn_diff__normalize_state_t :=
  match bytes with
  | [] => ([], state)
  | c :: bytes =>
      let '(out, state) := normalized_byte opts state c in
      let '(rest, state) := normalized opts state bytes in
      (out ++ rest, state)
  end.
