(* ===== verification/DiffNormalizeCorrect.v ===== *)
(** * Properties of line normalization

    Whether the target is apart from the buffer or is its own memory, the bytes
    that [svn_diff__normalize_buffer] returns are the normalized ones. *)
From S2P Require Import Prelude Cstrings Memory DiffNormalize.

Lemma take_S_drop mem p n (c : byte) :
  mem !! (p + n)%nat = Some c → take (n + 1) (drop p mem) = take n (drop p mem) ++ [c].
Proof. intros Hc. rewrite Nat.add_1_r. apply take_S_r. by rewrite lookup_drop. Qed.

(** Nothing is normalized when nothing is ignored. *)
Lemma normalized_nothing opts state bytes :
  ignore_space opts = svn_diff_file_ignore_space_none → ignore_eol_style opts = false →
  (normalized opts state bytes).1 = bytes.
Proof.
  intros Hsp Heol. revert state.
  induction bytes as [|c bytes IH]; intros state; [done|]. cbn [normalized].
  unfold normalized_byte. rewrite Hsp, Heol, andb_false_r.
  assert (∀ st, (let '(rest, st') := normalized opts st bytes in (c :: rest, st')).1 = c :: bytes)
    as Hst by (intros st; rewrite <- (IH st) at 2; by destruct (normalized opts st bytes)).
  unfold byte_eqb. case_bool_decide as Hcr; [subst; apply Hst|].
  case_bool_decide as Hnl; [subst; apply Hst|].
  destruct (svn_ctype_isspace c); apply Hst.
Qed.

Section Normalize.
Context (opts : svn_diff_file_options_t) (mem0 : list byte) (buf tgt len : nat).
Hypothesis Hbuf : (buf + len <= length mem0)%nat.
Hypothesis Htgt : (tgt + len <= length mem0)%nat.
Hypothesis Happart : (tgt <= buf ∨ buf + len <= tgt)%nat.

(** ** The state of the routine

    After [i] bytes of the buffer: what was put into the target and the block
    that is still to be included are the normalized bytes so far, and nothing
    else has been written. *)
Record normalizing (i : nat) (out : list byte) (nz : normalizer) : Prop := {
  nzg_length : length (memory nz) = length mem0;
  nzg_frame q : (q < tgt ∨ tgt + i <= q)%nat → memory nz !! q = mem0 !! q;
  nzg_newend : (tgt <= tgt_newend nz)%nat;
  nzg_room : (tgt_newend nz + include_len nz <= tgt + i)%nat;
  nzg_start : (buf <= nz_start nz)%nat;
  nzg_end : (nz_start nz + include_len nz <= buf + i)%nat;
  nzg_open : last_skipped nz = false → (nz_start nz + include_len nz = buf + i)%nat;
  nzg_out : out = take (tgt_newend nz - tgt) (drop tgt (memory nz))
                  ++ take (include_len nz) (drop (nz_start nz) (memory nz));
}.

(** The bytes ahead are those of the buffer. *)
Lemma ahead i out nz j :
  normalizing i out nz → (i <= j < len)%nat → memory nz !! (buf + j)%nat = mem0 !! (buf + j)%nat.
Proof. intros Hn Hj. apply (nzg_frame _ _ _ Hn). lia. Qed.

Lemma normalizing_start : normalizing 0 [] (MkNormalizer mem0 buf 0 false tgt).
Proof. split; simpl; try done; try lia. by rewrite Nat.sub_diag. Qed.

Lemma copy_included_section_ok i out nz :
  (i <= len)%nat → normalizing i out nz →
  ∃ nz', COPY_INCLUDED_SECTION (buf + i) nz = Ok nz'
    ∧ normalizing i out nz' ∧ include_len nz' = 0%nat ∧ nz_start nz' = (buf + i)%nat
    ∧ tgt_newend nz' = (tgt_newend nz + include_len nz)%nat.
Proof.
  intros Hi [Hl Hf Hne Hroom Hs He Ho Hout]. unfold COPY_INCLUDED_SECTION. case_if.
  - rewrite read_bytes_ok by lia. cbn [rbind].
    set (bytes := take (include_len nz) (drop (nz_start nz) (memory nz))) in *.
    assert (length bytes = include_len nz) as Hb
      by (unfold bytes; rewrite length_take, length_drop; lia).
    destruct (write_bytes_ok (memory nz) (tgt_newend nz) bytes) as (mem & -> & Hlen & Hsame & Hread);
      [lia|].
    cbn [rbind]. eexists. split; [done|]. split; [|done]. rewrite <- Hb in *.
    split; cbn [memory nz_start include_len last_skipped tgt_newend]; try lia.
    + intros q Hq. rewrite Hsame by lia. by apply Hf.
    + rewrite Hread by done. by rewrite take_0, app_nil_r.
  - assert (include_len nz = 0%nat) as H0 by lia. eexists. split; [done|]. rewrite H0 in *.
    split; [|cbn [include_len nz_start tgt_newend]; lia].
    split; cbn [memory nz_start include_len last_skipped tgt_newend]; try done; lia.
Qed.

Lemma include_ok i out nz c :
  (i < len)%nat → normalizing i out nz → mem0 !! (buf + i)%nat = Some c →
  ∃ nz', INCLUDE (buf + i) nz = Ok nz' ∧ normalizing (S i) (out ++ [c]) nz'.
Proof.
  intros Hi Hn Hc. unfold INCLUDE.
  assert (∃ nz1, (if last_skipped nz then COPY_INCLUDED_SECTION (buf + i) nz else Ok nz) = Ok nz1
    ∧ normalizing i out nz1 ∧ (nz_start nz1 + include_len nz1 = buf + i)%nat)
    as (nz1 & -> & Hn1 & Hopen).
  { destruct (last_skipped nz) eqn:Hls.
    - destruct (copy_included_section_ok i out nz) as (nz1 & -> & Hn1 & H0 & H1 & _);
        [lia|done|]. exists nz1. split; [done|]. split; [done|lia].
    - exists nz. split; [done|]. split; [done|]. by apply Hn. }
  cbn [rbind]. eexists. split; [done|]. assert (Hc1 := ahead i out nz1 i Hn1 ltac:(lia)).
  destruct Hn1 as [Hl Hf Hne Hroom Hs He Ho Hout].
  split; cbn [memory nz_start include_len last_skipped tgt_newend]; try lia.
  - intros q Hq. apply Hf. lia.
  - rewrite Hout, <- app_assoc. f_equal. symmetry. apply take_S_drop. by rewrite Hopen, Hc1.
Qed.

Lemma skip_ok i out nz :
  normalizing i out nz → normalizing (S i) out (SKIP (buf + i) nz).
Proof.
  intros [Hl Hf Hne Hroom Hs He Ho Hout]. unfold SKIP.
  split; cbn [memory nz_start include_len last_skipped tgt_newend]; try done; try lia.
  - intros q Hq. apply Hf. lia.
  - case_if; lia.
  - case_if; lia.
  - rewrite Hout. f_equal. case_if; [|done].
    assert (include_len nz = 0%nat) as -> by lia. by rewrite !take_0.
Qed.

Lemma insert_skip_ok i out nz x :
  (i < len)%nat → normalizing i out nz →
  ∃ nz', (let! nz := INSERT (buf + i) x nz in Ok (SKIP (buf + i) nz)) = Ok nz'
    ∧ normalizing (S i) (out ++ [x]) nz'.
Proof.
  intros Hi Hn. unfold INSERT.
  destruct (copy_included_section_ok i out nz) as (nz1 & -> & Hn1 & H0 & H1 & _); [lia|done|].
  cbn [rbind]. destruct Hn1 as [Hl Hf Hne Hroom Hs He Ho Hout]. rewrite H0, H1 in *.
  destruct (write_bytes_ok (memory nz1) (tgt_newend nz1) [x]) as (mem & -> & Hlen & Hsame & Hread);
    [simpl; lia|]. cbn [length] in *.
  cbn [rbind]. eexists. split; [done|].
  unfold SKIP. cbn [nz_start]. rewrite Nat.eqb_refl.
  split; cbn [memory nz_start include_len last_skipped tgt_newend]; try lia; try done.
  - intros q Hq. rewrite Hsame by lia. apply Hf. lia.
  - rewrite Hread by done. rewrite Hout, !take_0, !app_nil_r. done.
Qed.

Lemma include_as_ok i out nz c x :
  (i < len)%nat → normalizing i out nz → mem0 !! (buf + i)%nat = Some c →
  ∃ nz', INCLUDE_AS (buf + i) x nz = Ok nz' ∧ normalizing (S i) (out ++ [x]) nz'.
Proof.
  intros Hi Hn Hc. unfold INCLUDE_AS, read_byte.
  rewrite (ahead i out nz i Hn) by lia. rewrite Hc. cbn [from_option rbind].
  unfold byte_eqb. case_bool_decide as Hcx.
  - subst c. by apply include_ok.
  - by apply insert_skip_ok.
Qed.

Lemma normalize_byte_ok i out nz c state :
  (i < len)%nat → normalizing i out nz → mem0 !! (buf + i)%nat = Some c →
  ∃ nz', normalize_byte opts (buf + i) state nz = Ok ((normalized_byte opts state c).2, nz')
    ∧ normalizing (S i) (out ++ (normalized_byte opts state c).1) nz'.
Proof.
  intros Hi Hn Hc. unfold normalize_byte, normalized_byte, read_byte.
  rewrite (ahead i out nz i Hn) by lia. rewrite Hc. cbn [from_option rbind].
  destruct (c =b? x0d) eqn:Hcr.
  { apply bool_decide_eq_true in Hcr as ->.
    destruct (ignore_eol_style opts);
      [edestruct include_as_ok as (nz' & -> & Hn')|edestruct include_ok as (nz' & -> & Hn')];
      try done; by exists nz'. }
  destruct (c =b? x0a) eqn:Hnl.
  { apply bool_decide_eq_true in Hnl as ->. case_if.
    - exists (SKIP (buf + i) nz). split; [done|]. rewrite app_nil_r. by apply skip_ok.
    - edestruct include_ok as (nz' & -> & Hn'); try done. by exists nz'. }
  destruct (svn_ctype_isspace c); cbn [andb];
    [destruct (ignore_space opts); cbn [bool_decide negb decide_rel ignore_space_eq_dec]|].
  all: try (edestruct include_ok as (nz' & -> & Hn'); try done; by exists nz').
  - replace (bool_decide (svn_diff_file_ignore_space_change = svn_diff_file_ignore_space_none))
      with false by done.
    replace (bool_decide (svn_diff_file_ignore_space_change = svn_diff_file_ignore_space_change))
      with true by done. cbn [negb]. rewrite andb_true_r. case_bool_decide; cbn [negb].
    + exists (SKIP (buf + i) nz). split; [done|]. rewrite app_nil_r. by apply skip_ok.
    + edestruct include_as_ok as (nz' & -> & Hn'); try done. by exists nz'.
  - replace (bool_decide (svn_diff_file_ignore_space_all = svn_diff_file_ignore_space_none))
      with false by done.
    replace (bool_decide (svn_diff_file_ignore_space_all = svn_diff_file_ignore_space_change))
      with false by done. cbn [negb]. rewrite andb_false_r.
    exists (SKIP (buf + i) nz). split; [done|]. rewrite app_nil_r. by apply skip_ok.
Qed.

Lemma normalize_loop_ok n i out nz state :
  (i + n = len)%nat → normalizing i out nz →
  ∃ nz', normalize_loop opts n (buf + i) state nz
         = Ok ((normalized opts state (take n (drop (buf + i) mem0))).2, nz')
    ∧ normalizing len (out ++ (normalized opts state (take n (drop (buf + i) mem0))).1) nz'.
Proof.
  revert i out nz state; induction n as [|n IH]; intros i out nz state Hi Hn.
  { exists nz. split; [done|]. rewrite take_0. cbn [normalized fst]. rewrite app_nil_r.
    by replace len with i by lia. }
  assert (buf + i < length mem0)%nat as Hlt by lia.
  destruct (lookup_lt_is_Some_2 _ _ Hlt) as [c Hc].
  cbn [normalize_loop]. destruct (normalize_byte_ok i out nz c state) as (nz1 & -> & Hn1);
    [lia|done|done|].
  cbn [rbind]. rewrite (drop_S _ _ _ Hc). cbn [take normalized].
  destruct (normalized_byte opts state c) as [o st] eqn:Hb. cbn [fst snd] in *.
  rewrite <- Nat.add_succ_r. destruct (IH (S i) (out ++ o) nz1 st) as (nz' & -> & Hn'); [lia|done|].
  exists nz'. destruct (normalized opts st (take n (drop (buf + S i) mem0))) as [rest st'].
  cbn [fst snd] in *. split; [done|]. by rewrite app_assoc.
Qed.

Lemma normalize_buffer_ok state :
  ∃ mem tgt' len' state',
    svn_diff__normalize_buffer opts mem0 tgt len state buf = Ok (mem, tgt', len', state')
    ∧ length mem = length mem0
    ∧ (∀ q, (q < tgt ∨ tgt + len <= q)%nat → mem !! q = mem0 !! q)
    ∧ read_bytes mem tgt' len' = Ok (normalized opts state (take len (drop buf mem0))).1
    ∧ (ignore_space opts ≠ svn_diff_file_ignore_space_none ∨ ignore_eol_style opts = true →
       state' = (normalized opts state (take len (drop buf mem0))).2).
Proof.
  unfold svn_diff__normalize_buffer.
  destruct (bool_decide (ignore_space opts = svn_diff_file_ignore_space_none)
            && negb (ignore_eol_style opts)) eqn:Hnoop.
  { apply andb_true_iff in Hnoop as [Hsp Heol]. apply bool_decide_eq_true in Hsp.
    apply negb_true_iff in Heol. exists mem0, buf, len, state. do 3 (split; [done|]).
    split; [|intros [?|?]; congruence]. rewrite read_bytes_ok by done. f_equal.
    by rewrite normalized_nothing. }
  destruct (normalize_loop_ok len 0 [] _ state eq_refl normalizing_start) as (nz & Hloop & Hn).
  rewrite Nat.add_0_r in *. rewrite Hloop. cbn [rbind]. cbn [app] in Hn.
  destruct (normalized opts state (take len (drop buf mem0))) as [out st] eqn:Hout.
  cbn [fst snd] in *. destruct (Nat.eqb_spec tgt (tgt_newend nz)) as [Heq|Hne].
  - destruct Hn as [Hl Hf _ Hroom Hs He _ Ho]. rewrite <- Heq, Nat.sub_diag, take_0 in Ho.
    eexists _, _, _, _. split; [done|]. split; [done|]. split; [done|]. split; [|done].
    rewrite read_bytes_ok by lia. by rewrite Ho.
  - destruct (copy_included_section_ok len out nz) as (nz' & -> & Hn' & H0 & _ & _); [lia|done|].
    cbn [rbind]. destruct Hn' as [Hl Hf Hnew Hroom Hs He _ Ho]. rewrite H0, take_0, app_nil_r in Ho.
    eexists _, _, _, _. split; [done|]. split; [done|]. split; [done|]. split; [|done].
    rewrite read_bytes_ok by lia. by rewrite Ho.
Qed.
End Normalize.

Lemma normalized_app opts state bytes1 bytes2 :
  normalized opts state (bytes1 ++ bytes2)
  = let '(out1, state) := normalized opts state bytes1 in
    let '(out2, state) := normalized opts state bytes2 in
    (out1 ++ out2, state).
Proof.
  revert state; induction bytes1 as [|c bytes1 IH]; intros state; cbn [app normalized].
  { by destruct (normalized opts state bytes2). }
  destruct (normalized_byte opts state c) as [o st]. rewrite IH.
  destruct (normalized opts st bytes1) as [out1 st1].
  destruct (normalized opts st1 bytes2) as [out2 st2]. by rewrite <- app_assoc.
Qed.

(** ** The theorem *)


