(* ===== verification/DiffMemory.v ===== *)
(** * Diffs of texts in memory

    [src/subversion/libsvn_diff/diff_memory.c] up to [svn_diff_mem_string_diff],
    with [svn__adler32] of [libsvn_subr/adler32.c]: the datasources are strings in
    memory, the tokens their lines.  [normalization_options], a field of the baton
    that is never changed, is a parameter.

    zlib's [adler32], which hashes long lines, is a parameter with its documented
    result. *)
From S2P Require Import Prelude Cstrings Memory DiffLcs DiffTokens Diff Diff3 DiffNormalize.

(** ** The checksum *)

Definition ADLER_MOD_BASE : Z := 65521.

(** The sums of RFC 1950. *)
Fixpoint adler_sums (s1 s2 : Z) (data : list byte) : Z * Z :=
  match data with
  | [] => (s1, s2)
  | b :: data =>
      let s1 := (s1 + byte_val b) mod ADLER_MOD_BASE in
      adler_sums s1 ((s2 + s1) mod ADLER_MOD_BASE) data
  end.

Definition adler_checksum (s : Z * Z) : Z := Z.lor (Z.shiftl s.2 16) s.1.

Class ZlibAdler := {
  adler32 : Z → list byte → Z;
  adler32_spec s1 s2 data :
    0 <= s1 < ADLER_MOD_BASE → 0 <= s2 < ADLER_MOD_BASE →
    adler32 (adler_checksum (s1, s2)) data = adler_checksum (adler_sums s1 s2 data);
}.

(** The loops of [svn__adler32], eight bytes at a time and the rest. *)
Fixpoint adler_loop (s1 s2 : Z) (input : list byte) : Z * Z :=
  match input with
  | [] => (s1, s2)
  | b :: input => let s1 := u32 (s1 + byte_val b) in adler_loop s1 (u32 (s2 + s1)) input
  end.

Definition svn__adler32 `{!ZlibAdler} (checksum : Z) (data : list byte) : Z :=
  if (80 <=? length data)%nat then adler32 checksum data
  else
    let '(s1, s2) := adler_loop (Z.land checksum 0xFFFF) (Z.shiftr checksum 16) data in
    Z.lor (Z.shiftl (s2 mod ADLER_MOD_BASE) 16) (s1 mod ADLER_MOD_BASE).

(** ** Tokens *)

Record source_tokens_t := MkSource {
  tokens : list (list byte);
  next_token : nat;
  source : list byte;
  ends_without_eol : bool;
}.

(** The loop of [fill_source_tokens]: [line] holds the bytes from [startp] on.
    Returns the tokens and what remains. *)
Fixpoint fill_loop (line text : list byte) : list (list byte) * list byte :=
  match text with
  | [] => ([], line)
  | c :: rest =>
      match rest with
      | n :: rest' =>
          if (c =b? x0d) && (n =b? x0a) then
            let '(tokens, remaining) := fill_loop [] rest' in
            ((line ++ [c; n]) :: tokens, remaining)
          else if (c =b? x0d) || (c =b? x0a) then
            let '(tokens, remaining) := fill_loop [] rest in
            ((line ++ [c]) :: tokens, remaining)
          else fill_loop (line ++ [c]) rest
      | [] =>
          if (c =b? x0d) || (c =b? x0a) then ([line ++ [c]], []) else ([], line ++ [c])
      end
  end.

Definition fill_source_tokens (text : list byte) : source_tokens_t :=
  let '(tokens, remaining) := fill_loop [] text in
  match remaining with
  | [] => MkSource tokens 0 text false
  | _ => MkSource (tokens ++ [remaining]) 0 text true
  end.

(** ** The callbacks *)

Record diff_mem_baton_t := MkMemBaton {
  sources : list source_tokens_t;
  normalization_buf0 : list byte;
  normalization_buf1 : list byte;
}.

Definition datasource_to_index (datasource : svn_diff_datasource_e) : nat :=
  match datasource with
  | svn_diff_datasource_original => 0
  | svn_diff_datasource_modified => 1
  | svn_diff_datasource_latest => 2
  | svn_diff_datasource_ancestor => 3
  end.

(** The first bytes that differ decide. *)
Fixpoint memcmp (a b : list byte) : Z :=
  match a, b with
  | x :: a, y :: b => if x =b? y then memcmp a b else byte_val x - byte_val y
  | _, _ => 0
  end.

Section Callbacks.
Context `{!ZlibAdler} (normalization_options : svn_diff_file_options_t).

(** The normalized text of a token, and the buffer that was offered for it. *)
Definition normalize_token (tok buf : list byte) : result (list byte * list byte) :=
  let! (mem, tgt, len, _) :=
    svn_diff__normalize_buffer normalization_options (tok ++ buf) (length tok) (length tok)
      svn_diff__normalize_state_normal 0 in
  let! bytes := read_bytes mem tgt len in
  Ok (bytes, drop (length tok) mem).

Definition mem_datasources_open (baton : diff_mem_baton_t)
    (datasources : list svn_diff_datasource_e) : result (diff_mem_baton_t * Z * Z) :=
  Ok (baton, 0, 0).

Definition mem_datasource_close (baton : diff_mem_baton_t) (datasource : svn_diff_datasource_e)
    : result diff_mem_baton_t := Ok baton.

Definition mem_datasource_get_next_token (baton : diff_mem_baton_t)
    (datasource : svn_diff_datasource_e)
    : result (diff_mem_baton_t * option (Z * list byte)) :=
  let! src := from_option Ok Undefined (sources baton !! datasource_to_index datasource) in
  match tokens src !! next_token src with
  | Some tok =>
      let! (bytes, buf) := normalize_token tok (normalization_buf0 baton) in
      let src := MkSource (tokens src) (next_token src + 1) (source src) (ends_without_eol src) in
      Ok (MkMemBaton (<[datasource_to_index datasource := src]> (sources baton))
            buf (normalization_buf1 baton),
          Some (svn__adler32 0 bytes, tok))
  | None => Ok (baton, None)
  end.

Definition mem_token_compare (baton : diff_mem_baton_t) (token1 token2 : list byte)
    : result (diff_mem_baton_t * Z) :=
  let! (bytes1, buf0) := normalize_token token1 (normalization_buf0 baton) in
  let! (bytes2, buf1) := normalize_token token2 (normalization_buf1 baton) in
  let result :=
    if negb (length bytes1 =? length bytes2)%nat
    then if (length bytes1 <? length bytes2)%nat then -1 else 1
    else if (length bytes1 =? 0)%nat then 0 else memcmp bytes1 bytes2 in
  Ok (MkMemBaton (sources baton) buf0 buf1, result).

Definition mem_token_discard (baton : diff_mem_baton_t) (token : list byte)
    : diff_mem_baton_t := baton.

Definition mem_token_discard_all (baton : diff_mem_baton_t) : diff_mem_baton_t := baton.

#[global] Instance svn_diff__mem_vtable : svn_diff_fns2_t diff_mem_baton_t (list byte) := {|
  datasources_open := mem_datasources_open;
  datasource_close := mem_datasource_close;
  datasource_get_next_token := mem_datasource_get_next_token;
  token_compare := mem_token_compare;
  token_discard := Some mem_token_discard;
  token_discard_all := Some mem_token_discard_all;
|}.

(** ** Comparing strings *)

(** The bytes of fresh memory are not specified; zeros stand for them. *)
Definition alloc_normalization_bufs (sources : list source_tokens_t) : diff_mem_baton_t :=
  let max_len := max_list_with (λ src, max_list_with length (tokens src)) sources in
  MkMemBaton sources (replicate max_len x00) (replicate max_len x00).

(** Files have at most one line for each byte. *)
Definition svn_diff_mem_string_diff (original modified : list byte)
    : result (list svn_diff_t) :=
  let baton := alloc_normalization_bufs
                 [fill_source_tokens original; fill_source_tokens modified] in
  let! (_, diff) := svn_diff_diff_2 (S (length original + length modified)) baton in
  Ok diff.

Definition svn_diff_mem_string_diff3 (original modified latest : list byte)
    : result (list svn_diff_t) :=
  let baton := alloc_normalization_bufs
                 [fill_source_tokens original; fill_source_tokens modified;
                  fill_source_tokens latest] in
  let! (_, diff) := svn_diff_diff3_2 (S (length original + length modified + length latest)) baton in
  Ok diff.
End Callbacks.

Lemma adler_checksum_sums s1 s2 :
  0 <= s1 < ADLER_MOD_BASE → 0 <= s2 < ADLER_MOD_BASE →
  0 <= adler_checksum (s1, s2) < 0x100000000
  ∧ Z.land (adler_checksum (s1, s2)) 0xFFFF = s1 ∧ Z.shiftr (adler_checksum (s1, s2)) 16 = s2.
Proof.
  unfold ADLER_MOD_BASE, adler_checksum. intros H1 H2. cbn [fst snd].
  change 0xFFFF with (Z.ones 16). rewrite (lor_add s2 s1) by lia.
  rewrite Z.land_ones, Z.shiftr_div_pow2 by lia. Z.div_mod_to_equations. lia.
Qed.

(** With the reference checksum in place of zlib's. *)
#[global] Program Instance reference_ZlibAdler : ZlibAdler := {|
  adler32 checksum data :=
    adler_checksum (adler_sums (Z.land checksum 0xFFFF) (Z.shiftr checksum 16) data);
|}.
Next Obligation.
  intros s1 s2 data H1 H2. by destruct (adler_checksum_sums s1 s2 H1 H2) as (_ & -> & ->).
Qed.

Example svn_diff_mem_string_diff_example :
  svn_diff_mem_string_diff (MkOptions svn_diff_file_ignore_space_change true)
    (String.list_byte_of_string "one" ++ [x0d; x0a]
     ++ String.list_byte_of_string "two" ++ [x0a] ++ String.list_byte_of_string "three")
    (String.list_byte_of_string "one" ++ [x0a]
     ++ String.list_byte_of_string "2" ++ [x0a] ++ String.list_byte_of_string "three")
  = Ok [MkDiff svn_diff__type_common 0 1 0 1 0 0 [];
        MkDiff svn_diff__type_diff_modified 1 1 1 1 0 0 [];
        MkDiff svn_diff__type_common 2 1 2 1 0 0 []].
Proof. vm_compute. reflexivity. Qed.

Example svn_diff_mem_string_diff3_example :
  let lines s := flat_map (λ c, [c; x0a]) (String.list_byte_of_string s) in
  svn_diff_mem_string_diff3 (MkOptions svn_diff_file_ignore_space_none false)
    (lines "abcde") (lines "abXde") (lines "abYdez")
  = Ok [MkDiff svn_diff__type_common 0 2 0 2 0 2 [];
        MkDiff svn_diff__type_conflict 2 1 2 1 2 1
          [MkDiff svn_diff__type_conflict 2 1 2 1 2 1 []];
        MkDiff svn_diff__type_common 3 2 3 2 3 2 [];
        MkDiff svn_diff__type_diff_latest 5 0 5 0 5 1 []].
Proof. vm_compute. reflexivity. Qed.
