(* ===== verification/DiffMemoryCorrect.v ===== *)
(** * Properties of diffs of texts in memory

    The callbacks of [diff_memory.c] keep the promises of the vtable, so that the
    diff of two strings is a diff of their lines. *)
From S2P Require Import Prelude Cstrings Memory DiffLcs DiffTokens DiffTokensCorrect Diff DiffCorrect Diff3 Diff3Conflict Diff3Correct Diff3Theorems DiffNormalize DiffNormalizeCorrect DiffMemory.

(** ** The checksum *)

Lemma adler_sums_range s1 s2 data :
  0 <= s1 < ADLER_MOD_BASE → 0 <= s2 < ADLER_MOD_BASE →
  0 <= (adler_sums s1 s2 data).1 < ADLER_MOD_BASE
  ∧ 0 <= (adler_sums s1 s2 data).2 < ADLER_MOD_BASE.
Proof.
  revert s1 s2; induction data as [|b data IH]; intros s1 s2 H1 H2; [done|].
  cbn [adler_sums]. unfold ADLER_MOD_BASE in *.
  apply IH; apply Z.mod_pos_bound; lia.
Qed.

(** As long as the sums fit 32 bits, they can be reduced at the end. *)
Lemma adler_loop_ok s1 s2 input n :
  Z.of_nat (length input) <= n → 0 <= s1 → 0 <= s2 →
  s1 + 255 * n < 0x100000000 → s2 + n * (s1 + 255 * n) < 0x100000000 →
  ((adler_loop s1 s2 input).1 mod ADLER_MOD_BASE, (adler_loop s1 s2 input).2 mod ADLER_MOD_BASE)
  = adler_sums (s1 mod ADLER_MOD_BASE) (s2 mod ADLER_MOD_BASE) input.
Proof.
  revert s1 s2 n; induction input as [|b input IH]; intros s1 s2 n Hn H1 H2 Hb1 Hb2; [done|].
  cbn [adler_loop adler_sums length] in *. pose proof (byte_val_range b).
  rewrite (u32_small (s1 + byte_val b)) by lia. rewrite (u32_small (s2 + _)) by nia.
  rewrite (IH _ _ (n - 1)) by nia. f_equal.
  - unfold ADLER_MOD_BASE. by rewrite Zplus_mod_idemp_l.
  - unfold ADLER_MOD_BASE. by rewrite (Zplus_mod_idemp_l s1), Zplus_mod_idemp_l, Zplus_mod_idemp_r.
Qed.

Lemma svn__adler32_sums `{!ZlibAdler} (s1 s2 : Z) (data : list byte) :
  0 <= s1 < ADLER_MOD_BASE → 0 <= s2 < ADLER_MOD_BASE →
  svn__adler32 (adler_checksum (s1, s2)) data = adler_checksum (adler_sums s1 s2 data).
Proof.
  intros H1 H2. unfold svn__adler32. case_if; [by apply adler32_spec|].
  destruct (adler_checksum_sums s1 s2 H1 H2) as (_ & -> & ->).
  pose proof (adler_loop_ok s1 s2 data 80) as Hloop. unfold ADLER_MOD_BASE in *.
  rewrite (Z.mod_small s1), (Z.mod_small s2) in Hloop by lia.
  destruct (adler_loop s1 s2 data) as [r1 r2]. rewrite <- Hloop by lia. done.
Qed.

Section Callbacks.
Context `{!ZlibAdler} (opts : svn_diff_file_options_t).

(** ** Comparing tokens *)

Definition norm (tok : list byte) : list byte :=
  (normalized opts svn_diff__normalize_state_normal tok).1.

Definition mem_rank (t u : list byte) : Z :=
  if negb (length (norm t) =? length (norm u))%nat
  then if (length (norm t) <? length (norm u))%nat then -1 else 1
  else if (length (norm t) =? 0)%nat then 0 else memcmp (norm t) (norm u).

Lemma memcmp_zero a b : length a = length b → memcmp a b = 0 ↔ a = b.
Proof.
  revert b; induction a as [|x a IH]; intros [|y b] Hl; try done. injection Hl as Hl.
  cbn [memcmp]. unfold byte_eqb. case_bool_decide as Hxy.
  - rewrite (IH _ Hl), Hxy. naive_solver.
  - split; [|naive_solver]. intros H0. destruct Hxy. apply byte_val_inj. lia.
Qed.

Lemma mem_rank_zero t u : mem_rank t u = 0 ↔ norm t = norm u.
Proof.
  unfold mem_rank. destruct (Nat.eqb_spec (length (norm t)) (length (norm u))) as [Hl|Hl];
    cbn [negb].
  - case_if; [|by apply memcmp_zero]. split; [|done]. intros _.
    destruct (norm t), (norm u); simpl in *; lia || done.
  - split; [case_if; lia|]. intros Heq. by rewrite Heq in Hl.
Qed.

Definition mem_hash (t : list byte) : Z := svn__adler32 0 (norm t).

Lemma mem_hash_range t : 0 <= mem_hash t < 0x100000000.
Proof.
  unfold mem_hash.
  assert (svn__adler32 0 (norm t) = adler_checksum (adler_sums 0 0 (norm t))) as ->
    by by apply (svn__adler32_sums 0 0).
  destruct (adler_sums_range 0 0 (norm t)) as [H1 H2]; [done..|].
  destruct (adler_sums 0 0 (norm t)) as [s1 s2]. apply (adler_checksum_sums s1 s2 H1 H2).
Qed.

Lemma normalize_token_ok tok buf :
  (length tok <= length buf)%nat →
  ∃ buf', normalize_token opts tok buf = Ok (norm tok, buf') ∧ length buf' = length buf.
Proof.
  intros Hl. unfold normalize_token.
  destruct (normalize_buffer_ok opts (tok ++ buf) 0 (length tok) (length tok)
    ltac:(rewrite length_app; lia) ltac:(rewrite length_app; lia) ltac:(lia)
    svn_diff__normalize_state_normal) as (mem & tgt & len & st & -> & Hlen & _ & Hread & _).
  cbn [rbind]. rewrite drop_0, take_app_length in Hread. rewrite Hread. cbn [rbind].
  eexists. split; [done|]. rewrite length_drop, Hlen, length_app. lia.
Qed.

(** ** The promises *)

Definition source_at (b : diff_mem_baton_t) (s : svn_diff_datasource_e) : option source_tokens_t :=
  sources b !! datasource_to_index s.

Definition mem_contents (b : diff_mem_baton_t) (s : svn_diff_datasource_e) : list (list byte) :=
  match source_at b s with Some src => tokens src | None => [] end.

Definition mem_pending (b : diff_mem_baton_t) (s : svn_diff_datasource_e) : list (list byte) :=
  match source_at b s with Some src => drop (next_token src) (tokens src) | None => [] end.

(** Every token fits the normalization buffers. *)
Definition mem_usable (b : diff_mem_baton_t) (ss : list svn_diff_datasource_e) : Prop :=
  (∀ s, s ∈ ss → is_Some (source_at b s))
  ∧ ∀ s tok, tok ∈ mem_contents b s →
      (length tok <= length (normalization_buf0 b))%nat
      ∧ (length tok <= length (normalization_buf1 b))%nat.

Definition mem_openable (b : diff_mem_baton_t) (ss : list svn_diff_datasource_e) : Prop :=
  mem_usable b ss ∧ ∀ s src, source_at b s = Some src → next_token src = 0%nat.

Lemma datasource_to_index_inj s s' : datasource_to_index s = datasource_to_index s' → s = s'.
Proof. by destruct s, s'. Qed.

Lemma mem_next_ok b ss s :
  mem_usable b ss → s ∈ ss →
  ∃ b', mem_datasource_get_next_token opts b s
        = Ok (b', match mem_pending b s with t :: _ => Some (mem_hash t, t) | [] => None end)
    ∧ mem_usable b' ss ∧ (∀ s', mem_contents b' s' = mem_contents b s')
    ∧ mem_pending b' s = tail (mem_pending b s)
    ∧ ∀ s', s' ≠ s → mem_pending b' s' = mem_pending b s'.
Proof.
  intros [Hsome Hfit] Hs. destruct (Hsome s Hs) as [src Hsrc].
  unfold mem_datasource_get_next_token, mem_pending. fold (source_at b s). rewrite Hsrc.
  cbn [from_option rbind].
  destruct (tokens src !! next_token src) as [tok|] eqn:Htok.
  - assert (tok ∈ mem_contents b s) as Hin
      by (unfold mem_contents; rewrite Hsrc; by eapply list_elem_of_lookup_2).
    destruct (normalize_token_ok tok (normalization_buf0 b)) as (buf & -> & Hbuf);
      [by eapply Hfit|].
    cbn [rbind]. rewrite (drop_S _ _ _ Htok). eexists. split; [done|].
    set (src' := MkSource _ _ _ _). set (b' := MkMemBaton _ _ _).
    assert (∀ s', source_at b' s' = if decide (s' = s) then Some src' else source_at b s') as Hat.
    { intros s'. unfold source_at, b'. cbn [sources]. case_decide as Hss.
      - subst s'. apply list_lookup_insert_eq. by eapply lookup_lt_Some.
      - apply list_lookup_insert_ne. by intros ?%datasource_to_index_inj. }
    assert (∀ s', mem_contents b' s' = mem_contents b s') as Hc.
    { intros s'. unfold mem_contents. rewrite Hat. case_decide; [subst s'; by rewrite Hsrc|done]. }
    split.
    + split.
      * intros s' Hs'. rewrite Hat. case_decide; [done|by apply Hsome].
      * intros s' t. rewrite Hc. unfold b'. cbn [normalization_buf0 normalization_buf1].
        rewrite Hbuf. apply Hfit.
    + split; [done|]. split.
      * rewrite Hat, decide_True by done. cbn [tokens next_token src'].
        by rewrite Nat.add_1_r.
      * intros s' Hne. rewrite Hat, decide_False by done. done.
  - rewrite drop_ge by by apply lookup_ge_None. exists b. split; [done|]. split; [done|].
    split; [done|]. split; [|done]. rewrite Hsrc. by rewrite drop_ge by by apply lookup_ge_None.
Qed.

Lemma mem_compare_ok b ss s s' t u :
  mem_usable b ss → t ∈ mem_contents b s → u ∈ mem_contents b s' →
  ∃ b', mem_token_compare opts b t u = Ok (b', mem_rank t u)
    ∧ mem_usable b' ss ∧ (∀ s, mem_contents b' s = mem_contents b s)
    ∧ ∀ s, mem_pending b' s = mem_pending b s.
Proof.
  intros [Hsome Hfit] Ht Hu. unfold mem_token_compare.
  destruct (normalize_token_ok t (normalization_buf0 b)) as (buf0 & -> & Hb0); [by eapply Hfit|].
  destruct (normalize_token_ok u (normalization_buf1 b)) as (buf1 & -> & Hb1); [by eapply Hfit|].
  cbn [rbind]. eexists. split; [done|]. split; [|done].
  split; [done|]. cbn [normalization_buf0 normalization_buf1]. rewrite Hb0, Hb1. done.
Qed.

#[local] Program Instance mem_spec :
  DiffFnsSpec diff_mem_baton_t (list byte) (svn_diff_fns2_t0 := svn_diff__mem_vtable opts) := {|
  openable := mem_openable;
  usable := mem_usable;
  contents := mem_contents;
  pending := mem_pending;
  rank := mem_rank;
  hash_of := mem_hash;
|}.
Next Obligation. intros t. by apply mem_rank_zero. Qed.
Next Obligation. intros t u. rewrite !mem_rank_zero. done. Qed.
Next Obligation. intros t u v Htu%mem_rank_zero. unfold mem_rank. by rewrite Htu. Qed.
Next Obligation. intros t u v Htu%mem_rank_zero. unfold mem_rank. by rewrite Htu. Qed.
Next Obligation. intros t u Htu%mem_rank_zero. unfold mem_hash. by rewrite Htu. Qed.
Next Obligation. apply mem_hash_range. Qed.
Next Obligation.
  intros b ss s t _. unfold mem_pending, mem_contents. destruct (source_at b s); [|done].
  intros (i & Hi)%list_elem_of_lookup. rewrite lookup_drop in Hi. by eapply list_elem_of_lookup_2.
Qed.
Next Obligation.
  intros b ss [Hu Hnext] _. exists b, 0%nat, 0%nat. split; [done|]. split; [done|].
  split; [done|]. split; [|split; intros; lia].
  intros s Hs. exists [], []. split; [|done]. rewrite app_nil_r. cbn [app].
  unfold mem_contents, mem_pending. destruct (source_at b s) as [src|] eqn:Hsrc; [|done].
  by rewrite (Hnext _ _ Hsrc), drop_0.
Qed.
Next Obligation. intros b ss s Hu _. by exists b. Qed.
Next Obligation. intros b ss s. apply mem_next_ok. Qed.
Next Obligation. intros b ss s s' t u. apply mem_compare_ok. Qed.
Next Obligation. intros b ss t f Hu [= <-]. done. Qed.
End Callbacks.

(** ** Lines *)

Definition no_eol (c : byte) : Prop := c ≠ x0d ∧ c ≠ x0a.

(** A line with its end: CR, LF, or CR LF. *)
Definition is_line (l : list byte) : Prop :=
  ∃ body eol, l = body ++ eol ∧ Forall no_eol body
    ∧ eol ∈ [[x0d]; [x0a]; [x0d; x0a]].

(** No line break lies between a CR and a LF. *)
Definition whole_ends (lines : list (list byte)) : Prop :=
  ∀ lines1 l l' lines2, lines = lines1 ++ l :: l' :: lines2 →
    last l = Some x0d → head l' ≠ Some x0a.

Lemma is_line_nonempty l : is_line l → l ≠ [].
Proof.
  intros (body & eol & -> & _ & Heol) Hnil. apply app_eq_nil in Hnil as [_ ->]. set_solver.
Qed.

Lemma is_line_end body eol :
  Forall no_eol body → eol ∈ [[x0d]; [x0a]; [x0d; x0a]] → is_line (body ++ eol).
Proof. intros. by exists body, eol. Qed.

Lemma whole_ends_cons l lines remaining text :
  whole_ends (lines ++ match remaining with [] => [] | _ => [remaining] end) →
  concat lines ++ remaining = text → Forall is_line lines →
  (last l = Some x0d → head text ≠ Some x0a) →
  whole_ends ((l :: lines) ++ match remaining with [] => [] | _ => [remaining] end).
Proof.
  intros Hw Htext Hlines Hl [|k lines1] l1 l' lines2 Heq; injection Heq as <- Heq;
    [|by eapply Hw].
  intros Hlast Hhead. apply (Hl Hlast). rewrite <- Htext.
  destruct lines as [|m lines]; cbn [app concat] in *.
  - destruct remaining as [|c remaining]; [done|]. by injection Heq as <- _.
  - injection Heq as <- _. apply Forall_cons in Hlines as [Hm _].
    apply is_line_nonempty in Hm. by destruct m.
Qed.

Lemma fill_loop_cons line c d text :
  fill_loop line (c :: d :: text)
  = if (c =b? x0d) && (d =b? x0a) then
      let '(tokens, remaining) := fill_loop [] text in ((line ++ [c; d]) :: tokens, remaining)
    else if (c =b? x0d) || (c =b? x0a) then
      let '(tokens, remaining) := fill_loop [] (d :: text) in ((line ++ [c]) :: tokens, remaining)
    else fill_loop (line ++ [c]) (d :: text).
Proof. done. Qed.

Lemma fill_loop_ok n line text :
  (length text <= n)%nat → Forall no_eol line →
  let '(lines, remaining) := fill_loop line text in
  concat lines ++ remaining = line ++ text
  ∧ Forall is_line lines ∧ Forall no_eol remaining
  ∧ whole_ends (lines ++ match remaining with [] => [] | _ => [remaining] end).
Proof.
  revert line text; induction n as [|n IH]; intros line text Hn Hline.
  { destruct text; [|simpl in Hn; lia]. cbn [fill_loop]. rewrite app_nil_r.
    split; [done|]. split; [done|]. split; [done|].
    intros [|? []] ???; destruct line; done. }
  destruct text as [|c text].
  { cbn [fill_loop]. rewrite app_nil_r. split; [done|]. split; [done|]. split; [done|].
    intros [|? []] ???; destruct line; done. }
  assert (∀ eol rest, eol ∈ [[x0d]; [x0a]; [x0d; x0a]] → (length rest <= n)%nat →
    (last (line ++ eol) = Some x0d → head rest ≠ Some x0a) →
    let '(lines, remaining) :=
      let '(tokens, remaining) := fill_loop [] rest in ((line ++ eol) :: tokens, remaining) in
    concat lines ++ remaining = line ++ eol ++ rest
    ∧ Forall is_line lines ∧ Forall no_eol remaining
    ∧ whole_ends (lines ++ match remaining with [] => [] | _ => [remaining] end)) as Hpush.
  { intros eol rest Heol Hrest Hend. specialize (IH [] rest Hrest (Forall_nil_2 _)).
    destruct (fill_loop [] rest) as [lines remaining]. destruct IH as (Hc & Hl & Hr & Hw).
    cbn [concat app] in *. split; [by rewrite <- !app_assoc, Hc|].
    split; [constructor; [by apply is_line_end|done]|]. split; [done|].
    by eapply whole_ends_cons. }
  cbn [length] in Hn. destruct text as [|d text].
  { cbn [fill_loop]. case_if.
    - specialize (Hpush [c] []). cbn [fill_loop app] in Hpush. apply Hpush; [|simpl; lia|done].
      unfold byte_eqb in *. repeat case_bool_decide; subst; set_solver.
    - split; [done|]. split; [done|]. split.
      + apply Forall_app. split; [done|]. unfold byte_eqb in *. repeat case_bool_decide; [done..|].
        by constructor.
      + intros [|? []] ???; by destruct line. }
  rewrite fill_loop_cons.
  unfold byte_eqb. case_bool_decide as Hc; case_bool_decide as Hd; cbn [andb orb].
  - subst. apply (Hpush [x0d; x0a] text); [set_solver|simpl in *; lia|].
    replace (line ++ [x0d; x0a]) with ((line ++ [x0d]) ++ [x0a]) by by rewrite <- app_assoc.
    by rewrite last_snoc.
  - subst. apply (Hpush [x0d] (d :: text)); [set_solver|simpl in *; lia|]. cbn. congruence.
  - case_bool_decide as Hlf.
    + subst. apply (Hpush [x0a] (x0a :: text)); [set_solver|simpl in *; lia|].
      rewrite last_snoc. done.
    + specialize (IH (line ++ [c]) (x0a :: text)). subst d.
      destruct (fill_loop (line ++ [c]) (x0a :: text)). rewrite <- app_assoc in IH.
      apply IH; [simpl in *; lia|]. apply Forall_app. by repeat constructor.
  - case_bool_decide as Hlf.
    + subst. apply (Hpush [x0a] (d :: text)); [set_solver|simpl in *; lia|].
      rewrite last_snoc. done.
    + specialize (IH (line ++ [c]) (d :: text)).
      destruct (fill_loop (line ++ [c]) (d :: text)). rewrite <- app_assoc in IH.
      apply IH; [simpl in *; lia|]. apply Forall_app. by repeat constructor.
Qed.

Lemma fill_source_tokens_ok text :
  let src := fill_source_tokens text in
  concat (tokens src) = text ∧ next_token src = 0%nat ∧ whole_ends (tokens src)
  ∧ if ends_without_eol src
    then ∃ lines l, tokens src = lines ++ [l] ∧ Forall is_line lines ∧ l ≠ [] ∧ Forall no_eol l
    else Forall is_line (tokens src).
Proof.
  unfold fill_source_tokens.
  assert (Hf := fill_loop_ok (length text) [] text ltac:(lia) (Forall_nil_2 _)).
  destruct (fill_loop [] text) as [lines remaining]. destruct Hf as (Hc & Hl & Hr & Hw).
  cbn [app] in Hc. destruct remaining as [|c remaining]; cbn [tokens next_token ends_without_eol].
  - rewrite app_nil_r in Hc, Hw. done.
  - split; [by rewrite concat_app; cbn [concat]; rewrite app_nil_r|]. split; [done|].
    split; [done|]. by exists lines, (c :: remaining).
Qed.

Lemma tokens_nonempty text tok :
  tok ∈ tokens (fill_source_tokens text) → tok ≠ [].
Proof.
  destruct (fill_source_tokens_ok text) as (_ & _ & _ & Hl). intros Hin.
  destruct (ends_without_eol (fill_source_tokens text)).
  - destruct Hl as (lines & l & Heq & Hl & Hne & _). rewrite Heq in Hin.
    rewrite elem_of_app, list_elem_of_singleton in Hin. destruct Hin as [Hin| ->]; [|done].
    apply is_line_nonempty. by eapply Forall_forall in Hl.
  - apply is_line_nonempty. by eapply Forall_forall in Hl.
Qed.

Lemma tokens_count text : (length (tokens (fill_source_tokens text)) <= length text)%nat.
Proof.
  destruct (fill_source_tokens_ok text) as (Hc & _). pose proof (tokens_nonempty text) as Hne.
  rewrite <- Hc at 2. clear Hc. revert Hne.
  induction (tokens (fill_source_tokens text)) as [|t ts IH]; intros Hne; [simpl; lia|].
  cbn [concat length]. rewrite length_app.
  assert (t ≠ []) by (apply Hne; by left). destruct t; [done|]. simpl.
  specialize (IH (λ u Hu, Hne u (list_elem_of_further u _ ts Hu))). lia.
Qed.

(** ** The theorem *)

Lemma max_list_with_ge {A} (f : A → nat) l x : x ∈ l → (f x <= max_list_with f l)%nat.
Proof. induction 1; simpl; lia. Qed.

Lemma alloc_openable sources_ ss :
  (∀ src, src ∈ sources_ → next_token src = 0%nat) →
  (∀ s, s ∈ ss → (datasource_to_index s < length sources_)%nat) →
  mem_openable (alloc_normalization_bufs sources_) ss.
Proof.
  intros Hnext Hss. split; [split|].
  - intros s Hs. apply lookup_lt_is_Some_2. by apply Hss.
  - intros s tok Htok. cbn [normalization_buf0 normalization_buf1 alloc_normalization_bufs].
    rewrite !length_replicate. unfold mem_contents in Htok.
    destruct (source_at _ s) as [src|] eqn:Hsrc; [|set_solver].
    apply list_elem_of_lookup_2 in Hsrc. cbn [sources alloc_normalization_bufs] in Hsrc.
    pose proof (max_list_with_ge length _ _ Htok).
    pose proof (max_list_with_ge (λ src, max_list_with length (tokens src)) _ _ Hsrc).
    simpl in *. lia.
  - intros s src Hsrc. apply Hnext. by eapply list_elem_of_lookup_2.
Qed.

Definition same_line opts (t u : list byte) : Prop := norm opts t = norm opts u.

#[global] Instance same_line_equivalence opts : Equivalence (same_line opts).
Proof. split; [done|by intros t u|]. intros t u v. unfold same_line. congruence. Qed.

(** Nothing is normalized when nothing is ignored. *)
Lemma norm_nothing t : norm (MkOptions svn_diff_file_ignore_space_none false) t = id t.
Proof. unfold norm. by rewrite normalized_nothing. Qed.

Lemma same_lines_norm opts s s' :
  Forall2 (same_line opts) s s' ↔ map (norm opts) s = map (norm opts) s'.
Proof.
  split.
  - induction 1 as [|t u s s' Htu _ IH]; simpl; [done|]. by rewrite IH, Htu.
  - revert s'; induction s as [|t s IH]; intros [|u s'] Heq; try done.
    injection Heq as Htu Heq. constructor; [done|by apply IH].
Qed.

Lemma mem_string_diff_ok `{!ZlibAdler} (opts : svn_diff_file_options_t)
    (original modified : list byte) :
  let lines0 := tokens (fill_source_tokens original) in
  let lines1 := tokens (fill_source_tokens modified) in
  concat lines0 = original ∧ concat lines1 = modified
  ∧ ∃ diff,
      svn_diff_mem_string_diff opts original modified = Ok diff
      ∧ diff_of (same_line opts) lines0 lines1 diff
      ∧ Forall2 (same_line opts) (patch lines0 lines1 diff) lines1
      ∧ (opts = MkOptions svn_diff_file_ignore_space_none false →
         concat (patch lines0 lines1 diff) = modified)
      ∧ ∀ s s', s `sublist_of` lines0 → s' `sublist_of` lines1 →
          Forall2 (same_line opts) s s' → Z.of_nat (length s) <= common_lines diff.
Proof.
  intros lines0 lines1.
  destruct (fill_source_tokens_ok original) as (Hc0 & Hn0 & _).
  destruct (fill_source_tokens_ok modified) as (Hc1 & Hn1 & _).
  split; [done|]. split; [done|]. unfold svn_diff_mem_string_diff.
  set (b := alloc_normalization_bufs _).
  pose proof (tokens_count original). pose proof (tokens_count modified).
  assert (∀ t u, mem_rank opts t u = 0 ↔ same_line opts t u) as Hsame by apply mem_rank_zero.
  destruct (diff_2_ok (Hspec := mem_spec opts) (S (length original + length modified)) b)
    as (b' & diff & Hdiff & Hd & Hmax).
  - apply alloc_openable.
    + intros src. rewrite !elem_of_cons. intros [->|[->|Hnil]]; [done..|set_solver].
    + intros s. rewrite !elem_of_cons. intros [->|[->|Hnil]]; [simpl; lia..|set_solver].
  - change (length lines0 < S (length original + length modified))%nat. unfold lines0. lia.
  - change (length lines1 < S (length original + length modified))%nat. unfold lines1. lia.
  - exists diff. rewrite Hdiff. split; [done|].
    assert (diff_of (same_line opts) lines0 lines1 diff) as Hd'.
    { eapply diff_from_impl; [|exact Hd]. intros t u. apply Hsame. }
    assert (Forall2 (same_line opts) (patch lines0 lines1 diff) lines1) as Hpatch.
    { by apply (patch_ok _ lines0 lines1 0 0 diff). }
    split; [done|]. split; [done|]. split.
    + intros ->. apply same_lines_norm in Hpatch. transitivity (concat lines1); [f_equal|done].
      assert (∀ l, map (norm (MkOptions svn_diff_file_ignore_space_none false)) l = l) as Hid
        by (intros l; rewrite <- (map_id l) at 2; apply map_ext, norm_nothing).
      by rewrite !Hid in Hpatch.
    + intros s s' Hs Hs' Hss. apply Hmax with s'; [done|done|].
      eapply Forall2_impl; [done|]. intros t u. apply Hsame.
Qed.

(** C4: svn_diff_mem_string_diff of any two texts and options ends with a
    diff of their lines (the tokens, whose concatenation is the text): its
    hunks partition both files in order, common hunks hold lines that are
    equal up to the normalisation of the options, patching the original
    gives the modified file up to that normalisation (exactly, when nothing
    is ignored), and no common subsequence of the two files has more lines
    than the common hunks. *)
Theorem svn_diff_mem_string_diff_spec `{!ZlibAdler} (opts : svn_diff_file_options_t)
    (original modified : list byte) :
  let lines0 := tokens (fill_source_tokens original) in
  let lines1 := tokens (fill_source_tokens modified) in
  concat lines0 = original ∧ concat lines1 = modified
  ∧ ∃ diff,
      svn_diff_mem_string_diff opts original modified = Ok diff
      ∧ diff_of (same_line opts) lines0 lines1 diff
      ∧ Forall2 (same_line opts) (patch lines0 lines1 diff) lines1
      ∧ (opts = MkOptions svn_diff_file_ignore_space_none false →
         concat (patch lines0 lines1 diff) = modified)
      ∧ ∀ s s', s `sublist_of` lines0 → s' `sublist_of` lines1 →
          Forall2 (same_line opts) s s' → Z.of_nat (length s) <= common_lines diff.
Proof. apply mem_string_diff_ok. Qed.

(** Both branches of svn__adler32 compute the Adler-32 checksum: no sum
    wraps in the loop for short data, and long data goes to zlib. *)
Theorem svn__adler32_spec `{!ZlibAdler} (s1 s2 : Z) (data : list byte) :
  0 <= s1 < ADLER_MOD_BASE → 0 <= s2 < ADLER_MOD_BASE →
  svn__adler32 (adler_checksum (s1, s2)) data = adler_checksum (adler_sums s1 s2 data).
Proof. apply svn__adler32_sums. Qed.

(** ** Three texts *)

Lemma mem_string_diff3_ok `{!ZlibAdler} opts original modified latest :
  let lines0 := tokens (fill_source_tokens original) in
  let lines1 := tokens (fill_source_tokens modified) in
  let lines2 := tokens (fill_source_tokens latest) in
  ∃ diff,
    svn_diff_mem_string_diff3 opts original modified latest = Ok diff
    ∧ diff3_of (same_line opts) lines0 lines1 lines2 diff
    ∧ (Forall2 (same_line opts) lines1 lines2 → Forall (only svn_diff__type_diff_common) diff)
    ∧ (Forall2 (same_line opts) lines0 lines2 → Forall (only svn_diff__type_diff_modified) diff)
    ∧ (Forall2 (same_line opts) lines0 lines1 → Forall (only svn_diff__type_diff_latest) diff).
Proof.
  intros lines0 lines1 lines2. unfold svn_diff_mem_string_diff3. set (b := alloc_normalization_bufs _).
  pose proof (tokens_count original). pose proof (tokens_count modified).
  pose proof (tokens_count latest).
  destruct (diff_3_ok (Hspec := mem_spec opts)
    (S (length original + length modified + length latest)) b) as (b' & diff & Hdiff & Hd & Htwin & Hmod & Hlat).
  - destruct (fill_source_tokens_ok original) as (_ & Hn0 & _).
    destruct (fill_source_tokens_ok modified) as (_ & Hn1 & _).
    destruct (fill_source_tokens_ok latest) as (_ & Hn2 & _).
    apply alloc_openable.
    + intros src. rewrite !elem_of_cons. intros [->|[->|[->|Hnil]]]; [done..|set_solver].
    + intros s. rewrite !elem_of_cons. intros [->|[->|[->|Hnil]]]; [simpl; lia..|set_solver].
  - change (length lines0 < S (length original + length modified + length latest))%nat. unfold lines0. lia.
  - change (length lines1 < S (length original + length modified + length latest))%nat. unfold lines1. lia.
  - change (length lines2 < S (length original + length modified + length latest))%nat. unfold lines2. lia.
  - exists diff. rewrite Hdiff. split; [done|].
    assert (∀ t u, mem_rank opts t u = 0 ↔ same_line opts t u) as Hiff by apply mem_rank_zero.
    assert (diff3_of (same_line opts) lines0 lines1 lines2 diff) as Hd'
      by (eapply diff3_from_iff; [exact Hiff|exact Hd]).
    split; [done|]. split; [|split]; intros Hsame; assert (Hsame' := Hsame);
      apply (Forall2_same _ _ Hiff) in Hsame'; [|by apply Hmod|by apply Hlat].
    eapply twins_agree; [exact Hsame|exact Hd'|by apply Htwin].
Qed.
