(* ===== verification/DiffMerge.v ===== *)
(** * Merging in-memory texts

    The merge output of [src/subversion/libsvn_diff/diff_memory.c]: the hunks of a
    three-way diff are written to a stream, with markers around the conflicts.  A
    stream is the list of the bytes written to it.  When only the conflicts are
    displayed, what lies between them goes to a stream that remembers the last
    lines, or, after a conflict, to one that prints the first lines.

    [svn_utf_cstring_from_utf8] converts a marker to the native character set;
    [APR_EOL_STR] is the end of line of the platform. *)
From S2P Require Import Prelude Diff DiffMemory.

Inductive svn_diff_conflict_display_style_t :=
  | svn_diff_conflict_display_modified_latest
  | svn_diff_conflict_display_resolved_modified_latest
  | svn_diff_conflict_display_modified_original_latest
  | svn_diff_conflict_display_modified
  | svn_diff_conflict_display_latest
  | svn_diff_conflict_display_only_conflicts.

#[global] Instance display_style_eq_dec : EqDecision svn_diff_conflict_display_style_t.
Proof. solve_decision. Defined.

Definition SVN_DIFF__UNIFIED_CONTEXT_SIZE : nat := 3.

(** ** The streams *)

(** [data] and [len] of the three slots; [None] is a null pointer. *)
Record context_saver_t := MkSaver {
  data : list (option (list byte));
  next_slot : nat;
  total_written : Z;
}.

(** What [output_stream] points to. *)
Inductive merge_stream_t :=
  | real_stream
  | context_saver_stream
  | trailing_context_printer (lines_to_print : Z).

(** [markers]: the original's, the modified's, the separator, the latest's.  The
    context saver is in the baton's pool; [None] is a pointer to a saver that is
    not there, since the pool was cleared, or since none was made. *)
Record merge_output_baton_t := MkMerge {
  output_stream : merge_stream_t;
  merge_sources : list source_tokens_t;
  markers : list (list byte);
  marker_eol : list byte;
  conflict_style : svn_diff_conflict_display_style_t;
  real_output_stream : list byte;
  context_saver : option context_saver_t;
}.

Definition set_streams (btn : merge_output_baton_t) (output_stream : merge_stream_t)
    (real_output_stream : list byte) (context_saver : option context_saver_t) : merge_output_baton_t :=
  MkMerge output_stream (merge_sources btn) (markers btn) (marker_eol btn) (conflict_style btn)
    real_output_stream context_saver.

(** [svn_stream_write] to the real output stream. *)
Definition real_write (btn : merge_output_baton_t) (bytes : list byte) : merge_output_baton_t :=
  set_streams btn (output_stream btn) (real_output_stream btn ++ bytes) (context_saver btn).

Definition context_saver_stream_write (cs : context_saver_t) (bytes : list byte) : context_saver_t :=
  MkSaver (<[next_slot cs := Some bytes]> (data cs))
    ((next_slot cs + 1) mod SVN_DIFF__UNIFIED_CONTEXT_SIZE)%nat (u64 (total_written cs + 1)).

Definition empty_saver : context_saver_t :=
  MkSaver (replicate SVN_DIFF__UNIFIED_CONTEXT_SIZE None) 0%nat 0.

(** The pool is cleared, and the new saver is in it. *)
Definition make_context_saver (mob : merge_output_baton_t) : merge_output_baton_t :=
  set_streams mob context_saver_stream (real_output_stream mob) (Some empty_saver).

Definition trailing_context_printer_write (mob : merge_output_baton_t) (lines_to_print : Z)
    (bytes : list byte) : result merge_output_baton_t :=
  assert! 0 <? lines_to_print in
  let mob := real_write mob bytes in
  let lines_to_print := lines_to_print - 1 in
  if lines_to_print =? 0 then Ok (make_context_saver mob)
  else Ok (set_streams mob (trailing_context_printer lines_to_print)
             (real_output_stream mob) (context_saver mob)).

(** The pool is cleared: the baton still points to the saver that was in it. *)
Definition make_trailing_context_printer (btn : merge_output_baton_t) : merge_output_baton_t :=
  set_streams btn (trailing_context_printer (Z.of_nat SVN_DIFF__UNIFIED_CONTEXT_SIZE))
    (real_output_stream btn) None.

(** [svn_stream_write] to [output_stream]. *)
Definition svn_stream_write (btn : merge_output_baton_t) (bytes : list byte)
    : result merge_output_baton_t :=
  match output_stream btn with
  | real_stream => Ok (real_write btn bytes)
  | context_saver_stream =>
      let! cs := from_option Ok Undefined (context_saver btn) in
      Ok (set_streams btn context_saver_stream (real_output_stream btn)
            (Some (context_saver_stream_write cs bytes)))
  | trailing_context_printer lines_to_print =>
      trailing_context_printer_write btn lines_to_print bytes
  end.

(** The slots from the oldest on. *)
Definition flush_slots (cs : context_saver_t) : list byte :=
  concat (map (λ i, default []
    (mjoin (data cs !! ((i + next_slot cs) mod SVN_DIFF__UNIFIED_CONTEXT_SIZE)%nat)))
    (seq 0 SVN_DIFF__UNIFIED_CONTEXT_SIZE)).

Definition flush_context_saver (cs : context_saver_t) (btn : merge_output_baton_t) : merge_output_baton_t :=
  real_write btn (flush_slots cs).

(** ** The callbacks *)

Fixpoint write_tokens (btn : merge_output_baton_t) (tokens : list (list byte))
    : result merge_output_baton_t :=
  match tokens with
  | [] => Ok btn
  | token :: tokens => let! btn := svn_stream_write btn token in write_tokens btn tokens
  end.

(** The tokens from [first] on; a negative [first] would be outside of the
    array. *)
Definition output_merge_token_range (btn : merge_output_baton_t) (idx : nat) (first length_ : Z)
    : result merge_output_baton_t :=
  let! src := from_option Ok Undefined (merge_sources btn !! idx) in
  if (0 <? length_) && (first <? 0) then Undefined
  else write_tokens btn (take (Z.to_nat length_) (drop (Z.to_nat first) (tokens src))).

Definition marker (btn : merge_output_baton_t) (idx : nat) : list byte :=
  default [] (markers btn !! idx).

Definition output_marker_eol (btn : merge_output_baton_t) : result merge_output_baton_t :=
  svn_stream_write btn (marker_eol btn).

Definition output_merge_marker (btn : merge_output_baton_t) (idx : nat)
    : result merge_output_baton_t :=
  let! btn := svn_stream_write btn (marker btn idx) in
  output_marker_eol btn.

Definition output_common_modified : output_fn merge_output_baton_t :=
  λ btn _ _ modified_start modified_length _ _,
    output_merge_token_range btn 1 modified_start modified_length.

Definition output_latest : output_fn merge_output_baton_t :=
  λ btn _ _ _ _ latest_start latest_length,
    output_merge_token_range btn 2 latest_start latest_length.

(** [output_conflict], given the vtable for the resolved diff. *)
Definition merge_output_conflict (merge_output_vtable : svn_diff_output_fns_t merge_output_baton_t)
    (btn : merge_output_baton_t)
    (original_start original_length modified_start modified_length latest_start latest_length : Z)
    (diff : list svn_diff_t) : result merge_output_baton_t :=
  let marked (with_original : bool) :=
    let! btn := output_merge_marker btn 1 in
    let! btn := output_merge_token_range btn 1 modified_start modified_length in
    let! btn :=
      if with_original then
        let! btn := output_merge_marker btn 0 in
        output_merge_token_range btn 0 original_start original_length
      else Ok btn in
    let! btn := output_merge_marker btn 2 in
    let! btn := output_merge_token_range btn 2 latest_start latest_length in
    output_merge_marker btn 3 in
  match conflict_style btn with
  | svn_diff_conflict_display_resolved_modified_latest =>
      match diff with
      | [] => marked false
      | _ => svn_diff_output merge_output_vtable diff btn
      end
  | svn_diff_conflict_display_modified_latest => marked false
  | svn_diff_conflict_display_modified_original_latest => marked true
  | svn_diff_conflict_display_modified =>
      output_merge_token_range btn 1 modified_start modified_length
  | svn_diff_conflict_display_latest =>
      output_merge_token_range btn 2 latest_start latest_length
  | svn_diff_conflict_display_only_conflicts => Aborted
  end.

(** The vtable refers to itself through [output_conflict]; [depth] bounds the
    nesting of resolved diffs. *)
Fixpoint merge_output_vtable (depth : nat) : svn_diff_output_fns_t merge_output_baton_t := {|
  output_common := Some output_common_modified;
  output_diff_modified := Some output_common_modified;
  output_diff_latest := Some output_latest;
  output_diff_common := Some output_common_modified;
  output_conflict := Some
    match depth with
    | O => λ _ _ _ _ _ _ _ _, OutOfFuel
    | S depth => merge_output_conflict (merge_output_vtable depth)
    end;
|}.

(** ["%s (%ld)"] or ["%s (%ld,%ld)"] *)
Definition conflict_header (marker : list byte) (start length_ : Z) : list byte :=
  marker ++ String.list_byte_of_string " (" ++ printf_ld (start + 1)
  ++ (if length_ =? 1 then [] else ","%byte :: printf_ld length_)
  ++ String.list_byte_of_string ")".

(** Whether the stream is the saver's is asked of the saver. *)
Definition output_conflict_with_context (btn : merge_output_baton_t)
    (original_start original_length modified_start modified_length latest_start latest_length : Z)
    (diff : list svn_diff_t) : result merge_output_baton_t :=
  let! cs := from_option Ok Undefined (context_saver btn) in
  let btn :=
    match output_stream btn with
    | context_saver_stream =>
        let btn :=
          if Z.of_nat SVN_DIFF__UNIFIED_CONTEXT_SIZE <? total_written cs
          then real_write btn (String.list_byte_of_string "@@" ++ [x0a]) else btn in
        flush_context_saver cs btn
    | _ => btn
    end in
  let btn := set_streams btn real_stream (real_output_stream btn) (context_saver btn) in
  let! btn := svn_stream_write btn (conflict_header (marker btn 1) modified_start modified_length) in
  let! btn := output_marker_eol btn in
  let! btn := output_merge_token_range btn 1 modified_start modified_length in
  let! btn := svn_stream_write btn (conflict_header (marker btn 0) original_start original_length) in
  let! btn := output_marker_eol btn in
  let! btn := output_merge_token_range btn 0 original_start original_length in
  let! btn := output_merge_marker btn 2 in
  let! btn := output_merge_token_range btn 2 latest_start latest_length in
  let! btn := svn_stream_write btn (conflict_header (marker btn 3) latest_start latest_length) in
  let! btn := output_marker_eol btn in
  Ok (make_trailing_context_printer btn).

Definition merge_only_conflicts_output_vtable : svn_diff_output_fns_t merge_output_baton_t := {|
  output_common := Some output_common_modified;
  output_diff_modified := Some output_common_modified;
  output_diff_latest := Some output_latest;
  output_diff_common := Some output_common_modified;
  output_conflict := Some output_conflict_with_context;
|}.

(** The end of line of a token; [None] is null. *)
Definition detect_eol (token : list byte) : option (list byte) :=
  match reverse token with
  | [] => None
  | c :: rest =>
      if c =b? x0d then Some [x0d]
      else if negb (c =b? x0a) then None
      else
        match rest with
        | d :: _ => if d =b? x0d then Some [x0d; x0a] else Some [x0a]
        | [] => Some [x0a]
        end
  end.

(** ** The merge *)

Section Merge.
Context (svn_utf_cstring_from_utf8 : list byte → result (list byte)) (APR_EOL_STR : list byte).

(** A conflict label that is null is [None].  The resolved diff of a conflict
    has no resolved diffs in it, so that a depth of 2 is enough. *)
Definition svn_diff_mem_string_output_merge2 (output : list byte) (diff : list svn_diff_t)
    (original modified latest : list byte)
    (conflict_original conflict_modified conflict_latest conflict_separator : option (list byte))
    (style : svn_diff_conflict_display_style_t) : result (list byte) :=
  let conflicts_only := bool_decide (style = svn_diff_conflict_display_only_conflicts) in
  let vtable := if conflicts_only then merge_only_conflicts_output_vtable
                else merge_output_vtable 2 in
  let sources := [fill_source_tokens original; fill_source_tokens modified;
                  fill_source_tokens latest] in
  let eol :=
    match tokens (fill_source_tokens modified) with
    | token :: _ => default APR_EOL_STR (detect_eol token)
    | [] => APR_EOL_STR
    end in
  let label (given : option (list byte)) (text : string) :=
    svn_utf_cstring_from_utf8 (default (String.list_byte_of_string text) given) in
  let! modified_marker := label conflict_modified "<<<<<<< (modified)" in
  let! original_marker := label conflict_original "||||||| (original)" in
  let! separator := label conflict_separator "=======" in
  let! latest_marker := label conflict_latest ">>>>>>> (latest)" in
  let btn :=
    MkMerge (if conflicts_only then context_saver_stream else real_stream) sources
      [original_marker; modified_marker; separator; latest_marker] eol style output
      (if conflicts_only then Some empty_saver else None) in
  let! btn := svn_diff_output vtable diff btn in
  Ok (real_output_stream btn).

Definition svn_diff_mem_string_output_merge (output : list byte) (diff : list svn_diff_t)
    (original modified latest : list byte)
    (conflict_original conflict_modified conflict_latest conflict_separator : option (list byte))
    (display_original_in_conflict display_resolved_conflicts : bool) : result (list byte) :=
  let style := svn_diff_conflict_display_modified_latest in
  let style := if display_resolved_conflicts
               then svn_diff_conflict_display_resolved_modified_latest else style in
  let style := if display_original_in_conflict
               then svn_diff_conflict_display_modified_original_latest else style in
  svn_diff_mem_string_output_merge2 output diff original modified latest
    conflict_original conflict_modified conflict_latest conflict_separator style.
End Merge.
