(* ===== verification/DiffMergeCorrect.v ===== *)
(** * Properties of merged texts

    What a merge writes, as a text: the parts of the files that its hunks name, and
    the conflicts in the display style asked for. *)
From S2P Require Import Prelude Diff DiffCorrect Diff3 Diff3Chain Diff3Conflict Diff3Correct Diff3Theorems DiffNormalize DiffNormalizeCorrect DiffMemory DiffMemoryCorrect DiffMerge.

(** ** What is to be written *)

Section Text.
Context (lines0 lines1 lines2 : list (list byte)) (marks : list (list byte)) (eol : list byte).

Definition mark (idx : nat) : list byte := default [] (marks !! idx) ++ eol.

Definition original_text (hunk : svn_diff_t) : list byte :=
  concat (slice lines0 (original_start hunk) (original_length hunk)).

Definition modified_text (hunk : svn_diff_t) : list byte :=
  concat (slice lines1 (modified_start hunk) (modified_length hunk)).

Definition latest_text (hunk : svn_diff_t) : list byte :=
  concat (slice lines2 (latest_start hunk) (latest_length hunk)).

(** Both sides of a conflict between markers, with the original or without. *)
Definition marked_text (with_original : bool) (hunk : svn_diff_t) : list byte :=
  mark 1 ++ modified_text hunk
  ++ (if with_original then mark 0 ++ original_text hunk else [])
  ++ mark 2 ++ latest_text hunk ++ mark 3.

Definition hunk_text (conflict_text : svn_diff_t → list byte) (hunk : svn_diff_t) : list byte :=
  match diff_type hunk with
  | svn_diff__type_diff_latest => latest_text hunk
  | svn_diff__type_conflict => conflict_text hunk
  | _ => modified_text hunk
  end.

Definition conflict_text (style : svn_diff_conflict_display_style_t) (hunk : svn_diff_t) : list byte :=
  match style with
  | svn_diff_conflict_display_resolved_modified_latest =>
      match resolved_diff hunk with
      | [] => marked_text false hunk
      | resolved => concat (map (hunk_text (marked_text false)) resolved)
      end
  | svn_diff_conflict_display_modified_original_latest => marked_text true hunk
  | svn_diff_conflict_display_modified => modified_text hunk
  | svn_diff_conflict_display_latest => latest_text hunk
  | _ => marked_text false hunk
  end.

Definition merge_text (style : svn_diff_conflict_display_style_t) (diff : list svn_diff_t) : list byte :=
  concat (map (hunk_text (conflict_text style)) diff).
End Text.

(** A hunk within the files. *)
Definition from_start (hunk : svn_diff_t) : Prop :=
  0 <= original_start hunk ∧ 0 <= modified_start hunk ∧ 0 <= latest_start hunk
  ∧ (diff_type hunk = svn_diff__type_conflict → Forall plain (resolved_diff hunk)).

(** ** The real output stream *)

Lemma real_write_app btn x y : real_write (real_write btn x) y = real_write btn (x ++ y).
Proof. unfold real_write, set_streams. simpl. by rewrite app_assoc. Qed.

Lemma real_write_nil btn : real_write btn [] = btn.
Proof. destruct btn. unfold real_write, set_streams. simpl. by rewrite app_nil_r. Qed.

Section Real.
Context (lines0 lines1 lines2 : list (list byte)).

(** The baton writes to the real stream, the files being those. *)
Definition real_baton (btn : merge_output_baton_t) : Prop :=
  output_stream btn = real_stream
  ∧ map tokens (merge_sources btn) = [lines0; lines1; lines2].

Lemma real_baton_write btn x : real_baton btn → real_baton (real_write btn x).
Proof. done. Qed.

#[local] Hint Resolve real_baton_write : core.

Lemma stream_write_real btn x :
  output_stream btn = real_stream → svn_stream_write btn x = Ok (real_write btn x).
Proof. intros H. unfold svn_stream_write. by rewrite H. Qed.

Lemma write_tokens_real btn ts :
  output_stream btn = real_stream → write_tokens btn ts = Ok (real_write btn (concat ts)).
Proof.
  revert btn; induction ts as [|t ts IH]; intros btn H; cbn [write_tokens concat].
  - by rewrite real_write_nil.
  - rewrite stream_write_real by done. cbn [rbind]. rewrite IH by done. by rewrite real_write_app.
Qed.

Lemma write_marker_real btn idx :
  real_baton btn →
  output_merge_marker btn idx = Ok (real_write btn (mark (markers btn) (marker_eol btn) idx)).
Proof.
  intros [H _]. unfold output_merge_marker, output_marker_eol.
  rewrite stream_write_real by done. cbn [rbind]. rewrite stream_write_real by done.
  by rewrite real_write_app.
Qed.

Lemma source_lines btn idx lines :
  map tokens (merge_sources btn) = [lines0; lines1; lines2] →
  [lines0; lines1; lines2] !! idx = Some lines →
  ∃ src, merge_sources btn !! idx = Some src ∧ tokens src = lines.
Proof.
  intros H Hidx. rewrite <- H, list_lookup_fmap in Hidx. by apply fmap_Some in Hidx as (src & ? & ->); eauto.
Qed.

Lemma token_range_real btn idx lines first len :
  real_baton btn → [lines0; lines1; lines2] !! idx = Some lines → 0 <= first →
  output_merge_token_range btn idx first len = Ok (real_write btn (concat (slice lines first len))).
Proof.
  intros [H Hs] Hidx Hfirst. destruct (source_lines btn idx lines Hs Hidx) as (src & Hsrc & <-).
  unfold output_merge_token_range. rewrite Hsrc. cbn [from_option rbind].
  rewrite (proj2 (Z.ltb_ge first 0)), andb_false_r by done. by apply write_tokens_real.
Qed.

(** Writing a conflict between markers. *)
Lemma marked_real (with_original : bool) btn hunk :
  real_baton btn → 0 <= original_start hunk ∨ with_original = false →
  0 <= modified_start hunk → 0 <= latest_start hunk →
  (let! btn := output_merge_marker btn 1 in
   let! btn := output_merge_token_range btn 1 (modified_start hunk) (modified_length hunk) in
   let! btn :=
     if with_original then
       let! btn := output_merge_marker btn 0 in
       output_merge_token_range btn 0 (original_start hunk) (original_length hunk)
     else Ok btn in
   let! btn := output_merge_marker btn 2 in
   let! btn := output_merge_token_range btn 2 (latest_start hunk) (latest_length hunk) in
   output_merge_marker btn 3)
  = Ok (real_write btn (marked_text lines0 lines1 lines2 (markers btn) (marker_eol btn) with_original hunk)).
Proof.
  intros Hb Ho Hm Hl. unfold marked_text.
  assert (∀ x,
    (let! btn := output_merge_marker (real_write btn x) 2 in
     let! btn := output_merge_token_range btn 2 (latest_start hunk) (latest_length hunk) in
     output_merge_marker btn 3)
    = Ok (real_write btn (x ++ mark (markers btn) (marker_eol btn) 2
        ++ latest_text lines2 hunk ++ mark (markers btn) (marker_eol btn) 3))) as Hrest.
  { intros x. rewrite write_marker_real by auto. cbn [rbind].
    rewrite (token_range_real _ 2 lines2) by auto. cbn [rbind]. rewrite write_marker_real by auto.
    by rewrite !real_write_app, ?app_assoc. }
  rewrite write_marker_real by done. cbn [rbind].
  rewrite (token_range_real _ 1 lines1) by auto. cbn [rbind]. rewrite real_write_app.
  destruct with_original; cbn [rbind].
  - destruct Ho as [Ho|]; [|done]. rewrite write_marker_real by auto. cbn [rbind].
    rewrite (token_range_real _ 0 lines0) by auto. cbn [rbind]. rewrite !real_write_app, Hrest.
    by rewrite ?app_assoc.
  - rewrite Hrest. by rewrite ?app_assoc, ?app_nil_r.
Qed.

(** A conflict in any of the styles. *)
Lemma merge_output_conflict_real depth btn hunk :
  real_baton btn → conflict_style btn ≠ svn_diff_conflict_display_only_conflicts →
  from_start hunk → diff_type hunk = svn_diff__type_conflict →
  (∀ btn', real_baton btn' → markers btn' = markers btn → marker_eol btn' = marker_eol btn →
     conflict_style btn' = conflict_style btn →
     Forall plain (resolved_diff hunk) →
     conflict_style btn = svn_diff_conflict_display_resolved_modified_latest → resolved_diff hunk ≠ [] →
     svn_diff_output (merge_output_vtable depth) (resolved_diff hunk) btn'
     = Ok (real_write btn' (concat (map (hunk_text lines1 lines2
         (marked_text lines0 lines1 lines2 (markers btn) (marker_eol btn) false)) (resolved_diff hunk))))) →
  merge_output_conflict (merge_output_vtable depth) btn (original_start hunk) (original_length hunk)
    (modified_start hunk) (modified_length hunk) (latest_start hunk) (latest_length hunk)
    (resolved_diff hunk)
  = Ok (real_write btn (conflict_text lines0 lines1 lines2 (markers btn) (marker_eol btn)
      (conflict_style btn) hunk)).
Proof.
  intros Hb Hstyle (Ho & Hm & Hl & Hplain) Htype Hnested. specialize (Hplain Htype). unfold merge_output_conflict, conflict_text.
  pose proof (marked_real false btn hunk Hb (or_intror eq_refl) Hm Hl) as Hfalse.
  pose proof (marked_real true btn hunk Hb (or_introl Ho) Hm Hl) as Htrue.
  destruct (conflict_style btn) eqn:Hs; try done.
  - destruct (resolved_diff hunk) as [|h hs] eqn:Hr; [done|]. by apply Hnested.
  - by apply (token_range_real _ 1 lines1).
  - by apply (token_range_real _ 2 lines2).
Qed.

(** The resolved diff of a conflict has conflicts without one. *)
Lemma nested_output_real btn diff :
  real_baton btn → Forall plain diff →
  conflict_style btn = svn_diff_conflict_display_resolved_modified_latest →
  svn_diff_output (merge_output_vtable 1) diff btn
  = Ok (real_write btn (concat (map (hunk_text lines1 lines2
      (marked_text lines0 lines1 lines2 (markers btn) (marker_eol btn) false)) diff))).
Proof.
  intros Hb Hdiff. revert btn Hb; induction Hdiff as [|hunk diff (Hm & Hl & Hres & Htype) _ IH];
    intros btn Hb Hs; cbn [svn_diff_output map concat]; [by rewrite real_write_nil|].
  assert (output_hunk (merge_output_vtable 1) btn hunk
    = Ok (real_write btn (hunk_text lines1 lines2
        (marked_text lines0 lines1 lines2 (markers btn) (marker_eol btn) false) hunk))) as ->.
  { unfold output_hunk, hunk_text. destruct Htype as [-> | ->].
    - by apply (token_range_real _ 1 lines1).
    - cbn [merge_output_vtable output_conflict]. unfold merge_output_conflict. rewrite Hs, Hres.
      apply (marked_real false); [done|by right|done|done]. }
  cbn [rbind]. rewrite IH by done. by rewrite real_write_app.
Qed.

Lemma merge_output_real btn diff :
  real_baton btn → conflict_style btn ≠ svn_diff_conflict_display_only_conflicts →
  Forall from_start diff →
  svn_diff_output (merge_output_vtable 2) diff btn
  = Ok (real_write btn (merge_text lines0 lines1 lines2 (markers btn) (marker_eol btn)
      (conflict_style btn) diff)).
Proof.
  intros Hb Hs Hdiff. unfold merge_text. revert btn Hb Hs; induction Hdiff as [|hunk diff Hh _ IH];
    intros btn Hb Hs; cbn [svn_diff_output map concat]; [by rewrite real_write_nil|].
  assert (output_hunk (merge_output_vtable 2) btn hunk
    = Ok (real_write btn (hunk_text lines1 lines2 (conflict_text lines0 lines1 lines2 (markers btn)
        (marker_eol btn) (conflict_style btn)) hunk))) as ->.
  { assert (Hh' := Hh). destruct Hh' as (Ho & Hm & Hl & _). unfold output_hunk, hunk_text.
    destruct (diff_type hunk) eqn:Htype.
    1,2,4: by apply (token_range_real _ 1 lines1).
    - by apply (token_range_real _ 2 lines2).
    - apply (merge_output_conflict_real 1); [done..|].
      intros btn' Hb' <- <- Hstyle Hplain Hres _. apply nested_output_real; [done..|congruence]. }
  cbn [rbind]. rewrite IH by done. by rewrite real_write_app.
Qed.
End Real.

(** ** Conflicts with their context *)

(** The last three of the lines. *)
Definition last_lines (ts : list (list byte)) : list (list byte) := drop (length ts - 3) ts.

Section ContextText.
Context (lines0 lines1 lines2 : list (list byte)) (marks : list (list byte)) (eol : list byte).

Definition conflict_block (hunk : svn_diff_t) : list byte :=
  let header (idx : nat) (start len : Z) := conflict_header (default [] (marks !! idx)) start len ++ eol in
  header 1%nat (modified_start hunk) (modified_length hunk) ++ modified_text lines1 hunk
  ++ header 0%nat (original_start hunk) (original_length hunk) ++ original_text lines0 hunk
  ++ mark marks eol 2 ++ latest_text lines2 hunk
  ++ header 3%nat (latest_start hunk) (latest_length hunk).

(** What precedes a conflict: after another one the first three lines, then the
    last three of the others, with a mark when some were left out. *)
Definition context_text (after : bool) (pending : list (list byte)) : list byte :=
  let rest := if after then drop 3 pending else pending in
  (if after then concat (take 3 pending) else [])
  ++ (if 3 <? u64 (Z.of_nat (length rest)) then String.list_byte_of_string "@@" ++ [x0a] else [])
  ++ concat (last_lines rest).

(** The lines of the merged text that are in no conflict. *)
Definition merged_lines (hunk : svn_diff_t) : list (list byte) :=
  match diff_type hunk with
  | svn_diff__type_diff_latest => slice lines2 (latest_start hunk) (latest_length hunk)
  | _ => slice lines1 (modified_start hunk) (modified_length hunk)
  end.

Fixpoint conflicts_text (after : bool) (pending : list (list byte)) (diff : list svn_diff_t)
    : list byte :=
  match diff with
  | [] => if after then concat (take 3 pending) else []
  | hunk :: diff =>
      if bool_decide (diff_type hunk = svn_diff__type_conflict) then
        context_text after pending ++ conflict_block hunk ++ conflicts_text true [] diff
      else conflicts_text after (pending ++ merged_lines hunk) diff
  end.
End ContextText.

(** The slots from the oldest on. *)
Definition rotated (cs : context_saver_t) : list (option (list byte)) :=
  map (λ i, mjoin (data cs !! ((i + next_slot cs) mod SVN_DIFF__UNIFIED_CONTEXT_SIZE)%nat)) [0; 1; 2]%nat.

(** The saver after the lines [ts] have been written to it. *)
Record saved (cs : context_saver_t) (ts : list (list byte)) : Prop := {
  sd_slots : length (data cs) = 3%nat;
  sd_next : (next_slot cs < 3)%nat;
  sd_total : total_written cs = u64 (Z.of_nat (length ts));
  sd_window : rotated cs = drop (length ts) (replicate 3 None ++ map Some ts);
}.

Lemma saved_empty : saved empty_saver [].
Proof. split; vm_compute; done || lia. Qed.

Lemma rotated_write cs x :
  length (data cs) = 3%nat → (next_slot cs < 3)%nat →
  rotated (context_saver_stream_write cs x) = tail (rotated cs) ++ [Some x].
Proof.
  destruct cs as [l n total]. cbn [data next_slot]. intros Hl Hn.
  destruct l as [|a [|b [|c [|d l]]]]; try done.
  destruct n as [|[|[|n]]]; [done..|lia].
Qed.

Lemma saved_write cs ts x : saved cs ts → saved (context_saver_stream_write cs x) (ts ++ [x]).
Proof.
  intros [Hl Hn Ht Hw]. split.
  - cbn [context_saver_stream_write data]. by rewrite length_insert.
  - cbn [context_saver_stream_write next_slot]. by apply Nat.mod_upper_bound.
  - cbn [context_saver_stream_write total_written]. rewrite Ht, length_app.
    unfold u64. rewrite Zplus_mod_idemp_l. f_equal. simpl. lia.
  - rewrite rotated_write, Hw by done. rewrite map_app, app_assoc, length_app. cbn [map length].
    rewrite (drop_app_le _ [Some x]) by (rewrite length_app, length_map, length_replicate; lia).
    f_equal. rewrite Nat.add_1_r. set (l := replicate 3 None ++ map Some ts).
    generalize (length ts). intros n. clearbody l. revert n.
    induction l as [|y l IH]; intros [|n]; [done..|by rewrite drop_0|]. cbn [drop]. apply IH.
Qed.

Lemma flush_saved cs ts : saved cs ts → flush_slots cs = concat (last_lines ts).
Proof.
  intros [_ _ _ Hw]. unfold flush_slots. change (seq 0 SVN_DIFF__UNIFIED_CONTEXT_SIZE) with [0; 1; 2]%nat.
  transitivity (concat (map (default []) (rotated cs))); [done|]. rewrite Hw. unfold last_lines.
  rewrite drop_app, length_replicate, map_app, concat_app.
  assert (∀ n, concat (map (default []) (drop n (replicate 3 (@None (list byte))))) = []) as ->.
  { intros [|[|[|n]]]; [done..|]. by rewrite drop_ge by (rewrite length_replicate; lia). }
  rewrite app_nil_l, <- skipn_map, map_map. by rewrite map_id.
Qed.

Section ContextOutput.
Context (lines0 lines1 lines2 : list (list byte)) (marks : list (list byte)) (eol : list byte).

(** The streams after a conflict, or at the start, and the lines [pending], [out]
    being what had been written before them. *)
Record context_at (after : bool) (pending : list (list byte)) (out : list byte)
    (btn : merge_output_baton_t) : Prop := {
  ca_sources : map tokens (merge_sources btn) = [lines0; lines1; lines2];
  ca_markers : markers btn = marks;
  ca_eol : marker_eol btn = eol;
  ca_real : real_output_stream btn = out ++ (if after then concat (take 3 pending) else []);
  ca_stream :
    if after && (length pending <? 3)%nat
    then output_stream btn = trailing_context_printer (3 - Z.of_nat (length pending)) ∧ context_saver btn = None
    else output_stream btn = context_saver_stream
         ∧ ∃ cs, context_saver btn = Some cs ∧ saved cs (if after then drop 3 pending else pending);
}.

Lemma context_write after pending out btn x :
  context_at after pending out btn →
  ∃ btn', svn_stream_write btn x = Ok btn' ∧ context_at after (pending ++ [x]) out btn'.
Proof.
  intros [Hs Hm He Hreal Hstream]. unfold svn_stream_write.
  destruct (after && (length pending <? 3)%nat) eqn:Hafter.
  - apply andb_prop in Hafter as [-> Hlt%Nat.ltb_lt]. destruct Hstream as [Hstream Hnone]. rewrite Hstream.
    unfold trailing_context_printer_write. rewrite (proj2 (Z.ltb_lt 0 _)) by lia. cbn [guarded].
    assert (real_output_stream btn ++ x = out ++ concat (take 3 (pending ++ [x]))) as Hout.
    { rewrite Hreal, (take_ge pending), (take_ge (pending ++ [x])) by (rewrite ?length_app; simpl; lia).
      rewrite concat_app. cbn [concat]. by rewrite app_nil_r, app_assoc. }
    destruct (Z.eqb_spec (3 - Z.of_nat (length pending) - 1) 0) as [Hlast|Hmore];
      (eexists; split; [done|]); split; cbn [set_streams make_context_saver real_write merge_sources markers
        marker_eol real_output_stream output_stream context_saver]; try done; rewrite length_app;
      cbn [length andb].
    + rewrite (proj2 (Nat.ltb_ge _ 3)) by lia. split; [done|].
      exists empty_saver. split; [done|].
      rewrite drop_ge by (rewrite length_app; simpl; lia). apply saved_empty.
    + rewrite (proj2 (Nat.ltb_lt _ 3)) by lia. split; [f_equal; lia|done].
  - destruct Hstream as (Hstream & cs & Hcs & Hsaved). rewrite Hstream, Hcs. eexists. split; [done|].
    apply andb_false_iff in Hafter. split; cbn [set_streams merge_sources markers
      marker_eol real_output_stream output_stream context_saver]; try done.
    + rewrite Hreal. f_equal. destruct after; [|done]. destruct Hafter as [|Hge%Nat.ltb_ge]; [done|].
      by rewrite take_app_le by lia.
    + rewrite length_app. replace (after && _) with false.
      2: { symmetry. apply andb_false_iff. destruct Hafter as [|Hge%Nat.ltb_ge]; [by left|].
           right. apply Nat.ltb_ge. lia. }
      split; [done|]. exists (context_saver_stream_write cs x). split; [done|]. destruct after; [|by apply saved_write].
      destruct Hafter as [|Hge%Nat.ltb_ge]; [done|]. rewrite drop_app_le by lia. by apply saved_write.
Qed.

Lemma context_write_tokens after pending out btn ts :
  context_at after pending out btn →
  ∃ btn', write_tokens btn ts = Ok btn' ∧ context_at after (pending ++ ts) out btn'.
Proof.
  revert pending btn; induction ts as [|t ts IH]; intros pending btn Hat; cbn [write_tokens].
  { exists btn. by rewrite app_nil_r. }
  destruct (context_write _ _ _ _ t Hat) as (btn1 & -> & Hat1). cbn [rbind].
  destruct (IH _ _ Hat1) as (btn' & -> & Hat'). exists btn'. by rewrite <- app_assoc in Hat'.
Qed.

Lemma context_token_range after pending out btn idx lines first len :
  context_at after pending out btn → [lines0; lines1; lines2] !! idx = Some lines → 0 <= first →
  ∃ btn', output_merge_token_range btn idx first len = Ok btn'
    ∧ context_at after (pending ++ slice lines first len) out btn'.
Proof.
  intros Hat Hidx Hfirst.
  destruct (source_lines lines0 lines1 lines2 btn idx lines (ca_sources _ _ _ _ Hat) Hidx) as (src & Hsrc & <-).
  unfold output_merge_token_range. rewrite Hsrc. cbn [from_option rbind].
  rewrite (proj2 (Z.ltb_ge first 0)), andb_false_r by done. by apply context_write_tokens.
Qed.

(** The lines before the conflict, when there is a saver. *)
Definition with_context (cs : context_saver_t) (btn : merge_output_baton_t) : merge_output_baton_t :=
  let btn :=
    match output_stream btn with
    | context_saver_stream =>
        let btn :=
          if Z.of_nat SVN_DIFF__UNIFIED_CONTEXT_SIZE <? total_written cs
          then real_write btn (String.list_byte_of_string "@@" ++ [x0a]) else btn in
        flush_context_saver cs btn
    | _ => btn
    end in
  set_streams btn real_stream (real_output_stream btn) (context_saver btn).

(** Three lines have been written since the last conflict. *)
Definition spaced (after : bool) (pending : list (list byte)) : bool := negb after || (3 <=? length pending)%nat.

Lemma with_context_ok after pending out btn :
  context_at after pending out btn → spaced after pending = true →
  ∃ cs, context_saver btn = Some cs
  ∧ let btn' := with_context cs btn in
    real_baton lines0 lines1 lines2 btn' ∧ markers btn' = marks ∧ marker_eol btn' = eol
    ∧ real_output_stream btn' = out ++ context_text after pending.
Proof.
  intros [Hs Hm He Hreal Hstream] Hsp. unfold with_context, context_text.
  assert (after && (length pending <? 3)%nat = false) as Hafter.
  { unfold spaced in Hsp. destruct after; [|done]. cbn [negb orb andb] in *.
    by apply Nat.ltb_ge, Nat.leb_le. }
  rewrite Hafter in Hstream. destruct Hstream as (-> & cs & Hcs & Hsaved). exists cs. split; [done|].
  unfold flush_context_saver.
  rewrite (sd_total _ _ Hsaved). change (Z.of_nat SVN_DIFF__UNIFIED_CONTEXT_SIZE) with 3.
  case_if; (split; [done|]); (do 2 (split; [done|])); cbn [real_output_stream set_streams real_write];
    cbn [context_saver set_streams]; unfold real_write; cbn [real_output_stream context_saver set_streams]; rewrite (flush_saved _ _ Hsaved), Hreal; by rewrite <- ?app_assoc.
Qed.

Lemma conflict_with_context after pending out btn hunk :
  context_at after pending out btn → spaced after pending = true → from_start hunk →
  ∃ btn',
    output_conflict_with_context btn (original_start hunk) (original_length hunk) (modified_start hunk)
      (modified_length hunk) (latest_start hunk) (latest_length hunk) (resolved_diff hunk) = Ok btn'
    ∧ context_at true [] (out ++ context_text after pending
        ++ conflict_block lines0 lines1 lines2 marks eol hunk) btn'.
Proof.
  intros Hat Hsp (Ho & Hm & Hl & _). unfold output_conflict_with_context.
  destruct (with_context_ok _ _ _ _ Hat Hsp) as (cs & Hcs & Hb & Hmarks & Heol & Hout).
  rewrite Hcs. cbn [from_option rbind]. fold (with_context cs btn).
  set (btn0 := with_context cs btn) in *. clearbody btn0. unfold output_marker_eol.
  assert (∀ x, real_baton lines0 lines1 lines2 (real_write btn0 x)) as Hw by done.
  assert (∀ x y, svn_stream_write (real_write btn0 x) y = Ok (real_write btn0 (x ++ y))) as Hwrite.
  { intros x y. rewrite stream_write_real by apply Hw. by rewrite real_write_app. }
  rewrite stream_write_real by apply Hb. cbn [rbind]. rewrite Hwrite. cbn [rbind].
  rewrite (token_range_real lines0 lines1 lines2 _ 1 lines1) by done. cbn [rbind].
  rewrite real_write_app, Hwrite. cbn [rbind]. rewrite Hwrite. cbn [rbind].
  rewrite (token_range_real lines0 lines1 lines2 _ 0 lines0) by done. cbn [rbind].
  rewrite real_write_app, (write_marker_real lines0 lines1 lines2) by done. cbn [rbind].
  rewrite (token_range_real lines0 lines1 lines2 _ 2 lines2) by done. cbn [rbind].
  rewrite !real_write_app, Hwrite. cbn [rbind]. rewrite Hwrite. cbn [rbind].
  eexists. split; [done|]. split; try done.
  - apply Hb.
  - cbn [make_trailing_context_printer set_streams real_output_stream real_write take concat].
    rewrite Hout, app_nil_r. unfold conflict_block, marker. cbn [markers marker_eol real_write set_streams].
    by rewrite Hmarks, Heol, <- !app_assoc.
Qed.

(** A conflict less than three lines after another one: the saver that the code
    asks is not there any more. *)
Lemma conflict_too_close after pending out btn os ol ms ml ls ll diff :
  context_at after pending out btn → spaced after pending = false →
  output_conflict_with_context btn os ol ms ml ls ll diff = Undefined.
Proof.
  intros [_ _ _ _ Hstream] Hsp. unfold spaced in Hsp. destruct after; [|done]. cbn [negb orb andb] in *.
  apply Nat.leb_gt in Hsp. rewrite (proj2 (Nat.ltb_lt _ 3) Hsp) in Hstream. destruct Hstream as [_ Hnone].
  unfold output_conflict_with_context. by rewrite Hnone.
Qed.

(** Whether there are three lines between any two conflicts. *)
Fixpoint conflicts_spaced (after : bool) (pending : list (list byte)) (diff : list svn_diff_t) : bool :=
  match diff with
  | [] => true
  | hunk :: diff =>
      if bool_decide (diff_type hunk = svn_diff__type_conflict) then
        spaced after pending && conflicts_spaced true [] diff
      else conflicts_spaced after (pending ++ merged_lines lines1 lines2 hunk) diff
  end.

(** The whole diff. *)
Lemma only_conflicts_output after pending out btn diff :
  context_at after pending out btn → Forall from_start diff →
  if conflicts_spaced after pending diff then
    ∃ btn', svn_diff_output merge_only_conflicts_output_vtable diff btn = Ok btn'
      ∧ real_output_stream btn' = out ++ conflicts_text lines0 lines1 lines2 marks eol after pending diff
  else svn_diff_output merge_only_conflicts_output_vtable diff btn = Undefined.
Proof.
  intros Hat Hdiff. revert after pending out btn Hat;
    induction Hdiff as [|hunk diff Hh _ IH]; intros after pending out btn Hat;
    cbn [svn_diff_output conflicts_text conflicts_spaced].
  { exists btn. split; [done|]. apply (ca_real _ _ _ _ Hat). }
  case_bool_decide as Htype.
  - unfold output_hunk. rewrite Htype. cbn [merge_only_conflicts_output_vtable output_conflict].
    destruct (spaced after pending) eqn:Hsp; cbn [andb].
    2:{ by rewrite (conflict_too_close _ _ _ _ _ _ _ _ _ _ _ Hat Hsp). }
    destruct (conflict_with_context _ _ _ _ hunk Hat Hsp Hh) as (btn1 & -> & Hat1). cbn [rbind].
    specialize (IH _ _ _ _ Hat1). destruct (conflicts_spaced true [] diff); [|done].
    destruct IH as (btn' & -> & Hout). exists btn'. split; [done|]. by rewrite Hout, <- !app_assoc.
  - assert (∃ btn1, output_hunk merge_only_conflicts_output_vtable btn hunk = Ok btn1
      ∧ context_at after (pending ++ merged_lines lines1 lines2 hunk) out btn1) as (btn1 & -> & Hat1).
    { destruct Hh as (_ & Hm & Hl & _). unfold output_hunk, merged_lines. destruct (diff_type hunk); try done.
      1,2,4: by apply (context_token_range _ _ _ _ 1 lines1).
      by apply (context_token_range _ _ _ _ 2 lines2). }
    cbn [rbind]. by apply IH.
Qed.
End ContextOutput.

(** ** Merges *)

Section Whole.
Context (R : list byte → list byte → Prop) `{!Equivalence R}.
Context (lines0 lines1 lines2 : list (list byte)) (marks : list (list byte)) (eol : list byte).

Lemma diff3_from_start o x y diff :
  0 <= o → 0 <= x → 0 <= y → diff3_from R lines0 lines1 lines2 o x y diff → Forall from_start diff.
Proof.
  revert o x y; induction diff as [|hunk diff IH]; intros o x y Ho Hx Hy; [done|]. cbn [diff3_from].
  intros (Hos & Hxs & Hys & ? & ? & ? & Hok & Hd). constructor; [|by apply IH in Hd; lia || done].
  unfold from_start. rewrite Hos, Hxs, Hys. do 3 (split; [done|]). intros Htype.
  unfold hunk_ok, resolution in Hok. rewrite Htype in Hok. tauto.
Qed.

Lemma diff3_from_length o x y diff :
  diff3_from R lines0 lines1 lines2 o x y diff →
  x <= Z.of_nat (length lines1) ∧ y <= Z.of_nat (length lines2).
Proof.
  revert o x y; induction diff as [|hunk diff IH]; intros o x y; cbn [diff3_from]; [lia|].
  intros (_ & _ & _ & ? & ? & ? & _ & Hd). apply IH in Hd. lia.
Qed.

Lemma merge_text_cons style hunk diff :
  merge_text lines0 lines1 lines2 marks eol style (hunk :: diff)
  = hunk_text lines1 lines2 (conflict_text lines0 lines1 lines2 marks eol style) hunk
    ++ merge_text lines0 lines1 lines2 marks eol style diff.
Proof. done. Qed.

(** A diff whose hunks are all taken from the modified file. *)
Lemma merge_text_modified style o x y diff :
  0 <= x → diff3_from R lines0 lines1 lines2 o x y diff →
  Forall (λ hunk, diff_type hunk ≠ svn_diff__type_diff_latest
                  ∧ diff_type hunk ≠ svn_diff__type_conflict) diff →
  merge_text lines0 lines1 lines2 marks eol style diff = concat (drop (Z.to_nat x) lines1).
Proof.
  intros Hx Hd Htypes. revert o x y Hx Hd; induction Htypes as [|hunk diff [Hlat Hcon] _ IH];
    intros o x y Hx; rewrite ?merge_text_cons; cbn [diff3_from].
  { intros (_ & -> & _). by rewrite Nat2Z.id, drop_all. }
  intros (_ & Hxs & _ & _ & Hlen & _ & _ & Hd). assert (0 <= x + modified_length hunk) as Hx' by lia.
  rewrite (IH _ _ _ Hx' Hd).
  rewrite <- (slice_drop lines1 x (modified_length hunk)) by done. rewrite concat_app, <- Hxs.
  f_equal. unfold hunk_text. by destruct (diff_type hunk).
Qed.

(** A diff whose hunks are common or changes of the latest file. *)
Lemma merge_text_latest style o x y diff :
  0 <= y → diff3_from R lines0 lines1 lines2 o x y diff →
  Forall (only svn_diff__type_diff_latest) diff →
  ∃ merged, merge_text lines0 lines1 lines2 marks eol style diff = concat merged
    ∧ Forall2 R merged (drop (Z.to_nat y) lines2).
Proof.
  intros Hy Hd Htypes. revert o x y Hy Hd; induction Htypes as [|hunk diff Htype _ IH];
    intros o x y Hy; rewrite ?merge_text_cons; cbn [diff3_from].
  { intros (_ & _ & ->). exists []. by rewrite Nat2Z.id, drop_all. }
  intros (_ & Hxs & Hys & _ & _ & Hlen & Hok & Hd). assert (0 <= y + latest_length hunk) as Hy' by lia.
  destruct (IH _ _ _ Hy' Hd) as (rest & -> & HR).
  exists (merged_lines lines1 lines2 hunk ++ rest). split.
  - rewrite concat_app. f_equal. unfold hunk_text, merged_lines. by destruct Htype as [-> | ->].
  - rewrite <- (slice_drop lines2 y (latest_length hunk)) by done. apply Forall2_app; [|done].
    unfold merged_lines. unfold hunk_ok in Hok. destruct Htype as [Ht|Ht]; rewrite Ht in *.
    + destruct Hok as (_ & _ & H1 & H2). rewrite Hxs. by etransitivity; [symmetry; exact H1|exact H2].
    + rewrite Hys. apply (reflexivity (R := Forall2 R)).
Qed.

Lemma conflicts_spaced_none pending diff :
  svn_diff_contains_conflicts diff = false → conflicts_spaced lines1 lines2 false pending diff = true.
Proof.
  unfold svn_diff_contains_conflicts. revert pending; induction diff as [|hunk diff IH]; intros pending; [done|].
  cbn [existsb conflicts_spaced]. intros [-> Hd]%orb_false_elim. by apply IH.
Qed.

Lemma conflicts_text_none pending diff :
  svn_diff_contains_conflicts diff = false →
  conflicts_text lines0 lines1 lines2 marks eol false pending diff = [].
Proof.
  unfold svn_diff_contains_conflicts. revert pending; induction diff as [|hunk diff IH]; intros pending; [done|].
  cbn [existsb conflicts_text]. intros [-> Hd]%orb_false_elim. by apply IH.
Qed.
End Whole.

Lemma no_conflicts diff :
  Forall (λ hunk, diff_type hunk ≠ svn_diff__type_conflict) diff → svn_diff_contains_conflicts diff = false.
Proof.
  unfold svn_diff_contains_conflicts. induction 1 as [|hunk diff Hne _ IH]; [done|].
  cbn [existsb]. by rewrite bool_decide_false.
Qed.

(** What a merge in a style writes. *)
Definition merged_text (lines0 lines1 lines2 marks : list (list byte)) (eol : list byte)
    (style : svn_diff_conflict_display_style_t) (diff : list svn_diff_t) : list byte :=
  if bool_decide (style = svn_diff_conflict_display_only_conflicts)
  then conflicts_text lines0 lines1 lines2 marks eol false [] diff
  else merge_text lines0 lines1 lines2 marks eol style diff.

(** The code reads no memory that was freed. *)
Definition merge_defined (lines1 lines2 : list (list byte)) (style : svn_diff_conflict_display_style_t)
    (diff : list svn_diff_t) : bool :=
  negb (bool_decide (style = svn_diff_conflict_display_only_conflicts)) || conflicts_spaced lines1 lines2 false [] diff.

(** The end of line of the markers. *)
Definition marker_eol_of (APR_EOL_STR : list byte) (lines1 : list (list byte)) : list byte :=
  match lines1 with
  | token :: _ => default APR_EOL_STR (detect_eol token)
  | [] => APR_EOL_STR
  end.

Section Output.
Context (convert : list byte → result (list byte)) (APR_EOL_STR : list byte).
Context (original modified latest : list byte).
Context (label_original label_modified label_latest label_separator : option (list byte)).
Context (mark_original mark_modified mark_latest mark_separator : list byte).

(** The four labels, or what stands for those not given, in the native charset. *)
Record converted : Prop := {
  cv_modified : convert (default (String.list_byte_of_string "<<<<<<< (modified)") label_modified)
    = Ok mark_modified;
  cv_original : convert (default (String.list_byte_of_string "||||||| (original)") label_original)
    = Ok mark_original;
  cv_separator : convert (default (String.list_byte_of_string "=======") label_separator)
    = Ok mark_separator;
  cv_latest : convert (default (String.list_byte_of_string ">>>>>>> (latest)") label_latest)
    = Ok mark_latest;
}.

Abbreviation lines0 := (tokens (fill_source_tokens original)) (only parsing).
Abbreviation lines1 := (tokens (fill_source_tokens modified)) (only parsing).
Abbreviation lines2 := (tokens (fill_source_tokens latest)) (only parsing).
Abbreviation marks := [mark_original; mark_modified; mark_separator; mark_latest] (only parsing).

Lemma output_merge2_ok output diff style :
  converted → Forall from_start diff →
  svn_diff_mem_string_output_merge2 convert APR_EOL_STR output diff original modified latest
    label_original label_modified label_latest label_separator style
  = if merge_defined lines1 lines2 style diff
    then Ok (output ++ merged_text lines0 lines1 lines2 marks (marker_eol_of APR_EOL_STR lines1) style diff)
    else Undefined.
Proof.
  intros [Hm Ho Hs Hl] Hdiff. unfold svn_diff_mem_string_output_merge2, merged_text, merge_defined.
  rewrite Hm. cbn [rbind]. rewrite Ho. cbn [rbind]. rewrite Hs. cbn [rbind]. rewrite Hl. cbn [rbind].
  fold (marker_eol_of APR_EOL_STR lines1). case_bool_decide as Hstyle.
  - set (btn := MkMerge _ _ _ _ _ _ _).
    pose proof (only_conflicts_output lines0 lines1 lines2 marks (marker_eol_of APR_EOL_STR lines1) false
      [] output btn diff) as Hout. cbn [negb orb]. destruct (conflicts_spaced _ _ _ _ _).
    1: destruct Hout as (btn' & -> & Hout); [|done|by rewrite <- Hout].
    2: rewrite Hout; [done| |done].
    all: split; try done; [by rewrite app_nil_r|split; [done|]; exists empty_saver; split; [done|apply saved_empty]].
  - rewrite (merge_output_real lines0 lines1 lines2) by done. done.
Qed.
End Output.

(** C6: svn_diff_mem_string_diff3 of any three texts and options ends with a
    diff whose hunks partition the three files in order: in a common hunk
    the three agree, in a modified or latest hunk the original agrees with
    the other file, a diff-common hunk changes both files alike, and a
    conflict's sides differ; when two of the three files are equal, every
    hunk that is not common says so, and there are no conflicts. *)
Theorem svn_diff_mem_string_diff3_spec `{!ZlibAdler} (opts : svn_diff_file_options_t)
    (original modified latest : list byte) :
  let lines0 := tokens (fill_source_tokens original) in
  let lines1 := tokens (fill_source_tokens modified) in
  let lines2 := tokens (fill_source_tokens latest) in
  ∃ diff,
    svn_diff_mem_string_diff3 opts original modified latest = Ok diff
    ∧ diff3_of (same_line opts) lines0 lines1 lines2 diff
    ∧ (Forall2 (same_line opts) lines1 lines2 → Forall (only svn_diff__type_diff_common) diff)
    ∧ (Forall2 (same_line opts) lines0 lines2 → Forall (only svn_diff__type_diff_modified) diff)
    ∧ (Forall2 (same_line opts) lines0 lines1 → Forall (only svn_diff__type_diff_latest) diff).
Proof. apply mem_string_diff3_ok. Qed.



(** The end-of-file element of the chain for a conflict is recognised by the
    offset 1, which the first line of a file has too: when a conflict starts at
    the first line and a file's first line matches in it, the match is moved.
    Here the merge shows the common line [x] on neither side, and [b] twice. *)
Example merge_resolved_line_one :
  let text s := flat_map (λ c, [c; x0a]) (String.list_byte_of_string s) in
  let labelled s := String.list_byte_of_string s ++ [x0a] in
  (let! diff := svn_diff_mem_string_diff3 (MkOptions svn_diff_file_ignore_space_none false)
                  (text "ab") (text "xb") (text "yxb") in
   svn_diff_mem_string_output_merge2 Ok [x0a] [] diff (text "ab") (text "xb") (text "yxb")
     None None None None svn_diff_conflict_display_resolved_modified_latest)
  = Ok (labelled "<<<<<<< (modified)" ++ text "x" ++ labelled "=======" ++ text "y"
        ++ labelled ">>>>>>> (latest)" ++ text "bb").
Proof. vm_compute. reflexivity. Qed.

(** Two conflicts with one line between them: the second one asks for the
    stream of the saver that was freed after the first one. *)
Lemma merge_only_conflicts_close :
  let text s := flat_map (λ c, [c; x0a]) (String.list_byte_of_string s) in
  let diff3 := svn_diff_mem_string_diff3 (MkOptions svn_diff_file_ignore_space_none false) in
  (let! diff := diff3 (text "axbyc") (text "aPbQc") (text "aRbSc") in
   svn_diff_mem_string_output_merge2 Ok [x0a] [] diff (text "axbyc") (text "aPbQc") (text "aRbSc")
     None None None None svn_diff_conflict_display_only_conflicts) = Undefined
  ∧ (let! diff := diff3 (text "axbbbyc") (text "aPbbbQc") (text "aRbbbSc") in
     Ok (merge_defined (map (λ c, [c; x0a]) (String.list_byte_of_string "aPbbbQc"))
       (map (λ c, [c; x0a]) (String.list_byte_of_string "aRbbbSc")) svn_diff_conflict_display_only_conflicts diff))
    = Ok true.
Proof. split; vm_compute; reflexivity. Qed.
