(* ===== verification/DiffUnified.v ===== *)
(** * Unified diffs of in-memory texts

    The unified output of [src/subversion/libsvn_diff/diff_memory.c]: the changed
    hunks of a diff are grouped, with three lines of context, into the hunks of the
    unified format.  A stream and a string buffer are the lists of their bytes.

    [svn_utf_cstring_from_utf8_ex2] converts to the encoding of the headers;
    [APR_EOL_STR] is the end of line of the platform. *)
From S2P Require Import Prelude Diff DiffMemory DiffMerge.

Inductive unified_output_e :=
  | unified_output_context
  | unified_output_delete
  | unified_output_insert.

#[global] Instance unified_output_eq_dec : EqDecision unified_output_e.
Proof. solve_decision. Defined.

(** [prefix_str]: by type.  The two elements of [hunk_length] and [hunk_start] are
    fields of their own; [ob_next_token] is [next_token]. *)
Record output_baton_t := MkOutput {
  ob_stream : list byte;
  ob_sources : list source_tokens_t;
  ob_next_token : Z;
  prefix_str : unified_output_e → list byte;
  hunk : list byte;
  hunk_length0 : Z;
  hunk_length1 : Z;
  hunk_start0 : Z;
  hunk_start1 : Z;
  hunk_delimiter : option (list byte);
}.

Section Unified.
Context (svn_utf_cstring_from_utf8_ex2 : list byte → result (list byte)) (APR_EOL_STR : list byte).

Definition set_ob_next_token (btn : output_baton_t) (next : Z) : output_baton_t :=
  MkOutput (ob_stream btn) (ob_sources btn) next (prefix_str btn) (hunk btn) (hunk_length0 btn)
    (hunk_length1 btn) (hunk_start0 btn) (hunk_start1 btn) (hunk_delimiter btn).

Definition set_hunk_start (btn : output_baton_t) (start0 start1 : Z) : output_baton_t :=
  MkOutput (ob_stream btn) (ob_sources btn) (ob_next_token btn) (prefix_str btn) (hunk btn)
    (hunk_length0 btn) (hunk_length1 btn) start0 start1 (hunk_delimiter btn).

Definition append_hunk (btn : output_baton_t) (bytes : list byte) (length0 length1 : Z)
    : output_baton_t :=
  MkOutput (ob_stream btn) (ob_sources btn) (ob_next_token btn) (prefix_str btn) (hunk btn ++ bytes)
    length0 length1 (hunk_start0 btn) (hunk_start1 btn) (hunk_delimiter btn).

Definition write_stream (btn : output_baton_t) (bytes : list byte) : output_baton_t :=
  MkOutput (ob_stream btn ++ bytes) (ob_sources btn) (ob_next_token btn) (prefix_str btn) (hunk btn)
    (hunk_length0 btn) (hunk_length1 btn) (hunk_start0 btn) (hunk_start1 btn) (hunk_delimiter btn).

Definition clear_hunk (btn : output_baton_t) : output_baton_t :=
  MkOutput (ob_stream btn) (ob_sources btn) (ob_next_token btn) (prefix_str btn) []
    0 0 (hunk_start0 btn) (hunk_start1 btn) (hunk_delimiter btn).

(** One token of the loop. *)
Definition output_token (btn : output_baton_t) (type : unified_output_e) (token : list byte)
    : output_baton_t :=
  let bytes := prefix_str btn type ++ token in
  match type with
  | unified_output_context => append_hunk btn bytes (hunk_length0 btn + 1) (hunk_length1 btn + 1)
  | unified_output_delete => append_hunk btn bytes (hunk_length0 btn + 1) (hunk_length1 btn)
  | unified_output_insert => append_hunk btn bytes (hunk_length0 btn) (hunk_length1 btn + 1)
  end.

Definition output_unified_token_range (btn : output_baton_t) (tokens_ : nat) (type : unified_output_e)
    (first past_last : Z) : result output_baton_t :=
  let! source := from_option Ok Undefined (ob_sources btn !! tokens_) in
  let nelts := Z.of_nat (length (tokens source)) in
  let past_last := if nelts <? past_last then nelts else past_last in
  let first := if (tokens_ =? 0)%nat then
                 if first <? ob_next_token btn then ob_next_token btn else first
               else first in
  if past_last <=? first then Ok btn
  else if first <? 0 then Undefined
  else
    let btn := fold_left (λ btn token, output_token btn type token)
                 (take (Z.to_nat (past_last - first)) (drop (Z.to_nat first) (tokens source))) btn in
    let! btn :=
      if (past_last =? nelts) && ends_without_eol source then
        let! out_str := svn_utf_cstring_from_utf8_ex2
          (APR_EOL_STR ++ String.list_byte_of_string "\ No newline at end of file" ++ APR_EOL_STR) in
        Ok (append_hunk btn out_str (hunk_length0 btn) (hunk_length1 btn))
      else Ok btn in
    Ok (if (tokens_ =? 0)%nat then set_ob_next_token btn past_last else btn).

(** [svn_stream_printf_from_utf8], the message being formatted. *)
Definition svn_stream_printf_from_utf8 (btn : output_baton_t) (message : list byte)
    : result output_baton_t :=
  let! translated := svn_utf_cstring_from_utf8_ex2 message in
  Ok (write_stream btn translated).

(** A start and a length; the length 1 is not shown. *)
Definition range_numbers (start length_ : Z) : list byte :=
  printf_ld start ++ (if length_ =? 1 then [] else ","%byte :: printf_ld length_).

Definition output_unified_flush_hunk (baton : output_baton_t) (delimiter : option (list byte))
    : result output_baton_t :=
  match hunk baton with
  | [] => Ok baton
  | _ =>
      let target_token := hunk_start0 baton + hunk_length0 baton
                          + Z.of_nat SVN_DIFF__UNIFIED_CONTEXT_SIZE in
      let! baton := output_unified_token_range baton 0 unified_output_context
                      (ob_next_token baton) target_token in
      let delimiter := default (String.list_byte_of_string "@@") delimiter in
      let baton := if 0 <? hunk_length0 baton
                   then set_hunk_start baton (hunk_start0 baton + 1) (hunk_start1 baton) else baton in
      let! baton := svn_stream_printf_from_utf8 baton
        (delimiter ++ String.list_byte_of_string " -"
         ++ range_numbers (hunk_start0 baton) (hunk_length0 baton)) in
      let baton := if 0 <? hunk_length1 baton
                   then set_hunk_start baton (hunk_start0 baton) (hunk_start1 baton + 1) else baton in
      let! baton := svn_stream_printf_from_utf8 baton
        (String.list_byte_of_string " +" ++ range_numbers (hunk_start1 baton) (hunk_length1 baton)
         ++ " "%byte :: delimiter ++ APR_EOL_STR) in
      Ok (clear_hunk (write_stream baton (hunk baton)))
  end.

Definition output_unified_diff_modified : output_fn output_baton_t :=
  λ btn original_start original_length modified_start modified_length _ _,
    let context := Z.of_nat SVN_DIFF__UNIFIED_CONTEXT_SIZE in
    let targ_orig := original_start - context in
    let targ_orig := if targ_orig <? 0 then 0 else targ_orig in
    let targ_mod := modified_start in
    let! (btn, targ_orig) :=
      if ob_next_token btn + context <? targ_orig then
        let! btn := output_unified_flush_hunk btn (hunk_delimiter btn) in
        Ok (btn, targ_orig)
      else if negb (hunk_length0 btn =? 0) then Ok (btn, ob_next_token btn)
      else Ok (btn, targ_orig) in
    let btn := if (hunk_length0 btn =? 0) && (hunk_length1 btn =? 0)
               then set_hunk_start btn targ_orig (targ_mod + targ_orig - original_start) else btn in
    let! btn := output_unified_token_range btn 0 unified_output_context targ_orig original_start in
    let! btn := output_unified_token_range btn 0 unified_output_delete original_start
                  (original_start + original_length) in
    output_unified_token_range btn 1 unified_output_insert modified_start
      (modified_start + modified_length).

Definition mem_output_unified_vtable : svn_diff_output_fns_t output_baton_t := {|
  output_common := None;
  output_diff_modified := Some output_unified_diff_modified;
  output_diff_latest := None;
  output_diff_common := None;
  output_conflict := None;
|}.

(** [output] is what the stream held before. *)
Definition svn_diff_mem_string_output_unified2 (output : list byte) (diff : list svn_diff_t)
    (with_diff_header : bool) (delimiter : option (list byte))
    (original_header modified_header original modified : list byte) : result (list byte) :=
  if svn_diff_contains_diffs diff then
    let! context := svn_utf_cstring_from_utf8_ex2 (String.list_byte_of_string " ") in
    let! delete := svn_utf_cstring_from_utf8_ex2 (String.list_byte_of_string "-") in
    let! insert := svn_utf_cstring_from_utf8_ex2 (String.list_byte_of_string "+") in
    let prefixes type :=
      match type with
      | unified_output_context => context
      | unified_output_delete => delete
      | unified_output_insert => insert
      end in
    let baton := MkOutput output [fill_source_tokens original; fill_source_tokens modified]
                   0 prefixes [] 0 0 0 0 delimiter in
    let! baton :=
      if with_diff_header then
        svn_stream_printf_from_utf8 baton
          (String.list_byte_of_string "--- " ++ original_header ++ APR_EOL_STR
           ++ String.list_byte_of_string "+++ " ++ modified_header ++ APR_EOL_STR)
      else Ok baton in
    let! baton := svn_diff_output mem_output_unified_vtable diff baton in
    let! baton := output_unified_flush_hunk baton delimiter in
    Ok (ob_stream baton)
  else Ok output.

Definition svn_diff_mem_string_output_unified (output : list byte) (diff : list svn_diff_t)
    (original_header modified_header original modified : list byte) : result (list byte) :=
  svn_diff_mem_string_output_unified2 output diff true None original_header modified_header
    original modified.
End Unified.
