(* ===== verification/DiffUnifiedCorrect.v ===== *)
(** * Properties of unified diffs

    A unified diff as a list of structured hunks: what each of them shows of the
    original, what it puts in its place, and how it is written. *)
From S2P Require Import Prelude Diff DiffCorrect DiffNormalize DiffNormalizeCorrect DiffMemory DiffMemoryCorrect DiffMerge DiffUnified.

(** ** Structured hunks *)

(** The lines of a hunk are named by their index, in the original or, for
    insertions, in the modified file; the starts count from 0. *)
Record unified_hunk := MkHunk {
  uh_start0 : Z;
  uh_length0 : Z;
  uh_start1 : Z;
  uh_length1 : Z;
  uh_lines : list (unified_output_e * nat);
}.

Section Hunks.
Context (lines0 lines1 : list (list byte)).

Definition old_line (line : unified_output_e * nat) : option (list byte) :=
  match line.1 with unified_output_insert => None | _ => lines0 !! line.2 end.

Definition new_line (line : unified_output_e * nat) : option (list byte) :=
  match line.1 with
  | unified_output_context => lines0 !! line.2
  | unified_output_delete => None
  | unified_output_insert => lines1 !! line.2
  end.

Definition old_lines (ls : list (unified_output_e * nat)) : list (list byte) := omap old_line ls.
Definition new_lines (ls : list (unified_output_e * nat)) : list (list byte) := omap new_line ls.

Definition line_in (line : unified_output_e * nat) : Prop :=
  (line.2 < length (match line.1 with unified_output_insert => lines1 | _ => lines0 end))%nat.

(** A hunk that follows the lines up to [o] of the original, which the hunks before
    it have made into [patched]. *)
Record hunk_after (o : Z) (patched : list (list byte)) (h : unified_hunk) : Prop := {
  ha_start0 : 0 <= o <= uh_start0 h;
  ha_start1 : uh_start1 h = Z.of_nat (length patched) + (uh_start0 h - o);
  ha_length0 : uh_length0 h = Z.of_nat (length (old_lines (uh_lines h)));
  ha_length1 : uh_length1 h = Z.of_nat (length (new_lines (uh_lines h)));
  ha_old : old_lines (uh_lines h) = slice lines0 (uh_start0 h) (uh_length0 h);
  ha_lines : Forall line_in (uh_lines h);
}.

Definition hunk_end (h : unified_hunk) : Z := uh_start0 h + uh_length0 h.

(** The lines between the hunks stay. *)
Definition hunk_result (o : Z) (patched : list (list byte)) (h : unified_hunk) : list (list byte) :=
  patched ++ slice lines0 o (uh_start0 h - o) ++ new_lines (uh_lines h).

(** The hunks make the original up to a line into the lines [patched]. *)
Inductive covers : list unified_hunk → Z → list (list byte) → Prop :=
  | covers_nil : covers [] 0 []
  | covers_snoc hs o patched h :
      covers hs o patched → hunk_after o patched h →
      covers (hs ++ [h]) (hunk_end h) (hunk_result o patched h).

Lemma slice_to_end {A} (l : list A) start :
  0 <= start <= Z.of_nat (length l) → slice l start (Z.of_nat (length l) - start) = drop (Z.to_nat start) l.
Proof. intros. unfold slice. apply take_ge. rewrite length_drop. lia. Qed.

(** ** Growing a hunk *)

Definition grow (h : unified_hunk) (ls : list (unified_output_e * nat)) : unified_hunk :=
  MkHunk (uh_start0 h) (uh_length0 h + Z.of_nat (length (old_lines ls)))
    (uh_start1 h) (uh_length1 h + Z.of_nat (length (new_lines ls))) (uh_lines h ++ ls).

Lemma old_lines_app ls ls' : old_lines (ls ++ ls') = old_lines ls ++ old_lines ls'.
Proof. apply omap_app. Qed.

Lemma new_lines_app ls ls' : new_lines (ls ++ ls') = new_lines ls ++ new_lines ls'.
Proof. apply omap_app. Qed.

Lemma slice_app {A} (l : list A) start a b :
  0 <= start → 0 <= a → 0 <= b → slice l start (a + b) = slice l start a ++ slice l (start + a) b.
Proof.
  intros. unfold slice. rewrite !Z2Nat.inj_add by done. rewrite <- drop_drop.
  by rewrite take_take_drop.
Qed.

Lemma hunk_after_grow o patched h ls :
  hunk_after o patched h → Forall line_in ls →
  old_lines ls = slice lines0 (hunk_end h) (Z.of_nat (length (old_lines ls))) →
  hunk_after o patched (grow h ls).
Proof.
  intros [Hs0 Hs1 H0 H1 Hold Hin] Hls Heq. split; cbn [grow uh_start0 uh_start1 uh_length0 uh_length1 uh_lines].
  - done.
  - done.
  - rewrite old_lines_app, length_app. lia.
  - rewrite new_lines_app, length_app. lia.
  - rewrite old_lines_app, slice_app, <- Hold by lia. by f_equal.
  - by apply Forall_app.
Qed.

Lemma hunk_result_grow o patched h ls :
  hunk_result o patched (grow h ls) = hunk_result o patched h ++ new_lines ls.
Proof. unfold hunk_result. cbn [grow uh_start0 uh_lines]. by rewrite new_lines_app, <- !app_assoc. Qed.

Lemma hunk_result_length o patched h :
  hunk_after o patched h → uh_start0 h <= Z.of_nat (length lines0) →
  Z.of_nat (length (hunk_result o patched h)) = uh_start1 h + uh_length1 h.
Proof.
  intros [Hs0 Hs1 H0 H1 _ _] Hend. unfold hunk_result, slice.
  rewrite !length_app, length_take, length_drop, H1, Hs1. lia.
Qed.

(** A hunk without lines. *)
Lemma no_lines o patched h :
  hunk_after o patched h → uh_length0 h = 0 → uh_length1 h = 0 → uh_lines h = [].
Proof.
  intros [_ _ H0 H1 _ Hin] Hz0 Hz1. rewrite Hz0 in H0. rewrite Hz1 in H1.
  destruct (uh_lines h) as [|[type idx] ls]; [done|]. apply Forall_cons in Hin as [Hin _].
  unfold line_in, old_lines, new_lines in *. destruct type; cbn [fst snd omap list_omap old_line new_line] in *;
    apply lookup_lt_is_Some_2 in Hin as [t Ht]; unfold old_line, new_line in *;
    cbn [fst snd] in *; rewrite ?Ht in *; simpl in *; lia.
Qed.

(** ** Runs of lines *)

Definition run (type : unified_output_e) (first past : Z) : list (unified_output_e * nat) :=
  map (pair type) (seq (Z.to_nat first) (Z.to_nat (past - first))).

Lemma omap_seq {A} (l : list A) (g : nat → option A) first n :
  (∀ i, g i = l !! i) → (first + n <= length l)%nat → omap g (seq first n) = take n (drop first l).
Proof.
  intros Hg. revert first; induction n as [|n IH]; intros first Hn; [by rewrite take_0|].
  cbn [seq omap list_omap]. rewrite Hg. destruct (lookup_lt_is_Some_2 l first) as [x Hx]; [lia|].
  rewrite Hx, (drop_S _ _ _ Hx). cbn [take]. f_equal. apply IH. lia.
Qed.

Lemma omap_run (g : unified_output_e * nat → option (list byte)) type first past lines :
  (∀ i, g (type, i) = lines !! i) → 0 <= first → past <= Z.of_nat (length lines) →
  omap g (run type first past) = slice lines first (past - first).
Proof.
  intros Hg Hfirst Hpast. unfold run, slice. destruct (Z.le_gt_cases past first).
  { by replace (Z.to_nat (past - first)) with 0%nat by lia. }
  rewrite <- (omap_seq lines (λ i, g (type, i))) by (done || lia).
  generalize (seq (Z.to_nat first) (Z.to_nat (past - first))). intros l.
  induction l as [|i l IH]; [done|]. cbn [map omap list_omap]. by rewrite <- IH.
Qed.

Lemma omap_none (g : unified_output_e * nat → option (list byte)) type first past :
  (∀ i, g (type, i) = None) → omap g (run type first past) = [].
Proof.
  intros Hg. unfold run. generalize (seq (Z.to_nat first) (Z.to_nat (past - first))). intros l.
  induction l as [|i l IH]; [done|]. cbn [map omap list_omap]. by rewrite Hg.
Qed.

Lemma run_in type first past :
  0 <= first →
  past <= Z.of_nat (length (match type with unified_output_insert => lines1 | _ => lines0 end)) →
  Forall (line_in) (run type first past).
Proof.
  intros Hf Hp. apply Forall_forall. unfold run. intros l Hl.
  apply list_elem_of_fmap in Hl as (i & -> & Hi%elem_of_seq). unfold line_in. cbn [fst snd]. lia.
Qed.

(** What a run shows and what it leaves. *)
Lemma run_old type first past :
  0 <= first →
  past <= Z.of_nat (length (match type with unified_output_insert => lines1 | _ => lines0 end)) →
  old_lines (run type first past)
  = match type with unified_output_insert => [] | _ => slice lines0 first (past - first) end.
Proof.
  intros. unfold old_lines. destruct type; [by apply omap_run|by apply omap_run|by apply omap_none].
Qed.

Lemma run_new type first past :
  0 <= first →
  past <= Z.of_nat (length (match type with unified_output_insert => lines1 | _ => lines0 end)) →
  new_lines (run type first past)
  = match type with
    | unified_output_context => slice lines0 first (past - first)
    | unified_output_delete => []
    | unified_output_insert => slice lines1 first (past - first)
    end.
Proof.
  intros. unfold new_lines. destruct type; [by apply omap_run|by apply omap_none|by apply omap_run].
Qed.

Lemma slice_length {A} (l : list A) start n :
  0 <= start → 0 <= n → start + n <= Z.of_nat (length l) → Z.of_nat (length (slice l start n)) = n.
Proof. intros. unfold slice. rewrite length_take, length_drop. lia. Qed.
End Hunks.

(** ** How a hunk is written *)

Section Render.
Context (native : list byte → list byte) (APR_EOL_STR : list byte) (original modified : list byte).
Abbreviation source0 := (fill_source_tokens original) (only parsing).
Abbreviation source1 := (fill_source_tokens modified) (only parsing).
Abbreviation lines0 := (tokens source0) (only parsing).
Abbreviation lines1 := (tokens source1) (only parsing).

Definition type_prefix (type : unified_output_e) : list byte :=
  native (String.list_byte_of_string
    match type with
    | unified_output_context => " "
    | unified_output_delete => "-"
    | unified_output_insert => "+"
    end).

Definition no_newline : list byte :=
  native (APR_EOL_STR ++ String.list_byte_of_string "\ No newline at end of file" ++ APR_EOL_STR).

(** A line with its prefix; after a last line without an end the note. *)
Definition line_text (line : unified_output_e * nat) : list byte :=
  let source := match line.1 with unified_output_insert => source1 | _ => source0 end in
  type_prefix line.1 ++ default [] (tokens source !! line.2)
  ++ (if (S line.2 =? length (tokens source))%nat && ends_without_eol source then no_newline else []).

(** A start as it is shown: from 1, or the line before an empty range. *)
Definition shown_start (start length_ : Z) : Z := if 0 <? length_ then start + 1 else start.

Definition render (delimiter : option (list byte)) (h : unified_hunk) : list byte :=
  let delimiter := default (String.list_byte_of_string "@@") delimiter in
  native (delimiter ++ String.list_byte_of_string " -"
    ++ range_numbers (shown_start (uh_start0 h) (uh_length0 h)) (uh_length0 h))
  ++ native (String.list_byte_of_string " +"
    ++ range_numbers (shown_start (uh_start1 h) (uh_length1 h)) (uh_length1 h)
    ++ " "%byte :: delimiter ++ APR_EOL_STR)
  ++ concat (map line_text (uh_lines h)).
End Render.

(** ** What the callbacks do *)

Section Callbacks.
Context (convert : list byte → result (list byte)) (native : list byte → list byte).
Hypothesis Hconvert : ∀ text, convert text = Ok (native text).
Context (APR_EOL_STR : list byte) (original modified : list byte).
Context (out : list byte) (delimiter : option (list byte)).
Abbreviation lines0 := (tokens (fill_source_tokens original)) (only parsing).
Abbreviation lines1 := (tokens (fill_source_tokens modified)) (only parsing).
Abbreviation text_of := (line_text native APR_EOL_STR original modified) (only parsing).
Abbreviation rendered := (render native APR_EOL_STR original modified delimiter) (only parsing).

(** The hunks [hs] have been written, [h] is being built, and the lines of the
    original from [next] on are still to come. *)
Record writing (hs : list unified_hunk) (h : unified_hunk) (next : Z) (btn : output_baton_t) : Prop := {
  wr_stream : ob_stream btn = out ++ concat (map rendered hs);
  wr_sources : ob_sources btn = [fill_source_tokens original; fill_source_tokens modified];
  wr_next : ob_next_token btn = next;
  wr_prefix : ∀ type, prefix_str btn type = type_prefix native type;
  wr_hunk : hunk btn = concat (map text_of (uh_lines h));
  wr_length0 : hunk_length0 btn = uh_length0 h;
  wr_length1 : hunk_length1 btn = uh_length1 h;
  wr_start0 : hunk_start0 btn = uh_start0 h;
  wr_start1 : hunk_start1 btn = uh_start1 h;
  wr_delimiter : hunk_delimiter btn = delimiter;
}.

Definition source_of (type : unified_output_e) : nat :=
  match type with unified_output_insert => 1%nat | _ => 0%nat end.

Definition counts0 (type : unified_output_e) : Z :=
  match type with unified_output_insert => 0 | _ => 1 end.

Definition counts1 (type : unified_output_e) : Z :=
  match type with unified_output_delete => 0 | _ => 1 end.

Lemma output_token_eq btn type token :
  output_token btn type token
  = append_hunk btn (prefix_str btn type ++ token) (hunk_length0 btn + counts0 type)
      (hunk_length1 btn + counts1 type).
Proof. destruct type; cbn [output_token counts0 counts1]; by rewrite ?Z.add_0_r. Qed.

Lemma output_tokens btn type ts :
  fold_left (λ btn token, output_token btn type token) ts btn
  = append_hunk btn (concat (map (λ token, prefix_str btn type ++ token) ts))
      (hunk_length0 btn + counts0 type * Z.of_nat (length ts))
      (hunk_length1 btn + counts1 type * Z.of_nat (length ts)).
Proof.
  revert btn; induction ts as [|t ts IH]; intros btn.
  - destruct btn. unfold append_hunk. simpl. by rewrite app_nil_r, !Z.mul_0_r, !Z.add_0_r.
  - cbn [fold_left]. rewrite IH, output_token_eq. unfold append_hunk.
    cbn [ob_stream ob_sources ob_next_token prefix_str hunk hunk_length0 hunk_length1 hunk_start0
         hunk_start1 hunk_delimiter map concat length].
    f_equal; [by rewrite !app_assoc|destruct type; cbn [counts0 counts1]; lia..].
Qed.

(** The text of a run of lines: only a last line can have a note. *)
Lemma run_text type lines first n :
  lines = tokens (match type with unified_output_insert => fill_source_tokens modified
                             | _ => fill_source_tokens original end) →
  (first + n <= length lines)%nat →
  concat (map text_of (map (pair type) (seq first n)))
  = concat (map (λ token, type_prefix native type ++ token) (take n (drop first lines)))
    ++ (if (0 <? n)%nat && (first + n =? length lines)%nat
           && ends_without_eol (match type with unified_output_insert => fill_source_tokens modified
                                           | _ => fill_source_tokens original end)
        then no_newline native APR_EOL_STR else []).
Proof.
  intros Hlines. induction n as [|n IH]; intros Hn; [by rewrite take_0|].
  rewrite seq_S, !map_app, concat_app, IH by lia.
  rewrite (proj2 (Nat.eqb_neq (first + n) _)), andb_false_r, app_nil_r by lia.
  destruct (lookup_lt_is_Some_2 lines (first + n)) as [x Hx]; [lia|].
  rewrite (take_S_r _ _ x) by (by rewrite lookup_drop). rewrite map_app, concat_app, <- app_assoc.
  f_equal. cbn [map concat]. rewrite !app_nil_r. unfold line_text. cbn [fst snd].
  rewrite <- (app_assoc (type_prefix native type)). f_equal.
  change (0 <? S n)%nat with true. cbn [andb]. rewrite Nat.add_succ_r. subst lines. by rewrite Hx.
Qed.

Lemma run_lengths type first past :
  0 <= first <= past →
  past <= Z.of_nat (length (match type with unified_output_insert => lines1 | _ => lines0 end)) →
  Z.of_nat (length (old_lines lines0 (run type first past))) = counts0 type * (past - first)
  ∧ Z.of_nat (length (new_lines lines0 lines1 (run type first past))) = counts1 type * (past - first).
Proof.
  intros Hf Hp. unfold counts0, counts1.
  rewrite (run_old lines0 lines1), run_new by (lia || done).
  destruct type; rewrite ?slice_length by lia; cbn [length]; lia.
Qed.

Lemma token_range_ok hs h next btn type first past :
  writing hs h next btn →
  let lines := match type with unified_output_insert => lines1 | _ => lines0 end in
  let past' := Z.min past (Z.of_nat (length lines)) in
  let first' := if (source_of type =? 0)%nat then Z.max first next else first in
  0 <= first' <= past' →
  ∃ btn', output_unified_token_range convert APR_EOL_STR btn (source_of type) type first past = Ok btn'
    ∧ writing hs (grow lines0 lines1 h (run type first' past'))
        (if (source_of type =? 0)%nat && (first' <? past') then past' else next) btn'.
Proof.
  intros Hw lines past' first' Hf. unfold output_unified_token_range.
  set (source := match type with unified_output_insert => fill_source_tokens modified
                            | _ => fill_source_tokens original end).
  assert (ob_sources btn !! source_of type = Some source) as ->
    by (rewrite (wr_sources _ _ _ _ Hw); by destruct type).
  cbn [from_option rbind]. assert (lines = tokens source) as Hlines by (unfold source, lines; by destruct type).
  rewrite <- Hlines.
  assert ((if Z.of_nat (length lines) <? past then Z.of_nat (length lines) else past) = past') as ->
    by (unfold past'; case_if; lia).
  assert ((if (source_of type =? 0)%nat then
             if first <? ob_next_token btn then ob_next_token btn else first else first) = first') as ->
    by (unfold first'; rewrite (wr_next _ _ _ _ Hw); repeat case_if; lia).
  destruct (run_lengths type first' past') as [Hl0 Hl1]; [done|fold lines; lia|].
  destruct (Z.leb_spec past' first') as [Hle|Hlt].
  { assert (run type first' past' = []) as Hrun
      by (unfold run; by replace (Z.to_nat (past' - first')) with 0%nat by lia).
    exists btn. split; [done|]. rewrite (proj2 (Z.ltb_ge first' past')), andb_false_r by done.
    rewrite Hrun. unfold grow. cbn [old_lines new_lines omap list_omap length].
    rewrite !Z.add_0_r, app_nil_r. by destruct h. }
  rewrite (proj2 (Z.ltb_ge first' 0)), (proj2 (Z.ltb_lt first' past')), andb_true_r by lia.
  rewrite output_tokens. set (ts := take _ (drop _ lines)).
  assert (Z.of_nat (length ts) = past' - first') as Hts
    by (unfold ts; rewrite length_take, length_drop; lia).
  assert (concat (map text_of (run type first' past'))
    = concat (map (λ token, type_prefix native type ++ token) ts)
      ++ (if (past' =? Z.of_nat (length lines)) && ends_without_eol source
          then no_newline native APR_EOL_STR else [])) as Htext.
  { unfold run. rewrite (run_text type lines) by (exact Hlines || lia). f_equal. fold source.
    rewrite (proj2 (Nat.ltb_lt 0 _)) by lia. cbn [andb].
    replace (_ =? length lines)%nat with (past' =? Z.of_nat (length lines)); [done|].
    destruct (Z.eqb_spec past' (Z.of_nat (length lines))), (Nat.eqb_spec (Z.to_nat first' + Z.to_nat (past' - first')) (length lines));
      done || lia. }
  destruct Hw as [Hstream Hsources Hnext Hprefix Hhunk H0 H1 Hs0 Hs1 Hdelim].
  assert (concat (map (λ token, prefix_str btn type ++ token) ts)
    = concat (map (λ token, type_prefix native type ++ token) ts)) as Hprefixes
    by (f_equal; apply map_ext; intros t; by rewrite Hprefix).
  rewrite Hprefixes, Hts.
  set (final := append_hunk btn (concat (map text_of (run type first' past')))
    (hunk_length0 btn + counts0 type * (past' - first')) (hunk_length1 btn + counts1 type * (past' - first'))).
  exists (if (source_of type =? 0)%nat then set_ob_next_token final past' else final). split.
  - unfold final. rewrite Htext. destruct (_ && _); [rewrite Hconvert|]; cbn [rbind]; unfold append_hunk;
      cbn [hunk hunk_length0 hunk_length1]; rewrite ?app_nil_r, <- ?app_assoc; done.
  - destruct (source_of type =? 0)%nat; split; cbn; try done;
      rewrite ?map_app, ?concat_app, ?Hhunk, ?Hl0, ?Hl1, ?H0, ?H1; done.
Qed.

Lemma line_text_nonempty line : line_in lines0 lines1 line → text_of line ≠ [].
Proof.
  intros Hin. unfold line_in in Hin. unfold line_text.
  destruct (lookup_lt_is_Some_2 _ _ Hin) as [t Ht].
  assert (t ≠ []) as Hne.
  { destruct line as [type idx]. cbn [fst snd] in Ht.
    destruct type; apply list_elem_of_lookup_2 in Ht; by eapply tokens_nonempty. }
  assert (tokens (match line.1 with unified_output_insert => fill_source_tokens modified
                               | _ => fill_source_tokens original end) !! line.2 = Some t) as ->
    by (by destruct line as [[] ?]).
  destruct (type_prefix native line.1); [|done]. by destruct t.
Qed.

Lemma lines_text_nonempty ls : Forall (line_in lines0 lines1) ls → ls ≠ [] → concat (map text_of ls) ≠ [].
Proof.
  destruct ls as [|l ls]; [done|]. intros [Hl _]%Forall_cons _. cbn [map concat].
  apply line_text_nonempty in Hl. by destruct (text_of l).
Qed.

Lemma flush_empty hs h next btn :
  writing hs h next btn → uh_lines h = [] →
  output_unified_flush_hunk convert APR_EOL_STR btn delimiter = Ok btn.
Proof.
  intros Hw Hnil. unfold output_unified_flush_hunk. by rewrite (wr_hunk _ _ _ _ Hw), Hnil.
Qed.

Lemma flush_ok hs h btn :
  writing hs h (hunk_end h) btn → uh_lines h ≠ [] → Forall (line_in lines0 lines1) (uh_lines h) →
  0 <= hunk_end h <= Z.of_nat (length lines0) →
  let past := Z.min (hunk_end h + 3) (Z.of_nat (length lines0)) in
  ∃ btn' start0 start1,
    output_unified_flush_hunk convert APR_EOL_STR btn delimiter = Ok btn'
    ∧ writing (hs ++ [grow lines0 lines1 h (run unified_output_context (hunk_end h) past)])
        (MkHunk start0 0 start1 0 []) past btn'.
Proof.
  intros Hw Hne Hin Hend past. unfold output_unified_flush_hunk.
  pose proof (lines_text_nonempty _ Hin Hne) as Htext. rewrite <- (wr_hunk _ _ _ _ Hw) in Htext.
  destruct (hunk btn) as [|c bytes] eqn:Hbytes; [done|]. clear Htext c bytes Hbytes.
  change (Z.of_nat SVN_DIFF__UNIFIED_CONTEXT_SIZE) with 3.
  rewrite (wr_start0 _ _ _ _ Hw), (wr_length0 _ _ _ _ Hw), (wr_next _ _ _ _ Hw). fold (hunk_end h).
  destruct (token_range_ok hs h (hunk_end h) btn unified_output_context (hunk_end h) (hunk_end h + 3) Hw)
    as (btn1 & Hrange & Hw1); cbn [source_of Nat.eqb]; rewrite ?Z.max_id; [lia|].
  cbn [source_of Nat.eqb] in Hrange, Hw1. rewrite Z.max_id in Hw1. rewrite Hrange. cbn [rbind].
  fold past in Hw1. set (h' := grow _ _ h _) in *.
  assert ((if true && (hunk_end h <? past) then past else hunk_end h) = past) as Hpast
    by (destruct (Z.ltb_spec (hunk_end h) past); simpl; lia). rewrite Hpast in Hw1.
  destruct Hw1 as [Hstream Hsources Hnext Hprefix Hhunk H0 H1 Hs0 Hs1 Hdelim].
  unfold svn_stream_printf_from_utf8.
  assert ((if 0 <? hunk_length0 btn1 then set_hunk_start btn1 (hunk_start0 btn1 + 1) (hunk_start1 btn1) else btn1)
    = set_hunk_start btn1 (shown_start (uh_start0 h') (uh_length0 h')) (uh_start1 h')) as ->.
  { unfold shown_start. rewrite <- Hs0, <- Hs1, <- H0. case_if; by destruct btn1. }
  rewrite Hconvert. cbn [rbind]. set (btn2 := write_stream _ _).
  assert ((if 0 <? hunk_length1 btn2 then set_hunk_start btn2 (hunk_start0 btn2) (hunk_start1 btn2 + 1) else btn2)
    = set_hunk_start btn2 (shown_start (uh_start0 h') (uh_length0 h'))
        (shown_start (uh_start1 h') (uh_length1 h'))) as ->.
  { unfold shown_start at 2. rewrite <- H1. cbn [btn2 write_stream set_hunk_start hunk_length1 hunk_start0 hunk_start1].
    case_if; by destruct btn1. }
  rewrite Hconvert. cbn [rbind]. eexists _, _, _. split; [done|]. split; try done.
  - cbn [clear_hunk write_stream set_hunk_start ob_stream hunk hunk_start0 hunk_start1 hunk_length0 hunk_length1 btn2].
    rewrite Hstream, Hhunk, H0, H1, map_app, concat_app, <- !app_assoc. cbn [map concat].
    rewrite app_nil_r. unfold render. by rewrite <- ?app_assoc.
Qed.

Abbreviation after := (hunk_after lines0 lines1) (only parsing).
Abbreviation result_of := (hunk_result lines0 lines1) (only parsing).
Abbreviation grown := (grow lines0 lines1) (only parsing).

Lemma after_run o1 patched h type first past :
  after o1 patched h → 0 <= first <= past →
  past <= Z.of_nat (length (match type with unified_output_insert => lines1 | _ => lines0 end)) →
  (type = unified_output_insert ∨ first = hunk_end h) →
  after o1 patched (grown h (run type first past))
  ∧ hunk_end (grown h (run type first past)) = hunk_end h + counts0 type * (past - first).
Proof.
  intros Ha Hf Hp Hend. destruct (run_lengths type first past Hf Hp) as [Hl0 _]. split.
  - apply hunk_after_grow; [done|by apply run_in; lia|].
    rewrite Hl0, (run_old lines0 lines1) by (done || lia). unfold counts0.
    destruct type; [..|by rewrite Z.mul_0_l]; rewrite Z.mul_1_l; by destruct Hend as [? | ->].
  - unfold hunk_end. cbn [grow uh_start0 uh_length0]. rewrite Hl0. lia.
Qed.

(** The context, the deletions and the insertions of a change. *)
Lemma emit_change hs o1 patched h next btn targ o a m b :
  writing hs h next btn → after o1 patched h → hunk_end h = targ → next <= targ → targ <= o →
  (targ = o → next = o) → 0 <= a → 0 <= b → 0 <= m →
  o + a <= Z.of_nat (length lines0) → m + b <= Z.of_nat (length lines1) →
  ∃ btn' ls,
    (let! btn := output_unified_token_range convert APR_EOL_STR btn 0 unified_output_context targ o in
     let! btn := output_unified_token_range convert APR_EOL_STR btn 0 unified_output_delete o (o + a) in
     output_unified_token_range convert APR_EOL_STR btn 1 unified_output_insert m (m + b)) = Ok btn'
    ∧ writing hs (grown h ls) (o + a) btn' ∧ after o1 patched (grown h ls)
    ∧ hunk_end (grown h ls) = o + a
    ∧ result_of o1 patched (grown h ls) = result_of o1 patched h ++ slice lines0 targ (o - targ) ++ slice lines1 m b
    ∧ uh_length0 (grown h ls) = uh_length0 h + (o - targ) + a
    ∧ uh_length1 (grown h ls) = uh_length1 h + (o - targ) + b.
Proof.
  intros Hw Ha Hend Hnext Htarg Hsame Ha0 Hb0 Hm0 Hoa Hmb.
  assert (0 <= targ) as H0 by (destruct Ha; unfold hunk_end in *; lia).
  destruct (token_range_ok hs h next btn unified_output_context targ o Hw)
    as (btn1 & H1 & Hw1); cbn [source_of Nat.eqb]; [lia|]. cbn [source_of Nat.eqb] in H1, Hw1.
  rewrite Z.max_l, Z.min_l in Hw1 by lia.
  assert ((if true && (targ <? o) then o else next) = o) as Ho
    by (destruct (Z.ltb_spec targ o); simpl; lia). rewrite Ho in Hw1. rewrite H1. cbn [rbind].
  destruct (after_run o1 patched h unified_output_context targ o) as [Ha1 He1]; [done|lia|lia|by right|].
  set (h1 := grown h _) in *.
  destruct (token_range_ok hs h1 o btn1 unified_output_delete o (o + a) Hw1)
    as (btn2 & H2 & Hw2); cbn [source_of Nat.eqb]; [lia|]. cbn [source_of Nat.eqb] in H2, Hw2.
  rewrite Z.max_l, Z.min_l in Hw2 by lia.
  assert ((if true && (o <? o + a) then o + a else o) = o + a) as Hoa'
    by (destruct (Z.ltb_spec o (o + a)); simpl; lia). rewrite Hoa' in Hw2. rewrite H2. cbn [rbind].
  unfold counts0 in He1.
  destruct (after_run o1 patched h1 unified_output_delete o (o + a)) as [Ha2 He2]; [done|lia|lia|right; lia|].
  set (h2 := grown h1 _) in *.
  destruct (token_range_ok hs h2 (o + a) btn2 unified_output_insert m (m + b) Hw2)
    as (btn3 & H3 & Hw3); cbn [source_of Nat.eqb]; [lia|]. cbn [source_of Nat.eqb andb] in H3, Hw3.
  rewrite Z.min_l in Hw3 by lia.
  destruct (after_run o1 patched h2 unified_output_insert m (m + b)) as [Ha3 He3]; [done|lia|lia|by left|].
  exists btn3, (run unified_output_context targ o ++ run unified_output_delete o (o + a)
                ++ run unified_output_insert m (m + b)).
  assert (grown h (run unified_output_context targ o ++ run unified_output_delete o (o + a)
      ++ run unified_output_insert m (m + b)) = grown h2 (run unified_output_insert m (m + b))) as ->.
  { unfold h2, h1, grow. cbn [uh_start0 uh_start1 uh_length0 uh_length1 uh_lines].
    rewrite !old_lines_app, !new_lines_app, !length_app, <- !app_assoc. f_equal; lia. }
  split; [done|]. split; [done|]. split; [done|]. unfold counts0 in *. split; [lia|].
  destruct (run_lengths unified_output_context targ o) as [Hc0 Hc1]; [lia..|].
  destruct (run_lengths unified_output_delete o (o + a)) as [Hd0 Hd1]; [lia..|].
  destruct (run_lengths unified_output_insert m (m + b)) as [Hi0 Hi1]; [lia..|].
  unfold counts0, counts1 in *. split.
  - unfold h2, h1. rewrite !hunk_result_grow, !run_new by lia. rewrite app_nil_r, <- app_assoc.
    do 3 f_equal. lia.
  - unfold h2, h1. cbn [grow uh_length0 uh_length1]. lia.
Qed.

(** ** A change *)

(** After the lines [o] of the original and [m] of the modified file: the lines
    since the last one that was written are common. *)
Record at_change (R : list byte → list byte → Prop) (o m : Z) (hs : list unified_hunk) (o1 : Z)
    (patched : list (list byte)) (h : unified_hunk) (btn : output_baton_t) : Prop := {
  ac_covers : covers lines0 lines1 hs o1 patched;
  ac_after : after o1 patched h;
  ac_writing : writing hs h (hunk_end h) btn;
  ac_end : hunk_end h <= o <= Z.of_nat (length lines0);
  ac_length : Z.of_nat (length (result_of o1 patched h)) + (o - hunk_end h) = m;
  ac_same : Forall2 R (result_of o1 patched h ++ slice lines0 (hunk_end h) (o - hunk_end h))
              (take (Z.to_nat m) lines1);
  ac_first : uh_length0 h = 0 → hunk_end h = 0;
}.

(** The hunk that a change goes to: the one in progress or a new one. *)
Record opened (R : list byte → list byte → Prop) (o m : Z) (hs : list unified_hunk) (o1 : Z)
    (patched : list (list byte)) (h : unified_hunk) (next : Z) (btn : output_baton_t) : Prop := {
  op_covers : covers lines0 lines1 hs o1 patched;
  op_after : after o1 patched h;
  op_writing : writing hs h next btn;
  op_next : next <= hunk_end h <= o;
  op_same_next : hunk_end h = o → next = o;
  op_same : Forall2 R (result_of o1 patched h ++ slice lines0 (hunk_end h) (o - hunk_end h))
              (take (Z.to_nat m) lines1);
  op_length : Z.of_nat (length (result_of o1 patched h)) + (o - hunk_end h) = m;
  op_first : uh_length0 h + (o - hunk_end h) = 0 → o = 0;
}.

(** A new hunk after the lines up to [o1]. *)
Lemma fresh_hunk (R : list byte → list byte → Prop) o m hs o1 patched h next btn targ :
  covers lines0 lines1 hs o1 patched → writing hs h next btn → uh_lines h = [] →
  uh_length0 h = 0 → uh_length1 h = 0 →
  0 <= o1 <= targ → next <= targ <= o → (targ = o → next = o) → (targ = o → o = 0) →
  o <= Z.of_nat (length lines0) →
  Z.of_nat (length patched) + (o - o1) = m →
  Forall2 R (patched ++ slice lines0 o1 (o - o1)) (take (Z.to_nat m) lines1) →
  opened R o m hs o1 patched (MkHunk targ 0 (m + targ - o) 0 []) next
    (set_hunk_start btn targ (m + targ - o)).
Proof.
  intros Hc Hw Hnil Hl0 Hl1 Ho1 Htarg Hnext Hfirst Ho Hlen HR.
  assert (after o1 patched (MkHunk targ 0 (m + targ - o) 0 [])) as Ha.
  { split; cbn [uh_start0 uh_start1 uh_length0 uh_length1 uh_lines]; done || lia. }
  assert (hunk_end (MkHunk targ 0 (m + targ - o) 0 []) = targ) as He by (unfold hunk_end; simpl; lia).
  assert (result_of o1 patched (MkHunk targ 0 (m + targ - o) 0 []) = patched ++ slice lines0 o1 (targ - o1)) as Hr.
  { unfold hunk_result. cbn [uh_start0 uh_lines new_lines omap list_omap]. by rewrite app_nil_r. }
  split; rewrite ?He, ?Hr; try done; try lia.
  - destruct Hw. split; cbn [set_hunk_start ob_stream ob_sources ob_next_token prefix_str hunk hunk_length0
      hunk_length1 hunk_start0 hunk_start1 hunk_delimiter uh_lines uh_length0 uh_length1 uh_start0 uh_start1];
      try done; try congruence.
  - rewrite <- app_assoc. replace targ with (o1 + (targ - o1)) at 2 by lia.
    rewrite <- slice_app by lia. by replace (targ - o1 + (o - targ)) with (o - o1) by lia.
  - rewrite length_app, Nat2Z.inj_add, slice_length by lia. lia.
  - cbn [uh_length0]. lia.
Qed.

(** Choosing the hunk. *)
Lemma open_hunk (R : list byte → list byte → Prop) o m hs o1 patched h btn :
  at_change R o m hs o1 patched h btn →
  (uh_length0 h = 0 → uh_lines h ≠ [] → ¬ 3 < o < 7) →
  let targ := if o - 3 <? 0 then 0 else o - 3 in
  ∃ hs' o1' patched' h' next btn',
    (∀ k : output_baton_t → Z → result output_baton_t,
       (let! (btn, targ) :=
          if ob_next_token btn + 3 <? targ then
            let! btn := output_unified_flush_hunk convert APR_EOL_STR btn (hunk_delimiter btn) in
            Ok (btn, targ)
          else if negb (hunk_length0 btn =? 0) then Ok (btn, ob_next_token btn)
          else Ok (btn, targ) in
        k (if (hunk_length0 btn =? 0) && (hunk_length1 btn =? 0)
           then set_hunk_start btn targ (m + targ - o) else btn) targ)
       = k btn' (hunk_end h'))
    ∧ opened R o m hs' o1' patched' h' next btn'.
Proof.
  intros [Hc Ha Hw He Hlen HR Hfirst] Hdetached targ.
  assert (Hw' := Hw). destruct Hw' as [_ _ Hnext _ _ Hl0 Hl1 _ _ Hdelim]. rewrite Hnext, Hl0, Hdelim.
  assert (targ <= o ∧ 0 <= targ ∧ (targ = o → o = 0) ∧ (0 < targ → targ = o - 3)) as (Ht & Ht0 & Hto & Ht3)
    by (unfold targ; assert (0 <= o) by (destruct Ha; unfold hunk_end in *; lia); case_if; lia).
  clearbody targ.
  assert (0 <= uh_length0 h ∧ 0 <= uh_length1 h) as [Hp0 Hp1] by (destruct Ha; lia).
  destruct (decide (uh_length0 h = 0 ∧ uh_length1 h = 0)) as [[Hz0 Hz1]|Hnz].
  - (* the first change *)
    pose proof (no_lines _ _ _ _ _ Ha Hz0 Hz1) as Hnil. specialize (Hfirst Hz0).
    assert (uh_start0 h = 0 ∧ o1 = 0) as [Hs0 ->] by (destruct Ha; unfold hunk_end in *; lia).
    assert (result_of 0 patched h = patched) as Hr
      by (unfold hunk_result; rewrite Hs0, Hnil; cbn; by rewrite app_nil_r).
    rewrite Hr, Hfirst in *.
    exists hs, 0, patched, (MkHunk targ 0 (m + targ - o) 0 []), 0, (set_hunk_start btn targ (m + targ - o)).
    split; [|eapply fresh_hunk; done || lia].
    intros k. rewrite (flush_empty hs h 0 btn Hw Hnil), Hz0. change (negb (0 =? 0)) with false.
    case_if; cbn [rbind]; rewrite Hl0, Hl1, Hz0, Hz1; cbn [Z.eqb andb]; f_equal; unfold hunk_end; simpl; lia.
  - assert (uh_lines h ≠ []) as Hne.
    { intros Hnil. destruct Ha as [_ _ H0 H1 _ _]. rewrite Hnil in H0, H1. cbn in H0, H1. lia. }
    destruct (Z.ltb_spec (hunk_end h + 3) targ) as [Hfar|Hnear].
    + (* far enough from the hunk in progress *)
      destruct (flush_ok hs h btn Hw Hne (ha_lines _ _ _ _ _ Ha)) as (btn1 & s0 & s1 & Hflush & Hw1).
      { destruct Ha. unfold hunk_end in *. lia. }
      rewrite Z.min_l in Hw1 by lia.
      destruct (after_run o1 patched h unified_output_context (hunk_end h) (hunk_end h + 3)) as [Ha1 He1];
        [done|destruct Ha; unfold hunk_end in *; lia|lia|by right|].
      set (h1 := grown h _) in *. unfold counts0 in He1.
      pose proof (covers_snoc _ _ _ _ _ _ Hc Ha1) as Hc1. replace (hunk_end h1) with (hunk_end h + 3) in Hc1 by lia.
      exists (hs ++ [h1]), (hunk_end h + 3), (result_of o1 patched h1),
        (MkHunk targ 0 (m + targ - o) 0 []), (hunk_end h + 3), (set_hunk_start btn1 targ (m + targ - o)).
      assert (0 <= hunk_end h) by (destruct Ha; unfold hunk_end in *; lia).
      assert (result_of o1 patched h1 = result_of o1 patched h ++ slice lines0 (hunk_end h) 3) as Hr1.
      { unfold h1. rewrite hunk_result_grow, run_new by lia. do 2 f_equal. lia. }
      split.
      * intros k. rewrite Hflush. cbn [rbind].
        rewrite (wr_length0 _ _ _ _ Hw1), (wr_length1 _ _ _ _ Hw1). cbn [uh_length0 uh_length1 Z.eqb andb].
        f_equal. unfold hunk_end. simpl. lia.
      * eapply fresh_hunk; [done|done|done|done|done|lia|lia|lia|lia|lia| |].
        -- rewrite Hr1, length_app, Nat2Z.inj_add, slice_length by lia. lia.
        -- rewrite Hr1, <- app_assoc, <- slice_app by lia.
           by replace (3 + (o - (hunk_end h + 3))) with (o - hunk_end h) by lia.
    + (* near it *)
      exists hs, o1, patched, h, (hunk_end h), btn. split.
      * intros k. destruct (Z.eqb_spec (uh_length0 h) 0) as [Hz|Hz]; cbn [negb rbind];
          rewrite Hl0, Hl1; replace ((uh_length0 h =? 0) && (uh_length1 h =? 0)) with false by lia; [|done].
        f_equal. specialize (Hfirst Hz). specialize (Hdetached Hz Hne). lia.
      * by split; try done; lia.
Qed.

Lemma diff_modified_ok (R : list byte → list byte → Prop) `{!Reflexive R} o m a b x y hs o1 patched h btn :
  at_change R o m hs o1 patched h btn →
  (uh_length0 h = 0 → uh_lines h ≠ [] → ¬ 3 < o < 7) →
  0 <= a → 0 <= b → 0 <= m →
  o + a <= Z.of_nat (length lines0) → m + b <= Z.of_nat (length lines1) →
  ∃ btn' hs' o1' patched' h',
    output_unified_diff_modified convert APR_EOL_STR btn o a m b x y = Ok btn'
    ∧ at_change R (o + a) (m + b) hs' o1' patched' h' btn'
    ∧ (uh_length0 h' = 0 → o = 0 ∧ a = 0).
Proof.
  intros Hat Hdetached Ha Hb Hm Hoa Hmb.
  destruct (open_hunk R o m hs o1 patched h btn Hat Hdetached)
    as (hs' & o1' & patched' & h' & next & btn1 & Hopen & [Hc Haf Hw Hnext Hsn HR Hlen Hfirst]).
  assert (output_unified_diff_modified convert APR_EOL_STR btn o a m b x y
    = let! btn := output_unified_token_range convert APR_EOL_STR btn1 0 unified_output_context (hunk_end h') o in
      let! btn := output_unified_token_range convert APR_EOL_STR btn 0 unified_output_delete o (o + a) in
      output_unified_token_range convert APR_EOL_STR btn 1 unified_output_insert m (m + b)) as ->.
  { exact (Hopen (λ btn targ,
      let! btn := output_unified_token_range convert APR_EOL_STR btn 0 unified_output_context targ o in
      let! btn := output_unified_token_range convert APR_EOL_STR btn 0 unified_output_delete o (o + a) in
      output_unified_token_range convert APR_EOL_STR btn 1 unified_output_insert m (m + b))). }
  destruct (emit_change hs' o1' patched' h' next btn1 (hunk_end h') o a m b)
    as (btn2 & ls & -> & Hw2 & Ha2 & He2 & Hr2 & Hl0 & Hl1); try done; try lia.
  assert (0 <= hunk_end h' ∧ 0 <= uh_length0 h') as [H0 H0'] by (destruct Haf; unfold hunk_end in *; lia).
  exists btn2, hs', o1', patched', (grown h' ls). split; [done|]. split; [|lia].
  split; [done|done|by rewrite He2|lia| | |].
  - rewrite Hr2, !length_app, !Nat2Z.inj_add, !slice_length by lia. lia.
  - rewrite He2, Z.sub_diag, Hr2. unfold slice at 2. rewrite app_nil_r, app_assoc.
    rewrite Z2Nat.inj_add, <- take_take_drop by done. by apply Forall2_app.
  - intros Hz. rewrite He2. lia.
Qed.

(** The start of the next change. *)
Fixpoint next_change (diff : list svn_diff_t) : option Z :=
  match diff with
  | [] => None
  | hunk :: diff =>
      if bool_decide (diff_type hunk = svn_diff__type_common) then next_change diff
      else Some (original_start hunk)
  end.

(** An insertion before the first line whose context overlaps that of the next
    change, but does not reach that change's. *)
Fixpoint detached_insertion (diff : list svn_diff_t) : bool :=
  match diff with
  | [] => false
  | hunk :: diff =>
      negb (bool_decide (diff_type hunk = svn_diff__type_common))
      && (original_start hunk =? 0) && (original_length hunk =? 0)
      && from_option (λ start, (3 <? start) && (start <? 7)) false (next_change diff)
      || detached_insertion diff
  end.

Lemma unified_output_ok (R : list byte → list byte → Prop) `{!Equivalence R} diff o m hs o1 patched h btn :
  at_change R o m hs o1 patched h btn → 0 <= m → diff_from R lines0 lines1 o m diff →
  detached_insertion diff = false →
  (uh_length0 h = 0 → uh_lines h ≠ [] →
   from_option (λ start, (3 <? start) && (start <? 7)) false (next_change diff) = false) →
  ∃ btn' hs' o1' patched' h',
    svn_diff_output (mem_output_unified_vtable convert APR_EOL_STR) diff btn = Ok btn'
    ∧ at_change R (Z.of_nat (length lines0)) (Z.of_nat (length lines1)) hs' o1' patched' h' btn'.
Proof.
  revert o m hs o1 patched h btn; induction diff as [|hunk diff IH];
    intros o m hs o1 patched h btn Hat Hm; cbn [diff_from svn_diff_output].
  { intros [-> ->] _ _. by eexists btn, hs, o1, patched, h. }
  intros (Hos & Hms & Hol & Hml & Hpos & Htype & Hd) Hdet Hnext.
  destruct (diff_from_length _ _ _ _ _ _ Hd) as [Hoa Hmb].
  cbn [detached_insertion next_change] in Hdet, Hnext. apply orb_false_iff in Hdet as [Hhead Hdet].
  unfold output_hunk. destruct (diff_type hunk) eqn:Ht; try done; cbn [mem_output_unified_vtable
    output_common output_diff_modified].
  - cbn [rbind]. destruct Htype as [Hsame HR]. apply (IH (o + original_length hunk) (m + modified_length hunk)
      hs o1 patched h); [|lia|done|done|done].
    assert (0 <= hunk_end h) by (destruct (ac_after _ _ _ _ _ _ _ _ Hat); unfold hunk_end in *; lia).
    destruct Hat as [Hc Ha Hw He Hlen HR' Hfirst]. split; try done; try lia.
    replace (o + original_length hunk - hunk_end h) with ((o - hunk_end h) + original_length hunk) by lia.
    rewrite slice_app by lia. replace (hunk_end h + (o - hunk_end h)) with o by lia.
    rewrite Z2Nat.inj_add, <- take_take_drop, app_assoc by done. apply Forall2_app; [done|]. exact HR.
  - rewrite Hos, Hms.
    destruct (diff_modified_ok R o m (original_length hunk) (modified_length hunk) (latest_start hunk)
      (latest_length hunk) hs o1 patched h btn Hat) as (btn1 & hs1 & o2 & patched1 & h1 & -> & Hat1 & Hl0);
      [|done|done|done|done|done|].
    { intros Hz Hne. specialize (Hnext Hz Hne). rewrite bool_decide_false in Hnext by done.
      cbn [from_option] in Hnext. lia. }
    cbn [rbind]. apply (IH (o + original_length hunk) (m + modified_length hunk) hs1 o2 patched1 h1);
      [done|lia|done|done|].
    intros Hz _. destruct (Hl0 Hz) as [-> Hz']. rewrite Hos, Hz' in Hhead. exact Hhead.
Qed.
End Callbacks.

(** ** Whole diffs *)

Section Unified.
Context (convert : list byte → result (list byte)) (native : list byte → list byte).
Hypothesis Hconvert : ∀ text, convert text = Ok (native text).
Context (APR_EOL_STR : list byte) (original modified : list byte).
Abbreviation lines0 := (tokens (fill_source_tokens original)) (only parsing).
Abbreviation lines1 := (tokens (fill_source_tokens modified)) (only parsing).

Definition diff_header (original_header modified_header : list byte) : list byte :=
  native (String.list_byte_of_string "--- " ++ original_header ++ APR_EOL_STR
          ++ String.list_byte_of_string "+++ " ++ modified_header ++ APR_EOL_STR).

Lemma no_diffs (R : list byte → list byte → Prop) o m diff :
  0 <= o → 0 <= m → diff_from R lines0 lines1 o m diff → svn_diff_contains_diffs diff = false →
  Forall2 R (drop (Z.to_nat o) lines0) (drop (Z.to_nat m) lines1).
Proof.
  unfold svn_diff_contains_diffs. revert o m; induction diff as [|hunk diff IH]; intros o m Ho Hm; cbn [diff_from existsb].
  { intros [-> ->] _. by rewrite !Nat2Z.id, !drop_all. }
  intros (_ & _ & Hol & Hml & _ & Htype & Hd) [Hcommon Hno]%orb_false_iff.
  apply negb_false_iff, bool_decide_eq_true in Hcommon. rewrite Hcommon in Htype.
  destruct Htype as [_ HR].
  rewrite <- (slice_drop lines0 o (original_length hunk)), <- (slice_drop lines1 m (modified_length hunk)) by done.
  apply Forall2_app; [done|]. apply IH; [lia|lia|done|done].
Qed.

Lemma output_unified2_ok (R : list byte → list byte → Prop) `{!Equivalence R} output diff
    (with_diff_header : bool) delimiter original_header modified_header :
  diff_of R lines0 lines1 diff → detached_insertion diff = false →
  ∃ hunks o patched,
    svn_diff_mem_string_output_unified2 convert APR_EOL_STR output diff with_diff_header delimiter
      original_header modified_header original modified
    = Ok (output
          ++ (if svn_diff_contains_diffs diff then
                (if with_diff_header then diff_header original_header modified_header else [])
                ++ concat (map (render native APR_EOL_STR original modified delimiter) hunks)
              else []))
    ∧ covers lines0 lines1 hunks o patched
    ∧ Forall2 R (patched ++ drop (Z.to_nat o) lines0) lines1.
Proof.
  intros Hd Hdet. unfold svn_diff_mem_string_output_unified2.
  destruct (svn_diff_contains_diffs diff) eqn:Hdiffs.
  2: { exists [], 0, []. rewrite app_nil_r. split; [done|]. split; [constructor|].
       apply (no_diffs R 0 0 diff); done. }
  rewrite !Hconvert. cbn [rbind]. set (btn := MkOutput _ _ _ _ _ _ _ _ _ _).
  set (header := if with_diff_header then diff_header original_header modified_header else []).
  set (started := if with_diff_header then _ else Ok btn).
  assert (started = Ok (write_stream btn header)) as ->.
  { unfold started, header. destruct with_diff_header.
    - unfold svn_stream_printf_from_utf8. by rewrite Hconvert.
    - unfold write_stream. cbn [ob_stream btn]. by rewrite app_nil_r. }
  cbn [rbind]. set (h := MkHunk 0 0 0 0 []).
  destruct (unified_output_ok convert native Hconvert APR_EOL_STR original modified (output ++ header)
    delimiter R diff 0 0 [] 0 [] h (write_stream btn header))
    as (btn1 & hs & o1 & patched & h1 & -> & [Hc Ha Hw He Hlen HR Hfirst]); [|done|done|done|done|].
  { split; try done; try constructor; try (unfold hunk_end; simpl; lia); try done.
    - cbn [write_stream ob_stream btn map concat]. by rewrite app_nil_r.
    - intros []; done. }
  assert (0 <= o1 <= uh_start0 h1 ∧ 0 <= uh_length0 h1) as [Ho1 Hl0] by (destruct Ha; lia).
  assert (0 <= hunk_end h1) as Hend by (unfold hunk_end; lia).
  rewrite slice_to_end in HR by lia. rewrite Nat2Z.id, take_ge in HR by lia.
  cbn [rbind]. destruct (decide (uh_lines h1 = [])) as [Hnil|Hne].
  - rewrite (flush_empty convert native APR_EOL_STR original modified (output ++ header) delimiter _ _ _ _ Hw Hnil).
    exists hs, o1, patched. cbn [rbind]. split; [by rewrite (wr_stream _ _ _ _ _ _ _ _ _ _ Hw), <- app_assoc|].
    split; [done|]. rewrite <- (slice_drop lines0 o1 (uh_start0 h1 - o1)) by lia.
    replace (o1 + (uh_start0 h1 - o1)) with (hunk_end h1)
      by (unfold hunk_end; rewrite (ha_length0 _ _ _ _ _ Ha), Hnil; cbn; lia).
    unfold hunk_result in HR. rewrite Hnil in HR. cbn [new_lines omap list_omap] in HR.
    by rewrite app_nil_r, <- app_assoc in HR.
  - destruct (flush_ok convert native Hconvert APR_EOL_STR original modified (output ++ header) delimiter
      hs h1 btn1 Hw Hne (ha_lines _ _ _ _ _ Ha)) as (btn2 & s0 & s1 & -> & Hw2); [lia|].
    set (past := Z.min _ _) in *.
    destruct (after_run original modified o1 patched h1 unified_output_context (hunk_end h1) past) as [Ha2 He2];
      [done|lia|lia|by right|].
    set (h2 := grow _ _ h1 _) in *. unfold counts0 in He2.
    exists (hs ++ [h2]), (hunk_end h2), (hunk_result lines0 lines1 o1 patched h2). cbn [rbind].
    split; [by rewrite (wr_stream _ _ _ _ _ _ _ _ _ _ Hw2), <- app_assoc|]. split; [by apply covers_snoc|].
    unfold h2 at 1. rewrite hunk_result_grow, run_new, <- app_assoc by lia.
    replace (hunk_end h2) with (hunk_end h1 + (past - hunk_end h1)) by lia.
    by rewrite slice_drop by lia.
Qed.
End Unified.

(** C7: The unified diff of any two texts is written as a list of hunks,
    each with the numbers of its header, such that every hunk shows exactly
    the lines of the original in its range, the starts in both files fit the
    hunks before, and putting the hunks' new lines in place of the old ones
    makes the original into the modified text (exactly, when nothing is
    ignored), unless lines inserted before the first one are followed by a
    change at the fifth to seventh line. *)
Theorem svn_diff_mem_string_output_unified_spec `{!ZlibAdler} (convert : list byte → result (list byte))
    (native : list byte → list byte) (APR_EOL_STR : list byte) (opts : svn_diff_file_options_t)
    (original modified output : list byte) (with_diff_header : bool) (delimiter : option (list byte))
    (original_header modified_header : list byte) :
  (∀ text, convert text = Ok (native text)) →
  let lines0 := tokens (fill_source_tokens original) in
  let lines1 := tokens (fill_source_tokens modified) in
  ∃ diff,
    svn_diff_mem_string_diff opts original modified = Ok diff
    ∧ (detached_insertion diff = false →
       ∃ hunks o patched,
         svn_diff_mem_string_output_unified2 convert APR_EOL_STR output diff with_diff_header delimiter
           original_header modified_header original modified
         = Ok (output
               ++ (if svn_diff_contains_diffs diff then
                     (if with_diff_header
                      then diff_header native APR_EOL_STR original_header modified_header else [])
                     ++ concat (map (render native APR_EOL_STR original modified delimiter) hunks)
                   else []))
         ∧ covers lines0 lines1 hunks o patched
         ∧ Forall2 (same_line opts) (patched ++ drop (Z.to_nat o) lines0) lines1
         ∧ (opts = MkOptions svn_diff_file_ignore_space_none false →
            concat (patched ++ drop (Z.to_nat o) lines0) = modified)).
Proof.
  intros Hconvert lines0 lines1.
  destruct (fill_source_tokens_ok modified) as (Hc1 & _). fold lines1 in Hc1.
  destruct (mem_string_diff_ok opts original modified) as (_ & _ & diff & Hdiff & Hd & _).
  exists diff. split; [done|]. intros Hdet.
  destruct (output_unified2_ok convert native Hconvert APR_EOL_STR original modified (same_line opts) output
    diff with_diff_header delimiter original_header modified_header Hd Hdet)
    as (hunks & o & patched & Hout & Hcovers & HR).
  exists hunks, o, patched. do 3 (split; [done|]). intros ->. rewrite <- Hc1. f_equal.
  apply same_lines_norm in HR.
  by rewrite !(map_ext _ id norm_nothing), !map_id in HR.
Qed.

Lemma svn_diff_mem_string_output_unified_spec_witness :
  let text s := flat_map (λ c, [c; x0a]) (String.list_byte_of_string s) in
  (∀ t : list byte, Ok t = Ok (id t))
  ∧ ∃ diff,
      svn_diff_mem_string_diff (MkOptions svn_diff_file_ignore_space_none false) (text "abcdefghijklmn")
        (text "abcXefghijkLmn") = Ok diff
      ∧ ∃ hunks o patched,
          svn_diff_mem_string_output_unified2 Ok [x0a] [] diff true None [] []
            (text "abcdefghijklmn") (text "abcXefghijkLmn")
          = Ok (diff_header id [x0a] [] []
                ++ concat (map (render id [x0a] (text "abcdefghijklmn") (text "abcXefghijkLmn") None) hunks))
          ∧ covers (tokens (fill_source_tokens (text "abcdefghijklmn")))
              (tokens (fill_source_tokens (text "abcXefghijkLmn"))) hunks o patched.
Proof.
  split; [done|].
  destruct (svn_diff_mem_string_output_unified_spec Ok id [x0a]
    (MkOptions svn_diff_file_ignore_space_none false)
    (flat_map (λ c, [c; x0a]) (String.list_byte_of_string "abcdefghijklmn"))
    (flat_map (λ c, [c; x0a]) (String.list_byte_of_string "abcXefghijkLmn")) [] true None [] [])
    as (diff & Hdiff & Hrest); [done|].
  exists diff. split; [exact Hdiff|].
  assert (diff = match svn_diff_mem_string_diff (MkOptions svn_diff_file_ignore_space_none false)
    (flat_map (λ c, [c; x0a]) (String.list_byte_of_string "abcdefghijklmn"))
    (flat_map (λ c, [c; x0a]) (String.list_byte_of_string "abcXefghijkLmn")) with
    Ok d => d | _ => [] end) as -> by (by rewrite Hdiff).
  destruct Hrest as (hunks & o & patched & Hout & Hcovers & _); [vm_compute; reflexivity|].
  exists hunks, o, patched. split; [exact Hout|exact Hcovers].
Defined.

(** When lines are inserted before the first one, a next change at the fifth to the
    seventh line joins the hunk, but the context between them starts three lines
    before the change: the lines before those are missing from the hunk, whose
    numbers are then wrong.  Here the lines [a] and [b] are left out. *)
Example output_unified_detached_insertion :
  let text s := flat_map (λ c, [c; x0a]) (String.list_byte_of_string s) in
  let line s := String.list_byte_of_string s ++ [x0a] in
  (let! diff := svn_diff_mem_string_diff (MkOptions svn_diff_file_ignore_space_none false)
                  (text "abcdefghij") (text "Xabcdeghij") in
   svn_diff_mem_string_output_unified2 Ok [x0a] [] diff false None [] []
     (text "abcdefghij") (text "Xabcdeghij"))
  = Ok (line "@@ -1,5 +1,5 @@" ++ line "+X" ++ line " c" ++ line " d" ++ line " e" ++ line "-f" ++ line " g").
Proof. vm_compute. reflexivity. Qed.
