(* ===== verification/Marshal.v ===== *)
(** * The marshalling layer of the svn protocol

    [src/subversion/libsvn_ra_svn/marshal.c]: the buffers of a connection, the
    items that are written to it and read from it, tuples described by format
    strings, and commands with their responses.

    The transport is what the other side and the network make of it.  What
    arrives is a list of segments, and a read is answered from the first of
    them, with as many bytes as were asked for or as the segment has.  A write
    is answered by a list of counts, the bytes that the transport takes at a
    time; when the list is exhausted everything is taken.  Errors of the
    transport other than a closed connection are not modelled.  A C string is
    the list of its bytes without the terminator. *)
From S2P Require Import Prelude Numbers Cstrings.

Implicit Types (data s w fmt : list byte) (len : nat).

(** ** Connections *)

Definition SVN_RA_SVN__READBUF_SIZE : nat := Z.to_nat (4 * 4096).
Definition SVN_RA_SVN__WRITEBUF_SIZE : nat := Z.to_nat (4 * 4096).

(** The session of a client, with its callbacks: [cancel_answers] are the
    answers that the cancellation function will give (it never cancels after
    them, or when there is no such function), and [progress], if there is a
    progress function, is what it was told. *)
Record svn_ra_svn__session_baton_t := MkSession {
  cancel_answers : list bool;
  progress : option (list Z);
  bytes_read : Z;
  bytes_written : Z;
}.

(** [read_buf] has the bytes from [read_ptr] to [read_end], [write_buf] the first
    [write_pos] bytes of the C buffer. *)
Record svn_ra_svn_conn_t := MkConn {
  incoming : list (list byte);
  accepts : list nat;
  sent : list byte;
  session : option svn_ra_svn__session_baton_t;
  read_buf : list byte;
  write_buf : list byte;
  block_handler : bool;
  capabilities : gset (list byte);
}.

Implicit Types (c : svn_ra_svn_conn_t) (sess : svn_ra_svn__session_baton_t).

Definition set_incoming c x :=
  MkConn x (accepts c) (sent c) (session c) (read_buf c) (write_buf c) (block_handler c) (capabilities c).
Definition set_sent c x y :=
  MkConn (incoming c) x y (session c) (read_buf c) (write_buf c) (block_handler c) (capabilities c).
Definition set_session c x :=
  MkConn (incoming c) (accepts c) (sent c) x (read_buf c) (write_buf c) (block_handler c) (capabilities c).
Definition set_read_buf c x :=
  MkConn (incoming c) (accepts c) (sent c) (session c) x (write_buf c) (block_handler c) (capabilities c).
Definition set_write_buf c x :=
  MkConn (incoming c) (accepts c) (sent c) (session c) (read_buf c) x (block_handler c) (capabilities c).
Definition set_block_handler c x :=
  MkConn (incoming c) (accepts c) (sent c) (session c) (read_buf c) (write_buf c) x (capabilities c).
Definition set_capabilities c x :=
  MkConn (incoming c) (accepts c) (sent c) (session c) (read_buf c) (write_buf c) (block_handler c) x.

(** A new connection over a transport. *)
Definition svn_ra_svn_create_conn2 (segments : list (list byte)) (counts : list nat) : svn_ra_svn_conn_t :=
  MkConn segments counts [] None [] [] false ∅.

(** What has arrived or will arrive and was not read; what was written. *)
Definition unread c : list byte := read_buf c ++ concat (incoming c).
Definition output c : list byte := sent c ++ write_buf c.

(** ** Functions on a connection

    They change the connection and return a value or an error. *)
Definition M (A : Type) : Type := svn_ra_svn_conn_t → svn_ra_svn_conn_t * result A.

#[global] Instance M_ret : MRet M := λ A a c, (c, Ok a).
#[global] Instance M_bind : MBind M := λ A B k m c,
  match m c with
  | (c, Ok a) => k a c
  | (c, Error e) => (c, Error e)
  | (c, Aborted) => (c, Aborted)
  | (c, Undefined) => (c, Undefined)
  | (c, OutOfFuel) => (c, OutOfFuel)
  end.

Definition lift {A} (r : result A) : M A := λ c, (c, r).
Definition throw {A} (e : svn_errno) : M A := lift (Error e).
Definition gets {A} (f : svn_ra_svn_conn_t → A) : M A := λ c, (c, Ok (f c)).
Definition modify (f : svn_ra_svn_conn_t → svn_ra_svn_conn_t) : M () := λ c, (f c, Ok ()).

(** [SVN_ERR_ASSERT (cond)]. *)
Definition ensure (cond : bool) : M () := lift (if cond then Ok () else Aborted).

(** A handler for blocked writes: it may read from the connection. *)
Class BlockHandler := blocked : M ().

(** The handler may be called in the middle of a write when nothing is in the
    write buffer; it leaves the writing side as it is. *)
Class BlockHandlerOk (H : BlockHandler) :=
  blocked_ok : ∀ c c' r, write_buf c = [] → blocked c = (c', r) →
    write_buf c' = [] ∧ sent c' = sent c ∧ accepts c' = accepts c
    ∧ (match r with Ok _ | Error _ | Aborted => True | _ => False end).

(** ** Write buffer management *)

Definition cancel_func : M () :=
  sess ← gets session;
  match sess with
  | None => mret ()
  | Some sess =>
      match cancel_answers sess with
      | [] => mret ()
      | true :: answers => throw SVN_ERR_CANCELLED
      | false :: answers =>
          modify (λ c, set_session c (Some
            (MkSession answers (progress sess) (bytes_read sess) (bytes_written sess))))
      end
  end.

Definition count_bytes (nread nwritten : nat) : M () :=
  modify (λ c,
    match session c with
    | None => c
    | Some sess =>
        let nr := s64 (bytes_read sess + Z.of_nat nread) in
        let nw := s64 (bytes_written sess + Z.of_nat nwritten) in
        set_session c (Some (MkSession (cancel_answers sess)
          (match progress sess with Some calls => Some (calls ++ [nr + nw]) | None => None end) nr nw))
    end).

(** A write without a block handler has no timeout: it takes at least a byte. *)
Definition svn_ra_svn__stream_write data : M nat := λ c,
  let '(most, rest) :=
    match accepts c with
    | [] => (length data, [])
    | n :: rest => (if block_handler c then n else S n, rest)
    end in
  let count := Nat.min most (length data) in
  (set_sent c rest (sent c ++ take count data), Ok count).

Definition writebuf_push data : M (list byte) := λ c,
  let buflen := (SVN_RA_SVN__WRITEBUF_SIZE - length (write_buf c))%nat in
  let copylen := Nat.min buflen (length data) in
  (set_write_buf c (write_buf c ++ take copylen data), Ok (drop copylen data)).

(** What is copied into the buffer without a test. *)
Definition writebuf_put data : M () := λ c,
  if (length (write_buf c) + length data <=? SVN_RA_SVN__WRITEBUF_SIZE)%nat
  then (set_write_buf c (write_buf c ++ data), Ok ()) else (c, Undefined).

Section Connection.
Context `{BlockHandler}.

Fixpoint output_loop (fuel : nat) data : M () :=
  match data with
  | [] => mret ()
  | _ =>
      match fuel with
      | O => lift OutOfFuel
      | S fuel =>
          cancel_func;;
          count ← svn_ra_svn__stream_write data;
          (if (count =? 0)%nat then
             handler ← gets block_handler;
             if (handler : bool) then blocked else lift Undefined
           else mret ());;
          count_bytes 0 count;;
          output_loop fuel (drop count data)
      end
  end.

(** Every round takes a byte or an answer of the transport. *)
Definition writebuf_output data : M () :=
  answers ← gets (λ c, length (accepts c));
  output_loop (length data + answers) data.

Definition writebuf_flush : M () :=
  data ← gets write_buf;
  modify (λ c, set_write_buf c []);;
  writebuf_output data.

Definition writebuf_write data : M () :=
  write_pos ← gets (λ c, length (write_buf c));
  data ←
    (if (0 <? write_pos)%nat && (SVN_RA_SVN__WRITEBUF_SIZE <? write_pos + length data)%nat then
       data ← writebuf_push data;
       writebuf_flush;;
       mret data
     else mret data);
  if (SVN_RA_SVN__WRITEBUF_SIZE <? length data)%nat then writebuf_output data
  else writebuf_push data;; mret ().

Definition writebuf_write_short_string data : M () :=
  left_ ← gets (λ c, (SVN_RA_SVN__WRITEBUF_SIZE - length (write_buf c))%nat);
  if (length data <=? left_)%nat then writebuf_put data else writebuf_write data.

Definition writebuf_writechar (data : byte) : M () :=
  write_pos ← gets (λ c, length (write_buf c));
  if (write_pos <? SVN_RA_SVN__WRITEBUF_SIZE)%nat then writebuf_put [data] else writebuf_write [data].

(** ** Read buffer management *)

(** The callbacks of [streams.c]: an answer without bytes is the end of the
    connection. *)
Definition svn_ra_svn__stream_read len : M (list byte) := λ c,
  match incoming c with
  | [] => (c, Error SVN_ERR_RA_SVN_CONNECTION_CLOSED)
  | segment :: rest =>
      match take len segment with
      | [] => (c, Error SVN_ERR_RA_SVN_CONNECTION_CLOSED)
      | data =>
          (set_incoming c (match drop len segment with [] => rest | more => more :: rest end), Ok data)
      end
  end.

Definition readbuf_drain len : M (list byte) := λ c,
  let copylen := Nat.min (length (read_buf c)) len in
  (set_read_buf c (drop copylen (read_buf c)), Ok (take copylen (read_buf c))).

Definition readbuf_input len : M (list byte) :=
  cancel_func;;
  data ← svn_ra_svn__stream_read len;
  if (length data =? 0)%nat then throw SVN_ERR_RA_SVN_CONNECTION_CLOSED
  else
    count_bytes (length data) 0;;
    mret data.

Definition readbuf_fill : M () :=
  empty ← gets (λ c, (length (read_buf c) =? 0)%nat);
  ensure empty;;
  writebuf_flush;;
  data ← readbuf_input SVN_RA_SVN__READBUF_SIZE;
  modify (λ c, set_read_buf c data).

(** [*conn->read_ptr++]. *)
Definition readbuf_next : M byte := λ c,
  match read_buf c with
  | [] => (c, Undefined)
  | ch :: rest => (set_read_buf c rest, Ok ch)
  end.

Definition readbuf_getchar : M byte :=
  empty ← gets (λ c, (length (read_buf c) =? 0)%nat);
  (if (empty : bool) then readbuf_fill else mret ());;
  readbuf_next.

Definition svn_iswhitespace (ch : byte) : bool := (ch =b? " "%byte) || (ch =b? NEWLINE).

Fixpoint skip_loop (fuel : nat) : M byte :=
  match fuel with
  | O => lift OutOfFuel
  | S fuel => ch ← readbuf_getchar; if svn_iswhitespace ch then skip_loop fuel else mret ch
  end.

(** Every round reads a byte; the last one may find the connection closed. *)
Definition readbuf_getchar_skip_whitespace : M byte :=
  size ← gets (λ c, length (unread c));
  skip_loop (S size).

(** Large parts are read past the buffer. *)
Fixpoint direct_loop (fuel : nat) data len : M (list byte * nat) :=
  if (SVN_RA_SVN__READBUF_SIZE <? len)%nat then
    match fuel with
    | O => lift OutOfFuel
    | S fuel =>
        writebuf_flush;;
        more ← readbuf_input len;
        direct_loop fuel (data ++ more) (len - length more)
    end
  else mret (data, len).

Fixpoint drain_loop (fuel : nat) data len : M (list byte) :=
  if (0 <? len)%nat then
    match fuel with
    | O => lift OutOfFuel
    | S fuel =>
        readbuf_fill;;
        more ← readbuf_drain len;
        drain_loop fuel (data ++ more) (len - length more)
    end
  else mret data.

(** Every round reads a byte. *)
Definition readbuf_read len : M (list byte) :=
  data ← readbuf_drain len;
  '(data, left_) ← direct_loop len data (len - length data);
  drain_loop len data left_.

(** The position of the whitespace after a left parenthesis, if the segment has
    one; otherwise whether the segment ends with a left parenthesis. *)
Fixpoint garbage_scan (lparen : bool) data : list byte + bool :=
  match data with
  | [] => inr lparen
  | ch :: rest =>
      if lparen && svn_iswhitespace ch then inl data else garbage_scan (ch =b? "("%byte) rest
  end.

Fixpoint garbage_loop (fuel : nat) (lparen : bool) : M (list byte) :=
  match fuel with
  | O => lift OutOfFuel
  | S fuel =>
      data ← readbuf_input 256;
      match garbage_scan lparen data with
      | inl p => mret p
      | inr lparen => garbage_loop fuel lparen
      end
  end.

Definition readbuf_skip_leading_garbage : M () :=
  empty ← gets (λ c, (length (read_buf c) =? 0)%nat);
  ensure empty;;
  size ← gets (λ c, length (unread c));
  p ← garbage_loop (S size) false;
  modify (λ c, set_read_buf c ("("%byte :: p)).

(** ** Writing data items *)

Definition SVN_INT64_BUFFER_SIZE : nat := 21.

Definition write_number (number : Z) (follow : byte) : M () :=
  write_pos ← gets (λ c, length (write_buf c));
  (if (SVN_RA_SVN__WRITEBUF_SIZE <=? write_pos + SVN_INT64_BUFFER_SIZE)%nat
   then writebuf_flush else mret ());;
  written ← lift (svn__ui64toa number);
  writebuf_put (written ++ [follow]).

Definition svn_ra_svn_write_number (number : Z) : M () := write_number number " "%byte.

Definition svn_ra_svn_write_string (str : list byte) : M () :=
  (if (length str <? 10)%nat then
     writebuf_writechar (byte_of (Z.of_nat (length str) + byte_val "0"%byte));;
     writebuf_writechar ":"%byte
   else write_number (Z.of_nat (length str)) ":"%byte);;
  writebuf_write str;;
  writebuf_writechar " "%byte.

(** The same calls, with [strlen (s)]. *)
Definition svn_ra_svn_write_cstring s : M () := svn_ra_svn_write_string s.

Definition svn_ra_svn_write_word w : M () :=
  writebuf_write_short_string w;;
  writebuf_writechar " "%byte.

Definition svn_ra_svn_start_list : M () :=
  write_pos ← gets (λ c, length (write_buf c));
  if (write_pos + 2 <=? SVN_RA_SVN__WRITEBUF_SIZE)%nat then writebuf_put (bytes_of "( ")
  else writebuf_write (bytes_of "( ").

Definition svn_ra_svn_end_list : M () :=
  write_pos ← gets (λ c, length (write_buf c));
  if (write_pos + 2 <=? SVN_RA_SVN__WRITEBUF_SIZE)%nat then writebuf_put (bytes_of ") ")
  else writebuf_write (bytes_of ") ").

Definition svn_ra_svn_flush : M () := writebuf_flush.

End Connection.

(** ** Values of format strings

    The arguments of the variadic functions: [n], [r], [s], [c] and [w], [b] and
    [l].  A [va_arg] of another type than the argument's is undefined. *)

Inductive svn_ra_svn_item_t :=
  | SVN_RA_SVN_NUMBER (number : Z)
  | SVN_RA_SVN_STRING (string : list byte)
  | SVN_RA_SVN_WORD (word : list byte)
  | SVN_RA_SVN_LIST (list_ : list svn_ra_svn_item_t).

Inductive va_arg_t :=
  | VA_uint64 (n : Z)
  | VA_revnum (rev : Z)
  | VA_string (str : option (list byte))
  | VA_cstring (cstr : option (list byte))
  | VA_boolean (b : bool)
  | VA_list (items : option (list svn_ra_svn_item_t)).

Implicit Types (args : list va_arg_t) (items : list svn_ra_svn_item_t).

Definition SVN_RA_SVN_UNSPECIFIED_NUMBER : Z := APR_UINT64_MAX.

Section Items.
Context `{BlockHandler}.

(** ** Writing tuples *)

(** [SVN_ERR (write)] of a value that is there, [SVN_ERR_ASSERT (opt)] otherwise. *)
Definition write_present {A} (write : A → M ()) (opt : bool) (value : option A) : M () :=
  match value with Some x => write x | None => ensure opt end.

Fixpoint vwrite_loop fmt args (opt : bool) : M () :=
  match fmt with
  | [] => svn_ra_svn_end_list
  | f :: fmt' =>
      if f =b? "c"%byte then
        match args with
        | VA_cstring cstr :: args =>
            write_present svn_ra_svn_write_cstring opt cstr;; vwrite_loop fmt' args opt
        | _ => lift Undefined
        end
      else if f =b? "s"%byte then
        match args with
        | VA_string str :: args =>
            write_present svn_ra_svn_write_string opt str;; vwrite_loop fmt' args opt
        | _ => lift Undefined
        end
      else if (f =b? "("%byte) && negb opt then svn_ra_svn_start_list;; vwrite_loop fmt' args opt
      else if f =b? ")"%byte then svn_ra_svn_end_list;; vwrite_loop fmt' args false
      else if f =b? "?"%byte then vwrite_loop fmt' args true
      else if f =b? "w"%byte then
        match args with
        | VA_cstring cstr :: args =>
            write_present svn_ra_svn_write_word opt cstr;; vwrite_loop fmt' args opt
        | _ => lift Undefined
        end
      else if f =b? "r"%byte then
        match args with
        | VA_revnum rev :: args =>
            write_present svn_ra_svn_write_number opt
              (if SVN_IS_VALID_REVNUM rev then Some rev else None);;
            vwrite_loop fmt' args opt
        | _ => lift Undefined
        end
      else if (f =b? "n"%byte) && negb opt then
        match args with
        | VA_uint64 n :: args => svn_ra_svn_write_number n;; vwrite_loop fmt' args opt
        | _ => lift Undefined
        end
      else if (f =b? "b"%byte) && negb opt then
        match args with
        | VA_boolean b :: args =>
            svn_ra_svn_write_word (if b then bytes_of "true" else bytes_of "false");;
            vwrite_loop fmt' args opt
        | _ => lift Undefined
        end
      else if (f =b? "!"%byte) && (match fmt' with [] => true | _ => false end) then mret ()
      else lift Aborted
  end.

Definition vwrite_tuple fmt args : M () :=
  match fmt with
  | f :: fmt' =>
      if f =b? "!"%byte then vwrite_loop fmt' args false
      else svn_ra_svn_start_list;; vwrite_loop fmt args false
  | [] => svn_ra_svn_start_list;; vwrite_loop fmt args false
  end.

Definition svn_ra_svn_write_tuple fmt args : M () := vwrite_tuple fmt args.

(** The order in which the hash is iterated is that of the map. *)
Fixpoint write_props (props : list (list byte * list byte)) : M () :=
  match props with
  | [] => mret ()
  | (propname, propval) :: props =>
      svn_ra_svn_write_tuple (bytes_of "cs") [VA_cstring (Some propname); VA_string (Some propval)];;
      write_props props
  end.

Definition svn_ra_svn_write_proplist (props : option (gmap (list byte) (list byte))) : M () :=
  match props with Some props => write_props (map_to_list props) | None => mret () end.

(** ** Reading data items *)

Definition SUSPICIOUSLY_HUGE_STRING_SIZE_THRESHOLD : Z := 0x100000.

Definition chunk_len (len64 : Z) : Z :=
  if len64 <? SUSPICIOUSLY_HUGE_STRING_SIZE_THRESHOLD then len64
  else SUSPICIOUSLY_HUGE_STRING_SIZE_THRESHOLD.

(** [stringbuf] has the bytes so far, [len64] more are to be read. *)
Fixpoint string_loop (fuel : nat) (stringbuf : list byte) (len64 : Z) : M (list byte) :=
  if 0 <? chunk_len len64 then
    match fuel with
    | O => lift OutOfFuel
    | S fuel =>
        data ← readbuf_read (Z.to_nat (chunk_len len64));
        let stringbuf := stringbuf ++ data in
        let rest := len64 - chunk_len len64 in
        if rest =? 0 then mret stringbuf else string_loop fuel stringbuf rest
    end
  else mret stringbuf.

(** [apr_size_t] has 64 bits, so that the length always fits; a round that does
    not fail reads a byte. *)
Definition read_string (len64 : Z) : M svn_ra_svn_item_t :=
  if APR_UINT64_MAX <? len64 then throw SVN_ERR_RA_SVN_MALFORMED_DATA
  else
    size ← gets (λ c, length (unread c));
    stringbuf ← string_loop (S size) [] len64;
    mret (SVN_RA_SVN_STRING stringbuf).

Definition svn_ctype_isdigit (ch : byte) : bool := isdigit ch.
Definition svn_ctype_isalpha (ch : byte) : bool :=
  ((65 <=? byte_val ch) && (byte_val ch <=? 90)) || ((97 <=? byte_val ch) && (byte_val ch <=? 122)).
Definition svn_ctype_isalnum (ch : byte) : bool := svn_ctype_isalpha ch || svn_ctype_isdigit ch.

(** The digits after the first one: the number, and the character after it. *)
Fixpoint read_digits (fuel : nat) (val : Z) : M (Z * byte) :=
  match fuel with
  | O => lift OutOfFuel
  | S fuel =>
      let prev_val := val in
      ch ← readbuf_getchar;
      if negb (svn_ctype_isdigit ch) then mret (val, ch)
      else
        let val := u64 (val * 10 + (byte_val ch - byte_val "0"%byte)) in
        if (APR_UINT64_MAX / 10 <=? prev_val) && negb (val / 10 =? prev_val)
        then throw SVN_ERR_RA_SVN_MALFORMED_DATA
        else read_digits fuel val
  end.

Fixpoint word_loop (fuel : nat) (str : list byte) : M (list byte * byte) :=
  match fuel with
  | O => lift OutOfFuel
  | S fuel =>
      ch ← readbuf_getchar;
      if negb (svn_ctype_isalnum ch) && negb (ch =b? "-"%byte) then mret (str, ch)
      else word_loop fuel (str ++ [ch])
  end.

(** The item, and the character that ends it; there is no item when the first
    character starts none. *)
Fixpoint read_item (fuel : nat) (first_char : byte) (level : nat) : M svn_ra_svn_item_t :=
  match fuel with
  | O => lift OutOfFuel
  | S fuel =>
      if (64 <=? S level)%nat then throw SVN_ERR_RA_SVN_MALFORMED_DATA
      else
        size ← gets (λ c, length (unread c));
        '(item, ch) ←
          (if svn_ctype_isdigit first_char then
             '(val, ch) ← read_digits (S size) (byte_val first_char - byte_val "0"%byte);
             if ch =b? ":"%byte then
               item ← read_string val;
               ch ← readbuf_getchar;
               mret (Some item, ch)
             else mret (Some (SVN_RA_SVN_NUMBER val), ch)
           else if svn_ctype_isalpha first_char then
             '(str, ch) ← word_loop (S size) [first_char];
             mret (Some (SVN_RA_SVN_WORD str), ch)
           else if first_char =b? "("%byte then
             items ← read_list fuel (S level) [];
             ch ← readbuf_getchar;
             mret (Some (SVN_RA_SVN_LIST items), ch)
           else mret (None, first_char));
        if negb (svn_iswhitespace ch) then throw SVN_ERR_RA_SVN_MALFORMED_DATA
        else match item with Some item => mret item | None => lift Undefined end
  end
with read_list (fuel : nat) (level : nat) items : M (list svn_ra_svn_item_t) :=
  match fuel with
  | O => lift OutOfFuel
  | S fuel =>
      ch ← readbuf_getchar_skip_whitespace;
      if ch =b? ")"%byte then mret items
      else
        listitem ← read_item fuel ch level;
        read_list fuel level (items ++ [listitem])
  end.

(** A list and each of its items read a byte. *)
Definition svn_ra_svn_read_item : M svn_ra_svn_item_t :=
  ch ← readbuf_getchar_skip_whitespace;
  size ← gets (λ c, length (unread c));
  read_item (2 * size + 2) ch 0.

Definition svn_ra_svn_skip_leading_garbage : M () := readbuf_skip_leading_garbage.

(** ** Reading and parsing tuples *)

(** What an item gives for a specification of the format, if they fit.  A C
    string ends at the first NUL of the data. *)
Definition parse_value (f : byte) (elt : svn_ra_svn_item_t) : option va_arg_t :=
  match elt with
  | SVN_RA_SVN_NUMBER number =>
      if f =b? "n"%byte then Some (VA_uint64 number)
      else if f =b? "r"%byte then Some (VA_revnum (s64 number)) else None
  | SVN_RA_SVN_STRING string =>
      if f =b? "s"%byte then Some (VA_string (Some string))
      else if f =b? "c"%byte then Some (VA_cstring (Some (cstring string))) else None
  | SVN_RA_SVN_WORD word =>
      if f =b? "w"%byte then Some (VA_cstring (Some word))
      else if f =b? "b"%byte then
        if strcmp word (bytes_of "true") =? 0 then Some (VA_boolean true)
        else if strcmp word (bytes_of "false") =? 0 then Some (VA_boolean false) else None
      else if f =b? "B"%byte then
        if strcmp word (bytes_of "true") =? 0 then Some (VA_uint64 1)
        else if strcmp word (bytes_of "false") =? 0 then Some (VA_uint64 0) else None
      else None
  | SVN_RA_SVN_LIST list_ => if f =b? "l"%byte then Some (VA_list (Some list_)) else None
  end.

(** The loop that sets what an optional part would have set. *)
Fixpoint parse_absent fmt (nesting_level : Z) args : result (list byte * list va_arg_t) :=
  match fmt with
  | [] => Ok ([], args)
  | f :: fmt' =>
      if f =b? "?"%byte then parse_absent fmt' nesting_level args
      else if f =b? "r"%byte then parse_absent fmt' nesting_level (args ++ [VA_revnum SVN_INVALID_REVNUM])
      else if f =b? "s"%byte then parse_absent fmt' nesting_level (args ++ [VA_string None])
      else if (f =b? "c"%byte) || (f =b? "w"%byte) then
        parse_absent fmt' nesting_level (args ++ [VA_cstring None])
      else if f =b? "l"%byte then parse_absent fmt' nesting_level (args ++ [VA_list None])
      else if (f =b? "B"%byte) || (f =b? "n"%byte) then
        parse_absent fmt' nesting_level (args ++ [VA_uint64 SVN_RA_SVN_UNSPECIFIED_NUMBER])
      else if f =b? "("%byte then parse_absent fmt' (nesting_level + 1) args
      else if f =b? ")"%byte then
        if nesting_level - 1 <? 0 then Ok (fmt, args) else parse_absent fmt' (nesting_level - 1) args
      else Aborted
  end.

(** After the loop over the items. *)
Definition parse_end fmt args : result (list byte * list va_arg_t) :=
  let! (fmt, args) := if deref fmt =b? "?"%byte then parse_absent fmt 0 args else Ok (fmt, args) in
  if negb (deref fmt =b? NUL) && negb (deref fmt =b? ")"%byte) then Error SVN_ERR_RA_SVN_MALFORMED_DATA
  else Ok (fmt, args).

(** The rest of the format, and the values that were set so far.  An increment
    at the end of the format is undefined. *)
Fixpoint vparse_loop (fuel : nat) items fmt args : result (list byte * list va_arg_t) :=
  match fuel with
  | O => OutOfFuel
  | S fuel =>
      match fmt, items with
      | f :: fmt', elt :: items' =>
          let fmt := if f =b? "?"%byte then fmt' else fmt in
          match parse_value (deref fmt) elt with
          | Some value => vparse_loop fuel items' (drop 1 fmt) (args ++ [value])
          | None =>
              match elt with
              | SVN_RA_SVN_LIST list_ =>
                  if deref fmt =b? "("%byte then
                    let! (fmt, args) := vparse_loop fuel list_ (drop 1 fmt) args in
                    match fmt with
                    | [] => Undefined
                    | _ => vparse_loop fuel items' (drop 1 fmt) args
                    end
                  else if deref fmt =b? ")"%byte then Ok (fmt, args) else parse_end fmt args
              | _ => if deref fmt =b? ")"%byte then Ok (fmt, args) else parse_end fmt args
              end
          end
      | _, _ => parse_end fmt args
      end
  end.

(** Every round takes a character of the format. *)
Definition vparse_tuple items fmt : result (list byte * list va_arg_t) :=
  vparse_loop (S (length fmt)) items fmt [].

Definition svn_ra_svn_parse_tuple items fmt : result (list va_arg_t) :=
  let! (_, args) := vparse_tuple items fmt in Ok args.

Definition svn_ra_svn_read_tuple fmt : M (list va_arg_t) :=
  item ← svn_ra_svn_read_item;
  match item with
  | SVN_RA_SVN_LIST items => lift (svn_ra_svn_parse_tuple items fmt)
  | _ => throw SVN_ERR_RA_SVN_MALFORMED_DATA
  end.

Fixpoint parse_props items (props : gmap (list byte) (list byte)) : result (gmap (list byte) (list byte)) :=
  match items with
  | [] => Ok props
  | SVN_RA_SVN_LIST elt :: items =>
      let! args := svn_ra_svn_parse_tuple elt (bytes_of "cs") in
      match args with
      | [VA_cstring (Some name); VA_string (Some value)] => parse_props items (<[name := value]> props)
      | _ => Undefined
      end
  | _ => Error SVN_ERR_RA_SVN_MALFORMED_DATA
  end.

Definition svn_ra_svn_parse_proplist items : result (gmap (list byte) (list byte)) := parse_props items ∅.

Fixpoint svn_ra_svn_set_capabilities items : M () :=
  match items with
  | [] => mret ()
  | SVN_RA_SVN_WORD word :: items =>
      modify (λ c, set_capabilities c ({[ word ]} ∪ capabilities c));;
      svn_ra_svn_set_capabilities items
  | _ => throw SVN_ERR_RA_SVN_MALFORMED_DATA
  end.

Definition svn_ra_svn_has_capability c (capability : list byte) : bool :=
  bool_decide (capability ∈ capabilities c).

End Items.

(** ** Commands and responses *)

(** A link of an error chain; an [svn_error_t *] is the list of its links, and
    [SVN_NO_ERROR] is the empty one. *)
Record svn_error_link := MkLink {
  apr_err : Z;
  message : option (list byte);
  file : option (list byte);
  line : Z;
}.

Abbreviation svn_error_t := (list svn_error_link) (only parsing).

Implicit Types (err : svn_error_t).

Definition SVN_ERR_RA_SVN_CATEGORY_START : Z := 120000 + 18 * 5000.
Definition SVN_ERR_RA_SVN_CMD_ERR : Z := SVN_ERR_RA_SVN_CATEGORY_START + 0.
Definition SVN_ERR_RA_SVN_UNKNOWN_CMD : Z := SVN_ERR_RA_SVN_CATEGORY_START + 1.

(** Without [SVN_DEBUG] an error has no file and line. *)
Definition svn_error_create (apr_err_ : Z) err (message_ : option (list byte)) : svn_error_t :=
  MkLink apr_err_ message_ None 0 :: err.

(** The text of an error code: a table, the system's messages and their
    translation.  It is a C string. *)
Class ErrorText := {
  svn_strerror : Z → list byte;
  svn_strerror_no_nul : ∀ code, NUL ∉ svn_strerror code;
}.

(** Tracing links are those of a build with [SVN_ERR__TRACING]. *)
Definition svn_err_best_message `{ErrorText} (link : svn_error_link) : list byte :=
  match message link with Some message => message | None => svn_strerror (apr_err link) end.

Fixpoint locate_loop err : svn_error_t :=
  match err with
  | link :: child => if apr_err link =? SVN_ERR_RA_SVN_CMD_ERR then locate_loop child else err
  | [] => []
  end.

Definition svn_ra_svn__locate_real_error_child err : result svn_error_t :=
  assert! negb (bool_decide (err = [])) in
  let this_link := locate_loop err in
  assert! negb (bool_decide (this_link = [])) in
  Ok this_link.

(** One round of the loop, over an error list whose end was already rebuilt. *)
Definition failure_link (elt : svn_ra_svn_item_t) err : result svn_error_t :=
  match elt with
  | SVN_RA_SVN_LIST list_ =>
      let! args := svn_ra_svn_parse_tuple list_ (bytes_of "nccn") in
      match args with
      | [VA_uint64 apr_err; VA_cstring (Some message); VA_cstring (Some file); VA_uint64 line] =>
          let message := match message with [] => None | _ => Some message end in
          if negb (s32 apr_err =? SVN_ERR_RA_SVN_CMD_ERR)
          then Ok (MkLink (s32 apr_err) message (Some file) (s64 line) :: err) else Ok err
      | _ => Undefined
      end
  | _ => Error SVN_ERR_RA_SVN_MALFORMED_DATA
  end.

(** From the last item to the first. *)
Fixpoint failure_loop items : result svn_error_t :=
  match items with
  | [] => Ok []
  | elt :: items => let! err := failure_loop items in failure_link elt err
  end.

Definition svn_ra_svn__handle_failure_status (params : list svn_ra_svn_item_t) : result svn_error_t :=
  match params with
  | [] => Error SVN_ERR_RA_SVN_MALFORMED_DATA
  | _ =>
      let! err := failure_loop params in
      match err with [] => Error SVN_ERR_RA_SVN_MALFORMED_DATA | _ => Ok err end
  end.

(** A command's handler is given the parameters and the baton; it returns the
    baton as it left it, and an [svn_error_t *]. *)
Record svn_ra_svn_cmd_entry_t (B : Type) := MkEntry {
  cmdname : list byte;
  handler : list svn_ra_svn_item_t → B → M (B * svn_error_t);
  terminate : bool;
}.
Arguments MkEntry {B}.
Arguments cmdname {B}.
Arguments handler {B}.
Arguments terminate {B}.

Section Commands.
Context `{BlockHandler} `{ErrorText}.

(** The values of a successful response, or the error of a failure. *)
Definition svn_ra_svn_read_cmd_response fmt : M (list va_arg_t + svn_error_t) :=
  args ← svn_ra_svn_read_tuple (bytes_of "wl");
  match args with
  | [VA_cstring (Some status); VA_list (Some params)] =>
      if strcmp status (bytes_of "success") =? 0 then
        args ← lift (svn_ra_svn_parse_tuple params fmt);
        mret (inl args)
      else if strcmp status (bytes_of "failure") =? 0 then
        err ← lift (svn_ra_svn__handle_failure_status params);
        mret (inr err)
      else throw SVN_ERR_RA_SVN_MALFORMED_DATA
  | _ => lift Undefined
  end.

Definition svn_ra_svn_write_cmd (cmdname : list byte) fmt args : M () :=
  svn_ra_svn_start_list;;
  svn_ra_svn_write_word cmdname;;
  vwrite_tuple fmt args;;
  svn_ra_svn_end_list.

Definition svn_ra_svn_write_cmd_response fmt args : M () :=
  writebuf_write_short_string (bytes_of "( success ");;
  vwrite_tuple fmt args;;
  svn_ra_svn_end_list.

Fixpoint write_failure_links err : M () :=
  match err with
  | [] => mret ()
  | link :: child =>
      let msg := svn_err_best_message link in
      svn_ra_svn_write_tuple (bytes_of "nccn")
        [VA_uint64 (u64 (apr_err link)); VA_cstring (Some msg);
         VA_cstring (Some (match file link with Some file => file | None => [] end));
         VA_uint64 (u64 (line link))];;
      write_failure_links child
  end.

Definition svn_ra_svn_write_cmd_failure err : M () :=
  writebuf_write_short_string (bytes_of "( failure ( ");;
  write_failure_links err;;
  writebuf_write_short_string (bytes_of ") ) ").

Section Server.
Context {B : Type}.
Implicit Types (commands : list (svn_ra_svn_cmd_entry_t B)).

(** A later entry of the table replaces an earlier one of the same name. *)
Fixpoint make_cmd_hash commands (cmd_hash : gmap (list byte) (svn_ra_svn_cmd_entry_t B))
    : gmap (list byte) (svn_ra_svn_cmd_entry_t B) :=
  match commands with
  | [] => cmd_hash
  | command :: commands => make_cmd_hash commands (<[cmdname command := command]> cmd_hash)
  end.

(** Reading the command; [None] when the connection was closed, which is no
    error for the caller. *)
Definition read_command (error_on_disconnect : bool) : M (option (list va_arg_t)) := λ c,
  match svn_ra_svn_read_tuple (bytes_of "wl") c with
  | (c, Ok args) => (c, Ok (Some args))
  | (c, Error e) =>
      if negb error_on_disconnect && bool_decide (e = SVN_ERR_RA_SVN_CONNECTION_CLOSED)
      then (c, Ok None) else (c, Error e)
  | (c, Aborted) => (c, Aborted)
  | (c, Undefined) => (c, Undefined)
  | (c, OutOfFuel) => (c, OutOfFuel)
  end.

Definition unknown_command (name : list byte) : svn_error_t :=
  let err := svn_error_create SVN_ERR_RA_SVN_UNKNOWN_CMD []
               (Some (bytes_of "Unknown command '" ++ name ++ bytes_of "'")) in
  svn_error_create SVN_ERR_RA_SVN_CMD_ERR err None.

(** The error that ends the loop, if it is not the end of the input. *)
Fixpoint commands_loop (fuel : nat) (cmd_hash : gmap (list byte) (svn_ra_svn_cmd_entry_t B))
    (error_on_disconnect : bool) (baton : B) : M (B * svn_error_t) :=
  match fuel with
  | O => lift OutOfFuel
  | S fuel =>
      args ← read_command error_on_disconnect;
      match args with
      | None => mret (baton, [])
      | Some [VA_cstring (Some name); VA_list (Some params)] =>
          let command := cmd_hash !! name in
          '(baton, err) ←
            (match command with
             | Some command => handler command params baton
             | None => mret (baton, unknown_command name)
             end);
          let next :=
            if (match command with Some command => terminate command | None => false end)
            then mret (baton, []) else commands_loop fuel cmd_hash error_on_disconnect baton in
          match err with
          | link :: _ =>
              if apr_err link =? SVN_ERR_RA_SVN_CMD_ERR then
                real ← lift (svn_ra_svn__locate_real_error_child err);
                svn_ra_svn_write_cmd_failure real;;
                next
              else mret (baton, err)
          | [] => next
          end
      | Some _ => lift Undefined
      end
  end.

(** Every round reads a command. *)
Definition svn_ra_svn_handle_commands2 commands (baton : B) (error_on_disconnect : bool)
    : M (B * svn_error_t) :=
  size ← gets (λ c, length (unread c));
  commands_loop (S size) (make_cmd_hash commands ∅) error_on_disconnect baton.

Definition svn_ra_svn_handle_commands commands (baton : B) : M (B * svn_error_t) :=
  svn_ra_svn_handle_commands2 commands baton true.

End Server.
End Commands.
