(* ===== verification/MarshalBuffers.v ===== *)
(** * Writing to a connection and reading from it

    The write buffer of [marshal.c]: whatever the sizes of the data, and however
    many bytes the transport takes at a time, the bytes that are sent and those
    in the buffer are together what was written, in order.

    The read buffer of [marshal.c]: what is read depends only on the bytes that
    were not read yet, and not on the segments in which they arrive. *)
From S2P Require Import Prelude Numbers Cstrings Marshal.

Implicit Types (data bs : list byte) (c : svn_ra_svn_conn_t).

(** ** Running functions on a connection *)

Lemma run_bind {A B} (m : M A) (k : A → M B) c c' a : m c = (c', Ok a) → (m ≫= k) c = k a c'.
Proof. intros Hm. unfold mbind, M_bind. by rewrite Hm. Qed.

Lemma run_bind_error {A B} (m : M A) (k : A → M B) c c' e :
  m c = (c', Error e) → (m ≫= k) c = (c', Error e).
Proof. intros Hm. unfold mbind, M_bind. by rewrite Hm. Qed.

Lemma run_bind_aborted {A B} (m : M A) (k : A → M B) c c' :
  m c = (c', Aborted) → (m ≫= k) c = (c', Aborted).
Proof. intros Hm. unfold mbind, M_bind. by rewrite Hm. Qed.

Lemma run_gets {A B} (f : svn_ra_svn_conn_t → A) (k : A → M B) c : (gets f ≫= k) c = k (f c) c.
Proof. done. Qed.

Lemma run_modify {B} f (k : () → M B) c : (modify f ≫= k) c = k () (f c).
Proof. done. Qed.

Lemma run_ret {A B} (a : A) (k : A → M B) c : (mret a ≫= k) c = k a c.
Proof. done. Qed.

(** ** States *)

Definition answers_no c : Prop :=
  match session c with Some sess => Forall (λ a, a = false) (cancel_answers sess) | None => True end.

(** A connection on which nothing goes wrong while the other side is there: there
    is no block handler, or it is never needed. *)
Record live c : Prop := Live {
  live_fits : (length (write_buf c) <= SVN_RA_SVN__WRITEBUF_SIZE)%nat;
  live_segments : Forall (λ segment, segment ≠ []) (incoming c);
  live_cancel : answers_no c;
  live_handler : block_handler c = true → Forall (λ n, n ≠ 0)%nat (accepts c);
}.

(** The reading side, the capabilities and the block handler are the same. *)
Definition same_input c c' : Prop :=
  incoming c' = incoming c ∧ read_buf c' = read_buf c ∧ capabilities c' = capabilities c
  ∧ block_handler c' = block_handler c.

#[global] Instance same_input_refl : Reflexive same_input.
Proof. by intros c. Qed.
#[global] Instance same_input_trans : Transitive same_input.
Proof. intros c1 c2 c3 (H1 & H2 & H3 & H4) (H5 & H6 & H7 & H8). split_and!; congruence. Qed.

Lemma same_input_unread c c' : same_input c c' → unread c' = unread c.
Proof. intros (H1 & H2 & _). unfold unread. by rewrite H1, H2. Qed.

Definition fits c : Prop := (length (write_buf c) <= SVN_RA_SVN__WRITEBUF_SIZE)%nat.

(** ** What a function writes

    It writes [bs] if it returns; if it fails, what was sent is still a prefix of
    that.  On a live connection it returns, and does not touch the input. *)
Definition emits_at c (m : M ()) bs : Prop :=
  ∃ c' r, m c = (c', r) ∧ fits c'
  ∧ match r with
    | Ok _ => output c' = output c ++ bs
    | Error _ | Aborted => sent c' `prefix_of` output c ++ bs
    | Undefined | OutOfFuel => False
    end
  ∧ (live c → r = Ok () ∧ live c' ∧ same_input c c').

Definition emits (m : M ()) bs : Prop := ∀ c, fits c → emits_at c m bs.

Lemma emits_ret : emits (mret ()) [].
Proof.
  intros c Hc. exists c, (Ok ()). split_and!; [done|done|by rewrite app_nil_r|].
  intros Hl. by split_and!.
Qed.

Lemma emits_at_bind c (m : M ()) (k : () → M ()) bs1 bs2 :
  emits_at c m bs1 → emits (k ()) bs2 → emits_at c (m ≫= k) (bs1 ++ bs2).
Proof.
  intros (c1 & r1 & Hm & Hf1 & Hr1 & Hl1) Hk. unfold emits_at, mbind, M_bind. rewrite Hm.
  destruct r1 as [[]|e| | |]; try done.
  - destruct (Hk c1 Hf1) as (c2 & r2 & Hk2 & Hf2 & Hr2 & Hl2). exists c2, r2. rewrite Hk2.
    rewrite Hr1, <- app_assoc in Hr2. split_and!; [done|done|done|].
    intros Hl. destruct (Hl1 Hl) as (_ & Hc1 & Hs1). destruct (Hl2 Hc1) as (-> & Hc2 & Hs2).
    split_and!; [done|done|by etrans].
  - eexists _, _. split_and!; [done|done| |intros Hl; by destruct (Hl1 Hl)].
    rewrite app_assoc. by apply prefix_app_r.
  - eexists _, _. split_and!; [done|done| |intros Hl; by destruct (Hl1 Hl)].
    rewrite app_assoc. by apply prefix_app_r.
Qed.

Lemma emits_bind (m : M ()) (k : () → M ()) bs1 bs2 :
  emits m bs1 → emits (k ()) bs2 → emits (m ≫= k) (bs1 ++ bs2).
Proof. intros Hm Hk c Hc. by apply emits_at_bind; [apply Hm|]. Qed.

(** The same with the bytes to be shown equal. *)
Lemma emits_then (m : M ()) (k : () → M ()) bs1 bs2 bs :
  emits m bs1 → emits (k ()) bs2 → bs = bs1 ++ bs2 → emits (m ≫= k) bs.
Proof. intros Hm Hk ->. by apply emits_bind. Qed.

Lemma emits_put c data :
  (length (write_buf c) + length data <= SVN_RA_SVN__WRITEBUF_SIZE)%nat →
  emits_at c (writebuf_put data) data.
Proof.
  intros Hl. exists (set_write_buf c (write_buf c ++ data)), (Ok ()). split_and!.
  - unfold writebuf_put. by rewrite (proj2 (Nat.leb_le _ _)).
  - unfold fits. cbn [write_buf set_write_buf]. rewrite length_app. lia.
  - unfold output. cbn [sent write_buf set_write_buf]. by rewrite app_assoc.
  - intros [H1 H2 H3 H4]. split_and!; [done| |done]. split; [|done..].
    cbn [write_buf set_write_buf]. rewrite length_app. lia.
Qed.

(** ** The output loop *)

Section Writing.
Context `{BH : BlockHandler} `{!BlockHandlerOk BH}.

(** The cancellation callback changes nothing but the session. *)
Lemma cancel_func_run c :
  ∃ sess r, cancel_func c = (set_session c sess, r) ∧ (r = Ok () ∨ r = Error SVN_ERR_CANCELLED)
  ∧ (answers_no c → r = Ok () ∧ answers_no (set_session c sess)).
Proof.
  destruct c as [inc acc sn [[ans pr br bw]|] rb wb bh cp]; unfold cancel_func; rewrite run_gets; cbn [session cancel_answers].
  - destruct ans as [|[] ans].
    + eexists (Some _), _. split; [done|]. split; [by left|done].
    + eexists (Some (MkSession (true :: ans) pr br bw)), _. split; [done|]. split; [by right|].
      unfold answers_no. cbn. intros Ha. by inversion Ha.
    + eexists (Some _), _. split; [done|]. split; [by left|]. unfold answers_no. cbn. intros Ha. by inversion Ha.
  - eexists None, _. split; [done|]. split; [by left|done].
Qed.

Lemma count_bytes_run c n1 n2 :
  ∃ sess, count_bytes n1 n2 c = (set_session c sess, Ok ())
  ∧ (answers_no c → answers_no (set_session c sess)).
Proof.
  destruct c as [inc acc sn [[ans pr br bw]|] rb wb bh cp]; unfold count_bytes, modify; cbn [session].
  - eexists (Some _). split; [done|]. done.
  - exists None. by split.
Qed.

Lemma stream_write_run c data :
  data ≠ [] → ∃ count, (count <= length data)%nat
  ∧ svn_ra_svn__stream_write data c = (set_sent c (tail (accepts c)) (sent c ++ take count data), Ok count)
  ∧ (count = O → accepts c ≠ [] ∧ block_handler c = true ∧ ¬ Forall (λ n, n ≠ 0)%nat (accepts c)).
Proof.
  intros Hd. assert (length data ≠ O) by (by destruct data). unfold svn_ra_svn__stream_write.
  set (most := match accepts c with [] => length data | n :: _ => if block_handler c then n else S n end).
  exists (Nat.min most (length data)). split; [lia|]. unfold most.
  split; [by destruct (accepts c)|]. destruct (accepts c) as [|n rest]; [lia|].
  destruct (block_handler c); [|lia]. intros Hz. split_and!; [done|done|]. intros Hall. inversion Hall; subst. lia.
Qed.

(** In the middle of a write. *)
Lemma output_loop_run fuel data c :
  write_buf c = [] → (length data + length (accepts c) <= fuel)%nat →
  ∃ c' r, output_loop fuel data c = (c', r) ∧ write_buf c' = []
  ∧ match r with
    | Ok _ => sent c' = sent c ++ data
    | Error _ | Aborted => sent c' `prefix_of` sent c ++ data
    | Undefined | OutOfFuel => False
    end
  ∧ (live c → r = Ok () ∧ live c' ∧ same_input c c').
Proof.
  revert data c. induction fuel as [|fuel IH]; intros data c Hw Hf.
  { destruct data; [|cbn in Hf; lia]. exists c, (Ok ()). cbn.
 rewrite app_nil_r. split_and!; [done..|]. intros Hl. by split_and!. }
  destruct (decide (data = [])) as [->|Hd].
  { exists c, (Ok ()). cbn. rewrite app_nil_r. split_and!; [done..|]. intros Hl. by split_and!. }
  assert (output_loop (S fuel) data =
    (cancel_func;; count ← svn_ra_svn__stream_write data;
     (if (count =? 0)%nat then handler ← gets block_handler; if (handler : bool) then blocked else lift Undefined
      else mret ());; count_bytes 0 count;; output_loop fuel (drop count data))) as -> by (by destruct data).
  destruct (cancel_func_run c) as (sess & r & Hcf & [->| ->] & Hq).
  2:{ eexists _, _. rewrite (run_bind_error _ _ _ _ _ Hcf). split_and!; [done|done|by apply prefix_app_r|].
      intros Hl. destruct (Hq (live_cancel _ Hl)). done. }
  rewrite (run_bind _ _ _ _ _ Hcf). set (c1 := set_session c sess) in *.
  destruct (stream_write_run c1 data Hd) as (count & Hle & Hsw & Hz). rewrite (run_bind _ _ _ _ _ Hsw).
  set (c2 := set_sent c1 (tail (accepts c1)) (sent c1 ++ take count data)) in *.
  assert (live c → live c2 ∧ same_input c c2 ∧ count ≠ O) as Hl2.
  { intros Hl. destruct (Hq (live_cancel _ Hl)) as [_ Hq']. destruct Hl as [H1 H2 H3 H4]. split_and!; try done.
    - split; try done. intros Hb. apply H4 in Hb. unfold c2, c1. cbn.
      destruct (accepts c); [done|]. by inversion Hb.
    - intros Hc. destruct (Hz Hc) as (_ & Hb & Hn). apply Hn. by apply H4. }
  assert (∃ c3 r3, (if (count =? 0)%nat then handler ← gets block_handler; if (handler : bool) then blocked else lift Undefined
      else mret ()) c2 = (c3, r3) ∧ write_buf c3 = [] ∧ sent c3 = sent c2 ∧ accepts c3 = accepts c2
      ∧ (match r3 with Ok _ | Error _ | Aborted => True | _ => False end)
      ∧ (live c → r3 = Ok () ∧ c3 = c2)) as (c3 & r3 & H3 & Hw3 & Hs3 & Ha3 & Hr3 & Hl3).
  { destruct (Nat.eqb_spec count 0) as [H0|H0].
    - rewrite run_gets. destruct (Hz H0) as (_ & Hb & _). assert (block_handler c2 = true) as -> by done.
      destruct (blocked c2) as [c3 r3] eqn:Hbl. exists c3, r3.
      destruct (blocked_ok c2 c3 r3 ltac:(done) Hbl) as (? & ? & ? & ?). split_and!; try done.
      intros Hl. by destruct (Hl2 Hl) as (_ & _ & ?).
    - by exists c2, (Ok ()). }
  assert (sent c3 ++ drop count data = sent c ++ data) as Hcat.
  { rewrite Hs3. unfold c2, c1. cbn. by rewrite <- app_assoc, take_drop. }
  destruct r3 as [[]|e| | |]; try done.
  - rewrite (run_bind _ _ _ _ _ H3). destruct (count_bytes_run c3 0 count) as (sess4 & H4 & Hq4).
    rewrite (run_bind _ _ _ _ _ H4).
    destruct (IH (drop count data) (set_session c3 sess4)) as (c' & r & Hrun & Hw' & Hr & Hl').
    { done. }
    { rewrite length_drop. cbn [accepts set_session]. rewrite Ha3. unfold c2, c1. cbn [accepts set_sent set_session].
      destruct (decide (count = O)) as [Hc0|Hc0].
      - destruct (Hz Hc0) as [Hne _]. unfold c1 in Hne. cbn in Hne. destruct (accepts c); [done|]. cbn in *. lia.
      - assert (length (tail (accepts c)) <= length (accepts c))%nat by (destruct (accepts c); cbn; lia). lia. }
    cbn [sent set_session] in Hr. rewrite Hcat in Hr. exists c', r. split_and!; try done.
    intros Hl. destruct (Hl3 Hl) as [_ ->]. destruct (Hl2 Hl) as (Hlive2 & Hsi & _).
    destruct Hlive2 as [G1 G2 G3 G4]. destruct Hl' as (? & ? & ?); [by split; [| |apply Hq4|]|].
    split_and!; [done|done|]. etrans; [done|]. done.
  - eexists _, _. rewrite (run_bind_error _ _ _ _ _ H3). split_and!; [done|done| |].
    { rewrite <- Hcat. apply prefix_app_r. done. }
    intros Hl. by destruct (Hl3 Hl).
  - eexists _, _. rewrite (run_bind_aborted _ _ _ _ H3). split_and!; [done|done| |].
    { rewrite <- Hcat. apply prefix_app_r. done. }
    intros Hl. by destruct (Hl3 Hl).
Qed.

Lemma writebuf_output_emits c data : write_buf c = [] → emits_at c (writebuf_output data) data.
Proof.
  intros Hw. unfold writebuf_output, emits_at. setoid_rewrite run_gets.
  destruct (output_loop_run (length data + length (accepts c)) data c Hw) as (c' & r & Hrun & Hw' & Hr & Hl); [lia|].
  exists c', r. unfold fits, output. rewrite Hw, Hw', !app_nil_r. split_and!; try done. cbn. lia.
Qed.

(** Flushing writes nothing new. *)
Lemma writebuf_flush_run c :
  ∃ c' r, writebuf_flush c = (c', r) ∧ write_buf c' = []
  ∧ match r with
    | Ok _ => output c' = output c
    | Error _ | Aborted => sent c' `prefix_of` output c
    | Undefined | OutOfFuel => False
    end
  ∧ (live c → r = Ok () ∧ live c' ∧ same_input c c').
Proof.
  unfold writebuf_flush, writebuf_output. rewrite run_gets, run_modify, run_gets.
  destruct (output_loop_run (length (write_buf c) + length (accepts (set_write_buf c []))) (write_buf c)
    (set_write_buf c [])) as (c' & r & Hrun & Hw' & Hr & Hl); [done|cbn; lia|].
  exists c', r. split_and!; try done.
  - unfold output. rewrite Hw', app_nil_r. done.
  - intros [H1 H2 H3 H4]. destruct Hl as (-> & Hl' & Hs); [by split; cbn; [lia|..]|]. done.
Qed.

Lemma writebuf_flush_emits : emits writebuf_flush [].
Proof.
  intros c Hc. destruct (writebuf_flush_run c) as (c' & r & Hrun & Hw & Hr & Hl). exists c', r.
  rewrite app_nil_r. split_and!; try done. unfold fits. rewrite Hw. cbn. lia.
Qed.

Lemma writebuf_push_fits c data :
  (length (write_buf c) + length data <= SVN_RA_SVN__WRITEBUF_SIZE)%nat →
  emits_at c (writebuf_push data;; mret ()) data.
Proof.
  intros Hl. destruct (emits_put c data Hl) as (c' & r & Hp & Hrest). exists c', r. split; [|done].
  rewrite <- Hp. unfold writebuf_put, writebuf_push, mbind, M_bind. rewrite (proj2 (Nat.leb_le _ _)) by done.
  rewrite take_ge by lia. done.
Qed.

(** ** The functions that write bytes *)

Lemma writebuf_write_emits data : emits (writebuf_write data) data.
Proof.
  intros c Hc. unfold writebuf_write, emits_at. setoid_rewrite run_gets.
  destruct (_ && _) eqn:Hb.
  - apply andb_prop in Hb as [Hpos Hover]. apply Nat.ltb_lt in Hpos, Hover.
    set (n := Nat.min (SVN_RA_SVN__WRITEBUF_SIZE - length (write_buf c)) (length data)).
    assert (writebuf_push data c = (set_write_buf c (write_buf c ++ take n data), Ok (drop n data))) as Hp by done.
    assert (∀ k : list byte → M (), ((data' ← writebuf_push data; writebuf_flush;; mret data') ≫= k) c
      = (writebuf_flush;; k (drop n data)) (set_write_buf c (write_buf c ++ take n data))) as Hrun.
    { intros k. unfold mbind, M_bind. rewrite Hp. destruct (writebuf_flush _) as [? []]; done. }
    setoid_rewrite Hrun. clear Hrun. set (c1 := set_write_buf c (write_buf c ++ take n data)).
    assert (output c ++ data = output c1 ++ drop n data) as Hout.
    { unfold c1, output. cbn [sent write_buf set_write_buf]. by rewrite <- !app_assoc, take_drop. }
    destruct (writebuf_flush_run c1) as (c2 & r2 & Hfl & Hw2 & Hr2 & Hl2).
    assert (live c → live c1) as Hlc1.
    { intros [H1 H2 H3 H4]. split; try done. unfold c1. cbn [write_buf set_write_buf]. rewrite length_app, length_take. lia. }
    destruct r2 as [[]|e| | |]; try done.
    + setoid_rewrite (run_bind _ _ _ _ _ Hfl).
      assert (emits_at c2 (if (SVN_RA_SVN__WRITEBUF_SIZE <? length (drop n data))%nat then writebuf_output (drop n data)
        else writebuf_push (drop n data);; mret ()) (drop n data)) as (c3 & r3 & H3 & Hf3 & Hr3 & Hl3).
      { destruct (Nat.ltb_spec SVN_RA_SVN__WRITEBUF_SIZE (length (drop n data))) as [Hlt|Hge].
        - by apply writebuf_output_emits.
        - apply writebuf_push_fits. rewrite Hw2. cbn. lia. }
      rewrite Hr2, <- Hout in Hr3. exists c3, r3. split_and!; try done.
      intros Hl. destruct (Hl2 (Hlc1 Hl)) as (_ & Hc2 & Hs2). destruct (Hl3 Hc2) as (? & ? & ?).
      split_and!; [done|done|]. etrans; [|done]. etrans; [|done]. done.
    + eexists _, _. rewrite (run_bind_error _ _ _ _ _ Hfl). split_and!; [done|by unfold fits; rewrite Hw2; cbn; lia| |].
      { rewrite Hout. by apply prefix_app_r. }
      intros Hl. by destruct (Hl2 (Hlc1 Hl)).
    + eexists _, _. rewrite (run_bind_aborted _ _ _ _ Hfl). split_and!; [done|by unfold fits; rewrite Hw2; cbn; lia| |].
      { rewrite Hout. by apply prefix_app_r. }
      intros Hl. by destruct (Hl2 (Hlc1 Hl)).
  - setoid_rewrite run_ret. apply andb_false_iff in Hb.
    destruct (Nat.ltb_spec SVN_RA_SVN__WRITEBUF_SIZE (length data)) as [Hlt|Hge].
    + apply writebuf_output_emits. destruct Hb as [Hb|Hb].
      * apply Nat.ltb_ge in Hb. by destruct (write_buf c); [|cbn in Hb; lia].
      * apply Nat.ltb_ge in Hb. lia.
    + apply writebuf_push_fits. destruct Hb as [Hb|Hb]; apply Nat.ltb_ge in Hb; lia.
Qed.

Lemma writebuf_write_short_string_emits data : emits (writebuf_write_short_string data) data.
Proof.
  intros c Hc. unfold writebuf_write_short_string, emits_at. setoid_rewrite run_gets.
  destruct (Nat.leb_spec (length data) (SVN_RA_SVN__WRITEBUF_SIZE - length (write_buf c))) as [Hle|Hgt].
  - apply emits_put. unfold fits in Hc. lia.
  - by apply writebuf_write_emits.
Qed.

Lemma writebuf_writechar_emits (ch : byte) : emits (writebuf_writechar ch) [ch].
Proof.
  intros c Hc. unfold writebuf_writechar, emits_at. setoid_rewrite run_gets.
  destruct (Nat.ltb_spec (length (write_buf c)) SVN_RA_SVN__WRITEBUF_SIZE) as [Hlt|Hge].
  - apply emits_put. cbn. lia.
  - by apply writebuf_write_emits.
Qed.

End Writing.

(** Writes one after the other. *)
Fixpoint write_all `{BlockHandler} (datas : list (list byte)) : M () :=
  match datas with [] => mret () | data :: datas => writebuf_write data;; write_all datas end.

(** No handler is called. *)
#[global] Instance no_handler : BlockHandler := lift Aborted.

#[global] Instance no_handler_ok : BlockHandlerOk no_handler.
Proof. intros c c' r Hw [= <- <-]. done. Qed.

Lemma write_all_emits `{BH : BlockHandler} `{!BlockHandlerOk BH} datas : emits (write_all datas) (concat datas).
Proof.
  induction datas as [|data datas IH]; [apply emits_ret|]. apply emits_bind; [apply writebuf_write_emits|done].
Qed.

(** Any sequence of writes to a connection, followed by a flush, sends the
    bytes in order, in whatever portions the transport takes them and with
    blocks in between; when a write fails, what was sent is a beginning of
    them. *)
Theorem svn_ra_svn_writes_in_order `{BH : BlockHandler} `{!BlockHandlerOk BH} (datas : list (list byte)) c :
  fits c →
  ∃ c' r, (write_all datas;; svn_ra_svn_flush) c = (c', r) ∧ fits c'
  ∧ match r with
    | Ok _ => sent c' = output c ++ concat datas ∧ write_buf c' = []
    | Error _ | Aborted => sent c' `prefix_of` output c ++ concat datas
    | Undefined | OutOfFuel => False
    end
  ∧ (live c → r = Ok () ∧ live c' ∧ unread c' = unread c).
Proof.
  intros Hc. destruct (write_all_emits datas c Hc) as (c1 & r1 & H1 & Hf1 & Hr1 & Hl1).
  destruct r1 as [[]|e| | |]; try done.
  - setoid_rewrite (run_bind _ _ _ _ _ H1). destruct (writebuf_flush_run c1) as (c2 & r2 & H2 & Hw2 & Hr2 & Hl2).
    exists c2, r2. split_and!; [done|unfold fits; rewrite Hw2; cbn; lia| |].
    + rewrite <- Hr1. destruct r2 as [[]|e| | |]; try done. split; [|done].
      unfold output in Hr2. by rewrite Hw2, app_nil_r in Hr2.
    + intros Hl. destruct (Hl1 Hl) as (_ & Hlc1 & Hs1). destruct (Hl2 Hlc1) as (? & ? & Hs2).
      split_and!; [done|done|]. by rewrite (same_input_unread _ _ Hs2), (same_input_unread _ _ Hs1).
  - setoid_rewrite (run_bind_error _ _ _ _ _ H1). eexists _, _. split_and!; [done|done|done|].
    intros Hl. by destruct (Hl1 Hl).
  - setoid_rewrite (run_bind_aborted _ _ _ _ H1). eexists _, _. split_and!; [done|done|done|].
    intros Hl. by destruct (Hl1 Hl).
Qed.

(** Two writes through a transport that takes two bytes, then one, then all. *)
Lemma svn_ra_svn_writes_in_order_witness :
  let c := svn_ra_svn_create_conn2 [] [1; 0]%nat in
  ∃ c' r, (write_all [bytes_of "ab"; bytes_of "cde"];; svn_ra_svn_flush) c = (c', r) ∧ fits c'
  ∧ match r with
    | Ok _ => sent c' = output c ++ concat [bytes_of "ab"; bytes_of "cde"] ∧ write_buf c' = []
    | Error _ | Aborted => sent c' `prefix_of` output c ++ concat [bytes_of "ab"; bytes_of "cde"]
    | Undefined | OutOfFuel => False
    end
  ∧ (live c → r = Ok () ∧ live c' ∧ unread c' = unread c).
Proof.
  apply (@svn_ra_svn_writes_in_order no_handler no_handler_ok [bytes_of "ab"; bytes_of "cde"]
           (svn_ra_svn_create_conn2 [] [1; 0]%nat)).
  unfold fits. cbn [write_buf svn_ra_svn_create_conn2 length]. lia.
Defined.

(** ** Reading from a connection *)

Implicit Types (rest : list byte).

(** [rest] is to be read on the connection as it is afterwards; what was written
    is as before, though more of it may have been sent. *)
Record after c c' rest : Prop := After {
  after_live : live c';
  after_unread : unread c' = rest;
  after_output : output c' = output c;
  after_capabilities : capabilities c' = capabilities c;
}.

Lemma after_refl c : live c → after c c (unread c).
Proof. by split. Qed.

Lemma after_trans c1 c2 c3 rest2 rest3 : after c1 c2 rest2 → after c2 c3 rest3 → after c1 c3 rest3.
Proof. intros [H1 H2 H3 H4] [H5 H6 H7 H8]. split; congruence. Qed.

Lemma after_same_input c c' : live c' → same_input c c' → output c' = output c → after c c' (unread c).
Proof. intros Hl Hs Ho. split; [done|by apply same_input_unread|done|apply Hs]. Qed.

Section Reading.
Context `{BH : BlockHandler} `{!BlockHandlerOk BH}.

(** ** The transport *)

Lemma cancel_func_live c :
  live c → ∃ c', cancel_func c = (c', Ok ()) ∧ live c' ∧ same_input c c' ∧ output c' = output c
                 ∧ write_buf c' = write_buf c.
Proof.
  intros [H1 H2 H3 H4]. destruct (cancel_func_run c) as (sess & r & Hr & _ & Hq).
  destruct (Hq H3) as [-> ?]. exists (set_session c sess). split_and!; try done.
Qed.

Lemma count_bytes_live c n1 n2 :
  live c → ∃ c', count_bytes n1 n2 c = (c', Ok ()) ∧ live c' ∧ same_input c c' ∧ output c' = output c
                 ∧ write_buf c' = write_buf c.
Proof.
  intros [H1 H2 H3 H4]. destruct (count_bytes_run c n1 n2) as (sess & Hr & Hq).
  exists (set_session c sess). split_and!; try done. split; [done|done|by apply Hq|done].
Qed.

Lemma concat_segments len segment (rest : list (list byte)) :
  take len segment ++ concat (match drop len segment with [] => rest | more => more :: rest end)
  = segment ++ concat rest.
Proof.
  rewrite <- (take_drop len segment) at 3. rewrite <- app_assoc. f_equal. by destruct (drop len segment).
Qed.

(** Some of the incoming bytes, when any are left. *)
Lemma readbuf_input_run c len :
  live c → (0 < len)%nat →
  ∃ c', live c' ∧ read_buf c' = read_buf c ∧ output c' = output c ∧ capabilities c' = capabilities c
  ∧ write_buf c' = write_buf c
  ∧ ((incoming c = [] ∧ readbuf_input len c = (c', Error SVN_ERR_RA_SVN_CONNECTION_CLOSED) ∧ incoming c' = [])
     ∨ ∃ data, readbuf_input len c = (c', Ok data) ∧ data ≠ [] ∧ (length data <= len)%nat
       ∧ concat (incoming c) = data ++ concat (incoming c')).
Proof.
  intros Hl Hlen. destruct (cancel_func_live c Hl) as (c1 & H1 & Hl1 & (Hi1 & Hr1 & Hcp1 & _) & Ho1 & Hw1).
  unfold readbuf_input. setoid_rewrite (run_bind _ _ _ _ _ H1).
  destruct (incoming c) as [|segment rest] eqn:Hinc.
  { exists c1. split_and!; try done. left. split_and!; try done.
    assert (svn_ra_svn__stream_read len c1 = (c1, Error SVN_ERR_RA_SVN_CONNECTION_CLOSED)) as Hs.
    { unfold svn_ra_svn__stream_read. by rewrite Hi1. }
    by rewrite (run_bind_error _ _ _ _ _ Hs). }
  set (data := take len segment).
  pose proof (live_segments _ Hl) as Hseg. rewrite Hinc in Hseg. apply Forall_cons in Hseg as [Hne Hseg].
  assert (data ≠ []) as Hd by (unfold data; destruct segment, len; try done; lia).
  set (c2 := set_incoming c1 (match drop len segment with [] => rest | more => more :: rest end)).
  assert (svn_ra_svn__stream_read len c1 = (c2, Ok data)) as Hs.
  { unfold svn_ra_svn__stream_read. rewrite Hi1. fold data. by destruct data. }
  setoid_rewrite (run_bind _ _ _ _ _ Hs).
  assert ((length data =? 0)%nat = false) as -> by (apply Nat.eqb_neq; by destruct data).
  assert (live c2) as Hl2.
  { destruct Hl1 as [G1 G2 G3 G4]. split; [done| |done|done]. unfold c2. cbn [incoming set_incoming].
    destruct (drop len segment) eqn:Hdr; [done|]. by constructor. }
  destruct (count_bytes_live c2 (length data) 0 Hl2) as (c3 & H3 & Hl3 & (Hi3 & Hr3 & Hcp3 & _) & Ho3 & Hw3).
  setoid_rewrite (run_bind _ _ _ _ _ H3). exists c3. split_and!;
    [done|by rewrite Hr3|by rewrite Ho3|by rewrite Hcp3|by rewrite Hw3|].
  right. exists data. split_and!; try done.
  - unfold data. rewrite length_take. lia.
  - rewrite Hi3. unfold c2, data. cbn [incoming set_incoming concat]. by rewrite concat_segments.
Qed.

(** The buffer is filled with some of what arrives; before that everything that
    was written is sent. *)
Lemma readbuf_fill_run c :
  live c → read_buf c = [] →
  ∃ c', after c c' (unread c) ∧ write_buf c' = []
  ∧ ((unread c = [] ∧ readbuf_fill c = (c', Error SVN_ERR_RA_SVN_CONNECTION_CLOSED))
     ∨ (readbuf_fill c = (c', Ok ()) ∧ read_buf c' ≠ [])).
Proof.
  intros Hl Hr. unfold readbuf_fill. setoid_rewrite run_gets. rewrite Hr. cbn [length Nat.eqb ensure].
  assert (∀ m : M (), (ensure true;; m) c = m c) as He by done. setoid_rewrite He.
  destruct (writebuf_flush_run c) as (c1 & r1 & H1 & Hw1 & Ho1 & Hl1).
  destruct (Hl1 Hl) as (-> & Hlive1 & Hs1). destruct Hs1 as (Hi1 & Hr1 & Hcp1 & _).
  setoid_rewrite (run_bind _ _ _ _ _ H1).
  destruct (readbuf_input_run c1 SVN_RA_SVN__READBUF_SIZE Hlive1) as
    (c2 & Hl2 & Hr2 & Ho2 & Hcp2 & Hw2 & [(Hinc & H2 & Hinc2)|(data & H2 & Hd & _ & Hcat)]).
  { unfold SVN_RA_SVN__READBUF_SIZE. lia. }
  - exists c2. split_and!; [|congruence|].
    + split; [done| |congruence|congruence]. unfold unread. rewrite Hinc2, Hr2, Hr1, Hr, <- Hi1, Hinc. done.
    + left. unfold unread. rewrite Hr, <- Hi1, Hinc. split; [done|]. by rewrite (run_bind_error _ _ _ _ _ H2).
  - exists (set_read_buf c2 data). split_and!; [| |].
    + split; [by destruct Hl2|..].
      * unfold unread. cbn [read_buf incoming set_read_buf]. by rewrite <- Hcat, Hi1, Hr.
      * change (output c2 = output c). congruence.
      * change (capabilities c2 = capabilities c). congruence.
    + change (write_buf c2 = []). congruence.
    + right. by rewrite (run_bind _ _ _ _ _ H2).
Qed.

(** ** Single characters *)

Lemma readbuf_getchar_run c :
  live c →
  match unread c with
  | [] => ∃ c', readbuf_getchar c = (c', Error SVN_ERR_RA_SVN_CONNECTION_CLOSED) ∧ after c c' []
  | ch :: rest => ∃ c', readbuf_getchar c = (c', Ok ch) ∧ after c c' rest
  end.
Proof.
  intros Hl. unfold readbuf_getchar.
  assert (∀ c2, live c2 → read_buf c2 ≠ [] → ∃ ch rest c3, unread c2 = ch :: rest ∧ after c2 c3 rest
    ∧ readbuf_next c2 = (c3, Ok ch)) as Htake.
  { intros c2 Hl2 Hne. destruct (read_buf c2) as [|ch rest] eqn:Hrb; [done|].
    exists ch, (rest ++ concat (incoming c2)), (set_read_buf c2 rest). split_and!.
    - unfold unread. by rewrite Hrb.
    - split; [by destruct Hl2|done..].
    - unfold readbuf_next. by rewrite Hrb. }
  assert (readbuf_getchar c = ((if (length (read_buf c) =? 0)%nat then readbuf_fill else mret ());; readbuf_next) c)
    as Hg by done. unfold readbuf_getchar in Hg. rewrite Hg. clear Hg.
  destruct (read_buf c) as [|b l] eqn:Hrb; cbn [length Nat.eqb].
  - destruct (readbuf_fill_run c Hl Hrb) as (c2 & Ha & _ & [(Hu & Hf)|(Hf & Hne)]).
    + rewrite Hu in Ha |- *. exists c2. by rewrite (run_bind_error _ _ _ _ _ Hf).
    + destruct (Htake c2 (after_live _ _ _ Ha) Hne) as (ch & rest & c3 & Hu & Ha3 & Hrun).
      rewrite <- (after_unread _ _ _ Ha), Hu. exists c3. rewrite (run_bind _ _ _ _ _ Hf).
      split; [done|by eapply after_trans].
  - destruct (Htake c Hl) as (ch & rest & c3 & Hu & Ha3 & Hrun); [by rewrite Hrb|].
    rewrite Hu. by exists c3.
Qed.

(** ** Counted bytes *)

Lemma readbuf_drain_run c len :
  live c → let n := Nat.min (length (read_buf c)) len in
  readbuf_drain len c = (set_read_buf c (drop n (read_buf c)), Ok (take n (read_buf c)))
  ∧ after c (set_read_buf c (drop n (read_buf c))) (drop n (unread c))
  ∧ take n (read_buf c) = take n (unread c).
Proof.
  intros Hl n. split_and!; [done| |].
  - split; [by destruct Hl| |done|done]. unfold unread. cbn [read_buf incoming set_read_buf].
    rewrite drop_app_le; [done|lia].
  - unfold unread. rewrite take_app_le; [done|lia].
Qed.

(** The result of a loop that is to add [len] bytes to [data]. *)
Definition read_outcome c data len (c' : svn_ra_svn_conn_t) (r : result (list byte)) : Prop :=
  ((len <= length (unread c))%nat ∧ r = Ok (data ++ take len (unread c)) ∧ after c c' (drop len (unread c)))
  ∨ ((length (unread c) < len)%nat ∧ r = Error SVN_ERR_RA_SVN_CONNECTION_CLOSED ∧ after c c' []).

Lemma read_outcome_step c c1 data more len n c' r :
  after c c1 (drop n (unread c)) → more = take n (unread c) → (n <= len)%nat → (n <= length (unread c))%nat →
  read_outcome c1 (data ++ more) (len - n) c' r → read_outcome c data len c' r.
Proof.
  intros Ha -> Hn Hn' [(Hle & -> & Ha')|(Hlt & -> & Ha')];
    rewrite (after_unread _ _ _ Ha) in *; rewrite length_drop in *.
  - left. split_and!; [lia| |].
    + rewrite <- app_assoc. do 2 f_equal. rewrite <- (take_drop n (take len (unread c))).
      rewrite take_take, Nat.min_l by lia. f_equal. rewrite skipn_firstn_comm. done.
    + rewrite drop_drop in Ha'. replace (n + (len - n))%nat with len in Ha' by lia. by eapply after_trans.
  - right. split_and!; [lia|done|by eapply after_trans].
Qed.

Lemma fill_loop_run fuel c data len :
  live c → read_buf c = [] ∨ len = O → (len <= fuel)%nat →
  ∃ c' r, drain_loop fuel data len c = (c', r) ∧ read_outcome c data len c' r.
Proof.
  revert c data len. induction fuel as [|fuel IH]; intros c data len Hl Hrb Hf.
  { assert (len = O) as -> by lia. exists c, (Ok data). split; [done|]. left. rewrite app_nil_r.
    split_and!; [lia|done|by apply after_refl]. }
  destruct (decide (len = O)) as [->|Hlen].
  { exists c, (Ok data). split; [done|]. left. rewrite app_nil_r.
    split_and!; [lia|done|by apply after_refl]. }
  destruct Hrb as [Hrb|]; [|done]. cbn [drain_loop].
  assert ((0 <? len)%nat = true) as -> by (apply Nat.ltb_lt; lia).
  destruct (readbuf_fill_run c Hl Hrb) as (c1 & Ha & _ & [(Hu & H1)|(H1 & Hne)]).
  { rewrite (run_bind_error _ _ _ _ _ H1). eexists _, _. split; [done|]. right. rewrite Hu in *. cbn.
    split_and!; [lia|done|done]. }
  rewrite (run_bind _ _ _ _ _ H1).
  destruct (readbuf_drain_run c1 len (after_live _ _ _ Ha)) as (H2 & Ha2 & Htk).
  rewrite (run_bind _ _ _ _ _ H2). set (n := Nat.min (length (read_buf c1)) len) in *.
  assert (length (read_buf c1) <> O) by (by destruct (read_buf c1)). assert (n <> O) by (unfold n; lia).
  assert (length (take n (read_buf c1)) = n) as Hn by (rewrite length_take; lia). rewrite Hn.
  destruct (IH (set_read_buf c1 (drop n (read_buf c1))) (data ++ take n (read_buf c1)) (len - n)%nat)
    as (c' & r & Hrun & Hout).
  - apply Ha2.
  - cbn [read_buf set_read_buf]. unfold n. destruct (Nat.le_gt_cases (length (read_buf c1)) len).
    + left. rewrite Nat.min_l by done. apply drop_all.
    + right. rewrite Nat.min_r by lia. lia.
  - lia.
  - exists c', r. split; [done|]. rewrite (after_unread _ _ _ Ha) in *.
    eapply read_outcome_step; [by eapply after_trans|done|lia| |done].
    rewrite <- (after_unread _ _ _ Ha). unfold unread, n. rewrite length_app. lia.
Qed.

Lemma direct_loop_run fuel c data len :
  live c → read_buf c = [] ∨ len = O → (len <= fuel)%nat →
  ∃ c' r, direct_loop fuel data len c = (c', r)
  ∧ match r with
    | Ok (data', len') => (read_buf c' = [] ∨ len' = O) ∧ (len' <= len)%nat ∧ live c'
        ∧ ∀ c2 r2, read_outcome c' data' len' c2 r2 → read_outcome c data len c2 r2
    | Error e => read_outcome c data len c' (Error e)
    | _ => False
    end.
Proof.
  revert c data len. induction fuel as [|fuel IH]; intros c data len Hl Hrb Hf.
  { exists c, (Ok (data, len)). split; [|done]. assert (len = O) as -> by lia. done. }
  cbn [direct_loop]. destruct (Nat.ltb_spec SVN_RA_SVN__READBUF_SIZE len) as [Hlt|Hge].
  2:{ by exists c, (Ok (data, len)). }
  destruct Hrb as [Hrb|]; [|lia].
  destruct (writebuf_flush_run c) as (c1 & r1 & H1 & Hw1 & Ho1 & Hl1).
  destruct (Hl1 Hl) as (-> & Hlive1 & Hs1). rewrite (run_bind _ _ _ _ _ H1).
  destruct (readbuf_input_run c1 len Hlive1) as
    (c2 & Hl2 & Hr2 & Ho2 & Hcp2 & Hw2 & [(Hinc & H2 & Hinc2)|(more & H2 & Hd & Hle & Hcat)]); [lia|..];
    destruct Hs1 as (Hi1 & Hr1 & Hcp1 & _).
  - rewrite (run_bind_error _ _ _ _ _ H2). eexists _, _. split; [done|].
    assert (unread c = []) as Hu by (unfold unread; by rewrite Hrb, <- Hi1, Hinc).
    right. rewrite Hu. split_and!; [cbn; lia|done|]. split; [done| |congruence|congruence].
    unfold unread. rewrite Hr2, Hr1, Hrb, Hinc2. done.
  - rewrite (run_bind _ _ _ _ _ H2).
    assert (length more <> O) by (by destruct more).
    assert (unread c = more ++ unread c2) as Hu.
    { unfold unread. rewrite Hr2, Hr1, Hrb, <- Hi1. done. }
    assert (after c c2 (drop (length more) (unread c))) as Ha.
    { split; [done| |congruence|congruence]. by rewrite Hu, drop_app_length. }
    assert (more = take (length more) (unread c)) as Hm by by rewrite Hu, take_app_length.
    assert (length more <= length (unread c))%nat as Hml by (rewrite Hu, length_app; lia).
    destruct (IH c2 (data ++ more) (len - length more)%nat) as (c' & r & Hrun & Hr); [done|left; congruence|lia|].
    exists c', r. split; [done|]. destruct r as [[data' len']|e| | |]; try done.
    + destruct Hr as (? & ? & ? & Hout). split_and!; [done|lia|done|]. intros c3 r3 Hc3.
      by eapply read_outcome_step; [done|done|done|done|apply Hout].
    + by eapply read_outcome_step.
Qed.

(** All of the bytes, or the connection is closed. *)
Lemma readbuf_read_run c len :
  live c → ∃ c' r, readbuf_read len c = (c', r) ∧ read_outcome c [] len c' r.
Proof.
  intros Hl. unfold readbuf_read. destruct (readbuf_drain_run c len Hl) as (H1 & Ha & Htk).
  setoid_rewrite (run_bind _ _ _ _ _ H1). set (n := Nat.min (length (read_buf c)) len) in *.
  set (c1 := set_read_buf c (drop n (read_buf c))) in *.
  assert (length (take n (read_buf c)) = n) as Hn by (rewrite length_take; lia). rewrite Hn.
  assert (n <= length (unread c))%nat as Hnu by (unfold unread, n; rewrite length_app; lia).
  destruct (direct_loop_run len c1 (take n (read_buf c)) (len - n)) as (c2 & r2 & H2 & Hr2).
  { apply Ha. }
  { cbn [read_buf set_read_buf c1]. unfold n. destruct (Nat.le_gt_cases (length (read_buf c)) len).
    - left. rewrite Nat.min_l by done. apply drop_all.
    - right. rewrite Nat.min_r by lia. lia. }
  { lia. }
  destruct r2 as [[data2 len2]|e| | |]; try done.
  - setoid_rewrite (run_bind _ _ _ _ _ H2). destruct Hr2 as (Hrb & Hle & Hl2 & Hout).
    destruct (fill_loop_run len c2 data2 len2 Hl2 Hrb) as (c3 & r3 & H3 & Hr3); [lia|].
    exists c3, r3. split; [done|]. eapply read_outcome_step; [done|done|lia|done|]. cbn. by apply Hout.
  - setoid_rewrite (run_bind_error _ _ _ _ _ H2). eexists _, _. split; [done|].
    eapply read_outcome_step; [done|done|lia|done|]. done.
Qed.

End Reading.

(** ** Leading garbage *)

Lemma garbage_scan_app lparen data1 data2 :
  garbage_scan lparen (data1 ++ data2)
  = match garbage_scan lparen data1 with
    | inl p => inl (p ++ data2)
    | inr lparen => garbage_scan lparen data2
    end.
Proof.
  revert lparen. induction data1 as [|ch data1 IH]; intros lparen; [done|]. cbn.
  destruct (lparen && svn_iswhitespace ch); [done|apply IH].
Qed.

Lemma garbage_loop_run fuel lparen c :
  live c → read_buf c = [] → (length (unread c) < fuel)%nat →
  ∃ c' r, garbage_loop fuel lparen c = (c', r) ∧ live c' ∧ output c' = output c ∧ capabilities c' = capabilities c
  ∧ read_buf c' = []
  ∧ match garbage_scan lparen (unread c) with
    | inl p => ∃ p1, r = Ok p1 ∧ p = p1 ++ unread c'
    | inr _ => r = Error SVN_ERR_RA_SVN_CONNECTION_CLOSED ∧ unread c' = []
    end.
Proof.
  revert lparen c. induction fuel as [|fuel IH]; intros lparen c Hl Hr Hf; [lia|]. cbn [garbage_loop].
  destruct (readbuf_input_run c 256 Hl ltac:(lia)) as
    (c1 & Hl1 & Hr1 & Ho1 & Hcp1 & Hw1 & [(Hi & H1 & Hi1)|(data & H1 & Hd & _ & Hcat)]).
  - rewrite (run_bind_error _ _ _ _ _ H1). eexists _, _. split_and!; [done|done|done|done|congruence|].
    unfold unread. rewrite Hr, Hi, Hr1, Hr, Hi1. done.
  - rewrite (run_bind _ _ _ _ _ H1). rewrite Hr in Hr1.
    assert (unread c = data ++ unread c1) as Hu by (unfold unread; by rewrite Hr, Hr1).
    assert (length data <> O) by (by destruct data).
    rewrite Hu, garbage_scan_app. destruct (garbage_scan lparen data) as [p|lparen'].
    + eexists _, _. split_and!; [done|done|done|done|done|]. by eexists.
    + destruct (IH lparen' c1 Hl1 Hr1) as (c2 & r2 & H2 & Hl2 & Ho2 & Hcp2 & Hr2 & Hres).
      { rewrite Hu, length_app in Hf. lia. }
      exists c2, r2. split_and!; [done|done|congruence|congruence|done|done].
Qed.

(** What comes before the first left parenthesis that is followed by
    whitespace is skipped, however the bytes arrive, and the connection
    continues at that parenthesis; without one the connection ends as
    closed. *)
Theorem svn_ra_svn_skip_leading_garbage_spec c :
  live c → read_buf c = [] →
  ∃ c' r, svn_ra_svn_skip_leading_garbage c = (c', r) ∧ live c'
  ∧ match garbage_scan false (unread c) with
    | inl p => r = Ok () ∧ unread c' = "("%byte :: p
        ∧ ∃ garbage w rest, unread c = garbage ++ "("%byte :: p ∧ p = w :: rest ∧ svn_iswhitespace w = true
    | inr _ => r = Error SVN_ERR_RA_SVN_CONNECTION_CLOSED
    end.
Proof.
  intros Hl Hr. unfold svn_ra_svn_skip_leading_garbage, readbuf_skip_leading_garbage.
  setoid_rewrite run_gets. rewrite Hr. cbn [length Nat.eqb].
  assert (∀ m : M (), (ensure true;; m) c = m c) as He by done. setoid_rewrite He. setoid_rewrite run_gets.
  destruct (garbage_loop_run (S (length (unread c))) false c Hl Hr ltac:(lia))
    as (c1 & r1 & H1 & Hl1 & Ho1 & Hcp1 & Hr1 & Hres).
  destruct (garbage_scan false (unread c)) as [p|lparen] eqn:Hscan.
  - destruct Hres as (p1 & -> & Hp). setoid_rewrite (run_bind _ _ _ _ _ H1).
    eexists _, _. split; [done|]. split; [by destruct Hl1|]. split; [done|]. split.
    + unfold unread in Hp |- *. rewrite Hr1 in Hp. cbn. by rewrite Hp.
    + clear - Hscan. assert (∀ lp data, garbage_scan lp data = inl p →
        ∃ w rest, p = w :: rest ∧ svn_iswhitespace w = true
        ∧ ((lp = true ∧ data = p) ∨ ∃ garbage, data = garbage ++ "("%byte :: p)) as Hgen.
      { intros lp data. revert lp. induction data as [|ch data IH]; intros lp; [done|]. cbn.
        destruct (lp && svn_iswhitespace ch) eqn:Hc.
        - intros [= <-]. apply andb_prop in Hc as [-> Hw]. exists ch, data. split_and!; [done|done|by left].
        - intros Hs. destruct (IH _ Hs) as (w & rest & -> & Hw & Hd). exists w, rest. split_and!; [done|done|]. right.
          destruct Hd as [[Hlp ->]|[garbage ->]].
          + apply byte_eqb_eq in Hlp as ->. by exists [].
          + by exists (ch :: garbage). }
      destruct (Hgen _ _ Hscan) as (w & rest & Hp & Hw & [[? _]|[garbage Hg]]); [done|].
      by exists garbage, w, rest.
  - destruct Hres as [-> _]. rewrite (run_bind_error _ _ _ _ _ H1). by eexists _, _.
Qed.

(** The output of a start-up file before the greeting. *)
Lemma svn_ra_svn_skip_leading_garbage_spec_witness :
  let c := svn_ra_svn_create_conn2 [bytes_of "Last login (today)("; bytes_of " success ( ) ) "] [] in
  ∃ c' r, svn_ra_svn_skip_leading_garbage c = (c', r) ∧ live c'
  ∧ match garbage_scan false (unread c) with
    | inl p => r = Ok () ∧ unread c' = "("%byte :: p
        ∧ ∃ garbage w rest, unread c = garbage ++ "("%byte :: p ∧ p = w :: rest ∧ svn_iswhitespace w = true
    | inr _ => r = Error SVN_ERR_RA_SVN_CONNECTION_CLOSED
    end.
Proof.
  apply (svn_ra_svn_skip_leading_garbage_spec
    (svn_ra_svn_create_conn2 [bytes_of "Last login (today)("; bytes_of " success ( ) ) "] [])).
  - split; [cbn [write_buf svn_ra_svn_create_conn2 length]; lia|by repeat constructor|done|done].
  - reflexivity.
Defined.

(** ** Reading with nothing to write

    When the write buffer is empty the readers do not touch the writing side, on
    any connection: they take bytes from the input when they return, and are
    never undefined.  So a block handler may read items. *)

Implicit Types (it : svn_ra_svn_item_t).

Definition same_writing c c' : Prop :=
  write_buf c' = write_buf c ∧ sent c' = sent c ∧ accepts c' = accepts c.

#[global] Instance same_writing_refl : Reflexive same_writing.
Proof. by intros c. Qed.
#[global] Instance same_writing_trans : Transitive same_writing.
Proof. intros c1 c2 c3 (H1 & H2 & H3) (H4 & H5 & H6). split_and!; congruence. Qed.

(** At least [n] bytes are read by a call that returns, and its result has [Q]. *)
Definition drains_to {A} c (m : M A) (n : nat) (Q : A → Prop) : Prop :=
  ∃ c' r, m c = (c', r) ∧ same_writing c c'
  ∧ match r with
    | Ok a => (length (unread c') + n <= length (unread c))%nat ∧ Q a
    | Error _ | Aborted => True
    | Undefined | OutOfFuel => False
    end.

Notation drains_at c m n := (drains_to c m n (λ _, True)).

Lemma drains_ret {A} c (a : A) (Q : A → Prop) : Q a → drains_to c (mret a) 0 Q.
Proof. intros Hq. exists c, (Ok a). split_and!; [done|done|lia|done]. Qed.

Lemma drains_throw {A} c e n (Q : A → Prop) : drains_to c (throw e) n Q.
Proof. by eexists c, _. Qed.

Lemma drains_weaken {A} c (m : M A) n n' (Q : A → Prop) : drains_to c m n Q → (n' <= n)%nat → drains_to c m n' Q.
Proof.
  intros (c' & r & Hm & Hs & Hr) Hn. exists c', r. split_and!; [done|done|]. destruct r; try done.
  destruct Hr. split; [lia|done].
Qed.

Lemma drains_bind {A B} c (m : M A) (k : A → M B) n1 n2 n (Q1 : A → Prop) (Q : B → Prop) :
  write_buf c = [] → drains_to c m n1 Q1 →
  (∀ c' a, write_buf c' = [] → (length (unread c') + n1 <= length (unread c))%nat → Q1 a → drains_to c' (k a) n2 Q) →
  (n <= n1 + n2)%nat → drains_to c (m ≫= k) n Q.
Proof.
  intros Hw (c1 & r1 & Hm & Hs1 & Hr1) Hk Hn. destruct r1 as [a|e| | |]; try done.
  - destruct Hr1 as [Hr1 HQ1]. destruct (Hk c1 a) as (c2 & r2 & Hk2 & Hs2 & Hr2); [|done|done|].
    { destruct Hs1 as (-> & _). done. }
    exists c2, r2. rewrite (run_bind _ _ _ _ _ Hm). split_and!; [done|by etrans|].
    destruct r2; try done. destruct Hr2. split; [lia|done].
  - exists c1, (Error e). rewrite (run_bind_error _ _ _ _ _ Hm). by split_and!.
  - exists c1, Aborted. rewrite (run_bind_aborted _ _ _ _ Hm). by split_and!.
Qed.

Lemma drains_size {B} c (k : nat → M B) n (Q : B → Prop) :
  drains_to c (k (length (unread c))) n Q → drains_to c (size ← gets (λ c, length (unread c)); k size) n Q.
Proof. done. Qed.

Section Blocked.
Context `{BH : BlockHandler}.

(** ** The transport *)

Lemma flush_nothing c : write_buf c = [] → writebuf_flush c = (c, Ok ()).
Proof.
  intros Hw. unfold writebuf_flush, writebuf_output. rewrite run_gets, run_modify, run_gets, Hw.
  assert (set_write_buf c [] = c) as -> by (destruct c; cbn in Hw; by subst). by destruct (length [] + _)%nat.
Qed.

Lemma stream_read_run c len :
  svn_ra_svn__stream_read len c = (c, Error SVN_ERR_RA_SVN_CONNECTION_CLOSED)
  ∨ ∃ data segments, svn_ra_svn__stream_read len c = (set_incoming c segments, Ok data) ∧ data ≠ []
    ∧ (length data <= len)%nat ∧ concat (incoming c) = data ++ concat segments.
Proof.
  unfold svn_ra_svn__stream_read. destruct (incoming c) as [|segment rest] eqn:Hi; [by left|].
  destruct (take len segment) as [|b data] eqn:Ht; [by left|]. right. eexists _, _. split_and!; [done|done| |].
  - rewrite <- Ht, length_take. lia.
  - rewrite <- Ht. cbn. rewrite <- (take_drop len segment) at 1. rewrite <- app_assoc. f_equal. by destruct (drop len segment).
Qed.

Lemma readbuf_input_any c len :
  ∃ c' r, readbuf_input len c = (c', r) ∧ same_writing c c' ∧ read_buf c' = read_buf c
  ∧ match r with
    | Ok data => data ≠ [] ∧ (length data <= len)%nat ∧ concat (incoming c) = data ++ concat (incoming c')
    | Error _ => True
    | _ => False
    end.
Proof.
  unfold readbuf_input. destruct (cancel_func_run c) as (sess & r & Hcf & [->| ->] & _).
  2:{ rewrite (run_bind_error _ _ _ _ _ Hcf). by eexists _, _. }
  rewrite (run_bind _ _ _ _ _ Hcf). set (c1 := set_session c sess).
  destruct (stream_read_run c1 len) as [Hs|(data & segments & Hs & Hd & Hl & Hcat)].
  { rewrite (run_bind_error _ _ _ _ _ Hs). by eexists _, _. }
  rewrite (run_bind _ _ _ _ _ Hs).
  assert ((length data =? 0)%nat = false) as -> by (apply Nat.eqb_neq; by destruct data).
  destruct (count_bytes_run (set_incoming c1 segments) (length data) 0) as (sess2 & Hc & _).
  rewrite (run_bind _ _ _ _ _ Hc). eexists _, _. by split_and!.
Qed.

Lemma readbuf_fill_any c :
  write_buf c = [] → read_buf c = [] →
  ∃ c' r, readbuf_fill c = (c', r) ∧ same_writing c c'
  ∧ match r with
    | Ok _ => read_buf c' ≠ [] ∧ unread c' = unread c
    | Error _ => True
    | _ => False
    end.
Proof.
  intros Hw Hr. unfold readbuf_fill. rewrite run_gets, Hr. cbn [length Nat.eqb].
  assert (∀ m : M (), (ensure true;; m) c = m c) as He by done. rewrite He.
  rewrite (run_bind _ _ _ _ _ (flush_nothing c Hw)).
  destruct (readbuf_input_any c SVN_RA_SVN__READBUF_SIZE) as (c1 & r1 & H1 & Hs1 & Hr1 & Hres).
  destruct r1 as [data|e| | |]; try done.
  - rewrite (run_bind _ _ _ _ _ H1). exists (set_read_buf c1 data), (Ok ()). destruct Hres as (Hd & _ & Hcat).
    split_and!; [done|done|done|]. unfold unread. cbn [read_buf incoming set_read_buf]. by rewrite <- Hcat, Hr.
  - rewrite (run_bind_error _ _ _ _ _ H1). by eexists _, _.
Qed.

Lemma getchar_drains c : write_buf c = [] → drains_at c readbuf_getchar 1.
Proof.
  intros Hw. assert (∀ c2, read_buf c2 ≠ [] → drains_at c2 readbuf_next 1) as Hnext.
  { intros c2 Hne. unfold drains_to, readbuf_next. destruct (read_buf c2) as [|ch rest] eqn:Hr; [done|].
    exists (set_read_buf c2 rest), (Ok ch). split_and!; [done|done| |done]. unfold unread. cbn [read_buf incoming set_read_buf]. rewrite Hr. cbn. lia. }
  assert (readbuf_getchar c = ((if (length (read_buf c) =? 0)%nat then readbuf_fill else mret ());; readbuf_next) c) as Hg by done.
  unfold drains_to. rewrite Hg. destruct (read_buf c) as [|b l] eqn:Hr; cbn [length Nat.eqb].
  - destruct (readbuf_fill_any c Hw Hr) as (c1 & r1 & H1 & Hs1 & Hres). destruct r1 as [[]|e| | |]; try done.
    + rewrite (run_bind _ _ _ _ _ H1). destruct Hres as [Hne Hu]. destruct (Hnext c1 Hne) as (c2 & r2 & H2 & Hs2 & Hr2).
      exists c2, r2. rewrite Hu in Hr2. split_and!; [done|by etrans|done].
    + rewrite (run_bind_error _ _ _ _ _ H1). by eexists _, _.
  - apply Hnext. by rewrite Hr.
Qed.

(** ** Counted bytes *)

Lemma drain_any c len :
  let n := Nat.min (length (read_buf c)) len in
  readbuf_drain len c = (set_read_buf c (drop n (read_buf c)), Ok (take n (read_buf c)))
  ∧ (length (unread (set_read_buf c (drop n (read_buf c)))) + n = length (unread c))%nat.
Proof.
  intros n. split; [done|]. unfold unread. cbn [read_buf incoming set_read_buf].
  rewrite !length_app, length_drop. lia.
Qed.

Lemma fill_loop_any fuel c data len :
  write_buf c = [] → read_buf c = [] ∨ len = O → (len <= fuel)%nat → drains_at c (drain_loop fuel data len) len.
Proof.
  revert c data len. induction fuel as [|fuel IH]; intros c data len Hw Hrb Hf; cbn [drain_loop].
  { assert (len = O) as -> by lia. by apply drains_ret. }
  destruct (Nat.ltb_spec 0 len) as [Hpos|Hz]; [|assert (len = O) as -> by lia; apply drains_ret].
  destruct Hrb as [Hrb|]; [|lia]. unfold drains_to.
  destruct (readbuf_fill_any c Hw Hrb) as (c1 & r1 & H1 & Hs1 & Hres). destruct r1 as [[]|e| | |]; try done.
  2:{ rewrite (run_bind_error _ _ _ _ _ H1). by eexists _, _. }
  rewrite (run_bind _ _ _ _ _ H1). destruct Hres as [Hne Hu].
  destruct (drain_any c1 len) as [H2 Hlen]. set (n := Nat.min (length (read_buf c1)) len) in *.
  rewrite (run_bind _ _ _ _ _ H2).
  assert (length (read_buf c1) <> O) by (by destruct (read_buf c1)). assert (n <> O) by (unfold n; lia).
  assert (length (take n (read_buf c1)) = n) as Hn by (rewrite length_take; lia). rewrite Hn.
  set (c2 := set_read_buf c1 (drop n (read_buf c1))) in *.
  destruct (IH c2 (data ++ take n (read_buf c1)) (len - n)%nat) as (c3 & r3 & H3 & Hs3 & Hr3).
  - destruct Hs1 as (Hw1 & _). unfold c2. cbn. congruence.
  - unfold c2. cbn [read_buf set_read_buf]. unfold n. destruct (Nat.le_gt_cases (length (read_buf c1)) len).
    + left. rewrite Nat.min_l by done. apply drop_all.
    + right. rewrite Nat.min_r by lia. lia.
  - lia.
  - exists c3, r3. split_and!; [done|etrans; [done|]; etrans; [|done]; done|]. destruct r3; try done. rewrite Hu in Hlen. split; [lia|done].
  - done.
Qed.

Lemma direct_loop_any fuel c data len :
  write_buf c = [] → read_buf c = [] ∨ len = O → (len <= fuel)%nat →
  ∃ c' r, direct_loop fuel data len c = (c', r) ∧ same_writing c c'
  ∧ match r with
    | Ok (data', len') => (read_buf c' = [] ∨ len' = O) ∧ (len' <= len)%nat
        ∧ (length (unread c') + len <= length (unread c) + len')%nat
    | Error _ => True
    | _ => False
    end.
Proof.
  revert c data len. induction fuel as [|fuel IH]; intros c data len Hw Hrb Hf; cbn [direct_loop];
    destruct (Nat.ltb_spec SVN_RA_SVN__READBUF_SIZE len) as [Hlt|Hge]; try lia;
    try (by exists c, (Ok (data, len)); split_and!; [done|done|done|lia|lia]).
  destruct Hrb as [Hrb|]; [|lia]. rewrite (run_bind _ _ _ _ _ (flush_nothing c Hw)).
  destruct (readbuf_input_any c len) as (c1 & r1 & H1 & Hs1 & Hr1 & Hres). destruct r1 as [more|e| | |]; try done.
  2:{ rewrite (run_bind_error _ _ _ _ _ H1). by eexists _, _. }
  rewrite (run_bind _ _ _ _ _ H1). destruct Hres as (Hd & Hl & Hcat).
  assert (length more <> O) by (by destruct more).
  assert (length (unread c) = length more + length (unread c1))%nat as Hu.
  { unfold unread. rewrite Hrb, Hr1, Hrb, Hcat. cbn. by rewrite length_app. }
  destruct (IH c1 (data ++ more) (len - length more)%nat) as (c2 & r2 & H2 & Hs2 & Hr2).
  - destruct Hs1 as (-> & _). done.
  - left. congruence.
  - lia.
  - exists c2, r2. split_and!; [done|by etrans|]. destruct r2 as [[data' len']|e| | |]; try done.
    destruct Hr2 as (? & ? & ?). split_and!; [done|lia|lia].
Qed.

Lemma readbuf_read_drains c len : write_buf c = [] → drains_at c (readbuf_read len) len.
Proof.
  intros Hw. unfold drains_to, readbuf_read. destruct (drain_any c len) as [H1 Hlen].
  set (n := Nat.min (length (read_buf c)) len) in *. setoid_rewrite (run_bind _ _ _ _ _ H1).
  assert (length (take n (read_buf c)) = n) as Hn by (rewrite length_take; lia). rewrite Hn.
  set (c1 := set_read_buf c (drop n (read_buf c))) in *.
  destruct (direct_loop_any len c1 (take n (read_buf c)) (len - n)) as (c2 & r2 & H2 & Hs2 & Hr2).
  { done. }
  { unfold c1. cbn [read_buf set_read_buf]. unfold n. destruct (Nat.le_gt_cases (length (read_buf c)) len).
    - left. rewrite Nat.min_l by done. apply drop_all.
    - right. rewrite Nat.min_r by lia. lia. }
  { lia. }
  destruct r2 as [[data2 len2]|e| | |]; try done.
  2:{ setoid_rewrite (run_bind_error _ _ _ _ _ H2). by eexists _, _. }
  setoid_rewrite (run_bind _ _ _ _ _ H2). destruct Hr2 as (Hrb & Hle & Hu).
  destruct (fill_loop_any len c2 data2 len2) as (c3 & r3 & H3 & Hs3 & Hr3); [|done|lia|].
  { destruct Hs2 as (-> & _). done. }
  exists c3, r3. split_and!; [done| |].
  - etrans; [|done]. etrans; [|done]. done.
  - destruct r3; try done. split; [lia|done].
Qed.

(** ** Items *)

Ltac drains_lia := cbn [length] in *; lia.

Lemma skip_loop_drains fuel c :
  write_buf c = [] → (length (unread c) < fuel)%nat →
  drains_to c (skip_loop fuel) 1 (λ ch, svn_iswhitespace ch = false).
Proof.
  revert c. induction fuel as [|fuel IH]; intros c Hw Hf; [lia|]. cbn [skip_loop].
  eapply (drains_bind _ _ _ 1 0); [done|by apply getchar_drains| |lia]. intros c1 ch Hw1 Hu _.
  destruct (svn_iswhitespace ch) eqn:Hs; [|by apply drains_ret]. eapply drains_weaken; [apply IH; [done|lia]|lia].
Qed.

Lemma skip_whitespace_drains c :
  write_buf c = [] → drains_to c readbuf_getchar_skip_whitespace 1 (λ ch, svn_iswhitespace ch = false).
Proof. intros Hw. apply skip_loop_drains; [done|]. lia. Qed.

Lemma read_digits_drains fuel c val :
  write_buf c = [] → (length (unread c) < fuel)%nat → drains_at c (read_digits fuel val) 0.
Proof.
  revert c val. induction fuel as [|fuel IH]; intros c val Hw Hf; [lia|]. cbn [read_digits].
  eapply (drains_bind _ _ _ 1 0); [done|by apply getchar_drains| |lia]. intros c1 ch Hw1 Hu _.
  destruct (negb _); [by apply drains_ret|]. cbn zeta. destruct (_ && _); [apply drains_throw|]. apply IH; [done|lia].
Qed.

Lemma read_word_drains fuel c str :
  write_buf c = [] → (length (unread c) < fuel)%nat → drains_at c (word_loop fuel str) 0.
Proof.
  revert c str. induction fuel as [|fuel IH]; intros c str Hw Hf; [lia|]. cbn [word_loop].
  eapply (drains_bind _ _ _ 1 0); [done|by apply getchar_drains| |lia]. intros c1 ch Hw1 Hu _.
  destruct (_ && _); [by apply drains_ret|]. apply IH; [done|lia].
Qed.

Lemma string_loop_drains fuel c str len64 :
  write_buf c = [] → (length (unread c) < fuel)%nat → drains_at c (string_loop fuel str len64) 0.
Proof.
  revert c str len64. induction fuel as [|fuel IH]; intros c str len64 Hw Hf; [lia|]. cbn [string_loop].
  destruct (Z.ltb_spec 0 (chunk_len len64)) as [Hpos|Hnp]; [|by apply drains_ret].
  eapply (drains_bind _ _ _ 1 0); [done| | |lia].
  - eapply drains_weaken; [by apply readbuf_read_drains|lia].
  - intros c1 data Hw1 Hu _. cbn zeta. destruct (_ =? 0); [by apply drains_ret|]. apply IH; [done|lia].
Qed.

Lemma read_string_drains c len64 : write_buf c = [] → drains_at c (read_string len64) 0.
Proof.
  intros Hw. unfold read_string. destruct (_ <? _); [apply drains_throw|]. apply drains_size.
  eapply (drains_bind _ _ _ 0 0); [done|apply string_loop_drains; [done|lia]| |lia].
  intros c1 s Hw1 Hu _. by apply drains_ret.
Qed.

Lemma number_or_string_drains c val :
  write_buf c = [] →
  drains_to c
    ('(val, ch) ← read_digits (S (length (unread c))) val;
     if ch =b? ":"%byte then item ← read_string val; ch ← readbuf_getchar; mret (Some item, ch)
     else mret (Some (SVN_RA_SVN_NUMBER val), ch)) 0 (λ '(item, ch), item ≠ None).
Proof.
  intros Hw. eapply (drains_bind _ _ _ 0 0); [done|apply read_digits_drains; [done|lia]| |lia].
  intros c1 [v ch] Hw1 Hu _. destruct (ch =b? ":"%byte); [|by apply drains_ret].
  eapply (drains_bind _ _ _ 0 0); [done|by apply read_string_drains| |lia]. intros c2 it Hw2 Hu2 _.
  eapply (drains_bind _ _ _ 1 0); [done|by apply getchar_drains| |lia]. intros c3 ch2 Hw3 Hu3 _.
  by apply drains_ret.
Qed.

Lemma read_item_drains_ind fuel :
  (∀ c (ch : byte) level, write_buf c = [] → svn_iswhitespace ch = false → (2 * length (unread c) + 2 <= fuel)%nat →
     drains_at c (read_item fuel ch level) 0)
  ∧ (∀ c level acc, write_buf c = [] → (2 * length (unread c) + 1 <= fuel)%nat →
     drains_at c (read_list fuel level acc) 0).
Proof.
  induction fuel as [|fuel [IHitem IHlist]]; [split; intros; lia|]. split.
  - intros c ch level Hw Hws Hf. cbn [read_item]. destruct (_ <=? _)%nat; [apply drains_throw|]. apply drains_size.
    eapply (drains_bind _ _ _ 0 0 _ (λ '(item, ch), svn_iswhitespace ch = true → item ≠ None)); [done| | |lia].
    + destruct (svn_ctype_isdigit ch); [|destruct (svn_ctype_isalpha ch); [|destruct (ch =b? "("%byte)]].
      * destruct (number_or_string_drains c (byte_val ch - byte_val "0") Hw) as (c' & r & H1 & Hs1 & Hr1).
        exists c', r. split_and!; [done|done|]. destruct r as [[item w]|?| | |]; try done.
        destruct Hr1. split; [done|]. by intros _.
      * eapply (drains_bind _ _ _ 0 0); [done|apply read_word_drains; [done|lia]| |lia].
        intros c1 [w ch2] Hw1 Hu _. by apply drains_ret.
      * eapply (drains_bind _ _ _ 0 0); [done|apply IHlist; [done|lia]| |lia]. intros c1 items Hw1 Hu _.
        eapply (drains_bind _ _ _ 1 0); [done|by apply getchar_drains| |lia]. intros c2 ch2 Hw2 Hu2 _.
        by apply drains_ret.
      * apply drains_ret. congruence.
    + intros c1 [item w] Hw1 Hu Hit. destruct (svn_iswhitespace w); cbn [negb]; [|apply drains_throw].
      destruct item; [by apply drains_ret|]. by destruct (Hit eq_refl).
  - intros c level acc Hw Hf. cbn [read_list].
    eapply (drains_bind _ _ _ 1 0); [done|by apply skip_whitespace_drains| |lia]. intros c1 ch Hw1 Hu Hws.
    destruct (ch =b? ")"%byte); [by apply drains_ret|].
    eapply (drains_bind _ _ _ 0 0); [done|apply IHitem; [done|done|lia]| |lia]. intros c2 it Hw2 Hu2 _.
    apply IHlist; [done|lia].
Qed.

Lemma svn_ra_svn_read_item_drains c : write_buf c = [] → drains_at c svn_ra_svn_read_item 1.
Proof.
  intros Hw. unfold svn_ra_svn_read_item.
  eapply (drains_bind _ _ _ 1 0); [done|by apply skip_whitespace_drains| |lia]. intros c1 ch Hw1 Hu Hws.
  apply drains_size. apply (proj1 (read_item_drains_ind _)); [done|done|lia].
Qed.

End Blocked.
