(* ===== verification/MarshalItems.v ===== *)
(** * The grammar of items

    The syntax of the data items, of which
    [src/subversion/libsvn_ra_svn/protocol] gives the canonical form, as a
    relation between items and their bytes, and the reader of [marshal.c] proved
    to accept exactly the items of this grammar that are nested less than 64
    levels deep.

    On any bytes, in any segments, [svn_ra_svn_read_item] of [marshal.c] returns:
    an item of the grammar that it has consumed, or an error.  And whatever it
    does depends on the bytes only. *)
From S2P Require Import Prelude Numbers Cstrings Marshal MarshalBuffers.

Implicit Types (bs ds rest s sp body : list byte) (c : svn_ra_svn_conn_t) (it : svn_ra_svn_item_t).

(** ** The grammar *)

Definition spaces sp : Prop := forallb svn_iswhitespace sp = true.
Definition digits ds : Prop := forallb svn_ctype_isdigit ds = true.
Definition word_char (ch : byte) : bool := svn_ctype_isalnum ch || (ch =b? "-"%byte).

Definition more_digits (val : Z) ds : Z := fold_left (λ v d, 10 * v + (byte_val d - 48)) ds val.

(** [wire d it s]: the bytes [s] are the item [it], with the whitespace
    character that ends it, and lists are nested at most [d] deep. *)
Inductive wire : nat → svn_ra_svn_item_t → list byte → Prop :=
  | wire_number d ds w :
      digits ds → ds ≠ [] → more_digits 0 ds <= APR_UINT64_MAX → svn_iswhitespace w = true →
      wire (S d) (SVN_RA_SVN_NUMBER (more_digits 0 ds)) (ds ++ [w])
  | wire_string d ds s w :
      digits ds → ds ≠ [] → more_digits 0 ds = Z.of_nat (length s) →
      Z.of_nat (length s) <= APR_UINT64_MAX → svn_iswhitespace w = true →
      wire (S d) (SVN_RA_SVN_STRING s) (ds ++ ":"%byte :: s ++ [w])
  | wire_word d ch s w :
      svn_ctype_isalpha ch = true → forallb word_char s = true → svn_iswhitespace w = true →
      wire (S d) (SVN_RA_SVN_WORD (ch :: s)) (ch :: s ++ [w])
  | wire_list d items body sp w :
      wires d items body → spaces sp → svn_iswhitespace w = true →
      wire (S d) (SVN_RA_SVN_LIST items) ("("%byte :: body ++ sp ++ [")"%byte; w])
with wires : nat → list svn_ra_svn_item_t → list byte → Prop :=
  | wires_nil d : wires d [] []
  | wires_cons d sp it s items body :
      spaces sp → wire d it s → wires d items body → wires d (it :: items) (sp ++ s ++ body).

Scheme wire_mut := Minimality for wire Sort Prop
  with wires_mut := Minimality for wires Sort Prop.
Combined Scheme wire_wires_ind from wire_mut, wires_mut.

(** The grammar of [src/subversion/libsvn_ra_svn/protocol]: every item ends with
    whitespace, and so does the parenthesis that opens a list.  It does not limit
    the depth of lists, nor numbers and lengths. *)
Definition gap sp : Prop := sp ≠ [] ∧ spaces sp.

Inductive documented : nat → svn_ra_svn_item_t → list byte → Prop :=
  | documented_number d ds sp :
      digits ds → ds ≠ [] → more_digits 0 ds <= APR_UINT64_MAX → gap sp →
      documented (S d) (SVN_RA_SVN_NUMBER (more_digits 0 ds)) (ds ++ sp)
  | documented_string d ds s sp :
      digits ds → ds ≠ [] → more_digits 0 ds = Z.of_nat (length s) →
      Z.of_nat (length s) <= APR_UINT64_MAX → gap sp →
      documented (S d) (SVN_RA_SVN_STRING s) (ds ++ ":"%byte :: s ++ sp)
  | documented_word d ch s sp :
      svn_ctype_isalpha ch = true → forallb word_char s = true → gap sp →
      documented (S d) (SVN_RA_SVN_WORD (ch :: s)) (ch :: s ++ sp)
  | documented_list d items body sp1 sp2 :
      gap sp1 → documented_items d items body → gap sp2 →
      documented (S d) (SVN_RA_SVN_LIST items) ("("%byte :: sp1 ++ body ++ ")"%byte :: sp2)
with documented_items : nat → list svn_ra_svn_item_t → list byte → Prop :=
  | documented_nil d : documented_items d [] []
  | documented_cons d it s items body :
      documented d it s → documented_items d items body → documented_items d (it :: items) (s ++ body).

Scheme documented_mut := Minimality for documented Sort Prop
  with documented_items_mut := Minimality for documented_items Sort Prop.
Combined Scheme documented_documented_items_ind from documented_mut, documented_items_mut.

Lemma spaces_app sp1 sp2 : spaces sp1 → spaces sp2 → spaces (sp1 ++ sp2).
Proof. unfold spaces. rewrite forallb_app. by intros -> ->. Qed.

(** The code takes one blank with an item, and the others with the next one. *)
Lemma documented_wire :
  (∀ d it s, documented d it s → ∃ s' sp, s = s' ++ sp ∧ wire d it s' ∧ spaces sp)
  ∧ (∀ d items body, documented_items d items body → ∀ sp, spaces sp →
       ∃ body' sp', sp ++ body = body' ++ sp' ∧ wires d items body' ∧ spaces sp').
Proof.
  assert (∀ sp, gap sp → ∃ w sp', sp = w :: sp' ∧ svn_iswhitespace w = true ∧ spaces sp') as Hgap.
  { intros [|w sp] [Hne Hsp]; [done|]. apply andb_prop in Hsp as [Hw Hsp]. by exists w, sp. }
  apply documented_documented_items_ind.
  - intros d ds sp Hd Hne Hmax (w & sp' & -> & Hw & Hsp)%Hgap. exists (ds ++ [w]), sp'.
    split_and!; [by rewrite <- app_assoc|by constructor|done].
  - intros d ds s sp Hd Hne Hlen Hmax (w & sp' & -> & Hw & Hsp)%Hgap. exists (ds ++ ":"%byte :: s ++ [w]), sp'.
    split_and!; [by rewrite <- app_assoc; cbn; rewrite <- app_assoc|by constructor|done].
  - intros d ch s sp Hch Hs (w & sp' & -> & Hw & Hsp)%Hgap. exists (ch :: s ++ [w]), sp'.
    split_and!; [by cbn; rewrite <- app_assoc|by constructor|done].
  - intros d items body sp1 sp2 [_ Hsp1] _ IH (w & sp' & -> & Hw & Hsp)%Hgap.
    destruct (IH sp1 Hsp1) as (body' & sp3 & Heq & Hws & Hsp3).
    exists ("("%byte :: body' ++ sp3 ++ [")"%byte; w]), sp'. split_and!; [|by constructor|done].
    cbn. rewrite app_assoc, Heq, <- !app_assoc. done.
  - intros d sp Hsp. exists [], sp. split_and!; [by rewrite app_nil_r|constructor|done].
  - intros d it s items body _ (s' & sp1 & -> & Hw & Hsp1) _ IH sp Hsp.
    destruct (IH sp1 Hsp1) as (body' & sp' & Heq & Hws & Hsp'). exists (sp ++ s' ++ body'), sp'.
    split_and!; [|by constructor|done]. by rewrite <- app_assoc, Heq, <- !app_assoc.
Qed.

(** ** Facts on characters *)

Lemma whitespace_facts w :
  svn_iswhitespace w = true →
  isdigit w = false ∧ svn_ctype_isalpha w = false ∧ word_char w = false ∧ w ≠ ":"%byte ∧ w ≠ ")"%byte.
Proof.
  unfold svn_iswhitespace. intros [H|H]%orb_prop; apply byte_eqb_eq in H as ->; by vm_compute.
Qed.

Lemma digit_facts ch :
  isdigit ch = true →
  svn_iswhitespace ch = false ∧ ch ≠ ":"%byte ∧ ch ≠ ")"%byte ∧ 0 <= byte_val ch - 48 < 10.
Proof.
  intros H. assert (48 <= byte_val ch <= 57) as Hr by (unfold isdigit in H; lia).
  assert (∀ k, byte_val k < 48 ∨ 57 < byte_val k → ch ≠ k) as Hne by (intros k Hk ->; lia).
  split_and!; [|by apply Hne; vm_compute; auto|by apply Hne; vm_compute; auto|lia|lia].
  unfold svn_iswhitespace. rewrite !(proj2 (byte_eqb_ne _ _)); [done|by apply Hne; vm_compute; auto..].
Qed.

Lemma alpha_facts ch :
  svn_ctype_isalpha ch = true →
  isdigit ch = false ∧ svn_iswhitespace ch = false ∧ ch ≠ "("%byte ∧ ch ≠ ")"%byte.
Proof.
  intros H. assert (65 <= byte_val ch) as Hr by (unfold svn_ctype_isalpha in H; lia).
  assert (∀ k, byte_val k < 65 → ch ≠ k) as Hne by (intros k Hk ->; lia).
  split_and!; [unfold isdigit; lia| |by apply Hne; vm_compute|by apply Hne; vm_compute].
  unfold svn_iswhitespace. rewrite !(proj2 (byte_eqb_ne _ _)); [done|by apply Hne; vm_compute..].
Qed.

Lemma more_digits_cons val d ds :
  more_digits val (d :: ds) = more_digits (10 * val + (byte_val d - 48)) ds.
Proof. done. Qed.

Lemma more_digits_ge val ds : 0 <= val → digits ds → val <= more_digits val ds.
Proof.
  revert val. induction ds as [|d ds IH]; intros val Hv Hd; [cbn; lia|].
  apply andb_prop in Hd as [Hd Hds]. destruct (digit_facts d Hd) as (_ & _ & _ & Hr).
  rewrite more_digits_cons. specialize (IH (10 * val + (byte_val d - 48)) ltac:(lia) Hds). lia.
Qed.

(** The test of the reader finds exactly the numbers of more than 64 bits. *)
Lemma overflow_test val dv :
  0 <= val <= APR_UINT64_MAX → 0 <= dv < 10 →
  (APR_UINT64_MAX / 10 <=? val) && negb (u64 (val * 10 + dv) / 10 =? val)
  = negb (10 * val + dv <=? APR_UINT64_MAX).
Proof.
  intros Hv Hd. unfold APR_UINT64_MAX, u64 in *.
  destruct (Z.leb_spec (10 * val + dv) 0xFFFFFFFFFFFFFFFF) as [Hle|Hgt].
  - rewrite Z.mod_small by lia. replace (val * 10 + dv) with (dv + val * 10) by lia.
    rewrite Z.div_add, (Z.div_small dv 10), Z.add_0_l, Z.eqb_refl by lia. apply andb_false_r.
  - apply andb_true_intro. split.
    + apply Z.leb_le. change (0xFFFFFFFFFFFFFFFF / 10) with 1844674407370955161. lia.
    + apply negb_true_iff, Z.eqb_neq. intros Heq.
      pose proof (Z.mod_pos_bound (val * 10 + dv) 0x10000000000000000 ltac:(lia)).
      pose proof (Z.div_mod (val * 10 + dv) 0x10000000000000000 ltac:(lia)).
      pose proof (Z.div_mod ((val * 10 + dv) mod 0x10000000000000000) 10 ltac:(lia)).
      pose proof (Z.mod_pos_bound ((val * 10 + dv) mod 0x10000000000000000) 10 ltac:(lia)). lia.
Qed.

(** ** Reading given bytes

    [parses m bs a]: from [bs], and whatever follows, [m] reads [a]. *)
Definition parses {A} (m : M A) bs (a : A) : Prop :=
  ∀ c rest, live c → unread c = bs ++ rest → ∃ c', m c = (c', Ok a) ∧ after c c' rest.

Lemma parses_ret {A} (a : A) : parses (mret a) [] a.
Proof. intros c rest Hl Hu. exists c. split; [done|]. rewrite <- (app_nil_l rest), <- Hu. by apply after_refl. Qed.

Lemma parses_mbind {A B} (m : M A) (k : A → M B) bs1 bs2 a b :
  parses m bs1 a → parses (k a) bs2 b → parses (m ≫= k) (bs1 ++ bs2) b.
Proof.
  intros Hm Hk c rest Hl Hu. rewrite <- app_assoc in Hu. destruct (Hm _ _ Hl Hu) as (c1 & H1 & Ha1).
  destruct (Hk c1 rest) as (c2 & H2 & Ha2); [apply Ha1..|]. exists c2. rewrite (run_bind _ _ _ _ _ H1).
  split; [done|by eapply after_trans].
Qed.

Lemma parses_then {A B} (m : M A) (k : A → M B) bs1 bs2 bs a b :
  parses m bs1 a → parses (k a) bs2 b → bs = bs1 ++ bs2 → parses (m ≫= k) bs b.
Proof. intros Hm Hk ->. by eapply parses_mbind. Qed.

Lemma parses_size {B} (k : nat → M B) bs b :
  (∀ size, (length bs <= size)%nat → parses (k size) bs b) →
  parses (size ← gets (λ c, length (unread c)); k size) bs b.
Proof.
  intros Hk c rest Hl Hu. rewrite run_gets. apply Hk; [|done|done]. rewrite Hu, length_app. lia.
Qed.

Section Grammar.
Context `{BH : BlockHandler} `{!BlockHandlerOk BH}.

Lemma getchar_parses (ch : byte) : parses readbuf_getchar [ch] ch.
Proof. intros c rest Hl Hu. pose proof (readbuf_getchar_run c Hl) as Hg. by rewrite Hu in Hg. Qed.

Lemma readbuf_read_parses len bs : length bs = len → parses (readbuf_read len) bs bs.
Proof.
  intros <- c rest Hl Hu. destruct (readbuf_read_run c (length bs) Hl) as (c' & r & Hrun & [(Hle & -> & Ha)|(Hlt & _ & _)]).
  - rewrite Hu in *. rewrite take_app_length in Hrun. rewrite drop_app_length in Ha. by exists c'.
  - rewrite Hu, length_app in Hlt. lia.
Qed.

Lemma skip_loop_parses fuel sp (ch : byte) :
  spaces sp → svn_iswhitespace ch = false → (length sp < fuel)%nat → parses (skip_loop fuel) (sp ++ [ch]) ch.
Proof.
  revert sp. induction fuel as [|fuel IH]; intros sp Hsp Hch Hf; [lia|]. cbn [skip_loop].
  destruct sp as [|w sp].
  - eapply parses_then; [apply getchar_parses| |by rewrite app_nil_r]. rewrite Hch. apply parses_ret.
  - apply andb_prop in Hsp as [Hw Hsp]. eapply (parses_then _ _ [w]); [apply getchar_parses| |done].
    rewrite Hw. apply IH; [done|done|cbn in Hf; lia].
Qed.

Lemma skip_whitespace_parses sp (ch : byte) :
  spaces sp → svn_iswhitespace ch = false → parses readbuf_getchar_skip_whitespace (sp ++ [ch]) ch.
Proof.
  intros Hsp Hch. apply parses_size. intros size Hs. apply skip_loop_parses; [done|done|].
  rewrite length_app in Hs. cbn in Hs. lia.
Qed.

Lemma read_digits_parses fuel val ds (ch : byte) :
  digits ds → isdigit ch = false → 0 <= val <= APR_UINT64_MAX → more_digits val ds <= APR_UINT64_MAX →
  (length ds < fuel)%nat → parses (read_digits fuel val) (ds ++ [ch]) (more_digits val ds, ch).
Proof.
  revert val ds. induction fuel as [|fuel IH]; intros val ds Hds Hch Hv Hm Hf; [lia|]. cbn [read_digits].
  destruct ds as [|d ds].
  - eapply parses_then; [apply getchar_parses| |by rewrite app_nil_r]. unfold svn_ctype_isdigit. rewrite Hch.
    apply parses_ret.
  - apply andb_prop in Hds as [Hd Hds]. eapply (parses_then _ _ [d]); [apply getchar_parses| |done].
    rewrite Hd. cbn [negb]. destruct (digit_facts d Hd) as (_ & _ & _ & Hr).
    change (byte_val "0") with 48. rewrite more_digits_cons in Hm |- *.
    pose proof (more_digits_ge (10 * val + (byte_val d - 48)) ds ltac:(lia) Hds).
    rewrite overflow_test by done. rewrite (proj2 (Z.leb_le _ _)) by lia. cbn [negb].
    rewrite u64_small by (unfold APR_UINT64_MAX in *; lia). replace (val * 10) with (10 * val) by lia.
    apply IH; [done|done|lia|done|cbn in Hf; lia].
Qed.

Lemma read_word_parses fuel str s (ch : byte) :
  forallb word_char s = true → word_char ch = false → (length s < fuel)%nat →
  parses (word_loop fuel str) (s ++ [ch]) (str ++ s, ch).
Proof.
  revert str s. induction fuel as [|fuel IH]; intros str s Hs Hch Hf; [lia|]. cbn [word_loop].
  assert (∀ x, negb (svn_ctype_isalnum x) && negb (x =b? "-"%byte) = negb (word_char x)) as Hwc
    by (intros; unfold word_char; by rewrite negb_orb).
  destruct s as [|x s].
  - eapply parses_then; [apply getchar_parses| |by rewrite app_nil_r]. cbn beta. rewrite Hwc, Hch, app_nil_r.
    apply parses_ret.
  - apply andb_prop in Hs as [Hx Hs]. eapply (parses_then _ _ [x]); [apply getchar_parses| |done].
    cbn beta. rewrite Hwc, Hx. cbn [negb].
    replace (str ++ x :: s) with ((str ++ [x]) ++ s) by by rewrite <- app_assoc.
    apply IH; [done|done|cbn in Hf; lia].
Qed.

Lemma chunk_len_facts len64 :
  0 <= len64 → 0 <= chunk_len len64 <= len64 ∧ (chunk_len len64 = 0 → len64 = 0).
Proof. unfold chunk_len, SUSPICIOUSLY_HUGE_STRING_SIZE_THRESHOLD. destruct (Z.ltb_spec len64 0x100000); lia. Qed.

Lemma string_loop_parses fuel str s :
  (length s < fuel)%nat → parses (string_loop fuel str (Z.of_nat (length s))) s (str ++ s).
Proof.
  revert str s. induction fuel as [|fuel IH]; intros str s Hf; [lia|]. cbn [string_loop].
  destruct (chunk_len_facts (Z.of_nat (length s)) ltac:(lia)) as [Hc Hz].
  destruct (Z.ltb_spec 0 (chunk_len (Z.of_nat (length s)))) as [Hpos|Hnp].
  2:{ assert (s = []) as -> by (destruct s; [done|cbn in *; lia]). rewrite app_nil_r. apply parses_ret. }
  set (n := Z.to_nat (chunk_len (Z.of_nat (length s)))).
  eapply (parses_then _ _ (take n s) (drop n s)); [apply readbuf_read_parses| |by rewrite take_drop].
  { rewrite length_take. lia. }
  cbn beta zeta. destruct (Z.eqb_spec (Z.of_nat (length s) - chunk_len (Z.of_nat (length s))) 0) as [H0|H0].
  - rewrite drop_ge, take_ge by lia. apply parses_ret.
  - replace (str ++ s) with ((str ++ take n s) ++ drop n s) by by rewrite <- app_assoc, take_drop.
    replace (Z.of_nat (length s) - chunk_len (Z.of_nat (length s))) with (Z.of_nat (length (drop n s)))
      by (rewrite length_drop; lia).
    apply IH. rewrite length_drop. lia.
Qed.

Lemma read_string_parses s :
  Z.of_nat (length s) <= APR_UINT64_MAX →
  parses (read_string (Z.of_nat (length s))) s (SVN_RA_SVN_STRING s).
Proof.
  intros Hs. unfold read_string. rewrite (proj2 (Z.ltb_ge _ _)) by done. apply parses_size. intros size Hsz.
  eapply (parses_then _ _ s []); [apply (string_loop_parses _ []); lia| |by rewrite app_nil_r]. apply parses_ret.
Qed.

(** ** Completeness *)

Lemma wire_head d it s : wire d it s → ∃ ch bs, s = ch :: bs ∧ svn_iswhitespace ch = false ∧ ch ≠ ")"%byte.
Proof.
  intros H. inversion H as [? ds w Hds Hne| ? ds ? w Hds Hne| ? ch ? ? Ha|]; subst.
  - destruct ds as [|dg ds]; [done|]. apply andb_prop in Hds as [Hd _].
    destruct (digit_facts dg Hd) as (? & _ & ? & _). by eexists _, _.
  - destruct ds as [|dg ds]; [done|]. apply andb_prop in Hds as [Hd _].
    destruct (digit_facts dg Hd) as (? & _ & ? & _). by eexists _, _.
  - destruct (alpha_facts ch Ha) as (_ & ? & _ & ?). by eexists _, _.
  - by eexists _, _.
Qed.

(** What [read_item] does after the item: the whitespace that ends it. *)
Lemma item_end_parses {A} (m : M (option A * byte)) bs (x : A) (w : byte) :
  parses m bs (Some x, w) → svn_iswhitespace w = true →
  parses ('(item, ch) ← m;
          if negb (svn_iswhitespace ch) then throw SVN_ERR_RA_SVN_MALFORMED_DATA
          else match item with Some item => mret item | None => lift Undefined end) bs x.
Proof.
  intros Hm Hw. eapply (parses_then _ _ bs []); [done| |by rewrite app_nil_r].
  cbn beta iota. rewrite Hw. apply parses_ret.
Qed.

Lemma number_parses size (val : Z) ds (w : byte) :
  digits ds → 0 <= val → more_digits val ds <= APR_UINT64_MAX → svn_iswhitespace w = true →
  (length (ds ++ [w]) <= size)%nat →
  parses ('(val, ch) ← read_digits (S size) val;
    if ch =b? ":"%byte then item ← read_string val; ch ← readbuf_getchar; mret (Some item, ch)
    else mret (Some (SVN_RA_SVN_NUMBER val), ch)) (ds ++ [w]) (Some (SVN_RA_SVN_NUMBER (more_digits val ds)), w).
Proof.
  intros Hds Hv Hm Hw Hs. destruct (whitespace_facts w Hw) as (Hd & _ & _ & Hc & _).
  rewrite length_app in Hs. cbn in Hs. pose proof (more_digits_ge val ds Hv Hds).
  eapply (parses_then _ _ (ds ++ [w]) []); [apply read_digits_parses; try done; lia| |by rewrite app_nil_r].
  cbn beta iota. rewrite (proj2 (byte_eqb_ne _ _) Hc). apply parses_ret.
Qed.

Lemma string_parses size (val : Z) ds s (w : byte) :
  digits ds → 0 <= val → more_digits val ds = Z.of_nat (length s) → Z.of_nat (length s) <= APR_UINT64_MAX →
  (length (ds ++ ":"%byte :: s ++ [w]) <= size)%nat →
  parses ('(val, ch) ← read_digits (S size) val;
    if ch =b? ":"%byte then item ← read_string val; ch ← readbuf_getchar; mret (Some item, ch)
    else mret (Some (SVN_RA_SVN_NUMBER val), ch)) (ds ++ ":"%byte :: s ++ [w]) (Some (SVN_RA_SVN_STRING s), w).
Proof.
  intros Hds Hv Hm Hlen Hs. rewrite length_app in Hs. cbn in Hs. pose proof (more_digits_ge val ds Hv Hds).
  eapply (parses_then _ _ (ds ++ [":"%byte]) (s ++ [w])); [apply read_digits_parses; try done; lia| |by rewrite <- app_assoc].
  cbn beta iota. rewrite byte_eqb_refl, Hm.
  eapply (parses_then _ _ s [w]); [by apply read_string_parses| |done].
  eapply (parses_then _ _ [w] []); [apply getchar_parses| |done]. apply parses_ret.
Qed.

Lemma first_digit d ds :
  digits (d :: ds) → isdigit d = true ∧ digits ds ∧ 0 <= byte_val d - 48
  ∧ more_digits 0 (d :: ds) = more_digits (byte_val d - 48) ds.
Proof. intros [Hd Hds]%andb_prop. destruct (digit_facts d Hd) as (_ & _ & _ & Hr). split_and!; [done|done|lia|done]. Qed.

Lemma read_item_parses_ind :
  (∀ d it s, wire d it s → ∀ ch bs level fuel,
     s = ch :: bs → (level + d <= 63)%nat → (2 * length bs + 2 <= fuel)%nat →
     parses (read_item fuel ch level) bs it)
  ∧ (∀ d items body, wires d items body → ∀ sp level fuel acc,
     spaces sp → (level + d <= 63)%nat → (2 * length (body ++ sp ++ [")"%byte]) + 1 <= fuel)%nat →
     parses (read_list fuel level acc) (body ++ sp ++ [")"%byte]) (acc ++ items)).
Proof.
  apply wire_wires_ind.
  - intros d ds w Hds Hne Hm Hw ch bs level fuel Hs Hd Hf. destruct ds as [|dg ds]; [done|].
    injection Hs as <- <-. destruct (first_digit dg ds Hds) as (Hdg & Hds' & Hv & Hval). rewrite Hval in *.
    destruct fuel as [|fuel]; [lia|]. cbn [read_item].
    rewrite (proj2 (Nat.leb_gt _ _)) by lia. apply parses_size. intros size Hsz.
    apply item_end_parses with w; [|done]. unfold svn_ctype_isdigit. rewrite Hdg. by apply number_parses.
  - intros d ds s w Hds Hne Hm Hlen Hw ch bs level fuel Hs Hd Hf. destruct ds as [|dg ds]; [done|].
    injection Hs as <- <-. destruct (first_digit dg ds Hds) as (Hdg & Hds' & Hv & Hval). rewrite Hval in *.
    destruct fuel as [|fuel]; [lia|]. cbn [read_item].
    rewrite (proj2 (Nat.leb_gt _ _)) by lia. apply parses_size. intros size Hsz.
    apply item_end_parses with w; [|done]. unfold svn_ctype_isdigit. rewrite Hdg. by apply string_parses.
  - intros d a s w Ha Hs Hw ch bs level fuel Heq Hd Hf. injection Heq as <- <-.
    destruct fuel as [|fuel]; [lia|]. cbn [read_item].
    rewrite (proj2 (Nat.leb_gt _ _)) by lia. apply parses_size. intros size Hsz.
    apply item_end_parses with w; [|done]. destruct (alpha_facts a Ha) as (Hdg & _).
    unfold svn_ctype_isdigit. rewrite Hdg, Ha. destruct (whitespace_facts w Hw) as (_ & _ & Hwc & _).
    rewrite length_app in Hsz. cbn in Hsz.
    eapply (parses_then _ _ (s ++ [w]) []); [apply (read_word_parses _ [a]); [done|done|lia]| |by rewrite app_nil_r].
    apply parses_ret.
  - intros d items body sp w _ IH Hsp Hw ch bs level fuel Heq Hd Hf. injection Heq as <- <-.
    destruct fuel as [|fuel]; [lia|]. cbn [read_item].
    rewrite (proj2 (Nat.leb_gt _ _)) by lia. apply parses_size. intros size Hsz.
    apply item_end_parses with w; [|done]. change (svn_ctype_isdigit "(") with false.
    change (svn_ctype_isalpha "(") with false. rewrite byte_eqb_refl. cbn iota.
    rewrite !length_app in Hf. cbn in Hf.
    eapply (parses_then _ _ (body ++ sp ++ [")"%byte]) [w]); [apply (IH sp); [done|lia|]| |].
    + rewrite !length_app. cbn. lia.
    + eapply (parses_then _ _ [w] []); [apply getchar_parses| |done]. apply parses_ret.
    + by rewrite <- !app_assoc.
  - intros d sp level fuel acc Hsp Hd Hf. destruct fuel as [|fuel]; [lia|]. cbn [read_list app].
    eapply (parses_then _ _ (sp ++ [")"%byte]) []); [by apply skip_whitespace_parses| |by rewrite app_nil_r].
    rewrite byte_eqb_refl, app_nil_r. apply parses_ret.
  - intros d sp it s items body Hsp Hwire IHit _ IHs sp' level fuel acc Hsp' Hd Hf.
    destruct fuel as [|fuel]; [lia|]. cbn [read_list].
    destruct (wire_head _ _ _ Hwire) as (ch & bs & -> & Hws & Hpar).
    rewrite !length_app in Hf. cbn in Hf.
    eapply (parses_then _ _ (sp ++ [ch]) (bs ++ body ++ sp' ++ [")"%byte]));
      [by apply skip_whitespace_parses| |by rewrite <- !app_assoc].
    cbn beta. rewrite (proj2 (byte_eqb_ne _ _) Hpar).
    eapply parses_mbind; [apply IHit; [done|lia|lia]|].
    replace (acc ++ it :: items) with ((acc ++ [it]) ++ items) by by rewrite <- app_assoc.
    apply IHs; [done|lia|]. rewrite !length_app. cbn. lia.
Qed.

(** An item of the grammar is read, whatever comes before it in whitespace and
    after it. *)
Lemma svn_ra_svn_read_item_parses sp it s :
  spaces sp → wire 63 it s → parses svn_ra_svn_read_item (sp ++ s) it.
Proof.
  intros Hsp Hw. destruct (wire_head _ _ _ Hw) as (ch & bs & -> & Hws & _). unfold svn_ra_svn_read_item.
  eapply (parses_then _ _ (sp ++ [ch]) bs); [by apply skip_whitespace_parses| |by rewrite <- app_assoc].
  apply parses_size. intros size Hs.
  eapply (proj1 read_item_parses_ind); [done|done|lia|lia].
Qed.

End Grammar.

(** ** What the reader of items accepts *)


(** ** Outcomes

    [m] reads some bytes that are related to its result by [Q], or fails with an
    error of the protocol or of the connection. *)
Definition protocol_error (e : svn_errno) : Prop :=
  e = SVN_ERR_RA_SVN_MALFORMED_DATA ∨ e = SVN_ERR_RA_SVN_CONNECTION_CLOSED.

Definition reads_at {A} c (m : M A) (Q : list byte → A → Prop) : Prop :=
  ∃ c' r, m c = (c', r) ∧ after c c' (unread c')
  ∧ match r with
    | Ok a => ∃ bs, unread c = bs ++ unread c' ∧ Q bs a
    | Error e => protocol_error e
    | _ => False
    end.

Lemma reads_ret {A} c (a : A) : live c → reads_at c (mret a) (λ bs b, bs = [] ∧ b = a).
Proof. intros Hl. exists c, (Ok a). split_and!; [done|by apply after_refl|]. by exists []. Qed.

Lemma reads_throw {A} c e (Q : list byte → A → Prop) : live c → protocol_error e → reads_at c (throw e) Q.
Proof. intros Hl He. exists c, (Error e). split_and!; [done|by apply after_refl|done]. Qed.

Lemma reads_weaken {A} c (m : M A) (Q Q' : list byte → A → Prop) :
  reads_at c m Q → (∀ bs a, Q bs a → Q' bs a) → reads_at c m Q'.
Proof.
  intros (c' & r & Hm & Ha & Hr) HQ. exists c', r. split_and!; [done|done|].
  destruct r; try done. destruct Hr as (bs & Hu & Hq). exists bs. auto.
Qed.

(** The continuation runs on a connection from which the bytes were read. *)
Lemma reads_bind {A B} c (m : M A) (k : A → M B) (Q1 : list byte → A → Prop) (Q : list byte → B → Prop) :
  reads_at c m Q1 →
  (∀ c' bs a, live c' → unread c = bs ++ unread c' → Q1 bs a → reads_at c' (k a) (λ bs' b, Q (bs ++ bs') b)) →
  reads_at c (m ≫= k) Q.
Proof.
  intros (c1 & r1 & Hm & Ha1 & Hr1) Hk. destruct r1 as [a|e| | |]; try done.
  - destruct Hr1 as (bs & Hu & HQ1).
    destruct (Hk c1 bs a (after_live _ _ _ Ha1) Hu HQ1) as (c2 & r2 & Hk2 & Ha2 & Hr2).
    exists c2, r2. rewrite (run_bind _ _ _ _ _ Hm). split_and!; [done|by eapply after_trans|].
    destruct r2; try done. destruct Hr2 as (bs2 & Hu2 & HQ2). exists (bs ++ bs2). split; [|done].
    by rewrite Hu, Hu2, <- app_assoc.
  - exists c1, (Error e). rewrite (run_bind_error _ _ _ _ _ Hm). by split_and!.
Qed.

Lemma reads_size {B} c (k : nat → M B) (Q : list byte → B → Prop) :
  reads_at c (k (length (unread c))) Q → reads_at c (size ← gets (λ c, length (unread c)); k size) Q.
Proof. done. Qed.

Section Soundness.
Context `{BH : BlockHandler} `{!BlockHandlerOk BH}.

Lemma getchar_reads c : live c → reads_at c readbuf_getchar (λ bs ch, bs = [ch]).
Proof.
  intros Hl. pose proof (readbuf_getchar_run c Hl) as Hg. destruct (unread c) as [|ch rest] eqn:Hu.
  - destruct Hg as (c' & H1 & Ha). exists c', (Error SVN_ERR_RA_SVN_CONNECTION_CLOSED).
    rewrite (after_unread _ _ _ Ha). split_and!; [done|done|by right].
  - destruct Hg as (c' & H1 & Ha). exists c', (Ok ch). rewrite (after_unread _ _ _ Ha).
    split_and!; [done|done|]. by exists [ch].
Qed.

Lemma readbuf_read_reads c len : live c → reads_at c (readbuf_read len) (λ bs data, bs = data ∧ length data = len).
Proof.
  intros Hl. destruct (readbuf_read_run c len Hl) as (c' & r & H1 & [(Hle & -> & Ha)|(Hlt & -> & Ha)]);
    eexists c', _; (split; [done|]); rewrite (after_unread _ _ _ Ha).
  - split; [done|]. exists (take len (unread c)). rewrite take_drop. split_and!; [done|done|].
    cbn [app]. rewrite length_take. lia.
  - split; [done|by right].
Qed.

(** Fewer bytes are left after some were read. *)
Ltac shorter := repeat match goal with H : unread _ = _ ++ unread _ |- _ => apply (f_equal length) in H end;
  rewrite ?length_app in *; cbn [length] in *; lia.

Lemma skip_loop_reads fuel c :
  live c → (length (unread c) < fuel)%nat →
  reads_at c (skip_loop fuel) (λ bs ch, ∃ sp, bs = sp ++ [ch] ∧ spaces sp ∧ svn_iswhitespace ch = false).
Proof.
  revert c. induction fuel as [|fuel IH]; intros c Hl Hf; [lia|]. cbn [skip_loop].
  eapply reads_bind; [by apply getchar_reads|]. intros c1 bs ch Hl1 Hu ->.
  destruct (svn_iswhitespace ch) eqn:Hw.
  - eapply reads_weaken; [apply IH; [done|shorter]|]. intros bs a (sp & -> & Hsp & Ha).
    exists (ch :: sp). split_and!; [done| |done]. unfold spaces. cbn. by rewrite Hw.
  - eapply reads_weaken; [by apply reads_ret|]. intros bs a [-> ->]. by exists [].
Qed.

Lemma skip_whitespace_reads c :
  live c → reads_at c readbuf_getchar_skip_whitespace
    (λ bs ch, ∃ sp, bs = sp ++ [ch] ∧ spaces sp ∧ svn_iswhitespace ch = false).
Proof. intros Hl. apply skip_loop_reads; [done|]. rewrite ?run_gets. lia. Qed.

Lemma read_digits_reads fuel c val :
  live c → (length (unread c) < fuel)%nat → 0 <= val <= APR_UINT64_MAX →
  reads_at c (read_digits fuel val)
    (λ bs '(v, ch), ∃ ds, bs = ds ++ [ch] ∧ digits ds ∧ isdigit ch = false ∧ v = more_digits val ds
                          ∧ v <= APR_UINT64_MAX).
Proof.
  revert c val. induction fuel as [|fuel IH]; intros c val Hl Hf Hv; [lia|]. cbn [read_digits].
  eapply reads_bind; [by apply getchar_reads|]. intros c1 bs ch Hl1 Hu ->.
  unfold svn_ctype_isdigit at 1. destruct (isdigit ch) eqn:Hd; cbn [negb].
  2:{ eapply reads_weaken; [by apply reads_ret|]. intros bs a [-> ->]. exists []. split_and!; [done..|lia]. }
  destruct (digit_facts ch Hd) as (_ & _ & _ & Hr). change (byte_val "0") with 48.
  cbn zeta. rewrite overflow_test by done.
  destruct (Z.leb_spec (10 * val + (byte_val ch - 48)) APR_UINT64_MAX) as [Hle|Hgt]; cbn [negb].
  2:{ apply reads_throw; [done|by left]. }
  rewrite u64_small by (unfold APR_UINT64_MAX in *; lia). replace (val * 10) with (10 * val) by lia.
  eapply reads_weaken; [apply IH; [done|shorter|lia]|]. intros bs [v ch'] (ds & -> & Hds & Hn & Hval & Hm).
  exists (ch :: ds). split_and!; [done| |done|done|done]. unfold digits. cbn. unfold svn_ctype_isdigit at 1.
  by rewrite Hd.
Qed.

Lemma read_word_reads fuel c str :
  live c → (length (unread c) < fuel)%nat →
  reads_at c (word_loop fuel str)
    (λ bs '(w, ch), ∃ s, bs = s ++ [ch] ∧ w = str ++ s ∧ forallb word_char s = true).
Proof.
  revert c str. induction fuel as [|fuel IH]; intros c str Hl Hf; [lia|]. cbn [word_loop].
  eapply reads_bind; [by apply getchar_reads|]. intros c1 bs ch Hl1 Hu ->.
  replace (negb (svn_ctype_isalnum ch) && negb (ch =b? "-"%byte)) with (negb (word_char ch))
    by (unfold word_char; by rewrite negb_orb).
  destruct (word_char ch) eqn:Hw; cbn [negb].
  - eapply reads_weaken; [apply IH; [done|shorter]|]. intros bs [w ch'] (s & -> & -> & Hs).
    exists (ch :: s). split_and!; [done|by rewrite <- app_assoc|]. cbn. by rewrite Hw.
  - eapply reads_weaken; [by apply reads_ret|]. intros bs [w ch'] [-> [= -> ->]]. exists [].
    split_and!; [done|by rewrite app_nil_r|done].
Qed.

Lemma string_loop_reads fuel c str len64 :
  live c → (length (unread c) < fuel)%nat → 0 <= len64 →
  reads_at c (string_loop fuel str len64) (λ bs s, s = str ++ bs ∧ Z.of_nat (length bs) = len64).
Proof.
  revert c str len64. induction fuel as [|fuel IH]; intros c str len64 Hl Hf Hlen; [lia|]. cbn [string_loop].
  destruct (chunk_len_facts len64 Hlen) as [Hc Hz].
  destruct (Z.ltb_spec 0 (chunk_len len64)) as [Hpos|Hnp].
  2:{ eapply reads_weaken; [by apply reads_ret|]. intros bs a [-> ->]. rewrite app_nil_r. cbn. split; [done|lia]. }
  eapply reads_bind; [by apply readbuf_read_reads|]. intros c1 bs data Hl1 Hu [-> Hd]. cbn zeta.
  destruct (Z.eqb_spec (len64 - chunk_len len64) 0) as [H0|H0].
  - eapply reads_weaken; [by apply reads_ret|]. intros bs a [-> ->]. rewrite app_nil_r. split; [done|lia].
  - eapply reads_weaken; [apply IH; [done|shorter|lia]|]. intros bs a [-> Hbs].
    rewrite <- app_assoc, length_app. split; [done|lia].
Qed.

Lemma read_string_reads c len64 :
  live c → 0 <= len64 <= APR_UINT64_MAX →
  reads_at c (read_string len64)
    (λ bs it, it = SVN_RA_SVN_STRING bs ∧ Z.of_nat (length bs) = len64).
Proof.
  intros Hl Hlen. unfold read_string. rewrite (proj2 (Z.ltb_ge _ _)) by lia.
  apply reads_size.
  eapply reads_bind; [apply string_loop_reads; [done|lia|lia]|]. intros c1 bs s Hl1 Hu [-> Hs].
  eapply reads_weaken; [by apply reads_ret|]. intros bs' a [-> ->]. by rewrite app_nil_r.
Qed.

(** What [read_item] reads before it tests the last character. *)
Lemma number_or_string_reads c d (ch : byte) :
  live c → isdigit ch = true →
  reads_at c
    ('(val, ch) ← read_digits (S (length (unread c))) (byte_val ch - byte_val "0"%byte);
     if ch =b? ":"%byte then item ← read_string val; ch ← readbuf_getchar; mret (Some item, ch)
     else mret (Some (SVN_RA_SVN_NUMBER val), ch))
    (λ bs '(item, w), ∃ it, item = Some it ∧ (svn_iswhitespace w = true → wire (S d) it (ch :: bs))).
Proof.
  intros Hl Hd. destruct (digit_facts ch Hd) as (_ & _ & _ & Hr). change (byte_val "0") with 48.
  eapply reads_bind; [apply read_digits_reads; [done|lia|unfold APR_UINT64_MAX; lia]|].
  intros c1 bs [v w] Hl1 Hu (ds & -> & Hds & Hw & Hv & Hm).
  assert (digits (ch :: ds)) as Hds' by (unfold digits; cbn; unfold svn_ctype_isdigit at 1; by rewrite Hd).
  assert (more_digits 0 (ch :: ds) = v) as Hv' by done.
  destruct (byte_eqb_spec w ":"%byte) as [->|Hc].
  - pose proof (more_digits_ge (byte_val ch - 48) ds ltac:(lia) Hds).
    eapply reads_bind; [apply read_string_reads; [done|lia]|]. intros c2 s it Hl2 Hu2 [-> Hlen].
    eapply reads_bind; [by apply getchar_reads|]. intros c3 b w Hl3 Hu3 ->.
    eapply reads_weaken; [by apply reads_ret|]. intros b a [-> ->]. eexists. split; [done|]. intros Hws.
    replace (ch :: (ds ++ [":"%byte]) ++ s ++ [w] ++ []) with ((ch :: ds) ++ ":"%byte :: s ++ [w])
      by by rewrite <- app_assoc.
    apply wire_string; [done|done|lia|lia|done].
  - eapply reads_weaken; [by apply reads_ret|]. intros b a [-> ->]. eexists. split; [done|]. intros Hws.
    rewrite app_nil_r. rewrite <- Hv'. apply (wire_number _ (ch :: ds)); [done|done|lia|done].
Qed.

Lemma word_reads c d (ch : byte) :
  live c → svn_ctype_isalpha ch = true →
  reads_at c
    ('(str, ch) ← word_loop (S (length (unread c))) [ch]; mret (Some (SVN_RA_SVN_WORD str), ch))
    (λ bs '(item, w), ∃ it, item = Some it ∧ (svn_iswhitespace w = true → wire (S d) it (ch :: bs))).
Proof.
  intros Hl Ha. eapply reads_bind; [apply read_word_reads; [done|lia]|].
  intros c1 bs [str w] Hl1 Hu (s & -> & -> & Hs).
  eapply reads_weaken; [by apply reads_ret|]. intros b a [-> ->]. eexists. split; [done|]. intros Hws.
  rewrite app_nil_r. by apply wire_word.
Qed.

(** ** Soundness *)

Lemma read_item_reads_ind fuel :
  (∀ c (ch : byte) level, live c → svn_iswhitespace ch = false → (2 * length (unread c) + 2 <= fuel)%nat →
     reads_at c (read_item fuel ch level) (λ bs it, wire (63 - level) it (ch :: bs)))
  ∧ (∀ c level acc, live c → (2 * length (unread c) + 1 <= fuel)%nat →
     reads_at c (read_list fuel level acc) (λ bs items, ∃ new body sp,
       items = acc ++ new ∧ wires (63 - level) new body ∧ spaces sp ∧ bs = body ++ sp ++ [")"%byte])).
Proof.
  induction fuel as [|fuel [IHitem IHlist]]; [split; intros; lia|]. split.
  - intros c ch level Hl Hws Hf. cbn [read_item].
    destruct (Nat.leb_spec 64 (S level)) as [Hlev|Hlev]; [apply reads_throw; [done|by left]|].
    apply reads_size. replace (63 - level)%nat with (S (63 - S level)) by lia.
    eapply (reads_bind _ _ _
      (λ bs '(item, w), svn_iswhitespace w = true → ∃ it, item = Some it ∧ wire (S (63 - S level)) it (ch :: bs))).
    + unfold svn_ctype_isdigit. destruct (isdigit ch) eqn:Hd; [|destruct (svn_ctype_isalpha ch) eqn:Ha;
        [|destruct (byte_eqb_spec ch "("%byte) as [->|Hp]]].
      * eapply reads_weaken; [by apply (number_or_string_reads c (63 - S level))|].
        intros bs [item w] (it & -> & Hw) H. by eexists; split; [|apply Hw].
      * eapply reads_weaken; [by apply (word_reads c (63 - S level))|].
        intros bs [item w] (it & -> & Hw) H. by eexists; split; [|apply Hw].
      * eapply reads_bind; [apply IHlist; [done|lia]|].
        intros c1 bs items Hl1 Hu (new & body & sp & -> & Hwires & Hsp & ->).
        eapply reads_bind; [by apply getchar_reads|]. intros c2 b w Hl2 Hu2 ->.
        eapply reads_weaken; [by apply reads_ret|]. intros b a [-> ->] H. eexists. split; [done|].
        replace ("("%byte :: (body ++ sp ++ [")"%byte]) ++ [w] ++ []) with ("("%byte :: body ++ sp ++ [")"%byte; w])
          by by rewrite <- !app_assoc.
        by apply wire_list.
      * eapply reads_weaken; [by apply reads_ret|]. intros bs a [-> ->]. congruence.
    + intros c1 bs [item w] Hl1 Hu Hw. destruct (svn_iswhitespace w); cbn [negb].
      2:{ apply reads_throw; [done|by left]. }
      destruct (Hw eq_refl) as (it & -> & Hwire).
      eapply reads_weaken; [by apply reads_ret|]. intros b a [-> ->]. by rewrite app_nil_r.
  - intros c level acc Hl Hf. cbn [read_list].
    eapply reads_bind; [by apply skip_whitespace_reads|]. intros c1 bs ch Hl1 Hu (sp & -> & Hsp & Hws).
    destruct (byte_eqb_spec ch ")"%byte) as [->|Hp].
    { eapply reads_weaken; [by apply reads_ret|]. intros b a [-> ->]. exists [], [], sp.
      rewrite !app_nil_r. split_and!; [done|constructor|done|done]. }
    eapply reads_bind; [apply IHitem; [done|done|shorter]|]. intros c2 bs2 it Hl2 Hu2 Hwire.
    eapply reads_weaken; [apply IHlist; [done|shorter]|].
    intros bs3 a (new & body & sp' & -> & Hwires & Hsp' & ->).
    exists (it :: new), (sp ++ (ch :: bs2) ++ body), sp'. split_and!.
    + by rewrite <- app_assoc.
    + by constructor.
    + done.
    + by rewrite <- !app_assoc.
Qed.

(** Reading an item. *)
Lemma svn_ra_svn_read_item_reads c :
  live c → reads_at c svn_ra_svn_read_item (λ bs it, ∃ sp s, bs = sp ++ s ∧ spaces sp ∧ wire 63 it s).
Proof.
  intros Hl. unfold svn_ra_svn_read_item.
  eapply reads_bind; [by apply skip_whitespace_reads|]. intros c1 bs ch Hl1 Hu (sp & -> & Hsp & Hws).
  apply reads_size. eapply reads_weaken; [apply (proj1 (read_item_reads_ind _)); [done|done|lia]|].
  intros bs it Hw. exists sp, (ch :: bs). by rewrite <- app_assoc.
Qed.

End Soundness.

(** C15: svn_ra_svn_read_item accepts exactly the texts of the relation
    wire, which has more of them than the grammar in the protocol document
    (no blank is needed after the opening parenthesis of a list): it returns
    an item and leaves the rest of the input exactly when the input is
    blanks, a text of that item with at most 63 levels and numbers that fit
    64 bits, and that rest. Every text of the documented grammar within
    these limits is read as its item, the further blanks after it being left
    for the next one; on any input that is not accepted it ends with the
    error of malformed data or of a closed connection; and what was written
    before is sent or still in the buffer. *)
Theorem svn_ra_svn_read_item_grammar `{BH : BlockHandler} `{!BlockHandlerOk BH} c :
  live c →
  (∀ it rest,
     (∃ c', svn_ra_svn_read_item c = (c', Ok it) ∧ unread c' = rest)
     ↔ ∃ sp s, unread c = sp ++ s ++ rest ∧ spaces sp ∧ wire 63 it s)
  ∧ (∀ it s rest, documented 63 it s → unread c = s ++ rest →
     ∃ c' sp, svn_ra_svn_read_item c = (c', Ok it) ∧ spaces sp ∧ unread c' = sp ++ rest)
  ∧ ∃ c' r, svn_ra_svn_read_item c = (c', r) ∧ live c' ∧ output c' = output c
    ∧ ((∃ it, r = Ok it) ∨ r = Error SVN_ERR_RA_SVN_MALFORMED_DATA ∨ r = Error SVN_ERR_RA_SVN_CONNECTION_CLOSED).
Proof.
  intros Hl. destruct (svn_ra_svn_read_item_reads c Hl) as (c' & r & Hrun & Ha & Hr). split; [|split].
  - intros it rest. split.
    + intros (c2 & H2 & Hu). rewrite Hrun in H2. injection H2 as <- ->.
      destruct Hr as (bs & Hbs & sp & s & -> & Hsp & Hw). exists sp, s. by rewrite <- Hu, app_assoc.
    + intros (sp & s & Hu & Hsp & Hw). rewrite app_assoc in Hu.
      destruct (svn_ra_svn_read_item_parses sp it s Hsp Hw c rest Hl Hu) as (c2 & H2 & Ha2).
      exists c2. split; [done|apply Ha2].
  - intros it s rest Hd Hu. destruct (proj1 documented_wire _ _ _ Hd) as (s' & sp & -> & Hw & Hsp).
    rewrite <- app_assoc in Hu.
    destruct (svn_ra_svn_read_item_parses [] it s' eq_refl Hw c (sp ++ rest) Hl Hu) as (c2 & H2 & Ha2).
    exists c2, sp. split_and!; [done|done|apply Ha2].
  - exists c', r. split_and!; [done|apply Ha..|]. destruct r as [it|e| | |]; try done; [left; by eexists|].
    destruct Hr as [->| ->]; auto.
Qed.

(** A text that the protocol's grammar does not have, and that is read. *)
Lemma svn_ra_svn_read_item_undocumented :
  (svn_ra_svn_read_item (svn_ra_svn_create_conn2 [bytes_of "(a ) "] [])).2
    = Ok (SVN_RA_SVN_LIST [SVN_RA_SVN_WORD (bytes_of "a")])
  ∧ ∀ d it, ¬ documented d it (bytes_of "(a ) ").
Proof.
  split; [by vm_compute|]. intros d it Hd. change (bytes_of "(a ) ") with ["("; "a"; " "; ")"; " "]%byte in Hd.
  remember ["("; "a"; " "; ")"; " "]%byte as text eqn:Ht.
  destruct Hd as [d ds sp Hd Hne _ _|d ds s sp Hd Hne _ _ _|d ch s sp Hch _ _|d items body sp1 sp2 [Hne Hsp1] _ _].
  - destruct ds as [|ch ds]; [done|]. cbn [app] in Ht. injection Ht as Hch _. by rewrite Hch in Hd.
  - destruct ds as [|ch ds]; [done|]. cbn [app] in Ht. injection Ht as Hch _. by rewrite Hch in Hd.
  - injection Ht as Hc _. by rewrite Hc in Hch.
  - injection Ht as Ht. destruct sp1 as [|w sp1]; [done|]. cbn [app] in Ht. injection Ht as Hw _. by rewrite Hw in Hsp1.
Qed.

(** A list in two segments. *)
Lemma svn_ra_svn_read_item_grammar_witness :
  let c := svn_ra_svn_create_conn2 [bytes_of "( 2:a"; bytes_of "b 17 ) rest"] [] in
  live c ∧ ∃ it, (∃ c', svn_ra_svn_read_item c = (c', Ok it) ∧ unread c' = bytes_of "rest")
     ∧ ∃ sp s, unread c = sp ++ s ++ bytes_of "rest" ∧ spaces sp ∧ wire 63 it s.
Proof.
  assert (live (svn_ra_svn_create_conn2 [bytes_of "( 2:a"; bytes_of "b 17 ) rest"] [])) as Hl.
  { split; [cbn [write_buf svn_ra_svn_create_conn2 length]; lia| |done|done].
    by repeat constructor. }
  split; [done|]. exists (SVN_RA_SVN_LIST [SVN_RA_SVN_STRING (bytes_of "ab"); SVN_RA_SVN_NUMBER 17]).
  pose proof (proj1 (@svn_ra_svn_read_item_grammar no_handler no_handler_ok
    (svn_ra_svn_create_conn2 [bytes_of "( 2:a"; bytes_of "b 17 ) rest"] []) Hl)
    (SVN_RA_SVN_LIST [SVN_RA_SVN_STRING (bytes_of "ab"); SVN_RA_SVN_NUMBER 17]) (bytes_of "rest")) as Hg.
  assert (∃ c', svn_ra_svn_read_item (svn_ra_svn_create_conn2 [bytes_of "( 2:a"; bytes_of "b 17 ) rest"] [])
    = (c', Ok (SVN_RA_SVN_LIST [SVN_RA_SVN_STRING (bytes_of "ab"); SVN_RA_SVN_NUMBER 17])) ∧ unread c' = bytes_of "rest") as Hr.
  { eexists. split; [vm_compute; reflexivity|]. reflexivity. }
  split; [exact Hr|]. apply Hg. exact Hr.
Defined.
