(* ===== verification/MarshalDelivery.v ===== *)
(** * Reading does not depend on the delivery

    Two connections are alike when the same bytes are to be read on them; the
    segments, the buffers and what was written may differ.  The functions of
    [marshal.c] that read respect this relation: they give the same result, item
    or error, and leave the connections alike. *)
From S2P Require Import Prelude Numbers Cstrings Marshal MarshalBuffers MarshalItems.

Implicit Types (c : svn_ra_svn_conn_t) (it : svn_ra_svn_item_t).

Definition alike c1 c2 : Prop := live c1 ∧ live c2 ∧ unread c1 = unread c2.

#[global] Instance alike_symmetric : Symmetric alike.
Proof. by intros c1 c2 (H1 & H2 & H3). Qed.
#[global] Instance alike_transitive : Transitive alike.
Proof. intros c1 c2 c3 (H1 & H2 & H3) (H4 & H5 & H6). split_and!; [done|done|congruence]. Qed.

Definition same_outcome {A} : relation (svn_ra_svn_conn_t * result A) :=
  λ p q, alike p.1 q.1 ∧ p.2 = q.2.

Notation oblivious m := (Proper (alike ==> same_outcome) m).

(** ** Composition *)

#[global] Instance lift_oblivious {A} (r : result A) : oblivious (lift r).
Proof. by intros c1 c2 Hc. Qed.

#[global] Instance ret_oblivious {A} (a : A) : oblivious (mret a : M A).
Proof. by intros c1 c2 Hc. Qed.

Lemma bind_oblivious {A B} (m : M A) (k : A → M B) :
  oblivious m → (∀ a, oblivious (k a)) → oblivious (m ≫= k).
Proof.
  intros Hm Hk c1 c2 Hc. destruct (Hm c1 c2 Hc) as [Ha Hr]. unfold mbind, M_bind.
  destruct (m c1) as [c1' r1], (m c2) as [c2' r2]. cbn in Ha, Hr. subst r2.
  destruct r1; [by apply Hk|done..].
Qed.

(** The number of unread bytes is the same. *)
Lemma size_oblivious {B} (k : nat → M B) :
  (∀ size, oblivious (k size)) → oblivious (size ← gets (λ c, length (unread c)); k size).
Proof. intros Hk c1 c2 Hc. rewrite !run_gets. rewrite (proj2 (proj2 Hc)). by apply Hk. Qed.

Create HintDb oblivious.
#[export] Hint Resolve bind_oblivious size_oblivious : oblivious.

Ltac solve_oblivious :=
  repeat first
    [ progress intros
    | exact _
    | apply size_oblivious
    | apply bind_oblivious
    | case_match
    | solve [auto with oblivious] ].

Section Delivery.
Context `{BH : BlockHandler} `{!BlockHandlerOk BH}.

(** ** The buffer *)

#[local] Instance getchar_oblivious : oblivious readbuf_getchar.
Proof.
  intros c1 c2 (Hl1 & Hl2 & Hu).
  pose proof (readbuf_getchar_run c1 Hl1) as H1. pose proof (readbuf_getchar_run c2 Hl2) as H2.
  rewrite Hu in H1. destruct (unread c2) as [|ch rest];
    destruct H1 as (c1' & -> & Ha1), H2 as (c2' & -> & Ha2); (split; [|done]);
    (split_and!; [apply Ha1|apply Ha2|]); cbn;
    by rewrite (after_unread _ _ _ Ha1), (after_unread _ _ _ Ha2).
Qed.

#[local] Instance readbuf_read_oblivious len : oblivious (readbuf_read len).
Proof.
  intros c1 c2 (Hl1 & Hl2 & Hu).
  destruct (readbuf_read_run c1 len Hl1) as (c1' & r1 & -> & H1).
  destruct (readbuf_read_run c2 len Hl2) as (c2' & r2 & -> & H2). unfold read_outcome in H1, H2. rewrite Hu in H1.
  destruct H1 as [(Hle & -> & Ha1)|(Hlt & -> & Ha1)], H2 as [(? & -> & Ha2)|(? & -> & Ha2)]; try lia;
    (split; [|done]); (split_and!; [apply Ha1|apply Ha2|]); cbn;
    by rewrite (after_unread _ _ _ Ha1), (after_unread _ _ _ Ha2).
Qed.

(** ** Items *)

#[local] Instance skip_loop_oblivious fuel : oblivious (skip_loop fuel).
Proof. induction fuel as [|fuel IH]; cbn [skip_loop]; solve_oblivious. Qed.

#[local] Instance skip_whitespace_oblivious : oblivious readbuf_getchar_skip_whitespace.
Proof. unfold readbuf_getchar_skip_whitespace. solve_oblivious. Qed.

#[local] Instance read_digits_oblivious fuel val : oblivious (read_digits fuel val).
Proof. revert val. induction fuel as [|fuel IH]; intros; cbn [read_digits]; solve_oblivious. Qed.

#[local] Instance read_word_oblivious fuel str : oblivious (word_loop fuel str).
Proof. revert str. induction fuel as [|fuel IH]; intros; cbn [word_loop]; solve_oblivious. Qed.

#[local] Instance string_loop_oblivious fuel str len64 : oblivious (string_loop fuel str len64).
Proof. revert str len64. induction fuel as [|fuel IH]; intros; cbn [string_loop]; solve_oblivious. Qed.

#[local] Instance read_string_oblivious len64 : oblivious (read_string len64).
Proof. unfold read_string, throw. solve_oblivious. Qed.

Lemma read_item_list_oblivious fuel :
  (∀ ch level, oblivious (read_item fuel ch level)) ∧ (∀ level items, oblivious (read_list fuel level items)).
Proof.
  induction fuel as [|fuel [IHitem IHlist]]; [split; intros; cbn; exact _|].
  split; intros; cbn [read_item read_list]; unfold throw; solve_oblivious.
Qed.

#[global] Instance svn_ra_svn_read_item_oblivious : oblivious svn_ra_svn_read_item.
Proof.
  unfold svn_ra_svn_read_item. solve_oblivious. apply (proj1 (read_item_list_oblivious _)).
Qed.

(** ** Tuples and responses *)

#[global] Instance svn_ra_svn_read_tuple_oblivious fmt : oblivious (svn_ra_svn_read_tuple fmt).
Proof. unfold svn_ra_svn_read_tuple, throw. solve_oblivious. Qed.

#[global] Instance svn_ra_svn_read_cmd_response_oblivious `{ErrorText} fmt :
  oblivious (svn_ra_svn_read_cmd_response fmt).
Proof. unfold svn_ra_svn_read_cmd_response, throw. solve_oblivious. Qed.

End Delivery.

(** C17: What is read from a connection does not depend on how the bytes
    arrive: two connections with the same unread bytes, however they are
    divided between the read buffer and the segments that will arrive, give
    the same item, tuple, response or error, and have the same bytes unread
    afterwards. *)
Theorem svn_ra_svn_read_delivery `{BH : BlockHandler} `{!BlockHandlerOk BH} `{ErrorText} fmt c1 c2 :
  live c1 → live c2 → unread c1 = unread c2 →
  let same {A} (m : M A) := (m c1).2 = (m c2).2 ∧ unread (m c1).1 = unread (m c2).1 in
  same svn_ra_svn_read_item ∧ same (svn_ra_svn_read_tuple fmt) ∧ same (svn_ra_svn_read_cmd_response fmt).
Proof.
  intros H1 H2 Hu. assert (alike c1 c2) as Hc by done. split; [|split].
  - by destruct (svn_ra_svn_read_item_oblivious c1 c2 Hc) as [(_ & _ & ?) ?].
  - by destruct (svn_ra_svn_read_tuple_oblivious fmt c1 c2 Hc) as [(_ & _ & ?) ?].
  - by destruct (svn_ra_svn_read_cmd_response_oblivious fmt c1 c2 Hc) as [(_ & _ & ?) ?].
Qed.

#[global] Instance no_text : ErrorText := {| svn_strerror _ := []; svn_strerror_no_nul _ := not_elem_of_nil _ |}.

Lemma svn_ra_svn_read_delivery_witness :
  let c1 := svn_ra_svn_create_conn2 [bytes_of "( failure ( ( 7 0: 0: 0 ) ) ) "] [] in
  let c2 := svn_ra_svn_create_conn2 (map (λ b, [b]) (bytes_of "( failure ( ( 7 0: 0: 0 ) ) ) ")) [] in
  let same {A} (m : M A) := (m c1).2 = (m c2).2 ∧ unread (m c1).1 = unread (m c2).1 in
  same svn_ra_svn_read_item ∧ same (svn_ra_svn_read_tuple (bytes_of "wl"))
  ∧ same (svn_ra_svn_read_cmd_response (bytes_of "wl")).
Proof.
  apply (@svn_ra_svn_read_delivery no_handler no_handler_ok no_text (bytes_of "wl")).
  - split; [cbn [write_buf svn_ra_svn_create_conn2 length]; lia|by repeat constructor|done|done].
  - split; [cbn [write_buf svn_ra_svn_create_conn2 length]; lia|by apply Forall_fmap, Forall_true|done|done].
  - reflexivity.
Defined.
