(* ===== verification/MarshalFormats.v ===== *)
(** * Tuples and their formats

    The format strings of [vwrite_tuple] and [vparse_tuple] of [marshal.c]: a
    tuple that is written with a format is an item of the grammar, and reading
    it with the same format gives back the arguments.

    Tuples as values: mandatory fields, some of them tuples again, and an
    optional part that is there or not.  Each has its format string and its
    arguments; what [vwrite_tuple] of [marshal.c] writes for them is one item,
    and [vparse_tuple] with the same format gives the arguments back. *)
From S2P Require Import Prelude Numbers Cstrings Marshal MarshalBuffers MarshalItems.

Implicit Types (bs rest s w fmt : list byte) (c : svn_ra_svn_conn_t) (it : svn_ra_svn_item_t).

(** ** The text of an item *)

Fixpoint item_text it : list byte :=
  match it with
  | SVN_RA_SVN_NUMBER n => decimal 20 n ++ bytes_of " "
  | SVN_RA_SVN_STRING s => decimal 20 (Z.of_nat (length s)) ++ ":"%byte :: s ++ bytes_of " "
  | SVN_RA_SVN_WORD w => w ++ bytes_of " "
  | SVN_RA_SVN_LIST items => bytes_of "( " ++ concat (map item_text items) ++ bytes_of ") "
  end.

Definition items_text (items : list svn_ra_svn_item_t) : list byte := concat (map item_text items).

Definition is_word w : bool :=
  match w with ch :: s => svn_ctype_isalpha ch && forallb word_char s | [] => false end.

(** An item that can be written, with lists nested at most [d] deep. *)
Fixpoint writable (d : nat) it : bool :=
  match d with
  | O => false
  | S d =>
      match it with
      | SVN_RA_SVN_NUMBER n => (0 <=? n) && (n <=? APR_UINT64_MAX)
      | SVN_RA_SVN_STRING s => Z.of_nat (length s) <=? APR_UINT64_MAX
      | SVN_RA_SVN_WORD w => is_word w
      | SVN_RA_SVN_LIST items => forallb (writable d) items
      end
  end.

Lemma more_digits_decimal fuel n k :
  0 <= n < 10 ^ Z.of_nat fuel → (0 < fuel)%nat → more_digits k (decimal fuel n) = k * 10 ^ Z.of_nat (length (decimal fuel n)) + n.
Proof.
  revert n k. induction fuel as [|fuel IH]; intros n k Hn Hf; [lia|]. cbn [decimal].
  assert (∀ l, more_digits k (l ++ [digit (n mod 10)]) = 10 * more_digits k l + n mod 10) as Hlast.
  { intros l. unfold more_digits. rewrite fold_left_app. cbn.
    destruct (digit_spec (n mod 10)) as [_ ->]; [apply Z.mod_pos_bound; lia|done]. }
  rewrite Hlast, length_app. cbn [length]. replace (Z.of_nat (_ + 1)) with (Z.of_nat (length (if n <? 10 then [] else decimal fuel (n / 10))) + 1) by lia.
  rewrite Z.pow_add_r by lia. destruct (Z.ltb_spec n 10) as [Hlt|Hge].
  - cbn. rewrite Z.mod_small by lia. lia.
  - replace (Z.of_nat (S fuel)) with (Z.of_nat fuel + 1) in Hn by lia. rewrite Z.pow_add_r in Hn by lia.
    assert (0 < fuel)%nat by (destruct fuel; [cbn in Hn; lia|lia]).
    rewrite IH; [|split; [apply Z.div_pos; lia|apply Z.div_lt_upper_bound; lia]|done].
    pose proof (Z.div_mod n 10 ltac:(lia)). lia.
Qed.

Lemma decimal_length fuel n : (length (decimal fuel n) <= fuel)%nat.
Proof.
  revert n. induction fuel as [|fuel IH]; intros n; [done|]. cbn [decimal]. rewrite length_app. cbn.
  destruct (n <? 10); [cbn; lia|]. specialize (IH (n / 10)). lia.
Qed.

Lemma decimal_value n :
  0 <= n <= APR_UINT64_MAX → digits (decimal 20 n) ∧ decimal 20 n ≠ [] ∧ more_digits 0 (decimal 20 n) = n.
Proof.
  intros Hn. split_and!.
  - apply decimal_digits; lia.
  - destruct (decimal_head n ltac:(lia)) as (ch & s & -> & _). done.
  - rewrite more_digits_decimal; [lia| |lia]. unfold APR_UINT64_MAX in Hn. lia.
Qed.

Lemma wires_text d items : Forall (λ it, wire d it (item_text it)) items →
  ∀ sp, spaces sp → ∃ body, wires d items body ∧ sp ++ items_text items = body ++ (match items with [] => sp | _ => [] end).
Proof.
  induction 1 as [|it items Hit _ IH]; intros sp Hsp.
  - exists []. split; [constructor|]. cbn. by rewrite app_nil_r.
  - destruct (IH []) as (body & Hw & Hb); [done|]. exists (sp ++ item_text it ++ body). split; [by constructor|].
    rewrite app_nil_r. unfold items_text in *. cbn [map concat]. cbn [app] in Hb. do 2 f_equal. rewrite Hb.
    destruct items; by rewrite app_nil_r.
Qed.

Lemma writable_wire d it : writable d it = true → wire d it (item_text it).
Proof.
  revert it. induction d as [|d IH]; [done|]. intros [n|s|w|items] Hw; cbn [writable item_text] in *.
  - apply andb_prop in Hw as [H1%Z.leb_le H2%Z.leb_le]. destruct (decimal_value n) as (Hd & Hne & Hv); [lia|].
    rewrite <- Hv at 1. apply wire_number; [done|done|lia|done].
  - apply Z.leb_le in Hw. destruct (decimal_value (Z.of_nat (length s))) as (Hd & Hne & Hv); [lia|].
    apply wire_string; [done|done|lia|lia|done].
  - destruct w as [|ch s]; [done|]. apply andb_prop in Hw as [H1 H2]. by apply wire_word.
  - assert (Forall (λ it, wire d it (item_text it)) items) as Hall.
    { apply Forall_forall. intros it Hin. apply IH. rewrite forallb_forall in Hw. apply Hw. by apply list_elem_of_In. }
    destruct (wires_text d items Hall (bytes_of " ")) as (body & Hws & Hb); [done|].
    replace (bytes_of "( " ++ concat (map item_text items) ++ bytes_of ") ") with
      ("("%byte :: body ++ (match items with [] => bytes_of " " | _ => [] end) ++ [")"%byte; " "%byte]).
    + apply wire_list; [done|by destruct items|done].
    + by rewrite (app_assoc body), <- Hb.
Qed.

Section Tuples.
Context `{BH : BlockHandler} `{!BlockHandlerOk BH}.

(** Reading what was written as an item. *)
Lemma item_text_parses it :
  writable 63 it = true → parses svn_ra_svn_read_item (item_text it) it.
Proof. intros Hw. apply (svn_ra_svn_read_item_parses []); [done|by apply writable_wire]. Qed.

(** ** Writing items *)

Lemma emits_conv (m : M ()) bs bs' : emits m bs → bs = bs' → emits m bs'.
Proof. by intros ? <-. Qed.

Lemma write_number_emits n (follow : byte) :
  0 <= n <= APR_UINT64_MAX → emits (write_number n follow) (decimal 20 n ++ [follow]).
Proof.
  intros Hn c Hc. unfold write_number, emits_at. setoid_rewrite run_gets.
  assert (∀ c, (length (write_buf c) + SVN_INT64_BUFFER_SIZE <= SVN_RA_SVN__WRITEBUF_SIZE)%nat →
    emits_at c (written ← lift (svn__ui64toa n); writebuf_put (written ++ [follow])) (decimal 20 n ++ [follow])) as Hput.
  { intros c2 Hc2. rewrite svn__ui64toa_ok by (unfold APR_UINT64_MAX in Hn; lia).
    apply (emits_put c2). pose proof (decimal_length 20 n). rewrite length_app. cbn [length].
    unfold SVN_INT64_BUFFER_SIZE in *. lia. }
  destruct (Nat.leb_spec SVN_RA_SVN__WRITEBUF_SIZE (length (write_buf c) + SVN_INT64_BUFFER_SIZE)) as [Hle|Hgt].
  - destruct (writebuf_flush_run c) as (c1 & r1 & H1 & Hw1 & Hr1 & Hl1). destruct r1 as [[]|e| | |]; try done.
    + setoid_rewrite (run_bind _ _ _ _ _ H1). destruct (Hput c1) as (c2 & r2 & H2 & Hf2 & Hr2 & Hl2).
      { rewrite Hw1. unfold SVN_INT64_BUFFER_SIZE, SVN_RA_SVN__WRITEBUF_SIZE. cbn [length]. lia. }
      rewrite Hr1 in Hr2. exists c2, r2. split_and!; [done|done|done|]. intros Hl.
      destruct (Hl1 Hl) as (_ & Hlc1 & Hs1). destruct (Hl2 Hlc1) as (? & ? & ?). split_and!; [done|done|by etrans].
    + setoid_rewrite (run_bind_error _ _ _ _ _ H1). eexists _, _. split_and!; [done| | |].
      * unfold fits. rewrite Hw1. cbn. lia.
      * by apply prefix_app_r.
      * intros Hl. by destruct (Hl1 Hl).
    + setoid_rewrite (run_bind_aborted _ _ _ _ H1). eexists _, _. split_and!; [done| | |].
      * unfold fits. rewrite Hw1. cbn. lia.
      * by apply prefix_app_r.
      * intros Hl. by destruct (Hl1 Hl).
  - setoid_rewrite run_ret. apply Hput. lia.
Qed.

Lemma svn_ra_svn_write_string_emits s :
  Z.of_nat (length s) <= APR_UINT64_MAX → emits (svn_ra_svn_write_string s) (item_text (SVN_RA_SVN_STRING s)).
Proof.
  intros Hs. unfold svn_ra_svn_write_string. cbn [item_text].
  eapply emits_then; [|eapply emits_bind; [apply writebuf_write_emits|apply writebuf_writechar_emits]|].
  - instantiate (1 := decimal 20 (Z.of_nat (length s)) ++ [":"%byte]).
    destruct (Nat.ltb_spec (length s) 10) as [Hlt|Hge]; [|apply write_number_emits; lia].
    eapply emits_conv; [eapply emits_bind; apply writebuf_writechar_emits|].
    cbn [decimal]. rewrite (proj2 (Z.ltb_lt _ _)) by lia. cbn [app]. do 2 f_equal.
    rewrite Z.mod_small by lia. apply byte_val_inj. rewrite byte_val_of. change (byte_val "0") with 48.
    destruct (digit_spec (Z.of_nat (length s))) as [_ Hdv]; [lia|]. rewrite Z.mod_small by lia. lia.
  - by rewrite <- !app_assoc.
Qed.

Lemma svn_ra_svn_write_word_emits w : emits (svn_ra_svn_write_word w) (item_text (SVN_RA_SVN_WORD w)).
Proof. apply emits_bind; [apply writebuf_write_short_string_emits|apply writebuf_writechar_emits]. Qed.

Lemma put_two_emits s :
  length s = 2%nat →
  emits (write_pos ← gets (λ c, length (write_buf c));
         if (write_pos + 2 <=? SVN_RA_SVN__WRITEBUF_SIZE)%nat then writebuf_put s else writebuf_write s) s.
Proof.
  intros Hs c Hc. unfold emits_at. setoid_rewrite run_gets.
  destruct (Nat.leb_spec (length (write_buf c) + 2) SVN_RA_SVN__WRITEBUF_SIZE) as [Hle|Hgt].
  - apply emits_put. lia.
  - by apply writebuf_write_emits.
Qed.

Lemma svn_ra_svn_start_list_emits : emits svn_ra_svn_start_list (bytes_of "( ").
Proof. by apply put_two_emits. Qed.

Lemma svn_ra_svn_end_list_emits : emits svn_ra_svn_end_list (bytes_of ") ").
Proof. by apply put_two_emits. Qed.

End Tuples.

Create HintDb emits.
#[export] Hint Resolve write_number_emits svn_ra_svn_write_string_emits svn_ra_svn_write_word_emits
  svn_ra_svn_start_list_emits svn_ra_svn_end_list_emits writebuf_write_short_string_emits emits_ret : emits.

(** ** Round trips of tuples *)


(** ** Tuples *)

Inductive value :=
  | V_number (n : Z)
  | V_revnum (rev : Z)
  | V_string (s : list byte)
  | V_cstring (s : list byte)
  | V_word (w : list byte)
  | V_boolean (b : bool).

Inductive field :=
  | F_value (v : value)
  | F_tuple (fields : list field) (optional : list value) (present : bool).

Implicit Types (v : value) (f : field) (fs : list field) (os : list value) (present : bool).

(** An induction principle with the fields of a tuple. *)
Lemma field_rect' (P : field → Prop) :
  (∀ v, P (F_value v)) → (∀ fs os present, Forall P fs → P (F_tuple fs os present)) → ∀ f, P f.
Proof.
  intros Hv Ht. fix IH 1. intros [v|fs os present]; [apply Hv|]. apply Ht.
  induction fs as [|f fs IHfs]; constructor; [apply IH|done].
Qed.

Definition value_fmt v : byte :=
  match v with
  | V_number _ => "n" | V_revnum _ => "r" | V_string _ => "s" | V_cstring _ => "c"
  | V_word _ => "w" | V_boolean _ => "b"
  end%byte.

Definition value_arg v : va_arg_t :=
  match v with
  | V_number n => VA_uint64 n
  | V_revnum rev => VA_revnum rev
  | V_string s => VA_string (Some s)
  | V_cstring s => VA_cstring (Some s)
  | V_word w => VA_cstring (Some w)
  | V_boolean b => VA_boolean b
  end.

Definition value_item v : svn_ra_svn_item_t :=
  match v with
  | V_number n | V_revnum n => SVN_RA_SVN_NUMBER n
  | V_string s | V_cstring s => SVN_RA_SVN_STRING s
  | V_word w => SVN_RA_SVN_WORD w
  | V_boolean b => SVN_RA_SVN_WORD (if b then bytes_of "true" else bytes_of "false")
  end.

(** The argument of a value that is not there. *)
Definition absent_arg v : va_arg_t :=
  match v with
  | V_revnum _ => VA_revnum SVN_INVALID_REVNUM
  | V_string _ => VA_string None
  | _ => VA_cstring None
  end.

(** Revision numbers are valid, and C strings have no NUL. *)
Definition value_ok v : bool :=
  match v with
  | V_revnum rev => (0 <=? rev) && (rev <=? LONG_MAX)
  | V_cstring s => bool_decide (NUL ∉ s)
  | _ => true
  end.

Definition may_be_absent v : bool :=
  match v with V_number _ | V_boolean _ => false | _ => true end.

Definition tail_fmt os : list byte := match os with [] => [] | _ => "?"%byte :: map value_fmt os end.
Definition tail_args os present : list va_arg_t := map (if present then value_arg else absent_arg) os.
Definition tail_items os present : list svn_ra_svn_item_t := if present then map value_item os else [].

Fixpoint field_fmt f : list byte :=
  match f with
  | F_value v => [value_fmt v]
  | F_tuple fs os _ => "("%byte :: concat (map field_fmt fs) ++ tail_fmt os ++ [")"%byte]
  end.

Fixpoint field_args f : list va_arg_t :=
  match f with
  | F_value v => [value_arg v]
  | F_tuple fs os present => concat (map field_args fs) ++ tail_args os present
  end.

Fixpoint field_item f : svn_ra_svn_item_t :=
  match f with
  | F_value v => value_item v
  | F_tuple fs os present => SVN_RA_SVN_LIST (map field_item fs ++ tail_items os present)
  end.

Fixpoint field_ok f : bool :=
  match f with
  | F_value v => value_ok v
  | F_tuple fs os _ => forallb field_ok fs && forallb (λ v, value_ok v && may_be_absent v) os
  end.

Definition tuple_fmt fs os : list byte := concat (map field_fmt fs) ++ tail_fmt os.
Definition tuple_args fs os present : list va_arg_t := concat (map field_args fs) ++ tail_args os present.
Definition tuple_items fs os present : list svn_ra_svn_item_t := map field_item fs ++ tail_items os present.

(** A tuple that can be written. *)
Definition tuple_ok fs os present : bool :=
  field_ok (F_tuple fs os present) && writable 63 (SVN_RA_SVN_LIST (tuple_items fs os present)).

(** ** Writing *)

(** Comparisons of given characters. *)
Ltac eval_bytes :=
  repeat match goal with
  | |- context [byte_eqb ?a ?b] => let r := eval vm_compute in (byte_eqb a b) in change (byte_eqb a b) with r
  end; cbn [andb orb negb].

Section Formats.
Context `{BH : BlockHandler} `{!BlockHandlerOk BH}.


Lemma writable_number d n : writable d (SVN_RA_SVN_NUMBER n) = true → 0 <= n <= APR_UINT64_MAX.
Proof. destruct d; cbn; [done|]. lia. Qed.

Lemma writable_string d s : writable d (SVN_RA_SVN_STRING s) = true → Z.of_nat (length s) <= APR_UINT64_MAX.
Proof. destruct d; cbn; [done|]. lia. Qed.


Lemma value_emits d v fmt args opt bs :
  value_ok v = true → (opt = true → may_be_absent v = true) → writable d (value_item v) = true →
  emits (vwrite_loop fmt args opt) bs →
  emits (vwrite_loop (value_fmt v :: fmt) (value_arg v :: args) opt) (item_text (value_item v) ++ bs).
Proof.
  intros Hok Hopt Hw Hrest.
  destruct v as [n|rev|s|s|w|b]; cbn [vwrite_loop value_fmt value_arg write_present value_item] in *; eval_bytes.
  - destruct opt; [by specialize (Hopt eq_refl)|]. cbn [negb]. apply writable_number in Hw.
    apply emits_bind; [by apply write_number_emits|done].
  - cbn in Hok. unfold SVN_IS_VALID_REVNUM. rewrite (proj2 (Z.leb_le 0 rev)) by lia. cbn [write_present].
    apply writable_number in Hw. apply emits_bind; [by apply write_number_emits|done].
  - apply writable_string in Hw. apply emits_bind; [by apply svn_ra_svn_write_string_emits|done].
  - apply writable_string in Hw. apply emits_bind; [by apply svn_ra_svn_write_string_emits|done].
  - apply emits_bind; [by apply svn_ra_svn_write_word_emits|done].
  - destruct opt; [by specialize (Hopt eq_refl)|]. cbn [negb].
    apply emits_bind; [|done]. destruct b; apply svn_ra_svn_write_word_emits.
Qed.

(** A value that is not there is passed over. *)
Lemma absent_emits v fmt args bs :
  may_be_absent v = true → emits (vwrite_loop fmt args true) bs →
  emits (vwrite_loop (value_fmt v :: fmt) (absent_arg v :: args) true) bs.
Proof. intros Hv Hrest. destruct v; try done; cbn [vwrite_loop value_fmt absent_arg write_present]; eval_bytes; done. Qed.

Lemma optional_emits d os present fmt args bs :
  forallb (λ v, value_ok v && may_be_absent v) os = true →
  forallb (writable d) (tail_items os present) = true →
  emits (vwrite_loop fmt args true) bs →
  emits (vwrite_loop (map value_fmt os ++ fmt) (tail_args os present ++ args) true)
    (items_text (tail_items os present) ++ bs).
Proof.
  intros Hok Hw Hrest. unfold tail_args, tail_items in *.
  induction os as [|v os IH]; [destruct present; apply Hrest|].
  apply andb_prop in Hok as [[Hv Ha]%andb_prop Hok]. destruct present; cbn [map app].
  - apply andb_prop in Hw as [Hwv Hw]. unfold items_text. cbn [map concat]. rewrite <- app_assoc.
    eapply value_emits; [done|done|done|by apply IH].
  - apply absent_emits; [done|]. by apply IH.
Qed.

Lemma tail_emits d os present fmt args bs :
  forallb (λ v, value_ok v && may_be_absent v) os = true →
  forallb (writable d) (tail_items os present) = true →
  (∀ opt, emits (vwrite_loop fmt args opt) bs) →
  emits (vwrite_loop (tail_fmt os ++ fmt) (tail_args os present ++ args) false)
    (items_text (tail_items os present) ++ bs).
Proof.
  intros Hok Hw Hrest. destruct os as [|v os]; [destruct present; apply Hrest|].
  change (tail_fmt (v :: os) ++ fmt) with ("?"%byte :: map value_fmt (v :: os) ++ fmt).
  cbn [vwrite_loop]. eval_bytes. by eapply optional_emits.
Qed.

Definition field_emits f : Prop :=
  ∀ d fmt args bs, field_ok f = true → writable d (field_item f) = true →
  emits (vwrite_loop fmt args false) bs →
  emits (vwrite_loop (field_fmt f ++ fmt) (field_args f ++ args) false) (item_text (field_item f) ++ bs).

Lemma fields_emits d fs fmt args bs :
  Forall field_emits fs → forallb field_ok fs = true → forallb (writable d) (map field_item fs) = true →
  emits (vwrite_loop fmt args false) bs →
  emits (vwrite_loop (concat (map field_fmt fs) ++ fmt) (concat (map field_args fs) ++ args) false)
    (items_text (map field_item fs) ++ bs).
Proof.
  intros Hall Hok Hw Hrest. induction Hall as [|f fs Hf _ IH]; [done|].
  apply andb_prop in Hok as [Hokf Hok]. apply andb_prop in Hw as [Hwf Hw].
  unfold items_text. cbn [map concat]. rewrite <- !app_assoc. eapply Hf; [done|done|by apply IH].
Qed.

(** The fields and the optional part, up to the end of the tuple. *)
Lemma tuple_emits d fs os present fmt args bs :
  Forall field_emits fs → field_ok (F_tuple fs os present) = true →
  forallb (writable d) (tuple_items fs os present) = true →
  (∀ opt, emits (vwrite_loop fmt args opt) bs) →
  emits (vwrite_loop (tuple_fmt fs os ++ fmt) (tuple_args fs os present ++ args) false)
    (items_text (tuple_items fs os present) ++ bs).
Proof.
  intros Hall [Hok1 Hok2]%andb_prop Hw Hrest. unfold tuple_items in *. rewrite forallb_app in Hw.
  apply andb_prop in Hw as [Hw1 Hw2]. unfold tuple_fmt, tuple_args, items_text. rewrite map_app, concat_app, <- !app_assoc.
  eapply fields_emits; [done|done|done|]. by eapply tail_emits.
Qed.

Lemma field_emits_all f : field_emits f.
Proof.
  induction f as [v|fs os present IH] using field_rect'; intros d fmt args bs Hok Hw Hrest.
  - by eapply value_emits.
  - destruct d as [|d]; [done|]. cbn [field_fmt field_args field_item item_text].
    replace (("("%byte :: concat (map field_fmt fs) ++ tail_fmt os ++ [")"%byte]) ++ fmt)
      with ("("%byte :: tuple_fmt fs os ++ ")"%byte :: fmt)
      by (unfold tuple_fmt; cbn; by rewrite <- !app_assoc).
    cbn [vwrite_loop]. eval_bytes. rewrite <- !app_assoc.
    apply emits_bind; [apply svn_ra_svn_start_list_emits|].
    change (concat (map field_args fs) ++ tail_args os present ++ args) with
      (concat (map field_args fs) ++ (tail_args os present ++ args)). rewrite app_assoc.
    change (concat (map field_args fs) ++ tail_args os present) with (tuple_args fs os present).
    apply (tuple_emits d fs os present); [done|done|done|]. intros opt. cbn [vwrite_loop]. eval_bytes.
    apply emits_bind; [apply svn_ra_svn_end_list_emits|done].
Qed.

Lemma tuple_fmt_start fs os args :
  vwrite_tuple (tuple_fmt fs os) args = (svn_ra_svn_start_list;; vwrite_loop (tuple_fmt fs os) args false).
Proof.
  unfold tuple_fmt. destruct fs as [|[v|fs' os' p] fs].
  - destruct os; [done|]. unfold vwrite_tuple. cbn [map concat app tail_fmt]. by eval_bytes.
  - destruct v; unfold vwrite_tuple; cbn [map concat app field_fmt value_fmt]; by eval_bytes.
  - unfold vwrite_tuple. cbn [map concat app field_fmt]. by eval_bytes.
Qed.

Lemma write_tuple_emits fs os present :
  tuple_ok fs os present = true →
  emits (svn_ra_svn_write_tuple (tuple_fmt fs os) (tuple_args fs os present))
    (item_text (SVN_RA_SVN_LIST (tuple_items fs os present))).
Proof.
  intros [Hok Hw]%andb_prop. unfold svn_ra_svn_write_tuple. rewrite tuple_fmt_start. cbn [item_text].
  apply emits_bind; [apply svn_ra_svn_start_list_emits|].
  rewrite <- (app_nil_r (tuple_fmt fs os)), <- (app_nil_r (tuple_args fs os present)).
  eapply tuple_emits; [|done|done|].
  - apply Forall_forall. intros f _. apply field_emits_all.
  - intros opt. apply svn_ra_svn_end_list_emits.
Qed.

End Formats.

(** ** Parsing *)

(** Where a tuple ends: at the end of the format or before a parenthesis. *)
Definition ends fmt : Prop := fmt = [] ∨ ∃ rest, fmt = ")"%byte :: rest.

Lemma parse_end_ends fmt args : ends fmt → parse_end fmt args = Ok (fmt, args).
Proof. by intros [->|[rest ->]]. Qed.

Lemma parse_value_ok v : value_ok v = true → parse_value (value_fmt v) (value_item v) = Some (value_arg v).
Proof.
  intros Hok. destruct v as [n|rev|s|s|w|[]]; cbn [parse_value value_fmt value_item value_arg] in *;
    eval_bytes; try done.
  - cbn in Hok. rewrite s64_small by (unfold LONG_MAX in Hok; lia). done.
  - cbn in Hok. apply bool_decide_eq_true_1 in Hok. by rewrite cstring_no_nul.
Qed.

Lemma value_fmt_not_opt v : (value_fmt v =b? "?"%byte) = false.
Proof. by destruct v. Qed.

Lemma vparse_value fuel v items fmt args :
  value_ok v = true →
  vparse_loop (S fuel) (value_item v :: items) (value_fmt v :: fmt) args
  = vparse_loop fuel items fmt (args ++ [value_arg v]).
Proof.
  intros Hok. cbn [vparse_loop]. rewrite value_fmt_not_opt. cbn [deref]. by rewrite parse_value_ok.
Qed.

Lemma vparse_opt fuel v items fmt args :
  value_ok v = true →
  vparse_loop (S fuel) (value_item v :: items) ("?"%byte :: value_fmt v :: fmt) args
  = vparse_loop fuel items fmt (args ++ [value_arg v]).
Proof. intros Hok. cbn [vparse_loop]. eval_bytes. cbn [deref]. by rewrite parse_value_ok. Qed.

Lemma vparse_values fuel os fmt args :
  forallb value_ok os = true → (length (map value_fmt os ++ fmt) < fuel)%nat → ends fmt →
  vparse_loop fuel (map value_item os) (map value_fmt os ++ fmt) args = Ok (fmt, args ++ map value_arg os).
Proof.
  revert fuel args. induction os as [|v os IH]; intros fuel args Hok Hf He; (destruct fuel as [|fuel]; [lia|]).
  - cbn [map app]. rewrite app_nil_r. destruct He as [->|[rest ->]]; [done|]. cbn [vparse_loop]. by rewrite parse_end_ends; [|right; eexists].
  - apply andb_prop in Hok as [Hv Hok]. cbn [map app] in *. rewrite vparse_value by done.
    rewrite IH; [by rewrite <- app_assoc|done|cbn in Hf; lia|done].
Qed.

Lemma parse_absent_opt fmt n args : parse_absent ("?"%byte :: fmt) n args = parse_absent fmt n args.
Proof. done. Qed.

Lemma parse_absent_ok os fmt args :
  forallb may_be_absent os = true → ends fmt →
  parse_absent (map value_fmt os ++ fmt) 0 args = Ok (fmt, args ++ map absent_arg os).
Proof.
  revert args. induction os as [|v os IH]; intros args Hok He.
  - cbn [map app]. rewrite app_nil_r. by destruct He as [->|[rest ->]].
  - apply andb_prop in Hok as [Hv Hok]. cbn [map app parse_absent].
    destruct v; try done; cbn [value_fmt]; eval_bytes; rewrite IH by done; by rewrite <- app_assoc.
Qed.

Lemma forallb_both {A} (p q : A → bool) (l : list A) :
  forallb (λ x, p x && q x) l = true → forallb p l = true ∧ forallb q l = true.
Proof. rewrite !forallb_forall. intros H. split; intros x Hx; by destruct (andb_prop _ _ (H x Hx)). Qed.

Lemma vparse_tail fuel os present fmt args :
  forallb (λ v, value_ok v && may_be_absent v) os = true → (length (tail_fmt os ++ fmt) < fuel)%nat → ends fmt →
  vparse_loop fuel (tail_items os present) (tail_fmt os ++ fmt) args = Ok (fmt, args ++ tail_args os present).
Proof.
  intros [Hok Ha]%forallb_both Hf He. destruct fuel as [|fuel]; [lia|].
  destruct os as [|v os].
  { unfold tail_items, tail_args. cbn [tail_fmt app map] in *.
    replace (if present then [] else []) with ([] : list svn_ra_svn_item_t) by by destruct present.
    apply (vparse_values (S fuel) []); done. }
  destruct present; unfold tail_items, tail_args; cbn [tail_fmt map app] in *.
  - apply andb_prop in Hok as [Hv Hok]. rewrite vparse_opt by done.
    rewrite vparse_values; [by rewrite <- app_assoc|done|cbn in Hf; lia|done].
  - cbn [vparse_loop]. unfold parse_end. cbn [deref]. eval_bytes. rewrite parse_absent_opt.
    rewrite (parse_absent_ok (v :: os) fmt) by done. cbn [rbind]. by destruct He as [->|[rest ->]].
Qed.

Definition field_parses f : Prop :=
  ∀ fuel items fmt args r, field_ok f = true → (length (field_fmt f ++ fmt) < fuel)%nat →
  (∀ fuel', (length fmt < fuel')%nat → vparse_loop fuel' items fmt (args ++ field_args f) = r) →
  vparse_loop fuel (field_item f :: items) (field_fmt f ++ fmt) args = r.

Lemma fields_parses fs fuel items fmt args r :
  Forall field_parses fs → forallb field_ok fs = true → (length (concat (map field_fmt fs) ++ fmt) < fuel)%nat →
  (∀ fuel', (length fmt < fuel')%nat → vparse_loop fuel' items fmt (args ++ concat (map field_args fs)) = r) →
  vparse_loop fuel (map field_item fs ++ items) (concat (map field_fmt fs) ++ fmt) args = r.
Proof.
  intros Hall. revert fuel args. induction Hall as [|f fs Hf _ IH]; intros fuel args Hok Hl Hk.
  - cbn in *. apply (Hk fuel) in Hl. by rewrite app_nil_r in Hl.
  - apply andb_prop in Hok as [Hokf Hok]. cbn [map concat app] in *. rewrite <- app_assoc in *.
    apply Hf; [done|done|]. intros fuel' Hf'. apply IH; [done|done|]. intros fuel2 H2.
    rewrite <- app_assoc. by apply Hk.
Qed.

Lemma tuple_parses fs os present fuel fmt args :
  Forall field_parses fs → field_ok (F_tuple fs os present) = true →
  (length (tuple_fmt fs os ++ fmt) < fuel)%nat → ends fmt →
  vparse_loop fuel (tuple_items fs os present) (tuple_fmt fs os ++ fmt) args
  = Ok (fmt, args ++ tuple_args fs os present).
Proof.
  intros Hall [Hok1 Hok2]%andb_prop Hf He. unfold tuple_items, tuple_fmt, tuple_args in *. rewrite <- app_assoc in *.
  apply fields_parses; [done|done|done|]. intros fuel' Hf'. rewrite vparse_tail; [by rewrite <- app_assoc|done..].
Qed.

Lemma field_parses_all f : field_parses f.
Proof.
  induction f as [v|fs os present IH] using field_rect'; intros fuel items fmt args r Hok Hl Hk;
    (destruct fuel as [|fuel]; [lia|]).
  - cbn [field_fmt field_item app] in *. rewrite vparse_value by done. apply Hk. cbn in Hl. lia.
  - cbn [field_fmt field_item] in *.
    assert (("("%byte :: concat (map field_fmt fs) ++ tail_fmt os ++ [")"%byte]) ++ fmt
      = "("%byte :: tuple_fmt fs os ++ ")"%byte :: fmt) as Heq by (unfold tuple_fmt; cbn; by rewrite <- !app_assoc).
    rewrite Heq in *. cbn [vparse_loop]. eval_bytes. cbn [deref parse_value]. eval_bytes. cbn [drop].
    cbn [length] in Hl. change (map field_item fs ++ tail_items os present) with (tuple_items fs os present).
    rewrite drop_0, tuple_parses; [|done|done|lia|right; by eexists]. cbn [rbind drop]. apply Hk.
    rewrite length_app in Hl. cbn in Hl. lia.
Qed.

Lemma svn_ra_svn_parse_tuple_items fs os present :
  field_ok (F_tuple fs os present) = true →
  svn_ra_svn_parse_tuple (tuple_items fs os present) (tuple_fmt fs os) = Ok (tuple_args fs os present).
Proof.
  intros Hok. unfold svn_ra_svn_parse_tuple, vparse_tuple.
  rewrite <- (app_nil_r (tuple_fmt fs os)) at 2. rewrite tuple_parses.
  - done.
  - apply Forall_forall. intros f _. apply field_parses_all.
  - done.
  - rewrite app_nil_r. lia.
  - by left.
Qed.

(** ** Round trips *)

(** What one side writes and flushes, the other side reads. *)
Lemma flushed_tuple `{BH : BlockHandler} `{!BlockHandlerOk BH} (m : M ()) bs c :
  emits m bs → live c → output c = [] →
  ∃ c', (m;; svn_ra_svn_flush) c = (c', Ok ()) ∧ live c' ∧ sent c' = bs ∧ write_buf c' = [].
Proof.
  intros Hm Hl Ho. destruct (Hm c (live_fits _ Hl)) as (c1 & r1 & H1 & _ & Hr1 & Hl1).
  destruct (Hl1 Hl) as (-> & Hlc1 & _). rewrite Ho in Hr1.
  destruct (writebuf_flush_run c1) as (c2 & r2 & H2 & Hw2 & Hr2 & Hl2). destruct (Hl2 Hlc1) as (-> & Hlc2 & _).
  exists c2. rewrite (run_bind _ _ _ _ _ H1). split_and!; [done|done| |done].
  unfold output in Hr2 at 1. by rewrite Hw2, app_nil_r, Hr1 in Hr2.
Qed.

Lemma read_tuple_parses `{BH : BlockHandler} `{!BlockHandlerOk BH} fs os present :
  tuple_ok fs os present = true →
  parses (svn_ra_svn_read_tuple (tuple_fmt fs os)) (item_text (SVN_RA_SVN_LIST (tuple_items fs os present)))
    (tuple_args fs os present).
Proof.
  intros [Hok Hw]%andb_prop. unfold svn_ra_svn_read_tuple.
  eapply (parses_then _ _ _ []); [by apply item_text_parses| |by rewrite app_nil_r].
  cbn iota. rewrite svn_ra_svn_parse_tuple_items by done. apply parses_ret.
Qed.

(** C16: A tuple that is written with a format string and flushed is read
    with the same format as the same values, and nothing after it is
    touched, for every format of nested tuples with optional tails and all
    values that the format can carry, in whatever pieces the transport takes
    and delivers the bytes. *)
Theorem svn_ra_svn_tuple_round_trip `{BH : BlockHandler} `{!BlockHandlerOk BH} fs os present c :
  tuple_ok fs os present = true → live c → output c = [] →
  ∃ c', (svn_ra_svn_write_tuple (tuple_fmt fs os) (tuple_args fs os present);; svn_ra_svn_flush) c = (c', Ok ())
  ∧ ∀ d rest, live d → unread d = sent c' ++ rest →
    ∃ d', svn_ra_svn_read_tuple (tuple_fmt fs os) d = (d', Ok (tuple_args fs os present)) ∧ unread d' = rest.
Proof.
  intros Hok Hl Ho. destruct (flushed_tuple _ _ c (write_tuple_emits fs os present Hok) Hl Ho) as (c' & Hrun & _ & Hs & _).
  exists c'. split; [done|]. intros d rest Hd Hu. rewrite Hs in Hu.
  destruct (read_tuple_parses fs os present Hok d rest Hd Hu) as (d' & Hd' & Ha). exists d'. split; [done|apply Ha].
Qed.

(** [c(?r)b] with and without the revision: [( 1:x ( 3 ) true )]. *)
Lemma svn_ra_svn_tuple_round_trip_witness :
  let fs := [F_value (V_cstring (bytes_of "x")); F_tuple [] [V_revnum 3] false; F_value (V_boolean true)] in
  let c := svn_ra_svn_create_conn2 [] [] in
  ∃ c', (svn_ra_svn_write_tuple (tuple_fmt fs []) (tuple_args fs [] true);; svn_ra_svn_flush) c = (c', Ok ())
  ∧ ∀ d rest, live d → unread d = sent c' ++ rest →
    ∃ d', svn_ra_svn_read_tuple (tuple_fmt fs []) d = (d', Ok (tuple_args fs [] true)) ∧ unread d' = rest.
Proof.
  apply (@svn_ra_svn_tuple_round_trip no_handler no_handler_ok
    [F_value (V_cstring (bytes_of "x")); F_tuple [] [V_revnum 3] false; F_value (V_boolean true)] [] true).
  - vm_compute. reflexivity.
  - split; [cbn [write_buf svn_ra_svn_create_conn2 length]; lia|done|done|done].
  - reflexivity.
Defined.
