(* ===== verification/MarshalCommands.v ===== *)
(** * Commands, responses and the command loop

    The last part of [marshal.c]: responses and error chains come back on the
    other side as they were sent, and the loop that serves commands ends. *)
From S2P Require Import Prelude Numbers Cstrings Marshal MarshalBuffers MarshalItems MarshalDelivery MarshalFormats.

Implicit Types (bs rest s w fmt : list byte) (c d : svn_ra_svn_conn_t) (err : list svn_error_link).

(** ** A word and a list *)

Lemma writable_number_eq k n : writable (S k) (SVN_RA_SVN_NUMBER n) = (0 <=? n) && (n <=? APR_UINT64_MAX).
Proof. done. Qed.
Lemma writable_string_eq k s : writable (S k) (SVN_RA_SVN_STRING s) = (Z.of_nat (length s) <=? APR_UINT64_MAX).
Proof. done. Qed.
Lemma writable_list_eq k items : writable (S k) (SVN_RA_SVN_LIST items) = forallb (writable k) items.
Proof. done. Qed.

Definition reply_item w (items : list svn_ra_svn_item_t) : svn_ra_svn_item_t :=
  SVN_RA_SVN_LIST [SVN_RA_SVN_WORD w; SVN_RA_SVN_LIST items].

Lemma parse_wl w items :
  svn_ra_svn_parse_tuple [SVN_RA_SVN_WORD w; SVN_RA_SVN_LIST items] (bytes_of "wl")
  = Ok [VA_cstring (Some w); VA_list (Some items)].
Proof. done. Qed.

Lemma reply_text w items :
  item_text (reply_item w items) = bytes_of "( " ++ w ++ bytes_of " ( " ++ items_text items ++ bytes_of ") ) ".
Proof. unfold reply_item, items_text. cbn. rewrite <- !app_assoc. cbn. by rewrite <- !app_assoc. Qed.

Section Responses.
Context `{BH : BlockHandler} `{!BlockHandlerOk BH}.

Lemma read_wl_parses w items :
  is_word w = true → forallb (writable 61) items = true →
  parses (svn_ra_svn_read_tuple (bytes_of "wl")) (item_text (reply_item w items))
    [VA_cstring (Some w); VA_list (Some items)].
Proof.
  intros Hw Hi. unfold svn_ra_svn_read_tuple. eapply (parses_then _ _ _ []); [| |by rewrite app_nil_r].
  - apply item_text_parses. change (is_word w && (forallb (writable 61) items && true) = true).
    by rewrite Hw, Hi.
  - unfold reply_item. cbn iota. rewrite parse_wl. apply parses_ret.
Qed.

(** Lists may be nested as deep in the parameters as two levels less allow. *)
Definition params_ok fs os present : bool :=
  field_ok (F_tuple fs os present) && forallb (writable 61) (tuple_items fs os present).

Lemma writable_mono (m n : nat) it : (m <= n)%nat → writable m it = true → writable n it = true.
Proof.
  revert n it. induction m as [|m IH]; [done|]. intros [|n] it Hd Hw; [lia|].
  destruct it; cbn [writable] in *; try done. apply forallb_forall. intros it Hin.
  rewrite forallb_forall in Hw. apply IH; [lia|by apply Hw].
Qed.

Lemma params_tuple_ok fs os present : params_ok fs os present = true → tuple_ok fs os present = true.
Proof.
  intros [Hok Hw]%andb_prop. unfold tuple_ok. rewrite Hok.
  change (forallb (writable 62) (tuple_items fs os present) = true). apply forallb_forall.
  intros it Hin. rewrite forallb_forall in Hw. apply (writable_mono 61); [lia|by apply Hw].
Qed.

(** ** Commands and successful responses *)

Lemma write_cmd_emits name fs os present :
  params_ok fs os present = true →
  emits (svn_ra_svn_write_cmd name (tuple_fmt fs os) (tuple_args fs os present))
    (item_text (reply_item name (tuple_items fs os present))).
Proof.
  intros Hok. unfold svn_ra_svn_write_cmd. rewrite reply_text.
  eapply emits_then; [apply svn_ra_svn_start_list_emits| |done].
  eapply emits_then; [apply svn_ra_svn_write_word_emits| |].
  { eapply emits_bind; [apply write_tuple_emits; by apply params_tuple_ok|apply svn_ra_svn_end_list_emits]. }
  cbn [item_text]. rewrite <- !app_assoc.  done.
Qed.

Lemma write_cmd_response_emits fs os present :
  params_ok fs os present = true →
  emits (svn_ra_svn_write_cmd_response (tuple_fmt fs os) (tuple_args fs os present))
    (item_text (reply_item (bytes_of "success") (tuple_items fs os present))).
Proof.
  intros Hok. unfold svn_ra_svn_write_cmd_response. rewrite reply_text.
  eapply emits_then; [apply writebuf_write_short_string_emits| |].
  { eapply emits_bind; [apply write_tuple_emits; by apply params_tuple_ok|apply svn_ra_svn_end_list_emits]. }
  cbn [item_text]. rewrite <- !app_assoc. done.
Qed.

(** ** Error chains *)

Context `{ErrorText}.

(** What the other side makes of a link. *)
Definition received_link (link : svn_error_link) : svn_error_link :=
  MkLink (apr_err link)
    (let msg := svn_err_best_message link in match msg with [] => None | _ => Some msg end)
    (Some (match file link with Some file => file | None => [] end)) (line link).

Definition received err : list svn_error_link :=
  map received_link (filter (λ link, apr_err link ≠ SVN_ERR_RA_SVN_CMD_ERR) err).

(** The fields have values of their C types. *)
Record link_ok (link : svn_error_link) : Prop := LinkOk {
  link_err : - 0x80000000 <= apr_err link < 0x80000000;
  link_line : - 0x8000000000000000 <= line link < 0x8000000000000000;
  link_message : NUL ∉ svn_err_best_message link
    ∧ Z.of_nat (length (svn_err_best_message link)) <= APR_UINT64_MAX;
  link_file : match file link with Some file => NUL ∉ file ∧ Z.of_nat (length file) <= APR_UINT64_MAX | None => True end;
}.

Definition link_fields (link : svn_error_link) : list field :=
  [F_value (V_number (u64 (apr_err link))); F_value (V_cstring (svn_err_best_message link));
   F_value (V_cstring (match file link with Some file => file | None => [] end));
   F_value (V_number (u64 (line link)))].

Definition link_item (link : svn_error_link) : svn_ra_svn_item_t :=
  SVN_RA_SVN_LIST (tuple_items (link_fields link) [] false).

Lemma s32_u64 n : - 0x80000000 <= n < 0x80000000 → s32 (u64 n) = n.
Proof.
  intros Hn. unfold s32, u64. destruct (Z.lt_ge_cases n 0) as [Hneg|Hpos].
  - rewrite (Z.mod_eq n) by lia. assert (n / 0x10000000000000000 = -1) as -> by (symmetry; apply Z.div_unique with (n + 0x10000000000000000); lia).
    replace (n - 0x10000000000000000 * -1 + 0x80000000) with (n + 0x80000000 + 0x100000000 * 0x100000000) by lia.
    rewrite Z.mod_add, Z.mod_small by lia. lia.
  - rewrite (Z.mod_small n) by lia. rewrite Z.mod_small; lia.
Qed.

Lemma s64_u64 n : - 0x8000000000000000 <= n < 0x8000000000000000 → s64 (u64 n) = n.
Proof.
  intros Hn. unfold s64, u64. rewrite Zplus_mod_idemp_l, Z.mod_small; lia.
Qed.

Lemma u64_range n : 0 <= u64 n <= APR_UINT64_MAX.
Proof. unfold u64, APR_UINT64_MAX. pose proof (Z.mod_pos_bound n 0x10000000000000000). lia. Qed.

Lemma link_tuple_ok link : link_ok link → params_ok (link_fields link) [] false = true.
Proof.
  intros [He Hl [Hm Hml] Hf]. unfold params_ok, link_fields, tuple_items, tail_items.
  assert (NUL ∉ match file link with Some file => file | None => [] end
    ∧ Z.of_nat (length (match file link with Some file => file | None => [] end)) <= APR_UINT64_MAX) as [Hf1 Hf2].
  { destruct (file link); [done|]. split; [apply not_elem_of_nil|by vm_compute]. }
  pose proof (u64_range (apr_err link)). pose proof (u64_range (line link)).
  cbn [field_ok forallb value_ok map app field_item value_item].
  rewrite !bool_decide_eq_true_2 by done. rewrite !writable_number_eq, !writable_string_eq. cbn [andb].
  repeat (apply andb_true_intro; split); try done; lia.
Qed.

Lemma link_item_writable link : link_ok link → writable 61 (link_item link) = true.
Proof.
  intros Hok. unfold link_item. destruct (andb_prop _ _ (link_tuple_ok link Hok)) as [_ Hw].
  unfold link_fields, tuple_items, tail_items in *.
  cbn [map app field_item value_item forallb] in *.
  rewrite writable_list_eq. cbn [forallb]. by rewrite !writable_number_eq, !writable_string_eq in *.
Qed.

Lemma write_failure_links_emits err :
  Forall link_ok err → emits (write_failure_links err) (items_text (map link_item err)).
Proof.
  induction 1 as [|link err Hlink _ IH]; [apply emits_ret|]. cbn [write_failure_links].
  unfold items_text. cbn [map concat]. apply emits_bind; [|done].
  apply (write_tuple_emits (link_fields link) [] false). by apply params_tuple_ok, link_tuple_ok.
Qed.

Lemma write_cmd_failure_emits err :
  Forall link_ok err →
  emits (svn_ra_svn_write_cmd_failure err) (item_text (reply_item (bytes_of "failure") (map link_item err))).
Proof.
  intros Hok. unfold svn_ra_svn_write_cmd_failure. rewrite reply_text.
  eapply emits_then; [apply writebuf_write_short_string_emits| |].
  { apply emits_bind; [by apply write_failure_links_emits|apply writebuf_write_short_string_emits]. }
  done.
Qed.

Lemma failure_link_ok link err :
  link_ok link →
  failure_link (link_item link) err
  = Ok (if decide (apr_err link ≠ SVN_ERR_RA_SVN_CMD_ERR) then received_link link :: err else err).
Proof.
  intros Hok. unfold failure_link, link_item.
  change (bytes_of "nccn") with (tuple_fmt (link_fields link) []).
  destruct (andb_prop _ _ (link_tuple_ok link Hok)) as [Hf _].
  rewrite svn_ra_svn_parse_tuple_items by done. cbn [rbind tuple_args link_fields map concat field_args value_arg app tail_args].
  rewrite s32_u64, s64_u64 by apply Hok. destruct (decide (apr_err link ≠ SVN_ERR_RA_SVN_CMD_ERR)) as [Hd|Hd].
  - rewrite (proj2 (Z.eqb_neq _ _) Hd). done.
  - assert (apr_err link = SVN_ERR_RA_SVN_CMD_ERR) as -> by (destruct (decide (apr_err link = SVN_ERR_RA_SVN_CMD_ERR)); done).
    by rewrite Z.eqb_refl.
Qed.

Lemma failure_loop_ok err : Forall link_ok err → failure_loop (map link_item err) = Ok (received err).
Proof.
  induction 1 as [|link err Hlink _ IH]; [done|]. cbn [map failure_loop]. rewrite IH. cbn [rbind].
  rewrite failure_link_ok by done. unfold received. by rewrite filter_cons; destruct (decide _).
Qed.

Lemma failure_parses fmt err :
  Forall link_ok err → received err ≠ [] →
  parses (svn_ra_svn_read_cmd_response fmt) (item_text (reply_item (bytes_of "failure") (map link_item err)))
    (inr (received err)).
Proof.
  intros Hok Hne. unfold svn_ra_svn_read_cmd_response.
  eapply (parses_then _ _ (item_text (reply_item (bytes_of "failure") (map link_item err))) []);
    [apply read_wl_parses; [done|]| |by rewrite app_nil_r].
  { apply forallb_forall. intros it Hin. apply in_map_iff in Hin as (link & <- & Hin).
    apply link_item_writable. rewrite Forall_forall in Hok. apply Hok. by apply list_elem_of_In. }
  cbn iota. change (strcmp (bytes_of "failure") (bytes_of "success") =? 0) with false.
  change (strcmp (bytes_of "failure") (bytes_of "failure") =? 0) with true. cbn iota.
  assert (svn_ra_svn__handle_failure_status (map link_item err) = Ok (received err)) as ->.
  { unfold svn_ra_svn__handle_failure_status. rewrite failure_loop_ok by done. cbn [rbind].
    destruct err; [done|]. cbn [map]. by destruct (received _). }
  apply parses_ret.
Qed.

Lemma success_parses fs os present :
  params_ok fs os present = true →
  parses (svn_ra_svn_read_cmd_response (tuple_fmt fs os))
    (item_text (reply_item (bytes_of "success") (tuple_items fs os present))) (inl (tuple_args fs os present)).
Proof.
  intros [Hf Hw]%andb_prop. unfold svn_ra_svn_read_cmd_response.
  eapply (parses_then _ _ (item_text (reply_item (bytes_of "success") (tuple_items fs os present))) []);
    [by apply read_wl_parses| |by rewrite app_nil_r].
  cbn iota. change (strcmp (bytes_of "success") (bytes_of "success") =? 0) with true. cbn iota.
  rewrite svn_ra_svn_parse_tuple_items by done. apply parses_ret.
Qed.

End Responses.

(** The response to a command is read as it was written: a success with its
    values, a failure with its error chain less the links of the server's
    own wrapping. *)
Theorem svn_ra_svn_response_round_trip `{BH : BlockHandler} `{!BlockHandlerOk BH} `{ErrorText}
    fs os present err fmt c :
  params_ok fs os present = true → Forall link_ok err → received err ≠ [] → live c → output c = [] →
  (∃ c', (svn_ra_svn_write_cmd_response (tuple_fmt fs os) (tuple_args fs os present);; svn_ra_svn_flush) c
         = (c', Ok ())
    ∧ ∀ d rest, live d → unread d = sent c' ++ rest →
      ∃ d', svn_ra_svn_read_cmd_response (tuple_fmt fs os) d = (d', Ok (inl (tuple_args fs os present)))
            ∧ unread d' = rest)
  ∧ (∃ c', (svn_ra_svn_write_cmd_failure err;; svn_ra_svn_flush) c = (c', Ok ())
    ∧ ∀ d rest, live d → unread d = sent c' ++ rest →
      ∃ d', svn_ra_svn_read_cmd_response fmt d = (d', Ok (inr (received err))) ∧ unread d' = rest).
Proof.
  intros Hp He Hr Hl Ho. split.
  - destruct (flushed_tuple _ _ c (write_cmd_response_emits fs os present Hp) Hl Ho) as (c' & Hrun & _ & Hs & _).
    exists c'. split; [done|]. intros d rest Hd Hu. rewrite Hs in Hu.
    destruct (success_parses fs os present Hp d rest Hd Hu) as (d' & Hd' & Ha). exists d'. split; [done|apply Ha].
  - destruct (flushed_tuple _ _ c (write_cmd_failure_emits err He) Hl Ho) as (c' & Hrun & _ & Hs & _).
    exists c'. split; [done|]. intros d rest Hd Hu. rewrite Hs in Hu.
    destruct (failure_parses fmt err He Hr d rest Hd Hu) as (d' & Hd' & Ha). exists d'. split; [done|apply Ha].
Qed.

(** ** The command loop *)

Section Loop.
Context `{BH : BlockHandler} `{!BlockHandlerOk BH} `{ErrorText} {B : Type}.

(** A handler returns, may read and write, and gives errors with fields of
    their types. *)
Definition handler_ok (h : list svn_ra_svn_item_t → B → M (B * list svn_error_link)) : Prop :=
  ∀ params baton c, live c →
  ∃ c' r, h params baton c = (c', r) ∧ live c' ∧ (length (unread c') <= length (unread c))%nat
  ∧ match r with
    | Ok (_, err) => Forall link_ok err
    | Error _ | Aborted => True
    | Undefined | OutOfFuel => False
    end.

Lemma parse_wl_cases items :
  svn_ra_svn_parse_tuple items (bytes_of "wl") = Error SVN_ERR_RA_SVN_MALFORMED_DATA
  ∨ ∃ w params more, items = SVN_RA_SVN_WORD w :: SVN_RA_SVN_LIST params :: more
    ∧ svn_ra_svn_parse_tuple items (bytes_of "wl") = Ok [VA_cstring (Some w); VA_list (Some params)].
Proof.
  destruct items as [|[n|s|w|l] items]; [by left|by left|by left| |by left].
  destruct items as [|[n|s|w2|l] items]; [by left|by left|by left|by left|].
  right. exists w, l, items. split; [done|]. by destruct items.
Qed.

Lemma word_no_nul w : is_word w = true → NUL ∉ w.
Proof.
  intros Hw Hin. assert (Forall (λ b, word_char b = true) w) as Hall.
  { destruct w as [|ch s]; [done|]. apply andb_prop in Hw as [Ha Hs]. constructor.
    - unfold word_char, svn_ctype_isalnum. by rewrite Ha.
    - apply Forall_forall. intros b Hb. rewrite forallb_forall in Hs. apply Hs. by apply list_elem_of_In. }
  rewrite Forall_forall in Hall. by specialize (Hall _ Hin).
Qed.

Lemma wire_word_inv n w s : wire n (SVN_RA_SVN_WORD w) s → is_word w = true ∧ (length w <= length s)%nat.
Proof.
  intros Hw. inversion Hw; subst. split; [by cbn; apply andb_true_intro|]. cbn. rewrite length_app. lia.
Qed.

(** The command that was read: its name is a word. *)
Lemma read_command_reads eod c :
  live c →
  ∃ c' r, read_command eod c = (c', r) ∧ after c c' (unread c')
  ∧ match r with
    | Ok None => True
    | Ok (Some args) => (length (unread c') < length (unread c))%nat
        ∧ ∃ w params, args = [VA_cstring (Some w); VA_list (Some params)]
          ∧ NUL ∉ w ∧ (length w <= length (unread c))%nat
    | Error _ => True
    | _ => False
    end.
Proof.
  intros Hl. unfold read_command, svn_ra_svn_read_tuple.
  destruct (svn_ra_svn_read_item_reads c Hl) as (c1 & r1 & H1 & Ha1 & Hr1).
  destruct r1 as [it|e| | |]; try done.
  2:{ rewrite (run_bind_error _ _ _ _ _ H1). destruct (_ && _); by eexists _, _. }
  rewrite (run_bind _ _ _ _ _ H1). destruct Hr1 as (bs & Hu & sp & s & -> & Hsp & Hw).
  destruct it as [n|s'|w|items]; try (unfold throw, lift; destruct (_ && _); by eexists _, _).
  destruct (parse_wl_cases items) as [->|(w & params & more & -> & ->)].
  { unfold lift. destruct (_ && _); by eexists _, _. }
  unfold lift. eexists _, _. split; [done|]. split; [done|]. split.
  - rewrite Hu, !length_app. destruct (wire_head _ _ _ Hw) as (ch & bs & -> & _). cbn. lia.
  - exists w, params. split; [done|]. inversion Hw as [| | |? ? body sp' w' Hws]; subst.
    inversion Hws as [|? sp2 ? s2 ? body2 ? Hw2]; subst. destruct (wire_word_inv _ _ _ Hw2) as [Hword Hlen].
    split; [by apply word_no_nul|]. rewrite Hu, !length_app. cbn. rewrite !length_app. lia.
Qed.

Lemma unknown_command_ok w :
  NUL ∉ w → Z.of_nat (length w) + 100 <= APR_UINT64_MAX →
  svn_ra_svn__locate_real_error_child (unknown_command w)
  = Ok [MkLink SVN_ERR_RA_SVN_UNKNOWN_CMD (Some (bytes_of "Unknown command '" ++ w ++ bytes_of "'")) None 0]
  ∧ Forall link_ok [MkLink SVN_ERR_RA_SVN_UNKNOWN_CMD (Some (bytes_of "Unknown command '" ++ w ++ bytes_of "'")) None 0].
Proof.
  intros Hn Hlen. split; [done|]. constructor; [|done].
  split; [unfold SVN_ERR_RA_SVN_UNKNOWN_CMD, SVN_ERR_RA_SVN_CATEGORY_START; cbn; lia|cbn; lia| |done].
  cbn [svn_err_best_message message]. split.
  - intros [Hin|[Hin|Hin]%elem_of_app]%elem_of_app; [|done|]; by revert Hin; apply (bool_decide_eq_true_1 _).
  - rewrite !length_app. cbn. lia.
Qed.

Lemma locate_loop_ok err : Forall link_ok err → Forall link_ok (locate_loop err).
Proof. induction 1 as [|link err Hl Hall IH]; [done|]. cbn. destruct (_ =? _); [done|by constructor]. Qed.

Lemma commands_loop_ends fuel cmd_hash eod (baton : B) c :
  live c → (length (unread c) < fuel)%nat → Z.of_nat (length (unread c)) + 100 <= APR_UINT64_MAX →
  map_Forall (λ _ command, handler_ok (handler command)) cmd_hash →
  ∃ c' r, commands_loop fuel cmd_hash eod baton c = (c', r) ∧ live c'
  ∧ match r with Undefined | OutOfFuel => False | _ => True end.
Proof.
  intros Hl Hf Hsz Hh. revert baton c Hl Hf Hsz. induction fuel as [|fuel IH]; intros baton c Hl Hf Hsz; [lia|].
  cbn [commands_loop]. destruct (read_command_reads eod c Hl) as (c1 & r1 & H1 & Ha1 & Hr1).
  destruct r1 as [[args|]|e| | |]; try done.
  3:{ rewrite (run_bind_error _ _ _ _ _ H1). eexists _, _. split_and!; [done|apply Ha1|done]. }
  2:{ rewrite (run_bind _ _ _ _ _ H1). eexists _, _. split_and!; [done|apply Ha1|done]. }
  rewrite (run_bind _ _ _ _ _ H1). destruct Hr1 as (Hlt & w & params & -> & Hn & Hw).
  set (command := cmd_hash !! w).
  assert (∃ c2 r2, (match command with Some command => handler command params baton
      | None => mret (baton, unknown_command w) end) c1 = (c2, r2) ∧ live c2
      ∧ (length (unread c2) <= length (unread c1))%nat
      ∧ match r2 with
        | Ok (_, err) => Forall link_ok (locate_loop err)
        | Error _ | Aborted => True | Undefined | OutOfFuel => False end) as (c2 & r2 & H2 & Hl2 & Hle2 & Hr2).
  { unfold command. destruct (cmd_hash !! w) as [entry|] eqn:He.
    - destruct (map_Forall_lookup_1 _ _ _ _ Hh He params baton c1 (after_live _ _ _ Ha1)) as (c2 & r2 & ? & ? & ? & Hr).
      exists c2, r2. split_and!; try done. destruct r2 as [[b err]|?| | |]; try done. by apply locate_loop_ok.
    - exists c1, (Ok (baton, unknown_command w)). split_and!; [done|apply Ha1|done|].
      apply unknown_command_ok; [done|lia]. }
  destruct r2 as [[baton2 err]|e| | |]; try done.
  2:{ rewrite (run_bind_error _ _ _ _ _ H2). by eexists _, _. }
  2:{ rewrite (run_bind_aborted _ _ _ _ H2). by eexists _, _. }
  rewrite (run_bind _ _ _ _ _ H2). cbn zeta.
  assert (∀ c3, live c3 → unread c3 = unread c2 → ∃ c' r,
    (if (match command with Some command => terminate command | None => false end) then mret (baton2, [])
     else commands_loop fuel cmd_hash eod baton2) c3 = (c', r) ∧ live c'
     ∧ match r with Undefined | OutOfFuel => False | _ => True end) as Hnext.
  { intros c3 Hl3 Hu3. destruct (match command with Some command => terminate command | None => false end).
    - by eexists c3, _.
    - apply IH; [done|rewrite Hu3; lia|rewrite Hu3; lia]. }
  destruct err as [|link err]; [by apply Hnext|].
  destruct (apr_err link =? SVN_ERR_RA_SVN_CMD_ERR) eqn:Hcmd; [|by eexists _, _].
  unfold svn_ra_svn__locate_real_error_child. rewrite bool_decide_eq_false_2 by done. cbn [negb guarded].
  destruct (locate_loop (link :: err)) as [|real more] eqn:Hloc.
  { by eexists _, _. }
  rewrite bool_decide_eq_false_2 by done. cbn [negb guarded].
  rewrite (run_bind (lift (Ok (real :: more))) _ c2 c2 (real :: more)) by done.
  destruct (write_cmd_failure_emits _ Hr2 c2 (live_fits _ Hl2)) as (c3 & r3 & H3 & _ & _ & Hl3).
  destruct (Hl3 Hl2) as (-> & Hlive3 & Hs3). rewrite (run_bind _ _ _ _ _ H3).
  apply Hnext; [done|by apply same_input_unread].
Qed.

End Loop.

Lemma make_cmd_hash_Forall {B} (P : svn_ra_svn_cmd_entry_t B → Prop) commands hash :
  Forall P commands → map_Forall (λ _ command, P command) hash →
  map_Forall (λ _ command, P command) (make_cmd_hash commands hash).
Proof.
  intros Hall. revert hash. induction Hall as [|command commands Hc _ IH]; intros hash Hh; [done|].
  cbn. apply IH. by apply map_Forall_insert_2.
Qed.

Lemma make_cmd_hash_none {B} (name : list byte) (commands : list (svn_ra_svn_cmd_entry_t B)) hash :
  name ∉ map cmdname commands → hash !! name = None → make_cmd_hash commands hash !! name = None.
Proof.
  revert hash. induction commands as [|command commands IH]; intros hash Hn Hh; [done|].
  cbn in *. rewrite not_elem_of_cons in Hn. destruct Hn as [Hne Hn]. apply IH; [done|].
  by rewrite lookup_insert_ne.
Qed.

(** C19: The command loop of a server ends on any bytes that a client sends,
    without undefined behaviour, when each handler does and answers errors
    that fit the protocol; it never runs more rounds than the input has
    bytes. *)
Theorem svn_ra_svn_handle_commands2_ends `{BH : BlockHandler} `{!BlockHandlerOk BH} `{ErrorText} {B}
    (commands : list (svn_ra_svn_cmd_entry_t B)) (baton : B) eod c :
  live c → Z.of_nat (length (unread c)) + 100 <= APR_UINT64_MAX →
  Forall (λ command, handler_ok (handler command)) commands →
  ∃ c' r, svn_ra_svn_handle_commands2 commands baton eod c = (c', r) ∧ live c'
  ∧ match r with Undefined | OutOfFuel => False | _ => True end.
Proof.
  intros Hl Hsz Hall. unfold svn_ra_svn_handle_commands2. setoid_rewrite run_gets.
  apply commands_loop_ends; [done|lia|done|]. by apply make_cmd_hash_Forall.
Qed.

(** A table of one command, that counts its uses and answers with success. *)
Definition example_command : svn_ra_svn_cmd_entry_t nat :=
  MkEntry (bytes_of "get-count") (λ _ n, mret (S n, [])) false.

Lemma svn_ra_svn_handle_commands2_ends_witness :
  ∃ c' r, svn_ra_svn_handle_commands2 (H := no_handler) (H0 := no_text) [example_command] 0%nat true
            (svn_ra_svn_create_conn2 [bytes_of "( get-count ( ) ) ( x"] []) = (c', r) ∧ live c'
  ∧ match r with Undefined | OutOfFuel => False | _ => True end.
Proof.
  apply (@svn_ra_svn_handle_commands2_ends no_handler no_handler_ok no_text nat [example_command] 0%nat true
    (svn_ra_svn_create_conn2 [bytes_of "( get-count ( ) ) ( x"] [])).
  - split; [cbn [write_buf svn_ra_svn_create_conn2 length]; lia|by repeat constructor|done|done].
  - vm_compute. discriminate.
  - constructor; [|constructor]. intros params n c Hl. exists c, (Ok (S n, [])). split; [reflexivity|].
    split; [exact Hl|]. split; [lia|constructor].
Defined.

(** ** A client and a server *)

Section Exchange.
Context `{BH : BlockHandler} `{!BlockHandlerOk BH} `{ErrorText}.

(** At the end of the input everything that was written has been sent. *)
Lemma read_tuple_closed fmt c :
  live c → unread c = [] →
  ∃ c', svn_ra_svn_read_tuple fmt c = (c', Error SVN_ERR_RA_SVN_CONNECTION_CLOSED)
  ∧ live c' ∧ output c' = output c ∧ write_buf c' = [].
Proof.
  intros Hl Hu. apply app_nil in Hu as [Hr Hi].
  destruct (readbuf_fill_run c Hl Hr) as (c' & Ha & Hw & [(_ & Hf)|(_ & Hne)]).
  2:{ exfalso. pose proof (after_unread _ _ _ Ha) as Hu'. unfold unread at 2 in Hu'. rewrite Hr, Hi in Hu'.
      by apply app_nil in Hu' as [? _]. }
  exists c'. split; [|split_and!; [apply Ha..|done]].
  assert (readbuf_getchar c = (c', Error SVN_ERR_RA_SVN_CONNECTION_CLOSED)) as Hg.
  { unfold readbuf_getchar. rewrite run_gets, Hr. cbn [length Nat.eqb]. by apply run_bind_error. }
  unfold svn_ra_svn_read_tuple. apply run_bind_error. unfold svn_ra_svn_read_item. apply run_bind_error.
  unfold readbuf_getchar_skip_whitespace. rewrite run_gets. cbn [skip_loop]. by apply run_bind_error.
Qed.

Definition unknown_link (name : list byte) : svn_error_link :=
  MkLink SVN_ERR_RA_SVN_UNKNOWN_CMD (Some (bytes_of "Unknown command '" ++ name ++ bytes_of "'")) None 0.

Lemma serve_unknown {B} (commands : list (svn_ra_svn_cmd_entry_t B)) (baton : B) name params d :
  live d → output d = [] → unread d = item_text (reply_item name params) →
  is_word name = true → forallb (writable 61) params = true → Z.of_nat (length name) + 100 <= APR_UINT64_MAX →
  name ∉ map cmdname commands →
  ∃ d', svn_ra_svn_handle_commands2 commands baton false d = (d', Ok (baton, [])) ∧ live d' ∧ write_buf d' = []
  ∧ sent d' = item_text (reply_item (bytes_of "failure") (map link_item [unknown_link name])).
Proof.
  intros Hd Ho Hu Hname Hparams Hlen Hnot. unfold svn_ra_svn_handle_commands2. setoid_rewrite run_gets.
  set (hash := make_cmd_hash commands ∅).
  assert (hash !! name = None) as Hnone by (apply make_cmd_hash_none; [done|apply lookup_empty]).
  assert (2 <= length (unread d))%nat as Hsize.
  { rewrite Hu, reply_text. cbn. lia. }
  destruct (length (unread d)) as [|[|size]] eqn:Hsz; [lia|lia|]. cbn [commands_loop].
  rewrite <- (app_nil_r (item_text _)) in Hu.
  destruct (read_wl_parses name params Hname Hparams d [] Hd Hu) as (d1 & H1 & Ha1).
  assert (read_command false d = (d1, Ok (Some [VA_cstring (Some name); VA_list (Some params)]))) as Hrc
    by (unfold read_command; by rewrite H1).
  setoid_rewrite (run_bind _ _ _ _ _ Hrc). rewrite Hnone. setoid_rewrite run_ret. cbn zeta.
  destruct (unknown_command_ok name (word_no_nul _ Hname) Hlen) as [Hreal Hlinks].
  cbn [unknown_command svn_error_create apr_err]. rewrite Z.eqb_refl.
  change (svn_error_create SVN_ERR_RA_SVN_CMD_ERR _ None) with (unknown_command name). rewrite Hreal.
  setoid_rewrite (run_bind (lift (Ok [unknown_link name])) _ d1 d1 [unknown_link name] eq_refl).
  destruct (write_cmd_failure_emits _ Hlinks d1 (live_fits _ (after_live _ _ _ Ha1))) as (d2 & r2 & H2 & _ & Ho2 & Hl2).
  destruct (Hl2 (after_live _ _ _ Ha1)) as (-> & Hlive2 & Hs2). setoid_rewrite (run_bind _ _ _ _ _ H2).
  destruct (read_tuple_closed (bytes_of "wl") d2 Hlive2) as (d3 & H3 & Hlive3 & Ho3 & Hw3).
  { rewrite (same_input_unread _ _ Hs2). apply Ha1. }
  assert (read_command false d2 = (d3, Ok None)) as Hrc3 by (unfold read_command; by rewrite H3).
  setoid_rewrite (run_bind _ _ _ _ _ Hrc3). exists d3. split_and!; [done|done|done|].
  assert (output d3 = sent d3) as Heq by (unfold output; by rewrite Hw3, app_nil_r).
  rewrite <- Heq, Ho3, Ho2, (after_output _ _ _ Ha1), Ho. done.
Qed.

End Exchange.

(** C18: A client that sends a command the server does not have gets the
    error SVN_ERR_RA_SVN_UNKNOWN_CMD with the command's name in its message,
    without the wrapper link that only the server is to see, and the server
    goes on and ends with success when the client disconnects. *)
Theorem svn_ra_svn_unknown_command `{BH : BlockHandler} `{!BlockHandlerOk BH} `{ErrorText} {B}
    (commands : list (svn_ra_svn_cmd_entry_t B)) (baton : B) name fs os present fmt c :
  is_word name = true → params_ok fs os present = true → Z.of_nat (length name) + 100 <= APR_UINT64_MAX →
  name ∉ map cmdname commands → live c → output c = [] →
  ∃ c', (svn_ra_svn_write_cmd name (tuple_fmt fs os) (tuple_args fs os present);; svn_ra_svn_flush) c = (c', Ok ())
  ∧ ∀ d, live d → output d = [] → unread d = sent c' →
    ∃ d', svn_ra_svn_handle_commands2 commands baton false d = (d', Ok (baton, [])) ∧ write_buf d' = []
    ∧ ∀ e rest, live e → unread e = sent d' ++ rest →
      ∃ e', svn_ra_svn_read_cmd_response fmt e =
        (e', Ok (inr [MkLink SVN_ERR_RA_SVN_UNKNOWN_CMD (Some (bytes_of "Unknown command '" ++ name ++ bytes_of "'"))
                        (Some []) 0])) ∧ unread e' = rest.
Proof.
  intros Hname Hp Hlen Hnot Hl Ho.
  destruct (flushed_tuple _ _ c (write_cmd_emits name fs os present Hp) Hl Ho) as (c' & Hrun & _ & Hs & _).
  exists c'. split; [done|]. intros d Hd Hod Hu. rewrite Hs in Hu. destruct (andb_prop _ _ Hp) as [_ Hw].
  destruct (serve_unknown commands baton name _ d Hd Hod Hu Hname Hw Hlen Hnot) as (d' & Hserve & _ & Hwd & Hsd).
  exists d'. split_and!; [done|done|]. intros e rest He Hue. rewrite Hsd in Hue.
  destruct (unknown_command_ok name (word_no_nul _ Hname) Hlen) as [_ Hlinks].
  destruct (failure_parses fmt _ Hlinks ltac:(done) e rest He Hue) as (e' & He' & Ha'). exists e'.
  split; [done|apply Ha'].
Qed.

Lemma svn_ra_svn_unknown_command_witness :
  let c := svn_ra_svn_create_conn2 [] [] in
  ∃ c', (svn_ra_svn_write_cmd (H := no_handler) (bytes_of "get-x") (tuple_fmt [F_value (V_number 5)] [])
           (tuple_args [F_value (V_number 5)] [] false);; svn_ra_svn_flush) c = (c', Ok ())
  ∧ ∀ d, live d → output d = [] → unread d = sent c' →
    ∃ d', svn_ra_svn_handle_commands2 (H := no_handler) (H0 := no_text) [example_command] 0%nat false d
            = (d', Ok (0%nat, [])) ∧ write_buf d' = []
    ∧ ∀ e rest, live e → unread e = sent d' ++ rest →
      ∃ e', svn_ra_svn_read_cmd_response (H := no_handler) (bytes_of "n") e =
        (e', Ok (inr [MkLink SVN_ERR_RA_SVN_UNKNOWN_CMD
                        (Some (bytes_of "Unknown command '" ++ bytes_of "get-x" ++ bytes_of "'"))
                        (Some []) 0])) ∧ unread e' = rest.
Proof.
  apply (@svn_ra_svn_unknown_command no_handler no_handler_ok no_text nat [example_command] 0%nat
    (bytes_of "get-x") [F_value (V_number 5)] [] false (bytes_of "n")).
  - reflexivity.
  - vm_compute. reflexivity.
  - vm_compute. discriminate.
  - by apply (bool_decide_eq_true_1 _).
  - split; [cbn [write_buf svn_ra_svn_create_conn2 length]; lia|done|done|done].
  - reflexivity.
Defined.

Lemma svn_ra_svn_response_round_trip_witness :
  let fs := [F_value (V_number 7)] in
  let err := [MkLink 160013 (Some (bytes_of "Path not found")) None 12; MkLink 210000 None None 0] in
  let c := svn_ra_svn_create_conn2 [] [] in
  (∃ c', (svn_ra_svn_write_cmd_response (H := no_handler) (tuple_fmt fs []) (tuple_args fs [] false);; svn_ra_svn_flush) c
         = (c', Ok ())
    ∧ ∀ d rest, live d → unread d = sent c' ++ rest →
      ∃ d', svn_ra_svn_read_cmd_response (H := no_handler) (tuple_fmt fs []) d = (d', Ok (inl (tuple_args fs [] false)))
            ∧ unread d' = rest)
  ∧ (∃ c', (svn_ra_svn_write_cmd_failure (H := no_handler) (H0 := no_text) err;; svn_ra_svn_flush) c = (c', Ok ())
    ∧ ∀ d rest, live d → unread d = sent c' ++ rest →
      ∃ d', svn_ra_svn_read_cmd_response (H := no_handler) (bytes_of "n") d
            = (d', Ok (inr (received (H := no_text) err))) ∧ unread d' = rest).
Proof.
  apply (@svn_ra_svn_response_round_trip no_handler no_handler_ok no_text [F_value (V_number 7)] [] false
    [MkLink 160013 (Some (bytes_of "Path not found")) None 12; MkLink 210000 None None 0] (bytes_of "n")).
  - vm_compute. reflexivity.
  - constructor; [|constructor; [|constructor]].
    + split; [cbn; lia|cbn; lia| |exact I].
      split; [by apply (bool_decide_eq_true_1 _)|vm_compute; discriminate].
    + split; [cbn; lia|cbn; lia| |exact I]. split; [by apply (bool_decide_eq_true_1 _)|vm_compute; discriminate].
  - vm_compute. discriminate.
  - split; [cbn [write_buf svn_ra_svn_create_conn2 length]; lia|done|done|done].
  - reflexivity.
Defined.

(** ** Property lists *)

Definition prop_item (prop : list byte * list byte) : svn_ra_svn_item_t :=
  SVN_RA_SVN_LIST [SVN_RA_SVN_STRING prop.1; SVN_RA_SVN_STRING prop.2].

Definition prop_ok (name value : list byte) : Prop :=
  NUL ∉ name ∧ Z.of_nat (length name) <= APR_UINT64_MAX ∧ Z.of_nat (length value) <= APR_UINT64_MAX.

Lemma write_props_emits `{BH : BlockHandler} `{!BlockHandlerOk BH} (props : list (list byte * list byte)) :
  Forall (λ prop, prop_ok prop.1 prop.2) props → emits (write_props props) (items_text (map prop_item props)).
Proof.
  induction 1 as [|[name value] props (Hn & Hl1 & Hl2) _ IH]; [apply emits_ret|].
  cbn [write_props]. unfold items_text. cbn [map concat]. apply emits_bind; [|done].
  apply (write_tuple_emits [F_value (V_cstring name); F_value (V_string value)] [] false).
  unfold tuple_ok. apply andb_true_intro. split; [cbn; by rewrite bool_decide_eq_true_2|].
  unfold tuple_items. cbn [map app tail_items field_item value_item]. rewrite writable_list_eq. cbn [forallb].
  rewrite !writable_string_eq. cbn in Hl1, Hl2. rewrite !(proj2 (Z.leb_le _ _)) by done. done.
Qed.

Lemma parse_props_ok (props : list (list byte * list byte)) (hash : gmap (list byte) (list byte)) :
  Forall (λ prop, prop_ok prop.1 prop.2) props → NoDup props.*1 → (∀ name, name ∈ props.*1 → hash !! name = None) →
  parse_props (map prop_item props) hash = Ok (list_to_map props ∪ hash).
Proof.
  intros Hall. revert hash. induction Hall as [|[name value] props (Hn & _) _ IH]; intros hash Hnd Hh.
  - cbn. by rewrite map_empty_union.
  - cbn [map parse_props prop_item fst snd].
    assert (svn_ra_svn_parse_tuple [SVN_RA_SVN_STRING name; SVN_RA_SVN_STRING value] (bytes_of "cs")
      = Ok [VA_cstring (Some (cstring name)); VA_string (Some value)]) as -> by done.
    cbn [rbind]. rewrite cstring_no_nul by done. rewrite fmap_cons in Hnd. apply NoDup_cons in Hnd as [Hnew Hnd].
    rewrite IH; [|done|].
    + f_equal. cbn [list_to_map foldr]. cbn. rewrite <- insert_union_l.
      rewrite insert_union_r; [done|]. apply not_elem_of_list_to_map_1. done.
    + intros k Hk. rewrite lookup_insert_ne by (intros ->; done). apply Hh. rewrite fmap_cons. by right.
Qed.

(** A property list sent over the connection is parsed to the same
    properties. *)
Theorem svn_ra_svn_proplist_round_trip `{BH : BlockHandler} `{!BlockHandlerOk BH}
    (props : gmap (list byte) (list byte)) c :
  map_Forall prop_ok props → live c → output c = [] →
  ∃ c' items, (svn_ra_svn_start_list;; svn_ra_svn_write_proplist (Some props);; svn_ra_svn_end_list;; svn_ra_svn_flush) c
                = (c', Ok ())
  ∧ svn_ra_svn_parse_proplist items = Ok props
  ∧ ∀ d rest, live d → unread d = sent c' ++ rest →
    ∃ d', svn_ra_svn_read_item d = (d', Ok (SVN_RA_SVN_LIST items)) ∧ unread d' = rest.
Proof.
  intros Hok Hl Ho. set (l := map_to_list props).
  assert (Forall (λ prop, prop_ok prop.1 prop.2) l) as Hall.
  { apply Forall_forall. intros [k v] Hin. apply elem_of_map_to_list in Hin. by apply (Hok k). }
  assert (writable 63 (SVN_RA_SVN_LIST (map prop_item l)) = true) as Hw.
  { rewrite writable_list_eq. apply forallb_forall. intros it Hin. apply in_map_iff in Hin as ([k v] & <- & Hin).
    rewrite Forall_forall in Hall. destruct (Hall (k, v)) as (_ & H1 & H2); [by apply list_elem_of_In|].
    unfold prop_item. rewrite writable_list_eq. cbn [forallb]. rewrite !writable_string_eq.
    by rewrite !(proj2 (Z.leb_le _ _)). }
  assert (emits (svn_ra_svn_start_list;; svn_ra_svn_write_proplist (Some props);; svn_ra_svn_end_list)
    (item_text (SVN_RA_SVN_LIST (map prop_item l)))) as Hem.
  { cbn [item_text]. apply emits_bind; [apply svn_ra_svn_start_list_emits|].
    apply emits_bind; [by apply write_props_emits|apply svn_ra_svn_end_list_emits]. }
  destruct (flushed_tuple _ _ c Hem Hl Ho) as (c' & Hrun & _ & Hs & _).
  exists c', (map prop_item l). split_and!.
  - rewrite <- Hrun. unfold mbind, M_bind. destruct (svn_ra_svn_start_list c) as [c1 []]; [|done..].
    destruct (svn_ra_svn_write_proplist _ c1) as [c2 []]; [|done..]. done.
  - unfold svn_ra_svn_parse_proplist. rewrite parse_props_ok; [|done|apply NoDup_fst_map_to_list|done].
    unfold l. by rewrite (right_id_L ∅ (∪)), list_to_map_to_list.
  - intros d rest Hd Hu. rewrite Hs in Hu. destruct (item_text_parses _ Hw d rest Hd Hu) as (d' & Hd' & Ha).
    exists d'. split; [done|apply Ha].
Qed.

Lemma svn_ra_svn_proplist_round_trip_witness :
  let props : gmap (list byte) (list byte) := {[ bytes_of "svn:eol-style" := bytes_of "LF" ]} in
  let c := svn_ra_svn_create_conn2 [] [] in
  ∃ c' items, (svn_ra_svn_start_list (H := no_handler);; svn_ra_svn_write_proplist (H := no_handler) (Some props);;
               svn_ra_svn_end_list (H := no_handler);; svn_ra_svn_flush (H := no_handler)) c = (c', Ok ())
  ∧ svn_ra_svn_parse_proplist items = Ok props
  ∧ ∀ d rest, live d → unread d = sent c' ++ rest →
    ∃ d', svn_ra_svn_read_item (H := no_handler) d = (d', Ok (SVN_RA_SVN_LIST items)) ∧ unread d' = rest.
Proof.
  apply (@svn_ra_svn_proplist_round_trip no_handler no_handler_ok {[ bytes_of "svn:eol-style" := bytes_of "LF" ]}).
  - apply map_Forall_singleton. split; [by apply (bool_decide_eq_true_1 _)|]. split; vm_compute; discriminate.
  - split; [cbn [write_buf svn_ra_svn_create_conn2 length]; lia|done|done|done].
  - reflexivity.
Defined.

(** ** What the formats do not do *)

(** An optional number cannot be left out when a tuple is written: the code has
    no case for it, and even a number that is there ends in an assertion. *)
Lemma vwrite_tuple_optional_number (n : Z) c :
  live c → ∃ c', svn_ra_svn_write_tuple (H := no_handler) (bytes_of "?n") [VA_uint64 n] c = (c', Aborted).
Proof.
  intros Hl. destruct (@svn_ra_svn_start_list_emits no_handler no_handler_ok c (live_fits _ Hl)) as (c1 & r1 & H1 & _ & _ & Hl1).
  destruct (Hl1 Hl) as (-> & _). exists c1. unfold svn_ra_svn_write_tuple, vwrite_tuple. cbn [bytes_of].
  change (bytes_of "?n") with ["?"%byte; "n"%byte]. cbn iota. eval_bytes. rewrite (run_bind _ _ _ _ _ H1).
  cbn [vwrite_loop]. by eval_bytes.
Qed.
