(* ===== verification/UriCanonical.v ===== *)
(** * Canonical URIs

    The part of [canonicalize] in [src/subversion/libsvn_subr/dirent_uri.c] that
    is for URIs, and [svn_uri_is_canonical]. *)
From S2P Require Import Prelude Cstrings Paths Relpaths Uri.

Implicit Types (uri src dst seg s : list byte).

(** ** The program *)

Definition canonicalize_to_lower (c : byte) : byte :=
  if (byte_val c <? 65) || (90 <? byte_val c) then c else byte_of (byte_val c - 65 + 97).

Definition canonicalize_to_upper (c : byte) : byte :=
  if (byte_val c <? 97) || (122 <? byte_val c) then c else byte_of (byte_val c - 97 + 65).

(** The bytes up to the first one at which a scan stops. *)
Fixpoint scan_to (stop : byte → bool) s : list byte * list byte :=
  match s with
  | [] => ([], [])
  | c :: rest => if stop c then ([], s) else let '(seg, rest) := scan_to stop rest in (c :: seg, rest)
  end.

Definition slash_or (c : byte) (b : byte) : bool := (b =b? SLASH) || (b =b? c).

(** [strncmp (s, prefix, strlen (prefix)) == 0] *)
Definition starts_with s (prefix : list byte) : bool := bool_decide (take (length prefix) s = prefix).

Definition SCHEME_SEP : list byte := bytes_of "://".

(** A default port, or none after the colon, is passed over; [src] starts with
    the colon. *)
Definition skip_default_port (canon src : list byte) : list byte :=
  let ends n := (deref (drop n src) =b? SLASH) || (deref (drop n src) =b? NUL) in
  if starts_with (drop 1 src) (bytes_of "80") && ends 3%nat && starts_with canon (bytes_of "http:")
  then drop 3 src
  else if starts_with (drop 1 src) (bytes_of "443") && ends 4%nat && starts_with canon (bytes_of "https:")
  then drop 4 src
  else if starts_with (drop 1 src) (bytes_of "3690") && ends 5%nat && starts_with canon (bytes_of "svn:")
  then drop 5 src
  else if ends 1%nat then drop 1 src
  else src.

(** The scheme, the user, the host and the port: what is written to [dst], and
    the rest of [src] from the slash on. *)
Definition canonicalize_authority scheme src : list byte * list byte :=
  let dst := map canonicalize_to_lower scheme ++ SCHEME_SEP in
  let '(user, after) := scan_to (slash_or "@"%byte) src in
  let '(dst, src) :=
    if deref after =b? "@"%byte then (dst ++ user ++ ["@"%byte], drop 1 after) else (dst, src) in
  let '(host, src) := scan_to (slash_or ":"%byte) src in
  let dst := dst ++ map canonicalize_to_lower host in
  if deref src =b? ":"%byte then
    let '(port, src) := scan_to (λ b, b =b? SLASH) (skip_default_port dst src) in
    (dst ++ map canonicalize_to_lower port, src)
  else (dst, src).

(** [/] or [%2F] in any case. *)
Definition escaped_as (c : byte) s : bool :=
  (deref s =b? "%"%byte) && (deref (drop 1 s) =b? "2"%byte) && (canonicalize_to_upper (deref (drop 2 s)) =b? c).

Fixpoint scan_segment src : list byte * list byte :=
  match src with
  | [] => ([], [])
  | c :: rest =>
      if (c =b? SLASH) || escaped_as "F"%byte src then ([], src)
      else let '(seg, next) := scan_segment rest in (c :: seg, next)
  end.

Definition noop_uri_segment seg : bool :=
  noop_segment seg || ((length seg =? 3)%nat && escaped_as "E"%byte seg).

(** The loop over the segments. *)
Fixpoint uri_segments_loop (fuel : nat) src dst (canon_segments : nat) : list byte * nat :=
  match fuel, src with
  | S fuel, _ :: _ =>
      let '(seg, next) := scan_segment src in
      let slash_len :=
        if deref next =b? SLASH then 1%nat else if deref next =b? "%"%byte then 3%nat else O in
      let src := drop slash_len next in
      if noop_uri_segment seg then uri_segments_loop fuel src dst canon_segments
      else uri_segments_loop fuel src
             (dst ++ seg ++ (if (0 <? slash_len)%nat then [SLASH] else [])) (S canon_segments)
  | _, _ => (dst, canon_segments)
  end.

(** The normalization of the characters after the authority. *)
Fixpoint normalize_schema_data src : list byte :=
  match src with
  | [] => []
  | c :: rest =>
      if c =b? SLASH then SLASH :: normalize_schema_data rest
      else if c =b? "%"%byte then
        match rest with
        | d1 :: d2 :: rest' =>
            if svn_ctype_isxdigit d1 && svn_ctype_isxdigit d2 then
              let val := strtol_hex2 d1 d2 in
              (if table_at svn_uri__char_validity val then [val]
               else ["%"%byte; canonicalize_to_upper d1; canonicalize_to_upper d2])
              ++ normalize_schema_data rest'
            else bytes_of "%25" ++ normalize_schema_data rest
        | _ => bytes_of "%25" ++ normalize_schema_data rest
        end
      else if negb (table_at svn_uri__char_validity c) then escaped c ++ normalize_schema_data rest
      else c :: normalize_schema_data rest
  end.

(** [*(dst - 1) == '/'], when there is such a byte. *)
Definition ends_in_slash s : bool := from_option (λ c, c =b? SLASH) false (last s).

Definition svn_uri_canonicalize uri : result (list byte) :=
  assert! negb (length uri =? 0)%nat in
  assert! negb (deref uri =b? SLASH) in
  let '(scheme, rest) := scan_to (slash_or ":"%byte) uri in
  if starts_with rest SCHEME_SEP then
    let '(dst, src) := canonicalize_authority scheme (drop 3 rest) in
    let '(dst, src, schema_data) :=
      match src with
      | c :: src => (dst ++ [c], src, Some (S (length dst)))
      | [] => (dst, [], None)
      end in
    let '(dst, canon_segments) := uri_segments_loop (length src) src dst 1 in
    let canon :=
      if (0 <? canon_segments)%nat && ends_in_slash dst && negb (length (drop 3 rest) =? 0)%nat
      then take (length dst - 1) dst else dst in
    match schema_data with
    | Some n => Ok (take n canon ++ normalize_schema_data (drop n canon))
    | None => Ok canon
    end
  else
    let '(dst, canon_segments) := uri_segments_loop (length uri) uri [] 0 in
    Ok (if (0 <? canon_segments)%nat && ends_in_slash dst then take (length dst - 1) dst else dst).

(** *** The test *)

Definition is_upper (c : byte) : bool := (65 <=? byte_val c) && (byte_val c <=? 90).
Definition is_decimal (c : byte) : bool := (48 <=? byte_val c) && (byte_val c <=? 57).

(** [port] is a signed number of 64 bits; what an overflow gives is not defined
    in C, and wraps here. *)
Definition port_value (ds : list byte) : Z :=
  fold_left (λ port d, s64 (10 * port + (byte_val d - 48))) ds 0.

(** The port that starts at [ptr], if there is one: where it ends, or [None] if
    it is not canonical. *)
Definition canonical_port uri ptr : option (list byte * list byte) :=
  if deref ptr =b? ":"%byte then
    let '(ds, rest) := scan_to (λ b, negb (is_decimal b)) (drop 1 ptr) in
    let port := port_value ds in
    if (length ds =? 0)%nat then None
    else if negb (length rest =? 0)%nat && negb (deref rest =b? SLASH) then None
    else if (port =? 80) && starts_with uri (bytes_of "http:") then None
    else if (port =? 443) && starts_with uri (bytes_of "https:") then None
    else if (port =? 3690) && starts_with uri (bytes_of "svn:") then None
    else Some (":"%byte :: ds, rest)
  else Some ([], ptr).

(** [seg] has the bytes from [seg] to [ptr], [before] the one before them. *)
Fixpoint segments_canonical (fuel : nat) seg (before : byte) (ptr : list byte) : bool :=
  match fuel with
  | O => false
  | S fuel =>
      if bool_decide (seg = ["."%byte]) then false
      else if (deref ptr =b? SLASH) && (deref (drop 1 ptr) =b? SLASH) then false
      else match ptr with
      | [] => negb (default before (last seg) =b? SLASH)
      | c :: rest =>
          let ptr := if c =b? SLASH then rest else ptr in
          let '(seg, next) := span_until SLASH ptr in
          segments_canonical fuel seg (if c =b? SLASH then SLASH else default before (last seg)) next
      end
  end.

Definition upper_xdigit (c : byte) : bool :=
  is_decimal c || ((65 <=? byte_val c) && (byte_val c <=? 70)).

Fixpoint schema_data_canonical (ptr : list byte) : bool :=
  match ptr with
  | [] => true
  | c :: rest =>
      if c =b? "%"%byte then
        match rest with
        | d1 :: d2 :: rest' =>
            if upper_xdigit d1 && upper_xdigit d2 then
              if table_at svn_uri__char_validity (strtol_hex2 d1 d2) then false
              else schema_data_canonical rest'
            else false
        | _ => false
        end
      else if negb (c =b? SLASH) && negb (table_at svn_uri__char_validity c) then false
      else schema_data_canonical rest
  end.

Definition svn_uri_is_canonical uri : bool :=
  if (length uri =? 0)%nat then false
  else if negb (svn_path_is_url uri) then false
  else
    let '(scheme, ptr) := scan_to (slash_or ":"%byte) uri in
    if negb (starts_with ptr SCHEME_SEP) then false
    else if existsb is_upper scheme then false
    else
      let ptr := drop 3 ptr in
      if (length ptr =? 0)%nat then true
      else
        let '(_, after) := scan_to (slash_or "@"%byte) ptr in
        let '(before, ptr) := if deref after =b? "@"%byte then ("@"%byte, drop 1 after) else (SLASH, ptr) in
        let '(host, ptr) := scan_to (slash_or ":"%byte) ptr in
        if existsb is_upper host then false
        else match canonical_port uri ptr with
        | None => false
        | Some (port, ptr) =>
            segments_canonical (S (length ptr)) (host ++ port) before ptr && schema_data_canonical ptr
        end.

(** ** Theorems *)

(** A URL has a canonical form. *)
Lemma uri_canonicalize_url path : svn_path_is_url path = true → ∃ uri, svn_uri_canonicalize path = Ok uri.
Proof.
  intros Hu. unfold svn_path_is_url in Hu. apply bool_decide_eq_true in Hu.
  assert ((length path =? 0)%nat = false ∧ (deref path =b? SLASH) = false) as [H1 H2].
  { destruct path as [|b path]; [done|]. split; [done|]. cbn in Hu |- *. destruct (byte_eqb_spec b SLASH) as [->|]; done. }
  unfold svn_uri_canonicalize. rewrite H1, H2. cbn [negb].
  destruct (scan_to _ path) as [scheme rest]. destruct (starts_with _ _).
  - destruct (canonicalize_authority _ _) as [dst src]. destruct src as [|b src];
      destruct (uri_segments_loop _ _ _ _) as [dst' segments]; by eexists.
  - destruct (uri_segments_loop _ _ _ _) as [dst segments]. by eexists.
Qed.

(** Three URLs whose canonical forms are not canonical: a default port with
    zeros before it, a port that is not a number, and a host that is a dot. *)
Lemma canonical_port_zeros :
  svn_uri_canonicalize (bytes_of "http://host:0080/x") = Ok (bytes_of "http://host:0080/x")
  ∧ svn_uri_is_canonical (bytes_of "http://host:0080/x") = false.
Proof. by vm_compute. Qed.

Lemma canonical_port_name :
  svn_uri_canonicalize (bytes_of "http://host:8a/x") = Ok (bytes_of "http://host:8a/x")
  ∧ svn_uri_is_canonical (bytes_of "http://host:8a/x") = false.
Proof. by vm_compute. Qed.

Lemma canonical_host_dot :
  svn_uri_canonicalize (bytes_of "http://./x") = Ok (bytes_of "http://./x")
  ∧ svn_uri_is_canonical (bytes_of "http://./x") = false.
Proof. by vm_compute. Qed.

(** What the two agree on. *)
Lemma canonical_example :
  svn_uri_canonicalize (bytes_of "HTTP://Host:80/a//%2e/b%2Fc d%7e/")
    = Ok (bytes_of "http://host/a/b/c%20d~")
  ∧ svn_uri_is_canonical (bytes_of "http://host/a/b/c%20d~") = true.
Proof. by vm_compute. Qed.
