(* ===== verification/Editorp.v ===== *)
(** * Editors across a connection

    [src/subversion/libsvn_ra_svn/editorp.c]: an editor whose operations are
    written to a connection as commands, and the loop on the other side that
    reads the commands and drives an editor with them.  Directories and files
    are named by tokens.

    The batons of the sending side are the tokens.  The receiving editor is a
    record of functions on the state of what it works on; the batons it makes
    are pointers that may be null.  Pools are modelled where entries of tokens
    are in them: the entries in a pool that is destroyed or cleared are freed,
    and looking them up is undefined. *)
From S2P Require Import Prelude Numbers Cstrings Paths Relpaths Uri UriCanonical Marshal.

Implicit Types (path token name : list byte) (c : svn_ra_svn_conn_t) (err : list svn_error_link).

(** ** Functions with a state of their own

    They change the state and the connection, and fail or return a value.  An
    error is a chain that was reported, or one that was created here, with what
    was added to it. *)

Inductive edit_error :=
  | Reported err
  | Created (e : svn_errno) err.

Definition svn_error_compose_create (e : edit_error) err : edit_error :=
  match e with Reported first => Reported (first ++ err) | Created e first => Created e (first ++ err) end.

Definition EM (St A : Type) : Type := St → M (St * (edit_error + A)).

#[global] Instance EM_ret St : MRet (EM St) := λ A a st, mret (st, inr a).
#[global] Instance EM_bind St : MBind (EM St) := λ A B k m st,
  mbind (M := M) (λ x, match x with (st, inr a) => k a st | (st, inl e) => mret (st, inl e) end) (m st).

Definition asks {St A} (f : St → A) : EM St A := λ st, mret (st, inr (f st)).
Definition update {St} (f : St → St) : EM St () := λ st, mret (f st, inr ()).
Definition fail_ {St A} (e : edit_error) : EM St A := λ st, mret (st, inl e).
Definition undefined {St A} : EM St A := λ _, lift Undefined.

(** [SVN_ERR (m)] of a call on the connection. *)
Definition on_conn {St A} (m : M A) : EM St A := λ st c,
  match m c with
  | (c, Ok a) => (c, Ok (st, inr a))
  | (c, Error e) => (c, Ok (st, inl (Created e [])))
  | (c, Aborted) => (c, Aborted)
  | (c, Undefined) => (c, Undefined)
  | (c, OutOfFuel) => (c, OutOfFuel)
  end.

(** The error of a call as a value. *)
Definition attempt {St A} (m : EM St A) : EM St (edit_error + A) := λ st,
  '(st, r) ← m st; mret (st, inr r).

Definition INT_MAX : Z := 2 ^ 31 - 1.

(** ** The sending side *)

(** [callback] is what the completion callback returns, if there is one. *)
Record ra_svn_edit_baton_t := MkEditBaton {
  next_token : Z;
  got_status : bool;
  callback : option (list svn_error_link);
}.

Implicit Types (eb : ra_svn_edit_baton_t).

Definition set_got_status eb : ra_svn_edit_baton_t := MkEditBaton (next_token eb) true (callback eb).

Definition svn_ra_svn_get_editor (callback_ : option (list svn_error_link)) : ra_svn_edit_baton_t :=
  MkEditBaton 0 false callback_.

Abbreviation Sends A := (EM ra_svn_edit_baton_t A).

(** [apr_psprintf (pool, "%c%d", type, n)]. *)
Definition token_text (type : byte) (n : Z) : list byte := type :: printf_ld n.

Definition make_token (type : byte) : Sends (list byte) :=
  n ← asks next_token;
  if n =? INT_MAX then undefined
  else
    update (λ eb, MkEditBaton (n + 1) (got_status eb) (callback eb));;
    mret (token_text type n).

(** The answer of [apr_poll]: whether something can be read from the transport. *)
Class InputWaiting := svn_ra_svn__input_waiting : svn_ra_svn_conn_t → bool.

Definition SVN_RA_SVN_CAP_ABSENT_ENTRIES : list byte := bytes_of "absent-entries".

Section Sender.
Context `{BlockHandler} `{InputWaiting}.

Definition check_for_error : Sends () :=
  got ← asks got_status;
  on_conn (ensure (negb got));;
  waiting ← on_conn (gets svn_ra_svn__input_waiting);
  if (waiting : bool) then
    update set_got_status;;
    on_conn (svn_ra_svn_write_cmd (bytes_of "abort-edit") [] []);;
    response ← on_conn (svn_ra_svn_read_cmd_response []);
    match response with
    | inr err => fail_ (Reported err)
    | inl _ => fail_ (Created SVN_ERR_RA_SVN_MALFORMED_DATA [])
    end
  else mret ().

(** [SVN_ERR (check_for_error (...)); SVN_ERR (svn_ra_svn_write_cmd (...))]. *)
Definition edit_command cmd fmt args : Sends () :=
  check_for_error;;
  on_conn (svn_ra_svn_write_cmd (bytes_of cmd) (bytes_of fmt) args).

Definition ra_svn_target_rev (rev : Z) : Sends () := edit_command "target-rev" "r" [VA_revnum rev].

Definition ra_svn_open_root (rev : Z) : Sends (list byte) :=
  token ← make_token "d"%byte;
  edit_command "open-root" "(?r)c" [VA_revnum rev; VA_cstring (Some token)];;
  mret token.

Definition ra_svn_delete_entry path (rev : Z) (parent : list byte) : Sends () :=
  edit_command "delete-entry" "c(?r)c" [VA_cstring (Some path); VA_revnum rev; VA_cstring (Some parent)].

(** Both or none of the copy source's path and revision. *)
Definition copyfrom_ok (copy_path : option (list byte)) (copy_rev : Z) : bool :=
  match copy_path with Some _ => SVN_IS_VALID_REVNUM copy_rev | None => negb (SVN_IS_VALID_REVNUM copy_rev) end.

Definition ra_svn_add_dir path (parent : list byte) (copy_path : option (list byte)) (copy_rev : Z)
    : Sends (list byte) :=
  token ← make_token "d"%byte;
  on_conn (ensure (copyfrom_ok copy_path copy_rev));;
  edit_command "add-dir" "ccc(?cr)"
    [VA_cstring (Some path); VA_cstring (Some parent); VA_cstring (Some token);
     VA_cstring copy_path; VA_revnum copy_rev];;
  mret token.

Definition ra_svn_open_dir path (parent : list byte) (rev : Z) : Sends (list byte) :=
  token ← make_token "d"%byte;
  edit_command "open-dir" "ccc(?r)"
    [VA_cstring (Some path); VA_cstring (Some parent); VA_cstring (Some token); VA_revnum rev];;
  mret token.

Definition ra_svn_change_dir_prop token name (value : option (list byte)) : Sends () :=
  edit_command "change-dir-prop" "cc(?s)" [VA_cstring (Some token); VA_cstring (Some name); VA_string value].

Definition ra_svn_close_dir token : Sends () := edit_command "close-dir" "c" [VA_cstring (Some token)].

Definition ra_svn_absent_dir path (parent : list byte) : Sends () :=
  has ← on_conn (gets (λ c, svn_ra_svn_has_capability c SVN_RA_SVN_CAP_ABSENT_ENTRIES));
  if negb has then mret ()
  else edit_command "absent-dir" "cc" [VA_cstring (Some path); VA_cstring (Some parent)].

Definition ra_svn_add_file path (parent : list byte) (copy_path : option (list byte)) (copy_rev : Z)
    : Sends (list byte) :=
  token ← make_token "c"%byte;
  on_conn (ensure (copyfrom_ok copy_path copy_rev));;
  edit_command "add-file" "ccc(?cr)"
    [VA_cstring (Some path); VA_cstring (Some parent); VA_cstring (Some token);
     VA_cstring copy_path; VA_revnum copy_rev];;
  mret token.

Definition ra_svn_open_file path (parent : list byte) (rev : Z) : Sends (list byte) :=
  token ← make_token "c"%byte;
  edit_command "open-file" "ccc(?r)"
    [VA_cstring (Some path); VA_cstring (Some parent); VA_cstring (Some token); VA_revnum rev];;
  mret token.

(** The writes to the svndiff stream of [ra_svn_apply_textdelta], and its end. *)
Definition ra_svn_svndiff_handler token (data : list byte) : Sends () :=
  edit_command "textdelta-chunk" "cs" [VA_cstring (Some token); VA_string (Some data)].

Definition ra_svn_svndiff_close_handler token : Sends () :=
  edit_command "textdelta-end" "c" [VA_cstring (Some token)].

(** The windows that are then sent go through the encoder of [svndiff.c] to
    [ra_svn_svndiff_handler]. *)
Definition ra_svn_apply_textdelta token (base_checksum : option (list byte)) : Sends () :=
  edit_command "apply-textdelta" "c(?c)" [VA_cstring (Some token); VA_cstring base_checksum].

Definition ra_svn_change_file_prop token name (value : option (list byte)) : Sends () :=
  edit_command "change-file-prop" "cc(?s)" [VA_cstring (Some token); VA_cstring (Some name); VA_string value].

Definition ra_svn_close_file token (text_checksum : option (list byte)) : Sends () :=
  edit_command "close-file" "c(?c)" [VA_cstring (Some token); VA_cstring text_checksum].

Definition ra_svn_absent_file path (parent : list byte) : Sends () :=
  has ← on_conn (gets (λ c, svn_ra_svn_has_capability c SVN_RA_SVN_CAP_ABSENT_ENTRIES));
  if negb has then mret ()
  else edit_command "absent-file" "cc" [VA_cstring (Some path); VA_cstring (Some parent)].

Definition ra_svn_close_edit : Sends () :=
  got ← asks got_status;
  on_conn (ensure (negb got));;
  update set_got_status;;
  on_conn (svn_ra_svn_write_cmd (bytes_of "close-edit") [] []);;
  response ← attempt (on_conn (svn_ra_svn_read_cmd_response []));
  let failed e :=
    attempt (on_conn (svn_ra_svn_write_cmd (bytes_of "abort-edit") [] []));; fail_ e in
  match response with
  | inr (inl _) =>
      callback_ ← asks callback;
      match callback_ with
      | Some (link :: child) => fail_ (Reported (link :: child))
      | _ => mret ()
      end
  | inr (inr err) => failed (Reported err)
  | inl e => failed e
  end.

Definition ra_svn_abort_edit : Sends () :=
  got ← asks got_status;
  if (got : bool) then mret ()
  else
    on_conn (svn_ra_svn_write_cmd (bytes_of "abort-edit") [] []);;
    response ← on_conn (svn_ra_svn_read_cmd_response []);
    match response with inr err => fail_ (Reported err) | inl _ => mret () end.

End Sender.

(** ** The receiving side *)

(** A pool is the path to it from the pool of the drive. *)
Abbreviation pool := (list nat).

Definition file_pool : pool := [O].

(** The result of an editor's function: an error chain, or a value. *)
Inductive outcome (A : Type) :=
  | Failed (link : svn_error_link) (child : list svn_error_link)
  | Done (a : A).
Arguments Failed {A}.
Arguments Done {A}.

Section Receiver.
Context {S B T : Type}.

Abbreviation call A := (S → S * outcome A).

(** The receiving editor on a state [S], with its batons [B].  [T] are the
    streams of [svn_txdelta_parse_svndiff] on the window handlers that
    [apply_textdelta] gives, with the functions of [svn_stream_t] on them. *)
Record receiving_editor := {
  set_target_revision : Z → call ();
  open_root : Z → call (option B);
  delete_entry : list byte → Z → option B → call ();
  add_directory : list byte → option B → option (list byte) → Z → call (option B);
  open_directory : list byte → option B → Z → call (option B);
  change_dir_prop : option B → list byte → option (list byte) → call ();
  close_directory : option B → call ();
  absent_directory : list byte → option B → call ();
  add_file : list byte → option B → option (list byte) → Z → call (option B);
  open_file : list byte → option B → Z → call (option B);
  apply_textdelta : option B → option (list byte) → call T;
  svn_stream_write : T → list byte → call T;
  svn_stream_close : T → call ();
  change_file_prop : option B → list byte → option (list byte) → call ();
  close_file : option B → option (list byte) → call ();
  absent_file : list byte → option B → call ();
  close_edit : call ();
  abort_edit : call ();
}.

(** The pool field of a file's entry is only used for its stream and is not
    modelled; the entry itself is in the file pool. *)
Record ra_svn_token_entry_t := MkToken {
  baton : option B;
  is_file : bool;
  dstream : option T;
  entry_pool : pool;
}.

(** A token of the hash table: its entry and the pool of the table's key, or
    nothing when one of the two was freed.  [aborted] is the caller's variable,
    if it gave one; [next_pool] numbers the pools. *)
Record ra_svn_driver_state_t := MkDriver {
  edit : S;
  tokens : gmap (list byte) (option (ra_svn_token_entry_t * pool));
  aborted : option bool;
  done : bool;
  next_pool : nat;
  file_refs : Z;
  for_replay : bool;
}.

Implicit Types (ds : ra_svn_driver_state_t).

Definition set_edit st ds := MkDriver st (tokens ds) (aborted ds) (done ds) (next_pool ds) (file_refs ds) (for_replay ds).
Definition set_tokens tks ds := MkDriver (edit ds) tks (aborted ds) (done ds) (next_pool ds) (file_refs ds) (for_replay ds).
Definition set_file_refs n ds := MkDriver (edit ds) (tokens ds) (aborted ds) (done ds) (next_pool ds) n (for_replay ds).
Definition set_done ds := MkDriver (edit ds) (tokens ds) (aborted ds) true (next_pool ds) (file_refs ds) (for_replay ds).
Definition set_aborted (b : bool) ds :=
  MkDriver (edit ds) (tokens ds) ((λ _, b) <$> aborted ds) (done ds) (next_pool ds) (file_refs ds) (for_replay ds).

Abbreviation Drives A := (EM ra_svn_driver_state_t A).

(** *** Pools and tokens *)

Definition svn_pool_create (parent : pool) : Drives pool :=
  id ← asks next_pool;
  update (λ ds, MkDriver (edit ds) (tokens ds) (aborted ds) (done ds) (Datatypes.S id) (file_refs ds) (for_replay ds));;
  mret (parent ++ [id]).

Definition in_pool (p q : pool) : bool := bool_decide (p `prefix_of` q).

(** [svn_pool_destroy], and [svn_pool_clear]. *)
Definition svn_pool_destroy (p : pool) : Drives () :=
  update (λ ds, set_tokens
    ((λ cell, match cell with
              | Some (entry, key) => if in_pool p (entry_pool entry) || in_pool p key then None else cell
              | None => None
              end) <$> tokens ds) ds).

Definition store_token (baton : option B) token (is_file : bool) (p : pool) : Drives () :=
  tks ← asks tokens;
  let entry := MkToken baton is_file None p in
  match tks !! token with
  | Some None => undefined
  | Some (Some (_, key)) => update (set_tokens (<[token := Some (entry, key)]> tks))
  | None => update (set_tokens (<[token := Some (entry, p)]> tks))
  end.

Definition lookup_token token (is_file_ : bool) : Drives ra_svn_token_entry_t :=
  tks ← asks tokens;
  match tks !! token with
  | None => fail_ (Created SVN_ERR_RA_SVN_MALFORMED_DATA [])
  | Some None => undefined
  | Some (Some (entry, _)) =>
      if Bool.eqb (is_file entry) is_file_ then mret entry
      else fail_ (Created SVN_ERR_RA_SVN_MALFORMED_DATA [])
  end.

Definition remove_token token : Drives () := update (λ ds, set_tokens (delete token (tokens ds)) ds).

(** A change of an entry that was looked up. *)
Definition set_entry token (entry : ra_svn_token_entry_t) : Drives () :=
  update (λ ds, set_tokens (alter (fmap (λ cell, (entry, cell.2))) token (tokens ds)) ds).

(** [SVN_CMD_ERR (f)]. *)
Definition SVN_CMD_ERR {A} (f : call A) : Drives A := λ ds,
  let '(st, r) := f (edit ds) in
  match r with
  | Failed link child =>
      mret (set_edit st ds, inl (Reported (svn_error_create SVN_ERR_RA_SVN_CMD_ERR (link :: child) None)))
  | Done a => mret (set_edit st ds, inr a)
  end.

Context `{BlockHandler}.

Definition parse_params params (fmt : list byte) : Drives (list va_arg_t) :=
  on_conn (lift (svn_ra_svn_parse_tuple params fmt)).

(** *** The handlers of the commands *)

Section Handlers.
Context (editor : receiving_editor).
Implicit Types (params : list svn_ra_svn_item_t).

Definition ra_svn_handle_target_rev params : Drives () :=
  args ← parse_params params (bytes_of "r");
  match args with
  | [VA_revnum rev] => SVN_CMD_ERR (set_target_revision editor rev)
  | _ => undefined
  end.

Definition ra_svn_handle_open_root params : Drives () :=
  args ← parse_params params (bytes_of "(?r)c");
  match args with
  | [VA_revnum rev; VA_cstring (Some token)] =>
      subpool ← svn_pool_create [];
      root_baton ← SVN_CMD_ERR (open_root editor rev);
      store_token root_baton token false subpool
  | _ => undefined
  end.

Definition ra_svn_handle_delete_entry params : Drives () :=
  args ← parse_params params (bytes_of "c(?r)c");
  match args with
  | [VA_cstring (Some path); VA_revnum rev; VA_cstring (Some token)] =>
      entry ← lookup_token token false;
      SVN_CMD_ERR (delete_entry editor (svn_relpath_canonicalize path) rev (baton entry))
  | _ => undefined
  end.

(** The copy source is a URL or an fspath. *)
Definition canonical_copy_path (copy_path : option (list byte)) : result (option (list byte)) :=
  match copy_path with
  | None => Ok None
  | Some copy_path =>
      if svn_path_is_url copy_path then let! copy_path := svn_uri_canonicalize copy_path in Ok (Some copy_path)
      else Ok (Some (svn_fspath__canonicalize copy_path))
  end.

Definition ra_svn_handle_add_dir params : Drives () :=
  args ← parse_params params (bytes_of "ccc(?cr)");
  match args with
  | [VA_cstring (Some path); VA_cstring (Some token); VA_cstring (Some child_token);
     VA_cstring copy_path; VA_revnum copy_rev] =>
      entry ← lookup_token token false;
      subpool ← svn_pool_create (entry_pool entry);
      copy_path ← on_conn (lift (canonical_copy_path copy_path));
      child_baton ← SVN_CMD_ERR
        (add_directory editor (svn_relpath_canonicalize path) (baton entry) copy_path copy_rev);
      store_token child_baton child_token false subpool
  | _ => undefined
  end.

Definition ra_svn_handle_open_dir params : Drives () :=
  args ← parse_params params (bytes_of "ccc(?r)");
  match args with
  | [VA_cstring (Some path); VA_cstring (Some token); VA_cstring (Some child_token); VA_revnum rev] =>
      entry ← lookup_token token false;
      subpool ← svn_pool_create (entry_pool entry);
      child_baton ← SVN_CMD_ERR (open_directory editor (svn_relpath_canonicalize path) (baton entry) rev);
      store_token child_baton child_token false subpool
  | _ => undefined
  end.

Definition ra_svn_handle_change_dir_prop params : Drives () :=
  args ← parse_params params (bytes_of "cc(?s)");
  match args with
  | [VA_cstring (Some token); VA_cstring (Some name); VA_string value] =>
      entry ← lookup_token token false;
      SVN_CMD_ERR (change_dir_prop editor (baton entry) name value)
  | _ => undefined
  end.

Definition ra_svn_handle_close_dir params : Drives () :=
  args ← parse_params params (bytes_of "c");
  match args with
  | [VA_cstring (Some token)] =>
      entry ← lookup_token token false;
      SVN_CMD_ERR (close_directory editor (baton entry));;
      remove_token token;;
      svn_pool_destroy (entry_pool entry)
  | _ => undefined
  end.

Definition ra_svn_handle_absent_dir params : Drives () :=
  args ← parse_params params (bytes_of "cc");
  match args with
  | [VA_cstring (Some path); VA_cstring (Some token)] =>
      entry ← lookup_token token false;
      SVN_CMD_ERR (absent_directory editor path (baton entry))
  | _ => undefined
  end.

(** [ds->file_refs++]. *)
Definition add_file_ref : Drives () :=
  refs ← asks file_refs;
  if refs =? INT_MAX then undefined else update (set_file_refs (refs + 1)).

(** The baton of a new file is put into its entry after the call. *)
Definition new_file token (f : call (option B)) : Drives () :=
  store_token None token true file_pool;;
  file_baton ← SVN_CMD_ERR f;
  set_entry token (MkToken file_baton true None file_pool).

Definition ra_svn_handle_add_file params : Drives () :=
  args ← parse_params params (bytes_of "ccc(?cr)");
  match args with
  | [VA_cstring (Some path); VA_cstring (Some token); VA_cstring (Some file_token);
     VA_cstring copy_path; VA_revnum copy_rev] =>
      entry ← lookup_token token false;
      add_file_ref;;
      copy_path ← on_conn (lift (canonical_copy_path copy_path));
      new_file file_token (add_file editor (svn_relpath_canonicalize path) (baton entry) copy_path copy_rev)
  | _ => undefined
  end.

Definition ra_svn_handle_open_file params : Drives () :=
  args ← parse_params params (bytes_of "ccc(?r)");
  match args with
  | [VA_cstring (Some path); VA_cstring (Some token); VA_cstring (Some file_token); VA_revnum rev] =>
      entry ← lookup_token token false;
      add_file_ref;;
      new_file file_token (open_file editor (svn_relpath_canonicalize path) (baton entry) rev)
  | _ => undefined
  end.

Definition set_dstream (stream : option T) (entry : ra_svn_token_entry_t) : ra_svn_token_entry_t :=
  MkToken (baton entry) (is_file entry) stream (entry_pool entry).

Definition ra_svn_handle_apply_textdelta params : Drives () :=
  args ← parse_params params (bytes_of "c(?c)");
  match args with
  | [VA_cstring (Some token); VA_cstring base_checksum] =>
      entry ← lookup_token token true;
      match dstream entry with
      | Some _ => fail_ (Created SVN_ERR_RA_SVN_MALFORMED_DATA [])
      | None =>
          stream ← SVN_CMD_ERR (apply_textdelta editor (baton entry) base_checksum);
          set_entry token (set_dstream (Some stream) entry)
      end
  | _ => undefined
  end.

Definition ra_svn_handle_textdelta_chunk params : Drives () :=
  args ← parse_params params (bytes_of "cs");
  match args with
  | [VA_cstring (Some token); VA_string (Some str)] =>
      entry ← lookup_token token true;
      match dstream entry with
      | None => fail_ (Created SVN_ERR_RA_SVN_MALFORMED_DATA [])
      | Some stream =>
          stream ← SVN_CMD_ERR (svn_stream_write editor stream str);
          set_entry token (set_dstream (Some stream) entry)
      end
  | _ => undefined
  end.

Definition ra_svn_handle_textdelta_end params : Drives () :=
  args ← parse_params params (bytes_of "c");
  match args with
  | [VA_cstring (Some token)] =>
      entry ← lookup_token token true;
      match dstream entry with
      | None => fail_ (Created SVN_ERR_RA_SVN_MALFORMED_DATA [])
      | Some stream =>
          SVN_CMD_ERR (svn_stream_close editor stream);;
          set_entry token (set_dstream None entry)
      end
  | _ => undefined
  end.

Definition ra_svn_handle_change_file_prop params : Drives () :=
  args ← parse_params params (bytes_of "cc(?s)");
  match args with
  | [VA_cstring (Some token); VA_cstring (Some name); VA_string value] =>
      entry ← lookup_token token true;
      SVN_CMD_ERR (change_file_prop editor (baton entry) name value)
  | _ => undefined
  end.

Definition ra_svn_handle_close_file params : Drives () :=
  args ← parse_params params (bytes_of "c(?c)");
  match args with
  | [VA_cstring (Some token); VA_cstring text_checksum] =>
      entry ← lookup_token token true;
      SVN_CMD_ERR (close_file editor (baton entry) text_checksum);;
      remove_token token;;
      refs ← asks file_refs;
      update (set_file_refs (refs - 1));;
      if refs - 1 =? 0 then svn_pool_destroy file_pool else mret ()
  | _ => undefined
  end.

Definition ra_svn_handle_absent_file params : Drives () :=
  args ← parse_params params (bytes_of "cc");
  match args with
  | [VA_cstring (Some path); VA_cstring (Some token)] =>
      entry ← lookup_token token false;
      SVN_CMD_ERR (absent_file editor path (baton entry))
  | _ => undefined
  end.

Definition ra_svn_handle_close_edit params : Drives () :=
  SVN_CMD_ERR (close_edit editor);;
  update set_done;;
  update (set_aborted false);;
  on_conn (svn_ra_svn_write_cmd_response [] []).

Definition ra_svn_handle_abort_edit params : Drives () :=
  update set_done;;
  update (set_aborted true);;
  SVN_CMD_ERR (abort_edit editor);;
  on_conn (svn_ra_svn_write_cmd_response [] []).

Definition ra_svn_handle_finish_replay params : Drives () :=
  replay ← asks for_replay;
  if negb replay then
    fail_ (Reported (svn_error_create SVN_ERR_RA_SVN_UNKNOWN_CMD []
      (Some (bytes_of "Command 'finish-replay' invalid outside of replays"))))
  else
    update set_done;;
    update (set_aborted false).

Definition ra_svn_edit_cmds : list (list byte * (list svn_ra_svn_item_t → Drives ())) :=
  [(bytes_of "change-file-prop", ra_svn_handle_change_file_prop);
   (bytes_of "open-file", ra_svn_handle_open_file);
   (bytes_of "apply-textdelta", ra_svn_handle_apply_textdelta);
   (bytes_of "textdelta-chunk", ra_svn_handle_textdelta_chunk);
   (bytes_of "close-file", ra_svn_handle_close_file);
   (bytes_of "add-dir", ra_svn_handle_add_dir);
   (bytes_of "open-dir", ra_svn_handle_open_dir);
   (bytes_of "change-dir-prop", ra_svn_handle_change_dir_prop);
   (bytes_of "delete-entry", ra_svn_handle_delete_entry);
   (bytes_of "close-dir", ra_svn_handle_close_dir);
   (bytes_of "absent-dir", ra_svn_handle_absent_dir);
   (bytes_of "add-file", ra_svn_handle_add_file);
   (bytes_of "textdelta-end", ra_svn_handle_textdelta_end);
   (bytes_of "absent-file", ra_svn_handle_absent_file);
   (bytes_of "abort-edit", ra_svn_handle_abort_edit);
   (bytes_of "finish-replay", ra_svn_handle_finish_replay);
   (bytes_of "target-rev", ra_svn_handle_target_rev);
   (bytes_of "open-root", ra_svn_handle_open_root);
   (bytes_of "close-edit", ra_svn_handle_close_edit)].

Definition find_cmd cmd : option (list svn_ra_svn_item_t → Drives ()) :=
  snd <$> List.find (λ entry, strcmp cmd entry.1 =? 0) ra_svn_edit_cmds.

End Handlers.
End Receiver.

Arguments receiving_editor : clear implicits.
Arguments ra_svn_driver_state_t : clear implicits.

(** The handler of blocked writes reads and discards a command.  Nothing is in
    the write buffer then, so that it is not called again while it reads.  That
    it saw the end of the edit shows in the connection, from which it removes
    itself. *)
#[global] Instance blocked_write : BlockHandler :=
  args ← @svn_ra_svn_read_tuple (lift Undefined) (bytes_of "wl");
  match args with
  | [VA_cstring (Some cmd); VA_list (Some _)] =>
      if strcmp cmd (bytes_of "abort-edit") =? 0 then modify (λ c, set_block_handler c false) else mret ()
  | _ => lift Undefined
  end.

Section Drive.
Context `{ErrorText} {S B T : Type} (editor : receiving_editor S B T).
Implicit Types (ds : ra_svn_driver_state_t S B T).

Abbreviation Drives A := (EM (ra_svn_driver_state_t S B T) A).

(** The error of a failed command is sent, after the edit was aborted, with a
    handler for blocked writes. *)
Definition report_failure err : Drives () :=
  update (set_aborted true);;
  done_ ← asks done;
  (if negb done_ then
     update (λ ds, set_edit (abort_edit editor (edit ds)).1 ds);;
     on_conn (modify (λ c, set_block_handler c true))
   else mret ());;
  real ← on_conn (lift (svn_ra_svn__locate_real_error_child err));
  write_err ← attempt (on_conn (svn_ra_svn_write_cmd_failure real;; svn_ra_svn_flush));
  handler ← on_conn (gets block_handler);
  (if negb done_ && negb handler then update set_done else mret ());;
  on_conn (modify (λ c, set_block_handler c false));;
  match write_err with inl e => fail_ e | inr _ => mret () end.

Definition unknown_edit_command cmd : edit_error := Reported (unknown_command cmd).

Definition is_cmd_err (e : edit_error) : option (list svn_error_link) :=
  match e with
  | Reported (link :: child) => if apr_err link =? SVN_ERR_RA_SVN_CMD_ERR then Some (link :: child) else None
  | _ => None
  end.

(** The loop ends when the edit is done, or after a failure was reported. *)
Fixpoint drive_loop (fuel : nat) : Drives () :=
  match fuel with
  | O => on_conn (lift OutOfFuel)
  | Datatypes.S fuel =>
      done_ ← asks done;
      if (done_ : bool) then mret ()
      else
        args ← on_conn (svn_ra_svn_read_tuple (bytes_of "wl"));
        match args with
        | [VA_cstring (Some cmd); VA_list (Some params)] =>
            let next (r : edit_error + ()) :=
              match r with
              | inr _ => drive_loop fuel
              | inl e => match is_cmd_err e with Some err => report_failure err | None => fail_ e end
              end in
            match find_cmd editor cmd with
            | Some handler => r ← attempt (handler params); next r
            | None =>
                if strcmp cmd (bytes_of "failure") =? 0 then
                  update (set_aborted true);;
                  r ← attempt (on_conn (lift (svn_ra_svn__handle_failure_status params)));
                  st ← asks edit;
                  let '(st, aborting) := abort_edit editor st in
                  update (set_edit st);;
                  fail_ (svn_error_compose_create
                    (match r with inl e => e | inr err => Reported err end)
                    (match aborting with Failed link child => link :: child | Done _ => [] end))
                else next (inl (unknown_edit_command cmd))
            end
        | _ => undefined
        end
  end.

(** [svn_ra_svn_read_tuple (conn, subpool, "wl", &cmd, &params)]: what is set to
    [cmd], even when it fails, and the error. *)
Definition read_discarded : M (option (list byte) * option svn_errno) := λ c,
  match svn_ra_svn_read_item c with
  | (c, Ok (SVN_RA_SVN_LIST items)) =>
      let cmd := match items with SVN_RA_SVN_WORD word :: _ => Some word | _ => None end in
      match svn_ra_svn_parse_tuple items (bytes_of "wl") with
      | Ok _ => (c, Ok (cmd, None))
      | Error e => (c, Ok (cmd, Some e))
      | Aborted => (c, Aborted)
      | Undefined => (c, Undefined)
      | OutOfFuel => (c, OutOfFuel)
      end
  | (c, Ok _) => (c, Ok (None, Some SVN_ERR_RA_SVN_MALFORMED_DATA))
  | (c, Error e) => (c, Ok (None, Some e))
  | (c, Aborted) => (c, Aborted)
  | (c, Undefined) => (c, Undefined)
  | (c, OutOfFuel) => (c, OutOfFuel)
  end.

(** A [cmd] that was not set is a pointer into the pool that was cleared. *)
Fixpoint discard_loop (fuel : nat) : Drives () :=
  match fuel with
  | O => on_conn (lift OutOfFuel)
  | Datatypes.S fuel =>
      done_ ← asks done;
      if (done_ : bool) then mret ()
      else
        '(cmd, err) ← on_conn read_discarded;
        if bool_decide (err = Some SVN_ERR_RA_SVN_CONNECTION_CLOSED) then mret ()
        else match cmd with
        | None => undefined
        | Some cmd =>
            (if (strcmp cmd (bytes_of "abort-edit") =? 0) || (strcmp cmd (bytes_of "success") =? 0)
             then update set_done else mret ());;
            discard_loop fuel
        end
  end.

(** Every round of both loops reads a command. *)
Definition svn_ra_svn_drive_editor2 (st : S) (aborted_ : option bool) (for_replay_ : bool)
    : M (ra_svn_driver_state_t S B T * (edit_error + ())) :=
  size ← gets (λ c, length (unread c));
  (drive_loop (2 + size);;
   size ← on_conn (gets (λ c, length (unread c)));
   discard_loop (2 + size)) (MkDriver st ∅ aborted_ false 1 0 for_replay_).

Definition svn_ra_svn_drive_editor (st : S) (aborted_ : option bool) :=
  svn_ra_svn_drive_editor2 st aborted_ false.

End Drive.
