(* ===== verification/EditorCalls.v ===== *)
(** * Scripts of editor calls

    Sequences of calls of an editor, as the code that drives one makes them:
    what they are on the sending side of [editorp.c], what they are on an editor,
    which sequences keep the rules of [svn_delta.h], and the bytes that are sent. *)
From S2P Require Import Prelude Numbers Cstrings Paths Relpaths Uri UriCanonical Marshal MarshalBuffers MarshalItems MarshalFormats MarshalCommands Editorp.

Implicit Types (path name : list byte) (c : svn_ra_svn_conn_t) (eb : ra_svn_edit_baton_t).

(** ** Calls

    Directories and files are named by their place among the batons that the
    editor has returned. *)

Inductive edit_call :=
  | Target_rev (rev : Z)
  | Open_root (rev : Z)
  | Delete_entry path (rev : Z) (dir : nat)
  | Add_dir path (dir : nat) (copy : option (list byte * Z))
  | Open_dir path (dir : nat) (rev : Z)
  | Change_dir_prop (dir : nat) name (value : option (list byte))
  | Close_dir (dir : nat)
  | Absent_dir path (dir : nat)
  | Add_file path (dir : nat) (copy : option (list byte * Z))
  | Open_file path (dir : nat) (rev : Z)
  | Apply_textdelta (file : nat) (base_checksum : option (list byte))
  | Textdelta_chunk (file : nat) (data : list byte)
  | Textdelta_end (file : nat)
  | Change_file_prop (file : nat) name (value : option (list byte))
  | Close_file (file : nat) (text_checksum : option (list byte))
  | Absent_file path (dir : nat).

Implicit Types (call : edit_call) (calls : list edit_call).

Definition copy_path (copy : option (list byte * Z)) : option (list byte) := fst <$> copy.
Definition copy_rev (copy : option (list byte * Z)) : Z := from_option snd SVN_INVALID_REVNUM copy.

Definition is_absent call : bool := match call with Absent_dir _ _ | Absent_file _ _ => true | _ => false end.

(** ** The calls on the sending side *)

Section Send.
Context `{BlockHandler} `{InputWaiting}.
Implicit Types (batons : list (list byte)).

Definition send call batons : Sends (list (list byte)) :=
  let the i := nth i batons [] in
  let kept (m : Sends ()) := m;; mret batons in
  let made (m : Sends (list byte)) := baton ← m; mret (batons ++ [baton]) in
  match call with
  | Target_rev rev => kept (ra_svn_target_rev rev)
  | Open_root rev => made (ra_svn_open_root rev)
  | Delete_entry path rev dir => kept (ra_svn_delete_entry path rev (the dir))
  | Add_dir path dir copy => made (ra_svn_add_dir path (the dir) (copy_path copy) (copy_rev copy))
  | Open_dir path dir rev => made (ra_svn_open_dir path (the dir) rev)
  | Change_dir_prop dir name value => kept (ra_svn_change_dir_prop (the dir) name value)
  | Close_dir dir => kept (ra_svn_close_dir (the dir))
  | Absent_dir path dir => kept (ra_svn_absent_dir path (the dir))
  | Add_file path dir copy => made (ra_svn_add_file path (the dir) (copy_path copy) (copy_rev copy))
  | Open_file path dir rev => made (ra_svn_open_file path (the dir) rev)
  | Apply_textdelta file base_checksum => kept (ra_svn_apply_textdelta (the file) base_checksum)
  | Textdelta_chunk file data => kept (ra_svn_svndiff_handler (the file) data)
  | Textdelta_end file => kept (ra_svn_svndiff_close_handler (the file))
  | Change_file_prop file name value => kept (ra_svn_change_file_prop (the file) name value)
  | Close_file file text_checksum => kept (ra_svn_close_file (the file) text_checksum)
  | Absent_file path dir => kept (ra_svn_absent_file path (the dir))
  end.

Fixpoint send_all calls batons : Sends (list (list byte)) :=
  match calls with
  | [] => mret batons
  | call :: calls => batons ← send call batons; send_all calls batons
  end.

End Send.

(** ** The calls on an editor *)

Section Perform.
Context {S B T : Type} (editor : receiving_editor S B T).

Record performed := Performed {
  p_edit : S;
  p_batons : list (option B);
  p_streams : gmap nat T;
}.

Implicit Types (p : performed).

(** The error of a call, if it has one. *)
Abbreviation failure := (option (svn_error_link * list svn_error_link)).

Definition do_call {A} (f : S → S * outcome A) (k : A → S → performed) p : performed * failure :=
  let '(st, r) := f (p_edit p) in
  match r with
  | Failed link child => (Performed st (p_batons p) (p_streams p), Some (link, child))
  | Done a => (k a st, None)
  end.

Definition perform call p : performed * failure :=
  let the i := nth i (p_batons p) None in
  let kept (f : S → S * outcome ()) := do_call f (λ _ st, Performed st (p_batons p) (p_streams p)) p in
  let made f := do_call f (λ baton st, Performed st (p_batons p ++ [baton]) (p_streams p)) p in
  let streamed (file : nat) {A} (f : T → S → S * outcome A) (k : A → option T) :=
    match p_streams p !! file with
    | Some stream =>
        do_call (f stream) (λ a st, Performed st (p_batons p) (partial_alter (λ _, k a) file (p_streams p))) p
    | None => (p, None)
    end in
  match call with
  | Target_rev rev => kept (set_target_revision editor rev)
  | Open_root rev => made (open_root editor rev)
  | Delete_entry path rev dir => kept (delete_entry editor path rev (the dir))
  | Add_dir path dir copy => made (add_directory editor path (the dir) (copy_path copy) (copy_rev copy))
  | Open_dir path dir rev => made (open_directory editor path (the dir) rev)
  | Change_dir_prop dir name value => kept (change_dir_prop editor (the dir) name value)
  | Close_dir dir => kept (close_directory editor (the dir))
  | Absent_dir path dir => kept (absent_directory editor path (the dir))
  | Add_file path dir copy => made (add_file editor path (the dir) (copy_path copy) (copy_rev copy))
  | Open_file path dir rev => made (open_file editor path (the dir) rev)
  | Apply_textdelta file base_checksum =>
      do_call (apply_textdelta editor (the file) base_checksum)
        (λ stream st, Performed st (p_batons p) (<[file := stream]> (p_streams p))) p
  | Textdelta_chunk file data => streamed file (λ stream, svn_stream_write editor stream data) Some
  | Textdelta_end file => streamed file (svn_stream_close editor) (λ _, None)
  | Change_file_prop file name value => kept (change_file_prop editor (the file) name value)
  | Close_file file text_checksum => kept (close_file editor (the file) text_checksum)
  | Absent_file path dir => kept (absent_file editor path (the dir))
  end.

Fixpoint perform_all calls p : performed * failure :=
  match calls with
  | [] => (p, None)
  | call :: calls => match perform call p with (p, None) => perform_all calls p | r => r end
  end.

End Perform.

(** A call as it arrives: with canonical paths. *)
Definition canonical_copy (copy : option (list byte * Z)) : option (list byte * Z) :=
  match copy with
  | Some (path, rev) =>
      Some (if svn_path_is_url path then match svn_uri_canonicalize path with Ok uri => uri | _ => path end
            else svn_fspath__canonicalize path, rev)
  | None => None
  end.

Definition received_call call : edit_call :=
  match call with
  | Delete_entry path rev dir => Delete_entry (svn_relpath_canonicalize path) rev dir
  | Add_dir path dir copy => Add_dir (svn_relpath_canonicalize path) dir (canonical_copy copy)
  | Open_dir path dir rev => Open_dir (svn_relpath_canonicalize path) dir rev
  | Add_file path dir copy => Add_file (svn_relpath_canonicalize path) dir (canonical_copy copy)
  | Open_file path dir rev => Open_file (svn_relpath_canonicalize path) dir rev
  | _ => call
  end.

(** Without the capability absent entries are not sent. *)
Definition received_calls (absent : bool) calls : list edit_call :=
  map received_call (List.filter (λ call, absent || negb (is_absent call)) calls).

(** ** The rules of an editor

    What is open: directories with their pools, files with or without a text
    delta.  A directory is closed after its subdirectories. *)

Inductive edit_obj :=
  | Dir (p : pool)
  | File (active : bool)
  | Closed.

Record edit_shape := Shape { objs : list edit_obj; pools : nat }.
Implicit Types (sh : edit_shape).

Definition shape_step call sh : option edit_shape :=
  let in_dir (i : nat) (k : pool → option edit_shape) := match objs sh !! i with Some (Dir p) => k p | _ => None end in
  let set i o := Some (Shape (<[i := o]> (objs sh)) (pools sh)) in
  let new_dir p := Some (Shape (objs sh ++ [Dir (p ++ [pools sh])]) (S (pools sh))) in
  match call with
  | Target_rev _ => Some sh
  | Open_root _ => new_dir []
  | Delete_entry _ _ i | Change_dir_prop i _ _ | Absent_dir _ i | Absent_file _ i => in_dir i (λ _, Some sh)
  | Add_dir _ i _ | Open_dir _ i _ => in_dir i new_dir
  | Close_dir i => in_dir i (λ p,
      if existsb (λ o, match o with Dir q => in_pool p q | _ => false end) (<[i := Closed]> (objs sh))
      then None else set i Closed)
  | Add_file _ i _ | Open_file _ i _ => in_dir i (λ _, Some (Shape (objs sh ++ [File false]) (pools sh)))
  | Apply_textdelta i _ => match objs sh !! i with Some (File false) => set i (File true) | _ => None end
  | Textdelta_chunk i _ => match objs sh !! i with Some (File true) => Some sh | _ => None end
  | Textdelta_end i => match objs sh !! i with Some (File true) => set i (File false) | _ => None end
  | Change_file_prop i _ _ => match objs sh !! i with Some (File _) => Some sh | _ => None end
  | Close_file i _ => match objs sh !! i with Some (File false) => set i Closed | _ => None end
  end.

(** ** The bytes of a call *)

Definition dir_token (i : nat) : list byte := token_text "d"%byte (Z.of_nat i).
Definition file_token (i : nat) : list byte := token_text "c"%byte (Z.of_nat i).

Definition F_cstring (s : list byte) : field := F_value (V_cstring s).
Definition F_rev (rev : Z) : field := F_tuple [] [V_revnum (Z.max 0 rev)] (0 <=? rev).
Definition F_copy (copy : option (list byte * Z)) : field :=
  F_tuple [] [V_cstring (default [] (copy_path copy)); V_revnum (Z.max 0 (copy_rev copy))]
    (bool_decide (is_Some copy)).
Definition F_opt_string (value : option (list byte)) : field :=
  F_tuple [] [V_string (default [] value)] (bool_decide (is_Some value)).
Definition F_opt_cstring (value : option (list byte)) : field :=
  F_tuple [] [V_cstring (default [] value)] (bool_decide (is_Some value)).

(** The name and the fields; [n] is the number of the next token. *)
Definition call_wire (n : nat) call : list byte * list field :=
  match call with
  | Target_rev rev => (bytes_of "target-rev", [F_value (V_revnum rev)])
  | Open_root rev => (bytes_of "open-root", [F_rev rev; F_cstring (dir_token n)])
  | Delete_entry path rev dir => (bytes_of "delete-entry", [F_cstring path; F_rev rev; F_cstring (dir_token dir)])
  | Add_dir path dir copy =>
      (bytes_of "add-dir", [F_cstring path; F_cstring (dir_token dir); F_cstring (dir_token n); F_copy copy])
  | Open_dir path dir rev =>
      (bytes_of "open-dir", [F_cstring path; F_cstring (dir_token dir); F_cstring (dir_token n); F_rev rev])
  | Change_dir_prop dir name value =>
      (bytes_of "change-dir-prop", [F_cstring (dir_token dir); F_cstring name; F_opt_string value])
  | Close_dir dir => (bytes_of "close-dir", [F_cstring (dir_token dir)])
  | Absent_dir path dir => (bytes_of "absent-dir", [F_cstring path; F_cstring (dir_token dir)])
  | Add_file path dir copy =>
      (bytes_of "add-file", [F_cstring path; F_cstring (dir_token dir); F_cstring (file_token n); F_copy copy])
  | Open_file path dir rev =>
      (bytes_of "open-file", [F_cstring path; F_cstring (dir_token dir); F_cstring (file_token n); F_rev rev])
  | Apply_textdelta file base_checksum =>
      (bytes_of "apply-textdelta", [F_cstring (file_token file); F_opt_cstring base_checksum])
  | Textdelta_chunk file data => (bytes_of "textdelta-chunk", [F_cstring (file_token file); F_value (V_string data)])
  | Textdelta_end file => (bytes_of "textdelta-end", [F_cstring (file_token file)])
  | Change_file_prop file name value =>
      (bytes_of "change-file-prop", [F_cstring (file_token file); F_cstring name; F_opt_string value])
  | Close_file file text_checksum =>
      (bytes_of "close-file", [F_cstring (file_token file); F_opt_cstring text_checksum])
  | Absent_file path dir => (bytes_of "absent-file", [F_cstring path; F_cstring (dir_token dir)])
  end.

Definition call_text (n : nat) call : list byte :=
  let '(name, fs) := call_wire n call in item_text (reply_item name (tuple_items fs [] false)).

(** Revisions are valid or [SVN_INVALID_REVNUM], and valid where there is a copy
    source. *)
Definition revs_ok call : bool :=
  match call with
  | Open_root rev | Delete_entry _ rev _ | Open_dir _ _ rev | Open_file _ _ rev => -1 <=? rev
  | Add_dir _ _ copy | Add_file _ _ copy => from_option (λ copy, 0 <=? copy.2) true copy
  | _ => true
  end.

(** The values fit the protocol: no NUL in C strings, lengths and revisions of
    their types. *)
Definition call_ok (n : nat) call : bool := params_ok (call_wire n call).2 [] false && revs_ok call.

(** A script that keeps the rules, and what is open after it. *)
Fixpoint script_shape calls sh : option edit_shape :=
  match calls with
  | [] => Some sh
  | call :: calls =>
      if call_ok (length (objs sh)) call then
        match shape_step call sh with Some sh => script_shape calls sh | None => None end
      else None
  end.

Definition no_shape : edit_shape := Shape [] 1.

Fixpoint script_text (absent : bool) calls sh : list byte :=
  match calls with
  | [] => []
  | call :: calls =>
      (if absent || negb (is_absent call) then call_text (length (objs sh)) call else [])
      ++ match shape_step call sh with Some sh => script_text absent calls sh | None => [] end
  end.
