(* ===== verification/EditorCorrect.v ===== *)
(** * Theorems on editors across a connection *)
From S2P Require Import Prelude Numbers Cstrings Paths Relpaths Uri UriCanonical Marshal MarshalBuffers MarshalItems MarshalFormats MarshalCommands Editorp EditorCalls.

Implicit Types (path name : list byte) (c d : svn_ra_svn_conn_t) (eb : ra_svn_edit_baton_t)
  (call : edit_call) (calls : list edit_call) (sh : edit_shape) (fs : list field).

(** ** Running functions with a state *)

Lemma em_bind {St A B} (m : EM St A) (k : A → EM St B) st c c' st' a :
  m st c = (c', Ok (st', inr a)) → (m ≫= k) st c = k a st' c'.
Proof. intros Hm. unfold mbind, EM_bind, mbind, M_bind. by rewrite Hm. Qed.

Lemma em_bind_fail {St A B} (m : EM St A) (k : A → EM St B) st c c' st' e :
  m st c = (c', Ok (st', inl e)) → (m ≫= k) st c = (c', Ok (st', inl e)).
Proof. intros Hm. unfold mbind, EM_bind, mbind, M_bind. by rewrite Hm. Qed.

Lemma on_conn_run {St A} (m : M A) (st : St) c c' a :
  m c = (c', Ok a) → on_conn m st c = (c', Ok (st, inr a)).
Proof. intros Hm. unfold on_conn. by rewrite Hm. Qed.

Lemma attempt_run {St A} (m : EM St A) st st' c c' r :
  m st c = (c', Ok (st', r)) → attempt m st c = (c', Ok (st', inr r)).
Proof. intros Hm. unfold attempt. by rewrite (run_bind _ _ _ _ _ Hm). Qed.

(** ** The arguments of the calls *)

Lemma args_rev rev : -1 <= rev → field_args (F_rev rev) = [VA_revnum rev].
Proof.
  intros Hr. unfold F_rev. cbn. destruct (Z.leb_spec 0 rev); [by rewrite Z.max_r by lia|].
  assert (rev = -1) as -> by lia. done.
Qed.

Lemma args_copy (copy : option (list byte * Z)) :
  from_option (λ copy, 0 <=? copy.2) true copy = true →
  field_args (F_copy copy) = [VA_cstring (copy_path copy); VA_revnum (copy_rev copy)].
Proof. destruct copy as [[p r]|]; [|done]. cbn. intros Hr%Z.leb_le. by rewrite Z.max_r by lia. Qed.

Lemma args_opt_string value : field_args (F_opt_string value) = [VA_string value].
Proof. by destruct value. Qed.
Lemma args_opt_cstring value : field_args (F_opt_cstring value) = [VA_cstring value].
Proof. by destruct value. Qed.

Ltac wire_args :=
  unfold tuple_args; cbn [map concat];
  rewrite ?args_copy, ?args_rev, ?args_opt_string, ?args_opt_cstring by (done || lia);
  done.

(** ** The sending side *)

(** Nothing can be read from a transport on which nothing arrives. *)
Class InputWaitingOk (W : InputWaiting) :=
  waiting_ok : ∀ c, incoming c = [] → svn_ra_svn__input_waiting c = false.

Section Sending.
Context `{BH : BlockHandler} `{!BlockHandlerOk BH} `{W : InputWaiting} `{!InputWaitingOk W}.
Context (caps : gset (list byte)).

Definition quiet c : Prop := live c ∧ incoming c = [] ∧ read_buf c = [] ∧ capabilities c = caps.

(** A function that writes [bs] while nothing arrives. *)
Definition sends {A} (m : Sends A) eb bs eb' (a : A) : Prop :=
  ∀ c, quiet c → ∃ c', m eb c = (c', Ok (eb', inr a)) ∧ quiet c' ∧ output c' = output c ++ bs.

Lemma sends_ret {A} eb (a : A) : sends (mret a) eb [] eb a.
Proof. intros c Hc. exists c. by rewrite app_nil_r. Qed.

Lemma sends_bind {A B} (m : Sends A) (k : A → Sends B) eb1 bs1 eb2 a bs2 eb3 b :
  sends m eb1 bs1 eb2 a → sends (k a) eb2 bs2 eb3 b → sends (m ≫= k) eb1 (bs1 ++ bs2) eb3 b.
Proof.
  intros Hm Hk c Hc. destruct (Hm c Hc) as (c1 & H1 & Hq1 & Ho1). destruct (Hk c1 Hq1) as (c2 & H2 & Hq2 & Ho2).
  exists c2. rewrite (em_bind _ _ _ _ _ _ _ H1). split_and!; [done|done|]. by rewrite Ho2, Ho1, app_assoc.
Qed.

(** A step that writes nothing. *)
Lemma sends_after {A B} (m : Sends A) (k : A → Sends B) eb1 eb2 a bs eb3 b :
  sends m eb1 [] eb2 a → sends (k a) eb2 bs eb3 b → sends (m ≫= k) eb1 bs eb3 b.
Proof. intros Hm Hk. change bs with ([] ++ bs). by eapply sends_bind. Qed.

Lemma sends_before {A B} (m : Sends A) (k : A → Sends B) eb1 bs eb2 a eb3 b :
  sends m eb1 bs eb2 a → sends (k a) eb2 [] eb3 b → sends (m ≫= k) eb1 bs eb3 b.
Proof. intros Hm Hk. rewrite <- (app_nil_r bs). by eapply sends_bind. Qed.

Lemma emits_sends (m : M ()) bs eb : emits m bs → sends (on_conn m) eb bs eb ().
Proof.
  intros Hm c (Hl & Hi & Hrb & Hcaps). destruct (Hm c (live_fits _ Hl)) as (c' & r & H1 & _ & Ho & Hr).
  destruct (Hr Hl) as (-> & Hl' & Hs). exists c'. split; [by apply on_conn_run|].
  destruct Hs as (Hs1 & Hs2 & Hs3 & _). split; [|done]. split_and!; [done|congruence..].
Qed.

Lemma sends_ensure eb (b : bool) : b = true → sends (on_conn (ensure b)) eb [] eb ().
Proof. intros -> c Hc. exists c. by rewrite app_nil_r. Qed.

Lemma sends_check eb : got_status eb = false → sends check_for_error eb [] eb ().
Proof.
  intros Hg. unfold check_for_error. eapply sends_after; [by apply (sends_ret eb (got_status eb))|].
  rewrite Hg. eapply sends_after; [by apply sends_ensure|].
  intros c Hc. exists c. erewrite em_bind; [|by apply on_conn_run].
  destruct Hc as (Hl & Hi & Hrb & Hcaps). rewrite waiting_ok by done. by rewrite app_nil_r.
Qed.

Lemma sends_command eb cmd fmt args fs :
  got_status eb = false → params_ok fs [] false = true →
  bytes_of fmt = tuple_fmt fs [] → args = tuple_args fs [] false →
  sends (edit_command cmd fmt args) eb (item_text (reply_item (bytes_of cmd) (tuple_items fs [] false))) eb ().
Proof.
  intros Hg Hok Hf ->. unfold edit_command. eapply sends_after; [by apply sends_check|].
  apply emits_sends. rewrite Hf. by apply write_cmd_emits.
Qed.

Lemma sends_make_token eb type :
  next_token eb < INT_MAX →
  sends (make_token type) eb [] (MkEditBaton (next_token eb + 1) (got_status eb) (callback eb))
    (token_text type (next_token eb)).
Proof.
  intros Hn. unfold make_token. eapply sends_after; [by apply (sends_ret eb (next_token eb))|].
  cbn beta. rewrite (proj2 (Z.eqb_neq _ _)) by lia.
  intros c Hc. exists c. by rewrite app_nil_r.
Qed.

(** *** The calls *)

(** The batons of the open objects are their tokens. *)
Definition baton_tokens (batons : list (list byte)) (os : list edit_obj) : Prop :=
  length batons = length os
  ∧ ∀ i o, os !! i = Some o →
      match o with
      | Dir _ => nth i batons [] = dir_token i
      | File _ => nth i batons [] = file_token i
      | Closed => True
      end.

Lemma baton_tokens_add batons os token o :
  baton_tokens batons os →
  match o with
  | Dir _ => token = dir_token (length os) | File _ => token = file_token (length os) | Closed => True
  end →
  baton_tokens (batons ++ [token]) (os ++ [o]).
Proof.
  intros [Hlen Hb] Ht. split; [rewrite !length_app; cbn; lia|]. intros i o' Hi.
  apply lookup_app_Some in Hi as [Hi|[Hge Hi]].
  - pose proof (lookup_lt_Some _ _ _ Hi). specialize (Hb i o' Hi). rewrite app_nth1 by lia. done.
  - apply list_lookup_singleton_Some in Hi as [Hi ->]. assert (i = length os) as -> by lia.
    rewrite app_nth2 by lia. rewrite Hlen, Nat.sub_diag. cbn. by destruct o'.
Qed.

(** Closing an object, or starting and ending a file's delta. *)
Definition same_kind (o o' : edit_obj) : Prop :=
  match o' with Closed => True | Dir _ => o' = o | File _ => ∃ a, o = File a end.

Lemma baton_tokens_set batons os i o o' :
  baton_tokens batons os → os !! i = Some o → same_kind o o' → baton_tokens batons (<[i := o']> os).
Proof.
  intros [Hlen Hb] Hi Hk. split; [by rewrite length_insert|]. intros j x Hj.
  apply list_lookup_insert_Some in Hj as [(<- & <- & _)|[_ Hj]]; [|by apply Hb].
  specialize (Hb i o Hi). destruct o'; [|destruct Hk as [a ->]|]; [by simplify_eq/=|done|done].
Qed.

Lemma copyfrom_copy (copy : option (list byte * Z)) :
  from_option (λ copy, 0 <=? copy.2) true copy = true → copyfrom_ok (copy_path copy) (copy_rev copy) = true.
Proof. by destruct copy as [[p r]|]. Qed.

Definition sender_ok sh eb (batons : list (list byte)) : Prop :=
  got_status eb = false ∧ next_token eb = Z.of_nat (length (objs sh)) ∧ baton_tokens batons (objs sh).

(** What a call sends. *)
Definition sent_text (n : nat) call : list byte :=
  if bool_decide (SVN_RA_SVN_CAP_ABSENT_ENTRIES ∈ caps) || negb (is_absent call) then call_text n call else [].

Lemma sends_capability eb :
  sends (on_conn (gets (λ c, svn_ra_svn_has_capability c SVN_RA_SVN_CAP_ABSENT_ENTRIES))) eb [] eb
    (bool_decide (SVN_RA_SVN_CAP_ABSENT_ENTRIES ∈ caps)).
Proof.
  intros c Hc. exists c. split_and!; [|done|by rewrite app_nil_r]. unfold on_conn, gets. 
  unfold svn_ra_svn_has_capability. destruct Hc as (_ & _ & _ & ->). done.
Qed.

(** The tokens of a call are the batons of the objects it names. *)
Lemma nth_dir batons os i p :
  baton_tokens batons os → os !! i = Some (Dir p) → nth i batons [] = dir_token i.
Proof. intros [_ Hb] Hi. by specialize (Hb _ _ Hi). Qed.
Lemma nth_file batons os i a :
  baton_tokens batons os → os !! i = Some (File a) → nth i batons [] = file_token i.
Proof. intros [_ Hb] Hi. by specialize (Hb _ _ Hi). Qed.

(** A call that makes no baton: [m] sends the command. *)
Lemma kept_ok sh sh' eb batons (m : Sends ()) bs :
  sender_ok sh eb batons → sends m eb bs eb () →
  length (objs sh') = length (objs sh) → baton_tokens batons (objs sh') →
  ∃ eb' batons', sends (m;; mret batons) eb bs eb' batons' ∧ sender_ok sh' eb' batons' ∧ callback eb' = callback eb.
Proof.
  intros (Hg & Hn & Hb) Hm Hlen Hb'. exists eb, batons. split; [|by rewrite <- Hlen in Hn].
  eapply sends_before; [done|apply sends_ret].
Qed.

(** A call that makes one. *)
Lemma made_ok sh sh' eb batons type (k : list byte → Sends (list byte)) bs o :
  sender_ok sh eb batons → Z.of_nat (length (objs sh)) < INT_MAX →
  (∀ eb1, got_status eb1 = false →
    let token := token_text type (Z.of_nat (length (objs sh))) in sends (k token) eb1 bs eb1 token) →
  objs sh' = objs sh ++ [o] →
  match o with Dir _ => type = "d"%byte | File _ => type = "c"%byte | Closed => True end →
  ∃ eb' batons',
    sends (baton ← (token ← make_token type; k token); mret (batons ++ [baton])) eb bs eb' batons'
    ∧ sender_ok sh' eb' batons' ∧ callback eb' = callback eb.
Proof.
  intros (Hg & Hn & Hb) Hlt Hk Hsh Ho.
  exists (MkEditBaton (next_token eb + 1) (got_status eb) (callback eb)), (batons ++ [token_text type (next_token eb)]).
  split_and!; [|split_and!|done].
  - eapply sends_before; [|apply sends_ret]. eapply sends_after; [apply sends_make_token; by rewrite Hn|].
    rewrite Hn. by apply Hk.
  - done.
  - cbn. rewrite Hsh, length_app. cbn. lia.
  - rewrite Hsh, Hn. apply baton_tokens_add; [done|]. destruct o; by subst.
Qed.

(** A command, in which the batons are tokens. *)
Ltac sent_command :=
  repeat match goal with
  | Hb : baton_tokens ?b ?os, Hi : ?os !! ?i = Some (Dir _) |- context [nth ?i ?b _] =>
      rewrite (nth_dir _ _ _ _ Hb Hi)
  | Hb : baton_tokens ?b ?os, Hi : ?os !! ?i = Some (File _) |- context [nth ?i ?b _] =>
      rewrite (nth_file _ _ _ _ Hb Hi)
  end;
  eapply sends_command; [assumption|assumption|reflexivity|wire_args].

Ltac kept_call Hs :=
  eapply (kept_ok _ _ _ _ _ _ Hs); [sent_command|cbn; rewrite ?length_insert; done|
    first [assumption|eapply baton_tokens_set; [eassumption|eassumption|cbn; eauto]]].

Ltac made_call Hs :=
  eapply (made_ok _ _ _ _ _ _ _ _ Hs); [done| |done|done]; intros eb1 Hg1; cbn zeta;
  try (eapply sends_after; [by apply sends_ensure, copyfrom_copy|]);
  eapply sends_before; [sent_command|apply sends_ret].

Lemma send_call call sh sh' eb batons :
  sender_ok sh eb batons → Z.of_nat (length (objs sh)) < INT_MAX →
  call_ok (length (objs sh)) call = true → shape_step call sh = Some sh' →
  ∃ eb' batons', sends (send call batons) eb (sent_text (length (objs sh)) call) eb' batons'
    ∧ sender_ok sh' eb' batons' ∧ callback eb' = callback eb.
Proof.
  intros Hs Hlt [Hok Hrev]%andb_prop Hstep. pose proof Hs as (Hg & Hn & Hb).
  unfold sent_text, call_text. set (n := length (objs sh)) in *.
  destruct call; cbn [shape_step is_absent negb orb] in Hstep |- *; rewrite ?orb_true_r, ?orb_false_r;
    cbn [call_wire snd revs_ok] in *; unfold send;
    repeat match type of Hstep with
      | match objs sh !! ?i with _ => _ end = _ =>
          destruct (objs sh !! i) as [[p|[]|]|] eqn:Hi; try discriminate
      | (if ?b then _ else _) = _ => destruct b; [discriminate|]
      end; injection Hstep as <-.
  all: first [kept_call Hs|made_call Hs|idtac].
  all: eapply (kept_ok _ _ _ _ _ _ Hs); [|done|done]; (eapply sends_after; [apply sends_capability|]);
    destruct (bool_decide _); cbn [negb]; [sent_command|apply sends_ret].
Qed.

Lemma shape_step_length call sh sh' :
  shape_step call sh = Some sh' → (length (objs sh') <= S (length (objs sh)))%nat.
Proof.
  intros Hstep. destruct call; cbn [shape_step] in Hstep;
    repeat match type of Hstep with
      | match objs sh !! ?i with _ => _ end = _ => destruct (objs sh !! i) as [[p|[]|]|] eqn:?; try discriminate
      | (if ?b then _ else _) = _ => destruct b; [discriminate|]
      end; injection Hstep as <-; cbn [objs]; rewrite ?length_insert, ?length_app; cbn [length]; lia.
Qed.

Lemma send_all_ok calls sh sh' eb batons :
  sender_ok sh eb batons → Z.of_nat (length (objs sh) + length calls) < INT_MAX →
  script_shape calls sh = Some sh' →
  ∃ eb' batons', sends (send_all calls batons) eb
      (script_text (bool_decide (SVN_RA_SVN_CAP_ABSENT_ENTRIES ∈ caps)) calls sh) eb' batons'
    ∧ sender_ok sh' eb' batons' ∧ callback eb' = callback eb.
Proof.
  revert sh eb batons. induction calls as [|call calls IH]; intros sh eb batons Hs Hlt Hsc; cbn in Hsc.
  - injection Hsc as <-. exists eb, batons. split_and!; [apply sends_ret|done|done].
  - destruct (call_ok _ call) eqn:Hok; [|done]. destruct (shape_step call sh) as [sh1|] eqn:Hstep; [|done].
    cbn [length] in Hlt. pose proof (shape_step_length _ _ _ Hstep).
    destruct (send_call call sh sh1 eb batons) as (eb1 & batons1 & H1 & Hs1 & Hc1); [done|lia|done|done|].
    destruct (IH sh1 eb1 batons1) as (eb2 & batons2 & H2 & Hs2 & Hc2); [done|lia|done|].
    exists eb2, batons2. split_and!; [|done|congruence]. cbn [send_all script_text]. rewrite Hstep.
    by eapply sends_bind.
Qed.

End Sending.

(** ** The receiving side *)

#[global] Instance blocked_write_ok : BlockHandlerOk blocked_write.
Proof.
  intros c c' r Hw Hb. unfold blocked, blocked_write, svn_ra_svn_read_tuple in Hb.
  destruct (svn_ra_svn_read_item_drains (BH := lift Undefined) c Hw) as (c1 & r1 & H1 & (Hs1 & Hs2 & Hs3) & Hr1).
  unfold mbind, M_bind in Hb. rewrite H1 in Hb.
  destruct r1 as [it|e| | |]; try done; [|injection Hb as <- <-; rewrite Hs1; done..].
  destruct it as [n|s|w|items]; [injection Hb as <- <-; rewrite Hs1; done..|].
  unfold lift in Hb. destruct (parse_wl_cases items) as [Hp|(w & params & more & -> & Hp)]; rewrite Hp in Hb.
  - injection Hb as <- <-. by rewrite Hs1.
  - destruct (strcmp w _ =? 0); injection Hb as <- <-; cbn; by rewrite Hs1.
Qed.

Lemma canonical_copy_path_ok (copy : option (list byte * Z)) :
  canonical_copy_path (copy_path copy) = Ok (copy_path (canonical_copy copy))
  ∧ copy_rev (canonical_copy copy) = copy_rev copy.
Proof.
  destruct copy as [[path rev]|]; [|done]. split; [|done]. cbn.
  destruct (svn_path_is_url path) eqn:Hu; [|done]. by destruct (uri_canonicalize_url _ Hu) as [uri ->].
Qed.

Lemma token_text_inj type1 type2 i j :
  Z.of_nat i < INT_MAX → Z.of_nat j < INT_MAX →
  token_text type1 (Z.of_nat i) = token_text type2 (Z.of_nat j) → type1 = type2 ∧ i = j.
Proof.
  intros Hi Hj [= -> Hn]. split; [done|].
  pose proof (strtol_printf (Z.of_nat i) []) as H1. pose proof (strtol_printf (Z.of_nat j) []) as H2.
  rewrite Hn in H1. unfold INT_MAX in *. change LONG_MIN with (-9223372036854775808) in *.
  change LONG_MAX with 9223372036854775807 in *. rewrite H1 in H2 by (done || lia).
  specialize (H2 ltac:(lia) eq_refl). injection H2 as H2. lia.
Qed.

(** The number of open files. *)
Definition file_weight (o : edit_obj) : nat := match o with File _ => 1 | _ => 0 end.
Definition file_count (os : list edit_obj) : nat := sum_list_with file_weight os.

#[local] Arguments file_count : simpl never.

Lemma file_count_cons o os : file_count (o :: os) = (file_weight o + file_count os)%nat.
Proof. done. Qed.

Lemma file_count_set os i o o' :
  os !! i = Some o → (file_count (<[i := o']> os) + file_weight o = file_count os + file_weight o')%nat.
Proof.
  revert i. induction os as [|x os IH]; [done|]. intros [|i] Hi; cbn in Hi.
  - injection Hi as ->. change (<[0%nat:=o']> (o :: os)) with (o' :: os). rewrite !file_count_cons. lia.
  - change (<[Datatypes.S i:=o']> (x :: os)) with (x :: <[i:=o']> os). rewrite !file_count_cons.
    specialize (IH i Hi). lia.
Qed.

Lemma file_count_app os o : file_count (os ++ [o]) = (file_count os + file_weight o)%nat.
Proof. unfold file_count. rewrite sum_list_with_app. cbn. lia. Qed.

Lemma file_count_pos os i a : os !! i = Some (File a) → (0 < file_count os)%nat.
Proof.
  revert i. induction os as [|x os IH]; [done|]. intros [|i] Hi; cbn in Hi |- *; rewrite file_count_cons.
  - injection Hi as ->. cbn. lia.
  - specialize (IH i Hi). lia.
Qed.

Lemma file_count_le os : (file_count os <= length os)%nat.
Proof. induction os as [|o os IH]; [done|]. rewrite file_count_cons. cbn [length]. destruct o; cbn; lia. Qed.

(** Reading with nothing to write keeps the writing side. *)
Lemma read_tuple_keeps `{BH : BlockHandler} fmt c c' r :
  write_buf c = [] → svn_ra_svn_read_tuple fmt c = (c', r) → same_writing c c'.
Proof.
  intros Hw Hr. unfold svn_ra_svn_read_tuple, mbind, M_bind in Hr.
  destruct (svn_ra_svn_read_item_drains c Hw) as (c1 & r1 & H1 & Hs & _). rewrite H1 in Hr.
  destruct r1 as [[n|s|w|items]|e| | |]; by injection Hr as <- <-.
Qed.

Section Receiving.
Context {S B T : Type} (editor : receiving_editor S B T).
Abbreviation driver := (ra_svn_driver_state_t S B T).
Abbreviation done_things := (performed (S := S) (B := B) (T := T)).
Implicit Types (ds : driver) (p : done_things).

(** The entry of an open object. *)
Definition entry_of p (i : nat) (o : edit_obj) : option (ra_svn_token_entry_t (B := B) (T := T)) :=
  match o with
  | Dir q => Some (MkToken (nth i (p_batons p) None) false None q)
  | File _ => Some (MkToken (nth i (p_batons p) None) true (p_streams p !! i) file_pool)
  | Closed => None
  end.

Definition token_of (i : nat) (o : edit_obj) : list byte :=
  match o with File _ => file_token i | _ => dir_token i end.

(** What the driver's state has to do with what was performed and what is open. *)
Record driving ds p sh : Prop := Driving {
  dr_edit : edit ds = p_edit p;
  dr_batons : length (p_batons p) = length (objs sh);
  dr_size : Z.of_nat (length (objs sh)) < INT_MAX;
  dr_tokens : ∀ i o entry, objs sh !! i = Some o → entry_of p i o = Some entry →
    tokens ds !! token_of i o = Some (Some (entry, entry_pool entry));
  dr_fresh : ∀ i, (length (objs sh) <= i)%nat → Z.of_nat i < INT_MAX →
    tokens ds !! dir_token i = None ∧ tokens ds !! file_token i = None;
  dr_pools : next_pool ds = pools sh;
  dr_one : (1 <= pools sh)%nat;
  dr_dirs : ∀ i q, objs sh !! i = Some (Dir q) → q ≠ [] ∧ Forall (λ id, 1 <= id < pools sh)%nat q;
  dr_streams : ∀ i, match objs sh !! i with
                    | Some (File a) => is_Some (p_streams p !! i) ↔ a = true
                    | Some _ => True
                    | None => p_streams p !! i = None
                    end;
  dr_refs : file_refs ds = Z.of_nat (file_count (objs sh));
  dr_done : done ds = false;
}.

(** *** Steps of the handlers *)

Lemma lookup_token_run ds p sh i o entry c :
  driving ds p sh → objs sh !! i = Some o → entry_of p i o = Some entry →
  lookup_token (token_of i o) (is_file entry) ds c = (c, Ok (ds, inr entry)).
Proof.
  intros Hd Hi He. unfold lookup_token. erewrite em_bind; [|done]. cbn beta.
  rewrite (dr_tokens _ _ _ Hd i o entry Hi He). by rewrite eqb_reflx.
Qed.

Lemma cmd_err_run {A} (f : S → S * outcome A) ds c :
  SVN_CMD_ERR f ds c =
  (c, Ok (set_edit (f (edit ds)).1 ds,
          match (f (edit ds)).2 with
          | Failed link child => inl (Reported (svn_error_create SVN_ERR_RA_SVN_CMD_ERR (link :: child) None))
          | Done a => inr a
          end)).
Proof. unfold SVN_CMD_ERR. by destruct (f (edit ds)) as [st [link child|a]]. Qed.

Lemma store_token_run b token f q ds c :
  tokens ds !! token = None →
  store_token b token f q ds c =
  (c, Ok (set_tokens (<[token := Some (MkToken b f None q, q)]> (tokens ds)) ds, inr ())).
Proof. intros Ht. unfold store_token. erewrite em_bind; [|done]. cbn beta. by rewrite Ht. Qed.

Lemma parse_params_run fs ds c :
  field_ok (F_tuple fs [] false) = true →
  parse_params (tuple_items fs [] false) (tuple_fmt fs []) ds c = (c, Ok (ds, inr (tuple_args fs [] false))).
Proof.
  intros Hok. unfold parse_params. apply on_conn_run. unfold lift. by rewrite svn_ra_svn_parse_tuple_items.
Qed.

(** *** What the steps preserve *)

Lemma driving_edit ds p sh st :
  driving ds p sh → driving (set_edit st ds) (Performed st (p_batons p) (p_streams p)) sh.
Proof. intros [H1 H2 H3 H4 H5 H6 H7 H8 H9 H10 H11]. by split. Qed.

Lemma entry_of_add p i o b :
  (i < length (p_batons p))%nat →
  entry_of (Performed (p_edit p) (p_batons p ++ [b]) (p_streams p)) i o = entry_of p i o.
Proof. intros Hi. destruct o; cbn; by rewrite ?app_nth1. Qed.

(** A token of another object. *)
Lemma token_of_ne i j o o' :
  Z.of_nat i < INT_MAX → Z.of_nat j < INT_MAX → i ≠ j → token_of i o ≠ token_of j o'.
Proof.
  intros Hi Hj Hne Heq. unfold token_of, dir_token, file_token in Heq.
  destruct o, o'; by apply token_text_inj in Heq as [_ ?].
Qed.

(** A new object with the entry that is stored for it. *)
Lemma driving_new ds p sh b q o sh' n refs :
  driving ds p sh → Z.of_nat (1 + length (objs sh)) < INT_MAX →
  objs sh' = objs sh ++ [o] → pools sh' = n → (pools sh <= n)%nat →
  match o with
  | Dir q' => q = q' ∧ q ≠ [] ∧ Forall (λ id, 1 <= id < n)%nat q
  | File a => a = false ∧ q = file_pool
  | Closed => False
  end →
  refs = file_refs ds + Z.of_nat (file_weight o) →
  driving
    (MkDriver (edit ds)
       (<[token_of (length (objs sh)) o :=
          Some (MkToken b (match o with File _ => true | _ => false end) None q, q)]> (tokens ds))
       (aborted ds) (done ds) n refs (for_replay ds))
    (Performed (p_edit p) (p_batons p ++ [b]) (p_streams p)) sh'.
Proof.
  intros [H1 H2 H3 H4 H5 H6 H7 H8 H9 H10 H11] Hlt Ho <- Hn Hq Hr.
  assert (∀ i x, objs sh !! i = Some x → (i < length (objs sh))%nat) as Hin by (intros; by eapply lookup_lt_Some).
  split; rewrite ?Ho; cbn.
  - done.
  - rewrite !length_app. cbn. lia.
  - rewrite length_app. cbn. lia.
  - intros i x entry Hi He. apply lookup_app_Some in Hi as [Hi|[Hge Hi]].
    + pose proof (Hin _ _ Hi). rewrite entry_of_add in He by lia.
      rewrite lookup_insert_ne; [by apply H4|]. apply token_of_ne; lia.
    + apply list_lookup_singleton_Some in Hi as [Hi ->]. assert (i = length (objs sh)) as -> by lia.
      pose proof (H9 (length (objs sh))) as Hs. rewrite lookup_ge_None_2 in Hs by lia.
      rewrite lookup_insert_eq. destruct x as [q'|a|]; [destruct Hq as [<- _]|destruct Hq as [-> ->]|done];
        cbn in He; rewrite ?Hs, app_nth2, H2, Nat.sub_diag in He by lia; cbn in He; by injection He as <-.
  - intros i Hge Hi. rewrite length_app in Hge. cbn in Hge.
    rewrite !lookup_insert_ne; [apply H5; lia| |].
    + apply (token_of_ne _ _ o (File false)); lia.
    + apply (token_of_ne _ _ o (Dir [])); lia.
  - done.
  - lia.
  - intros i q' Hi. apply lookup_app_Some in Hi as [Hi|[Hge Hi]].
    + destruct (H8 i q' Hi) as [Hne Hall]. split; [done|]. eapply Forall_impl; [done|]. cbn. lia.
    + apply list_lookup_singleton_Some in Hi as [Hi ->]. by destruct Hq as (-> & ? & ?).
  - intros i. specialize (H9 i). destruct (objs sh !! i) as [x|] eqn:Hi.
    + by rewrite (lookup_app_l_Some _ _ _ _ Hi).
    + apply lookup_ge_None in Hi. destruct (decide (i = length (objs sh))) as [->|].
      * rewrite list_lookup_middle by done. destruct o; [done| |done]. destruct Hq as [-> _].
        rewrite H9. split; [intros [? [=]]|done].
      * rewrite lookup_ge_None_2; [done|]. rewrite length_app. cbn. lia.
  - rewrite file_count_app, Hr, H10. lia.
  - done.
Qed.

(** The table after a pool was destroyed. *)
Definition destroyed (q : pool) (tks : gmap (list byte) (option (ra_svn_token_entry_t (B := B) (T := T) * pool))) :=
  (λ cell, match cell with
           | Some (entry, key) => if in_pool q (entry_pool entry) || in_pool q key then None else cell
           | None => None
           end) <$> tks.

Lemma destroyed_lookup q tks token entry :
  tks !! token = Some (Some (entry, entry_pool entry)) → in_pool q (entry_pool entry) = false →
  destroyed q tks !! token = Some (Some (entry, entry_pool entry)).
Proof. intros Ht Hq. unfold destroyed. by rewrite lookup_fmap, Ht; cbn; rewrite Hq. Qed.

Lemma destroyed_none q tks token : tks !! token = None → destroyed q tks !! token = None.
Proof. intros Ht. unfold destroyed. by rewrite lookup_fmap, Ht. Qed.

(** An object is closed, and perhaps the pool of no other open object destroyed. *)
Lemma driving_close ds p sh (i : nat) (o : edit_obj) (tks : gmap (list byte) (option (ra_svn_token_entry_t (B := B) (T := T) * pool))) :
  driving ds p sh → objs sh !! i = Some o →
  (∀ token : list byte, delete (token_of i o) (tokens ds) !! token = None → tks !! token = None) →
  (∀ j x entry, i ≠ j → objs sh !! j = Some x → entry_of p j x = Some entry →
    delete (token_of i o) (tokens ds) !! token_of j x = Some (Some (entry, entry_pool entry)) →
    tks !! token_of j x = Some (Some (entry, entry_pool entry))) →
  driving
    (MkDriver (edit ds) tks (aborted ds) (done ds) (next_pool ds) (file_refs ds - Z.of_nat (file_weight o))
       (for_replay ds))
    p (Shape (<[i := Closed]> (objs sh)) (pools sh)).
Proof.
  intros [H1 H2 H3 H4 H5 H6 H7 H8 H9 H10 H11] Hi Hnone Hsome.
  pose proof (lookup_lt_Some _ _ _ Hi) as Hlt. split; cbn; rewrite ?length_insert; try done.
  - intros j x entry Hj He. apply list_lookup_insert_Some in Hj as [(<- & <- & _)|[Hne Hj]]; [done|].
    pose proof (lookup_lt_Some _ _ _ Hj). eapply Hsome; [done..|].
    rewrite lookup_delete_ne; [by apply H4|]. apply token_of_ne; lia.
  - intros j Hge Hj. destruct (H5 j Hge Hj) as [Hd Hf].
    split; apply Hnone; rewrite lookup_delete_None; by right.
  - intros j q' Hj. apply list_lookup_insert_Some in Hj as [(<- & [=] & _)|[_ Hj]]. by apply (H8 j).
  - intros j. specialize (H9 j). destruct (decide (i = j)) as [<-|Hne].
    + by rewrite list_lookup_insert_eq.
    + by rewrite list_lookup_insert_ne.
  - pose proof (file_count_set (objs sh) i o Closed Hi) as Hc. cbn in Hc. lia.
Qed.

(** A file's delta begins, goes on or ends. *)
Lemma driving_stream ds p sh i a (stream : option T) :
  driving ds p sh → objs sh !! i = Some (File a) →
  driving
    (set_tokens (alter (fmap (λ cell, (MkToken (nth i (p_batons p) None) true stream file_pool, cell.2)))
                   (file_token i) (tokens ds)) ds)
    (Performed (p_edit p) (p_batons p) (partial_alter (λ _, stream) i (p_streams p)))
    (Shape (<[i := File (bool_decide (is_Some stream))]> (objs sh)) (pools sh)).
Proof.
  intros [H1 H2 H3 H4 H5 H6 H7 H8 H9 H10 H11] Hi.
  pose proof (lookup_lt_Some _ _ _ Hi) as Hlt. split; cbn; rewrite ?length_insert; try done.
  - intros j x entry Hj He. apply list_lookup_insert_Some in Hj as [(<- & <- & _)|[Hne Hj]].
    + cbn in He |- *. injection He as <-.
      pose proof (H4 i (File a) _ Hi eq_refl) as Ht. cbn in Ht.
      rewrite lookup_alter_eq, Ht. cbn. by rewrite lookup_partial_alter_eq.
    + pose proof (lookup_lt_Some _ _ _ Hj).
      rewrite lookup_alter_ne; [|apply (token_of_ne i j (File a) x); lia].
      apply H4; [done|]. destruct x; cbn in He |- *; [done| |done]. by rewrite lookup_partial_alter_ne in He.
  - intros j Hge Hj. destruct (H5 j Hge Hj) as [Hd Hf].
    rewrite !lookup_alter_ne; [done|apply (token_of_ne i j (File a) (File a))|apply (token_of_ne i j (File a) (Dir []))]; lia.
  - intros j q' Hj. apply list_lookup_insert_Some in Hj as [(<- & [=] & _)|[_ Hj]]. by apply (H8 j).
  - intros j. specialize (H9 j). destruct (decide (i = j)) as [<-|Hne].
    + rewrite list_lookup_insert_eq, lookup_partial_alter_eq by done. by rewrite bool_decide_eq_true.
    + by rewrite list_lookup_insert_ne, lookup_partial_alter_ne.
  - pose proof (file_count_set (objs sh) i _ (File (bool_decide (is_Some stream))) Hi) as Hc. cbn in Hc. lia.
Qed.

(** *** The handlers *)

Abbreviation failure := (option (svn_error_link * list svn_error_link)).

(** What a handler returns for the outcome of a call. *)
Definition handler_result (fail : failure) : edit_error + () :=
  match fail with
  | None => inr ()
  | Some (link, child) => inl (Reported (svn_error_create SVN_ERR_RA_SVN_CMD_ERR (link :: child) None))
  end.

(** The handler, run as [run], performs the call: [r] is the outcome of it. *)
Definition handled ds sh' c (run : svn_ra_svn_conn_t * result (driver * (edit_error + ()))) (r : done_things * failure)
    : Prop :=
  ∃ ds', run = (c, Ok (ds', handler_result r.2))
  ∧ edit ds' = p_edit r.1 ∧ done ds' = false ∧ aborted ds' = aborted ds ∧ for_replay ds' = for_replay ds
  ∧ (r.2 = None → driving ds' r.1 sh').

Lemma handled_kept ds p sh c (f : S → S * outcome ()) :
  driving ds p sh →
  handled ds sh c (SVN_CMD_ERR f ds c) (do_call f (λ _ st, Performed st (p_batons p) (p_streams p)) p).
Proof.
  intros Hd. rewrite cmd_err_run. unfold do_call. rewrite (dr_edit _ _ _ Hd).
  pose proof (driving_edit ds p sh (f (p_edit p)).1 Hd) as Hd'.
  exists (set_edit (f (p_edit p)).1 ds).
  destruct (f (p_edit p)) as [st [link child|[]]]; split_and!; try done; apply (dr_done _ _ _ Hd).
Qed.

Lemma handled_dir ds p sh c q (f : S → S * outcome (option B)) :
  driving ds p sh → Z.of_nat (1 + length (objs sh)) < INT_MAX → Forall (λ id, 1 <= id < pools sh)%nat q →
  handled ds (Shape (objs sh ++ [Dir (q ++ [pools sh])]) (1 + pools sh)) c
    ((b ← SVN_CMD_ERR f; store_token b (dir_token (length (objs sh))) false (q ++ [next_pool ds]))
       (MkDriver (edit ds) (tokens ds) (aborted ds) (done ds) (1 + next_pool ds) (file_refs ds) (for_replay ds)) c)
    (do_call f (λ b st, Performed st (p_batons p ++ [b]) (p_streams p)) p).
Proof.
  intros Hd Hlt Hq. pose proof (driving_edit ds p sh (f (p_edit p)).1 Hd) as Hd'.
  destruct (dr_fresh _ _ _ Hd' (length (objs sh)) ltac:(lia) ltac:(lia)) as [Hfresh _].
  pose proof (dr_done _ _ _ Hd) as Hdone. rewrite (dr_pools _ _ _ Hd). unfold do_call.
  rewrite <- (dr_edit _ _ _ Hd) in Hd', Hfresh |- *.
  match goal with |- handled _ _ _ ((SVN_CMD_ERR _ ≫= ?k) ?ds1 _) _ =>
    pose proof (cmd_err_run f ds1 c) as Hrun; cbn [edit] in Hrun end.
  destruct (f (edit ds)) as [st [link child|b]]; cbn [fst snd] in *.
  - eexists. split_and!; [by apply em_bind_fail|done..].
  - eexists. split; [rewrite (em_bind _ _ _ _ _ _ _ Hrun); by apply store_token_run|].
    split_and!; [done..|]. intros _.
    apply (driving_new _ _ _ b (q ++ [pools sh]) (Dir (q ++ [pools sh]))
        (Shape (objs sh ++ [Dir (q ++ [pools sh])]) (1 + pools sh)) (1 + pools sh) (file_refs ds) Hd'); try done.
    + lia.
    + split; [done|]. split; [by destruct q|]. apply Forall_app. split.
      * eapply Forall_impl; [done|]. cbn. lia.
      * apply Forall_singleton. pose proof (dr_one _ _ _ Hd). lia.
    + cbn. lia.
Qed.

Lemma handled_file ds p sh c (f : S → S * outcome (option B)) :
  driving ds p sh → Z.of_nat (1 + length (objs sh)) < INT_MAX →
  handled ds (Shape (objs sh ++ [File false]) (pools sh)) c
    (new_file (file_token (length (objs sh))) f (set_file_refs (file_refs ds + 1) ds) c)
    (do_call f (λ b st, Performed st (p_batons p ++ [b]) (p_streams p)) p).
Proof.
  intros Hd Hlt. pose proof (driving_edit ds p sh (f (p_edit p)).1 Hd) as Hd'.
  destruct (dr_fresh _ _ _ Hd' (length (objs sh)) ltac:(lia) ltac:(lia)) as [_ Hfresh].
  pose proof (dr_done _ _ _ Hd) as Hdone. unfold do_call, new_file.
  rewrite <- (dr_edit _ _ _ Hd) in Hd', Hfresh |- *.
  rewrite (em_bind _ _ _ _ _ _ _ (store_token_run None (file_token (length (objs sh))) true file_pool
    (set_file_refs (file_refs ds + 1) ds) c Hfresh)).
  match goal with |- handled _ _ _ ((SVN_CMD_ERR _ ≫= ?k) ?ds1 _) _ =>
    pose proof (cmd_err_run f ds1 c) as Hrun; cbn [edit set_tokens set_file_refs] in Hrun end.
  destruct (f (edit ds)) as [st [link child|b]]; cbn [fst snd] in *.
  - eexists. split_and!; [by apply em_bind_fail|done..].
  - eexists. split; [by rewrite (em_bind _ _ _ _ _ _ _ Hrun)|].
    split_and!; [done..|]. intros _. unfold set_tokens, set_edit, set_file_refs. cbn. rewrite alter_insert_eq. cbn.
      apply (driving_new _ _ _ b file_pool (File false) (Shape (objs sh ++ [File false]) (pools sh)) (next_pool ds)
        (file_refs ds + 1) Hd'); rewrite ?(dr_pools _ _ _ Hd); done.
Qed.

Lemma handled_stream {A} ds p sh c i a b (f : S → S * outcome A) (k : A → option T) :
  driving ds p sh → objs sh !! i = Some (File a) → (∀ x, bool_decide (is_Some (k x)) = b) →
  handled ds (Shape (<[i := File b]> (objs sh)) (pools sh)) c
    ((x ← SVN_CMD_ERR f;
      set_entry (file_token i) (set_dstream (k x) (MkToken (nth i (p_batons p) None) true (p_streams p !! i) file_pool)))
       ds c)
    (do_call f (λ x st, Performed st (p_batons p) (partial_alter (λ _, k x) i (p_streams p))) p).
Proof.
  intros Hd Hi Hk. pose proof (driving_edit ds p sh (f (p_edit p)).1 Hd) as Hd'.
  pose proof (dr_done _ _ _ Hd) as Hdone. unfold do_call. rewrite <- (dr_edit _ _ _ Hd) in Hd' |- *.
  pose proof (cmd_err_run f ds c) as Hrun.
  destruct (f (edit ds)) as [st [link child|x]]; cbn [fst snd] in *.
  - eexists. split_and!; [by apply em_bind_fail|done..].
  - eexists. split; [by rewrite (em_bind _ _ _ _ _ _ _ Hrun)|]. split_and!; [done..|]. intros _.
    rewrite <- (Hk x). apply (driving_stream _ _ _ _ _ (k x) Hd' Hi).
Qed.

Lemma in_pool_dir q : in_pool file_pool q = true → ∃ l, q = 0%nat :: l.
Proof. intros [l ->]%bool_decide_eq_true. by exists l. Qed.

Lemma handled_close_file ds p sh c i (f : S → S * outcome ()) :
  driving ds p sh → objs sh !! i = Some (File false) →
  handled ds (Shape (<[i := Closed]> (objs sh)) (pools sh)) c
    ((SVN_CMD_ERR f;;
      remove_token (file_token i);;
      refs ← asks file_refs;
      update (set_file_refs (refs - 1));;
      if refs - 1 =? 0 then svn_pool_destroy file_pool else mret ()) ds c)
    (do_call f (λ _ st, Performed st (p_batons p) (p_streams p)) p).
Proof.
  intros Hd Hi. pose proof (driving_edit ds p sh (f (p_edit p)).1 Hd) as Hd'.
  pose proof (dr_done _ _ _ Hd) as Hdone. unfold do_call. rewrite <- (dr_edit _ _ _ Hd) in Hd' |- *.
  pose proof (cmd_err_run f ds c) as Hrun.
  destruct (f (edit ds)) as [st [link child|[]]]; cbn [fst snd] in *.
  { eexists. split_and!; [by apply em_bind_fail|done..]. }
  eexists. split.
  { rewrite (em_bind _ _ _ _ _ _ _ Hrun). do 3 (erewrite em_bind; [|done]). cbn beta.
    instantiate (1 := MkDriver st
      ((if file_refs ds - 1 =? 0 then destroyed file_pool else id) (delete (file_token i) (tokens ds)))
      (aborted ds) (done ds) (next_pool ds) (file_refs ds - 1) (for_replay ds)).
    cbn. by destruct (file_refs ds - 1 =? 0). }
  split_and!; [done..|]. intros _.
  apply (driving_close _ _ _ _ _ ((if file_refs ds - 1 =? 0 then destroyed file_pool else id)
    (delete (file_token i) (tokens ds))) Hd' Hi).
  - intros token Ht. destruct (_ =? 0); [by apply destroyed_none|done].
  - intros j x entry Hne Hj He Ht. destruct (Z.eqb_spec (file_refs ds - 1) 0) as [Hz|]; [|done].
    apply destroyed_lookup; [done|]. rewrite (dr_refs _ _ _ Hd) in Hz.
    destruct x as [q|b|]; [|exfalso|done]; cbn in He; injection He as <-; cbn.
    + destruct (dr_dirs _ _ _ Hd j q Hj) as [_ Hq]. destruct (in_pool file_pool q) eqn:Hp; [|done].
      apply in_pool_dir in Hp as [l ->]. apply Forall_cons in Hq as [Hq _]. lia.
    + pose proof (file_count_set (objs sh) i _ Closed Hi) as Hc. cbn in Hc.
      pose proof (file_count_pos (<[i := Closed]> (objs sh)) j b) as Hpos.
      rewrite list_lookup_insert_ne in Hpos by done. specialize (Hpos Hj). lia.
Qed.

Lemma handled_close_dir ds p sh c i q (f : S → S * outcome ()) :
  driving ds p sh → objs sh !! i = Some (Dir q) →
  existsb (λ o, match o with Dir q' => in_pool q q' | _ => false end) (<[i := Closed]> (objs sh)) = false →
  handled ds (Shape (<[i := Closed]> (objs sh)) (pools sh)) c
    ((SVN_CMD_ERR f;; remove_token (dir_token i);; svn_pool_destroy q) ds c)
    (do_call f (λ _ st, Performed st (p_batons p) (p_streams p)) p).
Proof.
  intros Hd Hi Hex. pose proof (driving_edit ds p sh (f (p_edit p)).1 Hd) as Hd'.
  pose proof (dr_done _ _ _ Hd) as Hdone. unfold do_call. rewrite <- (dr_edit _ _ _ Hd) in Hd' |- *.
  pose proof (cmd_err_run f ds c) as Hrun.
  destruct (f (edit ds)) as [st [link child|[]]]; cbn [fst snd] in *.
  { eexists. split_and!; [by apply em_bind_fail|done..]. }
  eexists. split.
  { rewrite (em_bind _ _ _ _ _ _ _ Hrun). do 1 (erewrite em_bind; [|done]). cbn beta.
    instantiate (1 := MkDriver st (destroyed q (delete (dir_token i) (tokens ds)))
      (aborted ds) (done ds) (next_pool ds) (file_refs ds - 0) (for_replay ds)).
    cbn. by rewrite Z.sub_0_r. }
  split_and!; [done..|]. intros _.
  apply (driving_close _ _ _ _ _ (destroyed q (delete (dir_token i) (tokens ds))) Hd' Hi).
  - intros token. apply destroyed_none.
  - intros j x entry Hne Hj He Ht. apply destroyed_lookup; [done|].
    destruct x as [q'|b|]; [| |done]; cbn in He; injection He as <-; cbn.
    + destruct (in_pool q q') eqn:Hp; [|done]. exfalso.
      assert (existsb (λ o, match o with Dir q' => in_pool q q' | _ => false end) (<[i := Closed]> (objs sh)) = true)
        as Hx; [|congruence].
      apply existsb_exists. exists (Dir q'). split; [|done]. apply list_elem_of_In, list_elem_of_lookup.
      exists j. by rewrite list_lookup_insert_ne.
    + destruct (in_pool q file_pool) eqn:Hp; [|done]. apply bool_decide_eq_true in Hp as [l Hl].
      destruct (dr_dirs _ _ _ Hd i q Hi) as [Hne' Hq]. destruct q as [|n q]; [done|].
      injection Hl as <- _. apply Forall_cons in Hq as [Hq _]. lia.
Qed.

(** *** Every call is performed *)

(** Parsing the parameters of a call. *)
Lemma parsed fs fmt args (k : list va_arg_t → EM driver ()) ds c :
  params_ok fs [] false = true → fmt = tuple_fmt fs [] → args = tuple_args fs [] false →
  (parse_params (tuple_items fs [] false) fmt ≫= k) ds c = k args ds c.
Proof. intros [Hok _]%andb_prop -> ->. by rewrite (em_bind _ _ _ _ _ _ _ (parse_params_run fs ds c Hok)). Qed.

Lemma looked_up ds p sh i o entry (k : ra_svn_token_entry_t (B := B) (T := T) → EM driver ()) c :
  driving ds p sh → objs sh !! i = Some o → entry_of p i o = Some entry →
  (lookup_token (token_of i o) (is_file entry) ≫= k) ds c = k entry ds c.
Proof. intros Hd Hi He. by rewrite (em_bind _ _ _ _ _ _ _ (lookup_token_run _ _ _ _ _ _ c Hd Hi He)). Qed.

Lemma looked_up_dir ds p sh i q (k : ra_svn_token_entry_t (B := B) (T := T) → EM driver ()) c :
  driving ds p sh → objs sh !! i = Some (Dir q) →
  (lookup_token (dir_token i) false ≫= k) ds c = k (MkToken (nth i (p_batons p) None) false None q) ds c.
Proof. intros Hd Hi. by apply (looked_up ds p sh i (Dir q) (MkToken (nth i (p_batons p) None) false None q) k c). Qed.

Lemma looked_up_file ds p sh i a (k : ra_svn_token_entry_t (B := B) (T := T) → EM driver ()) c :
  driving ds p sh → objs sh !! i = Some (File a) →
  (lookup_token (file_token i) true ≫= k) ds c
  = k (MkToken (nth i (p_batons p) None) true (p_streams p !! i) file_pool) ds c.
Proof. intros Hd Hi. by apply (looked_up ds p sh i (File a) (MkToken (nth i (p_batons p) None) true (p_streams p !! i) file_pool) k c). Qed.

Lemma pool_created q (k : pool → EM driver ()) ds c :
  (svn_pool_create q ≫= k) ds c
  = k (q ++ [next_pool ds])
      (MkDriver (edit ds) (tokens ds) (aborted ds) (done ds) (1 + next_pool ds) (file_refs ds) (for_replay ds)) c.
Proof. done. Qed.

Lemma copied (copy : option (list byte * Z)) (k : option (list byte) → EM driver ()) ds c :
  (on_conn (lift (canonical_copy_path (copy_path copy))) ≫= k) ds c = k (copy_path (canonical_copy copy)) ds c.
Proof.
  destruct (canonical_copy_path_ok copy) as [Hcopy _].
  erewrite em_bind; [done|]. apply on_conn_run. unfold lift. by rewrite Hcopy.
Qed.

Lemma file_referred ds p sh (k : () → EM driver ()) c :
  driving ds p sh → (add_file_ref ≫= k) ds c = k () (set_file_refs (file_refs ds + 1) ds) c.
Proof.
  intros Hd. erewrite em_bind; [done|]. unfold add_file_ref. erewrite em_bind; [|done]. cbn beta.
  pose proof (file_count_le (objs sh)). pose proof (dr_size _ _ _ Hd).
  by rewrite (proj2 (Z.eqb_neq _ _)) by (rewrite (dr_refs _ _ _ Hd); lia).
Qed.

Ltac parse_call :=
  match goal with
  | |- context [(parse_params (tuple_items ?fs [] false) ?fmt ≫= ?k) ?ds ?c] =>
      erewrite (parsed fs fmt _ k ds c); [|assumption|reflexivity|symmetry; wire_args]
  end.

Lemma handle_call call ds p sh sh' c :
  driving ds p sh → Z.of_nat (1 + length (objs sh)) < INT_MAX →
  call_ok (length (objs sh)) call = true → shape_step call sh = Some sh' →
  ∃ h, find_cmd (H := blocked_write) editor (call_wire (length (objs sh)) call).1 = Some h
  ∧ handled ds sh' c (h (tuple_items (call_wire (length (objs sh)) call).2 [] false) ds c)
      (perform editor (received_call call) p).
Proof.
  intros Hd Hlt [Hok Hrev]%andb_prop Hstep. set (n := length (objs sh)) in *.
  destruct call; cbn [shape_step] in Hstep; cbn [call_wire fst snd revs_ok received_call] in *;
    repeat match type of Hstep with
      | match objs sh !! ?i with _ => _ end = _ =>
          destruct (objs sh !! i) as [[q|[]|]|] eqn:Hi; try discriminate
      | (if ?b then _ else _) = _ => destruct b eqn:Hex; [discriminate|]
      end; injection Hstep as <-; (eexists; split; [reflexivity|]); cbn [snd];
    unfold ra_svn_handle_target_rev, ra_svn_handle_open_root, ra_svn_handle_delete_entry, ra_svn_handle_add_dir,
      ra_svn_handle_open_dir, ra_svn_handle_change_dir_prop, ra_svn_handle_close_dir, ra_svn_handle_absent_dir,
      ra_svn_handle_add_file, ra_svn_handle_open_file, ra_svn_handle_apply_textdelta, ra_svn_handle_textdelta_chunk,
      ra_svn_handle_textdelta_end, ra_svn_handle_change_file_prop, ra_svn_handle_close_file,
      ra_svn_handle_absent_file; parse_call;
    unfold F_cstring; cbn [field_args value_arg app tail_args map]; cbn iota;
    try (rewrite (looked_up_dir _ _ _ _ _ _ _ Hd Hi); cbn [baton entry_pool]);
    try (rewrite (looked_up_file _ _ _ _ _ _ _ Hd Hi); cbn [baton dstream]);
    try (by apply handled_kept).
  - rewrite pool_created. by apply (handled_dir ds p sh c []).
  - rewrite pool_created, copied. cbn [perform]. destruct (canonical_copy_path_ok copy) as [_ ->].
    apply handled_dir; [done..|]. by destruct (dr_dirs _ _ _ Hd dir q Hi).
  - rewrite pool_created. apply handled_dir; [done..|]. by destruct (dr_dirs _ _ _ Hd dir q Hi).
  - by apply handled_close_dir.
  - rewrite (file_referred _ _ _ _ _ Hd), copied. cbn [perform]. destruct (canonical_copy_path_ok copy) as [_ ->].
    by apply handled_file.
  - rewrite (file_referred _ _ _ _ _ Hd). by apply handled_file.
  - pose proof (dr_streams _ _ _ Hd file) as Hs. rewrite Hi in Hs.
    pose proof (handled_stream ds p sh c file false true
      (apply_textdelta editor (nth file (p_batons p) None) base_checksum) Some Hd Hi ltac:(done)) as Hh.
    destruct (p_streams p !! file); [discriminate (proj1 Hs ltac:(by eexists))|done].
  - pose proof (dr_streams _ _ _ Hd file) as Hs. rewrite Hi in Hs.
    destruct (p_streams p !! file) as [stream|] eqn:Hst; [|by destruct (proj2 Hs eq_refl)].
    pose proof (handled_stream ds p sh c file true true (λ st, svn_stream_write editor stream data st) Some Hd Hi
      ltac:(done)) as Hh.
    rewrite (list_insert_id _ _ _ Hi), Hst in Hh. cbn [perform]. rewrite Hst. by destruct sh.
  - pose proof (dr_streams _ _ _ Hd file) as Hs. rewrite Hi in Hs.
    destruct (p_streams p !! file) as [stream|] eqn:Hst; [|by destruct (proj2 Hs eq_refl)].
    pose proof (handled_stream ds p sh c file true false (λ st, svn_stream_close editor stream st) (λ _, None) Hd Hi
      ltac:(done)) as Hh.
    rewrite Hst in Hh. cbn [perform]. by rewrite Hst.
  - by apply handled_close_file.
Qed.


(** *** The loop *)

Context `{ErrorText}.
Abbreviation drive_loop := (drive_loop editor).

Lemma call_name_word n call : is_word (call_wire n call).1 = true.
Proof. by destruct call. Qed.

Definition cmd_error (link : svn_error_link) child : list svn_error_link :=
  svn_error_create SVN_ERR_RA_SVN_CMD_ERR (link :: child) None.

Lemma drive_round call ds p sh sh' c rest fuel :
  driving ds p sh → Z.of_nat (1 + length (objs sh)) < INT_MAX →
  call_ok (length (objs sh)) call = true → shape_step call sh = Some sh' →
  live c → unread c = call_text (length (objs sh)) call ++ rest →
  ∃ c1 ds1, after c c1 rest ∧ (write_buf c = [] → same_writing c c1)
  ∧ drive_loop (1 + fuel) ds c =
      match (perform editor (received_call call) p).2 with
      | None => drive_loop fuel ds1 c1
      | Some (link, child) => report_failure editor (cmd_error link child) ds1 c1
      end
  ∧ edit ds1 = p_edit (perform editor (received_call call) p).1
  ∧ done ds1 = false ∧ aborted ds1 = aborted ds ∧ for_replay ds1 = for_replay ds
  ∧ ((perform editor (received_call call) p).2 = None → driving ds1 (perform editor (received_call call) p).1 sh').
Proof.
  intros Hd Hlt Hok Hstep Hl Hu. pose proof (andb_prop _ _ Hok) as [[_ Hw]%andb_prop _].
  unfold call_text in Hu. destruct (call_wire (length (objs sh)) call) as [name fs] eqn:Hwire.
  pose proof (call_name_word (length (objs sh)) call) as Hname. rewrite Hwire in Hname. cbn [fst snd] in *.
  destruct (read_wl_parses name _ Hname Hw c rest Hl Hu) as (c1 & Hread & Ha).
  destruct (handle_call call ds p sh sh' c1 Hd Hlt Hok Hstep) as (h & Hfind & ds1 & Hrun & He & Hdone & Hab & Hrep & Hd1).
  rewrite Hwire in Hfind, Hrun. cbn [fst snd] in *.
  exists c1, ds1. split; [done|]. split; [intros Hwb; by eapply read_tuple_keeps|]. split; [|done].
  cbn [Editorp.drive_loop Nat.add]. erewrite em_bind; [|done]. rewrite (dr_done _ _ _ Hd).
  erewrite em_bind; [|by apply on_conn_run]. cbn iota. rewrite Hfind.
  erewrite em_bind; [|by apply attempt_run]. by destruct (perform editor (received_call call) p).2 as [[link child]|].
Qed.

Lemma received_calls_cons absent call calls :
  received_calls absent (call :: calls) =
  (if absent || negb (is_absent call) then [received_call call] else []) ++ received_calls absent calls.
Proof. unfold received_calls. cbn [List.filter]. by destruct (absent || negb (is_absent call)). Qed.

Lemma absent_shape call sh sh' : is_absent call = true → shape_step call sh = Some sh' → sh' = sh.
Proof.
  intros Ha Hs. destruct call; try done; cbn in Hs; destruct (objs sh !! dir) as [[?|?|]|]; by simplify_eq.
Qed.

(** The commands of a script are read and performed until one of them fails. *)
Lemma drive_script absent calls : ∀ ds p sh sh' c rest fuel,
  driving ds p sh → Z.of_nat (length (objs sh) + length calls) < INT_MAX →
  script_shape calls sh = Some sh' → live c → unread c = script_text absent calls sh ++ rest →
  ∃ c1 ds1 more sh1, after c c1 (script_text absent more sh1 ++ rest) ∧ (write_buf c = [] → same_writing c c1)
  ∧ script_shape more sh1 = Some sh'
  ∧ drive_loop (length (received_calls absent calls) + fuel) ds c =
      match (perform_all editor (received_calls absent calls) p).2 with
      | None => drive_loop fuel ds1 c1
      | Some (link, child) => report_failure editor (cmd_error link child) ds1 c1
      end
  ∧ edit ds1 = p_edit (perform_all editor (received_calls absent calls) p).1
  ∧ done ds1 = false ∧ aborted ds1 = aborted ds ∧ for_replay ds1 = for_replay ds
  ∧ ((perform_all editor (received_calls absent calls) p).2 = None →
       more = [] ∧ driving ds1 (perform_all editor (received_calls absent calls) p).1 sh').
Proof.
  induction calls as [|call calls IH]; intros ds p sh sh' c rest fuel Hd Hlt Hsc Hl Hu.
  { injection Hsc as <-. exists c, ds, [], sh. split_and!; try done.
    all: first [apply (dr_edit _ _ _ Hd)|apply (dr_done _ _ _ Hd)]. }
  cbn in Hsc, Hu. destruct (call_ok _ call) eqn:Hok; [|done]. destruct (shape_step call sh) as [sh1|] eqn:Hstep; [|done].
  cbn [length] in Hlt. pose proof (shape_step_length _ _ _ Hstep) as Hlen. rewrite received_calls_cons.
  rewrite <- app_assoc in Hu. destruct (absent || negb (is_absent call)) eqn:Hsent.
  - destruct (drive_round call ds p sh sh1 c (script_text absent calls sh1 ++ rest)
      (length (received_calls absent calls) + fuel) Hd
      ltac:(lia) Hok Hstep Hl Hu) as (c1 & ds1 & Ha & Hsw & Hloop & He & Hdone & Hab & Hrep & Hd1).
    cbn [app perform_all length]. cbn [Nat.add] in Hloop |- *. rewrite Hloop. destruct (perform editor (received_call call) p) as [p1 [[link child]|]]; cbn [fst snd] in *.
    + exists c1, ds1, calls, sh1. by split_and!.
    + destruct (IH ds1 p1 sh1 sh' c1 rest fuel (Hd1 eq_refl) ltac:(lia) Hsc (after_live _ _ _ Ha) (after_unread _ _ _ Ha))
        as (c2 & ds2 & more & sh2 & Ha2 & Hsw2 & Hm & Hloop2 & He2 & Hdone2 & Hab2 & Hrep2 & Hd2).
      exists c2, ds2, more, sh2. split_and!; try done; [by eapply after_trans| |congruence|congruence].
      intros Hwb. specialize (Hsw Hwb). etrans; [done|]. apply Hsw2. destruct Hsw as (-> & _). done.
  - cbn [app]. apply orb_false_elim in Hsent as [_ Habs%negb_false_iff].
    rewrite (absent_shape _ _ _ Habs Hstep) in *.
    destruct (IH ds p sh sh' c rest fuel Hd ltac:(lia) Hsc Hl Hu)
      as (c2 & ds2 & more & sh2 & Ha2 & Hsw2 & Hm & Hloop2 & He2 & Hdone2 & Hab2 & Hrep2 & Hd2).
    exists c2, ds2, more, sh2. by split_and!.
Qed.

(** *** The end of an edit *)

Definition close_text : list byte := bytes_of "( close-edit ( ) ) ".
Definition abort_text : list byte := bytes_of "( abort-edit ( ) ) ".
Definition success_text : list byte := bytes_of "( success ( ) ) ".

Lemma read_no_params name text :
  is_word name = true → item_text (reply_item name []) = text →
  parses (svn_ra_svn_read_tuple (bytes_of "wl")) text [VA_cstring (Some name); VA_list (Some [])].
Proof. intros Hn <-. by apply read_wl_parses. Qed.

Lemma drive_close ds c rest st fuel :
  done ds = false → live c → unread c = close_text ++ rest → close_edit editor (edit ds) = (st, Done ()) →
  ∃ c1 ds1, drive_loop (2 + fuel) ds c = (c1, Ok (ds1, inr ())) ∧ live c1 ∧ unread c1 = rest
  ∧ output c1 = output c ++ success_text ∧ edit ds1 = st ∧ done ds1 = true
  ∧ aborted ds1 = (λ _, false) <$> aborted ds.
Proof.
  intros Hdone Hl Hu Hc.
  destruct (read_no_params (bytes_of "close-edit") close_text eq_refl eq_refl c rest Hl Hu) as (c1 & Hread & Ha).
  destruct (write_cmd_response_emits [] [] false eq_refl c1 (live_fits _ (after_live _ _ _ Ha)))
    as (c2 & r & Hw & _ & Ho & Hr).
  destruct (Hr (after_live _ _ _ Ha)) as (-> & Hl2 & Hs2).
  eexists c2, _. split; [|split_and!].
  - cbn [Editorp.drive_loop Nat.add]. erewrite em_bind; [|done]. rewrite Hdone.
    erewrite em_bind; [|by apply on_conn_run]. cbn iota.
    change (find_cmd editor (bytes_of "close-edit")) with (Some (ra_svn_handle_close_edit (H := blocked_write) editor)).
    cbn iota. erewrite em_bind; [|apply attempt_run; unfold ra_svn_handle_close_edit].
    2:{ erewrite em_bind; [|rewrite cmd_err_run, Hc; reflexivity]. cbn [fst].
        erewrite em_bind; [|done]. erewrite em_bind; [|done]. by apply on_conn_run. }
    cbn beta iota. erewrite em_bind; [|done]. cbn. done.
  - done.
  - rewrite (same_input_unread _ _ Hs2). apply Ha.
  - rewrite Ho. f_equal. apply Ha.
  - done.
  - done.
  - done.
Qed.

(** *** After a failure *)

Lemma locate_cmd_error link child :
  apr_err link ≠ SVN_ERR_RA_SVN_CMD_ERR →
  svn_ra_svn__locate_real_error_child (cmd_error link child) = Ok (link :: child).
Proof.
  intros Hne. unfold svn_ra_svn__locate_real_error_child, cmd_error, svn_error_create. cbn.
  by rewrite (proj2 (Z.eqb_neq _ _) Hne).
Qed.

Definition failure_text err : list byte := item_text (reply_item (bytes_of "failure") (map link_item err)).

(** The error is sent when the transport does not block. *)
Lemma report_failure_run link child ds c :
  done ds = false → live c → Forall (λ n, n ≠ 0%nat) (accepts c) →
  apr_err link ≠ SVN_ERR_RA_SVN_CMD_ERR → Forall link_ok (link :: child) →
  ∃ c1 ds1, report_failure editor (cmd_error link child) ds c = (c1, Ok (ds1, inr ())) ∧ live c1
  ∧ unread c1 = unread c ∧ output c1 = output c ++ failure_text (link :: child) ∧ write_buf c1 = []
  ∧ edit ds1 = (abort_edit editor (edit ds)).1 ∧ done ds1 = false ∧ aborted ds1 = (λ _, true) <$> aborted ds.
Proof.
  intros Hdone Hl Hacc Hne Hok. set (c0 := set_block_handler c true).
  assert (live c0) as Hl0 by (destruct Hl; by split).
  destruct (write_cmd_failure_emits _ Hok c0 (live_fits _ Hl0)) as (c1 & r1 & Hw & _ & Ho & Hr).
  destruct (Hr Hl0) as (-> & Hl1 & Hs1).
  destruct (writebuf_flush_run c1) as (c2 & r2 & Hf & Hwb & Ho2 & Hr2). destruct (Hr2 Hl1) as (-> & Hl2 & Hs2).
  assert (same_input c0 c2) as Hs by (by etrans). pose proof Hs as (_ & _ & _ & Hbh).
  assert ((svn_ra_svn_write_cmd_failure (link :: child);; svn_ra_svn_flush) c0 = (c2, Ok ())) as Hwf.
  { by rewrite (run_bind _ _ _ _ _ Hw). }
  eexists (set_block_handler c2 false), _. split; [|split_and!].
  - unfold report_failure. erewrite em_bind; [|done]. erewrite em_bind; [|done]. cbn [done set_aborted]. rewrite Hdone.
    cbn [negb]. erewrite em_bind; [|erewrite em_bind; [|done]; done].
    erewrite em_bind; [|apply on_conn_run; unfold lift; by rewrite locate_cmd_error].
    erewrite em_bind; [|apply attempt_run, on_conn_run, Hwf].
    erewrite em_bind; [|done]. cbn beta. rewrite Hbh. cbn [block_handler c0 set_block_handler negb andb].
    erewrite em_bind; [|done]. erewrite em_bind; [|done]. done.
  - destruct Hl2. by split.
  - apply (same_input_unread _ _ Hs).
  - change (output c2 = output c0 ++ failure_text (link :: child)). by rewrite Ho2, Ho.
  - done.
  - done.
  - done.
  - done.
Qed.

Lemma read_discarded_parses name items :
  is_word name = true → forallb (writable 61) items = true →
  parses read_discarded (item_text (reply_item name items)) (Some name, None).
Proof.
  intros Hn Hi c rest Hl Hu.
  assert (writable 63 (reply_item name items) = true) as Hw.
  { change (is_word name && (forallb (writable 61) items && true) = true). by rewrite Hn, Hi. }
  destruct (item_text_parses _ Hw c rest Hl Hu) as (c1 & H1 & Ha). exists c1. split; [|done].
  unfold read_discarded. rewrite H1. unfold reply_item. by rewrite parse_wl.
Qed.

Lemma discard_round name items ds c rest fuel :
  is_word name = true → forallb (writable 61) items = true → done ds = false →
  live c → unread c = item_text (reply_item name items) ++ rest →
  ∃ c1, after c c1 rest
  ∧ discard_loop (1 + fuel) ds c =
      discard_loop fuel
        (if (strcmp name (bytes_of "abort-edit") =? 0) || (strcmp name (bytes_of "success") =? 0)
         then set_done ds else ds) c1.
Proof.
  intros Hn Hi Hdone Hl Hu. destruct (read_discarded_parses name items Hn Hi c rest Hl Hu) as (c1 & H1 & Ha).
  exists c1. split; [done|]. cbn [discard_loop Nat.add]. erewrite em_bind; [|done]. rewrite Hdone.
  erewrite em_bind; [|by apply on_conn_run]. cbn iota. rewrite bool_decide_eq_false_2 by done.
  destruct (_ || _); by (erewrite em_bind; [|done]).
Qed.

Lemma call_not_end n call :
  (strcmp (call_wire n call).1 (bytes_of "abort-edit") =? 0)
  || (strcmp (call_wire n call).1 (bytes_of "success") =? 0) = false.
Proof. by destruct call. Qed.

(** The commands after the failure are discarded up to the end of the edit. *)
Lemma discard_script absent calls : ∀ ds sh sh' c rest fuel,
  done ds = false → script_shape calls sh = Some sh' → live c →
  unread c = script_text absent calls sh ++ abort_text ++ rest →
  ∃ c1, discard_loop (length (received_calls absent calls) + (2 + fuel)) ds c = (c1, Ok (set_done ds, inr ()))
  ∧ after c c1 rest.
Proof.
  induction calls as [|call calls IH]; intros ds sh sh' c rest fuel Hdone Hsc Hl Hu.
  - destruct (discard_round (bytes_of "abort-edit") [] ds c rest (1 + fuel) eq_refl eq_refl Hdone Hl Hu)
      as (c1 & Ha & Hloop). exists c1. split; [|done].
    change (length (received_calls absent []) + (2 + fuel))%nat with (1 + (1 + fuel))%nat. by rewrite Hloop.
  - cbn in Hsc, Hu. destruct (call_ok _ call) eqn:Hok; [|done].
    destruct (shape_step call sh) as [sh1|] eqn:Hstep; [|done].
    rewrite received_calls_cons, <- app_assoc in *.
    destruct (absent || negb (is_absent call)) eqn:Hsent; [|by apply (IH ds sh1 sh')].
    apply andb_prop in Hok as [[_ Hw]%andb_prop _]. unfold call_text in Hu.
    pose proof (call_name_word (length (objs sh)) call) as Hn.
    pose proof (call_not_end (length (objs sh)) call) as Hend.
    destruct (call_wire (length (objs sh)) call) as [name fs]. cbn [fst snd] in *.
    destruct (discard_round name _ ds c _ (length (received_calls absent calls) + (2 + fuel)) Hn Hw Hdone Hl Hu)
      as (c1 & Ha & Hloop). rewrite Hend in Hloop.
    destruct (IH ds sh1 sh' c1 rest fuel Hdone Hsc (after_live _ _ _ Ha) (after_unread _ _ _ Ha)) as (c2 & H2 & Ha2).
    exists c2. split; [|by eapply after_trans]. cbn [app length] in *. by rewrite <- H2.
Qed.

(** *** Whole drives *)

Lemma script_text_length absent calls sh sh' :
  script_shape calls sh = Some sh' →
  (length (received_calls absent calls) <= length (script_text absent calls sh))%nat.
Proof.
  revert sh. induction calls as [|call calls IH]; intros sh Hsc; [cbn; lia|].
  rewrite received_calls_cons. cbn [script_shape script_text] in *.
  destruct (call_ok _ call); [|done]. destruct (shape_step call sh) as [sh1|]; [|done].
  rewrite !length_app. specialize (IH sh1 Hsc).
  destruct (absent || negb (is_absent call)); [|cbn; lia]. unfold call_text.
  destruct (call_wire _ call) as [name fs]. rewrite reply_text. cbn. lia.
Qed.

Lemma driving_start st ab rep : driving (MkDriver st ∅ ab false 1 0 rep) (Performed st [] ∅) no_shape.
Proof. by split. Qed.

(** A script and the end of the edit. *)
Lemma drive_whole absent calls sh p st st' ab rep d rest :
  script_shape calls no_shape = Some sh → Z.of_nat (length calls) < INT_MAX →
  perform_all editor (received_calls absent calls) (Performed st [] ∅) = (p, None) →
  close_edit editor (p_edit p) = (st', Done ()) →
  live d → unread d = script_text absent calls no_shape ++ close_text ++ rest →
  ∃ d1 ds, svn_ra_svn_drive_editor2 editor st ab rep d = (d1, Ok (ds, inr ()))
  ∧ edit ds = st' ∧ aborted ds = (λ _, false) <$> ab ∧ live d1 ∧ unread d1 = rest ∧ output d1 = output d ++ success_text.
Proof.
  intros Hsc Hlt Hp Hc Hl Hu. pose proof (script_text_length absent _ _ _ Hsc) as Hlen.
  set (extra := (length (unread d) - length (received_calls absent calls))%nat).
  destruct (drive_script absent calls _ _ _ _ d (close_text ++ rest) (2 + extra) (driving_start st ab rep) Hlt Hsc Hl Hu)
    as (d1 & ds1 & more & sh1 & Ha & _ & Hm & Hloop & He & Hdone & Hab & _ & Hd1).
  rewrite Hp in Hloop, He, Hd1. cbn [fst snd] in *. destruct (Hd1 eq_refl) as [-> _].
  destruct (drive_close ds1 d1 rest st' extra Hdone (after_live _ _ _ Ha) (after_unread _ _ _ Ha)) as
    (d2 & ds2 & Hrun & Hl2 & Hu2 & Ho2 & He2 & Hdone2 & Hab2); [by rewrite He|].
  exists d2, ds2. split; [|split_and!; try done].
  - unfold svn_ra_svn_drive_editor2. rewrite run_gets.
    replace (2 + length (unread d))%nat with (length (received_calls absent calls) + (2 + extra))%nat.
    2:{ unfold extra. rewrite Hu, length_app in *. lia. }
    rewrite (em_bind _ _ _ _ d2 ds2 ()); [|by rewrite Hloop].
    erewrite em_bind; [|done]. cbn [discard_loop Nat.add]. erewrite em_bind; [|done]. by rewrite Hdone2.
  - by rewrite Hab2, Hab.
  - rewrite Ho2. f_equal. apply Ha.
Qed.

(** A script with a call that fails, and the end of the edit. *)
Lemma drive_failed absent calls sh p link child st ab rep d rest :
  script_shape calls no_shape = Some sh → Z.of_nat (length calls) < INT_MAX →
  perform_all editor (received_calls absent calls) (Performed st [] ∅) = (p, Some (link, child)) →
  apr_err link ≠ SVN_ERR_RA_SVN_CMD_ERR → Forall link_ok (link :: child) →
  live d → write_buf d = [] → Forall (λ n, n ≠ 0%nat) (accepts d) →
  unread d = script_text absent calls no_shape ++ abort_text ++ rest →
  ∃ d1 ds, svn_ra_svn_drive_editor2 editor st ab rep d = (d1, Ok (ds, inr ()))
  ∧ edit ds = (abort_edit editor (p_edit p)).1 ∧ aborted ds = (λ _, true) <$> ab
  ∧ live d1 ∧ unread d1 = rest ∧ output d1 = output d ++ failure_text (link :: child).
Proof.
  intros Hsc Hlt Hp Hne Hok Hl Hwb Hacc Hu. pose proof (script_text_length absent _ _ _ Hsc) as Hlen.
  set (extra := (length (unread d) - length (received_calls absent calls))%nat).
  destruct (drive_script absent calls _ _ _ _ d (abort_text ++ rest) (2 + extra) (driving_start st ab rep) Hlt Hsc Hl Hu)
    as (d1 & ds1 & more & sh1 & Ha & Hsw & Hm & Hloop & He & Hdone & Hab & _ & _).
  rewrite Hp in Hloop, He. cbn [fst snd] in *. destruct (Hsw Hwb) as (Hwb1 & _ & Hacc1).
  destruct (report_failure_run link child ds1 d1 Hdone (after_live _ _ _ Ha) ltac:(by rewrite Hacc1) Hne Hok)
    as (d2 & ds2 & Hrun & Hl2 & Hu2 & Ho2 & _ & He2 & Hdone2 & Hab2).
  pose proof (script_text_length absent _ _ _ Hm) as Hlen2. rewrite (after_unread _ _ _ Ha) in Hu2.
  set (extra2 := (length (unread d2) - length (received_calls absent more))%nat).
  destruct (discard_script absent more ds2 sh1 sh d2 rest extra2 Hdone2 Hm Hl2 Hu2) as (d3 & H3 & Ha3).
  exists d3, (set_done ds2). split; [|split_and!].
  - unfold svn_ra_svn_drive_editor2. rewrite run_gets.
    replace (2 + length (unread d))%nat with (length (received_calls absent calls) + (2 + extra))%nat.
    2:{ unfold extra. rewrite Hu, length_app in *. lia. }
    rewrite (em_bind _ _ _ _ d2 ds2 ()); [|by rewrite Hloop].
    erewrite em_bind; [|done]. cbn beta.
    replace (2 + length (unread d2))%nat with (length (received_calls absent more) + (2 + extra2))%nat; [done|].
    unfold extra2. rewrite Hu2, length_app in *. lia.
  - cbn. by rewrite He2, He.
  - cbn. rewrite Hab2, Hab. done.
  - apply Ha3.
  - apply Ha3.
  - rewrite (after_output _ _ _ Ha3), Ho2. f_equal. apply Ha.
Qed.

End Receiving.

(** ** The two sides together *)

Section Together.
Context `{BH : BlockHandler} `{!BlockHandlerOk BH} `{W : InputWaiting} `{!InputWaitingOk W} `{ErrorText}.

Definition capable c : bool := svn_ra_svn_has_capability c SVN_RA_SVN_CAP_ABSENT_ENTRIES.

(** The answer arrives in segments. *)
Definition answered c segs bs : Prop := Forall (λ segment : list byte, segment ≠ []) segs ∧ concat segs = bs.

Lemma live_answered c segs bs : live c → read_buf c = [] → answered c segs bs →
  live (set_incoming c segs) ∧ unread (set_incoming c segs) = bs.
Proof. intros [H1 H2 H3 H4] Hr [Hs <-]. split; [by split|]. unfold unread. cbn. by rewrite Hr. Qed.

Lemma send_script calls sh c :
  script_shape calls no_shape = Some sh → Z.of_nat (length calls) < INT_MAX →
  live c → incoming c = [] → read_buf c = [] → output c = [] →
  ∃ c1 eb batons, send_all calls [] (svn_ra_svn_get_editor None) c = (c1, Ok (eb, inr batons))
  ∧ live c1 ∧ read_buf c1 = [] ∧ output c1 = script_text (capable c) calls no_shape
  ∧ got_status eb = false ∧ callback eb = None.
Proof.
  intros Hsc Hlt Hl Hi Hr Ho.
  destruct (send_all_ok (capabilities c) calls no_shape sh (svn_ra_svn_get_editor None) []) as (eb & batons & Hs & (Hg & _) & Hcb);
    [by split_and!|done|done|].
  destruct (Hs c) as (c1 & H1 & (Hl1 & _ & Hr1 & _) & Ho1); [by split_and!|].
  exists c1, eb, batons. rewrite Ho in Ho1. by split_and!.
Qed.

Lemma write_no_params_emits name : emits (svn_ra_svn_write_cmd name [] []) (item_text (reply_item name [])).
Proof. by apply (write_cmd_emits name [] [] false). Qed.

(** An edit that is closed and answered. *)
Lemma close_answered eb c segs :
  got_status eb = false → callback eb = None → live c → read_buf c = [] → answered c segs success_text →
  ∃ c', ra_svn_close_edit eb (set_incoming c segs) = (c', Ok (set_got_status eb, inr ()))
  ∧ output c' = output c ++ close_text.
Proof.
  intros Hg Hcb Hl Hr Hs. destruct (live_answered _ _ _ Hl Hr Hs) as [Hl1 Hu1].
  destruct (write_no_params_emits (bytes_of "close-edit") _ (live_fits _ Hl1)) as (c2 & r & Hw & _ & Ho2 & Hr2).
  destruct (Hr2 Hl1) as (-> & Hl2 & Hs2). apply same_input_unread in Hs2. rewrite Hu1 in Hs2.
  destruct (success_parses [] [] false eq_refl c2 [] Hl2) as (c3 & H3 & Ha3); [by rewrite Hs2|].
  exists c3. split.
  - unfold ra_svn_close_edit. erewrite em_bind; [|done]. rewrite Hg. erewrite em_bind; [|done].
    erewrite em_bind; [|done]. erewrite em_bind; [|by apply on_conn_run].
    erewrite em_bind; [|apply attempt_run; by apply on_conn_run]. cbn iota.
    erewrite em_bind; [|done]. cbn [callback set_got_status]. by rewrite Hcb.
  - rewrite (after_output _ _ _ Ha3), Ho2. done.
Qed.

(** An error that arrives is found by the next operation. *)
Lemma check_answered eb c segs err :
  got_status eb = false → live c → read_buf c = [] → svn_ra_svn__input_waiting (set_incoming c segs) = true →
  answered c segs (failure_text err) → Forall link_ok err → received err ≠ [] →
  ∃ c', check_for_error eb (set_incoming c segs) = (c', Ok (set_got_status eb, inl (Reported (received err))))
  ∧ output c' = output c ++ abort_text.
Proof.
  intros Hg Hl Hr Hw Hs Hok Hne. destruct (live_answered _ _ _ Hl Hr Hs) as [Hl1 Hu1].
  destruct (write_no_params_emits (bytes_of "abort-edit") _ (live_fits _ Hl1)) as (c2 & r & Hwr & _ & Ho2 & Hr2).
  destruct (Hr2 Hl1) as (-> & Hl2 & Hs2). apply same_input_unread in Hs2. rewrite Hu1 in Hs2.
  destruct (failure_parses [] err Hok Hne c2 [] Hl2) as (c3 & H3 & Ha3); [by rewrite Hs2, app_nil_r|].
  exists c3. split.
  - unfold check_for_error. erewrite em_bind; [|done]. rewrite Hg. erewrite em_bind; [|done].
    erewrite em_bind; [|by apply on_conn_run]. rewrite Hw.
    erewrite em_bind; [|done]. erewrite em_bind; [|by apply on_conn_run].
    erewrite em_bind; [|by apply on_conn_run]. done.
  - rewrite (after_output _ _ _ Ha3), Ho2. done.
Qed.

Context {S B T : Type} (editor : receiving_editor S B T).

(** C13: The editor of svn_ra_svn_get_editor on one side of a connection and
    svn_ra_svn_drive_editor2 on the other are together the receiving editor:
    any sequence of calls that keeps the rules of an editor (with values
    that fit the protocol, and on which the receiving editor does not fail)
    is sent without an error, and the receiving side performs the same calls
    in the same order, with the same batons and text delta streams, with
    canonical paths (those of absent entries are passed on as they were
    given) and without the absent entries that the other side did not
    announce; then it closes the edit and answers with success, which
    close_edit on the sending side returns. No freed token entry is ever
    used. *)
Theorem svn_ra_svn_edit_round_trip calls sh c st st' p ab rep :
  script_shape calls no_shape = Some sh → Z.of_nat (length calls) < INT_MAX →
  live c → incoming c = [] → read_buf c = [] → output c = [] →
  perform_all editor (received_calls (capable c) calls) (Performed st [] ∅) = (p, None) →
  close_edit editor (p_edit p) = (st', Done ()) →
  ∃ c1 eb batons, send_all calls [] (svn_ra_svn_get_editor None) c = (c1, Ok (eb, inr batons))
  ∧ (∀ segs, answered c1 segs success_text →
       ∃ c2, ra_svn_close_edit eb (set_incoming c1 segs) = (c2, Ok (set_got_status eb, inr ()))
       ∧ output c2 = output c1 ++ close_text)
  ∧ ∀ d rest, live d → unread d = output c1 ++ close_text ++ rest →
    ∃ d1 ds, svn_ra_svn_drive_editor2 editor st ab rep d = (d1, Ok (ds, inr ()))
    ∧ edit ds = st' ∧ aborted ds = (λ _, false) <$> ab
    ∧ unread d1 = rest ∧ output d1 = output d ++ success_text.
Proof.
  intros Hsc Hlt Hl Hi Hr Ho Hp Hc.
  destruct (send_script calls sh c Hsc Hlt Hl Hi Hr Ho) as (c1 & eb & batons & Hs & Hl1 & Hr1 & Ho1 & Hg & Hcb).
  exists c1, eb, batons. split_and!; [done|intros segs Hsegs; by apply close_answered|].
  intros d rest Hd Hu. rewrite Ho1 in Hu.
  destruct (drive_whole editor _ _ _ _ st st' ab rep d rest Hsc Hlt Hp Hc Hd Hu) as (d1 & ds & Hrun & He & Hab & _ & Hu1 & Ho2).
  by exists d1, ds.
Qed.

(** C14: When a call of a sequence that keeps the rules of an editor fails
    on the receiving editor, whose connection takes bytes without blocking,
    svn_ra_svn_drive_editor2 makes no further call, aborts the edit, sends
    the error and reads the rest of the commands up to the abort-edit
    without performing them; the next operation on the sending side finds
    the error, sends abort-edit and returns the error chain that the
    receiving editor gave (whose parts fit the protocol), and both sides
    have then used up the same bytes. *)
Theorem svn_ra_svn_edit_failure calls sh c st link child p ab rep :
  script_shape calls no_shape = Some sh → Z.of_nat (length calls) < INT_MAX →
  live c → incoming c = [] → read_buf c = [] → output c = [] →
  perform_all editor (received_calls (capable c) calls) (Performed st [] ∅) = (p, Some (link, child)) →
  apr_err link ≠ SVN_ERR_RA_SVN_CMD_ERR → Forall link_ok (link :: child) →
  ∃ c1 eb batons, send_all calls [] (svn_ra_svn_get_editor None) c = (c1, Ok (eb, inr batons))
  ∧ (∀ segs, answered c1 segs (failure_text (link :: child)) → svn_ra_svn__input_waiting (set_incoming c1 segs) = true →
       ∃ c2, check_for_error eb (set_incoming c1 segs)
             = (c2, Ok (set_got_status eb, inl (Reported (received (link :: child)))))
       ∧ output c2 = output c1 ++ abort_text)
  ∧ ∀ d rest, live d → write_buf d = [] → Forall (λ n, n ≠ 0%nat) (accepts d) →
    unread d = output c1 ++ abort_text ++ rest →
    ∃ d1 ds, svn_ra_svn_drive_editor2 editor st ab rep d = (d1, Ok (ds, inr ()))
    ∧ edit ds = (abort_edit editor (p_edit p)).1 ∧ aborted ds = (λ _, true) <$> ab
    ∧ unread d1 = rest ∧ output d1 = output d ++ failure_text (link :: child).
Proof.
  intros Hsc Hlt Hl Hi Hr Ho Hp Hne Hok.
  destruct (send_script calls sh c Hsc Hlt Hl Hi Hr Ho) as (c1 & eb & batons & Hs & Hl1 & Hr1 & Ho1 & Hg & Hcb).
  exists c1, eb, batons. split_and!; [done| |].
  - intros segs Hsegs Hw. apply check_answered; try done. unfold received. by rewrite filter_cons_True.
  - intros d rest Hd Hwb Hacc Hu. rewrite Ho1 in Hu.
    destruct (drive_failed editor _ _ _ _ link child st ab rep d rest Hsc Hlt Hp Hne Hok Hd Hwb Hacc Hu)
      as (d1 & ds & Hrun & He & Hab & _ & Hu1 & Ho2). by exists d1, ds.
Qed.

End Together.

(** ** An editor that records its calls

    The batons are the places of the objects.  A text delta's stream is its
    file's place; [fails] is the call that fails. *)

Definition recording : Type := nat * list edit_call.

Section Recorder.
Context (fails : edit_call → option (svn_error_link * list svn_error_link)).

Definition record {A} call (k : nat) (a : recording → A) : recording → recording * outcome A := λ st,
  match fails call with
  | Some (link, child) => (st, Failed link child)
  | None => (((st.1 + k)%nat, st.2 ++ [call]), Done (a st))
  end.

Definition recorder : receiving_editor recording nat nat :=
  let kept call := record call 0 (λ _, ()) in
  let made call := record call 1 (λ st, Some st.1) in
  let the := default 0%nat in
  let copied (from : option (list byte)) (rev : Z) := (λ from, (from, rev)) <$> from in
  {|
    set_target_revision rev := kept (Target_rev rev);
    open_root rev := made (Open_root rev);
    delete_entry path rev dir := kept (Delete_entry path rev (the dir));
    add_directory path dir copy rev := made (Add_dir path (the dir) (copied copy rev));
    open_directory path dir rev := made (Open_dir path (the dir) rev);
    change_dir_prop dir name value := kept (Change_dir_prop (the dir) name value);
    close_directory dir := kept (Close_dir (the dir));
    absent_directory path dir := kept (Absent_dir path (the dir));
    add_file path dir copy rev := made (Add_file path (the dir) (copied copy rev));
    open_file path dir rev := made (Open_file path (the dir) rev);
    apply_textdelta file base := record (Apply_textdelta (the file) base) 0 (λ _, the file);
    svn_stream_write stream data := record (Textdelta_chunk stream data) 0 (λ _, stream);
    svn_stream_close stream := kept (Textdelta_end stream);
    change_file_prop file name value := kept (Change_file_prop (the file) name value);
    close_file file checksum := kept (Close_file (the file) checksum);
    absent_file path dir := kept (Absent_file path (the dir));
    close_edit st := (st, Done ());
    abort_edit st := (st, Done ());
  |}.

End Recorder.

#[local] Instance nothing_waits : InputWaiting := λ c, negb (bool_decide (incoming c = [])).
#[local] Instance nothing_waits_ok : InputWaitingOk nothing_waits.
Proof. intros c Hc. unfold svn_ra_svn__input_waiting, nothing_waits. by rewrite Hc. Qed.

Definition no_failure call : option (svn_error_link * list svn_error_link) := None.

(** A script with a text, a property and a copy. *)
Definition example_script : list edit_call :=
  [Target_rev 7; Open_root 6; Add_dir (bytes_of "A//B/") 0 (Some (bytes_of "/trunk/", 5));
   Open_file (bytes_of "iota") 0 6; Apply_textdelta 2 None; Textdelta_chunk 2 (bytes_of "SVN");
   Change_dir_prop 1 (bytes_of "p") None; Textdelta_end 2; Close_file 2 (Some (bytes_of "0f"));
   Absent_file (bytes_of "x") 0; Close_dir 1; Close_dir 0].

Definition example_failure : svn_error_link * list svn_error_link :=
  (MkLink 160028 (Some (bytes_of "out of date")) None 0, []).

Definition fails_to_close_file call : option (svn_error_link * list svn_error_link) :=
  match call with Close_file _ _ => Some example_failure | _ => None end.

Definition example_failed : performed :=
  (perform_all (recorder fails_to_close_file) (received_calls false example_script) (Performed (0%nat, []) [] ∅)).1.

Lemma svn_ra_svn_edit_round_trip_witness :
  let c := svn_ra_svn_create_conn2 [] [] in
  ∃ c1 eb batons, send_all example_script [] (svn_ra_svn_get_editor None) c = (c1, Ok (eb, inr batons))
  ∧ (∀ segs, answered c1 segs success_text →
       ∃ c2, ra_svn_close_edit eb (set_incoming c1 segs) = (c2, Ok (set_got_status eb, inr ()))
       ∧ output c2 = output c1 ++ close_text)
  ∧ ∀ d rest, live d → unread d = output c1 ++ close_text ++ rest →
    ∃ d1 ds, svn_ra_svn_drive_editor2 (recorder no_failure) (0%nat, []) (Some true) false d = (d1, Ok (ds, inr ()))
    ∧ edit ds = (3%nat, received_calls false example_script) ∧ aborted ds = Some false
    ∧ unread d1 = rest ∧ output d1 = output d ++ success_text.
Proof.
  intros c.
  eapply (svn_ra_svn_edit_round_trip (recorder no_failure) example_script _ c (0%nat, [])
    (3%nat, received_calls false example_script)).
  all: try by vm_compute.
  all: try by split; try done; cbn; lia.
Defined.

Lemma svn_ra_svn_edit_failure_witness :
  let c := svn_ra_svn_create_conn2 [] [] in
  let err := [example_failure.1] in
  ∃ c1 eb batons, send_all example_script [] (svn_ra_svn_get_editor None) c = (c1, Ok (eb, inr batons))
  ∧ (∀ segs, answered c1 segs (failure_text err) → svn_ra_svn__input_waiting (set_incoming c1 segs) = true →
       ∃ c2, check_for_error eb (set_incoming c1 segs) = (c2, Ok (set_got_status eb, inl (Reported (received err))))
       ∧ output c2 = output c1 ++ abort_text)
  ∧ ∀ d rest, live d → write_buf d = [] → Forall (λ n, n ≠ 0%nat) (accepts d) →
    unread d = output c1 ++ abort_text ++ rest →
    ∃ d1 ds, svn_ra_svn_drive_editor2 (recorder fails_to_close_file) (0%nat, []) (Some false) false d
             = (d1, Ok (ds, inr ()))
    ∧ edit ds = (3%nat, received_calls false (take 8 example_script)) ∧ aborted ds = Some true
    ∧ unread d1 = rest ∧ output d1 = output d ++ failure_text err.
Proof.
  intros c err.
  assert (Forall link_ok err) as Herr.
  { apply Forall_singleton. split; cbn; [lia|lia| |done]. split; [by apply (bool_decide_eq_true_1 _)|by vm_compute]. }
  assert ((abort_edit (recorder fails_to_close_file) (p_edit example_failed)).1
    = (3%nat, received_calls false (take 8 example_script))) as <- by (vm_compute; reflexivity).
  eapply (svn_ra_svn_edit_failure (recorder fails_to_close_file) example_script _ c (0%nat, [])
    example_failure.1 [] example_failed (Some false) false).
  all: try by vm_compute.
  by split; try done; cbn; lia.
Defined.

(** ** Undefined behaviour of the receiving side

    A client's directory that is closed before its subdirectory: the
    subdirectory's entry was in its pool, and its token is still in the table. *)
Lemma close_dir_freed :
  let d := svn_ra_svn_create_conn2
    [bytes_of "( open-root ( ( ) 2:d0 ) ) ( open-dir ( 1:a 2:d0 2:d1 ( ) ) ) ( close-dir ( 2:d0 ) ) ( close-dir ( 2:d1 ) ) "] [] in
  (svn_ra_svn_drive_editor2 (recorder no_failure) (0%nat, []) (Some false) false d).2 = Undefined.
Proof. by vm_compute. Qed.

(** After a command failed, an item that is not a command: the name that is
    compared is the previous one, in a pool that was cleared. *)
Lemma discard_freed :
  let d := svn_ra_svn_create_conn2 [bytes_of "( no-command ( ) ) 5 "] [] in
  (svn_ra_svn_drive_editor2 (recorder no_failure) (0%nat, []) (Some false) false d).2 = Undefined.
Proof. by vm_compute. Qed.
